(* ===== verification/_CoqProject ===== *)
-Q . S2P
Prelude.v
Principal.v
Services64.v
Capability.v
CapabilitySpec.v
CapabilityFacts.v
CapabilityProps.v
CapabilityTheorems.v
Process.v
ProcessFacts.v
ProcessTheorems.v
AuditNames.v
PersonaAudit.v
PersonaAuditFacts.v
AuditTheorems.v
PersonaBudget.v
Pipe.v
PipeFacts.v
PipeIO.v
Fd.v
FdFacts.v
FdOps.v
Demo.v
PipeTheorems.v
FdTheorems.v
Paging.v
PagingFacts.v
PagingOps.v
PagingRoots.v
PagingTheorems.v
Scheduler.v
SchedFacts.v
SchedOps.v
SchedSteps.v
SchedCalls.v
SchedQueue.v
SchedTheorems.v
KernelPipes.v
KernelTheorems.v
VmaTree.v
RbTree.v
VmaRb.v
VmaList.v
VmaSpace.v
VmaSpaceOps.v
VmaGap.v
Vma.v
VmaFacts.v
VmaOps.v
VmaSteps.v
VmaCalls.v
VmaRelease.v
VmaProtect.v
VmaCow.v
VmaFork.v
VmaWorld.v
VmaTheorems.v
ElfParse.v
ElfFacts.v
Elf64.v
ElfMemory.v
ElfStack.v
ElfLoad.v
ElfSegments.v
ElfTheorems.v
Auth.v
AuthFacts.v
AuthStore.v
AuthGate.v
AuthSizes.v
AuthTheorems.v
WindowsHandle.v
WindowsInv.v
WindowsCalls.v
WindowsObjects.v
WindowsSync.v
WindowsRuns.v
WindowsTheorems.v
WindowsRegistry.v
RegistryTheorems.v
