(* ===== verification/Prelude.v ===== *)
(** * LimitlessOS: a verification of its 64-bit kernel

    LimitlessOS runs Linux, Windows and macOS programs ("personas") on one
    kernel.  This library models the core of the x86-64 kernel
    (src/kernel/arch/x86_64/ with src/kernel/include/) in the configuration
    the UEFI build compiles (LIMITLESS_X64_UEFI_KERNEL), and proves what makes
    it correct.

    ** How code is modelled

    A C integer is a [Z] in the range of its type; operations that can leave
    the range are followed by [wrap32] or [wrap64] (this file).  A struct is a
    record with the fields of the source, a static array of structs a list of
    records, a pointer into it an index, with [None] or 0 for NULL as the code
    tests it.  The globals of a C file are one record, and every function of
    the file is one definition of the same name: a computation in the state
    monad [ST] of this file over that record, or a pure function of it when it
    only reads.  Loops over a static table are folds over its indices
    ([fold_range], [for_range], [find_index]); a loop whose bound is not a constant is a
    [Fixpoint] with fuel, and the theorems show that the fuel is never used
    up.  Self-test and tracing output is left out.

    ** Parts, files and sources

    - Principals and services (Principal.v, Services64.v: principal.c,
      services.c): the fixed tables of who may call and what can be called.
    - The capability broker (Capability.v: capability.c).  Handles with
      rights, an owner, a lease and a parent; grant, delegate, route, revoke
      with its cascade.  CapabilitySpec.v is the abstract broker, a finite map
      from handles to records; CapabilityFacts.v the simulation;
      CapabilityProps.v the invariant of reachable tables.  Clock, process
      table and audit log are the interface [CapEnv].
    - The process table (Process.v, ProcessFacts.v: process.c).  Seven boot
      processes and sixteen clones; spawn, fork, release, the slots where
      other parts attach their objects, the page root handshake.  Launch
      contracts are the interface [LaunchEnv].
    - The persona audit log (AuditNames.v, PersonaAudit.v, PersonaAuditFacts.v:
      persona_audit.c) and the persona budgets (PersonaBudget.v: the budget
      functions of persona.c).
    - Pipes (Pipe.v, PipeFacts.v, PipeIO.v: pipe.c).  Circular buffers behind
      generation-stamped handles.  Scheduler and capabilities are the
      interface [PipeWorld].
    - Descriptors (Fd.v, FdFacts.v, FdOps.v: fd.c, and the descriptor side of
      pipe.c).  [FdWorld] is the rest of the kernel, [FdLaws] what it
      promises; Demo.v is a small instance of both.
    - Paging (Paging.v, PagingFacts.v, PagingOps.v, PagingRoots.v: paging.c).
      Frames of 512 words at the addresses the code computes, the roots of
      processes and their user pages, CR3, and the walk of the processor.
      [PagingSymbols] gives the addresses the linker chose, [PagingLayout]
      says that they are aligned and apart.
    - The scheduler (Scheduler.v, SchedFacts.v, SchedOps.v, SchedSteps.v,
      SchedCalls.v, SchedQueue.v: scheduler.c).  Tasks with saved frames, the
      choice of the next one, sleepers, the switch of CR3 and of the FS base,
      over the process table and the page roots as modelled here.  Timer,
      personas and signals are the interface [SchedWorld].
    - Address spaces (VmaTree.v, Vma.v: vma.c).  Regions linked in a list and
      in a red-black tree with parent pointers, reference-counted anonymous
      pages, map, unmap, protect, copy on write, fork, release, break.
      RbTree.v is the reference tree, VmaRb.v the refinement of the pointer
      code to it; VmaList.v, VmaSpace.v, VmaSpaceOps.v and VmaGap.v treat one
      address space, VmaFacts.v, VmaOps.v, VmaSteps.v, VmaCalls.v,
      VmaRelease.v, VmaProtect.v, VmaCow.v and VmaFork.v the calls.  Page
      tables are the interface [VmaPaging] with [VmaPagingLaws], which
      VmaWorld.v implements with Paging.v.
    - The kernel put together (KernelPipes.v): pipes over the
      scheduler and the process table, an instance of [PipeWorld].
    - The ELF loader (ElfParse.v, ElfFacts.v: the parsers of elf64.c; Elf64.v,
      ElfMemory.v, ElfLoad.v, ElfSegments.v, ElfStack.v: segments, RELRO,
      auxiliary vector, initial stack and launch).  It runs over the address
      space model; personas, VDSO and the entry to user mode are the
      interface [ElfWorld].
    - Local accounts (Auth.v, AuthFacts.v, AuthStore.v, AuthGate.v,
      AuthSizes.v: auth.c).  The user record and its parser, hashing,
      the login gate and its first run, the count of failures and the
      lockout, the session lock.  Keyboard, disk, clock, entropy, bcrypt and
      the capability broker are the interface [AuthWorld]; [AuthStorage],
      [AuthClock], [AuthTimer] and [AuthCounts] say what theorems rely on.
    - Windows handles (WindowsHandle.v: windows_handle.c).  Handle tables of
      processes, the events and mutants handles name, and their waiters.
      WindowsInv.v, WindowsCalls.v and WindowsObjects.v carry the invariant
      through every call; WindowsSync.v is the specification, signals and
      reentrant locks, and its refinement, WindowsRuns.v the reachable states.
      Capabilities, files and the audit log are the interface [HandleWorld].
    - The Windows registry (WindowsRegistry.v: windows_registry.c).  Fixed keys
      and values, keys that programs create, and key handles.
      RegistryTheorems.v has the specification, a list of names, and the way
      from a handle back to its key; [GrantLaws] says what that needs of the
      broker.

    The theorems of a part are in the file named after it that ends in
    Theorems, each hypothesis shown to hold by a run of the model.

    ** What is shown

    - Authority: every broker call is the call of the abstract broker; in
      every reachable table a live capability is bounded by its endpoint and
      its live ancestor; a revoked handle and what was delegated from it never
      route again; delegation attenuates.
    - Identity: process calls are calls on a map from pids to records; live
      pids are distinct and counts exact.  The audit log is a bounded log.
    - Data: pipes are FIFO byte streams under any script of reads and writes;
      descriptor calls keep reference counts between one and the number of
      aliases, duplicates and closes make them exact, and closing revokes
      exactly at the last alias.
    - Memory: any sequence of calls keeps list, tree, counters and ownership
      of every address space in agreement; the pointer tree is a balanced
      red-black tree; each call changes the mappings by exactly what it
      reports; a forked process and a write to a shared page get pages of
      their own with the bytes of the old ones.  Page roots stay linked to
      tables of their own below the shared upper half, the walk of the processor agrees with the queries, and installing a page touches no
      other page.
    - Time: the scheduler keeps one running task, under its own page root; the
      timer wakes the sleepers due by its own clock and resumes the task the
      policy prefers; a preempted task resumes with its registers; ready tasks get their turn;
      sleeps end on time.
    - Composition: a reader that gave the processor away on an empty pipe runs
      again, with its result, at the timer interrupt after a write that fits.
    - Programs: parsing accepts exactly the encodings it should and reads
      nothing outside the image; a load gives each segment its area and
      bytes, or takes back what it mapped; the initial stack is the one of the ABI.
    - Accounts: a saved account is the one loaded later; gate and lock open
      exactly for the stored credentials; guesses cost time; buffers are never
      overrun, the terminator of a typed line included.
    - Windows objects: events and mutants live exactly while a handle names
      them and behave as signals and locks; a close revokes exactly the last
      share of a capability; an auto-reset event lets through no more waits
      than it was set.
    - The Windows registry: keys are found and made as in a list of names; a
      query through the handle of a key answers with the values of that key.

    Some theorems are about what the code does and should not: a lease that
    overflows into a permanent one, pids that repeat after a wrap, a write
    that strands the reader of its pipe, a task without a page root that runs
    in a foreign one, a mutant that outlives the process that owns it.

    ** Fuel and bounds

    Walks over region links have fuel [link_fuel] = 1153, one more than the
    pool holds; [space] bounds every chain by the pool, so the walks end
    before.  Transfer loops of pipes run once per byte asked for.  The spin
    loop of a sleep has the bound of the code, at most 1000000.  The waiting
    loops of the login have fuel: [None] is a call that still waits, as the
    code does for input without a limit, and waits with a limit end with
    [enough] fuel for their ticks.  Everything
    else recurses on tables of constant size.

    ** Not modelled

    Interrupt entry, drivers, display, shell, boot and the self tests are
    device access or output.  The bodies of the persona system calls work on
    user memory and files that are not modelled; the calls they end in are.
    The kernel's own mappings are set up once at boot.  Only one processor
    runs and kernel code is not preempted, so a call is one step.  Tables are
    identity-mapped, as the code assumes when it turns the pointer of a static
    table into its frame number. *)

From stdpp Require Export base tactics numbers list option sets gmap.
From Stdlib Require Export ZArith Lia Bool.

(* -------------------------------------------------------------------- *)
(** ** Machine words

    Every C integer is a [Z].  A [u32]/[u64] value lies in
    [0 <= z < 2^32] / [0 <= z < 2^64], and each C operation that can leave
    that range is followed by an explicit [wrap32]/[wrap64]. *)

Declare Scope word_scope.
Delimit Scope word_scope with word.

Definition U32_MAX : Z := 0xFFFFFFFF.
Definition wrap32 (z : Z) : Z := z mod 2 ^ 32.
Definition wrap64 (z : Z) : Z := z mod 2 ^ 64.
Definition fits32 (z : Z) : Prop := (0 <= z < 2 ^ 32)%Z.
Definition fits64 (z : Z) : Prop := (0 <= z < 2 ^ 64)%Z.

(** [a + b], [a - b], [a * b], [~a] and [a << b] on [u32]. *)
Definition add32 (a b : Z) : Z := wrap32 (a + b).
Definition sub32 (a b : Z) : Z := wrap32 (a - b).
Definition mul32 (a b : Z) : Z := wrap32 (a * b).
Definition not32 (a : Z) : Z := Z.lxor a U32_MAX.
Definition shl32 (a b : Z) : Z := wrap32 (Z.shiftl a b).
Definition add64 (a b : Z) : Z := wrap64 (a + b).
Definition sub64 (a b : Z) : Z := wrap64 (a - b).
Definition not64 (a : Z) : Z := Z.lxor a 0xFFFFFFFFFFFFFFFF.
Definition inc32 (a : Z) : Z := add32 a 1.
Definition dec32 (a : Z) : Z := sub32 a 1.

(** The C truth value of an integer, and the integer of a truth value. *)
Definition nz (z : Z) : bool := negb (z =? 0)%Z.
Definition b2z (b : bool) : Z := if b then 1%Z else 0%Z.

Infix "+u" := add32 (at level 50, left associativity) : word_scope.
Infix "-u" := sub32 (at level 50, left associativity) : word_scope.
Infix "&u" := Z.land (at level 40, left associativity) : word_scope.
Infix "|u" := Z.lor (at level 50, left associativity) : word_scope.
Notation "~u a" := (not32 a) (at level 35, right associativity) : word_scope.

(* -------------------------------------------------------------------- *)
(** ** Record update

    [r <| f := v |>] is the C assignment [r.f = v].  The setter of a field
    is computed from the eta expansion of the record, given once per record
    by an [Eta] instance. *)

Class Eta (R : Type) := { eta : R -> R }.
Class Setter {R E : Type} (proj : R -> E) := { setter : E -> R -> R }.

Ltac solve_setter :=
  lazymatch goal with
  | |- @Setter ?R ?E ?proj =>
      constructor;
      let v := fresh "v" in
      let r := fresh "r" in
      intros v r;
      let inst := constr:(_ : Eta R) in
      let body := eval hnf in (@eta R inst r) in
      lazymatch eval pattern (proj r) in body with
      | ?F _ => let t := eval cbv beta in (F v) in exact t
      end
  end.

#[export] Hint Extern 0 (Setter _) => solve_setter : typeclass_instances.

Notation "r <| f := v |>" := (setter (proj := f) v r)
  (at level 1, f at level 10, v at level 200, left associativity,
   format "r  <|  f  :=  v  |>").

(* -------------------------------------------------------------------- *)
(** ** A state monad for the kernel's global state

    An operation of a component with state [S] that returns an [A] is a
    total function [S -> A * S]. *)

Definition ST (S A : Type) : Type := S -> A * S.

Section monad.
Context {S : Type}.

Definition ret {A} (a : A) : ST S A := fun s => (a, s).
Definition bind {A B} (m : ST S A) (k : A -> ST S B) : ST S B :=
  fun s => let p := m s in k (fst p) (snd p).
Definition gets {A} (f : S -> A) : ST S A := fun s => (f s, s).
Definition modify (f : S -> S) : ST S unit := fun s => (tt, f s).

(** [for (i = 0; i < n; ++i) body(i);] with no early exit, where [acc] is
    a local variable the body updates. *)
Fixpoint fold_each {B} (ixs : list nat) (acc : B) (body : nat -> B -> ST S B) : ST S B :=
  match ixs with
  | [] => ret acc
  | i :: ixs' => bind (body i acc) (fun acc' => fold_each ixs' acc' body)
  end.
Definition fold_range {B} (n : nat) (acc : B) (body : nat -> B -> ST S B) : ST S B :=
  fold_each (seq 0 n) acc body.
Definition for_range (n : nat) (body : nat -> ST S unit) : ST S unit :=
  fold_range n tt (fun i _ => body i).
End monad.

Declare Scope kernel_scope.
Delimit Scope kernel_scope with kernel.

Notation "x <- m ;; k" := (bind m (fun x => k))
  (at level 100, m at next level, right associativity,
   format "x  <-  m  ;;  '//' k") : kernel_scope.
Notation "m ;;; k" := (bind m (fun _ => k))
  (at level 100, right associativity,
   format "m  ;;;  '//' k") : kernel_scope.

(** ** Weakest preconditions: [wp m Q s] holds when running [m] from [s]
    gives a result and a final state satisfying [Q]. *)

Definition wp {S A} (m : ST S A) (Q : A -> S -> Prop) (s : S) : Prop :=
  Q (fst (m s)) (snd (m s)).

(** [m] keeps the invariant [I], whatever it returns. *)
Definition preserves {S A} (I : S -> Prop) (m : ST S A) : Prop :=
  forall s, I s -> wp m (fun _ s' => I s') s.

Section wp_rules.
Context {S : Type}.
Implicit Types s : S.

Lemma wp_ret {A} (a : A) (Q : A -> S -> Prop) s : Q a s -> wp (ret a) Q s.
Proof. auto. Qed.

Lemma wp_bind {A B} (m : ST S A) (k : A -> ST S B) Q s :
  wp m (fun a s' => wp (k a) Q s') s -> wp (bind m k) Q s.
Proof. auto. Qed.

Lemma wp_unbind {A B} (m : ST S A) (k : A -> ST S B) Q s :
  wp (bind m k) Q s -> wp m (fun a s' => wp (k a) Q s') s.
Proof. auto. Qed.

Lemma wp_assoc {A B C} (m : ST S A) (f : A -> ST S B) (k : B -> ST S C) Q s :
  wp (bind m f) (fun b s' => wp (k b) Q s') s -> wp (bind m (fun a => bind (f a) k)) Q s.
Proof. auto. Qed.

Lemma wp_gets {A} (f : S -> A) (Q : A -> S -> Prop) s : Q (f s) s -> wp (gets f) Q s.
Proof. auto. Qed.

Lemma wp_modify (f : S -> S) (Q : unit -> S -> Prop) s : Q tt (f s) -> wp (modify f) Q s.
Proof. auto. Qed.

Lemma wp_mono {A} (m : ST S A) (P Q : A -> S -> Prop) s :
  wp m P s -> (forall a s', P a s' -> Q a s') -> wp m Q s.
Proof. intros HP HPQ. by apply HPQ. Qed.

Lemma wp_run {A} (m : ST S A) (Q : A -> S -> Prop) s a s' :
  m s = (a, s') -> wp m Q s -> Q a s'.
Proof. unfold wp. intros ->. done. Qed.

Lemma preserves_ret {A} (I : S -> Prop) (a : A) : preserves I (ret a).
Proof. intros s HI. exact HI. Qed.

Lemma preserves_gets {A} (I : S -> Prop) (f : S -> A) : preserves I (gets f).
Proof. intros s HI. exact HI. Qed.

Lemma preserves_bind {A B} (I : S -> Prop) (m : ST S A) (k : A -> ST S B) :
  preserves I m -> (forall a, preserves I (k a)) -> preserves I (bind m k).
Proof. intros Hm Hk s HI. apply wp_bind. apply Hk, Hm, HI. Qed.

(** With a fact about the intermediate result. *)
Lemma preserves_bind_post {A B} (I : S -> Prop) (P : A -> Prop) (m : ST S A) (k : A -> ST S B) :
  (forall s, I s -> wp m (fun a s' => I s' /\ P a) s) -> (forall a, P a -> preserves I (k a)) ->
  preserves I (bind m k).
Proof. intros Hm Hk s HI. apply wp_bind. destruct (Hm s HI) as [H1 H2]. by apply Hk. Qed.

Lemma preserves_if {A} (I : S -> Prop) (b : bool) (m1 m2 : ST S A) :
  preserves I m1 -> preserves I m2 -> preserves I (if b then m1 else m2).
Proof. destruct b; auto. Qed.

Lemma preserves_option {A B} (I : S -> Prop) (o : option A) (f : A -> ST S B) (d : ST S B) :
  (forall a, preserves I (f a)) -> preserves I d ->
  preserves I (match o with Some a => f a | None => d end).
Proof. destruct o; auto. Qed.

Lemma preserves_modify (I : S -> Prop) (f : S -> S) :
  (forall s, I s -> I (f s)) -> preserves I (modify f).
Proof. intros H s HI. by apply wp_modify, H. Qed.

Lemma preserves_fold_each {B} (I : S -> Prop) (ixs : list nat) (acc : B) body :
  (forall i b, i ∈ ixs -> preserves I (body i b)) -> preserves I (fold_each ixs acc body).
Proof.
  revert acc. induction ixs as [|i ixs IH]; intros acc H; simpl; [apply preserves_ret|].
  apply preserves_bind; [apply H; set_solver|].
  intros b. apply IH. intros j b' Hj. apply H. set_solver.
Qed.

Lemma wp_fold_range {B} (n : nat) (acc : B) body (J : nat -> B -> S -> Prop) s :
  J 0 acc s ->
  (forall i b s', i < n -> J i b s' -> wp (body i b) (fun b' s'' => J (1 + i) b' s'') s') ->
  wp (fold_range n acc body) (fun b s' => J n b s') s.
Proof.
  intros H0 Hstep. unfold fold_range.
  cut (forall m k b s', k + m = n -> J k b s' ->
         wp (fold_each (seq k m) b body) (fun b' s'' => J n b' s'') s').
  { intros H. by apply (H n 0). }
  induction m as [|m IH]; intros k b s' Hk HJ; simpl.
  - apply wp_ret. by replace n with k by lia.
  - apply wp_bind. eapply wp_mono; [apply Hstep; [lia|done]|].
    intros b' s''. apply IH. lia.
Qed.

Lemma wp_for_range (n : nat) (body : nat -> ST S unit) (J : nat -> S -> Prop) s :
  J 0 s ->
  (forall i s', i < n -> J i s' -> wp (body i) (fun _ s'' => J (1 + i) s'') s') ->
  wp (for_range n body) (fun _ s' => J n s') s.
Proof. intros H0 Hstep. apply (wp_fold_range n tt _ (fun i _ => J i)); auto. Qed.
End wp_rules.

Create HintDb kernel.
#[export] Hint Resolve preserves_ret preserves_gets preserves_bind preserves_if
  preserves_option preserves_fold_each : kernel.
#[export] Hint Resolve wp_ret wp_gets wp_modify : kernel.

(** Split a preservation goal along the structure of the operation. *)
Ltac preserves_step :=
  match goal with
  | |- preserves _ (bind _ _) => apply preserves_bind; [| intros ?]
  | |- preserves _ (ret _) => apply preserves_ret
  | |- preserves _ (gets _) => apply preserves_gets
  | |- preserves _ (if _ then _ else _) => apply preserves_if
  | |- preserves _ (match _ with Some _ => _ | None => _ end) =>
      apply preserves_option; [intros ?|]
  | |- preserves _ (for_range _ _) => apply preserves_fold_each; intros ? ? ?
  | |- preserves _ (fold_range _ _ _) => apply preserves_fold_each; intros ? ? ?
  end.
Ltac preserves_auto := repeat preserves_step; eauto with kernel.

(** Step through an operation under [wp]; conditions are cased with their
    equations kept. *)
Ltac wp_step :=
  match goal with
  | |- wp (bind _ _) _ _ => apply wp_bind
  | |- wp (ret _) _ _ => apply wp_ret
  | |- wp (gets _) _ _ => apply wp_gets
  | |- wp (modify _) _ _ => apply wp_modify
  | |- wp (if ?b then _ else _) _ _ => let E := fresh "E" in destruct b eqn:E
  | |- wp (match ?o with Some _ => _ | None => _ end) _ _ =>
      let E := fresh "E" in destruct o eqn:E
  end.

(** Counters and other one-line updates, unfolded on the way. *)
Create HintDb counters.
Ltac wp_steps := repeat first [wp_step | progress (autounfold with counters)].

(** Boolean hypotheses to propositions. *)
Ltac boolify :=
  repeat match goal with
  | H : (_ && _) = true |- _ => apply andb_true_iff in H as [? ?]
  | H : (_ || _) = false |- _ => apply orb_false_iff in H as [? ?]
  | H : negb _ = true |- _ => apply negb_true_iff in H
  | H : negb _ = false |- _ => apply negb_false_iff in H
  | H : (_ =? _)%Z = true |- _ => apply Z.eqb_eq in H
  | H : (_ =? _)%Z = false |- _ => apply Z.eqb_neq in H
  | H : (_ <=? _)%Z = true |- _ => apply Z.leb_le in H
  | H : (_ <=? _)%Z = false |- _ => apply Z.leb_gt in H
  | H : (_ <? _)%Z = true |- _ => apply Z.ltb_lt in H
  | H : (_ <? _)%Z = false |- _ => apply Z.ltb_ge in H
  end.

Lemma nz_true z : nz z = true <-> z <> 0%Z.
Proof. unfold nz. rewrite negb_true_iff. apply Z.eqb_neq. Qed.
Lemma nz_false z : nz z = false <-> z = 0%Z.
Proof. unfold nz. rewrite negb_false_iff. apply Z.eqb_eq. Qed.

Lemma wrap32_small z : fits32 z -> wrap32 z = z.
Proof. apply Z.mod_small. Qed.
Lemma wrap32_fits z : fits32 (wrap32 z).
Proof. apply Z.mod_pos_bound. lia. Qed.
Lemma inc32_small z : (0 <= z < U32_MAX)%Z -> inc32 z = (z + 1)%Z.
Proof. intros H. apply wrap32_small. unfold fits32, U32_MAX in *. lia. Qed.
#[export] Hint Resolve wrap32_fits : kernel.

(** Packing a field above [n] low bits, as [(a << n) | b]. *)
Lemma lor_shiftl_add a n b :
  (0 <= n -> 0 <= b < 2 ^ n -> Z.lor (Z.shiftl a n) b = a * 2 ^ n + b)%Z.
Proof.
  intros Hn Hb. rewrite <- Z.shiftl_mul_pow2, <- Z.add_lor_land by lia.
  enough (Z.land (Z.shiftl a n) b = 0)%Z as -> by lia.
  apply Z.bits_inj'. intros i Hi. rewrite Z.land_spec, Z.bits_0.
  destruct (Z.lt_ge_cases i n); [by rewrite Z.shiftl_spec_low|].
  replace (Z.testbit b i) with false; [apply andb_false_r|].
  rewrite <- (Z.mod_small b (2 ^ n)) by lia. symmetry. by apply Z.mod_pow2_bits_high.
Qed.

(* -------------------------------------------------------------------- *)
(** ** Fixed tables

    A C array is a [list]; a pointer into it is an index.  The search loops
    of the kernel (scan from slot 0, return the first match) are
    [find_index]. *)

Fixpoint find_index {A} (P : A -> bool) (l : list A) : option nat :=
  match l with
  | [] => None
  | x :: l' => if P x then Some 0 else S <$> find_index P l'
  end.

(** The number of slots that satisfy [P]. *)
Definition count_if {A} (P : A -> bool) (l : list A) : nat :=
  length (List.filter P l).

Section tables.
Context {A : Type}.
Implicit Types (P : A -> bool) (l : list A).

Lemma find_index_Some P l i :
  find_index P l = Some i <->
  exists x, l !! i = Some x /\ P x = true /\
    (forall j y, j < i -> l !! j = Some y -> P y = false).
Proof.
  revert i; induction l as [|x l IH]; intros i; simpl.
  { split; [done|]. intros (y & Hy & _). by rewrite lookup_nil in Hy. }
  destruct (P x) eqn:HP.
  - split.
    + intros [= <-]. exists x. split_and!; [done|done|]. intros; lia.
    + intros (y & Hy & HPy & Hmin). destruct i as [|i]; [done|].
      by rewrite (Hmin 0 x ltac:(lia) eq_refl) in HP.
  - rewrite fmap_Some. split.
    + intros (k & Hk & ->). apply IH in Hk as (y & Hy & HPy & Hmin).
      exists y. split_and!; [done|done|]. intros [|j] z Hj Hz; simpl in Hz; [congruence|].
      apply (Hmin j z); [lia|done].
    + intros (y & Hy & HPy & Hmin). destruct i as [|i]; simpl in Hy; [congruence|].
      exists i. split; [|done]. apply IH. exists y. split_and!; [done|done|].
      intros j z Hj Hz. by apply (Hmin (S j) z); [lia|].
Qed.

Lemma find_index_lookup P l i :
  find_index P l = Some i -> exists x, l !! i = Some x /\ P x = true.
Proof. rewrite find_index_Some. naive_solver. Qed.

Lemma find_index_None P l :
  find_index P l = None <-> forall x, x ∈ l -> P x = false.
Proof.
  induction l as [|x l IH]; simpl.
  { split; [|done]. intros _ y Hy. by apply not_elem_of_nil in Hy. }
  destruct (P x) eqn:HP.
  - split; [done|]. intros H. rewrite (H x) in HP by set_solver. done.
  - rewrite fmap_None, IH. split; intros H y.
    + intros [->|Hy]%elem_of_cons; auto.
    + intros Hy. apply H. set_solver.
Qed.

Lemma find_index_lt P l i : find_index P l = Some i -> i < length l.
Proof. intros (x & Hx & _)%find_index_lookup. by eapply lookup_lt_Some. Qed.

(** With at most one match, the search finds exactly that slot. *)
Lemma find_index_unique P l i x :
  l !! i = Some x -> P x = true ->
  (forall j y, l !! j = Some y -> P y = true -> j = i) ->
  find_index P l = Some i.
Proof.
  intros Hx HP Huniq. apply find_index_Some. exists x. split_and!; [done|done|].
  intros j y Hj Hy. destruct (P y) eqn:HPy; [|done].
  specialize (Huniq j y Hy HPy). lia.
Qed.

Lemma count_if_le P l : count_if P l <= length l.
Proof. apply filter_length_le. Qed.

Lemma count_if_all P l : (forall x, x ∈ l -> P x = true) -> count_if P l = length l.
Proof.
  unfold count_if. induction l as [|x l IH]; intros H; simpl; [done|].
  rewrite (H x) by set_solver. simpl. f_equal. apply IH. set_solver.
Qed.

Lemma count_if_none P l : (forall x, x ∈ l -> P x = false) -> count_if P l = 0.
Proof.
  unfold count_if. induction l as [|x l IH]; intros H; simpl; [done|].
  rewrite (H x) by set_solver. apply IH. set_solver.
Qed.

Lemma count_if_pos P l i x : l !! i = Some x -> P x = true -> 0 < count_if P l.
Proof.
  unfold count_if. revert i. induction l as [|y l IH]; intros [|i] Hi HP; simplify_eq/=.
  - rewrite HP. simpl. lia.
  - specialize (IH i Hi HP). destruct (P y); simpl; lia.
Qed.

Lemma count_if_lt P l i x : l !! i = Some x -> P x = false -> count_if P l < length l.
Proof.
  unfold count_if. revert i. induction l as [|y l IH]; intros [|i] Hi HP; simplify_eq/=.
  - rewrite HP. apply Nat.lt_succ_r, filter_length_le.
  - specialize (IH i Hi HP). destruct (P y); simpl; lia.
Qed.

Lemma lookup_alter_Some (f : A -> A) l i j y :
  alter f i l !! j = Some y ->
  exists x, l !! j = Some x /\ y = (if decide (i = j) then f x else x).
Proof.
  rewrite list_lookup_alter. case_decide; [subst|].
  - rewrite fmap_Some. naive_solver.
  - intros ?. by eexists.
Qed.

(** Two changes of one slot, and a change that does nothing there. *)
Lemma alter_twice (f g : A -> A) l i : alter f i (alter g i l) = alter (fun x => f (g x)) i l.
Proof. revert i. induction l as [|x l IH]; intros [|i]; [done..|]. simpl. f_equal. apply IH. Qed.

Lemma alter_id_at (f : A -> A) l i : (forall x, l !! i = Some x -> f x = x) -> alter f i l = l.
Proof.
  revert i. induction l as [|x l IH]; intros [|i] H; simpl; [done|done| |]; f_equal.
  - by apply H.
  - by apply IH.
Qed.

Lemma count_if_alter_flip P l i x (f : A -> A) :
  l !! i = Some x -> P x = true -> P (f x) = false ->
  count_if P l = S (count_if P (alter f i l)).
Proof.
  unfold count_if. revert i; induction l as [|y l IH]; intros [|i] Hx HP HPf;
    simplify_eq/=.
  - by rewrite HP, HPf.
  - specialize (IH i Hx HP HPf). destruct (P y); simpl; congruence.
Qed.

(** One slot changes, the count moves with it. *)
Lemma count_if_alter P l i x (f : A -> A) :
  l !! i = Some x ->
  count_if P (alter f i l) + Nat.b2n (P x) = count_if P l + Nat.b2n (P (f x)).
Proof.
  unfold count_if. revert i; induction l as [|y l IH]; intros [|i] Hx; simplify_eq/=.
  - destruct (P x), (P (f x)); simpl; lia.
  - specialize (IH i Hx). destruct (P y); simpl; lia.
Qed.

Lemma count_if_alter_same P l i (f : A -> A) :
  (forall x, l !! i = Some x -> P (f x) = P x) ->
  count_if P (alter f i l) = count_if P l.
Proof.
  unfold count_if. revert i; induction l as [|y l IH]; intros [|i] H; simpl; [done|done| |].
  - rewrite (H y) by done. by destruct (P y).
  - specialize (IH i H). destruct (P y); simpl; [f_equal|]; exact IH.
Qed.
End tables.

(** Counting over mapped tables. *)

Lemma count_if_fmap {A B} (P : B -> bool) (g : A -> B) (l : list A) :
  count_if P (g <$> l) = count_if (fun a => P (g a)) l.
Proof.
  unfold count_if. induction l as [|a l IH]; simpl; [done|].
  destruct (P (g a)); simpl; [f_equal|]; exact IH.
Qed.

Lemma count_if_ext {A} (P Q : A -> bool) (l : list A) :
  (forall x, x ∈ l -> P x = Q x) -> count_if P l = count_if Q l.
Proof.
  unfold count_if. induction l as [|a l IH]; intros H; simpl; [done|].
  assert (IH' := IH ltac:(set_solver)). rewrite (H a) by set_solver.
  destruct (Q a); simpl; [f_equal|]; exact IH'.
Qed.
