(* ===== verification/Principal.v ===== *)
(** * Principals: kernel/arch/x86_64/principal.c

    The fixed table of security principals and its lookups.  Every
    capability operation checks its caller against this table. *)

From S2P Require Import Prelude.
From stdpp Require Import strings.
Local Open Scope Z_scope.

Module Principal.

Definition PRINCIPAL64_ID_SYSTEM : Z := 0x0001.
Definition PRINCIPAL64_ID_POLICY_CLIENT : Z := 0x0101.
Definition PRINCIPAL64_ID_POLICY_WORKER : Z := 0x0102.
Definition PRINCIPAL64_ID_CONSOLE_CLIENT : Z := 0x0201.
Definition PRINCIPAL64_ID_CONSOLE_WORKER : Z := 0x0202.
Definition PRINCIPAL64_ID_INIT_SUPERVISOR : Z := 0x1001.
Definition PRINCIPAL64_ID_DRIVER_HOST : Z := 0x1002.
Definition PRINCIPAL64_ID_RAMFS_WORKER : Z := 0x1003.
Definition PRINCIPAL64_ID_INPUT_WORKER : Z := 0x1004.
Definition PRINCIPAL64_ID_TELEMETRY : Z := 0x1005.
Definition PRINCIPAL64_ID_BLOCK_WORKER : Z := 0x1006.

Definition PRINCIPAL64_ROLE_SYSTEM : Z := 0x001.
Definition PRINCIPAL64_ROLE_SERVICE_CLIENT : Z := 0x002.
Definition PRINCIPAL64_ROLE_WORKER : Z := 0x004.
Definition PRINCIPAL64_ROLE_INTERACTIVE : Z := 0x008.
Definition PRINCIPAL64_ROLE_SERVICE : Z := 0x010.
Definition PRINCIPAL64_ROLE_STORAGE : Z := 0x020.
Definition PRINCIPAL64_ROLE_INPUT : Z := 0x040.
Definition PRINCIPAL64_ROLE_DRIVER : Z := 0x080.
Definition PRINCIPAL64_ROLE_TELEMETRY : Z := 0x100.
Definition PRINCIPAL64_ROLE_POLICY : Z := 0x200.
Definition PRINCIPAL64_ROLE_CONSOLE : Z := 0x400.

Record principal64_record := mk_principal {
  pr_id : Z;
  pr_role_mask : Z;
  pr_active : Z;
  pr_name : string;
}.

Local Infix "||" := Z.lor : Z_scope.

Definition g_principals : list principal64_record := [
  mk_principal PRINCIPAL64_ID_SYSTEM PRINCIPAL64_ROLE_SYSTEM 1 "system";
  mk_principal PRINCIPAL64_ID_POLICY_CLIENT
    (PRINCIPAL64_ROLE_SERVICE_CLIENT || PRINCIPAL64_ROLE_INTERACTIVE || PRINCIPAL64_ROLE_POLICY)
    1 "policy-client";
  mk_principal PRINCIPAL64_ID_POLICY_WORKER
    (PRINCIPAL64_ROLE_WORKER || PRINCIPAL64_ROLE_SERVICE || PRINCIPAL64_ROLE_POLICY)
    1 "policy-worker";
  mk_principal PRINCIPAL64_ID_CONSOLE_CLIENT
    (PRINCIPAL64_ROLE_SERVICE_CLIENT || PRINCIPAL64_ROLE_INTERACTIVE || PRINCIPAL64_ROLE_CONSOLE)
    1 "console-client";
  mk_principal PRINCIPAL64_ID_CONSOLE_WORKER
    (PRINCIPAL64_ROLE_WORKER || PRINCIPAL64_ROLE_SERVICE || PRINCIPAL64_ROLE_CONSOLE)
    1 "console-worker";
  mk_principal PRINCIPAL64_ID_INIT_SUPERVISOR
    (PRINCIPAL64_ROLE_SYSTEM || PRINCIPAL64_ROLE_SERVICE) 1 "init-supervisor";
  mk_principal PRINCIPAL64_ID_DRIVER_HOST
    (PRINCIPAL64_ROLE_WORKER || PRINCIPAL64_ROLE_SERVICE || PRINCIPAL64_ROLE_DRIVER)
    1 "driver-host";
  mk_principal PRINCIPAL64_ID_RAMFS_WORKER
    (PRINCIPAL64_ROLE_WORKER || PRINCIPAL64_ROLE_SERVICE || PRINCIPAL64_ROLE_STORAGE)
    1 "ramfs-worker";
  mk_principal PRINCIPAL64_ID_INPUT_WORKER
    (PRINCIPAL64_ROLE_WORKER || PRINCIPAL64_ROLE_SERVICE || PRINCIPAL64_ROLE_INPUT)
    1 "input-worker";
  mk_principal PRINCIPAL64_ID_TELEMETRY
    (PRINCIPAL64_ROLE_SERVICE || PRINCIPAL64_ROLE_TELEMETRY) 1 "telemetry";
  mk_principal PRINCIPAL64_ID_BLOCK_WORKER
    (PRINCIPAL64_ROLE_WORKER || PRINCIPAL64_ROLE_SERVICE || PRINCIPAL64_ROLE_STORAGE
      || PRINCIPAL64_ROLE_DRIVER) 1 "block-worker" ].

Definition principal64_count : Z := Z.of_nat (length g_principals).

Definition principal64_is_active (principal_id : Z) : Z :=
  match find_index (fun p => pr_id p =? principal_id) g_principals with
  | Some i => from_option pr_active 0 (g_principals !! i)
  | None => 0
  end.

Definition principal64_role (principal_id : Z) : Z :=
  match find_index (fun p => (pr_id p =? principal_id) && nz (pr_active p)) g_principals with
  | Some i => from_option pr_role_mask 0 (g_principals !! i)
  | None => 0
  end.

Definition principal64_lookup_by_index (index : Z) : Z :=
  if principal64_count <=? index then 0
  else from_option pr_id 0 (g_principals !! Z.to_nat index).

Definition principal64_name (principal_id : Z) : string :=
  match find_index (fun p => (pr_id p =? principal_id) && nz (pr_active p)) g_principals with
  | Some i => from_option pr_name "unknown"%string (g_principals !! i)
  | None => "unknown"%string
  end.

(** The principals that pass [principal64_is_active] are exactly the ids of
    the table, none of which is 0. *)
Lemma principal64_active_iff p :
  nz (principal64_is_active p) = true <-> p ∈ pr_id <$> g_principals.
Proof.
  unfold principal64_is_active. destruct (find_index _ _) as [i|] eqn:E.
  - pose proof (find_index_lt _ _ _ E) as Hi.
    apply find_index_lookup in E as (x & Hx & Hp). apply Z.eqb_eq in Hp. subst p.
    rewrite Hx. cbn [from_option]. split; intros _.
    + apply list_elem_of_fmap. exists x. split; [done|]. by eapply list_elem_of_lookup_2.
    + apply list_elem_of_lookup_2 in Hx. revert Hx. clear.
      unfold g_principals. intros H. repeat (apply elem_of_cons in H as [->|H]; [done|]).
      by apply not_elem_of_nil in H.
  - rewrite find_index_None in E. split; [done|].
    intros (x & -> & Hx)%list_elem_of_fmap. specialize (E x Hx).
    by rewrite Z.eqb_refl in E.
Qed.

Lemma principal64_zero_inactive : nz (principal64_is_active 0) = false.
Proof. reflexivity. Qed.

End Principal.
