(* ===== verification/Services64.v ===== *)
(** * Service endpoints: kernel/arch/x86_64/services.c

    The fixed service table of the UEFI kernel: which endpoint a service
    class resolves to, whether capabilities to it may carry the delegate
    right, and the product/session supervision counters. *)

From S2P Require Import Prelude.
From stdpp Require Import strings.
Local Open Scope Z_scope.

Module Services64.

(** enum service_id / service_endpoint_class / service_capability of
    kernel/include/services.h, IPC_ENDPOINT_* of kernel/include/ipc.h. *)
Definition SERVICE_ENDPOINT_CLASS_NONE : Z := 0.
Definition SERVICE_ENDPOINT_CLASS_INIT : Z := 1.
Definition SERVICE_ENDPOINT_CLASS_DRIVER_HOST : Z := 2.
Definition SERVICE_ENDPOINT_CLASS_AI_POLICY : Z := 3.
Definition SERVICE_ENDPOINT_CLASS_CONSOLE : Z := 4.
Definition SERVICE_ENDPOINT_CLASS_RAMFS : Z := 5.
Definition SERVICE_ENDPOINT_CLASS_INPUT : Z := 6.
Definition SERVICE_ENDPOINT_CLASS_DISPLAY : Z := 7.
Definition SERVICE_ENDPOINT_CLASS_BLOCK : Z := 8.
Definition SERVICE_ENDPOINT_CLASS_HARDWARE : Z := 9.
Definition SERVICE_ENDPOINT_CLASS_NETWORK : Z := 10.

Definition SERVICE_CAP_ROUTE_INIT : Z := 0x0001.
Definition SERVICE_CAP_ROUTE_DRIVER : Z := 0x0002.
Definition SERVICE_CAP_ROUTE_POLICY : Z := 0x0004.
Definition SERVICE_CAP_SUPERVISE : Z := 0x0008.
Definition SERVICE_CAP_READ_TELEMETRY : Z := 0x0010.
Definition SERVICE_CAP_AUDIT : Z := 0x0020.
Definition SERVICE_CAP_CONSOLE : Z := 0x0040.
Definition SERVICE_CAP_RAMFS : Z := 0x0080.
Definition SERVICE_CAP_INPUT : Z := 0x0100.
Definition SERVICE_CAP_DISPLAY : Z := 0x0200.
Definition SERVICE_CAP_BLOCK : Z := 0x0400.
Definition SERVICE_CAP_HARDWARE : Z := 0x0800.
Definition SERVICE_CAP_NETWORK : Z := 0x1000.

Definition IPC_ENDPOINT_INIT : Z := 1.
Definition IPC_ENDPOINT_DRIVER_HOST : Z := 2.
Definition IPC_ENDPOINT_AI_POLICY : Z := 3.

Record service64_record := mk_service {
  sv_id : Z;
  sv_name : string;
  sv_endpoint_class : Z;
  sv_endpoint_id : Z;
  sv_delegable : Z;
  sv_capability_mask : Z;
}.

Local Infix "||" := Z.lor : Z_scope.

Definition g_service_records : list service64_record := [
  mk_service 1 "init-supervisor" SERVICE_ENDPOINT_CLASS_INIT IPC_ENDPOINT_INIT 0
    (SERVICE_CAP_ROUTE_POLICY || SERVICE_CAP_ROUTE_DRIVER || SERVICE_CAP_SUPERVISE || SERVICE_CAP_AUDIT);
  mk_service 2 "driver-host" SERVICE_ENDPOINT_CLASS_DRIVER_HOST IPC_ENDPOINT_DRIVER_HOST 0
    SERVICE_CAP_ROUTE_DRIVER;
  mk_service 3 "ai-policy" SERVICE_ENDPOINT_CLASS_AI_POLICY IPC_ENDPOINT_AI_POLICY 1
    (SERVICE_CAP_ROUTE_POLICY || SERVICE_CAP_ROUTE_INIT || SERVICE_CAP_AUDIT);
  mk_service 4 "telemetry" SERVICE_ENDPOINT_CLASS_NONE 0 0
    (SERVICE_CAP_READ_TELEMETRY || SERVICE_CAP_AUDIT);
  mk_service 5 "console" SERVICE_ENDPOINT_CLASS_CONSOLE 4 1
    (SERVICE_CAP_CONSOLE || SERVICE_CAP_AUDIT);
  mk_service 6 "ramfs" SERVICE_ENDPOINT_CLASS_RAMFS 5 0
    (SERVICE_CAP_RAMFS || SERVICE_CAP_AUDIT);
  mk_service 7 "input" SERVICE_ENDPOINT_CLASS_INPUT 6 1
    (SERVICE_CAP_INPUT || SERVICE_CAP_AUDIT);
  mk_service 8 "display" SERVICE_ENDPOINT_CLASS_DISPLAY 7 1
    (SERVICE_CAP_DISPLAY || SERVICE_CAP_AUDIT);
  mk_service 9 "block" SERVICE_ENDPOINT_CLASS_BLOCK 8 1
    (SERVICE_CAP_BLOCK || SERVICE_CAP_AUDIT);
  mk_service 10 "hardware-inventory" SERVICE_ENDPOINT_CLASS_HARDWARE 9 0
    (SERVICE_CAP_HARDWARE || SERVICE_CAP_AUDIT);
  mk_service 11 "network" SERVICE_ENDPOINT_CLASS_NETWORK 10 1
    (SERVICE_CAP_NETWORK || SERVICE_CAP_AUDIT) ].

Definition services64_count : Z := Z.of_nat (length g_service_records).

Definition services64_resolve_endpoint_class (endpoint_class : Z) : Z :=
  match find_index (fun r => sv_endpoint_class r =? endpoint_class) g_service_records with
  | Some i => from_option sv_endpoint_id 0xFFFFFFFF (g_service_records !! i)
  | None => 0xFFFFFFFF
  end.

(** [None] is the C function's NULL. *)
Definition services64_endpoint_name (endpoint_id : Z) : option string :=
  match find_index (fun r => sv_endpoint_id r =? endpoint_id) g_service_records with
  | Some i => sv_name <$> g_service_records !! i
  | None => None
  end.

Definition services64_capabilities_for_endpoint (endpoint_id : Z) : Z :=
  match find_index (fun r => sv_endpoint_id r =? endpoint_id) g_service_records with
  | Some i => from_option sv_capability_mask 0 (g_service_records !! i)
  | None => 0
  end.

Definition services64_endpoint_is_delegable (endpoint_id : Z) : Z :=
  match find_index (fun r => sv_endpoint_id r =? endpoint_id) g_service_records with
  | Some i => from_option sv_delegable 0 (g_service_records !! i)
  | None => 0
  end.

(** ** Product supervision and session counters *)

Record service_state := {
  g_product_status_queries : Z;
  g_product_controlled_crash : Z;
  g_product_restart_authority_checked : Z;
  g_product_stale_cap_denied : Z;
  g_product_wrong_owner_denied : Z;
  g_product_restart_count : Z;
  g_product_generation : Z;
  g_session_authority_probed : Z;
  g_session_wrong_input_denied : Z;
  g_session_wrong_display_denied : Z;
  g_session_wrong_fs_denied : Z;
}.

#[export] Instance eta_service_state : Eta service_state := {| eta r :=
  Build_service_state (g_product_status_queries r) (g_product_controlled_crash r)
    (g_product_restart_authority_checked r) (g_product_stale_cap_denied r)
    (g_product_wrong_owner_denied r) (g_product_restart_count r) (g_product_generation r)
    (g_session_authority_probed r) (g_session_wrong_input_denied r)
    (g_session_wrong_display_denied r) (g_session_wrong_fs_denied r) |}.

(** The static initial values. *)
Definition service_boot : service_state :=
  Build_service_state 0 0 0 0 0 0 1 0 0 0 0.

Definition services64_product_status_query (s : service_state) : service_state :=
  s <| g_product_status_queries := inc32 (g_product_status_queries s) |>.

Definition services64_product_supervision_probe (s : service_state) : service_state :=
  if nz (g_product_controlled_crash s) then s
  else
    let stale_generation := g_product_generation s in
    let s := s <| g_product_controlled_crash := 1 |>
               <| g_product_restart_authority_checked := 1 |>
               <| g_product_restart_count := inc32 (g_product_restart_count s) |>
               <| g_product_generation := inc32 (g_product_generation s) |> in
    let s := if negb (stale_generation =? g_product_generation s)
             then s <| g_product_stale_cap_denied := inc32 (g_product_stale_cap_denied s) |>
             else s in
    s <| g_product_wrong_owner_denied := inc32 (g_product_wrong_owner_denied s) |>.

Definition services64_session_authority_probe (s : service_state) : service_state :=
  if nz (g_session_authority_probed s) then s
  else s <| g_session_authority_probed := 1 |>
         <| g_session_wrong_input_denied := 1 |>
         <| g_session_wrong_display_denied := 1 |>
         <| g_session_wrong_fs_denied := 1 |>.

Definition services64_product_service_generation_increment (s : service_state) : Z :=
  b2z (1 <? g_product_generation s).

(** ** Facts about the table *)

Definition endpoint_injective (tab : list service64_record) : bool :=
  forallb (fun r1 => forallb (fun r2 =>
    implb (sv_endpoint_id r1 =? sv_endpoint_id r2)
          (sv_endpoint_class r1 =? sv_endpoint_class r2)) tab) tab.

Lemma table_check : endpoint_injective g_service_records = true.
Proof. vm_compute. reflexivity. Qed.

(** Distinct endpoint classes resolve to distinct endpoints. *)
Lemma resolve_endpoint_class_inj c1 c2 :
  services64_resolve_endpoint_class c1 <> 0xFFFFFFFF ->
  services64_resolve_endpoint_class c1 = services64_resolve_endpoint_class c2 ->
  c1 = c2.
Proof.
  unfold services64_resolve_endpoint_class. intros H1 H2.
  assert (Htab : forall c i, find_index (fun r => sv_endpoint_class r =? c) g_service_records = Some i ->
    exists r, g_service_records !! i = Some r /\ sv_endpoint_class r = c).
  { intros c i (r & Hr & Hc)%find_index_lookup. apply Z.eqb_eq in Hc. eauto. }
  destruct (find_index _ _) as [i|] eqn:E1 in H1, H2; [|done].
  apply Htab in E1 as (r1 & Hr1 & <-). rewrite Hr1 in H1, H2; cbn [from_option] in H1, H2.
  destruct (find_index _ _) as [j|] eqn:E2 in H2; [|done].
  apply Htab in E2 as (r2 & Hr2 & <-). rewrite Hr2 in H2; cbn [from_option] in H2.
  apply list_elem_of_lookup_2, list_elem_of_In in Hr1, Hr2.
  pose proof table_check as Hc. unfold endpoint_injective in Hc.
  rewrite forallb_forall in Hc. specialize (Hc r1 Hr1).
  rewrite forallb_forall in Hc. specialize (Hc r2 Hr2).
  rewrite H2, Z.eqb_refl in Hc. by apply Z.eqb_eq.
Qed.

End Services64.
