(* ===== verification/Capability.v ===== *)
(** * The capability broker: kernel/arch/x86_64/capability.c

    The definitions: the capability table, its counters, and every operation
    of the broker, as state-monad computations over [cap_state].  What they
    promise is in CapabilitySpec.v, the proofs in CapabilityFacts.v and
    CapabilityProps.v. *)

From S2P Require Import Prelude Principal Services64.
Import Principal Services64.
Local Open Scope Z_scope.
Local Open Scope kernel_scope.

Module Capability.

Definition CAPABILITY64_INVALID_HANDLE : Z := 0xFFFFFFFF.
Definition CAPABILITY64_RIGHT_SEND : Z := 1.
Definition CAPABILITY64_RIGHT_DELEGATE : Z := 2.
Definition CAPABILITY64_RIGHT_QUERY : Z := 4.
Definition CAPABILITY64_OWNER_SYSTEM : Z := PRINCIPAL64_ID_SYSTEM.
Definition CAPABILITY64_LEASE_PERMANENT : Z := 0xFFFFFFFF.
Definition CAPABILITY64_DELEGATE_LEASE_TICKS : Z := 2.
Definition CAPABILITY64_PERSONA_UNTAGGED : Z := 0xFF.
(** UEFI kernel: 64 slots. *)
Definition CAPABILITY64_TABLE_LIMIT : nat := 64.
Definition CAPABILITY64_HANDLE_BASE : Z := 0x6400.
Definition PROCESS64_INVALID_PID : Z := 0xFFFFFFFF.
Definition PERSONA64_TYPE_COUNT : Z := 4.
Definition LAUNCH64_INVALID_MANIFEST : Z := 0xFFFFFFFF.

Record capability64_record := mk_cap {
  active : Z;
  handle : Z;
  endpoint_class : Z;
  endpoint_id : Z;
  rights : Z;
  parent_handle : Z;
  owner_id : Z;
  expiry_tick : Z;
  runtime_generation : Z;
  runtime_token : Z;
  persona_type : Z;
  persona_mask : Z;
}.

#[export] Instance eta_capability64_record : Eta capability64_record := {| eta r :=
  mk_cap (active r) (handle r) (endpoint_class r) (endpoint_id r) (rights r)
    (parent_handle r) (owner_id r) (expiry_tick r) (runtime_generation r)
    (runtime_token r) (persona_type r) (persona_mask r) |}.

(** The arguments of a call of [persona_audit64_record]; PersonaAudit.v
    models what that component does with them. *)
Record audit_event := mk_audit {
  ae_pid : Z; ae_event_type : Z; ae_event_code : Z; ae_result : Z; ae_rip : Z }.
Definition PERSONA_AUDIT64_EVENT_CAPABILITY_DENIED : Z := 4.
Definition PERSONA_AUDIT64_RESULT_DENY : Z := 1.

Record cap_state := mk_cap_state {
  g_capabilities : list capability64_record;
  g_next_handle : Z;
  g_grant_count : Z;
  g_delegate_count : Z;
  g_route_count : Z;
  g_revoke_count : Z;
  g_cascade_revoke_count : Z;
  g_expiration_count : Z;
  g_owner_denial_count : Z;
  g_principal_denial_count : Z;
  g_runtime_stale_denial_count : Z;
  g_persona_denial_count : Z;
  g_persona_transfer_denial_count : Z;
  g_denial_count : Z;
  audit_log : list audit_event;
}.

#[export] Instance eta_cap_state : Eta cap_state := {| eta s :=
  mk_cap_state (g_capabilities s) (g_next_handle s) (g_grant_count s) (g_delegate_count s)
    (g_route_count s) (g_revoke_count s) (g_cascade_revoke_count s) (g_expiration_count s)
    (g_owner_denial_count s) (g_principal_denial_count s) (g_runtime_stale_denial_count s)
    (g_persona_denial_count s) (g_persona_transfer_denial_count s) (g_denial_count s)
    (audit_log s) |}.

(** ** What the broker asks of the rest of the kernel

    The clock, the launch manifests and the process/persona tables, read at
    the moment of the call. *)
Class CapEnv := {
  pit_get_ticks : Z;
  launch64_manifest_by_endpoint_class : Z -> Z;
  launch64_manifest_runtime_generation : Z -> Z;
  launch64_manifest_runtime_token : Z -> Z;
  launch64_manifest_accepts_runtime_token : Z -> Z -> Z;
  process64_pid_for_principal : Z -> Z;
  process64_principal : Z -> Z;
  persona64_type : Z -> Z;
  persona64_capability_mask : Z -> Z;
}.

Abbreviation M := (ST cap_state).

(** The record with every field 0: static storage, and the value read
    outside the table. *)
Definition zero_record : capability64_record := mk_cap 0 0 0 0 0 0 0 0 0 0 0 0.

Definition cap_at (s : cap_state) (i : nat) : capability64_record :=
  default zero_record (g_capabilities s !! i).

Definition update (i : nat) (f : capability64_record -> capability64_record) : M unit :=
  modify (fun s => s <| g_capabilities := alter f i (g_capabilities s) |>).

(** [++g_..._count] *)
Definition count_denial : M unit :=
  modify (fun s => s <| g_denial_count := inc32 (g_denial_count s) |>).
Definition count_principal_denial : M unit :=
  modify (fun s => s <| g_principal_denial_count := inc32 (g_principal_denial_count s) |>).
Definition count_owner_denial : M unit :=
  modify (fun s => s <| g_owner_denial_count := inc32 (g_owner_denial_count s) |>).
Definition count_stale_denial : M unit :=
  modify (fun s => s <| g_runtime_stale_denial_count := inc32 (g_runtime_stale_denial_count s) |>).
Definition count_persona_denial : M unit :=
  modify (fun s => s <| g_persona_denial_count := inc32 (g_persona_denial_count s) |>).
Definition count_transfer_denial : M unit :=
  modify (fun s => s <| g_persona_transfer_denial_count := inc32 (g_persona_transfer_denial_count s) |>).
Definition count_expiration : M unit :=
  modify (fun s => s <| g_expiration_count := inc32 (g_expiration_count s) |>).
Definition count_grant : M unit :=
  modify (fun s => s <| g_grant_count := inc32 (g_grant_count s) |>).
Definition count_delegate : M unit :=
  modify (fun s => s <| g_delegate_count := inc32 (g_delegate_count s) |>).
Definition count_route : M unit :=
  modify (fun s => s <| g_route_count := inc32 (g_route_count s) |>).
Definition count_revoke : M unit :=
  modify (fun s => s <| g_revoke_count := inc32 (g_revoke_count s) |>).
Definition count_cascade : M unit :=
  modify (fun s => s <| g_cascade_revoke_count := inc32 (g_cascade_revoke_count s) |>).

(** [g_next_handle++] *)
Definition take_handle : M Z :=
  h <- gets g_next_handle ;;
  modify (fun s => s <| g_next_handle := inc32 h |>) ;;;
  ret h.

#[export] Hint Unfold update count_denial count_principal_denial count_owner_denial
  count_stale_denial count_persona_denial count_transfer_denial count_expiration count_grant
  count_delegate count_route count_revoke count_cascade take_handle : counters.

Definition capability64_normalize_owner (owner : Z) : Z :=
  if nz owner then owner else CAPABILITY64_OWNER_SYSTEM.

Definition capability64_principal_is_valid (owner : Z) : M bool :=
  if nz (principal64_is_active (capability64_normalize_owner owner)) then ret true
  else count_principal_denial ;;; count_denial ;;; ret false.

Definition capability64_context_caller (owner_context : Z) : Z :=
  capability64_normalize_owner (Z.land (Z.shiftr owner_context 16) 0xFFFF).

Definition capability64_context_recipient (owner_context : Z) : Z :=
  let recipient := Z.land owner_context 0xFFFF in
  if nz recipient then recipient else capability64_context_caller owner_context.

(** [capability64_clear] leaves the handle in the slot. *)
Definition capability64_clear (r : capability64_record) : capability64_record :=
  mk_cap 0 (handle r) 0 0 0 0 0 0 0 0 CAPABILITY64_PERSONA_UNTAGGED 0.

Section operations.
Context {env : CapEnv}.

Definition capability64_record_expired (r : capability64_record) : bool :=
  if expiry_tick r =? CAPABILITY64_LEASE_PERMANENT then false
  else expiry_tick r <=? pit_get_ticks.

(** The slot test of the lookup loop. *)
Definition live_with (h : Z) (r : capability64_record) : bool :=
  nz (active r) && (handle r =? h).

Definition capability64_find_live (h : Z) : M (option nat) :=
  found <- gets (fun s => find_index (live_with h) (g_capabilities s)) ;;
  match found with
  | None => ret None
  | Some i =>
      r <- gets (fun s => cap_at s i) ;;
      if capability64_record_expired r then
        update i capability64_clear ;;; count_expiration ;;; ret None
      else ret (Some i)
  end.

Definition capability64_find_free : M (option nat) :=
  gets (fun s => find_index (fun r => active r =? 0) (g_capabilities s)).

Definition capability64_record_is_owned_by (r : capability64_record) (caller : Z) : M bool :=
  if owner_id r =? capability64_normalize_owner caller then ret true
  else count_owner_denial ;;; count_denial ;;; ret false.

Definition capability64_bind_runtime (cls : Z) (r : capability64_record) : capability64_record :=
  let r := r <| runtime_generation := 0 |> <| runtime_token := 0 |> in
  let manifest_index := launch64_manifest_by_endpoint_class cls in
  if manifest_index =? LAUNCH64_INVALID_MANIFEST then r
  else r <| runtime_generation := launch64_manifest_runtime_generation manifest_index |>
         <| runtime_token := launch64_manifest_runtime_token manifest_index |>.

(** The runtime check on a record, without its effect on the table. *)
Definition runtime_current (r : capability64_record) : bool :=
  (runtime_token r =? 0)
  || (let manifest_index := launch64_manifest_by_endpoint_class (endpoint_class r) in
      negb (manifest_index =? LAUNCH64_INVALID_MANIFEST)
      && (launch64_manifest_runtime_generation manifest_index =? runtime_generation r)
      && nz (launch64_manifest_accepts_runtime_token manifest_index (runtime_token r))).

Definition capability64_record_runtime_is_current (i : nat) : M bool :=
  r <- gets (fun s => cap_at s i) ;;
  if runtime_current r then ret true
  else update i capability64_clear ;;; count_stale_denial ;;; count_denial ;;; ret false.

Definition capability64_persona_pid_for_owner (owner : Z) : Z :=
  process64_pid_for_principal (capability64_normalize_owner owner).

Definition capability64_audit_persona_denial (recipient cls : Z) : M unit :=
  let recipient_pid := capability64_persona_pid_for_owner recipient in
  if recipient_pid =? PROCESS64_INVALID_PID then ret tt
  else modify (fun s => s <| audit_log := audit_log s ++
    [mk_audit recipient_pid PERSONA_AUDIT64_EVENT_CAPABILITY_DENIED (cls mod 2 ^ 16)
       PERSONA_AUDIT64_RESULT_DENY 0] |>).

(** The persona test of [capability64_record_allows_recipient_persona]. *)
Definition persona_allows (r : capability64_record) (recipient : Z) : bool :=
  (persona_mask r =? 0)
  || (let recipient_pid := capability64_persona_pid_for_owner recipient in
      let recipient_mask :=
        if negb (recipient_pid =? PROCESS64_INVALID_PID)
        then persona64_capability_mask recipient_pid else 0 in
      nz recipient_mask && nz (Z.land (persona_mask r) recipient_mask)).

Definition capability64_record_allows_recipient_persona
    (r : capability64_record) (recipient : Z) : M bool :=
  if persona_allows r recipient then ret true
  else count_persona_denial ;;; count_transfer_denial ;;; count_denial ;;;
       capability64_audit_persona_denial recipient (endpoint_class r) ;;;
       ret false.

Definition capability64_init : cap_state -> cap_state := fun s =>
  mk_cap_state
    (replicate CAPABILITY64_TABLE_LIMIT
       (mk_cap 0 0 0 0 0 0 0 0 0 0 CAPABILITY64_PERSONA_UNTAGGED 0))
    CAPABILITY64_HANDLE_BASE 0 0 0 0 0 0 0 0 0 0 0 0 (audit_log s).

(** ** Granting *)

Definition allowed_rights_for (endpoint : Z) : Z :=
  let allowed := Z.lor CAPABILITY64_RIGHT_SEND CAPABILITY64_RIGHT_QUERY in
  if nz (services64_endpoint_is_delegable endpoint)
  then Z.lor allowed CAPABILITY64_RIGHT_DELEGATE else allowed.

Definition capability64_grant_service_tagged
    (cls requested owner ptype pmask : Z) : M Z :=
  let endpoint := services64_resolve_endpoint_class cls in
  let owner := capability64_normalize_owner owner in
  valid <- capability64_principal_is_valid owner ;;
  if negb valid then ret CAPABILITY64_INVALID_HANDLE
  else if endpoint =? 0xFFFFFFFF then count_denial ;;; ret CAPABILITY64_INVALID_HANDLE
  else
    let allowed := allowed_rights_for endpoint in
    let requested := if requested =? 0 then CAPABILITY64_RIGHT_SEND else requested in
    if nz (Z.land requested (not32 allowed))
    then count_denial ;;; ret CAPABILITY64_INVALID_HANDLE
    else
      slot <- capability64_find_free ;;
      match slot with
      | None => count_denial ;;; ret CAPABILITY64_INVALID_HANDLE
      | Some i =>
          h <- take_handle ;;
          update i (fun r =>
            (capability64_bind_runtime cls
              (r <| active := 1 |> <| handle := h |> <| endpoint_class := cls |>
                 <| endpoint_id := endpoint |> <| rights := requested |>
                 <| parent_handle := 0 |> <| owner_id := owner |>
                 <| expiry_tick := CAPABILITY64_LEASE_PERMANENT |>))
              <| persona_type := ptype |> <| persona_mask := pmask |>) ;;;
          count_grant ;;;
          ret h
      end.

Definition capability64_grant_service (cls requested owner : Z) : M Z :=
  capability64_grant_service_tagged cls requested owner CAPABILITY64_PERSONA_UNTAGGED 0.

Definition capability64_grant_service_for_process (cls requested pid : Z) : M Z :=
  let owner := process64_principal pid in
  let ptype := persona64_type pid in
  let pmask := persona64_capability_mask pid in
  if (owner =? 0) || (PERSONA64_TYPE_COUNT <=? ptype) || (pmask =? 0)
  then count_persona_denial ;;; count_denial ;;; ret CAPABILITY64_INVALID_HANDLE
  else capability64_grant_service_tagged cls requested owner ptype pmask.

(** ** Delegation *)

Definition capability64_delegate_with_expiry
    (source_handle requested owner_context expiry : Z) : M Z :=
  source <- capability64_find_live source_handle ;;
  let caller := capability64_context_caller owner_context in
  let recipient := capability64_context_recipient owner_context in
  caller_ok <- capability64_principal_is_valid caller ;;
  if negb caller_ok then ret CAPABILITY64_INVALID_HANDLE else
  recipient_ok <- capability64_principal_is_valid recipient ;;
  if negb recipient_ok then ret CAPABILITY64_INVALID_HANDLE else
  match source with
  | None => count_denial ;;; ret CAPABILITY64_INVALID_HANDLE
  | Some src =>
      sr <- gets (fun s => cap_at s src) ;;
      owned <- capability64_record_is_owned_by sr caller ;;
      if negb owned then ret CAPABILITY64_INVALID_HANDLE
      else if Z.land (rights sr) CAPABILITY64_RIGHT_DELEGATE =? 0
      then count_denial ;;; ret CAPABILITY64_INVALID_HANDLE
      else
        let requested :=
          if requested =? 0
          then Z.land (rights sr) (not32 CAPABILITY64_RIGHT_DELEGATE) else requested in
        if (requested =? 0)
           || nz (Z.land requested CAPABILITY64_RIGHT_DELEGATE)
           || negb (Z.land requested (rights sr) =? requested)
        then count_denial ;;; ret CAPABILITY64_INVALID_HANDLE
        else
          let delegated := Z.land requested (not32 CAPABILITY64_RIGHT_DELEGATE) in
          if delegated =? 0 then count_denial ;;; ret CAPABILITY64_INVALID_HANDLE
          else
            allowed <- capability64_record_allows_recipient_persona sr recipient ;;
            if negb allowed then ret CAPABILITY64_INVALID_HANDLE
            else
              slot <- capability64_find_free ;;
              match slot with
              | None => count_denial ;;; ret CAPABILITY64_INVALID_HANDLE
              | Some i =>
                  h <- take_handle ;;
                  update i (fun r =>
                    r <| active := 1 |> <| handle := h |>
                      <| endpoint_class := endpoint_class sr |>
                      <| endpoint_id := endpoint_id sr |>
                      <| rights := delegated |>
                      <| parent_handle := handle sr |>
                      <| owner_id := recipient |>
                      <| expiry_tick := expiry |>
                      <| runtime_generation := runtime_generation sr |>
                      <| runtime_token := runtime_token sr |>
                      <| persona_type := persona_type sr |>
                      <| persona_mask := persona_mask sr |>) ;;;
                  count_grant ;;; count_delegate ;;;
                  ret h
              end
  end.

Definition capability64_delegate (source_handle requested owner_context : Z) : M Z :=
  capability64_delegate_with_expiry source_handle requested owner_context
    (add32 pit_get_ticks CAPABILITY64_DELEGATE_LEASE_TICKS).

Definition capability64_delegate_persistent (source_handle requested owner_context : Z) : M Z :=
  capability64_delegate_with_expiry source_handle requested owner_context
    CAPABILITY64_LEASE_PERMANENT.

(** ** Routing and revocation *)

Definition capability64_route (h required caller : Z) : M Z :=
  found <- capability64_find_live h ;;
  valid <- capability64_principal_is_valid caller ;;
  if negb valid then ret 0xFFFFFFFF else
  let required := if required =? 0 then CAPABILITY64_RIGHT_SEND else required in
  match found with
  | None => count_denial ;;; ret 0xFFFFFFFF
  | Some i =>
      r <- gets (fun s => cap_at s i) ;;
      if negb (Z.land (rights r) required =? required)
      then count_denial ;;; ret 0xFFFFFFFF
      else
        owned <- capability64_record_is_owned_by r caller ;;
        if negb owned then ret 0xFFFFFFFF else
        current <- capability64_record_runtime_is_current i ;;
        if negb current then ret 0xFFFFFFFF else
        count_route ;;; ret (endpoint_id r)
  end.

(** The children loop of a revocation. *)
Definition cascade_body (h : Z) (child : nat) : M unit :=
  c <- gets (fun s => cap_at s child) ;;
  if nz (active c) && (parent_handle c =? h)
  then update child capability64_clear ;;; count_revoke ;;; count_cascade
  else ret tt.

Definition capability64_revoke (h caller : Z) : M Z :=
  found <- capability64_find_live h ;;
  valid <- capability64_principal_is_valid caller ;;
  if negb valid then ret 0 else
  match found with
  | None => count_denial ;;; ret 0
  | Some i =>
      r <- gets (fun s => cap_at s i) ;;
      owned <- capability64_record_is_owned_by r caller ;;
      if negb owned then ret 0 else
      update i capability64_clear ;;; count_revoke ;;;
      for_range CAPABILITY64_TABLE_LIMIT (cascade_body h) ;;;
      ret 1
  end.

(** ** Queries: the owner of a live handle reads a field of it *)

Definition owned_query (denied : Z) (check_runtime : bool)
    (field : capability64_record -> Z) (h caller : Z) : M Z :=
  found <- capability64_find_live h ;;
  valid <- capability64_principal_is_valid caller ;;
  if negb valid then ret denied else
  match found with
  | None => count_denial ;;; ret denied
  | Some i =>
      r <- gets (fun s => cap_at s i) ;;
      owned <- capability64_record_is_owned_by r caller ;;
      if negb owned then ret denied else
      if check_runtime then
        current <- capability64_record_runtime_is_current i ;;
        if negb current then ret denied else ret (field r)
      else ret (field r)
  end.

Definition capability64_target_endpoint := owned_query 0xFFFFFFFF true endpoint_id.
Definition capability64_rights := owned_query 0 false rights.
Definition capability64_parent := owned_query 0 false parent_handle.
Definition capability64_owner := owned_query 0 false owner_id.
Definition capability64_expiry_tick := owned_query 0 false expiry_tick.
Definition capability64_runtime_generation := owned_query 0 true runtime_generation.
Definition capability64_runtime_token := owned_query 0 true runtime_token.
Definition capability64_persona_tag :=
  owned_query CAPABILITY64_PERSONA_UNTAGGED false persona_type.
Definition capability64_persona_mask := owned_query 0 false persona_mask.

Definition capability64_live_count (s : cap_state) : Z :=
  Z.of_nat (count_if (fun r => nz (active r)) (g_capabilities s)).

(** ** Endpoint drain *)

Definition live_for_body (endpoint : Z) (i : nat) (count : Z) : M Z :=
  r <- gets (fun s => cap_at s i) ;;
  if active r =? 0 then ret count
  else if capability64_record_expired r then
    update i capability64_clear ;;; count_expiration ;;; ret count
  else if endpoint_id r =? endpoint then ret (inc32 count) else ret count.

Definition capability64_live_for_endpoint_class (cls : Z) : M Z :=
  let endpoint := services64_resolve_endpoint_class cls in
  if endpoint =? 0xFFFFFFFF then ret 0
  else fold_range CAPABILITY64_TABLE_LIMIT 0 (live_for_body endpoint).

Definition drain_children_body (h : Z) (child : nat) (revoked : Z) : M Z :=
  c <- gets (fun s => cap_at s child) ;;
  if nz (active c) && (parent_handle c =? h)
  then update child capability64_clear ;;; count_revoke ;;; count_cascade ;;;
       ret (inc32 revoked)
  else ret revoked.

Definition drain_body (endpoint : Z) (i : nat) (revoked : Z) : M Z :=
  r <- gets (fun s => cap_at s i) ;;
  if active r =? 0 then ret revoked
  else if capability64_record_expired r then
    update i capability64_clear ;;; count_expiration ;;; ret revoked
  else if negb (endpoint_id r =? endpoint) then ret revoked
  else
    update i capability64_clear ;;; count_revoke ;;;
    fold_range CAPABILITY64_TABLE_LIMIT (inc32 revoked) (drain_children_body (handle r)).

Definition capability64_revoke_endpoint_class (cls : Z) : M Z :=
  let endpoint := services64_resolve_endpoint_class cls in
  if endpoint =? 0xFFFFFFFF then ret 0
  else fold_range CAPABILITY64_TABLE_LIMIT 0 (drain_body endpoint).

End operations.

(** ** Counters *)

Definition capability64_grant_count (s : cap_state) : Z := g_grant_count s.
Definition capability64_delegate_count (s : cap_state) : Z := g_delegate_count s.
Definition capability64_route_count (s : cap_state) : Z := g_route_count s.
Definition capability64_revoke_count (s : cap_state) : Z := g_revoke_count s.
Definition capability64_cascade_revoke_count (s : cap_state) : Z := g_cascade_revoke_count s.
Definition capability64_expiration_count (s : cap_state) : Z := g_expiration_count s.
Definition capability64_owner_denial_count (s : cap_state) : Z := g_owner_denial_count s.
Definition capability64_principal_denial_count (s : cap_state) : Z := g_principal_denial_count s.
Definition capability64_runtime_stale_denial_count (s : cap_state) : Z :=
  g_runtime_stale_denial_count s.
Definition capability64_persona_denial_count (s : cap_state) : Z := g_persona_denial_count s.
Definition capability64_persona_transfer_denial_count (s : cap_state) : Z :=
  g_persona_transfer_denial_count s.
Definition capability64_denial_count (s : cap_state) : Z := g_denial_count s.

End Capability.
