(* ===== verification/CapabilitySpec.v ===== *)
(** * Abstract specification of the capability broker

    What the broker promises, without its table: a finite map from live
    handles to capabilities and the next handle to issue.  CapabilityFacts.v
    proves that every operation of Capability.v implements the operation of
    the same name here. *)

From S2P Require Import Prelude Principal Services64 Capability.
Import Principal Services64 Capability.
Local Open Scope Z_scope.

Module CapSpec.

Record acap := mk_acap { caps : gmap Z capability64_record; next : Z }.

Section spec.
Context {env : CapEnv}.

Definition owner_ok (owner : Z) : bool :=
  nz (principal64_is_active (capability64_normalize_owner owner)).

Definition owns (r : capability64_record) (caller : Z) : bool :=
  owner_id r =? capability64_normalize_owner caller.

(** Looking a handle up removes it when its lease is over. *)
Definition lookup_live (a : acap) (h : Z) : option capability64_record * acap :=
  match caps a !! h with
  | None => (None, a)
  | Some r =>
      if capability64_record_expired r
      then (None, mk_acap (delete h (caps a)) (next a))
      else (Some r, a)
  end.

(** Issue a capability under the next handle, if the table has room. *)
Definition issue (a : acap) (r : Z -> capability64_record) : Z * acap :=
  if (size (caps a) <? CAPABILITY64_TABLE_LIMIT)%nat
  then (next a, mk_acap (<[next a := r (next a)]> (caps a)) (inc32 (next a)))
  else (CAPABILITY64_INVALID_HANDLE, a).

Definition granted (cls endpoint req owner ptype pmask h : Z) : capability64_record :=
  (capability64_bind_runtime cls
     (mk_cap 1 h cls endpoint req 0 owner CAPABILITY64_LEASE_PERMANENT 0 0 0 0))
    <| persona_type := ptype |> <| persona_mask := pmask |>.

Definition spec_grant (cls req owner ptype pmask : Z) (a : acap) : Z * acap :=
  let endpoint := services64_resolve_endpoint_class cls in
  let owner := capability64_normalize_owner owner in
  let req := if req =? 0 then CAPABILITY64_RIGHT_SEND else req in
  if owner_ok owner && negb (endpoint =? 0xFFFFFFFF)
     && (Z.land req (not32 (allowed_rights_for endpoint)) =? 0)
  then issue a (granted cls endpoint req owner ptype pmask)
  else (CAPABILITY64_INVALID_HANDLE, a).

Definition spec_grant_for_process (cls req pid : Z) (a : acap) : Z * acap :=
  if (process64_principal pid =? 0) || (PERSONA64_TYPE_COUNT <=? persona64_type pid)
     || (persona64_capability_mask pid =? 0)
  then (CAPABILITY64_INVALID_HANDLE, a)
  else spec_grant cls req (process64_principal pid) (persona64_type pid)
         (persona64_capability_mask pid) a.

(** The rights a delegation request stands for: 0 asks for all but DELEGATE. *)
Definition requested_rights (sr : capability64_record) (req : Z) : Z :=
  if req =? 0 then Z.land (rights sr) (not32 CAPABILITY64_RIGHT_DELEGATE) else req.

Definition may_delegate (sr : capability64_record) (req caller recipient : Z) : bool :=
  owns sr caller
  && nz (Z.land (rights sr) CAPABILITY64_RIGHT_DELEGATE)
  && (let req := requested_rights sr req in
      nz req && (Z.land req CAPABILITY64_RIGHT_DELEGATE =? 0)
      && (Z.land req (rights sr) =? req)
      && nz (Z.land req (not32 CAPABILITY64_RIGHT_DELEGATE)))
  && persona_allows sr recipient.

Definition delegated (sr : capability64_record) (req recipient expiry h : Z) : capability64_record :=
  mk_cap 1 h (endpoint_class sr) (endpoint_id sr)
    (Z.land (requested_rights sr req) (not32 CAPABILITY64_RIGHT_DELEGATE))
    (handle sr) recipient expiry (runtime_generation sr) (runtime_token sr)
    (persona_type sr) (persona_mask sr).

Definition spec_delegate (src req ctx expiry : Z) (a : acap) : Z * acap :=
  let '(o, a) := lookup_live a src in
  let caller := capability64_context_caller ctx in
  let recipient := capability64_context_recipient ctx in
  match o with
  | Some sr =>
      if owner_ok caller && owner_ok recipient && may_delegate sr req caller recipient
      then issue a (delegated sr req recipient expiry)
      else (CAPABILITY64_INVALID_HANDLE, a)
  | None => (CAPABILITY64_INVALID_HANDLE, a)
  end.

(** A live, owned, current capability is used; a stale one is dropped. *)
Definition spec_use (denied : Z) (check_runtime : bool) (need : Z)
    (field : capability64_record -> Z) (h caller : Z) (a : acap) : Z * acap :=
  let '(o, a) := lookup_live a h in
  match o with
  | Some r =>
      if owner_ok caller && (Z.land (rights r) need =? need) && owns r caller then
        if negb check_runtime || runtime_current r then (field r, a)
        else (denied, mk_acap (delete h (caps a)) (next a))
      else (denied, a)
  | None => (denied, a)
  end.

Definition spec_route (h required caller : Z) (a : acap) : Z * acap :=
  spec_use 0xFFFFFFFF true (if required =? 0 then CAPABILITY64_RIGHT_SEND else required)
    endpoint_id h caller a.

(** Revocation removes the capability and everything delegated from it. *)
Definition revoked_from (h : Z) (m : gmap Z capability64_record) : gmap Z capability64_record :=
  filter (fun kr => kr.1 <> h /\ parent_handle kr.2 <> h) m.

Definition spec_revoke (h caller : Z) (a : acap) : Z * acap :=
  let '(o, a) := lookup_live a h in
  match o with
  | Some r =>
      if owner_ok caller && owns r caller
      then (1, mk_acap (revoked_from h (caps a)) (next a))
      else (0, a)
  | None => (0, a)
  end.

(** Counting the capabilities of an endpoint sweeps out expired ones. *)
Definition sweep (m : gmap Z capability64_record) : gmap Z capability64_record :=
  filter (fun kr => capability64_record_expired kr.2 = false) m.

Definition spec_live_for (cls : Z) (a : acap) : Z * acap :=
  let endpoint := services64_resolve_endpoint_class cls in
  if endpoint =? 0xFFFFFFFF then (0, a)
  else (Z.of_nat (size (filter (fun kr => endpoint_id kr.2 = endpoint) (sweep (caps a)))),
        mk_acap (sweep (caps a)) (next a)).

(** Draining an endpoint class leaves only unexpired capabilities to other
    endpoints. *)
Definition drained (cls : Z) (a : acap) : acap :=
  let endpoint := services64_resolve_endpoint_class cls in
  if endpoint =? 0xFFFFFFFF then a
  else mk_acap (filter (fun kr => endpoint_id kr.2 <> endpoint) (sweep (caps a))) (next a).

End spec.
End CapSpec.
