(* ===== verification/CapabilityFacts.v ===== *)
(** * The capability table implements its specification

    The representation invariant of the table, the abstraction to
    [CapSpec.acap], and the simulation lemma of each operation. *)

From S2P Require Import Prelude Principal Services64 Capability CapabilitySpec.
Import Principal Services64 Capability CapSpec.
Local Open Scope Z_scope.

Module CapFacts.

Abbreviation live r := (nz (active r) = true).
Implicit Types (t : list capability64_record) (r : capability64_record) (i j : nat).

(** ** Abstraction *)

Fixpoint abs_table (t : list capability64_record) : gmap Z capability64_record :=
  match t with
  | [] => ∅
  | r :: t' => if nz (active r) then <[handle r := r]> (abs_table t') else abs_table t'
  end.

Definition abs (s : cap_state) : acap := mk_acap (abs_table (g_capabilities s)) (g_next_handle s).

(** No two live slots share a handle. *)
Definition unique_handles (t : list capability64_record) : Prop :=
  forall i j r1 r2, t !! i = Some r1 -> t !! j = Some r2 ->
    live r1 -> live r2 -> handle r1 = handle r2 -> i = j.

Record rep (s : cap_state) : Prop := {
  rep_length : length (g_capabilities s) = CAPABILITY64_TABLE_LIMIT;
  rep_unique : unique_handles (g_capabilities s);
  rep_bound : forall i r, g_capabilities s !! i = Some r -> live r ->
    CAPABILITY64_HANDLE_BASE <= handle r < g_next_handle s;
  rep_next : CAPABILITY64_HANDLE_BASE <= g_next_handle s <= U32_MAX;
}.

Lemma unique_tail r t : unique_handles (r :: t) -> unique_handles t.
Proof.
  intros H i j r1 r2 H1 H2 L1 L2 E.
  specialize (H (S i) (S j) r1 r2 H1 H2 L1 L2 E). lia.
Qed.

Lemma abs_lookup t h r :
  unique_handles t ->
  abs_table t !! h = Some r <-> exists i, t !! i = Some r /\ live r /\ handle r = h.
Proof.
  induction t as [|x t IH]; intros Hu; simpl.
  { rewrite lookup_empty. split; [done|]. intros (i & Hi & _). by rewrite lookup_nil in Hi. }
  specialize (IH (unique_tail _ _ Hu)).
  destruct (nz (active x)) eqn:Hx; [rewrite lookup_insert; case_decide as Hh|];
    rewrite ?IH; split.
  - intros [= <-]. exists 0%nat. done.
  - intros (i & Hi & Hl & Hr). pose proof (Hu i 0%nat r x Hi eq_refl Hl Hx ltac:(congruence)) as ->.
    by simplify_eq/=.
  - intros (i & Hi & Hl & Hr). exists (S i). done.
  - intros (i & Hi & Hl & Hr). destruct i as [|i]; simplify_eq/=. eauto.
  - intros (i & Hi & Hl & Hr). exists (S i). done.
  - intros (i & Hi & Hl & Hr). destruct i as [|i]; simplify_eq/=; [congruence|]. eauto.
Qed.

Lemma abs_size t :
  unique_handles t -> size (abs_table t) = count_if (fun r => nz (active r)) t.
Proof.
  induction t as [|x t IH]; intros Hu; unfold count_if; simpl; [apply map_size_empty|].
  pose proof (unique_tail _ _ Hu) as Hu'.
  destruct (nz (active x)) eqn:Hx; simpl; [|by apply IH].
  rewrite map_size_insert_None; [by rewrite IH|].
  destruct (abs_table t !! handle x) as [r|] eqn:E; [|done].
  apply abs_lookup in E as (i & Hi & Hl & Hr); [|done].
  by specialize (Hu (S i) 0%nat r x Hi eq_refl Hl Hx Hr).
Qed.

(** ** The two ways the table changes *)

Lemma cleared_not_live r : nz (active (capability64_clear r)) = false.
Proof. done. Qed.

(** Survivors of a slot update that kills slot [i]. *)
Lemma clear_lookup t i j r :
  alter capability64_clear i t !! j = Some r -> live r -> t !! j = Some r /\ j <> i.
Proof.
  intros (x & Hx & ->)%lookup_alter_Some. case_decide; [done|]. eauto.
Qed.

Lemma unique_clear t i : unique_handles t -> unique_handles (alter capability64_clear i t).
Proof.
  intros H j k r1 r2 H1 H2 L1 L2. apply clear_lookup in H1 as [H1 _], H2 as [H2 _]; eauto.
Qed.

Lemma abs_clear t i r :
  unique_handles t -> t !! i = Some r -> live r ->
  abs_table (alter capability64_clear i t) = delete (handle r) (abs_table t).
Proof.
  intros Hu Hi Hl. apply map_eq. intros h. apply option_eq. intros r'.
  rewrite lookup_delete_Some, !abs_lookup by auto using unique_clear. split.
  - intros (j & Hj & Hl' & <-). apply clear_lookup in Hj as [Hj Hne]; [|done].
    split; [|by eauto]. intros E. apply Hne. by eapply (Hu j i).
  - intros (Hne & j & Hj & Hl' & Hr). exists j. split; [|done].
    rewrite list_lookup_alter_ne; [done|]. intros ->. naive_solver.
Qed.

Lemma install_lookup t i f j r :
  alter f i t !! j = Some r -> j <> i -> t !! j = Some r.
Proof. intros (x & Hx & ->)%lookup_alter_Some Hne. rewrite decide_False; auto. Qed.

Lemma abs_install t i x new :
  unique_handles t -> t !! i = Some x -> nz (active x) = false -> live new ->
  (forall j r, t !! j = Some r -> live r -> handle r <> handle new) ->
  unique_handles (alter (fun _ => new) i t) /\
  abs_table (alter (fun _ => new) i t) = <[handle new := new]> (abs_table t).
Proof.
  intros Hu Hi Hx Hl Hfresh.
  assert (Hnew : forall j r, alter (fun _ => new) i t !! j = Some r -> live r ->
            (j = i /\ r = new) \/ (j <> i /\ t !! j = Some r)).
  { intros j r (y & Hy & ->)%lookup_alter_Some Hr. case_decide; eauto. }
  assert (Hu' : unique_handles (alter (fun _ => new) i t)).
  { intros j k r1 r2 H1 H2 L1 L2 E.
    apply Hnew in H1 as [[-> ->]|[Hne1 H1]], H2 as [[-> ->]|[Hne2 H2]]; auto.
    - by destruct (Hfresh k r2).
    - by destruct (Hfresh j r1).
    - by eapply Hu. }
  split; [done|]. apply map_eq. intros h. apply option_eq. intros r'.
  rewrite lookup_insert, abs_lookup by done. case_decide as Hh; [|rewrite abs_lookup by done].
  - split.
    + intros (j & Hj & Hr & Hhr). apply Hnew in Hj as [[_ ->]|[_ Hj]]; [done| |done].
      by destruct (Hfresh j r'); [..|congruence].
    + intros [= <-]. exists i. rewrite list_lookup_alter, decide_True, Hi by done. done.
  - split.
    + intros (j & Hj & Hr & Hhr). apply Hnew in Hj as [[_ ->]|[_ Hj]]; [congruence|eauto|done].
    + intros (j & Hj & Hr & Hhr). exists j. split; [|done].
      rewrite list_lookup_alter_ne; [done|]. intros ->. by simplify_eq; rewrite Hx in Hr.
Qed.

Lemma rep_clear s s' i r :
  rep s -> g_capabilities s !! i = Some r -> live r ->
  g_capabilities s' = alter capability64_clear i (g_capabilities s) ->
  g_next_handle s' = g_next_handle s ->
  rep s' /\ abs s' = mk_acap (delete (handle r) (caps (abs s))) (next (abs s)).
Proof.
  intros [H1 H2 H3 H4] Hi Hr Ht Hn. split.
  - split; rewrite ?Ht, ?Hn; [by rewrite length_alter|by apply unique_clear| |done].
    intros j r' Hj Hl. apply clear_lookup in Hj as [Hj _]; eauto.
  - unfold abs. rewrite Ht, Hn. by erewrite abs_clear by eauto.
Qed.

Lemma rep_at s i r : g_capabilities s !! i = Some r -> cap_at s i = r.
Proof. intros H. unfold cap_at. by rewrite H. Qed.

(** Installing [new] under the next handle in a free slot. *)
Lemma rep_install s s' i x f new :
  rep s -> g_next_handle s < U32_MAX ->
  g_capabilities s !! i = Some x -> nz (active x) = false ->
  f x = new -> live new -> handle new = g_next_handle s ->
  g_capabilities s' = alter f i (g_capabilities s) ->
  g_next_handle s' = inc32 (g_next_handle s) ->
  rep s' /\
  abs s' = mk_acap (<[g_next_handle s := new]> (caps (abs s))) (inc32 (g_next_handle s)).
Proof.
  intros [H1 H2 H3 H4] Hroom Hi Hx Hf Hl Hh Ht Hn.
  replace (alter f i (g_capabilities s)) with (alter (fun _ => new) i (g_capabilities s)) in Ht.
  2:{ apply list_eq. intros j. rewrite !list_lookup_alter.
      case_decide as Hd; [subst j; rewrite Hi; simpl; congruence|done]. }
  destruct (abs_install _ i x new H2 Hi Hx Hl) as [Hu Habs].
  { intros j r Hj Hr E. specialize (H3 j r Hj Hr). lia. }
  assert (Hinc : inc32 (g_next_handle s) = g_next_handle s + 1)
    by (apply inc32_small; unfold CAPABILITY64_HANDLE_BASE in *; lia).
  split; [|unfold abs; rewrite Ht, Hn, Habs, Hh; done].
  split; rewrite ?Ht, ?Hn; [by rewrite length_alter|done| |lia].
  intros j r (y & Hy & ->)%lookup_alter_Some Hr. revert Hr.
  case_decide; [lia|]. intros Hr. specialize (H3 j y Hy Hr). lia.
Qed.

Section simulation.
Context {env : CapEnv}.

(** [m] run from a represented state returns what [spec] returns from its
    abstraction, and ends in a represented state with the abstraction of
    [spec]'s final state. *)
Definition refines {A} (m : M A) (spec : acap -> A * acap) (s : cap_state) : Prop :=
  wp m (fun a s' => rep s' /\ spec (abs s) = (a, abs s')) s.

(** Counters are not part of the abstraction. *)
Lemma principal_is_valid_wp owner s (Q : bool -> cap_state -> Prop) :
  (forall s', g_capabilities s' = g_capabilities s -> g_next_handle s' = g_next_handle s ->
     Q (owner_ok owner) s') ->
  wp (capability64_principal_is_valid owner) Q s.
Proof.
  intros H. unfold capability64_principal_is_valid. fold (owner_ok owner).
  revert H. destruct (owner_ok owner); intros H; wp_steps; by apply H.
Qed.

Lemma owned_by_wp r caller s (Q : bool -> cap_state -> Prop) :
  (forall s', g_capabilities s' = g_capabilities s -> g_next_handle s' = g_next_handle s ->
     Q (owns r caller) s') ->
  wp (capability64_record_is_owned_by r caller) Q s.
Proof.
  intros H. unfold capability64_record_is_owned_by. fold (owns r caller).
  revert H. destruct (owns r caller); intros H; wp_steps; by apply H.
Qed.

Lemma allows_persona_wp r recipient s (Q : bool -> cap_state -> Prop) :
  (forall s', g_capabilities s' = g_capabilities s -> g_next_handle s' = g_next_handle s ->
     Q (persona_allows r recipient) s') ->
  wp (capability64_record_allows_recipient_persona r recipient) Q s.
Proof.
  intros H. unfold capability64_record_allows_recipient_persona,
    capability64_audit_persona_denial.
  revert H. destruct (persona_allows r recipient); intros H; wp_steps; by apply H.
Qed.

Lemma same_table_rep s s' :
  g_capabilities s' = g_capabilities s -> g_next_handle s' = g_next_handle s ->
  rep s -> rep s' /\ abs s' = abs s.
Proof.
  intros Ht Hn [H1 H2 H3 H4]. unfold abs. rewrite Ht, Hn.
  split; [split; rewrite ?Ht, ?Hn; done|done].
Qed.

Lemma find_live_wp h s (Q : option nat -> cap_state -> Prop) :
  rep s ->
  (forall i r, g_capabilities s !! i = Some r -> live r -> handle r = h ->
     capability64_record_expired r = false ->
     lookup_live (abs s) h = (Some r, abs s) -> Q (Some i) s) ->
  (forall s', rep s' -> lookup_live (abs s) h = (None, abs s') -> Q None s') ->
  wp (capability64_find_live h) Q s.
Proof.
  intros Hrep HS HN. pose proof (rep_unique s Hrep) as Hu.
  unfold capability64_find_live. do 2 wp_step.
  destruct (find_index _ _) as [i|] eqn:E; wp_steps; simpl.
  - apply find_index_lookup in E as (r & Hi & Hr). unfold live_with in Hr. boolify.
    assert (Habs : caps (abs s) !! h = Some r) by (apply abs_lookup; eauto).
    rewrite (rep_at _ _ _ Hi) in E0.
    match goal with |- Q _ ?s' => destruct (rep_clear s s' i r) as [Hr' Ha]; [done..|] end.
    apply HN; [done|]. unfold lookup_live. rewrite Habs, E0, Ha. by subst h.
  - apply find_index_lookup in E as (r & Hi & Hr). unfold live_with in Hr. boolify.
    assert (Habs : caps (abs s) !! h = Some r) by (apply abs_lookup; eauto).
    rewrite (rep_at _ _ _ Hi) in E0. apply (HS i r); try done.
    unfold lookup_live. by rewrite Habs, E0.
  - apply HN; [done|]. unfold lookup_live.
    destruct (caps (abs s) !! h) as [r|] eqn:Hl; [|done].
    apply abs_lookup in Hl as (i & Hi & Hr & Hh); [|done].
    rewrite find_index_None in E. apply list_elem_of_lookup_2, E in Hi.
    unfold live_with in Hi. rewrite Hr, Hh, Z.eqb_refl in Hi. done.
Qed.

Lemma find_free_wp s (Q : option nat -> cap_state -> Prop) :
  rep s ->
  (forall i x, g_capabilities s !! i = Some x -> nz (active x) = false ->
     (size (caps (abs s)) < CAPABILITY64_TABLE_LIMIT)%nat -> Q (Some i) s) ->
  ((CAPABILITY64_TABLE_LIMIT <= size (caps (abs s)))%nat -> Q None s) ->
  wp capability64_find_free Q s.
Proof.
  intros Hrep HS HN. unfold capability64_find_free. wp_step.
  assert (Hsz : size (caps (abs s)) = count_if (fun r => nz (active r)) (g_capabilities s))
    by (apply abs_size, (rep_unique s Hrep)).
  rewrite Hsz, <- (rep_length s Hrep) in HS, HN.
  destruct (find_index _ _) as [i|] eqn:E.
  - apply find_index_lookup in E as (x & Hi & Hx).
    assert (Hx' : nz (active x) = false) by (unfold nz; by rewrite Hx).
    apply (HS i x); [done|done|].
    eapply count_if_lt; [exact Hi|done].
  - apply HN. rewrite find_index_None in E. rewrite count_if_all; [done|].
    intros x Hx. unfold nz. by rewrite (E x Hx).
Qed.

(** A leaf of an operation that left the table alone. *)
Lemma refines_leaf {A} s s' (a : A) (p : A * acap) :
  rep s -> g_capabilities s' = g_capabilities s -> g_next_handle s' = g_next_handle s ->
  p = (a, abs s) -> rep s' /\ p = (a, abs s').
Proof.
  intros Hr Ht Hn ->. destruct (same_table_rep s s' Ht Hn Hr) as [? ->]. done.
Qed.

(** The slot search and installation shared by granting and delegating. *)
Lemma issue_wp s f new (extra : M unit) :
  rep s -> g_next_handle s < U32_MAX ->
  (forall x, f (g_next_handle s) x = new (g_next_handle s)) ->
  live (new (g_next_handle s)) -> handle (new (g_next_handle s)) = g_next_handle s ->
  (forall s1 (Q : unit -> cap_state -> Prop),
     (forall s2, g_capabilities s2 = g_capabilities s1 -> g_next_handle s2 = g_next_handle s1 ->
        Q tt s2) -> wp extra Q s1) ->
  wp (bind capability64_find_free (fun slot =>
        match slot with
        | None => bind count_denial (fun _ => ret CAPABILITY64_INVALID_HANDLE)
        | Some i => bind take_handle (fun h => bind (update i (f h)) (fun _ =>
                      bind extra (fun _ => ret h)))
        end))
     (fun h s' => rep s' /\ issue (abs s) new = (h, abs s')) s.
Proof.
  intros Hrep Hroom Hf Hl Hh Hextra. wp_step. apply find_free_wp; [done| |].
  - intros i x Hi Hx Hsz. wp_steps. apply Hextra. intros s2 Ht Hn. wp_step.
    destruct (rep_install s s2 i x (f (g_next_handle s)) (new (g_next_handle s)))
      as [Hr ->]; [done..|].
    split; [done|]. unfold issue. rewrite (proj2 (Nat.ltb_lt _ _) Hsz). done.
  - intros Hsz. wp_steps. apply (refines_leaf s); [done..|].
    unfold issue. by rewrite (proj2 (Nat.ltb_ge _ _) Hsz).
Qed.

Lemma grant_refines cls req owner pt pm s :
  rep s -> g_next_handle s < U32_MAX ->
  refines (capability64_grant_service_tagged cls req owner pt pm)
          (spec_grant cls req owner pt pm) s.
Proof.
  intros Hrep Hroom. unfold refines, capability64_grant_service_tagged, spec_grant.
  wp_step. apply principal_is_valid_wp. intros s1 Ht Hn.
  destruct (same_table_rep s s1 Ht Hn Hrep) as [Hrep1 Habs].
  rewrite <- Habs. rewrite <- Hn in Hroom.
  destruct (owner_ok _) eqn:Eo; [cbn [negb andb]|wp_steps; done].
  destruct (_ =? 0xFFFFFFFF); [wp_steps; by apply (refines_leaf s1)|cbn [negb andb]].
  unfold nz. destruct (Z.land _ _ =? 0); [cbn [negb]|wp_steps; by apply (refines_leaf s1)].
  eapply (issue_wp s1 _ (granted cls (services64_resolve_endpoint_class cls)
    (if req =? 0 then CAPABILITY64_RIGHT_SEND else req)
    (capability64_normalize_owner owner) pt pm) count_grant); try done.
  - intros x. unfold granted, capability64_bind_runtime. by case_match.
  - unfold granted, capability64_bind_runtime. by case_match.
  - unfold granted, capability64_bind_runtime. by case_match.
  - intros s2 Q HQ. wp_steps. by apply HQ.
Qed.

(** Close a leaf whose table is that of [s]. *)
Ltac refine_leaf s :=
  wp_steps; apply (refines_leaf s); [done| cbn; congruence | cbn; congruence | done].

Lemma delegate_refines src req ctx expiry s :
  rep s -> g_next_handle s < U32_MAX ->
  refines (capability64_delegate_with_expiry src req ctx expiry)
          (spec_delegate src req ctx expiry) s.
Proof.
  intros Hrep Hroom. unfold refines, capability64_delegate_with_expiry, spec_delegate.
  wp_step. apply find_live_wp; [done| |].
  - intros i r Hi Hr Hh Hexp Hlook. rewrite Hlook. cbn zeta.
    wp_step. apply principal_is_valid_wp. intros s1 Ht1 Hn1.
    destruct (owner_ok (capability64_context_caller ctx)); cbn [negb andb];
      [|refine_leaf s].
    wp_step. apply principal_is_valid_wp. intros s2 Ht2 Hn2. rewrite Ht1 in Ht2. rewrite Hn1 in Hn2.
    destruct (owner_ok (capability64_context_recipient ctx)); cbn [negb andb];
      [|refine_leaf s].
    do 2 wp_step. rewrite (rep_at s2 i r) by congruence.
    wp_step. apply owned_by_wp. intros s3 Ht3 Hn3. rewrite Ht2 in Ht3. rewrite Hn2 in Hn3.
    unfold may_delegate, nz. fold (requested_rights r req).
    destruct (owns r _); cbn [negb andb]; [|refine_leaf s].
    destruct (Z.land (rights r) _ =? 0); cbn [negb andb];
      [refine_leaf s|].
    destruct (requested_rights r req =? 0); cbn [negb andb orb];
      [refine_leaf s|].
    destruct (Z.land _ _ =? 0); cbn [negb andb orb];
      [|refine_leaf s].
    destruct (_ =? requested_rights r req); cbn [negb andb orb];
      [|refine_leaf s].
    destruct (Z.land _ _ =? 0); cbn [negb andb orb];
      [refine_leaf s|].
    wp_step. apply allows_persona_wp. intros s4 Ht4 Hn4. rewrite Ht3 in Ht4. rewrite Hn3 in Hn4.
    destruct (persona_allows r _); cbn [negb andb]; [|refine_leaf s].
    destruct (same_table_rep s s4 Ht4 Hn4 Hrep) as [Hrep4 <-]. rewrite <- Hn4 in Hroom.
    refine (issue_wp s4 _ (delegated r req (capability64_context_recipient ctx) expiry)
      (bind count_grant (fun _ => count_delegate)) Hrep4 Hroom _ _ _ _); try done.
    intros s5 Q HQ. wp_steps. by apply HQ.
  - intros s' Hrep' Hlook. rewrite Hlook. wp_step. apply principal_is_valid_wp. intros s1 Ht1 Hn1.
    destruct (owner_ok _); cbn [negb]; [|refine_leaf s'].
    wp_step. apply principal_is_valid_wp. intros s2 Ht2 Hn2. rewrite Ht1 in Ht2. rewrite Hn1 in Hn2.
    destruct (owner_ok _); cbn [negb]; refine_leaf s'.
Qed.

Lemma runtime_current_wp i r s (Q : bool -> cap_state -> Prop) :
  rep s -> g_capabilities s !! i = Some r -> live r ->
  (runtime_current r = true -> Q true s) ->
  (runtime_current r = false -> forall s', rep s' ->
     abs s' = mk_acap (delete (handle r) (caps (abs s))) (next (abs s)) -> Q false s') ->
  wp (capability64_record_runtime_is_current i) Q s.
Proof.
  intros Hrep Hi Hr HT HF. unfold capability64_record_runtime_is_current.
  do 2 wp_step. rewrite (rep_at s i r Hi).
  destruct (runtime_current r) eqn:E; wp_steps; [by apply HT|].
  match goal with |- Q _ ?s' => destruct (rep_clear s s' i r) as [Hr' Ha]; [done..|] end.
  by apply HF.
Qed.

Lemma route_refines h required caller s :
  rep s -> refines (capability64_route h required caller) (spec_route h required caller) s.
Proof.
  intros Hrep. unfold refines, capability64_route, spec_route, spec_use.
  wp_step. apply find_live_wp; [done| |].
  - intros i r Hi Hr Hh Hexp Hlook. rewrite Hlook. cbn zeta.
    wp_step. apply principal_is_valid_wp. intros s1 Ht1 Hn1.
    destruct (owner_ok caller); cbn [negb andb orb]; [|refine_leaf s].
    do 2 wp_step. rewrite (rep_at s1 i r) by congruence.
    destruct (Z.land (rights r) _ =? _); cbn [negb andb orb]; [|refine_leaf s].
    wp_step. apply owned_by_wp. intros s2 Ht2 Hn2. rewrite Ht1 in Ht2. rewrite Hn1 in Hn2.
    destruct (owns r caller); cbn [negb andb orb]; [|refine_leaf s].
    destruct (same_table_rep s s2 Ht2 Hn2 Hrep) as [Hrep2 Habs2].
    wp_step. apply (runtime_current_wp i r); [done|congruence|done| |].
    + intros ->. cbn [negb]. refine_leaf s.
    + intros -> s' Hrep' Habs'. cbn [negb]. wp_steps. split; [done|].
      by rewrite Habs', Habs2, Hh.
  - intros s' Hrep' Hlook. rewrite Hlook. wp_step. apply principal_is_valid_wp. intros s1 Ht1 Hn1.
    destruct (owner_ok caller); cbn [negb]; refine_leaf s'.
Qed.

Lemma query_refines d rt field h caller s :
  rep s -> refines (owned_query d rt field h caller) (spec_use d rt 0 field h caller) s.
Proof.
  intros Hrep. unfold refines, owned_query, spec_use.
  wp_step. apply find_live_wp; [done| |].
  - intros i r Hi Hr Hh Hexp Hlook. rewrite Hlook, Z.land_0_r.
    wp_step. apply principal_is_valid_wp. intros s1 Ht1 Hn1.
    destruct (owner_ok caller); cbn [negb andb orb]; [|refine_leaf s].
    do 2 wp_step. rewrite (rep_at s1 i r) by congruence.
    wp_step. apply owned_by_wp. intros s2 Ht2 Hn2. rewrite Ht1 in Ht2. rewrite Hn1 in Hn2.
    change (0 =? 0) with true. cbn [andb].
    destruct (owns r caller); cbn [negb andb orb]; [|refine_leaf s].
    destruct (same_table_rep s s2 Ht2 Hn2 Hrep) as [Hrep2 Habs2].
    destruct rt; cbn [negb orb]; [|refine_leaf s].
    wp_step. apply (runtime_current_wp i r); [done|congruence|done| |].
    + intros ->. cbn [negb]. refine_leaf s.
    + intros -> s' Hrep' Habs'. cbn [negb]. wp_steps. split; [done|].
      by rewrite Habs', Habs2, Hh.
  - intros s' Hrep' Hlook. rewrite Hlook. wp_step. apply principal_is_valid_wp. intros s1 Ht1 Hn1.
    destruct (owner_ok caller); cbn [negb]; refine_leaf s'.
Qed.

(** ** Loops over the table

    A loop whose body only rewrites its own slot maps the table. *)

Definition maps_slot {B} (g : capability64_record -> capability64_record) (i : nat) (m : M B) : Prop :=
  forall s, wp m (fun _ s' => g_capabilities s' = alter g i (g_capabilities s) /\
                              g_next_handle s' = g_next_handle s) s.

Lemma map_prefix_step g t k :
  alter g k (imap (fun i r => if decide (i < k)%nat then g r else r) t)
  = imap (fun i r => if decide (i < 1 + k)%nat then g r else r) t.
Proof.
  apply list_eq. intros j. rewrite list_lookup_alter, !list_lookup_imap.
  destruct (decide (k = j)) as [->|Hne]; destruct (t !! j) as [r|]; simpl;
    repeat case_decide; first [done|lia].
Qed.

Lemma table_loop_wp {B} g (body : nat -> B -> M B) acc s :
  length (g_capabilities s) = CAPABILITY64_TABLE_LIMIT ->
  (forall i b, maps_slot g i (body i b)) ->
  wp (fold_range CAPABILITY64_TABLE_LIMIT acc body)
     (fun _ s' => g_capabilities s' = g <$> g_capabilities s /\
                  g_next_handle s' = g_next_handle s) s.
Proof.
  intros Hlen Hbody.
  eapply wp_mono; [apply (wp_fold_range _ _ _ (fun k _ s' =>
    g_capabilities s' = imap (fun i r => if decide (i < k)%nat then g r else r) (g_capabilities s)
    /\ g_next_handle s' = g_next_handle s))|].
  - split; [|done]. apply list_eq. intros j. rewrite list_lookup_imap.
    by destruct (g_capabilities s !! j).
  - intros k b s' Hk [Ht Hn]. eapply wp_mono; [apply Hbody|].
    intros _ s'' [Ht' Hn']. rewrite Ht', Hn', Ht. split; [|done]. apply map_prefix_step.
  - intros _ s' [-> ->]. split; [|done]. apply list_eq. intros j.
    rewrite list_lookup_imap, list_lookup_fmap.
    destruct (g_capabilities s !! j) as [r|] eqn:Hj; simpl; [|done].
    apply lookup_lt_Some in Hj. rewrite Hlen in Hj. by rewrite decide_True.
Qed.

(** What the cascade does to one slot. *)
Definition kill_child (h : Z) (r : capability64_record) : capability64_record :=
  if nz (active r) && (parent_handle r =? h) then capability64_clear r else r.

Lemma cascade_maps h i : maps_slot (kill_child h) i (cascade_body h i).
Proof.
  intros s. unfold cascade_body. do 2 wp_step. unfold cap_at.
  destruct (g_capabilities s !! i) as [r|] eqn:Hi; simpl.
  - destruct (nz (active r) && _) eqn:E; wp_steps; (split; [|done]); cbn;
      apply list_eq; intros j; rewrite !list_lookup_alter; case_decide; subst; try done;
      rewrite Hi; simpl; unfold kill_child; by rewrite E.
  - wp_steps. split; [|done]. apply list_eq. intros j. rewrite list_lookup_alter.
    case_decide; subst; [by rewrite Hi|done].
Qed.

(** Slot maps that only ever kill slots: the abstraction is a filter. *)
Lemma abs_map_kill (g : capability64_record -> capability64_record) (keep : capability64_record -> bool) t :
  unique_handles t ->
  (forall r, live r -> keep r = true -> g r = r) ->
  (forall r, nz (active (g r)) = nz (active r) && keep r) ->
  unique_handles (g <$> t) /\
  abs_table (g <$> t) = filter (fun kr => keep kr.2 = true) (abs_table t).
Proof.
  intros Hu Hkeep Hlive.
  assert (Hg : forall i r, (g <$> t) !! i = Some r -> live r ->
            t !! i = Some r /\ keep r = true).
  { intros i r Hi Hr. rewrite list_lookup_fmap in Hi. apply fmap_Some in Hi as (x & Hx & ->).
    rewrite Hlive in Hr. boolify. rewrite (Hkeep x) by done. done. }
  assert (Hu' : unique_handles (g <$> t)).
  { intros i j r1 r2 H1 H2 L1 L2. apply Hg in H1 as [H1 _], H2 as [H2 _]; eauto. }
  split; [done|]. apply map_eq. intros h. apply option_eq. intros r.
  rewrite map_lookup_filter_Some, !abs_lookup by done. cbn. split.
  - intros (i & Hi & Hr & Hh). apply Hg in Hi as [Hi Hk]; eauto 10.
  - intros ((i & Hi & Hr & Hh) & Hk). exists i. rewrite list_lookup_fmap, Hi. simpl.
    by rewrite Hkeep.
Qed.

(** Such a loop keeps the representation. *)
Lemma rep_map_kill s s' g keep :
  rep s ->
  (forall r, live r -> keep r = true -> g r = r) ->
  (forall r, nz (active (g r)) = nz (active r) && keep r) ->
  g_capabilities s' = g <$> g_capabilities s -> g_next_handle s' = g_next_handle s ->
  rep s' /\ abs s' = mk_acap (filter (fun kr => keep kr.2 = true) (caps (abs s))) (next (abs s)).
Proof.
  intros [H1 H2 H3 H4] Hkeep Hlive Ht Hn.
  destruct (abs_map_kill g keep _ H2 Hkeep Hlive) as [Hu Ha].
  split; [|unfold abs; by rewrite Ht, Hn, Ha].
  split; rewrite ?Ht, ?Hn; [by rewrite length_fmap|done| |done].
  intros i r Hi Hr. rewrite list_lookup_fmap in Hi. apply fmap_Some in Hi as (x & Hx & ->).
  rewrite Hlive in Hr. boolify. rewrite (Hkeep x) by done. by apply (H3 i).
Qed.

Lemma revoke_refines h caller s :
  rep s -> refines (capability64_revoke h caller) (spec_revoke h caller) s.
Proof.
  intros Hrep. unfold refines, capability64_revoke, spec_revoke.
  wp_step. apply find_live_wp; [done| |].
  - intros i r Hi Hr Hh Hexp Hlook. rewrite Hlook.
    wp_step. apply principal_is_valid_wp. intros s1 Ht1 Hn1.
    destruct (owner_ok caller); cbn [negb andb orb]; [|refine_leaf s].
    do 2 wp_step. rewrite (rep_at s1 i r) by congruence.
    wp_step. apply owned_by_wp. intros s2 Ht2 Hn2. rewrite Ht1 in Ht2. rewrite Hn1 in Hn2.
    destruct (owns r caller); cbn [negb andb orb]; [|refine_leaf s].
    destruct (same_table_rep s s2 Ht2 Hn2 Hrep) as [Hrep2 Habs2].
    do 5 (wp_step || autounfold with counters).
    match goal with |- wp _ _ ?s3 =>
      destruct (rep_clear s2 s3 i r) as [Hrep3 Ha3]; [done|congruence|done..|];
      generalize dependent s3 end.
    intros s3 Hrep3 Ha3. wp_step.
    eapply wp_mono; [apply (table_loop_wp (kill_child h));
      [apply rep_length, Hrep3|intros; apply cascade_maps]|].
    intros _ s4 [Ht4 Hn4]. wp_step.
    destruct (rep_map_kill s3 s4 (kill_child h) (fun r => negb (parent_handle r =? h)))
      as [Hrep4 Ha4]; [done| | |done|done|].
    + intros x Hx Hk. unfold kill_child. boolify. by rewrite Hx, (proj2 (Z.eqb_neq _ _) Hk).
    + intros x. unfold kill_child. destruct (nz (active x)) eqn:Hx; simpl; [|done].
      by destruct (parent_handle x =? h).
    + split; [done|]. rewrite Ha4, Ha3, Habs2, Hh. cbn. f_equal. f_equal.
      unfold revoked_from. apply map_eq. intros k. apply option_eq. intros x.
      rewrite !map_lookup_filter_Some, lookup_delete_Some. cbn.
      rewrite negb_true_iff, Z.eqb_neq. naive_solver.
  - intros s' Hrep' Hlook. rewrite Hlook. wp_step. apply principal_is_valid_wp. intros s1 Ht1 Hn1.
    destruct (owner_ok caller); cbn [negb]; refine_leaf s'.
Qed.

(** ** Sweeping loops *)

Definition expire_slot (r : capability64_record) : capability64_record :=
  if negb (active r =? 0) && capability64_record_expired r then capability64_clear r else r.

(** A loop that maps each slot and counts the slots satisfying [P]. *)
Lemma table_fold_wp (g : capability64_record -> capability64_record)
    (P : capability64_record -> bool) (body : nat -> Z -> M Z) s :
  rep s ->
  (forall k b s' r, g_capabilities s' !! k = Some r -> 0 <= b < U32_MAX ->
     wp (body k b) (fun b' s'' => g_capabilities s'' = alter g k (g_capabilities s') /\
        g_next_handle s'' = g_next_handle s' /\ b' = b + (if P r then 1 else 0)) s') ->
  wp (fold_range CAPABILITY64_TABLE_LIMIT 0 body)
     (fun b s' => g_capabilities s' = g <$> g_capabilities s /\
        g_next_handle s' = g_next_handle s /\ b = Z.of_nat (count_if P (g_capabilities s))) s.
Proof.
  intros Hrep Hbody.
  eapply wp_mono; [apply (wp_fold_range _ _ _ (fun k b s' =>
    g_capabilities s' = imap (fun i r => if decide (i < k)%nat then g r else r) (g_capabilities s)
    /\ g_next_handle s' = g_next_handle s
    /\ b = Z.of_nat (count_if P (take k (g_capabilities s)))))|].
  - split_and!; [|done|done]. apply list_eq. intros j. rewrite list_lookup_imap.
    by destruct (g_capabilities s !! j).
  - intros k b s' Hk (Ht & Hn & Hb).
    destruct (lookup_lt_is_Some_2 (g_capabilities s) k) as [r Hr]; [by rewrite (rep_length s Hrep)|].
    assert (Hr' : g_capabilities s' !! k = Some r).
    { rewrite Ht, list_lookup_imap, Hr. simpl. by rewrite decide_False by lia. }
    assert (Hbound : (count_if P (take k (g_capabilities s)) <= k)%nat).
    { etrans; [apply count_if_le|]. rewrite length_take. lia. }
    unfold CAPABILITY64_TABLE_LIMIT, U32_MAX in *.
    eapply wp_mono; [apply (Hbody k b s' r Hr'); lia|].
    intros b' s'' (Ht' & Hn' & ->). rewrite Ht', Hn', Ht, map_prefix_step. split_and!; [done|done|].
    change (1 + k)%nat with (S k). rewrite (take_S_r _ _ _ Hr). unfold count_if in *.
    rewrite List.filter_app, length_app. simpl. destruct (P r); simpl; lia.
  - intros b s' (-> & -> & ->). split_and!; [|done|].
    + apply list_eq. intros j. rewrite list_lookup_imap, list_lookup_fmap.
      destruct (g_capabilities s !! j) as [r|] eqn:Hj; simpl; [|done].
      apply lookup_lt_Some in Hj. rewrite (rep_length s Hrep) in Hj. by rewrite decide_True.
    + by rewrite <- (rep_length s Hrep), firstn_all.
Qed.

Lemma abs_filter_size (P : capability64_record -> Prop) `{forall r, Decision (P r)} t :
  unique_handles t ->
  size (filter (fun kr => P kr.2) (abs_table t))
  = count_if (fun r => nz (active r) && bool_decide (P r)) t.
Proof.
  unfold count_if. induction t as [|x t IH]; intros Hu; simpl; [done|].
  pose proof (unique_tail _ _ Hu) as Hu'. specialize (IH Hu').
  destruct (nz (active x)) eqn:Hx; simpl; [|done].
  assert (Hfresh : abs_table t !! handle x = None).
  { destruct (abs_table t !! handle x) as [r|] eqn:E; [|done].
    apply abs_lookup in E as (i & Hi & Hl & Hr); [|done].
    by specialize (Hu (S i) 0%nat r x Hi eq_refl Hl Hx Hr). }
  case_bool_decide as HP.
  - rewrite map_filter_insert_True by done. simpl. rewrite map_size_insert_None; [by rewrite IH|].
    apply map_lookup_filter_None. by left.
  - rewrite map_filter_insert_not' by naive_solver. done.
Qed.

Lemma live_for_body_wp e k b s r :
  g_capabilities s !! k = Some r -> 0 <= b < U32_MAX ->
  wp (live_for_body e k b) (fun b' s' =>
    g_capabilities s' = alter expire_slot k (g_capabilities s) /\
    g_next_handle s' = g_next_handle s /\
    b' = b + (if nz (active r) && negb (capability64_record_expired r) && (endpoint_id r =? e)
              then 1 else 0)) s.
Proof.
  intros Hr Hb. unfold live_for_body. do 2 wp_step. rewrite (rep_at s k r Hr).
  unfold nz, expire_slot.
  destruct (active r =? 0) eqn:Ea; cbn [negb andb].
  { wp_steps. split_and!; [|done|lia]. symmetry. apply alter_id_at.
    intros x Hx. simplify_eq. by rewrite Ea. }
  destruct (capability64_record_expired r) eqn:Ee; cbn [negb andb].
  { wp_steps. split_and!; [|done|lia]. cbn. apply list_eq. intros j.
    rewrite !list_lookup_alter. case_decide as Hj; [subst j|done].
    rewrite Hr. simpl. by rewrite Ea, Ee. }
  assert (Hsame : g_capabilities s = alter expire_slot k (g_capabilities s)).
  { symmetry. apply alter_id_at. intros x Hx. simplify_eq. unfold expire_slot.
    by rewrite Ee, andb_false_r. }
  destruct (endpoint_id r =? e); wp_steps; (split_and!; [done|done|]); [|lia].
  by rewrite inc32_small.
Qed.

Lemma live_for_refines cls s :
  rep s -> refines (capability64_live_for_endpoint_class cls) (spec_live_for cls) s.
Proof.
  intros Hrep. unfold refines, capability64_live_for_endpoint_class, spec_live_for.
  set (e := services64_resolve_endpoint_class cls).
  destruct (e =? 0xFFFFFFFF); [refine_leaf s|].
  eapply wp_mono; [apply (table_fold_wp expire_slot (fun r => nz (active r)
    && negb (capability64_record_expired r) && (endpoint_id r =? e)) _ s Hrep);
    intros; by apply live_for_body_wp|].
  intros b s' (Ht & Hn & ->).
  destruct (rep_map_kill s s' expire_slot (fun r => negb (capability64_record_expired r)))
    as [Hrep' Ha]; [done| | |done|done|].
  { intros r Hr Hk. boolify. unfold expire_slot. by rewrite Hk, andb_false_r. }
  { intros r. unfold expire_slot, nz. destruct (active r =? 0) eqn:E; simpl; [by rewrite E|].
    destruct (capability64_record_expired r); simpl; [done|by rewrite E]. }
  split; [done|]. rewrite Ha. unfold sweep. f_equal.
  - f_equal. rewrite map_filter_filter.
    trans (size (filter (fun kr : Z * capability64_record => endpoint_id kr.2 = e /\
                   capability64_record_expired kr.2 = false) (abs_table (g_capabilities s)))).
    { f_equal. }
    etrans.
    { exact (abs_filter_size (fun r => endpoint_id r = e /\ capability64_record_expired r = false)
        _ (rep_unique s Hrep)). }
    unfold count_if. f_equal. apply filter_ext. intros r. rewrite bool_decide_and.
    destruct (nz (active r)), (capability64_record_expired r); simpl; try done.
    + by rewrite andb_false_r.
    + rewrite andb_true_r. symmetry.
      by destruct (Z.eqb_spec (endpoint_id r) e), (bool_decide_reflect (endpoint_id r = e)).
  - f_equal. apply map_filter_ext. intros h r _. cbn. by rewrite negb_true_iff.
Qed.

(** ** Draining an endpoint class *)

Lemma drain_children_maps h i b : maps_slot (kill_child h) i (drain_children_body h i b).
Proof.
  intros s. unfold drain_children_body. do 2 wp_step. unfold cap_at.
  destruct (g_capabilities s !! i) as [r|] eqn:Hi; simpl.
  - destruct (nz (active r) && _) eqn:E; wp_steps; (split; [|done]); cbn;
      apply list_eq; intros j; rewrite !list_lookup_alter; case_decide; subst; try done;
      rewrite Hi; simpl; unfold kill_child; by rewrite E.
  - wp_steps. split; [|done]. symmetry. apply alter_id_at. intros r Hr. congruence.
Qed.

(** Delegation copies the endpoint, so a capability's children share it. *)
Definition children_share (t : list capability64_record) : Prop :=
  forall i j r c, t !! i = Some r -> t !! j = Some c -> live r -> live c ->
    parent_handle c = handle r -> endpoint_id c = endpoint_id r.

(** The slots the drain must clear. *)
Definition doomed (e : Z) (r : capability64_record) : bool :=
  capability64_record_expired r || (endpoint_id r =? e).

(** The table after [k] steps of the drain of a table [t]. *)
Record drain_inv (e : Z) (t : list capability64_record) (k : nat) (t' : list capability64_record) : Prop := {
  di_length : length t' = length t;
  di_orig : forall i r, t' !! i = Some r -> live r -> t !! i = Some r;
  di_kept : forall i r, t !! i = Some r -> live r -> doomed e r = false -> t' !! i = Some r;
  di_done : forall i r, (i < k)%nat -> t' !! i = Some r -> live r -> doomed e r = false;
}.

(** Clearing doomed slots, slot [k] included if it is doomed, is one step. *)
Lemma drain_inv_step e t k t' t'' :
  drain_inv e t k t' -> length t'' = length t' ->
  (forall i r, t'' !! i = Some r -> live r -> t' !! i = Some r) ->
  (forall i r, t' !! i = Some r -> live r -> doomed e r = false -> t'' !! i = Some r) ->
  (forall r, t'' !! k = Some r -> live r -> doomed e r = false) ->
  drain_inv e t (S k) t''.
Proof.
  intros [H1 H2 H3 H4] Hlen Horig Hkeep Hk. split; [congruence|eauto|eauto|].
  intros i r Hi Hr Hl. destruct (decide (i = k)) as [->|]; [by apply Hk|].
  apply (H4 i); eauto; lia.
Qed.

(** Clearing slot [k], when it is doomed. *)
Lemma drain_inv_clear e t k t' r :
  drain_inv e t k t' -> t' !! k = Some r -> doomed e r = true ->
  drain_inv e t (S k) (alter capability64_clear k t').
Proof.
  intros Hd Hk Hr. apply (drain_inv_step e t k t'); [done|by rewrite length_alter|..].
  - intros i x Hi Hl. by apply clear_lookup in Hi as [? _].
  - intros i x Hi Hl Hx. rewrite list_lookup_alter_ne; [done|]. intros ->. congruence.
  - intros x Hx Hl. by apply clear_lookup in Hx as [_ ?].
Qed.

(** ... and then its children, which share its endpoint. *)
Lemma drain_inv_children e t k t' r :
  children_share t -> drain_inv e t k t' -> t' !! k = Some r -> live r ->
  endpoint_id r = e ->
  drain_inv e t (S k) (kill_child (handle r) <$> alter capability64_clear k t').
Proof.
  intros Hshare Hd Hk Hl He.
  assert (Hkill : forall i x, (kill_child (handle r) <$> alter capability64_clear k t') !! i = Some x ->
            live x -> t' !! i = Some x /\ i <> k).
  { intros i x Hi Hx. rewrite list_lookup_fmap in Hi. apply fmap_Some in Hi as (y & Hy & ->).
    unfold kill_child in *. destruct (nz (active y) && _); [done|]. by apply clear_lookup. }
  apply (drain_inv_step e t k t'); [done|by rewrite length_fmap, length_alter|..].
  - intros i x Hi Hx. by apply Hkill.
  - intros i x Hi Hx Hdx. assert (i <> k).
    { intros ->. simplify_eq. unfold doomed in Hdx. boolify. congruence. }
    rewrite list_lookup_fmap, list_lookup_alter_ne, Hi by done. simpl. f_equal.
    unfold kill_child. rewrite Hx. destruct (parent_handle x =? handle r) eqn:E; [|done].
    boolify. unfold doomed in Hdx. boolify.
    assert (endpoint_id x = endpoint_id r) by (eapply (Hshare k i); eauto using di_orig). congruence.
  - intros x Hx Hlx. by apply Hkill in Hx as [_ ?].
Qed.

Lemma drain_body_wp e t k b s :
  children_share t -> (k < CAPABILITY64_TABLE_LIMIT)%nat ->
  length t = CAPABILITY64_TABLE_LIMIT -> drain_inv e t k (g_capabilities s) ->
  wp (drain_body e k b) (fun _ s' => drain_inv e t (S k) (g_capabilities s') /\
    g_next_handle s' = g_next_handle s) s.
Proof.
  intros Hshare Hk Ht Hd. unfold drain_body. do 2 wp_step.
  destruct (lookup_lt_is_Some_2 (g_capabilities s) k) as [r Hr];
    [by rewrite (di_length _ _ _ _ Hd), Ht|]. rewrite (rep_at s k r Hr).
  assert (Hskip : (live r -> doomed e r = false) -> drain_inv e t (S k) (g_capabilities s)).
  { intros H. apply (drain_inv_step e t k (g_capabilities s)); auto. intros x Hx. simplify_eq. auto. }
  destruct (active r =? 0) eqn:Ea; [wp_steps; split; [apply Hskip; unfold nz; by rewrite Ea|done]|].
  destruct (capability64_record_expired r) eqn:Ee.
  { wp_steps. split; [|done]. apply (drain_inv_clear e t k _ r); auto. unfold doomed. by rewrite Ee. }
  destruct (endpoint_id r =? e) eqn:Eid; cbn [negb];
    [|wp_steps; split; [apply Hskip; unfold doomed; by rewrite Ee|done]].
  do 3 (wp_step || autounfold with counters). cbn zeta.
  do 3 (wp_step || autounfold with counters).
  eapply wp_mono; [apply (table_loop_wp (kill_child (handle r)))|].
  - cbn. by rewrite length_alter, (di_length _ _ _ _ Hd).
  - intros. apply drain_children_maps.
  - intros _ s' [Ht' Hn']. rewrite Ht', Hn'. split; [|done].
    apply drain_inv_children; auto; [by unfold nz; rewrite Ea|by apply Z.eqb_eq].
Qed.

(** The drain: what is left is unexpired and of another endpoint. *)
Lemma drain_wp cls s :
  rep s -> children_share (g_capabilities s) ->
  wp (capability64_revoke_endpoint_class cls)
     (fun _ s' => rep s' /\ abs s' = drained cls (abs s)) s.
Proof.
  intros Hrep Hshare. unfold capability64_revoke_endpoint_class, drained.
  set (e := services64_resolve_endpoint_class cls).
  destruct (e =? 0xFFFFFFFF); [by wp_steps|].
  eapply wp_mono; [apply (wp_fold_range _ _ _ (fun k _ s' =>
    drain_inv e (g_capabilities s) k (g_capabilities s') /\
    g_next_handle s' = g_next_handle s))|].
  - split; [|done]. split; auto. intros; lia.
  - intros k b s' Hk [Hd Hn]. eapply wp_mono; [by apply drain_body_wp, Hd; auto using rep_length|].
    intros _ s'' [Hd' Hn']. split; [done|congruence].
  - intros _ s' [[H1 H2 H3 H4] Hn]. destruct Hrep as [R1 R2 R3 R4].
    assert (Hu : unique_handles (g_capabilities s')).
    { intros i j r1 r2 Hi Hj L1 L2. eauto. }
    assert (Hlt : forall i r, g_capabilities s' !! i = Some r -> (i < CAPABILITY64_TABLE_LIMIT)%nat).
    { intros i r Hi. apply lookup_lt_Some in Hi. congruence. }
    split; [split; rewrite ?Hn; eauto; congruence|].
    unfold abs. rewrite Hn. f_equal. cbn. apply map_eq. intros h. apply option_eq. intros r.
    unfold sweep. rewrite !map_lookup_filter_Some, !abs_lookup by done. cbn. split.
    + intros (i & Hi & Hr & Hh). pose proof (H4 i r (Hlt i r Hi) Hi Hr) as Hd.
      unfold doomed in Hd. boolify. eauto 10.
    + intros (((i & Hi & Hr & Hh) & Hexp) & He). exists i. split; [|done].
      apply H3; [done..|]. unfold doomed. rewrite Hexp. by apply Z.eqb_neq.
Qed.

End simulation.
End CapFacts.
