(* ===== verification/CapabilityProps.v ===== *)
(** * What the capability broker guarantees

    Sequences of broker calls from boot, the invariant every reachable table
    satisfies, and the properties of the operations that follow from it. *)

From S2P Require Import Prelude Principal Services64 Capability CapabilitySpec CapabilityFacts.
Import Principal Services64 Capability CapSpec CapFacts.
Local Open Scope Z_scope.

Module CapProps.

Implicit Types (a : acap) (r p c sr : capability64_record) (s : cap_state).

(** ** Calls and runs *)

Inductive cap_op :=
| OpGrant (cls req owner : Z)
| OpGrantForProcess (cls req pid : Z)
| OpDelegate (src req ctx : Z)
| OpDelegatePersistent (src req ctx : Z)
| OpRoute (h required caller : Z)
| OpRevoke (h caller : Z)
| OpTargetEndpoint (h caller : Z)
| OpRights (h caller : Z)
| OpParent (h caller : Z)
| OpOwner (h caller : Z)
| OpExpiryTick (h caller : Z)
| OpRuntimeGeneration (h caller : Z)
| OpRuntimeToken (h caller : Z)
| OpPersonaTag (h caller : Z)
| OpPersonaMask (h caller : Z)
| OpLiveFor (cls : Z)
| OpRevokeEndpointClass (cls : Z).

(** One call, in the environment [env] of the moment it is made. *)
Definition run_op (env : CapEnv) (o : cap_op) : M Z :=
  match o with
  | OpGrant cls req owner => capability64_grant_service cls req owner
  | OpGrantForProcess cls req pid => capability64_grant_service_for_process cls req pid
  | OpDelegate src req ctx => capability64_delegate src req ctx
  | OpDelegatePersistent src req ctx => capability64_delegate_persistent src req ctx
  | OpRoute h required caller => capability64_route h required caller
  | OpRevoke h caller => capability64_revoke h caller
  | OpTargetEndpoint h caller => capability64_target_endpoint h caller
  | OpRights h caller => capability64_rights h caller
  | OpParent h caller => capability64_parent h caller
  | OpOwner h caller => capability64_owner h caller
  | OpExpiryTick h caller => capability64_expiry_tick h caller
  | OpRuntimeGeneration h caller => capability64_runtime_generation h caller
  | OpRuntimeToken h caller => capability64_runtime_token h caller
  | OpPersonaTag h caller => capability64_persona_tag h caller
  | OpPersonaMask h caller => capability64_persona_mask h caller
  | OpLiveFor cls => capability64_live_for_endpoint_class cls
  | OpRevokeEndpointClass cls => capability64_revoke_endpoint_class cls
  end.

(** The same call on the abstract broker.  The count a drain returns is not
    part of the specification. *)
Definition spec_op (env : CapEnv) (o : cap_op) (a : acap) : option Z * acap :=
  let some (p : Z * acap) := (Some p.1, p.2) in
  match o with
  | OpGrant cls req owner => some (spec_grant cls req owner CAPABILITY64_PERSONA_UNTAGGED 0 a)
  | OpGrantForProcess cls req pid => some (spec_grant_for_process cls req pid a)
  | OpDelegate src req ctx =>
      some (spec_delegate src req ctx (add32 pit_get_ticks CAPABILITY64_DELEGATE_LEASE_TICKS) a)
  | OpDelegatePersistent src req ctx =>
      some (spec_delegate src req ctx CAPABILITY64_LEASE_PERMANENT a)
  | OpRoute h required caller => some (spec_route h required caller a)
  | OpRevoke h caller => some (spec_revoke h caller a)
  | OpTargetEndpoint h caller => some (spec_use 0xFFFFFFFF true 0 endpoint_id h caller a)
  | OpRights h caller => some (spec_use 0 false 0 rights h caller a)
  | OpParent h caller => some (spec_use 0 false 0 parent_handle h caller a)
  | OpOwner h caller => some (spec_use 0 false 0 owner_id h caller a)
  | OpExpiryTick h caller => some (spec_use 0 false 0 expiry_tick h caller a)
  | OpRuntimeGeneration h caller => some (spec_use 0 true 0 runtime_generation h caller a)
  | OpRuntimeToken h caller => some (spec_use 0 true 0 runtime_token h caller a)
  | OpPersonaTag h caller =>
      some (spec_use CAPABILITY64_PERSONA_UNTAGGED false 0 persona_type h caller a)
  | OpPersonaMask h caller => some (spec_use 0 false 0 persona_mask h caller a)
  | OpLiveFor cls => some (spec_live_for cls a)
  | OpRevokeEndpointClass cls => (None, drained cls a)
  end.

(** [n] calls after the broker was initialised. *)
Inductive reachable : nat -> cap_state -> Prop :=
| reach_init s : reachable 0 (capability64_init s)
| reach_step n s env o :
    reachable n s -> reachable (S n) (snd (run_op env o s)).

(** [n] calls made from [s]. *)
Inductive steps : nat -> cap_state -> cap_state -> Prop :=
| steps_refl s : steps 0 s s
| steps_step n s s' env o : steps n s s' -> steps (S n) s (snd (run_op env o s')).

(** ** The invariant of the abstract broker *)

(** [c] carries no more authority than [p], the capability it came from. *)
Record attenuates (c p : capability64_record) : Prop := {
  at_rights : Z.land (rights c) (rights p) = rights c;
  at_delegable : nz (Z.land (rights p) CAPABILITY64_RIGHT_DELEGATE) = true;
  at_class : endpoint_class c = endpoint_class p;
  at_endpoint : endpoint_id c = endpoint_id p;
  at_generation : runtime_generation c = runtime_generation p;
  at_token : runtime_token c = runtime_token p;
  at_persona : persona_type c = persona_type p;
  at_mask : persona_mask c = persona_mask p;
}.

Record cap_ok (a : acap) (h : Z) (r : capability64_record) : Prop := {
  ok_handle : handle r = h;
  ok_active : active r = 1;
  ok_bound : CAPABILITY64_HANDLE_BASE <= h < next a;
  ok_owner : nz (principal64_is_active (owner_id r)) = true;
  ok_endpoint : services64_resolve_endpoint_class (endpoint_class r) = endpoint_id r;
  ok_resolved : endpoint_id r <> 0xFFFFFFFF;
  ok_rights : rights r <> 0;
  ok_allowed : Z.land (rights r) (not32 (allowed_rights_for (endpoint_id r))) = 0;
  ok_root : parent_handle r = 0 -> expiry_tick r = CAPABILITY64_LEASE_PERMANENT;
  ok_child : parent_handle r <> 0 ->
    Z.land (rights r) CAPABILITY64_RIGHT_DELEGATE = 0 /\
    CAPABILITY64_HANDLE_BASE <= parent_handle r < h /\
    (forall p, caps a !! parent_handle r = Some p -> attenuates r p);
}.

Definition acap_inv (a : acap) : Prop :=
  CAPABILITY64_HANDLE_BASE <= next a /\
  forall h r, caps a !! h = Some r -> cap_ok a h r.

(** Removing capabilities keeps the invariant. *)
Lemma inv_submap a m : acap_inv a -> m ⊆ caps a -> acap_inv (mk_acap m (next a)).
Proof.
  intros [Hb Hok] Hsub. split; [done|]. intros h r Hr.
  pose proof (lookup_weaken _ _ _ _ Hr Hsub) as Hr'. destruct (Hok h r Hr') as [].
  split; try done. intros Hp. destruct (ok_child0 Hp) as (? & ? & Hatt).
  do 2 (split; [done|]). intros p Hlk. eapply Hatt, lookup_weaken; eauto.
Qed.

(** Issuing a capability under the next handle keeps the invariant of the
    others. *)
Lemma inv_issue a (new : Z -> capability64_record) v a' :
  acap_inv a -> next a < U32_MAX -> issue a new = (v, a') ->
  (cap_ok (mk_acap (<[next a := new (next a)]> (caps a)) (next a + 1)) (next a) (new (next a))) ->
  acap_inv a'.
Proof.
  intros [Hb Hok] Hn. unfold issue. case_match; intros [= <- <-] Hnew; [|done].
  rewrite inc32_small by (unfold CAPABILITY64_HANDLE_BASE in *; lia).
  split; cbn; [lia|]. intros h r [[<- <-]|[Hne Hr]]%lookup_insert_Some; [done|].
  destruct (Hok h r Hr) as []. split; cbn; try done; [lia|].
  intros Hp. destruct (ok_child0 Hp) as (? & ? & Hatt). do 2 (split; [done|]).
  intros p. rewrite lookup_insert_ne by lia. auto.
Qed.

Section ops.
Context {env : CapEnv}.

Lemma lookup_live_spec a h o a' :
  lookup_live a h = (o, a') ->
  caps a' ⊆ caps a /\ next a' = next a /\
  match o with
  | Some r => a' = a /\ caps a !! h = Some r /\ capability64_record_expired r = false
  | None => caps a' !! h = None /\
      (forall r, caps a !! h = Some r -> capability64_record_expired r = true)
  end.
Proof.
  unfold lookup_live. destruct (caps a !! h) as [r|] eqn:Hr; [|intros [= <- <-]; done].
  destruct (capability64_record_expired r) eqn:He; intros [= <- <-]; [|done].
  cbn. split_and!; [apply delete_subseteq|done|apply lookup_delete_eq|naive_solver].
Qed.

Lemma inv_lookup_live a h o a' : acap_inv a -> lookup_live a h = (o, a') -> acap_inv a'.
Proof.
  intros Hi Hl. apply lookup_live_spec in Hl as (Hsub & Hn & _). destruct a' as [m n].
  cbn in *. subst n. by apply inv_submap.
Qed.

Lemma spec_use_submap d b need f h caller a :
  caps (spec_use d b need f h caller a).2 ⊆ caps a /\ next (spec_use d b need f h caller a).2 = next a.
Proof.
  unfold spec_use. destruct (lookup_live a h) as [o a'] eqn:Hl.
  apply lookup_live_spec in Hl as (Hs & Hn & _).
  destruct o as [r|]; repeat case_match; cbn; split; try done.
  etrans; [apply delete_subseteq|done].
Qed.

Lemma spec_revoke_submap h caller a :
  caps (spec_revoke h caller a).2 ⊆ caps a /\ next (spec_revoke h caller a).2 = next a.
Proof.
  unfold spec_revoke. destruct (lookup_live a h) as [o a'] eqn:Hl.
  apply lookup_live_spec in Hl as (Hs & Hn & _).
  destruct o as [r|]; repeat case_match; cbn; split; try done.
  etrans; [apply map_filter_subseteq|done].
Qed.

Lemma spec_live_for_submap cls a :
  caps (spec_live_for cls a).2 ⊆ caps a /\ next (spec_live_for cls a).2 = next a.
Proof. unfold spec_live_for. case_match; cbn; split; try done. apply map_filter_subseteq. Qed.

Lemma drained_submap cls a : caps (drained cls a) ⊆ caps a /\ next (drained cls a) = next a.
Proof.
  unfold drained. case_match; cbn; split; try done.
  etrans; [apply map_filter_subseteq|apply map_filter_subseteq].
Qed.

(** [normalize_owner] is idempotent, and [owner_ok] is about its result. *)
Lemma owner_ok_normalized owner :
  owner_ok owner = true -> nz (principal64_is_active (capability64_normalize_owner owner)) = true.
Proof. done. Qed.

Lemma normalize_nonzero owner : capability64_normalize_owner owner <> 0.
Proof.
  unfold capability64_normalize_owner. destruct (nz owner) eqn:E; [by apply nz_true|done].
Qed.

Lemma normalize_idem owner :
  capability64_normalize_owner (capability64_normalize_owner owner)
  = capability64_normalize_owner owner.
Proof.
  unfold capability64_normalize_owner at 1. pose proof (normalize_nonzero owner) as H.
  apply nz_true in H. by rewrite H.
Qed.

Lemma caller_normalized ctx :
  capability64_normalize_owner (capability64_context_caller ctx) = capability64_context_caller ctx.
Proof. apply normalize_idem. Qed.

Lemma recipient_normalized ctx :
  capability64_normalize_owner (capability64_context_recipient ctx)
  = capability64_context_recipient ctx.
Proof.
  unfold capability64_context_recipient. destruct (nz (Z.land ctx 0xFFFF)) eqn:E.
  - unfold capability64_normalize_owner. by rewrite E.
  - apply normalize_idem.
Qed.

Lemma inv_grant cls req owner pt pm a :
  acap_inv a -> next a < U32_MAX -> acap_inv (spec_grant cls req owner pt pm a).2.
Proof.
  intros Hi Hn. unfold spec_grant. set (e := services64_resolve_endpoint_class cls).
  set (rq := if req =? 0 then _ else _). destruct (_ && _) eqn:E; [|done]. boolify.
  destruct (issue a _) as [v a'] eqn:Hiss. eapply inv_issue; [done..|]. cbn.
  assert (rq <> 0) by (subst rq; destruct (Z.eqb_spec req 0); done).
  assert (Hown : nz (principal64_is_active (capability64_normalize_owner owner)) = true).
  { rewrite <- normalize_idem. by apply owner_ok_normalized. }
  destruct Hi as [Hb _].
  unfold granted, capability64_bind_runtime. destruct (_ =? LAUNCH64_INVALID_MANIFEST);
    split; cbn; try done; lia.
Qed.

(** Rights a delegation may pass on. *)
Lemma delegated_rights sr req caller recipient :
  may_delegate sr req caller recipient = true ->
  let rq := Z.land (requested_rights sr req) (not32 CAPABILITY64_RIGHT_DELEGATE) in
  rq <> 0 /\ Z.land rq CAPABILITY64_RIGHT_DELEGATE = 0 /\
  Z.land rq (rights sr) = rq /\ owns sr caller = true /\
  nz (Z.land (rights sr) CAPABILITY64_RIGHT_DELEGATE) = true /\
  persona_allows sr recipient = true.
Proof.
  unfold may_delegate. cbn zeta. rewrite !andb_true_iff, !Z.eqb_eq.
  intros [[[Hown Hdel] [[[Hnz Hnd] Hsub] Hd]] Hper]. split_and!; [by apply nz_true|..]; try done.
  - rewrite <- Z.land_assoc, (Z.land_comm (not32 _)), Z.land_assoc, Hnd. apply Z.land_0_l.
  - rewrite <- Z.land_assoc, (Z.land_comm (not32 _)), Z.land_assoc. by rewrite Hsub.
Qed.

Lemma land_sub_zero x y z : Z.land x y = x -> Z.land y z = 0 -> Z.land x z = 0.
Proof. intros <- H. rewrite <- Z.land_assoc, H. apply Z.land_0_r. Qed.

Lemma inv_delegate src req ctx expiry a :
  acap_inv a -> next a < U32_MAX -> acap_inv (spec_delegate src req ctx expiry a).2.
Proof.
  intros Hi Hn. unfold spec_delegate. destruct (lookup_live a src) as [o a1] eqn:Hl.
  pose proof (inv_lookup_live _ _ _ _ Hi Hl) as Hi1.
  apply lookup_live_spec in Hl as (_ & Hn1 & Ho). destruct o as [sr|]; [|done].
  destruct Ho as (-> & Hsrc & _).
  destruct (owner_ok (capability64_context_caller ctx) && _ && _) eqn:E; [|done].
  apply andb_true_iff in E as [[Hcal Hrec]%andb_true_iff Hmay].
  destruct (issue a _) as [v a'] eqn:Hiss. eapply inv_issue; [done..|]. cbn.
  destruct Hi as [Hb Hok]. destruct (Hok src sr Hsrc) as [].
  destruct (delegated_rights _ _ _ _ Hmay) as (? & ? & ? & _ & ? & _).
  split; cbn; unfold CAPABILITY64_HANDLE_BASE in *; try done; try lia.
  - rewrite <- recipient_normalized. by apply owner_ok_normalized.
  - by eapply land_sub_zero.
  - intros _. split; [done|]. split; [lia|]. intros p. rewrite lookup_insert_ne by lia.
    rewrite ok_handle0, Hsrc. intros [= <-]. by split.
Qed.

(** Every call keeps the invariant of the abstract broker. *)
Lemma inv_spec_op o a : acap_inv a -> next a < U32_MAX -> acap_inv (spec_op env o a).2.
Proof.
  intros Hi Hn.
  assert (Hsub : forall a', caps a' ⊆ caps a /\ next a' = next a -> acap_inv a').
  { intros [m n] [Hm Hn']. cbn in *. subst n. by apply inv_submap. }
  destruct o; cbn -[spec_grant]; auto using inv_grant, inv_delegate, spec_use_submap,
    spec_revoke_submap, spec_live_for_submap, drained_submap.
  - unfold spec_grant_for_process. case_match; [done|]. by apply inv_grant.
  - apply Hsub, spec_use_submap.
Qed.

(** ** The table implements the abstract broker *)

Lemma inv_children_share s : rep s -> acap_inv (abs s) -> children_share (g_capabilities s).
Proof.
  intros Hrep [_ Hok] i j r c Hi Hj Hr Hc Hp.
  assert (Hlr : abs_table (g_capabilities s) !! handle r = Some r)
    by (apply abs_lookup; eauto using rep_unique).
  assert (Hlc : abs_table (g_capabilities s) !! handle c = Some c)
    by (apply abs_lookup; eauto using rep_unique).
  pose proof (ok_bound _ _ _ (Hok _ _ Hlr)) as Hb. unfold CAPABILITY64_HANDLE_BASE in Hb.
  destruct (ok_child _ _ _ (Hok _ _ Hlc)) as (_ & _ & Hatt); [lia|].
  apply (at_endpoint c r), Hatt. by rewrite Hp.
Qed.

Lemma grant_for_process_refines cls req pid s :
  rep s -> g_next_handle s < U32_MAX ->
  refines (capability64_grant_service_for_process cls req pid)
          (spec_grant_for_process cls req pid) s.
Proof.
  intros Hrep Hn. unfold refines, capability64_grant_service_for_process, spec_grant_for_process.
  case_match; [|by apply grant_refines]. wp_steps.
  apply (refines_leaf s); done.
Qed.

(** What a call does: the result and the new abstract broker of [spec_op]. *)
Definition implements (o : cap_op) (s : cap_state) : Prop :=
  wp (run_op env o) (fun v s' => rep s' /\ abs s' = (spec_op env o (abs s)).2 /\
    forall x, (spec_op env o (abs s)).1 = Some x -> v = x) s.

Lemma refines_implements o spec s :
  refines (run_op env o) spec s ->
  spec_op env o (abs s) = (Some (spec (abs s)).1, (spec (abs s)).2) -> implements o s.
Proof.
  intros Hr He. unfold refines in Hr. eapply wp_mono; [exact Hr|]. intros v s' [Hrep Hs]. rewrite He, Hs. cbn.
  split_and!; [done..|]. by intros x [= ->].
Qed.

Lemma op_implements o s :
  rep s -> acap_inv (abs s) -> g_next_handle s < U32_MAX -> implements o s.
Proof.
  intros Hrep Hinv Hn.
  destruct o.
  1: by eapply refines_implements; [apply grant_refines|].
  1: by eapply refines_implements; [apply grant_for_process_refines|].
  1-2: by eapply refines_implements; [apply delegate_refines|].
  1: by eapply refines_implements; [apply route_refines|].
  1: by eapply refines_implements; [apply revoke_refines|].
  1-9: by eapply refines_implements; [apply query_refines|].
  1: by eapply refines_implements; [apply live_for_refines|].
  eapply wp_mono; [apply drain_wp; auto using inv_children_share|].
  intros v s' [Hrep' Ha]. done.
Qed.

End ops.

(** ** Reachable tables *)

(** How one call changes the broker: what is live afterwards was live
    before, unchanged, or is the one capability issued under the next handle. *)
Record evolves (a a' : acap) : Prop := {
  ev_next : next a <= next a' <= next a + 1;
  ev_caps : forall h r, caps a' !! h = Some r -> caps a !! h = Some r \/ h = next a;
}.

Lemma evolves_submap a a' : caps a' ⊆ caps a /\ next a' = next a -> evolves a a'.
Proof.
  intros [Hs Hn]. split; [lia|]. intros h r Hr. left. by eapply lookup_weaken.
Qed.

Lemma evolves_issue a new :
  CAPABILITY64_HANDLE_BASE <= next a < U32_MAX -> evolves a (issue a new).2.
Proof.
  intros Hn. unfold issue. case_match; [|by apply evolves_submap].
  split; cbn; [rewrite inc32_small; unfold CAPABILITY64_HANDLE_BASE in *; lia|].
  intros h r [[<- _]|[_ Hr]]%lookup_insert_Some; auto.
Qed.

Lemma spec_op_evolves env o a :
  CAPABILITY64_HANDLE_BASE <= next a < U32_MAX -> evolves a (spec_op env o a).2.
Proof.
  intros Hn. destruct o; cbn -[spec_grant];
    try (apply evolves_submap; auto using spec_use_submap, spec_revoke_submap,
           spec_live_for_submap, drained_submap; apply spec_use_submap).
  1,2: unfold spec_grant_for_process, spec_grant; repeat case_match;
    auto using evolves_issue, evolves_submap.
  all: unfold spec_delegate; destruct (lookup_live a src) as [[sr|] a1] eqn:Hl;
    apply lookup_live_spec in Hl as (Hs & Hn1 & Ho); [destruct Ho as [-> _]|];
    repeat case_match; auto using evolves_issue, evolves_submap.
Qed.

Lemma init_rep s : rep (capability64_init s) /\ abs (capability64_init s) = mk_acap ∅ CAPABILITY64_HANDLE_BASE.
Proof.
  split; [|done]. split; [done| | |done].
  - intros i j r1 r2 Hi _ Hl. apply lookup_replicate in Hi as [-> _]. done.
  - intros i r Hi Hl. apply lookup_replicate in Hi as [-> _]. done.
Qed.

(** Every table reached by fewer calls than there are handles represents a
    broker that satisfies the invariant. *)
Lemma reachable_inv n s :
  reachable n s -> CAPABILITY64_HANDLE_BASE + Z.of_nat n <= U32_MAX ->
  rep s /\ acap_inv (abs s) /\ g_next_handle s <= CAPABILITY64_HANDLE_BASE + Z.of_nat n.
Proof.
  induction 1 as [s|n s env o Hreach IH]; intros Hn.
  - destruct (init_rep s) as [Hrep Ha]. split; [done|]. split; [|done]. rewrite Ha. by split.
  - destruct IH as (Hrep & Hinv & Hnext); [lia|].
    assert (Hlt : g_next_handle s < U32_MAX) by lia.
    destruct (op_implements o s Hrep Hinv Hlt) as (Hrep' & Ha & _).
    pose proof (inv_spec_op o (abs s) Hinv Hlt) as Hinv'. rewrite <- Ha in Hinv'.
    destruct (spec_op_evolves env o (abs s)) as [Hev _]; [split; [apply Hinv|done]|].
    rewrite <- Ha in Hev. cbn in Hev. do 2 (split; [done|]). lia.
Qed.

Lemma reachable_steps n k s s' : reachable n s -> steps k s s' -> reachable (k + n) s'.
Proof. intros Hr Hs. induction Hs; cbn; auto using reachable. Qed.

(** Handles are never issued twice: what is live under an old handle was
    live there all along. *)
Lemma steps_old n k s s' h r :
  reachable n s -> steps k s s' ->
  CAPABILITY64_HANDLE_BASE + Z.of_nat (k + n) <= U32_MAX ->
  h < g_next_handle s -> caps (abs s') !! h = Some r ->
  caps (abs s) !! h = Some r /\ g_next_handle s <= g_next_handle s'.
Proof.
  intros Hr Hs Hb Hh. revert r.
  cut (g_next_handle s <= g_next_handle s' /\
       forall r, caps (abs s') !! h = Some r -> caps (abs s) !! h = Some r); [naive_solver|].
  induction Hs as [s|k s s1 env o Hs IH]; [split; [lia|done]|].
  destruct IH as [Hn IH]; [done|lia|done|].
  destruct (reachable_inv (k + n) s1) as (Hrep & Hinv & Hnext);
    [by apply (reachable_steps _ _ s)|lia|].
  assert (Hlt : g_next_handle s1 < U32_MAX) by lia.
  destruct (op_implements o s1 Hrep Hinv Hlt) as (_ & Ha & _).
  destruct (spec_op_evolves env o (abs s1)) as [He Hc]; [split; [apply Hinv|done]|].
  rewrite <- Ha in He, Hc. cbn [next abs] in *. split; [lia|].
  intros r Hr'. destruct (Hc h r Hr') as [?| ->]; [auto|lia].
Qed.

(** Reading an operation's outcome off its specification. *)
Lemma reachable_run n s env o v s' :
  reachable n s -> CAPABILITY64_HANDLE_BASE + Z.of_nat n < U32_MAX ->
  run_op env o s = (v, s') ->
  rep s /\ acap_inv (abs s) /\ CAPABILITY64_HANDLE_BASE <= g_next_handle s < U32_MAX /\
  abs s' = (spec_op env o (abs s)).2 /\
  (forall x, (spec_op env o (abs s)).1 = Some x -> v = x).
Proof.
  intros Hr Hn Hrun. destruct (reachable_inv n s Hr) as (Hrep & Hinv & Hnext); [lia|].
  destruct (op_implements (env := env) o s) as (_ & Ha & Hv); [done|done|lia|].
  rewrite Hrun in Ha, Hv. do 2 (split; [done|]). split; [|done]. split; [apply Hinv|lia].
Qed.

End CapProps.
