(* ===== verification/CapabilityTheorems.v ===== *)
(** * Theorems of the capability broker

    The properties of kernel/arch/x86_64/capability.c, each with a run of
    the broker that meets its hypotheses. *)

From S2P Require Import Prelude Principal Services64 Capability CapabilitySpec CapabilityFacts CapabilityProps.
Import Principal Services64 Capability CapSpec CapFacts CapProps.
Local Open Scope Z_scope.

Module CapTheorems.

(** ** Concrete runs for the witnesses *)

(** An environment at tick [t] with no launched manifests; every principal
    [p] runs as process [p], and the two worker principals carry disjoint
    persona masks. *)
Definition demo_env (t : Z) : CapEnv := {|
  pit_get_ticks := t;
  launch64_manifest_by_endpoint_class := fun _ => LAUNCH64_INVALID_MANIFEST;
  launch64_manifest_runtime_generation := fun _ => 0;
  launch64_manifest_runtime_token := fun _ => 0;
  launch64_manifest_accepts_runtime_token := fun _ _ => 0;
  process64_pid_for_principal := fun p => p;
  process64_principal := fun pid => pid;
  persona64_type := fun pid => if pid =? PRINCIPAL64_ID_POLICY_WORKER then 1 else 2;
  persona64_capability_mask := fun pid => if pid =? PRINCIPAL64_ID_POLICY_WORKER then 2 else 4;
|}.

Definition demo_boot : cap_state :=
  capability64_init (mk_cap_state [] 0 0 0 0 0 0 0 0 0 0 0 0 0 []).

Definition run_all (l : list (CapEnv * cap_op)) (s : cap_state) : cap_state :=
  fold_left (fun s eo => snd (run_op eo.1 eo.2 s)) l s.

Lemma run_all_steps l n s s' : steps n s s' -> steps (length l + n) s (run_all l s').
Proof.
  revert n s'. induction l as [|[env o] l IH]; intros n s' Hs; [done|].
  replace (length ((env, o) :: l) + n)%nat with (length l + S n)%nat by (cbn; lia).
  apply IH. by apply steps_step.
Qed.

Lemma run_all_reachable l : reachable (length l) (run_all l demo_boot).
Proof.
  replace (length l) with ((length l + 0) + 0)%nat by lia.
  eapply reachable_steps; [apply reach_init|]. apply run_all_steps, steps_refl.
Qed.

(** The console client holds a delegable console capability (0x6400). *)
Definition demo_granted : list (CapEnv * cap_op) :=
  [(demo_env 10, OpGrant SERVICE_ENDPOINT_CLASS_CONSOLE 7 PRINCIPAL64_ID_CONSOLE_CLIENT)].
Definition demo_ctx : Z := 0x02010202.

(** ** Theorems *)

Section theorems.
Implicit Types (s : cap_state) (r p c : capability64_record) (n k : nat).

(** C1: every call of the broker, from every table reached before the handle
    space is used up, returns the result of the abstract broker and leaves
    the table that represents its new state (the drain's count apart, which
    the specification leaves open). *)
Theorem cap_calls_refine_spec n s env o :
  reachable n s -> CAPABILITY64_HANDLE_BASE + Z.of_nat n < U32_MAX ->
  let (v, s') := run_op env o s in
  let (res, a') := spec_op env o (abs s) in
  rep s' /\ abs s' = a' /\ (forall x, res = Some x -> v = x).
Proof.
  intros Hr Hn. destruct (reachable_inv n s Hr) as (Hrep & Hinv & Hnext); [lia|].
  pose proof (op_implements (env := env) o s Hrep Hinv ltac:(lia)) as H.
  unfold implements, wp in H. destruct (run_op env o s), (spec_op env o (abs s)). exact H.
Qed.

(** C8: in every reachable table each live capability has an active owner, a
    resolved endpoint, rights the endpoint allows, a lease that only
    delegated capabilities may have, and no more authority than the live
    capability it was delegated from. *)
Theorem cap_reachable_authority n s h r :
  reachable n s -> CAPABILITY64_HANDLE_BASE + Z.of_nat n <= U32_MAX ->
  caps (abs s) !! h = Some r -> cap_ok (abs s) h r.
Proof.
  intros Hr Hn Hc. destruct (reachable_inv n s Hr Hn) as (_ & [_ Hok] & _). auto.
Qed.

(** a handle returned by delegation is a fresh capability owned by the
    recipient, carved out of a live delegable capability of the caller, with
    the DELEGATE right removed and the lease that was asked for. *)
Theorem cap_delegate_attenuates n s env src req ctx h s' :
  reachable n s -> CAPABILITY64_HANDLE_BASE + Z.of_nat n < U32_MAX ->
  @capability64_delegate env src req ctx s = (h, s') -> h <> CAPABILITY64_INVALID_HANDLE ->
  exists p c, caps (abs s) !! src = Some p /\ caps (abs s) !! h = None /\
    caps (abs s') !! h = Some c /\
    owner_id p = capability64_context_caller ctx /\
    owner_id c = capability64_context_recipient ctx /\
    parent_handle c = src /\ attenuates c p /\
    Z.land (rights c) CAPABILITY64_RIGHT_DELEGATE = 0 /\
    expiry_tick c = add32 (@pit_get_ticks env) CAPABILITY64_DELEGATE_LEASE_TICKS.
Proof.
  intros Hr Hn Hd Hh.
  destruct (reachable_run n s env (OpDelegate src req ctx) h s' Hr Hn Hd)
    as (Hrep & [Hb Hok] & Hnext & Ha & Hv).
  specialize (Hv _ eq_refl). cbn [spec_op fst snd] in Ha, Hv.
  unfold spec_delegate in Ha, Hv. destruct (lookup_live (abs s) src) as [o a1] eqn:Hl.
  apply lookup_live_spec in Hl as (_ & _ & Ho). destruct o as [p|]; [|done].
  destruct Ho as (-> & Hsrc & _).
  destruct (owner_ok (capability64_context_caller ctx) && _ && _) eqn:E; [|done].
  apply andb_true_iff in E as [_ Hmay]. unfold issue in *. case_match; [|done].
  cbn [fst snd] in *. subst h. destruct (delegated_rights _ _ _ _ Hmay) as (? & ? & ? & Hown & ? & _).
  apply Z.eqb_eq in Hown. rewrite caller_normalized in Hown.
  exists p. eexists. rewrite Ha. cbn [caps]. rewrite lookup_insert_eq.
  split_and!; [done| |done|done|done| | |done|done].
  - destruct (caps (abs s) !! next (abs s)) eqn:E; [|done].
    pose proof (ok_bound _ _ _ (Hok _ _ E)). lia.
  - by apply (ok_handle _ _ _ (Hok _ _ Hsrc)).
  - by split.
Qed.

(** delegation has one hop: a capability that was itself delegated can
    never be the source of a delegation, whoever asks and whenever. *)
Theorem cap_delegated_is_leaf n s env src req ctx r :
  reachable n s -> CAPABILITY64_HANDLE_BASE + Z.of_nat n < U32_MAX ->
  caps (abs s) !! src = Some r -> parent_handle r <> 0 ->
  fst (@capability64_delegate env src req ctx s) = CAPABILITY64_INVALID_HANDLE /\
  fst (@capability64_delegate_persistent env src req ctx s) = CAPABILITY64_INVALID_HANDLE.
Proof.
  intros Hr Hn Hsrc Hp.
  assert (Hno : forall expiry, (@spec_delegate env src req ctx expiry (abs s)).1
                = CAPABILITY64_INVALID_HANDLE).
  { intros expiry. destruct (reachable_inv n s Hr) as (_ & [_ Hok] & _); [lia|].
    destruct (ok_child _ _ _ (Hok _ _ Hsrc) Hp) as [Hdel _].
    unfold spec_delegate, lookup_live. rewrite Hsrc. destruct (capability64_record_expired r); [done|].
    unfold may_delegate. rewrite Hdel. cbn [nz negb Z.eqb]. by rewrite !andb_false_r. }
  split.
  - destruct (capability64_delegate src req ctx s) as [v s'] eqn:E.
    destruct (reachable_run n s env (OpDelegate src req ctx) v s' Hr Hn E) as (_ & _ & _ & _ & Hv).
    rewrite (Hv _ eq_refl). apply Hno.
  - destruct (capability64_delegate_persistent src req ctx s) as [v s'] eqn:E.
    destruct (reachable_run n s env (OpDelegatePersistent src req ctx) v s' Hr Hn E)
      as (_ & _ & _ & _ & Hv).
    rewrite (Hv _ eq_refl). apply Hno.
Qed.

(** What a route must find. *)
Definition routable (env : CapEnv) (s : cap_state) (h required caller : Z) r : Prop :=
  let need := if required =? 0 then CAPABILITY64_RIGHT_SEND else required in
  caps (abs s) !! h = Some r /\ @capability64_record_expired env r = false /\
  owner_ok caller = true /\ owner_id r = capability64_normalize_owner caller /\
  Z.land (rights r) need = need /\ @runtime_current env r = true.

Lemma route_spec n s env h required caller :
  reachable n s -> CAPABILITY64_HANDLE_BASE + Z.of_nat n < U32_MAX ->
  fst (@capability64_route env h required caller s) = (@spec_route env h required caller (abs s)).1.
Proof.
  intros Hr Hn. destruct (capability64_route h required caller s) as [v s'] eqn:E.
  destruct (reachable_run n s env (OpRoute h required caller) v s' Hr Hn E) as (_ & _ & _ & _ & Hv).
  by rewrite (Hv _ eq_refl).
Qed.

(** A handle that is not live routes nowhere. *)
Lemma dead_route n s env h required caller :
  reachable n s -> CAPABILITY64_HANDLE_BASE + Z.of_nat n < U32_MAX ->
  (forall r, caps (abs s) !! h = Some r -> @capability64_record_expired env r = true) ->
  fst (@capability64_route env h required caller s) = 0xFFFFFFFF.
Proof.
  intros Hr Hn Hdead. rewrite (route_spec n) by done. unfold spec_route, spec_use, lookup_live.
  destruct (caps (abs s) !! h) as [r|]; [|done]. by rewrite (Hdead r).
Qed.

(** routing succeeds exactly when the handle is live and unexpired, the
    caller is an active principal that owns it, it carries every required
    right and its service runtime is the one it was bound to; the result is
    then its endpoint. *)
Theorem cap_route_iff n s env h required caller e :
  reachable n s -> CAPABILITY64_HANDLE_BASE + Z.of_nat n < U32_MAX -> e <> 0xFFFFFFFF ->
  fst (@capability64_route env h required caller s) = e <->
  exists r, routable env s h required caller r /\ endpoint_id r = e.
Proof.
  intros Hr Hn He. rewrite (route_spec n) by done.
  unfold spec_route, spec_use, lookup_live, routable, owns.
  destruct (caps (abs s) !! h) as [r|]; [|split; [done|by intros (r & [? _] & _)]].
  destruct (capability64_record_expired r) eqn:Hexp.
  { split; [done|]. intros (r' & (? & ? & _) & _). congruence. }
  destruct (owner_ok caller) eqn:Hok; cbn [andb].
  2:{ split; [done|]. by intros (r' & (_ & _ & ? & _) & _). }
  set (need := if required =? 0 then _ else _).
  destruct (Z.eqb_spec (Z.land (rights r) need) need); cbn [andb].
  2:{ split; [done|]. intros (r' & (? & _ & _ & _ & ? & _) & _). congruence. }
  destruct (Z.eqb_spec (owner_id r) (capability64_normalize_owner caller)).
  2:{ split; [done|]. intros (r' & (? & _ & _ & ? & _) & _). congruence. }
  destruct (runtime_current r) eqn:Hcur; cbn.
  - split; [intros <-; by exists r|]. intros (r' & (? & _) & ?). congruence.
  - split; [done|]. intros (r' & (? & _ & _ & _ & _ & ?) & _). congruence.
Qed.

(** C33: revocation is final and cascades: once a handle has been revoked,
    neither it nor any capability delegated from it ever routes again, after
    any further calls in any environments. *)
Theorem cap_revoked_never_routes n k s env h caller s1 s2 env' h' required caller' :
  reachable n s -> CAPABILITY64_HANDLE_BASE + Z.of_nat (k + S n) < U32_MAX ->
  @capability64_revoke env h caller s = (1, s1) -> steps k s1 s2 ->
  h' = h \/ (exists c, caps (abs s) !! h' = Some c /\ parent_handle c = h) ->
  fst (@capability64_route env' h' required caller' s2) = 0xFFFFFFFF.
Proof.
  intros Hr Hn Hrev Hs Hh'.
  destruct (reachable_run n s env (OpRevoke h caller) 1 s1 Hr ltac:(lia) Hrev)
    as (Hrep & [Hb Hok] & Hnext & Ha & Hv).
  specialize (Hv _ eq_refl). cbn [spec_op fst snd] in Ha, Hv. unfold spec_revoke in Ha, Hv.
  destruct (lookup_live (abs s) h) as [o a1] eqn:Hl.
  apply lookup_live_spec in Hl as (_ & _ & Ho). destruct o as [r|]; [|done].
  destruct Ho as (-> & Hlk & _). destruct (owner_ok caller && _); [|done]. cbn [fst snd] in Ha.
  assert (Hr1 : reachable (S n) s1).
  { replace s1 with (snd (run_op env (OpRevoke h caller) s)) by (cbn [run_op]; by rewrite Hrev).
    by apply reach_step. }
  assert (Hgone : caps (abs s1) !! h' = None).
  { rewrite Ha. cbn [caps]. unfold revoked_from. apply map_lookup_filter_None. right.
    intros x Hx [Hne Hpar]. cbn in *. destruct Hh' as [?|(c & Hc & Hp)]; [done|congruence]. }
  assert (Hlt : h' < g_next_handle s1).
  { replace (g_next_handle s1) with (next (abs s)) by (change (g_next_handle s1) with (next (abs s1)); by rewrite Ha).
    destruct Hh' as [->|(c & Hc & _)]; [apply (ok_bound _ _ _ (Hok _ _ Hlk))|apply (ok_bound _ _ _ (Hok _ _ Hc))]. }
  apply (dead_route (k + S n)); [by eapply reachable_steps|done|].
  intros x Hx. destruct (steps_old (S n) k s1 s2 h' x) as [? _]; [done..|lia|done|done|congruence].
Qed.

(** The capability a successful delegation installs. *)
Lemma delegate_installs n s env src req ctx h s' :
  reachable n s -> CAPABILITY64_HANDLE_BASE + Z.of_nat n < U32_MAX ->
  @capability64_delegate env src req ctx s = (h, s') -> h <> CAPABILITY64_INVALID_HANDLE ->
  reachable (S n) s' /\ h < g_next_handle s' /\
  exists c, caps (abs s') !! h = Some c /\
    expiry_tick c = add32 (@pit_get_ticks env) CAPABILITY64_DELEGATE_LEASE_TICKS.
Proof.
  intros Hr Hn Hd Hh.
  destruct (reachable_run n s env (OpDelegate src req ctx) h s' Hr Hn Hd)
    as (_ & _ & Hnext & Ha & Hv).
  specialize (Hv _ eq_refl). cbn [spec_op fst snd] in Ha, Hv.
  unfold spec_delegate in Ha, Hv. destruct (lookup_live (abs s) src) as [o a1] eqn:Hl.
  apply lookup_live_spec in Hl as (_ & Hn1 & Ho). destruct o as [p|]; [|done].
  destruct Ho as (-> & Hsrc & _). case_match; [|done]. unfold issue in *. case_match; [|done].
  cbn [fst snd] in *. subst h.
  split; [|split].
  - replace s' with (snd (run_op env (OpDelegate src req ctx) s)) by (cbn [run_op]; by rewrite Hd).
    by apply reach_step.
  - change (g_next_handle s') with (next (abs s')). rewrite Ha. cbn [next abs] in *.
    rewrite inc32_small; unfold CAPABILITY64_HANDLE_BASE in *; lia.
  - rewrite Ha. eexists. cbn [caps]. by rewrite lookup_insert_eq.
Qed.

(** a delegation made at tick [t] dies with its lease: whatever calls
    follow, from tick [t + 2] on its handle routes nowhere (for ticks whose
    lease does not overflow 32 bits). *)
Theorem cap_lease_expires n k s env src req ctx h s1 s2 env' required caller :
  reachable n s -> CAPABILITY64_HANDLE_BASE + Z.of_nat (k + S n) < U32_MAX ->
  @capability64_delegate env src req ctx s = (h, s1) -> h <> CAPABILITY64_INVALID_HANDLE ->
  0 <= @pit_get_ticks env < U32_MAX - 2 -> steps k s1 s2 ->
  @pit_get_ticks env + 2 <= @pit_get_ticks env' ->
  fst (@capability64_route env' h required caller s2) = 0xFFFFFFFF.
Proof.
  intros Hr Hn Hd Hh Ht Hs Hlate.
  destruct (delegate_installs n s env src req ctx h s1) as (Hr1 & Hlt & c & Hc & He);
    [done|lia|done..|].
  apply (dead_route (k + S n)); [by eapply reachable_steps|done|].
  intros x Hx. destruct (steps_old (S n) k s1 s2 h x) as [Hx1 _]; [done..|lia|done|done|].
  replace x with c by congruence. unfold capability64_record_expired. rewrite He.
  unfold add32, CAPABILITY64_DELEGATE_LEASE_TICKS, CAPABILITY64_LEASE_PERMANENT, U32_MAX in *.
  rewrite wrap32_small by (unfold fits32; lia).
  destruct (Z.eqb_spec (@pit_get_ticks env + 2) 0xFFFFFFFF); [lia|]. by apply Z.leb_le.
Qed.

(** at tick 0xFFFFFFFD the two-tick lease computes the reserved value
    that means "permanent": the delegation then never expires, at any later
    tick. *)
Theorem cap_lease_overflow_is_permanent n s env src req ctx h s1 :
  reachable n s -> CAPABILITY64_HANDLE_BASE + Z.of_nat n < U32_MAX ->
  @capability64_delegate env src req ctx s = (h, s1) -> h <> CAPABILITY64_INVALID_HANDLE ->
  @pit_get_ticks env = 0xFFFFFFFD ->
  exists c, caps (abs s1) !! h = Some c /\
    forall env', @capability64_record_expired env' c = false.
Proof.
  intros Hr Hn Hd Hh Ht.
  destruct (delegate_installs n s env src req ctx h s1) as (_ & _ & c & Hc & He); [done..|].
  exists c. split; [done|]. intros env'. unfold capability64_record_expired.
  by rewrite He, Ht.
Qed.

(** granting succeeds exactly when the owner is an active principal, the
    class names a service, the rights are among those its endpoint allows
    and fewer than 64 capabilities are live; the handle is then the next one,
    and otherwise no capability appears or disappears. *)
Theorem cap_grant_iff n s env cls req owner v s' :
  reachable n s -> CAPABILITY64_HANDLE_BASE + Z.of_nat n < U32_MAX ->
  @capability64_grant_service env cls req owner s = (v, s') ->
  let e := services64_resolve_endpoint_class cls in
  let rq := if req =? 0 then CAPABILITY64_RIGHT_SEND else req in
  if owner_ok owner && negb (e =? 0xFFFFFFFF)
     && (Z.land rq (not32 (allowed_rights_for e)) =? 0) && (capability64_live_count s <? 64)
  then v = g_next_handle s /\
       caps (abs s') = <[v := granted cls e rq (capability64_normalize_owner owner)
                                CAPABILITY64_PERSONA_UNTAGGED 0 v]> (caps (abs s))
  else v = CAPABILITY64_INVALID_HANDLE /\ abs s' = abs s.
Proof.
  intros Hr Hn Hg.
  destruct (reachable_run n s env (OpGrant cls req owner) v s' Hr Hn Hg)
    as (Hrep & _ & Hnext & Ha & Hv).
  specialize (Hv _ eq_refl). cbn [spec_op fst snd] in Ha, Hv. unfold spec_grant in Ha, Hv.
  assert (Hown : owner_ok (capability64_normalize_owner owner) = owner_ok owner).
  { unfold owner_ok. by rewrite normalize_idem. }
  rewrite Hown in Ha, Hv. cbn zeta. destruct (owner_ok owner && _ && _); cbn [andb]; [|done].
  unfold issue in *. unfold capability64_live_count, abs in *. cbn [caps next] in *.
  rewrite abs_size in Ha, Hv by apply (rep_unique s Hrep). unfold CAPABILITY64_TABLE_LIMIT in *.
  destruct (count_if _ _ <? 64)%nat eqn:Ec; cbn [fst snd] in *.
  - apply Nat.ltb_lt in Ec. rewrite (proj2 (Z.ltb_lt _ _)) by lia. subst v. split; [done|].
    by injection Ha.
  - apply Nat.ltb_ge in Ec. by rewrite (proj2 (Z.ltb_ge _ _)) by lia.
Qed.

(** draining a service class removes every capability to its endpoint,
    keeps every unexpired capability to another one, and a count taken in the
    same environment then reads zero. *)
Theorem cap_drain_empties n s env cls s1 v :
  reachable n s -> CAPABILITY64_HANDLE_BASE + Z.of_nat (S n) < U32_MAX ->
  services64_resolve_endpoint_class cls <> 0xFFFFFFFF ->
  @capability64_revoke_endpoint_class env cls s = (v, s1) ->
  (forall h r, caps (abs s1) !! h = Some r <->
     caps (abs s) !! h = Some r /\ @capability64_record_expired env r = false /\
     endpoint_id r <> services64_resolve_endpoint_class cls) /\
  fst (@capability64_live_for_endpoint_class env cls s1) = 0.
Proof.
  intros Hr Hn He Hd.
  destruct (reachable_run n s env (OpRevokeEndpointClass cls) v s1 Hr ltac:(lia) Hd)
    as (Hrep & _ & _ & Ha & _). cbn [spec_op snd] in Ha. unfold drained in Ha.
  apply Z.eqb_neq in He. rewrite He in Ha.
  assert (Hiff : forall h r, caps (abs s1) !! h = Some r <->
     caps (abs s) !! h = Some r /\ @capability64_record_expired env r = false /\
     endpoint_id r <> services64_resolve_endpoint_class cls).
  { intros h r. rewrite Ha. cbn [caps]. unfold sweep. rewrite !map_lookup_filter_Some. cbn. tauto. }
  split; [done|].
  assert (Hr1 : reachable (S n) s1).
  { replace s1 with (snd (run_op env (OpRevokeEndpointClass cls) s)) by (cbn [run_op]; by rewrite Hd).
    by apply reach_step. }
  destruct (capability64_live_for_endpoint_class cls s1) as [c s2] eqn:Hc.
  destruct (reachable_run (S n) s1 env (OpLiveFor cls) c s2 Hr1 ltac:(lia) Hc)
    as (_ & _ & _ & _ & Hv). specialize (Hv _ eq_refl). cbn [spec_op fst] in Hv.
  unfold spec_live_for in Hv. rewrite He in Hv. cbn [fst] in *. subst c.
  match goal with |- Z.of_nat (size ?m) = 0 => cut (m = ∅); [by intros ->|] end.
  apply map_empty. intros h.
  apply map_lookup_filter_None. right. intros r Hsw. cbn.
  apply map_lookup_filter_Some in Hsw as [Hlk _]. by apply Hiff in Hlk as (_ & _ & ?).
Qed.

(** The slot the lookup loop finds for a live handle. *)
Lemma live_find s h r :
  rep s -> caps (abs s) !! h = Some r ->
  exists i, g_capabilities s !! i = Some r /\
    find_index (live_with h) (g_capabilities s) = Some i.
Proof.
  intros Hrep Hlk. apply abs_lookup in Hlk as (i & Hi & Hl & Hh); [|apply (rep_unique s Hrep)].
  exists i. split; [done|].
  apply (find_index_unique _ _ _ r); [done|unfold live_with; by rewrite Hl, Hh, Z.eqb_refl|].
  intros j y Hj Hy. unfold live_with in Hy. apply andb_true_iff in Hy as [? ?%Z.eqb_eq].
  eapply (rep_unique s Hrep); eauto. congruence.
Qed.

(** a persona-tagged capability is never delegated to a principal whose
    process has no persona in common with it: the call is refused, no
    capability changes, and the denial is reported once to the audit ring of
    the recipient's process. *)
Theorem cap_persona_transfer_denied n s env src req ctx p :
  reachable n s -> CAPABILITY64_HANDLE_BASE + Z.of_nat n < U32_MAX ->
  let caller := capability64_context_caller ctx in
  let recipient := capability64_context_recipient ctx in
  let pid := @process64_pid_for_principal env recipient in
  caps (abs s) !! src = Some p -> @capability64_record_expired env p = false ->
  owner_ok caller = true -> owner_ok recipient = true -> owner_id p = caller ->
  nz (Z.land (rights p) CAPABILITY64_RIGHT_DELEGATE) = true ->
  req <> 0 -> Z.land req CAPABILITY64_RIGHT_DELEGATE = 0 -> Z.land req (rights p) = req ->
  nz (Z.land req (not32 CAPABILITY64_RIGHT_DELEGATE)) = true ->
  persona_mask p <> 0 -> pid <> PROCESS64_INVALID_PID ->
  Z.land (persona_mask p) (@persona64_capability_mask env pid) = 0 ->
  let (h, s') := @capability64_delegate env src req ctx s in
  h = CAPABILITY64_INVALID_HANDLE /\ abs s' = abs s /\
  audit_log s' = audit_log s ++ [mk_audit pid PERSONA_AUDIT64_EVENT_CAPABILITY_DENIED
    (endpoint_class p mod 2 ^ 16) PERSONA_AUDIT64_RESULT_DENY 0].
Proof.
  cbn zeta. intros Hr Hn Hsrc Hexp Hcal Hrec Hown Hdel Hreq Hnd Hsub Hnz Hmask Hpid Hdis.
  destruct (reachable_inv n s Hr) as (Hrep & _ & _); [lia|].
  destruct (live_find s src p Hrep Hsrc) as (i & Hi & Hfind).
  assert (Hper : persona_allows p (capability64_context_recipient ctx) = false).
  { unfold persona_allows, capability64_persona_pid_for_owner. rewrite recipient_normalized.
    apply Z.eqb_neq in Hmask, Hpid. rewrite Hmask, Hpid. cbn [negb orb]. rewrite Hdis. by rewrite andb_false_r. }
  cut (wp (capability64_delegate src req ctx) (fun h s' =>
    h = CAPABILITY64_INVALID_HANDLE /\ abs s' = abs s /\
    audit_log s' = audit_log s ++ [mk_audit
      (process64_pid_for_principal (capability64_context_recipient ctx)) PERSONA_AUDIT64_EVENT_CAPABILITY_DENIED
      (endpoint_class p mod 2 ^ 16) PERSONA_AUDIT64_RESULT_DENY 0]) s).
  { unfold wp. destruct (capability64_delegate src req ctx s). intros H. exact H. }
  unfold capability64_delegate, capability64_delegate_with_expiry, capability64_find_live,
    capability64_principal_is_valid, capability64_record_is_owned_by.
  fold (owner_ok (capability64_context_caller ctx)) (owner_ok (capability64_context_recipient ctx)).
  rewrite Hcal, Hrec. do 3 wp_step. rewrite Hfind. do 2 wp_step. rewrite (rep_at s i p Hi), Hexp.
  do 5 (wp_step; cbn [negb]). do 2 wp_step. rewrite (rep_at s i p Hi), caller_normalized.
  rewrite Hown, Z.eqb_refl. do 2 (wp_step; cbn [negb]).
  unfold nz in Hdel. apply negb_true_iff in Hdel. rewrite Hdel. cbn [negb].
  apply Z.eqb_neq in Hreq. rewrite !Hreq, Hnd, Hsub, Z.eqb_refl. cbn [nz negb orb Z.eqb].
  unfold nz in Hnz. apply negb_true_iff in Hnz. rewrite Hnz.
  unfold capability64_record_allows_recipient_persona, capability64_audit_persona_denial,
    capability64_persona_pid_for_owner.
  rewrite Hper, recipient_normalized, (proj2 (Z.eqb_neq _ _) Hpid).
  by wp_steps.
Qed.

(** A table whose handle counter has run up to its last value. *)
Definition exhausted (s : cap_state) : cap_state := s <| g_next_handle := U32_MAX |>.

(** once the handle counter reaches 0xFFFFFFFF a permitted grant returns
    the invalid handle and yet installs a live capability, which no caller
    can name and no caller can revoke. *)
Theorem cap_handle_exhaustion_leaks :
  let s := exhausted demo_boot in
  let (v, s') := @capability64_grant_service (demo_env 0) SERVICE_ENDPOINT_CLASS_CONSOLE 0
                   PRINCIPAL64_ID_CONSOLE_CLIENT s in
  v = CAPABILITY64_INVALID_HANDLE /\
  capability64_live_count s = 0 /\ capability64_live_count s' = 1 /\ g_next_handle s' = 0.
Proof. vm_compute. done. Qed.

End theorems.

(** ** Witnesses *)

Definition demo_holder : cap_state := run_all demo_granted demo_boot.
Definition demo_shared : cap_state :=
  snd (run_op (demo_env 10) (OpDelegate 0x6400 0 demo_ctx) demo_holder).

Lemma demo_holder_reachable : reachable 1 demo_holder.
Proof. apply (run_all_reachable demo_granted). Qed.

Lemma demo_shared_reachable : reachable 2 demo_shared.
Proof. exact (reach_step _ _ _ _ demo_holder_reachable). Qed.

(** The capabilities of the two demonstration states. *)
Definition demo_root : capability64_record :=
  mk_cap 1 0x6400 4 4 7 0 PRINCIPAL64_ID_CONSOLE_CLIENT 0xFFFFFFFF 0 0 0xFF 0.
Definition demo_child : capability64_record :=
  mk_cap 1 0x6401 4 4 5 0x6400 PRINCIPAL64_ID_CONSOLE_WORKER 12 0 0 0xFF 0.

Lemma cap_calls_refine_spec_witness :
  CAPABILITY64_HANDLE_BASE + Z.of_nat 1 < U32_MAX /\
  rep demo_shared /\ abs demo_shared =
    snd (spec_op (demo_env 10) (OpDelegate 0x6400 0 demo_ctx) (abs demo_holder)).
Proof.
  split; [done|].
  pose proof (cap_calls_refine_spec 1 demo_holder (demo_env 10) (OpDelegate 0x6400 0 demo_ctx)
    demo_holder_reachable eq_refl) as H.
  unfold demo_shared.
  destruct (run_op (demo_env 10) (OpDelegate 0x6400 0 demo_ctx) demo_holder) as [v s'].
  destruct (spec_op (demo_env 10) (OpDelegate 0x6400 0 demo_ctx) (abs demo_holder)) as [o a'].
  destruct H as (? & ? & _). done.
Defined.

Lemma cap_reachable_authority_witness :
  caps (abs demo_shared) !! 0x6401 = Some demo_child /\ cap_ok (abs demo_shared) 0x6401 demo_child.
Proof.
  split; [vm_compute; done|].
  apply (cap_reachable_authority 2); [apply demo_shared_reachable|done|vm_compute; done].
Defined.

Lemma cap_delegate_attenuates_witness :
  fst (@capability64_delegate (demo_env 10) 0x6400 0 demo_ctx demo_holder) = 0x6401 /\
  exists p c, caps (abs demo_holder) !! 0x6400 = Some p /\
    caps (abs demo_shared) !! 0x6401 = Some c /\ attenuates c p.
Proof.
  split; [vm_compute; done|].
  destruct (cap_delegate_attenuates 1 demo_holder (demo_env 10) 0x6400 0 demo_ctx 0x6401 demo_shared)
    as (p & c & Hp & _ & Hc & _ & _ & _ & Hat & _);
    [apply demo_holder_reachable|done|vm_compute; done|done|].
  exists p, c. done.
Defined.

Lemma cap_delegated_is_leaf_witness :
  fst (@capability64_delegate (demo_env 11) 0x6401 0 0x02020201 demo_shared)
  = CAPABILITY64_INVALID_HANDLE.
Proof.
  destruct (cap_delegated_is_leaf 2 demo_shared (demo_env 11) 0x6401 0 0x02020201 demo_child)
    as [H _]; [apply demo_shared_reachable|done|vm_compute; done|done|exact H].
Defined.

Lemma cap_route_iff_witness :
  exists r, routable (demo_env 11) demo_shared 0x6401 5 PRINCIPAL64_ID_CONSOLE_WORKER r
            /\ endpoint_id r = 4.
Proof.
  destruct (cap_route_iff 2 demo_shared (demo_env 11) 0x6401 5 PRINCIPAL64_ID_CONSOLE_WORKER 4)
    as [H _]; [apply demo_shared_reachable|done|done|]. apply H. vm_compute. done.
Defined.

(** The client revokes its capability; the worker's copy dies with it. *)
Definition demo_revoked : cap_state :=
  snd (run_op (demo_env 11) (OpRevoke 0x6400 PRINCIPAL64_ID_CONSOLE_CLIENT) demo_shared).
Definition demo_regranted : cap_state :=
  snd (run_op (demo_env 11) (OpGrant 4 7 PRINCIPAL64_ID_CONSOLE_CLIENT) demo_revoked).

Lemma cap_revoked_never_routes_witness :
  fst (@capability64_route (demo_env 11) 0x6401 1 PRINCIPAL64_ID_CONSOLE_WORKER demo_regranted)
  = 0xFFFFFFFF.
Proof.
  refine (cap_revoked_never_routes 2 1 demo_shared (demo_env 11) 0x6400
    PRINCIPAL64_ID_CONSOLE_CLIENT demo_revoked demo_regranted (demo_env 11) 0x6401 1
    PRINCIPAL64_ID_CONSOLE_WORKER demo_shared_reachable eq_refl _ _ _).
  - vm_compute. done.
  - exact (steps_step 0 _ _ _ _ (steps_refl _)).
  - right. exists demo_child. split; [vm_compute; done|done].
Defined.

Lemma cap_lease_expires_witness :
  fst (@capability64_route (demo_env 12) 0x6401 1 PRINCIPAL64_ID_CONSOLE_WORKER demo_shared)
  = 0xFFFFFFFF.
Proof.
  refine (cap_lease_expires 1 0 demo_holder (demo_env 10) 0x6400 0 demo_ctx 0x6401 demo_shared
    demo_shared (demo_env 12) 1 PRINCIPAL64_ID_CONSOLE_WORKER demo_holder_reachable
    eq_refl _ _ _ (steps_refl _) _).
  - vm_compute. done.
  - done.
  - split; done.
  - done.
Defined.

Lemma cap_lease_overflow_is_permanent_witness :
  exists s1 c, caps (abs s1) !! 0x6401 = Some c /\
    forall env', @capability64_record_expired env' c = false.
Proof.
  exists (snd (run_op (demo_env 0xFFFFFFFD) (OpDelegate 0x6400 0 demo_ctx) demo_holder)).
  refine (cap_lease_overflow_is_permanent 1 demo_holder (demo_env 0xFFFFFFFD) 0x6400 0 demo_ctx
    0x6401 _ demo_holder_reachable eq_refl _ _ eq_refl).
  - vm_compute. done.
  - done.
Defined.

Lemma cap_grant_iff_witness :
  fst (@capability64_grant_service (demo_env 10) 4 7 PRINCIPAL64_ID_CONSOLE_CLIENT demo_boot) = 0x6400.
Proof.
  destruct (capability64_grant_service 4 7 PRINCIPAL64_ID_CONSOLE_CLIENT demo_boot) as [v s'] eqn:E.
  pose proof (cap_grant_iff 0 demo_boot (demo_env 10) 4 7 PRINCIPAL64_ID_CONSOLE_CLIENT v s'
    (reach_init _) eq_refl E) as H. vm_compute in H. destruct H as [H _]. exact H.
Defined.

Lemma cap_drain_empties_witness :
  fst (@capability64_live_for_endpoint_class (demo_env 11) 4
         (snd (run_op (demo_env 11) (OpRevokeEndpointClass 4) demo_shared))) = 0.
Proof.
  refine (proj2 (cap_drain_empties 2 demo_shared (demo_env 11) 4 _ 2 demo_shared_reachable
    eq_refl _ _)).
  - vm_compute. done.
  - vm_compute. done.
Defined.

(** A capability of the console client's process, tagged with its persona. *)
Definition demo_tagged : cap_state :=
  snd (run_op (demo_env 10) (OpGrantForProcess 4 7 PRINCIPAL64_ID_CONSOLE_CLIENT) demo_boot).

Lemma demo_tagged_reachable : reachable 1 demo_tagged.
Proof. exact (reach_step _ _ _ _ (reach_init _)). Qed.

Lemma cap_persona_transfer_denied_witness :
  fst (@capability64_delegate (demo_env 10) 0x6400 1 0x02010102 demo_tagged)
  = CAPABILITY64_INVALID_HANDLE.
Proof.
  pose proof (cap_persona_transfer_denied 1 demo_tagged (demo_env 10) 0x6400 1 0x02010102
    (mk_cap 1 0x6400 4 4 7 0 PRINCIPAL64_ID_CONSOLE_CLIENT 0xFFFFFFFF 0 0 2 4)
    demo_tagged_reachable eq_refl) as H. cbn zeta in H.
  destruct (capability64_delegate 0x6400 1 0x02010102 demo_tagged) as [h s'].
  destruct H as [H _]; [vm_compute; done..|exact H].
Defined.

End CapTheorems.
