(* ===== verification/Process.v ===== *)
(** * The process table: kernel/arch/x86_64/process.c

    Seven boot processes and sixteen clone/fork records (the UEFI kernel
    configuration), with the opaque extension slots other components attach
    to.  A pointer into the tables is a [pref]; a C [void *] is a [Z], NULL
    being 0.  Theorems are in ProcessFacts.v. *)

From Stdlib Require Import String Ascii.
From S2P Require Import Prelude Principal Services64.
Import Principal Services64.
Local Open Scope Z_scope.
Local Open Scope kernel_scope.

Module Process.

Definition PROCESS64_INVALID_PID : Z := 0xFFFFFFFF.
Definition PROCESS64_CLONE_PID_BASE : Z := 0x2000.
Definition PROCESS64_CLONE_RECORD_LIMIT : nat := 16.
Definition PROCESS64_RECORD_COUNT : nat := 7.
Definition PROCESS64_NAME_BYTES : nat := 32.
Definition LAUNCH64_INVALID_MANIFEST : Z := 0xFFFFFFFF.

Definition PROCESS64_STATE_BOOTSTRAPPED : Z := 0x0001.
Definition PROCESS64_STATE_SERVICE : Z := 0x0002.
Definition PROCESS64_STATE_READY : Z := 0x0004.
Definition PROCESS64_STATE_SEALED : Z := 0x0008.
Definition PROCESS64_STATE_MANIFEST_VERIFIED : Z := 0x0010.
Definition PROCESS64_STATE_LAUNCH_STARTED : Z := 0x0020.
Definition PROCESS64_STATE_RESTARTED : Z := 0x0040.
Definition PROCESS64_STATE_IMAGE_PLANNED : Z := 0x0080.
Definition PROCESS64_STATE_IMAGE_MAPPED : Z := 0x0100.
Definition PROCESS64_STATE_ENTRY_READY : Z := 0x0200.
Definition PROCESS64_STATE_IMAGE_MAP_INSTALLED : Z := 0x0400.
Definition PROCESS64_STATE_IMAGE_PROTECTED : Z := 0x0800.
Definition PROCESS64_STATE_USER_ENTRY_PLANNED : Z := 0x1000.
Definition PROCESS64_STATE_USER_ENTRY_BLOCKED : Z := 0x2000.
Definition PROCESS64_STATE_USER_ENTRY_READY : Z := 0x4000.

Definition PROCESS64_CLASS_SYSTEM : Z := 1.
Definition PROCESS64_CLASS_POLICY : Z := 2.
Definition PROCESS64_CLASS_INTERACTIVE : Z := 3.
Definition PROCESS64_CLASS_IO : Z := 4.
Definition PROCESS64_CLASS_BACKGROUND : Z := 5.

Definition PROCESS64_CHILD_KIND_NONE : Z := 0.
Definition PROCESS64_CHILD_KIND_CLONE : Z := 1.
Definition PROCESS64_CHILD_KIND_FORK : Z := 2.

(** The bytes of a C string literal, without its terminator. *)
Fixpoint bytes_of (s : string) : list Z :=
  match s with
  | EmptyString => []
  | String c s' => Z.of_nat (nat_of_ascii c) :: bytes_of s'
  end.

Record process64_record := mk_process {
  pid : Z;
  name : list Z;
  principal_id : Z;
  endpoint_class : Z;
  state : Z;
  scheduler_class : Z;
  capability_limit : Z;
  manifest_index : Z;
  manifest_package_id : Z;
  manifest_executable_id : Z;
  manifest_signer_id : Z;
  manifest_token : Z;
  vma_root : Z;
  fd_table : Z;
  persona_ctx : Z;
  audit_ctx : Z;
  page_root_physical : Z;
  page_root_index : Z;
  page_root_token : Z;
  parent_pid : Z;
  child_kind : Z;
  child_count : Z;
  waitable : Z;
  exited : Z;
  exit_code : Z;
}.

#[export] Instance eta_process64_record : Eta process64_record := {| eta r :=
  mk_process (pid r) (name r) (principal_id r) (endpoint_class r) (state r) (scheduler_class r)
    (capability_limit r) (manifest_index r) (manifest_package_id r) (manifest_executable_id r)
    (manifest_signer_id r) (manifest_token r) (vma_root r) (fd_table r) (persona_ctx r)
    (audit_ctx r) (page_root_physical r) (page_root_index r) (page_root_token r) (parent_pid r)
    (child_kind r) (child_count r) (waitable r) (exited r) (exit_code r) |}.

Record process64_seed_record_t := mk_seed {
  sd_pid : Z; sd_name : list Z; sd_principal_id : Z; sd_endpoint_class : Z; sd_state : Z;
  sd_scheduler_class : Z; sd_capability_limit : Z }.

Definition seed_state : Z :=
  Z.lor (Z.lor (Z.lor PROCESS64_STATE_BOOTSTRAPPED PROCESS64_STATE_SERVICE)
    PROCESS64_STATE_READY) PROCESS64_STATE_SEALED.

Definition g_process_seeds : list process64_seed_record_t := [
  mk_seed 1 (bytes_of "init-supervisor") PRINCIPAL64_ID_INIT_SUPERVISOR
    SERVICE_ENDPOINT_CLASS_INIT seed_state PROCESS64_CLASS_SYSTEM 16;
  mk_seed 2 (bytes_of "ai-policy") PRINCIPAL64_ID_POLICY_WORKER
    SERVICE_ENDPOINT_CLASS_AI_POLICY seed_state PROCESS64_CLASS_POLICY 12;
  mk_seed 3 (bytes_of "driver-host") PRINCIPAL64_ID_DRIVER_HOST
    SERVICE_ENDPOINT_CLASS_DRIVER_HOST seed_state PROCESS64_CLASS_IO 8;
  mk_seed 4 (bytes_of "console") PRINCIPAL64_ID_CONSOLE_WORKER
    SERVICE_ENDPOINT_CLASS_CONSOLE seed_state PROCESS64_CLASS_INTERACTIVE 10;
  mk_seed 5 (bytes_of "ramfs") PRINCIPAL64_ID_RAMFS_WORKER
    SERVICE_ENDPOINT_CLASS_RAMFS seed_state PROCESS64_CLASS_IO 10;
  mk_seed 6 (bytes_of "input") PRINCIPAL64_ID_INPUT_WORKER
    SERVICE_ENDPOINT_CLASS_INPUT seed_state PROCESS64_CLASS_INTERACTIVE 8;
  mk_seed 7 (bytes_of "telemetry") PRINCIPAL64_ID_TELEMETRY
    SERVICE_ENDPOINT_CLASS_NONE seed_state PROCESS64_CLASS_BACKGROUND 4 ].

Record process_state := mk_pstate {
  g_processes : list process64_record;
  g_process64_clone_records : list process64_record;
  g_process64_clone_count : Z;
  g_process64_next_clone_pid : Z;
  g_process64_page_root_attach_count : Z;
  g_process64_page_root_clear_count : Z;
  g_process64_page_root_denial_count : Z;
  g_process_init : Z;
  g_manifest_verified_count : Z;
}.

#[export] Instance eta_process_state : Eta process_state := {| eta s :=
  mk_pstate (g_processes s) (g_process64_clone_records s) (g_process64_clone_count s)
    (g_process64_next_clone_pid s) (g_process64_page_root_attach_count s)
    (g_process64_page_root_clear_count s) (g_process64_page_root_denial_count s)
    (g_process_init s) (g_manifest_verified_count s) |}.

Abbreviation PM := (ST process_state).

(** ** What the process table asks of the launcher (launch.c) *)
Class LaunchEnv := {
  launch64_manifest_by_process : list Z -> Z;
  launch64_manifest_scheduler_class : Z -> Z;
  launch64_manifest_capability_limit : Z -> Z;
  launch64_manifest_package_id : Z -> Z;
  launch64_manifest_executable_id : Z -> Z;
  launch64_manifest_signer_id : Z -> Z;
  launch64_manifest_token : Z -> Z;
  (** requester, manifest, pid, principal, endpoint class, scheduler class,
      capability limit *)
  launch64_request_service_start : Z -> Z -> Z -> Z -> Z -> Z -> Z -> Z;
  launch64_manifest_runtime_generation : Z -> Z;
  launch64_manifest_runtime_token : Z -> Z;
  launch64_manifest_runtime_image_generation : Z -> Z;
  launch64_manifest_runtime_image_token : Z -> Z;
  launch64_manifest_runtime_image_base : Z -> Z;
  launch64_manifest_runtime_image_entry : Z -> Z;
  launch64_manifest_runtime_image_mapped_bytes : Z -> Z;
  launch64_manifest_runtime_image_rights : Z -> Z;
  launch64_manifest_runtime_image_plan_token : Z -> Z;
  launch64_manifest_runtime_image_map_token : Z -> Z;
  launch64_manifest_runtime_image_page_count : Z -> Z;
  launch64_manifest_runtime_image_pml4_index : Z -> Z;
  launch64_manifest_runtime_image_pdpt_index : Z -> Z;
  launch64_manifest_runtime_image_pd_index : Z -> Z;
  launch64_manifest_runtime_entry_transfer_token : Z -> Z;
  launch64_manifest_runtime_image_install_token : Z -> Z;
  launch64_manifest_runtime_image_source_checksum : Z -> Z;
  launch64_manifest_runtime_image_entry_probe : Z -> Z;
  launch64_manifest_runtime_image_map_installed : Z -> Z;
  launch64_manifest_runtime_image_protection_flags : Z -> Z;
  launch64_manifest_runtime_image_protection_token : Z -> Z;
  launch64_manifest_runtime_user_entry_state : Z -> Z;
  launch64_manifest_runtime_user_entry_token : Z -> Z;
  launch64_manifest_runtime_user_entry_rip : Z -> Z;
  launch64_manifest_runtime_user_entry_rsp : Z -> Z;
  launch64_manifest_runtime_user_entry_selectors : Z -> Z;
  launch64_manifest_runtime_user_entry_rflags : Z -> Z;
  launch64_manifest_runtime_user_entry_denial : Z -> Z;
  launch64_manifest_runtime_payload_offset : Z -> Z;
  launch64_manifest_runtime_payload_size : Z -> Z;
  launch64_manifest_runtime_payload_checksum : Z -> Z;
}.

Definition LAUNCH64_USER_ENTRY_TRANSFER_READY : Z := 0x8.
Definition LAUNCH64_USER_ENTRY_BLOCKED : Z := 0x10.
Definition LAUNCH64_USER_ENTRY_DENY_DESCRIPTOR_STATE : Z := 1.

(** ** Records *)

Definition g_process64_unknown_name : list Z := bytes_of "unknown".

(** [process64_copy_name] fills the [n] bytes of the target: the source up
    to its terminator (the end of the list), zeros after it. *)
Fixpoint copy_name (n : nat) (source : list Z) : list Z :=
  match n, source with
  | O, _ => []
  | S n', [] => 0 :: copy_name n' []
  | S n', c :: source' => if c =? 0 then 0 :: copy_name n' [] else c :: copy_name n' source'
  end.

Definition process64_copy_name (source : list Z) : list Z :=
  copy_name PROCESS64_NAME_BYTES source.

(** Static storage before initialisation. *)
Definition zero_process : process64_record :=
  mk_process 0 (replicate PROCESS64_NAME_BYTES 0) 0 0 0 0 0 0 0 0 0 0 0 0 0 0 0 0 0 0 0 0 0 0 0.

Definition process64_clear_record : process64_record :=
  mk_process PROCESS64_INVALID_PID (process64_copy_name g_process64_unknown_name) 0
    SERVICE_ENDPOINT_CLASS_NONE 0 0 0 LAUNCH64_INVALID_MANIFEST 0 0 0 0 0 0 0 0 0 0xFFFFFFFF 0
    PROCESS64_INVALID_PID PROCESS64_CHILD_KIND_NONE 0 0 0 0.

Definition process64_clone_record_active (r : process64_record) : bool :=
  negb (pid r =? PROCESS64_INVALID_PID) && negb (pid r =? 0).

Definition process64_clear_clone_records : PM unit :=
  modify (fun s => s
    <| g_process64_clone_records := replicate PROCESS64_CLONE_RECORD_LIMIT process64_clear_record |>
    <| g_process64_clone_count := 0 |>
    <| g_process64_next_clone_pid := PROCESS64_CLONE_PID_BASE |>).

(** A pointer to a record: into [g_processes] or into the clone records. *)
Inductive pref := PSeed (i : nat) | PClone (i : nat).

#[export] Instance pref_eq_dec : EqDecision pref.
Proof. solve_decision. Defined.

Definition record_at (s : process_state) (p : pref) : process64_record :=
  match p with
  | PSeed i => default zero_process (g_processes s !! i)
  | PClone i => default zero_process (g_process64_clone_records s !! i)
  end.

Definition update_record (p : pref) (f : process64_record -> process64_record) : PM unit :=
  match p with
  | PSeed i => modify (fun s => s <| g_processes := alter f i (g_processes s) |>)
  | PClone i => modify (fun s =>
      s <| g_process64_clone_records := alter f i (g_process64_clone_records s) |>)
  end.

(** ** Initialisation *)

Definition process64_seed_record (sd : process64_seed_record_t) (preserve : bool)
    (r : process64_record) : process64_record :=
  mk_process (sd_pid sd) (process64_copy_name (sd_name sd)) (sd_principal_id sd)
    (sd_endpoint_class sd) (sd_state sd) (sd_scheduler_class sd) (sd_capability_limit sd)
    LAUNCH64_INVALID_MANIFEST 0 0 0 0
    (if preserve then vma_root r else 0) (if preserve then fd_table r else 0)
    (if preserve then persona_ctx r else 0) (if preserve then audit_ctx r else 0)
    (if preserve then page_root_physical r else 0)
    (if preserve then page_root_index r else 0xFFFFFFFF)
    (if preserve then page_root_token r else 0)
    PROCESS64_INVALID_PID PROCESS64_CHILD_KIND_NONE 0 0 0 0.

(** The first and the last boot record still hold their seeds. *)
Definition process64_records_valid (s : process_state) : bool :=
  let seeded (i : nat) :=
    match g_processes s !! i, g_process_seeds !! i with
    | Some r, Some sd => (pid r =? sd_pid sd) && (principal_id r =? sd_principal_id sd)
    | _, _ => false
    end in
  seeded 0%nat && seeded (PROCESS64_RECORD_COUNT - 1)%nat.

Definition process64_seed_records (preserve : bool) : PM unit :=
  modify (fun s => s <| g_processes :=
    zip_with (fun sd r => process64_seed_record sd preserve r) g_process_seeds (g_processes s) |>) ;;;
  if preserve then ret tt else process64_clear_clone_records.

Section with_launch.
Context {launch : LaunchEnv}.

(** One iteration of [process64_bind_manifests], and whether it verified. *)
Definition bind_manifest (r : process64_record) : process64_record * bool :=
  let mi := launch64_manifest_by_process (name r) in
  let r := r <| manifest_index := mi |> <| manifest_package_id := 0 |>
             <| manifest_executable_id := 0 |> <| manifest_signer_id := 0 |>
             <| manifest_token := 0 |>
             <| state := Z.land (state r) (not32 (Z.lor PROCESS64_STATE_MANIFEST_VERIFIED
                                                        PROCESS64_STATE_LAUNCH_STARTED)) |> in
  if mi =? LAUNCH64_INVALID_MANIFEST then (r, false)
  else if negb (launch64_manifest_scheduler_class mi =? scheduler_class r)
          || negb (launch64_manifest_capability_limit mi =? capability_limit r)
  then (r, false)
  else if principal64_is_active (principal_id r) =? 0 then (r, false)
  else if launch64_request_service_start PRINCIPAL64_ID_INIT_SUPERVISOR mi (pid r)
            (principal_id r) (endpoint_class r) (scheduler_class r) (capability_limit r) =? 0
  then (r, false)
  else (r <| manifest_package_id := launch64_manifest_package_id mi |>
          <| manifest_executable_id := launch64_manifest_executable_id mi |>
          <| manifest_signer_id := launch64_manifest_signer_id mi |>
          <| manifest_token := launch64_manifest_token mi |>
          <| state := Z.lor (state r) (Z.lor PROCESS64_STATE_MANIFEST_VERIFIED
                                             PROCESS64_STATE_LAUNCH_STARTED) |>, true).

Definition process64_bind_manifests : PM unit :=
  modify (fun s =>
    let bound := map bind_manifest (g_processes s) in
    s <| g_processes := map fst bound |>
      <| g_manifest_verified_count := Z.of_nat (count_if snd bound) |>).

Definition process64_ensure_init : PM unit :=
  ready <- gets (fun s => nz (g_process_init s) && process64_records_valid s) ;;
  if ready : bool then ret tt
  else
    preserve <- gets (fun s => nz (g_process_init s)) ;;
    process64_seed_records preserve ;;;
    process64_bind_manifests ;;;
    modify (fun s => s <| g_process_init := 1 |>).

(** ** Lookup *)

Definition clone_with (p : Z) (r : process64_record) : bool :=
  process64_clone_record_active r && (pid r =? p).

Definition lookup (p : Z) (s : process_state) : option pref :=
  match find_index (fun r => pid r =? p) (g_processes s) with
  | Some i => Some (PSeed i)
  | None => PClone <$> find_index (clone_with p) (g_process64_clone_records s)
  end.

Definition process64_find (p : Z) : PM (option pref) :=
  process64_ensure_init ;;; gets (lookup p).

Definition process64_find_mutable (p : Z) : PM (option pref) :=
  process64_ensure_init ;;; gets (lookup p).

Definition process64_init : PM unit := process64_ensure_init.

Definition process64_count : PM Z :=
  process64_ensure_init ;;;
  gets (fun s => add32 (Z.of_nat PROCESS64_RECORD_COUNT) (g_process64_clone_count s)).

Definition process64_pid_by_index (index : Z) : PM Z :=
  process64_ensure_init ;;;
  gets (fun s =>
    if Z.of_nat PROCESS64_RECORD_COUNT <=? index then
      let live := List.filter process64_clone_record_active (g_process64_clone_records s) in
      from_option pid PROCESS64_INVALID_PID
        (live !! Z.to_nat (index - Z.of_nat PROCESS64_RECORD_COUNT))
    else from_option pid PROCESS64_INVALID_PID (g_processes s !! Z.to_nat index)).

Definition process64_pid_for_principal (principal : Z) : PM Z :=
  process64_ensure_init ;;;
  gets (fun s =>
    if principal64_is_active principal =? 0 then PROCESS64_INVALID_PID
    else match find_index (fun r => principal_id r =? principal) (g_processes s) with
         | Some i => pid (record_at s (PSeed i))
         | None => PROCESS64_INVALID_PID
         end).

(** [(record != 0) ? f(record) : d] *)
Definition read_field {A} (d : A) (f : process64_record -> A) (p : Z) : PM A :=
  found <- process64_find p ;;
  match found with
  | Some ref => gets (fun s => f (record_at s ref))
  | None => ret d
  end.

Definition process64_principal : Z -> PM Z := read_field 0 principal_id.

Definition process64_endpoint : Z -> PM Z :=
  read_field 0xFFFFFFFF (fun r =>
    if endpoint_class r =? SERVICE_ENDPOINT_CLASS_NONE then 0xFFFFFFFF
    else services64_resolve_endpoint_class (endpoint_class r)).

Definition process64_endpoint_class : Z -> PM Z :=
  read_field SERVICE_ENDPOINT_CLASS_NONE endpoint_class.

Definition derived_state (r : process64_record) : Z :=
  let mi := manifest_index r in
  let bound := negb (mi =? LAUNCH64_INVALID_MANIFEST) in
  let flag (c : bool) (bit : Z) (st : Z) := if bound && c then Z.lor st bit else st in
  flag (nz (Z.land (launch64_manifest_runtime_user_entry_state mi) LAUNCH64_USER_ENTRY_TRANSFER_READY))
    PROCESS64_STATE_USER_ENTRY_READY
  (flag (nz (Z.land (launch64_manifest_runtime_user_entry_state mi) LAUNCH64_USER_ENTRY_BLOCKED))
    PROCESS64_STATE_USER_ENTRY_BLOCKED
  (flag (nz (launch64_manifest_runtime_user_entry_token mi)) PROCESS64_STATE_USER_ENTRY_PLANNED
  (flag (nz (launch64_manifest_runtime_image_protection_token mi)) PROCESS64_STATE_IMAGE_PROTECTED
  (flag (nz (launch64_manifest_runtime_image_map_installed mi)) PROCESS64_STATE_IMAGE_MAP_INSTALLED
  (flag (nz (launch64_manifest_runtime_entry_transfer_token mi)) PROCESS64_STATE_ENTRY_READY
  (flag (nz (launch64_manifest_runtime_image_map_token mi)) PROCESS64_STATE_IMAGE_MAPPED
  (flag (nz (launch64_manifest_runtime_image_plan_token mi)) PROCESS64_STATE_IMAGE_PLANNED
  (flag (1 <? launch64_manifest_runtime_generation mi) PROCESS64_STATE_RESTARTED
    (state r))))))))).

Definition process64_state : Z -> PM Z := read_field 0 derived_state.
Definition process64_scheduler_class : Z -> PM Z := read_field 0 scheduler_class.
Definition process64_capability_limit : Z -> PM Z := read_field 0 capability_limit.
Definition process64_manifest_index : Z -> PM Z :=
  read_field LAUNCH64_INVALID_MANIFEST manifest_index.
Definition process64_manifest_package_id : Z -> PM Z := read_field 0 manifest_package_id.
Definition process64_manifest_executable_id : Z -> PM Z := read_field 0 manifest_executable_id.
Definition process64_manifest_signer_id : Z -> PM Z := read_field 0 manifest_signer_id.
Definition process64_manifest_token : Z -> PM Z := read_field 0 manifest_token.

(** Runtime facts of the process's manifest; [d] when it has none. *)
Definition runtime_field (d : Z) (f : Z -> Z) : Z -> PM Z :=
  read_field d (fun r =>
    if manifest_index r =? LAUNCH64_INVALID_MANIFEST then d else f (manifest_index r)).

Definition process64_runtime_generation : Z -> PM Z :=
  runtime_field 0 launch64_manifest_runtime_generation.
Definition process64_runtime_token : Z -> PM Z :=
  runtime_field 0 launch64_manifest_runtime_token.
Definition process64_runtime_image_generation : Z -> PM Z :=
  runtime_field 0 launch64_manifest_runtime_image_generation.
Definition process64_runtime_image_token : Z -> PM Z :=
  runtime_field 0 launch64_manifest_runtime_image_token.
Definition process64_runtime_image_base : Z -> PM Z :=
  runtime_field 0 launch64_manifest_runtime_image_base.
Definition process64_runtime_image_entry : Z -> PM Z :=
  runtime_field 0 launch64_manifest_runtime_image_entry.
Definition process64_runtime_image_mapped_bytes : Z -> PM Z :=
  runtime_field 0 launch64_manifest_runtime_image_mapped_bytes.
Definition process64_runtime_image_rights : Z -> PM Z :=
  runtime_field 0 launch64_manifest_runtime_image_rights.
Definition process64_runtime_image_plan_token : Z -> PM Z :=
  runtime_field 0 launch64_manifest_runtime_image_plan_token.
Definition process64_runtime_image_map_token : Z -> PM Z :=
  runtime_field 0 launch64_manifest_runtime_image_map_token.
Definition process64_runtime_image_page_count : Z -> PM Z :=
  runtime_field 0 launch64_manifest_runtime_image_page_count.
Definition process64_runtime_image_pml4_index : Z -> PM Z :=
  runtime_field 0 launch64_manifest_runtime_image_pml4_index.
Definition process64_runtime_image_pdpt_index : Z -> PM Z :=
  runtime_field 0 launch64_manifest_runtime_image_pdpt_index.
Definition process64_runtime_image_pd_index : Z -> PM Z :=
  runtime_field 0 launch64_manifest_runtime_image_pd_index.
Definition process64_runtime_entry_transfer_token : Z -> PM Z :=
  runtime_field 0 launch64_manifest_runtime_entry_transfer_token.
Definition process64_runtime_image_install_token : Z -> PM Z :=
  runtime_field 0 launch64_manifest_runtime_image_install_token.
Definition process64_runtime_image_source_checksum : Z -> PM Z :=
  runtime_field 0 launch64_manifest_runtime_image_source_checksum.
Definition process64_runtime_image_entry_probe : Z -> PM Z :=
  runtime_field 0 launch64_manifest_runtime_image_entry_probe.
Definition process64_runtime_image_map_installed : Z -> PM Z :=
  runtime_field 0 launch64_manifest_runtime_image_map_installed.
Definition process64_runtime_image_protection_flags : Z -> PM Z :=
  runtime_field 0 launch64_manifest_runtime_image_protection_flags.
Definition process64_runtime_image_protection_token : Z -> PM Z :=
  runtime_field 0 launch64_manifest_runtime_image_protection_token.
Definition process64_runtime_user_entry_state : Z -> PM Z :=
  runtime_field 0 launch64_manifest_runtime_user_entry_state.
Definition process64_runtime_user_entry_token : Z -> PM Z :=
  runtime_field 0 launch64_manifest_runtime_user_entry_token.
Definition process64_runtime_user_entry_rip : Z -> PM Z :=
  runtime_field 0 launch64_manifest_runtime_user_entry_rip.
Definition process64_runtime_user_entry_rsp : Z -> PM Z :=
  runtime_field 0 launch64_manifest_runtime_user_entry_rsp.
Definition process64_runtime_user_entry_selectors : Z -> PM Z :=
  runtime_field 0 launch64_manifest_runtime_user_entry_selectors.
Definition process64_runtime_user_entry_rflags : Z -> PM Z :=
  runtime_field 0 launch64_manifest_runtime_user_entry_rflags.
Definition process64_runtime_user_entry_denial : Z -> PM Z :=
  runtime_field LAUNCH64_USER_ENTRY_DENY_DESCRIPTOR_STATE launch64_manifest_runtime_user_entry_denial.
Definition process64_runtime_user_entry_ready (p : Z) : PM Z :=
  st <- process64_runtime_user_entry_state p ;;
  ret (b2z (nz (Z.land st LAUNCH64_USER_ENTRY_TRANSFER_READY))).
Definition process64_runtime_payload_offset : Z -> PM Z :=
  runtime_field 0 launch64_manifest_runtime_payload_offset.
Definition process64_runtime_payload_size : Z -> PM Z :=
  runtime_field 0 launch64_manifest_runtime_payload_size.
Definition process64_runtime_payload_checksum : Z -> PM Z :=
  runtime_field 0 launch64_manifest_runtime_payload_checksum.

Definition process64_manifest_verified_count : PM Z :=
  process64_ensure_init ;;; gets g_manifest_verified_count.

Definition process64_name : Z -> PM (list Z) := read_field g_process64_unknown_name name.

(** ** Extension slots *)

(** Result and new content of the slot. *)
Definition process64_attach_slot (slot context : Z) : Z * Z :=
  if (context =? 0) || negb (slot =? 0) then (0, slot) else (1, context).

Definition process64_detach_slot (slot : Z) : Z * Z := (slot, 0).

Definition attach_to (field : process64_record -> Z)
    (set : Z -> process64_record -> process64_record) (p context : Z) : PM Z :=
  found <- process64_find_mutable p ;;
  match found with
  | None => ret 0
  | Some ref =>
      r <- gets (fun s => record_at s ref) ;;
      let (res, slot) := process64_attach_slot (field r) context in
      update_record ref (set slot) ;;; ret res
  end.

Definition detach_from (field : process64_record -> Z)
    (set : Z -> process64_record -> process64_record) (p : Z) : PM Z :=
  found <- process64_find_mutable p ;;
  match found with
  | None => ret 0
  | Some ref =>
      r <- gets (fun s => record_at s ref) ;;
      let (res, slot) := process64_detach_slot (field r) in
      update_record ref (set slot) ;;; ret res
  end.

Definition process64_attach_vma : Z -> Z -> PM Z :=
  attach_to vma_root (fun v r => r <| vma_root := v |>).
Definition process64_detach_vma : Z -> PM Z :=
  detach_from vma_root (fun v r => r <| vma_root := v |>).
Definition process64_vma_root : Z -> PM Z := read_field 0 vma_root.
Definition process64_attach_fd : Z -> Z -> PM Z :=
  attach_to fd_table (fun v r => r <| fd_table := v |>).
Definition process64_detach_fd : Z -> PM Z :=
  detach_from fd_table (fun v r => r <| fd_table := v |>).
Definition process64_fd_table : Z -> PM Z := read_field 0 fd_table.
Definition process64_attach_persona : Z -> Z -> PM Z :=
  attach_to persona_ctx (fun v r => r <| persona_ctx := v |>).
Definition process64_detach_persona : Z -> PM Z :=
  detach_from persona_ctx (fun v r => r <| persona_ctx := v |>).
Definition process64_persona_ctx : Z -> PM Z := read_field 0 persona_ctx.
Definition process64_attach_audit : Z -> Z -> PM Z :=
  attach_to audit_ctx (fun v r => r <| audit_ctx := v |>).
Definition process64_detach_audit : Z -> PM Z :=
  detach_from audit_ctx (fun v r => r <| audit_ctx := v |>).
Definition process64_audit_ctx : Z -> PM Z := read_field 0 audit_ctx.

(** ** Page roots *)

Definition deny_page_root : PM Z :=
  modify (fun s => s <| g_process64_page_root_denial_count :=
                         inc32 (g_process64_page_root_denial_count s) |>) ;;; ret 0.

Definition process64_attach_page_root
    (p root_physical root_index root_token authority_token : Z) : PM Z :=
  found <- process64_find_mutable p ;;
  match found with
  | None => deny_page_root
  | Some ref =>
      r <- gets (fun s => record_at s ref) ;;
      if (root_physical =? 0) || (root_token =? 0) || (authority_token =? 0)
         || negb (page_root_physical r =? 0) || negb (page_root_token r =? 0)
      then deny_page_root
      else
        update_record ref (fun r => r <| page_root_physical := root_physical |>
          <| page_root_index := root_index |> <| page_root_token := root_token |>) ;;;
        modify (fun s => s <| g_process64_page_root_attach_count :=
                               inc32 (g_process64_page_root_attach_count s) |>) ;;;
        ret 1
  end.

Definition process64_clear_page_root (p root_token : Z) : PM Z :=
  found <- process64_find_mutable p ;;
  match found with
  | None => deny_page_root
  | Some ref =>
      r <- gets (fun s => record_at s ref) ;;
      if (root_token =? 0) || negb (page_root_token r =? root_token)
      then deny_page_root
      else
        update_record ref (fun r => r <| page_root_physical := 0 |>
          <| page_root_index := 0xFFFFFFFF |> <| page_root_token := 0 |>) ;;;
        modify (fun s => s <| g_process64_page_root_clear_count :=
                               inc32 (g_process64_page_root_clear_count s) |>) ;;;
        ret 1
  end.

Definition process64_page_root_physical : Z -> PM Z := read_field 0 page_root_physical.
Definition process64_page_root_index : Z -> PM Z := read_field 0xFFFFFFFF page_root_index.
Definition process64_page_root_token : Z -> PM Z := read_field 0 page_root_token.
Definition process64_page_root_attach_count : PM Z := gets g_process64_page_root_attach_count.
Definition process64_page_root_clear_count : PM Z := gets g_process64_page_root_clear_count.
Definition process64_page_root_denial_count : PM Z := gets g_process64_page_root_denial_count.

(** ** Clones and forks *)

(** [g_process64_next_clone_pid++], with its wrap-around test. *)
Definition take_clone_pid : PM Z :=
  p <- gets g_process64_next_clone_pid ;;
  let next := inc32 p in
  modify (fun s => s <| g_process64_next_clone_pid :=
    if (next =? PROCESS64_INVALID_PID) || (next <? PROCESS64_CLONE_PID_BASE)
    then PROCESS64_CLONE_PID_BASE else next |>) ;;;
  ret p.

(** The record of a child of [parent]. *)
Definition child_record (child_pid kind : Z) (child_name : list Z) (ppid : Z)
    (parent : process64_record) : process64_record :=
  process64_clear_record
    <| pid := child_pid |>
    <| name := process64_copy_name child_name |>
    <| principal_id := principal_id parent |>
    <| endpoint_class := SERVICE_ENDPOINT_CLASS_NONE |>
    <| state := Z.lor PROCESS64_STATE_BOOTSTRAPPED PROCESS64_STATE_READY |>
    <| scheduler_class := scheduler_class parent |>
    <| capability_limit := capability_limit parent |>
    <| manifest_index := manifest_index parent |>
    <| manifest_package_id := manifest_package_id parent |>
    <| manifest_executable_id := manifest_executable_id parent |>
    <| manifest_signer_id := manifest_signer_id parent |>
    <| manifest_token := manifest_token parent |>
    <| parent_pid := ppid |>
    <| child_kind := kind |>
    <| waitable := 1 |> <| exited := 0 |> <| exit_code := 0 |>.

Definition process64_spawn_child (ppid kind : Z) (child_name : list Z) : PM Z :=
  found <- process64_find_mutable ppid ;;
  match found with
  | None => ret PROCESS64_INVALID_PID
  | Some ref =>
      parent <- gets (fun s => record_at s ref) ;;
      if (principal_id parent =? 0)
         || (negb (kind =? PROCESS64_CHILD_KIND_CLONE) && negb (kind =? PROCESS64_CHILD_KIND_FORK))
      then ret PROCESS64_INVALID_PID
      else
        slot <- gets (fun s => find_index (fun r => negb (process64_clone_record_active r))
                                 (g_process64_clone_records s)) ;;
        match slot with
        | None => ret PROCESS64_INVALID_PID
        | Some i =>
            child_pid <- take_clone_pid ;;
            update_record (PClone i) (fun _ => child_record child_pid kind child_name ppid parent) ;;;
            update_record ref (fun r => r <| child_count := inc32 (child_count r) |>) ;;;
            modify (fun s => s <| g_process64_clone_count := inc32 (g_process64_clone_count s) |>) ;;;
            ret child_pid
        end
  end.

Definition process64_spawn_clone (ppid : Z) : PM Z :=
  process64_spawn_child ppid PROCESS64_CHILD_KIND_CLONE (bytes_of "linux-thread").
Definition process64_spawn_fork (ppid : Z) : PM Z :=
  process64_spawn_child ppid PROCESS64_CHILD_KIND_FORK (bytes_of "linux-fork").

Definition process64_parent_pid : Z -> PM Z := read_field PROCESS64_INVALID_PID parent_pid.
Definition process64_child_kind : Z -> PM Z := read_field PROCESS64_CHILD_KIND_NONE child_kind.
Definition process64_child_count : Z -> PM Z := read_field 0 child_count.

Definition process64_mark_child_exited (p code : Z) : PM Z :=
  found <- process64_find_mutable p ;;
  match found with
  | None => ret 0
  | Some ref =>
      r <- gets (fun s => record_at s ref) ;;
      if waitable r =? 0 then ret 0
      else update_record ref (fun r => r <| exited := 1 |> <| exit_code := code |>) ;;; ret 1
  end.

Definition process64_child_exited : Z -> PM Z := read_field 0 exited.
Definition process64_child_exit_code : Z -> PM Z := read_field 0 exit_code.

Definition process64_release_clone (p : Z) : PM Z :=
  process64_ensure_init ;;;
  found <- gets (fun s => find_index (clone_with p) (g_process64_clone_records s)) ;;
  match found with
  | None => ret 0
  | Some i =>
      child <- gets (fun s => record_at s (PClone i)) ;;
      parent <- process64_find_mutable (parent_pid child) ;;
      match parent with
      | Some ref =>
          pr <- gets (fun s => record_at s ref) ;;
          if negb (child_count pr =? 0)
          then update_record ref (fun r => r <| child_count := dec32 (child_count r) |>)
          else ret tt
      | None => ret tt
      end ;;;
      update_record (PClone i) (fun _ => process64_clear_record) ;;;
      modify (fun s => if negb (g_process64_clone_count s =? 0)
                       then s <| g_process64_clone_count := dec32 (g_process64_clone_count s) |>
                       else s) ;;;
      ret 1
  end.

Definition process64_is_clone (p : Z) : PM Z :=
  process64_ensure_init ;;;
  gets (fun s =>
    match find_index (clone_with p) (g_process64_clone_records s) with
    | Some i => b2z (child_kind (record_at s (PClone i)) =? PROCESS64_CHILD_KIND_CLONE)
    | None => 0
    end).

Definition process64_is_fork_child (p : Z) : PM Z :=
  k <- process64_child_kind p ;; ret (b2z (k =? PROCESS64_CHILD_KIND_FORK)).

Definition process64_clone_count : PM Z :=
  process64_ensure_init ;;; gets g_process64_clone_count.

End with_launch.
End Process.
