(* ===== verification/ProcessFacts.v ===== *)
(** * Invariant of the process table

    What every call of process.c keeps: the boot processes stay what they
    were seeded as, live pids are distinct, clones carry the identity of a
    boot process, and the child and clone counters are exact. *)

From Stdlib Require Import String.
From S2P Require Import Prelude Principal Services64 Process.
Import Principal Services64 Process.
Local Open Scope Z_scope.

Module ProcFacts.

Implicit Types (s : process_state) (r c : process64_record) (ref : pref) (i j : nat).
Abbreviation active r := (process64_clone_record_active r = true).

(** The record a live reference points to. *)
Definition points (s : process_state) (ref : pref) (r : process64_record) : Prop :=
  match ref with
  | PSeed i => g_processes s !! i = Some r
  | PClone i => g_process64_clone_records s !! i = Some r /\ active r
  end.

(** [r] runs on behalf of a boot process: same principal, same scheduling
    class, same capability limit. *)
Definition identity_of (sd : process64_seed_record_t) (r : process64_record) : Prop :=
  principal_id r = sd_principal_id sd /\ scheduler_class r = sd_scheduler_class sd /\
  capability_limit r = sd_capability_limit sd.

Definition child_of (p : Z) (c : process64_record) : bool :=
  process64_clone_record_active c && (parent_pid c =? p).

(** [d] and [e] are how far the child counters and the clone counter lag
    behind the tables in the middle of a call; between calls they are 0. *)
Record pinv_off (d : Z -> Z) (e : Z) (s : process_state) : Prop := {
  p_init : g_process_init s <> 0;
  p_clones : length (g_process64_clone_records s) = PROCESS64_CLONE_RECORD_LIMIT;
  p_boot : length (g_processes s) = PROCESS64_RECORD_COUNT;
  p_seeds : forall i r sd, g_processes s !! i = Some r -> g_process_seeds !! i = Some sd ->
    pid r = sd_pid sd /\ identity_of sd r;
  p_unique : forall i j r1 r2, g_process64_clone_records s !! i = Some r1 ->
    g_process64_clone_records s !! j = Some r2 -> active r1 -> active r2 ->
    pid r1 = pid r2 -> i = j;
  p_range : forall i c, g_process64_clone_records s !! i = Some c -> active c ->
    PROCESS64_CLONE_PID_BASE <= pid c < g_process64_next_clone_pid s /\
    parent_pid c < pid c /\ exists sd, sd ∈ g_process_seeds /\ identity_of sd c;
  p_next : PROCESS64_CLONE_PID_BASE <= g_process64_next_clone_pid s < PROCESS64_INVALID_PID;
  p_count : g_process64_clone_count s + e =
    Z.of_nat (count_if process64_clone_record_active (g_process64_clone_records s));
  p_children : forall ref r, points s ref r ->
    child_count r + d (pid r) =
      Z.of_nat (count_if (child_of (pid r)) (g_process64_clone_records s));
}.
Arguments p_init {d e} s _.
Arguments p_clones {d e} s _.
Arguments p_boot {d e} s _.
Arguments p_seeds {d e} s _.
Arguments p_unique {d e} s _.
Arguments p_range {d e} s _.
Arguments p_next {d e} s _.
Arguments p_count {d e} s _.
Arguments p_children {d e} s _.

Definition pinv (s : process_state) : Prop := pinv_off (fun _ => 0) 0 s.

Lemma seed_lookup_range i sd : g_process_seeds !! i = Some sd -> 1 <= sd_pid sd <= 7 /\ sd_principal_id sd <> 0.
Proof. do 8 (destruct i as [|i]; cbn; [by intros [= <-]|]). done. Qed.

Lemma seed_lookup_inj i j sd1 sd2 :
  g_process_seeds !! i = Some sd1 -> g_process_seeds !! j = Some sd2 -> sd_pid sd1 = sd_pid sd2 -> i = j.
Proof.
  intros H1 H2. assert (Hp : forall k sd, g_process_seeds !! k = Some sd -> sd_pid sd = Z.of_nat (S k)).
  { intros k sd. do 8 (destruct k as [|k]; cbn; [by intros [= <-]|]). done. }
  rewrite (Hp _ _ H1), (Hp _ _ H2). lia.
Qed.

Section facts.
Context {launch : LaunchEnv}.

Lemma boot_seed {d e} s i r : pinv_off d e s -> g_processes s !! i = Some r ->
  exists sd, g_process_seeds !! i = Some sd /\ pid r = sd_pid sd /\ identity_of sd r.
Proof.
  intros Hi Hr. destruct (lookup_lt_is_Some_2 g_process_seeds i) as [sd Hsd].
  { apply lookup_lt_Some in Hr. by rewrite (p_boot s Hi) in Hr. }
  exists sd. split; [done|]. by apply (p_seeds s Hi i r sd).
Qed.

(** Live references with the same pid are the same. *)
Lemma points_inj {d e} s ref1 ref2 r1 r2 :
  pinv_off d e s -> points s ref1 r1 -> points s ref2 r2 -> pid r1 = pid r2 -> ref1 = ref2.
Proof.
  intros Hi H1 H2 Hp.
  assert (Hmix : forall i j r c, g_processes s !! i = Some r ->
    g_process64_clone_records s !! j = Some c -> active c -> pid r <> pid c).
  { intros i j r c Hr Hc Ha. destruct (boot_seed s i r Hi Hr) as (sd & Hsd & -> & _).
    apply seed_lookup_range in Hsd as [? _]. destruct (p_range s Hi j c Hc Ha) as [? _].
    unfold PROCESS64_CLONE_PID_BASE in *. lia. }
  destruct ref1 as [i|i], ref2 as [j|j]; cbn in H1, H2.
  - f_equal. destruct (boot_seed s i r1 Hi H1) as (sd1 & ? & ? & _), (boot_seed s j r2 Hi H2) as (sd2 & ? & ? & _).
    eapply seed_lookup_inj; eauto. congruence.
  - by destruct (Hmix i j r1 r2), H2.
  - by destruct (Hmix j i r2 r1), H1.
  - f_equal. destruct H1, H2. eapply (p_unique s Hi); eauto.
Qed.

Lemma points_record s ref r : points s ref r -> record_at s ref = r.
Proof. destruct ref; cbn; [by intros ->|by intros [-> _]]. Qed.

Lemma lookup_sound s p ref : lookup p s = Some ref -> exists r, points s ref r /\ pid r = p.
Proof.
  unfold lookup. destruct (find_index _ (g_processes s)) as [i|] eqn:Hf.
  - intros [= <-]. apply find_index_lookup in Hf as (r & Hr & Hp). exists r. by apply Z.eqb_eq in Hp.
  - intros (i & Hi & ->)%fmap_Some. apply find_index_lookup in Hi as (r & Hr & Hp).
    unfold clone_with in Hp. apply andb_true_iff in Hp as [? ?%Z.eqb_eq]. by exists r.
Qed.

Lemma lookup_complete s ref r : points s ref r -> lookup (pid r) s <> None.
Proof.
  unfold lookup. intros Hpt. destruct (find_index _ (g_processes s)) eqn:Hf; [done|].
  rewrite fmap_None. intros Hl. destruct ref as [i|i]; cbn in Hpt.
  - apply list_elem_of_lookup_2 in Hpt. pose proof (proj1 (find_index_None _ _) Hf r Hpt) as Hn.
    by apply Z.eqb_neq in Hn.
  - destruct Hpt as [Hpt Ha]. apply list_elem_of_lookup_2 in Hpt.
    pose proof (proj1 (find_index_None _ _) Hl r Hpt) as Hn. unfold clone_with in Hn.
    by rewrite Ha, Z.eqb_refl in Hn.
Qed.

Lemma lookup_points {d e} s p ref :
  pinv_off d e s -> lookup p s = Some ref <-> exists r, points s ref r /\ pid r = p.
Proof.
  intros Hi. split; [apply lookup_sound|]. intros (r & Hpt & <-).
  destruct (lookup (pid r) s) as [ref'|] eqn:Hl; [|by apply (lookup_complete s ref r) in Hpt].
  apply lookup_sound in Hl as (r' & Hpt' & Hp'). f_equal. by eapply (points_inj s ref' ref r' r).
Qed.

(** ** Initialisation is done once *)

Lemma pinv_ready {d e} s : pinv_off d e s -> nz (g_process_init s) && process64_records_valid s = true.
Proof.
  intros Hi. apply andb_true_iff. split; [apply nz_true, Hi|].
  assert (Hv : forall i, (i < 7)%nat -> exists r sd, g_processes s !! i = Some r /\
    g_process_seeds !! i = Some sd /\ pid r = sd_pid sd /\ principal_id r = sd_principal_id sd).
  { intros i Hlt. destruct (lookup_lt_is_Some_2 (g_processes s) i) as [r Hr]; [by rewrite (p_boot s Hi)|].
    destruct (boot_seed s i r Hi Hr) as (sd & ? & ? & ? & _). eauto 10. }
  destruct (Hv 0%nat) as (r0 & sd0 & H0 & H1 & H2 & H3); [lia|].
  destruct (Hv 6%nat) as (r6 & sd6 & H4 & H5 & H6 & H7); [lia|].
  unfold process64_records_valid. change (PROCESS64_RECORD_COUNT - 1)%nat with 6%nat.
  rewrite H0, H1, H4, H5, H2, H3, H6, H7, !Z.eqb_refl. done.
Qed.

Lemma ensure_init_wp {d e} s (Q : unit -> process_state -> Prop) :
  pinv_off d e s -> Q tt s -> wp process64_ensure_init Q s.
Proof. intros Hi HQ. unfold process64_ensure_init. wp_step. wp_step. by rewrite (pinv_ready s Hi). Qed.

Lemma find_wp {d e} s p (Q : option pref -> process_state -> Prop) :
  pinv_off d e s -> Q (lookup p s) s -> wp (process64_find_mutable p) Q s.
Proof. intros Hi HQ. unfold process64_find_mutable. wp_step. by eapply (ensure_init_wp s). Qed.

(** Static storage at power on. *)
Definition power_on : process_state :=
  mk_pstate (replicate PROCESS64_RECORD_COUNT zero_process)
    (replicate PROCESS64_CLONE_RECORD_LIMIT zero_process) 0 PROCESS64_CLONE_PID_BASE 0 0 0 0 0.

(** No extension attached. *)
Definition empty_slots (r : process64_record) : Prop :=
  vma_root r = 0 /\ fd_table r = 0 /\ persona_ctx r = 0 /\ audit_ctx r = 0.

Lemma bind_manifest_core r :
  let r' := (bind_manifest r).1 in
  pid r' = pid r /\ principal_id r' = principal_id r /\ scheduler_class r' = scheduler_class r /\
  capability_limit r' = capability_limit r /\ child_count r' = child_count r /\
  (empty_slots r -> empty_slots r').
Proof. unfold bind_manifest. repeat case_match; done. Qed.

Lemma init_processes_lookup (l : list process64_record) i r :
  map fst (map bind_manifest (zip_with (fun sd r => process64_seed_record sd false r)
    g_process_seeds l)) !! i = Some r ->
  exists sd, g_process_seeds !! i = Some sd /\ pid r = sd_pid sd /\ identity_of sd r /\
    child_count r = 0 /\ empty_slots r.
Proof.
  rewrite !list_lookup_fmap, lookup_zip_with. intros Hr.
  destruct (g_process_seeds !! i) as [sd|]; [|done]. exists sd. split; [done|].
  destruct (l !! i) as [x|]; [|done]. cbn -[bind_manifest process64_seed_record] in Hr.
  injection Hr as <-.
  destruct (bind_manifest_core (process64_seed_record sd false x)) as (-> & Hp & Hs & Hc & -> & He).
  split; [done|]. split; [|split; [done|by apply He]].
  split; [|split]; [by rewrite Hp|by rewrite Hs|by rewrite Hc].
Qed.

(** The first call establishes the invariant. *)
Lemma process_init_wp : wp process64_ensure_init (fun _ s => pinv s /\
  forall ref r, points s ref r -> empty_slots r) power_on.
Proof.
  unfold process64_ensure_init. wp_step. wp_step. cbn [nz negb andb Z.eqb g_process_init power_on].
  do 2 wp_step. change (nz (g_process_init power_on)) with false. unfold process64_seed_records, process64_clear_clone_records, process64_bind_manifests.
  wp_steps.
  assert (Hdead : forall i c, replicate PROCESS64_CLONE_RECORD_LIMIT process64_clear_record !! i = Some c ->
    process64_clone_record_active c = false).
  { intros i c Hc. apply lookup_replicate in Hc as [-> _]. done. }
  split.
  2:{ intros [i|i] r Hr; [by destruct (init_processes_lookup _ i r Hr) as (sd & _ & _ & _ & _ & ?)|].
      destruct Hr as [Hr Ha]. by rewrite (Hdead i r Hr) in Ha. }
  split; cbn [g_process_init g_processes g_process64_clone_records g_process64_clone_count
    g_process64_next_clone_pid setter].
  - done.
  - apply length_replicate.
  - rewrite !length_map, length_zip_with. done.
  - intros i r sd Hr Hsd. destruct (init_processes_lookup _ i r Hr) as (sd' & ? & ? & ? & _ & _). by simplify_eq.
  - intros i j r1 r2 H1 H2 A1 _. by rewrite (Hdead i r1 H1) in A1.
  - intros i c Hc Ha. by rewrite (Hdead i c Hc) in Ha.
  - done.
  - done.
  - intros [i|i] r Hr.
    + destruct (init_processes_lookup _ i r Hr) as (sd & _ & _ & _ & -> & _). done.
    + destruct Hr as [Hr Ha]. by rewrite (Hdead i r Hr) in Ha.
Qed.

(** ** Calls that touch only slots, roots and exit status *)

(** The identity of a process: everything the invariant talks about but
    its child counter. *)
Definition same_core (r r' : process64_record) : Prop :=
  pid r' = pid r /\ principal_id r' = principal_id r /\ scheduler_class r' = scheduler_class r /\
  capability_limit r' = capability_limit r /\ parent_pid r' = parent_pid r.

Lemma same_core_active r r' : same_core r r' ->
  process64_clone_record_active r' = process64_clone_record_active r.
Proof. unfold process64_clone_record_active. by intros (-> & _). Qed.

Lemma same_core_child p r r' : same_core r r' -> child_of p r' = child_of p r.
Proof.
  intros H. unfold child_of. rewrite (same_core_active r r' H). by destruct H as (_ & _ & _ & _ & ->).
Qed.

Lemma same_core_identity sd r r' : same_core r r' -> identity_of sd r -> identity_of sd r'.
Proof. unfold identity_of. by intros (_ & -> & -> & -> & _). Qed.

(** Tables that agree on those fields, slot by slot. *)
Definition table_core (l l' : list process64_record) : Prop :=
  forall i, match l !! i, l' !! i with
            | Some r, Some r' => same_core r r'
            | None, None => True
            | _, _ => False
            end.

Lemma table_core_refl l : table_core l l.
Proof. intros i. by destruct (l !! i). Qed.

Lemma table_core_alter l i f : (forall r, same_core r (f r)) -> table_core l (alter f i l).
Proof.
  intros Hf j. rewrite list_lookup_alter. case_decide; subst; destruct (l !! j); cbn; auto.
  by split_and!.
Qed.

Lemma table_core_back l l' i r' : table_core l l' -> l' !! i = Some r' ->
  exists r, l !! i = Some r /\ same_core r r'.
Proof. intros H Hr. specialize (H i). rewrite Hr in H. destruct (l !! i); [eauto|done]. Qed.

Lemma table_core_count P l l' : table_core l l' ->
  (forall r r', same_core r r' -> P r' = P r) -> count_if P l' = count_if P l.
Proof.
  unfold count_if. intros H HP. revert l' H.
  induction l as [|x l IH]; intros [|y l'] H; [done|by specialize (H 0%nat)|by specialize (H 0%nat)|].
  cbn. rewrite (HP x y) by exact (H 0%nat). specialize (IH l' (fun i => H (S i))).
  destruct (P x); cbn; [f_equal|]; exact IH.
Qed.

Lemma table_core_length l l' : table_core l l' -> length l' = length l.
Proof.
  revert l'. induction l as [|x l IH]; intros [|y l'] H; [done|by specialize (H 0%nat)|by specialize (H 0%nat)|].
  cbn. f_equal. apply IH. exact (fun i => H (S i)).
Qed.

Lemma pinv_core {d e} d' s s' :
  pinv_off d e s -> table_core (g_processes s) (g_processes s') ->
  table_core (g_process64_clone_records s) (g_process64_clone_records s') ->
  g_process_init s' = g_process_init s -> g_process64_clone_count s' = g_process64_clone_count s ->
  g_process64_next_clone_pid s' = g_process64_next_clone_pid s ->
  (forall ref r r', points s ref r -> points s' ref r' ->
     child_count r' + d' (pid r) = child_count r + d (pid r)) ->
  pinv_off d' e s'.
Proof.
  intros [H1 H2 H3 H4 H5 H6 H7 H8 H9] Hp Hc Hinit Hcount Hnext Hd.
  split; rewrite ?Hinit, ?Hcount, ?Hnext; try done.
  - by rewrite (table_core_length _ _ Hc).
  - by rewrite (table_core_length _ _ Hp).
  - intros i r' sd Hr' Hsd. destruct (table_core_back _ _ _ _ Hp Hr') as (r & Hr & Hs).
    destruct (H4 i r sd Hr Hsd) as [? ?]. split; [destruct Hs; congruence|eauto using same_core_identity].
  - intros i j r1' r2' Hr1 Hr2 A1 A2 E.
    destruct (table_core_back _ _ _ _ Hc Hr1) as (r1 & ? & S1), (table_core_back _ _ _ _ Hc Hr2) as (r2 & ? & S2).
    rewrite (same_core_active _ _ S1) in A1. rewrite (same_core_active _ _ S2) in A2.
    destruct S1 as [E1 _], S2 as [E2 _]. rewrite E1, E2 in E. eauto.
  - intros i c' Hc' A. destruct (table_core_back _ _ _ _ Hc Hc') as (c & Hcl & S1).
    rewrite (same_core_active _ _ S1) in A. destruct (H6 i c Hcl A) as (? & ? & sd & ? & ?).
    split; [destruct S1 as [-> _]; done|]. split; [by destruct S1 as (-> & _ & _ & _ & ->)|].
    exists sd. eauto using same_core_identity.
  - by rewrite (table_core_count _ _ _ Hc same_core_active).
  - intros ref r' Hr'.
    assert (exists r, points s ref r /\ same_core r r') as (r & Hr & S1).
    { destruct ref as [i|i]; cbn in *.
      - apply (table_core_back _ _ _ _ Hp Hr').
      - destruct Hr' as [Hr' A]. destruct (table_core_back _ _ _ _ Hc Hr') as (r & ? & S1).
        exists r. split; [|done]. rewrite (same_core_active _ _ S1) in A. done. }
    rewrite (table_core_count _ _ _ Hc (same_core_child _)).
    destruct S1 as (-> & _). rewrite (Hd ref r r' Hr Hr'). by apply (H9 ref).
Qed.

(** The records after an update of the one at [ref]. *)
Lemma points_update s ref f s' :
  (forall r, same_core r (f r)) -> snd (update_record ref f s) = s' ->
  forall ref' r, points s' ref' r <->
    exists x, points s ref' x /\ r = (if bool_decide (ref' = ref) then f x else x).
Proof.
  intros Hf <-.
  assert (Hact : forall x, process64_clone_record_active (f x) = process64_clone_record_active x).
  { intros x. apply same_core_active, Hf. }
  destruct ref as [i|i]; intros [j|j] r; cbn; rewrite ?list_lookup_alter.
  - destruct (decide (i = j)) as [->|]; [rewrite bool_decide_true by done|rewrite bool_decide_false by congruence].
    + rewrite fmap_Some. naive_solver.
    + split; [eauto|]. by intros (x & ? & ->).
  - split; [eauto|]. by intros (x & ? & ->).
  - split; [eauto|]. by intros (x & ? & ->).
  - destruct (decide (i = j)) as [->|]; [rewrite bool_decide_true by done|rewrite bool_decide_false by congruence].
    + rewrite fmap_Some. split.
      * intros ((x & Hx & ->) & A). rewrite Hact in A. eauto.
      * intros (x & (Hx & A) & ->). rewrite Hact. eauto.
    + split; [eauto|]. by intros (x & ? & ->).
Qed.

Lemma update_wp {d e} d' s ref f (Q : unit -> process_state -> Prop) :
  pinv_off d e s -> (forall r, same_core r (f r)) ->
  (forall ref' r, points s ref' r ->
     child_count (if bool_decide (ref' = ref) then f r else r) + d' (pid r)
     = child_count r + d (pid r)) ->
  (forall s', pinv_off d' e s' -> snd (update_record ref f s) = s' -> Q tt s') ->
  wp (update_record ref f) Q s.
Proof.
  intros Hi Hf Hd HQ. pose proof (points_update s ref f _ Hf eq_refl) as Hpts.
  destruct ref as [i|i]; unfold update_record; wp_step; (apply HQ; [|done]).
  all: eapply (pinv_core d' s); try done; try (by apply table_core_alter); try apply table_core_refl.
  all: intros ref r r' Hr Hr'; apply Hpts in Hr' as (x & Hx & ->).
  all: replace x with r by (apply points_record in Hr, Hx; congruence); by apply Hd.
Qed.

(** ... that leaves its child counter alone. *)
Lemma update_core_wp {d e} s ref f (Q : unit -> process_state -> Prop) :
  pinv_off d e s -> (forall r, same_core r (f r)) -> (forall r, child_count (f r) = child_count r) ->
  (forall s', pinv_off d e s' -> snd (update_record ref f s) = s' -> Q tt s') ->
  wp (update_record ref f) Q s.
Proof.
  intros Hi Hf Hc HQ. eapply (update_wp d s); eauto. intros ref' r _. case_bool_decide; [by rewrite Hc|done].
Qed.

(** ** Spawning and releasing *)

Definition at_pid (p q : Z) : Z := b2z (q =? p).

Lemma pinv_off_ext d d' e s :
  pinv_off d e s -> (forall ref r, points s ref r -> d (pid r) = d' (pid r)) -> pinv_off d' e s.
Proof.
  intros [] Hd. split; try done. intros ref r Hr. rewrite <- (Hd ref r Hr). eauto.
Qed.

(** Counting children after one clone record changed. *)
Lemma children_alter s i x c p :
  g_process64_clone_records s !! i = Some x ->
  Z.of_nat (count_if (child_of p) (alter (fun _ => c) i (g_process64_clone_records s)))
  = Z.of_nat (count_if (child_of p) (g_process64_clone_records s))
    + b2z (child_of p c) - b2z (child_of p x).
Proof.
  intros Hx. pose proof (count_if_alter (child_of p) _ i x (fun _ => c) Hx) as H. cbn in H.
  destruct (child_of p c), (child_of p x); cbn in *; lia.
Qed.

Lemma clones_alter s i x c :
  g_process64_clone_records s !! i = Some x ->
  Z.of_nat (count_if process64_clone_record_active (alter (fun _ => c) i (g_process64_clone_records s)))
  = Z.of_nat (count_if process64_clone_record_active (g_process64_clone_records s))
    + b2z (process64_clone_record_active c) - b2z (process64_clone_record_active x).
Proof.
  intros Hx. pose proof (count_if_alter process64_clone_record_active _ i x (fun _ => c) Hx) as H.
  cbn in H. destruct (process64_clone_record_active c), (process64_clone_record_active x); cbn in *; lia.
Qed.

Lemma alter_const_lookup (l : list process64_record) i j (c r : process64_record) :
  alter (fun _ => c) i l !! j = Some r -> (j = i /\ r = c) \/ (j <> i /\ l !! j = Some r).
Proof.
  intros (x & Hx & ->)%lookup_alter_Some. case_decide; [left|right]; auto.
Qed.

(** Fields of [s'] other than the clone table are those of [s]. *)
Definition only_clones (s s' : process_state) (l : list process64_record) (next : Z) : Prop :=
  g_processes s' = g_processes s /\ g_process64_clone_records s' = l /\
  g_process_init s' = g_process_init s /\ g_process64_clone_count s' = g_process64_clone_count s /\
  g_process64_next_clone_pid s' = next.

Lemma pinv_install d e s s' i x c :
  pinv_off d e s -> g_process64_next_clone_pid s + 1 < PROCESS64_INVALID_PID ->
  g_process64_clone_records s !! i = Some x -> process64_clone_record_active x = false ->
  pid c = g_process64_next_clone_pid s -> parent_pid c < pid c -> child_count c = 0 ->
  (exists sd, sd ∈ g_process_seeds /\ identity_of sd c) -> d (pid c) = 0 ->
  only_clones s s' (alter (fun _ => c) i (g_process64_clone_records s))
    (g_process64_next_clone_pid s + 1) ->
  pinv_off (fun q => d q + at_pid (parent_pid c) q) (e + 1) s'.
Proof.
  intros [H1 H2 H3 H4 H5 H6 H7 H8 H9] Hn Hx Hdead Hpid Hpar Hzero Hid Hd (Ep & Ec & Ei & En & Enx).
  assert (Hact : active c).
  { unfold process64_clone_record_active. rewrite Hpid.
    unfold PROCESS64_CLONE_PID_BASE, PROCESS64_INVALID_PID in *.
    apply andb_true_iff. split; apply negb_true_iff, Z.eqb_neq; lia. }
  assert (Hcx : forall p, child_of p x = false) by (intros; unfold child_of; by rewrite Hdead).
  assert (Hcc : forall p, b2z (child_of p c) = at_pid (parent_pid c) p).
  { intros p. unfold child_of, at_pid. rewrite Hact. cbn. by rewrite Z.eqb_sym. }
  split; rewrite ?Ep, ?Ec, ?Ei, ?En, ?Enx; try done; try lia.
  - by rewrite length_alter.
  - intros j k r1 r2 [[-> ->]|[Hj1 L1]]%alter_const_lookup [[-> ->]|[Hj2 L2]]%alter_const_lookup A1 A2 E;
      [done| | |eauto].
    + destruct (H6 k r2 L2 A2) as [? _]. lia.
    + destruct (H6 j r1 L1 A1) as [? _]. lia.
  - intros j r [[-> ->]|[Hj L]]%alter_const_lookup A; [split; [lia|done]|].
    destruct (H6 j r L A) as (? & ? & ?). split; [lia|done].
  - rewrite (clones_alter s i x c Hx), Hact, Hdead. cbn. lia.
  - intros ref r Hr. rewrite (children_alter s i x c _ Hx), Hcx, Hcc. cbn [b2z].
    assert (Hold : forall ref', points s ref' r -> child_count r + (d (pid r) + at_pid (parent_pid c) (pid r)) =
      Z.of_nat (count_if (child_of (pid r)) (g_process64_clone_records s)) + at_pid (parent_pid c) (pid r) - 0).
    { intros ref' Hr'. specialize (H9 ref' r Hr'). lia. }
    destruct ref as [j|j]; cbn in Hr; [rewrite Ep in Hr; by apply (Hold (PSeed j))|].
    rewrite Ec in Hr. destruct Hr as [[[-> ->]|[Hj L]]%alter_const_lookup A]; [|by apply (Hold (PClone j))].
    rewrite Hzero, Hd. enough (count_if (child_of (pid c)) (g_process64_clone_records s) = 0%nat) as -> by lia.
    apply count_if_none. intros y (k & Hk)%list_elem_of_lookup. unfold child_of.
    destruct (process64_clone_record_active y) eqn:Ay; [|done]. cbn.
    destruct (H6 k y Hk Ay) as (? & ? & _). apply Z.eqb_neq. lia.
Qed.

Lemma pinv_clear d e s s' i c :
  pinv_off d e s -> g_process64_clone_records s !! i = Some c -> active c ->
  only_clones s s' (alter (fun _ => process64_clear_record) i (g_process64_clone_records s))
    (g_process64_next_clone_pid s) ->
  pinv_off (fun q => d q - at_pid (parent_pid c) q) (e - 1) s'.
Proof.
  intros [H1 H2 H3 H4 H5 H6 H7 H8 H9] Hc Hact (Ep & Ec & Ei & En & Enx).
  assert (Hcc : forall p, b2z (child_of p c) = at_pid (parent_pid c) p).
  { intros p. unfold child_of, at_pid. rewrite Hact. cbn. by rewrite Z.eqb_sym. }
  assert (Hlive : forall j r, alter (fun _ => process64_clear_record) i (g_process64_clone_records s) !! j = Some r ->
    active r -> g_process64_clone_records s !! j = Some r).
  { intros j r [[-> ->]|[_ L]]%alter_const_lookup A; done. }
  split; rewrite ?Ep, ?Ec, ?Ei, ?En, ?Enx; try done.
  - by rewrite length_alter.
  - intros j k r1 r2 L1 L2 A1 A2. eauto.
  - intros j r L A. eauto.
  - rewrite (clones_alter s i c _ Hc), Hact. cbn. lia.
  - intros ref r Hr. rewrite (children_alter s i c _ _ Hc), Hcc. cbn [b2z].
    assert (Hr' : points s ref r).
    { destruct ref as [j|j]; cbn in *; [by rewrite Ep in Hr|]. rewrite Ec in Hr. destruct Hr. eauto. }
    specialize (H9 ref r Hr'). change (child_of (pid r) process64_clear_record) with false. cbn [b2z]. lia.
Qed.

(** Correcting the child counter of one process. *)
Lemma bump_wp {d e} s ref r k f (Q : unit -> process_state -> Prop) :
  pinv_off d e s -> points s ref r -> (forall x, same_core x (f x)) ->
  child_count (f r) = child_count r + k ->
  (forall s', pinv_off (fun q => d q - (if q =? pid r then k else 0)) e s' ->
     snd (update_record ref f s) = s' -> Q tt s') ->
  wp (update_record ref f) Q s.
Proof.
  intros Hi Hr Hf Hk HQ. eapply (update_wp _ s); [done|done| |exact HQ].
  intros ref' x Hx. cbn beta. case_bool_decide as Hd.
  - subst. replace x with r by (apply points_record in Hr, Hx; congruence).
    rewrite Z.eqb_refl. lia.
  - destruct (Z.eqb_spec (pid x) (pid r)) as [E|]; [|lia].
    destruct Hd. eapply points_inj; eauto.
Qed.

(** ** The process table as a map from pids to records *)

Definition proc (s : process_state) (p : Z) : option process64_record :=
  record_at s <$> lookup p s.

Definition upd (v : Z -> option process64_record) (p : Z) (o : option process64_record) (q : Z) :
  option process64_record := if q =? p then o else v q.

Lemma proc_points {d e} s p r :
  pinv_off d e s -> proc s p = Some r <-> exists ref, points s ref r /\ pid r = p.
Proof.
  intros Hi. unfold proc. rewrite fmap_Some. split.
  - intros (ref & Hl & ->). apply (lookup_points s p ref Hi) in Hl as (x & Hx & Hp).
    exists ref. by rewrite (points_record s ref x Hx).
  - intros (ref & Hr & Hp). exists ref. split; [apply (lookup_points s p ref Hi); eauto|].
    by rewrite (points_record s ref r Hr).
Qed.

(** Two tables show the same processes when they point to the same records. *)
Lemma proc_ext {d e d' e'} s s' p :
  pinv_off d e s -> pinv_off d' e' s' ->
  (forall r, pid r = p -> (exists ref, points s' ref r) <-> exists ref, points s ref r) ->
  proc s' p = proc s p.
Proof.
  intros Hi Hi' H. apply option_eq. intros r. rewrite (proc_points s p r Hi), (proc_points s' p r Hi').
  split; intros (ref & Hr & Hp); destruct (H r Hp) as [H1 H2]; [destruct H1|destruct H2]; eauto.
Qed.

Lemma proc_update {d e d' e'} s ref r f s' q :
  pinv_off d e s -> points s ref r -> (forall x, same_core x (f x)) ->
  pinv_off d' e' s' -> snd (update_record ref f s) = s' ->
  proc s' q = upd (proc s) (pid r) (Some (f r)) q.
Proof.
  intros Hi Hr Hf Hi' Hs'. pose proof (points_update s ref f s' Hf Hs') as Hpts. unfold upd.
  destruct (Z.eqb_spec q (pid r)) as [->|Hq].
  - apply (proc_points s' _ _ Hi'). exists ref. split; [|apply Hf]. apply Hpts. exists r.
    by rewrite bool_decide_true.
  - eapply proc_ext; [done..|]. intros x Hx. split; intros (ref' & Hp').
    + apply Hpts in Hp' as (y & Hy & ->). case_bool_decide as Hd.
      * subst. replace y with r in Hq by (apply points_record in Hr, Hy; congruence).
        destruct Hq. apply Hf.
      * eauto.
    + exists ref'. apply Hpts. exists x. split; [done|]. rewrite bool_decide_false; [done|].
      intros ->. apply points_record in Hr, Hp'. congruence.
Qed.

(** An extension slot of the process record. *)
Class ExtSlot (get : process64_record -> Z) (set : Z -> process64_record -> process64_record) := {
  slot_get_set : forall v r, get (set v r) = v;
  slot_set_get : forall r, set (get r) r = r;
  slot_core : forall v r, same_core r (set v r) /\ child_count (set v r) = child_count r;
}.

#[export] Instance vma_slot : ExtSlot vma_root (fun v r => r <| vma_root := v |>).
Proof. by split; [|intros []|]. Qed.
#[export] Instance fd_slot : ExtSlot fd_table (fun v r => r <| fd_table := v |>).
Proof. by split; [|intros []|]. Qed.
#[export] Instance persona_slot : ExtSlot persona_ctx (fun v r => r <| persona_ctx := v |>).
Proof. by split; [|intros []|]. Qed.
#[export] Instance audit_slot : ExtSlot audit_ctx (fun v r => r <| audit_ctx := v |>).
Proof. by split; [|intros []|]. Qed.

(** A call that returns [v] and shows the processes [view] afterwards. *)
Definition shows (v : Z) (view : Z -> option process64_record) (res : Z) (s' : process_state) : Prop :=
  pinv s' /\ res = v /\ forall q, proc s' q = view q.

Lemma upd_same s p r q : proc s p = Some r -> upd (proc s) p (Some r) q = proc s q.
Proof. intros H. unfold upd. destruct (Z.eqb_spec q p); congruence. Qed.

Lemma upd_cong v w p o q : (forall q', v q' = w q') -> upd v p o q = upd w p o q.
Proof. intros H. unfold upd. by rewrite H. Qed.

Definition attach_view (get : process64_record -> Z) set (s : process_state) (p ctx : Z)
    : Z * (Z -> option process64_record) :=
  match proc s p with
  | Some r => if (ctx =? 0) || negb (get r =? 0) then (0, proc s)
              else (1, upd (proc s) p (Some (set ctx r)))
  | None => (0, proc s)
  end.

Definition detach_view (get : process64_record -> Z) (set : Z -> process64_record -> process64_record)
    (s : process_state) (p : Z) : Z * (Z -> option process64_record) :=
  match proc s p with
  | Some r => (get r, upd (proc s) p (Some (set 0 r)))
  | None => (0, proc s)
  end.

(** Case split on the lookup every call starts with. *)
Lemma find_cases {d e} s p (Q : option pref -> process_state -> Prop) :
  pinv_off d e s ->
  (proc s p = None -> Q None s) ->
  (forall ref r, points s ref r -> pid r = p -> proc s p = Some r -> Q (Some ref) s) ->
  wp (process64_find_mutable p) Q s.
Proof.
  intros Hi HN HS. eapply find_wp; [done|]. destruct (lookup p s) as [ref|] eqn:Hl.
  - destruct (lookup_sound s p ref Hl) as (r & Hr & Hp). apply (HS ref r); [done..|].
    apply (proc_points s p r Hi). eauto.
  - apply HN. unfold proc. by rewrite Hl.
Qed.

Lemma attach_wp (get : process64_record -> Z) set `{!ExtSlot get set} s p ctx :
  pinv s -> wp (attach_to get set p ctx)
    (shows (attach_view get set s p ctx).1 (attach_view get set s p ctx).2) s.
Proof.
  intros Hi. unfold attach_to, attach_view. wp_step. eapply find_cases; [done|intros ->; by wp_steps|].
  intros ref r Hr Hp Hproc. rewrite Hproc. do 2 wp_step. rewrite (points_record s ref r Hr).
  unfold process64_attach_slot.
  destruct ((ctx =? 0) || negb (get r =? 0)); wp_step;
    (eapply update_core_wp; [done|intros; apply slot_core|intros; apply slot_core|]);
    intros s' Hi' Hs'; wp_step; (split; [done|]); (split; [done|]); intros q.
  - rewrite (proc_update s ref r _ s' q Hi Hr (fun x => proj1 (slot_core _ x)) Hi' Hs').
    rewrite slot_set_get, Hp. by apply upd_same.
  - by rewrite (proc_update s ref r _ s' q Hi Hr (fun x => proj1 (slot_core _ x)) Hi' Hs'), Hp.
Qed.

Lemma detach_wp (get : process64_record -> Z) set `{!ExtSlot get set} s p :
  pinv s -> wp (detach_from get set p)
    (shows (detach_view get set s p).1 (detach_view get set s p).2) s.
Proof.
  intros Hi. unfold detach_from, detach_view. wp_step. eapply find_cases; [done|intros ->; by wp_steps|].
  intros ref r Hr Hp Hproc. rewrite Hproc. do 2 wp_step. rewrite (points_record s ref r Hr).
  unfold process64_detach_slot. wp_step.
  eapply update_core_wp; [done|intros; apply slot_core|intros; apply slot_core|].
  intros s' Hi' Hs'. wp_step. split; [done|]. split; [done|]. intros q.
  by rewrite (proc_update s ref r _ s' q Hi Hr (fun x => proj1 (slot_core _ x)) Hi' Hs'), Hp.
Qed.

(** Counters outside the invariant. *)
Lemma pinv_same {d e} s s' :
  pinv_off d e s -> g_processes s' = g_processes s ->
  g_process64_clone_records s' = g_process64_clone_records s ->
  g_process_init s' = g_process_init s -> g_process64_clone_count s' = g_process64_clone_count s ->
  g_process64_next_clone_pid s' = g_process64_next_clone_pid s -> pinv_off d e s'.
Proof.
  intros Hi Ep Ec Ei En Ex. eapply (pinv_core d s); try done; rewrite ?Ep, ?Ec;
    [apply table_core_refl..|].
  intros ref r r' Hr Hr'. replace r' with r; [done|].
  destruct ref; cbn in *; rewrite ?Ep, ?Ec in Hr'; [congruence|destruct Hr, Hr'; congruence].
Qed.

Definition attach_root_view (s : process_state) (p physical index token authority : Z)
    : Z * (Z -> option process64_record) :=
  match proc s p with
  | Some r =>
      if (physical =? 0) || (token =? 0) || (authority =? 0)
         || negb (page_root_physical r =? 0) || negb (page_root_token r =? 0)
      then (0, proc s)
      else (1, upd (proc s) p (Some (r <| page_root_physical := physical |>
              <| page_root_index := index |> <| page_root_token := token |>)))
  | None => (0, proc s)
  end.

Definition clear_root_view (s : process_state) (p token : Z) : Z * (Z -> option process64_record) :=
  match proc s p with
  | Some r =>
      if (token =? 0) || negb (page_root_token r =? token) then (0, proc s)
      else (1, upd (proc s) p (Some (r <| page_root_physical := 0 |>
              <| page_root_index := 0xFFFFFFFF |> <| page_root_token := 0 |>)))
  | None => (0, proc s)
  end.

Definition mark_exited_view (s : process_state) (p code : Z) : Z * (Z -> option process64_record) :=
  match proc s p with
  | Some r => if waitable r =? 0 then (0, proc s)
              else (1, upd (proc s) p (Some (r <| exited := 1 |> <| exit_code := code |>)))
  | None => (0, proc s)
  end.

Lemma deny_root_wp s : pinv s -> wp deny_page_root (shows 0 (proc s)) s.
Proof. intros Hi. unfold deny_page_root. wp_steps. split; [by eapply (pinv_same s)|done]. Qed.

(** An update of one record that keeps its core, then a counter. *)
Lemma update_shows s ref r f (m : PM Z) v :
  pinv s -> points s ref r -> (forall x, same_core x (f x) /\ child_count (f x) = child_count x) ->
  (forall s' : process_state, pinv s' -> wp m (fun res s'' => pinv s'' /\ res = v /\
     forall q, proc s'' q = proc s' q) s') ->
  wp (bind (update_record ref f) (fun _ => m)) (shows v (upd (proc s) (pid r) (Some (f r)))) s.
Proof.
  intros Hi Hr Hf Hm. wp_step. eapply update_core_wp; [done|intros; apply Hf..|].
  intros s' Hi' Hs'. eapply wp_mono; [by apply Hm|]. intros res s'' (? & ? & Hq).
  split; [done|]. split; [done|]. intros q. rewrite Hq.
  exact (proc_update s ref r f s' q Hi Hr (fun x => proj1 (Hf x)) Hi' Hs').
Qed.

Lemma attach_root_wp s p physical index token authority :
  pinv s -> wp (process64_attach_page_root p physical index token authority)
    (shows (attach_root_view s p physical index token authority).1
           (attach_root_view s p physical index token authority).2) s.
Proof.
  intros Hi. unfold process64_attach_page_root, attach_root_view. wp_step.
  eapply find_cases; [done|intros ->; by apply deny_root_wp|].
  intros ref r Hr Hp Hproc. rewrite Hproc. do 2 wp_step. rewrite (points_record s ref r Hr).
  destruct (_ || _); [by apply deny_root_wp|]. rewrite <- Hp.
  eapply wp_mono; [eapply (update_shows s ref r _ _ 1 Hi Hr)|by intros]; [done|].
  intros s' Hi'. wp_steps. split; [by eapply (pinv_same s')|done].
Qed.

Lemma clear_root_wp s p token :
  pinv s -> wp (process64_clear_page_root p token)
    (shows (clear_root_view s p token).1 (clear_root_view s p token).2) s.
Proof.
  intros Hi. unfold process64_clear_page_root, clear_root_view. wp_step.
  eapply find_cases; [done|intros ->; by apply deny_root_wp|].
  intros ref r Hr Hp Hproc. rewrite Hproc. do 2 wp_step. rewrite (points_record s ref r Hr).
  destruct (_ || _); [by apply deny_root_wp|]. rewrite <- Hp.
  eapply wp_mono; [eapply (update_shows s ref r _ _ 1 Hi Hr)|by intros]; [done|].
  intros s' Hi'. wp_steps. split; [by eapply (pinv_same s')|done].
Qed.

Lemma mark_exited_wp s p code :
  pinv s -> wp (process64_mark_child_exited p code)
    (shows (mark_exited_view s p code).1 (mark_exited_view s p code).2) s.
Proof.
  intros Hi. unfold process64_mark_child_exited, mark_exited_view. wp_step.
  eapply find_cases; [done|intros ->; by wp_steps|].
  intros ref r Hr Hp Hproc. rewrite Hproc. do 2 wp_step. rewrite (points_record s ref r Hr).
  destruct (waitable r =? 0); [by wp_steps|]. rewrite <- Hp.
  eapply wp_mono; [eapply (update_shows s ref r _ _ 1 Hi Hr)|by intros]; [done|].
  intros s' Hi'. by wp_steps.
Qed.

(** Reading a field changes nothing. *)
Lemma read_field_wp {A} (dflt : A) f s p :
  pinv s -> wp (read_field dflt f p) (fun v s' => s' = s /\ v = from_option f dflt (proc s p)) s.
Proof.
  intros Hi. unfold read_field. wp_step. change (process64_find p) with (process64_find_mutable p).
  eapply find_cases; [done|intros ->; by wp_steps|].
  intros ref r Hr Hp ->. wp_step. by rewrite (points_record s ref r Hr).
Qed.

(** Settling the clone counter. *)
Lemma pinv_count_settle d e s s' :
  pinv_off d e s -> g_processes s' = g_processes s ->
  g_process64_clone_records s' = g_process64_clone_records s ->
  g_process_init s' = g_process_init s ->
  g_process64_clone_count s' = g_process64_clone_count s + e ->
  g_process64_next_clone_pid s' = g_process64_next_clone_pid s -> pinv_off d 0 s'.
Proof.
  intros [H1 H2 H3 H4 H5 H6 H7 H8 H9] Ep Ec Ei En Ex.
  split; rewrite ?Ep, ?Ec, ?Ei, ?En, ?Ex; try done; [lia|].
  intros ref r Hr. apply (H9 ref). destruct ref; cbn in *; by rewrite ?Ep, ?Ec in Hr.
Qed.

Lemma clone_count_bound {d e} s : pinv_off d e s -> 0 <= g_process64_clone_count s + e <= 16.
Proof.
  intros Hi. rewrite (p_count s Hi).
  pose proof (count_if_le process64_clone_record_active (g_process64_clone_records s)) as Hle.
  rewrite (p_clones s Hi) in Hle. unfold PROCESS64_CLONE_RECORD_LIMIT in *. lia.
Qed.

Lemma child_count_bound {d e} s ref r :
  pinv_off d e s -> points s ref r -> 0 <= child_count r + d (pid r) <= 16.
Proof.
  intros Hi Hr. rewrite (p_children s Hi ref r Hr).
  pose proof (count_if_le (child_of (pid r)) (g_process64_clone_records s)) as Hle.
  rewrite (p_clones s Hi) in Hle. unfold PROCESS64_CLONE_RECORD_LIMIT in *. lia.
Qed.

(** A free clone record exists exactly when fewer than 16 are live. *)
Lemma free_slot_spec s :
  pinv s ->
  match find_index (fun r => negb (process64_clone_record_active r)) (g_process64_clone_records s) with
  | Some i => g_process64_clone_count s < 16 /\ exists x, g_process64_clone_records s !! i = Some x /\
                process64_clone_record_active x = false
  | None => g_process64_clone_count s = 16
  end.
Proof.
  intros Hi. pose proof (p_count s Hi) as Hc. rewrite Z.add_0_r in Hc.
  pose proof (p_clones s Hi) as Hl. unfold PROCESS64_CLONE_RECORD_LIMIT in Hl.
  destruct (find_index _ _) as [i|] eqn:Hf.
  - apply find_index_lookup in Hf as (x & Hx & Ha). apply negb_true_iff in Ha.
    pose proof (count_if_lt _ _ i x Hx Ha). split; [lia|eauto].
  - rewrite Hc, count_if_all, Hl; [done|]. intros x Hx.
    pose proof (proj1 (find_index_None _ _) Hf x Hx) as Hn. by apply negb_false_iff in Hn.
Qed.

(** The processes once a clone record has been overwritten. *)
Lemma points_clone_set s s' i x c :
  g_process64_clone_records s !! i = Some x ->
  g_processes s' = g_processes s ->
  g_process64_clone_records s' = alter (fun _ => c) i (g_process64_clone_records s) ->
  forall ref r, points s' ref r <->
    (ref <> PClone i /\ points s ref r) \/ (ref = PClone i /\ r = c /\ active c).
Proof.
  intros Hx Ep Ec [j|j] r; cbn; rewrite ?Ep, ?Ec; [naive_solver|].
  rewrite list_lookup_alter. destruct (decide (i = j)) as [->|Hne].
  - rewrite Hx. cbn. split; [intros [[= <-] ?]; auto|]. intros [[? _]|(_ & -> & ?)]; [done|auto].
  - split; [intros [? ?]; left; split; [congruence|auto]|]. intros [[_ ?]|[? _]]; [done|congruence].
Qed.

Definition spawn_view (s : process_state) (ppid kind : Z) (nm : list Z)
    : Z * (Z -> option process64_record) :=
  match proc s ppid with
  | Some parent =>
      if (kind =? PROCESS64_CHILD_KIND_CLONE) || (kind =? PROCESS64_CHILD_KIND_FORK) then
        if g_process64_clone_count s <? 16 then
          let p := g_process64_next_clone_pid s in
          (p, upd (upd (proc s) p (Some (child_record p kind nm ppid parent)))
                ppid (Some (parent <| child_count := child_count parent + 1 |>)))
        else (PROCESS64_INVALID_PID, proc s)
      else (PROCESS64_INVALID_PID, proc s)
  | None => (PROCESS64_INVALID_PID, proc s)
  end.

Lemma identity_live s ref r : pinv s -> points s ref r ->
  (exists sd, sd ∈ g_process_seeds /\ identity_of sd r) /\
  pid r < g_process64_next_clone_pid s /\ principal_id r <> 0.
Proof.
  intros Hi Hr. pose proof (p_next s Hi) as Hn. unfold PROCESS64_CLONE_PID_BASE in *.
  assert (Hnz : forall sd, sd ∈ g_process_seeds -> identity_of sd r -> principal_id r <> 0).
  { intros sd (i & Hsd)%list_elem_of_lookup [-> _]. by apply seed_lookup_range in Hsd as [_ ?]. }
  destruct ref as [i|i]; cbn in Hr.
  - destruct (boot_seed s i r Hi Hr) as (sd & Hsd & Hp & Hid).
    pose proof (seed_lookup_range i sd Hsd) as [? _]. apply list_elem_of_lookup_2 in Hsd.
    split; [eauto|]. split; [lia|eauto].
  - destruct Hr as [Hr Ha]. destruct (p_range s Hi i r Hr Ha) as (? & ? & sd & Hsd & Hid).
    split; [eauto|]. split; [lia|eauto].
Qed.

(** Pids of the map after a clone record was overwritten with a live one. *)
Lemma proc_install {d e d' e'} s s' i x c q :
  pinv_off d e s -> pinv_off d' e' s' ->
  g_process64_clone_records s !! i = Some x -> process64_clone_record_active x = false ->
  g_processes s' = g_processes s ->
  g_process64_clone_records s' = alter (fun _ => c) i (g_process64_clone_records s) -> active c ->
  proc s' q = upd (proc s) (pid c) (Some c) q.
Proof.
  intros Hi Hi' Hx Hdead Ep Ec Ha. pose proof (points_clone_set s s' i x c Hx Ep Ec) as Hpts.
  assert (Hc : points s' (PClone i) c) by (apply Hpts; right; done).
  unfold upd. destruct (Z.eqb_spec q (pid c)) as [->|Hq]; [apply (proc_points s' _ _ Hi'); eauto|].
  eapply proc_ext; [done..|]. intros r Hr. split; intros (ref & Hp).
  - apply Hpts in Hp as [[_ Hp]|(_ & -> & _)]; [eauto|congruence].
  - exists ref. apply Hpts. left. split; [|done]. intros ->. cbn in Hp. destruct Hp. congruence.
Qed.

Lemma child_record_props p kind nm ppid parent :
  let c := child_record p kind nm ppid parent in
  pid c = p /\ parent_pid c = ppid /\ child_count c = 0 /\
  forall sd, identity_of sd parent -> identity_of sd c.
Proof. cbn. split_and!; [done..|]. by intros sd (-> & -> & ->). Qed.

(** The two table writes of a spawn. *)
Lemma spawn_tail_wp s ref parent i x c (Q : Z -> process_state -> Prop) :
  pinv s -> g_process64_next_clone_pid s + 1 < PROCESS64_INVALID_PID ->
  g_process64_clone_count s < 16 ->
  points s ref parent -> g_process64_clone_records s !! i = Some x ->
  process64_clone_record_active x = false ->
  pid c = g_process64_next_clone_pid s -> parent_pid c = pid parent -> child_count c = 0 ->
  (forall sd, identity_of sd parent -> identity_of sd c) ->
  (forall s', shows (pid c) (upd (upd (proc s) (pid c) (Some c)) (pid parent)
     (Some (parent <| child_count := child_count parent + 1 |>))) (pid c) s' -> Q (pid c) s') ->
  wp (bind (update_record (PClone i) (fun _ => c)) (fun _ =>
      bind (update_record ref (fun r => r <| child_count := inc32 (child_count r) |>)) (fun _ =>
      bind (modify (fun s => s <| g_process64_clone_count := inc32 (g_process64_clone_count s) |>))
        (fun _ => ret (pid c))))) Q (s <| g_process64_next_clone_pid := g_process64_next_clone_pid s + 1 |>).
Proof.
  intros Hi Hn Hcnt Hr Hx Hdead Hpid Hpar Hzero Hid HQ.
  destruct (identity_live s ref parent Hi Hr) as ((sd & Hsd & Hids) & Hlt & _).
  wp_step. cbn [update_record]. do 2 wp_step.
  match goal with |- wp _ _ ?s1 => set (s2 := s1) end.
  assert (Hi2 : pinv_off (fun q => 0 + at_pid (parent_pid c) q) (0 + 1) s2).
  { eapply (pinv_install _ _ s s2 i x c); eauto; [lia|by cbn]. }
  assert (Hact : active c).
  { unfold process64_clone_record_active. pose proof (p_next s Hi).
    unfold PROCESS64_CLONE_PID_BASE, PROCESS64_INVALID_PID in *. rewrite Hpid.
    apply andb_true_iff. split; apply negb_true_iff, Z.eqb_neq; lia. }
  assert (Hproc2 : forall q, proc s2 q = upd (proc s) (pid c) (Some c) q)
    by (intros; by eapply (proc_install s s2 i x c)).
  assert (Hr2 : points s2 ref parent).
  { apply (points_clone_set s s2 i x c Hx eq_refl eq_refl). left. split; [|done].
    intros ->. cbn in Hr. destruct Hr. congruence. }
  assert (Hinc : inc32 (child_count parent) = child_count parent + 1).
  { pose proof (child_count_bound s ref parent Hi Hr). apply inc32_small. unfold U32_MAX. lia. }
  eapply (bump_wp s2 ref parent 1); [done|done|done|cbn; by rewrite Hinc|].
  intros s3 Hi3 Hs3. do 3 wp_step. apply HQ.
  assert (Hc3 : g_process64_clone_count s3 = g_process64_clone_count s) by (subst s3; by destruct ref).
  split; [|split; [done|]].
  - eapply pinv_off_ext.
    + eapply (pinv_count_settle _ _ s3); [exact Hi3|done..| |done]. cbn. rewrite Hc3.
      pose proof (clone_count_bound s Hi). apply inc32_small. unfold U32_MAX. lia.
    + intros ref' r _. cbn beta. unfold at_pid. rewrite Hpar. destruct (pid r =? pid parent); cbn; lia.
  - intros q. change (proc _ q) with (proc s3 q).
    rewrite (proc_update s2 ref parent (fun r => r <| child_count := inc32 (child_count r) |>)
      s3 q Hi2 Hr2 ltac:(done) Hi3 Hs3), Hinc.
    by apply upd_cong.
Qed.

Lemma spawn_wp s ppid kind nm :
  pinv s -> g_process64_next_clone_pid s + 1 < PROCESS64_INVALID_PID ->
  wp (process64_spawn_child ppid kind nm)
    (shows (spawn_view s ppid kind nm).1 (spawn_view s ppid kind nm).2) s.
Proof.
  intros Hi Hn. unfold process64_spawn_child, spawn_view. wp_step.
  eapply find_cases; [done|intros ->; by wp_steps|].
  intros ref parent Hr Hp Hproc. rewrite Hproc. do 2 wp_step. rewrite (points_record s ref parent Hr).
  destruct (identity_live s ref parent Hi Hr) as (_ & _ & Hnz). rewrite (proj2 (Z.eqb_neq _ _) Hnz).
  rewrite orb_false_l, <- negb_orb.
  destruct ((kind =? _) || (kind =? _)); cbn [negb]; [|by wp_steps].
  do 2 wp_step. pose proof (free_slot_spec s Hi) as Hfree.
  destruct (find_index _ _) as [i|]; [|rewrite Hfree; by wp_steps].
  destruct Hfree as (Hcnt & x & Hx & Hdead). rewrite (proj2 (Z.ltb_lt _ _) Hcnt). cbn [fst snd].
  unfold take_clone_pid. do 5 wp_step.
  pose proof (p_next s Hi) as Hnext. unfold PROCESS64_CLONE_PID_BASE, PROCESS64_INVALID_PID in *.
  rewrite inc32_small by (unfold U32_MAX; lia).
  rewrite (proj2 (Z.eqb_neq _ _)), (proj2 (Z.ltb_ge _ _)) by lia. cbn [orb].
  destruct (child_record_props (g_process64_next_clone_pid s) kind nm ppid parent) as (E1 & E2 & E3 & E4).
  eapply (spawn_tail_wp s ref parent i x); try done.
  intros s' Hs'. rewrite Hp in Hs'. exact Hs'.
Qed.

(** The processes once a live clone record has been cleared. *)
Lemma proc_clear {d e d' e'} s s' i c q :
  pinv_off d e s -> pinv_off d' e' s' ->
  g_process64_clone_records s !! i = Some c -> active c ->
  g_processes s' = g_processes s ->
  g_process64_clone_records s' = alter (fun _ => process64_clear_record) i (g_process64_clone_records s) ->
  proc s' q = upd (proc s) (pid c) None q.
Proof.
  intros Hi Hi' Hc Ha Ep Ec. pose proof (points_clone_set s s' i c _ Hc Ep Ec) as Hpts.
  unfold upd. destruct (Z.eqb_spec q (pid c)) as [->|Hq].
  - destruct (proc s' (pid c)) as [r|] eqn:E; [|done]. exfalso.
    apply (proc_points s' _ _ Hi') in E as (ref & Hr & Hp).
    apply Hpts in Hr as [[Hne Hr]|(_ & _ & ?)]; [|done].
    apply Hne. by eapply (points_inj s ref (PClone i) r c).
  - eapply proc_ext; [done..|]. intros r Hr. split; intros (ref & Hp).
    + apply Hpts in Hp as [[_ Hp]|(_ & _ & ?)]; [eauto|done].
    + exists ref. apply Hpts. left. split; [|done]. intros ->. apply points_record in Hp.
      cbn in Hp. rewrite Hc in Hp. cbn in Hp. congruence.
Qed.

(** Clearing the record and settling the clone counter. *)
Lemma release_tail_wp d s i c (Q : Z -> process_state -> Prop) :
  pinv_off d 0 s -> g_process64_clone_records s !! i = Some c -> active c ->
  (forall ref r, points s ref r -> d (pid r) = at_pid (parent_pid c) (pid r)) ->
  (forall s', shows 1 (upd (proc s) (pid c) None) 1 s' -> Q 1 s') ->
  wp (bind (update_record (PClone i) (fun _ => process64_clear_record)) (fun _ =>
      bind (modify (fun s => if negb (g_process64_clone_count s =? 0)
              then s <| g_process64_clone_count := dec32 (g_process64_clone_count s) |> else s))
        (fun _ => ret 1))) Q s.
Proof.
  intros Hi Hc Ha Hd HQ. wp_step. cbn [update_record]. do 2 wp_step.
  match goal with |- wp _ _ ?s1 => set (s2 := s1) end.
  assert (Hi2 : pinv_off (fun q => d q - at_pid (parent_pid c) q) (0 - 1) s2)
    by (eapply (pinv_clear _ _ s s2 i c); eauto; done).
  assert (Hpos : 0 < g_process64_clone_count s <= 16).
  { pose proof (clone_count_bound s Hi). pose proof (p_count s Hi) as Hcnt.
    pose proof (count_if_pos _ _ i c Hc Ha). lia. }
  do 2 wp_step. change (g_process64_clone_count s2) with (g_process64_clone_count s).
  rewrite (proj2 (Z.eqb_neq _ _)) by lia. cbn [negb].
  assert (Hdec : dec32 (g_process64_clone_count s) = g_process64_clone_count s - 1).
  { apply wrap32_small. unfold fits32. lia. }
  apply HQ. split; [|split; [done|]].
  - eapply pinv_off_ext; [eapply (pinv_count_settle _ _ s2); [exact Hi2|done..| |done]|].
    + cbn. rewrite Hdec. lia.
    + intros ref r Hr. cbn beta.
      assert (points s ref r) as Hr'.
      { apply (points_clone_set s s2 i c process64_clear_record Hc eq_refl eq_refl) in Hr
          as [[_ ?]|(_ & _ & ?)]; done. }
      rewrite (Hd ref r Hr'). lia.
  - intros q. change (proc _ q) with (proc s2 q). by eapply (proc_clear s s2 i c).
Qed.

Definition release_view (s : process_state) (p : Z) : Z * (Z -> option process64_record) :=
  match proc s p with
  | Some c =>
      if PROCESS64_CLONE_PID_BASE <=? p then
        (1, upd (match proc s (parent_pid c) with
                 | Some pr => upd (proc s) (parent_pid c)
                                (Some (pr <| child_count := child_count pr - 1 |>))
                 | None => proc s
                 end) p None)
      else (0, proc s)
  | None => (0, proc s)
  end.

(** The clone-table search of a release finds exactly the live clones. *)
Lemma clone_search s p :
  pinv s ->
  match find_index (clone_with p) (g_process64_clone_records s) with
  | Some i => exists c, g_process64_clone_records s !! i = Some c /\ active c /\ pid c = p /\
                proc s p = Some c /\ PROCESS64_CLONE_PID_BASE <= p
  | None => proc s p = None \/ p < PROCESS64_CLONE_PID_BASE
  end.
Proof.
  intros Hi. destruct (find_index _ _) as [i|] eqn:Hf.
  - apply find_index_lookup in Hf as (c & Hc & Hw). unfold clone_with in Hw.
    apply andb_true_iff in Hw as [Ha Hp%Z.eqb_eq]. exists c. split_and!; try done.
    + apply (proc_points s p c Hi). by exists (PClone i).
    + destruct (p_range s Hi i c Hc Ha). lia.
  - destruct (proc s p) as [r|] eqn:E; [right|by left].
    apply (proc_points s p r Hi) in E as ([i|i] & Hr & Hp); cbn in Hr.
    + destruct (boot_seed s i r Hi Hr) as (sd & Hsd & ? & _). apply seed_lookup_range in Hsd as [? _].
      unfold PROCESS64_CLONE_PID_BASE. lia.
    + destruct Hr as [Hr Ha]. apply list_elem_of_lookup_2 in Hr.
      pose proof (proj1 (find_index_None _ _) Hf r Hr) as Hn. unfold clone_with in Hn.
      by rewrite Ha, Hp, Z.eqb_refl in Hn.
Qed.

Lemma release_wp s p :
  pinv s -> wp (process64_release_clone p) (shows (release_view s p).1 (release_view s p).2) s.
Proof.
  intros Hi. unfold process64_release_clone, release_view. wp_step. eapply ensure_init_wp; [done|].
  do 2 wp_step. pose proof (clone_search s p Hi) as Hs.
  destruct (find_index _ _) as [i|].
  2:{ wp_step. destruct Hs as [->|Hlt]; [done|]. destruct (proc s p); [|done].
      by rewrite (proj2 (Z.leb_gt _ _)). }
  destruct Hs as (c & Hc & Ha & Hp & Hproc & Hb). rewrite Hproc, (proj2 (Z.leb_le _ _)) by done.
  do 2 wp_step. assert (Hcp : points s (PClone i) c) by done. rewrite (points_record _ _ _ Hcp).
  wp_step. eapply find_cases; [done| |].
  - intros Hnone. rewrite Hnone. do 2 wp_step. subst p.
    eapply (release_tail_wp (fun _ => 0) s i c); try done. intros ref r Hr.
    unfold at_pid. destruct (Z.eqb_spec (pid r) (parent_pid c)) as [E|]; [|done].
    assert (proc s (parent_pid c) = Some r) by (apply (proc_points s _ r Hi); eauto). congruence.
  - intros ref pr Hr Hpp Hpr. rewrite Hpr. do 3 wp_step. rewrite (points_record s ref pr Hr).
    assert (Hpos : 0 < child_count pr <= 16).
    { pose proof (child_count_bound s ref pr Hi Hr). pose proof (p_children s Hi ref pr Hr) as Hch.
      assert (0 < count_if (child_of (pid pr)) (g_process64_clone_records s))%nat; [|lia].
      apply (count_if_pos _ _ i c Hc). unfold child_of. by rewrite Ha, Hpp, Z.eqb_refl. }
    rewrite (proj2 (Z.eqb_neq _ _)) by lia. cbn [negb].
    assert (Hdec : dec32 (child_count pr) = child_count pr - 1).
    { apply wrap32_small. unfold fits32. lia. }
    eapply (bump_wp s ref pr (-1)); [done|done|done|cbn; rewrite Hdec; lia|].
    intros s2 Hi2 Hs2. destruct (p_range s Hi i c Hc Ha) as (_ & Hlt & _).
    assert (Hc2 : points s2 (PClone i) c).
    { apply (points_update s ref (fun r => r <| child_count := dec32 (child_count r) |>) s2
        ltac:(done) Hs2). exists c. split; [done|]. rewrite bool_decide_false; [done|].
      intros <-. assert (c = pr) by (apply points_record in Hr, Hcp; congruence). subst. lia. }
    subst p. eapply (release_tail_wp _ s2 i c); [exact Hi2|apply Hc2|done| |].
    + intros ref' r _. cbn beta. unfold at_pid. rewrite Hpp. destruct (pid r =? parent_pid c); done.
    + intros s' (Hi' & _ & Hq). split; [done|]. split; [done|]. intros q. rewrite Hq.
      apply upd_cong. intros q'.
      by rewrite (proc_update s ref pr (fun r => r <| child_count := dec32 (child_count r) |>)
        s2 q' Hi Hr ltac:(done) Hi2 Hs2), Hdec, Hpp.
Qed.

End facts.
End ProcFacts.
