(* ===== verification/ProcessTheorems.v ===== *)
(** * Theorems of the process table *)

From Stdlib Require Import String.
From S2P Require Import Prelude Principal Services64 Process ProcessFacts.
Import Principal Services64 Process ProcFacts.
Local Open Scope Z_scope.

Module ProcTheorems.

Implicit Types (s : process_state) (r c : process64_record).

(** ** Calls and runs *)

Inductive slot_kind := SVma | SFd | SPersona | SAudit.

Definition slot_of (k : slot_kind) : process64_record -> Z :=
  match k with SVma => vma_root | SFd => fd_table | SPersona => persona_ctx | SAudit => audit_ctx end.
Definition set_slot (k : slot_kind) (v : Z) (r : process64_record) : process64_record :=
  match k with
  | SVma => r <| vma_root := v |>
  | SFd => r <| fd_table := v |>
  | SPersona => r <| persona_ctx := v |>
  | SAudit => r <| audit_ctx := v |>
  end.

#[export] Instance kind_slot k : ExtSlot (slot_of k) (set_slot k).
Proof. destruct k; [exact vma_slot|exact fd_slot|exact persona_slot|exact audit_slot]. Qed.

Inductive proc_op :=
| PAttach (k : slot_kind) (p ctx : Z)
| PDetach (k : slot_kind) (p : Z)
| PAttachRoot (p physical index token authority : Z)
| PClearRoot (p token : Z)
| PSpawnClone (p : Z)
| PSpawnFork (p : Z)
| PMarkExited (p code : Z)
| PRelease (p : Z)
| PPrincipal (p : Z).

Section with_launch.
Context {launch : LaunchEnv}.

Definition run_proc (o : proc_op) : PM Z :=
  match o with
  | PAttach SVma p ctx => process64_attach_vma p ctx
  | PAttach SFd p ctx => process64_attach_fd p ctx
  | PAttach SPersona p ctx => process64_attach_persona p ctx
  | PAttach SAudit p ctx => process64_attach_audit p ctx
  | PDetach SVma p => process64_detach_vma p
  | PDetach SFd p => process64_detach_fd p
  | PDetach SPersona p => process64_detach_persona p
  | PDetach SAudit p => process64_detach_audit p
  | PAttachRoot p physical index token authority =>
      process64_attach_page_root p physical index token authority
  | PClearRoot p token => process64_clear_page_root p token
  | PSpawnClone p => process64_spawn_clone p
  | PSpawnFork p => process64_spawn_fork p
  | PMarkExited p code => process64_mark_child_exited p code
  | PRelease p => process64_release_clone p
  | PPrincipal p => process64_principal p
  end.

(** The same call on the map of processes. *)
Definition proc_view (s : process_state) (o : proc_op) : Z * (Z -> option process64_record) :=
  match o with
  | PAttach k p ctx => attach_view (slot_of k) (set_slot k) s p ctx
  | PDetach k p => detach_view (slot_of k) (set_slot k) s p
  | PAttachRoot p physical index token authority =>
      attach_root_view s p physical index token authority
  | PClearRoot p token => clear_root_view s p token
  | PSpawnClone p => spawn_view s p PROCESS64_CHILD_KIND_CLONE (bytes_of "linux-thread")
  | PSpawnFork p => spawn_view s p PROCESS64_CHILD_KIND_FORK (bytes_of "linux-fork")
  | PMarkExited p code => mark_exited_view s p code
  | PRelease p => release_view s p
  | PPrincipal p => (from_option principal_id 0 (proc s p), proc s)
  end.

(** States reached from power on by any calls, as long as the clone pid
    counter has not run through its 32-bit range. *)
Inductive preach : process_state -> Prop :=
| preach_init : preach (snd (process64_init power_on))
| preach_step s o :
    preach s -> g_process64_next_clone_pid s + 1 < PROCESS64_INVALID_PID ->
    preach (snd (run_proc o s)).

Lemma attach_any_wp k s p ctx :
  pinv s -> wp (run_proc (PAttach k p ctx)) (shows (proc_view s (PAttach k p ctx)).1
                                                   (proc_view s (PAttach k p ctx)).2) s.
Proof.
  intros Hi. destruct k.
  - exact (@attach_wp launch _ _ vma_slot s p ctx Hi).
  - exact (@attach_wp launch _ _ fd_slot s p ctx Hi).
  - exact (@attach_wp launch _ _ persona_slot s p ctx Hi).
  - exact (@attach_wp launch _ _ audit_slot s p ctx Hi).
Qed.

Lemma detach_any_wp k s p :
  pinv s -> wp (run_proc (PDetach k p)) (shows (proc_view s (PDetach k p)).1
                                               (proc_view s (PDetach k p)).2) s.
Proof.
  intros Hi. destruct k.
  - exact (@detach_wp launch _ _ vma_slot s p Hi).
  - exact (@detach_wp launch _ _ fd_slot s p Hi).
  - exact (@detach_wp launch _ _ persona_slot s p Hi).
  - exact (@detach_wp launch _ _ audit_slot s p Hi).
Qed.

Lemma run_proc_wp o s :
  pinv s -> g_process64_next_clone_pid s + 1 < PROCESS64_INVALID_PID ->
  wp (run_proc o) (shows (proc_view s o).1 (proc_view s o).2) s.
Proof.
  intros Hi Hn. destruct o.
  - by apply attach_any_wp.
  - by apply detach_any_wp.
  - exact (attach_root_wp s _ _ _ _ _ Hi).
  - exact (clear_root_wp s _ _ Hi).
  - exact (spawn_wp s _ _ _ Hi Hn).
  - exact (spawn_wp s _ _ _ Hi Hn).
  - exact (mark_exited_wp s _ _ Hi).
  - exact (release_wp s _ Hi).
  - eapply wp_mono; [exact (read_field_wp 0 principal_id s p Hi)|]. intros v s' [-> ->]. done.
Qed.

Lemma preach_inv s : preach s -> pinv s.
Proof.
  induction 1 as [|s o Hs IH Hn]; [exact (proj1 process_init_wp)|].
  by destruct (run_proc_wp o s IH Hn) as [? _].
Qed.

(** ** Theorems *)

(** C6: every call of the process table returns the result of the same call on
    a map from pids to records and leaves the table that shows its new map:
    attach/detach, page roots, clone and fork, exit marks and release touch
    exactly the records they name. *)
Theorem process_calls_refine_map s o :
  preach s -> g_process64_next_clone_pid s + 1 < PROCESS64_INVALID_PID ->
  let (res, s') := run_proc o s in
  let (v, view) := proc_view s o in
  res = v /\ forall q, proc s' q = view q.
Proof.
  intros Hr Hn. pose proof (run_proc_wp o s (preach_inv s Hr) Hn) as H. unfold wp in H.
  destruct (run_proc o s) as [res s'], (proc_view s o) as [v view]. by destruct H as (_ & ? & ?).
Qed.

(** in every reachable table the seven boot processes keep their pid,
    principal, class and capability limit; every live clone runs as one of
    them; no two live records share a pid; and the clone counter and every
    child counter equal the number of live clones they count. *)
Theorem process_table_consistent s :
  preach s ->
  (forall i sd, g_process_seeds !! i = Some sd ->
     exists r, g_processes s !! i = Some r /\ proc s (sd_pid sd) = Some r /\ identity_of sd r) /\
  (forall p r, proc s p = Some r -> pid r = p /\ exists sd, sd ∈ g_process_seeds /\ identity_of sd r) /\
  (forall ref1 ref2 r1 r2, points s ref1 r1 -> points s ref2 r2 -> pid r1 = pid r2 -> ref1 = ref2) /\
  g_process64_clone_count s =
    Z.of_nat (count_if process64_clone_record_active (g_process64_clone_records s)) /\
  (forall p r, proc s p = Some r ->
     child_count r = Z.of_nat (count_if (child_of p) (g_process64_clone_records s))).
Proof.
  intros Hr. pose proof (preach_inv s Hr) as Hi. split; [|split; [|split; [|split]]].
  - intros i sd Hsd. destruct (lookup_lt_is_Some_2 (g_processes s) i) as [r Hri].
    { apply lookup_lt_Some in Hsd. by rewrite (p_boot s Hi). }
    destruct (p_seeds s Hi i r sd Hri Hsd) as [Hp Hid]. exists r. split_and!; try done; [|apply Hid..].
    apply (proc_points s _ r Hi). by exists (PSeed i).
  - intros p r Hp. apply (proc_points s p r Hi) in Hp as (ref & Hpt & Hpid). split; [done|].
    by destruct (identity_live s ref r Hi Hpt) as [? _].
  - intros. by eapply points_inj.
  - pose proof (p_count s Hi). lia.
  - intros p r Hp. apply (proc_points s p r Hi) in Hp as (ref & Hpt & <-).
    pose proof (p_children s Hi ref r Hpt). cbn beta in *. lia.
Qed.

(** clone and fork succeed exactly for a live parent while fewer than 16
    clones are live; the child gets a pid no live process has, the parent's
    principal and limits, and none of its address space, descriptors,
    persona or audit attachments. *)
Theorem process_fork_outcome s p :
  preach s -> g_process64_next_clone_pid s + 1 < PROCESS64_INVALID_PID ->
  let (cp, s') := process64_spawn_fork p s in
  match proc s p with
  | Some parent =>
      if g_process64_clone_count s <? 16 then
        proc s cp = None /\ exists c, proc s' cp = Some c /\
        principal_id c = principal_id parent /\ capability_limit c = capability_limit parent /\
        scheduler_class c = scheduler_class parent /\ parent_pid c = p /\
        vma_root c = 0 /\ fd_table c = 0 /\ persona_ctx c = 0 /\ audit_ctx c = 0 /\
        page_root_token c = 0 /\ (forall q, q <> p -> q <> cp -> proc s' q = proc s q)
      else cp = PROCESS64_INVALID_PID /\ forall q, proc s' q = proc s q
  | None => cp = PROCESS64_INVALID_PID /\ forall q, proc s' q = proc s q
  end.
Proof.
  intros Hr Hn. pose proof (preach_inv s Hr) as Hi.
  pose proof (run_proc_wp (PSpawnFork p) s Hi Hn) as H. unfold wp in H. cbn [run_proc proc_view] in H.
  destruct (process64_spawn_fork p s) as [cp s']. unfold spawn_view in H. cbn [fst snd] in H.
  destruct (proc s p) as [parent|] eqn:Hp; [|by destruct H as (_ & ? & ?)].
  cbn [orb Z.eqb PROCESS64_CHILD_KIND_CLONE PROCESS64_CHILD_KIND_FORK Pos.eqb] in H.
  destruct (g_process64_clone_count s <? 16); cbn [fst snd] in H; destruct H as (_ & -> & Hq); [|done].
  assert (Hfresh : proc s (g_process64_next_clone_pid s) = None).
  { destruct (proc s (g_process64_next_clone_pid s)) as [x|] eqn:E; [|done].
    apply (proc_points s _ x Hi) in E as (ref & Hx & Hpx).
    destruct (identity_live s ref x Hi Hx) as (_ & ? & _). lia. }
  split; [done|]. assert (Hne : g_process64_next_clone_pid s <> p) by congruence.
  eexists. split; [rewrite Hq; unfold upd; rewrite (proj2 (Z.eqb_neq _ _) Hne), Z.eqb_refl; done|].
  split_and!; try done. intros q Hq1 Hq2. rewrite Hq. unfold upd.
  by rewrite (proj2 (Z.eqb_neq _ _) Hq1), (proj2 (Z.eqb_neq _ _) Hq2).
Qed.

(** releasing a clone or fork child right after it was made gives back the
    very map of processes there was before it. *)
Theorem process_fork_release_roundtrip s p parent :
  preach s -> g_process64_next_clone_pid s + 2 < PROCESS64_INVALID_PID ->
  proc s p = Some parent -> g_process64_clone_count s < 16 ->
  let (cp, s1) := process64_spawn_fork p s in
  let (ok, s2) := process64_release_clone cp s1 in
  ok = 1 /\ forall q, proc s2 q = proc s q.
Proof.
  intros Hr Hn Hp Hc. pose proof (preach_inv s Hr) as Hi.
  assert (Hn1 : g_process64_next_clone_pid s + 1 < PROCESS64_INVALID_PID) by lia.
  destruct (run_proc_wp (PSpawnFork p) s Hi Hn1) as (Hi1 & E1 & V1).
  cbn [run_proc proc_view] in Hi1, E1, V1. destruct (process64_spawn_fork p s) as [cp s1].
  cbn [fst snd] in *. unfold spawn_view in E1, V1. rewrite Hp, (proj2 (Z.ltb_lt _ _) Hc) in E1, V1.
  cbn [orb Z.eqb PROCESS64_CHILD_KIND_CLONE PROCESS64_CHILD_KIND_FORK Pos.eqb fst snd] in E1, V1.
  apply (proc_points s p parent Hi) in Hp as Hpt. destruct Hpt as (ref & Hpt & Hpid).
  destruct (identity_live s ref parent Hi Hpt) as (_ & Hlt & _).
  pose proof (p_next s Hi) as [Hb _].
  assert (Hne : (cp =? p) = false) by (apply Z.eqb_neq; lia).
  assert (Hne' : (p =? cp) = false) by (apply Z.eqb_neq; lia).
  destruct (release_wp s1 cp Hi1) as (_ & E2 & V2).
  destruct (process64_release_clone cp s1) as [ok s2]. cbn [fst snd] in *.
  unfold release_view in E2, V2. rewrite V1 in E2, V2. unfold upd at 1 in E2. unfold upd at 1 in V2.
  rewrite E1 in *. rewrite Hne in E2, V2. unfold upd at 1 in E2. unfold upd at 1 in V2.
  rewrite Z.eqb_refl, (proj2 (Z.leb_le _ _) Hb) in E2, V2. cbn [fst snd child_record parent_pid setter] in E2, V2.
  split; [done|]. intros q. rewrite V2. unfold upd at 1.
  destruct (Z.eqb_spec q (g_process64_next_clone_pid s)) as [->|Hq].
  { destruct (proc s (g_process64_next_clone_pid s)) as [x|] eqn:E; [|done].
    apply (proc_points s _ x Hi) in E as (ref' & Hx & Hpx).
    destruct (identity_live s ref' x Hi Hx) as (_ & ? & _). lia. }
  rewrite V1. unfold upd at 1. rewrite Z.eqb_refl. unfold upd.
  destruct (Z.eqb_spec q p) as [->|Hqp].
  - rewrite Hp. f_equal. destruct parent; cbn. f_equal; lia.
  - rewrite V1. unfold upd. by rewrite (proj2 (Z.eqb_neq _ _) Hqp), (proj2 (Z.eqb_neq _ _) Hq).
Qed.

(** an extension slot holds one attachment: attaching a context to a
    process with an empty slot succeeds, a second attach is refused, and the
    detach that follows returns that context and restores the process map. *)
Theorem process_slot_roundtrip s k p ctx other r :
  preach s -> g_process64_next_clone_pid s + 1 < PROCESS64_INVALID_PID ->
  proc s p = Some r -> slot_of k r = 0 -> ctx <> 0 ->
  let (ok, s1) := run_proc (PAttach k p ctx) s in
  let (again, s2) := run_proc (PAttach k p other) s1 in
  let (back, s3) := run_proc (PDetach k p) s2 in
  ok = 1 /\ again = 0 /\ back = ctx /\ forall q, proc s3 q = proc s q.
Proof.
  intros Hr Hn Hp Hempty Hctx. pose proof (preach_inv s Hr) as Hi.
  apply Z.eqb_neq in Hctx.
  destruct (attach_any_wp k s p ctx Hi) as (Hi1 & E1 & V1).
  destruct (run_proc (PAttach k p ctx) s) as [ok s1]. cbn [fst snd proc_view] in *.
  unfold attach_view in E1, V1. rewrite Hp, Hempty, Hctx in E1, V1. cbn [orb negb Z.eqb fst snd] in E1, V1.
  assert (Hp1 : proc s1 p = Some (set_slot k ctx r)) by (rewrite V1; unfold upd; by rewrite Z.eqb_refl).
  destruct (attach_any_wp k s1 p other Hi1) as (Hi2 & E2 & V2).
  destruct (run_proc (PAttach k p other) s1) as [again s2]. cbn [fst snd proc_view] in *.
  unfold attach_view in E2, V2. rewrite Hp1, slot_get_set, Hctx in E2, V2.
  cbn [negb] in E2, V2. rewrite orb_true_r in E2, V2. cbn [fst snd] in E2, V2.
  destruct (detach_any_wp k s2 p Hi2) as (_ & E3 & V3).
  destruct (run_proc (PDetach k p) s2) as [back s3]. cbn [fst snd proc_view] in *.
  unfold detach_view in E3, V3. rewrite V2, Hp1 in E3, V3. cbn [fst snd] in E3, V3.
  rewrite slot_get_set in E3. split_and!; [done..|]. intros q. rewrite V3. unfold upd.
  destruct (Z.eqb_spec q p) as [->|Hq].
  - rewrite Hp. f_equal. rewrite <- (slot_set_get (set := set_slot k) r) at 2. rewrite Hempty. by destruct k.
  - rewrite V2, V1. unfold upd. by rewrite (proj2 (Z.eqb_neq _ _) Hq).
Qed.

(** a page root is guarded by its token: while one is attached no second
    root can be attached, and only its own token clears it. *)
Theorem process_page_root_guarded s p r physical index token authority token' :
  preach s -> g_process64_next_clone_pid s + 1 < PROCESS64_INVALID_PID ->
  proc s p = Some r -> page_root_token r <> 0 -> token' <> page_root_token r ->
  let (a, s1) := process64_attach_page_root p physical index token authority s in
  let (b, s2) := process64_clear_page_root p token' s1 in
  let (c, s3) := process64_clear_page_root p (page_root_token r) s2 in
  a = 0 /\ b = 0 /\ c = 1 /\ (forall q, proc s2 q = proc s q) /\
  exists r', proc s3 p = Some r' /\ page_root_physical r' = 0 /\ page_root_token r' = 0.
Proof.
  intros Hr Hn Hp Htok Hother. pose proof (preach_inv s Hr) as Hi. apply Z.eqb_neq in Htok, Hother.
  destruct (attach_root_wp s p physical index token authority Hi) as (Hi1 & E1 & V1).
  destruct (process64_attach_page_root p physical index token authority s) as [a s1]. cbn [fst snd] in *.
  unfold attach_root_view in E1, V1. rewrite Hp, Htok in E1, V1. cbn [negb] in E1, V1.
  rewrite orb_true_r in E1, V1. cbn [fst snd] in E1, V1.
  destruct (clear_root_wp s1 p token' Hi1) as (Hi2 & E2 & V2).
  destruct (process64_clear_page_root p token' s1) as [b s2]. cbn [fst snd] in *.
  unfold clear_root_view in E2, V2. rewrite V1, Hp, (Z.eqb_sym _ token'), Hother in E2, V2. cbn [negb] in E2, V2.
  rewrite orb_true_r in E2, V2. cbn [fst snd] in E2, V2.
  destruct (clear_root_wp s2 p (page_root_token r) Hi2) as (_ & E3 & V3).
  destruct (process64_clear_page_root p (page_root_token r) s2) as [c s3]. cbn [fst snd] in *.
  unfold clear_root_view in E3, V3. rewrite V2, V1, Hp, Htok, Z.eqb_refl in E3, V3. cbn [orb negb fst snd] in E3, V3.
  split_and!; [done..| |].
  - intros q. by rewrite V2.
  - eexists. rewrite V3. unfold upd. rewrite Z.eqb_refl. done.
Qed.

End with_launch.

(** ** Witnesses *)

(** A launcher that knows no manifests. *)
Definition demo_launch : LaunchEnv := {|
  launch64_manifest_by_process := fun _ => LAUNCH64_INVALID_MANIFEST;
  launch64_manifest_scheduler_class := fun _ => 0;
  launch64_manifest_capability_limit := fun _ => 0;
  launch64_manifest_package_id := fun _ => 0;
  launch64_manifest_executable_id := fun _ => 0;
  launch64_manifest_signer_id := fun _ => 0;
  launch64_manifest_token := fun _ => 0;
  launch64_request_service_start := fun _ _ _ _ _ _ _ => 0;
  launch64_manifest_runtime_generation := fun _ => 0;
  launch64_manifest_runtime_token := fun _ => 0;
  launch64_manifest_runtime_image_generation := fun _ => 0;
  launch64_manifest_runtime_image_token := fun _ => 0;
  launch64_manifest_runtime_image_base := fun _ => 0;
  launch64_manifest_runtime_image_entry := fun _ => 0;
  launch64_manifest_runtime_image_mapped_bytes := fun _ => 0;
  launch64_manifest_runtime_image_rights := fun _ => 0;
  launch64_manifest_runtime_image_plan_token := fun _ => 0;
  launch64_manifest_runtime_image_map_token := fun _ => 0;
  launch64_manifest_runtime_image_page_count := fun _ => 0;
  launch64_manifest_runtime_image_pml4_index := fun _ => 0;
  launch64_manifest_runtime_image_pdpt_index := fun _ => 0;
  launch64_manifest_runtime_image_pd_index := fun _ => 0;
  launch64_manifest_runtime_entry_transfer_token := fun _ => 0;
  launch64_manifest_runtime_image_install_token := fun _ => 0;
  launch64_manifest_runtime_image_source_checksum := fun _ => 0;
  launch64_manifest_runtime_image_entry_probe := fun _ => 0;
  launch64_manifest_runtime_image_map_installed := fun _ => 0;
  launch64_manifest_runtime_image_protection_flags := fun _ => 0;
  launch64_manifest_runtime_image_protection_token := fun _ => 0;
  launch64_manifest_runtime_user_entry_state := fun _ => 0;
  launch64_manifest_runtime_user_entry_token := fun _ => 0;
  launch64_manifest_runtime_user_entry_rip := fun _ => 0;
  launch64_manifest_runtime_user_entry_rsp := fun _ => 0;
  launch64_manifest_runtime_user_entry_selectors := fun _ => 0;
  launch64_manifest_runtime_user_entry_rflags := fun _ => 0;
  launch64_manifest_runtime_user_entry_denial := fun _ => 0;
  launch64_manifest_runtime_payload_offset := fun _ => 0;
  launch64_manifest_runtime_payload_size := fun _ => 0;
  launch64_manifest_runtime_payload_checksum := fun _ => 0;
|}.

Definition demo_table : process_state := snd (@process64_init demo_launch power_on).
Definition demo_rooted : process_state :=
  snd (@run_proc demo_launch (PAttachRoot 4 0x200000 1 77 5) demo_table).

Lemma demo_table_reached : @preach demo_launch demo_table.
Proof. exact preach_init. Qed.

Lemma demo_rooted_reached : @preach demo_launch demo_rooted.
Proof. exact (preach_step _ _ demo_table_reached eq_refl). Qed.

Lemma process_calls_refine_map_witness :
  proc (snd (@run_proc demo_launch (PSpawnFork 4) demo_table)) 0x2000
  = (proc_view demo_table (PSpawnFork 4)).2 0x2000.
Proof.
  pose proof (@process_calls_refine_map demo_launch demo_table (PSpawnFork 4) demo_table_reached eq_refl) as H.
  destruct (run_proc (PSpawnFork 4) demo_table) as [res s'].
  destruct (proc_view demo_table (PSpawnFork 4)) as [v view]. destruct H as [_ H]. exact (H 0x2000).
Defined.

Lemma process_table_consistent_witness :
  g_process64_clone_count demo_rooted =
    Z.of_nat (count_if process64_clone_record_active (g_process64_clone_records demo_rooted)).
Proof.
  destruct (@process_table_consistent demo_launch demo_rooted demo_rooted_reached) as (_ & _ & _ & H & _).
  exact H.
Defined.

(** The console process in the two demonstration tables. *)
Definition demo_console : process64_record := default zero_process (proc demo_table 4).
Definition demo_console_rooted : process64_record := default zero_process (proc demo_rooted 4).

Lemma demo_console_proc : proc demo_table 4 = Some demo_console.
Proof. vm_compute. done. Qed.
Lemma demo_console_rooted_proc : proc demo_rooted 4 = Some demo_console_rooted.
Proof. vm_compute. done. Qed.

Lemma process_fork_outcome_witness :
  exists cp c, proc (snd (@process64_spawn_fork demo_launch 4 demo_table)) cp = Some c /\
    principal_id c = PRINCIPAL64_ID_CONSOLE_WORKER.
Proof.
  pose proof (@process_fork_outcome demo_launch demo_table 4 demo_table_reached eq_refl) as H.
  destruct (process64_spawn_fork 4 demo_table) as [cp s']. rewrite demo_console_proc in H.
  destruct H as (_ & c & Hc & Hpr & _). exists cp, c. split; [exact Hc|]. rewrite Hpr.
  vm_compute. reflexivity.
Defined.

Lemma process_fork_release_roundtrip_witness :
  let (cp, s1) := @process64_spawn_fork demo_launch 4 demo_table in
  let (ok, s2) := @process64_release_clone demo_launch cp s1 in
  ok = 1 /\ forall q, proc s2 q = proc demo_table q.
Proof.
  exact (@process_fork_release_roundtrip demo_launch demo_table 4 demo_console demo_table_reached
    eq_refl demo_console_proc eq_refl).
Defined.

Lemma process_slot_roundtrip_witness :
  let (ok, s1) := @run_proc demo_launch (PAttach SFd 4 0x5000) demo_table in ok = 1.
Proof.
  pose proof (@process_slot_roundtrip demo_launch demo_table SFd 4 0x5000 0x6000 demo_console
    demo_table_reached eq_refl demo_console_proc eq_refl ltac:(done)) as H.
  destruct (run_proc (PAttach SFd 4 0x5000) demo_table) as [ok s1].
  destruct (run_proc (PAttach SFd 4 0x6000) s1) as [ok2 s2], (run_proc (PDetach SFd 4) s2) as [b s3].
  destruct H as [H _]. exact H.
Defined.

Lemma process_page_root_guarded_witness :
  fst (@process64_clear_page_root demo_launch 4 78
    (snd (@process64_attach_page_root demo_launch 4 0x300000 2 99 5 demo_rooted))) = 0.
Proof.
  pose proof (@process_page_root_guarded demo_launch demo_rooted 4 demo_console_rooted 0x300000 2 99 5 78
    demo_rooted_reached eq_refl demo_console_rooted_proc ltac:(vm_compute; done)
    ltac:(vm_compute; done)) as H.
  destruct (process64_attach_page_root 4 0x300000 2 99 5 demo_rooted) as [a s1]. cbn [snd].
  destruct (process64_clear_page_root 4 78 s1) as [b s2]. cbn [fst].
  destruct (process64_clear_page_root 4 (page_root_token demo_console_rooted) s2) as [c s3].
  destruct H as (_ & H & _). exact H.
Defined.

(** The pid counter one before its wrap, with the first clone still alive. *)
Definition demo_wrap : process_state :=
  (snd (@process64_spawn_fork demo_launch 4 demo_table))
    <| g_process64_next_clone_pid := 0xFFFFFFFE |>.

(** when the clone pid counter wraps it restarts at its base without
    looking for live clones: two live clones then carry the same pid, and a
    lookup only ever finds one of them. *)
Theorem process_pid_wrap_duplicates :
  let s1 := snd (@process64_spawn_fork demo_launch 4 demo_wrap) in
  let (p, s2) := @process64_spawn_fork demo_launch 5 s1 in
  p = 0x2000 /\ count_if (clone_with 0x2000) (g_process64_clone_records s2) = 2%nat /\
  principal_id <$> proc s2 0x2000 = Some PRINCIPAL64_ID_CONSOLE_WORKER.
Proof. vm_compute. done. Qed.

End ProcTheorems.
