(* ===== verification/AuditNames.v ===== *)
(** * Syscall names and operation classes of the audit ring

    The first half of kernel/arch/x86_64/persona_audit.c: the constants of
    persona_audit_x64.h and of the persona ABI headers, the name tables, the
    name tokens (an FNV hash) and the operation classes.  The ring itself is
    in PersonaAudit.v. *)

From Stdlib Require Import String Ascii.
From S2P Require Import Prelude Process.
Import Process.
Local Open Scope string_scope.
Local Open Scope Z_scope.

Module AuditNames.

Definition PERSONA_AUDIT64_RESULT_OK : Z := 0.
Definition PERSONA_AUDIT64_RESULT_DENY : Z := 1.
Definition PERSONA_AUDIT64_RESULT_ENOSYS : Z := 38.
Definition PERSONA_AUDIT64_EVENT_FORMAT_REJECTED : Z := 1.
Definition PERSONA_AUDIT64_EVENT_SYSCALL_UNIMPLEMENTED : Z := 2.
Definition PERSONA_AUDIT64_EVENT_SYSCALL_TRANSLATED : Z := 3.
Definition PERSONA_AUDIT64_EVENT_CAPABILITY_DENIED : Z := 4.
Definition PERSONA_AUDIT64_EVENT_CRASH : Z := 5.
Definition PERSONA_AUDIT64_CRASH_VECTOR_DIVIDE : Z := 0.
Definition PERSONA_AUDIT64_CRASH_VECTOR_INVALID_OPCODE : Z := 6.
Definition PERSONA_AUDIT64_CRASH_VECTOR_PAGE_FAULT : Z := 14.
Definition PERSONA_AUDIT64_CRASH_SIGILL : Z := 4.
Definition PERSONA_AUDIT64_CRASH_SIGFPE : Z := 8.
Definition PERSONA_AUDIT64_CRASH_SIGSEGV : Z := 11.
Definition PERSONA_AUDIT64_CRASH_STATUS_ACCESS_VIOLATION : Z := 0xC0000005.
Definition PERSONA_AUDIT64_CRASH_STATUS_ILLEGAL_INSTRUCTION : Z := 0xC000001D.
Definition PERSONA_AUDIT64_CRASH_STATUS_INTEGER_DIVIDE_BY_ZERO : Z := 0xC0000094.
Definition PERSONA_AUDIT64_OP_NONE : Z := 0.
Definition PERSONA_AUDIT64_OP_FILE_IO : Z := 1.
Definition PERSONA_AUDIT64_OP_MEMORY : Z := 2.
Definition PERSONA_AUDIT64_OP_PROCESS : Z := 3.
Definition PERSONA_AUDIT64_OP_TIME : Z := 4.
Definition PERSONA_AUDIT64_OP_FD : Z := 5.
Definition PERSONA_AUDIT64_OP_IPC : Z := 6.
Definition PERSONA_AUDIT64_OP_SIGNAL : Z := 7.
Definition PERSONA_AUDIT64_OP_RANDOM : Z := 8.
Definition PERSONA_AUDIT64_OP_SCHEDULER : Z := 9.
Definition PERSONA_AUDIT64_OP_VFS : Z := 10.
Definition PERSONA_AUDIT64_OP_REGISTRY : Z := 11.
Definition PERSONA_AUDIT64_OP_NT_OBJECT : Z := 12.
Definition PERSONA_AUDIT64_OP_MACH_PORT : Z := 13.
Definition PERSONA_AUDIT64_OP_UNAVAILABLE : Z := 255.

Definition PERSONA64_TYPE_LIMITLESS_NATIVE : Z := 0.
Definition PERSONA64_TYPE_LINUX_ELF : Z := 1.
Definition PERSONA64_TYPE_WINDOWS_PE : Z := 2.
Definition PERSONA64_TYPE_MACOS_MACHO : Z := 3.
Definition PERSONA64_TYPE_COUNT : Z := 4.

Definition LINUX_ABI64_SYSCALL_READ : Z := 0.
Definition LINUX_ABI64_SYSCALL_WRITE : Z := 1.
Definition LINUX_ABI64_SYSCALL_OPEN : Z := 2.
Definition LINUX_ABI64_SYSCALL_CLOSE : Z := 3.
Definition LINUX_ABI64_SYSCALL_STAT : Z := 4.
Definition LINUX_ABI64_SYSCALL_FSTAT : Z := 5.
Definition LINUX_ABI64_SYSCALL_POLL : Z := 7.
Definition LINUX_ABI64_SYSCALL_LSEEK : Z := 8.
Definition LINUX_ABI64_SYSCALL_MMAP : Z := 9.
Definition LINUX_ABI64_SYSCALL_MPROTECT : Z := 10.
Definition LINUX_ABI64_SYSCALL_MUNMAP : Z := 11.
Definition LINUX_ABI64_SYSCALL_BRK : Z := 12.
Definition LINUX_ABI64_SYSCALL_RT_SIGACTION : Z := 13.
Definition LINUX_ABI64_SYSCALL_RT_SIGPROCMASK : Z := 14.
Definition LINUX_ABI64_SYSCALL_RT_SIGRETURN : Z := 15.
Definition LINUX_ABI64_SYSCALL_PREAD64 : Z := 17.
Definition LINUX_ABI64_SYSCALL_PWRITE64 : Z := 18.
Definition LINUX_ABI64_SYSCALL_READV : Z := 19.
Definition LINUX_ABI64_SYSCALL_WRITEV : Z := 20.
Definition LINUX_ABI64_SYSCALL_PIPE : Z := 22.
Definition LINUX_ABI64_SYSCALL_DUP : Z := 32.
Definition LINUX_ABI64_SYSCALL_DUP2 : Z := 33.
Definition LINUX_ABI64_SYSCALL_NANOSLEEP : Z := 35.
Definition LINUX_ABI64_SYSCALL_GETPID : Z := 39.
Definition LINUX_ABI64_SYSCALL_CLONE : Z := 56.
Definition LINUX_ABI64_SYSCALL_FORK : Z := 57.
Definition LINUX_ABI64_SYSCALL_EXECVE : Z := 59.
Definition LINUX_ABI64_SYSCALL_EXIT : Z := 60.
Definition LINUX_ABI64_SYSCALL_WAIT4 : Z := 61.
Definition LINUX_ABI64_SYSCALL_KILL : Z := 62.
Definition LINUX_ABI64_SYSCALL_FCNTL : Z := 72.
Definition LINUX_ABI64_SYSCALL_GETCWD : Z := 79.
Definition LINUX_ABI64_SYSCALL_CHDIR : Z := 80.
Definition LINUX_ABI64_SYSCALL_FCHDIR : Z := 81.
Definition LINUX_ABI64_SYSCALL_GETRLIMIT : Z := 97.
Definition LINUX_ABI64_SYSCALL_PRCTL : Z := 157.
Definition LINUX_ABI64_SYSCALL_ARCH_PRCTL : Z := 158.
Definition LINUX_ABI64_SYSCALL_SETRLIMIT : Z := 160.
Definition LINUX_ABI64_SYSCALL_GETTID : Z := 186.
Definition LINUX_ABI64_SYSCALL_TKILL : Z := 200.
Definition LINUX_ABI64_SYSCALL_FUTEX : Z := 202.
Definition LINUX_ABI64_SYSCALL_GETDENTS64 : Z := 217.
Definition LINUX_ABI64_SYSCALL_SET_TID_ADDRESS : Z := 218.
Definition LINUX_ABI64_SYSCALL_CLOCK_GETTIME : Z := 228.
Definition LINUX_ABI64_SYSCALL_EXIT_GROUP : Z := 231.
Definition LINUX_ABI64_SYSCALL_OPENAT : Z := 257.
Definition LINUX_ABI64_SYSCALL_NEWFSTATAT : Z := 262.
Definition LINUX_ABI64_SYSCALL_PPOLL : Z := 271.
Definition LINUX_ABI64_SYSCALL_DUP3 : Z := 292.
Definition LINUX_ABI64_SYSCALL_PIPE2 : Z := 293.
Definition LINUX_ABI64_SYSCALL_GETRANDOM : Z := 318.
Definition LINUX_ABI64_SYSCALL_EXECVEAT : Z := 322.
Definition WINDOWS_ABI64_SYSCALL_NTWAITFORSINGLEOBJECT : Z := 0x00000004.
Definition WINDOWS_ABI64_SYSCALL_NTREADFILE : Z := 0x00000006.
Definition WINDOWS_ABI64_SYSCALL_NTWRITEFILE : Z := 0x00000008.
Definition WINDOWS_ABI64_SYSCALL_NTOPENKEY : Z := 0x00000012.
Definition WINDOWS_ABI64_SYSCALL_NTQUERYVALUEKEY : Z := 0x00000017.
Definition WINDOWS_ABI64_SYSCALL_NTALLOCATEVIRTUALMEMORY : Z := 0x00000018.
Definition WINDOWS_ABI64_SYSCALL_NTQUERYINFORMATIONPROCESS : Z := 0x00000019.
Definition WINDOWS_ABI64_SYSCALL_NTCREATEKEY : Z := 0x0000001D.
Definition WINDOWS_ABI64_SYSCALL_NTFREEVIRTUALMEMORY : Z := 0x0000001E.
Definition WINDOWS_ABI64_SYSCALL_NTQUERYSYSTEMINFORMATION : Z := 0x00000036.
Definition WINDOWS_ABI64_SYSCALL_NTPROTECTVIRTUALMEMORY : Z := 0x00000050.
Definition WINDOWS_ABI64_SYSCALL_NTCREATEFILE : Z := 0x00000055.
Definition WINDOWS_ABI64_SYSCALL_NTCREATEMUTANT : Z := 0x00000057.
Definition WINDOWS_ABI64_SYSCALL_NTRELEASEMUTANT : Z := 0x000000AC.
Definition WINDOWS_ABI64_SYSCALL_NTCREATEEVENT : Z := 0x00000048.
Definition WINDOWS_ABI64_SYSCALL_NTSETEVENT : Z := 0x000000E2.
Definition MACOS_ABI64_SYSCALL_EXIT : Z := 1.
Definition MACOS_ABI64_SYSCALL_READ : Z := 3.
Definition MACOS_ABI64_SYSCALL_WRITE : Z := 4.
Definition MACOS_ABI64_SYSCALL_OPEN : Z := 5.
Definition MACOS_ABI64_SYSCALL_CLOSE : Z := 6.
Definition MACOS_ABI64_SYSCALL_GETPID : Z := 20.
Definition MACOS_ABI64_SYSCALL_MUNMAP : Z := 73.
Definition MACOS_ABI64_SYSCALL_MPROTECT : Z := 74.
Definition MACOS_ABI64_SYSCALL_CLOCK_GETTIME : Z := 116.
Definition MACOS_ABI64_SYSCALL_STAT : Z := 188.
Definition MACOS_ABI64_SYSCALL_FSTAT : Z := 189.
Definition MACOS_ABI64_SYSCALL_MMAP : Z := 197.
Definition MACOS_ABI64_SYSCALL_SYSCTL : Z := 202.

(** A C [switch] whose cases return constants. *)
Definition switch {A} (cases : list (Z * A)) (dflt : A) (n : Z) : A :=
  match find_index (fun c => c.1 =? n) cases with
  | Some i => from_option snd dflt (cases !! i)
  | None => dflt
  end.

Definition linux_name_cases : list (Z * string) := [
  (LINUX_ABI64_SYSCALL_READ, "linux.read");
  (LINUX_ABI64_SYSCALL_WRITE, "linux.write");
  (LINUX_ABI64_SYSCALL_OPEN, "linux.open");
  (LINUX_ABI64_SYSCALL_CLOSE, "linux.close");
  (LINUX_ABI64_SYSCALL_STAT, "linux.stat");
  (LINUX_ABI64_SYSCALL_FSTAT, "linux.fstat");
  (LINUX_ABI64_SYSCALL_POLL, "linux.poll");
  (LINUX_ABI64_SYSCALL_LSEEK, "linux.lseek");
  (LINUX_ABI64_SYSCALL_MMAP, "linux.mmap");
  (LINUX_ABI64_SYSCALL_MPROTECT, "linux.mprotect");
  (LINUX_ABI64_SYSCALL_MUNMAP, "linux.munmap");
  (LINUX_ABI64_SYSCALL_BRK, "linux.brk");
  (LINUX_ABI64_SYSCALL_RT_SIGACTION, "linux.rt_sigaction");
  (LINUX_ABI64_SYSCALL_RT_SIGPROCMASK, "linux.rt_sigprocmask");
  (LINUX_ABI64_SYSCALL_RT_SIGRETURN, "linux.rt_sigreturn");
  (LINUX_ABI64_SYSCALL_PREAD64, "linux.pread64");
  (LINUX_ABI64_SYSCALL_PWRITE64, "linux.pwrite64");
  (LINUX_ABI64_SYSCALL_READV, "linux.readv");
  (LINUX_ABI64_SYSCALL_WRITEV, "linux.writev");
  (LINUX_ABI64_SYSCALL_PIPE, "linux.pipe");
  (LINUX_ABI64_SYSCALL_DUP, "linux.dup");
  (LINUX_ABI64_SYSCALL_DUP2, "linux.dup2");
  (LINUX_ABI64_SYSCALL_NANOSLEEP, "linux.nanosleep");
  (LINUX_ABI64_SYSCALL_GETPID, "linux.getpid");
  (LINUX_ABI64_SYSCALL_CLONE, "linux.clone");
  (LINUX_ABI64_SYSCALL_FORK, "linux.fork");
  (LINUX_ABI64_SYSCALL_EXECVE, "linux.execve");
  (LINUX_ABI64_SYSCALL_EXIT, "linux.exit");
  (LINUX_ABI64_SYSCALL_WAIT4, "linux.wait4");
  (LINUX_ABI64_SYSCALL_KILL, "linux.kill");
  (LINUX_ABI64_SYSCALL_FCNTL, "linux.fcntl");
  (LINUX_ABI64_SYSCALL_GETCWD, "linux.getcwd");
  (LINUX_ABI64_SYSCALL_CHDIR, "linux.chdir");
  (LINUX_ABI64_SYSCALL_FCHDIR, "linux.fchdir");
  (LINUX_ABI64_SYSCALL_GETRLIMIT, "linux.getrlimit");
  (LINUX_ABI64_SYSCALL_PRCTL, "linux.prctl");
  (LINUX_ABI64_SYSCALL_ARCH_PRCTL, "linux.arch_prctl");
  (LINUX_ABI64_SYSCALL_SETRLIMIT, "linux.setrlimit");
  (LINUX_ABI64_SYSCALL_GETTID, "linux.gettid");
  (LINUX_ABI64_SYSCALL_TKILL, "linux.tkill");
  (LINUX_ABI64_SYSCALL_FUTEX, "linux.futex");
  (LINUX_ABI64_SYSCALL_GETDENTS64, "linux.getdents64");
  (LINUX_ABI64_SYSCALL_SET_TID_ADDRESS, "linux.set_tid_address");
  (LINUX_ABI64_SYSCALL_CLOCK_GETTIME, "linux.clock_gettime");
  (LINUX_ABI64_SYSCALL_EXIT_GROUP, "linux.exit_group");
  (LINUX_ABI64_SYSCALL_OPENAT, "linux.openat");
  (LINUX_ABI64_SYSCALL_NEWFSTATAT, "linux.newfstatat");
  (LINUX_ABI64_SYSCALL_PPOLL, "linux.ppoll");
  (LINUX_ABI64_SYSCALL_DUP3, "linux.dup3");
  (LINUX_ABI64_SYSCALL_PIPE2, "linux.pipe2");
  (LINUX_ABI64_SYSCALL_GETRANDOM, "linux.getrandom");
  (LINUX_ABI64_SYSCALL_EXECVEAT, "linux.execveat") ].

Definition windows_name_cases : list (Z * string) := [
  (WINDOWS_ABI64_SYSCALL_NTWAITFORSINGLEOBJECT, "windows.NtWaitForSingleObject");
  (WINDOWS_ABI64_SYSCALL_NTREADFILE, "windows.NtReadFile");
  (WINDOWS_ABI64_SYSCALL_NTWRITEFILE, "windows.NtWriteFile");
  (WINDOWS_ABI64_SYSCALL_NTOPENKEY, "windows.NtOpenKey");
  (WINDOWS_ABI64_SYSCALL_NTQUERYVALUEKEY, "windows.NtQueryValueKey");
  (WINDOWS_ABI64_SYSCALL_NTALLOCATEVIRTUALMEMORY, "windows.NtAllocateVirtualMemory");
  (WINDOWS_ABI64_SYSCALL_NTQUERYINFORMATIONPROCESS, "windows.NtQueryInformationProcess");
  (WINDOWS_ABI64_SYSCALL_NTCREATEKEY, "windows.NtCreateKey");
  (WINDOWS_ABI64_SYSCALL_NTFREEVIRTUALMEMORY, "windows.NtFreeVirtualMemory");
  (WINDOWS_ABI64_SYSCALL_NTQUERYSYSTEMINFORMATION, "windows.NtQuerySystemInformation");
  (WINDOWS_ABI64_SYSCALL_NTPROTECTVIRTUALMEMORY, "windows.NtProtectVirtualMemory");
  (WINDOWS_ABI64_SYSCALL_NTCREATEFILE, "windows.NtCreateFile");
  (WINDOWS_ABI64_SYSCALL_NTCREATEMUTANT, "windows.NtCreateMutant");
  (WINDOWS_ABI64_SYSCALL_NTRELEASEMUTANT, "windows.NtReleaseMutant");
  (WINDOWS_ABI64_SYSCALL_NTCREATEEVENT, "windows.NtCreateEvent");
  (WINDOWS_ABI64_SYSCALL_NTSETEVENT, "windows.NtSetEvent") ].

Definition macos_name_cases : list (Z * string) := [
  (MACOS_ABI64_SYSCALL_EXIT, "macos.exit");
  (MACOS_ABI64_SYSCALL_READ, "macos.read");
  (MACOS_ABI64_SYSCALL_WRITE, "macos.write");
  (MACOS_ABI64_SYSCALL_OPEN, "macos.open");
  (MACOS_ABI64_SYSCALL_CLOSE, "macos.close");
  (MACOS_ABI64_SYSCALL_GETPID, "macos.getpid");
  (MACOS_ABI64_SYSCALL_MUNMAP, "macos.munmap");
  (MACOS_ABI64_SYSCALL_MPROTECT, "macos.mprotect");
  (MACOS_ABI64_SYSCALL_CLOCK_GETTIME, "macos.clock_gettime");
  (MACOS_ABI64_SYSCALL_STAT, "macos.stat");
  (MACOS_ABI64_SYSCALL_FSTAT, "macos.fstat");
  (MACOS_ABI64_SYSCALL_MMAP, "macos.mmap");
  (MACOS_ABI64_SYSCALL_SYSCTL, "macos.sysctl") ].

Definition persona_audit64_linux_syscall_name : Z -> string := switch linux_name_cases "linux.unknown"%string.
Definition persona_audit64_windows_syscall_name : Z -> string := switch windows_name_cases "windows.unknown"%string.
Definition persona_audit64_macos_syscall_name : Z -> string := switch macos_name_cases "macos.unknown"%string.

Definition persona_audit64_syscall_name (persona_type syscall_number : Z) : string :=
  if persona_type =? PERSONA64_TYPE_LINUX_ELF then persona_audit64_linux_syscall_name syscall_number
  else if persona_type =? PERSONA64_TYPE_WINDOWS_PE then persona_audit64_windows_syscall_name syscall_number
  else if persona_type =? PERSONA64_TYPE_MACOS_MACHO then persona_audit64_macos_syscall_name syscall_number
  else "native.unknown"%string.

(** The hash loop over the bytes of the text; [None] is NULL. *)
Fixpoint hash_bytes (hash : Z) (text : list Z) : Z :=
  match text with
  | [] => hash
  | c :: text' => hash_bytes (mul32 (Z.lxor hash c) 16777619) text'
  end.

Definition persona_audit64_hash_text (text : option string) : Z :=
  match text with
  | None => 0
  | Some t => let hash := hash_bytes 2166136261 (bytes_of t) in
              if negb (hash =? 0) then hash else 1
  end.

Definition persona_audit64_syscall_name_token (persona_type syscall_number : Z) : Z :=
  persona_audit64_hash_text (Some (persona_audit64_syscall_name persona_type syscall_number)).

Definition linux_operation_cases : list (Z * Z) := [
  (LINUX_ABI64_SYSCALL_READ, PERSONA_AUDIT64_OP_FILE_IO);
  (LINUX_ABI64_SYSCALL_WRITE, PERSONA_AUDIT64_OP_FILE_IO);
  (LINUX_ABI64_SYSCALL_OPEN, PERSONA_AUDIT64_OP_FILE_IO);
  (LINUX_ABI64_SYSCALL_STAT, PERSONA_AUDIT64_OP_FILE_IO);
  (LINUX_ABI64_SYSCALL_FSTAT, PERSONA_AUDIT64_OP_FILE_IO);
  (LINUX_ABI64_SYSCALL_LSEEK, PERSONA_AUDIT64_OP_FILE_IO);
  (LINUX_ABI64_SYSCALL_PREAD64, PERSONA_AUDIT64_OP_FILE_IO);
  (LINUX_ABI64_SYSCALL_PWRITE64, PERSONA_AUDIT64_OP_FILE_IO);
  (LINUX_ABI64_SYSCALL_READV, PERSONA_AUDIT64_OP_FILE_IO);
  (LINUX_ABI64_SYSCALL_WRITEV, PERSONA_AUDIT64_OP_FILE_IO);
  (LINUX_ABI64_SYSCALL_OPENAT, PERSONA_AUDIT64_OP_FILE_IO);
  (LINUX_ABI64_SYSCALL_NEWFSTATAT, PERSONA_AUDIT64_OP_FILE_IO);
  (LINUX_ABI64_SYSCALL_GETDENTS64, PERSONA_AUDIT64_OP_FILE_IO);
  (LINUX_ABI64_SYSCALL_MMAP, PERSONA_AUDIT64_OP_MEMORY);
  (LINUX_ABI64_SYSCALL_MPROTECT, PERSONA_AUDIT64_OP_MEMORY);
  (LINUX_ABI64_SYSCALL_MUNMAP, PERSONA_AUDIT64_OP_MEMORY);
  (LINUX_ABI64_SYSCALL_BRK, PERSONA_AUDIT64_OP_MEMORY);
  (LINUX_ABI64_SYSCALL_GETPID, PERSONA_AUDIT64_OP_PROCESS);
  (LINUX_ABI64_SYSCALL_GETTID, PERSONA_AUDIT64_OP_PROCESS);
  (LINUX_ABI64_SYSCALL_CLONE, PERSONA_AUDIT64_OP_PROCESS);
  (LINUX_ABI64_SYSCALL_FORK, PERSONA_AUDIT64_OP_PROCESS);
  (LINUX_ABI64_SYSCALL_EXECVE, PERSONA_AUDIT64_OP_PROCESS);
  (LINUX_ABI64_SYSCALL_EXIT, PERSONA_AUDIT64_OP_PROCESS);
  (LINUX_ABI64_SYSCALL_WAIT4, PERSONA_AUDIT64_OP_PROCESS);
  (LINUX_ABI64_SYSCALL_PRCTL, PERSONA_AUDIT64_OP_PROCESS);
  (LINUX_ABI64_SYSCALL_ARCH_PRCTL, PERSONA_AUDIT64_OP_PROCESS);
  (LINUX_ABI64_SYSCALL_SET_TID_ADDRESS, PERSONA_AUDIT64_OP_PROCESS);
  (LINUX_ABI64_SYSCALL_EXIT_GROUP, PERSONA_AUDIT64_OP_PROCESS);
  (LINUX_ABI64_SYSCALL_EXECVEAT, PERSONA_AUDIT64_OP_PROCESS);
  (LINUX_ABI64_SYSCALL_GETRLIMIT, PERSONA_AUDIT64_OP_PROCESS);
  (LINUX_ABI64_SYSCALL_SETRLIMIT, PERSONA_AUDIT64_OP_PROCESS);
  (LINUX_ABI64_SYSCALL_NANOSLEEP, PERSONA_AUDIT64_OP_TIME);
  (LINUX_ABI64_SYSCALL_CLOCK_GETTIME, PERSONA_AUDIT64_OP_TIME);
  (LINUX_ABI64_SYSCALL_CLOSE, PERSONA_AUDIT64_OP_FD);
  (LINUX_ABI64_SYSCALL_DUP, PERSONA_AUDIT64_OP_FD);
  (LINUX_ABI64_SYSCALL_DUP2, PERSONA_AUDIT64_OP_FD);
  (LINUX_ABI64_SYSCALL_FCNTL, PERSONA_AUDIT64_OP_FD);
  (LINUX_ABI64_SYSCALL_DUP3, PERSONA_AUDIT64_OP_FD);
  (LINUX_ABI64_SYSCALL_POLL, PERSONA_AUDIT64_OP_IPC);
  (LINUX_ABI64_SYSCALL_FUTEX, PERSONA_AUDIT64_OP_IPC);
  (LINUX_ABI64_SYSCALL_PIPE, PERSONA_AUDIT64_OP_IPC);
  (LINUX_ABI64_SYSCALL_PIPE2, PERSONA_AUDIT64_OP_IPC);
  (LINUX_ABI64_SYSCALL_PPOLL, PERSONA_AUDIT64_OP_IPC);
  (LINUX_ABI64_SYSCALL_RT_SIGACTION, PERSONA_AUDIT64_OP_SIGNAL);
  (LINUX_ABI64_SYSCALL_RT_SIGPROCMASK, PERSONA_AUDIT64_OP_SIGNAL);
  (LINUX_ABI64_SYSCALL_RT_SIGRETURN, PERSONA_AUDIT64_OP_SIGNAL);
  (LINUX_ABI64_SYSCALL_KILL, PERSONA_AUDIT64_OP_SIGNAL);
  (LINUX_ABI64_SYSCALL_TKILL, PERSONA_AUDIT64_OP_SIGNAL);
  (LINUX_ABI64_SYSCALL_GETRANDOM, PERSONA_AUDIT64_OP_RANDOM);
  (LINUX_ABI64_SYSCALL_GETCWD, PERSONA_AUDIT64_OP_VFS);
  (LINUX_ABI64_SYSCALL_CHDIR, PERSONA_AUDIT64_OP_VFS);
  (LINUX_ABI64_SYSCALL_FCHDIR, PERSONA_AUDIT64_OP_VFS) ].

Definition windows_operation_cases : list (Z * Z) := [
  (WINDOWS_ABI64_SYSCALL_NTREADFILE, PERSONA_AUDIT64_OP_FILE_IO);
  (WINDOWS_ABI64_SYSCALL_NTWRITEFILE, PERSONA_AUDIT64_OP_FILE_IO);
  (WINDOWS_ABI64_SYSCALL_NTCREATEFILE, PERSONA_AUDIT64_OP_FILE_IO);
  (WINDOWS_ABI64_SYSCALL_NTALLOCATEVIRTUALMEMORY, PERSONA_AUDIT64_OP_MEMORY);
  (WINDOWS_ABI64_SYSCALL_NTFREEVIRTUALMEMORY, PERSONA_AUDIT64_OP_MEMORY);
  (WINDOWS_ABI64_SYSCALL_NTPROTECTVIRTUALMEMORY, PERSONA_AUDIT64_OP_MEMORY);
  (WINDOWS_ABI64_SYSCALL_NTQUERYINFORMATIONPROCESS, PERSONA_AUDIT64_OP_PROCESS);
  (WINDOWS_ABI64_SYSCALL_NTQUERYSYSTEMINFORMATION, PERSONA_AUDIT64_OP_PROCESS);
  (WINDOWS_ABI64_SYSCALL_NTWAITFORSINGLEOBJECT, PERSONA_AUDIT64_OP_NT_OBJECT);
  (WINDOWS_ABI64_SYSCALL_NTCREATEMUTANT, PERSONA_AUDIT64_OP_NT_OBJECT);
  (WINDOWS_ABI64_SYSCALL_NTRELEASEMUTANT, PERSONA_AUDIT64_OP_NT_OBJECT);
  (WINDOWS_ABI64_SYSCALL_NTCREATEEVENT, PERSONA_AUDIT64_OP_NT_OBJECT);
  (WINDOWS_ABI64_SYSCALL_NTSETEVENT, PERSONA_AUDIT64_OP_NT_OBJECT);
  (WINDOWS_ABI64_SYSCALL_NTOPENKEY, PERSONA_AUDIT64_OP_REGISTRY);
  (WINDOWS_ABI64_SYSCALL_NTQUERYVALUEKEY, PERSONA_AUDIT64_OP_REGISTRY);
  (WINDOWS_ABI64_SYSCALL_NTCREATEKEY, PERSONA_AUDIT64_OP_REGISTRY) ].

Definition macos_operation_cases : list (Z * Z) := [
  (MACOS_ABI64_SYSCALL_READ, PERSONA_AUDIT64_OP_FILE_IO);
  (MACOS_ABI64_SYSCALL_WRITE, PERSONA_AUDIT64_OP_FILE_IO);
  (MACOS_ABI64_SYSCALL_OPEN, PERSONA_AUDIT64_OP_FILE_IO);
  (MACOS_ABI64_SYSCALL_CLOSE, PERSONA_AUDIT64_OP_FILE_IO);
  (MACOS_ABI64_SYSCALL_STAT, PERSONA_AUDIT64_OP_FILE_IO);
  (MACOS_ABI64_SYSCALL_FSTAT, PERSONA_AUDIT64_OP_FILE_IO);
  (MACOS_ABI64_SYSCALL_MMAP, PERSONA_AUDIT64_OP_MEMORY);
  (MACOS_ABI64_SYSCALL_MUNMAP, PERSONA_AUDIT64_OP_MEMORY);
  (MACOS_ABI64_SYSCALL_MPROTECT, PERSONA_AUDIT64_OP_MEMORY);
  (MACOS_ABI64_SYSCALL_EXIT, PERSONA_AUDIT64_OP_PROCESS);
  (MACOS_ABI64_SYSCALL_GETPID, PERSONA_AUDIT64_OP_PROCESS);
  (MACOS_ABI64_SYSCALL_SYSCTL, PERSONA_AUDIT64_OP_PROCESS);
  (MACOS_ABI64_SYSCALL_CLOCK_GETTIME, PERSONA_AUDIT64_OP_TIME) ].

Definition persona_audit64_linux_operation : Z -> Z := switch linux_operation_cases PERSONA_AUDIT64_OP_UNAVAILABLE.
Definition persona_audit64_windows_operation : Z -> Z := switch windows_operation_cases PERSONA_AUDIT64_OP_UNAVAILABLE.
Definition persona_audit64_macos_operation : Z -> Z := switch macos_operation_cases PERSONA_AUDIT64_OP_UNAVAILABLE.

Definition persona_audit64_translated_operation (persona_type syscall_number : Z) : Z :=
  if persona_type =? PERSONA64_TYPE_LINUX_ELF then persona_audit64_linux_operation syscall_number
  else if persona_type =? PERSONA64_TYPE_WINDOWS_PE then persona_audit64_windows_operation syscall_number
  else if persona_type =? PERSONA64_TYPE_MACOS_MACHO then persona_audit64_macos_operation syscall_number
  else PERSONA_AUDIT64_OP_UNAVAILABLE.

Definition operation_name_cases : list (Z * string) := [
  (PERSONA_AUDIT64_OP_NONE, "none");
  (PERSONA_AUDIT64_OP_FILE_IO, "file-io");
  (PERSONA_AUDIT64_OP_MEMORY, "memory");
  (PERSONA_AUDIT64_OP_PROCESS, "process");
  (PERSONA_AUDIT64_OP_TIME, "time");
  (PERSONA_AUDIT64_OP_FD, "fd");
  (PERSONA_AUDIT64_OP_IPC, "ipc");
  (PERSONA_AUDIT64_OP_SIGNAL, "signal");
  (PERSONA_AUDIT64_OP_RANDOM, "random");
  (PERSONA_AUDIT64_OP_SCHEDULER, "scheduler");
  (PERSONA_AUDIT64_OP_VFS, "vfs");
  (PERSONA_AUDIT64_OP_REGISTRY, "registry");
  (PERSONA_AUDIT64_OP_NT_OBJECT, "nt-object");
  (PERSONA_AUDIT64_OP_MACH_PORT, "mach-port");
  (PERSONA_AUDIT64_OP_UNAVAILABLE, "unavailable") ].

Definition persona_audit64_operation_name : Z -> string := switch operation_name_cases "unknown"%string.

End AuditNames.
