(* ===== verification/PersonaAudit.v ===== *)
(** * The persona audit ring: kernel/arch/x86_64/persona_audit.c

    Sixteen audit contexts, each a ring of 256 records with a crash report,
    attached to processes through the audit slot of the process table.  The
    address of context [i] is the non-zero number [context_ptr i].
    Theorems are in PersonaAuditFacts.v. *)

From S2P Require Import Prelude Principal Services64 Process AuditNames.
Import Process AuditNames.
Local Open Scope Z_scope.
Local Open Scope kernel_scope.

Module PersonaAudit.

Definition PERSONA_AUDIT64_RING_CAPACITY : nat := 256.
Definition PERSONA_AUDIT64_MAX_CONTEXTS : nat := 16.

Record persona_audit64_record_t := mk_arec {
  timestamp : Z; rec_pid : Z; rec_persona_type : Z; event_type : Z; event_code : Z;
  result : Z; syscall_name_token : Z; translated_operation : Z; rip : Z }.

Record persona_audit64_crash_report_t := mk_report {
  cr_timestamp : Z; cr_pid : Z; cr_persona_type : Z; cr_vector : Z; cr_abi_code : Z;
  cr_result : Z; cr_rip : Z; cr_rsp : Z; cr_error_code : Z; cr_fault_address : Z;
  cr_vma_region_count : Z; cr_vma_dump_count : Z; cr_vma_mapped_bytes : Z;
  cr_vma_first_base : Z; cr_vma_first_end : Z; cr_vma_first_prot : Z;
  cr_fault_region_present : Z; cr_fault_region_base : Z; cr_fault_region_end : Z;
  cr_fault_region_prot : Z }.

#[export] Instance eta_report : Eta persona_audit64_crash_report_t := {| eta r :=
  mk_report (cr_timestamp r) (cr_pid r) (cr_persona_type r) (cr_vector r) (cr_abi_code r)
    (cr_result r) (cr_rip r) (cr_rsp r) (cr_error_code r) (cr_fault_address r)
    (cr_vma_region_count r) (cr_vma_dump_count r) (cr_vma_mapped_bytes r) (cr_vma_first_base r)
    (cr_vma_first_end r) (cr_vma_first_prot r) (cr_fault_region_present r)
    (cr_fault_region_base r) (cr_fault_region_end r) (cr_fault_region_prot r) |}.

Record persona_audit64_context_t := mk_ctx {
  ctx_pid : Z; write_index : Z; count : Z; dropped_count : Z; crash_count : Z;
  last_crash : persona_audit64_crash_report_t;
  records : list persona_audit64_record_t }.

#[export] Instance eta_ctx : Eta persona_audit64_context_t := {| eta c :=
  mk_ctx (ctx_pid c) (write_index c) (count c) (dropped_count c) (crash_count c)
    (last_crash c) (records c) |}.

(** The ring's own state and the process table it attaches to. *)
Record audit_state := mk_audit_state {
  contexts : list persona_audit64_context_t;
  context_used : list Z;
  initialized : Z;
  sequence : Z;
  processes : process_state }.

#[export] Instance eta_audit_state : Eta audit_state := {| eta s :=
  mk_audit_state (contexts s) (context_used s) (initialized s) (sequence s) (processes s) |}.

Abbreviation AM := (ST audit_state).

Record vma_region := mk_region { virt_base : Z; virt_end : Z; prot_flags : Z }.

(** The clock, the persona of a process and its address space (vma.c), at
    the moment of the call. *)
Class AuditEnv := {
  pit_get_ticks : Z;
  persona64_type : Z -> Z;
  vma64_region_count : Z -> Z;
  vma64_mapped_bytes : Z -> Z;
  vma64_first_region : Z -> option vma_region;
  vma64_find : Z -> Z -> option vma_region;
}.

(** A call of the process table. *)
Definition on_processes {A} (m : PM A) : AM A :=
  fun s => let (a, ps) := m (processes s) in (a, s <| processes := ps |>).

Definition persona_audit64_clear_record : persona_audit64_record_t :=
  mk_arec 0 PROCESS64_INVALID_PID PERSONA64_TYPE_COUNT 0 0 0 0 PERSONA_AUDIT64_OP_NONE 0.

Definition persona_audit64_clear_crash_report : persona_audit64_crash_report_t :=
  mk_report 0 PROCESS64_INVALID_PID PERSONA64_TYPE_COUNT 0 0 0 0 0 0 0 0 0 0 0 0 0 0 0 0 0.

Definition persona_audit64_clear_context : persona_audit64_context_t :=
  mk_ctx PROCESS64_INVALID_PID 0 0 0 0 persona_audit64_clear_crash_report
    (replicate PERSONA_AUDIT64_RING_CAPACITY persona_audit64_clear_record).

(** [&g_persona_audit64_contexts[i]], and back. *)
Definition context_ptr (i : nat) : Z := Z.of_nat (S i).
Definition context_index (ptr : Z) : option nat :=
  if (0 <? ptr) && (ptr <=? Z.of_nat PERSONA_AUDIT64_MAX_CONTEXTS)
  then Some (Z.to_nat (ptr - 1)) else None.

Definition context_at (s : audit_state) (i : nat) : persona_audit64_context_t :=
  default persona_audit64_clear_context (contexts s !! i).

Definition update_context (i : nat) (f : persona_audit64_context_t -> persona_audit64_context_t) : AM unit :=
  modify (fun s => s <| contexts := alter f i (contexts s) |>).
Definition set_used (i : nat) (v : Z) : AM unit :=
  modify (fun s => s <| context_used := alter (fun _ => v) i (context_used s) |>).

Definition persona_audit64_acquire_context (p : Z) : AM (option nat) :=
  found <- gets (fun s => find_index (fun u => u =? 0) (context_used s)) ;;
  match found with
  | None => ret None
  | Some i =>
      set_used i 1 ;;;
      update_context i (fun _ => persona_audit64_clear_context <| ctx_pid := p |>) ;;;
      ret (Some i)
  end.

Definition persona_audit64_release_context (ptr : Z) : AM unit :=
  match context_index ptr with
  | None => ret tt
  | Some i => update_context i (fun _ => persona_audit64_clear_context) ;;; set_used i 0
  end.

Definition persona_audit64_init : AM unit :=
  done <- gets (fun s => nz (initialized s)) ;;
  if done : bool then ret tt
  else modify (fun s => mk_audit_state
         (replicate PERSONA_AUDIT64_MAX_CONTEXTS persona_audit64_clear_context)
         (replicate PERSONA_AUDIT64_MAX_CONTEXTS 0) 1 1 (processes s)).

Section operations.
Context {env : AuditEnv} {launch : LaunchEnv}.

(** The sequence number skips 0 when it wraps. *)
Definition persona_audit64_timestamp : AM Z :=
  seq <- gets sequence ;;
  modify (fun s => s <| sequence := if inc32 seq =? 0 then 1 else inc32 seq |>) ;;;
  ret (Z.lor (Z.shiftl pit_get_ticks 32) seq).

(** The context attached to a process; 0 is NULL. *)
Definition persona_audit64_context_for_process (p : Z) : AM Z :=
  persona_audit64_init ;;; on_processes (process64_audit_ctx p).

Definition persona_audit64_attach (p : Z) : AM Z :=
  persona_audit64_init ;;;
  if p =? PROCESS64_INVALID_PID then ret 0
  else
    principal <- on_processes (process64_principal p) ;;
    if principal =? 0 then ret 0
    else
      attached <- on_processes (process64_audit_ctx p) ;;
      if negb (attached =? 0) then ret 0
      else
        found <- persona_audit64_acquire_context p ;;
        match found with
        | None => ret 0
        | Some i =>
            ok <- on_processes (process64_attach_audit p (context_ptr i)) ;;
            if ok =? 0 then persona_audit64_release_context (context_ptr i) ;;; ret 0
            else ret 1
        end.

Definition persona_audit64_release (p : Z) : AM Z :=
  persona_audit64_init ;;;
  if p =? PROCESS64_INVALID_PID then ret 0
  else
    principal <- on_processes (process64_principal p) ;;
    if principal =? 0 then ret 0
    else
      context <- persona_audit64_context_for_process p ;;
      if context =? 0 then ret 0
      else
        detached <- on_processes (process64_detach_audit p) ;;
        if negb (detached =? context) then ret 0
        else persona_audit64_release_context context ;;; ret 1.

(** The record [persona_audit64_record] writes. *)
Definition make_record (p ptype etype ecode res addr ts : Z) : persona_audit64_record_t :=
  let is_syscall := (etype =? PERSONA_AUDIT64_EVENT_SYSCALL_TRANSLATED)
                    || (etype =? PERSONA_AUDIT64_EVENT_SYSCALL_UNIMPLEMENTED) in
  mk_arec ts p ptype etype ecode res
    (if is_syscall then persona_audit64_syscall_name_token ptype ecode else 0)
    (if is_syscall then
       if etype =? PERSONA_AUDIT64_EVENT_SYSCALL_UNIMPLEMENTED then PERSONA_AUDIT64_OP_UNAVAILABLE
       else persona_audit64_translated_operation ptype ecode
     else PERSONA_AUDIT64_OP_NONE)
    addr.

(** The persona type stamped into a record. *)
Definition stamped_type (p : Z) : Z :=
  let t := persona64_type p in
  if PERSONA64_TYPE_COUNT <=? t then PERSONA64_TYPE_LIMITLESS_NATIVE else t.

(** [records[write_index] = r; write_index = (write_index + 1) % 256; ...] *)
Definition push_record (r : persona_audit64_record_t) (c : persona_audit64_context_t) :
    persona_audit64_context_t :=
  let cap := Z.of_nat PERSONA_AUDIT64_RING_CAPACITY in
  let c := c <| records := <[Z.to_nat (write_index c) := r]> (records c) |>
             <| write_index := add32 (write_index c) 1 mod cap |> in
  if count c <? cap then c <| count := inc32 (count c) |>
  else c <| dropped_count := inc32 (dropped_count c) |>.

Definition persona_audit64_record (p etype ecode res addr : Z) : AM Z :=
  persona_audit64_init ;;;
  context <- persona_audit64_context_for_process p ;;
  match context_index context with
  | None => ret 0
  | Some i =>
      ts <- persona_audit64_timestamp ;;
      update_context i (push_record (make_record p (stamped_type p) etype ecode res addr ts)) ;;;
      ret 1
  end.

(** Reading a field of the attached context. *)
Definition context_field (f : persona_audit64_context_t -> Z) (p : Z) : AM Z :=
  context <- persona_audit64_context_for_process p ;;
  match context_index context with
  | None => ret 0
  | Some i => gets (fun s => f (context_at s i))
  end.

Definition persona_audit64_count : Z -> AM Z := context_field count.
Definition persona_audit64_dropped_count : Z -> AM Z := context_field dropped_count.
Definition persona_audit64_crash_count : Z -> AM Z := context_field crash_count.

(** The slot of the [index]-th oldest record. *)
Definition physical_index (c : persona_audit64_context_t) (index : Z) : Z :=
  let cap := Z.of_nat PERSONA_AUDIT64_RING_CAPACITY in
  let start := sub32 (add32 (write_index c) cap) (count c) mod cap in
  add32 start index mod cap.

Definition ring_read (c : persona_audit64_context_t) (index : Z) : option persona_audit64_record_t :=
  if count c <=? index then None
  else records c !! Z.to_nat (physical_index c index).

(** [None] is the return value 0; [Some r] is 1 with [*out_record = r]. *)
Definition persona_audit64_read (p index : Z) : AM (option persona_audit64_record_t) :=
  persona_audit64_init ;;;
  context <- persona_audit64_context_for_process p ;;
  match context_index context with
  | None => ret None
  | Some i => gets (fun s => ring_read (context_at s i) index)
  end.

Definition persona_audit64_crash_result_for_persona (ptype vector : Z) : Z :=
  if (ptype =? PERSONA64_TYPE_LINUX_ELF) || (ptype =? PERSONA64_TYPE_MACOS_MACHO) then
    if vector =? PERSONA_AUDIT64_CRASH_VECTOR_INVALID_OPCODE then PERSONA_AUDIT64_CRASH_SIGILL
    else if vector =? PERSONA_AUDIT64_CRASH_VECTOR_DIVIDE then PERSONA_AUDIT64_CRASH_SIGFPE
    else PERSONA_AUDIT64_CRASH_SIGSEGV
  else if ptype =? PERSONA64_TYPE_WINDOWS_PE then
    if vector =? PERSONA_AUDIT64_CRASH_VECTOR_INVALID_OPCODE
    then PERSONA_AUDIT64_CRASH_STATUS_ILLEGAL_INSTRUCTION
    else if vector =? PERSONA_AUDIT64_CRASH_VECTOR_DIVIDE
    then PERSONA_AUDIT64_CRASH_STATUS_INTEGER_DIVIDE_BY_ZERO
    else PERSONA_AUDIT64_CRASH_STATUS_ACCESS_VIOLATION
  else PERSONA_AUDIT64_RESULT_DENY.

Definition persona_audit64_crash_event_code (ptype vector abi_code : Z) : Z :=
  if (ptype =? PERSONA64_TYPE_LINUX_ELF) || (ptype =? PERSONA64_TYPE_MACOS_MACHO)
  then abi_code mod 2 ^ 16 else vector mod 2 ^ 16.

(** The report assembled for a crash, before its timestamp is filled in. *)
Definition crash_report (p ptype vector abi_code error_code ip sp fault_address : Z) :
    persona_audit64_crash_report_t :=
  let report := persona_audit64_clear_crash_report
    <| cr_pid := p |> <| cr_persona_type := ptype |> <| cr_vector := vector mod 2 ^ 16 |>
    <| cr_abi_code := abi_code |> <| cr_result := abi_code |> <| cr_rip := ip |> <| cr_rsp := sp |>
    <| cr_error_code := error_code |> <| cr_fault_address := fault_address |>
    <| cr_vma_region_count := vma64_region_count p |>
    <| cr_vma_mapped_bytes := vma64_mapped_bytes p |> in
  let report :=
    match vma64_first_region p with
    | Some r => report <| cr_vma_dump_count := 1 |> <| cr_vma_first_base := virt_base r |>
                  <| cr_vma_first_end := virt_end r |> <| cr_vma_first_prot := prot_flags r |>
    | None => report
    end in
  match vma64_find p fault_address with
  | Some r => report <| cr_fault_region_present := 1 |> <| cr_fault_region_base := virt_base r |>
                <| cr_fault_region_end := virt_end r |> <| cr_fault_region_prot := prot_flags r |>
  | None => report
  end.

Definition persona_audit64_record_crash (p vector error_code ip sp fault_address : Z) : AM Z :=
  persona_audit64_init ;;;
  context <- persona_audit64_context_for_process p ;;
  match context_index context with
  | None => ret 0
  | Some i =>
      if p =? PROCESS64_INVALID_PID then ret 0
      else
        let ptype := persona64_type p in
        if negb (ptype =? PERSONA64_TYPE_LINUX_ELF) && negb (ptype =? PERSONA64_TYPE_WINDOWS_PE)
           && negb (ptype =? PERSONA64_TYPE_MACOS_MACHO)
        then ret 0
        else
          let abi_code := persona_audit64_crash_result_for_persona ptype vector in
          recorded <- persona_audit64_record p PERSONA_AUDIT64_EVENT_CRASH
            (persona_audit64_crash_event_code ptype vector abi_code) abi_code ip ;;
          if recorded =? 0 then ret 0
          else
            let report := crash_report p ptype vector abi_code error_code ip sp fault_address in
            cnt <- gets (fun s => count (context_at s i)) ;;
            last <- (if negb (cnt =? 0) then persona_audit64_read p (sub32 cnt 1) else ret None) ;;
            let report := match last with
                          | Some r => report <| cr_timestamp := timestamp r |>
                          | None => report
                          end in
            update_context i (fun c => c <| last_crash := report |>
                                         <| crash_count := inc32 (crash_count c) |>) ;;;
            ret 1
  end.

Definition persona_audit64_read_last_crash (p : Z) : AM (option persona_audit64_crash_report_t) :=
  context <- persona_audit64_context_for_process p ;;
  match context_index context with
  | None => ret None
  | Some i => gets (fun s => let c := context_at s i in
                if crash_count c =? 0 then None else Some (last_crash c))
  end.

(** A field of the newest record, [d] when there is none. *)
Definition last_field (d : Z) (f : persona_audit64_record_t -> Z) (p : Z) : AM Z :=
  cnt <- persona_audit64_count p ;;
  if cnt =? 0 then ret d
  else
    last <- persona_audit64_read p (sub32 cnt 1) ;;
    ret (from_option f d last).

Definition persona_audit64_last_event_type : Z -> AM Z := last_field 0 event_type.
Definition persona_audit64_last_event_code : Z -> AM Z := last_field 0 event_code.
Definition persona_audit64_last_result : Z -> AM Z := last_field 0 result.
Definition persona_audit64_last_persona_type : Z -> AM Z :=
  last_field PERSONA64_TYPE_COUNT rec_persona_type.
Definition persona_audit64_last_syscall_name_token : Z -> AM Z := last_field 0 syscall_name_token.
Definition persona_audit64_last_translated_operation : Z -> AM Z :=
  last_field PERSONA_AUDIT64_OP_NONE translated_operation.

End operations.
End PersonaAudit.
