(* ===== verification/PersonaAuditFacts.v ===== *)
(** * Facts about the persona audit ring

    The ring is a bounded log: [contents] is the list a reader sees, oldest
    first, and [push_record] appends to it, dropping the oldest record once
    256 are held.  [ainv] is the invariant tying contexts to processes. *)

From S2P Require Import Prelude Principal Services64 Process ProcessFacts AuditNames PersonaAudit.
Import Process ProcFacts AuditNames PersonaAudit.
Local Open Scope Z_scope.

Module AuditFacts.

Implicit Types (c : persona_audit64_context_t) (r : persona_audit64_record_t) (s : audit_state).

(** ** One ring *)

Record ring_wf (c : persona_audit64_context_t) : Prop := {
  rw_length : length (records c) = PERSONA_AUDIT64_RING_CAPACITY;
  rw_write : 0 <= write_index c < 256;
  rw_count : 0 <= count c <= 256;
}.

(** What [persona_audit64_read] returns for 0, 1, ... *)
Definition contents (c : persona_audit64_context_t) : list persona_audit64_record_t :=
  omap (fun i => ring_read c (Z.of_nat i)) (seq 0 (Z.to_nat (count c))).

(** The bounded log: at most 256 records, the oldest dropped first. *)
Definition log_push (l : list persona_audit64_record_t) (r : persona_audit64_record_t) :=
  drop (S (length l) - PERSONA_AUDIT64_RING_CAPACITY) (l ++ [r]).

Definition slot (c : persona_audit64_context_t) (i : nat) : nat :=
  Z.to_nat ((write_index c + 256 - count c + Z.of_nat i) mod 256).

Lemma physical_slot c i :
  ring_wf c -> Z.of_nat i < count c -> Z.to_nat (physical_index c (Z.of_nat i)) = slot c i.
Proof.
  intros [Hl Hw Hc] Hi. unfold physical_index, slot, sub32, add32, wrap32.
  change (Z.of_nat PERSONA_AUDIT64_RING_CAPACITY) with 256. f_equal.
  rewrite (Z.mod_small (write_index c + 256) (2 ^ 32)) by lia.
  rewrite (Z.mod_small (write_index c + 256 - count c) (2 ^ 32)) by lia.
  rewrite (Z.mod_small (_ + Z.of_nat i) (2 ^ 32)).
  - by rewrite Zplus_mod_idemp_l.
  - pose proof (Z.mod_pos_bound (write_index c + 256 - count c) 256 ltac:(lia)). lia.
Qed.

Lemma slot_lt c i : (slot c i < 256)%nat.
Proof. unfold slot. pose proof (Z.mod_pos_bound (write_index c + 256 - count c + Z.of_nat i) 256). lia. Qed.

Lemma ring_read_lookup c i :
  ring_wf c -> ring_read c (Z.of_nat i) =
    if decide (Z.of_nat i < count c) then records c !! slot c i else None.
Proof.
  intros Hw. unfold ring_read. case_decide as Hi.
  - rewrite (proj2 (Z.leb_gt _ _)) by lia. by rewrite physical_slot.
  - by rewrite (proj2 (Z.leb_le _ _)) by lia.
Qed.

Lemma ring_read_is_Some c i :
  ring_wf c -> Z.of_nat i < count c -> is_Some (ring_read c (Z.of_nat i)).
Proof.
  intros Hw Hi. rewrite ring_read_lookup, decide_True by done.
  apply lookup_lt_is_Some_2. rewrite (rw_length c Hw). apply slot_lt.
Qed.

Lemma omap_all {A B} (f : A -> option B) (l : list A) :
  (forall x, x ∈ l -> is_Some (f x)) ->
  length (omap f l) = length l /\ forall i, omap f l !! i = (l !! i) ≫= f.
Proof.
  induction l as [|x l IH]; intros H; [done|]. cbn.
  destruct (H x) as [y Hy]; [set_solver|]. rewrite Hy. cbn.
  destruct IH as [IH1 IH2]; [set_solver|]. split; [by rewrite IH1|]. intros [|i]; cbn; auto.
Qed.

Lemma contents_spec c :
  ring_wf c -> length (contents c) = Z.to_nat (count c) /\
  forall i, contents c !! i = ring_read c (Z.of_nat i).
Proof.
  intros Hw. unfold contents.
  destruct (omap_all (fun i => ring_read c (Z.of_nat i)) (seq 0 (Z.to_nat (count c)))) as [H1 H2].
  { intros i Hi%elem_of_seq. apply ring_read_is_Some; [done|lia]. }
  rewrite H1, length_seq. split; [done|]. intros i. rewrite H2.
  destruct (decide (i < Z.to_nat (count c))%nat) as [Hi|Hi].
  - rewrite lookup_seq_lt by done. done.
  - rewrite lookup_seq_ge by lia. cbn. rewrite ring_read_lookup, decide_False by (done || lia). done.
Qed.

Lemma push_fields c r :
  ring_wf c ->
  records (push_record r c) = <[Z.to_nat (write_index c) := r]> (records c) /\
  write_index (push_record r c) = (write_index c + 1) mod 256 /\
  count (push_record r c) = Z.min 256 (count c + 1).
Proof.
  intros [Hl Hw Hc]. unfold push_record, add32, wrap32.
  change (Z.of_nat PERSONA_AUDIT64_RING_CAPACITY) with 256. cbn [count records write_index setter].
  rewrite (Z.mod_small (write_index c + 1) (2 ^ 32)) by lia.
  destruct (Z.ltb_spec (count c) 256); cbn [count records write_index setter]; split_and!; try done; try lia.
  rewrite inc32_small by (unfold U32_MAX; lia). lia.
Qed.

Lemma push_wf c r : ring_wf c -> ring_wf (push_record r c).
Proof.
  intros Hw. destruct (push_fields c r Hw) as (E1 & E2 & E3). destruct Hw as [Hl Hw Hc].
  split; rewrite ?E1, ?E2, ?E3; [by rewrite length_insert| |lia].
  pose proof (Z.mod_pos_bound (write_index c + 1) 256). lia.
Qed.

(** The slot of a record that stays, before and after a push. *)
Lemma push_slot c r i :
  ring_wf c -> Z.of_nat i < count (push_record r c) ->
  let shift := (if decide (count c = 256) then 1%nat else 0%nat) in
  slot (push_record r c) i = slot c (i + shift) /\
  (slot c (i + shift) = Z.to_nat (write_index c) <-> Z.of_nat (i + shift) = count c).
Proof.
  intros Hwf Hi. destruct (push_fields c r Hwf) as (_ & E2 & E3). destruct Hwf as [_ Hw Hc].
  unfold slot. rewrite E2, E3 in *.
  case_decide as Hd; cbn zeta; split; try split; intros; f_equal; Z.div_mod_to_equations; lia.
Qed.

Lemma push_contents c r :
  ring_wf c -> contents (push_record r c) = log_push (contents c) r.
Proof.
  intros Hw. pose proof (push_wf c r Hw) as Hw'. unfold log_push.
  destruct (contents_spec c Hw) as [Hlen Hlk], (contents_spec _ Hw') as [Hlen' Hlk'].
  destruct (push_fields c r Hw) as (E1 & E2 & E3). pose proof (rw_count c Hw) as Hc.
  apply list_eq. intros i. rewrite Hlk', lookup_drop, ring_read_lookup, Hlen by done.
  unfold PERSONA_AUDIT64_RING_CAPACITY.
  set (shift := (if decide (count c = 256) then 1%nat else 0%nat)).
  replace (S (Z.to_nat (count c)) - 256 + i)%nat with (i + shift)%nat
    by (subst shift; case_decide; lia).
  case_decide as Hi.
  - destruct (push_slot c r i Hw Hi) as [-> Hiff]. rewrite E1. fold shift in Hiff |- *.
    assert (Hlt : (slot c (i + shift) < length (records c))%nat)
      by (rewrite (rw_length c Hw); apply slot_lt).
    destruct (decide (Z.of_nat (i + shift) = count c)) as [Heq|Hne].
    + rewrite (proj2 Hiff Heq) in *. rewrite list_lookup_insert_eq by done.
      rewrite lookup_app_r by lia. rewrite Hlen. by replace (i + shift - Z.to_nat (count c))%nat with 0%nat by lia.
    + rewrite list_lookup_insert_ne by (intros E; apply Hne, Hiff; done).
      rewrite lookup_app_l by (rewrite Hlen; subst shift; case_decide; lia).
      rewrite Hlk, ring_read_lookup, decide_True by (done || subst shift; case_decide; lia). done.
  - symmetry. apply lookup_ge_None_2. rewrite length_app, Hlen. cbn. subst shift. case_decide; lia.
Qed.

(** The newest record is the one just pushed. *)
Lemma push_last c r :
  ring_wf c -> 0 < count (push_record r c) <= 256 /\
  ring_read (push_record r c) (count (push_record r c) - 1) = Some r.
Proof.
  intros Hw. pose proof (push_wf c r Hw) as Hw'. destruct (push_fields c r Hw) as (_ & _ & E3).
  pose proof (rw_count c Hw). split; [lia|].
  destruct (contents_spec c Hw) as [Hlen _], (contents_spec _ Hw') as [Hlen' Hlk'].
  replace (count (push_record r c) - 1) with (Z.of_nat (Z.to_nat (count (push_record r c)) - 1)) by lia.
  rewrite <- Hlk', push_contents by done. unfold log_push.
  rewrite lookup_drop, lookup_app_r by (rewrite Hlen; unfold PERSONA_AUDIT64_RING_CAPACITY; lia).
  rewrite Hlen, E3. unfold PERSONA_AUDIT64_RING_CAPACITY.
  by replace (S (Z.to_nat (count c)) - 256 + (Z.to_nat (Z.min 256 (count c + 1)) - 1)
              - Z.to_nat (count c))%nat with 0%nat by lia.
Qed.

(** ** Contexts and processes *)

Section attached.
Context {launch : LaunchEnv}.

(** The context a process's audit slot points to. *)
Definition slot_context (s : audit_state) (p : Z) : option nat :=
  x ← proc (processes s) p; context_index (audit_ctx x).

Definition attached (s : audit_state) (p : Z) : option persona_audit64_context_t :=
  i ← slot_context s p; contexts s !! i.

Record ainv (s : audit_state) : Prop := {
  a_init : nz (initialized s) = true;
  a_contexts : length (contexts s) = PERSONA_AUDIT64_MAX_CONTEXTS;
  a_used : length (context_used s) = PERSONA_AUDIT64_MAX_CONTEXTS;
  a_proc : pinv (processes s);
  a_wf : forall i c, contexts s !! i = Some c -> ring_wf c;
  a_slot : forall p x, proc (processes s) p = Some x -> audit_ctx x <> 0 ->
    exists i, audit_ctx x = context_ptr i /\ context_used s !! i = Some 1;
  a_inj : forall p q x y, proc (processes s) p = Some x -> proc (processes s) q = Some y ->
    audit_ctx x <> 0 -> audit_ctx x = audit_ctx y -> p = q;
}.

Lemma context_index_ptr i : (i < 16)%nat -> context_index (context_ptr i) = Some i.
Proof.
  intros Hi. unfold context_index, context_ptr, PERSONA_AUDIT64_MAX_CONTEXTS.
  rewrite (proj2 (Z.ltb_lt _ _)), (proj2 (Z.leb_le _ _)) by lia. cbn [andb]. f_equal. lia.
Qed.

Lemma context_index_Some ptr i : context_index ptr = Some i -> ptr = context_ptr i /\ (i < 16)%nat.
Proof.
  unfold context_index, context_ptr, PERSONA_AUDIT64_MAX_CONTEXTS.
  destruct ((0 <? ptr) && _) eqn:E; [|done]. intros [= <-]. boolify. lia.
Qed.

Lemma slot_context_spec s p i :
  ainv s -> slot_context s p = Some i <->
  exists x, proc (processes s) p = Some x /\ audit_ctx x = context_ptr i /\ (i < 16)%nat.
Proof.
  intros Hi. unfold slot_context. rewrite bind_Some. split; intros (x & Hx & H); exists x.
  - apply context_index_Some in H as [? ?]. done.
  - destruct H as [-> H]. split; [done|]. by apply context_index_ptr.
Qed.

(** Different processes use different contexts. *)
Lemma slot_context_inj s p q i :
  ainv s -> slot_context s p = Some i -> slot_context s q = Some i -> p = q.
Proof.
  intros Hi (x & Hx & Ex & _)%(slot_context_spec s p i Hi) (y & Hy & Ey & _)%(slot_context_spec s q i Hi).
  eapply (a_inj s Hi p q x y); try done; [rewrite Ex; unfold context_ptr; lia|congruence].
Qed.

Lemma slot_context_lookup s p i :
  ainv s -> slot_context s p = Some i -> exists c, contexts s !! i = Some c /\ attached s p = Some c.
Proof.
  intros Hi Hs. pose proof Hs as Hs'. apply (slot_context_spec s p i Hi) in Hs' as (x & _ & _ & Hlt).
  destruct (lookup_lt_is_Some_2 (contexts s) i) as [c Hc]; [by rewrite (a_contexts s Hi)|].
  exists c. split; [done|]. unfold attached. rewrite Hs. done.
Qed.

Lemma context_null s p x :
  ainv s -> proc (processes s) p = Some x -> context_index (audit_ctx x) = None <-> audit_ctx x = 0.
Proof.
  intros Hi Hx. split; [|by intros ->]. intros Hn. destruct (decide (audit_ctx x = 0)) as [|Hne]; [done|].
  destruct (a_slot s Hi p x Hx Hne) as (i & Hc & Hu). apply lookup_lt_Some in Hu.
  rewrite (a_used s Hi) in Hu. rewrite Hc, context_index_ptr in Hn by done. done.
Qed.

Lemma attached_None s p :
  ainv s -> attached s p = None <-> forall x, proc (processes s) p = Some x -> audit_ctx x = 0.
Proof.
  intros Hi. unfold attached, slot_context. split.
  - intros H x Hx. rewrite Hx in H. cbn in H.
    apply (context_null s p x Hi Hx). destruct (context_index (audit_ctx x)) as [i|] eqn:E; [|done].
    cbn in H. apply context_index_Some in E as [_ Hlt].
    destruct (lookup_lt_is_Some_2 (contexts s) i) as [c Hc]; [by rewrite (a_contexts s Hi)|congruence].
  - intros H. destruct (proc (processes s) p) as [x|]; [|done]. cbn. by rewrite (H x eq_refl).
Qed.

(** Changing one context of a process. *)
Lemma ainv_context s i f :
  ainv s -> (forall c, ring_wf c -> ring_wf (f c)) ->
  ainv (s <| contexts := alter f i (contexts s) |>).
Proof.
  intros [H1 H2 H3 H4 H5 H6 H7] Hf. split; try done; cbn.
  - by rewrite length_alter.
  - intros j c (x & Hx & ->)%lookup_alter_Some. case_decide; eauto.
Qed.

Lemma attached_context s i f p q c :
  ainv s -> slot_context s p = Some i -> contexts s !! i = Some c ->
  attached (s <| contexts := alter f i (contexts s) |>) q = if q =? p then Some (f c) else attached s q.
Proof.
  intros Hi Hp Hc. unfold attached.
  change (slot_context (s <| contexts := alter f i (contexts s) |>) q) with (slot_context s q).
  destruct (Z.eqb_spec q p) as [->|Hq].
  - rewrite Hp. cbn. by rewrite list_lookup_alter, decide_True, Hc by done.
  - destruct (slot_context s q) as [j|] eqn:Hj; [|done]. cbn.
    rewrite list_lookup_alter_ne; [done|]. intros ->. by apply Hq, (slot_context_inj s q p j).
Qed.

(** ** Stepping through calls *)

Lemma on_processes_wp {A} (m : PM A) s (Q : A -> audit_state -> Prop) :
  wp m (fun a ps => Q a (s <| processes := ps |>)) (processes s) -> wp (on_processes m) Q s.
Proof. unfold wp, on_processes. destruct (m (processes s)). done. Qed.

Lemma audit_init_wp s (Q : unit -> audit_state -> Prop) : ainv s -> Q tt s -> wp persona_audit64_init Q s.
Proof. intros Hi HQ. unfold persona_audit64_init. do 2 wp_step. by rewrite (a_init s Hi). Qed.

Lemma processes_id s : s <| processes := processes s |> = s.
Proof. by destruct s. Qed.

(** Reading the process table. *)
Lemma read_proc_wp {A} (d : A) f s p (Q : A -> audit_state -> Prop) :
  ainv s -> Q (from_option f d (proc (processes s) p)) s -> wp (on_processes (read_field d f p)) Q s.
Proof.
  intros Hi HQ. apply on_processes_wp. eapply wp_mono; [apply read_field_wp, (a_proc s Hi)|].
  intros a ps [-> ->]. by rewrite processes_id.
Qed.

Lemma context_for_wp s p (Q : Z -> audit_state -> Prop) :
  ainv s -> Q (from_option audit_ctx 0 (proc (processes s) p)) s ->
  wp (persona_audit64_context_for_process p) Q s.
Proof.
  intros Hi HQ. unfold persona_audit64_context_for_process. wp_step. apply audit_init_wp; [done|].
  by apply read_proc_wp.
Qed.

(** The branch every reader and writer of a context takes. *)
Lemma context_cases {A} s p (k : nat -> AM A) (d : AM A) (Q : A -> audit_state -> Prop) :
  ainv s ->
  (attached s p = None -> wp d Q s) ->
  (forall i c, slot_context s p = Some i -> contexts s !! i = Some c -> attached s p = Some c ->
     wp (k i) Q s) ->
  wp (bind (persona_audit64_context_for_process p) (fun ctx =>
        match context_index ctx with None => d | Some i => k i end)) Q s.
Proof.
  intros Hi HN HS. wp_step. apply context_for_wp; [done|].
  assert (E : context_index (from_option audit_ctx 0 (proc (processes s) p)) = slot_context s p)
    by (unfold slot_context; by destruct (proc (processes s) p)).
  rewrite E. destruct (slot_context s p) as [i|] eqn:Hs.
  - destruct (slot_context_lookup s p i Hi Hs) as (c & Hc & Ha). eauto.
  - apply HN. unfold attached. by rewrite Hs.
Qed.

(** ** The calls *)

Context {env : AuditEnv}.

(** The next timestamp of the ring. *)
Definition next_timestamp (s : audit_state) : Z := Z.lor (Z.shiftl pit_get_ticks 32) (sequence s).

Definition view_upd (v : Z -> option persona_audit64_context_t) (p : Z)
    (o : option persona_audit64_context_t) (q : Z) : option persona_audit64_context_t :=
  if q =? p then o else v q.

(** The sequence number after a record. *)
Definition next_sequence (s : audit_state) : Z :=
  if inc32 (sequence s) =? 0 then 1 else inc32 (sequence s).

(** A call that keeps the invariant, returns [v], shows [view] and leaves
    the sequence number [sq]. *)
Definition ashows {A} (v : A) (view : Z -> option persona_audit64_context_t) (sq : Z)
    (res : A) (s' : audit_state) : Prop :=
  ainv s' /\ res = v /\ (forall q, attached s' q = view q) /\ sequence s' = sq.

Lemma ainv_sequence s n : ainv s -> ainv (s <| sequence := n |>).
Proof. by intros []. Qed.

Definition record_of (s : audit_state) (p etype ecode res addr : Z) : persona_audit64_record_t :=
  make_record p (stamped_type p) etype ecode res addr (next_timestamp s).

Lemma record_wp s p etype ecode res addr :
  ainv s ->
  wp (persona_audit64_record p etype ecode res addr)
     (fun v s' => processes s' = processes s /\
        ashows (match attached s p with Some _ => 1 | None => 0 end)
          (match attached s p with
           | Some c => view_upd (attached s) p (Some (push_record (record_of s p etype ecode res addr) c))
           | None => attached s
           end)
          (match attached s p with Some _ => next_sequence s | None => sequence s end) v s') s.
Proof.
  intros Hi. unfold persona_audit64_record. wp_step. apply audit_init_wp; [done|].
  apply context_cases; [done| |].
  - intros ->. wp_step. done.
  - intros i c Hs Hc Ha. rewrite Ha. unfold persona_audit64_timestamp, update_context. wp_steps.
    match goal with |- _ /\ ashows _ _ _ _ (?s1 <| contexts := _ |>) => set (s2 := s1) end.
    assert (Hi2 : ainv s2) by by apply ainv_sequence.
    split; [done|]. split; [|split; [done|split; [|done]]].
    + apply ainv_context; [done|]. intros x. apply push_wf.
    + intros q. rewrite (attached_context s2 i _ p q c) by done. done.
Qed.

Lemma read_wp s p index :
  ainv s ->
  wp (persona_audit64_read p index)
     (fun v s' => s' = s /\ v = (c ← attached s p; ring_read c index)) s.
Proof.
  intros Hi. unfold persona_audit64_read. wp_step. apply audit_init_wp; [done|].
  apply context_cases; [done|intros ->; by wp_step|].
  intros i c Hs Hc Ha. wp_step. unfold context_at. by rewrite Hc, Ha.
Qed.

Lemma count_wp s p :
  ainv s ->
  wp (persona_audit64_count p) (fun v s' => s' = s /\ v = from_option count 0 (attached s p)) s.
Proof.
  intros Hi. unfold persona_audit64_count, context_field.
  apply context_cases; [done|intros ->; by wp_step|].
  intros i c Hs Hc Ha. wp_step. unfold context_at. by rewrite Hc, Ha.
Qed.

(** No process points to a context marked free. *)
Lemma free_unattached s i q j :
  ainv s -> context_used s !! i = Some 0 -> slot_context s q = Some j -> j <> i.
Proof.
  intros Hi Hf Hq ->. apply (slot_context_spec s q i Hi) in Hq as (x & Hx & Hc & _).
  destruct (a_slot s Hi q x Hx) as (k & Hk & Hu); [rewrite Hc; unfold context_ptr; lia|].
  assert (k = i) by (rewrite Hc in Hk; unfold context_ptr in Hk; lia). congruence.
Qed.

Lemma clear_wf p : ring_wf (persona_audit64_clear_context <| ctx_pid := p |>).
Proof. by split. Qed.

(** Claiming a free context changes no process's view. *)
Lemma ainv_acquire s i p :
  ainv s -> context_used s !! i = Some 0 ->
  let s1 := s <| context_used := alter (fun _ => 1) i (context_used s) |>
              <| contexts := alter (fun _ => persona_audit64_clear_context <| ctx_pid := p |>) i (contexts s) |> in
  ainv s1 /\ forall q, attached s1 q = attached s q.
Proof.
  intros Hi Hf s1. pose proof Hi as [H1 H2 H3 H4 H5 H6 H7]. split.
  - split; try done; cbn; rewrite ?length_alter; try done.
    + intros j c (x & Hx & ->)%lookup_alter_Some. case_decide; [apply clear_wf|eauto].
    + intros q x Hx Hne. destruct (H6 q x Hx Hne) as (j & Hj & Hu). exists j. split; [done|].
      rewrite list_lookup_alter. case_decide; [|done]. subst. by rewrite Hu.
  - intros q. unfold attached. change (slot_context s1 q) with (slot_context s q).
    destruct (slot_context s q) as [j|] eqn:Hj; [|done]. cbn.
    rewrite list_lookup_alter_ne; [done|]. intros <-. by apply (free_unattached s i q i).
Qed.

Definition has_free_context (s : audit_state) : bool :=
  bool_decide (is_Some (find_index (fun u => u =? 0) (context_used s))).

Definition attach_result (s : audit_state) (p : Z) : Z * (Z -> option persona_audit64_context_t) :=
  match proc (processes s) p, attached s p with
  | Some _, None =>
      if has_free_context s
      then (1, view_upd (attached s) p (Some (persona_audit64_clear_context <| ctx_pid := p |>)))
      else (0, attached s)
  | _, _ => (0, attached s)
  end.

(** Pointing a process with an empty slot at a claimed, unused context. *)
Lemma ainv_point s p x i c ps' :
  ainv s -> proc (processes s) p = Some x -> audit_ctx x = 0 ->
  context_used s !! i = Some 1 -> contexts s !! i = Some c ->
  (forall q j, slot_context s q = Some j -> j <> i) ->
  pinv ps' -> (forall q, proc ps' q = upd (proc (processes s)) p (Some (x <| audit_ctx := context_ptr i |>)) q) ->
  ainv (s <| processes := ps' |>) /\
  forall q, attached (s <| processes := ps' |>) q = view_upd (attached s) p (Some c) q.
Proof.
  intros Hi Hx H0 Hu Hc Hfree Hps Hq. pose proof Hi as [H1 H2 H3 H4 H5 H6 H7].
  assert (Hlt : (i < 16)%nat) by (apply lookup_lt_Some in Hc; by rewrite H2 in Hc).
  assert (Hno : forall q y, proc (processes s) q = Some y -> audit_ctx y <> context_ptr i).
  { intros q y Hy E. apply (Hfree q i); [|done]. apply (slot_context_spec s q i Hi). eauto. }
  split.
  - split; try done; cbn.
    + intros q y. rewrite Hq. unfold upd. destruct (Z.eqb_spec q p); [|eauto].
      intros [= <-] _. cbn. eauto.
    + intros q1 q2 y1 y2. rewrite !Hq. unfold upd.
      destruct (Z.eqb_spec q1 p), (Z.eqb_spec q2 p); subst; try done.
      * intros [= <-] Hy2 _ E. cbn in E. by destruct (Hno q2 y2).
      * intros Hy1 [= <-] _ E. cbn in E. by destruct (Hno q1 y1).
      * eauto.
  - intros q. unfold attached, slot_context, view_upd. cbn. rewrite Hq. unfold upd.
    destruct (Z.eqb_spec q p); [|done]. cbn. rewrite context_index_ptr by done. done.
Qed.

Lemma proc_principal (s : process_state) p x : pinv s -> proc s p = Some x -> principal_id x <> 0.
Proof.
  intros Hi Hx. apply (proc_points s p x Hi) in Hx as (ref & Hr & _).
  by destruct (identity_live s ref x Hi Hr) as (_ & _ & ?).
Qed.

Lemma proc_invalid (s : process_state) : pinv s -> proc s PROCESS64_INVALID_PID = None.
Proof.
  intros Hi. destruct (proc s PROCESS64_INVALID_PID) as [x|] eqn:E; [|done].
  apply (proc_points s _ x Hi) in E as (ref & Hr & Hp).
  destruct (identity_live s ref x Hi Hr) as (_ & ? & _). pose proof (p_next s Hi). lia.
Qed.

Lemma audit_attach_wp s p :
  ainv s -> wp (persona_audit64_attach p) (ashows (attach_result s p).1 (attach_result s p).2 (sequence s)) s.
Proof.
  intros Hi. unfold persona_audit64_attach, attach_result. wp_step. apply audit_init_wp; [done|].
  destruct (Z.eqb_spec p PROCESS64_INVALID_PID) as [->|Hp].
  { wp_step. rewrite (proc_invalid _ (a_proc s Hi)). done. }
  wp_step. apply read_proc_wp; [done|].
  destruct (proc (processes s) p) as [x|] eqn:Hx; cbn [from_option]; [|by wp_step].
  rewrite (proj2 (Z.eqb_neq _ _) (proc_principal _ p x (a_proc s Hi) Hx)).
  wp_step. apply read_proc_wp; [done|]. rewrite Hx. cbn [from_option].
  destruct (attached s p) as [c|] eqn:Ha.
  { rewrite (proj2 (Z.eqb_neq _ _)); [by wp_steps|]. intros E.
    assert (attached s p = None); [|congruence]. apply (attached_None s p Hi). intros y. congruence. }
  assert (H0 : audit_ctx x = 0) by by apply (attached_None s p Hi). rewrite H0. cbn [Z.eqb negb].
  unfold persona_audit64_acquire_context, has_free_context, set_used, update_context. do 3 wp_step.
  destruct (find_index _ (context_used s)) as [i|] eqn:Hf; [|by wp_steps].
  rewrite bool_decide_true by eauto. cbn [fst snd].
  apply find_index_lookup in Hf as (u & Hu & Hz%Z.eqb_eq). subst u.
  do 6 wp_step. destruct (ainv_acquire s i p Hi Hu) as [Hi1 Ha1].
  match goal with |- wp _ _ ?t => set (s1 := t) in * end.
  apply on_processes_wp.
  eapply wp_mono; [exact (attach_wp _ _ (processes s1) p (context_ptr i) (a_proc s1 Hi1))|].
  intros v ps' (Hps & -> & Hq). unfold attach_view in *.
  change (processes s1) with (processes s) in *. rewrite Hx, H0 in *.
  assert (Hptr : (context_ptr i =? 0) = false) by done. rewrite Hptr in *.
  cbn [Z.eqb negb orb fst snd] in *.
  assert (Hlt : (i < 16)%nat) by (apply lookup_lt_Some in Hu; by rewrite (a_used s Hi) in Hu).
  destruct (lookup_lt_is_Some_2 (contexts s) i) as [c Hc]; [by rewrite (a_contexts s Hi)|].
  assert (Hc1 : contexts s1 !! i = Some (persona_audit64_clear_context <| ctx_pid := p |>))
    by (cbn; by rewrite list_lookup_alter, decide_True, Hc by done).
  assert (Hu1 : context_used s1 !! i = Some 1) by (cbn; by rewrite list_lookup_alter, decide_True, Hu by done).
  destruct (ainv_point s1 p x i _ ps' Hi1 Hx H0 Hu1 Hc1) as [Hi2 Ha2]; [|done|done|].
  { intros q j Hj ->. by apply (free_unattached s i q i). }
  wp_step. split; [done|]. split; [done|]. split; [|done]. intros q. etrans; [exact (Ha2 q)|].
  unfold view_upd. by rewrite Ha1.
Qed.

Definition release_result (s : audit_state) (p : Z) : Z * (Z -> option persona_audit64_context_t) :=
  match attached s p with
  | Some _ => (1, view_upd (attached s) p None)
  | None => (0, attached s)
  end.

(** Emptying a process's slot and returning its context. *)
Lemma ainv_unpoint s p x i ps' :
  ainv s -> proc (processes s) p = Some x -> audit_ctx x = context_ptr i -> (i < 16)%nat ->
  pinv ps' -> (forall q, proc ps' q = upd (proc (processes s)) p (Some (x <| audit_ctx := 0 |>)) q) ->
  let s1 := s <| processes := ps' |>
              <| contexts := alter (fun _ => persona_audit64_clear_context) i (contexts s) |>
              <| context_used := alter (fun _ => 0) i (context_used s) |> in
  ainv s1 /\ forall q, attached s1 q = view_upd (attached s) p None q.
Proof.
  intros Hi Hx Hc Hlt Hps Hq s1. pose proof Hi as [H1 H2 H3 H4 H5 H6 H7].
  assert (Hp : slot_context s p = Some i) by (apply (slot_context_spec s p i Hi); eauto).
  assert (Hold : forall q y, q <> p -> proc (processes s) q = Some y -> audit_ctx y <> context_ptr i).
  { intros q y Hne Hy E. apply Hne, (slot_context_inj s q p i); [done| |done].
    apply (slot_context_spec s q i Hi). eauto. }
  split.
  - split; try done; cbn; rewrite ?length_alter; try done.
    + intros j c (y & Hy & ->)%lookup_alter_Some. case_decide; [by split|eauto].
    + intros q y. rewrite Hq. unfold upd. destruct (Z.eqb_spec q p) as [->|Hne]; [by intros [= <-]|].
      intros Hy Hny. destruct (H6 q y Hy Hny) as (j & Hj & Hu). exists j. split; [done|].
      rewrite list_lookup_alter_ne; [done|]. intros ->. by apply (Hold q y).
    + intros q1 q2 y1 y2. rewrite !Hq. unfold upd.
      destruct (Z.eqb_spec q1 p), (Z.eqb_spec q2 p); subst; try done.
      * by intros [= <-].
      * intros _ [= <-] Hne E. cbn in E. done.
      * eauto.
  - intros q. unfold attached, slot_context, view_upd. cbn. rewrite Hq. unfold upd.
    destruct (Z.eqb_spec q p) as [->|Hne]; [done|].
    destruct (proc (processes s) q) as [y|] eqn:Hy; [|done]. cbn.
    destruct (context_index (audit_ctx y)) as [j|] eqn:Hj; [|done]. cbn.
    rewrite list_lookup_alter_ne; [done|]. intros ->. apply context_index_Some in Hj as [Hj _].
    by apply (Hold q y).
Qed.

Lemma audit_release_wp s p :
  ainv s -> wp (persona_audit64_release p) (ashows (release_result s p).1 (release_result s p).2 (sequence s)) s.
Proof.
  intros Hi. unfold persona_audit64_release, release_result. wp_step. apply audit_init_wp; [done|].
  assert (Hnone : proc (processes s) p = None -> attached s p = None)
    by (intros H; unfold attached, slot_context; by rewrite H).
  destruct (Z.eqb_spec p PROCESS64_INVALID_PID) as [->|Hp].
  { wp_step. by rewrite Hnone by apply proc_invalid, (a_proc s Hi). }
  wp_step. apply read_proc_wp; [done|].
  destruct (proc (processes s) p) as [x|] eqn:Hx; cbn [from_option]; [|by rewrite Hnone; [wp_step|]].
  rewrite (proj2 (Z.eqb_neq _ _) (proc_principal _ p x (a_proc s Hi) Hx)).
  wp_step. apply context_for_wp; [done|]. rewrite Hx. cbn [from_option].
  destruct (Z.eqb_spec (audit_ctx x) 0) as [H0|Hne].
  { wp_step. assert (attached s p = None) as ->; [|done]. apply (attached_None s p Hi). congruence. }
  destruct (a_slot s Hi p x Hx Hne) as (i & Hc & Hu).
  assert (Hlt : (i < 16)%nat) by (apply lookup_lt_Some in Hu; by rewrite (a_used s Hi) in Hu).
  assert (Hsc : slot_context s p = Some i) by (apply (slot_context_spec s p i Hi); eauto).
  destruct (slot_context_lookup s p i Hi Hsc) as (c & _ & ->). cbn [fst snd].
  wp_step. apply on_processes_wp.
  eapply wp_mono; [exact (detach_wp _ _ (processes s) p (a_proc s Hi))|].
  intros v ps' (Hps & -> & Hq). unfold detach_view in *. rewrite Hx in *. cbn [fst snd] in *.
  rewrite Z.eqb_refl. cbn [negb]. unfold persona_audit64_release_context, update_context, set_used.
  rewrite Hc, context_index_ptr by done. wp_steps.
  destruct (ainv_unpoint s p x i ps' Hi Hx Hc Hlt Hps Hq) as [Hi2 Ha2]. done.
Qed.

(** The released context is free again. *)
Lemma release_frees s p :
  ainv s -> attached s p <> None -> has_free_context (snd (persona_audit64_release p s)) = true.
Proof.
  intros Hi Ha.
  cut (wp (persona_audit64_release p) (fun _ s' => has_free_context s' = true) s); [done|].
  unfold persona_audit64_release. wp_step. apply audit_init_wp; [done|].
  destruct (proc (processes s) p) as [x|] eqn:Hx.
  2:{ destruct Ha. unfold attached, slot_context. by rewrite Hx. }
  assert (Hp : (p =? PROCESS64_INVALID_PID) = false).
  { apply Z.eqb_neq. intros ->. by rewrite (proc_invalid _ (a_proc s Hi)) in Hx. }
  assert (Hne : audit_ctx x <> 0).
  { intros E. apply Ha, (attached_None s p Hi). congruence. }
  rewrite Hp. wp_step. apply read_proc_wp; [done|]. rewrite Hx. cbn [from_option].
  rewrite (proj2 (Z.eqb_neq _ _) (proc_principal _ p x (a_proc s Hi) Hx)).
  wp_step. apply context_for_wp; [done|]. rewrite Hx. cbn [from_option].
  rewrite (proj2 (Z.eqb_neq _ _) Hne). destruct (a_slot s Hi p x Hx Hne) as (i & Hc & Hu).
  assert (Hlt : (i < 16)%nat) by (apply lookup_lt_Some in Hu; by rewrite (a_used s Hi) in Hu).
  wp_step. apply on_processes_wp. eapply wp_mono; [exact (detach_wp _ _ (processes s) p (a_proc s Hi))|].
  intros v ps' (_ & -> & _). unfold detach_view. rewrite Hx. cbn [fst]. rewrite Z.eqb_refl. cbn [negb].
  unfold persona_audit64_release_context, update_context, set_used.
  rewrite Hc, context_index_ptr by done. wp_steps. unfold has_free_context. cbn.
  apply bool_decide_eq_true. destruct (find_index _ _) eqn:Hf; [done|].
  assert (Hin : 0 ∈ alter (fun _ => 0) i (context_used s)).
  { apply (list_elem_of_lookup_2 _ i). by rewrite list_lookup_alter, decide_True, Hu by done. }
  by pose proof (proj1 (find_index_None _ _) Hf 0 Hin).
Qed.

Definition crash_persona (p : Z) : bool :=
  let t := persona64_type p in
  (t =? PERSONA64_TYPE_LINUX_ELF) || (t =? PERSONA64_TYPE_WINDOWS_PE) || (t =? PERSONA64_TYPE_MACOS_MACHO).

(** The context of a process once a crash of it has been recorded. *)
Definition crashed (s : audit_state) (p vector error_code ip sp addr : Z) (c : persona_audit64_context_t) :
    persona_audit64_context_t :=
  let t := persona64_type p in
  let code := persona_audit64_crash_result_for_persona t vector in
  let r := record_of s p PERSONA_AUDIT64_EVENT_CRASH
             (persona_audit64_crash_event_code t vector code) code ip in
  (push_record r c)
    <| last_crash := (crash_report p t vector code error_code ip sp addr)
                       <| cr_timestamp := next_timestamp s |> |>
    <| crash_count := inc32 (crash_count c) |>.

Lemma push_crash_count c r : crash_count (push_record r c) = crash_count c.
Proof. unfold push_record. by case_match. Qed.

Lemma ring_wf_crash c rep n : ring_wf c -> ring_wf (c <| last_crash := rep |> <| crash_count := n |>).
Proof. by intros []. Qed.

Definition crash_result (s : audit_state) (p vector error_code ip sp addr : Z)
    : Z * (Z -> option persona_audit64_context_t) :=
  match attached s p with
  | Some c => if crash_persona p
              then (1, view_upd (attached s) p (Some (crashed s p vector error_code ip sp addr c)))
              else (0, attached s)
  | None => (0, attached s)
  end.

Lemma crash_wp s p vector error_code ip sp addr :
  ainv s -> wp (persona_audit64_record_crash p vector error_code ip sp addr)
    (ashows (crash_result s p vector error_code ip sp addr).1
            (crash_result s p vector error_code ip sp addr).2
            (match attached s p with
             | Some _ => if crash_persona p then next_sequence s else sequence s
             | None => sequence s
             end)) s.
Proof.
  intros Hi. unfold persona_audit64_record_crash, crash_result. wp_step. apply audit_init_wp; [done|].
  apply context_cases; [done|intros ->; by wp_step|].
  intros i c Hs Hc Ha. rewrite Ha.
  assert (Hp : (p =? PROCESS64_INVALID_PID) = false).
  { apply Z.eqb_neq. intros ->. unfold attached, slot_context in Ha.
    by rewrite (proc_invalid _ (a_proc s Hi)) in Ha. }
  rewrite Hp, <- !negb_orb. fold (crash_persona p).
  destruct (crash_persona p); cbn [negb fst snd]; [|by wp_step].
  wp_step. eapply wp_mono; [by apply record_wp|]. intros v s1 (Ep & Hi1 & -> & Ha1 & Hseq).
  rewrite Ha in *. cbn [Z.eqb].
  assert (Hs1 : slot_context s1 p = Some i) by (unfold slot_context in *; by rewrite Ep).
  destruct (slot_context_lookup s1 p i Hi1 Hs1) as (c1 & Hc1 & Hac1).
  rewrite Ha1 in Hac1. unfold view_upd in Hac1. rewrite Z.eqb_refl in Hac1. injection Hac1 as <-.
  do 2 wp_step.
  match type of Hc1 with _ = Some (push_record ?r c) =>
    destruct (push_last c r (a_wf s Hi i c Hc)) as [Hpos Hlast]; set (rec := r) in * end.
  assert (Hat : context_at s1 i = push_record rec c) by (unfold context_at; by rewrite Hc1).
  rewrite Hat, (proj2 (Z.eqb_neq (count (push_record rec c)) 0)) by lia. cbn [negb].
  wp_step. eapply wp_mono; [by apply read_wp|]. intros o s2 [-> ->].
  rewrite Ha1. unfold view_upd at 1. rewrite Z.eqb_refl. cbn [mbind option_bind].
  assert (Hsub : sub32 (count (push_record rec c)) 1 = count (push_record rec c) - 1)
    by (apply wrap32_small; unfold fits32; lia).
  rewrite Hsub, Hlast. unfold update_context. wp_steps. split; [|split; [done|split; [|done]]].
  - apply ainv_context; [done|]. intros x. apply ring_wf_crash.
  - intros q. rewrite (attached_context s1 i _ p q _ Hi1 Hs1 Hc1). unfold view_upd.
    destruct (Z.eqb_spec q p) as [->|Hq].
    + unfold crashed. by rewrite push_crash_count.
    + rewrite Ha1. unfold view_upd. by rewrite (proj2 (Z.eqb_neq _ _) Hq).
Qed.

End attached.

End AuditFacts.
