(* ===== verification/AuditTheorems.v ===== *)
(** * Theorems of the persona audit ring *)

From Stdlib Require Import String Sorting.Sorted.
From S2P Require Import Prelude Principal Services64 Process ProcessFacts ProcessTheorems AuditNames PersonaAudit PersonaAuditFacts.
Import Principal Process ProcFacts ProcTheorems AuditNames PersonaAudit AuditFacts.
Local Open Scope Z_scope.

Module AuditTheorems.

Implicit Types (s : audit_state) (r : persona_audit64_record_t) (c : persona_audit64_context_t).

(** ** Runs

    Calls of the audit ring and of the process table, interleaved, under a
    clock that does not run backwards. *)

Inductive audit_op :=
| ARecord (p etype ecode res addr : Z)
| ACrash (p vector error_code ip sp addr : Z)
| AAttach (p : Z)
| ARelease (p : Z)
| AProcess (o : proc_op).

(** The audit slot belongs to this component: no other component attaches
    to it. *)
Definition quiet (o : audit_op) : bool :=
  match o with AProcess (PAttach SAudit _ _) => false | _ => true end.

Definition run_audit (env : AuditEnv) (launch : LaunchEnv) (o : audit_op) : AM Z :=
  match o with
  | ARecord p etype ecode res addr => persona_audit64_record p etype ecode res addr
  | ACrash p vector error_code ip sp addr => persona_audit64_record_crash p vector error_code ip sp addr
  | AAttach p => persona_audit64_attach p
  | ARelease p => persona_audit64_release p
  | AProcess o => on_processes (run_proc o)
  end.

(** Power on, then the initialisation of both components. *)
Definition audit_boot (launch : LaunchEnv) (s : audit_state) : audit_state :=
  snd (persona_audit64_init
    (mk_audit_state (contexts s) (context_used s) 0 0 (snd (process64_init power_on)))).

(** [n] calls after boot, the last one made at tick [t]. *)
Inductive areach (launch : LaunchEnv) : nat -> Z -> audit_state -> Prop :=
| areach_boot s : areach launch 0 0 (audit_boot launch s)
| areach_step n t s env o :
    areach launch n t s -> quiet o = true -> t <= @pit_get_ticks env ->
    g_process64_next_clone_pid (processes s) + 1 < PROCESS64_INVALID_PID ->
    areach launch (S n) (@pit_get_ticks env) (snd (run_audit env launch o s)).

(** ** Invariant of runs *)

(** The records a reader sees are in strictly increasing time order, and
    older than anything recorded from now on. *)
Definition ordered (bound : Z) (c : persona_audit64_context_t) : Prop :=
  StronglySorted Z.lt (timestamp <$> contents c) /\
  Forall (fun r => timestamp r < bound) (contents c).

Definition now (t sq : Z) : Z := t * 2 ^ 32 + sq.

Record run_inv (launch : LaunchEnv) (n : nat) (t : Z) (s : audit_state) : Prop := {
  ri_inv : ainv s;
  ri_tick : 0 <= t;
  ri_sequence : 1 <= sequence s <= 1 + Z.of_nat n;
  ri_ordered : forall p c, attached s p = Some c -> ordered (now t (sequence s)) c;
}.

Lemma ordered_mono b b' c : ordered b c -> b <= b' -> ordered b' c.
Proof. intros [? H] Hb. split; [done|]. eapply Forall_impl; [exact H|]. cbn. lia. Qed.

Lemma sorted_drop n (l : list Z) : StronglySorted Z.lt l -> StronglySorted Z.lt (drop n l).
Proof.
  revert n. induction l as [|x l IH]; intros [|n] H; cbn; try done. apply IH. by inversion H.
Qed.

Lemma sorted_snoc (l : list Z) x :
  StronglySorted Z.lt l -> Forall (fun y => y < x) l -> StronglySorted Z.lt (l ++ [x]).
Proof.
  induction 1 as [|y l Hs IH Hy]; intros Hf; cbn; [repeat constructor|].
  inversion Hf; subst. constructor; [by apply IH|]. apply Forall_app. split; [done|by repeat constructor].
Qed.

(** Recording at a time not before [b] keeps the order. *)
Lemma ordered_push b b' c r :
  ring_wf c -> ordered b c -> b <= timestamp r -> timestamp r < b' -> ordered b' (push_record r c).
Proof.
  intros Hw [Hs Hf] Hb Hb'. unfold ordered. rewrite push_contents by done. unfold log_push.
  rewrite fmap_drop, fmap_app. split.
  - apply sorted_drop, sorted_snoc; [done|]. apply Forall_fmap. eapply Forall_impl; [exact Hf|]. cbn. lia.
  - apply Forall_drop, Forall_app. split; [|by repeat constructor].
    eapply Forall_impl; [exact Hf|]. cbn. lia.
Qed.

Lemma ordered_crash b c rep k : ordered b c -> ordered b (c <| last_crash := rep |> <| crash_count := k |>).
Proof. done. Qed.

Section runs.
Context {launch : LaunchEnv}.

(** A process-table call that does not attach to audit slots. *)
Lemma quiet_view (ps : process_state) o :
  quiet (AProcess o) = true -> forall q y, (proc_view ps o).2 q = Some y -> audit_ctx y <> 0 ->
  exists x, proc ps q = Some x /\ audit_ctx x = audit_ctx y.
Proof.
  intros Hq q y Hy Hne.
  assert (Hupd : forall v p z, (exists x, proc ps p = Some x /\ audit_ctx x = audit_ctx z) \/ audit_ctx z = 0 ->
    (v q = Some y -> exists x, proc ps q = Some x /\ audit_ctx x = audit_ctx y) ->
    upd v p (Some z) q = Some y -> exists x, proc ps q = Some x /\ audit_ctx x = audit_ctx y).
  { intros v p z Hz Hv. unfold upd. destruct (Z.eqb_spec q p) as [->|]; [|done]. intros [= <-]. by destruct Hz. }
  revert Hy. destruct o as [k p ctx|k p|p a b d e|p tok|p|p|p code|p|p]; cbn [proc_view]; eauto.
  - unfold attach_view. destruct (proc ps p) as [x|] eqn:Hx; [|eauto]. case_match; cbn [snd]; [eauto|].
    apply Hupd; [|eauto]. left. exists x. destruct k; done.
  - unfold detach_view. destruct (proc ps p) as [x|] eqn:Hx; [|eauto]. cbn [snd].
    apply Hupd; [|eauto]. destruct k; [left; by exists x..|by right].
  - unfold attach_root_view. destruct (proc ps p) as [x|] eqn:Hx; [|eauto]. case_match; cbn [snd]; [eauto|].
    apply Hupd; [|eauto]. left. by exists x.
  - unfold clear_root_view. destruct (proc ps p) as [x|] eqn:Hx; [|eauto]. case_match; cbn [snd]; [eauto|].
    apply Hupd; [|eauto]. left. by exists x.
  - unfold spawn_view. destruct (proc ps p) as [x|] eqn:Hx; [|eauto]. repeat case_match; cbn [snd]; eauto.
    apply Hupd; [left; by exists x|]. apply Hupd; [by right|eauto].
  - unfold spawn_view. destruct (proc ps p) as [x|] eqn:Hx; [|eauto]. repeat case_match; cbn [snd]; eauto.
    apply Hupd; [left; by exists x|]. apply Hupd; [by right|eauto].
  - unfold mark_exited_view. destruct (proc ps p) as [x|] eqn:Hx; [|eauto]. case_match; cbn [snd]; [eauto|].
    apply Hupd; [|eauto]. left. by exists x.
  - unfold release_view. destruct (proc ps p) as [x|] eqn:Hx; [|eauto]. case_match; cbn [snd]; [|eauto].
    unfold upd at 1. destruct (q =? p); [done|]. destruct (proc ps (parent_pid x)) as [z|] eqn:Hz; [|eauto].
    apply Hupd; [|eauto]. left. by exists z.
Qed.

Lemma process_call_wp s o :
  ainv s -> quiet (AProcess o) = true ->
  g_process64_next_clone_pid (processes s) + 1 < PROCESS64_INVALID_PID ->
  wp (on_processes (run_proc o)) (fun _ s' => ainv s' /\ sequence s' = sequence s /\
    forall q c, attached s' q = Some c -> attached s q = Some c) s.
Proof.
  intros Hi Hq Hn. apply on_processes_wp.
  eapply wp_mono; [exact (run_proc_wp o (processes s) (a_proc s Hi) Hn)|].
  intros v ps' (Hps & _ & Hv). pose proof (quiet_view (processes s) o Hq) as Hold.
  assert (Hback : forall q y, proc ps' q = Some y -> audit_ctx y <> 0 ->
    exists x, proc (processes s) q = Some x /\ audit_ctx x = audit_ctx y).
  { intros q y Hy. rewrite Hv in Hy. by apply Hold. }
  destruct Hi as [H1 H2 H3 H4 H5 H6 H7]. split; [|split; [done|]].
  - split; try done; cbn.
    + intros p y Hy Hne. destruct (Hback p y Hy Hne) as (x & Hx & E). rewrite <- E in *. by apply (H6 p x Hx).
    + intros p q y1 y2 Hy1 Hy2 Hne E. destruct (Hback p y1 Hy1 Hne) as (x1 & ? & ?).
      destruct (Hback q y2 Hy2) as (x2 & ? & ?); [congruence|].
      eapply (H7 p q x1 x2); eauto; congruence.
  - intros q c. unfold attached, slot_context. cbn. destruct (proc ps' q) as [y|] eqn:Hy; [|done]. cbn.
    destruct (decide (audit_ctx y = 0)) as [E|Hne]; [by rewrite E|].
    destruct (Hback q y Hy Hne) as (x & Hx & E). rewrite Hx. cbn. by rewrite E.
Qed.

(** Moving a context of the run invariant. *)
Lemma run_inv_upd n t s t' s' v p c :
  run_inv launch n t s -> t <= t' -> ainv s' ->
  1 <= sequence s' <= 1 + Z.of_nat (S n) -> now t (sequence s) <= now t' (sequence s') ->
  (forall q, attached s' q = v q) -> (forall q c', v q = Some c' -> attached s q = Some c' \/
     (q = p /\ c' = c)) -> ordered (now t' (sequence s')) c ->
  run_inv launch (S n) t' s'.
Proof.
  intros [H1 H2 H3 H4] Ht Hi Hs Hnow Hv Hold Hc. split; [done|lia|done|].
  intros q c' Hq. rewrite Hv in Hq. destruct (Hold q c' Hq) as [Ha|[-> ->]]; [|done].
  eapply ordered_mono; [by eapply H4|done].
Qed.

Lemma contents_clear p : contents (persona_audit64_clear_context <| ctx_pid := p |>) = [].
Proof. done. Qed.

Lemma ordered_clear b p : ordered b (persona_audit64_clear_context <| ctx_pid := p |>).
Proof. unfold ordered. rewrite contents_clear. split; constructor. Qed.

Lemma next_sequence_spec n t s :
  run_inv launch n t s -> Z.of_nat n + 2 < 2 ^ 32 -> next_sequence s = sequence s + 1.
Proof.
  intros Hr Hn. pose proof (ri_sequence _ _ _ _ Hr). unfold next_sequence.
  rewrite inc32_small by (unfold U32_MAX; lia). by rewrite (proj2 (Z.eqb_neq _ _)) by lia.
Qed.

(** The context a record or a crash leaves. *)
Lemma ordered_record n t s env c r p :
  run_inv launch n t s -> t <= @pit_get_ticks env -> Z.of_nat n + 2 < 2 ^ 32 ->
  attached s p = Some c -> timestamp r = @next_timestamp env s ->
  ordered (now (@pit_get_ticks env) (sequence s + 1)) (push_record r c).
Proof.
  intros Hr Ht Hn Ha Hts. destruct Hr as [H1 H2 H3 H4].
  assert (Hnow : timestamp r = now (@pit_get_ticks env) (sequence s)).
  { rewrite Hts. apply lor_shiftl_add; lia. }
  unfold attached in Ha. apply bind_Some in Ha as Hi. destruct Hi as (i & _ & Hc).
  apply (ordered_push (now t (sequence s))); [by eapply (a_wf s H1)|by eapply H4| |];
    rewrite Hnow; unfold now in *; nia.
Qed.

Lemma run_inv_step n t s env o :
  run_inv launch n t s -> quiet o = true -> t <= @pit_get_ticks env -> Z.of_nat n + 2 < 2 ^ 32 ->
  g_process64_next_clone_pid (processes s) + 1 < PROCESS64_INVALID_PID ->
  run_inv launch (S n) (@pit_get_ticks env) (snd (run_audit env launch o s)).
Proof.
  intros Hr Hq Ht Hn Hpid. pose proof (next_sequence_spec n t s Hr Hn) as Hns.
  pose proof (ri_inv _ _ _ _ Hr) as Hi. pose proof (ri_sequence _ _ _ _ Hr) as Hseq.
  pose proof (ri_tick _ _ _ _ Hr) as Ht0.
  assert (Hsame : forall s', ainv s' -> sequence s' = sequence s ->
    (forall q c, attached s' q = Some c -> attached s q = Some c \/
       exists p, c = persona_audit64_clear_context <| ctx_pid := p |>) ->
    run_inv launch (S n) (@pit_get_ticks env) s').
  { intros s' Hi' Es Ha'. split; [done|lia|lia|]. intros q c Hc. rewrite Es.
    destruct (Ha' q c Hc) as [Ha|(p & ->)]; [|apply ordered_clear].
    eapply ordered_mono; [by eapply (ri_ordered _ _ _ _ Hr)|unfold now; nia]. }
  destruct o as [p etype ecode res addr|p vector ec ip sp addr|p|p|o]; cbn [run_audit].
  - destruct (record_wp s p etype ecode res addr Hi) as (_ & Hi' & _ & Ha' & Es).
    destruct (attached s p) as [c|] eqn:Ha; [|apply Hsame; auto; intros q c; rewrite Ha'; auto].
    eapply (run_inv_upd n t s _ _ _ p); [done|done|done|lia| |exact Ha'| |].
    + rewrite Es, Hns. unfold now. nia.
    + intros q c'. unfold view_upd. destruct (Z.eqb_spec q p); [intros [= <-]; auto|auto].
    + rewrite Es, Hns. by eapply ordered_record.
  - destruct (crash_wp s p vector ec ip sp addr Hi) as (Hi' & _ & Ha' & Es).
    unfold crash_result in Ha'.
    destruct (attached s p) as [c|] eqn:Ha; [|apply Hsame; auto; intros q c; rewrite Ha'; auto].
    destruct (crash_persona p); [|apply Hsame; auto; intros q c'; rewrite Ha'; auto].
    eapply (run_inv_upd n t s _ _ _ p); [done|done|done|lia| |exact Ha'| |].
    + rewrite Es, Hns. unfold now. nia.
    + intros q c'. cbn [snd]. unfold view_upd. destruct (Z.eqb_spec q p); [intros [= <-]; auto|auto].
    + rewrite Es, Hns. apply ordered_crash. by eapply ordered_record.
  - destruct (audit_attach_wp s p Hi) as (Hi' & _ & Ha' & Es). apply Hsame; auto.
    intros q c. rewrite Ha'. unfold attach_result. repeat case_match; cbn [snd]; auto.
    unfold view_upd. case_match; [intros [= <-]; eauto|auto].
  - destruct (audit_release_wp s p Hi) as (Hi' & _ & Ha' & Es). apply Hsame; auto.
    intros q c. rewrite Ha'. unfold release_result. repeat case_match; cbn [snd]; auto.
    unfold view_upd. case_match; [done|auto].
  - destruct (process_call_wp s o Hi Hq Hpid) as (Hi' & Es & Ha'). apply Hsame; eauto.
Qed.

Lemma boot_inv s : run_inv launch 0 0 (audit_boot launch s).
Proof.
  destruct (ProcFacts.process_init_wp (launch := launch)) as [Hp Hempty].
  change (snd (process64_ensure_init power_on)) with (snd (process64_init power_on)) in Hp, Hempty.
  assert (Hnone : forall p x, proc (snd (process64_init power_on)) p = Some x -> audit_ctx x = 0).
  { intros p x Hx. apply (proc_points _ p x Hp) in Hx as (ref & Hr & _). by apply (Hempty ref x). }
  unfold audit_boot, persona_audit64_init. cbn [bind gets snd fst initialized nz negb Z.eqb modify processes].
  revert Hp Hnone. generalize (snd (process64_init power_on)). intros ps Hp Hnone.
  assert (Hi : ainv (mk_audit_state (replicate PERSONA_AUDIT64_MAX_CONTEXTS persona_audit64_clear_context)
                (replicate PERSONA_AUDIT64_MAX_CONTEXTS 0) 1 1 ps)).
  { split; try done.
    - intros i c Hc. apply lookup_replicate in Hc as [-> _]. by split.
    - intros p x Hx Hne. by rewrite (Hnone p x Hx) in Hne.
    - intros p q x y Hx _ Hne. by rewrite (Hnone p x Hx) in Hne. }
  split; [done|done|cbn; lia|]. intros p c Ha.
  rewrite (proj2 (attached_None _ p Hi)) in Ha; [done|]. intros x. apply Hnone.
Qed.

Lemma areach_inv n t s : areach launch n t s -> Z.of_nat n + 1 < 2 ^ 32 -> run_inv launch n t s.
Proof.
  induction 1 as [s|n t s env o Hr IH Hq Ht Hp]; intros Hn; [apply boot_inv|].
  apply (run_inv_step n t s); auto; [apply IH|]; lia.
Qed.

(** ** Theorems *)

(** The log a process's records can be read back from. *)
Definition readable (s : audit_state) (p : Z) : option (list persona_audit64_record_t) :=
  contents <$> attached s p.

(** C9: recording an event appends it to the bounded log of that process, which
    keeps the newest 256 records, and leaves every other process's log as it
    was; a process without an attached ring is refused and nothing changes. *)
Theorem audit_record_appends n t s env p etype ecode res addr :
  areach launch n t s -> Z.of_nat n + 1 < 2 ^ 32 ->
  let (v, s') := @persona_audit64_record env launch p etype ecode res addr s in
  match readable s p with
  | Some l => v = 1 /\ readable s' p = Some (log_push l (record_of s p etype ecode res addr)) /\
              forall q, q <> p -> readable s' q = readable s q
  | None => v = 0 /\ forall q, readable s' q = readable s q
  end.
Proof.
  intros Hr Hn. pose proof (ri_inv _ _ _ _ (areach_inv n t s Hr Hn)) as Hi.
  pose proof (record_wp s p etype ecode res addr Hi) as H. unfold wp in H.
  destruct (persona_audit64_record p etype ecode res addr s) as [v s'].
  cbn [fst snd] in H. destruct H as (_ & _ & -> & Ha & _). unfold readable.
  destruct (attached s p) as [c|] eqn:Hp; cbn [fmap option_fmap option_map].
  - split; [done|]. apply bind_Some in Hp as (i & _ & Hc). split.
    + rewrite Ha. unfold view_upd. rewrite Z.eqb_refl. cbn. f_equal.
      apply push_contents. by apply (a_wf s Hi i).
    + intros q Hq. rewrite Ha. unfold view_upd. by rewrite (proj2 (Z.eqb_neq _ _) Hq).
  - split; [done|]. intros q. by rewrite Ha.
Qed.

(** a reader gets exactly the log: index [i] returns its [i]-th oldest
    record, any index past its end (or an unattached process) is refused,
    and reading changes nothing. *)
Theorem audit_read_returns_log n t s p (i : nat) :
  areach launch n t s -> Z.of_nat n + 1 < 2 ^ 32 ->
  persona_audit64_read p (Z.of_nat i) s = (l ← readable s p; l !! i, s).
Proof.
  intros Hr Hn. pose proof (ri_inv _ _ _ _ (areach_inv n t s Hr Hn)) as Hi.
  pose proof (read_wp s p (Z.of_nat i) Hi) as [H1 H2]. apply injective_projections; [|done].
  rewrite H2. cbn [fst]. unfold readable. destruct (attached s p) as [c|] eqn:Hp; [|done].
  apply bind_Some in Hp as (j & _ & Hc). cbn.
  by destruct (contents_spec c (a_wf s Hi j c Hc)) as [_ ->].
Qed.

(** as long as the clock does not run backwards and the 32-bit sequence
    number has not wrapped, every log is in strictly increasing timestamp
    order. *)
Theorem audit_log_chronological n t s p l :
  areach launch n t s -> Z.of_nat n + 1 < 2 ^ 32 -> readable s p = Some l ->
  StronglySorted Z.lt (timestamp <$> l).
Proof.
  intros Hr Hn Hp. unfold readable in Hp. apply fmap_Some in Hp as (c & Hc & ->).
  by destruct (ri_ordered _ _ _ _ (areach_inv n t s Hr Hn) p c Hc) as [? _].
Qed.

(** attaching succeeds exactly for a live process with no ring while one of
    the sixteen contexts is free; the log then starts empty, no two processes
    share a context, and releasing it restores every process's log and frees
    the context for the next attach. *)
Theorem audit_attach_release n t s p :
  areach launch n t s -> Z.of_nat n + 1 < 2 ^ 32 ->
  let (ok, s1) := persona_audit64_attach p s in
  (ok = 1 <-> proc (processes s) p <> None /\ attached s p = None /\ has_free_context s = true) /\
  (ok = 1 -> readable s1 p = Some [] /\
     (forall q i, slot_context s1 p = Some i -> slot_context s1 q = Some i -> q = p) /\
     let (ok', s2) := persona_audit64_release p s1 in
     ok' = 1 /\ (forall q, attached s2 q = attached s q) /\ has_free_context s2 = true).
Proof.
  intros Hr Hn. pose proof (ri_inv _ _ _ _ (areach_inv n t s Hr Hn)) as Hi.
  pose proof (audit_attach_wp s p Hi) as H. unfold wp in H.
  destruct (persona_audit64_attach p s) as [ok s1]. cbn [fst snd] in H. destruct H as (Hi1 & -> & Ha1 & _).
  cbn [fst snd] in *. unfold attach_result in *.
  destruct (proc (processes s) p) as [x|] eqn:Hx; [|split; [naive_solver|done]].
  destruct (attached s p) as [c|] eqn:Hap; [split; [naive_solver|done]|].
  destruct (has_free_context s) eqn:Hf; [|split; [naive_solver|done]].
  cbn [fst snd] in *. split; [done|]. intros _.
  assert (Hp1 : attached s1 p = Some (persona_audit64_clear_context <| ctx_pid := p |>))
    by (rewrite Ha1; unfold view_upd; by rewrite Z.eqb_refl).
  split; [unfold readable; by rewrite Hp1|]. split; [intros q i H1 H2; by eapply slot_context_inj|].
  pose proof (audit_release_wp s1 p Hi1) as H. unfold wp in H.
  pose proof (release_frees s1 p Hi1) as Hfree.
  destruct (persona_audit64_release p s1) as [ok' s2]. cbn [fst snd] in H. destruct H as (Hi2 & -> & Ha2 & _).
  cbn [fst snd] in *. unfold release_result in *. rewrite Hp1 in *. cbn [fst snd] in *.
  split; [done|]. split; [|by apply Hfree]. intros q. rewrite Ha2. unfold view_upd.
  destruct (Z.eqb_spec q p) as [->|Hq]; [done|]. rewrite Ha1. unfold view_upd.
  by rewrite (proj2 (Z.eqb_neq _ _) Hq).
Qed.

Lemma crash_report_fields {env : AuditEnv} p ptype vector code ec ip sp addr ts :
  let rep := (crash_report p ptype vector code ec ip sp addr) <| cr_timestamp := ts |> in
  cr_abi_code rep = code /\ cr_rip rep = ip /\ cr_rsp rep = sp /\ cr_error_code rep = ec /\
  cr_fault_address rep = addr /\ cr_timestamp rep = ts.
Proof.
  unfold crash_report. destruct (vma64_first_region p), (vma64_find p addr); cbn; split_and!; reflexivity.
Qed.

(** a crash of a Linux, Windows or macOS process is recorded as one event
    carrying that persona's signal or status code, and the crash report read
    back names the same code, registers and fault address and bears the
    timestamp of that newest record. *)
Theorem audit_crash_reported n t s env p vector error_code ip sp addr l :
  areach launch n t s -> Z.of_nat n + 1 < 2 ^ 32 -> 
  readable s p = Some l -> crash_persona p = true ->
  let code := persona_audit64_crash_result_for_persona (persona64_type p) vector in
  let (v, s1) := @persona_audit64_record_crash env launch p vector error_code ip sp addr s in
  v = 1 /\
  exists r rep, readable s1 p = Some (log_push l r) /\
    event_type r = PERSONA_AUDIT64_EVENT_CRASH /\ result r = code /\ rip r = ip /\
    last_crash <$> attached s1 p = Some rep /\
    cr_abi_code rep = code /\ cr_rip rep = ip /\ cr_rsp rep = sp /\
    cr_error_code rep = error_code /\ cr_fault_address rep = addr /\
    cr_timestamp rep = timestamp r.
Proof.
  intros Hr Hn Hl Hcp. pose proof (ri_inv _ _ _ _ (areach_inv n t s Hr Hn)) as Hi. cbn zeta.
  pose proof (crash_wp s p vector error_code ip sp addr Hi) as H. unfold wp in H.
  destruct (persona_audit64_record_crash p vector error_code ip sp addr s) as [v s1].
  cbn [fst snd] in H. destruct H as (_ & -> & Ha & _). unfold crash_result in *. cbn [fst snd] in *.
  unfold readable in Hl. apply fmap_Some in Hl as (c & Hc & ->). rewrite Hc, Hcp in *. cbn [fst snd] in *.
  assert (Hc1 : attached s1 p = Some (crashed s p vector error_code ip sp addr c))
    by (rewrite Ha; unfold view_upd; by rewrite Z.eqb_refl).
  split; [done|]. apply bind_Some in Hc as (i & _ & Hci).
  exists (record_of s p PERSONA_AUDIT64_EVENT_CRASH
    (persona_audit64_crash_event_code (persona64_type p) vector
      (persona_audit64_crash_result_for_persona (persona64_type p) vector))
    (persona_audit64_crash_result_for_persona (persona64_type p) vector) ip).
  eexists. unfold readable. rewrite Hc1. cbn [fmap option_fmap option_map].
  split; [f_equal; by apply (push_contents c), (a_wf s Hi i)|]. do 3 (split; [reflexivity|]).
  split; [reflexivity|]. apply (crash_report_fields p (persona64_type p) vector).
Qed.

End runs.

(** ** Names and classes *)

Lemma switch_spec {A} (cases : list (Z * A)) (d : A) n :
  (exists v, (n, v) ∈ cases /\ switch cases d n = v) \/
  (~ (n ∈ (fst <$> cases)) /\ switch cases d n = d).
Proof.
  unfold switch. destruct (find_index (fun kv => kv.1 =? n) cases) as [i|] eqn:Hf.
  - left. apply find_index_lookup in Hf as ([m v] & Hl & Hm%Z.eqb_eq). cbn in Hm. subst m.
    exists v. split; [by eapply list_elem_of_lookup_2|]. by rewrite Hl.
  - right. split; [|done]. intros ([m v] & -> & Hin)%list_elem_of_fmap.
    pose proof (proj1 (find_index_None _ _) Hf _ Hin) as Hn. by apply Z.eqb_neq in Hn.
Qed.

(** Every name the tables can produce. *)
Definition all_names : list string :=
  ["native.unknown"; "linux.unknown"; "windows.unknown"; "macos.unknown"]%string ++
  (snd <$> linux_name_cases) ++ (snd <$> windows_name_cases) ++ (snd <$> macos_name_cases).

Lemma switch_name cases d n :
  d ∈ all_names -> (forall v, v ∈ (snd <$> cases) -> v ∈ all_names) -> switch cases d n ∈ all_names.
Proof.
  intros Hd Hc. destruct (switch_spec cases d n) as [(v & Hin & ->)|[_ ->]]; [|done].
  apply Hc, list_elem_of_fmap. by exists (n, v).
Qed.

Lemma syscall_name_known t n : persona_audit64_syscall_name t n ∈ all_names.
Proof.
  unfold persona_audit64_syscall_name.
  repeat case_match; try apply switch_name;
    try (apply (bool_decide_unpack _); vm_compute; exact I);
    intros v Hv; unfold all_names; rewrite !elem_of_app; tauto.
Qed.

Lemma fmap_nodup_inj {A B} (f : A -> B) (l : list A) x y :
  NoDup (f <$> l) -> x ∈ l -> y ∈ l -> f x = f y -> x = y.
Proof.
  intros Hnd (i & Hi)%list_elem_of_lookup (j & Hj)%list_elem_of_lookup E.
  assert (i = j); [|congruence].
  eapply (NoDup_lookup (f <$> l)); eauto; rewrite list_lookup_fmap; [by rewrite Hi|by rewrite Hj, E].
Qed.

(** the name tokens of the audit records identify the syscall: no two
    different syscall names of any personas hash to the same token, and no
    token is 0. *)
Theorem audit_tokens_identify_names t1 n1 t2 n2 :
  persona_audit64_syscall_name_token t1 n1 = persona_audit64_syscall_name_token t2 n2 ->
  persona_audit64_syscall_name t1 n1 = persona_audit64_syscall_name t2 n2 /\
  persona_audit64_syscall_name_token t1 n1 <> 0.
Proof.
  unfold persona_audit64_syscall_name_token. intros H. split.
  - eapply (fmap_nodup_inj (fun n => persona_audit64_hash_text (Some n)) all_names);
      eauto using syscall_name_known.
    apply (bool_decide_unpack _). vm_compute. exact I.
  - unfold persona_audit64_hash_text. destruct (Z.eqb_spec (hash_bytes 2166136261
      (bytes_of (persona_audit64_syscall_name t1 n1))) 0); cbn; [done|done].
Qed.

(** The syscalls of a persona that have a name, and those that have a class. *)
Definition named (t n : Z) : Prop :=
  persona_audit64_syscall_name t n ∉ ["native.unknown"; "linux.unknown"; "windows.unknown"; "macos.unknown"]%string.
Definition classified (t n : Z) : Prop :=
  persona_audit64_translated_operation t n <> PERSONA_AUDIT64_OP_UNAVAILABLE.

Lemma list_all {A} (P : A -> Prop) `{!forall x, Decision (P x)} (l : list A) :
  forallb (fun m => bool_decide (P m)) l = true -> forall m, m ∈ l -> P m.
Proof.
  intros Hl m Hm%list_elem_of_In. rewrite forallb_forall in Hl. apply Hl in Hm.
  by apply bool_decide_eq_true in Hm.
Qed.

(** Two switches over the same case labels. *)
Lemma switch_agree (names : list (Z * string)) (ops : list (Z * Z)) dn dop n (bad : list string) :
  (forall m, m ∈ (fst <$> names) <-> m ∈ (fst <$> ops)) -> dn ∈ bad ->
  (forall v, v ∈ (snd <$> names) -> v ∉ bad) -> (forall v, v ∈ (snd <$> ops) -> v <> dop) ->
  switch names dn n ∉ bad <-> switch ops dop n <> dop.
Proof.
  intros Hk Hd Hn Ho.
  destruct (switch_spec names dn n) as [(v & Hv & ->)|[Hv ->]], (switch_spec ops dop n) as [(w & Hw & ->)|[Hw ->]].
  - split; intros _; [apply Ho|apply Hn]; apply list_elem_of_fmap; eauto.
    + by exists (n, w).
    + by exists (n, v).
  - destruct Hw. apply Hk, list_elem_of_fmap. by exists (n, v).
  - destruct Hv. apply Hk, list_elem_of_fmap. by exists (n, w).
  - done.
Qed.

(** the two tables of the audit ring agree: for every persona and every
    syscall number, the syscall has a name exactly when it has an operation
    class. *)
Theorem audit_names_and_classes_agree t n : named t n <-> classified t n.
Proof.
  assert (Hkeys : forall (l1 l2 : list Z), forallb (fun m => bool_decide (m ∈ l2)) l1 = true ->
    forallb (fun m => bool_decide (m ∈ l1)) l2 = true -> forall m, m ∈ l1 <-> m ∈ l2).
  { intros l1 l2 H1 H2 m. rewrite forallb_forall in H1, H2.
    split; intros Hm%list_elem_of_In; [apply H1 in Hm|apply H2 in Hm]; by apply bool_decide_eq_true in Hm. }
  unfold named, classified, persona_audit64_syscall_name, persona_audit64_translated_operation.
  repeat case_match; [apply switch_agree..|].
  all: try (apply Hkeys; vm_compute; reflexivity).
  all: try (apply (bool_decide_unpack _); vm_compute; exact I).
  all: try (apply (list_all (fun v => ~ (v ∈ _))); vm_compute; reflexivity).
  all: try (apply (list_all (fun v => v <> PERSONA_AUDIT64_OP_UNAVAILABLE)); vm_compute; reflexivity).
Qed.

(** ** Witnesses *)

Definition demo_audit_env (t : Z) : AuditEnv := {|
  pit_get_ticks := t;
  persona64_type := fun p => if p =? 4 then PERSONA64_TYPE_LINUX_ELF else PERSONA64_TYPE_LIMITLESS_NATIVE;
  vma64_region_count := fun _ => 1;
  vma64_mapped_bytes := fun _ => 0x1000;
  vma64_first_region := fun _ => Some (mk_region 0x400000 0x401000 5);
  vma64_find := fun _ _ => None;
|}.

Definition demo_audit_boot : audit_state :=
  audit_boot demo_launch (mk_audit_state [] [] 0 0 power_on).
Definition demo_audit_attached : audit_state :=
  snd (run_audit (demo_audit_env 5) demo_launch (AAttach 4) demo_audit_boot).
Definition demo_audit_one : audit_state :=
  snd (run_audit (demo_audit_env 6) demo_launch (ARecord 4 3 1 0 0x400010) demo_audit_attached).

Lemma demo_audit_attached_reached : areach demo_launch 1 5 demo_audit_attached.
Proof. refine (areach_step _ 0 0 _ (demo_audit_env 5) (AAttach 4) (areach_boot _ _) _ _ _); done. Qed.
Lemma demo_audit_one_reached : areach demo_launch 2 6 demo_audit_one.
Proof. refine (areach_step _ 1 5 _ (demo_audit_env 6) _ demo_audit_attached_reached _ _ _); done. Qed.

Lemma demo_audit_attached_readable : readable demo_audit_attached 4 = Some [].
Proof. vm_compute. reflexivity. Qed.

Lemma audit_record_appends_witness :
  readable (snd (@persona_audit64_record (demo_audit_env 6) demo_launch 4 3 1 0 0x400010 demo_audit_attached)) 4
  = Some [@record_of (demo_audit_env 6) demo_audit_attached 4 3 1 0 0x400010].
Proof.
  pose proof (@audit_record_appends demo_launch 1 5 demo_audit_attached (demo_audit_env 6) 4 3 1 0 0x400010
    demo_audit_attached_reached eq_refl) as H.
  destruct (persona_audit64_record 4 3 1 0 0x400010 demo_audit_attached) as [v s'].
  rewrite demo_audit_attached_readable in H. destruct H as (_ & H & _). exact H.
Defined.

Lemma audit_read_returns_log_witness :
  fst (@persona_audit64_read demo_launch 4 0 demo_audit_attached) = None.
Proof.
  pose proof (@audit_read_returns_log demo_launch 1 5 demo_audit_attached 4 0
    demo_audit_attached_reached eq_refl) as H. rewrite demo_audit_attached_readable in H.
  change (Z.of_nat 0) with 0 in H. rewrite H. reflexivity.
Defined.

Definition demo_log : list persona_audit64_record_t := default [] (readable demo_audit_one 4).
Lemma demo_log_readable : readable demo_audit_one 4 = Some demo_log.
Proof. vm_compute. reflexivity. Qed.

Lemma audit_log_chronological_witness : StronglySorted Z.lt (timestamp <$> demo_log).
Proof.
  exact (@audit_log_chronological demo_launch 2 6 demo_audit_one 4 demo_log demo_audit_one_reached
    eq_refl demo_log_readable).
Defined.

Lemma audit_attach_release_witness :
  let (ok, s1) := @persona_audit64_attach demo_launch 5 demo_audit_attached in
  (ok = 1 <-> proc (processes demo_audit_attached) 5 <> None /\ attached demo_audit_attached 5 = None /\
     has_free_context demo_audit_attached = true).
Proof.
  pose proof (@audit_attach_release demo_launch 1 5 demo_audit_attached 5
    demo_audit_attached_reached eq_refl) as H.
  destruct (persona_audit64_attach 5 demo_audit_attached) as [ok s1]. destruct H as [H _]. exact H.
Defined.

Lemma audit_crash_reported_witness :
  fst (@persona_audit64_record_crash (demo_audit_env 7) demo_launch 4 14 4 0x400020 0x7000 0
         demo_audit_attached) = 1.
Proof.
  pose proof (@audit_crash_reported demo_launch 1 5 demo_audit_attached (demo_audit_env 7) 4 14 4
    0x400020 0x7000 0 [] demo_audit_attached_reached eq_refl demo_audit_attached_readable eq_refl) as H.
  cbn zeta in H.
  destruct (persona_audit64_record_crash 4 14 4 0x400020 0x7000 0 demo_audit_attached) as [v s1].
  destruct H as [H _]. exact H.
Defined.

Lemma audit_tokens_identify_names_witness :
  persona_audit64_syscall_name 1 0 = persona_audit64_syscall_name 1 0 /\
  persona_audit64_syscall_name_token 1 0 <> 0.
Proof. apply (audit_tokens_identify_names 1 0 1 0). reflexivity. Defined.

End AuditTheorems.
