(* ===== verification/PersonaBudget.v ===== *)
(** * Resource budgets of a persona: kernel/arch/x86_64/persona.c

    The budget fields of [persona_context_t] and the functions that check,
    commit and release against them.  The contexts attached to processes are
    a map from pids; a pid without a context is unrestricted, as in the C
    code. *)

From S2P Require Import Prelude.
Local Open Scope Z_scope.
Local Open Scope kernel_scope.

Module PersonaBudget.

Definition PERSONA64_BUDGET_KIND_NONE : Z := 0.
Definition PERSONA64_BUDGET_KIND_VMA_PAGE : Z := 1.
Definition PERSONA64_BUDGET_KIND_FD : Z := 2.
Definition PERSONA64_BUDGET_KIND_PIPE : Z := 3.

Record persona_context_t := mk_persona {
  vma_page_budget : Z;
  fd_budget : Z;
  pipe_budget : Z;
  pipe_count : Z;
  budget_denial_count : Z;
  budget_last_kind : Z;
  budget_last_requested : Z;
  budget_last_limit : Z;
}.

#[export] Instance eta_persona : Eta persona_context_t := {| eta c :=
  mk_persona (vma_page_budget c) (fd_budget c) (pipe_budget c) (pipe_count c)
    (budget_denial_count c) (budget_last_kind c) (budget_last_requested c) (budget_last_limit c) |}.

Record persona_state := mk_persona_state {
  persona_contexts : gmap Z persona_context_t;
  g_persona64_denial_count : Z;
}.

#[export] Instance eta_persona_state : Eta persona_state := {| eta s :=
  mk_persona_state (persona_contexts s) (g_persona64_denial_count s) |}.

Abbreviation BM := (ST persona_state).

Definition persona64_context_for_process (p : Z) : BM (option persona_context_t) :=
  gets (fun s => persona_contexts s !! p).

Definition set_context (p : Z) (c : persona_context_t) : BM unit :=
  modify (fun s => s <| persona_contexts := <[p := c]> (persona_contexts s) |>).

Definition persona64_budget_record_denial (p : Z) (c : persona_context_t) (kind requested limit : Z) : BM Z :=
  set_context p (c <| budget_denial_count := inc32 (budget_denial_count c) |>
    <| budget_last_kind := kind |> <| budget_last_requested := requested |>
    <| budget_last_limit := limit |>) ;;;
  ret 0.

(** Saturating sum. *)
Definition persona64_budget_sum (current additional : Z) : Z :=
  if sub32 U32_MAX current <? additional then U32_MAX else add32 current additional.

Definition persona64_configure_resource_budgets (p vma_pages fds pipes : Z) : BM Z :=
  context <- persona64_context_for_process p ;;
  match context with
  | None => modify (fun s => s <| g_persona64_denial_count := inc32 (g_persona64_denial_count s) |>) ;;; ret 0
  | Some c =>
      set_context p (c <| vma_page_budget := vma_pages |> <| fd_budget := fds |>
        <| pipe_budget := pipes |> <| budget_last_kind := PERSONA64_BUDGET_KIND_NONE |>
        <| budget_last_requested := 0 |> <| budget_last_limit := 0 |>) ;;;
      ret 1
  end.

Definition persona64_budget_check_vma_pages (p current additional : Z) : BM Z :=
  context <- persona64_context_for_process p ;;
  match context with
  | None => ret 1
  | Some c =>
      if additional =? 0 then ret 1 else
      let requested := persona64_budget_sum current additional in
      if (vma_page_budget c <? requested) || (vma_page_budget c <? current)
      then persona64_budget_record_denial p c PERSONA64_BUDGET_KIND_VMA_PAGE requested (vma_page_budget c)
      else ret 1
  end.

Definition persona64_budget_check_fd (p current additional : Z) : BM Z :=
  context <- persona64_context_for_process p ;;
  match context with
  | None => ret 1
  | Some c =>
      if additional =? 0 then ret 1 else
      let requested := persona64_budget_sum current additional in
      if (fd_budget c <? requested) || (fd_budget c <? current)
      then persona64_budget_record_denial p c PERSONA64_BUDGET_KIND_FD requested (fd_budget c)
      else ret 1
  end.

Definition persona64_budget_check_pipe (p additional : Z) : BM Z :=
  context <- persona64_context_for_process p ;;
  match context with
  | None => ret 1
  | Some c =>
      if additional =? 0 then ret 1 else
      let requested := persona64_budget_sum (pipe_count c) additional in
      if (pipe_budget c <? requested) || (pipe_budget c <? pipe_count c)
      then persona64_budget_record_denial p c PERSONA64_BUDGET_KIND_PIPE requested (pipe_budget c)
      else ret 1
  end.

Definition persona64_budget_commit_pipe (p pipes : Z) : BM Z :=
  context <- persona64_context_for_process p ;;
  match context with
  | None => ret 1
  | Some c =>
      ok <- persona64_budget_check_pipe p pipes ;;
      if ok =? 0 then ret 0
      else set_context p (c <| pipe_count := persona64_budget_sum (pipe_count c) pipes |>) ;;; ret 1
  end.

Definition persona64_budget_release_pipe (p pipes : Z) : BM Z :=
  context <- persona64_context_for_process p ;;
  match context with
  | None => ret 1
  | Some c =>
      if pipes =? 0 then ret 1
      else set_context p (c <| pipe_count := if pipes <=? pipe_count c
                                             then sub32 (pipe_count c) pipes else 0 |>) ;;;
           ret 1
  end.

Definition budget_field (d : Z) (f : persona_context_t -> Z) (p : Z) : BM Z :=
  context <- persona64_context_for_process p ;; ret (from_option f d context).

Definition persona64_vma_page_budget : Z -> BM Z := budget_field 0 vma_page_budget.
Definition persona64_fd_budget : Z -> BM Z := budget_field 0 fd_budget.
Definition persona64_pipe_budget : Z -> BM Z := budget_field 0 pipe_budget.
Definition persona64_pipe_count : Z -> BM Z := budget_field 0 pipe_count.
Definition persona64_budget_denial_count : Z -> BM Z := budget_field 0 budget_denial_count.
Definition persona64_budget_last_kind : Z -> BM Z :=
  budget_field PERSONA64_BUDGET_KIND_NONE budget_last_kind.
Definition persona64_budget_last_requested : Z -> BM Z := budget_field 0 budget_last_requested.
Definition persona64_budget_last_limit : Z -> BM Z := budget_field 0 budget_last_limit.

(** ** Facts *)

Lemma budget_sum_exact a b :
  0 <= a <= U32_MAX -> 0 <= b <= U32_MAX -> persona64_budget_sum a b = Z.min U32_MAX (a + b).
Proof.
  intros Ha Hb. unfold persona64_budget_sum, sub32, add32, wrap32, U32_MAX in *.
  rewrite Z.mod_small by lia. destruct (Z.ltb_spec (0xFFFFFFFF - a) b); [lia|].
  rewrite Z.mod_small by lia. lia.
Qed.

End PersonaBudget.
