(* ===== verification/Pipe.v ===== *)
(** * Anonymous pipes: kernel/arch/x86_64/pipe.c

    Sixteen pipe objects with 4 KiB circular buffers, generation-stamped
    endpoint handles, reference counts per end, and blocking of the reading
    and the writing task.  The process table and the run queue are reached
    through [PipeWorld]; the persona budgets are those of PersonaBudget.v.
    [pipe64_create_flags] and [pipe64_grant_endpoint_inner], which also work
    on descriptor tables, are in Fd.v.  UEFI kernel configuration; pointer
    arguments are non-null.  Theorems are in PipeFacts.v and PipeTheorems.v. *)

From S2P Require Import Prelude Process PersonaBudget.
Import PersonaBudget.
Local Open Scope Z_scope.
Local Open Scope kernel_scope.

Module Pipe.

Abbreviation PROCESS64_INVALID_PID := Process.PROCESS64_INVALID_PID.
Definition PIPE64_INVALID_HANDLE : Z := 0xFFFFFFFF.
Definition PIPE64_IO_ERROR : Z := 0xFFFFFFFF.
Definition PIPE64_IO_BLOCKED : Z := 0xFFFFFFFE.
Definition PIPE64_BUFFER_BYTES : Z := 4096.
Definition PIPE64_MAX_BUFFER_BYTES : Z := 65536.
Definition PIPE64_MAX_OBJECTS : nat := 16.
Definition PIPE64_SPIN_WAIT_LIMIT : nat := 1024.
Definition PIPE64_HANDLE_BASE : Z := 0x0F000000.
Definition PIPE64_HANDLE_BASE_MASK : Z := 0xFF000000.
Definition PIPE64_HANDLE_GENERATION_SHIFT : Z := 8.
Definition PIPE64_HANDLE_GENERATION_MASK : Z := 0x000FFF00.
Definition PIPE64_HANDLE_INDEX_SHIFT : Z := 1.
Definition PIPE64_HANDLE_INDEX_MASK : Z := 0x000000FE.
Definition PIPE64_HANDLE_KIND_MASK : Z := 1.
Definition PIPE64_HANDLE_KIND_READ : Z := 0.
Definition PIPE64_HANDLE_KIND_WRITE : Z := 1.

Definition FD64_INVALID_FD : Z := 0xFFFFFFFF.
Definition SCHEDULER64_INVALID_TASK : Z := 0xFFFFFFFF.
Definition SCHEDULER64_TASK_RUNNING : Z := 2.

Record pipe64_buffer_t := mk_pipe {
  live : Z; owner_pid : Z; owner_id : Z; read_owner_id : Z; write_owner_id : Z;
  read_grantee_owner_id : Z; write_grantee_owner_id : Z;
  read_ref_count : Z; write_ref_count : Z; generation : Z;
  read_handle : Z; write_handle : Z; read_fd : Z; write_fd : Z;
  capacity : Z; max_capacity : Z; read_index : Z; write_index : Z;
  byte_count : Z; byte_count_semaphore : Z; writer_closed : Z; reader_closed : Z;
  blocked_reader_task_id : Z; blocked_writer_task_id : Z; bytes : list Z }.

#[export] Instance eta_pipe : Eta pipe64_buffer_t := {| eta p :=
  mk_pipe (live p) (owner_pid p) (owner_id p) (read_owner_id p) (write_owner_id p)
    (read_grantee_owner_id p) (write_grantee_owner_id p) (read_ref_count p) (write_ref_count p)
    (generation p) (read_handle p) (write_handle p) (read_fd p) (write_fd p) (capacity p)
    (max_capacity p) (read_index p) (write_index p) (byte_count p) (byte_count_semaphore p)
    (writer_closed p) (reader_closed p) (blocked_reader_task_id p) (blocked_writer_task_id p)
    (bytes p) |}.

(** ** What pipes ask of the rest of the kernel

    Operations on a world state [W]: the process table (process.c) and the
    run queue (scheduler.c). *)
Class PipeWorld (W : Type) := {
  process64_principal : Z -> W -> Z;
  scheduler64_runqueue_current_task_id : W -> Z;
  scheduler64_runqueue_task_state : Z -> W -> Z;
  scheduler64_runqueue_task_pid : Z -> W -> Z;
  scheduler64_runqueue_block_task : Z -> ST W Z;
  scheduler64_runqueue_wake_task_replay : Z -> ST W Z;
}.

Record pipe_state (W : Type) := mk_pipe_state {
  g_pipe64_objects : list pipe64_buffer_t;
  g_pipe64_initialized : Z;
  g_pipe64_denials : Z;
  g_pipe64_block_count : Z;
  g_pipe64_wake_count : Z;
  g_pipe64_replay_wake_count : Z;
  personas : persona_state;
  world : W }.
Arguments mk_pipe_state {W}.
Arguments g_pipe64_objects {W}.
Arguments g_pipe64_initialized {W}.
Arguments g_pipe64_denials {W}.
Arguments g_pipe64_block_count {W}.
Arguments g_pipe64_wake_count {W}.
Arguments g_pipe64_replay_wake_count {W}.
Arguments personas {W}.
Arguments world {W}.

#[export] Instance eta_pipe_state W : Eta (pipe_state W) := {| eta s :=
  mk_pipe_state (g_pipe64_objects s) (g_pipe64_initialized s) (g_pipe64_denials s)
    (g_pipe64_block_count s) (g_pipe64_wake_count s) (g_pipe64_replay_wake_count s)
    (personas s) (world s) |}.

(** ** Handles *)

Definition pipe64_make_handle (index gen kind : Z) : Z :=
  if (Z.of_nat PIPE64_MAX_OBJECTS <=? index) || (gen =? 0)
     || (negb (kind =? PIPE64_HANDLE_KIND_READ) && negb (kind =? PIPE64_HANDLE_KIND_WRITE))
  then PIPE64_INVALID_HANDLE
  else Z.lor (Z.lor (Z.lor PIPE64_HANDLE_BASE
         (Z.land (shl32 gen PIPE64_HANDLE_GENERATION_SHIFT) PIPE64_HANDLE_GENERATION_MASK))
         (Z.land (shl32 index PIPE64_HANDLE_INDEX_SHIFT) PIPE64_HANDLE_INDEX_MASK))
         kind.

Definition pipe64_handle_index (h : Z) : Z :=
  Z.shiftr (Z.land h PIPE64_HANDLE_INDEX_MASK) PIPE64_HANDLE_INDEX_SHIFT.

Definition pipe64_handle_generation (h : Z) : Z :=
  Z.shiftr (Z.land h PIPE64_HANDLE_GENERATION_MASK) PIPE64_HANDLE_GENERATION_SHIFT.

Definition pipe64_handle_kind (h : Z) : Z :=
  if negb (Z.land h PIPE64_HANDLE_BASE_MASK =? PIPE64_HANDLE_BASE) then PIPE64_INVALID_HANDLE
  else Z.land h PIPE64_HANDLE_KIND_MASK.

Definition pipe64_endpoint_owner_matches (p : pipe64_buffer_t) (kind owner : Z) : bool :=
  if owner =? 0 then false
  else if kind =? PIPE64_HANDLE_KIND_READ then
    (read_owner_id p =? owner)
    || (negb (read_grantee_owner_id p =? 0) && (read_grantee_owner_id p =? owner))
  else if kind =? PIPE64_HANDLE_KIND_WRITE then
    (write_owner_id p =? owner)
    || (negb (write_grantee_owner_id p =? 0) && (write_grantee_owner_id p =? owner))
  else false.

(** ** Objects *)

(** [pipe64_zero_bytes] over the whole buffer. *)
Definition pipe64_zero_bytes : list Z := replicate (Z.to_nat PIPE64_BUFFER_BYTES) 0.

(** The cleared object; its generation survives. *)
Definition cleared (gen : Z) : pipe64_buffer_t :=
  mk_pipe 0 PROCESS64_INVALID_PID 0 0 0 0 0 0 0 gen PIPE64_INVALID_HANDLE PIPE64_INVALID_HANDLE
    FD64_INVALID_FD FD64_INVALID_FD PIPE64_BUFFER_BYTES PIPE64_MAX_BUFFER_BYTES 0 0 0 0 0 0
    SCHEDULER64_INVALID_TASK SCHEDULER64_INVALID_TASK pipe64_zero_bytes.

(** The object a create fills in, before its descriptors are known. *)
Definition opened (index : nat) (gen p owner : Z) : pipe64_buffer_t :=
  (cleared gen) <| live := 1 |> <| owner_pid := p |> <| owner_id := owner |>
    <| read_owner_id := owner |> <| write_owner_id := owner |>
    <| read_ref_count := 1 |> <| write_ref_count := 1 |>
    <| read_handle := pipe64_make_handle (Z.of_nat index) gen PIPE64_HANDLE_KIND_READ |>
    <| write_handle := pipe64_make_handle (Z.of_nat index) gen PIPE64_HANDLE_KIND_WRITE |>.

Definition next_generation (gen : Z) : Z := if inc32 gen =? 0 then 1 else inc32 gen.

Section operations.
Context {W : Type} {pw : PipeWorld W}.

Abbreviation M := (ST (pipe_state W)).

Definition on_world {A} (m : ST W A) : M A :=
  fun s => let (a, w) := m (world s) in (a, s <| world := w |>).
Definition on_personas {A} (m : ST persona_state A) : M A :=
  fun s => let (a, ps) := m (personas s) in (a, s <| personas := ps |>).

Definition pipe_at (s : pipe_state W) (i : nat) : pipe64_buffer_t :=
  default (cleared 0) (g_pipe64_objects s !! i).
Definition update_pipe (i : nat) (f : pipe64_buffer_t -> pipe64_buffer_t) : M unit :=
  modify (fun s => s <| g_pipe64_objects := alter f i (g_pipe64_objects s) |>).
Definition deny : M unit :=
  modify (fun s => s <| g_pipe64_denials := inc32 (g_pipe64_denials s) |>).

Definition pipe64_clear_object (i : nat) : M unit :=
  p <- gets (fun s => pipe_at s i) ;;
  (if negb (live p =? 0) && negb (owner_pid p =? PROCESS64_INVALID_PID)
   then on_personas (persona64_budget_release_pipe (owner_pid p) 1) ;;; ret tt
   else ret tt) ;;;
  update_pipe i (fun p => cleared (generation p)).

Definition pipe64_init : M unit :=
  done <- gets (fun s => negb (g_pipe64_initialized s =? 0)) ;;
  if done : bool then ret tt
  else
    for_range PIPE64_MAX_OBJECTS (fun i =>
      update_pipe i (fun p => p <| generation := 1 |>) ;;; pipe64_clear_object i) ;;;
    modify (fun s => s <| g_pipe64_initialized := 1 |>).

(** ** Blocking and waking *)

Definition pipe64_current_task_for_owner (owner : Z) (w : W) : Z :=
  let task := scheduler64_runqueue_current_task_id w in
  if (task =? SCHEDULER64_INVALID_TASK)
     || negb (scheduler64_runqueue_task_state task w =? SCHEDULER64_TASK_RUNNING)
  then SCHEDULER64_INVALID_TASK
  else
    let task_pid := scheduler64_runqueue_task_pid task w in
    if (task_pid =? PROCESS64_INVALID_PID) || negb (process64_principal task_pid w =? owner)
    then SCHEDULER64_INVALID_TASK else task.

(** The blocked-task slot a call works on: a field of object [i]. *)
Record task_slot := mk_slot {
  get_task : pipe64_buffer_t -> Z;
  set_task : Z -> pipe64_buffer_t -> pipe64_buffer_t }.
Definition reader_slot : task_slot :=
  mk_slot blocked_reader_task_id (fun t p => p <| blocked_reader_task_id := t |>).
Definition writer_slot : task_slot :=
  mk_slot blocked_writer_task_id (fun t p => p <| blocked_writer_task_id := t |>).

Definition pipe64_block_current_task (owner : Z) (sl : task_slot) (i : nat) : M Z :=
  p <- gets (fun s => pipe_at s i) ;;
  if negb (get_task sl p =? SCHEDULER64_INVALID_TASK) then deny ;;; ret 0
  else
    task <- gets (fun s => pipe64_current_task_for_owner owner (world s)) ;;
    if task =? SCHEDULER64_INVALID_TASK then deny ;;; ret 0
    else
      update_pipe i (set_task sl task) ;;;
      ok <- on_world (scheduler64_runqueue_block_task task) ;;
      if ok =? 0 then
        update_pipe i (set_task sl SCHEDULER64_INVALID_TASK) ;;; deny ;;; ret 0
      else
        modify (fun s => s <| g_pipe64_block_count := inc32 (g_pipe64_block_count s) |>) ;;;
        ret 1.

Definition pipe64_wake_blocked_task (sl : task_slot) (i : nat) : M Z :=
  p <- gets (fun s => pipe_at s i) ;;
  if get_task sl p =? SCHEDULER64_INVALID_TASK then ret 0
  else
    update_pipe i (set_task sl SCHEDULER64_INVALID_TASK) ;;;
    ok <- on_world (scheduler64_runqueue_wake_task_replay (get_task sl p)) ;;
    if ok =? 0 then deny ;;; ret 0
    else
      modify (fun s => s <| g_pipe64_wake_count := inc32 (g_pipe64_wake_count s) |>
                         <| g_pipe64_replay_wake_count := inc32 (g_pipe64_replay_wake_count s) |>) ;;;
      ret 1.

(** ** Lookup *)

Definition handle_ok (p : pipe64_buffer_t) (h owner : Z) : bool :=
  negb (live p =? 0) && (generation p =? pipe64_handle_generation h)
  && ((h =? read_handle p) || (h =? write_handle p))
  && pipe64_endpoint_owner_matches p (pipe64_handle_kind h) owner.

Definition pipe64_find (h owner : Z) : M (option nat) :=
  pipe64_init ;;;
  if negb (Z.land h PIPE64_HANDLE_BASE_MASK =? PIPE64_HANDLE_BASE) || (owner =? 0)
  then deny ;;; ret None
  else
    let index := pipe64_handle_index h in
    if Z.of_nat PIPE64_MAX_OBJECTS <=? index then deny ;;; ret None
    else
      let i := Z.to_nat index in
      p <- gets (fun s => pipe_at s i) ;;
      if handle_ok p h owner then ret (Some i) else deny ;;; ret None.

(** ** Data transfer

    [pipe64_write] takes the [byte_count] bytes at [input] as a list;
    [pipe64_read] returns the bytes it stored at [output] with its result. *)

(** The inner loop of [pipe64_write], which waits for room: [None] when
    there is room, [Some r] when the call returns [r].  [spins] is
    [PIPE64_SPIN_WAIT_LIMIT - spin_count]. *)
Fixpoint write_wait (spins : nat) (i : nat) (owner bytes_written : Z) : M (option Z) :=
  p <- gets (fun s => pipe_at s i) ;;
  if byte_count p <? capacity p then ret None
  else if negb (bytes_written =? 0) then ret (Some bytes_written)
  else
    blocked <- pipe64_block_current_task owner writer_slot i ;;
    if negb (blocked =? 0) then ret (Some PIPE64_IO_BLOCKED)
    else
      p <- gets (fun s => pipe_at s i) ;;
      match negb (reader_closed p =? 0), spins with
      | false, S spins' => write_wait spins' i owner bytes_written
      | _, _ => ret (Some (if negb (bytes_written =? 0) then bytes_written else PIPE64_IO_ERROR))
      end.

Definition put_byte (b : Z) (p : pipe64_buffer_t) : pipe64_buffer_t :=
  p <| bytes := <[Z.to_nat (write_index p) := b]> (bytes p) |>
    <| write_index := add32 (write_index p) 1 mod capacity p |>
    <| byte_count := inc32 (byte_count p) |>
    <| byte_count_semaphore := inc32 (byte_count p) |>.

Fixpoint write_loop (i : nat) (owner : Z) (input : list Z) (bytes_written : Z) : M Z :=
  match input with
  | [] =>
      (if negb (bytes_written =? 0) then pipe64_wake_blocked_task reader_slot i else ret 0) ;;;
      ret bytes_written
  | b :: input' =>
      stop <- write_wait PIPE64_SPIN_WAIT_LIMIT i owner bytes_written ;;
      match stop with
      | Some r => ret r
      | None => update_pipe i (put_byte b) ;;; write_loop i owner input' (inc32 bytes_written)
      end
  end.

Definition pipe64_write (h : Z) (input : list Z) (owner : Z) : M Z :=
  match input with
  | [] => ret 0
  | _ =>
      found <- pipe64_find h owner ;;
      match found with
      | None => deny ;;; ret PIPE64_IO_ERROR
      | Some i =>
          p <- gets (fun s => pipe_at s i) ;;
          if negb (pipe64_handle_kind h =? PIPE64_HANDLE_KIND_WRITE)
             || negb (writer_closed p =? 0) || negb (reader_closed p =? 0)
          then deny ;;; ret PIPE64_IO_ERROR
          else write_loop i owner input 0
      end
  end.

(** The inner loop of [pipe64_read], which waits for a byte. *)
Fixpoint read_wait (spins : nat) (i : nat) (owner bytes_read : Z) : M (option Z) :=
  p <- gets (fun s => pipe_at s i) ;;
  if negb (byte_count p =? 0) then ret None
  else if negb (writer_closed p =? 0) then ret (Some bytes_read)
  else if negb (bytes_read =? 0) then ret (Some bytes_read)
  else
    blocked <- pipe64_block_current_task owner reader_slot i ;;
    if negb (blocked =? 0) then ret (Some PIPE64_IO_BLOCKED)
    else
      match spins with
      | O => ret (Some (if negb (bytes_read =? 0) then bytes_read else PIPE64_IO_ERROR))
      | S spins' => read_wait spins' i owner bytes_read
      end.

Definition drop_byte (p : pipe64_buffer_t) : pipe64_buffer_t :=
  p <| read_index := add32 (read_index p) 1 mod capacity p |>
    <| byte_count := dec32 (byte_count p) |>
    <| byte_count_semaphore := dec32 (byte_count p) |>.

Fixpoint read_loop (n : nat) (i : nat) (owner bytes_read : Z) : M (Z * list Z) :=
  match n with
  | O =>
      p <- gets (fun s => pipe_at s i) ;;
      (if negb (bytes_read =? 0) && (byte_count p <? capacity p)
       then pipe64_wake_blocked_task writer_slot i else ret 0) ;;;
      ret (bytes_read, [])
  | S n' =>
      stop <- read_wait PIPE64_SPIN_WAIT_LIMIT i owner bytes_read ;;
      match stop with
      | Some r => ret (r, [])
      | None =>
          p <- gets (fun s => pipe_at s i) ;;
          update_pipe i drop_byte ;;;
          res <- read_loop n' i owner (inc32 bytes_read) ;;
          ret (fst res, default 0 (bytes p !! Z.to_nat (read_index p)) :: snd res)
      end
  end.

Definition pipe64_read (h : Z) (count : Z) (owner : Z) : M (Z * list Z) :=
  if count =? 0 then ret (0, [])
  else
    found <- pipe64_find h owner ;;
    match found with
    | None => deny ;;; ret (PIPE64_IO_ERROR, [])
    | Some i =>
        p <- gets (fun s => pipe_at s i) ;;
        if negb (pipe64_handle_kind h =? PIPE64_HANDLE_KIND_READ) || negb (reader_closed p =? 0)
        then deny ;;; ret (PIPE64_IO_ERROR, [])
        else read_loop (Z.to_nat count) i owner 0
    end.

(** ** Closing an end *)

Definition drop_reader (p : pipe64_buffer_t) : pipe64_buffer_t :=
  if negb (read_ref_count p =? 0) then p <| read_ref_count := dec32 (read_ref_count p) |> else p.
Definition drop_writer (p : pipe64_buffer_t) : pipe64_buffer_t :=
  if negb (write_ref_count p =? 0) then p <| write_ref_count := dec32 (write_ref_count p) |> else p.

Definition pipe64_revoke_handle (h owner : Z) : M Z :=
  found <- pipe64_find h owner ;;
  match found with
  | None => ret 0
  | Some i =>
      let kind := pipe64_handle_kind h in
      let finish :=
        p <- gets (fun s => pipe_at s i) ;;
        (if negb (reader_closed p =? 0) && negb (writer_closed p =? 0)
         then pipe64_clear_object i else ret tt) ;;;
        ret 1 in
      if kind =? PIPE64_HANDLE_KIND_READ then
        update_pipe i drop_reader ;;;
        p <- gets (fun s => pipe_at s i) ;;
        (if read_ref_count p =? 0
         then update_pipe i (fun p => p <| reader_closed := 1 |>) ;;;
              pipe64_wake_blocked_task writer_slot i
         else ret 0) ;;;
        finish
      else if kind =? PIPE64_HANDLE_KIND_WRITE then
        update_pipe i drop_writer ;;;
        p <- gets (fun s => pipe_at s i) ;;
        (if write_ref_count p =? 0
         then update_pipe i (fun p => p <| writer_closed := 1 |>) ;;;
              pipe64_wake_blocked_task reader_slot i
         else ret 0) ;;;
        finish
      else deny ;;; ret 0
  end.

(** ** Queries *)

Definition pipe64_live_count : M Z :=
  pipe64_init ;;;
  gets (fun s => Z.of_nat (count_if (fun p => negb (live p =? 0)) (g_pipe64_objects s))).

(** The accessors that look a handle up: [d] when the lookup fails. *)
Definition pipe_query (f : pipe64_buffer_t -> Z) (d : Z) (h owner : Z) : M Z :=
  found <- pipe64_find h owner ;;
  match found with
  | None => ret d
  | Some i => gets (fun s => f (pipe_at s i))
  end.

Definition pipe64_bytes_available : Z -> Z -> M Z := pipe_query byte_count PIPE64_INVALID_HANDLE.
Definition pipe64_capacity : Z -> Z -> M Z := pipe_query capacity 0.
Definition pipe64_reader_closed : Z -> Z -> M Z := pipe_query reader_closed 0.
Definition pipe64_writer_closed : Z -> Z -> M Z := pipe_query writer_closed 0.
Definition pipe64_blocked_reader_task : Z -> Z -> M Z :=
  pipe_query blocked_reader_task_id SCHEDULER64_INVALID_TASK.
Definition pipe64_blocked_writer_task : Z -> Z -> M Z :=
  pipe_query blocked_writer_task_id SCHEDULER64_INVALID_TASK.
Definition pipe64_block_count : M Z := pipe64_init ;;; gets g_pipe64_block_count.
Definition pipe64_wake_count : M Z := pipe64_init ;;; gets g_pipe64_wake_count.
Definition pipe64_replay_wake_count : M Z := pipe64_init ;;; gets g_pipe64_replay_wake_count.
Definition pipe64_denial_count : M Z := pipe64_init ;;; gets g_pipe64_denials.

End operations.
End Pipe.
