(* ===== verification/PipeFacts.v ===== *)
(** * Facts about pipes

    The circular buffer as a queue of bytes ([queue]), the invariant of a
    pipe object ([pipe_ok], [object_ok]) and of the table ([ready]), what the
    blocking primitives leave untouched ([same_data]), and closed forms of
    the transfer loops. *)

From S2P Require Import Prelude Process PersonaBudget Pipe.
Import PersonaBudget Pipe.
Local Open Scope Z_scope.

Module PipeFacts.

Implicit Types (p : pipe64_buffer_t).

(** ** One buffer *)

Record pipe_ok (p : pipe64_buffer_t) : Prop := {
  po_capacity : capacity p = PIPE64_BUFFER_BYTES;
  po_length : length (bytes p) = Z.to_nat PIPE64_BUFFER_BYTES;
  po_read : 0 <= read_index p < PIPE64_BUFFER_BYTES;
  po_count : 0 <= byte_count p <= PIPE64_BUFFER_BYTES;
  po_write : write_index p = (read_index p + byte_count p) mod PIPE64_BUFFER_BYTES;
  po_semaphore : byte_count_semaphore p = byte_count p;
}.

(** The byte [k] places behind the read position. *)
Definition cell p (k : nat) : Z :=
  default 0 (bytes p !! Z.to_nat ((read_index p + Z.of_nat k) mod PIPE64_BUFFER_BYTES)).

(** The bytes in the pipe, oldest first. *)
Definition queue p : list Z := cell p <$> seq 0 (Z.to_nat (byte_count p)).

(** The bytes that still fit. *)
Definition room p : nat := Z.to_nat (PIPE64_BUFFER_BYTES - byte_count p).

Lemma length_queue p : length (queue p) = Z.to_nat (byte_count p).
Proof. unfold queue. by rewrite length_fmap, length_seq. Qed.

Lemma queue_room p : pipe_ok p -> (length (queue p) + room p = Z.to_nat PIPE64_BUFFER_BYTES)%nat.
Proof. intros []. rewrite length_queue. unfold room, PIPE64_BUFFER_BYTES in *. lia. Qed.

Lemma inc_mod a :
  0 <= a < PIPE64_BUFFER_BYTES -> add32 a 1 mod PIPE64_BUFFER_BYTES = (a + 1) mod PIPE64_BUFFER_BYTES.
Proof. intros H. unfold add32, wrap32, PIPE64_BUFFER_BYTES in *. by rewrite (Z.mod_small _ (2 ^ 32)) by lia. Qed.

Lemma inc_count a : 0 <= a < PIPE64_BUFFER_BYTES -> inc32 a = a + 1.
Proof. intros H. apply inc32_small. unfold PIPE64_BUFFER_BYTES, U32_MAX in *. lia. Qed.

Lemma dec_count a : 0 < a <= PIPE64_BUFFER_BYTES -> dec32 a = a - 1.
Proof. intros H. apply wrap32_small. unfold fits32, PIPE64_BUFFER_BYTES in *. lia. Qed.

Lemma write_index_bound p : pipe_ok p -> 0 <= write_index p < PIPE64_BUFFER_BYTES.
Proof. intros []. rewrite po_write0. by apply Z.mod_pos_bound. Qed.

Lemma put_byte_ok p b : pipe_ok p -> byte_count p < PIPE64_BUFFER_BYTES -> pipe_ok (put_byte b p).
Proof.
  intros Hp Hlt. pose proof (write_index_bound p Hp). destruct Hp as [Hc Hl Hr Hb Hw Hs].
  constructor; simpl; rewrite ?Hc, ?length_insert, ?(inc_count (byte_count p)) by lia; try done; try lia.
  rewrite inc_mod, Hw, Zplus_mod_idemp_l by lia. f_equal. lia.
Qed.

(** Distinct offsets below the capacity name distinct slots. *)
Lemma slot_inj r a b :
  0 <= a < PIPE64_BUFFER_BYTES -> 0 <= b < PIPE64_BUFFER_BYTES ->
  (r + a) mod PIPE64_BUFFER_BYTES = (r + b) mod PIPE64_BUFFER_BYTES -> a = b.
Proof.
  intros Ha Hb H. replace a with ((r + a - r) mod PIPE64_BUFFER_BYTES).
  2: { replace (r + a - r) with a by lia. by apply Z.mod_small. }
  rewrite Zminus_mod, H, <- Zminus_mod. replace (r + b - r) with b by lia. by apply Z.mod_small.
Qed.

Lemma queue_put p b :
  pipe_ok p -> byte_count p < PIPE64_BUFFER_BYTES -> queue (put_byte b p) = queue p ++ [b].
Proof.
  intros Hp Hlt. pose proof (write_index_bound p Hp). destruct Hp as [Hc Hl Hr Hb Hw Hs].
  unfold queue. simpl. rewrite inc_count by lia.
  replace (Z.to_nat (byte_count p + 1)) with (Z.to_nat (byte_count p) + 1)%nat by lia.
  rewrite seq_app, fmap_app. simpl. f_equal.
  - apply list_fmap_ext. intros k x Hx. apply lookup_seq in Hx as [-> Hk].
    unfold cell. simpl. rewrite list_lookup_insert_ne; [done|].
    rewrite Hw. intros Heq. apply Z2Nat.inj in Heq; try (by apply Z.mod_pos_bound).
    apply slot_inj in Heq; unfold PIPE64_BUFFER_BYTES in *; lia.
  - f_equal. unfold cell. simpl. rewrite Z2Nat.id by lia. rewrite <- Hw.
    rewrite list_lookup_insert_eq by (unfold PIPE64_BUFFER_BYTES in *; lia). done.
Qed.

Lemma drop_byte_ok p : pipe_ok p -> 0 < byte_count p -> pipe_ok (drop_byte p).
Proof.
  intros [Hc Hl Hr Hb Hw Hs] Hlt.
  constructor; simpl; rewrite ?Hc, ?inc_mod, ?(dec_count (byte_count p)) by lia; try done; try lia.
  - by apply Z.mod_pos_bound.
  - rewrite Hw, Zplus_mod_idemp_l. f_equal. lia.
Qed.

Lemma queue_drop p :
  pipe_ok p -> 0 < byte_count p ->
  queue p = default 0 (bytes p !! Z.to_nat (read_index p)) :: queue (drop_byte p).
Proof.
  intros [Hc Hl Hr Hb Hw Hs] Hlt. unfold queue. simpl. rewrite dec_count by lia.
  replace (Z.to_nat (byte_count p)) with (S (Z.to_nat (byte_count p - 1))) by lia.
  simpl. f_equal.
  - unfold cell. rewrite Z.add_0_r, Z.mod_small by lia. done.
  - rewrite <- fmap_S_seq, <- list_fmap_compose. apply list_fmap_ext. intros k x _.
    unfold cell. simpl. rewrite Hc, inc_mod, Zplus_mod_idemp_l by lia.
    by replace (read_index p + 1 + Z.of_nat x) with (read_index p + Z.of_nat (S x)) by lia.
Qed.

Lemma queue_cleared g : queue (cleared g) = [].
Proof. reflexivity. Qed.

Lemma cleared_ok g : pipe_ok (cleared g).
Proof. constructor; try reflexivity; simpl; unfold PIPE64_BUFFER_BYTES; try lia; reflexivity. Qed.

(** ** Runs of bytes *)

Definition put_bytes (data : list Z) p : pipe64_buffer_t := foldl (fun p b => put_byte b p) p data.

Lemma room_pos p : pipe_ok p -> (0 < room p)%nat <-> byte_count p < PIPE64_BUFFER_BYTES.
Proof. intros []. unfold room. lia. Qed.

Lemma room_put p b :
  pipe_ok p -> byte_count p < PIPE64_BUFFER_BYTES -> room p = S (room (put_byte b p)).
Proof. intros [] H. unfold room. simpl. rewrite inc_count by lia. lia. Qed.

Lemma put_bytes_ok data p :
  pipe_ok p -> (length data <= room p)%nat ->
  pipe_ok (put_bytes data p) /\ queue (put_bytes data p) = queue p ++ data
  /\ room (put_bytes data p) = (room p - length data)%nat.
Proof.
  revert p. induction data as [|b data IH]; intros p Hp Hlen; simpl in *.
  { rewrite app_nil_r. split_and!; [done|done|lia]. }
  assert (Hlt : byte_count p < PIPE64_BUFFER_BYTES) by (apply room_pos; [done|lia]).
  pose proof (room_put p b Hp Hlt) as Hroom.
  destruct (IH (put_byte b p) ltac:(by apply put_byte_ok) ltac:(lia)) as (Hok & Hq & Hr).
  split_and!; [done| |lia]. by rewrite Hq, queue_put, <- app_assoc.
Qed.

Fixpoint drop_bytes (n : nat) p : pipe64_buffer_t :=
  match n with O => p | S n' => drop_bytes n' (drop_byte p) end.

Lemma drop_bytes_ok n p :
  pipe_ok p -> (n <= length (queue p))%nat ->
  pipe_ok (drop_bytes n p) /\ queue (drop_bytes n p) = drop n (queue p).
Proof.
  revert p. induction n as [|n IH]; intros p Hp Hn; simpl.
  { by rewrite drop_0. }
  rewrite length_queue in Hn.
  pose proof (queue_drop p Hp ltac:(lia)) as Hq. rewrite Hq. simpl. apply IH.
  - apply drop_byte_ok; [done|lia].
  - pose proof (f_equal length Hq) as Hl. rewrite length_queue in Hl. simpl in Hl. lia.
Qed.

(** ** Handles *)

Lemma generation_field g :
  Z.land (shl32 g PIPE64_HANDLE_GENERATION_SHIFT) PIPE64_HANDLE_GENERATION_MASK
  = Z.shiftl (g mod 4096) 8.
Proof.
  unfold shl32, wrap32, PIPE64_HANDLE_GENERATION_SHIFT. rewrite <- Z.land_ones, <- Z.land_assoc by lia.
  change (Z.land (Z.ones 32) PIPE64_HANDLE_GENERATION_MASK) with (Z.shiftl (Z.ones 12) 8).
  rewrite <- Z.shiftl_land, Z.land_ones by lia. done.
Qed.

(** The fields of a packed handle, checked over every index, 12-bit
    generation and kind. *)
Definition packed (i m k : Z) : Z :=
  Z.lor (Z.lor (Z.lor PIPE64_HANDLE_BASE (Z.shiftl m 8))
    (Z.land (shl32 i PIPE64_HANDLE_INDEX_SHIFT) PIPE64_HANDLE_INDEX_MASK)) k.

Definition unpacks (i m k : Z) : bool :=
  let h := packed i m k in
  (pipe64_handle_index h =? i) && (pipe64_handle_generation h =? m)
  && (pipe64_handle_kind h =? k) && (Z.land h PIPE64_HANDLE_BASE_MASK =? PIPE64_HANDLE_BASE)
  && negb (h =? PIPE64_INVALID_HANDLE).

Lemma all_unpack :
  forallb (fun m => forallb (fun i => unpacks i m 0 && unpacks i m 1) (seqZ 0 16)) (seqZ 0 4096) = true.
Proof. vm_compute. reflexivity. Qed.

Lemma handle_fields i g k :
  (i < PIPE64_MAX_OBJECTS)%nat -> 0 < g -> k = PIPE64_HANDLE_KIND_READ \/ k = PIPE64_HANDLE_KIND_WRITE ->
  let h := pipe64_make_handle (Z.of_nat i) g k in
  pipe64_handle_index h = Z.of_nat i /\ pipe64_handle_generation h = g mod 4096
  /\ pipe64_handle_kind h = k /\ Z.land h PIPE64_HANDLE_BASE_MASK = PIPE64_HANDLE_BASE
  /\ h <> PIPE64_INVALID_HANDLE.
Proof.
  intros Hi Hg Hk h. pose proof (Z.mod_pos_bound g 4096 ltac:(lia)) as Hm.
  assert (Hh : h = packed (Z.of_nat i) (g mod 4096) k).
  { unfold h, pipe64_make_handle, packed. rewrite (proj2 (Z.leb_gt _ _)) by lia.
    rewrite (proj2 (Z.eqb_neq g 0)) by lia. rewrite generation_field.
    by destruct Hk as [-> | ->]. }
  pose proof all_unpack as Ha. rewrite forallb_forall in Ha.
  specialize (Ha (g mod 4096) ltac:(apply list_elem_of_In, elem_of_seqZ; lia)).
  rewrite forallb_forall in Ha. unfold PIPE64_MAX_OBJECTS in Hi.
  specialize (Ha (Z.of_nat i) ltac:(apply list_elem_of_In, elem_of_seqZ; lia)).
  apply andb_true_iff in Ha as [H0 H1].
  assert (Hu : unpacks (Z.of_nat i) (g mod 4096) k = true) by by destruct Hk as [-> | ->].
  unfold unpacks in Hu. cbv zeta in Hu. rewrite <- Hh in Hu. by boolify.
Qed.

Lemma handles_differ i g :
  (i < PIPE64_MAX_OBJECTS)%nat -> 0 < g ->
  pipe64_make_handle (Z.of_nat i) g PIPE64_HANDLE_KIND_READ
  <> pipe64_make_handle (Z.of_nat i) g PIPE64_HANDLE_KIND_WRITE.
Proof.
  intros Hi Hg Heq. destruct (handle_fields i g PIPE64_HANDLE_KIND_READ Hi Hg) as (_ & _ & Hr & _); [by left|].
  destruct (handle_fields i g PIPE64_HANDLE_KIND_WRITE Hi Hg) as (_ & _ & Hw & _); [by right|].
  rewrite Heq, Hw in Hr. done.
Qed.

(** ** Objects and the table *)

(** The object without its blocked-task slots, the only fields the blocking
    primitives write. *)
Definition untasked p : pipe64_buffer_t :=
  p <| blocked_reader_task_id := SCHEDULER64_INVALID_TASK |>
    <| blocked_writer_task_id := SCHEDULER64_INVALID_TASK |>.

Record object_ok (i : nat) (p : pipe64_buffer_t) : Prop := {
  oo_buffer : pipe_ok p;
  oo_generation : 0 < generation p < 2 ^ 32;
  oo_free : live p = 0 -> queue p = [] /\ read_ref_count p = 0 /\ write_ref_count p = 0;
  oo_read_handle : live p <> 0 ->
    read_handle p = pipe64_make_handle (Z.of_nat i) (generation p) PIPE64_HANDLE_KIND_READ;
  oo_write_handle : live p <> 0 ->
    write_handle p = pipe64_make_handle (Z.of_nat i) (generation p) PIPE64_HANDLE_KIND_WRITE;
  oo_owner : live p <> 0 -> owner_pid p <> PROCESS64_INVALID_PID;
  oo_readers : live p <> 0 -> reader_closed p = b2z (read_ref_count p =? 0);
  oo_writers : live p <> 0 -> writer_closed p = b2z (write_ref_count p =? 0);
  oo_open : live p <> 0 -> read_ref_count p <> 0 \/ write_ref_count p <> 0;
  oo_refs : fits32 (read_ref_count p) /\ fits32 (write_ref_count p);
}.

Lemma object_ok_untasked i p p' : untasked p = untasked p' -> object_ok i p -> object_ok i p'.
Proof.
  intros Heq [Hb Hg Hf Hrh Hwh Ho Hr Hw Hop Hrf]. destruct p, p'. unfold untasked in *. simpl in *.
  injection Heq; intros; subst. destruct Hb. constructor; simpl in *; auto. by constructor.
Qed.

Lemma queue_untasked p p' : untasked p = untasked p' -> queue p = queue p'.
Proof.
  intros Heq. change (queue p) with (queue (untasked p)). change (queue p') with (queue (untasked p')).
  by rewrite Heq.
Qed.

Section table.
Context {W : Type} {pw : PipeWorld W}.
Implicit Types s : pipe_state W.

Record ready (s : pipe_state W) : Prop := {
  rd_init : g_pipe64_initialized s <> 0;
  rd_length : length (g_pipe64_objects s) = PIPE64_MAX_OBJECTS;
  rd_objects : forall i p, g_pipe64_objects s !! i = Some p -> object_ok i p;
}.

Definition upd (i : nat) (f : pipe64_buffer_t -> pipe64_buffer_t) (s : pipe_state W) : pipe_state W :=
  s <| g_pipe64_objects := alter f i (g_pipe64_objects s) |>.

Lemma update_pipe_run i f s : update_pipe i f s = (tt, upd i f s).
Proof. reflexivity. Qed.

Lemma pipe_at_lookup s i p : g_pipe64_objects s !! i = Some p -> pipe_at s i = p.
Proof. unfold pipe_at. by intros ->. Qed.

Lemma lookup_pipe_at s i :
  (i < length (g_pipe64_objects s))%nat -> g_pipe64_objects s !! i = Some (pipe_at s i).
Proof. intros H. apply lookup_lt_is_Some in H as [p Hp]. unfold pipe_at. by rewrite Hp. Qed.

Lemma pipe_at_upd i f s :
  (i < length (g_pipe64_objects s))%nat -> pipe_at (upd i f s) i = f (pipe_at s i).
Proof.
  intros H. apply pipe_at_lookup. simpl. by rewrite list_lookup_alter_eq, (lookup_pipe_at s i H).
Qed.

Lemma pipe_at_upd_ne i j f s : i <> j -> pipe_at (upd i f s) j = pipe_at s j.
Proof. intros H. unfold pipe_at. simpl. by rewrite list_lookup_alter_ne. Qed.

Lemma upd_upd i f g s : upd i g (upd i f s) = upd i (fun p => g (f p)) s.
Proof.
  unfold upd. destruct s as [objs ? ? ? ? ? ? ?]. simpl. f_equal. apply list_eq. intros j.
  destruct (decide (i = j)) as [->|Hne]; [|by rewrite !list_lookup_alter_ne].
  rewrite !list_lookup_alter_eq. by destruct (objs !! j).
Qed.

Lemma upd_id i f s : (forall p, f p = p) -> upd i f s = s.
Proof.
  intros H. unfold upd. destruct s as [objs ? ? ? ? ? ? ?]. simpl. f_equal. apply list_eq. intros j.
  destruct (decide (i = j)) as [->|Hne]; [|by rewrite list_lookup_alter_ne].
  rewrite list_lookup_alter_eq. destruct (objs !! j); simpl; congruence.
Qed.

Lemma upd_ext i f g s : (forall p, g_pipe64_objects s !! i = Some p -> f p = g p) -> upd i f s = upd i g s.
Proof.
  intros H. unfold upd. destruct s as [objs ? ? ? ? ? ? ?]. simpl in *. f_equal. apply list_eq. intros j.
  destruct (decide (i = j)) as [->|Hne]; [|by rewrite !list_lookup_alter_ne].
  rewrite !list_lookup_alter_eq. destruct (objs !! j) eqn:E; simpl; [by rewrite H|done].
Qed.

Lemma length_upd i f s : length (g_pipe64_objects (upd i f s)) = length (g_pipe64_objects s).
Proof. apply length_alter. Qed.

Lemma ready_at s i : ready s -> (i < PIPE64_MAX_OBJECTS)%nat -> object_ok i (pipe_at s i).
Proof. intros [_ Hl Ho] Hi. apply Ho, lookup_pipe_at. by rewrite Hl. Qed.

Lemma ready_upd s i f : ready s -> object_ok i (f (pipe_at s i)) -> ready (upd i f s).
Proof.
  intros [Hi Hl Ho] Hf. constructor; [done|by rewrite length_upd|].
  intros j p (x & Hx & ->)%lookup_alter_Some. case_decide; [subst|by auto].
  by rewrite <- (pipe_at_lookup _ _ _ Hx).
Qed.

(** *** What the blocking primitives leave alone *)

Record same_data (s s' : pipe_state W) : Prop := {
  sd_init : g_pipe64_initialized s' = g_pipe64_initialized s;
  sd_personas : personas s' = personas s;
  sd_objects : untasked <$> g_pipe64_objects s' = untasked <$> g_pipe64_objects s;
}.

#[export] Instance same_data_preorder : PreOrder same_data.
Proof.
  split; [by split|]. intros s1 s2 s3 [H1 H2 H3] [H4 H5 H6]. split; congruence.
Qed.

Lemma same_data_lookup s s' i p' :
  same_data s s' -> g_pipe64_objects s' !! i = Some p' ->
  exists p, g_pipe64_objects s !! i = Some p /\ untasked p' = untasked p.
Proof.
  intros [_ _ H] Hp. assert (Hu : (untasked <$> g_pipe64_objects s) !! i = Some (untasked p')).
  { by rewrite <- H, list_lookup_fmap, Hp. }
  rewrite list_lookup_fmap in Hu. apply fmap_Some in Hu as (p & Hp' & ->). eauto.
Qed.

Lemma same_data_length s s' :
  same_data s s' -> length (g_pipe64_objects s') = length (g_pipe64_objects s).
Proof. intros [_ _ H]. by rewrite <- (length_fmap untasked), H, length_fmap. Qed.

Lemma same_data_at s s' i :
  same_data s s' -> untasked (pipe_at s' i) = untasked (pipe_at s i).
Proof.
  intros H. unfold pipe_at. destruct (g_pipe64_objects s' !! i) as [p'|] eqn:E'; simpl.
  - destruct (same_data_lookup _ _ _ _ H E') as (p & -> & Hu). done.
  - apply lookup_ge_None in E'. rewrite (same_data_length _ _ H) in E'.
    by apply lookup_ge_None in E' as ->.
Qed.

Lemma same_data_queue s s' i : same_data s s' -> queue (pipe_at s' i) = queue (pipe_at s i).
Proof. intros H. apply queue_untasked. by apply same_data_at. Qed.

Lemma ready_same s s' : same_data s s' -> ready s -> ready s'.
Proof.
  intros Hs [Hi Hl Ho]. constructor.
  - by rewrite (sd_init _ _ Hs).
  - by rewrite (same_data_length _ _ Hs).
  - intros i p' Hp'. destruct (same_data_lookup _ _ _ _ Hs Hp') as (p & Hp & Hu).
    by eapply object_ok_untasked; [|apply Ho].
Qed.

(** The two slots a task can be parked in. *)
Definition slot_of (sl : task_slot) : Prop := sl = reader_slot \/ sl = writer_slot.

Lemma same_set_task sl i t s : slot_of sl -> same_data s (upd i (set_task sl t) s).
Proof.
  intros Hsl. constructor; [done|done|]. apply list_eq. intros j. simpl.
  rewrite !list_lookup_fmap.
  destruct (decide (i = j)) as [->|Hne]; [|by rewrite list_lookup_alter_ne].
  rewrite list_lookup_alter_eq. destruct (g_pipe64_objects s !! j) as [p|]; [|done]. simpl. destruct p, Hsl; subst; done.
Qed.

Lemma same_deny s : same_data s (snd (deny s)).
Proof. by split. Qed.

Lemma same_world s w : same_data s (s <| world := w |>).
Proof. by split. Qed.

Lemma same_counts s b w r :
  same_data s (s <| g_pipe64_block_count := b |>)
  /\ same_data s (s <| g_pipe64_wake_count := w |> <| g_pipe64_replay_wake_count := r |>).
Proof. by split. Qed.

Lemma block_same owner sl i s :
  slot_of sl -> wp (pipe64_block_current_task owner sl i) (fun _ s' => same_data s s') s.
Proof.
  intros Hsl. unfold pipe64_block_current_task. wp_step. wp_step. wp_step; [by split|].
  wp_step. wp_step. wp_step; [by split|]. wp_step. unfold update_pipe at 1. wp_step. wp_step.
  fold (upd i (set_task sl (pipe64_current_task_for_owner owner (world s))) s).
  set (s1 := upd _ _ s). assert (H1 : same_data s s1) by by apply same_set_task.
  unfold wp, on_world. destruct (scheduler64_runqueue_block_task _ (world s1)) as [ok w]. simpl.
  destruct (ok =? 0); simpl.
  - transitivity s1; [done|]. transitivity (s1 <| world := w |>); [apply same_world|].
    transitivity (upd i (set_task sl SCHEDULER64_INVALID_TASK) (s1 <| world := w |>));
      [by apply same_set_task|apply same_deny].
  - transitivity s1; [done|by split].
Qed.

Lemma wake_same sl i s :
  slot_of sl -> wp (pipe64_wake_blocked_task sl i) (fun _ s' => same_data s s') s.
Proof.
  intros Hsl. unfold pipe64_wake_blocked_task. wp_step. wp_step. wp_step; [by split|].
  wp_step. unfold update_pipe at 1. wp_step. wp_step.
  fold (upd i (set_task sl SCHEDULER64_INVALID_TASK) s).
  set (s1 := upd _ _ s). assert (H1 : same_data s s1) by by apply same_set_task.
  unfold wp, on_world. destruct (scheduler64_runqueue_wake_task_replay _ (world s1)) as [ok w]. simpl.
  destruct (ok =? 0); simpl; (transitivity s1; [done|by split]).
Qed.

(** *** The waiting loops *)

Lemma write_wait_room n i owner k s :
  byte_count (pipe_at s i) < capacity (pipe_at s i) -> write_wait n i owner k s = (None, s).
Proof. intros H. destruct n; simpl; unfold bind, gets; simpl; by rewrite (proj2 (Z.ltb_lt _ _) H). Qed.

Lemma write_wait_stop n i owner k s :
  capacity (pipe_at s i) <= byte_count (pipe_at s i) -> k <> 0 ->
  write_wait n i owner k s = (Some k, s).
Proof.
  intros H Hk. destruct n; simpl; unfold bind, gets; simpl;
    by rewrite (proj2 (Z.ltb_ge _ _) H), (proj2 (Z.eqb_neq _ _) Hk).
Qed.

(** A full pipe and nothing written: the call blocks or gives up, and moves
    no data. *)
Lemma write_wait_full n i owner s :
  capacity (pipe_at s i) <= byte_count (pipe_at s i) ->
  wp (write_wait n i owner 0)
     (fun r s' => same_data s s' /\ (r = Some PIPE64_IO_BLOCKED \/ r = Some PIPE64_IO_ERROR)) s.
Proof.
  revert s. induction n as [|n IH]; intros s H; simpl; wp_step; wp_step;
    rewrite (proj2 (Z.ltb_ge _ _) H); simpl; apply wp_bind;
    (eapply wp_mono; [apply block_same; by right|]); intros r s1 Hs; simpl in Hs;
    repeat wp_step; auto; try done.
  - pose proof (same_data_at _ _ i Hs) as Hu. eapply wp_mono.
    + apply IH. change (capacity (pipe_at s1 i)) with (capacity (untasked (pipe_at s1 i))).
      change (byte_count (pipe_at s1 i)) with (byte_count (untasked (pipe_at s1 i))). by rewrite Hu.
    + intros r' s' [Hs' Hr]. split; [by transitivity s1|done].
Qed.

Lemma read_wait_some n i owner k s :
  byte_count (pipe_at s i) <> 0 -> read_wait n i owner k s = (None, s).
Proof. intros H. destruct n; simpl; unfold bind, gets; simpl; by rewrite (proj2 (Z.eqb_neq _ _) H). Qed.

Lemma read_wait_stop n i owner k s :
  byte_count (pipe_at s i) = 0 -> k <> 0 \/ writer_closed (pipe_at s i) <> 0 ->
  read_wait n i owner k s = (Some k, s).
Proof.
  intros H Hk. destruct n; simpl; unfold bind, gets; simpl; rewrite H; simpl;
    (destruct (Z.eqb_spec (writer_closed (pipe_at s i)) 0) as [E|E]; simpl; [|done]);
    (destruct (Z.eqb_spec k 0); simpl; [tauto|done]).
Qed.

Lemma read_wait_empty n i owner s :
  byte_count (pipe_at s i) = 0 -> writer_closed (pipe_at s i) = 0 ->
  wp (read_wait n i owner 0)
     (fun r s' => same_data s s' /\ (r = Some PIPE64_IO_BLOCKED \/ r = Some PIPE64_IO_ERROR)) s.
Proof.
  revert s. induction n as [|n IH]; intros s H Hw; simpl; wp_step; wp_step; rewrite H, Hw; simpl;
    apply wp_bind; (eapply wp_mono; [apply block_same; by left|]); intros r s1 Hs; simpl in Hs;
    repeat wp_step; auto; try done.
  - pose proof (same_data_at _ _ i Hs) as Hu. eapply wp_mono.
    + apply IH; [change (byte_count (pipe_at s1 i)) with (byte_count (untasked (pipe_at s1 i)))
                |change (writer_closed (pipe_at s1 i)) with (writer_closed (untasked (pipe_at s1 i)))];
        by rewrite Hu.
    + intros r' s' [Hs' Hr]. split; [by transitivity s1|done].
Qed.

(** *** Closed forms of the transfer loops *)

#[local] Opaque PIPE64_SPIN_WAIT_LIMIT.

Lemma write_loop_fits data i owner n s :
  (i < length (g_pipe64_objects s))%nat -> pipe_ok (pipe_at s i) ->
  (length data <= room (pipe_at s i))%nat -> 0 <= n -> 0 < n + Z.of_nat (length data) < 2 ^ 32 ->
  write_loop i owner data n s =
    (n + Z.of_nat (length data), snd (pipe64_wake_blocked_task reader_slot i (upd i (put_bytes data) s))).
Proof.
  revert n s. induction data as [|b data IH]; intros n s Hi Hp Hr Hn Hlen; simpl in *.
  - rewrite Z.add_0_r in *. rewrite (upd_id i _ s) by done. unfold bind, ret. simpl.
    by rewrite (proj2 (Z.eqb_neq n 0)) by lia.
  - assert (Hlt : byte_count (pipe_at s i) < PIPE64_BUFFER_BYTES) by (apply room_pos; [done|lia]).
    pose proof (room_put _ b Hp Hlt) as Hroom. pose proof (po_capacity _ Hp) as Hc.
    unfold bind. rewrite write_wait_room by lia. cbn [fst snd]. rewrite update_pipe_run. cbn [fst snd].
    rewrite (inc32_small n) by (unfold U32_MAX; lia).
    rewrite IH; rewrite ?length_upd, ?pipe_at_upd by done; try lia; [|by apply put_byte_ok].
    rewrite upd_upd. f_equal. lia.
Qed.

Lemma write_loop_short data i owner n s :
  (i < length (g_pipe64_objects s))%nat -> pipe_ok (pipe_at s i) ->
  (room (pipe_at s i) < length data)%nat -> 0 <= n -> 0 < n + Z.of_nat (room (pipe_at s i)) < 2 ^ 32 ->
  write_loop i owner data n s =
    (n + Z.of_nat (room (pipe_at s i)), upd i (put_bytes (take (room (pipe_at s i)) data)) s).
Proof.
  revert n s. induction data as [|b data IH]; intros n s Hi Hp Hr Hn Hlen; simpl in *; [lia|].
  pose proof (po_capacity _ Hp) as Hc. pose proof (po_count _ Hp) as Hb.
  destruct (room (pipe_at s i)) as [|k] eqn:Ek.
  - rewrite Z.add_0_r in *. unfold bind. rewrite write_wait_stop by (unfold room in Ek; lia).
    simpl. by rewrite (upd_id i _ s) by done.
  - assert (Hlt : byte_count (pipe_at s i) < PIPE64_BUFFER_BYTES) by (apply room_pos; [done|lia]).
    pose proof (room_put _ b Hp Hlt) as Hroom.
    unfold bind. rewrite write_wait_room by lia. cbn [fst snd]. rewrite update_pipe_run. cbn [fst snd].
    rewrite (inc32_small n) by (unfold U32_MAX; lia).
    assert (Hk : room (pipe_at (upd i (put_byte b) s) i) = k) by (rewrite pipe_at_upd by done; lia).
    rewrite IH; rewrite ?length_upd, ?Hk, ?pipe_at_upd by done; try lia; [|by apply put_byte_ok].
    rewrite upd_upd. f_equal. lia.
Qed.

Lemma read_loop_fits k i owner n s :
  (i < length (g_pipe64_objects s))%nat -> pipe_ok (pipe_at s i) ->
  (k <= length (queue (pipe_at s i)))%nat -> 0 <= n -> 0 < n + Z.of_nat k < 2 ^ 32 ->
  exists s', read_loop k i owner n s = ((n + Z.of_nat k, take k (queue (pipe_at s i))), s')
    /\ same_data (upd i (drop_bytes k) s) s'.
Proof.
  revert n s. induction k as [|k IH]; intros n s Hi Hp Hr Hn Hlen; simpl in *.
  - rewrite Z.add_0_r in *. unfold bind, gets, ret. simpl. rewrite (upd_id i _ s) by done.
    rewrite take_0. eexists. split; [reflexivity|]. destruct (_ && _); [|by split].
    apply wake_same. by right.
  - rewrite length_queue in Hr.
    pose proof (queue_drop _ Hp ltac:(lia)) as Hq. unfold bind.
    rewrite read_wait_some by lia. cbn [fst snd]. rewrite update_pipe_run. cbn [fst snd gets].
    rewrite (inc32_small n) by (unfold U32_MAX; lia).
    destruct (IH (n + 1) (upd i drop_byte s)) as (s' & Heq & Hs);
      rewrite ?length_upd, ?pipe_at_upd by done; try lia.
    + apply drop_byte_ok; [done|lia].
    + pose proof (f_equal length Hq) as Hl. rewrite length_queue in Hl. simpl in Hl. lia.
    + rewrite pipe_at_upd in Heq by done. rewrite Heq. simpl. exists s'. rewrite upd_upd in Hs.
      split; [|done]. rewrite Hq. unfold ret. simpl. do 2 f_equal. lia.
Qed.

Lemma read_loop_short k i owner n s :
  (i < length (g_pipe64_objects s))%nat -> pipe_ok (pipe_at s i) ->
  (length (queue (pipe_at s i)) < k)%nat -> 0 <= n ->
  0 < n + Z.of_nat (length (queue (pipe_at s i))) < 2 ^ 32
  \/ n = 0 /\ queue (pipe_at s i) = [] /\ writer_closed (pipe_at s i) <> 0 ->
  read_loop k i owner n s =
    ((n + Z.of_nat (length (queue (pipe_at s i))), queue (pipe_at s i)),
     upd i (drop_bytes (length (queue (pipe_at s i)))) s).
Proof.
  revert n s. induction k as [|k IH]; intros n s Hi Hp Hr Hn Hlen; simpl in *; [lia|].
  pose proof (po_count _ Hp) as Hb.
  destruct (decide (byte_count (pipe_at s i) = 0)) as [E|E].
  - assert (Hq : queue (pipe_at s i) = []) by (unfold queue; by rewrite E).
    rewrite Hq in *. simpl in *. rewrite Z.add_0_r in *. unfold bind.
    rewrite read_wait_stop by (done || (destruct Hlen as [|(?&?&?)]; [left; lia|by right])).
    simpl. by rewrite (upd_id i _ s) by done.
  - pose proof (queue_drop _ Hp ltac:(lia)) as Hq. unfold bind.
    rewrite read_wait_some by lia. cbn [fst snd]. rewrite update_pipe_run. cbn [fst snd gets].
    rewrite Hq in Hr, Hlen. simpl in Hr, Hlen.
    destruct Hlen as [Hlen|(_ & Habs & _)]; [|done].
    rewrite (inc32_small n) by (unfold U32_MAX; lia).
    rewrite (IH (n + 1) (upd i drop_byte s)); rewrite ?length_upd, ?pipe_at_upd by done; try lia.
    + cbn [fst snd]. rewrite upd_upd. rewrite Hq. unfold ret. simpl. do 2 f_equal. lia.
    + apply drop_byte_ok; [done|lia].
Qed.

(** *** Lookup *)

Definition resolve (h owner : Z) (s : pipe_state W) : option nat :=
  let i := Z.to_nat (pipe64_handle_index h) in
  if (Z.land h PIPE64_HANDLE_BASE_MASK =? PIPE64_HANDLE_BASE) && negb (owner =? 0)
     && (pipe64_handle_index h <? Z.of_nat PIPE64_MAX_OBJECTS) && handle_ok (pipe_at s i) h owner
  then Some i else None.

Lemma init_done s : g_pipe64_initialized s <> 0 -> pipe64_init s = (tt, s).
Proof. intros H. unfold pipe64_init, bind, gets. cbn [fst snd]. by rewrite (proj2 (Z.eqb_neq _ _) H). Qed.

Lemma find_run h owner s :
  g_pipe64_initialized s <> 0 ->
  pipe64_find h owner s = (resolve h owner s, match resolve h owner s with Some _ => s | None => snd (deny s) end).
Proof.
  intros H. unfold pipe64_find, bind. rewrite init_done by done. cbn [fst snd].
  unfold resolve. rewrite Z.ltb_antisym.
  destruct (_ =? PIPE64_HANDLE_BASE); cbn [negb orb andb]; [|done].
  destruct (owner =? 0); cbn [negb orb andb]; [done|].
  destruct (_ <=? _); cbn [negb andb]; [done|]. unfold gets. cbn [fst snd].
  by destruct (handle_ok _ _ _).
Qed.

Lemma resolve_Some h owner s i :
  resolve h owner s = Some i ->
  (i < PIPE64_MAX_OBJECTS)%nat /\ i = Z.to_nat (pipe64_handle_index h) /\ live (pipe_at s i) <> 0
  /\ generation (pipe_at s i) = pipe64_handle_generation h
  /\ (h = read_handle (pipe_at s i) \/ h = write_handle (pipe_at s i))
  /\ pipe64_endpoint_owner_matches (pipe_at s i) (pipe64_handle_kind h) owner = true.
Proof.
  unfold resolve, handle_ok. destruct (_ && _) eqn:E; [|done]. intros [= <-]. boolify.
  split_and!; try done; [unfold PIPE64_MAX_OBJECTS in *; lia|].
  by apply orb_true_iff in H2 as [?%Z.eqb_eq|?%Z.eqb_eq]; [left|right].
Qed.

Lemma resolve_same h owner s s' : same_data s s' -> resolve h owner s' = resolve h owner s.
Proof.
  intros Hs. unfold resolve. set (i := Z.to_nat _). pose proof (same_data_at _ _ i Hs) as Hu.
  change (handle_ok (pipe_at s' i) h owner) with (handle_ok (untasked (pipe_at s' i)) h owner).
  by rewrite Hu.
Qed.

(** *** The transfers keep the table well formed *)

Lemma object_ok_put i p b :
  object_ok i p -> live p <> 0 -> byte_count p < PIPE64_BUFFER_BYTES -> object_ok i (put_byte b p).
Proof. intros [] Hl Hc. constructor; simpl; auto; [by apply put_byte_ok|done]. Qed.

Lemma object_ok_drop i p :
  object_ok i p -> live p <> 0 -> 0 < byte_count p -> object_ok i (drop_byte p).
Proof. intros [] Hl Hc. constructor; simpl; auto; [by apply drop_byte_ok|done]. Qed.

Lemma object_ok_puts i data p :
  object_ok i p -> live p <> 0 -> (length data <= room p)%nat -> object_ok i (put_bytes data p).
Proof.
  revert p. induction data as [|b data IH]; intros p Ho Hl Hr; simpl in *; [done|].
  pose proof (oo_buffer _ _ Ho) as Hp.
  assert (Hlt : byte_count p < PIPE64_BUFFER_BYTES) by (apply room_pos; [done|lia]).
  pose proof (room_put p b Hp Hlt). apply IH; [by apply object_ok_put|done|lia].
Qed.

Lemma object_ok_drops i n p :
  object_ok i p -> live p <> 0 -> (n <= length (queue p))%nat -> object_ok i (drop_bytes n p).
Proof.
  revert p. induction n as [|n IH]; intros p Ho Hl Hn; simpl in *; [done|].
  rewrite length_queue in Hn. pose proof (queue_drop p (oo_buffer _ _ Ho) ltac:(lia)) as Hq.
  apply IH; [apply object_ok_drop; [done|done|lia]|done|].
  pose proof (f_equal length Hq) as Hlen. rewrite length_queue in Hlen. simpl in Hlen. lia.
Qed.

End table.

End PipeFacts.
