(* ===== verification/PipeIO.v ===== *)
(** * Pipe transfers and teardown as operations on queues

    What [pipe64_write], [pipe64_read] and [pipe64_revoke_handle] do to the
    queues of the table, for every handle and owner. *)

From S2P Require Import Prelude Process PersonaBudget Pipe PipeFacts.
Import PersonaBudget Pipe PipeFacts.
Local Open Scope Z_scope.

Module PipeIO.

#[local] Opaque PIPE64_SPIN_WAIT_LIMIT.

(** The bytes a transfer result stands for: none for the two error codes. *)
Definition accepted (r : Z) : nat := if r <=? PIPE64_BUFFER_BYTES then Z.to_nat r else 0%nat.

Definition target (h : Z) : nat := Z.to_nat (pipe64_handle_index h).

Section io.
Context {W : Type} {pw : PipeWorld W}.
Implicit Types (s : pipe_state W) (p : pipe64_buffer_t).

(** Only queue [j] changes, from [q] to [q']. *)
Definition queues_move (s s' : pipe_state W) (j : nat) (q q' : list Z) : Prop :=
  queue (pipe_at s j) = q /\ queue (pipe_at s' j) = q' /\
  forall i, i <> j -> queue (pipe_at s' i) = queue (pipe_at s i).

Lemma queues_same s s' j :
  same_data s s' -> queues_move s s' j (queue (pipe_at s j)) (queue (pipe_at s j)).
Proof. intros H. split_and!; [done|by apply same_data_queue|]. intros i _. by apply same_data_queue. Qed.

Lemma queues_upd s s' i f :
  (i < length (g_pipe64_objects s))%nat -> same_data (upd i f s) s' ->
  queues_move s s' i (queue (pipe_at s i)) (queue (f (pipe_at s i))).
Proof.
  intros Hi Hs. split_and!; [done| |].
  - by rewrite (same_data_queue _ _ i Hs), pipe_at_upd.
  - intros j Hj. by rewrite (same_data_queue _ _ j Hs), pipe_at_upd_ne.
Qed.

(** ** Writing *)

(** A write that reaches an open pipe: a full pipe takes nothing and the
    caller is parked or refused; otherwise the pipe takes as much as fits. *)
Lemma write_open i owner data s :
  ready s -> (i < PIPE64_MAX_OBJECTS)%nat -> live (pipe_at s i) <> 0 ->
  data <> [] -> Z.of_nat (length data) < 2 ^ 32 ->
  let p := pipe_at s i in
  wp (write_loop i owner data 0)
    (fun r s' => ready s' /\
       if decide (room p = 0%nat) then same_data s s' /\ (r = PIPE64_IO_BLOCKED \/ r = PIPE64_IO_ERROR)
       else r = Z.of_nat (Nat.min (length data) (room p))
            /\ same_data (upd i (put_bytes (take (room p) data)) s) s') s.
Proof.
  intros Hr Hi Hl Hd Hlen p. pose proof (ready_at s i Hr Hi) as Ho. pose proof (oo_buffer _ _ Ho) as Hp.
  pose proof (po_capacity _ Hp) as Hc. pose proof (po_count _ Hp) as Hb.
  pose proof (rd_length _ Hr) as Hn.
  assert (Hlt : (i < length (g_pipe64_objects s))%nat) by by rewrite Hn.
  assert (Hok : forall d, (length d <= room p)%nat -> ready (upd i (put_bytes d) s)).
  { intros d Hd'. apply ready_upd; [done|]. by apply object_ok_puts. }
  case_decide as Hroom.
  - destruct data as [|b data]; [done|]. simpl. wp_step.
    eapply wp_mono; [apply write_wait_full; unfold room, PIPE64_BUFFER_BYTES in *; subst p; lia|].
    intros r s' [Hs Hcases]. assert (Hr' : ready s') by by eapply ready_same.
    destruct Hcases as [-> | ->]; wp_step; auto.
  - destruct (decide (length data <= room p)%nat) as [Hfit|Hfit]; unfold wp.
    + destruct data as [|b data]; [done|].
      rewrite write_loop_fits by (done || simpl in *; lia). cbn [fst snd].
      rewrite take_ge by done. pose proof (wake_same reader_slot i (upd i (put_bytes (b :: data)) s)) as Hw.
      specialize (Hw (or_introl eq_refl)). unfold wp in Hw.
      split; [by eapply ready_same; [apply Hw|apply Hok]|]. split; [|exact Hw].
      rewrite Nat.min_l by done. lia.
    + rewrite write_loop_short by (done || unfold p, room in *; lia). cbn [fst snd]. fold p.
      split; [|split; [rewrite Nat.min_r by lia; lia|reflexivity]].
      apply Hok. rewrite length_take. lia.
Qed.

(** *** Every write, whatever the handle *)
Lemma write_effect h data owner s :
  ready s -> Z.of_nat (length data) < 2 ^ 32 ->
  wp (pipe64_write h data owner)
    (fun r s' => ready s' /\
       queues_move s s' (target h) (queue (pipe_at s (target h)))
         (queue (pipe_at s (target h)) ++ take (accepted r) data)) s.
Proof.
  intros Hr Hlen. assert (Hnone : forall s' r, same_data s s' -> accepted r = 0%nat -> ready s' /\
    queues_move s s' (target h) (queue (pipe_at s (target h)))
      (queue (pipe_at s (target h)) ++ take (accepted r) data)).
  { intros s' r Hs ->. rewrite take_0, app_nil_r. split; [by eapply ready_same|by apply queues_same]. }
  unfold pipe64_write. destruct data as [|b data]; [wp_step; by apply Hnone|].
  apply wp_bind. unfold wp at 1. rewrite (find_run h owner s) by apply Hr. cbn [fst snd].
  destruct (resolve h owner s) as [i|] eqn:E; [|wp_step; unfold deny; wp_step; wp_step; by apply Hnone].
  apply resolve_Some in E as (Hi & Hih & Hl & _). wp_step. wp_step.
  wp_step; [unfold deny; wp_step; wp_step; wp_step; by apply Hnone|].
  eapply wp_mono; [apply write_open; done|]. intros r s' [Hr' Hcases]. cbv zeta in Hcases.
  case_decide as Hroom.
  - destruct Hcases as [Hs [-> | ->]]; by apply Hnone.
  - destruct Hcases as [-> Hs]. split; [done|]. subst i. fold (target h) in *.
    pose proof (oo_buffer _ _ (ready_at s _ Hr Hi)) as Hp.
    pose proof (queue_room _ Hp) as Hqr. set (p := pipe_at s (target h)) in *.
    assert (Ha : accepted (Z.of_nat (Nat.min (length (b :: data)) (room p))) = Nat.min (length (b :: data)) (room p)).
    { unfold accepted. rewrite (proj2 (Z.leb_le _ _)) by (unfold PIPE64_BUFFER_BYTES in *; lia). lia. }
    rewrite Ha. destruct (put_bytes_ok (take (room p) (b :: data)) p Hp) as (_ & Hq & _).
    { rewrite length_take. lia. }
    replace (take (Nat.min _ _) (b :: data)) with (take (room p) (b :: data)).
    + rewrite <- Hq. apply queues_upd; [by rewrite (rd_length _ Hr)|done].
    + rewrite <- take_take, (take_ge (take _ _)); [done|]. rewrite length_take. lia.
Qed.

(** ** Reading *)

Lemma read_open i owner n s :
  ready s -> (i < PIPE64_MAX_OBJECTS)%nat -> live (pipe_at s i) <> 0 -> (0 < n)%nat ->
  let p := pipe_at s i in
  wp (read_loop n i owner 0)
    (fun res s' => ready s' /\
       if decide (queue p = [] /\ writer_closed p = 0)
       then same_data s s' /\ snd res = [] /\ (fst res = PIPE64_IO_BLOCKED \/ fst res = PIPE64_IO_ERROR)
       else res = (Z.of_nat (length (take n (queue p))), take n (queue p))
            /\ same_data (upd i (drop_bytes (length (take n (queue p)))) s) s') s.
Proof.
  intros Hr Hi Hl Hpos p. pose proof (ready_at s i Hr Hi) as Ho. pose proof (oo_buffer _ _ Ho) as Hp.
  pose proof (po_count _ Hp) as Hb. pose proof (rd_length _ Hr) as Hn.
  pose proof (length_queue p) as Hlq.
  assert (Hlt : (i < length (g_pipe64_objects s))%nat) by by rewrite Hn.
  assert (Hok : forall k, (k <= length (queue p))%nat -> ready (upd i (drop_bytes k) s)).
  { intros k Hk. apply ready_upd; [done|]. by apply object_ok_drops. }
  case_decide as Hempty.
  - destruct Hempty as [Hq Hw]. destruct n as [|n]; [lia|]. simpl. wp_step.
    eapply wp_mono; [apply read_wait_empty; [|done]; fold p; rewrite Hq in Hlq; simpl in Hlq;
      unfold p in *; lia|].
    intros r s' [Hs Hcases]. assert (Hr' : ready s') by by eapply ready_same.
    destruct Hcases as [-> | ->]; wp_step; auto.
  - unfold PIPE64_BUFFER_BYTES in *. fold p in Hb.
    destruct (decide (n <= length (queue p))%nat) as [Hfit|Hfit]; unfold wp.
    + destruct (read_loop_fits n i owner 0 s) as (s' & -> & Hs); [done|done|done|lia|lia|].
      fold p. cbn [fst snd]. rewrite length_take, Nat.min_l by done.
      split; [by eapply ready_same; [apply Hs|apply Hok]|done].
    + rewrite read_loop_short; fold p; [|done|done|lia|lia|].
      * cbn [fst snd]. rewrite take_ge by lia. split; [by apply Hok|done].
      * destruct (queue p) as [|x q]; simpl in *; [right|left; lia].
        split_and!; [done|done|]. intros Hw. by apply Hempty.
Qed.

(** *** Every read, whatever the handle *)
Lemma read_effect h n owner s :
  ready s -> 0 <= n ->
  wp (pipe64_read h n owner)
    (fun res s' => ready s' /\ length (snd res) = accepted (fst res) /\
       exists q', queues_move s s' (target h) (snd res ++ q') q') s.
Proof.
  intros Hr Hn. assert (Hnone : forall s' r, same_data s s' -> accepted r = 0%nat ->
    ready s' /\ length (@nil Z) = accepted r /\ exists q', queues_move s s' (target h) ([] ++ q') q').
  { intros s' r Hs ->. split_and!; [by eapply ready_same|done|]. eexists. by apply queues_same. }
  unfold pipe64_read. wp_step; [wp_step; by apply Hnone|]. boolify.
  apply wp_bind. unfold wp at 1. rewrite (find_run h owner s) by apply Hr. cbn [fst snd].
  destruct (resolve h owner s) as [i|] eqn:E'; [|wp_step; unfold deny; wp_step; wp_step; by apply Hnone].
  apply resolve_Some in E' as (Hi & Hih & Hl & _). wp_step. wp_step.
  wp_step; [unfold deny; wp_step; wp_step; wp_step; by apply Hnone|].
  eapply wp_mono; [apply read_open; done || lia|]. intros [r out] s' [Hr' Hcases]. cbv zeta in Hcases.
  pose proof (oo_buffer _ _ (ready_at s _ Hr Hi)) as Hp. pose proof (queue_room _ Hp) as Hqr.
  subst i. fold (target h) in *. set (p := pipe_at s (target h)) in *. case_decide as Hempty.
  - destruct Hcases as (Hs & Hout & Hc). simpl in *. subst out.
    destruct Hc as [-> | ->]; by apply Hnone.
  - destruct Hcases as [[= -> ->] Hs]. cbn [fst snd]. rewrite length_take in *. split_and!; [done| |].
    + unfold accepted. rewrite (proj2 (Z.leb_le _ _)) by (unfold PIPE64_BUFFER_BYTES in *; lia). lia.
    + eexists. destruct (drop_bytes_ok (Nat.min (Z.to_nat n) (length (queue p))) p Hp ltac:(lia)) as [_ Hq].
      pose proof (queues_upd s s' (target h) _ ltac:(by rewrite (rd_length _ Hr)) Hs) as Hmove.
      fold p in Hmove. rewrite Hq in Hmove.
      replace (take (Z.to_nat n) (queue p)) with (take (Nat.min (Z.to_nat n) (length (queue p))) (queue p)).
      * by rewrite take_drop.
      * rewrite <- take_take, firstn_all. done.
Qed.

(** ** Closing an end *)

(** The object after one reference to an end is dropped, and after the check
    whether both ends are gone. *)
Definition close_read p : pipe64_buffer_t :=
  let q := drop_reader p in if read_ref_count q =? 0 then q <| reader_closed := 1 |> else q.
Definition close_write p : pipe64_buffer_t :=
  let q := drop_writer p in if write_ref_count q =? 0 then q <| writer_closed := 1 |> else q.
Definition both_closed p : bool := negb (reader_closed p =? 0) && negb (writer_closed p =? 0).
Definition settle p : pipe64_buffer_t := if both_closed p then cleared (generation p) else p.
Definition revoked (kind : Z) p : pipe64_buffer_t :=
  settle (if kind =? PIPE64_HANDLE_KIND_READ then close_read p else close_write p).

(** The budgets once a live object of [p] is cleared. *)
Definition refunded p (ps : persona_state) : persona_state :=
  if negb (live p =? 0) && negb (owner_pid p =? PROCESS64_INVALID_PID)
  then snd (persona64_budget_release_pipe (owner_pid p) 1 ps) else ps.

(** Object [i] becomes [q]; the others keep everything but their task
    slots. *)
Record moved (i : nat) (q : pipe64_buffer_t) (s s' : pipe_state W) : Prop := {
  mv_at : untasked (pipe_at s' i) = untasked q;
  mv_other : forall j, j <> i -> untasked (pipe_at s' j) = untasked (pipe_at s j);
  mv_length : length (g_pipe64_objects s') = length (g_pipe64_objects s);
  mv_init : g_pipe64_initialized s' = g_pipe64_initialized s;
}.

Lemma moved_upd i f s s' :
  (i < length (g_pipe64_objects s))%nat -> same_data (upd i f s) s' -> moved i (f (pipe_at s i)) s s'.
Proof.
  intros Hi Hs. constructor.
  - by rewrite (same_data_at _ _ i Hs), pipe_at_upd.
  - intros j Hj. by rewrite (same_data_at _ _ j Hs), pipe_at_upd_ne.
  - by rewrite (same_data_length _ _ Hs), length_upd.
  - apply (sd_init _ _ Hs).
Qed.

Lemma ready_moved i q s s' : ready s -> moved i q s s' -> object_ok i q -> ready s'.
Proof.
  intros [Hi Hl Ho] [Ha Hot Hlen Hin] Hq. constructor; [by rewrite Hin|by rewrite Hlen|].
  intros j p Hp. assert (Hlt : (j < length (g_pipe64_objects s))%nat).
  { rewrite <- Hlen. by eapply lookup_lt_Some. }
  pose proof (pipe_at_lookup _ _ _ Hp) as Hpa. destruct (decide (j = i)) as [->|Hj].
  - eapply object_ok_untasked; [|exact Hq]. by rewrite <- Ha, Hpa.
  - eapply object_ok_untasked; [|apply Ho, lookup_pipe_at, Hlt]. by rewrite <- Hot, Hpa.
Qed.

Lemma clear_run i s :
  pipe64_clear_object i s =
    (tt, upd i (fun p => cleared (generation p))
           (s <| personas := refunded (pipe_at s i) (personas s) |>)).
Proof.
  unfold pipe64_clear_object, refunded, bind, gets. cbn [fst snd].
  destruct (negb _ && negb _); [|by destruct s].
  unfold on_personas, ret. by destruct (persona64_budget_release_pipe _ _ _).
Qed.

Lemma object_ok_cleared i g : 0 < g < 2 ^ 32 -> object_ok i (cleared g).
Proof.
  intros Hg. constructor; [apply cleared_ok|..]; simpl; intros; done.
Qed.

Lemma pipe_ok_meta p q :
  pipe_ok p ->
  (capacity q, bytes q, read_index q, write_index q, byte_count q, byte_count_semaphore q)
  = (capacity p, bytes p, read_index p, write_index p, byte_count p, byte_count_semaphore p) ->
  pipe_ok q.
Proof. intros [] [= Hc Hb Hr Hw Hn Hs]. constructor; by rewrite ?Hc, ?Hb, ?Hr, ?Hw, ?Hn, ?Hs. Qed.

Lemma dec_nonzero a : fits32 a -> a <> 0 -> dec32 a = a - 1 /\ fits32 (a - 1).
Proof.
  intros Hf Ha. assert (fits32 (a - 1)) by (unfold fits32 in *; lia).
  split; [by apply wrap32_small|done].
Qed.

Lemma object_ok_settle_read i p :
  object_ok i p -> live p <> 0 -> object_ok i (settle (close_read p)).
Proof.
  intros Ho Hl. unfold settle. destruct (both_closed _) eqn:Hb.
  { apply object_ok_cleared. unfold close_read, drop_reader. repeat case_match; apply Ho. }
  destruct Ho as [Hbuf Hg Hf Hrh Hwh Hown Hr Hw Hop [Hf1 Hf2]]. unfold both_closed in Hb.
  specialize (Hrh Hl). specialize (Hwh Hl). specialize (Hown Hl).
  specialize (Hr Hl). specialize (Hw Hl). specialize (Hop Hl).
  pose proof (dec_nonzero (read_ref_count p) Hf1) as Hd.
  unfold close_read, drop_reader in *. revert Hb.
  destruct (Z.eqb_spec (read_ref_count p) 0) as [E|E]; simpl in *.
  - rewrite E in *. simpl in *. intros Hb. constructor; simpl; auto; try done. by apply (pipe_ok_meta p).
  - destruct (Hd E) as [Hdec Hfit]. rewrite Hdec in *.
    destruct (Z.eqb_spec (read_ref_count p - 1) 0) as [E1|E1]; simpl in *; intros Hb.
    + rewrite Hw in Hb. destruct (Z.eqb_spec (write_ref_count p) 0) as [E2|E2]; [done|].
      constructor; simpl; auto; try done; [by apply (pipe_ok_meta p)| |];
        rewrite ?E1, ?(proj2 (Z.eqb_neq _ _) E2); done.
    + constructor; simpl; auto; try done; [by apply (pipe_ok_meta p)|].
      intros _. by rewrite Hr, (proj2 (Z.eqb_neq _ _) E1).
Qed.

Lemma object_ok_settle_write i p :
  object_ok i p -> live p <> 0 -> object_ok i (settle (close_write p)).
Proof.
  intros Ho Hl. unfold settle. destruct (both_closed _) eqn:Hb.
  { apply object_ok_cleared. unfold close_write, drop_writer. repeat case_match; apply Ho. }
  destruct Ho as [Hbuf Hg Hf Hrh Hwh Hown Hr Hw Hop [Hf1 Hf2]]. unfold both_closed in Hb.
  specialize (Hrh Hl). specialize (Hwh Hl). specialize (Hown Hl).
  specialize (Hr Hl). specialize (Hw Hl). specialize (Hop Hl).
  pose proof (dec_nonzero (write_ref_count p) Hf2) as Hd.
  unfold close_write, drop_writer in *. revert Hb.
  destruct (Z.eqb_spec (write_ref_count p) 0) as [E|E]; simpl in *.
  - rewrite E in *. simpl in *. intros Hb. constructor; simpl; auto; try done. by apply (pipe_ok_meta p).
  - destruct (Hd E) as [Hdec Hfit]. rewrite Hdec in *.
    destruct (Z.eqb_spec (write_ref_count p - 1) 0) as [E1|E1]; simpl in *; intros Hb.
    + rewrite Hr in Hb. destruct (Z.eqb_spec (read_ref_count p) 0) as [E2|E2]; [done|].
      constructor; simpl; auto; try done; [by apply (pipe_ok_meta p)| |];
        rewrite ?E1, ?(proj2 (Z.eqb_neq _ _) E2); done.
    + constructor; simpl; auto; try done; [by apply (pipe_ok_meta p)|].
      intros _. by rewrite Hw, (proj2 (Z.eqb_neq _ _) E1).
Qed.

Lemma moved_trans i q q' s s1 s' :
  moved i q s s1 -> moved i q' s1 s' -> moved i q' s s'.
Proof.
  intros [A1 O1 L1 I1] [A2 O2 L2 I2]. constructor; [done| |congruence|congruence].
  intros j Hj. by rewrite O2, O1.
Qed.

(** The end of [pipe64_revoke_handle]: tear down when both ends are gone. *)
Lemma finish_effect i s :
  (i < length (g_pipe64_objects s))%nat ->
  wp (bind (gets (fun s => pipe_at s i)) (fun p =>
        bind (if negb (reader_closed p =? 0) && negb (writer_closed p =? 0)
              then pipe64_clear_object i else ret tt) (fun _ => ret 1)))
    (fun r s' => r = 1 /\ moved i (settle (pipe_at s i)) s s' /\
       personas s' = if both_closed (pipe_at s i) then refunded (pipe_at s i) (personas s)
                     else personas s) s.
Proof.
  intros Hi. wp_step. wp_step. wp_step. unfold settle, both_closed.
  destruct (negb _ && negb _); [|by wp_step; wp_step].
  unfold wp. rewrite clear_run. cbn [fst snd]. split_and!; [done| |done].
  set (s0 := s <| personas := _ |>).
  destruct (moved_upd i (fun p => cleared (generation p)) s0 (upd i (fun p => cleared (generation p)) s0))
    as [A O L I]; [done|reflexivity|by constructor].
Qed.

(** One closing step, then the teardown check. *)
Lemma settle_effect i f s s1 :
  ready s -> (i < PIPE64_MAX_OBJECTS)%nat -> live (pipe_at s i) <> 0 ->
  live (f (pipe_at s i)) = live (pipe_at s i) ->
  owner_pid (f (pipe_at s i)) = owner_pid (pipe_at s i) ->
  object_ok i (settle (f (pipe_at s i))) -> same_data (upd i f s) s1 ->
  wp (bind (gets (fun s => pipe_at s i)) (fun p =>
      bind (if negb (reader_closed p =? 0) && negb (writer_closed p =? 0)
            then pipe64_clear_object i else ret tt) (fun _ => ret 1)))
    (fun r s' => ready s' /\ r = 1 /\ moved i (settle (f (pipe_at s i))) s s' /\
       personas s' = if live (settle (f (pipe_at s i))) =? 0
                     then refunded (pipe_at s i) (personas s) else personas s) s1.
Proof.
  intros Hr Hi Hl Hlf Hof Hok Hs.
  assert (Hlen : (i < length (g_pipe64_objects s))%nat) by by rewrite (rd_length _ Hr).
  pose proof (moved_upd i f s s1 Hlen Hs) as Hm.
  eapply wp_mono; [apply finish_effect; by rewrite (mv_length _ _ _ _ Hm)|].
  intros r s' (-> & Hm' & Hp). pose proof (mv_at _ _ _ _ Hm) as Hat.
  assert (Hb : both_closed (pipe_at s1 i) = both_closed (f (pipe_at s i))).
  { change (both_closed (untasked (pipe_at s1 i)) = both_closed (untasked (f (pipe_at s i)))). by rewrite Hat. }
  assert (Hset : untasked (settle (pipe_at s1 i)) = untasked (settle (f (pipe_at s i)))).
  { unfold settle. rewrite Hb. destruct (both_closed (f (pipe_at s i))); [|exact Hat].
    change (generation (pipe_at s1 i)) with (generation (untasked (pipe_at s1 i))). by rewrite Hat. }
  assert (Hmv : moved i (settle (f (pipe_at s i))) s s').
  { pose proof (moved_trans _ _ _ _ _ _ Hm Hm') as [A O L I]. constructor; [congruence|done..]. }
  split_and!; [by eapply ready_moved|done|done|]. rewrite Hp, Hb, (sd_personas _ _ Hs).
  unfold settle. destruct (both_closed (f (pipe_at s i))); simpl.
  - unfold refunded. change (live (pipe_at s1 i)) with (live (untasked (pipe_at s1 i))).
    change (owner_pid (pipe_at s1 i)) with (owner_pid (untasked (pipe_at s1 i))). rewrite Hat.
    change (live (untasked (f (pipe_at s i)))) with (live (f (pipe_at s i))).
    change (owner_pid (untasked (f (pipe_at s i)))) with (owner_pid (f (pipe_at s i))).
    by rewrite Hlf, Hof.
  - by rewrite Hlf, (proj2 (Z.eqb_neq _ _) Hl).
Qed.

Lemma close_read_data i s :
  (i < length (g_pipe64_objects s))%nat ->
  same_data (upd i close_read s)
    (snd ((if read_ref_count (drop_reader (pipe_at s i)) =? 0
           then bind (update_pipe i (fun p => p <| reader_closed := 1 |>))
                  (fun _ => pipe64_wake_blocked_task writer_slot i)
           else ret 0) (upd i drop_reader s))).
Proof.
  intros Hi. assert (Hc : forall q, g_pipe64_objects s !! i = Some q -> q = pipe_at s i) by
    (intros q Hq; by rewrite (pipe_at_lookup _ _ _ Hq)).
  destruct (read_ref_count (drop_reader (pipe_at s i)) =? 0) eqn:E1; unfold bind; cbn [fst snd].
  - rewrite update_pipe_run, upd_upd. cbn [fst snd].
    rewrite (upd_ext i close_read (fun p => (drop_reader p) <| reader_closed := 1 |>)).
    { apply (wake_same writer_slot). by right. }
    intros q ->%Hc. unfold close_read. cbv zeta. by rewrite E1.
  - rewrite (upd_ext i close_read drop_reader); [reflexivity|].
    intros q ->%Hc. unfold close_read. cbv zeta. by rewrite E1.
Qed.

Lemma close_write_data i s :
  (i < length (g_pipe64_objects s))%nat ->
  same_data (upd i close_write s)
    (snd ((if write_ref_count (drop_writer (pipe_at s i)) =? 0
           then bind (update_pipe i (fun p => p <| writer_closed := 1 |>))
                  (fun _ => pipe64_wake_blocked_task reader_slot i)
           else ret 0) (upd i drop_writer s))).
Proof.
  intros Hi. assert (Hc : forall q, g_pipe64_objects s !! i = Some q -> q = pipe_at s i) by
    (intros q Hq; by rewrite (pipe_at_lookup _ _ _ Hq)).
  destruct (write_ref_count (drop_writer (pipe_at s i)) =? 0) eqn:E1; unfold bind; cbn [fst snd].
  - rewrite update_pipe_run, upd_upd. cbn [fst snd].
    rewrite (upd_ext i close_write (fun p => (drop_writer p) <| writer_closed := 1 |>)).
    { apply (wake_same reader_slot). by left. }
    intros q ->%Hc. unfold close_write. cbv zeta. by rewrite E1.
  - rewrite (upd_ext i close_write drop_writer); [reflexivity|].
    intros q ->%Hc. unfold close_write. cbv zeta. by rewrite E1.
Qed.

(** A handle that resolves is one of the object's two handles, and carries
    that end's kind. *)
Lemma resolve_kind h owner s i :
  ready s -> resolve h owner s = Some i ->
  h = read_handle (pipe_at s i) /\ pipe64_handle_kind h = PIPE64_HANDLE_KIND_READ
  \/ h = write_handle (pipe_at s i) /\ pipe64_handle_kind h = PIPE64_HANDLE_KIND_WRITE.
Proof.
  intros Hr E. apply resolve_Some in E as (Hi & _ & Hl & _ & Hh & _).
  pose proof (ready_at s i Hr Hi) as Ho.
  assert (Hg0 : 0 < generation (pipe_at s i)) by apply Ho.
  destruct Hh as [Hh|Hh]; [left|right]; (split; [done|]); rewrite Hh;
    rewrite ?(oo_read_handle _ _ Ho Hl), ?(oo_write_handle _ _ Ho Hl); apply handle_fields; auto.
Qed.

(** *** Every revocation of an end *)
Lemma revoke_effect h owner s :
  ready s ->
  wp (pipe64_revoke_handle h owner)
    (fun r s' => ready s' /\
       match resolve h owner s with
       | None => r = 0 /\ same_data s s'
       | Some i =>
           let q := revoked (pipe64_handle_kind h) (pipe_at s i) in
           r = 1 /\ moved i q s s' /\
           personas s' = if live q =? 0 then refunded (pipe_at s i) (personas s) else personas s
       end) s.
Proof.
  intros Hr. unfold pipe64_revoke_handle.
  apply wp_bind. unfold wp at 1. rewrite (find_run h owner s) by apply Hr. cbn [fst snd].
  destruct (resolve h owner s) as [i|] eqn:E.
  2: { wp_step. split; [by eapply ready_same; [apply same_deny|]|]. split; [done|apply same_deny]. }
  pose proof (resolve_kind _ _ _ _ Hr E) as Hk.
  apply resolve_Some in E as (Hi & _ & Hl & _ & _). pose proof (ready_at s i Hr Hi) as Ho.
  assert (Hlen : (i < length (g_pipe64_objects s))%nat) by by rewrite (rd_length _ Hr).
  unfold revoked. destruct Hk as [[_ ->] | [_ ->]]; cbn [Z.eqb PIPE64_HANDLE_KIND_READ PIPE64_HANDLE_KIND_WRITE Pos.eqb].
  - wp_step. unfold wp at 1. rewrite update_pipe_run. cbn [fst snd]. wp_step. wp_step. wp_step.
    rewrite pipe_at_upd by done. unfold wp at 1. cbn beta.
    apply (settle_effect i close_read s); try done; [| |by apply object_ok_settle_read|by apply close_read_data];
      unfold close_read, drop_reader; by repeat case_match.
  - wp_step. unfold wp at 1. rewrite update_pipe_run. cbn [fst snd]. wp_step. wp_step. wp_step.
    rewrite pipe_at_upd by done. unfold wp at 1. cbn beta.
    apply (settle_effect i close_write s); try done; [| |by apply object_ok_settle_write|by apply close_write_data];
      unfold close_write, drop_writer; by repeat case_match.
Qed.

(** ** Opening objects *)

Lemma object_ok_opened i g q owner :
  0 < g < 2 ^ 32 -> q <> PROCESS64_INVALID_PID -> object_ok i (opened i g q owner).
Proof.
  intros Hg Hq. assert (pipe_ok (opened i g q owner)) by
    (apply (pipe_ok_meta (cleared g)); [apply cleared_ok|done]).
  constructor; try done. intros _. by left.
Qed.

Lemma next_generation_ok g : 0 < g < 2 ^ 32 -> 0 < next_generation g < 2 ^ 32.
Proof.
  intros Hg. unfold next_generation. destruct (Z.eqb_spec (inc32 g) 0); [lia|].
  pose proof (wrap32_fits (g + 1)) as H. unfold fits32, inc32, add32 in *. lia.
Qed.

(** The first call initialises the table. *)
Lemma boot_ready s :
  g_pipe64_initialized s = 0 -> length (g_pipe64_objects s) = PIPE64_MAX_OBJECTS ->
  ready (snd (pipe64_init s)).
Proof.
  intros H0 Hl.
  assert (H : wp (for_range PIPE64_MAX_OBJECTS (fun i =>
      bind (update_pipe i (fun p => p <| generation := 1 |>)) (fun _ => pipe64_clear_object i)))
    (fun _ s' => length (g_pipe64_objects s') = PIPE64_MAX_OBJECTS /\
       forall j p, (j < PIPE64_MAX_OBJECTS)%nat -> g_pipe64_objects s' !! j = Some p -> p = cleared 1) s).
  { apply (wp_for_range _ _ (fun i s' => length (g_pipe64_objects s') = PIPE64_MAX_OBJECTS /\
      forall j p, (j < i)%nat -> g_pipe64_objects s' !! j = Some p -> p = cleared 1)).
    - split; [done|]. intros; lia.
    - intros i s' Hi [Hl' Hj]. unfold wp, bind. rewrite update_pipe_run. cbn [fst snd]. rewrite clear_run.
      cbn [fst snd]. split; [rewrite length_upd; simpl; by rewrite length_alter|].
      intros j p Hlt (x & Hx & ->)%lookup_alter_Some. simpl in Hx.
      apply lookup_alter_Some in Hx as (y & Hy & ->). case_decide; [done|]. apply (Hj j); [lia|done]. }
  unfold pipe64_init, bind at 1, gets. cbn [fst snd]. rewrite H0. cbn [Z.eqb negb].
  unfold bind at 1, modify. cbn [snd]. unfold wp in H.
  destruct (for_range PIPE64_MAX_OBJECTS _ s) as [u s1]. cbn [fst snd] in *. destruct H as [Hlen Hall].
  constructor; [done|exact Hlen|]. intros i p Hp. simpl in Hp.
  rewrite (Hall i p); [by apply object_ok_cleared| |done]. rewrite <- Hlen. by eapply lookup_lt_Some.
Qed.

End io.
End PipeIO.
