(* ===== verification/Fd.v ===== *)
(** * Descriptor tables: kernel/arch/x86_64/fd.c, and the descriptor side of
    pipe.c

    Sixteen per-process tables of 1024 descriptors, each descriptor naming a
    capability handle of some provider.  A table is attached to a process
    through the process table; a pointer to a table is its index.  Closing
    the last alias of a handle revokes it: pipe ends through Pipe.v, node and
    service capabilities through [FdWorld].  [pipe64_create_flags] and
    [pipe64_grant_endpoint_inner] (pipe.c) install and drop descriptors, so
    they are here.  [fd64_seek], [fd64_stat] and their parsers are not
    modelled.  UEFI kernel configuration; pointer arguments are non-null. *)

From S2P Require Import Prelude Services64 Process PersonaBudget Pipe.
Import PersonaBudget Pipe.
Local Open Scope Z_scope.
Local Open Scope kernel_scope.

Module Fd.

Definition FD64_TABLE_LIMIT : Z := 1024.
Definition FD64_MAX_PROCESS_TABLES : nat := 16.
Definition FD64_IO_ERROR : Z := 0xFFFFFFFF.
Definition FD64_IO_BLOCKED : Z := 0xFFFFFFFE.
Definition FD64_STDIN : Z := 0.
Definition FD64_STDOUT : Z := 1.
Definition FD64_STDERR : Z := 2.
Definition FD64_TYPE_EMPTY : Z := 0.
Definition FD64_TYPE_RAMFS_NODE : Z := 1.
Definition FD64_TYPE_PIPE_READ : Z := 2.
Definition FD64_TYPE_PIPE_WRITE : Z := 3.
Definition FD64_TYPE_SOCKET : Z := 4.
Definition FD64_TYPE_DEVICE : Z := 5.
Definition FD64_TYPE_EVENTFD : Z := 6.
Definition FD64_FLAG_O_CLOEXEC : Z := 1.
Definition FD64_FLAG_O_NONBLOCK : Z := 2.
Definition CAPABILITY64_INVALID_HANDLE : Z := 0xFFFFFFFF.
Definition FS64_INVALID_HANDLE : Z := 0xFFFFFFFF.
Definition CONSOLE64_INVALID_RESULT : Z := 0xFFFFFFFF.
Definition LINUX_VFS64_DEVICE_UNKNOWN : Z := 0.
Definition CAPABILITY64_RIGHT_SEND : Z := 1.
Definition CAPABILITY64_RIGHT_QUERY : Z := 4.

(** The number of slots of a table, as a list length. *)
Definition table_slots : nat := Z.to_nat FD64_TABLE_LIMIT.
Arguments table_slots : simpl never.

Record fd_entry_t := mk_entry {
  fd_number : Z; capability_handle : Z; fd_type : Z; flags : Z;
  file_offset : Z; ref_count : Z; reserved : Z }.

#[export] Instance eta_entry : Eta fd_entry_t := {| eta e :=
  mk_entry (fd_number e) (capability_handle e) (fd_type e) (flags e) (file_offset e)
    (ref_count e) (reserved e) |}.

Record fd_table_t := mk_table {
  pid : Z; owner_id : Z; live_count : Z; high_water_fd : Z; denial_count : Z;
  table_reserved : Z; entries : list fd_entry_t }.

#[export] Instance eta_table : Eta fd_table_t := {| eta t :=
  mk_table (pid t) (owner_id t) (live_count t) (high_water_fd t) (denial_count t)
    (table_reserved t) (entries t) |}.

(** ** What descriptor tables ask of the rest of the kernel

    The table slot of a process (process.c), the capability table
    (capability.c), the RAM file system (fs.c) and the console (console.c).
    [process64_fd_table] gives the index of the attached table. *)
Class FdWorld (W : Type) := {
  fd_pipe_world :: PipeWorld W;
  process64_fd_table : Z -> W -> option nat;
  process64_attach_fd : Z -> nat -> ST W Z;
  process64_detach_fd : Z -> ST W unit;
  capability64_revoke : Z -> Z -> ST W Z;
  capability64_target_endpoint : Z -> Z -> ST W Z;
  capability64_rights : Z -> Z -> ST W Z;
  capability64_grant_service : Z -> Z -> Z -> ST W Z;
  linux_vfs64_device_type_from_handle : Z -> Z;
  fs64_open_kernel : Z -> list Z -> Z -> ST W Z;
  fs64_read_kernel : Z -> Z -> Z -> Z -> ST W (Z * list Z);
  fs64_write_kernel : Z -> list Z -> Z -> Z -> ST W Z;
  fs64_revoke : Z -> Z -> ST W Z;
  console64_write_kernel : Z -> list Z -> Z -> ST W Z;
}.

Record fd_state (W : Type) := mk_fd_state {
  g_fd64_tables : list fd_table_t;
  g_fd64_table_used : list Z;
  g_fd64_initialized : Z;
  g_fd64_fork_copy_count : Z;
  g_fd64_fork_copy_denial_count : Z;
  g_fd64_fork_copy_last_parent_pid : Z;
  g_fd64_fork_copy_last_child_pid : Z;
  g_fd64_fork_copy_last_entries : Z;
  g_fd64_fork_copy_last_stage : Z;
  g_fd64_fork_pipe_copy_count : Z;
  g_fd64_fork_pipe_denial_count : Z;
  g_fd64_fork_pipe_last_fd : Z;
  pipes : pipe_state W }.
Arguments mk_fd_state {W}.
Arguments g_fd64_tables {W}.
Arguments g_fd64_table_used {W}.
Arguments g_fd64_initialized {W}.
Arguments g_fd64_fork_copy_count {W}.
Arguments g_fd64_fork_copy_denial_count {W}.
Arguments g_fd64_fork_copy_last_parent_pid {W}.
Arguments g_fd64_fork_copy_last_child_pid {W}.
Arguments g_fd64_fork_copy_last_entries {W}.
Arguments g_fd64_fork_copy_last_stage {W}.
Arguments g_fd64_fork_pipe_copy_count {W}.
Arguments g_fd64_fork_pipe_denial_count {W}.
Arguments g_fd64_fork_pipe_last_fd {W}.
Arguments pipes {W}.

#[export] Instance eta_fd_state W : Eta (fd_state W) := {| eta s :=
  mk_fd_state (g_fd64_tables s) (g_fd64_table_used s) (g_fd64_initialized s)
    (g_fd64_fork_copy_count s) (g_fd64_fork_copy_denial_count s)
    (g_fd64_fork_copy_last_parent_pid s) (g_fd64_fork_copy_last_child_pid s)
    (g_fd64_fork_copy_last_entries s) (g_fd64_fork_copy_last_stage s)
    (g_fd64_fork_pipe_copy_count s) (g_fd64_fork_pipe_denial_count s)
    (g_fd64_fork_pipe_last_fd s) (pipes s) |}.

(** ** Entries and tables *)

Definition fd64_clear_entry (n : Z) : fd_entry_t :=
  mk_entry n CAPABILITY64_INVALID_HANDLE FD64_TYPE_EMPTY 0 0 0 0.

Definition fd64_clear_table : fd_table_t :=
  mk_table PROCESS64_INVALID_PID 0 0 0 0 0
    ((fun i => fd64_clear_entry (Z.of_nat i)) <$> seq 0 table_slots).

Definition fd64_entry_active (e : fd_entry_t) : bool :=
  negb (fd_type e =? FD64_TYPE_EMPTY)
  && negb (capability_handle e =? CAPABILITY64_INVALID_HANDLE)
  && negb (ref_count e =? 0).

Definition fd64_valid_type (ty : Z) : bool :=
  (ty =? FD64_TYPE_RAMFS_NODE) || (ty =? FD64_TYPE_PIPE_READ) || (ty =? FD64_TYPE_PIPE_WRITE)
  || (ty =? FD64_TYPE_SOCKET) || (ty =? FD64_TYPE_DEVICE) || (ty =? FD64_TYPE_EVENTFD).

(** [(flags & ~(FD64_FLAG_O_CLOEXEC | FD64_FLAG_O_NONBLOCK)) == 0]. *)
Definition flags_ok (fl : Z) : bool :=
  Z.land fl (not32 (Z.lor FD64_FLAG_O_CLOEXEC FD64_FLAG_O_NONBLOCK)) =? 0.

(** An active entry for the same handle and type: an alias. *)
Definition shares (h ty : Z) (e : fd_entry_t) : bool :=
  fd64_entry_active e && (capability_handle e =? h) && (fd_type e =? ty).

Definition fd64_shared_entry_count (t : fd_table_t) (h ty : Z) : Z :=
  if h =? CAPABILITY64_INVALID_HANDLE then 0 else Z.of_nat (count_if (shares h ty) (entries t)).

Definition fd64_sync_shared_ref_counts (h ty : Z) (t : fd_table_t) : fd_table_t :=
  let n := fd64_shared_entry_count t h ty in
  if n =? 0 then t
  else t <| entries := (fun e => if shares h ty e then e <| ref_count := n |> else e) <$> entries t |>.

Definition entry_at (t : fd_table_t) (i : nat) : fd_entry_t :=
  default (fd64_clear_entry (Z.of_nat i)) (entries t !! i).

Definition fd64_prior_shared_entry_exists (t : fd_table_t) (i : nat) : bool :=
  let e := entry_at t i in
  fd64_entry_active e && (0 <? count_if (shares (capability_handle e) (fd_type e)) (take i (entries t)))%nat.

Definition set_entry (i : nat) (f : fd_entry_t -> fd_entry_t) (t : fd_table_t) : fd_table_t :=
  t <| entries := alter f i (entries t) |>.

(** The descriptor an install or a duplicate writes at [n]. *)
Definition raise_high_water (n : Z) (t : fd_table_t) : fd_table_t :=
  if high_water_fd t <? n then t <| high_water_fd := n |> else t.

Definition installed (n h ty fl : Z) (t : fd_table_t) : fd_table_t :=
  raise_high_water n
    ((set_entry (Z.to_nat n) (fun e => e <| fd_number := n |> <| capability_handle := h |>
        <| fd_type := ty |> <| flags := fl |> <| file_offset := 0 |> <| ref_count := 1 |>) t)
       <| live_count := inc32 (live_count t) |>).

Definition duplicated (n : Z) (src : fd_entry_t) (t : fd_table_t) : fd_table_t :=
  raise_high_water n
    ((set_entry (Z.to_nat n) (fun _ => mk_entry n (capability_handle src) (fd_type src) (flags src)
        (file_offset src) 1 0) t)
       <| live_count := inc32 (live_count t) |>).

Definition drop_live (t : fd_table_t) : fd_table_t :=
  if negb (live_count t =? 0) then t <| live_count := dec32 (live_count t) |> else t.

Definition cleared_at (n : Z) (t : fd_table_t) : fd_table_t :=
  drop_live (set_entry (Z.to_nat n) (fun _ => fd64_clear_entry n) t).

Section operations.
Context {W : Type} {fw : FdWorld W}.

Abbreviation FM := (ST (fd_state W)).

Definition on_pipes {A} (m : ST (pipe_state W) A) : FM A :=
  fun s => let (a, ps) := m (pipes s) in (a, s <| pipes := ps |>).
Definition fd_world {A} (m : ST W A) : FM A := on_pipes (on_world m).

Definition table_at (s : fd_state W) (t : nat) : fd_table_t :=
  default fd64_clear_table (g_fd64_tables s !! t).
Definition update_table (t : nat) (f : fd_table_t -> fd_table_t) : FM unit :=
  modify (fun s => s <| g_fd64_tables := alter f t (g_fd64_tables s) |>).
Definition set_table_used (t : nat) (v : Z) : FM unit :=
  modify (fun s => s <| g_fd64_table_used := <[t := v]> (g_fd64_table_used s) |>).
(** [++table->denial_count]. *)
Definition table_deny (t : nat) : FM unit :=
  update_table t (fun tb => tb <| denial_count := inc32 (denial_count tb) |>).

Definition fd64_init : FM unit :=
  done <- gets (fun s => negb (g_fd64_initialized s =? 0)) ;;
  if done : bool then ret tt
  else modify (fun s => mk_fd_state
    ((fun _ => fd64_clear_table) <$> g_fd64_tables s) ((fun _ => 0) <$> g_fd64_table_used s) 1
    0 0 PROCESS64_INVALID_PID PROCESS64_INVALID_PID 0 0 0 0 FD64_INVALID_FD (pipes s)).

Definition fd64_table_for_process (p : Z) : FM (option nat) :=
  fd64_init ;;; gets (fun s => process64_fd_table p (world (pipes s))).

Definition fd64_install_entry (t : nat) (n h ty fl : Z) : FM Z :=
  tb <- gets (fun s => table_at s t) ;;
  if (FD64_TABLE_LIMIT <=? n) || (h =? CAPABILITY64_INVALID_HANDLE)
     || negb (fd64_valid_type ty) || negb (flags_ok fl)
  then table_deny t ;;; ret 0
  else if fd64_entry_active (entry_at tb (Z.to_nat n)) then table_deny t ;;; ret 0
  else
    budget <- on_pipes (on_personas (persona64_budget_check_fd (pid tb) (live_count tb) 1)) ;;
    if budget =? 0 then table_deny t ;;; ret 0
    else update_table t (installed n h ty fl) ;;; ret 1.

Definition fd64_revoke_entry_capability (t i : nat) : FM Z :=
  tb <- gets (fun s => table_at s t) ;;
  let e := entry_at tb i in
  if negb (fd64_entry_active e) then ret 0
  else if fd_type e =? FD64_TYPE_RAMFS_NODE then
    fd_world (fs64_revoke (capability_handle e) (owner_id tb))
  else if (fd_type e =? FD64_TYPE_PIPE_READ) || (fd_type e =? FD64_TYPE_PIPE_WRITE) then
    on_pipes (pipe64_revoke_handle (capability_handle e) (owner_id tb))
  else fd_world (capability64_revoke (capability_handle e) (owner_id tb)).

(** ** Attaching and releasing tables *)

Definition fd64_claim_table (p owner : Z) : FM (option nat) :=
  fd64_init ;;;
  principal <- gets (fun s => process64_principal p (world (pipes s))) ;;
  if (p =? PROCESS64_INVALID_PID) || (owner =? 0) || (principal =? 0) then ret None
  else
    attached <- gets (fun s => process64_fd_table p (world (pipes s))) ;;
    match attached with
    | Some t => ret (Some t)
    | None =>
        free <- gets (fun s => find_index (fun u => u =? 0) (g_fd64_table_used s)) ;;
        match free with
        | None => ret None
        | Some t =>
            update_table t (fun _ => fd64_clear_table <| pid := p |> <| owner_id := owner |>) ;;;
            ok <- fd_world (process64_attach_fd p t) ;;
            if ok =? 0 then update_table t (fun _ => fd64_clear_table) ;;; ret None
            else set_table_used t 1 ;;; ret (Some t)
        end
    end.

(** The two loops of [fd64_release_process]: revoke the first alias of every
    handle, then clear every active entry and count them. *)
Definition release_revoke_body (t i : nat) : FM unit :=
  tb <- gets (fun s => table_at s t) ;;
  if fd64_entry_active (entry_at tb i) && negb (fd64_prior_shared_entry_exists tb i)
  then fd64_revoke_entry_capability t i ;;; ret tt
  else ret tt.

Definition release_clear_body (t i : nat) (released : Z) : FM Z :=
  tb <- gets (fun s => table_at s t) ;;
  if fd64_entry_active (entry_at tb i)
  then update_table t (set_entry i (fun _ => fd64_clear_entry (Z.of_nat i))) ;;; ret (inc32 released)
  else ret released.

Definition fd64_release_process (p : Z) : FM Z :=
  table <- fd64_table_for_process p ;;
  match table with
  | None => ret 0
  | Some t =>
      for_range table_slots (release_revoke_body t) ;;;
      released <- fold_range table_slots 0 (release_clear_body t) ;;
      update_table t (fun tb => tb <| live_count := 0 |>) ;;;
      fd_world (process64_detach_fd p) ;;;
      (if (t <? FD64_MAX_PROCESS_TABLES)%nat
       then update_table t (fun _ => fd64_clear_table) ;;; set_table_used t 0
       else ret tt) ;;;
      ret released
  end.

Definition fd64_init_process (p owner stdin_cap stdout_cap stderr_cap : Z) : FM Z :=
  table <- fd64_claim_table p owner ;;
  match table with
  | None => ret 0
  | Some t =>
      tb <- gets (fun s => table_at s t) ;;
      if negb (live_count tb =? 0) then
        ret (b2z (fd64_entry_active (entry_at tb (Z.to_nat FD64_STDIN))
                  && fd64_entry_active (entry_at tb (Z.to_nat FD64_STDOUT))
                  && fd64_entry_active (entry_at tb (Z.to_nat FD64_STDERR))))
      else
        a <- fd64_install_entry t FD64_STDIN stdin_cap FD64_TYPE_DEVICE 0 ;;
        if a =? 0 then fd64_release_process p ;;; ret 0 else
        b <- fd64_install_entry t FD64_STDOUT stdout_cap FD64_TYPE_DEVICE 0 ;;
        if b =? 0 then fd64_release_process p ;;; ret 0 else
        c <- fd64_install_entry t FD64_STDERR stderr_cap FD64_TYPE_DEVICE 0 ;;
        if c =? 0 then fd64_release_process p ;;; ret 0 else ret 1
  end.

(** ** Allocating and closing descriptors *)

Definition fd64_alloc_at (p n h ty fl : Z) : FM Z :=
  table <- fd64_table_for_process p ;;
  match table with
  | None => ret FD64_INVALID_FD
  | Some t =>
      if FD64_TABLE_LIMIT <=? n then table_deny t ;;; ret FD64_INVALID_FD
      else
        ok <- fd64_install_entry t n h ty fl ;;
        ret (if negb (ok =? 0) then n else FD64_INVALID_FD)
  end.

Definition fd64_alloc (p h ty fl : Z) : FM Z :=
  table <- fd64_table_for_process p ;;
  match table with
  | None => ret FD64_INVALID_FD
  | Some t =>
      free <- gets (fun s => find_index (fun e => negb (fd64_entry_active e)) (entries (table_at s t))) ;;
      match free with
      | None => table_deny t ;;; ret FD64_INVALID_FD
      | Some i =>
          ok <- fd64_install_entry t (Z.of_nat i) h ty fl ;;
          ret (if negb (ok =? 0) then Z.of_nat i else FD64_INVALID_FD)
      end
  end.

Definition fd64_free (p n : Z) : FM Z :=
  table <- fd64_table_for_process p ;;
  match table with
  | None => ret 0
  | Some t =>
      if FD64_TABLE_LIMIT <=? n then table_deny t ;;; ret 0 else
      tb <- gets (fun s => table_at s t) ;;
      let e := entry_at tb (Z.to_nat n) in
      if negb (fd64_entry_active e) then table_deny t ;;; ret 0
      else if 1 <? fd64_shared_entry_count tb (capability_handle e) (fd_type e) then
        update_table t (cleared_at n) ;;;
        update_table t (fd64_sync_shared_ref_counts (capability_handle e) (fd_type e)) ;;;
        ret 1
      else if 1 <? ref_count e then
        update_table t (set_entry (Z.to_nat n) (fun e => e <| ref_count := dec32 (ref_count e) |>)) ;;;
        ret 1
      else
        fd64_revoke_entry_capability t (Z.to_nat n) ;;;
        update_table t (cleared_at n) ;;;
        ret 1
  end.

Definition fd64_close (p n : Z) : FM Z := fd64_free p n.

(** ** Duplicating *)

Definition fd64_dup_into (t : nat) (old new : Z) : FM Z :=
  if (FD64_TABLE_LIMIT <=? old) || (FD64_TABLE_LIMIT <=? new)
  then table_deny t ;;; ret FD64_INVALID_FD
  else
  tb <- gets (fun s => table_at s t) ;;
  let source_snapshot := entry_at tb (Z.to_nat old) in
  if negb (fd64_entry_active source_snapshot) then table_deny t ;;; ret FD64_INVALID_FD
  else if old =? new then ret new
  else
  freed <- (if fd64_entry_active (entry_at tb (Z.to_nat new))
            then fd64_free (pid tb) new else ret 1) ;;
  if freed =? 0 then table_deny t ;;; ret FD64_INVALID_FD
  else
  tb <- gets (fun s => table_at s t) ;;
  budget <- on_pipes (on_personas (persona64_budget_check_fd (pid tb) (live_count tb) 1)) ;;
  if budget =? 0 then table_deny t ;;; ret FD64_INVALID_FD
  else
  update_table t (duplicated new source_snapshot) ;;;
  update_table t (fd64_sync_shared_ref_counts (capability_handle source_snapshot)
                    (fd_type source_snapshot)) ;;;
  ret new.

(** The scans of [fd64_dup] and [fd64_dup_min]: the first free slot from
    [from] on. *)
Definition dup_from (t : nat) (old : Z) (from : nat) : FM Z :=
  free <- gets (fun s => find_index (fun e => negb (fd64_entry_active e))
                           (drop from (entries (table_at s t)))) ;;
  match free with
  | Some i => fd64_dup_into t old (Z.of_nat (from + i))
  | None => table_deny t ;;; ret FD64_INVALID_FD
  end.

Definition fd64_dup (p old : Z) : FM Z :=
  table <- fd64_table_for_process p ;;
  match table with
  | None => ret FD64_INVALID_FD
  | Some t =>
      tb <- gets (fun s => table_at s t) ;;
      if (FD64_TABLE_LIMIT <=? old) || negb (fd64_entry_active (entry_at tb (Z.to_nat old)))
      then table_deny t ;;; ret FD64_INVALID_FD
      else dup_from t old 0
  end.

Definition fd64_dup_min (p old min : Z) : FM Z :=
  table <- fd64_table_for_process p ;;
  match table with
  | None => ret FD64_INVALID_FD
  | Some t =>
      tb <- gets (fun s => table_at s t) ;;
      if (FD64_TABLE_LIMIT <=? old) || (FD64_TABLE_LIMIT <=? min)
         || negb (fd64_entry_active (entry_at tb (Z.to_nat old)))
      then table_deny t ;;; ret FD64_INVALID_FD
      else dup_from t old (Z.to_nat min)
  end.

Definition fd64_dup2 (p old new : Z) : FM Z :=
  table <- fd64_table_for_process p ;;
  match table with
  | None => ret FD64_INVALID_FD
  | Some t => fd64_dup_into t old new
  end.

Definition fd64_dup3 (p old new fl : Z) : FM Z :=
  table <- fd64_table_for_process p ;;
  match table with
  | None => ret FD64_INVALID_FD
  | Some t =>
      if (old =? new) || negb (Z.land fl (not32 FD64_FLAG_O_CLOEXEC) =? 0)
      then table_deny t ;;; ret FD64_INVALID_FD
      else
        dup <- fd64_dup_into t old new ;;
        if dup =? FD64_INVALID_FD then ret FD64_INVALID_FD
        else update_table t (set_entry (Z.to_nat dup) (fun e => e <| flags := fl |>)) ;;; ret dup
  end.

Definition fd64_set_entry_flags (p n fl : Z) : FM Z :=
  table <- fd64_table_for_process p ;;
  match table with
  | None => ret 0
  | Some t =>
      tb <- gets (fun s => table_at s t) ;;
      if (FD64_TABLE_LIMIT <=? n) || negb (flags_ok fl)
         || negb (fd64_entry_active (entry_at tb (Z.to_nat n)))
      then table_deny t ;;; ret 0
      else update_table t (set_entry (Z.to_nat n) (fun e => e <| flags := fl |>)) ;;; ret 1
  end.

Definition close_on_exec_body (p : Z) (t i : nat) (closed : Z) : FM Z :=
  tb <- gets (fun s => table_at s t) ;;
  let e := entry_at tb i in
  if fd64_entry_active e && negb (Z.land (flags e) FD64_FLAG_O_CLOEXEC =? 0) then
    ok <- fd64_free p (Z.of_nat i) ;;
    ret (if negb (ok =? 0) then inc32 closed else closed)
  else ret closed.

Definition fd64_close_on_exec (p : Z) : FM Z :=
  table <- fd64_table_for_process p ;;
  match table with
  | None => ret FD64_IO_ERROR
  | Some t => fold_range table_slots 0 (close_on_exec_body p t)
  end.

(** ** Holding an entry: a pointer is the pair of table and slot *)

Definition fd64_get (p n : Z) : FM (option (nat * nat)) :=
  table <- fd64_table_for_process p ;;
  match table with
  | None => ret None
  | Some t =>
      tb <- gets (fun s => table_at s t) ;;
      if (FD64_TABLE_LIMIT <=? n) || negb (fd64_entry_active (entry_at tb (Z.to_nat n)))
      then table_deny t ;;; ret None
      else
        update_table t (set_entry (Z.to_nat n) (fun e => e <| ref_count := inc32 (ref_count e) |>)) ;;;
        ret (Some (t, Z.to_nat n))
  end.

Definition fd64_put (p : Z) (entry : nat * nat) : FM Z :=
  table <- fd64_table_for_process p ;;
  match table with
  | None => ret 0
  | Some t =>
      tb <- gets (fun s => table_at s t) ;;
      if negb (Nat.eqb (fst entry) t) || (table_slots <=? snd entry)%nat
         || negb (fd64_entry_active (entry_at tb (snd entry)))
      then table_deny t ;;; ret 0
      else
        (if 1 <? ref_count (entry_at tb (snd entry))
         then update_table t (set_entry (snd entry) (fun e => e <| ref_count := dec32 (ref_count e) |>))
         else ret tt) ;;;
        ret 1
  end.

(** ** Queries *)

Definition table_query (f : fd_table_t -> Z) (p : Z) : FM Z :=
  table <- fd64_table_for_process p ;;
  match table with
  | None => ret 0
  | Some t => gets (fun s => f (table_at s t))
  end.
Definition fd64_live_count : Z -> FM Z := table_query live_count.
Definition fd64_high_water_fd : Z -> FM Z := table_query high_water_fd.
Definition fd64_denial_count : Z -> FM Z := table_query denial_count.

Definition entry_query (d : Z) (f : fd_entry_t -> Z) (p n : Z) : FM Z :=
  table <- fd64_table_for_process p ;;
  match table with
  | None => ret d
  | Some t =>
      gets (fun s => let e := entry_at (table_at s t) (Z.to_nat n) in
        if (FD64_TABLE_LIMIT <=? n) || negb (fd64_entry_active e) then d else f e)
  end.
Definition fd64_entry_capability : Z -> Z -> FM Z := entry_query CAPABILITY64_INVALID_HANDLE capability_handle.
Definition fd64_entry_type : Z -> Z -> FM Z := entry_query FD64_TYPE_EMPTY fd_type.
Definition fd64_entry_flags : Z -> Z -> FM Z := entry_query 0 flags.
Definition fd64_entry_offset : Z -> Z -> FM Z := entry_query 0 file_offset.
Definition fd64_entry_ref_count : Z -> Z -> FM Z := entry_query 0 ref_count.
Definition fd64_fork_copy_count (s : fd_state W) : Z := g_fd64_fork_copy_count s.
Definition fd64_fork_copy_denial_count (s : fd_state W) : Z := g_fd64_fork_copy_denial_count s.
Definition fd64_fork_copy_last_parent_pid (s : fd_state W) : Z := g_fd64_fork_copy_last_parent_pid s.
Definition fd64_fork_copy_last_child_pid (s : fd_state W) : Z := g_fd64_fork_copy_last_child_pid s.
Definition fd64_fork_copy_last_entries (s : fd_state W) : Z := g_fd64_fork_copy_last_entries s.
Definition fd64_fork_copy_last_stage (s : fd_state W) : Z := g_fd64_fork_copy_last_stage s.
Definition fd64_fork_pipe_copy_count (s : fd_state W) : Z := g_fd64_fork_pipe_copy_count s.
Definition fd64_fork_pipe_denial_count (s : fd_state W) : Z := g_fd64_fork_pipe_denial_count s.
Definition fd64_fork_pipe_last_fd (s : fd_state W) : Z := g_fd64_fork_pipe_last_fd s.

(** ** Creating and granting *)

(** Undo a create that failed after its object was opened. *)
Definition abandon_create (i : nat) : FM (option (Z * Z)) :=
  on_pipes (pipe64_clear_object i) ;;; on_pipes deny ;;; ret None.

(** [None] is the return value 0; [Some (r, w)] is 1 with the two
    descriptors stored. *)
Definition pipe64_create_flags (p fl : Z) : FM (option (Z * Z)) :=
  on_pipes pipe64_init ;;;
  table <- (if p =? PROCESS64_INVALID_PID then ret None else fd64_table_for_process p) ;;
  if bool_decide (table = None) || negb (flags_ok fl) then on_pipes deny ;;; ret None
  else
  owner <- gets (fun s => process64_principal p (world (pipes s))) ;;
  if owner =? 0 then on_pipes deny ;;; ret None else
  budget <- on_pipes (on_personas (persona64_budget_check_pipe p 1)) ;;
  if budget =? 0 then on_pipes deny ;;; ret None else
  slot <- gets (fun s => find_index (fun o => live o =? 0) (g_pipe64_objects (pipes s))) ;;
  match slot with
  | None => on_pipes deny ;;; ret None
  | Some i =>
      on_pipes (pipe64_clear_object i) ;;;
      on_pipes (update_pipe i (fun o => opened i (next_generation (generation o)) p owner)) ;;;
      o <- gets (fun s => pipe_at (pipes s) i) ;;
      if (read_handle o =? PIPE64_INVALID_HANDLE) || (write_handle o =? PIPE64_INVALID_HANDLE)
      then abandon_create i
      else
        rfd <- fd64_alloc p (read_handle o) FD64_TYPE_PIPE_READ fl ;;
        if rfd =? FD64_INVALID_FD then abandon_create i
        else
          wfd <- fd64_alloc p (write_handle o) FD64_TYPE_PIPE_WRITE fl ;;
          if wfd =? FD64_INVALID_FD then fd64_free p rfd ;;; abandon_create i
          else
            on_pipes (update_pipe i (fun o => o <| read_fd := rfd |> <| write_fd := wfd |>)) ;;;
            committed <- on_pipes (on_personas (persona64_budget_commit_pipe p 1)) ;;
            if committed =? 0
            then fd64_free p wfd ;;; fd64_free p rfd ;;; abandon_create i
            else ret (Some (rfd, wfd))
  end.

Definition pipe64_create (p : Z) : FM (option (Z * Z)) := pipe64_create_flags p 0.

(** The descriptor a grant installs in the target process. *)
Definition grant_fd (source_pid source_fd target_pid requested h ty : Z) : FM Z :=
  fl <- fd64_entry_flags source_pid source_fd ;;
  if requested =? FD64_INVALID_FD then fd64_alloc target_pid h ty fl
  else fd64_alloc_at target_pid requested h ty fl.

Definition grant_read (target_owner : Z) (p : pipe64_buffer_t) : pipe64_buffer_t :=
  p <| read_grantee_owner_id := target_owner |> <| read_ref_count := inc32 (read_ref_count p) |>.
Definition grant_write (target_owner : Z) (p : pipe64_buffer_t) : pipe64_buffer_t :=
  p <| write_grantee_owner_id := target_owner |> <| write_ref_count := inc32 (write_ref_count p) |>.

(** [None] is the return value 0 (with [FD64_INVALID_FD] stored). *)
Definition pipe64_grant_endpoint_inner (source_pid source_fd target_pid requested : Z) : FM (option Z) :=
  on_pipes pipe64_init ;;;
  source_table <- (if (source_pid =? PROCESS64_INVALID_PID) || (target_pid =? PROCESS64_INVALID_PID)
                      || (source_pid =? target_pid)
                   then ret None else fd64_table_for_process source_pid) ;;
  target_table <- (if bool_decide (source_table = None) then ret None
                   else fd64_table_for_process target_pid) ;;
  if bool_decide (source_table = None) || bool_decide (target_table = None)
     || (negb (requested =? FD64_INVALID_FD) && (FD64_TABLE_LIMIT <=? requested))
  then on_pipes deny ;;; ret None
  else
  source_owner <- gets (fun s => process64_principal source_pid (world (pipes s))) ;;
  target_owner <- gets (fun s => process64_principal target_pid (world (pipes s))) ;;
  h <- fd64_entry_capability source_pid source_fd ;;
  ty <- fd64_entry_type source_pid source_fd ;;
  let kind := pipe64_handle_kind h in
  if (source_owner =? 0) || (target_owner =? 0) || (h =? PIPE64_INVALID_HANDLE)
     || (((ty =? FD64_TYPE_PIPE_READ) && negb (kind =? PIPE64_HANDLE_KIND_READ))
         || ((ty =? FD64_TYPE_PIPE_WRITE) && negb (kind =? PIPE64_HANDLE_KIND_WRITE)))
     || (negb (ty =? FD64_TYPE_PIPE_READ) && negb (ty =? FD64_TYPE_PIPE_WRITE))
  then on_pipes deny ;;; ret None
  else
  found <- on_pipes (pipe64_find h source_owner) ;;
  match found with
  | None => ret None
  | Some i =>
      p <- gets (fun s => pipe_at (pipes s) i) ;;
      if kind =? PIPE64_HANDLE_KIND_READ then
        if negb (reader_closed p =? 0)
           || (negb (read_grantee_owner_id p =? 0) && negb (read_grantee_owner_id p =? target_owner))
        then on_pipes deny ;;; ret None
        else
          fd <- grant_fd source_pid source_fd target_pid requested h FD64_TYPE_PIPE_READ ;;
          if fd =? FD64_INVALID_FD then on_pipes deny ;;; ret None
          else on_pipes (update_pipe i (grant_read target_owner)) ;;; ret (Some fd)
      else
        if negb (writer_closed p =? 0)
           || (negb (write_grantee_owner_id p =? 0) && negb (write_grantee_owner_id p =? target_owner))
        then on_pipes deny ;;; ret None
        else
          fd <- grant_fd source_pid source_fd target_pid requested h FD64_TYPE_PIPE_WRITE ;;
          if fd =? FD64_INVALID_FD then on_pipes deny ;;; ret None
          else on_pipes (update_pipe i (grant_write target_owner)) ;;; ret (Some fd)
  end.

Definition pipe64_grant_endpoint (source_pid source_fd target_pid : Z) : FM (option Z) :=
  pipe64_grant_endpoint_inner source_pid source_fd target_pid FD64_INVALID_FD.

Definition pipe64_grant_endpoint_at (source_pid source_fd target_pid target_fd : Z) : FM Z :=
  granted <- pipe64_grant_endpoint_inner source_pid source_fd target_pid target_fd ;;
  match granted with
  | None => ret 0
  | Some fd => ret (b2z (fd =? target_fd))
  end.

(** ** Forking a table *)

Definition fd64_fork_copy_capability (source : fd_entry_t) (parent_owner child_owner : Z) : FM Z :=
  if (parent_owner =? 0) || (child_owner =? 0) || (capability_handle source =? CAPABILITY64_INVALID_HANDLE)
  then ret CAPABILITY64_INVALID_HANDLE
  else if fd_type source =? FD64_TYPE_DEVICE then
    if negb (linux_vfs64_device_type_from_handle (capability_handle source) =? LINUX_VFS64_DEVICE_UNKNOWN)
    then ret (capability_handle source)
    else
      endpoint_id <- fd_world (capability64_target_endpoint (capability_handle source) parent_owner) ;;
      rights <- fd_world (capability64_rights (capability_handle source) parent_owner) ;;
      if rights =? 0 then ret CAPABILITY64_INVALID_HANDLE
      else if endpoint_id =? Services64.services64_resolve_endpoint_class Services64.SERVICE_ENDPOINT_CLASS_INPUT
      then fd_world (capability64_grant_service Services64.SERVICE_ENDPOINT_CLASS_INPUT rights child_owner)
      else if endpoint_id =? Services64.services64_resolve_endpoint_class Services64.SERVICE_ENDPOINT_CLASS_CONSOLE
      then fd_world (capability64_grant_service Services64.SERVICE_ENDPOINT_CLASS_CONSOLE rights child_owner)
      else ret CAPABILITY64_INVALID_HANDLE
  else ret CAPABILITY64_INVALID_HANDLE.

Definition set_stage (n : Z) : FM unit := modify (fun s => s <| g_fd64_fork_copy_last_stage := n |>).
Definition count_fork_denial : FM unit :=
  modify (fun s => s <| g_fd64_fork_copy_denial_count := inc32 (g_fd64_fork_copy_denial_count s) |>).
Definition copy_offset (parent child i : nat) : FM unit :=
  off <- gets (fun s => file_offset (entry_at (table_at s parent) i)) ;;
  update_table child (set_entry i (fun e => e <| file_offset := off |>)).

(** One descriptor of [fd64_fork_process]; [None] when the fork fails. *)
Definition fork_body (parent_pid child_pid : Z) (parent child : nat) (parent_owner child_owner : Z)
    (i : nat) (copied : Z) : FM (option Z) :=
  source <- gets (fun s => entry_at (table_at s parent) i) ;;
  if negb (fd64_entry_active source) then ret (Some copied)
  else if (fd_type source =? FD64_TYPE_PIPE_READ) || (fd_type source =? FD64_TYPE_PIPE_WRITE) then
    set_stage 5 ;;;
    modify (fun s => s <| g_fd64_fork_pipe_last_fd := Z.of_nat i |>) ;;;
    ok <- pipe64_grant_endpoint_at parent_pid (Z.of_nat i) child_pid (Z.of_nat i) ;;
    if ok =? 0 then
      modify (fun s => s <| g_fd64_fork_pipe_denial_count := inc32 (g_fd64_fork_pipe_denial_count s) |>) ;;;
      count_fork_denial ;;; fd64_release_process child_pid ;;; ret None
    else
      copy_offset parent child i ;;;
      modify (fun s => s <| g_fd64_fork_pipe_copy_count := inc32 (g_fd64_fork_pipe_copy_count s) |>) ;;;
      ret (Some (inc32 copied))
  else
    set_stage 3 ;;;
    h <- fd64_fork_copy_capability source parent_owner child_owner ;;
    if h =? CAPABILITY64_INVALID_HANDLE then
      count_fork_denial ;;; fd64_release_process child_pid ;;; ret None
    else
      ok <- fd64_install_entry child (Z.of_nat i) h (fd_type source) (flags source) ;;
      if ok =? 0 then
        (if negb (h =? capability_handle source)
         then fd_world (capability64_revoke h child_owner) ;;; ret tt else ret tt) ;;;
        count_fork_denial ;;; fd64_release_process child_pid ;;; ret None
      else copy_offset parent child i ;;; ret (Some (inc32 copied)).

Fixpoint fork_loop (body : nat -> Z -> FM (option Z)) (ixs : list nat) (copied : Z) : FM (option Z) :=
  match ixs with
  | [] => ret (Some copied)
  | i :: ixs' =>
      next <- body i copied ;;
      match next with
      | None => ret None
      | Some copied' => fork_loop body ixs' copied'
      end
  end.

Definition fd64_fork_process (parent_pid child_pid : Z) : FM Z :=
  fd64_init ;;;
  modify (fun s => s <| g_fd64_fork_copy_last_parent_pid := parent_pid |>
    <| g_fd64_fork_copy_last_child_pid := child_pid |>
    <| g_fd64_fork_copy_last_entries := 0 |> <| g_fd64_fork_copy_last_stage := 1 |>) ;;;
  parent_owner <- gets (fun s => process64_principal parent_pid (world (pipes s))) ;;
  child_owner <- gets (fun s => process64_principal child_pid (world (pipes s))) ;;
  parent_table <- fd64_table_for_process parent_pid ;;
  child_attached <- gets (fun s => process64_fd_table child_pid (world (pipes s))) ;;
  match parent_table with
  | None => count_fork_denial ;;; ret 0
  | Some parent =>
      if (parent_pid =? PROCESS64_INVALID_PID) || (child_pid =? PROCESS64_INVALID_PID)
         || (parent_pid =? child_pid) || (parent_owner =? 0) || (child_owner =? 0)
         || negb (bool_decide (child_attached = None))
      then count_fork_denial ;;; ret 0
      else
        set_stage 2 ;;;
        claimed <- fd64_claim_table child_pid child_owner ;;
        busy <- gets (fun s => match claimed with
                               | Some c => negb (live_count (table_at s c) =? 0)
                               | None => true end) ;;
        match claimed, busy : bool with
        | Some child, false =>
            result <- fork_loop (fork_body parent_pid child_pid parent child parent_owner child_owner)
                        (seq 0 table_slots) 0 ;;
            match result with
            | None => ret 0
            | Some copied =>
                set_stage 4 ;;;
                modify (fun s => s <| g_fd64_fork_copy_last_entries := copied |>
                  <| g_fd64_fork_copy_count := inc32 (g_fd64_fork_copy_count s) |>) ;;;
                ret 1
            end
        | _, _ => count_fork_denial ;;; fd64_release_process child_pid ;;; ret 0
        end
  end.

(** ** Input and output *)

Definition fd64_open_ramfs (p : Z) (path : list Z) (fl : Z) : FM Z :=
  table <- fd64_table_for_process p ;;
  match table with
  | None => ret FD64_INVALID_FD
  | Some t =>
      if bool_decide (path = []) || negb (flags_ok fl) then table_deny t ;;; ret FD64_INVALID_FD
      else
        owner <- gets (fun s => owner_id (table_at s t)) ;;
        base <- fd_world (capability64_grant_service Services64.SERVICE_ENDPOINT_CLASS_RAMFS
                  (Z.lor CAPABILITY64_RIGHT_SEND CAPABILITY64_RIGHT_QUERY) owner) ;;
        if base =? CAPABILITY64_INVALID_HANDLE then table_deny t ;;; ret FD64_INVALID_FD
        else
          node <- fd_world (fs64_open_kernel base path owner) ;;
          fd_world (capability64_revoke base owner) ;;;
          if node =? FS64_INVALID_HANDLE then table_deny t ;;; ret FD64_INVALID_FD
          else
            n <- fd64_alloc p node FD64_TYPE_RAMFS_NODE fl ;;
            (if n =? FD64_INVALID_FD then fd_world (fs64_revoke node owner) else ret 0) ;;;
            ret n
  end.

(** [entry->file_offset += bytes]. *)
Definition advance (t i : nat) (n : Z) : FM unit :=
  update_table t (set_entry i (fun e => e <| file_offset := add64 (file_offset e) n |>)).

Definition fd64_read (p n count : Z) : FM (Z * list Z) :=
  table <- fd64_table_for_process p ;;
  match table with
  | None => ret (FD64_IO_ERROR, [])
  | Some t =>
      if FD64_TABLE_LIMIT <=? n then table_deny t ;;; ret (FD64_IO_ERROR, [])
      else if count =? 0 then ret (0, [])
      else
        tb <- gets (fun s => table_at s t) ;;
        let e := entry_at tb (Z.to_nat n) in
        if negb (fd64_entry_active e) || (0xFFFFFFFF <? file_offset e)
        then table_deny t ;;; ret (FD64_IO_ERROR, [])
        else if fd_type e =? FD64_TYPE_RAMFS_NODE then
          res <- fd_world (fs64_read_kernel (capability_handle e) (wrap32 (file_offset e)) count (owner_id tb)) ;;
          if fst res =? FS64_INVALID_HANDLE then table_deny t ;;; ret (FD64_IO_ERROR, snd res)
          else advance t (Z.to_nat n) (fst res) ;;; ret res
        else if fd_type e =? FD64_TYPE_PIPE_READ then
          res <- on_pipes (pipe64_read (capability_handle e) count (owner_id tb)) ;;
          if fst res =? PIPE64_IO_BLOCKED then ret (FD64_IO_BLOCKED, snd res)
          else if fst res =? PIPE64_IO_ERROR then table_deny t ;;; ret (FD64_IO_ERROR, snd res)
          else ret res
        else table_deny t ;;; ret (FD64_IO_ERROR, [])
  end.

Definition fd64_write (p n : Z) (input : list Z) : FM Z :=
  table <- fd64_table_for_process p ;;
  match table with
  | None => ret FD64_IO_ERROR
  | Some t =>
      if FD64_TABLE_LIMIT <=? n then table_deny t ;;; ret FD64_IO_ERROR
      else if bool_decide (input = []) then ret 0
      else
        tb <- gets (fun s => table_at s t) ;;
        let e := entry_at tb (Z.to_nat n) in
        if negb (fd64_entry_active e) then table_deny t ;;; ret FD64_IO_ERROR
        else if fd_type e =? FD64_TYPE_DEVICE then
          r <- fd_world (console64_write_kernel (capability_handle e) input (owner_id tb)) ;;
          if r =? CONSOLE64_INVALID_RESULT then table_deny t ;;; ret FD64_IO_ERROR else ret r
        else if fd_type e =? FD64_TYPE_RAMFS_NODE then
          if 0xFFFFFFFF <? file_offset e then table_deny t ;;; ret FD64_IO_ERROR
          else
            r <- fd_world (fs64_write_kernel (capability_handle e) input (wrap32 (file_offset e)) (owner_id tb)) ;;
            if r =? FS64_INVALID_HANDLE then table_deny t ;;; ret FD64_IO_ERROR
            else advance t (Z.to_nat n) r ;;; ret r
        else if fd_type e =? FD64_TYPE_PIPE_WRITE then
          r <- on_pipes (pipe64_write (capability_handle e) input (owner_id tb)) ;;
          if r =? PIPE64_IO_BLOCKED then ret FD64_IO_BLOCKED
          else if r =? PIPE64_IO_ERROR then table_deny t ;;; ret FD64_IO_ERROR
          else ret r
        else table_deny t ;;; ret FD64_IO_ERROR
  end.

Definition fd64_read_at (p n offset count : Z) : FM (Z * list Z) :=
  table <- fd64_table_for_process p ;;
  match table with
  | None => ret (FD64_IO_ERROR, [])
  | Some t =>
      if FD64_TABLE_LIMIT <=? n then table_deny t ;;; ret (FD64_IO_ERROR, [])
      else if count =? 0 then ret (0, [])
      else
        tb <- gets (fun s => table_at s t) ;;
        let e := entry_at tb (Z.to_nat n) in
        if (0xFFFFFFFF <? offset) || negb (fd64_entry_active e) || negb (fd_type e =? FD64_TYPE_RAMFS_NODE)
        then table_deny t ;;; ret (FD64_IO_ERROR, [])
        else
          res <- fd_world (fs64_read_kernel (capability_handle e) (wrap32 offset) count (owner_id tb)) ;;
          if fst res =? FS64_INVALID_HANDLE then table_deny t ;;; ret (FD64_IO_ERROR, snd res)
          else ret res
  end.

Definition fd64_write_at (p n offset : Z) (input : list Z) : FM Z :=
  table <- fd64_table_for_process p ;;
  match table with
  | None => ret FD64_IO_ERROR
  | Some t =>
      if FD64_TABLE_LIMIT <=? n then table_deny t ;;; ret FD64_IO_ERROR
      else if bool_decide (input = []) then ret 0
      else
        tb <- gets (fun s => table_at s t) ;;
        let e := entry_at tb (Z.to_nat n) in
        if (0xFFFFFFFF <? offset) || negb (fd64_entry_active e) || negb (fd_type e =? FD64_TYPE_RAMFS_NODE)
        then table_deny t ;;; ret FD64_IO_ERROR
        else
          r <- fd_world (fs64_write_kernel (capability_handle e) input (wrap32 offset) (owner_id tb)) ;;
          if r =? FS64_INVALID_HANDLE then table_deny t ;;; ret FD64_IO_ERROR else ret r
  end.

End operations.
End Fd.
