(* ===== verification/FdFacts.v ===== *)
(** * Facts about descriptor tables

    [table_ok] is the invariant of one table, [fd_inv] that of the whole
    state; [FdLaws] states what the rest of the kernel promises: only
    attaching and detaching moves a process's table.  [view] reads a table
    as a finite map from descriptors to what they name. *)

From S2P Require Import Prelude Services64 Process PersonaBudget Pipe PipeFacts Fd.
Import PersonaBudget Pipe Fd.
Local Open Scope Z_scope.

Module FdFacts.

Implicit Types (e : fd_entry_t) (tb : fd_table_t).

(** ** One table *)

(** The aliases of an entry, itself included. *)
Definition aliases tb e : nat := count_if (shares (capability_handle e) (fd_type e)) (entries tb).

(** A slot that names nothing. *)
Definition vacant e : Prop :=
  fd_type e = FD64_TYPE_EMPTY /\ capability_handle e = CAPABILITY64_INVALID_HANDLE /\ ref_count e = 0.

Record table_ok (tb : fd_table_t) : Prop := {
  to_length : length (entries tb) = table_slots;
  to_live : live_count tb = Z.of_nat (count_if fd64_entry_active (entries tb));
  to_empty : forall i e, entries tb !! i = Some e -> fd64_entry_active e = false -> vacant e;
  to_active : forall i e, entries tb !! i = Some e -> fd64_entry_active e = true ->
    fd_number e = Z.of_nat i /\ 1 <= ref_count e <= Z.of_nat (aliases tb e)
    /\ Z.of_nat i <= high_water_fd tb;
}.

Lemma shares_active h ty e : shares h ty e = true -> fd64_entry_active e = true.
Proof. unfold shares. intros H. by boolify. Qed.

Lemma shares_inactive h ty e : fd64_entry_active e = false -> shares h ty e = false.
Proof. unfold shares. by intros ->. Qed.

Lemma shares_self e : fd64_entry_active e = true -> shares (capability_handle e) (fd_type e) e = true.
Proof. unfold shares. intros ->. by rewrite !Z.eqb_refl. Qed.

Lemma shares_key h ty e :
  shares h ty e = true -> capability_handle e = h /\ fd_type e = ty.
Proof. unfold shares. intros H. by boolify. Qed.

Lemma aliases_key tb e h ty : shares h ty e = true -> aliases tb e = count_if (shares h ty) (entries tb).
Proof. intros [<- <-]%shares_key. done. Qed.

Lemma clear_entry_inactive n : fd64_entry_active (fd64_clear_entry n) = false.
Proof. reflexivity. Qed.

Lemma shared_count_eq tb e :
  fd64_entry_active e = true ->
  fd64_shared_entry_count tb (capability_handle e) (fd_type e) = Z.of_nat (aliases tb e).
Proof.
  unfold fd64_entry_active, fd64_shared_entry_count, aliases. intros H. boolify.
  by rewrite (proj2 (Z.eqb_neq _ _)).
Qed.

Lemma entry_at_lookup tb i :
  table_ok tb -> (i < table_slots)%nat -> entries tb !! i = Some (entry_at tb i).
Proof.
  intros Ht Hi. unfold entry_at. destruct (entries tb !! i) eqn:E; [done|].
  apply lookup_ge_None in E. rewrite (to_length _ Ht) in E. lia.
Qed.

Lemma entry_at_Some tb i e : entries tb !! i = Some e -> entry_at tb i = e.
Proof. unfold entry_at. by intros ->. Qed.

Lemma live_bound tb : table_ok tb -> 0 <= live_count tb <= 1024.
Proof.
  intros Ht. rewrite (to_live _ Ht). pose proof (count_if_le fd64_entry_active (entries tb)) as H.
  rewrite (to_length _ Ht) in H. change table_slots with 1024%nat in H. lia.
Qed.

Lemma clear_table_ok : table_ok fd64_clear_table.
Proof.
  assert (Hl : forall i e, entries fd64_clear_table !! i = Some e -> e = fd64_clear_entry (Z.of_nat i)).
  { intros i e. unfold fd64_clear_table. cbn [entries]. rewrite list_lookup_fmap.
    intros (j & Hj & ->)%fmap_Some. apply lookup_seq in Hj as [-> _]. by simpl. }
  constructor.
  - unfold fd64_clear_table. cbn [entries]. by rewrite length_fmap, length_seq.
  - unfold fd64_clear_table at 1. cbn [live_count]. rewrite count_if_none; [done|].
    intros e (i & He)%list_elem_of_lookup. by rewrite (Hl _ _ He).
  - intros i e He _. by rewrite (Hl _ _ He).
  - intros i e He Ha. by rewrite (Hl _ _ He) in Ha.
Qed.

Lemma table_ok_meta tb p o d r :
  table_ok tb -> table_ok (tb <| pid := p |> <| owner_id := o |> <| denial_count := d |> <| table_reserved := r |>).
Proof. intros []. by constructor. Qed.

Lemma table_ok_deny tb d : table_ok tb -> table_ok (tb <| denial_count := d |>).
Proof. intros []. by constructor. Qed.

(** Refreshing the reference counts of a handle. *)
Lemma shares_refresh h ty h' ty' n e :
  n <> 0 -> shares h' ty' (if shares h ty e then e <| ref_count := n |> else e) = shares h' ty' e.
Proof.
  intros Hn. destruct (shares h ty e) eqn:E; [|done]. apply shares_active in E.
  unfold shares, fd64_entry_active in *. simpl. boolify.
  by rewrite (proj2 (Z.eqb_neq (ref_count e) 0)), (proj2 (Z.eqb_neq n 0)).
Qed.

Lemma active_refresh h ty n e :
  n <> 0 -> fd64_entry_active (if shares h ty e then e <| ref_count := n |> else e) = fd64_entry_active e.
Proof.
  intros Hn. destruct (shares h ty e) eqn:E; [|done]. apply shares_active in E.
  unfold fd64_entry_active in *. simpl. boolify.
  by rewrite (proj2 (Z.eqb_neq (ref_count e) 0)), (proj2 (Z.eqb_neq n 0)).
Qed.

(** A table in which only the counts of one handle may be too high. *)
Record table_ok_but (h ty : Z) (tb : fd_table_t) : Prop := {
  tob_length : length (entries tb) = table_slots;
  tob_live : live_count tb = Z.of_nat (count_if fd64_entry_active (entries tb));
  tob_empty : forall i e, entries tb !! i = Some e -> fd64_entry_active e = false -> vacant e;
  tob_active : forall i e, entries tb !! i = Some e -> fd64_entry_active e = true ->
    fd_number e = Z.of_nat i /\ Z.of_nat i <= high_water_fd tb
    /\ (shares h ty e = false -> 1 <= ref_count e <= Z.of_nat (aliases tb e));
}.

Lemma sync_none h ty tb :
  count_if (shares h ty) (entries tb) = 0%nat -> fd64_sync_shared_ref_counts h ty tb = tb.
Proof.
  intros H. unfold fd64_sync_shared_ref_counts, fd64_shared_entry_count. rewrite H. by destruct (h =? _).
Qed.

Lemma sync_ok h ty tb :
  h <> CAPABILITY64_INVALID_HANDLE -> table_ok_but h ty tb -> table_ok (fd64_sync_shared_ref_counts h ty tb).
Proof.
  intros Hh [Hl Hv He Ha]. destruct (decide (count_if (shares h ty) (entries tb) = 0%nat)) as [H0|H0].
  { rewrite sync_none by done. constructor; [done..|]. intros i e Hi Hact.
    destruct (Ha i e Hi Hact) as (? & ? & Hr). split_and!; try done; apply Hr;
      destruct (shares h ty e) eqn:E; try done; pose proof (count_if_pos _ _ _ _ Hi E); lia. }
  unfold fd64_sync_shared_ref_counts, fd64_shared_entry_count.
  rewrite (proj2 (Z.eqb_neq h _)), (proj2 (Z.eqb_neq _ 0)) by (done || lia).
  set (n := count_if (shares h ty) (entries tb)) in *.
  set (g := fun e => if shares h ty e then e <| ref_count := Z.of_nat n |> else e).
  assert (Hc : forall h' ty', count_if (shares h' ty') (g <$> entries tb) = count_if (shares h' ty') (entries tb)).
  { intros h' ty'. rewrite count_if_fmap. apply count_if_ext. intros e _. apply shares_refresh. lia. }
  assert (Hk : forall e, capability_handle (g e) = capability_handle e /\ fd_type (g e) = fd_type e).
  { intros e. unfold g. by destruct (shares h ty e). }
  constructor; simpl; fold g.
  - by rewrite length_fmap.
  - rewrite Hv, count_if_fmap. f_equal. apply count_if_ext. intros e _. symmetry.
    apply active_refresh. lia.
  - intros i e. rewrite list_lookup_fmap. intros (e0 & Hi & ->)%fmap_Some Hact.
    unfold g in *. rewrite active_refresh in Hact by lia.
    rewrite (shares_inactive h ty e0 Hact). by eapply He.
  - intros i e. rewrite list_lookup_fmap. intros (e0 & Hi & ->)%fmap_Some Hact.
    unfold aliases. simpl. fold g. destruct (Hk e0) as [-> ->]. rewrite Hc.
    unfold g in Hact. rewrite active_refresh in Hact by lia.
    destruct (Ha i e0 Hi Hact) as (Hn & Hw & Hr). unfold g. destruct (shares h ty e0) eqn:E; simpl.
    + pose proof (aliases_key tb e0 h ty E) as Hal. unfold aliases in Hal. rewrite Hal. fold n. split_and!; try done; lia.
    + by specialize (Hr eq_refl).
Qed.

(** *** What a table maps a descriptor to *)

Record named_t := mk_named { n_handle : Z; n_type : Z; n_flags : Z; n_offset : Z }.
Definition named e : named_t := mk_named (capability_handle e) (fd_type e) (flags e) (file_offset e).
Definition view tb (i : nat) : option named_t :=
  e ← entries tb !! i; if fd64_entry_active e then Some (named e) else None.

Lemma view_Some tb i e :
  entries tb !! i = Some e -> view tb i = if fd64_entry_active e then Some (named e) else None.
Proof. unfold view. by intros ->. Qed.

Lemma view_sync h ty tb i : view (fd64_sync_shared_ref_counts h ty tb) i = view tb i.
Proof.
  unfold fd64_sync_shared_ref_counts. case_match eqn:H; [done|]. boolify. unfold view. simpl.
  rewrite list_lookup_fmap. destruct (entries tb !! i) as [e|]; [|done]. simpl.
  pose proof (active_refresh h ty _ e H) as Ha. destruct (shares h ty e); [|done].
  simpl in Ha. by rewrite Ha.
Qed.

Lemma view_alter tb f i j :
  view (set_entry i f tb) j = if decide (i = j)
    then (e ← entries tb !! i; if fd64_entry_active (f e) then Some (named (f e)) else None)
    else view tb j.
Proof.
  unfold view, set_entry. simpl. destruct (decide (i = j)) as [->|Hne].
  - rewrite list_lookup_alter_eq. by destruct (entries tb !! j).
  - by rewrite list_lookup_alter_ne.
Qed.

Lemma raise_high_water_fields n tb :
  entries (raise_high_water n tb) = entries tb /\ live_count (raise_high_water n tb) = live_count tb
  /\ pid (raise_high_water n tb) = pid tb /\ owner_id (raise_high_water n tb) = owner_id tb
  /\ high_water_fd (raise_high_water n tb) = Z.max (high_water_fd tb) n.
Proof.
  unfold raise_high_water. destruct (Z.ltb_spec (high_water_fd tb) n); simpl; split_and!; try done; lia.
Qed.

(** *** Filling a free slot *)

(** The new entry of an install or a duplicate. *)
Definition fresh_entry (n : nat) e : Prop :=
  fd64_entry_active e = true /\ fd_number e = Z.of_nat n /\ ref_count e = 1.

Lemma fill_ok tb tb' (n : nat) e0 e :
  table_ok tb -> entries tb !! n = Some e0 -> fd64_entry_active e0 = false -> fresh_entry n e ->
  entries tb' = <[n := e]> (entries tb) -> live_count tb' = inc32 (live_count tb) ->
  high_water_fd tb' = Z.max (high_water_fd tb) (Z.of_nat n) -> table_ok tb'.
Proof.
  intros Ht Hn H0 (Hact & Hnum & Hrc) He Hl Hw. pose proof (live_bound _ Ht) as Hb.
  assert (Hins : entries tb' = alter (fun _ => e) n (entries tb)).
  { rewrite He. apply list_eq. intros j. destruct (decide (n = j)) as [->|Hj].
    - rewrite list_lookup_alter_eq, Hn, list_lookup_insert_eq; [done|by eapply lookup_lt_Some].
    - by rewrite list_lookup_alter_ne, list_lookup_insert_ne. }
  assert (Hcount : forall P : fd_entry_t -> bool, P e0 = false ->
    count_if P (entries tb') = (count_if P (entries tb) + Nat.b2n (P e))%nat).
  { intros P HP. pose proof (count_if_alter P _ n e0 (fun _ => e) Hn) as H. rewrite HP in H.
    rewrite Hins. simpl in H. lia. }
  constructor.
  - rewrite He, length_insert. apply Ht.
  - rewrite Hl, (Hcount _ H0), Hact, (to_live _ Ht). rewrite (to_live _ Ht) in Hb.
    rewrite inc32_small by (unfold U32_MAX; lia). simpl. lia.
  - intros i x. rewrite He. intros [(-> & -> & _)|(Hne & Hx)]%list_lookup_insert_Some Hi; [congruence|].
    by eapply (to_empty _ Ht).
  - intros i x. rewrite He at 1. intros [(-> & -> & _)|(Hne & Hx)]%list_lookup_insert_Some Hi.
    + split_and!; [done|lia| |lia]. unfold aliases. rewrite Hcount by by apply shares_inactive.
      rewrite shares_self by done. simpl. lia.
    + destruct (to_active _ Ht i x Hx Hi) as (Ha & [Hb1 Hb2] & Hc). split_and!; [done|done| |lia].
      unfold aliases in *. rewrite Hcount by by apply shares_inactive. lia.
Qed.

Lemma set_entry_insert tb n f e :
  entries tb !! n = Some e -> entries (set_entry n f tb) = <[n := f e]> (entries tb).
Proof.
  intros He. unfold set_entry. simpl. apply list_eq. intros j. destruct (decide (n = j)) as [->|Hj].
  - rewrite list_lookup_alter_eq, He, list_lookup_insert_eq; [done|by eapply lookup_lt_Some].
  - by rewrite list_lookup_alter_ne, list_lookup_insert_ne.
Qed.

Lemma installed_ok tb n h ty fl :
  table_ok tb -> 0 <= n < FD64_TABLE_LIMIT -> fd64_entry_active (entry_at tb (Z.to_nat n)) = false ->
  h <> CAPABILITY64_INVALID_HANDLE -> ty <> FD64_TYPE_EMPTY ->
  table_ok (installed n h ty fl tb)
  /\ (forall i, view (installed n h ty fl tb) i =
        if decide (i = Z.to_nat n) then Some (mk_named h ty fl 0) else view tb i).
Proof.
  intros Ht Hn H0 Hh Hty. assert (Hs : (Z.to_nat n < table_slots)%nat) by (unfold table_slots; lia).
  pose proof (entry_at_lookup tb _ Ht Hs) as He. set (e0 := entry_at tb (Z.to_nat n)) in *.
  unfold installed. set (f := fun e : fd_entry_t => _). set (tb1 := _ <| live_count := _ |>).
  destruct (raise_high_water_fields n tb1) as (E1 & E2 & _ & _ & E5).
  assert (Hf : fresh_entry (Z.to_nat n) (f e0)).
  { split_and!; [|simpl; lia|done]. unfold fd64_entry_active. simpl.
    by rewrite !(proj2 (Z.eqb_neq _ _)). }
  split.
  - eapply (fill_ok tb _ (Z.to_nat n) e0 (f e0)); try done.
    + rewrite E1. apply (set_entry_insert tb (Z.to_nat n) f e0 He).
    + rewrite E5. simpl. lia.
  - intros i. unfold view at 1. rewrite E1. change (entries tb1) with (entries (set_entry (Z.to_nat n) f tb)).
    fold (view (set_entry (Z.to_nat n) f tb) i). rewrite view_alter, He.
    destruct (decide (Z.to_nat n = i)) as [<-|Hne]; [|by rewrite decide_False].
    rewrite decide_True by done. simpl. destruct Hf as [-> _]. done.
Qed.

Lemma duplicated_ok tb n src :
  table_ok tb -> 0 <= n < FD64_TABLE_LIMIT -> fd64_entry_active (entry_at tb (Z.to_nat n)) = false ->
  fd64_entry_active src = true ->
  table_ok (duplicated n src tb)
  /\ (forall i, view (duplicated n src tb) i =
        if decide (i = Z.to_nat n) then Some (named src) else view tb i).
Proof.
  intros Ht Hn H0 Hsrc. assert (Hs : (Z.to_nat n < table_slots)%nat) by (unfold table_slots; lia).
  pose proof (entry_at_lookup tb _ Ht Hs) as He. set (e0 := entry_at tb (Z.to_nat n)) in *.
  unfold duplicated. set (f := fun _ : fd_entry_t => _). set (tb1 := _ <| live_count := _ |>).
  destruct (raise_high_water_fields n tb1) as (E1 & E2 & _ & _ & E5).
  assert (Hf : fresh_entry (Z.to_nat n) (f e0)).
  { split_and!; [|simpl; lia|done]. unfold fd64_entry_active in *. simpl. boolify.
    by rewrite !(proj2 (Z.eqb_neq _ _)). }
  split.
  - eapply (fill_ok tb _ (Z.to_nat n) e0 (f e0)); try done.
    + rewrite E1. apply (set_entry_insert tb (Z.to_nat n) f e0 He).
    + rewrite E5. simpl. lia.
  - intros i. unfold view at 1. rewrite E1. change (entries tb1) with (entries (set_entry (Z.to_nat n) f tb)).
    fold (view (set_entry (Z.to_nat n) f tb) i). rewrite view_alter, He.
    destruct (decide (Z.to_nat n = i)) as [<-|Hne]; [|by rewrite decide_False].
    rewrite decide_True by done. simpl. destruct Hf as [-> _]. done.
Qed.

(** *** Touching only the flags or the offset of a slot *)

Definition keeps_identity (f : fd_entry_t -> fd_entry_t) : Prop :=
  forall e, fd_number (f e) = fd_number e /\ capability_handle (f e) = capability_handle e
    /\ fd_type (f e) = fd_type e /\ ref_count (f e) = ref_count e.

Lemma identity_active f e : keeps_identity f -> fd64_entry_active (f e) = fd64_entry_active e.
Proof. intros Hf. destruct (Hf e) as (_ & H1 & H2 & H3). unfold fd64_entry_active. by rewrite H1, H2, H3. Qed.

Lemma identity_shares f e h ty : keeps_identity f -> shares h ty (f e) = shares h ty e.
Proof.
  intros Hf. unfold shares. rewrite identity_active by done.
  destruct (Hf e) as (_ & H1 & H2 & _). by rewrite H1, H2.
Qed.

Lemma set_entry_ok tb i f : table_ok tb -> keeps_identity f -> table_ok (set_entry i f tb).
Proof.
  intros [Hl Hv He Ha] Hf. constructor; unfold set_entry; simpl.
  - by rewrite length_alter.
  - rewrite count_if_alter_same; [done|]. intros. by apply identity_active.
  - intros j e (x & Hx & ->)%lookup_alter_Some Hact. case_decide; [|by eapply He].
    rewrite identity_active in Hact by done. destruct (Hf x) as (_ & H1 & H2 & H3). unfold vacant.
    rewrite H1, H2, H3. by eapply He.
  - intros j e (x & Hx & ->)%lookup_alter_Some Hact.
    assert (Hal : forall y, aliases (set_entry i f tb) y = aliases tb y).
    { intros y. unfold aliases, set_entry. simpl. apply count_if_alter_same. intros. by apply identity_shares. }
    rewrite Hal. case_decide; [|by apply Ha]. rewrite identity_active in Hact by done.
    destruct (Hf x) as (H0 & H1 & H2 & H3). rewrite H0, H3. unfold aliases. rewrite H1, H2. by apply Ha.
Qed.

(** Every alias of a handle carries the number of aliases. *)
Definition counted (h ty : Z) (tb : fd_table_t) : Prop :=
  forall i e, entries tb !! i = Some e -> shares h ty e = true ->
    ref_count e = Z.of_nat (count_if (shares h ty) (entries tb)).

Lemma sync_counted h ty tb :
  h <> CAPABILITY64_INVALID_HANDLE -> counted h ty (fd64_sync_shared_ref_counts h ty tb).
Proof.
  intros Hh. destruct (decide (count_if (shares h ty) (entries tb) = 0%nat)) as [H0|H0].
  { rewrite sync_none by done. intros i e Hi E. pose proof (count_if_pos _ _ _ _ Hi E). lia. }
  unfold fd64_sync_shared_ref_counts, fd64_shared_entry_count.
  rewrite (proj2 (Z.eqb_neq h _)), (proj2 (Z.eqb_neq _ 0)) by (done || lia).
  set (n := count_if (shares h ty) (entries tb)) in *.
  set (g := fun e => if shares h ty e then e <| ref_count := Z.of_nat n |> else e).
  assert (Hg : forall e, shares h ty (g e) = shares h ty e) by (intros e; apply shares_refresh; lia).
  intros i e. simpl. fold g. rewrite list_lookup_fmap. intros (x & Hx & ->)%fmap_Some.
  rewrite Hg, count_if_fmap. intros E. unfold g at 1. rewrite E. simpl. f_equal. unfold n.
  apply count_if_ext. intros y _. by rewrite Hg.
Qed.

Lemma identity_counted h ty i f tb : keeps_identity f -> counted h ty tb -> counted h ty (set_entry i f tb).
Proof.
  intros Hf Hc j e. unfold set_entry. simpl. intros (x & Hx & ->)%lookup_alter_Some.
  rewrite count_if_alter_same by (intros; by apply identity_shares). case_decide; [|by eapply Hc].
  rewrite identity_shares by done. destruct (Hf x) as (_ & _ & _ & Hr). intros E. rewrite Hr. by eapply Hc.
Qed.

(** Two changes of one slot; and a change seen only at the slot's entry. *)
Lemma set_entry_twice i f g tb : set_entry i g (set_entry i f tb) = set_entry i (fun e => g (f e)) tb.
Proof.
  unfold set_entry. destruct tb. simpl. f_equal. apply list_eq. intros j.
  destruct (decide (i = j)) as [->|Hj]; [|by rewrite !list_lookup_alter_ne].
  rewrite !list_lookup_alter_eq. by destruct (_ !! j).
Qed.

Lemma set_entry_ext i f g tb e : entries tb !! i = Some e -> f e = g e -> set_entry i f tb = set_entry i g tb.
Proof.
  intros He Hfg. unfold set_entry. destruct tb. simpl in *. f_equal. apply list_eq. intros j.
  destruct (decide (i = j)) as [->|Hj]; [|by rewrite !list_lookup_alter_ne].
  rewrite !list_lookup_alter_eq, He. simpl. by rewrite Hfg.
Qed.

(** *** Emptying a slot *)

Lemma cleared_at_ok tb n :
  table_ok tb -> 0 <= n < FD64_TABLE_LIMIT ->
  let e := entry_at tb (Z.to_nat n) in
  fd64_entry_active e = true ->
  table_ok_but (capability_handle e) (fd_type e) (cleared_at n tb)
  /\ (forall i, view (cleared_at n tb) i = if decide (i = Z.to_nat n) then None else view tb i)
  /\ count_if (shares (capability_handle e) (fd_type e)) (entries (cleared_at n tb)) = (aliases tb e - 1)%nat
  /\ live_count (cleared_at n tb) = live_count tb - 1.
Proof.
  intros Ht Hn e Hact. assert (Hs : (Z.to_nat n < table_slots)%nat) by (unfold table_slots; lia).
  pose proof (entry_at_lookup tb _ Ht Hs) as He. fold e in He. set (k := Z.to_nat n) in *.
  assert (Hk : Z.of_nat k = n) by (unfold k; lia).
  set (f := fun _ : fd_entry_t => fd64_clear_entry n).
  pose proof (count_if_alter fd64_entry_active _ k e f He) as Hc. rewrite Hact in Hc. simpl in Hc.
  pose proof (live_bound _ Ht) as Hb. pose proof (to_live _ Ht) as Hlive.
  assert (Hents : entries (cleared_at n tb) = alter f k (entries tb)).
  { unfold cleared_at, drop_live. by case_match. }
  assert (Hlc : live_count (cleared_at n tb) = live_count tb - 1).
  { unfold cleared_at, drop_live. simpl. rewrite (proj2 (Z.eqb_neq _ 0)) by lia. simpl.
    apply wrap32_small. unfold fits32. lia. }
  assert (Hhw : high_water_fd (cleared_at n tb) = high_water_fd tb).
  { unfold cleared_at, drop_live. by case_match. }
  split_and!.
  - constructor.
    + rewrite Hents, length_alter. apply Ht.
    + rewrite Hlc, Hents. lia.
    + rewrite Hents. intros i x (y & Hy & ->)%lookup_alter_Some Hi.
      case_decide; [done|by eapply (to_empty _ Ht)].
    + intros i x Hx Hi. rewrite Hents in Hx. apply lookup_alter_Some in Hx as (y & Hy & ->).
      case_decide; [done|].
      destruct (to_active _ Ht i y Hy Hi) as (Ha & Hr & Hw). rewrite Hhw. split_and!; [done|done|].
      intros Hns. unfold aliases in *. rewrite Hents.
      rewrite (count_if_alter_same _ _ k f); [done|]. intros z Hz. rewrite He in Hz. injection Hz as <-.
      unfold f. rewrite shares_inactive by done. symmetry.
      destruct (shares (capability_handle y) (fd_type y) e) eqn:E; [|done].
      apply shares_key in E as [E1 E2]. rewrite E1, E2 in Hns. by rewrite shares_self in Hns.
  - intros i. unfold view at 1. rewrite Hents. fold (entries (set_entry k f tb)).
    change (alter f k (entries tb)) with (entries (set_entry k f tb)).
    fold (view (set_entry k f tb) i). rewrite view_alter, He.
    destruct (decide (k = i)) as [<-|Hne]; [by rewrite decide_True|by rewrite decide_False].
  - rewrite Hents. pose proof (count_if_alter (shares (capability_handle e) (fd_type e)) _ k e f He) as Hs'.
    rewrite (shares_self e Hact) in Hs'. change (shares _ _ (f e)) with false in Hs'. unfold aliases.
    simpl in Hs'. lia.
  - done.
Qed.

(** ** The state *)

(** Calls that move no process's table. *)
Definition keeps_tables {W A} {fw : FdWorld W} (m : ST W A) : Prop :=
  forall w p, process64_fd_table p (snd (m w)) = process64_fd_table p w.

(** What the other components promise: only attach and detach move tables. *)
Class FdLaws (W : Type) {fw : FdWorld W} : Prop := {
  law_block : forall task, keeps_tables (scheduler64_runqueue_block_task task);
  law_wake : forall task, keeps_tables (scheduler64_runqueue_wake_task_replay task);
  law_cap_revoke : forall h o, keeps_tables (capability64_revoke h o);
  law_cap_endpoint : forall h o, keeps_tables (capability64_target_endpoint h o);
  law_cap_rights : forall h o, keeps_tables (capability64_rights h o);
  law_cap_grant : forall c r o, keeps_tables (capability64_grant_service c r o);
  law_fs_open : forall b path o, keeps_tables (fs64_open_kernel b path o);
  law_fs_read : forall h off n o, keeps_tables (fs64_read_kernel h off n o);
  law_fs_write : forall h data off o, keeps_tables (fs64_write_kernel h data off o);
  law_fs_revoke : forall h o, keeps_tables (fs64_revoke h o);
  law_console : forall h data o, keeps_tables (console64_write_kernel h data o);
  law_attach : forall p t w, let (ok, w') := process64_attach_fd p t w in
    (forall q, q <> p -> process64_fd_table q w' = process64_fd_table q w) /\
    process64_fd_table p w' = if ok =? 0 then process64_fd_table p w else Some t;
  law_detach : forall p w, let (_, w') := process64_detach_fd p w in
    (forall q, q <> p -> process64_fd_table q w' = process64_fd_table q w) /\
    process64_fd_table p w' = None;
}.

#[export] Hint Resolve law_block law_wake law_cap_revoke law_cap_endpoint law_cap_rights law_cap_grant
  law_fs_open law_fs_read law_fs_write law_fs_revoke law_console : kernel.

Section state.
Context {W : Type} {fw : FdWorld W} {laws : FdLaws W}.
Implicit Types (s : fd_state W).

Definition att s (p : Z) : option nat := process64_fd_table p (world (pipes s)).

(** Pipe operations move no process's table. *)
Definition att_is (f : Z -> option nat) (ps : pipe_state W) : Prop :=
  forall p, process64_fd_table p (world ps) = f p.

Lemma keeps_world {A} (m : ST W A) f : keeps_tables m -> preserves (att_is f) (on_world m).
Proof.
  intros Hm ps Hps p. unfold on_world. specialize (Hm (world ps) p).
  destruct (m (world ps)). simpl in *. by rewrite Hm.
Qed.

Lemma keeps_personas {A} (m : ST persona_state A) f : preserves (att_is f) (on_personas m).
Proof. intros ps Hps p. unfold on_personas. destruct (m (personas ps)). apply Hps. Qed.

Lemma keeps_modify f (g : pipe_state W -> pipe_state W) :
  (forall ps, world (g ps) = world ps) -> preserves (att_is f) (modify g).
Proof. intros Hg ps Hps p. simpl. by rewrite Hg. Qed.

Hint Resolve keeps_world keeps_personas : kernel.

Ltac keeps := repeat (preserves_step || apply keeps_world || apply keeps_personas
  || (apply keeps_modify; done)); eauto with kernel.

Lemma clear_keeps f i : preserves (att_is f) (pipe64_clear_object i).
Proof. unfold pipe64_clear_object, update_pipe. keeps. Qed.
Hint Resolve clear_keeps : kernel.

Lemma init_keeps f : preserves (att_is f) pipe64_init.
Proof. unfold pipe64_init, update_pipe. keeps. Qed.
Hint Resolve init_keeps : kernel.

Lemma find_keeps f h o : preserves (att_is f) (pipe64_find h o).
Proof. unfold pipe64_find, deny. keeps. Qed.
Hint Resolve find_keeps : kernel.

Lemma wake_keeps f sl i : preserves (att_is f) (pipe64_wake_blocked_task sl i).
Proof. unfold pipe64_wake_blocked_task, update_pipe, deny. keeps. Qed.
Hint Resolve wake_keeps : kernel.

Lemma block_keeps f o sl i : preserves (att_is f) (pipe64_block_current_task o sl i).
Proof. unfold pipe64_block_current_task, update_pipe, deny. keeps. Qed.
Hint Resolve block_keeps : kernel.

Lemma revoke_keeps f h o : preserves (att_is f) (pipe64_revoke_handle h o).
Proof. unfold pipe64_revoke_handle, update_pipe, deny. cbv zeta. keeps. Qed.

Lemma write_wait_keeps f n i o k : preserves (att_is f) (write_wait n i o k).
Proof. revert k. induction n; intros k; simpl; keeps; case_match; keeps. Qed.

Lemma read_wait_keeps f n i o k : preserves (att_is f) (read_wait n i o k).
Proof. revert k. induction n; intros k; simpl; keeps. Qed.
Hint Resolve write_wait_keeps read_wait_keeps : kernel.

#[local] Opaque PIPE64_SPIN_WAIT_LIMIT.

Lemma write_loop_keeps f i o data k : preserves (att_is f) (write_loop i o data k).
Proof. revert k. induction data as [|c d IH]; intros k; simpl; unfold update_pipe; keeps. Qed.

Lemma read_loop_keeps f n i o k : preserves (att_is f) (read_loop n i o k).
Proof. revert k. induction n as [|n IH]; intros k; simpl; unfold update_pipe; keeps. Qed.
Hint Resolve write_loop_keeps read_loop_keeps : kernel.

Lemma write_keeps f h data o : preserves (att_is f) (pipe64_write h data o).
Proof. unfold pipe64_write, deny. destruct data as [|b data]; keeps. Qed.

Lemma read_keeps f h n o : preserves (att_is f) (pipe64_read h n o).
Proof. unfold pipe64_read, deny. keeps. Qed.

(** *** Table changes *)

(** Table [t] becomes [f] of itself; nothing else about tables changes. *)
Record changed (t : nat) (f : fd_table_t -> fd_table_t) (s s' : fd_state W) : Prop := {
  ch_tables : g_fd64_tables s' = alter f t (g_fd64_tables s);
  ch_used : g_fd64_table_used s' = g_fd64_table_used s;
  ch_init : g_fd64_initialized s' = g_fd64_initialized s;
  ch_att : forall p, att s' p = att s p;
}.

Definition untouched (s s' : fd_state W) : Prop :=
  g_fd64_tables s' = g_fd64_tables s /\ g_fd64_table_used s' = g_fd64_table_used s
  /\ g_fd64_initialized s' = g_fd64_initialized s /\ forall p, att s' p = att s p.

Lemma untouched_changed t s s' : untouched s s' -> changed t id s s'.
Proof. intros (H1 & H2 & H3 & H4). constructor; try done. by rewrite alter_id_at. Qed.

Lemma changed_trans t f g s s1 s' :
  changed t f s s1 -> changed t g s1 s' -> changed t (fun tb => g (f tb)) s s'.
Proof.
  intros [A1 A2 A3 A4] [B1 B2 B3 B4]. constructor; try congruence. by rewrite B1, A1, alter_twice.
Qed.

Lemma changed_untouched t f s s1 s' : changed t f s s1 -> untouched s1 s' -> changed t f s s'.
Proof. intros [A1 A2 A3 A4] (B1 & B2 & B3 & B4). constructor; [congruence..|]. intros p. by rewrite B4. Qed.

Lemma untouched_then t f s s1 s' : untouched s s1 -> changed t f s1 s' -> changed t f s s'.
Proof. intros (B1 & B2 & B3 & B4) [A1 A2 A3 A4]. constructor; [congruence..|]. intros p. by rewrite A4. Qed.

Lemma changed_at t f s s' :
  changed t f s s' -> (t < length (g_fd64_tables s))%nat -> table_at s' t = f (table_at s t).
Proof.
  intros [A1 _ _ _] Ht. unfold table_at. rewrite A1, list_lookup_alter_eq.
  apply lookup_lt_is_Some in Ht as [x Hx]. by rewrite Hx.
Qed.

Lemma changed_other t f s s' t' : changed t f s s' -> t' <> t -> table_at s' t' = table_at s t'.
Proof. intros [A1 _ _ _] Ht. unfold table_at. by rewrite A1, list_lookup_alter_ne. Qed.

Lemma update_table_run t f s : update_table t f s = (tt, s <| g_fd64_tables := alter f t (g_fd64_tables s) |>).
Proof. reflexivity. Qed.

Lemma update_changed t f s : changed t f s (snd (update_table t f s)).
Proof. by constructor. Qed.

Lemma on_pipes_untouched {A} (m : ST (pipe_state W) A) s :
  (forall f, preserves (att_is f) m) -> wp (on_pipes m) (fun _ s' => untouched s s') s.
Proof.
  intros Hm. specialize (Hm (att s) (pipes s) (fun _ => eq_refl)). unfold wp, on_pipes in *.
  destruct (m (pipes s)) as [a ps]. by split_and!.
Qed.

Lemma fd_world_untouched {A} (m : ST W A) s :
  keeps_tables m -> wp (fd_world m) (fun _ s' => untouched s s') s.
Proof. intros Hm. apply on_pipes_untouched. intros f. by apply keeps_world. Qed.

(** *** The invariant *)

Record fd_inv (s : fd_state W) : Prop := {
  fi_init : g_fd64_initialized s <> 0;
  fi_length : length (g_fd64_tables s) = FD64_MAX_PROCESS_TABLES;
  fi_used_length : length (g_fd64_table_used s) = FD64_MAX_PROCESS_TABLES;
  fi_tables : forall t tb, g_fd64_tables s !! t = Some tb -> table_ok tb;
  fi_att : forall p t, att s p = Some t ->
    pid (table_at s t) = p /\ exists u, g_fd64_table_used s !! t = Some u /\ u <> 0;
}.

Lemma att_lt s p t : fd_inv s -> att s p = Some t -> (t < FD64_MAX_PROCESS_TABLES)%nat.
Proof.
  intros Hi Ha. destruct (fi_att _ Hi _ _ Ha) as (_ & u & Hu & _).
  rewrite <- (fi_used_length _ Hi). by eapply lookup_lt_Some.
Qed.

Lemma table_at_ok s t : fd_inv s -> table_ok (table_at s t).
Proof.
  intros Hi. unfold table_at. destruct (g_fd64_tables s !! t) eqn:E; [by eapply fi_tables|apply clear_table_ok].
Qed.

Lemma inv_changed t f s s' :
  fd_inv s -> changed t f s s' -> table_ok (f (table_at s t)) ->
  pid (f (table_at s t)) = pid (table_at s t) -> fd_inv s'.
Proof.
  intros Hi Hc Hok Hpid. pose proof Hc as [A1 A2 A3 A4]. constructor.
  - rewrite A3. apply Hi.
  - rewrite A1, length_alter. apply Hi.
  - rewrite A2. apply Hi.
  - rewrite A1. intros t' tb (x & Hx & ->)%lookup_alter_Some. case_decide; [subst|by eapply fi_tables].
    assert (table_at s t' = x) as <- by (unfold table_at; by rewrite Hx). done.
  - intros p t' Ha. rewrite A4 in Ha. rewrite A2. destruct (fi_att _ Hi _ _ Ha) as (Hp & Hu).
    split; [|done]. destruct (decide (t' = t)) as [->|Hne]; [|by rewrite (changed_other _ _ _ _ _ Hc)].
    rewrite (changed_at _ _ _ _ Hc); [congruence|]. rewrite (fi_length _ Hi). by eapply att_lt.
Qed.

Lemma inv_untouched s s' : fd_inv s -> untouched s s' -> fd_inv s'.
Proof.
  intros Hi Hu. apply (inv_changed 0 id s s' Hi); [by apply untouched_changed|by apply table_at_ok|done].
Qed.

Lemma init_fd_done s : g_fd64_initialized s <> 0 -> fd64_init s = (tt, s).
Proof. intros H. unfold fd64_init, bind, gets. cbn [fst snd]. by rewrite (proj2 (Z.eqb_neq _ _) H). Qed.

Lemma table_for_process_run p s :
  fd_inv s -> fd64_table_for_process p s = (att s p, s).
Proof. intros Hi. unfold fd64_table_for_process, bind. by rewrite init_fd_done by apply Hi. Qed.

End state.
End FdFacts.
