(* ===== verification/FdOps.v ===== *)
(** * What each descriptor call does to its table

    One lemma per call of Fd.v: the table it changes, how, and that the
    invariant survives; what duplicates and closes recount; and entries that
    callers outside fd.c hold across a read. *)

From S2P Require Import Prelude Services64 Process PersonaBudget Pipe PipeFacts Fd FdFacts.
Import PersonaBudget Pipe Fd FdFacts.
Local Open Scope Z_scope.

Module FdOps.

Implicit Types (e : fd_entry_t) (tb : fd_table_t).

(** [++table->denial_count] *)
Definition bump tb : fd_table_t := tb <| denial_count := inc32 (denial_count tb) |>.

(** Close [n], whose handle and type are [h] and [ty]. *)
Definition closed_at (n h ty : Z) tb : fd_table_t := fd64_sync_shared_ref_counts h ty (cleared_at n tb).

(** Make [n] an alias of [src]. *)
Definition dup_at (n : Z) (src : fd_entry_t) tb : fd_table_t :=
  fd64_sync_shared_ref_counts (capability_handle src) (fd_type src) (duplicated n src tb).

Lemma view_bump tb i : view (bump tb) i = view tb i.
Proof. reflexivity. Qed.

Lemma bump_ok tb : table_ok tb -> table_ok (bump tb).
Proof. apply table_ok_deny. Qed.

Lemma active_handle e : fd64_entry_active e = true -> capability_handle e <> CAPABILITY64_INVALID_HANDLE.
Proof. unfold fd64_entry_active. intros H. by boolify. Qed.

Lemma sync_pid h ty tb :
  pid (fd64_sync_shared_ref_counts h ty tb) = pid tb
  /\ owner_id (fd64_sync_shared_ref_counts h ty tb) = owner_id tb
  /\ live_count (fd64_sync_shared_ref_counts h ty tb) = live_count tb.
Proof. unfold fd64_sync_shared_ref_counts. by case_match. Qed.

Lemma closed_at_ok tb n :
  table_ok tb -> 0 <= n < FD64_TABLE_LIMIT ->
  let e := entry_at tb (Z.to_nat n) in
  fd64_entry_active e = true ->
  let tb' := closed_at n (capability_handle e) (fd_type e) tb in
  table_ok tb' /\ pid tb' = pid tb /\ live_count tb' = live_count tb - 1
  /\ forall i, view tb' i = if decide (i = Z.to_nat n) then None else view tb i.
Proof.
  intros Ht Hn e Ha. destruct (cleared_at_ok tb n Ht Hn Ha) as (Hok & Hv & _ & Hlc). fold e in Hok.
  unfold closed_at. cbv zeta.
  destruct (sync_pid (capability_handle e) (fd_type e) (cleared_at n tb)) as (-> & _ & ->).
  split_and!; [by apply sync_ok; [apply active_handle|]| |done|].
  - unfold cleared_at, drop_live. by case_match.
  - intros i. by rewrite view_sync, Hv.
Qed.

Lemma table_ok_but_of h ty tb : table_ok tb -> table_ok_but h ty tb.
Proof. intros [H1 H2 H3 H4]. constructor; [done..|]. intros i e Hi Ha. destruct (H4 i e Hi Ha) as (?&?&?). auto. Qed.

Lemma dup_at_ok tb n src :
  table_ok tb -> 0 <= n < FD64_TABLE_LIMIT -> fd64_entry_active (entry_at tb (Z.to_nat n)) = false ->
  fd64_entry_active src = true ->
  table_ok (dup_at n src tb) /\ pid (dup_at n src tb) = pid tb
  /\ owner_id (dup_at n src tb) = owner_id tb
  /\ forall i, view (dup_at n src tb) i = if decide (i = Z.to_nat n) then Some (named src) else view tb i.
Proof.
  intros Ht Hn H0 Hs. destruct (duplicated_ok tb n src Ht Hn H0 Hs) as [Hok Hv]. unfold dup_at.
  destruct (sync_pid (capability_handle src) (fd_type src) (duplicated n src tb)) as (-> & -> & _).
  split_and!.
  - apply sync_ok; [by apply active_handle|by apply table_ok_but_of].
  - unfold duplicated, raise_high_water. by case_match.
  - unfold duplicated, raise_high_water. by case_match.
  - intros i. by rewrite view_sync, Hv.
Qed.

Section ops.
Context {W : Type} {fw : FdWorld W} {laws : FdLaws W}.
Implicit Types (s : fd_state W).

Lemma deny_changed t s : changed t bump s (snd (table_deny t s)).
Proof. apply update_changed. Qed.

(** Step over an assignment to table [t]. *)
Lemma wp_update_table {A} t f (k : unit -> ST (fd_state W) A) (Q : A -> fd_state W -> Prop) s :
  (forall s', changed t f s s' -> pipes s' = pipes s -> wp (k tt) Q s') ->
  wp (bind (update_table t f) k) Q s.
Proof. intros H. apply wp_bind. unfold wp at 1. apply H; [apply update_changed|done]. Qed.

Lemma inv_bump t s s' : fd_inv s -> changed t bump s s' -> fd_inv s'.
Proof. intros Hi Hc. eapply inv_changed; [done|done|by apply bump_ok, table_at_ok|done]. Qed.

Lemma check_fd_untouched p k s :
  wp (on_pipes (on_personas (persona64_budget_check_fd p k 1))) (fun _ s' => untouched s s') s.
Proof. apply on_pipes_untouched. intros f. apply keeps_personas. Qed.

Lemma untouched_at s s' t : untouched s s' -> table_at s' t = table_at s t.
Proof. intros (H & _). unfold table_at. by rewrite H. Qed.

(** ** Installing *)

Lemma valid_type_nonempty ty : fd64_valid_type ty = true -> ty <> FD64_TYPE_EMPTY.
Proof. intros H ->. done. Qed.

Lemma install_effect t n h ty fl s :
  fd_inv s -> 0 <= n ->
  wp (fd64_install_entry t n h ty fl)
    (fun r s' => fd_inv s' /\
       (r = 0 /\ changed t bump s s' \/
        r = 1 /\ n < FD64_TABLE_LIMIT /\ fd64_entry_active (entry_at (table_at s t) (Z.to_nat n)) = false
          /\ h <> CAPABILITY64_INVALID_HANDLE /\ ty <> FD64_TYPE_EMPTY
          /\ changed t (installed n h ty fl) s s')) s.
Proof.
  intros Hi Hn. assert (Hdeny : forall s0, untouched s s0 ->
    wp (bind (table_deny t) (fun _ => ret 0)) (fun r s' => fd_inv s' /\
       (r = 0 /\ changed t bump s s' \/
        r = 1 /\ n < FD64_TABLE_LIMIT /\ fd64_entry_active (entry_at (table_at s t) (Z.to_nat n)) = false
          /\ h <> CAPABILITY64_INVALID_HANDLE /\ ty <> FD64_TYPE_EMPTY
          /\ changed t (installed n h ty fl) s s')) s0).
  { intros s0 Hu. wp_step. unfold table_deny, update_table. wp_step. wp_step.
    assert (Hc : changed t bump s (snd (table_deny t s0))) by (eapply untouched_then; [done|apply deny_changed]).
    split; [by eapply inv_bump|auto]. }
  unfold fd64_install_entry. wp_step. wp_step. wp_step; [by apply Hdeny|]. boolify.
  wp_step; [by apply Hdeny|]. apply wp_bind. eapply wp_mono; [apply check_fd_untouched|].
  intros b s1 Hu. simpl in Hu. wp_step; [by apply Hdeny|]. wp_step. unfold update_table. wp_step. wp_step.
  assert (Hc : changed t (installed n h ty fl) s (snd (update_table t (installed n h ty fl) s1))) by
    (eapply untouched_then; [done|apply update_changed]).
  assert (Hne : ty <> FD64_TYPE_EMPTY) by by apply valid_type_nonempty.
  split; [|right; split_and!; done].
  destruct (installed_ok (table_at s t) n h ty fl) as [Hok _]; [by apply table_at_ok|lia|done|done|done|].
  eapply inv_changed; [done|exact Hc|done|]. unfold installed, raise_high_water. by case_match.
Qed.

(** ** Allocating *)

Definition free_slot (e : fd_entry_t) : bool := negb (fd64_entry_active e).

Lemma alloc_effect p h ty fl s :
  fd_inv s ->
  wp (fd64_alloc p h ty fl)
    (fun r s' => fd_inv s' /\
       match att s p with
       | None => r = FD64_INVALID_FD /\ s' = s
       | Some t =>
           r = FD64_INVALID_FD /\ changed t bump s s' \/
           exists i, r = Z.of_nat i /\ find_index free_slot (entries (table_at s t)) = Some i
             /\ h <> CAPABILITY64_INVALID_HANDLE /\ ty <> FD64_TYPE_EMPTY
             /\ changed t (installed (Z.of_nat i) h ty fl) s s'
       end) s.
Proof.
  intros Hi. unfold fd64_alloc. wp_step. unfold wp at 1. rewrite table_for_process_run by done. cbn [fst snd].
  destruct (att s p) as [t|] eqn:Ha; [|wp_step; auto]. wp_step. wp_step.
  destruct (find_index _ _) as [i|] eqn:Ef.
  - wp_step. eapply wp_mono; [apply install_effect; [done|lia]|].
    intros r s' [Hi' [[-> Hc]|(-> & _ & _ & Hh & Hty & Hc)]]; wp_step; (split; [done|]); [left; done|right].
    exists i. done.
  - wp_step. unfold table_deny, update_table. wp_step. wp_step.
    pose proof (deny_changed t s) as Hc. split; [by eapply inv_bump|by left].
Qed.

Lemma alloc_at_effect p n h ty fl s :
  fd_inv s -> 0 <= n ->
  wp (fd64_alloc_at p n h ty fl)
    (fun r s' => fd_inv s' /\
       match att s p with
       | None => r = FD64_INVALID_FD /\ s' = s
       | Some t =>
           r = FD64_INVALID_FD /\ changed t bump s s' \/
           r = n /\ n < FD64_TABLE_LIMIT
             /\ fd64_entry_active (entry_at (table_at s t) (Z.to_nat n)) = false
             /\ changed t (installed n h ty fl) s s'
       end) s.
Proof.
  intros Hi Hn. unfold fd64_alloc_at. wp_step. unfold wp at 1. rewrite table_for_process_run by done.
  cbn [fst snd]. destruct (att s p) as [t|] eqn:Ha; [|wp_step; auto]. wp_step.
  - wp_step. unfold table_deny, update_table. wp_step. wp_step.
    pose proof (deny_changed t s) as Hc. split; [by eapply inv_bump|by left].
  - boolify. wp_step. eapply wp_mono; [apply install_effect; done|].
    intros r s' [Hi' [[-> Hc]|(-> & Hlt & Hact & _ & _ & Hc)]]; wp_step; (split; [done|]); [left; done|right; done].
Qed.

(** ** Closing *)

Lemma revoke_entry_untouched t i s :
  wp (fd64_revoke_entry_capability t i) (fun _ s' => untouched s s') s.
Proof.
  unfold fd64_revoke_entry_capability. wp_step. wp_step. cbv zeta. wp_step; [wp_step; by split_and!|].
  wp_step; [apply fd_world_untouched; eauto with kernel|].
  wp_step; [apply on_pipes_untouched; intros f; apply revoke_keeps|].
  apply fd_world_untouched. eauto with kernel.
Qed.

(** The pipes and the world after a close: only the last alias revokes. *)
Definition closed_pipes (t i : nat) (s : fd_state W) : pipe_state W :=
  if (1 <? aliases (table_at s t) (entry_at (table_at s t) i))%nat then pipes s
  else pipes (snd (fd64_revoke_entry_capability t i s)).

Lemma aliases_pos tb i :
  table_ok tb -> (i < table_slots)%nat -> fd64_entry_active (entry_at tb i) = true ->
  (0 < aliases tb (entry_at tb i))%nat.
Proof. intros Ht Hlt Ha. eapply count_if_pos; [by apply entry_at_lookup|by apply shares_self]. Qed.

Lemma free_effect p n s t :
  fd_inv s -> att s p = Some t -> 0 <= n ->
  let tb := table_at s t in
  let e := entry_at tb (Z.to_nat n) in
  wp (fd64_free p n)
    (fun r s' => fd_inv s' /\
       if (n <? FD64_TABLE_LIMIT) && fd64_entry_active e
       then r = 1 /\ changed t (closed_at n (capability_handle e) (fd_type e)) s s'
            /\ pipes s' = closed_pipes t (Z.to_nat n) s
       else r = 0 /\ changed t bump s s' /\ pipes s' = pipes s) s.
Proof.
  intros Hi Ha Hn tb e. pose proof (table_at_ok s t Hi) as Ht. fold tb in Ht.
  assert (Hdeny : wp (bind (table_deny t) (fun _ => ret 0))
    (fun r s' => fd_inv s' /\ r = 0 /\ changed t bump s s' /\ pipes s' = pipes s) s).
  { wp_step. unfold table_deny, update_table. wp_step. wp_step. pose proof (deny_changed t s) as Hc.
    split; [by eapply inv_bump|done]. }
  unfold fd64_free. wp_step. unfold wp at 1. rewrite table_for_process_run, Ha by done. cbn [fst snd].
  rewrite Z.ltb_antisym. wp_step; [exact Hdeny|]. boolify. wp_step. wp_step. fold tb e. cbv zeta.
  destruct (fd64_entry_active e) eqn:Hact; cbn [negb andb]; [|exact Hdeny].
  destruct (closed_at_ok tb n Ht ltac:(lia) Hact) as (Hok & Hpid & _).
  assert (Hs : (Z.to_nat n < table_slots)%nat) by (unfold table_slots; lia).
  pose proof (entry_at_lookup tb _ Ht Hs) as He. fold e in He.
  destruct (to_active _ Ht _ _ He Hact) as (_ & Hrc & _).
  pose proof (aliases_pos tb _ Ht Hs Hact) as Hpos. fold e in Hpos.
  rewrite shared_count_eq by done. unfold closed_pipes. fold tb e.
  destruct (Nat.ltb_spec 1 (aliases tb e)) as [Hmany|Hone].
  - rewrite (proj2 (Z.ltb_lt _ _)) by lia.
    apply wp_update_table. intros s1 H1 P1. apply wp_update_table. intros s2 H2 P2. wp_step.
    assert (Hc : changed t (closed_at n (capability_handle e) (fd_type e)) s s2) by
      by apply (changed_trans t _ _ _ _ _ H1 H2).
    split; [by eapply inv_changed|]. split_and!; [done|done|congruence].
  - rewrite (proj2 (Z.ltb_ge _ _)) by lia. rewrite (proj2 (Z.ltb_ge _ _)) by lia.
    wp_step. pose proof (revoke_entry_untouched t (Z.to_nat n) s) as Hu. unfold wp in Hu. unfold wp at 1.
    apply wp_update_table. intros s1 H1 P1. wp_step.
    assert (Hc : changed t (closed_at n (capability_handle e) (fd_type e)) s s1).
    { pose proof (untouched_then t _ _ _ _ Hu H1) as [C1 C2 C3 C4]. constructor; try done.
      rewrite C1. apply list_eq. intros j. destruct (decide (t = j)) as [<-|Hne];
        [|by rewrite !list_lookup_alter_ne].
      rewrite !list_lookup_alter_eq. destruct (g_fd64_tables s !! t) as [x|] eqn:Ex; [|done]. simpl. f_equal.
      assert (x = tb) as -> by (unfold tb, table_at; by rewrite Ex). symmetry.
      unfold closed_at. apply sync_none.
      destruct (cleared_at_ok tb n Ht ltac:(lia) Hact) as (_ & _ & Hcnt & _). fold e in Hcnt. lia. }
    split; [by eapply inv_changed|]. split_and!; [done|done|]. rewrite P1. done.
Qed.

(** ** Duplicating *)

Lemma view_entry tb i :
  table_ok tb -> (i < table_slots)%nat ->
  view tb i = if fd64_entry_active (entry_at tb i) then Some (named (entry_at tb i)) else None.
Proof. intros Ht Hi. by apply view_Some, entry_at_lookup. Qed.

(** The outcome of a duplication from [old] to [new]: a new alias, with
    every alias of the handle recounted, or a refusal that may already have
    closed [new]. *)
Definition dup_outcome (old new r : Z) tb tb' : Prop :=
  r = FD64_INVALID_FD
    /\ (forall i, view tb' i = view tb i \/ i = Z.to_nat new /\ view tb' i = None)
  \/ r = new /\ old < FD64_TABLE_LIMIT /\ new < FD64_TABLE_LIMIT
    /\ fd64_entry_active (entry_at tb (Z.to_nat old)) = true
    /\ (forall i, view tb' i = if decide (i = Z.to_nat new) then view tb (Z.to_nat old) else view tb i)
    /\ (old <> new -> counted (capability_handle (entry_at tb (Z.to_nat old)))
                        (fd_type (entry_at tb (Z.to_nat old))) tb').

Definition table_result (t : nat) (Q : fd_table_t -> fd_table_t -> Prop) s s' : Prop :=
  fd_inv s' /\ exists f, changed t f s s' /\ Q (table_at s t) (f (table_at s t)).

Lemma result_bump t {A} (r : A) (R : A -> fd_state W -> Prop) s :
  fd_inv s -> (forall s', table_result t (fun tb tb' => tb' = bump tb) s s' -> R r s') ->
  wp (bind (table_deny t) (fun _ => ret r)) R s.
Proof.
  intros Hi H. unfold table_deny. apply wp_update_table. intros s' Hc _. wp_step. apply H.
  split; [exact (inv_bump t s s' Hi Hc)|]. exists bump. split; [exact Hc|done].
Qed.

Lemma dup_tail t old new tb0 src s0 s :
  fd_inv s -> 0 <= new < FD64_TABLE_LIMIT -> old < FD64_TABLE_LIMIT -> src = entry_at tb0 (Z.to_nat old) ->
  fd64_entry_active src = true -> view tb0 (Z.to_nat old) = Some (named src) ->
  fd64_entry_active (entry_at (table_at s t) (Z.to_nat new)) = false ->
  (forall i, i <> Z.to_nat new -> view (table_at s t) i = view tb0 i) ->
  forall f, changed t f s0 s -> table_at s0 t = tb0 -> table_at s t = f tb0 ->
  wp (bind (gets (fun s => table_at s t)) (fun tb =>
      bind (on_pipes (on_personas (persona64_budget_check_fd (pid tb) (live_count tb) 1))) (fun budget =>
      if budget =? 0 then bind (table_deny t) (fun _ => ret FD64_INVALID_FD)
      else bind (update_table t (duplicated new src)) (fun _ =>
           bind (update_table t (fd64_sync_shared_ref_counts (capability_handle src) (fd_type src)))
             (fun _ => ret new)))))
    (fun r s' => table_result t (dup_outcome old new r) s0 s') s.
Proof.
  intros Hi Hn Ho Hsrc Ha Hvo H0 Hsame f Hf Ht0 Htf. set (tb1 := table_at s t) in *.
  pose proof (table_at_ok s t Hi) as Hok1. fold tb1 in Hok1.
  assert (Hs : (Z.to_nat new < table_slots)%nat) by (unfold table_slots; lia).
  pose proof (view_entry tb1 _ Hok1 Hs) as Hv1. rewrite H0 in Hv1.
  wp_step. wp_step. fold tb1. apply wp_bind. eapply wp_mono; [apply check_fd_untouched|].
  intros b s1 Hu. simpl in Hu. pose proof (inv_untouched _ _ Hi Hu) as Hi1.
  pose proof (untouched_at _ _ t Hu) as Hat. fold tb1 in Hat. wp_step.
  - apply (result_bump t); [done|]. intros s' (Hi' & g & Hg & Hgb).
    split; [done|]. exists (fun tb => g (f tb)). split.
    + eapply changed_trans; [exact Hf|by eapply untouched_then].
    + rewrite Ht0, <- Htf. rewrite Hat in Hgb. rewrite Hgb. left. split; [done|]. intros i.
      rewrite view_bump. destruct (decide (i = Z.to_nat new)) as [->|Hne]; [right; done|left; auto].
  - apply wp_update_table. intros s2 H2 _. apply wp_update_table. intros s3 H3 _. wp_step.
    destruct (dup_at_ok tb1 new src Hok1 Hn H0 Ha) as (Hok & Hpid & _ & Hv).
    assert (Hc : changed t (dup_at new src) s s3).
    { eapply untouched_then; [exact Hu|]. exact (changed_trans t _ _ _ _ _ H2 H3). }
    split; [by apply (inv_changed t (dup_at new src) s s3)|]. exists (fun tb => dup_at new src (f tb)).
    split; [exact (changed_trans t _ _ _ _ _ Hf Hc)|]. rewrite Ht0, <- Htf. right. rewrite Hsrc in Ha. split_and!; try done; [lia| |].
    + intros i. rewrite Hv. case_decide; [by rewrite Hvo|auto].
    + intros _. rewrite <- Hsrc. apply sync_counted, active_handle. by rewrite Hsrc.
Qed.

Lemma dup_into_effect p t old new s :
  fd_inv s -> att s p = Some t -> 0 <= old -> 0 <= new ->
  wp (fd64_dup_into t old new) (fun r s' => table_result t (dup_outcome old new r) s s') s.
Proof.
  intros Hi Ha Hold Hnew. unfold fd64_dup_into.
  assert (Hrefl : forall r s', table_result t (fun tb tb' => tb' = bump tb) s s' ->
    r = FD64_INVALID_FD -> table_result t (dup_outcome old new r) s s').
  { intros r s' (Hi' & f & Hc & Hf) ->. split; [done|]. exists f. split; [done|]. rewrite Hf. left.
    split; [done|]. auto. }
  wp_step; [apply (result_bump t); auto|]. boolify. wp_step. wp_step. cbv zeta.
  pose proof (table_at_ok s t Hi) as Hok. set (tb := table_at s t) in *.
  assert (Hso : (Z.to_nat old < table_slots)%nat) by (unfold table_slots; lia).
  assert (Hsn : (Z.to_nat new < table_slots)%nat) by (unfold table_slots; lia).
  wp_step; [apply (result_bump t); auto|]. boolify. rename E into Hact.
  pose proof (view_entry tb _ Hok Hso) as Hvo. rewrite Hact in Hvo.
  wp_step; boolify.
  { subst new. wp_step. split; [done|]. exists id. split; [by apply untouched_changed; split_and!|].
    right. split_and!; try done; try lia. intros i. by case_decide; subst. }
  assert (Hlt : (t < length (g_fd64_tables s))%nat) by (rewrite (fi_length _ Hi); by eapply att_lt).
  wp_step. destruct (fd64_entry_active (entry_at tb (Z.to_nat new))) eqn:Hn.
  - destruct (fi_att _ Hi _ _ Ha) as [Hpid _]. fold tb in Hpid. rewrite Hpid.
    pose proof (free_effect p new s t Hi Ha Hnew) as Hfree. cbv zeta in Hfree.
    eapply wp_mono; [exact Hfree|]. fold tb. intros r s1 [Hi1 Hcase].
    rewrite (proj2 (Z.ltb_lt new _)), Hn in Hcase by lia. cbn [andb] in Hcase.
    destruct Hcase as (-> & Hc & _). cbn [Z.eqb].
    destruct (closed_at_ok tb new Hok ltac:(lia) Hn) as (_ & _ & _ & Hv).
    pose proof (changed_at _ _ _ _ Hc Hlt) as Hat. fold tb in Hat.
    eapply (dup_tail t old new tb _ s s1); try done; try lia.
    + pose proof (view_entry _ _ (table_at_ok s1 t Hi1) Hsn) as Hv1. rewrite Hat, Hv, decide_True in Hv1 by done.
      rewrite Hat. apply not_true_is_false. intros Ex. by rewrite Ex in Hv1.
    + intros i Hne. by rewrite Hat, Hv, decide_False.
  - wp_step. cbn [Z.eqb]. eapply (dup_tail t old new tb _ s s _ _ _ _ _ _ _ _ id); try done; try lia.
    by apply untouched_changed; split_and!.
  Unshelve. all: try done; try lia.
Qed.

(** ** Recounting: after a duplicate or a close, every alias left of the
    handle descriptor [n] had named carries the number of aliases *)

Definition recounted (t n : nat) s s' : Prop :=
  let e := entry_at (table_at s t) n in counted (capability_handle e) (fd_type e) (table_at s' t).

Definition recounts_if (P : Z -> Prop) (t n : nat) s (r : Z) s' : Prop :=
  fd_inv s' /\ (P r -> recounted t n s s').

Lemma att_length s p t : fd_inv s -> att s p = Some t -> (t < length (g_fd64_tables s))%nat.
Proof. intros Hi Ha. rewrite (fi_length _ Hi). by eapply att_lt. Qed.

Definition got (r : Z) : Prop := r <> FD64_INVALID_FD.

Lemma got_invalid : ~ got FD64_INVALID_FD.
Proof. by intros H. Qed.

Lemma dup_into_recounts p t old new s :
  fd_inv s -> att s p = Some t -> 0 <= old -> 0 <= new -> old <> new ->
  wp (fd64_dup_into t old new) (recounts_if got t (Z.to_nat old) s) s.
Proof.
  intros Hi Ha Ho Hn Hne. eapply wp_mono; [by eapply dup_into_effect|].
  intros r s' (Hi' & f & Hc & Hd). split; [done|]. intros Hr. unfold recounted.
  rewrite (changed_at _ _ _ _ Hc) by by eapply att_length.
  destruct Hd as [[-> _]|(_ & _ & _ & _ & _ & H)]; [done|auto].
Qed.

Lemma recounts_deny P t n r s : fd_inv s -> ~ P r ->
  wp (bind (table_deny t) (fun _ => ret r)) (recounts_if P t n s) s.
Proof. intros Hi Hr. apply (result_bump t); [done|]. intros s' [Hi' _]. by split. Qed.

Lemma dup_from_recounts p t old from s :
  fd_inv s -> att s p = Some t -> 0 <= old -> fd64_entry_active (entry_at (table_at s t) (Z.to_nat old)) = true ->
  wp (dup_from t old from) (recounts_if got t (Z.to_nat old) s) s.
Proof.
  intros Hi Ha Ho Hact. unfold dup_from. wp_step. wp_step. destruct (find_index _ _) as [i|] eqn:Ef.
  - eapply dup_into_recounts; try done; [lia|]. intros ->. rewrite Nat2Z.id in Hact.
    destruct (find_index_lookup _ _ _ Ef) as (e & He & Hfree). rewrite lookup_drop in He.
    rewrite (entry_at_Some _ _ _ He) in Hact. by rewrite Hact in Hfree.
  - by apply recounts_deny, got_invalid.
Qed.

(** Look up the caller's table, which is [t]. *)
Lemma wp_lookup {A} p t (d : A) (k : nat -> ST (fd_state W) A) (Q : A -> fd_state W -> Prop) s :
  fd_inv s -> att s p = Some t -> wp (k t) Q s ->
  wp (bind (fd64_table_for_process p)
    (fun table => match table with None => ret d | Some t => k t end)) Q s.
Proof.
  intros Hi Ha Hk. apply wp_bind. unfold wp at 1. by rewrite table_for_process_run, Ha by done.
Qed.

Lemma dup_recounts p t old s :
  fd_inv s -> att s p = Some t -> 0 <= old ->
  wp (fd64_dup p old) (recounts_if got t (Z.to_nat old) s) s.
Proof.
  intros Hi Ha Ho. eapply wp_lookup; [done..|]. wp_step. wp_step. wp_step; boolify.
  - by apply recounts_deny, got_invalid.
  - by eapply dup_from_recounts.
Qed.

Lemma dup_min_recounts p t old min s :
  fd_inv s -> att s p = Some t -> 0 <= old ->
  wp (fd64_dup_min p old min) (recounts_if got t (Z.to_nat old) s) s.
Proof.
  intros Hi Ha Ho. eapply wp_lookup; [done..|]. wp_step. wp_step. wp_step; boolify.
  - by apply recounts_deny, got_invalid.
  - by eapply dup_from_recounts.
Qed.

Lemma dup2_recounts p t old new s :
  fd_inv s -> att s p = Some t -> 0 <= old -> 0 <= new -> old <> new ->
  wp (fd64_dup2 p old new) (recounts_if got t (Z.to_nat old) s) s.
Proof. intros. eapply wp_lookup; [done..|]. by eapply dup_into_recounts. Qed.

Lemma dup3_recounts p t old new fl s :
  fd_inv s -> att s p = Some t -> 0 <= old -> 0 <= new ->
  wp (fd64_dup3 p old new fl) (recounts_if got t (Z.to_nat old) s) s.
Proof.
  intros Hi Ha Ho Hn. eapply wp_lookup; [done..|]. wp_step; boolify.
  { by apply recounts_deny, got_invalid. }
  apply wp_bind. eapply wp_mono; [by eapply dup_into_recounts|]. intros r s1 [Hi1 Hr]. wp_step; boolify.
  { wp_step. split; [done|by intros []%got_invalid]. }
  apply wp_update_table. intros s2 H2 _. wp_step.
  assert (Hid : keeps_identity (fun e => e <| flags := fl |>)) by done. split.
  - eapply (inv_changed t _ s1 s2 Hi1 H2); [by apply set_entry_ok; [apply table_at_ok|]|done].
  - intros Hgot. unfold recounted. destruct (decide (t < length (g_fd64_tables s1))%nat) as [Hl|Hl].
    + rewrite (changed_at _ _ _ _ H2 Hl). apply identity_counted; [done|]. by apply Hr.
    + exfalso. apply Hl. rewrite (fi_length _ Hi1), <- (fi_length _ Hi). by eapply att_length.
Qed.

Lemma close_recounts p t n s :
  fd_inv s -> att s p = Some t -> 0 <= n ->
  wp (fd64_close p n) (recounts_if (fun r => r <> 0) t (Z.to_nat n) s) s.
Proof.
  intros Hi Ha Hn. pose proof (free_effect p n s t Hi Ha Hn) as H. cbv zeta in H.
  eapply wp_mono; [exact H|]. intros r s' [Hi' Hcase]. split; [done|]. intros Hr.
  destruct (_ && fd64_entry_active _) eqn:E; [|by destruct Hcase]. destruct Hcase as (_ & Hc & _). boolify.
  unfold recounted. rewrite (changed_at _ _ _ _ Hc) by by eapply att_length.
  by apply sync_counted, active_handle.
Qed.

(** ** Holding an entry

    Callers outside fd.c ([linux_vfs64_read_fd] of linux_vfs.c) take a
    descriptor's entry with [fd64_get], may move its offset, and give it
    back with [fd64_put] before they return. *)

Definition use_entry (p n : Z) (bytes : option Z) : ST (fd_state W) unit :=
  (held <- fd64_get p n ;;
   match held with
   | None => ret tt
   | Some (t, i) =>
       (match bytes with Some k => advance t i k | None => ret tt end) ;;;
       fd64_put p (t, i) ;;;
       ret tt
   end)%kernel.

(** ** Preservation, call by call *)

Lemma deny_keeps t : preserves fd_inv (table_deny t).
Proof. intros s Hi. exact (inv_bump t _ _ Hi (deny_changed t s)). Qed.

Lemma on_pipes_keeps {A} (m : ST (pipe_state W) A) :
  (forall f, preserves (att_is f) m) -> preserves fd_inv (on_pipes m).
Proof. intros Hm s Hi. eapply wp_mono; [by apply on_pipes_untouched|]. intros. by eapply inv_untouched. Qed.

Lemma fd_world_keeps {A} (m : ST W A) : keeps_tables m -> preserves fd_inv (fd_world m).
Proof. intros Hm s Hi. eapply wp_mono; [by apply fd_world_untouched|]. intros. by eapply inv_untouched. Qed.

Lemma table_for_process_keeps p : preserves fd_inv (fd64_table_for_process p).
Proof. intros s Hi. unfold wp. by rewrite table_for_process_run. Qed.

Lemma init_fd_keeps : preserves fd_inv fd64_init.
Proof. intros s Hi. unfold wp. by rewrite init_fd_done by apply Hi. Qed.

Lemma identity_keeps t i f : keeps_identity f -> preserves fd_inv (update_table t (set_entry i f)).
Proof.
  intros Hf s Hi. unfold wp. eapply (inv_changed t _ s _ Hi); [apply update_changed| |done].
  by apply set_entry_ok; [apply table_at_ok|].
Qed.

Lemma revoke_entry_keeps t i : preserves fd_inv (fd64_revoke_entry_capability t i).
Proof. intros s Hi. eapply wp_mono; [apply revoke_entry_untouched|]. intros. by eapply inv_untouched. Qed.

Lemma install_keeps t n h ty fl : 0 <= n -> preserves fd_inv (fd64_install_entry t n h ty fl).
Proof. intros Hn s Hi. eapply wp_mono; [by apply install_effect|]. by intros r s' [? _]. Qed.

Lemma alloc_keeps p h ty fl : preserves fd_inv (fd64_alloc p h ty fl).
Proof. intros s Hi. eapply wp_mono; [by apply alloc_effect|]. by intros r s' [? _]. Qed.

Lemma alloc_at_keeps p n h ty fl : 0 <= n -> preserves fd_inv (fd64_alloc_at p n h ty fl).
Proof. intros Hn s Hi. eapply wp_mono; [by apply alloc_at_effect|]. by intros r s' [? _]. Qed.

Lemma free_keeps p n : 0 <= n -> preserves fd_inv (fd64_free p n).
Proof.
  intros Hn s Hi. destruct (att s p) as [t|] eqn:Ha.
  - pose proof (free_effect p n s t Hi Ha Hn) as H. cbv zeta in H.
    eapply wp_mono; [exact H|]. by intros r s' [? _].
  - unfold fd64_free. wp_step. unfold wp at 1. rewrite table_for_process_run, Ha by done. by wp_step.
Qed.

Hint Resolve deny_keeps on_pipes_keeps fd_world_keeps table_for_process_keeps init_fd_keeps
  identity_keeps revoke_entry_keeps install_keeps alloc_keeps alloc_at_keeps free_keeps : kernel.
Hint Resolve revoke_keeps write_keeps read_keeps find_keeps init_keeps clear_keeps keeps_personas : kernel.

Lemma set_flags_identity fl : keeps_identity (fun e => e <| flags := fl |>).
Proof. done. Qed.
Lemma set_offset_identity off : keeps_identity (fun e => e <| file_offset := off |>).
Proof. done. Qed.
Lemma advance_identity n : keeps_identity (fun e => e <| file_offset := add64 (file_offset e) n |>).
Proof. done. Qed.
Hint Resolve set_flags_identity set_offset_identity advance_identity : kernel.

Lemma deny_pipe_keeps f : preserves (att_is f) (@deny W).
Proof. apply keeps_modify. done. Qed.
Lemma update_pipe_keeps f i g : preserves (att_is f) (@update_pipe W i g).
Proof. apply keeps_modify. done. Qed.
Hint Resolve deny_pipe_keeps update_pipe_keeps : kernel.

(** *** Duplicates: the table must be the one attached to some process *)

Lemma dup_into_at p t old new s :
  fd_inv s -> att s p = Some t -> 0 <= old -> 0 <= new ->
  wp (fd64_dup_into t old new) (fun _ s' => fd_inv s') s.
Proof. intros. eapply wp_mono; [by eapply dup_into_effect|]. by intros r s' [? _]. Qed.

Lemma dup_from_at p t old from s :
  fd_inv s -> att s p = Some t -> 0 <= old -> wp (dup_from t old from) (fun _ s' => fd_inv s') s.
Proof.
  intros Hi Ha Ho. unfold dup_from. wp_step. wp_step. case_match.
  - eapply dup_into_at; try done. lia.
  - wp_step. unfold wp at 1. wp_step. by apply deny_keeps.
Qed.

(** Calls that first look up the caller's table. *)
Lemma lookup_keeps {A} p (d : A) (k : nat -> ST (fd_state W) A) :
  (forall s t, fd_inv s -> att s p = Some t -> wp (k t) (fun _ s' => fd_inv s') s) ->
  preserves fd_inv (bind (fd64_table_for_process p)
    (fun table => match table with None => ret d | Some t => k t end)).
Proof.
  intros Hk s Hi. wp_step. unfold wp at 1. rewrite table_for_process_run by done. cbn [fst snd].
  destruct (att s p) as [t|] eqn:Ha; [by apply Hk|by wp_step].
Qed.

Lemma dup_keeps p old : 0 <= old -> preserves fd_inv (fd64_dup p old).
Proof.
  intros Ho. apply lookup_keeps. intros s t Hi Ha. wp_step. wp_step. wp_step.
  - wp_step. unfold wp at 1. wp_step. by apply deny_keeps.
  - by eapply dup_from_at.
Qed.

Lemma dup_min_keeps p old min : 0 <= old -> preserves fd_inv (fd64_dup_min p old min).
Proof.
  intros Ho. apply lookup_keeps. intros s t Hi Ha. wp_step. wp_step. wp_step.
  - wp_step. unfold wp at 1. wp_step. by apply deny_keeps.
  - by eapply dup_from_at.
Qed.

Lemma dup2_keeps p old new : 0 <= old -> 0 <= new -> preserves fd_inv (fd64_dup2 p old new).
Proof. intros Ho Hn. apply lookup_keeps. intros s t Hi Ha. by eapply dup_into_at. Qed.

Lemma dup3_keeps p old new fl : 0 <= old -> 0 <= new -> preserves fd_inv (fd64_dup3 p old new fl).
Proof.
  intros Ho Hn. apply lookup_keeps. intros s t Hi Ha. wp_step.
  - wp_step. unfold wp at 1. wp_step. by apply deny_keeps.
  - apply wp_bind. eapply wp_mono; [by eapply dup_into_at|]. intros r s' Hi'. simpl in Hi'.
    assert (preserves fd_inv (if r =? FD64_INVALID_FD then ret FD64_INVALID_FD else
      bind (update_table t (set_entry (Z.to_nat r) (fun e => e <| flags := fl |>))) (fun _ => ret r))) as Hp
      by preserves_auto. by apply Hp.
Qed.

Lemma set_entry_flags_keeps p n fl : preserves fd_inv (fd64_set_entry_flags p n fl).
Proof. unfold fd64_set_entry_flags. preserves_auto. Qed.

Lemma close_on_exec_keeps p : preserves fd_inv (fd64_close_on_exec p).
Proof.
  unfold fd64_close_on_exec. preserves_auto. unfold close_on_exec_body. cbv zeta. preserves_auto.
  apply free_keeps. lia.
Qed.

Lemma read_fd_keeps p n count : preserves fd_inv (fd64_read p n count).
Proof. unfold fd64_read, advance. cbv zeta. preserves_auto. Qed.
Lemma write_fd_keeps p n data : preserves fd_inv (fd64_write p n data).
Proof. unfold fd64_write, advance. cbv zeta. preserves_auto. Qed.
Lemma read_at_keeps p n off count : preserves fd_inv (fd64_read_at p n off count).
Proof. unfold fd64_read_at. cbv zeta. preserves_auto. Qed.
Lemma write_at_keeps p n off data : preserves fd_inv (fd64_write_at p n off data).
Proof. unfold fd64_write_at. cbv zeta. preserves_auto. Qed.
Lemma open_ramfs_keeps p path fl : preserves fd_inv (fd64_open_ramfs p path fl).
Proof. unfold fd64_open_ramfs. preserves_auto. Qed.

(** The count a holder added is the one it takes away. *)
Definition hold_entry e : fd_entry_t := e <| ref_count := inc32 (ref_count e) |>.
Definition drop_entry e : fd_entry_t := e <| ref_count := dec32 (ref_count e) |>.

Lemma hold_drop_ok i f tb :
  table_ok tb -> (i < table_slots)%nat -> fd64_entry_active (entry_at tb i) = true -> keeps_identity f ->
  let tb1 := set_entry i f (set_entry i hold_entry tb) in
  entry_at tb1 i = f (hold_entry (entry_at tb i))
  /\ ref_count (entry_at tb1 i) = ref_count (entry_at tb i) + 1 /\ 1 < ref_count (entry_at tb1 i)
  /\ fd64_entry_active (entry_at tb1 i) = true
  /\ table_ok (set_entry i drop_entry tb1).
Proof.
  intros Ht Hi Hact Hf tb1. pose proof (entry_at_lookup _ _ Ht Hi) as He. set (e := entry_at tb i) in *.
  destruct (to_active _ Ht _ _ He Hact) as (_ & Hr & _).
  assert (Hle : (aliases tb e <= table_slots)%nat) by (rewrite <- (to_length _ Ht); apply count_if_le).
  change table_slots with 1024%nat in Hle. destruct (Hf (hold_entry e)) as (F1 & F2 & F3 & F4).
  assert (He1 : entries tb1 !! i = Some (f (hold_entry e))).
  { unfold tb1. rewrite set_entry_twice. unfold set_entry. simpl. by rewrite list_lookup_alter_eq, He. }
  assert (Hinc : ref_count (f (hold_entry e)) = ref_count e + 1).
  { rewrite F4. apply inc32_small. unfold U32_MAX. lia. }
  rewrite (entry_at_Some _ _ _ He1). split_and!; [done|done|lia| |].
  - unfold fd64_entry_active in *. rewrite F2, F3, Hinc. simpl. boolify.
    by rewrite !(proj2 (Z.eqb_neq _ _)) by (done || lia).
  - unfold tb1. rewrite !set_entry_twice.
    rewrite (set_entry_ext i _ (fun x => (f (hold_entry x)) <| ref_count := ref_count x |>) tb e He).
    + apply set_entry_ok; [done|]. intros x. destruct (Hf (hold_entry x)) as (G1 & G2 & G3 & _). done.
    + unfold drop_entry. rewrite Hinc. unfold dec32, sub32. rewrite wrap32_small by (unfold fits32; lia).
      by replace (ref_count e + 1 - 1) with (ref_count e) by lia.
Qed.

Lemma lookup_started p s : g_fd64_initialized s <> 0 -> fd64_table_for_process p s = (att s p, s).
Proof. intros H. unfold fd64_table_for_process, bind. by rewrite init_fd_done. Qed.

(** The optional move of the offset, as a change of the entry. *)
Lemma advance_step t i bytes s :
  wp (match bytes with Some k => advance t i k | None => ret tt end)
    (fun _ s' => exists f, keeps_identity f /\ changed t (set_entry i f) s s') s.
Proof.
  destruct bytes as [k|].
  - unfold advance. exists (fun e => e <| file_offset := add64 (file_offset e) k |>).
    split; [done|apply update_changed].
  - wp_step. exists id. split; [done|]. constructor; try done. symmetry. apply alter_id_at.
    intros [] _. unfold set_entry. simpl. by rewrite alter_id_at.
Qed.

(** Giving back a held entry. *)
Lemma put_held p t i s0 s f :
  fd_inv s0 -> att s0 p = Some t -> (i < table_slots)%nat ->
  fd64_entry_active (entry_at (table_at s0 t) i) = true -> keeps_identity f ->
  changed t (fun tb => set_entry i f (set_entry i hold_entry tb)) s0 s ->
  wp (fd64_put p (t, i)) (fun _ s' => fd_inv s') s.
Proof.
  intros Hi Ha Hlt Hact Hf Hc. pose proof (table_at_ok _ t Hi) as Ht.
  destruct (hold_drop_ok i f _ Ht Hlt Hact Hf) as (_ & _ & Hmany & Hact1 & Hok).
  pose proof (changed_at _ _ _ _ Hc (att_length _ _ _ Hi Ha)) as Hat.
  unfold fd64_put. apply wp_bind. unfold wp at 1.
  rewrite lookup_started by (rewrite (ch_init _ _ _ _ Hc); apply Hi).
  cbn [fst snd]. rewrite (ch_att _ _ _ _ Hc), Ha. wp_step. wp_step. cbn [fst snd].
  rewrite Hat, Nat.eqb_refl, Hact1, (proj2 (Nat.leb_gt _ _)) by done. cbn [negb orb].
  rewrite (proj2 (Z.ltb_lt _ _) Hmany).
  apply wp_update_table. intros s' H' _. wp_step.
  eapply (inv_changed t _ s0 s' Hi (changed_trans _ _ _ _ _ _ Hc H')); done.
Qed.

Lemma use_entry_keeps p n bytes : 0 <= n -> preserves fd_inv (use_entry p n bytes).
Proof.
  intros Hn s Hi. unfold use_entry, fd64_get. apply wp_bind, wp_bind. unfold wp at 1.
  rewrite table_for_process_run by done. cbn [fst snd]. destruct (att s p) as [t|] eqn:Ha; [|by wp_step; wp_step].
  wp_step. wp_step. wp_step; boolify.
  - wp_step. unfold wp at 1. wp_step. wp_step. by apply deny_keeps.
  - apply wp_update_table. intros s1 H1 _. wp_step. cbv iota beta.
    apply wp_bind. eapply wp_mono; [apply advance_step|]. intros _ s2 (f & Hf & H2).
    apply wp_bind. eapply wp_mono; [eapply (put_held p t (Z.to_nat n) s s2 f)|]; try done.
    + unfold table_slots. lia.
    + exact (changed_trans _ _ _ _ _ _ H1 H2).
Qed.

(** *** Claiming and releasing a table *)

Lemma used_free s t : find_index (fun u => u =? 0) (g_fd64_table_used s) = Some t ->
  fd_inv s -> (t < FD64_MAX_PROCESS_TABLES)%nat /\ forall p, att s p <> Some t.
Proof.
  intros Hf Hi. destruct (find_index_lookup _ _ _ Hf) as (u & Hu & H0). boolify. subst.
  split; [rewrite <- (fi_used_length _ Hi); by eapply lookup_lt_Some|].
  intros p Ha. destruct (fi_att _ Hi _ _ Ha) as (_ & u & Hu' & Hne). by rewrite Hu in Hu'; simplify_eq.
Qed.

(** Reset a table nobody is attached to. *)
Lemma inv_reset t tb' s s' :
  fd_inv s -> changed t (fun _ => tb') s s' -> (forall p, att s p <> Some t) -> table_ok tb' -> fd_inv s'.
Proof.
  intros Hi Hc Hno Hok. pose proof Hc as [A1 A2 A3 A4]. constructor.
  - rewrite A3. apply Hi.
  - rewrite A1, length_alter. apply Hi.
  - rewrite A2. apply Hi.
  - rewrite A1. intros t' tb (x & Hx & ->)%lookup_alter_Some. case_decide; [done|by eapply fi_tables].
  - intros p t' Ha. rewrite A4 in Ha. rewrite A2. assert (t' <> t) by by intros ->; eapply Hno.
    rewrite (changed_other _ _ _ _ _ Hc) by done. by apply fi_att.
Qed.

Lemma claim_effect p owner s :
  fd_inv s ->
  wp (fd64_claim_table p owner)
    (fun r s' => fd_inv s' /\ match r with
       | Some t => att s' p = Some t /\ (att s p = None -> table_at s' t =
                     fd64_clear_table <| pid := p |> <| owner_id := owner |>)
       | None => True end) s.
Proof.
  intros Hi. unfold fd64_claim_table. wp_step. unfold wp at 1. rewrite init_fd_done by apply Hi. cbn [fst snd].
  wp_step. wp_step. wp_step; [by wp_step|]. wp_step. wp_step. fold (att s p).
  destruct (att s p) as [t|] eqn:Ha; [wp_step; by split_and!|]. wp_step. wp_step.
  destruct (find_index _ _) as [t|] eqn:Ef; [|by wp_step].
  destruct (used_free s t Ef Hi) as [Ht Hno].
  set (tb' := fd64_clear_table <| pid := p |> <| owner_id := owner |>).
  assert (Hok' : table_ok tb') by exact (table_ok_meta _ p owner 0 0 clear_table_ok).
  apply wp_update_table. intros s1 H1 P1. pose proof (inv_reset t tb' s s1 Hi H1 Hno Hok') as Hi1.
  assert (Hno1 : forall q, att s1 q <> Some t) by (intros q; by rewrite (ch_att _ _ _ _ H1)).
  assert (Hat1 : table_at s1 t = tb') by (rewrite (changed_at _ _ _ _ H1); [done|by rewrite (fi_length _ Hi)]).
  wp_step. unfold wp at 1, fd_world, on_pipes, on_world.
  pose proof (law_attach p t (world (pipes s1))) as Hlaw.
  destruct (process64_attach_fd p t (world (pipes s1))) as [ok w'] eqn:Eat. destruct Hlaw as [Hoth Hp].
  cbn [fst snd]. set (s2 := s1 <| pipes := _ |>). destruct (Z.eqb_spec ok 0) as [E0|E0].
  - assert (Hu : untouched s1 s2).
    { split_and!; try done. intros q. unfold att, s2. simpl.
      destruct (decide (q = p)) as [->|Hq]; [|by apply Hoth]. by rewrite Hp. }
    apply wp_update_table. intros s3 H3 P3. wp_step. split; [|done].
    apply (inv_reset t fd64_clear_table s2 s3); [by eapply inv_untouched|done| |apply clear_table_ok].
    intros q. destruct Hu as (_ & _ & _ & ->). auto.
  - wp_step. unfold set_table_used. wp_step. wp_step.
    assert (Hatt2 : forall q, q <> p -> att s2 q = att s1 q) by (intros q Hq; unfold att; simpl; by apply Hoth).
    split; [|split; [exact Hp|done]]. constructor; simpl; try apply Hi1.
    + rewrite length_insert. apply Hi1.
    + intros q t' Hq. destruct (decide (q = p)) as [->|Hne].
      * assert (t' = t) as -> by (unfold att in Hq; simpl in Hq; congruence). split.
        -- change (pid (table_at s1 t) = p). by rewrite Hat1.
        -- exists 1. rewrite list_lookup_insert_eq; [done|]. by rewrite (fi_used_length _ Hi1).
      * assert (Hq1 : att s1 q = Some t') by (rewrite <- Hatt2; done).
        destruct (fi_att _ Hi1 _ _ Hq1) as (Hpid & u & Hu & Hu0). split; [done|].
        assert (t' <> t) by (intros ->; by eapply Hno1). exists u. by rewrite list_lookup_insert_ne.
Qed.

Lemma release_revokes_untouched t s :
  wp (for_range table_slots (release_revoke_body t)) (fun _ s' => untouched s s') s.
Proof.
  apply (wp_for_range _ _ (fun _ s' => untouched s s')); [by split_and!|].
  intros i s1 _ Hu. unfold release_revoke_body. wp_step. wp_step. wp_step; [|by wp_step].
  wp_step. eapply wp_mono; [apply revoke_entry_untouched|]. intros r s2 Hu2. simpl in *. wp_step.
  destruct Hu as (A1 & A2 & A3 & A4), Hu2 as (B1 & B2 & B3 & B4). split_and!; try congruence.
Qed.

(** After [i] rounds of the clearing loop: [n] entries cleared, the rest of
    the table as it was. *)
Definition clearing t tb (s : fd_state W) (i : nat) (n : Z) (s' : fd_state W) : Prop :=
  (exists f, changed t f s s')
  /\ n = Z.of_nat (count_if fd64_entry_active (take i (entries tb)))
  /\ (forall j, (i <= j)%nat -> entries (table_at s' t) !! j = entries tb !! j).

Lemma release_clears t s :
  fd_inv s -> (t < FD64_MAX_PROCESS_TABLES)%nat ->
  wp (fold_range table_slots 0 (release_clear_body t))
    (fun n s' => n = live_count (table_at s t) /\ exists f, changed t f s s') s.
Proof.
  intros Hi Ht. set (tb := table_at s t). pose proof (table_at_ok s t Hi) as Hok. fold tb in Hok.
  pose proof (to_length _ Hok) as Hlen.
  eapply wp_mono; [apply (wp_fold_range _ _ _ (clearing t tb s))|].
  - split_and!; [exists id; apply untouched_changed; by split_and!|done|done].
  - intros i n s1 Hlt ((f & Hf) & Hn & Hrest). unfold release_clear_body. wp_step. wp_step.
    assert (Hlt1 : (t < length (g_fd64_tables s1))%nat) by
      (rewrite (ch_tables _ _ _ _ Hf), length_alter, (fi_length _ Hi); done).
    assert (He : entries (table_at s1 t) !! i = Some (entry_at tb i)) by
      (rewrite Hrest by lia; by apply entry_at_lookup).
    rewrite (entry_at_Some _ _ _ He).
    assert (Htake : take (S i) (entries tb) = take i (entries tb) ++ [entry_at tb i]) by
      (apply take_S_r; by apply entry_at_lookup).
    pose proof (count_if_le fd64_entry_active (take i (entries tb))) as Hle. rewrite length_take in Hle.
    assert (Hcnt : Z.of_nat (count_if fd64_entry_active (take (S i) (entries tb)))
      = n + b2z (fd64_entry_active (entry_at tb i))).
    { rewrite Htake. unfold count_if in *. rewrite List.filter_app, length_app. simpl.
      destruct (fd64_entry_active (entry_at tb i)); simpl; lia. }
    change table_slots with 1024%nat in *.
    wp_step; rewrite ?E in Hcnt; simpl in Hcnt.
    + apply wp_update_table. intros s2 H2 _. wp_step. split_and!.
      * eexists. exact (changed_trans t _ _ _ _ _ Hf H2).
      * change (1 + i)%nat with (S i). rewrite Hcnt. apply inc32_small. unfold U32_MAX. lia.
      * intros j Hj. rewrite (changed_at _ _ _ _ H2) by done. unfold set_entry. simpl.
        rewrite list_lookup_alter_ne by lia. apply Hrest. lia.
    + wp_step. split_and!; [by exists f|change (1 + i)%nat with (S i); lia|]. intros j Hj. apply Hrest. lia.
  - intros n s' (Hf & Hn & _). split; [|done]. rewrite Hn, (to_live _ Hok), take_ge; [done|]. by rewrite Hlen.
Qed.

Lemma release_effect p s :
  fd_inv s ->
  wp (fd64_release_process p)
    (fun r s' => fd_inv s' /\
       match att s p with
       | None => r = 0 /\ s' = s
       | Some t => r = live_count (table_at s t) /\ att s' p = None /\ table_at s' t = fd64_clear_table
           /\ g_fd64_table_used s' = <[t := 0]> (g_fd64_table_used s)
           /\ (forall q, q <> p -> att s' q = att s q)
           /\ (forall t', t' <> t -> table_at s' t' = table_at s t')
       end) s.
Proof.
  intros Hi. unfold fd64_release_process. wp_step. unfold wp at 1. rewrite table_for_process_run by done.
  cbn [fst snd]. destruct (att s p) as [t|] eqn:Ha; [|by wp_step]. pose proof (att_lt _ _ _ Hi Ha) as Ht.
  wp_step. eapply wp_mono; [apply release_revokes_untouched|]. intros u0 s1 Hu. simpl in Hu.
  pose proof (inv_untouched _ _ Hi Hu) as Hi1. wp_step. eapply wp_mono; [by apply release_clears|].
  intros n s2 (Hn & f & Hf). rewrite (untouched_at _ _ t Hu) in Hn.
  apply wp_update_table. intros s3 H3 _. pose proof (changed_trans t _ _ _ _ _ Hf H3) as H13.
  wp_step. unfold wp at 1, fd_world, on_pipes, on_world.
  pose proof (law_detach p (world (pipes s3))) as Hlaw.
  destruct (process64_detach_fd p (world (pipes s3))) as [u w']. destruct Hlaw as [Hoth Hp].
  cbn [fst snd]. set (s4 := s3 <| pipes := _ |>). rewrite (proj2 (Nat.ltb_lt _ _) Ht).
  wp_step. apply wp_update_table. intros s5 H5 _. unfold set_table_used. wp_step. wp_step.
  destruct Hu as (U1 & U2 & U3 & U4). destruct H13 as [A1 A2 A3 A4], H5 as [B1 B2 B3 B4].
  assert (Hatt : forall q, q <> p -> att s5 q = att s q).
  { intros q Hq. rewrite B4, <- U4, <- A4. unfold att, s4. simpl. by apply Hoth. }
  assert (Hattp : att s5 p = None) by (rewrite B4; exact Hp).
  assert (Htabs : g_fd64_tables s5 = alter (fun _ => fd64_clear_table) t (g_fd64_tables s)).
  { rewrite B1. change (g_fd64_tables s4) with (g_fd64_tables s3). by rewrite A1, alter_twice, U1. }
  assert (Hused : g_fd64_table_used s5 = g_fd64_table_used s).
  { rewrite B2. change (g_fd64_table_used s4) with (g_fd64_table_used s3). congruence. }
  split.
  - constructor; simpl.
    + rewrite B3. change (g_fd64_initialized s3 <> 0). rewrite A3, U3. apply Hi.
    + rewrite Htabs, length_alter. apply Hi.
    + rewrite Hused, length_insert. apply Hi.
    + rewrite Htabs. intros t' tb (x & Hx & ->)%lookup_alter_Some. case_decide; [apply clear_table_ok|exact (fi_tables _ Hi _ _ Hx)].
    + intros q t' Hq. change (att s5 q = Some t') in Hq. destruct (decide (q = p)) as [->|Hne]; [congruence|].
      rewrite Hatt in Hq by done. destruct (fi_att _ Hi _ _ Hq) as (Hpid & v & Hv & Hv0).
      assert (t' <> t). { intros ->. destruct (fi_att _ Hi _ _ Ha) as [Hpid' _]. congruence. }
      unfold table_at. simpl. rewrite Htabs, list_lookup_alter_ne by done. split; [done|].
      exists v. rewrite Hused, list_lookup_insert_ne by done. done.
  - split_and!; try done.
    + unfold table_at. simpl. rewrite Htabs, list_lookup_alter_eq.
      destruct (lookup_lt_is_Some_2 (g_fd64_tables s) t) as [x Hx]; [by rewrite (fi_length _ Hi)|]. by rewrite Hx.
    + simpl. by rewrite Hused.
    + intros t' Hne. unfold table_at. simpl. by rewrite Htabs, list_lookup_alter_ne.
Qed.

Lemma release_keeps p : preserves fd_inv (fd64_release_process p).
Proof. intros s Hi. eapply wp_mono; [by apply release_effect|]. by intros r s' [? _]. Qed.

Lemma claim_keeps p owner : preserves fd_inv (fd64_claim_table p owner).
Proof. intros s Hi. eapply wp_mono; [by apply claim_effect|]. by intros r s' [? _]. Qed.
Hint Resolve release_keeps claim_keeps : kernel.

Lemma init_process_keeps p owner a b c : preserves fd_inv (fd64_init_process p owner a b c).
Proof. unfold fd64_init_process. preserves_auto; by apply install_keeps. Qed.

(** *** Pipes *)

Lemma alloc_nonneg p h ty fl s :
  fd_inv s -> wp (fd64_alloc p h ty fl) (fun r s' => fd_inv s' /\ 0 <= r) s.
Proof.
  intros Hi. eapply wp_mono; [by apply alloc_effect|]. intros r s' [Hi' H]. split; [done|].
  destruct (att s p); [|by destruct H as [-> _]].
  destruct H as [[-> _]|(i & -> & _)]; [done|lia].
Qed.

Lemma abandon_keeps i : preserves fd_inv (abandon_create i).
Proof. unfold abandon_create. preserves_auto. Qed.
Hint Resolve abandon_keeps : kernel.

Lemma pipe_create_keeps p fl : preserves fd_inv (pipe64_create_flags p fl).
Proof.
  unfold pipe64_create_flags. repeat lazymatch goal with
  | |- preserves _ (bind (fd64_alloc _ _ _ _) _) =>
      eapply preserves_bind_post; [intros ? ?; by apply alloc_nonneg|intros ? ?]
  | _ => preserves_step
  end; eauto with kernel.
Qed.

Lemma entry_query_keeps d f p n : preserves fd_inv (entry_query d f p n).
Proof. unfold entry_query. preserves_auto. Qed.

Lemma grant_fd_keeps sp sf tp req h ty : 0 <= req -> preserves fd_inv (grant_fd sp sf tp req h ty).
Proof. intros Hr. unfold grant_fd, fd64_entry_flags. pose proof entry_query_keeps. preserves_auto. Qed.
Hint Resolve entry_query_keeps grant_fd_keeps : kernel.

Lemma grant_keeps sp sf tp req : 0 <= req -> preserves fd_inv (pipe64_grant_endpoint_inner sp sf tp req).
Proof.
  intros Hr. unfold pipe64_grant_endpoint_inner, fd64_entry_capability, fd64_entry_type. cbv zeta. preserves_auto.
Qed.

Lemma grant_at_keeps sp sf tp tf : 0 <= tf -> preserves fd_inv (pipe64_grant_endpoint_at sp sf tp tf).
Proof. intros Hr. unfold pipe64_grant_endpoint_at. preserves_auto. by apply grant_keeps. Qed.

(** *** Fork *)

Lemma counters_keep (g : fd_state W -> fd_state W) :
  (forall s, untouched s (g s)) -> preserves fd_inv (modify g).
Proof. intros Hg s Hi. exact (inv_untouched _ _ Hi (Hg s)). Qed.

Lemma fork_capability_keeps e po co : preserves fd_inv (fd64_fork_copy_capability e po co).
Proof. unfold fd64_fork_copy_capability. preserves_auto. Qed.
Hint Resolve fork_capability_keeps : kernel.

Lemma fork_body_keeps pp cp pt ct po co i n : preserves fd_inv (fork_body pp cp pt ct po co i n).
Proof.
  unfold fork_body, set_stage, count_fork_denial, copy_offset.
  repeat (preserves_step || (apply counters_keep; intros; by split_and!)); eauto with kernel.
  - apply grant_at_keeps. lia.
  - apply install_keeps. lia.
Qed.

Lemma fork_keeps pp cp : preserves fd_inv (fd64_fork_process pp cp).
Proof.
  assert (Hloop : forall body ixs n, (forall i m, preserves fd_inv (body i m)) ->
    preserves fd_inv (fork_loop (W := W) body ixs n)).
  { intros body ixs. induction ixs as [|i ixs IH]; intros n Hb; simpl; preserves_auto. }
  unfold fd64_fork_process, set_stage, count_fork_denial.
  repeat (preserves_step || (apply counters_keep; intros; by split_and!)); eauto with kernel.
  repeat case_match;
    repeat (preserves_step || (apply counters_keep; intros; by split_and!)); eauto with kernel.
  all: apply Hloop; intros; apply fork_body_keeps.
Qed.

(** The boot state: the first call that reaches [fd64_init] establishes the
    invariant. *)
Lemma fd_boot s :
  g_fd64_initialized s = 0 -> length (g_fd64_tables s) = FD64_MAX_PROCESS_TABLES ->
  length (g_fd64_table_used s) = FD64_MAX_PROCESS_TABLES -> (forall p, att s p = None) ->
  fd_inv (snd (fd64_init s)).
Proof.
  intros H0 Hl Hu Ha. unfold fd64_init, bind, gets. cbn [fst snd]. rewrite H0. simpl.
  constructor; simpl.
  - done.
  - by rewrite length_fmap.
  - by rewrite length_fmap.
  - intros t tb. rewrite list_lookup_fmap. intros (x & _ & ->)%fmap_Some. apply clear_table_ok.
  - intros p t Hp. change (att s p = Some t) in Hp. congruence.
Qed.

End ops.
End FdOps.
