(* ===== verification/Demo.v ===== *)
(** * A small concrete kernel

    An instance of the interfaces of Pipe.v and Fd.v, for running the models
    on concrete inputs: processes with principals, one descriptor-table slot
    each, and a run queue of tasks.  Capability and file calls succeed with
    fixed answers. *)

From S2P Require Import Prelude Services64 Process PersonaBudget Pipe Fd FdFacts.
Import PersonaBudget Pipe Fd FdFacts.
Local Open Scope Z_scope.

Module Demo.

Definition TASK_READY : Z := 1.
Definition TASK_BLOCKED : Z := 4.

Record world_t := mk_world {
  principals : gmap Z Z;
  table_slot : gmap Z nat;
  task_pids : gmap Z Z;
  task_states : gmap Z Z;
  current : Z }.

#[export] Instance eta_world : Eta world_t := {| eta w :=
  mk_world (principals w) (table_slot w) (task_pids w) (task_states w) (current w) |}.

Definition set_state (task st : Z) (w : world_t) : world_t :=
  w <| task_states := <[task := st]> (task_states w) |>.

Definition constant {A} (a : A) : ST world_t A := fun w => (a, w).

#[export] Instance demo_pipes : PipeWorld world_t := {|
  process64_principal p w := default 0 (principals w !! p);
  scheduler64_runqueue_current_task_id w := current w;
  scheduler64_runqueue_task_state task w := default 0 (task_states w !! task);
  scheduler64_runqueue_task_pid task w := default PROCESS64_INVALID_PID (task_pids w !! task);
  scheduler64_runqueue_block_task task w :=
    if default 0 (task_states w !! task) =? SCHEDULER64_TASK_RUNNING
    then (1, set_state task TASK_BLOCKED w) else (0, w);
  scheduler64_runqueue_wake_task_replay task w :=
    if default 0 (task_states w !! task) =? TASK_BLOCKED
    then (1, set_state task TASK_READY w) else (0, w);
|}.

#[export] Instance demo_fds : FdWorld world_t := {|
  process64_fd_table p w := table_slot w !! p;
  process64_attach_fd p t w :=
    match principals w !! p, table_slot w !! p with
    | Some _, None => (1, w <| table_slot := <[p := t]> (table_slot w) |>)
    | _, _ => (0, w)
    end;
  process64_detach_fd p w := (tt, w <| table_slot := delete p (table_slot w) |>);
  capability64_revoke _ _ := constant 1;
  capability64_target_endpoint _ _ :=
    constant (Services64.services64_resolve_endpoint_class Services64.SERVICE_ENDPOINT_CLASS_CONSOLE);
  capability64_rights _ _ := constant 1;
  capability64_grant_service _ _ owner := constant (0x64000000 + owner);
  linux_vfs64_device_type_from_handle _ := 0;
  fs64_open_kernel _ path _ := constant (0x65000000 + Z.of_nat (length path));
  fs64_read_kernel _ _ n _ := constant (n, replicate (Z.to_nat n) 0);
  fs64_write_kernel _ data _ _ := constant (Z.of_nat (length data));
  fs64_revoke _ _ := constant 1;
  console64_write_kernel _ data _ := constant (Z.of_nat (length data));
|}.

#[export] Instance demo_laws : FdLaws world_t.
Proof.
  split; try (intros; intros w p; done).
  - intros task w p. simpl. by case_match.
  - intros task w p. simpl. by case_match.
  - intros p t w. simpl. destruct (principals w !! p); [|by split].
    destruct (table_slot w !! p) eqn:E; [by split|]. split; simpl.
    + intros q Hq. by rewrite lookup_insert_ne.
    + by rewrite lookup_insert_eq.
  - intros p w. simpl. split.
    + intros q Hq. by rewrite lookup_delete_ne.
    + by rewrite lookup_delete_eq.
Qed.

(** Processes 1 and 2 run as principals 11 and 12; tasks 101 and 103 belong
    to the first, task 102 to the second, and task [t] is on the processor. *)
Definition two_processes (t : Z) : world_t :=
  mk_world {[1 := 11; 2 := 12]} ∅ {[101 := 1; 102 := 2; 103 := 1]}
    {[101 := SCHEDULER64_TASK_RUNNING; 102 := SCHEDULER64_TASK_RUNNING;
      103 := SCHEDULER64_TASK_RUNNING]} t.

Definition boot_pipes (ps : persona_state) (w : world_t) : pipe_state world_t :=
  snd (pipe64_init (mk_pipe_state (replicate PIPE64_MAX_OBJECTS (cleared 0)) 0 0 0 0 0 ps w)).

Definition no_personas : persona_state := mk_persona_state ∅ 0.

(** Let another task run. *)
Definition dispatch (t : Z) (w : world_t) : world_t := w <| current := t |>.

End Demo.
