(* ===== verification/PipeTheorems.v ===== *)
(** * Theorems about pipes

    The table of pipes implements byte queues; what a write returns and whom
    it wakes; when an end's last reference tears the pipe down; how handles
    encode their target, and where the encoding gives out. *)

From S2P Require Import Prelude Process PersonaBudget Pipe PipeFacts PipeIO Fd FdFacts Demo.
Import PersonaBudget Pipe PipeFacts PipeIO.
Local Open Scope Z_scope.

Module PipeTheorems.

#[local] Opaque PIPE64_SPIN_WAIT_LIMIT.

(** ** Scripts of transfers *)

Inductive io :=
| IoWrite (h : Z) (data : list Z) (owner : Z)
| IoRead (h n owner : Z).

(** Counts are [u32] values. *)
Definition io_ok (op : io) : Prop :=
  match op with
  | IoWrite _ data _ => Z.of_nat (length data) < 2 ^ 32
  | IoRead _ n _ => 0 <= n < 2 ^ 32
  end.

Definition result := (Z * list Z)%type.

(** The bytes an operation put into pipe [j], and took out of it. *)
Definition sent (j : nat) (step : io * result) : list Z :=
  match step with
  | (IoWrite h data _, (r, _)) => if decide (target h = j) then take (accepted r) data else []
  | _ => []
  end.
Definition received (j : nat) (step : io * result) : list Z :=
  match step with
  | (IoRead h _ _, (_, out)) => if decide (target h = j) then out else []
  | _ => []
  end.

Section theorems.
Context {W : Type} {pw : PipeWorld W}.
Implicit Types (s : pipe_state W) (p : pipe64_buffer_t).

Definition run_io (op : io) : ST (pipe_state W) result :=
  match op with
  | IoWrite h data owner => bind (pipe64_write h data owner) (fun r => ret (r, []))
  | IoRead h n owner => pipe64_read h n owner
  end.

Fixpoint run_script (ops : list io) : ST (pipe_state W) (list (io * result)) :=
  match ops with
  | [] => ret []
  | op :: ops' => bind (run_io op) (fun r => bind (run_script ops') (fun rs => ret ((op, r) :: rs)))
  end.

Lemma run_io_effect op s :
  ready s -> io_ok op ->
  wp (run_io op) (fun r s' => ready s' /\ forall j,
    queue (pipe_at s j) ++ sent j (op, r) = received j (op, r) ++ queue (pipe_at s' j)) s.
Proof.
  intros Hr Hok. destruct op as [h data owner|h n owner]; simpl in *.
  - wp_step. eapply wp_mono; [by apply write_effect|]. intros r s' (Hr' & Hq & Hq' & Ho). wp_step.
    split; [done|]. intros j. simpl. case_decide; [subst j; by rewrite Hq'|].
    rewrite app_nil_r. symmetry. by apply Ho.
  - eapply wp_mono; [apply read_effect; [done|lia]|]. intros [r out] s' (Hr' & Hlen & q' & Hq & Hq' & Ho).
    split; [done|]. intros j. simpl in *. rewrite app_nil_r. case_decide; [subst j; by rewrite Hq, Hq'|].
    symmetry. by apply Ho.
Qed.

(** C5: a pipe is a FIFO byte stream.  Over any script of reads and writes,
    with any handles and owners, the bytes pipe [j] held at the start
    followed by the bytes it accepted are the bytes it delivered followed by
    the bytes it holds at the end, in this order; and the table stays well
    formed. *)
Theorem pipe_io_fifo (ops : list io) (s : pipe_state W) (j : nat) :
  ready s -> Forall io_ok ops ->
  let tr := fst (run_script ops s) in
  let s' := snd (run_script ops s) in
  ready s' /\
  queue (pipe_at s j) ++ concat (sent j <$> tr) = concat (received j <$> tr) ++ queue (pipe_at s' j).
Proof.
  intros Hr Hok. revert s Hr. induction Hok as [|op ops Hop _ IH]; intros s Hr.
  { simpl. by rewrite app_nil_r. }
  destruct (run_io_effect op s Hr Hop) as [Hr1 Hj]. specialize (Hj j).
  destruct (IH _ Hr1) as [Hr2 Hrest]. cbn [run_script]. unfold bind, ret. cbn [fst snd].
  split; [done|]. rewrite !fmap_cons. cbn [concat].
  by rewrite app_assoc, Hj, <- !app_assoc, Hrest.
Qed.

(** ** One write *)

Lemma wake_clears sl i s :
  slot_of sl -> (i < length (g_pipe64_objects s))%nat ->
  get_task sl (pipe_at (snd (pipe64_wake_blocked_task sl i s)) i) = SCHEDULER64_INVALID_TASK.
Proof.
  intros Hsl Hi. unfold pipe64_wake_blocked_task, bind, gets. cbn [fst snd].
  destruct (Z.eqb_spec (get_task sl (pipe_at s i)) SCHEDULER64_INVALID_TASK) as [E|E]; [done|].
  rewrite update_pipe_run. cbn [fst snd]. unfold on_world. destruct (scheduler64_runqueue_wake_task_replay _ _) as [ok w].
  assert (H : forall s0, g_pipe64_objects s0 = g_pipe64_objects (upd i (set_task sl SCHEDULER64_INVALID_TASK) s) ->
    get_task sl (pipe_at s0 i) = SCHEDULER64_INVALID_TASK).
  { intros s0 H0. unfold pipe_at. rewrite H0. fold (pipe_at (upd i (set_task sl SCHEDULER64_INVALID_TASK) s) i).
    rewrite pipe_at_upd by done. by destruct Hsl as [-> | ->]. }
  cbn [fst snd]. destruct (ok =? 0); apply H; done.
Qed.

Lemma put_bytes_reader data p : blocked_reader_task_id (put_bytes data p) = blocked_reader_task_id p.
Proof. revert p. induction data as [|b data IH]; intros p; simpl; [done|]. by rewrite IH. Qed.

Lemma write_enters h data owner s i :
  ready s -> resolve h owner s = Some i -> pipe64_handle_kind h = PIPE64_HANDLE_KIND_WRITE ->
  writer_closed (pipe_at s i) = 0 -> reader_closed (pipe_at s i) = 0 -> data <> [] ->
  pipe64_write h data owner s = write_loop i owner data 0 s.
Proof.
  intros Hr E Hk Hw Hrd Hd. unfold pipe64_write. destruct data as [|b data]; [done|].
  unfold bind at 1. rewrite (find_run h owner s) by apply Hr. rewrite E. cbn [fst snd].
  unfold bind at 1, gets. cbn [fst snd]. by rewrite Hk, Hw, Hrd.
Qed.

(** what a write to an open pipe does.  A write that fits is taken whole
    and wakes the blocked reader; one that does not fit is taken up to the
    free space, its length returned, and nobody is woken; a full pipe takes
    nothing and the caller is blocked or refused. *)
Theorem pipe_write_outcome (h owner : Z) (data : list Z) (s : pipe_state W) (i : nat) :
  ready s -> resolve h owner s = Some i -> pipe64_handle_kind h = PIPE64_HANDLE_KIND_WRITE ->
  writer_closed (pipe_at s i) = 0 -> reader_closed (pipe_at s i) = 0 ->
  data <> [] -> Z.of_nat (length data) < 2 ^ 32 ->
  let p := pipe_at s i in
  let r := fst (pipe64_write h data owner s) in
  let p' := pipe_at (snd (pipe64_write h data owner s)) i in
  ((length data <= room p)%nat -> r = Z.of_nat (length data) /\ queue p' = queue p ++ data
     /\ blocked_reader_task_id p' = SCHEDULER64_INVALID_TASK) /\
  ((0 < room p < length data)%nat -> r = Z.of_nat (room p) /\ queue p' = queue p ++ take (room p) data
     /\ length (queue p') = Z.to_nat PIPE64_BUFFER_BYTES
     /\ blocked_reader_task_id p' = blocked_reader_task_id p) /\
  (room p = 0%nat -> (r = PIPE64_IO_BLOCKED \/ r = PIPE64_IO_ERROR) /\ queue p' = queue p).
Proof.
  intros Hr E Hk Hw Hrd Hd Hlen p. rewrite (write_enters h data owner s i) by done.
  apply resolve_Some in E as (Hi & _ & Hl & _). pose proof (ready_at s i Hr Hi) as Ho.
  pose proof (oo_buffer _ _ Ho) as Hp. pose proof (queue_room _ Hp) as Hqr.
  assert (Hlt : (i < length (g_pipe64_objects s))%nat) by by rewrite (rd_length _ Hr).
  assert (Hd0 : (0 < length data)%nat) by (destruct data; simpl; [done|lia]).
  split_and!; intros Hroom; unfold p in *.
  - rewrite write_loop_fits by (done || lia). cbn [fst snd].
    destruct (put_bytes_ok data _ Hp Hroom) as (_ & Hq & _).
    split_and!; [lia| |by apply (wake_clears reader_slot); [left|rewrite length_upd]].
    rewrite (same_data_queue _ _ i (wake_same reader_slot i _ (or_introl eq_refl))).
    by rewrite pipe_at_upd.
  - rewrite write_loop_short by (done || unfold PIPE64_BUFFER_BYTES in *; lia). cbn [fst snd].
    rewrite pipe_at_upd by done.
    destruct (put_bytes_ok (take (room (pipe_at s i)) data) _ Hp) as (_ & Hq & _); [rewrite length_take; lia|].
    split_and!; [lia|done| |by rewrite put_bytes_reader].
    rewrite Hq, length_app, length_take, Nat.min_l by lia. done.
  - destruct (write_open i owner data s Hr Hi Hl Hd Hlen) as [_ Hcase]. rewrite decide_True in Hcase by done.
    destruct Hcase as [Hs Hc]. split; [done|]. by apply same_data_queue.
Qed.

(** ** A stranded reader *)

(** Every field but the buffer and its indices. *)
Lemma put_bytes_meta data p :
  (live (put_bytes data p), generation (put_bytes data p), read_handle (put_bytes data p),
   write_handle (put_bytes data p), writer_closed (put_bytes data p), reader_closed (put_bytes data p),
   blocked_writer_task_id (put_bytes data p))
  = (live p, generation p, read_handle p, write_handle p, writer_closed p, reader_closed p,
     blocked_writer_task_id p)
  /\ forall k o, pipe64_endpoint_owner_matches (put_bytes data p) k o = pipe64_endpoint_owner_matches p k o.
Proof.
  revert p. induction data as [|b data IH]; intros p; simpl; [done|].
  destruct (IH (put_byte b p)) as [H1 H2]. split; [by rewrite H1|]. intros. by rewrite H2.
Qed.

Lemma resolve_put h owner data s i :
  (i < length (g_pipe64_objects s))%nat -> resolve h owner s = Some i ->
  resolve h owner (upd i (put_bytes data) s) = Some i.
Proof.
  intros Hi E. pose proof E as E'. apply resolve_Some in E' as (_ & Hih & _). revert E. unfold resolve.
  rewrite <- Hih. rewrite pipe_at_upd by done. unfold handle_ok.
  destruct (put_bytes_meta data (pipe_at s i)) as [[= -> -> -> -> _ _ _] ->]. done.
Qed.

Lemma full_write_parks i owner b data s :
  (i < length (g_pipe64_objects s))%nat -> capacity (pipe_at s i) <= byte_count (pipe_at s i) ->
  blocked_writer_task_id (pipe_at s i) = SCHEDULER64_INVALID_TASK ->
  let t := pipe64_current_task_for_owner owner (world s) in
  t <> SCHEDULER64_INVALID_TASK -> fst (scheduler64_runqueue_block_task t (world s)) <> 0 ->
  exists s', write_loop i owner (b :: data) 0 s = (PIPE64_IO_BLOCKED, s')
    /\ pipe_at s' i = set_task writer_slot t (pipe_at s i).
Proof.
  intros Hi Hfull Hslot t Ht Hok. cbn [write_loop].
  assert (Hblock : exists s', pipe64_block_current_task owner writer_slot i s = (1, s')
    /\ pipe_at s' i = set_task writer_slot t (pipe_at s i)).
  { unfold pipe64_block_current_task, bind, gets. cbn [fst snd]. cbn [get_task writer_slot]. rewrite Hslot.
    rewrite Z.eqb_refl. cbn [negb]. fold t. rewrite (proj2 (Z.eqb_neq _ _) Ht). rewrite update_pipe_run.
    cbn [fst snd]. unfold on_world. change (world (upd i (set_task writer_slot t) s)) with (world s).
    destruct (scheduler64_runqueue_block_task t (world s)) as [ok w]. cbn [fst snd] in *.
    rewrite (proj2 (Z.eqb_neq _ _) Hok). eexists. split; [reflexivity|].
    rewrite <- (pipe_at_upd i (set_task writer_slot t) s) by done. done. }
  destruct Hblock as (s' & Hb & Hp). exists s'. split; [|done].
  Transparent PIPE64_SPIN_WAIT_LIMIT. unfold PIPE64_SPIN_WAIT_LIMIT. cbn [write_wait]. unfold bind, gets.
  cbn [fst snd]. rewrite (proj2 (Z.ltb_ge _ _) Hfull). cbn [negb Z.eqb]. by rewrite Hb.
Qed.

(** a reader can be stranded.  A reader is blocked on a pipe; a writer
    sends more than fits, so its call returns the part taken without waking
    the reader, and its next write finds the pipe full and blocks.  Then both
    tasks are parked on a full pipe, each waiting for the other. *)
Theorem pipe_oversized_write_strands_reader (h owner b t reader : Z) (data rest : list Z)
    (s : pipe_state W) (i : nat) :
  ready s -> resolve h owner s = Some i -> pipe64_handle_kind h = PIPE64_HANDLE_KIND_WRITE ->
  writer_closed (pipe_at s i) = 0 -> reader_closed (pipe_at s i) = 0 ->
  (0 < room (pipe_at s i) < length data)%nat -> Z.of_nat (length data) < 2 ^ 32 ->
  blocked_reader_task_id (pipe_at s i) = reader -> reader <> SCHEDULER64_INVALID_TASK ->
  blocked_writer_task_id (pipe_at s i) = SCHEDULER64_INVALID_TASK ->
  pipe64_current_task_for_owner owner (world s) = t -> t <> SCHEDULER64_INVALID_TASK ->
  fst (scheduler64_runqueue_block_task t (world s)) <> 0 ->
  let s1 := snd (pipe64_write h data owner s) in
  let s2 := snd (pipe64_write h (b :: rest) owner s1) in
  fst (pipe64_write h data owner s) = Z.of_nat (room (pipe_at s i)) /\
  fst (pipe64_write h (b :: rest) owner s1) = PIPE64_IO_BLOCKED /\
  blocked_reader_task_id (pipe_at s2 i) = reader /\ blocked_writer_task_id (pipe_at s2 i) = t /\
  byte_count (pipe_at s2 i) = capacity (pipe_at s2 i).
Proof.
  intros Hr E Hk Hw Hrd Hroom Hlen Hbr _ Hbw Ht Ht0 Hok.
  pose proof E as E'. apply resolve_Some in E' as (Hi & _ & Hl & _). pose proof (ready_at s i Hr Hi) as Ho.
  pose proof (oo_buffer _ _ Ho) as Hp. pose proof (queue_room _ Hp) as Hqr.
  assert (Hlt : (i < length (g_pipe64_objects s))%nat) by by rewrite (rd_length _ Hr).
  assert (Hd : data <> []) by (intros ->; simpl in *; lia).
  set (k := room (pipe_at s i)) in *. set (d := take k data).
  assert (Hw1 : pipe64_write h data owner s = (Z.of_nat k, upd i (put_bytes d) s)).
  { rewrite (write_enters h data owner s i), write_loop_short
      by (done || fold k; unfold PIPE64_BUFFER_BYTES in *; lia). fold k d. f_equal. }
  rewrite Hw1. cbn [fst snd]. set (s1 := upd i (put_bytes d) s).
  assert (Hat : pipe_at s1 i = put_bytes d (pipe_at s i)) by by apply pipe_at_upd.
  assert (Hdl : length d = k) by (unfold d; rewrite length_take; lia).
  destruct (put_bytes_ok d (pipe_at s i) Hp) as (Hp1 & _ & Hroom1); [fold k; lia|]. fold k in Hroom1.
  destruct (put_bytes_meta d (pipe_at s i)) as [[= M1 M2 M3 M4 M5 M6 M7] _].
  assert (Hr1 : ready s1) by (apply ready_upd; [done|]; apply object_ok_puts; [done|done|fold k; lia]).
  pose proof (po_capacity _ Hp1) as Hc. pose proof (po_count _ Hp1) as Hb. unfold room in Hroom1.
  rewrite (write_enters h (b :: rest) owner s1 i); try done; rewrite ?Hat, ?M5, ?M6; try done;
    [|by apply resolve_put].
  assert (Ht1 : pipe64_current_task_for_owner owner (world s1) = t) by exact Ht.
  destruct (full_write_parks i owner b rest s1) as (s2 & Hw2 & Hat2);
    [unfold s1; by rewrite length_upd|rewrite Hat; lia|by rewrite Hat, M7|by rewrite Ht1|by rewrite Ht1|].
  rewrite Hw2. cbn [fst snd]. rewrite Hat2, Hat, Ht1. simpl.
  rewrite put_bytes_reader. split_and!; try done. lia.
Qed.

(** ** Teardown *)

Lemma settle_read i p :
  object_ok i p -> live p <> 0 ->
  settle (close_read p) =
    if (read_ref_count p <=? 1) && (write_ref_count p =? 0) then cleared (generation p) else close_read p.
Proof.
  intros Ho Hl. pose proof (oo_readers _ _ Ho Hl) as Hr. pose proof (oo_writers _ _ Ho Hl) as Hw.
  destruct (oo_refs _ _ Ho) as [Hf _]. unfold settle, both_closed, close_read, drop_reader.
  destruct (Z.eqb_spec (read_ref_count p) 0) as [E|E]; simpl.
  - rewrite E in *. simpl in *. rewrite Hw. by destruct (write_ref_count p =? 0).
  - destruct (dec_nonzero _ Hf E) as [-> _]. unfold fits32 in Hf.
    destruct (Z.eqb_spec (read_ref_count p - 1) 0) as [E1|E1]; simpl.
    + rewrite (proj2 (Z.leb_le _ _)), Hw by lia. by destruct (write_ref_count p =? 0).
    + rewrite (proj2 (Z.leb_gt _ _)), Hr by lia. done.
Qed.

Lemma settle_write i p :
  object_ok i p -> live p <> 0 ->
  settle (close_write p) =
    if (write_ref_count p <=? 1) && (read_ref_count p =? 0) then cleared (generation p) else close_write p.
Proof.
  intros Ho Hl. pose proof (oo_readers _ _ Ho Hl) as Hr. pose proof (oo_writers _ _ Ho Hl) as Hw.
  destruct (oo_refs _ _ Ho) as [_ Hf]. unfold settle, both_closed, close_write, drop_writer.
  destruct (Z.eqb_spec (write_ref_count p) 0) as [E|E]; simpl.
  - rewrite E in *. simpl in *. rewrite Hr. by destruct (read_ref_count p =? 0).
  - destruct (dec_nonzero _ Hf E) as [-> _]. unfold fits32 in Hf.
    destruct (Z.eqb_spec (write_ref_count p - 1) 0) as [E1|E1]; simpl.
    + rewrite (proj2 (Z.leb_le _ _)), Hr by lia. by destruct (read_ref_count p =? 0).
    + rewrite (proj2 (Z.leb_gt _ _)), Hr, Hw by lia. by destruct (read_ref_count p =? 0).
Qed.

Lemma close_keeps_queue p :
  queue (close_read p) = queue p /\ queue (close_write p) = queue p
  /\ live (close_read p) = live p /\ live (close_write p) = live p.
Proof.
  unfold close_read, drop_reader, close_write, drop_writer. cbv zeta.
  split_and!; by repeat case_match.
Qed.

(** what revoking a handle does.  An unknown handle or a wrong owner
    changes nothing.  Otherwise that end loses a reference; the last one
    closes the end; when both ends are closed the object is cleared, its
    generation kept, and its creator's pipe budget refunded; no other pipe is
    touched. *)
Theorem pipe_revoke_outcome (h owner : Z) (s : pipe_state W) :
  ready s ->
  let r := fst (pipe64_revoke_handle h owner s) in
  let s' := snd (pipe64_revoke_handle h owner s) in
  ready s' /\
  match resolve h owner s with
  | None => r = 0 /\ same_data s s'
  | Some i =>
      let p := pipe_at s i in
      let last_reader := (pipe64_handle_kind h =? PIPE64_HANDLE_KIND_READ) && (read_ref_count p <=? 1) in
      let last_writer := (pipe64_handle_kind h =? PIPE64_HANDLE_KIND_WRITE) && (write_ref_count p <=? 1) in
      r = 1 /\
      (forall j, j <> i -> queue (pipe_at s' j) = queue (pipe_at s j)) /\
      if (last_reader && (write_ref_count p =? 0)) || (last_writer && (read_ref_count p =? 0))
      then untasked (pipe_at s' i) = cleared (generation p)
           /\ personas s' = snd (persona64_budget_release_pipe (owner_pid p) 1 (personas s))
      else queue (pipe_at s' i) = queue p /\ personas s' = personas s
           /\ live (pipe_at s' i) = live p
  end.
Proof.
  intros Hr. destruct (revoke_effect h owner s Hr) as [Hr' H]. cbv zeta. split; [done|].
  destruct (resolve h owner s) as [i|] eqn:E; [|done]. cbv zeta in H.
  pose proof (resolve_kind _ _ _ _ Hr E) as Hk. apply resolve_Some in E as (Hi & _ & Hl & _).
  pose proof (ready_at s i Hr Hi) as Ho. destruct H as (H1 & [Hat Hoth _ _] & Hps). split; [done|].
  split. { intros j Hj. by apply queue_untasked, Hoth. }
  unfold revoked in *. destruct (close_keeps_queue (pipe_at s i)) as (Q1 & Q2 & L1 & L2).
  assert (Hrefund : refunded (pipe_at s i) (personas s) =
    snd (persona64_budget_release_pipe (owner_pid (pipe_at s i)) 1 (personas s))).
  { unfold refunded. pose proof (oo_owner _ _ Ho Hl). by rewrite !(proj2 (Z.eqb_neq _ _)). }
  assert (Hq : forall q, untasked (pipe_at (snd (pipe64_revoke_handle h owner s)) i) = untasked q ->
    queue (pipe_at (snd (pipe64_revoke_handle h owner s)) i) = queue q
    /\ live (pipe_at (snd (pipe64_revoke_handle h owner s)) i) = live q).
  { intros q Heq. split; [by apply queue_untasked|].
    change (live (untasked (pipe_at (snd (pipe64_revoke_handle h owner s)) i)) = live (untasked q)). by rewrite Heq. }
  destruct Hk as [[_ Hk] | [_ Hk]]; rewrite Hk in *;
    cbn [Z.eqb PIPE64_HANDLE_KIND_READ PIPE64_HANDLE_KIND_WRITE Pos.eqb andb orb] in *;
    rewrite ?orb_false_r;
    [rewrite (settle_read i _ Ho Hl) in Hat, Hps|rewrite (settle_write i _ Ho Hl) in Hat, Hps];
    destruct (_ && _); try (split; [done|by rewrite Hps]); destruct (Hq _ Hat) as [-> ->];
    rewrite ?L1, ?L2, (proj2 (Z.eqb_neq _ _) Hl) in Hps; split_and!; congruence.
Qed.

(** ** Handles *)

(** a handle names its object.  For a generation of at most 12 bits, the
    index, the generation and the kind are recovered from the packed handle,
    the tag is the pipe tag, and the handle of a live object resolves to it
    for an owner of that end. *)
Theorem pipe_handle_roundtrip (i : nat) (g k owner : Z) (s : pipe_state W) :
  (i < PIPE64_MAX_OBJECTS)%nat -> 0 < g <= 0xFFF ->
  k = PIPE64_HANDLE_KIND_READ \/ k = PIPE64_HANDLE_KIND_WRITE ->
  ready s -> live (pipe_at s i) <> 0 -> generation (pipe_at s i) = g ->
  pipe64_endpoint_owner_matches (pipe_at s i) k owner = true ->
  let h := pipe64_make_handle (Z.of_nat i) g k in
  pipe64_handle_index h = Z.of_nat i /\ pipe64_handle_generation h = g /\ pipe64_handle_kind h = k
  /\ h <> PIPE64_INVALID_HANDLE /\ resolve h owner s = Some i.
Proof.
  intros Hi Hg Hk Hr Hl Hgen Hown h. destruct (handle_fields i g k Hi ltac:(lia) Hk) as (H1 & H2 & H3 & H4 & H5).
  fold h in H1, H2, H3, H4, H5. rewrite Z.mod_small in H2 by lia. split_and!; try done.
  pose proof (ready_at s i Hr Hi) as Ho. unfold resolve, handle_ok. rewrite H1, H2, H3, H4, Nat2Z.id, Hgen.
  rewrite Hown, !Z.eqb_refl, (proj2 (Z.eqb_neq _ _) Hl), (proj2 (Z.ltb_lt _ _)) by lia.
  assert (Ho0 : owner <> 0) by (intros ->; done).
  rewrite (proj2 (Z.eqb_neq _ _) Ho0). simpl.
  rewrite (oo_read_handle _ _ Ho Hl), (oo_write_handle _ _ Ho Hl), Hgen.
  destruct Hk as [-> | ->]; unfold h; by rewrite Z.eqb_refl, ?orb_true_r.
Qed.

(** a slot wears out.  Once the generation of a slot exceeds the 12 bits
    the handle carries, no handle resolves to it: the pipe opened there can
    be neither read, written nor closed, so the slot, and the budget charged
    for it, are never given back. *)
Theorem pipe_generation_exhausted (s : pipe_state W) (i : nat) :
  ready s -> (i < PIPE64_MAX_OBJECTS)%nat -> 0xFFF < generation (pipe_at s i) ->
  forall h owner,
    resolve h owner s <> Some i /\
    untasked (pipe_at (snd (pipe64_revoke_handle h owner s)) i) = untasked (pipe_at s i).
Proof.
  intros Hr Hi Hg h owner.
  assert (Hne : resolve h owner s <> Some i).
  { intros E. apply resolve_Some in E as (_ & _ & _ & Hgen & _). rewrite Hgen in Hg.
    enough (pipe64_handle_generation h <= 0xFFF) by lia. unfold pipe64_handle_generation.
    change PIPE64_HANDLE_GENERATION_MASK with (Z.shiftl (Z.ones 12) 8).
    change PIPE64_HANDLE_GENERATION_SHIFT with 8. rewrite Z.shiftr_land, Z.shiftr_shiftl_l by lia.
    change (Z.shiftl (Z.ones 12) (8 - 8)) with (Z.ones 12). rewrite Z.land_ones by lia.
    pose proof (Z.mod_pos_bound (Z.shiftr h 8) (2 ^ 12) ltac:(lia)). lia. }
  split; [done|]. destruct (revoke_effect h owner s Hr) as [_ H].
  destruct (resolve h owner s) as [j|].
  - destruct H as (_ & [_ Hoth _ _] & _). apply Hoth. congruence.
  - destruct H as [_ Hs]. by apply same_data_at.
Qed.

End theorems.

(** ** Concrete runs *)

Import Demo.

(** One open pipe, owned by principal 11 (process 1). *)
Definition start : pipe_state world_t :=
  upd 0 (fun _ => opened 0 2 1 11) (boot_pipes no_personas (two_processes 101)).
Definition rh : Z := 0x0F000200.
Definition wh : Z := 0x0F000201.

Lemma boot_pipes_ready ps w : ready (boot_pipes ps w).
Proof. apply boot_ready; [done|]. apply length_replicate. Qed.

Lemma start_ready : ready start.
Proof. apply ready_upd; [apply boot_pipes_ready|]. by apply object_ok_opened. Qed.

Lemma start_facts :
  resolve wh 11 start = Some 0%nat /\ writer_closed (pipe_at start 0) = 0
  /\ reader_closed (pipe_at start 0) = 0 /\ generation (pipe_at start 0) = 2
  /\ live (pipe_at start 0) = 1 /\ pipe64_endpoint_owner_matches (pipe_at start 0) 1 11 = true.
Proof. vm_compute. done. Qed.

Definition script : list io := [IoWrite wh [1; 2; 3] 11; IoRead rh 2 11; IoWrite wh [4] 11; IoRead rh 9 12].

Lemma script_ok : Forall io_ok script.
Proof. repeat constructor; simpl; lia. Qed.

Lemma script_runs : fst (run_script script start) =
  [(IoWrite wh [1; 2; 3] 11, (3, [])); (IoRead rh 2 11, (2, [1; 2])); (IoWrite wh [4] 11, (1, []));
   (IoRead rh 9 12, (PIPE64_IO_ERROR, []))].
Proof. vm_compute. reflexivity. Qed.

Lemma pipe_io_fifo_witness :
  let tr := fst (run_script script start) in
  let s' := snd (run_script script start) in
  ready s' /\ queue (pipe_at start 0) ++ concat (sent 0 <$> tr) = concat (received 0 <$> tr) ++ queue (pipe_at s' 0).
Proof. apply (pipe_io_fifo script start 0 start_ready script_ok). Defined.

Lemma pipe_write_outcome_witness :
  let r := fst (pipe64_write wh [1; 2; 3] 11 start) in
  let p' := pipe_at (snd (pipe64_write wh [1; 2; 3] 11 start)) 0 in
  r = 3 /\ queue p' = queue (pipe_at start 0) ++ [1; 2; 3]
     /\ blocked_reader_task_id p' = SCHEDULER64_INVALID_TASK.
Proof.
  destruct start_facts as (H1 & H2 & H3 & _).
  assert (Hroom : (length [1; 2; 3] <= room (pipe_at start 0))%nat).
  { apply Nat.leb_le. vm_compute. reflexivity. }
  assert (Hne : [1; 2; 3] <> []) by done. assert (Hlen : Z.of_nat (length [1; 2; 3]) < 2 ^ 32) by done.
  exact (proj1 (pipe_write_outcome wh 11 [1; 2; 3] start 0 start_ready H1 eq_refl H2 H3 Hne Hlen) Hroom).
Defined.

(** Task 101 blocks reading the empty pipe; task 103 of the same process
    takes over. *)
Definition parked : pipe_state world_t :=
  let s := snd (pipe64_read rh 1 11 start) in s <| world := dispatch 103 (world s) |>.
Definition long : list Z := replicate 5000 7.

Lemma long_length : length long = 5000%nat.
Proof. apply length_replicate. Qed.

Lemma parked_ready : ready parked.
Proof.
  unfold parked. eapply ready_same; [apply same_world|].
  apply (read_effect rh 1 11 start start_ready). lia.
Qed.

Lemma parked_facts :
  resolve wh 11 parked = Some 0%nat /\ writer_closed (pipe_at parked 0) = 0
  /\ reader_closed (pipe_at parked 0) = 0 /\ room (pipe_at parked 0) = 4096%nat
  /\ blocked_reader_task_id (pipe_at parked 0) = 101
  /\ blocked_writer_task_id (pipe_at parked 0) = SCHEDULER64_INVALID_TASK
  /\ pipe64_current_task_for_owner 11 (world parked) = 103
  /\ fst (scheduler64_runqueue_block_task 103 (world parked)) = 1.
Proof. vm_compute. done. Qed.

Lemma pipe_oversized_write_strands_reader_witness :
  let s1 := snd (pipe64_write wh long 11 parked) in
  let s2 := snd (pipe64_write wh [8] 11 s1) in
  fst (pipe64_write wh long 11 parked) = Z.of_nat (room (pipe_at parked 0)) /\
  fst (pipe64_write wh [8] 11 s1) = PIPE64_IO_BLOCKED /\
  blocked_reader_task_id (pipe_at s2 0) = 101 /\ blocked_writer_task_id (pipe_at s2 0) = 103 /\
  byte_count (pipe_at s2 0) = capacity (pipe_at s2 0).
Proof.
  destruct parked_facts as (H1 & H2 & H3 & H4 & H5 & H6 & H7 & H8).
  apply (pipe_oversized_write_strands_reader wh 11 8 103 101 long [] parked 0 parked_ready H1 eq_refl H2 H3);
    [rewrite long_length, H4; lia|rewrite long_length; lia|exact H5|done|exact H6|exact H7|done|rewrite H8; lia].
Defined.

Lemma pipe_revoke_outcome_witness :
  ready (snd (pipe64_revoke_handle wh 11 start)).
Proof. exact (proj1 (pipe_revoke_outcome wh 11 start start_ready)). Defined.

Lemma pipe_handle_roundtrip_witness : resolve (pipe64_make_handle 0 2 1) 11 start = Some 0%nat.
Proof.
  destruct start_facts as (_ & _ & _ & H4 & H5 & H6).
  refine (proj2 (proj2 (proj2 (proj2 (pipe_handle_roundtrip 0 2 1 11 start _ _ _ start_ready _ H4 H6)))));
    [unfold PIPE64_MAX_OBJECTS; lia|lia|by right|rewrite H5; lia].
Defined.

(** A slot reused 4095 times. *)
Definition worn : pipe_state world_t :=
  upd 0 (fun _ => opened 0 0x1000 1 11) (boot_pipes no_personas (two_processes 101)).

Lemma worn_ready : ready worn.
Proof. apply ready_upd; [apply boot_pipes_ready|]. by apply object_ok_opened. Qed.

Lemma worn_generation : generation (pipe_at worn 0) = 0x1000.
Proof. vm_compute. done. Qed.

Lemma pipe_generation_exhausted_witness : resolve (write_handle (pipe_at worn 0)) 11 worn <> Some 0%nat.
Proof.
  refine (proj1 (pipe_generation_exhausted worn 0 worn_ready _ _ _ _));
    [unfold PIPE64_MAX_OBJECTS; lia|rewrite worn_generation; lia].
Defined.

End PipeTheorems.
