(* ===== verification/FdTheorems.v ===== *)
(** * Theorems about descriptor tables

    Every call keeps the tables consistent, and duplicates and closes recount
    the aliases of their handle; what allocating, closing,
    duplicating and releasing do to the map from descriptors to handles;
    what creating a pipe installs; and two ways the bookkeeping of pipes
    goes wrong. *)

From S2P Require Import Prelude Services64 Process PersonaBudget Pipe PipeFacts PipeIO Fd FdFacts FdOps Demo.
Import PersonaBudget Pipe PipeFacts PipeIO Fd FdFacts FdOps.
Local Open Scope Z_scope.

Module FdTheorems.

Implicit Types (e : fd_entry_t) (tb : fd_table_t).

(** ** Calls *)

Inductive fd_call :=
| CAlloc (p h ty fl : Z) | CAllocAt (p n h ty fl : Z) | CClose (p n : Z)
| CDup (p old : Z) | CDupMin (p old min : Z) | CDup2 (p old new : Z) | CDup3 (p old new fl : Z)
| CSetFlags (p n fl : Z) | CCloseOnExec (p : Z)
| CInitProcess (p owner a b c : Z) | CRelease (p : Z) | CFork (parent child : Z)
| COpen (p : Z) (path : list Z) (fl : Z) | CRead (p n count : Z) | CWrite (p n : Z) (data : list Z)
| CReadAt (p n off count : Z) | CWriteAt (p n off : Z) (data : list Z)
| CPipe (p fl : Z) | CGrant (sp sf tp : Z) | CGrantAt (sp sf tp tf : Z)
| CUse (p n : Z) (bytes : option Z).

(** Descriptor arguments are unsigned. *)
Definition call_ok (c : fd_call) : Prop :=
  match c with
  | CAllocAt _ n _ _ _ | CClose _ n | CUse _ n _ => 0 <= n
  | CDup _ old | CDupMin _ old _ => 0 <= old
  | CDup2 _ old new | CDup3 _ old new _ => 0 <= old /\ 0 <= new
  | CGrantAt _ _ _ tf => 0 <= tf
  | _ => True
  end.

Section theorems.
Context {W : Type} {fw : FdWorld W} {laws : FdLaws W}.
Implicit Types (s : fd_state W).

Definition drop_result {A} (m : ST (fd_state W) A) : ST (fd_state W) unit := bind m (fun _ => ret tt).

Definition run_call (c : fd_call) : ST (fd_state W) unit :=
  match c with
  | CAlloc p h ty fl => drop_result (fd64_alloc p h ty fl)
  | CAllocAt p n h ty fl => drop_result (fd64_alloc_at p n h ty fl)
  | CClose p n => drop_result (fd64_close p n)
  | CDup p old => drop_result (fd64_dup p old)
  | CDupMin p old min => drop_result (fd64_dup_min p old min)
  | CDup2 p old new => drop_result (fd64_dup2 p old new)
  | CDup3 p old new fl => drop_result (fd64_dup3 p old new fl)
  | CSetFlags p n fl => drop_result (fd64_set_entry_flags p n fl)
  | CCloseOnExec p => drop_result (fd64_close_on_exec p)
  | CInitProcess p owner a b c => drop_result (fd64_init_process p owner a b c)
  | CRelease p => drop_result (fd64_release_process p)
  | CFork parent child => drop_result (fd64_fork_process parent child)
  | COpen p path fl => drop_result (fd64_open_ramfs p path fl)
  | CRead p n count => drop_result (fd64_read p n count)
  | CWrite p n data => drop_result (fd64_write p n data)
  | CReadAt p n off count => drop_result (fd64_read_at p n off count)
  | CWriteAt p n off data => drop_result (fd64_write_at p n off data)
  | CPipe p fl => drop_result (pipe64_create_flags p fl)
  | CGrant sp sf tp => drop_result (pipe64_grant_endpoint sp sf tp)
  | CGrantAt sp sf tp tf => drop_result (pipe64_grant_endpoint_at sp sf tp tf)
  | CUse p n bytes => use_entry p n bytes
  end.

Definition run_calls (cs : list fd_call) : ST (fd_state W) unit :=
  fold_right (fun c k => bind (run_call c) (fun _ => k)) (ret tt) cs.

Lemma call_keeps c : call_ok c -> preserves fd_inv (run_call c).
Proof.
  assert (Hd : forall A (m : ST (fd_state W) A), preserves fd_inv m -> preserves fd_inv (drop_result m)) by
    (intros; unfold drop_result; preserves_auto).
  destruct c; simpl; intros Hc; try apply Hd.
  - apply alloc_keeps.
  - by apply alloc_at_keeps.
  - by apply free_keeps.
  - by apply dup_keeps.
  - by apply dup_min_keeps.
  - destruct Hc. by apply dup2_keeps.
  - destruct Hc. by apply dup3_keeps.
  - apply set_entry_flags_keeps.
  - apply close_on_exec_keeps.
  - apply init_process_keeps.
  - apply release_keeps.
  - apply fork_keeps.
  - apply open_ramfs_keeps.
  - apply read_fd_keeps.
  - apply write_fd_keeps.
  - apply read_at_keeps.
  - apply write_at_keeps.
  - apply pipe_create_keeps.
  - by apply grant_keeps.
  - by apply grant_at_keeps.
  - by apply use_entry_keeps.
Qed.

Lemma run_calls_keep (cs : list fd_call) (s : fd_state W) :
  fd_inv s -> Forall call_ok cs -> fd_inv (snd (run_calls cs s)).
Proof.
  intros Hi Hok. revert s Hi. induction Hok as [|c cs Hc _ IH]; intros s Hi; [done|].
  simpl. unfold bind. apply IH. by apply call_keeps.
Qed.

(** What call [c] recounts, made in [s]: if it duplicates descriptor [old]
    of [p] to another one, or closes descriptor [n], and succeeds, the
    aliases left of that descriptor's handle. *)
Definition recounts (c : fd_call) (s : fd_state W) : Prop :=
  let ok p n (done : Prop) := forall t, att s p = Some t -> done -> recounted t (Z.to_nat n) s (snd (run_call c s)) in
  match c with
  | CDup p old => ok p old (fst (fd64_dup p old s) <> FD64_INVALID_FD)
  | CDupMin p old min => ok p old (fst (fd64_dup_min p old min s) <> FD64_INVALID_FD)
  | CDup2 p old new => ok p old (old <> new /\ fst (fd64_dup2 p old new s) <> FD64_INVALID_FD)
  | CDup3 p old new fl => ok p old (fst (fd64_dup3 p old new fl s) <> FD64_INVALID_FD)
  | CClose p n => ok p n (fst (fd64_close p n s) <> 0)
  | _ => True
  end.

Lemma call_recounts c s : fd_inv s -> call_ok c -> recounts c s.
Proof.
  intros Hi Hc.
  assert (Hrun : forall (m : ST (fd_state W) Z) (P : Z -> Prop) t n,
    wp m (recounts_if P t n s) s -> P (fst (m s)) -> recounted t n s (snd (drop_result m s))).
  { intros m P t n [_ H]. exact H. }
  destruct c; try exact I; simpl in Hc; intros t Ha; cbn [run_call].
  - intros Hr. eapply (Hrun _ (fun r => r <> 0)); [|exact Hr]. by apply (close_recounts p).
  - intros Hr. eapply (Hrun _ got); [|exact Hr]. by apply (dup_recounts p).
  - intros Hr. eapply (Hrun _ got); [|exact Hr]. by apply (dup_min_recounts p).
  - destruct Hc. intros [Hne Hr]. eapply (Hrun _ got); [|exact Hr]. by apply (dup2_recounts p).
  - destruct Hc. intros Hr. eapply (Hrun _ got); [|exact Hr]. by apply (dup3_recounts p).
Qed.

(** C7: descriptor tables stay consistent.  From a consistent state, after
    any sequence of calls, those that hold an entry across a read giving it
    back before they return: each of the sixteen tables counts exactly its
    active descriptors, every active descriptor sits at its own number and
    below the high-water mark with a reference count between one and the
    number of its aliases, free slots name nothing, and a process's table is
    marked used and carries that process's pid.  And every successful
    duplicate to another descriptor and every successful close of the
    sequence leaves the aliases of the handle it concerns with a reference
    count equal to their number. *)
Theorem fd_calls_keep_tables (cs : list fd_call) (s : fd_state W) :
  fd_inv s -> Forall call_ok cs ->
  fd_inv (snd (run_calls cs s)) /\
  forall before c after, cs = before ++ c :: after -> recounts c (snd (run_calls before s)).
Proof.
  intros Hi Hok. split; [by apply run_calls_keep|]. intros before c after ->.
  apply Forall_app in Hok as [Hb [Hc _]%Forall_cons]. by apply call_recounts; [apply run_calls_keep|].
Qed.

(** ** Allocation *)

Lemma view_find_free tb i :
  find_index free_slot (entries tb) = Some i ->
  view tb i = None /\ forall j, (j < i)%nat -> view tb j <> None.
Proof.
  intros (e & He & Hf & Hmin)%find_index_Some. unfold free_slot in *. boolify. split.
  - by rewrite (view_Some _ _ _ He), Hf.
  - intros j Hj. destruct (lookup_lt_is_Some_2 (entries tb) j) as [x Hx].
    { apply lookup_lt_Some in He. lia. }
    specialize (Hmin j x Hj Hx). boolify. rewrite (view_Some _ _ _ Hx), Hmin. discriminate.
Qed.

Lemma alloc_lowest (p h ty fl : Z) (s : fd_state W) (t : nat) :
  fd_inv s -> att s p = Some t ->
  let r := fst (fd64_alloc p h ty fl s) in
  let s' := snd (fd64_alloc p h ty fl s) in
  (forall t', t' <> t -> table_at s' t' = table_at s t') /\
  (r = FD64_INVALID_FD /\ (forall i, view (table_at s' t) i = view (table_at s t) i) \/
   exists n : nat, r = Z.of_nat n /\ (n < table_slots)%nat
     /\ view (table_at s t) n = None /\ (forall j, (j < n)%nat -> view (table_at s t) j <> None)
     /\ (forall i, view (table_at s' t) i =
           if decide (i = n) then Some (mk_named h ty fl 0) else view (table_at s t) i)).
Proof.
  intros Hi Ha. destruct (alloc_effect p h ty fl s Hi) as [Hi' H]. rewrite Ha in H. cbv zeta.
  assert (Hlt : (t < length (g_fd64_tables s))%nat) by (rewrite (fi_length _ Hi); exact (att_lt s p t Hi Ha)).
  destruct H as [[Hr Hc]|(i & Hr & Hf & Hh & Hty & Hc)]; split;
    try (intros t' Ht'; by apply (changed_other _ _ _ _ _ Hc)).
  - left. split; [done|]. intros i. by rewrite (changed_at _ _ _ _ Hc).
  - right. pose proof (table_at_ok s t Hi) as Hok. pose proof (find_index_lt _ _ _ Hf) as Hil.
    rewrite (to_length _ Hok) in Hil. destruct (view_find_free _ _ Hf) as [Hv Hmin].
    assert (Hlim : 0 <= Z.of_nat i < FD64_TABLE_LIMIT) by
      (change table_slots with 1024%nat in Hil; unfold FD64_TABLE_LIMIT; lia).
    destruct (installed_ok (table_at s t) (Z.of_nat i) h ty fl Hok Hlim) as [_ Hview]; [|done|done|].
    { rewrite Nat2Z.id. destruct (find_index_lookup _ _ _ Hf) as (e & He & Hfree).
      rewrite (entry_at_Some _ _ _ He). unfold free_slot in Hfree. by boolify. }
    exists i. split_and!; try done. intros j. rewrite (changed_at _ _ _ _ Hc), Hview, Nat2Z.id by done. done.
Qed.

(** allocation takes the lowest free descriptor.  Either the result is a
    descriptor below 1024 that was free while all smaller ones were in use,
    and it now names the handle with offset 0 while every other descriptor
    is as before; or the call fails and the map is unchanged.  No other
    process's table changes. *)
Theorem fd_alloc_lowest (p h ty fl : Z) (s : fd_state W) (t : nat) :
  fd_inv s -> att s p = Some t ->
  let r := fst (fd64_alloc p h ty fl s) in
  let s' := snd (fd64_alloc p h ty fl s) in
  (forall t', t' <> t -> table_at s' t' = table_at s t') /\
  (r = FD64_INVALID_FD /\ (forall i, view (table_at s' t) i = view (table_at s t) i) \/
   exists n : nat, r = Z.of_nat n /\ (n < table_slots)%nat
     /\ view (table_at s t) n = None /\ (forall j, (j < n)%nat -> view (table_at s t) j <> None)
     /\ (forall i, view (table_at s' t) i =
           if decide (i = n) then Some (mk_named h ty fl 0) else view (table_at s t) i)).
Proof. apply alloc_lowest. Qed.

(** ** Closing *)

Lemma count_two {A} (P : A -> bool) (l : list A) n x d :
  l !! n = Some x -> P x = true -> P d = false ->
  (1 < count_if P l)%nat <-> exists j y, j <> n /\ l !! j = Some y /\ P y = true.
Proof.
  intros Hn Hx Hd. pose proof (count_if_alter P l n x (fun _ => d) Hn) as Hc. rewrite Hx, Hd in Hc. simpl in Hc.
  split.
  - intros H. assert (Hpos : count_if P (alter (fun _ => d) n l) <> 0%nat) by lia.
    destruct (find_index P (alter (fun _ => d) n l)) as [j|] eqn:E.
    + apply find_index_lookup in E as (y & Hy & HP). apply lookup_alter_Some in Hy as (z & Hz & ->).
      case_decide; [congruence|]. exists j, z. auto.
    + rewrite find_index_None in E. by rewrite count_if_none in Hpos.
  - intros (j & y & Hj & Hy & HP).
    assert (Hy' : alter (fun _ => d) n l !! j = Some y) by by rewrite list_lookup_alter_ne.
    pose proof (count_if_pos P _ j y Hy' HP). lia.
Qed.

(** Another descriptor of the table for the same handle and type. *)
Definition other_alias tb (n : nat) (d : named_t) : Prop :=
  exists j d', j <> n /\ view tb j = Some d' /\ n_handle d' = n_handle d /\ n_type d' = n_type d.

Lemma aliases_other tb n :
  table_ok tb -> (n < table_slots)%nat -> fd64_entry_active (entry_at tb n) = true ->
  (1 < aliases tb (entry_at tb n))%nat <-> other_alias tb n (named (entry_at tb n)).
Proof.
  intros Ht Hn Ha. set (e := entry_at tb n) in *. unfold aliases, other_alias.
  rewrite (count_two _ _ n e (fd64_clear_entry 0)); [|by apply entry_at_lookup|by apply shares_self|done].
  split.
  - intros (j & y & Hj & Hy & Hs). exists j, (named y). rewrite (view_Some _ _ _ Hy), (shares_active _ _ _ Hs).
    apply shares_key in Hs as [H1 H2]. done.
  - intros (j & d' & Hj & Hv & H1 & H2). unfold view in Hv. destruct (entries tb !! j) as [y|] eqn:Hy; [|done].
    simpl in Hv. destruct (fd64_entry_active y) eqn:Hact; [|done]. injection Hv as <-. simpl in *.
    exists j, y. split_and!; [done|done|]. unfold shares. by rewrite Hact, H1, H2, !Z.eqb_refl.
Qed.

(** closing a descriptor.  A descriptor in use is removed from the map
    and the live count drops by one; if another descriptor of the table
    still names the same handle nothing is revoked, and if it was the last
    one the handle is revoked once, through its provider.  A descriptor not
    in use is refused and the map is unchanged. *)
Theorem fd_close_outcome (p n : Z) (s : fd_state W) (t : nat) :
  fd_inv s -> att s p = Some t -> 0 <= n ->
  let tb := table_at s t in
  let r := fst (fd64_close p n s) in
  let s' := snd (fd64_close p n s) in
  match view tb (Z.to_nat n) with
  | None => r = 0 /\ (forall i, view (table_at s' t) i = view tb i) /\ pipes s' = pipes s
  | Some d =>
      r = 1 /\ live_count (table_at s' t) = live_count tb - 1
      /\ (forall i, view (table_at s' t) i = if decide (i = Z.to_nat n) then None else view tb i)
      /\ (other_alias tb (Z.to_nat n) d -> pipes s' = pipes s)
      /\ (~ other_alias tb (Z.to_nat n) d ->
            pipes s' = pipes (snd (fd64_revoke_entry_capability t (Z.to_nat n) s)))
  end.
Proof.
  intros Hi Ha Hn tb. unfold fd64_close. pose proof (free_effect p n s t Hi Ha Hn) as H. cbv zeta in H.
  unfold wp in H. destruct H as [Hi' H]. fold tb in H. cbv zeta.
  set (s' := snd (fd64_free p n s)) in *. set (r := fst (fd64_free p n s)) in *.
  assert (Hlt : (t < length (g_fd64_tables s))%nat) by (rewrite (fi_length _ Hi); exact (att_lt s p t Hi Ha)).
  pose proof (table_at_ok s t Hi) as Hok. fold tb in Hok.
  destruct (Z.ltb_spec n FD64_TABLE_LIMIT) as [Hlim|Hlim]; cbn [andb] in H.
  2: { assert (Hv : view tb (Z.to_nat n) = None).
       { unfold view. rewrite lookup_ge_None_2; [done|]. rewrite (to_length _ Hok). unfold table_slots. lia. }
       rewrite Hv. destruct H as (-> & Hc & ->). split_and!; try done. intros i. by rewrite (changed_at _ _ _ _ Hc). }
  assert (Hs : (Z.to_nat n < table_slots)%nat) by (unfold table_slots; lia).
  rewrite (view_entry tb _ Hok Hs). destruct (fd64_entry_active (entry_at tb (Z.to_nat n))) eqn:Hact.
  2: { destruct H as (-> & Hc & ->). split_and!; try done. intros i. by rewrite (changed_at _ _ _ _ Hc). }
  destruct H as (-> & Hc & Hp). pose proof (changed_at _ _ _ _ Hc Hlt) as Hat. fold tb in Hat.
  destruct (closed_at_ok tb n Hok ltac:(lia) Hact) as (_ & _ & Hlc & Hv).
  pose proof (aliases_other tb _ Hok Hs Hact) as Hal.
  unfold closed_pipes in Hp. fold tb in Hp. split_and!; [done|by rewrite Hat|by rewrite Hat|..].
  - intros Ho%Hal. by rewrite (proj2 (Nat.ltb_lt _ _) Ho) in Hp.
  - intros Ho. rewrite (proj2 (Nat.ltb_ge _ _)) in Hp; [done|]. apply Nat.nlt_ge. by rewrite Hal.
Qed.

(** ** Duplicating *)

(** [dup2] makes an alias.  On success the new descriptor names exactly
    what the old one names, whatever it named before, every other descriptor
    is unchanged.  On failure the only
    possible change is that the new descriptor was closed. *)
Theorem fd_dup_aliases (p old new : Z) (s : fd_state W) (t : nat) :
  fd_inv s -> att s p = Some t -> 0 <= old -> 0 <= new ->
  let tb := table_at s t in
  let r := fst (fd64_dup2 p old new s) in
  let tb' := table_at (snd (fd64_dup2 p old new s)) t in
  table_ok tb' /\
  (r = FD64_INVALID_FD /\ (forall i, view tb' i = view tb i \/ i = Z.to_nat new /\ view tb' i = None) \/
   r = new /\ old < FD64_TABLE_LIMIT /\ new < FD64_TABLE_LIMIT /\ view tb (Z.to_nat old) <> None
   /\ view tb' (Z.to_nat old) = view tb (Z.to_nat old)
   /\ (forall i, view tb' i = if decide (i = Z.to_nat new) then view tb (Z.to_nat old) else view tb i)).
Proof.
  intros Hi Ha Ho Hn tb. unfold fd64_dup2, bind. rewrite table_for_process_run, Ha by done. cbn [fst snd].
  destruct (dup_into_effect p t old new s Hi Ha Ho Hn) as (Hi' & f & Hc & Hd). fold tb in Hd.
  assert (Hlt : (t < length (g_fd64_tables s))%nat) by (rewrite (fi_length _ Hi); exact (att_lt s p t Hi Ha)).
  cbv zeta. split; [by apply table_at_ok|]. rewrite (changed_at _ _ _ _ Hc Hlt). fold tb.
  pose proof (table_at_ok s t Hi) as Hok. fold tb in Hok.
  destruct Hd as [[Hr Hv]|(Hr & Hlo & Hln & Hact & Hv & _)]; [left; done|right].
  assert (Hso : (Z.to_nat old < table_slots)%nat) by (unfold table_slots; lia).
  split_and!; try done.
  - rewrite (view_entry tb _ Hok Hso), Hact. discriminate.
  - rewrite Hv. by case_decide; simplify_eq.
Qed.

(** releasing a process's table.  The call reports the number of
    descriptors that were open, detaches the process, returns the table to
    the pool empty, and leaves every other process's table alone. *)
Theorem fd_release_frees (p : Z) (s : fd_state W) (t : nat) :
  fd_inv s -> att s p = Some t ->
  let r := fst (fd64_release_process p s) in
  let s' := snd (fd64_release_process p s) in
  fd_inv s' /\ r = Z.of_nat (count_if fd64_entry_active (entries (table_at s t))) /\
  att s' p = None /\ (forall i, view (table_at s' t) i = None) /\
  g_fd64_table_used s' !! t = Some 0 /\
  (forall q t', q <> p -> att s q = Some t' -> att s' q = Some t' /\ table_at s' t' = table_at s t').
Proof.
  intros Hi Ha. destruct (release_effect p s Hi) as [Hi' H]. rewrite Ha in H. cbv zeta.
  destruct H as (Hr & Hp & Htb & Hu & Hatt & Hot). split_and!; try done.
  - rewrite Hr. apply (to_live _ (table_at_ok s t Hi)).
  - intros i. rewrite Htb. unfold view. destruct (entries fd64_clear_table !! i) as [e|] eqn:E; [|done].
    unfold fd64_clear_table in E. cbn [entries] in E. rewrite list_lookup_fmap in E.
    by apply fmap_Some in E as (k & _ & ->).
  - rewrite Hu, list_lookup_insert_eq; [done|]. rewrite (fi_used_length _ Hi). exact (att_lt s p t Hi Ha).
  - intros q t' Hq Hqt. split; [by rewrite Hatt|]. apply Hot. intros ->.
    destruct (fi_att _ Hi _ _ Hqt) as [E1 _], (fi_att _ Hi _ _ Ha) as [E2 _]. congruence.
Qed.

(** ** Creating a pipe *)

(** Allocation touches of the pipes only the personas' budget records. *)
Definition objects_are (o : list pipe64_buffer_t) (b : Z) (w : W) (s : fd_state W) : Prop :=
  g_pipe64_objects (pipes s) = o /\ g_pipe64_initialized (pipes s) = b /\ world (pipes s) = w.

Lemma alloc_objects o b w p h ty fl : preserves (objects_are o b w) (fd64_alloc p h ty fl).
Proof.
  assert (Hm : forall g : fd_state W -> fd_state W, (forall s, pipes (g s) = pipes s) ->
    preserves (objects_are o b w) (modify g)).
  { intros g Hg s Hs. unfold wp, objects_are in *. simpl. by rewrite Hg. }
  assert (Hp : forall A (m : ST persona_state A), preserves (objects_are o b w) (on_pipes (on_personas m))).
  { intros A m s Hs. unfold wp, on_pipes, on_personas. by destruct (m (personas (pipes s))). }
  unfold fd64_alloc, fd64_table_for_process, fd64_init, fd64_install_entry, table_deny, update_table.
  repeat (preserves_step || apply Hp || (apply Hm; done)).
Qed.

(** Two descriptors installed one after the other. *)
Definition pipe_installed (p fl rfd wfd : Z) (i t : nat) (s s' : fd_state W) : Prop :=
  let q := pipe_at (pipes s') i in
  let owner := process64_principal p (world (pipes s)) in
  att s p = Some t /\ (i < PIPE64_MAX_OBJECTS)%nat /\ live (pipe_at (pipes s) i) = 0 /\
  live q = 1 /\ queue q = [] /\ generation q = next_generation (generation (pipe_at (pipes s) i)) /\
  (read_owner_id q, write_owner_id q, read_ref_count q, write_ref_count q) = (owner, owner, 1, 1) /\
  read_fd q = rfd /\ write_fd q = wfd /\ rfd <> wfd /\
  (forall j, j <> i -> pipe_at (pipes s') j = pipe_at (pipes s) j) /\
  view (table_at s' t) (Z.to_nat rfd) = Some (mk_named (read_handle q) FD64_TYPE_PIPE_READ fl 0) /\
  view (table_at s' t) (Z.to_nat wfd) = Some (mk_named (write_handle q) FD64_TYPE_PIPE_WRITE fl 0) /\
  (forall n, n <> Z.to_nat rfd -> n <> Z.to_nat wfd -> view (table_at s' t) n = view (table_at s t) n).

(** An allocation that succeeds, as a fact about the view. *)
Lemma alloc_success p t h ty fl s :
  fd_inv s -> att s p = Some t ->
  wp (fd64_alloc p h ty fl) (fun r s' => r <> FD64_INVALID_FD ->
    fd_inv s' /\ att s' p = Some t /\ 0 <= r /\ objects_are (g_pipe64_objects (pipes s))
      (g_pipe64_initialized (pipes s)) (world (pipes s)) s'
    /\ view (table_at s t) (Z.to_nat r) = None
    /\ forall i, view (table_at s' t) i = if decide (i = Z.to_nat r) then Some (mk_named h ty fl 0)
                                          else view (table_at s t) i) s.
Proof.
  intros Hi Ha. pose proof (alloc_lowest p h ty fl s t Hi Ha) as Hlow. cbv zeta in Hlow.
  pose proof (alloc_objects _ _ _ p h ty fl s (conj eq_refl (conj eq_refl eq_refl))) as Hobj.
  destruct (alloc_effect p h ty fl s Hi) as [Hi' He]. rewrite Ha in He. unfold wp in *.
  destruct Hlow as [_ [[Hr _]|(n & Hr & _ & Hv & _ & Hview)]]; intros Hne; [done|].
  assert (Hatt : att (snd (fd64_alloc p h ty fl s)) p = Some t).
  { unfold att. destruct Hobj as (_ & _ & ->). exact Ha. }
  rewrite Hr, Nat2Z.id. split_and!; try done; lia.
Qed.

Lemma on_pipes_run {A} (m : ST (pipe_state W) A) s :
  on_pipes m s = (fst (m (pipes s)), s <| pipes := snd (m (pipes s)) |>).
Proof. unfold on_pipes. by destruct (m (pipes s)). Qed.

Lemma on_pipes_init s : ready (pipes s) -> on_pipes pipe64_init s = (tt, s).
Proof. intros Hr. rewrite on_pipes_run, init_done by apply Hr. by destruct s. Qed.

Lemma personas_step {A} (m : ST persona_state A) s :
  wp (on_pipes (on_personas m)) (fun _ s' => untouched s s' /\ objects_are (g_pipe64_objects (pipes s))
      (g_pipe64_initialized (pipes s)) (world (pipes s)) s') s.
Proof. unfold wp, on_pipes, on_personas. destruct (m (personas (pipes s))) as [a ps]. by split; split_and!. Qed.

Lemma ready_objects s s' :
  ready (pipes s) -> objects_are (g_pipe64_objects (pipes s)) (g_pipe64_initialized (pipes s)) (world (pipes s)) s' ->
  ready (pipes s').
Proof. intros [Hi Hl Ho] (E1 & E2 & _). constructor; [by rewrite E2|by rewrite E1|]. rewrite E1. exact Ho. Qed.

Lemma objects_at o b w s i :
  objects_are o b w s -> pipe_at (pipes s) i = default (cleared 0) (o !! i).
Proof. intros (<- & _). done. Qed.

(** Clearing a free object and opening it. *)
Definition open_pipes (i : nat) (p owner : Z) (ps : pipe_state W) : pipe_state W :=
  upd i (fun o => opened i (next_generation (generation o)) p owner)
    (ps <| personas := refunded (pipe_at ps i) (personas ps) |>).

Lemma open_run i p owner s :
  bind (on_pipes (pipe64_clear_object i)) (fun _ =>
    on_pipes (update_pipe i (fun o => opened i (next_generation (generation o)) p owner))) s
  = (tt, s <| pipes := open_pipes i p owner (pipes s) |>).
Proof.
  unfold bind. rewrite !on_pipes_run, clear_run. cbn [fst snd]. rewrite update_pipe_run. cbn [fst snd].
  f_equal. unfold open_pipes, upd. destruct s; simpl. do 2 f_equal. apply alter_twice.
Qed.

Lemma open_facts i p owner (ps : pipe_state W) :
  ready ps -> (i < PIPE64_MAX_OBJECTS)%nat -> p <> PROCESS64_INVALID_PID ->
  ready (open_pipes i p owner ps) /\ world (open_pipes i p owner ps) = world ps
  /\ pipe_at (open_pipes i p owner ps) i = opened i (next_generation (generation (pipe_at ps i))) p owner
  /\ forall j, j <> i -> pipe_at (open_pipes i p owner ps) j = pipe_at ps j.
Proof.
  intros Hr Hi Hp. unfold open_pipes. set (s0 := ps <| personas := _ |>).
  assert (Hr0 : ready s0) by by destruct Hr; constructor.
  assert (Hl0 : (i < length (g_pipe64_objects s0))%nat) by by rewrite (rd_length _ Hr0).
  pose proof (oo_generation _ _ (ready_at _ _ Hr0 Hi)) as Hg. split_and!.
  - apply ready_upd; [done|]. apply object_ok_opened; [|done]. by apply next_generation_ok.
  - done.
  - by rewrite pipe_at_upd.
  - intros j Hj. by rewrite pipe_at_upd_ne.
Qed.

(** A branch that gives up returns no descriptors. *)
Ltac gives_up :=
  unfold wp, abandon_create, bind, ret; cbn [fst snd]; discriminate.

(** The second half of [pipe64_create_flags]: descriptors and commit. *)
Lemma create_tail p fl i t o rfd wfd (P : fd_state W -> Prop) s :
  fd_inv s -> ready (pipes s) -> att s p = Some t -> (i < PIPE64_MAX_OBJECTS)%nat -> pipe_at (pipes s) i = o ->
  (forall s', fd_inv s' -> ready (pipes s') -> rfd <> wfd ->
     pipe_at (pipes s') i = o <| read_fd := rfd |> <| write_fd := wfd |> ->
     (forall j, j <> i -> pipe_at (pipes s') j = pipe_at (pipes s) j) ->
     view (table_at s' t) (Z.to_nat rfd) = Some (mk_named (read_handle o) FD64_TYPE_PIPE_READ fl 0) ->
     view (table_at s' t) (Z.to_nat wfd) = Some (mk_named (write_handle o) FD64_TYPE_PIPE_WRITE fl 0) ->
     (forall n, n <> Z.to_nat rfd -> n <> Z.to_nat wfd -> view (table_at s' t) n = view (table_at s t) n) ->
     P s') ->
  wp (bind (fd64_alloc p (read_handle o) FD64_TYPE_PIPE_READ fl) (fun rfd =>
        if rfd =? FD64_INVALID_FD then abandon_create i
        else bind (fd64_alloc p (write_handle o) FD64_TYPE_PIPE_WRITE fl) (fun wfd =>
          if wfd =? FD64_INVALID_FD then bind (fd64_free p rfd) (fun _ => abandon_create i)
          else bind (on_pipes (update_pipe i (fun o => o <| read_fd := rfd |> <| write_fd := wfd |>))) (fun _ =>
            bind (on_pipes (on_personas (persona64_budget_commit_pipe p 1))) (fun committed =>
            if committed =? 0
            then bind (fd64_free p wfd) (fun _ => bind (fd64_free p rfd) (fun _ => abandon_create i))
            else ret (Some (rfd, wfd)))))))
    (fun r s' => r = Some (rfd, wfd) -> P s') s.
Proof.
  intros Hi Hr Ha Hlt Ho HP. apply wp_bind. eapply wp_mono; [by apply alloc_success|]. intros r s1 H1.
  destruct (Z.eqb_spec r FD64_INVALID_FD) as [_|Hne]; [gives_up|].
  destruct (H1 Hne) as (Hi1 & Ha1 & Hr0 & Hobj1 & Hn1 & Hv1). clear H1 Hne.
  apply wp_bind. eapply wp_mono; [by apply alloc_success|]. intros w s2 H2.
  destruct (Z.eqb_spec w FD64_INVALID_FD) as [_|Hne]; [gives_up|].
  destruct (H2 Hne) as (Hi2 & Ha2 & Hw0 & Hobj2 & Hn2 & Hv2). clear H2 Hne.
  assert (Hr2 : ready (pipes s2)) by (eapply ready_objects; [|done]; by eapply ready_objects).
  assert (Hobj : forall j, pipe_at (pipes s2) j = pipe_at (pipes s) j).
  { intros j. rewrite (objects_at _ _ _ _ j Hobj2). destruct Hobj1 as (E1 & _). rewrite E1. done. }
  apply wp_bind. unfold wp at 1. rewrite on_pipes_run, update_pipe_run. cbn [fst snd].
  set (g := fun o : pipe64_buffer_t => _). set (s3 := s2 <| pipes := _ |>).
  assert (Hl2 : (i < length (g_pipe64_objects (pipes s2)))%nat) by by rewrite (rd_length _ Hr2).
  assert (Hok : object_ok i (g (pipe_at (pipes s2) i))).
  { pose proof (ready_at _ _ Hr2 Hlt) as [B1 B2 B3 B4 B5 B6 B7 B8 B9 B10]. constructor; try done.
    by apply (pipe_ok_meta (pipe_at (pipes s2) i)). }
  assert (Hr3 : ready (pipes s3)) by by apply ready_upd.
  apply wp_bind. eapply wp_mono; [apply personas_step|]. intros c s4 [Hu Hobj4].
  destruct (c =? 0); [gives_up|]. unfold wp, ret. cbn [fst snd]. intros [= -> ->].
  assert (Htab : table_at s4 t = table_at s2 t) by apply (untouched_at s3 s4 t Hu).
  assert (Hdiff : Z.to_nat rfd <> Z.to_nat wfd).
  { intros E. rewrite <- E, Hv1, decide_True in Hn2 by done. done. }
  apply HP; rewrite ?Htab.
  - eapply (inv_untouched s3); [|done]. by apply (inv_untouched s2).
  - by eapply ready_objects.
  - congruence.
  - rewrite (objects_at _ _ _ _ i Hobj4). change (pipe_at (upd i g (pipes s2)) i = o <| read_fd := rfd |> <| write_fd := wfd |>).
    rewrite pipe_at_upd, Hobj, Ho by done. done.
  - intros j Hj. rewrite (objects_at _ _ _ _ j Hobj4). change (pipe_at (upd i g (pipes s2)) j = pipe_at (pipes s) j).
    by rewrite pipe_at_upd_ne, Hobj.
  - rewrite Hv2, decide_False, Hv1, decide_True by done. done.
  - by rewrite Hv2, decide_True.
  - intros n Hn Hn'. by rewrite Hv2, decide_False, Hv1, decide_False.
Qed.

(** a successful [pipe] call.  It takes a free object, reopens it empty
    under the next generation with one reference per end and the caller's
    principal as owner, and installs two different descriptors that name its
    read and its write handle; no other pipe and no other descriptor
    changes, and pipes and tables stay well formed. *)
Theorem pipe_create_outcome (p fl rfd wfd : Z) (s : fd_state W) :
  fd_inv s -> ready (pipes s) -> fst (pipe64_create_flags p fl s) = Some (rfd, wfd) ->
  let s' := snd (pipe64_create_flags p fl s) in
  fd_inv s' /\ ready (pipes s') /\ exists i t, pipe_installed p fl rfd wfd i t s s'.
Proof.
  intros Hi Hr. cbv zeta.
  enough (H : wp (pipe64_create_flags p fl) (fun r s' => r = Some (rfd, wfd) ->
    fd_inv s' /\ ready (pipes s') /\ exists i t, pipe_installed p fl rfd wfd i t s s') s) by exact H.
  unfold pipe64_create_flags. apply wp_bind. unfold wp at 1. rewrite on_pipes_init by done. cbn [fst snd].
  apply wp_bind. destruct (Z.eqb_spec p PROCESS64_INVALID_PID) as [_|Hp]; [wp_step; gives_up|].
  unfold wp at 1. rewrite table_for_process_run by done. cbn [fst snd].
  destruct (att s p) as [t|] eqn:Ha; [|gives_up]. rewrite (bool_decide_eq_false_2 (Some t = None)) by done.
  cbn [orb]. wp_step; [gives_up|]. wp_step. wp_step. wp_step; [gives_up|].
  apply wp_bind. eapply wp_mono; [apply personas_step|]. intros b s1 [Hu Hobj]. wp_step; [gives_up|].
  pose proof (inv_untouched _ _ Hi Hu) as Hi1. pose proof (ready_objects _ _ Hr Hobj) as Hr1.
  assert (Ha1 : att s1 p = Some t) by (destruct Hu as (_ & _ & _ & ->); done).
  wp_step. wp_step. destruct (find_index _ _) as [i|] eqn:Ef; [|gives_up].
  destruct (find_index_lookup _ _ _ Ef) as (o & Hoi & Hfree). boolify.
  assert (Hlt : (i < PIPE64_MAX_OBJECTS)%nat) by (rewrite <- (rd_length _ Hr1); by eapply lookup_lt_Some).
  set (owner := process64_principal p (world (pipes s))).
  pose proof (open_run i p owner s1) as Hopen. unfold bind at 1 in Hopen.
  destruct (open_facts i p owner (pipes s1) Hr1 Hlt Hp) as (Hr2 & Hw2 & Hat2 & Hoth2).
  apply wp_bind. unfold wp at 1. apply wp_bind. unfold wp at 1. fold owner. rewrite Hopen. cbn [fst snd].
  set (s2 := s1 <| pipes := _ |>). wp_step. wp_step. wp_step; [gives_up|].
  assert (Hps : forall j, pipe_at (pipes s1) j = pipe_at (pipes s) j) by
    (intros j; by rewrite (objects_at _ _ _ _ j Hobj)).
  assert (Hu2 : untouched s1 s2) by (split_and!; try done; intros q; unfold att; simpl; by rewrite Hw2).
  assert (Ha2 : att s2 p = Some t) by (destruct Hu2 as (_ & _ & _ & Eatt); by rewrite Eatt).
  apply (create_tail p fl i t); [by apply (inv_untouched s1)|exact Hr2|done|done|done|].
  intros s' Hi' Hr' Hne Hat' Hoth' Hvr Hvw Hvo. split_and!; [done|done|]. exists i, t. unfold pipe_installed.
  change (pipe_at (pipes s2) i) with (pipe_at (open_pipes i p owner (pipes s1)) i) in *.
  rewrite Hat2, Hps in Hat', Hvr, Hvw. rewrite Hat'.
  rewrite (untouched_at _ _ t Hu2), (untouched_at _ _ t Hu) in Hvo.
  split; [exact Ha|]. split; [exact Hlt|]. split; [by rewrite <- Hps, (pipe_at_lookup _ _ _ Hoi)|].
  do 6 (split; [reflexivity|]). split; [exact Hne|]. 
  split; [|split; [rewrite Hvr; reflexivity|split; [rewrite Hvw; reflexivity|exact Hvo]]].
  - intros j Hj. rewrite Hoth' by done. change (pipe_at (open_pipes i p owner (pipes s1)) j = pipe_at (pipes s) j).
    by rewrite Hoth2, Hps.
Qed.

End theorems.

(** ** Concrete runs *)

Import Demo.

(** Two processes of principal 11, so that the second can be a fork of the
    first; [ps] holds the personas. *)
Definition forked_world : world_t :=
  mk_world {[1 := 11; 2 := 11]} ∅ {[101 := 1]} {[101 := SCHEDULER64_TASK_RUNNING]} 101.

Definition boot_fds (ps : persona_state) : fd_state world_t :=
  snd (fd64_init (mk_fd_state (replicate FD64_MAX_PROCESS_TABLES fd64_clear_table)
    (replicate FD64_MAX_PROCESS_TABLES 0) 0 0 0 0 0 0 0 0 0 0 (boot_pipes ps forked_world))).

Lemma boot_world ps w : world (boot_pipes ps w) = w.
Proof.
  unfold boot_pipes. set (s := mk_pipe_state _ _ _ _ _ _ _ _).
  assert (H : preserves (fun s : pipe_state world_t => world s = w) pipe64_init); [|by apply (H s)].
  assert (Hu : forall i f, preserves (fun s : pipe_state world_t => world s = w) (update_pipe i f)) by
    (intros i f x Hx; exact Hx).
  assert (Hp : forall A (m : ST persona_state A), preserves (fun s : pipe_state world_t => world s = w) (on_personas m)).
  { intros A m x Hx. unfold wp, on_personas. by destruct (m (personas x)). }
  unfold pipe64_init, pipe64_clear_object. preserves_auto. by intros x Hx.
Qed.

Lemma boot_fds_inv ps : fd_inv (boot_fds ps).
Proof.
  apply fd_boot; try (apply length_replicate); [done|].
  intros p. change (process64_fd_table p (world (boot_pipes ps forked_world)) = None).
  rewrite boot_world. apply lookup_empty.
Qed.

(** Process 1 with its three standard descriptors. *)
Definition setup : list fd_call := [CInitProcess 1 11 0x64000001 0x64000002 0x64000003].
Definition kernel : fd_state world_t := snd (run_calls setup (boot_fds no_personas)).

Lemma setup_ok : Forall call_ok setup.
Proof. by repeat constructor. Qed.

(** Duplicate the standard output, read through the standard input's entry
    and close the standard output: the duplicate is the one alias left. *)
Definition dup_script : list fd_call := [CDup 1 1; CUse 1 0 (Some 5); CClose 1 1].

Lemma fd_calls_keep_tables_witness :
  fd_inv (snd (run_calls (setup ++ dup_script) (boot_fds no_personas))) /\
  recounts (CDup 1 1) kernel /\ fst (fd64_dup 1 1 kernel) = 3.
Proof.
  destruct (fd_calls_keep_tables (setup ++ dup_script) _ (boot_fds_inv no_personas)) as [Hi Hr].
  { by repeat constructor. }
  split; [exact Hi|]. split; [|vm_compute; reflexivity].
  exact (Hr setup (CDup 1 1) [CUse 1 0 (Some 5); CClose 1 1] eq_refl).
Defined.

Lemma kernel_inv : fd_inv kernel.
Proof. apply (run_calls_keep setup _ (boot_fds_inv no_personas) setup_ok). Qed.

Lemma kernel_att : att kernel 1 = Some 0%nat.
Proof. vm_compute. reflexivity. Qed.

Lemma kernel_ready : ready (pipes kernel).
Proof.
  assert (Hobj : g_pipe64_objects (pipes kernel) = g_pipe64_objects (boot_pipes no_personas forked_world)) by
    (vm_compute; reflexivity).
  assert (Hini : g_pipe64_initialized (pipes kernel) = 1) by (vm_compute; reflexivity).
  pose proof (boot_ready (mk_pipe_state (replicate PIPE64_MAX_OBJECTS (cleared 0)) 0 0 0 0 0 no_personas forked_world)
    eq_refl (length_replicate _ _)) as [_ Hl Ho].
  constructor; [by rewrite Hini|by rewrite Hobj|]. rewrite Hobj. exact Ho.
Qed.

Lemma fd_alloc_lowest_witness :
  let r := fst (fd64_alloc 1 0x65000001 1 0 kernel) in
  let s' := snd (fd64_alloc 1 0x65000001 1 0 kernel) in
  (forall t', t' <> 0%nat -> table_at s' t' = table_at kernel t') /\
  (r = FD64_INVALID_FD /\ (forall i, view (table_at s' 0) i = view (table_at kernel 0) i) \/
   exists n : nat, r = Z.of_nat n /\ (n < table_slots)%nat
     /\ view (table_at kernel 0) n = None /\ (forall j, (j < n)%nat -> view (table_at kernel 0) j <> None)
     /\ (forall i, view (table_at s' 0) i =
           if decide (i = n) then Some (mk_named 0x65000001 1 0 0) else view (table_at kernel 0) i)).
Proof. exact (fd_alloc_lowest 1 0x65000001 1 0 kernel 0 kernel_inv kernel_att). Defined.

Lemma fd_close_outcome_witness :
  let tb := table_at kernel 0 in
  let r := fst (fd64_close 1 2 kernel) in
  let s' := snd (fd64_close 1 2 kernel) in
  match view tb (Z.to_nat 2) with
  | None => r = 0 /\ (forall i, view (table_at s' 0) i = view tb i) /\ pipes s' = pipes kernel
  | Some d =>
      r = 1 /\ live_count (table_at s' 0) = live_count tb - 1
      /\ (forall i, view (table_at s' 0) i = if decide (i = Z.to_nat 2) then None else view tb i)
      /\ (other_alias tb (Z.to_nat 2) d -> pipes s' = pipes kernel)
      /\ (~ other_alias tb (Z.to_nat 2) d ->
            pipes s' = pipes (snd (fd64_revoke_entry_capability 0 (Z.to_nat 2) kernel)))
  end.
Proof. refine (fd_close_outcome 1 2 kernel 0 kernel_inv kernel_att _). lia. Defined.

Lemma fd_dup_aliases_witness : table_ok (table_at (snd (fd64_dup2 1 2 7 kernel)) 0).
Proof. refine (proj1 (fd_dup_aliases 1 2 7 kernel 0 kernel_inv kernel_att _ _)); lia. Defined.

Lemma fd_release_frees_witness :
  fst (fd64_release_process 1 kernel) = Z.of_nat (count_if fd64_entry_active (entries (table_at kernel 0))).
Proof. exact (proj1 (proj2 (fd_release_frees 1 kernel 0 kernel_inv kernel_att))). Defined.

Lemma kernel_pipe : fst (pipe64_create_flags 1 0 kernel) = Some (3, 4).
Proof. vm_compute. reflexivity. Qed.

Lemma pipe_create_outcome_witness :
  exists i t, pipe_installed 1 0 3 4 i t kernel (snd (pipe64_create_flags 1 0 kernel)).
Proof. exact (proj2 (proj2 (pipe_create_outcome 1 0 3 4 kernel kernel_inv kernel_ready kernel_pipe))). Defined.

(** Open a pipe, duplicate its read end, fork, then close everything in both
    processes. *)
Definition leak_script : list fd_call :=
  setup ++ [CPipe 1 0; CDup 1 3; CFork 1 2; CRelease 2; CClose 1 3; CClose 1 5; CClose 1 4].

(** a forked duplicate leaks the pipe.  A process opens a pipe,
    duplicates one end and forks: the fork takes one pipe reference per
    duplicated descriptor, but closing duplicates gives back only one.  Once
    no process has a descriptor for the pipe any more, the pipe is still
    live, with one reader reference left. *)
Theorem fork_of_duplicate_leaks_pipe :
  let s := snd (run_calls leak_script (boot_fds no_personas)) in
  g_fd64_fork_copy_count s = 1 /\
  forallb (fun tb => forallb (fun e => negb (fd64_entry_active e) || (fd_type e =? FD64_TYPE_DEVICE))
                       (entries tb)) (g_fd64_tables s) = true /\
  fst (pipe64_live_count (pipes s)) = 1 /\ read_ref_count (pipe_at (pipes s) 0) = 1
  /\ write_ref_count (pipe_at (pipes s) 0) = 0.
Proof. vm_compute. done. Qed.

(** A persona for process 1 with room for six descriptors and two pipes. *)
Definition limited : persona_state :=
  mk_persona_state {[1 := mk_persona 0 6 2 0 0 0 0 0]} 0.

(** Open a pipe; fail to open a second for want of descriptors; close the
    standard descriptors and open two more. *)
Definition budget_script : list fd_call :=
  setup ++ [CPipe 1 0; CPipe 1 0; CClose 1 0; CClose 1 1; CClose 1 2; CPipe 1 0; CPipe 1 0].

(** a failed create refunds a pipe that was never charged.  With a budget
    of two pipes, a [pipe] call that fails for want of descriptors lowers the
    count of the pipe already open, after which the process holds three live
    pipes against its budget of two. *)
Theorem failed_create_exceeds_budget :
  let s := snd (run_calls budget_script (boot_fds limited)) in
  fst (pipe64_live_count (pipes s)) = 3
  /\ fst (persona64_pipe_budget 1 (personas (pipes s))) = 2
  /\ fst (persona64_pipe_count 1 (personas (pipes s))) = 2.
Proof. vm_compute. done. Qed.

End FdTheorems.
