(* ===== verification/Paging.v ===== *)
(** * Page tables: kernel/arch/x86_64/paging.c

    The page-table roots of processes and the user mappings of 4 KiB pages,
    in the root of a process or in the shared one.  Tables are frames of
    physical memory, 512 entries each, found at the address the code
    computes, so that two names of one frame are one frame.  The addresses
    of the static tables are the linker's ([PagingSymbols]); CR3 and EFER are
    fields of the state.  UEFI kernel configuration. *)

From S2P Require Import Prelude Principal Services64 Process.
Local Open Scope Z_scope.
Local Open Scope kernel_scope.

Module Paging.

Definition PAGING64_KERNEL_VIRTUAL_BASE : Z := 0xFFFFFFFF80000000.
Definition PAGING64_KERNEL_LINKED_OFFSET : Z := 0x10000.
Definition PAGING64_KERNEL_LINKED_LOW_LIMIT : Z := 0x1000000.
Definition PAGING64_BOOT_TABLE_BASE_FALLBACK : Z := 0x1000.
Definition PAGING64_PML4_OFFSET : Z := 0.
Definition PAGING64_PDPT_OFFSET : Z := 0x1000.
Definition PAGING64_RUNTIME_PD_OFFSET : Z := 0x4000.
Definition PAGING64_PAGE_BYTES : Z := 0x1000.
Definition PAGING64_PHYSICAL_ADDRESS_MASK : Z := 0x000FFFFFFFFFF000.
Definition PAGING64_PAGE_MASK : Z := 0xFFFFFFFFFFFFF000.
Definition PAGING64_PAGE_PRESENT : Z := 1.
Definition PAGING64_PAGE_WRITABLE : Z := 2.
Definition PAGING64_PAGE_USER : Z := 4.
Definition PAGING64_PAGE_LARGE : Z := 0x80.
Definition PAGING64_PAGE_NO_EXECUTE : Z := 0x8000000000000000.
Definition PAGING64_HIGH_HALF_PML4_INDEX : Z := 511.
Definition PAGING64_EFER_NXE : Z := 0x800.
Definition PAGING64_INVALID_PID : Z := 0xFFFFFFFF.
Definition PAGING64_VMA_USER_PT_COUNT : nat := 32.
Definition PAGING64_PROCESS_ROOT_VMA_PT_COUNT : nat := 16.
Definition PAGING64_PROCESS_ROOT_POOL_LIMIT : nat := 8.
Definition PAGING64_USER_PROT_READ : Z := 1.
Definition PAGING64_USER_PROT_WRITE : Z := 2.
Definition PAGING64_USER_PROT_EXECUTE : Z := 4.
Definition INVALID_SLOT : Z := 0xFFFFFFFF.

(** Where the linker put the static tables. *)
Class PagingSymbols := {
  g_paging64_vma_user_pts : Z;
  g_paging64_process_pml4 : Z;
  g_paging64_process_pdpt : Z;
  g_paging64_process_runtime_pd : Z;
  g_paging64_process_vma_pts : Z;
}.

(** One entry of [g_paging64_vma_user_pt_initialized] and of
    [g_paging64_vma_user_pd_index], or of their per-process kind. *)
Record pt_slot := mk_pt { pt_initialized : Z; pt_pd_index : Z }.
#[export] Instance eta_pt : Eta pt_slot := {| eta r := mk_pt (pt_initialized r) (pt_pd_index r) |}.

(** One slot of the [g_paging64_process_root_*] arrays. *)
Record root_slot := mk_root {
  root_used : Z;
  root_pid : Z;
  root_owner : Z;
  root_token : Z;
  root_initialized : Z;
  root_pts : list pt_slot }.
#[export] Instance eta_root : Eta root_slot := {| eta r :=
  mk_root (root_used r) (root_pid r) (root_owner r) (root_token r) (root_initialized r) (root_pts r) |}.

Record paging_state := mk_paging {
  frames : gmap Z (gmap Z Z);
  cr3 : Z;
  efer : Z;
  g_paging64_kernel_physical_base : Z;
  g_kernel_mmio_mapping_installed : Z;
  g_paging64_vma_user_slots : list pt_slot;
  g_paging64_process_roots : list root_slot;
  g_paging64_kernel_root_physical : Z;
  g_paging64_process_root_pool_used : Z;
  g_paging64_process_root_alloc_count : Z;
  g_paging64_process_root_release_count : Z;
  g_paging64_process_root_alloc_denial_count : Z;
  g_paging64_process_root_switch_count : Z;
  g_paging64_process_root_switch_denial_count : Z;
  g_paging64_process_root_kernel_switch_count : Z;
  g_paging64_process_root_last_switch_reason : Z;
  g_paging64_process_root_last_low_compat : Z;
  g_paging64_process_root_last_low_pdpt_present : Z;
  g_paging64_process_root_high_copy_count : Z;
  g_paging64_process_root_last_high_copy : Z;
  g_paging64_process_root_mmio_shared_count : Z;
  g_paging64_process_root_last_mmio_shared : Z;
  g_paging64_process_root_pool_mapped_count : Z;
  g_paging64_process_root_last_pool_mapped : Z;
  g_paging64_process_root_user_pdpt_private_count : Z;
  g_paging64_process_root_last_user_pdpt_private : Z;
  g_paging64_process_root_vma_pt_private_count : Z;
  g_paging64_process_root_last_vma_pt_private : Z;
  g_paging64_process_root_last_slot : Z;
  g_paging64_process_root_last_pid : Z;
  g_paging64_process_root_last_physical : Z;
  g_paging64_process_root_fork_count : Z;
  g_paging64_process_root_fork_denial_count : Z;
  g_paging64_process_root_fork_last_parent_pid : Z;
  g_paging64_process_root_fork_last_child_pid : Z;
  g_paging64_process_root_fork_last_parent_slot : Z;
  g_paging64_process_root_fork_last_child_slot : Z;
  g_paging64_process_root_fork_last_child_root_distinct : Z }.

#[export] Instance eta_paging : Eta paging_state := {| eta s :=
  mk_paging (frames s) (cr3 s) (efer s) (g_paging64_kernel_physical_base s)
    (g_kernel_mmio_mapping_installed s) (g_paging64_vma_user_slots s) (g_paging64_process_roots s)
    (g_paging64_kernel_root_physical s) (g_paging64_process_root_pool_used s)
    (g_paging64_process_root_alloc_count s) (g_paging64_process_root_release_count s)
    (g_paging64_process_root_alloc_denial_count s) (g_paging64_process_root_switch_count s)
    (g_paging64_process_root_switch_denial_count s) (g_paging64_process_root_kernel_switch_count s)
    (g_paging64_process_root_last_switch_reason s) (g_paging64_process_root_last_low_compat s)
    (g_paging64_process_root_last_low_pdpt_present s) (g_paging64_process_root_high_copy_count s)
    (g_paging64_process_root_last_high_copy s) (g_paging64_process_root_mmio_shared_count s)
    (g_paging64_process_root_last_mmio_shared s) (g_paging64_process_root_pool_mapped_count s)
    (g_paging64_process_root_last_pool_mapped s) (g_paging64_process_root_user_pdpt_private_count s)
    (g_paging64_process_root_last_user_pdpt_private s) (g_paging64_process_root_vma_pt_private_count s)
    (g_paging64_process_root_last_vma_pt_private s) (g_paging64_process_root_last_slot s)
    (g_paging64_process_root_last_pid s) (g_paging64_process_root_last_physical s)
    (g_paging64_process_root_fork_count s) (g_paging64_process_root_fork_denial_count s)
    (g_paging64_process_root_fork_last_parent_pid s) (g_paging64_process_root_fork_last_child_pid s)
    (g_paging64_process_root_fork_last_parent_slot s) (g_paging64_process_root_fork_last_child_slot s)
    (g_paging64_process_root_fork_last_child_root_distinct s) |}.

Abbreviation PG := (ST paging_state).

(** ** Addresses *)

Definition paging64_configure_kernel_physical_base (kernel_load_address : Z) : PG unit :=
  modify (fun s => s <| g_paging64_kernel_physical_base :=
    if PAGING64_KERNEL_LINKED_OFFSET <=? kernel_load_address
    then sub64 kernel_load_address PAGING64_KERNEL_LINKED_OFFSET else 0 |>).

(** With [g_paging64_kernel_physical_base] an argument. *)
Definition paging64_kernel_physical_alias (base address : Z) : Z :=
  if PAGING64_KERNEL_VIRTUAL_BASE <=? address
  then add64 base (sub64 address PAGING64_KERNEL_VIRTUAL_BASE)
  else if negb (base =? 0) && (PAGING64_KERNEL_LINKED_OFFSET <=? address)
          && (address <? PAGING64_KERNEL_LINKED_LOW_LIMIT)
  then add64 base address
  else address.

Definition paging64_index64 (address shift : Z) : Z := Z.land (Z.shiftr address shift) 0x1FF.

Definition paging64_mix_token (digest value : Z) : Z := mul32 (Z.lxor digest value) 16777619.

(** Table [k] of the static array at [symbol]. *)
Definition table (s : paging_state) (symbol : Z) (k : nat) : Z :=
  paging64_kernel_physical_alias (g_paging64_kernel_physical_base s) (add64 symbol (Z.of_nat k * PAGING64_PAGE_BYTES)).

(** ** Entries of frames *)

Definition entry_in (fs : gmap Z (gmap Z Z)) (page i : Z) : Z := default 0 (fs !! page ≫= (.!! i)).
Definition entry (s : paging_state) (page i : Z) : Z := entry_in (frames s) page i.
Definition put_entry (page i v : Z) : PG unit :=
  modify (fun s => s <| frames := <[page := <[i := v]> (default ∅ (frames s !! page))]> (frames s) |>).
Definition paging64_zero_table (page : Z) : PG unit :=
  modify (fun s => s <| frames := <[page := ∅]> (frames s) |>).

(** [(physical & PAGING64_PAGE_MASK) | PRESENT | WRITABLE | USER]. *)
Definition table_entry (physical : Z) : Z :=
  Z.lor (Z.land physical PAGING64_PAGE_MASK)
    (Z.lor (Z.lor PAGING64_PAGE_PRESENT PAGING64_PAGE_WRITABLE) PAGING64_PAGE_USER).

(** ** Roots *)

Definition paging64_active_root_physical (s : paging_state) : Z :=
  let root := Z.land (cr3 s) PAGING64_PAGE_MASK in
  if negb (root =? 0) then root else PAGING64_BOOT_TABLE_BASE_FALLBACK.

Definition paging64_ensure_kernel_root_physical : PG Z :=
  modify (fun s => if g_paging64_kernel_root_physical s =? 0
    then s <| g_paging64_kernel_root_physical := paging64_active_root_physical s |> else s) ;;;
  gets g_paging64_kernel_root_physical.

Definition paging64_current_root_physical (s : paging_state) : Z := Z.land (cr3 s) PAGING64_PAGE_MASK.

Definition write_cr3_64 (v : Z) : PG unit := modify (fun s => s <| cr3 := v |>).
Definition paging64_reload_active_root : PG unit := modify (fun s => s <| cr3 := cr3 s |>).
Definition paging64_reload_current_root : PG Z := paging64_reload_active_root ;;; ret 1.

Definition paging64_process_root_find_slot (s : paging_state) (pid : Z) : option nat :=
  if (pid =? 0) || (pid =? PAGING64_INVALID_PID) then None
  else find_index (fun r => nz (root_used r) && (root_pid r =? pid)) (g_paging64_process_roots s).

Definition slot_z (o : option nat) : Z := from_option Z.of_nat INVALID_SLOT o.

Section paging.
Context {symbols : PagingSymbols} {launch : Process.LaunchEnv}.

Definition pml4_of (s : paging_state) (slot : nat) : Z := table s g_paging64_process_pml4 slot.
Definition pdpt_of (s : paging_state) (slot : nat) : Z := table s g_paging64_process_pdpt slot.
Definition runtime_pd_of (s : paging_state) (slot : nat) : Z := table s g_paging64_process_runtime_pd slot.
(** [g_paging64_process_vma_pts[slot][index]]. *)
Definition vma_pt_of (s : paging_state) (slot index : nat) : Z :=
  table s g_paging64_process_vma_pts (slot * PAGING64_PROCESS_ROOT_VMA_PT_COUNT + index).
Definition user_pt_of (s : paging_state) (slot : nat) : Z := table s g_paging64_vma_user_pts slot.

Definition update_root (slot : nat) (f : root_slot -> root_slot) : PG unit :=
  modify (fun s => s <| g_paging64_process_roots := alter f slot (g_paging64_process_roots s) |>).

Definition clear_pts : list pt_slot := replicate PAGING64_PROCESS_ROOT_VMA_PT_COUNT (mk_pt 0 0).

(** For a slot of the pool. *)
Definition paging64_process_root_clear_slot (slot : nat) : PG unit :=
  s <- gets id ;;
  paging64_zero_table (pml4_of s slot) ;;;
  paging64_zero_table (pdpt_of s slot) ;;;
  paging64_zero_table (runtime_pd_of s slot) ;;;
  for_range PAGING64_PROCESS_ROOT_VMA_PT_COUNT (fun index => paging64_zero_table (vma_pt_of s slot index)) ;;;
  update_root slot (fun _ => mk_root 0 PAGING64_INVALID_PID 0 0 1 clear_pts).

Definition paging64_process_root_token_for (pid owner authority : Z) (slot : nat) (physical : Z) : Z :=
  let token := fold_left paging64_mix_token
    [pid; owner; authority; Z.of_nat slot; Z.land physical 0xFFFFFFFF; Z.land (Z.shiftr physical 32) 0xFFFFFFFF]
    2166136261 in
  if negb (token =? 0) then token else 1.

(** The walk of the kernel's tables, once [g_paging64_kernel_root_physical]
    is set. *)
Definition paging64_kernel_root_maps_virtual (s : paging_state) (va : Z) : bool :=
  let pml4e := entry s (g_paging64_kernel_root_physical s) (paging64_index64 va 39) in
  if Z.land pml4e PAGING64_PAGE_PRESENT =? 0 then false
  else
    let pdpte := entry s (Z.land pml4e PAGING64_PHYSICAL_ADDRESS_MASK) (paging64_index64 va 30) in
    if Z.land pdpte PAGING64_PAGE_PRESENT =? 0 then false
    else if nz (Z.land pdpte PAGING64_PAGE_LARGE) then true
    else
      let pde := entry s (Z.land pdpte PAGING64_PHYSICAL_ADDRESS_MASK) (paging64_index64 va 21) in
      if Z.land pde PAGING64_PAGE_PRESENT =? 0 then false
      else if nz (Z.land pde PAGING64_PAGE_LARGE) then true
      else
        let pte := entry s (Z.land pde PAGING64_PHYSICAL_ADDRESS_MASK) (paging64_index64 va 12) in
        nz (Z.land pte PAGING64_PAGE_PRESENT).

(** Every page from the first to the last one of the range. *)
Definition paging64_kernel_root_maps_range (s : paging_state) (base byte_count : Z) : bool :=
  if (base =? 0) || (byte_count =? 0) then false
  else
    let first := Z.land base PAGING64_PAGE_MASK in
    let last := Z.land (add64 base (byte_count - 1)) PAGING64_PAGE_MASK in
    if last <? first then false
    else forallb (fun k => paging64_kernel_root_maps_virtual s (first + Z.of_nat k * PAGING64_PAGE_BYTES))
           (seq 0 (S (Z.to_nat ((last - first) / PAGING64_PAGE_BYTES)))).

(** For the frames of the two roots; the first is a static table, so its
    pointer is not null. *)
Definition paging64_process_root_pool_mapping_present (s : paging_state) (pml4 kernel_pml4 : Z) : bool :=
  let high := PAGING64_HIGH_HALF_PML4_INDEX in
  if (kernel_pml4 =? 0) || (Z.land (entry s kernel_pml4 high) PAGING64_PAGE_PRESENT =? 0)
     || negb (entry s pml4 high =? entry s kernel_pml4 high)
  then false
  else
    let pool := Z.of_nat PAGING64_PROCESS_ROOT_POOL_LIMIT * PAGING64_PAGE_BYTES in
    paging64_kernel_root_maps_range s g_paging64_process_pml4 pool
    && paging64_kernel_root_maps_range s g_paging64_process_pdpt pool
    && paging64_kernel_root_maps_range s g_paging64_process_runtime_pd pool
    && paging64_kernel_root_maps_range s g_paging64_process_vma_pts
         (pool * Z.of_nat PAGING64_PROCESS_ROOT_VMA_PT_COUNT).

Definition deny_switch : PG Z :=
  modify (fun s => s <| g_paging64_process_root_switch_denial_count :=
    inc32 (g_paging64_process_root_switch_denial_count s) |>) ;;; ret 0.

Definition paging64_switch_to_kernel_root (reason : Z) : PG Z :=
  root <- paging64_ensure_kernel_root_physical ;;
  if root =? 0 then deny_switch
  else
    write_cr3_64 (Z.land root PAGING64_PAGE_MASK) ;;;
    modify (fun s => s <| g_paging64_process_root_kernel_switch_count := inc32 (g_paging64_process_root_kernel_switch_count s) |>
      <| g_paging64_process_root_last_switch_reason := reason |> <| g_paging64_process_root_last_pid := 0 |>
      <| g_paging64_process_root_last_physical := Z.land root PAGING64_PAGE_MASK |>) ;;;
    ret 1.

Definition deny_alloc : PG Z :=
  modify (fun s => s <| g_paging64_process_root_alloc_denial_count :=
    inc32 (g_paging64_process_root_alloc_denial_count s) |>) ;;; ret 0.

(** Fill the cleared tables of [slot]; the result tells whether the
    framebuffer entry was shared. *)
Definition link_root (slot : nat) (kernel_root : Z) : PG bool :=
  s <- gets id ;;
  let kernel_pdpt := Z.land (entry s kernel_root 0) PAGING64_PHYSICAL_ADDRESS_MASK in
  let pml4 := pml4_of s slot in
  let pdpt := pdpt_of s slot in
  paging64_process_root_clear_slot slot ;;;
  put_entry pml4 0 (table_entry (pdpt_of s slot)) ;;;
  modify (fun s' =>
    let e := entry s' pml4 0 in
    let private := (Z.land e PAGING64_PHYSICAL_ADDRESS_MASK =? Z.land (pdpt_of s slot) PAGING64_PAGE_MASK)
                   && nz (Z.land e PAGING64_PAGE_PRESENT) in
    s' <| g_paging64_process_root_last_user_pdpt_private := b2z private |>
       <| g_paging64_process_root_user_pdpt_private_count :=
            if private then inc32 (g_paging64_process_root_user_pdpt_private_count s')
            else g_paging64_process_root_user_pdpt_private_count s' |>) ;;;
  high <- gets (fun s' => entry s' kernel_root PAGING64_HIGH_HALF_PML4_INDEX) ;;
  put_entry pml4 PAGING64_HIGH_HALF_PML4_INDEX high ;;;
  modify (fun s' => s' <| g_paging64_process_root_last_low_compat := 0 |>
    <| g_paging64_process_root_last_low_pdpt_present := b2z (nz (Z.land (entry s' pdpt 0) PAGING64_PAGE_PRESENT)) |>) ;;;
  let fb := paging64_index64 0x80000000 30 in
  fbe <- gets (fun s' => entry s' kernel_pdpt fb) ;;
  let shared := negb (kernel_pdpt =? 0) && negb (fb =? paging64_index64 0x40000000 30)
                && nz (Z.land fbe PAGING64_PAGE_PRESENT) in
  (if shared then put_entry pdpt fb (Z.land fbe (not64 PAGING64_PAGE_USER)) else ret tt) ;;;
  put_entry pdpt (paging64_index64 0x40000000 30) (table_entry (runtime_pd_of s slot)) ;;;
  ret shared.

Definition record_root (slot : nat) (kernel_root : Z) (framebuffer_shared : bool) : PG unit :=
  modify (fun s =>
    let pml4 := pml4_of s slot in
    let high := nz (Z.land (entry s pml4 PAGING64_HIGH_HALF_PML4_INDEX) PAGING64_PAGE_PRESENT) in
    let mmio := high && (nz (g_kernel_mmio_mapping_installed s) || framebuffer_shared) in
    let pool := paging64_process_root_pool_mapping_present s pml4 kernel_root in
    s <| g_paging64_process_root_last_high_copy := b2z high |>
      <| g_paging64_process_root_high_copy_count :=
           if high then inc32 (g_paging64_process_root_high_copy_count s) else g_paging64_process_root_high_copy_count s |>
      <| g_paging64_process_root_last_mmio_shared := b2z mmio |>
      <| g_paging64_process_root_mmio_shared_count :=
           if mmio then inc32 (g_paging64_process_root_mmio_shared_count s) else g_paging64_process_root_mmio_shared_count s |>
      <| g_paging64_process_root_last_pool_mapped := b2z pool |>
      <| g_paging64_process_root_pool_mapped_count :=
           if pool then inc32 (g_paging64_process_root_pool_mapped_count s) else g_paging64_process_root_pool_mapped_count s |>).

Definition paging64_process_root_alloc (pid owner authority : Z) : PG Z :=
  if (pid =? 0) || (pid =? PAGING64_INVALID_PID) || (owner =? 0) || (authority =? 0) then deny_alloc
  else
    found <- gets (fun s => paging64_process_root_find_slot s pid) ;;
    match found with
    | Some _ => ret 1
    | None =>
        free <- gets (fun s => find_index (fun r => root_used r =? 0) (g_paging64_process_roots s)) ;;
        match free with
        | None => deny_alloc
        | Some slot =>
            kernel_root <- paging64_ensure_kernel_root_physical ;;
            previous_root <- gets paging64_current_root_physical ;;
            let away := negb (previous_root =? Z.land kernel_root PAGING64_PAGE_MASK) in
            switched <- (if away then paging64_switch_to_kernel_root 0x504D4C34 else ret 1) ;;
            if switched =? 0 then deny_alloc
            else
              shared <- link_root slot kernel_root ;;
              record_root slot kernel_root shared ;;;
              physical <- gets (fun s => pml4_of s slot) ;;
              update_root slot (fun r => r <| root_used := 1 |> <| root_pid := pid |> <| root_owner := owner |>
                <| root_token := paging64_process_root_token_for pid owner authority slot physical |>) ;;;
              modify (fun s => s <| g_paging64_process_root_pool_used := inc32 (g_paging64_process_root_pool_used s) |>
                <| g_paging64_process_root_alloc_count := inc32 (g_paging64_process_root_alloc_count s) |>
                <| g_paging64_process_root_last_slot := Z.of_nat slot |>
                <| g_paging64_process_root_last_pid := pid |>
                <| g_paging64_process_root_last_physical := physical |>) ;;;
              (if away then write_cr3_64 (Z.land previous_root PAGING64_PAGE_MASK) else ret tt) ;;;
              ret 1
        end
    end.


Definition deny_fork_alloc : PG Z :=
  modify (fun s => s <| g_paging64_process_root_fork_denial_count :=
    inc32 (g_paging64_process_root_fork_denial_count s) |>) ;;; ret 0.

Definition paging64_process_root_fork_alloc (parent child owner authority : Z) : PG Z :=
  modify (fun s => s <| g_paging64_process_root_fork_last_parent_pid := parent |>
    <| g_paging64_process_root_fork_last_child_pid := child |>
    <| g_paging64_process_root_fork_last_parent_slot := INVALID_SLOT |>
    <| g_paging64_process_root_fork_last_child_slot := INVALID_SLOT |>
    <| g_paging64_process_root_fork_last_child_root_distinct := 0 |>) ;;;
  if (parent =? 0) || (parent =? PAGING64_INVALID_PID) || (child =? 0) || (child =? PAGING64_INVALID_PID)
     || (parent =? child) || (owner =? 0) || (authority =? 0)
  then deny_fork_alloc
  else
    found <- gets (fun s => paging64_process_root_find_slot s parent) ;;
    taken <- gets (fun s => paging64_process_root_find_slot s child) ;;
    match found, taken with
    | Some parent_slot, None =>
        parent_root <- gets (fun s => pml4_of s parent_slot) ;;
        ok <- paging64_process_root_alloc child owner authority ;;
        if ok =? 0 then deny_fork_alloc
        else
          made <- gets (fun s => paging64_process_root_find_slot s child) ;;
          match made with
          | None => deny_fork_alloc
          | Some child_slot =>
              child_root <- gets (fun s => pml4_of s child_slot) ;;
              if child_root =? 0 then deny_fork_alloc
              else
                modify (fun s => s <| g_paging64_process_root_fork_last_parent_slot := Z.of_nat parent_slot |>
                  <| g_paging64_process_root_fork_last_child_slot := Z.of_nat child_slot |>) ;;;
                distinct <- (if negb (child_root =? parent_root) then
                               kernel_root <- paging64_ensure_kernel_root_physical ;;
                               ret (negb (child_root =? Z.land kernel_root PAGING64_PAGE_MASK))
                             else ret false) ;;
                modify (fun s => s <| g_paging64_process_root_fork_last_child_root_distinct := b2z distinct |>
                  <| g_paging64_process_root_fork_count := inc32 (g_paging64_process_root_fork_count s) |>) ;;;
                ret 1
          end
    | _, _ => deny_fork_alloc
    end.

Definition root_at (s : paging_state) (slot : nat) : root_slot :=
  default (mk_root 0 PAGING64_INVALID_PID 0 0 0 clear_pts) (g_paging64_process_roots s !! slot).

Definition paging64_process_root_release (pid authority : Z) : PG Z :=
  found <- gets (fun s => paging64_process_root_find_slot s pid) ;;
  match found with
  | None => deny_alloc
  | Some slot =>
      token <- gets (fun s => root_token (root_at s slot)) ;;
      if (authority =? 0) || negb (authority =? token) then deny_alloc
      else
        physical <- gets (fun s => pml4_of s slot) ;;
        active <- gets (fun s => Z.land (cr3 s) PAGING64_PAGE_MASK =? Z.land physical PAGING64_PAGE_MASK) ;;
        (if active then paging64_switch_to_kernel_root 0x52454C00 else ret 0) ;;;
        paging64_process_root_clear_slot slot ;;;
        modify (fun s => s
          <| g_paging64_process_root_pool_used := if nz (g_paging64_process_root_pool_used s)
               then dec32 (g_paging64_process_root_pool_used s) else g_paging64_process_root_pool_used s |>
          <| g_paging64_process_root_release_count := inc32 (g_paging64_process_root_release_count s) |>
          <| g_paging64_process_root_last_slot := Z.of_nat slot |>
          <| g_paging64_process_root_last_pid := pid |>
          <| g_paging64_process_root_last_physical := physical |>) ;;;
        ret 1
  end.

(** [process64_page_root_physical] and its kind read the process table [ps]. *)
Definition paging64_process_root_physical (ps : Process.process_state) (pid : Z) (s : paging_state) : Z :=
  match paging64_process_root_find_slot s pid with
  | Some slot => pml4_of s slot
  | None =>
      let root := fst (Process.process64_page_root_physical pid ps) in
      if negb (root =? 0) then Z.land root PAGING64_PAGE_MASK else 0
  end.
Definition paging64_process_root_slot (ps : Process.process_state) (pid : Z) (s : paging_state) : Z :=
  match paging64_process_root_find_slot s pid with
  | Some slot => Z.of_nat slot
  | None => fst (Process.process64_page_root_index pid ps)
  end.
Definition paging64_process_root_token (ps : Process.process_state) (pid : Z) (s : paging_state) : Z :=
  match paging64_process_root_find_slot s pid with
  | Some slot => root_token (root_at s slot)
  | None => fst (Process.process64_page_root_token pid ps)
  end.

Definition paging64_switch_to_process_root (ps : Process.process_state) (pid reason : Z) : PG Z :=
  root <- gets (paging64_process_root_physical ps pid) ;;
  if root =? 0 then deny_switch
  else
    write_cr3_64 (Z.land root PAGING64_PAGE_MASK) ;;;
    modify (fun s => s <| g_paging64_process_root_switch_count := inc32 (g_paging64_process_root_switch_count s) |>
      <| g_paging64_process_root_last_switch_reason := reason |> <| g_paging64_process_root_last_pid := pid |>
      <| g_paging64_process_root_last_physical := Z.land root PAGING64_PAGE_MASK |>) ;;;
    ret 1.

(** ** User pages *)

Definition no_protection (protection : Z) : bool :=
  Z.land protection (Z.lor (Z.lor PAGING64_USER_PROT_READ PAGING64_USER_PROT_WRITE) PAGING64_USER_PROT_EXECUTE) =? 0.

Definition pte_flags (protection : Z) : Z :=
  let flags := Z.lor PAGING64_PAGE_PRESENT PAGING64_PAGE_USER in
  let flags := if nz (Z.land protection PAGING64_USER_PROT_WRITE) then Z.lor flags PAGING64_PAGE_WRITABLE else flags in
  if Z.land protection PAGING64_USER_PROT_EXECUTE =? 0 then Z.lor flags PAGING64_PAGE_NO_EXECUTE else flags.

Definition enable_nx (protection : Z) : PG unit :=
  if Z.land protection PAGING64_USER_PROT_EXECUTE =? 0
  then modify (fun s => s <| efer := Z.lor (efer s) PAGING64_EFER_NXE |>) else ret tt.

(** What an entry of a page table says. *)
Definition pte_present (e : Z) : bool := nz (Z.land e PAGING64_PAGE_PRESENT).
Definition pte_physical (e : Z) : Z :=
  if pte_present e then Z.land e PAGING64_PHYSICAL_ADDRESS_MASK else 0.
Definition pte_protection (e : Z) : Z :=
  if pte_present e then
    Z.lor (Z.lor PAGING64_USER_PROT_READ
                 (if nz (Z.land e PAGING64_PAGE_WRITABLE) then PAGING64_USER_PROT_WRITE else 0))
          (if Z.land e PAGING64_PAGE_NO_EXECUTE =? 0 then PAGING64_USER_PROT_EXECUTE else 0)
  else 0.

Definition user_window : Z := paging64_index64 0x40000000 30.

(** The guards of the two install routines. *)
Definition install_denied (va pa protection : Z) : bool :=
  nz (Z.land va (PAGING64_PAGE_BYTES - 1)) || nz (Z.land pa (PAGING64_PAGE_BYTES - 1)) || (pa =? 0)
  || no_protection protection || negb (paging64_index64 va 39 =? 0) || negb (paging64_index64 va 30 =? user_window)
  || (paging64_index64 va 21 =? paging64_index64 0x40000000 21)
  || (paging64_index64 va 21 =? paging64_index64 0x41000000 21).

(** *** In the shared root *)

Definition pt_find (slots : list pt_slot) (pd : Z) : option nat :=
  find_index (fun r => nz (pt_initialized r) && (pt_pd_index r =? pd)) slots.
Definition pt_free (slots : list pt_slot) : option nat := find_index (fun r => pt_initialized r =? 0) slots.

Definition paging64_vma_user_pt_find_slot (s : paging_state) (pd : Z) : option nat :=
  pt_find (g_paging64_vma_user_slots s) pd.

Definition paging64_vma_user_pt_acquire_slot (pd : Z) : PG (option nat) :=
  found <- gets (fun s => paging64_vma_user_pt_find_slot s pd) ;;
  match found with
  | Some k => ret (Some k)
  | None =>
      free <- gets (fun s => pt_free (g_paging64_vma_user_slots s)) ;;
      match free with
      | None => ret None
      | Some k =>
          page <- gets (fun s => user_pt_of s k) ;;
          paging64_zero_table page ;;;
          modify (fun s => s <| g_paging64_vma_user_slots := alter (fun _ => mk_pt 1 pd) k (g_paging64_vma_user_slots s) |>) ;;;
          ret (Some k)
      end
  end.

(** Frame and index of the entry of a page. *)
Definition paging64_user_page_entry_slot (s : paging_state) (va : Z) : option (Z * Z) :=
  match paging64_vma_user_pt_find_slot s (paging64_index64 va 21) with
  | Some k => if negb (paging64_index64 va 39 =? 0) || negb (paging64_index64 va 30 =? user_window) then None
              else Some (user_pt_of s k, paging64_index64 va 12)
  | None => None
  end.

Definition paging64_install_user_page_mapping (va pa protection : Z) : PG Z :=
  active <- gets paging64_active_root_physical ;;
  let pml4 := add64 active PAGING64_PML4_OFFSET in
  let pdpt := add64 active PAGING64_PDPT_OFFSET in
  let runtime_pd := add64 active PAGING64_RUNTIME_PD_OFFSET in
  if install_denied va pa protection then ret 0
  else
    found <- paging64_vma_user_pt_acquire_slot (paging64_index64 va 21) ;;
    match found with
    | None => ret 0
    | Some k =>
        vma_pt <- gets (fun s => user_pt_of s k) ;;
        enable_nx protection ;;;
        put_entry pml4 (paging64_index64 va 39) (table_entry pdpt) ;;;
        put_entry pdpt (paging64_index64 va 30) (table_entry runtime_pd) ;;;
        put_entry runtime_pd (paging64_index64 va 21) (table_entry vma_pt) ;;;
        put_entry vma_pt (paging64_index64 va 12) (Z.lor (Z.land pa PAGING64_PAGE_MASK) (pte_flags protection)) ;;;
        paging64_reload_active_root ;;;
        ret 1
    end.

(** The routines that change an entry already there: [at_] is where it is,
    and [reload] what follows the change. *)
Definition clear_entry (at_ : option (Z * Z)) (reload : PG unit) : PG Z :=
  match at_ with
  | None => ret 0
  | Some (page, i) =>
      e <- gets (fun s => entry s page i) ;;
      if negb (pte_present e) then ret 0 else put_entry page i 0 ;;; reload ;;; ret 1
  end.
Definition remap_entry (at_ : option (Z * Z)) (pa protection : Z) (reload : PG unit) : PG Z :=
  match at_ with
  | None => ret 0
  | Some (page, i) =>
      e <- gets (fun s => entry s page i) ;;
      if negb (pte_present e) || nz (Z.land pa (PAGING64_PAGE_BYTES - 1)) || (pa =? 0) || no_protection protection
      then ret 0
      else
        enable_nx protection ;;;
        put_entry page i (Z.lor (Z.land pa PAGING64_PAGE_MASK) (pte_flags protection)) ;;; reload ;;; ret 1
  end.
Definition protect_entry (at_ : option (Z * Z)) (protection : Z) (reload : PG unit) : PG Z :=
  match at_ with
  | None => ret 0
  | Some (page, i) =>
      e <- gets (fun s => entry s page i) ;;
      if negb (pte_present e) || no_protection protection then ret 0
      else
        enable_nx protection ;;;
        put_entry page i (Z.lor (Z.land e PAGING64_PHYSICAL_ADDRESS_MASK) (pte_flags protection)) ;;; reload ;;; ret 1
  end.

Definition paging64_clear_user_page_mapping (va : Z) : PG Z :=
  at_ <- gets (fun s => paging64_user_page_entry_slot s va) ;; clear_entry at_ paging64_reload_active_root.
Definition paging64_remap_user_page (va pa protection : Z) : PG Z :=
  at_ <- gets (fun s => paging64_user_page_entry_slot s va) ;; remap_entry at_ pa protection paging64_reload_active_root.
Definition paging64_update_user_page_protection (va protection : Z) : PG Z :=
  at_ <- gets (fun s => paging64_user_page_entry_slot s va) ;; protect_entry at_ protection paging64_reload_active_root.

(** The entry of a page, 0 when no table holds it. *)
Definition read_entry (s : paging_state) (at_ : option (Z * Z)) : Z := from_option (fun '(page, i) => entry s page i) 0 at_.

Definition paging64_user_page_present (va : Z) (s : paging_state) : Z :=
  b2z (pte_present (read_entry s (paging64_user_page_entry_slot s va))).
Definition paging64_user_page_physical (va : Z) (s : paging_state) : Z :=
  pte_physical (read_entry s (paging64_user_page_entry_slot s va)).
Definition paging64_user_page_protection (va : Z) (s : paging_state) : Z :=
  pte_protection (read_entry s (paging64_user_page_entry_slot s va)).

(** *** In the root of a process *)

Definition pts_of (s : paging_state) (slot : nat) : list pt_slot := from_option root_pts [] (g_paging64_process_roots s !! slot).

Definition paging64_process_vma_user_pt_find_slot (s : paging_state) (slot : nat) (pd : Z) : option nat :=
  pt_find (pts_of s slot) pd.

Definition paging64_process_vma_user_pt_acquire_slot (slot : nat) (pd : Z) : PG (option nat) :=
  found <- gets (fun s => paging64_process_vma_user_pt_find_slot s slot pd) ;;
  match found with
  | Some k => ret (Some k)
  | None =>
      free <- gets (fun s => pt_free (pts_of s slot)) ;;
      match free with
      | None => ret None
      | Some k =>
          page <- gets (fun s => vma_pt_of s slot k) ;;
          paging64_zero_table page ;;;
          update_root slot (fun r => r <| root_pts := alter (fun _ => mk_pt 1 pd) k (root_pts r) |>) ;;;
          ret (Some k)
      end
  end.

Definition paging64_process_user_page_entry_slot (ps : Process.process_state) (s : paging_state) (pid va : Z)
    : option (Z * Z) :=
  let root := paging64_process_root_slot ps pid s in
  if (root =? INVALID_SLOT) || negb (paging64_index64 va 39 =? 0) || negb (paging64_index64 va 30 =? user_window) then None
  else if Z.of_nat PAGING64_PROCESS_ROOT_POOL_LIMIT <=? root then None
  else
    match paging64_process_vma_user_pt_find_slot s (Z.to_nat root) (paging64_index64 va 21) with
    | None => None
    | Some k => Some (vma_pt_of s (Z.to_nat root) k, paging64_index64 va 12)
    end.

Definition paging64_reload_root_if_active (physical : Z) : PG unit :=
  active <- gets (fun s => Z.land (cr3 s) PAGING64_PAGE_MASK =? Z.land physical PAGING64_PAGE_MASK) ;;
  if active : bool then paging64_reload_active_root else ret tt.

Definition paging64_install_user_page_mapping_for_process (pid va pa protection : Z) : PG Z :=
  found <- gets (fun s => paging64_process_root_find_slot s pid) ;;
  match found with
  | None => ret 0
  | Some slot =>
      if install_denied va pa protection then ret 0
      else
        acquired <- paging64_process_vma_user_pt_acquire_slot slot (paging64_index64 va 21) ;;
        match acquired with
        | None => modify (fun s => s <| g_paging64_process_root_last_vma_pt_private := 0 |>) ;;; ret 0
        | Some k =>
            s <- gets id ;;
            enable_nx protection ;;;
            put_entry (pml4_of s slot) (paging64_index64 va 39) (table_entry (pdpt_of s slot)) ;;;
            put_entry (pdpt_of s slot) (paging64_index64 va 30) (table_entry (runtime_pd_of s slot)) ;;;
            put_entry (runtime_pd_of s slot) (paging64_index64 va 21) (table_entry (vma_pt_of s slot k)) ;;;
            put_entry (vma_pt_of s slot k) (paging64_index64 va 12)
              (Z.lor (Z.land pa PAGING64_PAGE_MASK) (pte_flags protection)) ;;;
            modify (fun s' => s' <| g_paging64_process_root_last_vma_pt_private := 1 |>
              <| g_paging64_process_root_vma_pt_private_count := inc32 (g_paging64_process_root_vma_pt_private_count s') |>) ;;;
            paging64_reload_root_if_active (pml4_of s slot) ;;;
            ret 1
        end
  end.

Definition paging64_clear_user_page_mapping_for_process (ps : Process.process_state) (pid va : Z) : PG Z :=
  at_ <- gets (fun s => paging64_process_user_page_entry_slot ps s pid va) ;;
  root <- gets (paging64_process_root_physical ps pid) ;;
  clear_entry at_ (paging64_reload_root_if_active root).
Definition paging64_remap_user_page_for_process (ps : Process.process_state) (pid va pa protection : Z) : PG Z :=
  at_ <- gets (fun s => paging64_process_user_page_entry_slot ps s pid va) ;;
  root <- gets (paging64_process_root_physical ps pid) ;;
  remap_entry at_ pa protection (paging64_reload_root_if_active root).
Definition paging64_update_user_page_protection_for_process (ps : Process.process_state) (pid va protection : Z) : PG Z :=
  at_ <- gets (fun s => paging64_process_user_page_entry_slot ps s pid va) ;;
  root <- gets (paging64_process_root_physical ps pid) ;;
  protect_entry at_ protection (paging64_reload_root_if_active root).

Definition paging64_user_page_present_for_process (ps : Process.process_state) (pid va : Z) (s : paging_state) : Z :=
  b2z (pte_present (read_entry s (paging64_process_user_page_entry_slot ps s pid va))).
Definition paging64_user_page_physical_for_process (ps : Process.process_state) (pid va : Z) (s : paging_state) : Z :=
  pte_physical (read_entry s (paging64_process_user_page_entry_slot ps s pid va)).
Definition paging64_user_page_protection_for_process (ps : Process.process_state) (pid va : Z) (s : paging_state) : Z :=
  pte_protection (read_entry s (paging64_process_user_page_entry_slot ps s pid va)).

End paging.
End Paging.
