(* ===== verification/PagingFacts.v ===== *)
(** * Facts of the page tables

    Encoding of entries, the frames of the static tables, the hardware walk,
    and the invariant of the process roots: every root links its own tables
    only. *)

From S2P Require Import Prelude Principal Services64 Process Paging.
Import Paging.
Local Open Scope Z_scope.
Local Open Scope kernel_scope.

Module PagingFacts.

(** ** Entries *)

Definition page_frame (a : Z) : Prop := 0 <= a < 2 ^ 52 /\ a mod 4096 = 0.

Lemma mask_is_shift : PAGING64_PHYSICAL_ADDRESS_MASK = Z.shiftl (Z.ones 40) 12.
Proof. reflexivity. Qed.
Lemma page_mask_is_shift : PAGING64_PAGE_MASK = Z.shiftl (Z.ones 52) 12.
Proof. reflexivity. Qed.

Lemma frame_shift a : page_frame a -> a = Z.shiftl (a / 4096) 12 /\ 0 <= a / 4096 < 2 ^ 40.
Proof.
  intros [Hr Hm]. rewrite Z.shiftl_mul_pow2 by lia. change (2 ^ 12) with 4096.
  pose proof (Z.div_mod a 4096 ltac:(lia)). split; [lia|]. split; [apply Z.div_pos; lia|].
  apply Z.div_lt_upper_bound; [lia|]. change (4096 * 2 ^ 40) with (2 ^ 52). lia.
Qed.

Lemma land_ones_small q n : 0 <= n -> 0 <= q < 2 ^ n -> Z.land q (Z.ones n) = q.
Proof. intros Hn Hq. rewrite Z.land_ones by done. by apply Z.mod_small. Qed.

(** A frame address under the two masks. *)
Lemma frame_phys_mask a : page_frame a -> Z.land a PAGING64_PHYSICAL_ADDRESS_MASK = a.
Proof.
  intros Ha. destruct (frame_shift a Ha) as [E Hq]. rewrite E, mask_is_shift, <- Z.shiftl_land.
  by rewrite land_ones_small by lia.
Qed.
Lemma frame_page_mask a : page_frame a -> Z.land a PAGING64_PAGE_MASK = a.
Proof.
  intros Ha. destruct (frame_shift a Ha) as [E Hq]. rewrite E, page_mask_is_shift, <- Z.shiftl_land.
  by rewrite land_ones_small by lia.
Qed.

(** The low bits of an entry, seen through a mask of the frame. *)
Lemma frame_low a m : page_frame a -> 0 <= m < 4096 -> Z.land a m = 0.
Proof.
  intros Ha Hm. destruct (frame_shift a Ha) as [E _]. rewrite E. apply Z.bits_inj'. intros i Hi.
  rewrite Z.land_spec, Z.bits_0. destruct (Z.lt_ge_cases i 12) as [H|H]; [by rewrite Z.shiftl_spec_low|].
  replace (Z.testbit m i) with false; [apply andb_false_r|].
  rewrite <- (Z.mod_small m (2 ^ 12)) by (change (2 ^ 12) with 4096; lia). symmetry. apply Z.mod_pow2_bits_high. lia.
Qed.

Lemma frame_nx a : page_frame a -> Z.land a PAGING64_PAGE_NO_EXECUTE = 0.
Proof.
  intros [Ha _]. change PAGING64_PAGE_NO_EXECUTE with (2 ^ 63). apply Z.bits_inj'. intros i Hi.
  rewrite Z.land_spec, Z.bits_0, Z.pow2_bits_eqb by lia. destruct (Z.eqb_spec 63 i) as [<-|]; [|by rewrite andb_false_r].
  rewrite <- (Z.mod_small a (2 ^ 52)) by lia. by rewrite Z.mod_pow2_bits_high by lia.
Qed.

Lemma table_entry_facts f : page_frame f ->
  Z.land (table_entry f) PAGING64_PHYSICAL_ADDRESS_MASK = f /\ pte_present (table_entry f) = true /\
  nz (Z.land (table_entry f) PAGING64_PAGE_LARGE) = false.
Proof.
  intros Hf. unfold table_entry. rewrite frame_page_mask by done.
  change (Z.lor (Z.lor PAGING64_PAGE_PRESENT PAGING64_PAGE_WRITABLE) PAGING64_PAGE_USER) with 7. split_and!.
  - rewrite Z.land_lor_distr_l, frame_phys_mask by done. change (Z.land 7 PAGING64_PHYSICAL_ADDRESS_MASK) with 0. apply Z.lor_0_r.
  - unfold pte_present. rewrite Z.land_lor_distr_l, frame_low by (done || unfold PAGING64_PAGE_PRESENT; lia). done.
  - rewrite Z.land_lor_distr_l, frame_low by (done || unfold PAGING64_PAGE_LARGE; lia). done.
Qed.

(** The entry of a user page. *)
Definition user_pte (pa protection : Z) : Z := Z.lor (Z.land pa PAGING64_PAGE_MASK) (pte_flags protection).

Lemma pte_flags_cases protection :
  pte_flags protection =
    Z.lor (Z.lor 5 (if nz (Z.land protection 2) then 2 else 0)) (if Z.land protection 4 =? 0 then PAGING64_PAGE_NO_EXECUTE else 0).
Proof. unfold pte_flags. change PAGING64_USER_PROT_WRITE with 2. change PAGING64_USER_PROT_EXECUTE with 4.
  by destruct (nz _), (_ =? 0). Qed.

Lemma user_pte_facts pa protection : page_frame pa ->
  pte_present (user_pte pa protection) = true /\ pte_physical (user_pte pa protection) = pa /\
  pte_protection (user_pte pa protection) =
    Z.lor (Z.lor 1 (if nz (Z.land protection 2) then 2 else 0)) (if Z.land protection 4 =? 0 then 0 else 4) /\
  Z.land (user_pte pa protection) PAGING64_PAGE_USER = PAGING64_PAGE_USER.
Proof.
  intros Hf. unfold user_pte, pte_physical, pte_protection, pte_present. rewrite frame_page_mask by done.
  rewrite pte_flags_cases, !Z.land_lor_distr_l.
  rewrite (frame_low pa PAGING64_PAGE_PRESENT), (frame_low pa PAGING64_PAGE_WRITABLE), (frame_low pa PAGING64_PAGE_USER),
    (frame_nx pa), frame_phys_mask by (done || unfold PAGING64_PAGE_PRESENT, PAGING64_PAGE_WRITABLE, PAGING64_PAGE_USER; lia).
  destruct (nz (Z.land protection 2)), (Z.land protection 4 =? 0); cbn -[Z.lor]; split_and!; try reflexivity;
    change (Z.lor pa 0 = pa); apply Z.lor_0_r.
Qed.

(** ** Where the static tables are *)

Inductive tname := NPml4 (r : nat) | NPdpt (r : nat) | NPd (r : nat) | NPt (r k : nat) | NUser (k : nat).

Abbreviation ROOTS := PAGING64_PROCESS_ROOT_POOL_LIMIT.
Abbreviation PTS := PAGING64_PROCESS_ROOT_VMA_PT_COUNT.

Definition valid (n : tname) : Prop :=
  match n with
  | NPml4 r | NPdpt r | NPd r => (r < ROOTS)%nat
  | NPt r k => (r < ROOTS)%nat /\ (k < PTS)%nat
  | NUser k => (k < PAGING64_VMA_USER_PT_COUNT)%nat
  end.

Section facts.
Context {symbols : PagingSymbols} {launch : Process.LaunchEnv}.

(** Which array a table is in, and where. *)
Definition place (n : tname) : nat * Z * nat :=
  match n with
  | NPml4 r => (0%nat, g_paging64_process_pml4, r)
  | NPdpt r => (1%nat, g_paging64_process_pdpt, r)
  | NPd r => (2%nat, g_paging64_process_runtime_pd, r)
  | NPt r k => (3%nat, g_paging64_process_vma_pts, (r * PTS + k)%nat)
  | NUser k => (4%nat, g_paging64_vma_user_pts, k)
  end.

(** The five arrays and their sizes in pages. *)
Definition static_tables : list (Z * Z) :=
  [(g_paging64_process_pml4, 8); (g_paging64_process_pdpt, 8); (g_paging64_process_runtime_pd, 8);
   (g_paging64_process_vma_pts, 128); (g_paging64_vma_user_pts, 32)].

(** The linker aligns the arrays, keeps them apart and puts them into the
    kernel image, from offset 0x10000 (linker-x86_64.ld): the kernel runs at
    its link addresses, or at the same offsets of the upper half. *)
Class PagingLayout := {
  lay_off : Z;
  lay_limit : Z;
  lay_window : lay_off = PAGING64_KERNEL_VIRTUAL_BASE /\ lay_limit = 2 ^ 64 \/
    lay_off = 0 /\ lay_limit = PAGING64_KERNEL_LINKED_LOW_LIMIT;
  lay_range : forall i a n, static_tables !! i = Some (a, n) ->
    lay_off + PAGING64_KERNEL_LINKED_OFFSET <= a /\ a + n * 4096 <= lay_limit /\ a mod 4096 = 0;
  lay_apart : forall i j a n b m, static_tables !! i = Some (a, n) -> static_tables !! j = Some (b, m) -> i <> j ->
    a + n * 4096 <= b \/ b + m * 4096 <= a }.

Definition frame_of (s : paging_state) (n : tname) : Z := let '(_, a, k) := place n in table s a k.

(** The kernel is loaded page-aligned, below 4 GiB. *)
Definition base_ok (s : paging_state) : Prop :=
  0 <= g_paging64_kernel_physical_base s < 2 ^ 32 /\ g_paging64_kernel_physical_base s mod 4096 = 0.

Lemma place_bound n : valid n -> exists m, static_tables !! fst (fst (place n)) = Some (snd (fst (place n)), m) /\
  Z.of_nat (snd (place n)) < m.
Proof.
  destruct n; simpl; intros Hv; eexists; (split; [reflexivity|]);
    unfold ROOTS, PTS, PAGING64_VMA_USER_PT_COUNT in *; lia.
Qed.

Context {layout : PagingLayout}.

(** In both windows the alias adds the physical base to the offset. *)
Lemma alias_value base a :
  0 <= base < 2 ^ 32 -> lay_off + PAGING64_KERNEL_LINKED_OFFSET <= a < lay_limit ->
  paging64_kernel_physical_alias base a = base + (a - lay_off).
Proof.
  intros Hb Ha. unfold paging64_kernel_physical_alias, add64, sub64, wrap64.
  destruct lay_window as [[E1 E2]|[E1 E2]]; rewrite E1, E2 in *; unfold PAGING64_KERNEL_VIRTUAL_BASE, PAGING64_KERNEL_LINKED_OFFSET, PAGING64_KERNEL_LINKED_LOW_LIMIT in *.
  - rewrite (proj2 (Z.leb_le _ _)) by lia. rewrite (Z.mod_small (a - _)), Z.mod_small by lia. lia.
  - rewrite (proj2 (Z.leb_gt _ _)), (proj2 (Z.leb_le _ a)), (proj2 (Z.ltb_lt _ _)), !andb_true_r by lia.
    destruct (Z.eqb_spec base 0) as [->|_]; cbn [negb]; [lia|]. rewrite Z.mod_small by lia. lia.
Qed.

Lemma frame_value s n : valid n -> base_ok s ->
  frame_of s n = g_paging64_kernel_physical_base s + (snd (fst (place n)) - lay_off) + Z.of_nat (snd (place n)) * 4096 /\
  lay_off + PAGING64_KERNEL_LINKED_OFFSET <= snd (fst (place n)) /\
  snd (fst (place n)) + Z.of_nat (snd (place n)) * 4096 + 4096 <= lay_limit /\ snd (fst (place n)) mod 4096 = 0.
Proof.
  intros Hv [Hb _]. destruct (place_bound n Hv) as (m & Hm & Hk). destruct (lay_range _ _ _ Hm) as (L1 & L2 & L3).
  unfold frame_of. destruct (place n) as [[i a] k]. simpl in *. split_and!; [|lia|lia|lia].
  unfold table, PAGING64_PAGE_BYTES. change 0x1000 with 4096.
  replace (add64 a (Z.of_nat k * 4096)) with (a + Z.of_nat k * 4096).
  - rewrite alias_value by lia. lia.
  - symmetry. unfold add64, wrap64. apply Z.mod_small.
    destruct lay_window as [[E1 E2]|[E1 E2]]; rewrite E1, E2 in *;
      unfold PAGING64_KERNEL_VIRTUAL_BASE, PAGING64_KERNEL_LINKED_OFFSET, PAGING64_KERNEL_LINKED_LOW_LIMIT in *; lia.
Qed.

Lemma frame_page s n : valid n -> base_ok s -> page_frame (frame_of s n) /\ 0 < frame_of s n.
Proof.
  intros Hv Hb. destruct (frame_value s n Hv Hb) as (-> & L1 & L2 & L3). destruct Hb as [Hb1 Hb2].
  set (a := snd (fst (place n))) in *. set (b := g_paging64_kernel_physical_base s) in *. set (k := Z.of_nat (snd (place n))) in *.
  assert (Hk : 0 <= k) by (subst k; lia). unfold page_frame.
  assert (Hoff : exists q, lay_off = q * 4096 /\ lay_limit - lay_off <= 2 ^ 31).
  { destruct lay_window as [[-> ->]|[-> ->]]; [exists 0xFFFFFFFF80000|exists 0]; done. }
  destruct Hoff as (q & Eq & Hq). unfold PAGING64_KERNEL_LINKED_OFFSET in *. split; [split; [lia|]|lia].
  replace (b + (a - lay_off) + k * 4096) with (b + a + (k - q) * 4096) by lia.
  rewrite Z_mod_plus_full, Z.add_mod, Hb2, L3 by lia. done.
Qed.

Lemma place_inj n1 n2 : valid n1 -> valid n2 -> fst (fst (place n1)) = fst (fst (place n2)) ->
  snd (place n1) = snd (place n2) -> n1 = n2.
Proof.
  destruct n1, n2; simpl; intros H1 H2 E1 E2; try done; try (by f_equal).
  unfold PTS in *. assert (r = r0) as -> by lia. f_equal. lia.
Qed.

(** Two static tables are the same frame only if they are the same table. *)
Lemma frame_inj s n1 n2 : valid n1 -> valid n2 -> base_ok s -> frame_of s n1 = frame_of s n2 -> n1 = n2.
Proof.
  intros H1 H2 Hb E. destruct (frame_value s n1 H1 Hb) as (E1 & _). destruct (frame_value s n2 H2 Hb) as (E2 & _).
  destruct (place_bound n1 H1) as (m1 & P1 & Q1). destruct (place_bound n2 H2) as (m2 & P2 & Q2).
  destruct (decide (fst (fst (place n1)) = fst (fst (place n2)))) as [Ei|Ei].
  - apply place_inj; [done|done|done|]. rewrite Ei in P1. rewrite P1 in P2. injection P2 as E3 E4. lia.
  - exfalso. destruct (lay_apart _ _ _ _ _ _ P1 P2 Ei); lia.
Qed.

(** ** Reading and writing entries *)

Definition put (fs : gmap Z (gmap Z Z)) page i v : gmap Z (gmap Z Z) := <[page := <[i := v]> (default ∅ (fs !! page))]> fs.
Definition wipe (fs : gmap Z (gmap Z Z)) (page : Z) : gmap Z (gmap Z Z) := <[page := ∅]> fs.

Lemma entry_put fs page i v p j :
  entry_in (put fs page i v) p j = if decide (page = p /\ i = j) then v else entry_in fs p j.
Proof.
  unfold entry_in, put. destruct (decide (page = p)) as [->|Hp].
  - rewrite lookup_insert_eq. simpl. destruct (decide (i = j)) as [->|Hi].
    + rewrite decide_True, lookup_insert_eq by done. done.
    + rewrite decide_False, lookup_insert_ne by tauto. by destruct (fs !! p).
  - rewrite lookup_insert_ne, decide_False by tauto. done.
Qed.

Lemma entry_wipe fs page p j : entry_in (wipe fs page) p j = if decide (page = p) then 0 else entry_in fs p j.
Proof.
  unfold entry_in, wipe. case_decide as E; [subst; by rewrite lookup_insert_eq|]. by rewrite lookup_insert_ne.
Qed.

(** ** The hardware walk *)

(** The entry the processor reaches for a 4 KiB page, 0 when the walk ends
    earlier. *)
Definition mmu_walk (s : paging_state) (root va : Z) : Z :=
  let pml4e := entry s root (paging64_index64 va 39) in
  if negb (pte_present pml4e) then 0
  else
    let pdpte := entry s (Z.land pml4e PAGING64_PHYSICAL_ADDRESS_MASK) (paging64_index64 va 30) in
    if negb (pte_present pdpte) || nz (Z.land pdpte PAGING64_PAGE_LARGE) then 0
    else
      let pde := entry s (Z.land pdpte PAGING64_PHYSICAL_ADDRESS_MASK) (paging64_index64 va 21) in
      if negb (pte_present pde) || nz (Z.land pde PAGING64_PAGE_LARGE) then 0
      else entry s (Z.land pde PAGING64_PHYSICAL_ADDRESS_MASK) (paging64_index64 va 12).

(** ** The invariant *)

Definition used (x : root_slot) : Prop := nz (root_used x) = true.
Definition ready (y : pt_slot) : Prop := nz (pt_initialized y) = true.

(** A frame that is no static table. *)
Definition foreign (s : paging_state) (page : Z) : Prop := forall n, valid n -> frame_of s n <> page.

(** The entry of the upper half, which the kernel's root has. *)
Definition kernel_high (s : paging_state) : Z := entry s (g_paging64_kernel_root_physical s) PAGING64_HIGH_HALF_PML4_INDEX.

(** The tables of root [r] are linked to each other, to the upper half of
    the kernel and to nothing else; outside the user window nothing is open
    to user mode. *)
Record linked (s : paging_state) (r : nat) (pts : list pt_slot) : Prop := {
  lk_pdpt : entry s (frame_of s (NPml4 r)) 0 = table_entry (frame_of s (NPdpt r));
  lk_high : entry s (frame_of s (NPml4 r)) PAGING64_HIGH_HALF_PML4_INDEX = kernel_high s;
  lk_low : forall j, j <> 0 -> j <> PAGING64_HIGH_HALF_PML4_INDEX -> entry s (frame_of s (NPml4 r)) j = 0;
  lk_guard : forall j, j <> user_window -> Z.land (entry s (frame_of s (NPdpt r)) j) PAGING64_PAGE_USER = 0;
  lk_pd : entry s (frame_of s (NPdpt r)) user_window = table_entry (frame_of s (NPd r));
  lk_pt : forall k y, pts !! k = Some y -> ready y ->
    entry s (frame_of s (NPd r)) (pt_pd_index y) = table_entry (frame_of s (NPt r k));
  lk_none : forall d, (forall k y, pts !! k = Some y -> ready y -> pt_pd_index y <> d) -> entry s (frame_of s (NPd r)) d = 0;
  lk_unique : forall k1 k2 y1 y2, pts !! k1 = Some y1 -> pts !! k2 = Some y2 -> ready y1 -> ready y2 ->
    pt_pd_index y1 = pt_pd_index y2 -> k1 = k2 }.

Record pg_inv (s : paging_state) : Prop := {
  pi_base : base_ok s;
  pi_roots : length (g_paging64_process_roots s) = ROOTS;
  pi_pts : forall r x, g_paging64_process_roots s !! r = Some x -> length (root_pts x) = PTS;
  pi_unique : forall i j x y, g_paging64_process_roots s !! i = Some x -> g_paging64_process_roots s !! j = Some y ->
    used x -> used y -> root_pid x = root_pid y -> i = j;
  pi_pid : forall r x, g_paging64_process_roots s !! r = Some x -> used x -> root_pid x <> 0 /\ root_pid x <> PAGING64_INVALID_PID;
  pi_linked : forall r x, g_paging64_process_roots s !! r = Some x -> used x -> linked s r (root_pts x);
  pi_kernel : page_frame (g_paging64_kernel_root_physical s) /\ g_paging64_kernel_root_physical s <> 0 /\
    forall n, valid n -> frame_of s n <> g_paging64_kernel_root_physical s;
  pi_count : g_paging64_process_root_pool_used s = Z.of_nat (count_if (fun x => nz (root_used x)) (g_paging64_process_roots s)) }.

Lemma kernel_foreign s : pg_inv s -> foreign s (g_paging64_kernel_root_physical s).
Proof. intros Hi. exact (proj2 (proj2 (pi_kernel _ Hi))). Qed.

(** A store into a static table leaves the kernel's upper half. *)
Lemma kernel_high_put s s' n i v :
  pg_inv s -> valid n -> frames s' = put (frames s) (frame_of s n) i v ->
  g_paging64_kernel_root_physical s' = g_paging64_kernel_root_physical s -> kernel_high s' = kernel_high s.
Proof.
  intros Hi Hn Ef Ek. unfold kernel_high, entry. rewrite Ef, Ek, entry_put, decide_False; [done|].
  intros [E _]. by apply (kernel_foreign _ Hi n).
Qed.

(** The parts of the state the invariant is about. *)
Definition pcore (s : paging_state) :=
  (frames s, g_paging64_kernel_physical_base s, g_paging64_process_roots s, g_paging64_kernel_root_physical s,
   g_paging64_process_root_pool_used s).

Lemma pcore_inj s s' : pcore s' = pcore s ->
  frames s' = frames s /\ g_paging64_kernel_physical_base s' = g_paging64_kernel_physical_base s /\
  g_paging64_process_roots s' = g_paging64_process_roots s /\
  g_paging64_kernel_root_physical s' = g_paging64_kernel_root_physical s /\
  g_paging64_process_root_pool_used s' = g_paging64_process_root_pool_used s.
Proof. unfold pcore. by intros [= -> -> -> -> ->]. Qed.

Lemma frame_base s s' n : g_paging64_kernel_physical_base s' = g_paging64_kernel_physical_base s -> frame_of s' n = frame_of s n.
Proof. intros E. unfold frame_of, table. by rewrite E. Qed.

Lemma linked_ext s s' r pts :
  kernel_high s' = kernel_high s ->
  g_paging64_kernel_physical_base s' = g_paging64_kernel_physical_base s ->
  (forall i, entry s' (frame_of s (NPml4 r)) i = entry s (frame_of s (NPml4 r)) i) ->
  (forall i, entry s' (frame_of s (NPdpt r)) i = entry s (frame_of s (NPdpt r)) i) ->
  (forall i, entry s' (frame_of s (NPd r)) i = entry s (frame_of s (NPd r)) i) -> linked s r pts -> linked s' r pts.
Proof.
  intros Eh Eb E1 E2 E3 [L1 H1 H2 H3 L2 L3 L4 L5]. split; try done; intros; rewrite ?(frame_base s s') by done.
  - by rewrite E1.
  - by rewrite E1, Eh.
  - rewrite E1. by apply H2.
  - rewrite E2. by apply H3.
  - by rewrite E2.
  - rewrite E3. by apply L3.
  - rewrite E3. by apply L4.
Qed.

Lemma pg_inv_core s s' : pcore s' = pcore s -> pg_inv s -> pg_inv s'.
Proof.
  intros (E1 & E2 & E3 & E4 & E5)%pcore_inj []. split; rewrite ?E3, ?E4, ?E5; try done.
  - unfold base_ok. by rewrite E2.
  - intros r x Hx Hu. eapply linked_ext; [unfold kernel_high, entry; by rewrite E1, E4|done|..|by apply pi_linked0]; intros i; unfold entry; by rewrite E1.
  - destruct pi_kernel0 as (K1 & K2 & K3). split_and!; [done|done|]. intros n Hn. rewrite (frame_base s s') by done. auto.
Qed.

(** ** Looking up *)

Lemma find_slot_some s pid r : paging64_process_root_find_slot s pid = Some r ->
  exists x, g_paging64_process_roots s !! r = Some x /\ used x /\ root_pid x = pid.
Proof.
  unfold paging64_process_root_find_slot. destruct (_ || _); [done|]. intros (x & Hx & Hp)%find_index_lookup.
  exists x. apply andb_true_iff in Hp as [H1 H2%Z.eqb_eq]. done.
Qed.

(** The entry of a page of root [r]. *)
Definition pentry (s : paging_state) (r : nat) (va : Z) : Z :=
  match pt_find (pts_of s r) (paging64_index64 va 21) with
  | Some k => entry s (frame_of s (NPt r k)) (paging64_index64 va 12)
  | None => 0
  end.

Definition in_window (va : Z) : Prop := paging64_index64 va 39 = 0 /\ paging64_index64 va 30 = user_window.

Lemma pt_find_some pts d k : pt_find pts d = Some k -> exists y, pts !! k = Some y /\ ready y /\ pt_pd_index y = d.
Proof.
  intros (y & Hy & Hp)%find_index_lookup. exists y. apply andb_true_iff in Hp as [H1 H2%Z.eqb_eq]. done.
Qed.
Lemma pt_find_none pts d : pt_find pts d = None -> forall k y, pts !! k = Some y -> ready y -> pt_pd_index y <> d.
Proof.
  intros H k y Hy Hr Hd. pose proof (proj1 (find_index_None _ _) H) as Hn.
  unfold ready in Hr. specialize (Hn y ltac:(by eapply list_elem_of_lookup_2)). simpl in Hn. by rewrite Hr, Hd, Z.eqb_refl in Hn.
Qed.

(** What the software lookup reads is what the processor would reach. *)
Lemma walk_pentry s r x va :
  pg_inv s -> g_paging64_process_roots s !! r = Some x -> used x -> in_window va ->
  mmu_walk s (frame_of s (NPml4 r)) va = pentry s r va.
Proof.
  intros Hi Hx Hu [W1 W2]. destruct (pi_linked _ Hi r x Hx Hu) as [L1 _ _ _ L2 L3 L4 L5].
  assert (Hr : (r < ROOTS)%nat) by (rewrite <- (pi_roots _ Hi); by eapply lookup_lt_Some).
  unfold mmu_walk, pentry, pts_of. rewrite Hx, W1, W2, L1. simpl.
  destruct (table_entry_facts (frame_of s (NPdpt r))) as (F1 & F2 & _); [apply frame_page; [done|apply Hi]|].
  rewrite F2, F1, L2. cbn [negb]. destruct (table_entry_facts (frame_of s (NPd r))) as (G1 & G2 & G3); [apply frame_page; [done|apply Hi]|].
  rewrite G2, G3, G1. cbn [negb orb]. destruct (pt_find _ _) as [k|] eqn:Hk.
  - apply pt_find_some in Hk as (y & Hy & Hry & <-). rewrite (L3 k y Hy Hry).
    assert (Hkl : (k < PTS)%nat) by (rewrite <- (pi_pts _ Hi r x Hx); by eapply lookup_lt_Some).
    destruct (table_entry_facts (frame_of s (NPt r k))) as (K1 & K2 & K3); [apply frame_page; [done|apply Hi]|].
    by rewrite K2, K3, K1.
  - rewrite L4; [done|]. by apply pt_find_none.
Qed.

End facts.
End PagingFacts.
