(* ===== verification/PagingOps.v ===== *)
(** * Effects of the page-table routines

    Each routine against the invariant of PagingFacts.v: which entries of
    which root it changes, and that the roots stay linked. *)

From S2P Require Import Prelude Principal Services64 Process Paging PagingFacts.
Import Paging PagingFacts.
Local Open Scope Z_scope.
Local Open Scope kernel_scope.

Module PagingOps.

#[export] Instance tname_eq : EqDecision tname.
Proof. solve_decision. Defined.

Section ops.
Context {symbols : PagingSymbols} {layout : PagingLayout} {launch : Process.LaunchEnv}.
Implicit Types (s : paging_state) (n : tname) (r k : nat) (va pa : Z).

Definition with_frames fs s : paging_state := s <| frames := fs |>.

Lemma put_wp page i v s (Q : unit -> paging_state -> Prop) :
  Q tt (with_frames (put (frames s) page i v) s) -> wp (put_entry page i v) Q s.
Proof. done. Qed.

Lemma with_frames_twice f1 f2 s : with_frames f2 (with_frames f1 s) = with_frames f2 s.
Proof. by destruct s. Qed.

(** Writing to one static table, reading from another. *)
Lemma entry_put_frame s fs n i v n' j :
  base_ok s -> valid n -> valid n' ->
  entry_in (put fs (frame_of s n) i v) (frame_of s n') j =
    if decide (n = n' /\ i = j) then v else entry_in fs (frame_of s n') j.
Proof.
  intros Hb Hn Hn'. rewrite entry_put. destruct (decide (n = n' /\ i = j)) as [[-> ->]|Hne].
  - by rewrite decide_True.
  - rewrite decide_False; [done|]. intros [E1 E2]. apply Hne. split; [|done]. by eapply frame_inj.
Qed.

Lemma entry_wipe_frame s fs n n' j :
  base_ok s -> valid n -> valid n' ->
  entry_in (wipe fs (frame_of s n)) (frame_of s n') j = if decide (n = n') then 0 else entry_in fs (frame_of s n') j.
Proof.
  intros Hb Hn Hn'. rewrite entry_wipe. destruct (decide (n = n')) as [->|Hne]; [by rewrite decide_True|].
  rewrite decide_False; [done|]. intros E. by apply Hne; eapply frame_inj.
Qed.

(** ** The tables of a root once a page is installed *)

(** [pts'] is [pts] with table [k] ready for directory index [d]. *)
Definition installed_frames s fs r k (d i pte : Z) : gmap Z (gmap Z Z) :=
  put (put (put (put fs (frame_of s (NPml4 r)) 0 (table_entry (frame_of s (NPdpt r))))
                    (frame_of s (NPdpt r)) user_window (table_entry (frame_of s (NPd r))))
                (frame_of s (NPd r)) d (table_entry (frame_of s (NPt r k))))
    (frame_of s (NPt r k)) i pte.

Lemma entry_installed s fs r k d i pte n j :
  base_ok s -> (r < ROOTS)%nat -> (k < PTS)%nat -> valid n ->
  entry_in (installed_frames s fs r k d i pte) (frame_of s n) j =
    if decide (n = NPt r k /\ j = i) then pte
    else if decide (n = NPd r /\ j = d) then table_entry (frame_of s (NPt r k))
    else if decide (n = NPdpt r /\ j = user_window) then table_entry (frame_of s (NPd r))
    else if decide (n = NPml4 r /\ j = 0) then table_entry (frame_of s (NPdpt r))
    else entry_in fs (frame_of s n) j.
Proof.
  intros Hb Hr Hk Hn. unfold installed_frames. rewrite !entry_put_frame by done.
  repeat case_decide; naive_solver.
Qed.

(** [y] takes place [k] of the list; the others keep theirs. *)
Definition pts_set (pts : list pt_slot) k (d : Z) : list pt_slot := alter (fun _ => mk_pt 1 d) k pts.

Lemma pts_set_lookup pts k d k' y : pts_set pts k d !! k' = Some y ->
  (k' = k /\ y = mk_pt 1 d) \/ (k' <> k /\ pts !! k' = Some y).
Proof.
  unfold pts_set. rewrite list_lookup_alter. case_decide as E; [subst|by right].
  destruct (pts !! k'); [|done]. intros [= <-]. by left.
Qed.

Lemma linked_installed s s' r k pts d i pte fs :
  base_ok s -> (r < ROOTS)%nat -> (k < PTS)%nat -> (k < length pts)%nat -> linked s r pts -> kernel_high s' = kernel_high s ->
  g_paging64_kernel_physical_base s' = g_paging64_kernel_physical_base s ->
  frames s' = installed_frames s fs r k d i pte ->
  (forall n j, valid n -> n <> NPt r k -> entry_in fs (frame_of s n) j = entry s (frame_of s n) j) ->
  (pt_find pts d = Some k \/ pt_find pts d = None /\ exists y, pts !! k = Some y /\ ~ ready y) ->
  linked s' r (pts_set pts k d).
Proof.
  intros Hb Hr Hk Hlen HL Eh Eb Ef Hfs Hfind.
  assert (He : forall n j, valid n -> entry s' (frame_of s n) j =
    if decide (n = NPt r k /\ j = i) then pte
    else if decide (n = NPd r /\ j = d) then table_entry (frame_of s (NPt r k))
    else if decide (n = NPdpt r /\ j = user_window) then table_entry (frame_of s (NPd r))
    else if decide (n = NPml4 r /\ j = 0) then table_entry (frame_of s (NPdpt r))
    else entry_in fs (frame_of s n) j) by (intros n j Hn; unfold entry; rewrite Ef; by apply entry_installed).
  assert (Hother : forall k' y, k' <> k -> pts !! k' = Some y -> ready y -> pt_pd_index y <> d).
  { intros k' y Hne Hy Hry Hd. destruct Hfind as [(z & Hz & Hrz & Ez)%pt_find_some|[Hn _]].
    - apply Hne. eapply (lk_unique _ _ _ HL); eauto. congruence.
    - by apply (pt_find_none _ _ Hn k' y). }
  assert (Hset : pts_set pts k d !! k = Some (mk_pt 1 d)).
  { unfold pts_set. rewrite list_lookup_alter, decide_True by done. by apply lookup_lt_is_Some_2 in Hlen as [y ->]. }
  split; intros; rewrite ?(frame_base s s') by done.
  - rewrite He by done. repeat case_decide; naive_solver.
  - rewrite He, !decide_False, Hfs by naive_solver. rewrite Eh. apply (lk_high _ _ _ HL).
  - rewrite He, !decide_False, Hfs by naive_solver. by apply (lk_low _ _ _ HL).
  - rewrite He, !decide_False, Hfs by naive_solver. by apply (lk_guard _ _ _ HL).
  - rewrite He by done. repeat case_decide; naive_solver.
  - rewrite He by done. rewrite decide_False by naive_solver. apply pts_set_lookup in H as [[-> ->]|[Hne Hy]].
    + by rewrite decide_True.
    + rewrite decide_False by (intros [_ E]; by apply (Hother k0 y)). rewrite !decide_False by naive_solver.
      rewrite Hfs by done. by apply (lk_pt _ _ _ HL).
  - rewrite He by done. rewrite decide_False by naive_solver. destruct (decide (d0 = d)) as [->|Hd].
    { exfalso. by apply (H k (mk_pt 1 d)). }
    rewrite !decide_False by naive_solver. rewrite Hfs by done. apply (lk_none _ _ _ HL).
    intros k' y Hy Hry Hdy. destruct (decide (k' = k)) as [->|Hne].
    + destruct Hfind as [(z & Hz & Hrz & Ez)%pt_find_some|[_ (z & Hz & Hnz)]]; [|congruence]. congruence.
    + apply (H k' y); [|done|done]. unfold pts_set. by rewrite list_lookup_alter_ne.
  - apply pts_set_lookup in H as [[-> ->]|[N1 Y1]], H0 as [[-> ->]|[N2 Y2]]; try done.
    + exfalso. by apply (Hother k2 y2).
    + exfalso. by apply (Hother k1 y1).
    + by eapply (lk_unique _ _ _ HL).
Qed.

(** ** One root changes *)

Definition of_root n r : Prop :=
  match n with NPml4 r' | NPdpt r' | NPd r' | NPt r' _ => r' = r | NUser _ => False end.

Lemma pg_inv_root s s' r x pts' :
  pg_inv s -> g_paging64_process_roots s !! r = Some x ->
  g_paging64_process_roots s' = alter (fun x => x <| root_pts := pts' |>) r (g_paging64_process_roots s) ->
  g_paging64_kernel_physical_base s' = g_paging64_kernel_physical_base s ->
  g_paging64_kernel_root_physical s' = g_paging64_kernel_root_physical s ->
  g_paging64_process_root_pool_used s' = g_paging64_process_root_pool_used s ->
  kernel_high s' = kernel_high s -> length pts' = PTS -> (used x -> linked s' r pts') ->
  (forall n j, valid n -> ~ of_root n r -> entry s' (frame_of s n) j = entry s (frame_of s n) j) -> pg_inv s'.
Proof.
  intros Hi Hx Er Eb Ek Ep Eh Hlen Hl Hent.
  assert (Hlook : forall r' y, g_paging64_process_roots s' !! r' = Some y ->
    exists z, g_paging64_process_roots s !! r' = Some z /\ root_used y = root_used z /\ root_pid y = root_pid z /\
      (r' = r /\ root_pts y = pts' \/ r' <> r /\ y = z)).
  { intros r' y. rewrite Er, list_lookup_alter. case_decide as E; [subst r'|].
    - rewrite Hx. intros [= <-]. exists x. split_and!; try done. by left.
    - intros Hy. exists y. split_and!; try done. by right. }
  split.
  - unfold base_ok. rewrite Eb. apply Hi.
  - rewrite Er, length_alter. apply Hi.
  - intros r' y Hy. destruct (Hlook r' y Hy) as (z & Hz & _ & _ & [[-> ->]|[_ ->]]); [done|]. by apply (pi_pts _ Hi r').
  - intros a b y1 y2 H1 H2 U1 U2 Hp. destruct (Hlook a y1 H1) as (z1 & Z1 & E1 & P1 & _), (Hlook b y2 H2) as (z2 & Z2 & E2 & P2 & _).
    unfold used in *. eapply (pi_unique _ Hi); eauto; unfold used; congruence.
  - intros r' y Hy Hu. destruct (Hlook r' y Hy) as (z & Hz & E1 & -> & _). apply (pi_pid _ Hi r'); [done|]. unfold used in *. congruence.
  - intros r' y Hy Hu. destruct (Hlook r' y Hy) as (z & Hz & E1 & P1 & [[-> ->]|[Hne ->]]).
    + apply Hl. unfold used in *. assert (z = x) as <- by congruence. congruence.
    + assert (Hr : (r' < ROOTS)%nat) by (rewrite <- (pi_roots _ Hi); by eapply lookup_lt_Some).
      eapply linked_ext; [done|done|..|by apply (pi_linked _ Hi)]; intros j; by apply Hent.
  - rewrite Ek. destruct (pi_kernel _ Hi) as (K1 & K2 & K3). split_and!; [done|done|]. intros n Hn. rewrite (frame_base s s') by done. auto.
  - rewrite Ep, Er, count_if_alter_same; [apply Hi|done].
Qed.

(** Two lists with the same ready tables link the same. *)
Lemma linked_view s r pts pts' :
  (forall k y', pts' !! k = Some y' -> exists y, pts !! k = Some y /\ pt_pd_index y = pt_pd_index y' /\ (ready y <-> ready y')) ->
  (forall k y, pts !! k = Some y -> exists y', pts' !! k = Some y' /\ pt_pd_index y = pt_pd_index y' /\ (ready y <-> ready y')) ->
  linked s r pts -> linked s r pts'.
Proof.
  intros H1 H2 [L1 K1 K2 K3 L2 L3 L4 L5]. split; try done.
  - intros k y' Hy Hr. destruct (H1 k y' Hy) as (y & Hy0 & <- & Hrr). apply L3; [done|]. tauto.
  - intros d Hd. apply L4. intros k y Hy Hr. destruct (H2 k y Hy) as (y' & Hy' & -> & Hrr). apply (Hd k y' Hy'). tauto.
  - intros k1 k2 y1 y2 Y1 Y2 R1 R2 E. destruct (H1 k1 y1 Y1) as (z1 & Z1 & D1 & Q1), (H1 k2 y2 Y2) as (z2 & Z2 & D2 & Q2).
    eapply (L5 k1 k2); eauto; [tauto|tauto|congruence].
Qed.

Lemma linked_set_found s r pts k d : pt_find pts d = Some k -> linked s r (pts_set pts k d) -> linked s r pts.
Proof.
  intros (y & Hy & Hr & Hd)%pt_find_some. apply linked_view.
  - intros k' y' Hy'. unfold pts_set. rewrite list_lookup_alter. case_decide as E; [subst k'|eauto].
    rewrite Hy'. eexists. split; [done|]. assert (y' = y) as -> by congruence. done.
  - intros k' y' [[-> ->]|[Hne Hy']]%pts_set_lookup; [|eauto]. exists y. done.
Qed.

(** ** Installing a page in the root of a process *)

(** The directory and table index of a page. *)
Definition page_index va : Z * Z := (paging64_index64 va 21, paging64_index64 va 12).

(** Owner data of the roots, the root in use and the kernel's are kept. *)
Definition identity (x : root_slot) := (root_used x, root_pid x, root_owner x, root_token x).
Record stable s s' : Prop := {
  sb_cr3 : cr3 s' = cr3 s;
  sb_base : g_paging64_kernel_physical_base s' = g_paging64_kernel_physical_base s;
  sb_kernel : g_paging64_kernel_root_physical s' = g_paging64_kernel_root_physical s;
  sb_roots : identity <$> g_paging64_process_roots s' = identity <$> g_paging64_process_roots s }.

Lemma stable_refl s : stable s s.
Proof. done. Qed.
Lemma stable_trans s1 s2 s3 : stable s1 s2 -> stable s2 s3 -> stable s1 s3.
Proof. intros [A1 A2 A3 A4] [B1 B2 B3 B4]. split; etrans; eassumption. Qed.

Lemma find_index_fmap {A B} (f : A -> B) (P : B -> bool) (l : list A) : find_index (fun x => P (f x)) l = find_index P (f <$> l).
Proof. induction l as [|x l IH]; simpl; [done|]. destruct (P (f x)); [done|]. by rewrite IH. Qed.

Lemma stable_find s s' pid : stable s s' -> paging64_process_root_find_slot s' pid = paging64_process_root_find_slot s pid.
Proof.
  intros Hs. unfold paging64_process_root_find_slot. destruct (_ || _); [done|].
  pose proof (find_index_fmap identity (fun '(u, p, _, _) => nz u && (p =? pid))) as Hf. cbv beta iota delta [identity] in Hf.
  rewrite !Hf. f_equal. apply (sb_roots _ _ Hs).
Qed.

(** The entry of one page changed, and no other page's. *)
Definition page_set s s' r va (e : Z) : Prop :=
  pentry s' r va = e /\ forall r' va', (r' <> r \/ page_index va' <> page_index va) -> pentry s' r' va' = pentry s r' va'.

(** The request is out of the window, misaligned or empty, or it needs a
    page table and all of the root are taken. *)
Definition install_refused s r va pa prot : bool :=
  install_denied va pa prot ||
    match pt_find (pts_of s r) (paging64_index64 va 21) with Some _ => false | None => negb (bool_decide (is_Some (pt_free (pts_of s r)))) end.

Definition install_result s r va pa prot v s' : Prop :=
  pg_inv s' /\ stable s s' /\
    (v = 0 /\ install_refused s r va pa prot = true /\ (forall r' va', pentry s' r' va' = pentry s r' va') \/
     v = 1 /\ install_refused s r va pa prot = false /\ page_set s s' r va (user_pte pa prot)).

Lemma pts_of_alter s s' r x pts' r' :
  g_paging64_process_roots s !! r = Some x ->
  g_paging64_process_roots s' = alter (fun x => x <| root_pts := pts' |>) r (g_paging64_process_roots s) ->
  pts_of s' r' = if decide (r' = r) then pts' else pts_of s r'.
Proof.
  intros Hx E. unfold pts_of. rewrite E, list_lookup_alter. case_decide as E1; [subst r'|]; case_decide as E2; try congruence.
  by rewrite Hx.
Qed.

Lemma pt_find_set pts k d d' : (k < length pts)%nat ->
  (pt_find pts d = Some k \/ pt_find pts d = None /\ exists y, pts !! k = Some y /\ ~ ready y) ->
  (forall k1 k2 y1 y2, pts !! k1 = Some y1 -> pts !! k2 = Some y2 -> ready y1 -> ready y2 -> pt_pd_index y1 = pt_pd_index y2 -> k1 = k2) ->
  pt_find (pts_set pts k d) d' = if decide (d' = d) then Some k else pt_find pts d'.
Proof.
  intros Hk Hf Hu. assert (Hset : pts_set pts k d !! k = Some (mk_pt 1 d)).
  { unfold pts_set. rewrite list_lookup_alter, decide_True by done. by apply lookup_lt_is_Some_2 in Hk as [y ->]. }
  case_decide as E; [subst d'|].
  - apply find_index_unique with (x := mk_pt 1 d); [done|simpl; apply Z.eqb_refl|].
    intros k' y Hy [Hr Hd%Z.eqb_eq]%andb_true_iff. apply pts_set_lookup in Hy as [[-> _]|[Hne Hy]]; [done|].
    destruct Hf as [(z & Hz & Hrz & Ez)%pt_find_some|[Hn _]].
    + eapply Hu; eauto. congruence.
    + by destruct (pt_find_none _ _ Hn k' y Hy Hr).
  - unfold pt_find. destruct (find_index _ pts) as [k'|] eqn:Hk'.
    + apply find_index_lookup in Hk' as Hy. destruct Hy as (y & Hy & [Hr Hd%Z.eqb_eq]%andb_true_iff).
      assert (Hne : k' <> k).
      { intros ->. destruct Hf as [(z & Hz & Hrz & Ez)%pt_find_some|[_ (z & Hz & Hnz)]]; [congruence|]. assert (z = y) as -> by congruence. done. }
      apply find_index_unique with (x := y).
      * unfold pts_set. by rewrite list_lookup_alter_ne.
      * by rewrite Hr, Hd, Z.eqb_refl.
      * intros k2 y2 Hy2 [Hr2 Hd2%Z.eqb_eq]%andb_true_iff. apply pts_set_lookup in Hy2 as [[-> ->]|[Hne2 Hy2]]; [simpl in *; congruence|].
        eapply Hu; eauto. congruence.
    + apply find_index_None. intros y (k2 & Hy)%list_elem_of_lookup_1. apply pts_set_lookup in Hy as [[-> ->]|[Hne2 Hy]].
      * simpl. by apply Z.eqb_neq.
      * apply (proj1 (find_index_None _ _) Hk'). by eapply list_elem_of_lookup_2.
Qed.

(** A state in which [va] was installed into table [k] of root [r]. *)
Lemma page_installed s s' r x k va pte fs :
  pg_inv s -> g_paging64_process_roots s !! r = Some x -> used x -> (k < PTS)%nat ->
  (pt_find (root_pts x) (paging64_index64 va 21) = Some k /\
   g_paging64_process_roots s' = g_paging64_process_roots s /\
   (forall n j, valid n -> entry_in fs (frame_of s n) j = entry s (frame_of s n) j)
   \/ pt_find (root_pts x) (paging64_index64 va 21) = None /\ (exists y, root_pts x !! k = Some y /\ ~ ready y) /\
   g_paging64_process_roots s' =
     alter (fun x => x <| root_pts := pts_set (root_pts x) k (paging64_index64 va 21) |>) r (g_paging64_process_roots s) /\
   (forall n j, valid n -> entry_in fs (frame_of s n) j = if decide (n = NPt r k) then 0 else entry s (frame_of s n) j)) ->
  (forall page j, foreign s page -> entry_in fs page j = entry s page j) ->
  frames s' = installed_frames s fs r k (paging64_index64 va 21) (paging64_index64 va 12) pte ->
  g_paging64_kernel_physical_base s' = g_paging64_kernel_physical_base s ->
  g_paging64_kernel_root_physical s' = g_paging64_kernel_root_physical s ->
  g_paging64_process_root_pool_used s' = g_paging64_process_root_pool_used s ->
  pg_inv s' /\ page_set s s' r va pte /\ identity <$> g_paging64_process_roots s' = identity <$> g_paging64_process_roots s.
Proof.
  intros Hi Hx Hu Hk Hcase Hfor Ef Eb Ekr Epu. set (d := paging64_index64 va 21) in *. set (i := paging64_index64 va 12) in *.
  pose proof (pi_base _ Hi) as Hb. assert (Hr : (r < ROOTS)%nat) by (rewrite <- (pi_roots _ Hi); by eapply lookup_lt_Some).
  pose proof (pi_linked _ Hi r x Hx Hu) as HL. pose proof (pi_pts _ Hi r x Hx) as Hlen.
  set (pts' := pts_set (root_pts x) k d).
  assert (Hfs : forall n j, valid n -> n <> NPt r k -> entry_in fs (frame_of s n) j = entry s (frame_of s n) j).
  { intros n j Hn Hne. destruct Hcase as [(_ & _ & H)|(_ & _ & _ & H)]; rewrite H by done; [done|]. by rewrite decide_False. }
  assert (Hfind : pt_find (root_pts x) d = Some k \/ pt_find (root_pts x) d = None /\ exists y, root_pts x !! k = Some y /\ ~ ready y) by tauto.
  assert (Eh : kernel_high s' = kernel_high s).
  { destruct (pi_kernel _ Hi) as (_ & _ & K3). unfold kernel_high, entry at 1. rewrite Ekr, Ef. unfold installed_frames.
    rewrite !entry_put, !decide_False by (intros [E _]; revert E; by apply K3). by apply Hfor. }
  assert (HL' : linked s' r pts') by (eapply linked_installed; try done; lia).
  (* the list of the root, whether the table was there or not *)
  assert (Hroots : exists pts0, length pts0 = PTS /\ linked s' r pts0 /\
    g_paging64_process_roots s' = alter (fun x => x <| root_pts := pts0 |>) r (g_paging64_process_roots s) /\
    (forall d', pt_find pts0 d' = if decide (d' = d) then Some k else pt_find (root_pts x) d')).
  { assert (Hset : forall d', pt_find pts' d' = if decide (d' = d) then Some k else pt_find (root_pts x) d').
    { intros d'. apply pt_find_set; [lia|done|]. apply (lk_unique _ _ _ HL). }
    destruct Hcase as [(Hfk & Er & _)|(Hfn & _ & Er & _)].
    - exists (root_pts x). split_and!; [done|by eapply linked_set_found| |intros d'; case_decide; [by subst|done]].
      rewrite Er. apply list_eq. intros j. rewrite list_lookup_alter. case_decide; [subst j|done]. rewrite Hx. by destruct x.
    - exists pts'. split_and!; [unfold pts', pts_set; by rewrite length_alter|done| |done].
      rewrite Er. apply list_alter_ext; [|done]. intros z Hz. by assert (z = x) as -> by congruence. }
  destruct Hroots as (pts0 & Hl0 & HL0 & Er0 & Hf0).
  assert (He : forall n j, valid n -> ~ of_root n r -> entry s' (frame_of s n) j = entry s (frame_of s n) j).
  { intros n j Hn Ho. unfold entry. rewrite Ef, entry_installed by done.
    rewrite !decide_False by (intros [-> _]; by apply Ho). apply Hfs; [done|]. intros ->. by apply Ho. }
  split_and!.
  - by eapply (pg_inv_root s s' r x pts0).
  - unfold page_set, pentry. split.
    + rewrite (pts_of_alter s s' r x pts0 r Hx Er0), decide_True by done. fold d. rewrite Hf0, decide_True by done.
      unfold entry. rewrite (frame_base s s'), Ef, entry_installed by done. by rewrite decide_True.
    + intros r' va' Hne. rewrite (pts_of_alter s s' r x pts0 r' Hx Er0). destruct (decide (r' = r)) as [->|Hrr].
      * assert (Hp : pts_of s r = root_pts x) by (unfold pts_of; by rewrite Hx). rewrite Hp, Hf0.
        destruct (decide (paging64_index64 va' 21 = d)) as [Ed|Ed].
        -- assert (Ei : paging64_index64 va' 12 <> i) by (intros Ei; destruct Hne as [?|Hne]; [done|]; apply Hne; unfold page_index; by rewrite Ed, Ei).
           rewrite (frame_base s s') by done. unfold entry. rewrite Ef, entry_installed by done. rewrite !decide_False by naive_solver.
           rewrite Ed. destruct Hcase as [(Hfk & _ & Hfs')|(Hfn & _ & _ & Hfs')]; rewrite Hfs' by done.
           ++ by rewrite Hfk.
           ++ by rewrite Hfn, decide_True.
        -- destruct (pt_find (root_pts x) (paging64_index64 va' 21)) as [k'|] eqn:Hk'; [|done]. rewrite (frame_base s s') by done.
           apply pt_find_some in Hk' as (y & Hy & Hry & Edy).
           assert (Hkk : k' <> k).
           { intros ->. destruct Hfind as [(z & Hz & _ & Ez)%pt_find_some|[_ (z & Hz & Hnz)]]; [congruence|]. assert (z = y) as -> by congruence. done. }
           assert (Hk2 : (k' < PTS)%nat) by (rewrite <- Hlen; by eapply lookup_lt_Some).
           unfold entry. rewrite Ef, entry_installed by done. rewrite !decide_False by naive_solver. by apply Hfs; [|naive_solver].
      * destruct (pt_find (pts_of s r') _) as [k'|] eqn:Hk'; [|done]. rewrite (frame_base s s') by done.
        apply pt_find_some in Hk' as (y & Hy & _). unfold pts_of in Hy.
        destruct (g_paging64_process_roots s !! r') as [z|] eqn:Hz; [|done]. simpl in Hy.
        apply He; [|simpl; congruence]. split; [rewrite <- (pi_roots _ Hi); by eapply lookup_lt_Some|].
        rewrite <- (pi_pts _ Hi r' z Hz). by eapply lookup_lt_Some.
  - rewrite Er0. apply list_eq. intros r'. rewrite !list_lookup_fmap, list_lookup_alter. case_decide as E; [|done].
    subst r'. by destruct (g_paging64_process_roots s !! r).
Qed.

Lemma pentry_core s s' r va : pcore s' = pcore s -> pentry s' r va = pentry s r va.
Proof.
  intros (E1 & E2 & E3 & _ & _)%pcore_inj. unfold pentry, pts_of. rewrite E3. destruct (pt_find _ _); [|done].
  unfold entry. by rewrite E1, (frame_base s s').
Qed.

(** What [paging64_process_vma_user_pt_acquire_slot] leaves behind. *)
Lemma acquire_pt_wp s r x d (Q : option nat -> paging_state -> Prop) :
  g_paging64_process_roots s !! r = Some x ->
  (pt_find (root_pts x) d = None -> pt_free (root_pts x) = None -> Q None s) ->
  (forall k, pt_find (root_pts x) d = Some k -> Q (Some k) s) ->
  (forall k, pt_find (root_pts x) d = None -> pt_free (root_pts x) = Some k -> (exists y, root_pts x !! k = Some y /\ ~ ready y) ->
     Q (Some k) (with_frames (wipe (frames s) (frame_of s (NPt r k))) s
       <| g_paging64_process_roots := alter (fun x => x <| root_pts := pts_set (root_pts x) k d |>) r (g_paging64_process_roots s) |>)) ->
  wp (paging64_process_vma_user_pt_acquire_slot r d) Q s.
Proof.
  intros Hx HN HF HA. unfold paging64_process_vma_user_pt_acquire_slot. apply wp_bind, wp_gets.
  unfold paging64_process_vma_user_pt_find_slot, pts_of. rewrite Hx. simpl. destruct (pt_find (root_pts x) d) as [k|] eqn:Hf.
  { by apply wp_ret, HF. }
  apply wp_bind, wp_gets. unfold pts_of. rewrite Hx. simpl. destruct (pt_free (root_pts x)) as [k|] eqn:Hk; [|by apply wp_ret, HN].
  apply wp_bind, wp_gets, wp_bind, wp_modify, wp_bind, wp_modify, wp_ret. apply HA; [done|done|].
  apply find_index_lookup in Hk as (y & Hy & E%Z.eqb_eq). exists y. split; [done|]. unfold ready. by rewrite E.
Qed.

Lemma enable_nx_wp prot s (Q : unit -> paging_state -> Prop) :
  (forall v, Q tt (s <| efer := v |>)) -> wp (enable_nx prot) Q s.
Proof.
  intros HQ. unfold enable_nx. destruct (_ =? 0); [by apply wp_modify, HQ|]. apply wp_ret.
  replace s with (s <| efer := efer s |>) by (by destruct s). apply HQ.
Qed.

Lemma reload_wp a s (Q : unit -> paging_state -> Prop) : Q tt s -> wp (paging64_reload_root_if_active a) Q s.
Proof.
  intros HQ. apply wp_bind, wp_gets. destruct (_ =? _); [apply wp_modify|by apply wp_ret].
  replace (s <| cr3 := cr3 s |>) with s by (by destruct s). done.
Qed.

(** The entries written once the table [k] is there. *)
Lemma install_tail_wp s0 s1 r x k va pa prot :
  pg_inv s0 -> g_paging64_process_roots s0 !! r = Some x -> used x -> (k < PTS)%nat -> install_refused s0 r va pa prot = false ->
  (s1 = s0 /\ pt_find (root_pts x) (paging64_index64 va 21) = Some k \/
   s1 = with_frames (wipe (frames s0) (frame_of s0 (NPt r k))) s0
       <| g_paging64_process_roots := alter (fun x => x <| root_pts := pts_set (root_pts x) k (paging64_index64 va 21) |>) r (g_paging64_process_roots s0) |> /\
   pt_find (root_pts x) (paging64_index64 va 21) = None /\ exists y, root_pts x !! k = Some y /\ ~ ready y) ->
  wp (s <- gets id ;;
      enable_nx prot ;;;
      put_entry (pml4_of s r) (paging64_index64 va 39) (table_entry (pdpt_of s r)) ;;;
      put_entry (pdpt_of s r) (paging64_index64 va 30) (table_entry (runtime_pd_of s r)) ;;;
      put_entry (runtime_pd_of s r) (paging64_index64 va 21) (table_entry (vma_pt_of s r k)) ;;;
      put_entry (vma_pt_of s r k) (paging64_index64 va 12) (Z.lor (Z.land pa PAGING64_PAGE_MASK) (pte_flags prot)) ;;;
      modify (fun s' => s' <| g_paging64_process_root_last_vma_pt_private := 1 |>
        <| g_paging64_process_root_vma_pt_private_count := inc32 (g_paging64_process_root_vma_pt_private_count s') |>) ;;;
      paging64_reload_root_if_active (pml4_of s r) ;;;
      ret 1) (install_result s0 r va pa prot) s1.
Proof.
  intros Hi Hx Hu Hk Hd Hcase. assert (Hr : (r < ROOTS)%nat) by (rewrite <- (pi_roots _ Hi); by eapply lookup_lt_Some).
  assert (W : paging64_index64 va 39 = 0 /\ paging64_index64 va 30 = user_window).
  { apply orb_false_iff in Hd as [Hd _]. unfold install_denied in Hd. repeat (apply orb_false_iff in Hd as [Hd ?]). boolify. done. }
  destruct W as [W1 W2]. rewrite W1, W2. pose proof (pi_base _ Hi) as Hb.
  assert (Ebase : g_paging64_kernel_physical_base s1 = g_paging64_kernel_physical_base s0) by (by destruct Hcase as [[-> _]|[-> _]]).
  apply wp_bind, wp_gets, wp_bind, enable_nx_wp. intros v. do 4 apply wp_bind, put_wp. apply wp_bind, wp_modify, wp_bind, reload_wp, wp_ret.
  match goal with |- install_result _ _ _ _ _ _ ?st => set (s' := st) end.
  destruct (page_installed s0 s' r x k va (user_pte pa prot) (frames s1)) as (P1 & P2 & P3); try done.
  - destruct Hcase as [[-> Hf]|(-> & Hf & Hy)]; [left|right]; split_and!; try done.
    intros n j Hn. simpl. rewrite entry_wipe_frame by done. repeat case_decide; congruence || done.
  - intros page j Hp. destruct Hcase as [[-> _]|[-> _]]; [done|]. simpl. rewrite entry_wipe, decide_False; [done|by apply Hp].
  - unfold s', installed_frames. simpl. fold (user_pte pa prot). unfold id, pml4_of, pdpt_of, runtime_pd_of, vma_pt_of.
    rewrite <- !(frame_base s0 s1) by done. reflexivity.
  - by destruct Hcase as [[-> _]|[-> _]].
  - by destruct Hcase as [[-> _]|[-> _]].
  - split; [done|]. split; [|by right]. split; try done; by destruct Hcase as [[-> _]|[-> _]].
Qed.

Lemma install_process_wp s pid r va pa prot :
  pg_inv s -> paging64_process_root_find_slot s pid = Some r ->
  wp (paging64_install_user_page_mapping_for_process pid va pa prot) (install_result s r va pa prot) s.
Proof.
  intros Hi Hf. unfold paging64_install_user_page_mapping_for_process. apply wp_bind, wp_gets. rewrite Hf.
  destruct (find_slot_some s pid r Hf) as (x & Hx & Hu & _).
  assert (Hno : forall s', pcore s' = pcore s -> cr3 s' = cr3 s -> install_refused s r va pa prot = true -> install_result s r va pa prot 0 s').
  { intros s' Hc E6 Hwhy. pose proof Hc as (E1 & E2 & E3 & E4 & E5)%pcore_inj. split_and!.
    - by eapply pg_inv_core.
    - split; try done. by rewrite E3.
    - left. split_and!; [done|done|]. intros r' va'. by apply pentry_core. }
  assert (Href : install_refused s r va pa prot = install_denied va pa prot ||
    match pt_find (root_pts x) (paging64_index64 va 21) with Some _ => false | None => negb (bool_decide (is_Some (pt_free (root_pts x)))) end)
    by (unfold install_refused, pts_of; by rewrite Hx).
  destruct (install_denied va pa prot) eqn:Hd; [by apply wp_ret, Hno|]. cbn [orb] in Href.
  assert (Hkl : forall k, (exists y, root_pts x !! k = Some y) -> (k < PTS)%nat).
  { intros k [y Hy]. rewrite <- (pi_pts _ Hi r x Hx). by eapply lookup_lt_Some. }
  apply wp_bind, (acquire_pt_wp s r x); [done|..].
  - intros Hn Hfr. rewrite Hn, Hfr in Href. by apply wp_bind, wp_modify, wp_ret, Hno.
  - intros k Hk. rewrite Hk in Href. apply (install_tail_wp s s r x k); try done; [|by left].
    apply pt_find_some in Hk as (y & Hy & _). eauto.
  - intros k Hn Hfr Hy. rewrite Hn, Hfr in Href. apply (install_tail_wp s _ r x k); try done; [|by right].
    destruct Hy as (y & Hy & _). eauto.
Qed.

(** ** Changing the entry of a page *)

(** Where the entry of a page of a process is. *)
Lemma entry_slot_process ps s pid r va :
  paging64_process_root_find_slot s pid = Some r -> (r < ROOTS)%nat -> in_window va ->
  paging64_process_user_page_entry_slot ps s pid va =
    (fun k => (frame_of s (NPt r k), paging64_index64 va 12)) <$> pt_find (pts_of s r) (paging64_index64 va 21).
Proof.
  intros Hf Hr [W1 W2]. unfold paging64_process_user_page_entry_slot, paging64_process_root_slot. rewrite Hf, W1, W2.
  rewrite (proj2 (Z.eqb_neq (Z.of_nat r) INVALID_SLOT)) by (unfold INVALID_SLOT, ROOTS in *; lia).
  rewrite !Z.eqb_refl. cbn [negb orb]. rewrite (proj2 (Z.leb_gt _ _)) by (unfold ROOTS in *; lia). rewrite Nat2Z.id.
  unfold paging64_process_vma_user_pt_find_slot. by destruct (pt_find _ _).
Qed.

Lemma read_entry_process ps s pid r va :
  paging64_process_root_find_slot s pid = Some r -> (r < ROOTS)%nat -> in_window va ->
  read_entry s (paging64_process_user_page_entry_slot ps s pid va) = pentry s r va.
Proof.
  intros Hf Hr Hw. rewrite (entry_slot_process ps s pid r va) by done. unfold pentry. by destruct (pt_find _ _).
Qed.

Lemma entry_slot_outside ps s pid va : ~ in_window va -> paging64_process_user_page_entry_slot ps s pid va = None.
Proof.
  intros Hw. unfold paging64_process_user_page_entry_slot. destruct (_ || _) eqn:E; [done|]. exfalso. apply Hw.
  apply orb_false_iff in E as [[_ E1%negb_false_iff%Z.eqb_eq]%orb_false_iff E2%negb_false_iff%Z.eqb_eq]. done.
Qed.

(** The tables whose entries are user pages. *)
Definition is_leaf n : bool := match n with NPt _ _ | NUser _ => true | _ => false end.

(** Only entries of last-level tables changed. *)
Lemma pg_inv_pte s s' :
  pg_inv s -> kernel_high s' = kernel_high s -> g_paging64_process_roots s' = g_paging64_process_roots s ->
  g_paging64_kernel_physical_base s' = g_paging64_kernel_physical_base s ->
  g_paging64_kernel_root_physical s' = g_paging64_kernel_root_physical s ->
  g_paging64_process_root_pool_used s' = g_paging64_process_root_pool_used s ->
  (forall n j, valid n -> is_leaf n = false -> entry s' (frame_of s n) j = entry s (frame_of s n) j) -> pg_inv s'.
Proof.
  intros Hi Eh E3 E2 E4 E5 He. split; rewrite ?E3, ?E4, ?E5; try apply Hi.
  - unfold base_ok. rewrite E2. apply Hi.
  - intros r x Hx Hu. assert (Hr : (r < ROOTS)%nat) by (rewrite <- (pi_roots _ Hi); by eapply lookup_lt_Some).
    eapply linked_ext; [done|done|..|by apply (pi_linked _ Hi)]; intros j; by apply He.
  - destruct (pi_kernel _ Hi) as (K1 & K2 & K3). split_and!; [done|done|]. intros n Hn. rewrite (frame_base s s') by done. auto.
Qed.

Lemma pts_bound s r k y : pg_inv s -> pts_of s r !! k = Some y -> (r < ROOTS)%nat /\ (k < PTS)%nat.
Proof.
  intros Hi. unfold pts_of. destruct (g_paging64_process_roots s !! r) as [x|] eqn:Hx; [|done]. simpl. intros Hy.
  split; [rewrite <- (pi_roots _ Hi)|rewrite <- (pi_pts _ Hi r x Hx)]; by eapply lookup_lt_Some.
Qed.

(** One page of one root gets the entry [e]. *)
Lemma entry_changed s r x k va e v :
  pg_inv s -> g_paging64_process_roots s !! r = Some x -> used x -> pt_find (pts_of s r) (paging64_index64 va 21) = Some k ->
  let s' := with_frames (put (frames s) (frame_of s (NPt r k)) (paging64_index64 va 12) e) (s <| efer := v |>) in
  pg_inv s' /\ stable s s' /\ page_set s s' r va e.
Proof.
  intros Hi Hx Hu Hk s'. pose proof (pi_base _ Hi) as Hb. pose proof Hk as (y & Hy & Hry & Hd)%pt_find_some.
  destruct (pts_bound s r k y Hi Hy) as [Hr Hkl]. assert (Hp : pts_of s r = root_pts x) by (unfold pts_of; by rewrite Hx).
  assert (He : forall n j, valid n -> entry s' (frame_of s n) j =
    if decide (NPt r k = n /\ paging64_index64 va 12 = j) then e else entry s (frame_of s n) j).
  { intros n j Hn. unfold entry, s'. simpl. by rewrite entry_put_frame. }
  unfold page_set. split_and!.
  - apply (pg_inv_pte s); try done; [|intros n j Hn Hne; rewrite He, decide_False; [done| |done]; by intros [<- _]].
    by apply (kernel_high_put s s' (NPt r k) (paging64_index64 va 12) e).
  - done.
  - unfold pentry. change (pts_of s' r) with (pts_of s r). rewrite Hk. change (frame_of s' (NPt r k)) with (frame_of s (NPt r k)).
    by rewrite He, decide_True.
  - intros r' va' Hne. unfold pentry. change (pts_of s' r') with (pts_of s r').
    destruct (pt_find (pts_of s r') (paging64_index64 va' 21)) as [k'|] eqn:Hk'; [|done].
    change (frame_of s' (NPt r' k')) with (frame_of s (NPt r' k')). pose proof Hk' as (y' & Hy' & Hry' & Hd')%pt_find_some.
    destruct (pts_bound s r' k' y' Hi Hy') as [Hr' Hkl']. rewrite He by done. rewrite decide_False; [done|].
    intros [[= -> ->] Ei]. destruct Hne as [?|Hne]; [done|]. apply Hne. unfold page_index.
    rewrite <- Hd', <- Hd, Ei. do 2 f_equal. congruence.
Qed.

(** What a routine that changes the entry [e] of a page does: nothing, or
    [f e] when [ok e]. *)
Definition change_result s r va (ok : Z -> bool) (f : Z -> Z) v s' : Prop :=
  pg_inv s' /\ stable s s' /\
    (v = 0 /\ ok (pentry s r va) = false /\ (forall r' va', pentry s' r' va' = pentry s r' va') \/
     v = 1 /\ ok (pentry s r va) = true /\ page_set s s' r va (f (pentry s r va))).

Lemma unchanged s r va ok f : pg_inv s -> ok (pentry s r va) = false -> change_result s r va ok f 0 s.
Proof. intros Hi Hok. split_and!; [done|done|]. left. done. Qed.

Section changes.
Variables (s : paging_state) (r : nat) (x : root_slot) (va : Z) (root : Z).
Hypothesis Hi : pg_inv s.
Hypothesis Hx : g_paging64_process_roots s !! r = Some x.
Hypothesis Hu : used x.
Let at_ := (fun k => (frame_of s (NPt r k), paging64_index64 va 12)) <$> pt_find (pts_of s r) (paging64_index64 va 21).

Lemma clear_entry_wp :
  wp (clear_entry at_ (paging64_reload_root_if_active root)) (change_result s r va pte_present (fun _ => 0)) s.
Proof.
  unfold clear_entry, at_. destruct (pt_find _ _) as [k|] eqn:Hk; simpl; cycle 1.
  { apply wp_ret, unchanged; [done|]. unfold pentry. by rewrite Hk. }
  assert (Hp : pentry s r va = entry s (frame_of s (NPt r k)) (paging64_index64 va 12)) by (unfold pentry; by rewrite Hk).
  apply wp_bind, wp_gets. rewrite <- Hp. destruct (pte_present (pentry s r va)) eqn:He; cbn [negb]; [|by apply wp_ret, unchanged].
  apply wp_bind, put_wp, wp_bind, reload_wp, wp_ret.
  destruct (entry_changed s r x k va 0 (efer s) Hi Hx Hu Hk) as (C1 & C2 & C3).
  replace (s <| efer := efer s |>) with s in * by (by destruct s). split_and!; [done|done|]. right. by split_and!.
Qed.

Lemma remap_entry_wp pa prot :
  wp (remap_entry at_ pa prot (paging64_reload_root_if_active root))
     (change_result s r va (fun e => pte_present e && negb (nz (Z.land pa (PAGING64_PAGE_BYTES - 1)) || (pa =? 0) || no_protection prot))
        (fun _ => user_pte pa prot)) s.
Proof.
  unfold remap_entry, at_. destruct (pt_find _ _) as [k|] eqn:Hk; simpl; cycle 1.
  { apply wp_ret, unchanged; [done|]. unfold pentry. by rewrite Hk. }
  assert (Hp : pentry s r va = entry s (frame_of s (NPt r k)) (paging64_index64 va 12)) by (unfold pentry; by rewrite Hk).
  apply wp_bind, wp_gets. rewrite <- Hp. destruct (_ || _) eqn:He.
  { apply wp_ret, unchanged; [done|]. destruct (pte_present (pentry s r va)); [|done]. cbn [negb orb andb] in *. by rewrite He. }
  apply wp_bind, enable_nx_wp. intros v. apply wp_bind, put_wp, wp_bind, reload_wp, wp_ret.
  destruct (entry_changed s r x k va (user_pte pa prot) v Hi Hx Hu Hk) as (C1 & C2 & C3). split_and!; [done|done|].
  right. split_and!; [done| |exact C3]. do 3 (apply orb_false_iff in He as [He ?]). apply negb_false_iff in He.
  rewrite He. apply andb_true_iff. split; [done|]. apply negb_true_iff. by rewrite !orb_false_iff.
Qed.

Lemma protect_entry_wp prot :
  wp (protect_entry at_ prot (paging64_reload_root_if_active root))
     (change_result s r va (fun e => pte_present e && negb (no_protection prot))
        (fun e => Z.lor (Z.land e PAGING64_PHYSICAL_ADDRESS_MASK) (pte_flags prot))) s.
Proof.
  unfold protect_entry, at_. destruct (pt_find _ _) as [k|] eqn:Hk; simpl; cycle 1.
  { apply wp_ret, unchanged; [done|]. unfold pentry. by rewrite Hk. }
  assert (Hp : pentry s r va = entry s (frame_of s (NPt r k)) (paging64_index64 va 12)) by (unfold pentry; by rewrite Hk).
  apply wp_bind, wp_gets. rewrite <- Hp. destruct (_ || _) eqn:He.
  { apply wp_ret, unchanged; [done|]. destruct (pte_present (pentry s r va)); [|done]. cbn [negb orb andb] in *. by rewrite He. }
  apply wp_bind, enable_nx_wp. intros v. apply wp_bind, put_wp, wp_bind, reload_wp, wp_ret.
  destruct (entry_changed s r x k va (Z.lor (Z.land (pentry s r va) PAGING64_PHYSICAL_ADDRESS_MASK) (pte_flags prot)) v Hi Hx Hu Hk) as (C1 & C2 & C3).
  split_and!; [done|done|]. right. apply orb_false_iff in He as [E1%negb_false_iff E2]. split_and!; [done| |exact C3].
  by rewrite E1, E2.
Qed.

End changes.
End ops.
End PagingOps.
