(* ===== verification/PagingRoots.v ===== *)
(** * Allocating and releasing process roots

    A new root shares the kernel's upper half and maps no user page; a
    released one is wiped, and is never left in CR3. *)

From S2P Require Import Prelude Principal Services64 Process Paging PagingFacts PagingOps.
Import Paging PagingFacts PagingOps.
Local Open Scope Z_scope.
Local Open Scope kernel_scope.

Module PagingRoots.

(** Two places are different tables or different indexes. *)
Ltac other_entry := intros [? ?]; first [discriminate | contradiction | congruence].

Section roots.
Context {symbols : PagingSymbols} {layout : PagingLayout} {launch : Process.LaunchEnv}.
Implicit Types (s : paging_state) (n : tname) (r k : nat) (va : Z).

(** The tables of root [r], up to page table [m]. *)
Definition in_root r (m : nat) n : bool :=
  match n with
  | NPml4 r' | NPdpt r' | NPd r' => (r' =? r)%nat
  | NPt r' k => (r' =? r)%nat && (k <? m)%nat
  | NUser _ => false
  end.
Definition is_pt n : bool := match n with NPt _ _ => true | _ => false end.

(** [fs'] is [fs] with the tables chosen by [P] wiped. *)
Definition wiped s (P : tname -> bool) (fs fs' : gmap Z (gmap Z Z)) : Prop :=
  (forall n j, valid n -> entry_in fs' (frame_of s n) j = if P n then 0 else entry_in fs (frame_of s n) j) /\
  (forall page j, foreign s page -> entry_in fs' page j = entry_in fs page j).

Lemma wiped_none s fs : wiped s (fun _ => false) fs fs.
Proof. done. Qed.

Lemma wiped_more s P n0 fs fs' :
  base_ok s -> valid n0 -> wiped s P fs fs' ->
  wiped s (fun n => bool_decide (n = n0) || P n) fs (wipe fs' (frame_of s n0)).
Proof.
  intros Hb Hn0 [H1 H2]. split.
  - intros n j Hn. rewrite entry_wipe_frame, H1 by done. destruct (decide (n0 = n)) as [->|Hne].
    + by rewrite bool_decide_true.
    + by rewrite bool_decide_false by congruence.
  - intros page j Hp. rewrite entry_wipe, decide_False, H2; [done|done|by apply Hp].
Qed.

Lemma wiped_ext s P P' fs fs' : (forall n, valid n -> P n = P' n) -> wiped s P fs fs' -> wiped s P' fs fs'.
Proof. intros He [H1 H2]. split; [|done]. intros n j Hn. by rewrite H1, He. Qed.

Lemma zero_wp page s (Q : unit -> paging_state -> Prop) :
  Q tt (with_frames (wipe (frames s) page) s) -> wp (paging64_zero_table page) Q s.
Proof. done. Qed.

Lemma clear_slot_wp s r (Q : unit -> paging_state -> Prop) :
  base_ok s -> (r < ROOTS)%nat ->
  (forall fs', wiped s (in_root r PTS) (frames s) fs' ->
     Q tt (with_frames fs' s <| g_paging64_process_roots :=
       alter (fun _ => mk_root 0 PAGING64_INVALID_PID 0 0 1 clear_pts) r (g_paging64_process_roots s) |>)) ->
  wp (paging64_process_root_clear_slot r) Q s.
Proof.
  intros Hb Hr HQ. unfold paging64_process_root_clear_slot. apply wp_bind, wp_gets. unfold id.
  do 3 apply wp_bind, zero_wp. apply wp_bind.
  eapply wp_mono; [apply (wp_for_range _ _ (fun m s' => exists fs', s' = with_frames fs' s /\ wiped s (in_root r m) (frames s) fs'))|].
  - eexists. split; [reflexivity|]. simpl.
    pose proof (wiped_more s _ (NPml4 r) _ _ Hb Hr (wiped_none s (frames s))) as H1.
    pose proof (wiped_more s _ (NPdpt r) _ _ Hb Hr H1) as H2. pose proof (wiped_more s _ (NPd r) _ _ Hb Hr H2) as H3.
    eapply wiped_ext; [|exact H3].
    intros n Hn. destruct n as [r'|r'|r'|r' k|k]; simpl.
    all: repeat (case_bool_decide; simplify_eq/=); rewrite ?Nat.eqb_refl, ?andb_false_r; try done; symmetry; apply Nat.eqb_neq; congruence.
  - intros m s' Hm (fs' & -> & Hw). apply zero_wp. eexists. split; [reflexivity|]. simpl.
    eapply wiped_ext; [|exact (wiped_more s _ (NPt r m) _ _ Hb (conj Hr Hm) Hw)].
    intros n Hn. destruct n as [r'|r'|r'|r' k|k]; simpl; try done.
    destruct (Nat.eqb_spec r' r) as [->|Hne]; cbn [andb]; [|by rewrite bool_decide_false by congruence].
    destruct (decide (k = m)) as [->|Hkm].
    + rewrite bool_decide_true by done. symmetry. apply Nat.ltb_lt. lia.
    + rewrite bool_decide_false by congruence. simpl. destruct (Nat.ltb_spec k m), (Nat.ltb_spec k (S m)); lia || done.
  - intros _ s' (fs' & -> & Hw). apply wp_modify. by apply HQ.
Qed.

(** ** A new root *)

(** The mark of user pages, cleared. *)
Lemma land_lnot_user x : Z.land (Z.land x (not64 PAGING64_PAGE_USER)) PAGING64_PAGE_USER = 0.
Proof. rewrite <- Z.land_assoc. change (Z.land (not64 PAGING64_PAGE_USER) PAGING64_PAGE_USER) with 0. apply Z.land_0_r. Qed.

(** The tables of root [r] as a new root has them: only the kernel's upper
    half, perhaps the framebuffer, and no user page. *)
Record fresh_root s s' r (kernel_root : Z) : Prop := {
  fr_linked : linked s' r clear_pts;
  fr_high : entry s' (frame_of s (NPml4 r)) PAGING64_HIGH_HALF_PML4_INDEX = entry s kernel_root PAGING64_HIGH_HALF_PML4_INDEX;
  fr_low : forall j, j <> 0 -> j <> PAGING64_HIGH_HALF_PML4_INDEX -> entry s' (frame_of s (NPml4 r)) j = 0;
  fr_pages : forall k j, (k < PTS)%nat -> entry s' (frame_of s (NPt r k)) j = 0;
  fr_other : forall n j, valid n -> ~ of_root n r -> entry s' (frame_of s n) j = entry s (frame_of s n) j;
  fr_foreign : forall page j, foreign s page -> entry s' page j = entry s page j }.

(** What [link_root] writes into the wiped tables. *)
Lemma fresh_root_intro s s' r kernel_root fs1 fs2 v :
  base_ok s -> (r < ROOTS)%nat -> foreign s kernel_root -> wiped s (in_root r PTS) (frames s) fs1 ->
  g_paging64_kernel_physical_base s' = g_paging64_kernel_physical_base s ->
  fs2 = put (put fs1 (frame_of s (NPml4 r)) 0 (table_entry (frame_of s (NPdpt r))))
            (frame_of s (NPml4 r)) PAGING64_HIGH_HALF_PML4_INDEX (entry s kernel_root PAGING64_HIGH_HALF_PML4_INDEX) ->
  (frames s' = put fs2 (frame_of s (NPdpt r)) user_window (table_entry (frame_of s (NPd r))) \/
   frames s' = put (put fs2 (frame_of s (NPdpt r)) (paging64_index64 0x80000000 30) v)
                 (frame_of s (NPdpt r)) user_window (table_entry (frame_of s (NPd r)))) ->
  g_paging64_kernel_root_physical s' = kernel_root -> Z.land v PAGING64_PAGE_USER = 0 ->
  fresh_root s s' r kernel_root.
Proof.
  intros Hb Hr Hf [W1 W2] Eb -> Hfs Hk Hv.
  assert (He : forall n j, valid n -> entry s' (frame_of s n) j =
    if decide (n = NPdpt r /\ j = user_window) then table_entry (frame_of s (NPd r))
    else if decide (n = NPdpt r /\ j = paging64_index64 0x80000000 30) then entry s' (frame_of s n) j
    else if decide (n = NPml4 r /\ j = PAGING64_HIGH_HALF_PML4_INDEX) then entry s kernel_root PAGING64_HIGH_HALF_PML4_INDEX
    else if decide (n = NPml4 r /\ j = 0) then table_entry (frame_of s (NPdpt r))
    else if in_root r PTS n then 0 else entry s (frame_of s n) j).
  { intros n j Hn. destruct (decide (n = NPdpt r /\ j = paging64_index64 0x80000000 30)) as [[-> ->]|Hfb].
    { rewrite decide_False by (intros [_ E]; discriminate E). done. }
    change (entry s (frame_of s n) j) with (entry_in (frames s) (frame_of s n) j). rewrite <- (W1 n j Hn).
    clear Hk Hv. unfold entry at 1. destruct Hfs as [->| ->]; rewrite !entry_put_frame by done;
      repeat case_decide; naive_solver. }
  assert (Hfor : forall page j, foreign s page -> entry s' page j = entry s page j).
  { intros page j Hp. change (entry s page j) with (entry_in (frames s) page j). rewrite <- (W2 page j Hp). unfold entry.
    assert (H1 : frame_of s (NPml4 r) <> page) by (by apply Hp). assert (H2 : frame_of s (NPdpt r) <> page) by (by apply Hp).
    destruct Hfs as [->| ->]; rewrite !entry_put, !decide_False by tauto; done. }
  assert (Hguard : forall j, j <> user_window -> Z.land (entry s' (frame_of s (NPdpt r)) j) PAGING64_PAGE_USER = 0).
  { intros j Hj. assert (H0 : entry_in fs1 (frame_of s (NPdpt r)) j = 0) by (rewrite W1 by done; simpl; by rewrite Nat.eqb_refl).
    unfold entry. destruct Hfs as [->| ->]; rewrite !entry_put_frame by done.
    - by rewrite decide_False, !decide_False, H0 by other_entry.
    - destruct (decide (j = paging64_index64 0x80000000 30)) as [->|Hj'].
      + rewrite decide_False by (intros [_ E]; by apply Hj). by rewrite decide_True.
      + by rewrite !decide_False, H0 by other_entry. }
  assert (Hpd : forall j, entry s' (frame_of s (NPd r)) j = 0).
  { intros j. rewrite He by done. rewrite !decide_False by other_entry. simpl. by rewrite Nat.eqb_refl. }
  split.
  - split; rewrite ?(frame_base s s') by done.
    + rewrite He by done. rewrite !decide_False by other_entry. by rewrite decide_True.
    + rewrite He by done. rewrite !decide_False by other_entry. rewrite decide_True by done. unfold kernel_high. by rewrite Hk, Hfor.
    + intros j J1 J2. rewrite He by done. rewrite !decide_False by other_entry. simpl. by rewrite Nat.eqb_refl.
    + intros j Hj. rewrite Hguard by done. done.
    + rewrite He by done. by rewrite decide_True.
    + intros k y Hy Hry. apply lookup_replicate in Hy as [-> _]. done.
    + intros d _. apply Hpd.
    + intros k1 k2 y1 y2 Hy _ Hry. apply lookup_replicate in Hy as [-> _]. done.
  - rewrite He by done. rewrite !decide_False by other_entry. by rewrite decide_True.
  - intros j J1 J2. rewrite He by done. rewrite !decide_False by other_entry. simpl. by rewrite Nat.eqb_refl.
  - intros k j Hlt. rewrite He by done. rewrite !decide_False by other_entry. simpl. rewrite Nat.eqb_refl.
    by rewrite (proj2 (Nat.ltb_lt _ _) Hlt).
  - intros n j Hn Ho. rewrite He by done. rewrite !decide_False by (intros [-> _]; by apply Ho).
    replace (in_root r PTS n) with false; [done|]. symmetry.
    destruct n; simpl in *; try (by apply Nat.eqb_neq); [|done]. by rewrite (proj2 (Nat.eqb_neq _ _) Ho).
  - done.
Qed.

(** Everything but the counters of the log. *)
Definition pview s := (pcore s, cr3 s).

Lemma link_root_wp s r (Q : bool -> paging_state -> Prop) :
  pg_inv s -> (r < ROOTS)%nat ->
  (forall b s', fresh_root s s' r (g_paging64_kernel_root_physical s) ->
     g_paging64_process_roots s' = alter (fun _ => mk_root 0 PAGING64_INVALID_PID 0 0 1 clear_pts) r (g_paging64_process_roots s) ->
     g_paging64_kernel_physical_base s' = g_paging64_kernel_physical_base s ->
     g_paging64_kernel_root_physical s' = g_paging64_kernel_root_physical s ->
     g_paging64_process_root_pool_used s' = g_paging64_process_root_pool_used s -> cr3 s' = cr3 s -> Q b s') ->
  wp (link_root r (g_paging64_kernel_root_physical s)) Q s.
Proof.
  intros Hi Hr HQ. destruct (pi_kernel _ Hi) as (K1 & K2 & K3). pose proof (pi_base _ Hi) as Hb.
  unfold link_root. apply wp_bind, wp_gets. unfold id. apply wp_bind, clear_slot_wp; [done|done|]. intros fs1 Hw.
  apply wp_bind, put_wp, wp_bind, wp_modify, wp_bind, wp_gets, wp_bind, put_wp, wp_bind, wp_modify, wp_bind, wp_gets.
  assert (Hh : forall v, entry_in (put fs1 (frame_of s (NPml4 r)) 0 v) (g_paging64_kernel_root_physical s) PAGING64_HIGH_HALF_PML4_INDEX =
    entry s (g_paging64_kernel_root_physical s) PAGING64_HIGH_HALF_PML4_INDEX).
  { intros v. rewrite entry_put, decide_False by (intros [_ E]; discriminate E). apply (proj2 Hw). exact K3. }
  apply wp_bind. match goal with |- wp (if ?b then put_entry _ _ ?v else _) _ _ => destruct b eqn:Hs; set (fbv := v) end;
    [apply put_wp|apply wp_ret]; apply wp_bind, put_wp, wp_ret, HQ; try done.
  - eapply (fresh_root_intro s _ r _ fs1 _ fbv); [done|done|done|done|done|reflexivity| |done|unfold fbv; apply land_lnot_user]. right. simpl. rewrite <- (Hh (table_entry (frame_of s (NPdpt r)))). reflexivity.
  - eapply (fresh_root_intro s _ r _ fs1 _ 0); [done|done|done|done|done|reflexivity| |done|done]. left. simpl. rewrite <- (Hh (table_entry (frame_of s (NPdpt r)))). reflexivity.
Qed.

Lemma pg_inv_fresh s s' r x0 x :
  pg_inv s -> g_paging64_process_roots s !! r = Some x0 -> ~ used x0 ->
  fresh_root s s' r (g_paging64_kernel_root_physical s) ->
  g_paging64_process_roots s' = alter (fun _ => x) r (g_paging64_process_roots s) ->
  g_paging64_kernel_physical_base s' = g_paging64_kernel_physical_base s ->
  g_paging64_kernel_root_physical s' = g_paging64_kernel_root_physical s ->
  g_paging64_process_root_pool_used s' = g_paging64_process_root_pool_used s + 1 ->
  used x -> root_pts x = clear_pts -> root_pid x <> 0 -> root_pid x <> PAGING64_INVALID_PID ->
  (forall j y, g_paging64_process_roots s !! j = Some y -> used y -> root_pid y <> root_pid x) -> pg_inv s'.
Proof.
  intros Hi Hx0 Hnu Hfr Er Eb Ek Ep Hu Hpts Hp0 Hp1 Hnew.
  assert (Hlook : forall r' y, g_paging64_process_roots s' !! r' = Some y ->
    (r' = r /\ y = x) \/ (r' <> r /\ g_paging64_process_roots s !! r' = Some y)).
  { intros r' y. rewrite Er, list_lookup_alter. case_decide as E; [subst r'|by right]. rewrite Hx0. intros [= <-]. by left. }
  split.
  - unfold base_ok. rewrite Eb. apply Hi.
  - rewrite Er, length_alter. apply Hi.
  - intros r' y [[-> ->]|[_ Hy]]%Hlook; [by rewrite Hpts|by apply (pi_pts _ Hi r')].
  - intros a b y1 y2 [[-> ->]|[N1 Y1]]%Hlook [[-> ->]|[N2 Y2]]%Hlook U1 U2 E; try done.
    + by destruct (Hnew b y2 Y2 U2).
    + by destruct (Hnew a y1 Y1 U1).
    + by eapply (pi_unique _ Hi).
  - intros r' y [[-> ->]|[_ Hy]]%Hlook Hy'; [done|]. by apply (pi_pid _ Hi r').
  - intros r' y [[-> ->]|[Hne Hy]]%Hlook Hy'; [rewrite Hpts; apply Hfr|].
    assert (Hr : (r' < ROOTS)%nat) by (rewrite <- (pi_roots _ Hi); by eapply lookup_lt_Some).
    eapply linked_ext; [unfold kernel_high; rewrite Ek; apply (fr_foreign _ _ _ _ Hfr), (kernel_foreign _ Hi)|done|..|by apply (pi_linked _ Hi)]; intros j; by apply (fr_other _ _ _ _ Hfr).
  - rewrite Ek. destruct (pi_kernel _ Hi) as (K1 & K2 & K3). split_and!; [done|done|]. intros n Hn. rewrite (frame_base s s') by done. auto.
  - rewrite Ep, (pi_count _ Hi), Er. pose proof (count_if_alter (fun x => nz (root_used x)) _ r x0 (fun _ => x) Hx0) as Hc.
    unfold used in *. rewrite Hu in Hc. destruct (nz (root_used x0)); [done|]. simpl in Hc. lia.
Qed.

Lemma fresh_pentry s s' r x :
  pg_inv s -> fresh_root s s' r (g_paging64_kernel_root_physical s) -> g_paging64_kernel_physical_base s' = g_paging64_kernel_physical_base s ->
  g_paging64_process_roots s' = alter (fun _ => x) r (g_paging64_process_roots s) -> root_pts x = clear_pts ->
  (r < ROOTS)%nat -> (forall va, pentry s' r va = 0) /\ forall r' va, r' <> r -> pentry s' r' va = pentry s r' va.
Proof.
  intros Hi Hfr Eb Er Hpts Hr. split.
  - intros va. unfold pentry, pts_of. rewrite Er, list_lookup_alter, decide_True by done.
    rewrite <- (pi_roots _ Hi) in Hr. apply lookup_lt_is_Some_2 in Hr as [y ->]. simpl. rewrite Hpts. done.
  - intros r' va Hne. unfold pentry, pts_of. rewrite Er, list_lookup_alter_ne by done.
    destruct (g_paging64_process_roots s !! r') as [y|] eqn:Hy; simpl; [|done].
    destruct (pt_find (root_pts y) (paging64_index64 va 21)) as [k|] eqn:Hk; [|done]. apply pt_find_some in Hk as (z & Hz & _).
    rewrite (frame_base s s') by done. apply (fr_other _ _ _ _ Hfr); [|done].
    split; [rewrite <- (pi_roots _ Hi)|rewrite <- (pi_pts _ Hi r' y Hy)]; by eapply lookup_lt_Some.
Qed.

Lemma ensure_wp s (Q : Z -> paging_state -> Prop) :
  pg_inv s -> Q (g_paging64_kernel_root_physical s) s -> wp paging64_ensure_kernel_root_physical Q s.
Proof.
  intros Hi HQ. destruct (pi_kernel _ Hi) as (_ & K & _). apply wp_bind, wp_modify, wp_gets.
  by rewrite (proj2 (Z.eqb_neq _ 0) K).
Qed.

Lemma switch_kernel_wp s reason (Q : Z -> paging_state -> Prop) :
  pg_inv s -> (forall s', pcore s' = pcore s -> cr3 s' = g_paging64_kernel_root_physical s -> Q 1 s') ->
  wp (paging64_switch_to_kernel_root reason) Q s.
Proof.
  intros Hi HQ. destruct (pi_kernel _ Hi) as (K1 & K2 & _). apply wp_bind, ensure_wp; [done|].
  rewrite (proj2 (Z.eqb_neq _ 0) K2). apply wp_bind, wp_modify, wp_bind, wp_modify, wp_ret, HQ; [done|].
  simpl. by apply frame_page_mask.
Qed.

(** Nothing a process can see changed. *)
Definition same_pages s s' : Prop :=
  (forall r va, pentry s' r va = pentry s r va) /\ forall q, paging64_process_root_find_slot s' q = paging64_process_root_find_slot s q.

Lemma same_pages_core s s' : pcore s' = pcore s -> same_pages s s'.
Proof.
  intros Hc. split; [intros; by apply pentry_core|]. apply pcore_inj in Hc as (_ & _ & E & _). intros q.
  unfold paging64_process_root_find_slot. by rewrite E.
Qed.

(** A process got a new root: it maps no user page and shares the upper half
    with the kernel; the other processes see no change. *)
Definition root_made s s' pid r : Prop :=
  paging64_process_root_find_slot s' pid = Some r /\ (forall va, pentry s' r va = 0) /\
  entry s' (frame_of s' (NPml4 r)) PAGING64_HIGH_HALF_PML4_INDEX =
    entry s (g_paging64_kernel_root_physical s) PAGING64_HIGH_HALF_PML4_INDEX /\
  (forall r' va, r' <> r -> pentry s' r' va = pentry s r' va) /\
  (forall q, q <> pid -> paging64_process_root_find_slot s' q = paging64_process_root_find_slot s q) /\
  g_paging64_kernel_physical_base s' = g_paging64_kernel_physical_base s /\
  g_paging64_kernel_root_physical s' = g_paging64_kernel_root_physical s.

Definition alloc_result s pid owner authority v s' : Prop :=
  pg_inv s' /\ Z.land (cr3 s') PAGING64_PAGE_MASK = Z.land (cr3 s) PAGING64_PAGE_MASK /\
    (v = 0 /\ same_pages s s' /\
       (pid = 0 \/ pid = PAGING64_INVALID_PID \/ owner = 0 \/ authority = 0 \/
        paging64_process_root_find_slot s pid = None /\ forall x, x ∈ g_paging64_process_roots s -> used x) \/
     v = 1 /\ (pid <> 0 /\ pid <> PAGING64_INVALID_PID /\ owner <> 0 /\ authority <> 0) /\
       (s' = s /\ is_Some (paging64_process_root_find_slot s pid) \/
        paging64_process_root_find_slot s pid = None /\ exists r, root_made s s' pid r /\
          exists x, g_paging64_process_roots s !! r = Some x /\ ~ used x)).

Lemma find_slot_unique s pid r x :
  pg_inv s -> g_paging64_process_roots s !! r = Some x -> used x -> root_pid x = pid -> paging64_process_root_find_slot s pid = Some r.
Proof.
  intros Hi Hx Hu Hp. destruct (pi_pid _ Hi r x Hx Hu) as [P1 P2]. unfold paging64_process_root_find_slot. rewrite <- Hp.
  rewrite (proj2 (Z.eqb_neq _ 0) P1), (proj2 (Z.eqb_neq _ _) P2). cbn [orb].
  apply find_index_unique with (x := x); [done|unfold used in Hu; by rewrite Hu, Z.eqb_refl|].
  intros j y Hy [U E%Z.eqb_eq]%andb_true_iff. by eapply (pi_unique _ Hi).
Qed.

Lemma find_slot_none s pid r x :
  paging64_process_root_find_slot s pid = None -> pid <> 0 -> pid <> PAGING64_INVALID_PID ->
  g_paging64_process_roots s !! r = Some x -> used x -> root_pid x <> pid.
Proof.
  unfold paging64_process_root_find_slot. intros Hf P1 P2 Hx Hu Hp.
  rewrite (proj2 (Z.eqb_neq _ 0) P1), (proj2 (Z.eqb_neq _ _) P2) in Hf. cbn [orb] in Hf.
  pose proof (proj1 (find_index_None _ _) Hf x ltac:(by eapply list_elem_of_lookup_2)) as H. unfold used in Hu.
  simpl in H. by rewrite Hu, Hp, Z.eqb_refl in H.
Qed.

(** Lookups of the other processes. *)
Lemma find_slot_other s s' r x q :
  pg_inv s -> pg_inv s' -> (forall y, g_paging64_process_roots s !! r = Some y -> used y -> root_pid y <> q) ->
  g_paging64_process_roots s' = alter (fun _ => x) r (g_paging64_process_roots s) -> (used x -> root_pid x <> q) ->
  paging64_process_root_find_slot s' q = paging64_process_root_find_slot s q.
Proof.
  intros Hi Hi' Hold Er Hnew. destruct (paging64_process_root_find_slot s q) as [r0|] eqn:Hf.
  - apply find_slot_some in Hf as (y & Hy & Hu & Hp). apply (find_slot_unique s' q r0 y); try done.
    rewrite Er, list_lookup_alter_ne; [done|]. intros ->. by apply (Hold y).
  - destruct (paging64_process_root_find_slot s' q) as [r0|] eqn:Hf'; [|done]. exfalso.
    apply find_slot_some in Hf' as (y & Hy & Hu & Hp). rewrite Er, list_lookup_alter in Hy. case_decide as E.
    + subst r0. destruct (g_paging64_process_roots s !! r); [|done]. simplify_eq/=. by apply Hnew.
    + destruct (pi_pid _ Hi r0 y Hy Hu) as [P1 P2]. rewrite Hp in P1, P2. by apply (find_slot_none s q r0 y Hf P1 P2 Hy Hu).
Qed.

(** ** Allocation *)

Lemma pool_small s : pg_inv s -> 0 <= g_paging64_process_root_pool_used s <= 8.
Proof.
  intros Hi. rewrite (pi_count _ Hi). pose proof (count_if_le (fun x => nz (root_used x)) (g_paging64_process_roots s)) as H.
  rewrite (pi_roots _ Hi) in H. unfold ROOTS in H. lia.
Qed.

(** The tables of a free slot become the root of [pid]. *)
Lemma root_made_intro s s' r x0 x :
  pg_inv s -> g_paging64_process_roots s !! r = Some x0 -> ~ used x0 ->
  paging64_process_root_find_slot s (root_pid x) = None ->
  fresh_root s s' r (g_paging64_kernel_root_physical s) ->
  g_paging64_process_roots s' = alter (fun _ => x) r (g_paging64_process_roots s) ->
  g_paging64_kernel_physical_base s' = g_paging64_kernel_physical_base s ->
  g_paging64_kernel_root_physical s' = g_paging64_kernel_root_physical s ->
  g_paging64_process_root_pool_used s' = g_paging64_process_root_pool_used s + 1 ->
  used x -> root_pts x = clear_pts -> root_pid x <> 0 -> root_pid x <> PAGING64_INVALID_PID ->
  pg_inv s' /\ root_made s s' (root_pid x) r.
Proof.
  intros Hi Hx0 Hnu Hnone Hfr Er Eb Ek Ep Hu Hpts Hp0 Hp1.
  assert (Hi' : pg_inv s').
  { eapply pg_inv_fresh; try done. intros j y Hy Huy. by eapply find_slot_none. }
  assert (Hr : (r < ROOTS)%nat) by (rewrite <- (pi_roots _ Hi); by eapply lookup_lt_Some).
  destruct (fresh_pentry s s' r x Hi Hfr Eb Er Hpts Hr) as [P1 P2]. split; [done|]. split_and!; try done.
  - apply (find_slot_unique s' _ r x); try done. rewrite Er, list_lookup_alter, decide_True, Hx0 by done. done.
  - rewrite (frame_base s s') by done. apply Hfr.
  - intros q Hq. apply (find_slot_other s s' r x q); [done|done| |done|congruence]. intros y Hy. by simplify_eq.
Qed.

Lemma root_made_core s0 s s' pid r : pcore s = pcore s0 -> root_made s s' pid r -> root_made s0 s' pid r.
Proof.
  intros Hc (H1 & H2 & H3 & H4 & H5 & H6 & H7). destruct (same_pages_core s0 s Hc) as [C1 C2].
  pose proof (pcore_inj _ _ Hc) as (_ & D1 & _ & D2 & _). split_and!; try done; [..|congruence|congruence].
  - rewrite H3. apply pcore_inj in Hc as (E1 & _ & _ & E4 & _). unfold entry. by rewrite E1, E4.
  - intros r' va Hne. by rewrite H4, C1.
  - intros q Hq. by rewrite H5, C2.
Qed.

Lemma mask_twice a : Z.land (Z.land a PAGING64_PAGE_MASK) PAGING64_PAGE_MASK = Z.land a PAGING64_PAGE_MASK.
Proof. by rewrite <- Z.land_assoc, Z.land_diag. Qed.

Lemma record_root_wp r kr b s (Q : unit -> paging_state -> Prop) :
  (forall s', pcore s' = pcore s -> cr3 s' = cr3 s -> Q tt s') -> wp (record_root r kr b) Q s.
Proof. intros HQ. by apply wp_modify, HQ. Qed.

Lemma cr3_wp v s (Q : unit -> paging_state -> Prop) :
  (forall s', pcore s' = pcore s -> cr3 s' = v -> Q tt s') -> wp (write_cr3_64 v) Q s.
Proof. intros HQ. by apply wp_modify, HQ. Qed.

(** The slot is given to a process. *)
Lemma give_wp r f s (Q : unit -> paging_state -> Prop) :
  (forall s', pcore s' = (frames s, g_paging64_kernel_physical_base s, alter f r (g_paging64_process_roots s),
      g_paging64_kernel_root_physical s, g_paging64_process_root_pool_used s) -> cr3 s' = cr3 s -> Q tt s') ->
  wp (update_root r f) Q s.
Proof. intros HQ. by apply wp_modify, HQ. Qed.

(** Counted in the pool. *)
Lemma counted_wp g s (Q : unit -> paging_state -> Prop) :
  (forall s0, pcore (g s0) = pcore (s0 <| g_paging64_process_root_pool_used := inc32 (g_paging64_process_root_pool_used s0) |>)) ->
  (forall s0, cr3 (g s0) = cr3 s0) ->
  (forall s', pcore s' = (frames s, g_paging64_kernel_physical_base s, g_paging64_process_roots s,
      g_paging64_kernel_root_physical s, inc32 (g_paging64_process_root_pool_used s)) -> cr3 s' = cr3 s -> Q tt s') ->
  wp (modify g) Q s.
Proof. intros Hg1 Hg2 HQ. apply wp_modify, HQ; [by rewrite Hg1|by rewrite Hg2]. Qed.

Lemma root_made_after s s3 s4 pid r : pcore s4 = pcore s3 -> root_made s s3 pid r -> root_made s s4 pid r.
Proof.
  intros Hc (M1 & M2 & M3 & M4 & M5 & M6 & M7). destruct (same_pages_core s3 s4 Hc) as [C1 C2].
  pose proof (pcore_inj _ _ Hc) as (_ & D1 & _ & D2 & _). split_and!; [..|congruence|congruence].
  - by rewrite C2.
  - intros. by rewrite C1.
  - rewrite <- M3. apply pcore_inj in Hc as (F1 & F2 & _). unfold entry. by rewrite F1, (frame_base s3 s4).
  - intros. by rewrite C1, M4.
  - intros. by rewrite C2, M5.
Qed.

(** Linking a free slot and giving it away makes a root. *)
Lemma linked_made s s2 s3 r x0 pid owner token :
  pg_inv s -> g_paging64_process_roots s !! r = Some x0 -> ~ used x0 -> pid <> 0 -> pid <> PAGING64_INVALID_PID ->
  paging64_process_root_find_slot s pid = None -> fresh_root s s2 r (g_paging64_kernel_root_physical s) ->
  g_paging64_process_roots s2 = alter (fun _ => mk_root 0 PAGING64_INVALID_PID 0 0 1 clear_pts) r (g_paging64_process_roots s) ->
  g_paging64_kernel_physical_base s2 = g_paging64_kernel_physical_base s ->
  g_paging64_kernel_root_physical s2 = g_paging64_kernel_root_physical s ->
  g_paging64_process_root_pool_used s2 = g_paging64_process_root_pool_used s ->
  pcore s3 = (frames s2, g_paging64_kernel_physical_base s2,
    alter (fun x => x <| root_used := 1 |> <| root_pid := pid |> <| root_owner := owner |> <| root_token := token |>) r
      (g_paging64_process_roots s2), g_paging64_kernel_root_physical s2, inc32 (g_paging64_process_root_pool_used s2)) ->
  pg_inv s3 /\ root_made s s3 pid r.
Proof.
  intros Hi Hx0 Hnu P1 P2 Hf Hfr Er Eb Ek Ep Hc. unfold pcore in Hc. injection Hc as C1 C2 C3 C4 C5.
  rewrite Er, alter_twice in C3.
  rewrite Ep, inc32_small in C5 by (pose proof (pool_small _ Hi); unfold U32_MAX; lia).
  apply (root_made_intro s s3 r x0 (mk_root 1 pid owner token 1 clear_pts)); try done; [|congruence..].
  assert (He : forall p j, entry s3 p j = entry s2 p j) by (intros; unfold entry; by rewrite C1).
  destruct Hfr as [L F2 F3 F4 F5 F6]. split; intros; rewrite ?He; auto.
  apply (linked_ext s2); [unfold kernel_high; rewrite He; congruence|congruence|intros; apply He..|done].
Qed.

Lemma alloc_wp s pid owner authority :
  pg_inv s -> wp (paging64_process_root_alloc pid owner authority) (alloc_result s pid owner authority) s.
Proof.
  intros Hi. unfold paging64_process_root_alloc.
  assert (Hdeny : forall s0, pcore s0 = pcore s -> cr3 s0 = cr3 s ->
    (pid = 0 \/ pid = PAGING64_INVALID_PID \/ owner = 0 \/ authority = 0 \/
        paging64_process_root_find_slot s pid = None /\ forall x, x ∈ g_paging64_process_roots s -> used x) ->
    wp deny_alloc (alloc_result s pid owner authority) s0).
  { intros s0 Hc Hr Hwhy. apply wp_bind, wp_modify, wp_ret. split_and!; [by eapply pg_inv_core|simpl; by rewrite Hr|].
    left. split_and!; [done|by apply same_pages_core|done]. }
  destruct (_ || _) eqn:Hg.
  { apply Hdeny; [done|done|]. rewrite !orb_true_iff, !Z.eqb_eq in Hg. tauto. }
  rewrite !orb_false_iff, !Z.eqb_neq in Hg. destruct Hg as [[[P1 P2] P3] P4].
  apply wp_bind, wp_gets. destruct (paging64_process_root_find_slot s pid) as [r|] eqn:Hf.
  { apply wp_ret. split_and!; [done|done|]. right. split; [done|]. split; [done|]. left. rewrite Hf. done. }
  apply wp_bind, wp_gets. destruct (find_index _ _) as [r|] eqn:Hr; cycle 1.
  { apply Hdeny; [done|done|]. do 4 right. split; [done|]. intros x Hx.
    pose proof (proj1 (find_index_None _ _) Hr x Hx) as Hn. unfold used, nz. by rewrite Hn. }
  apply find_index_lookup in Hr as (x0 & Hx0 & Hu0). assert (Hnu : ~ used x0) by (unfold used, nz; by rewrite Hu0).
  apply wp_bind, ensure_wp; [done|]. apply wp_bind, wp_gets. set (away := negb _). apply wp_bind.
  assert (Hsw : wp (if away then paging64_switch_to_kernel_root 0x504D4C34 else ret 1)
    (fun v s1 => v = 1 /\ pcore s1 = pcore s /\ (away = false -> cr3 s1 = cr3 s)) s).
  { destruct away; [|by apply wp_ret]. by apply switch_kernel_wp. }
  eapply wp_mono; [exact Hsw|]. intros v s1 (-> & Hc & Haway). cbn [Z.eqb].
  pose proof (pg_inv_core s s1 Hc Hi) as Hi1. pose proof (pcore_inj _ _ Hc) as (_ & _ & E3 & E4 & _). rewrite <- E4.
  rewrite <- E3 in Hx0. apply wp_bind, link_root_wp; [done|rewrite <- (pi_roots _ Hi1); by eapply lookup_lt_Some|].
  intros b s2 Hfr Er2 Eb2 Ek2 Ep2 Ec2. apply wp_bind, record_root_wp. intros s2' Hc2 Ec2'.
  apply wp_bind, wp_gets, wp_bind, give_wp. intros s3' Hc3' Ec3'. apply wp_bind, counted_wp; [done|done|]. intros s3 Hc3 Ec3.
  assert (H3 : pg_inv s3 /\ root_made s s3 pid r).
  { injection Hc2 as A1 A2 A3 A4 A5. injection Hc3' as B1 B2 B3 B4 B5.
    rewrite B1, B2, B3, B4, B5, A1, A2, A3, A4, A5 in Hc3.
    assert (Hf1 : paging64_process_root_find_slot s1 pid = None) by (rewrite <- Hf; by apply same_pages_core).
    destruct (linked_made s1 s2 s3 r x0 pid owner _ Hi1 Hx0 Hnu P1 P2 Hf1 Hfr Er2 Eb2 Ek2 Ep2 Hc3) as [I3 M3].
    split; [done|]. by eapply root_made_core. }
  destruct H3 as [Hi3 Hm]. apply wp_bind.
  assert (Hend : forall s4, pcore s4 = pcore s3 -> Z.land (cr3 s4) PAGING64_PAGE_MASK = Z.land (cr3 s) PAGING64_PAGE_MASK ->
    alloc_result s pid owner authority 1 s4).
  { intros s4 Hc4 Hr4. split_and!; [by eapply pg_inv_core|done|]. right. split; [done|]. split; [done|]. right.
    split; [done|]. exists r. split; [by eapply root_made_after|]. exists x0. by rewrite <- E3. }
  destruct away; [apply cr3_wp; intros s4 Hc4 Er4|apply wp_ret]; apply wp_ret, Hend; [done| |done|].
  - rewrite Er4. unfold paging64_current_root_physical. by rewrite !mask_twice.
  - by rewrite Ec3, Ec3', Ec2', Ec2, Haway.
Qed.

(** ** Release *)

Lemma in_root_of r n : valid n -> in_root r PTS n = true <-> of_root n r.
Proof.
  destruct n as [r'|r'|r'|r' k|k]; simpl; intros Hv; rewrite ?andb_true_iff, ?Nat.eqb_eq, ?Nat.ltb_lt; try done.
  split; [by intros [-> _]|]. intros ->. split; [done|apply Hv].
Qed.

(** The frames of root [r] are zeroed and its slot is free. *)
Record root_gone s s' r : Prop := {
  rg_zero : forall n j, valid n -> of_root n r -> entry s' (frame_of s n) j = 0;
  rg_other : forall n j, valid n -> ~ of_root n r -> entry s' (frame_of s n) j = entry s (frame_of s n) j;
  rg_foreign : forall page j, foreign s page -> entry s' page j = entry s page j;
  rg_roots : g_paging64_process_roots s' = alter (fun _ => mk_root 0 PAGING64_INVALID_PID 0 0 1 clear_pts) r (g_paging64_process_roots s);
  rg_base : g_paging64_kernel_physical_base s' = g_paging64_kernel_physical_base s;
  rg_kernel : g_paging64_kernel_root_physical s' = g_paging64_kernel_root_physical s;
  rg_count : g_paging64_process_root_pool_used s' = g_paging64_process_root_pool_used s - 1 }.

Lemma pg_inv_gone s s' r x : pg_inv s -> g_paging64_process_roots s !! r = Some x -> used x -> root_gone s s' r -> pg_inv s'.
Proof.
  intros Hi Hx Hu [G1 G2 Gf Er Eb Ek Ep].
  assert (Hlook : forall r' y, g_paging64_process_roots s' !! r' = Some y -> used y -> r' <> r /\ g_paging64_process_roots s !! r' = Some y).
  { intros r' y. rewrite Er, list_lookup_alter. case_decide as E; [subst r'|done]. rewrite Hx. by intros [= <-]. }
  split.
  - unfold base_ok. rewrite Eb. apply Hi.
  - rewrite Er, length_alter. apply Hi.
  - intros r' y. rewrite Er, list_lookup_alter. case_decide as E; [|apply Hi]. rewrite Hx. intros [= <-]. apply length_replicate.
  - intros a b y1 y2 Y1 Y2 U1 U2. destruct (Hlook a y1 Y1 U1), (Hlook b y2 Y2 U2). by eapply (pi_unique _ Hi).
  - intros r' y Hy Huy. destruct (Hlook r' y Hy Huy). by apply (pi_pid _ Hi r').
  - intros r' y Hy Huy. destruct (Hlook r' y Hy Huy) as [Hne Hy']. clear Hy.
    assert (Hr : (r' < ROOTS)%nat) by (rewrite <- (pi_roots _ Hi); by eapply lookup_lt_Some).
    apply (linked_ext s); [unfold kernel_high; rewrite Ek; apply Gf, (kernel_foreign _ Hi)|done|..|by apply (pi_linked _ Hi)]; intros j; by apply G2.
  - rewrite Ek. destruct (pi_kernel _ Hi) as (K1 & K2 & K3). split_and!; [done|done|]. intros n Hn. rewrite (frame_base s s') by done. auto.
  - rewrite Ep, (pi_count _ Hi), Er.
    pose proof (count_if_alter (fun x => nz (root_used x)) _ r x (fun _ => mk_root 0 PAGING64_INVALID_PID 0 0 1 clear_pts) Hx) as Hc.
    unfold used in Hu. simpl in Hc. rewrite Hu in Hc. simpl in Hc. lia.
Qed.

Lemma gone_pentry s s' r : pg_inv s -> root_gone s s' r -> (r < ROOTS)%nat ->
  (forall va, pentry s' r va = 0) /\ forall r' va, r' <> r -> pentry s' r' va = pentry s r' va.
Proof.
  intros Hi [G1 G2 _ Er Eb Ek Ep] Hr. split.
  - intros va. unfold pentry, pts_of. rewrite Er, list_lookup_alter, decide_True by done.
    rewrite <- (pi_roots _ Hi) in Hr. apply lookup_lt_is_Some_2 in Hr as [y ->]. done.
  - intros r' va Hne. unfold pentry, pts_of. rewrite Er, list_lookup_alter_ne by done.
    destruct (g_paging64_process_roots s !! r') as [y|] eqn:Hy; simpl; [|done].
    destruct (pt_find (root_pts y) (paging64_index64 va 21)) as [k|] eqn:Hk; [|done]. apply pt_find_some in Hk as (z & Hz & _).
    rewrite (frame_base s s') by done. apply G2; [|done].
    split; [rewrite <- (pi_roots _ Hi)|rewrite <- (pi_pts _ Hi r' y Hy)]; by eapply lookup_lt_Some.
Qed.

(** What a release that succeeds leaves: no page, no entry, no root, no CR3
    of the process; everything of the others. *)
Record root_released s s' pid r : Prop := {
  rl_found : paging64_process_root_find_slot s' pid = None;
  rl_zero : forall n j, valid n -> of_root n r -> entry s' (frame_of s' n) j = 0;
  rl_cr3 : paging64_current_root_physical s' <> frame_of s' (NPml4 r);
  rl_count : g_paging64_process_root_pool_used s' = g_paging64_process_root_pool_used s - 1;
  rl_pages : forall r' va, r' <> r -> pentry s' r' va = pentry s r' va;
  rl_others : forall q, q <> pid -> paging64_process_root_find_slot s' q = paging64_process_root_find_slot s q }.

Definition release_result s pid authority v s' : Prop :=
  pg_inv s' /\
    (v = 0 /\ same_pages s s' /\ cr3 s' = cr3 s /\
       (forall r, paging64_process_root_find_slot s pid = Some r -> authority = 0 \/ authority <> root_token (root_at s r)) \/
     v = 1 /\ exists r, paging64_process_root_find_slot s pid = Some r /\ authority <> 0 /\
       authority = root_token (root_at s r) /\ root_released s s' pid r).

Lemma released_intro s s' pid r x :
  pg_inv s -> paging64_process_root_find_slot s pid = Some r -> g_paging64_process_roots s !! r = Some x -> used x -> root_pid x = pid ->
  root_gone s s' r -> paging64_current_root_physical s' <> frame_of s (NPml4 r) -> pg_inv s' /\ root_released s s' pid r.
Proof.
  intros Hi Hf Hx Hu Hp Hg Hc. pose proof (pg_inv_gone s s' r x Hi Hx Hu Hg) as Hi'. pose proof (rg_base _ _ _ Hg) as Eb.
  assert (Hr : (r < ROOTS)%nat) by (rewrite <- (pi_roots _ Hi); by eapply lookup_lt_Some).
  split; [done|]. split.
  - destruct (paging64_process_root_find_slot s' pid) as [r0|] eqn:Hf'; [|done]. exfalso.
    apply find_slot_some in Hf' as (y & Hy & Huy & Hpy). rewrite (rg_roots _ _ _ Hg), list_lookup_alter in Hy. case_decide as E.
    + subst r0. rewrite Hx in Hy. by simplify_eq/=.
    + apply E. eapply (pi_unique _ Hi); [exact Hx|exact Hy|done|done|congruence].
  - intros n j Hn Ho. rewrite (frame_base s s') by done. by apply Hg.
  - by rewrite (frame_base s s').
  - apply Hg.
  - apply gone_pentry; done.
  - intros q Hq. eapply (find_slot_other s s' r); [done|done| |apply Hg|done]. intros y Hy. simplify_eq. congruence.
Qed.

Lemma root_release_wp s pid authority :
  pg_inv s -> wp (paging64_process_root_release pid authority) (release_result s pid authority) s.
Proof.
  intros Hi. unfold paging64_process_root_release. apply wp_bind, wp_gets.
  destruct (paging64_process_root_find_slot s pid) as [r|] eqn:Hf; cycle 1.
  { apply wp_bind, wp_modify, wp_ret. split; [by apply (pg_inv_core s)|]. left. split_and!; try done. by intros; simplify_eq. }
  apply wp_bind, wp_gets. destruct (_ || _) eqn:Hg.
  { apply wp_bind, wp_modify, wp_ret. split; [by apply (pg_inv_core s)|]. left. split_and!; try done. intros r' E. simplify_eq.
    rewrite orb_true_iff, negb_true_iff, Z.eqb_eq, Z.eqb_neq in Hg. done. }
  rewrite orb_false_iff, negb_false_iff, Z.eqb_eq, Z.eqb_neq in Hg. destruct Hg as [A1 A2].
  destruct (find_slot_some s pid r Hf) as (x & Hx & Hu & Hp).
  assert (Hr : (r < ROOTS)%nat) by (rewrite <- (pi_roots _ Hi); by eapply lookup_lt_Some).
  apply wp_bind, wp_gets, wp_bind, wp_gets. set (active := _ =? _). apply wp_bind.
  assert (Hsw : wp (if active then paging64_switch_to_kernel_root 0x52454C00 else ret 0)
    (fun _ s1 => pcore s1 = pcore s /\ paging64_current_root_physical s1 <> frame_of s (NPml4 r)) s).
  { destruct (pi_kernel _ Hi) as (K1 & K2 & K3). destruct active eqn:Ha.
    - apply switch_kernel_wp; [done|]. intros s1 Hc Hr1. split; [done|]. unfold paging64_current_root_physical.
      rewrite Hr1, frame_page_mask by done. intros E. by apply (K3 (NPml4 r)).
    - apply wp_ret. split; [done|]. apply Z.eqb_neq in Ha. intros E. apply Ha. unfold paging64_current_root_physical in E. rewrite E.
      symmetry. apply frame_page_mask, frame_page; [done|apply Hi]. }
  eapply wp_mono; [exact Hsw|]. intros _ s1 [Hc Hr1]. pose proof (pg_inv_core s s1 Hc Hi) as Hi1. pose proof (pcore_inj _ _ Hc) as (E1 & E2 & E3 & E4 & E5).
  apply wp_bind, clear_slot_wp; [apply Hi1|done|]. intros fs' [W1 W2]. apply wp_bind, wp_modify, wp_ret.
  match goal with |- release_result _ _ _ _ ?st => assert (Hgone : root_gone s st r) end.
  { split; try done.
    - intros n j Hn Ho. rewrite <- (frame_base s s1) by done. unfold entry. simpl. rewrite W1 by done.
      by rewrite (proj2 (in_root_of r n Hn) Ho).
    - intros n j Hn Ho. rewrite <- (frame_base s s1) by done. unfold entry. simpl. rewrite W1 by done.
      rewrite (proj1 (not_true_iff_false _)) by (by rewrite in_root_of). unfold entry_in. by rewrite E1.
    - intros page j Hfo. unfold entry at 1. simpl. rewrite W2; [unfold entry_in, entry; by rewrite E1|]. intros n Hn. rewrite (frame_base s s1) by done. by apply Hfo.
    - simpl. by rewrite E3.
    - simpl. rewrite E5, (pi_count _ Hi).
      pose proof (count_if_pos (fun x => nz (root_used x)) _ r x Hx Hu) as Hpos. pose proof (pool_small _ Hi) as Hs. rewrite (pi_count _ Hi) in Hs.
      unfold nz at 1. rewrite (proj2 (Z.eqb_neq _ 0)) by lia. cbn [negb]. unfold dec32, sub32, wrap32. by rewrite Z.mod_small by lia. }
  destruct (released_intro s _ pid r x Hi Hf Hx Hu Hp Hgone Hr1) as [I M]. split; [done|]. right. split; [done|]. exists r.
  split_and!; done.
Qed.

(** ** Switching *)

Definition switch_result (ps : Process.process_state) s pid v s' : Prop :=
  let root := paging64_process_root_physical ps pid s in
  pcore s' = pcore s /\
    (v = 0 /\ root = 0 /\ cr3 s' = cr3 s \/ v = 1 /\ root <> 0 /\ paging64_current_root_physical s' = Z.land root PAGING64_PAGE_MASK).

Lemma switch_wp ps s pid reason : wp (paging64_switch_to_process_root ps pid reason) (switch_result ps s pid) s.
Proof.
  apply wp_bind, wp_gets. destruct (Z.eqb_spec (paging64_process_root_physical ps pid s) 0) as [E|E].
  - apply wp_bind, wp_modify, wp_ret. split; [done|]. by left.
  - apply wp_bind, wp_modify, wp_bind, wp_modify, wp_ret. split; [done|]. right. split_and!; [done|done|]. apply mask_twice.
Qed.

(** ** Fork *)

(** The child of a fork gets a root of its own, that maps nothing yet. *)
Definition fork_alloc_result s parent child owner authority v s' : Prop :=
  pg_inv s' /\ Z.land (cr3 s') PAGING64_PAGE_MASK = Z.land (cr3 s) PAGING64_PAGE_MASK /\
    (v = 0 /\ same_pages s s' /\
       (parent = 0 \/ parent = PAGING64_INVALID_PID \/ child = 0 \/ child = PAGING64_INVALID_PID \/ parent = child \/
        owner = 0 \/ authority = 0 \/ paging64_process_root_find_slot s parent = None \/
        is_Some (paging64_process_root_find_slot s child) \/ forall x, x ∈ g_paging64_process_roots s -> used x) \/
     v = 1 /\ (child <> 0 /\ child <> PAGING64_INVALID_PID /\ owner <> 0 /\ authority <> 0) /\
       exists rp rc, paging64_process_root_find_slot s parent = Some rp /\ rc <> rp /\
       paging64_process_root_find_slot s child = None /\ root_made s s' child rc /\
       g_paging64_process_root_fork_last_child_root_distinct s' = 1).

Lemma fork_alloc_wp s parent child owner authority :
  pg_inv s -> wp (paging64_process_root_fork_alloc parent child owner authority) (fork_alloc_result s parent child owner authority) s.
Proof.
  intros Hi. unfold paging64_process_root_fork_alloc. apply wp_bind, wp_modify.
  match goal with |- wp _ _ ?st => assert (Hc0 : pcore st = pcore s) by reflexivity; assert (Er0 : cr3 st = cr3 s) by reflexivity; generalize dependent st end.
  intros s0 Hc0 Er0. pose proof (pg_inv_core s s0 Hc0 Hi) as Hi0. destruct (same_pages_core s s0 Hc0) as [S1 S2].
  pose proof (pcore_inj _ _ Hc0) as (_ & _ & E3 & _).
  assert (Hdeny : forall s1, pg_inv s1 -> same_pages s s1 -> Z.land (cr3 s1) PAGING64_PAGE_MASK = Z.land (cr3 s) PAGING64_PAGE_MASK ->
    (parent = 0 \/ parent = PAGING64_INVALID_PID \/ child = 0 \/ child = PAGING64_INVALID_PID \/ parent = child \/
        owner = 0 \/ authority = 0 \/ paging64_process_root_find_slot s parent = None \/
        is_Some (paging64_process_root_find_slot s child) \/ forall x, x ∈ g_paging64_process_roots s -> used x) ->
    wp deny_fork_alloc (fork_alloc_result s parent child owner authority) s1).
  { intros s1 Hi1 [P1 P2] Hr1 Hwhy. apply wp_bind, wp_modify, wp_ret. split_and!; [by apply (pg_inv_core s1)|done|]. by left. }
  destruct (_ || _) eqn:Hg.
  { apply Hdeny; [done|by split|by rewrite Er0|]. rewrite !orb_true_iff, !Z.eqb_eq in Hg. tauto. }
  rewrite !orb_false_iff, !Z.eqb_neq in Hg. destruct Hg as [[[[[[G1 G2] G3] G4] G5] G6] G7].
  apply wp_bind, wp_gets, wp_bind, wp_gets. rewrite !S2.
  destruct (paging64_process_root_find_slot s parent) as [rp|] eqn:Hp; [|apply Hdeny; [done|by split|by rewrite Er0|tauto]].
  destruct (paging64_process_root_find_slot s child) as [rc|] eqn:Hch; [apply Hdeny; [done|by split|by rewrite Er0|eauto 12]|].
  apply wp_bind, wp_gets, wp_bind. eapply wp_mono; [by apply alloc_wp|].
  intros v s1 (Hi1 & Hr1 & [(-> & [P1 P2] & Hwhy)|(-> & _ & [[-> [r Hr]]|(_ & rc & Hm & _)])]).
  - cbn [Z.eqb]. apply Hdeny; [done| |by rewrite Hr1, Er0|].
    + split; [intros; by rewrite P1|intros; by rewrite P2].
    + rewrite E3 in Hwhy. destruct Hwhy as [?|[?|[?|[?|[_ ?]]]]]; tauto.
  - rewrite S2, Hch in Hr. done.
  - cbn [Z.eqb]. apply (root_made_core s) in Hm; [|done]. pose proof Hm as (M1 & _ & _ & _ & M5 & M6 & M7).
    apply wp_bind, wp_gets. rewrite M1. apply wp_bind, wp_gets.
    assert (Hv : forall q r, paging64_process_root_find_slot s1 q = Some r -> (r < ROOTS)%nat).
    { intros q r (x & Hx & _)%find_slot_some. rewrite <- (pi_roots _ Hi1). by eapply lookup_lt_Some. }
    assert (Hp1 : paging64_process_root_find_slot s1 parent = Some rp) by (by rewrite M5).
    assert (Hne : rc <> rp).
    { intros ->. apply find_slot_some in M1 as (x & Hx & _ & E1). apply find_slot_some in Hp1 as (y & Hy & _ & E2). congruence. }
    destruct (frame_page s1 (NPml4 rc) (Hv _ _ M1) (pi_base _ Hi1)) as [F1 F2].
    rewrite (proj2 (Z.eqb_neq (pml4_of s1 rc) 0)) by (change (pml4_of s1 rc) with (frame_of s1 (NPml4 rc)); lia).
    apply wp_bind, wp_modify, wp_bind.
    match goal with |- wp _ _ ?st => assert (Hc2 : pcore st = pcore s1) by reflexivity; assert (Er2 : cr3 st = cr3 s1) by reflexivity; generalize dependent st end.
    intros s2 Hc2 Er2. pose proof (pg_inv_core s1 s2 Hc2 Hi1) as Hi2. pose proof (pcore_inj _ _ Hc2) as (_ & B2 & _ & B4 & _).
    set (b := negb (pml4_of s1 rc =? pml4_of s0 rp)). assert (Hb : b = true).
    { subst b. apply negb_true_iff, Z.eqb_neq. change (frame_of s1 (NPml4 rc) <> frame_of s0 (NPml4 rp)).
      rewrite (frame_base s0 s1) by (apply pcore_inj in Hc0; destruct Hc0 as (_ & -> & _); done). intros E. apply Hne.
      apply frame_inj in E; [by injection E|..].
      - by apply (Hv child).
      - by apply (Hv parent).
      - apply Hi0. }
    rewrite Hb. apply wp_bind, ensure_wp; [done|]. apply wp_ret, wp_bind, wp_modify, wp_ret. 
    split_and!; [by apply (pg_inv_core s2)|simpl; congruence|]. right. split; [done|]. split; [done|]. exists rp, rc.
    split_and!; try done; [eapply root_made_after; [|exact Hm]; exact Hc2|]. simpl.
    rewrite (proj2 (Z.eqb_neq _ _)); [done|]. destruct (pi_kernel _ Hi1) as (K1 & _ & K3). rewrite B4, frame_page_mask by done.
    by apply (K3 (NPml4 rc)), (Hv child).
Qed.

End roots.
End PagingRoots.
