(* ===== verification/PagingTheorems.v ===== *)
(** * Theorems about the page tables

    The properties of the process roots and of the user pages in them, over
    any sequence of calls, and a small machine to try them on. *)

From S2P Require Import Prelude Principal Services64 Process ProcessTheorems Paging PagingFacts PagingOps PagingRoots.
Import Paging PagingFacts PagingOps PagingRoots.
Local Open Scope Z_scope.
Local Open Scope kernel_scope.

Module PagingTheorems.

Section theorems.
Context {symbols : PagingSymbols} {layout : PagingLayout} {launch : Process.LaunchEnv}.
Implicit Types (s : paging_state) (r : nat) (va pa : Z) (ps : Process.process_state).

(** ** Every call keeps the roots *)

Inductive paging_call :=
| CAlloc (pid owner authority : Z)
| CForkAlloc (parent child owner authority : Z)
| CRelease (pid authority : Z)
| CSwitch (ps : Process.process_state) (pid reason : Z)
| CSwitchKernel (reason : Z)
| CInstall (pid va pa prot : Z)
| CClear (ps : Process.process_state) (pid va : Z)
| CRemap (ps : Process.process_state) (pid va pa prot : Z)
| CProtect (ps : Process.process_state) (pid va prot : Z).

Definition run_paging_call (c : paging_call) : PG Z :=
  match c with
  | CAlloc pid owner authority => paging64_process_root_alloc pid owner authority
  | CForkAlloc parent child owner authority => paging64_process_root_fork_alloc parent child owner authority
  | CRelease pid authority => paging64_process_root_release pid authority
  | CSwitch ps pid reason => paging64_switch_to_process_root ps pid reason
  | CSwitchKernel reason => paging64_switch_to_kernel_root reason
  | CInstall pid va pa prot => paging64_install_user_page_mapping_for_process pid va pa prot
  | CClear ps pid va => paging64_clear_user_page_mapping_for_process ps pid va
  | CRemap ps pid va pa prot => paging64_remap_user_page_for_process ps pid va pa prot
  | CProtect ps pid va prot => paging64_update_user_page_protection_for_process ps pid va prot
  end.

Fixpoint run_paging_calls (cs : list paging_call) (s : paging_state) : paging_state :=
  match cs with [] => s | c :: cs' => run_paging_calls cs' (snd (run_paging_call c s)) end.

(** A place among the entries of a page table. *)
Definition leaf s (at_ : option (Z * Z)) : Prop := forall page i, at_ = Some (page, i) ->
  exists n, valid n /\ is_leaf n = true /\ page = frame_of s n.

Lemma leaf_put s n i v e :
  pg_inv s -> valid n -> is_leaf n = true ->
  pg_inv (with_frames (put (frames s) (frame_of s n) i v) (s <| efer := e |>)).
Proof.
  intros Hi Hn Hl. apply (pg_inv_pte s); try done; [by eapply (kernel_high_put s _ n)|]. intros n' j Hn' Hpt. unfold entry. simpl.
  rewrite entry_put_frame by (try done; apply Hi). rewrite decide_False; [done|]. intros [-> _]. congruence.
Qed.

(** Reloading CR3 changes nothing the model sees. *)
Definition harmless (reload : PG unit) : Prop := forall s, snd (reload s) = s.

Lemma harmless_active : harmless paging64_reload_active_root.
Proof. intros s. by destruct s. Qed.
Lemma harmless_if a : harmless (paging64_reload_root_if_active a).
Proof.
  intros s. apply (reload_wp a s (fun _ s' => s' = s)). done.
Qed.
Lemma harmless_wp reload s (Q : unit -> paging_state -> Prop) : harmless reload -> Q tt s -> wp reload Q s.
Proof. intros Hr HQ. unfold wp. specialize (Hr s). destruct (reload s) as [[] s']. simpl in Hr. by subst. Qed.

Section leaves.
Variables (s : paging_state) (at_ : option (Z * Z)) (reload : PG unit).
Hypothesis Hi : pg_inv s.
Hypothesis Hl : leaf s at_.
Hypothesis Hr : harmless reload.

Lemma clear_keeps_roots : wp (clear_entry at_ reload) (fun _ => pg_inv) s.
Proof.
  unfold clear_entry. destruct at_ as [[page i]|]; [|by apply wp_ret]. destruct (Hl page i eq_refl) as (n & Hn & Hf & ->).
  apply wp_bind, wp_gets. destruct (negb _); [by apply wp_ret|]. apply wp_bind, put_wp, wp_bind, harmless_wp; [done|]. apply wp_ret.
  pose proof (leaf_put s n i 0 (efer s) Hi Hn Hf) as H. by replace (s <| efer := efer s |>) with s in H by (by destruct s).
Qed.
Lemma remap_keeps_roots pa prot : wp (remap_entry at_ pa prot reload) (fun _ => pg_inv) s.
Proof.
  unfold remap_entry. destruct at_ as [[page i]|]; [|by apply wp_ret]. destruct (Hl page i eq_refl) as (n & Hn & Hf & ->).
  apply wp_bind, wp_gets. destruct (_ || _); [by apply wp_ret|]. apply wp_bind, enable_nx_wp. intros v.
  apply wp_bind, put_wp, wp_bind, harmless_wp; [done|]. apply wp_ret. exact (leaf_put s n i _ v Hi Hn Hf).
Qed.
Lemma protect_keeps_roots prot : wp (protect_entry at_ prot reload) (fun _ => pg_inv) s.
Proof.
  unfold protect_entry. destruct at_ as [[page i]|]; [|by apply wp_ret]. destruct (Hl page i eq_refl) as (n & Hn & Hf & ->).
  apply wp_bind, wp_gets. destruct (_ || _); [by apply wp_ret|]. apply wp_bind, enable_nx_wp. intros v.
  apply wp_bind, put_wp, wp_bind, harmless_wp; [done|]. apply wp_ret. exact (leaf_put s n i _ v Hi Hn Hf).
Qed.
End leaves.

Lemma leaf_process ps s pid va : pg_inv s -> leaf s (paging64_process_user_page_entry_slot ps s pid va).
Proof.
  intros Hi page i. unfold paging64_process_user_page_entry_slot. destruct (_ || _); [done|]. destruct (_ <=? _); [done|].
  unfold paging64_process_vma_user_pt_find_slot. destruct (pt_find _ _) as [k|] eqn:Hk; [|done]. intros [= <- <-].
  apply pt_find_some in Hk as (y & Hy & _). exists (NPt (Z.to_nat (paging64_process_root_slot ps pid s)) k).
  split; [by apply (pts_bound s _ k y)|done].
Qed.
Lemma call_keeps_roots c s : pg_inv s -> wp (run_paging_call c) (fun _ => pg_inv) s.
Proof.
  intros Hi. destruct c as [pid owner authority|parent child owner authority|pid authority|ps pid reason|reason|pid va pa prot|ps pid va|ps pid va pa prot|ps pid va prot]; simpl.
  - eapply wp_mono; [by apply alloc_wp|]. by intros v s' [? _].
  - eapply wp_mono; [by apply fork_alloc_wp|]. by intros v s' [? _].
  - eapply wp_mono; [by apply root_release_wp|]. by intros v s' [? _].
  - eapply wp_mono; [apply switch_wp|]. intros v s' [Hc _]. by eapply pg_inv_core.
  - apply switch_kernel_wp; [done|]. intros s' Hc _. by eapply pg_inv_core.
  - destruct (paging64_process_root_find_slot s pid) as [r|] eqn:Hf.
    + eapply wp_mono; [by apply (install_process_wp s pid r)|]. by intros v s' [? _].
    + unfold paging64_install_user_page_mapping_for_process. apply wp_bind, wp_gets. rewrite Hf. by apply wp_ret.
  - apply wp_bind, wp_gets, wp_bind, wp_gets, clear_keeps_roots; [done|by apply leaf_process|apply harmless_if].
  - apply wp_bind, wp_gets, wp_bind, wp_gets, remap_keeps_roots; [done|by apply leaf_process|apply harmless_if].
  - apply wp_bind, wp_gets, wp_bind, wp_gets, protect_keeps_roots; [done|by apply leaf_process|apply harmless_if].
Qed.

Lemma call_state c s : pg_inv s -> pg_inv (snd (run_paging_call c s)).
Proof. intros Hi. pose proof (call_keeps_roots c s Hi) as H. unfold wp in H. by destruct (run_paging_call c s). Qed.

(** C3: From a state where every process root links only its own tables, any
    sequence of root allocations, forks, releases, root switches and changes of
    user pages of a process (install, clear, remap, protect by pid) keeps it
    so: pids of roots are unique and proper; the top level of every live root
    holds its own directory, the entry of the upper half that the kernel's
    root has, and nothing else; the directory holds its own page directory in
    the user window, and no other entry of it is open to user mode; the page
    directory holds exactly the page tables registered in it; no two tables
    of any root are the same frame; and the pool count is the number of live
    roots.  The calls that change pages of the shared window without a pid
    are not among them: [shared_install_breaks_active_root] below shows that
    one of them takes the active root apart. *)
Theorem paging_calls_keep_roots s cs : pg_inv s -> pg_inv (run_paging_calls cs s).
Proof. revert s. induction cs as [|c cs IH]; simpl; intros s Hi; [done|]. by apply IH, call_state. Qed.

(** ** User pages *)

(** The entry of a page of a process, as the queries read it. *)
Definition user_entry ps s pid va : Z := read_entry s (paging64_process_user_page_entry_slot ps s pid va).

(** The protection a query reports for a page mapped with [prot]. *)
Definition reported (prot : Z) : Z :=
  Z.lor (Z.lor 1 (if nz (Z.land prot 2) then 2 else 0)) (if Z.land prot 4 =? 0 then 0 else 4).

Lemma find_bound s pid r : pg_inv s -> paging64_process_root_find_slot s pid = Some r -> (r < ROOTS)%nat.
Proof. intros Hi (x & Hx & _)%find_slot_some. rewrite <- (pi_roots _ Hi). by eapply lookup_lt_Some. Qed.

Lemma find_inj s p q r : paging64_process_root_find_slot s p = Some r -> paging64_process_root_find_slot s q = Some r -> p = q.
Proof. intros (x & Hx & _ & <-)%find_slot_some (y & Hy & _ & <-)%find_slot_some. by simplify_eq. Qed.

Lemma user_entry_pentry ps s pid r va : pg_inv s -> paging64_process_root_find_slot s pid = Some r ->
  user_entry ps s pid va = if decide (in_window va) then pentry s r va else 0.
Proof.
  intros Hi Hf. pose proof (find_bound s pid r Hi Hf). unfold user_entry. case_decide as Hw.
  - by apply read_entry_process.
  - by rewrite entry_slot_outside.
Qed.

Lemma low_bits_frame pa : 0 <= pa < 2 ^ 52 -> Z.land pa (PAGING64_PAGE_BYTES - 1) = 0 -> page_frame pa.
Proof.
  intros Hp Hl. split; [done|]. change (PAGING64_PAGE_BYTES - 1) with (Z.ones 12) in Hl. by rewrite Z.land_ones in Hl by lia.
Qed.

Lemma allowed_window va pa prot : install_denied va pa prot = false -> in_window va /\ Z.land pa (PAGING64_PAGE_BYTES - 1) = 0.
Proof. unfold install_denied. intros Hd. repeat (apply orb_false_iff in Hd as [Hd ?]). boolify. unfold nz in *. by boolify. Qed.

(** The other pages keep their entries. *)
Lemma entries_kept ps s s' pid r va :
  pg_inv s -> pg_inv s' -> (forall q, paging64_process_root_find_slot s' q = paging64_process_root_find_slot s q) ->
  paging64_process_root_find_slot s pid = Some r ->
  (forall r' va', (r' <> r \/ page_index va' <> page_index va) -> pentry s' r' va' = pentry s r' va') ->
  forall q va', is_Some (paging64_process_root_find_slot s q) -> (q <> pid \/ page_index va' <> page_index va) ->
    user_entry ps s' q va' = user_entry ps s q va'.
Proof.
  intros Hi Hi' Hfs Hf Hp q va' [r' Hr'] Hne. rewrite (user_entry_pentry ps s q r'), (user_entry_pentry ps s' q r') by (try done; by rewrite Hfs).
  case_decide; [|done]. apply Hp. destruct Hne as [Hq|]; [left|by right]. intros ->. apply Hq. by eapply find_inj.
Qed.

(** C36: Installing a page for a process with a root succeeds exactly when the
    request is in the user window, aligned, with some protection, and a page
    table is registered or free for it.  Then the page reads back the frame
    and the protection asked for, and the processor's walk from the root of
    the process reaches that entry; every other page of every process with a
    root keeps its entry, in either case. *)
Theorem paging_install_isolated ps s pid r va pa prot :
  pg_inv s -> paging64_process_root_find_slot s pid = Some r -> 0 <= pa < 2 ^ 52 ->
  let (v, s') := paging64_install_user_page_mapping_for_process pid va pa prot s in
  v = (if install_refused s r va pa prot then 0 else 1) /\ cr3 s' = cr3 s /\
  (v = 1 -> paging64_user_page_physical_for_process ps pid va s' = pa /\
     paging64_user_page_protection_for_process ps pid va s' = reported prot /\
     mmu_walk s' (paging64_process_root_physical ps pid s') va = user_pte pa prot) /\
  forall q va', is_Some (paging64_process_root_find_slot s q) ->
    (v = 0 \/ q <> pid \/ page_index va' <> page_index va) -> user_entry ps s' q va' = user_entry ps s q va'.
Proof.
  intros Hi Hf Hpa. pose proof (install_process_wp s pid r va pa prot Hi Hf) as H. unfold wp in H.
  destruct (paging64_install_user_page_mapping_for_process pid va pa prot s) as [v s'].
  cbn [fst snd] in H. destruct H as (Hi' & Hst & H). pose proof (fun q => stable_find s s' q Hst) as Hfs. pose proof (sb_cr3 _ _ Hst) as Hc.
  destruct H as [(E & Eref & Hp)|(E & Href & Hset & Hother)]; subst v.
  - rewrite Eref. split_and!; [done|done|done|]. intros q va' [r' Hr'] _.
    rewrite (user_entry_pentry ps s q r'), (user_entry_pentry ps s' q r') by (try done; by rewrite Hfs). by rewrite Hp.
  - rewrite Href. pose proof Href as [Hd _]%orb_false_iff. apply allowed_window in Hd as [Hw Hl].
    assert (Hf' : paging64_process_root_find_slot s' pid = Some r) by (by rewrite Hfs).
    pose proof (user_entry_pentry ps s' pid r va Hi' Hf') as He. rewrite decide_True, Hset in He by done.
    destruct (user_pte_facts pa prot (low_bits_frame pa Hpa Hl)) as (_ & U2 & U3 & _).
    split_and!; [done|done| |].
    + intros _. unfold paging64_user_page_physical_for_process, paging64_user_page_protection_for_process.
      fold (user_entry ps s' pid va). rewrite He, U2, U3. split_and!; [done|done|].
      unfold paging64_process_root_physical. rewrite Hf'. destruct (find_slot_some s' pid r Hf') as (x & Hx & Hu & _).
      change (pml4_of s' r) with (frame_of s' (NPml4 r)). by rewrite (walk_pentry s' r x va).
    + intros q va' Hq [?|Hne]; [done|]. by apply (entries_kept ps s s' pid r va).
Qed.

(** C10: In every consistent state the processor's walk from the root of a
    process reaches, for an address of the user window, exactly the entry the
    software queries of that process read. *)
Theorem paging_walk_agrees ps s pid va :
  pg_inv s -> is_Some (paging64_process_root_find_slot s pid) -> in_window va ->
  mmu_walk s (paging64_process_root_physical ps pid s) va = user_entry ps s pid va.
Proof.
  intros Hi [r Hf] Hw. rewrite (user_entry_pentry ps s pid r va), decide_True by done.
  unfold paging64_process_root_physical. rewrite Hf. destruct (find_slot_some s pid r Hf) as (x & Hx & Hu & _).
  by apply (walk_pentry s r x va).
Qed.

(** C40: Allocating a root keeps CR3 and the pages of every other process.  It
    fails exactly for an improper pid, owner or authority, or when the process
    has no root and the pool is full, and then changes no root; when it
    succeeds, pid, owner and authority are proper, and it does nothing if the
    process has a root, and otherwise a slot that was free becomes the root of
    the process, maps no user page and shares the upper half with the
    kernel. *)
Theorem paging_alloc_outcome s pid owner authority :
  pg_inv s ->
  let (v, s') := paging64_process_root_alloc pid owner authority s in alloc_result s pid owner authority v s'.
Proof. intros Hi. pose proof (alloc_wp s pid owner authority Hi) as H. unfold wp in H. by destruct (paging64_process_root_alloc pid owner authority s). Qed.

(** Releasing a root succeeds exactly for the token of the root; then
    every entry of its tables is zero, the process has no root, CR3 does not
    point to it, and the other processes keep their roots and pages.  A
    refused release changes no root and not CR3. *)
Theorem paging_release_outcome s pid authority :
  pg_inv s ->
  let (v, s') := paging64_process_root_release pid authority s in release_result s pid authority v s'.
Proof. intros Hi. pose proof (root_release_wp s pid authority Hi) as H. unfold wp in H. by destruct (paging64_process_root_release pid authority s). Qed.

(** Forking a root gives the child a root of its own in another slot that
    maps nothing yet, and leaves every page of the parent in place; it is
    refused, without a change of any root, when a pid or credential is
    improper, the parent has no root, the child has one, or the pool is full. *)
Theorem paging_fork_alloc_outcome s parent child owner authority :
  pg_inv s ->
  let (v, s') := paging64_process_root_fork_alloc parent child owner authority s in
  fork_alloc_result s parent child owner authority v s'.
Proof.
  intros Hi. pose proof (fork_alloc_wp s parent child owner authority Hi) as H. unfold wp in H.
  by destruct (paging64_process_root_fork_alloc parent child owner authority s).
Qed.

(** Clearing a page right after it was installed where there was none
    succeeds and gives back the entry of every page of every process. *)
Theorem paging_install_clear_roundtrip ps s pid r va pa prot :
  pg_inv s -> paging64_process_root_find_slot s pid = Some r -> 0 <= pa < 2 ^ 52 ->
  install_refused s r va pa prot = false -> user_entry ps s pid va = 0 ->
  let s1 := snd (paging64_install_user_page_mapping_for_process pid va pa prot s) in
  let (v, s2) := paging64_clear_user_page_mapping_for_process ps pid va s1 in
  v = 1 /\ forall q va', is_Some (paging64_process_root_find_slot s q) -> user_entry ps s2 q va' = user_entry ps s q va'.
Proof.
  intros Hi Hf Hpa Href H0. pose proof (install_process_wp s pid r va pa prot Hi Hf) as H. unfold wp in H.
  destruct (paging64_install_user_page_mapping_for_process pid va pa prot s) as [v s1]. cbn [snd].
  cbn [fst snd] in H. destruct H as (Hi1 & Hst & [(_ & ? & _)|(_ & _ & Hset & Hoth)]); [congruence|].
  pose proof Href as [Hd _]%orb_false_iff. apply allowed_window in Hd as [Hw Hl].
  pose proof (fun q => stable_find s s1 q Hst) as Hfs.
  assert (Hf1 : paging64_process_root_find_slot s1 pid = Some r) by (by rewrite Hfs).
  pose proof (find_bound s1 pid r Hi1 Hf1) as Hr. destruct (find_slot_some s1 pid r Hf1) as (x & Hx & Hu & _).
  pose proof (clear_entry_wp s1 r x va (paging64_process_root_physical ps pid s1) Hi1 Hx Hu) as H2.
  rewrite <- (entry_slot_process ps s1 pid r va) in H2 by done.
  destruct (user_pte_facts pa prot (low_bits_frame pa Hpa Hl)) as (U1 & _).
  assert (Hc : wp (paging64_clear_user_page_mapping_for_process ps pid va) (change_result s1 r va pte_present (fun _ => 0)) s1)
    by (apply wp_bind, wp_gets, wp_bind, wp_gets; exact H2). unfold wp in Hc.
  destruct (paging64_clear_user_page_mapping_for_process ps pid va s1) as [v2 s2]. cbn [fst snd] in Hc. destruct Hc as (Hi2 & Hst2 & [(_ & ? & _)|(-> & _ & Hset2 & Hoth2)]); [congruence|].
  pose proof (fun q => stable_find s1 s2 q Hst2) as Hfs2. split; [done|]. intros q va' [r' Hr'].
  rewrite (user_entry_pentry ps s q r'), (user_entry_pentry ps s2 q r') by (try done; by rewrite Hfs2, Hfs). case_decide as Hw'; [|done].
  destruct (decide (r' = r /\ page_index va' = page_index va)) as [[-> E]|Hne].
  - rewrite (user_entry_pentry ps s pid r), decide_True in H0 by done.
    assert (Hpe : forall st, pentry st r va' = pentry st r va) by (intros st; unfold pentry; injection E as E1 E2; by rewrite E1, E2).
    by rewrite !Hpe, Hset2, H0.
  - assert (r' <> r \/ page_index va' <> page_index va) by (destruct (decide (r' = r)); [right; tauto|by left]).
    by rewrite Hoth2, Hoth.
Qed.

End theorems.
(** ** A small machine

    The tables lie at their link addresses from 2 MiB on, the kernel at
    16 MiB, and its root at 1 MiB, mapping the upper half. *)

Abbreviation demo_table := ProcTheorems.demo_table.
#[local] Existing Instance ProcTheorems.demo_launch.

#[export] Instance demo_symbols : PagingSymbols := {|
  g_paging64_process_pml4 := 0x200000;
  g_paging64_process_pdpt := 0x208000;
  g_paging64_process_runtime_pd := 0x210000;
  g_paging64_process_vma_pts := 0x218000;
  g_paging64_vma_user_pts := 0x298000 |}.

Lemma demo_tables i a n : @static_tables demo_symbols !! i = Some (a, n) ->
  0 + PAGING64_KERNEL_LINKED_OFFSET <= a /\ a + n * 4096 <= PAGING64_KERNEL_LINKED_LOW_LIMIT /\ a mod 4096 = 0.
Proof. do 5 (destruct i as [|i]; [intros [= <- <-]; done|]). done. Qed.

Lemma demo_tables_apart i j a n b m :
  @static_tables demo_symbols !! i = Some (a, n) -> @static_tables demo_symbols !! j = Some (b, m) -> i <> j ->
  a + n * 4096 <= b \/ b + m * 4096 <= a.
Proof.
  intros Hi Hj Hne. do 5 (destruct i as [|i]; [injection Hi as <- <-;
    do 5 (destruct j as [|j]; [first [done | injection Hj as <- <-; lia]|]); done|]). done.
Qed.

#[export] Instance demo_layout : PagingLayout := {|
  lay_off := 0;
  lay_limit := PAGING64_KERNEL_LINKED_LOW_LIMIT;
  lay_window := or_intror (conj eq_refl eq_refl);
  lay_range := demo_tables;
  lay_apart := demo_tables_apart |}.

Definition boot_paging : paging_state :=
  mk_paging {[ 0x100000 := {[ 511 := 0x101003 ]} ]} 0x100000 0 0x1000000 0
    (replicate PAGING64_VMA_USER_PT_COUNT (mk_pt 0 0))
    (replicate PAGING64_PROCESS_ROOT_POOL_LIMIT (mk_root 0 0 0 0 0 clear_pts))
    0x100000 0 0 0 0 0 0 0 0 0 0 0 0 0 0 0 0 0 0 0 0 0 0 0 0 0 0 0 0 0 0.

Lemma boot_paging_inv : pg_inv boot_paging.
Proof.
  assert (Hx : forall r x, g_paging64_process_roots boot_paging !! r = Some x -> x = mk_root 0 0 0 0 0 clear_pts)
    by (by intros r x [? _]%lookup_replicate).
  assert (Hb : base_ok boot_paging) by done.
  split; try done.
  - by intros r x ->%Hx.
  - by intros i j x y ->%Hx.
  - by intros r x ->%Hx.
  - by intros r x ->%Hx.
  - split_and!; [done|done|]. intros n Hn. destruct (frame_value boot_paging n Hn Hb) as (-> & H1 & _).
    unfold PAGING64_KERNEL_LINKED_OFFSET in H1. simpl (g_paging64_kernel_physical_base _). simpl (g_paging64_kernel_root_physical _). lia.
Qed.

(** Processes 4 and 5 have roots; the second page of 4 is mapped, and 4 runs. *)
Definition demo_calls : list paging_call :=
  [CAlloc 4 7 9; CAlloc 5 7 10; CInstall 4 0x44000000 0x300000 3; CSwitch demo_table 4 1].
Definition demo_paging : paging_state := run_paging_calls demo_calls boot_paging.

Lemma demo_paging_inv : pg_inv demo_paging.
Proof. unfold demo_paging, demo_calls. cbn [run_paging_calls]. do 4 apply call_state. apply boot_paging_inv. Qed.

Lemma demo_paging_roots : paging64_process_root_find_slot demo_paging 4 = Some 0%nat /\
  paging64_process_root_find_slot demo_paging 5 = Some 1%nat.
Proof. by vm_compute. Qed.

Lemma paging_calls_keep_roots_witness : pg_inv (run_paging_calls demo_calls boot_paging).
Proof. apply (paging_calls_keep_roots boot_paging demo_calls). exact boot_paging_inv. Defined.

Lemma paging_install_isolated_witness :
  fst (paging64_install_user_page_mapping_for_process 4 0x44001000 0x301000 3 demo_paging) = 1.
Proof.
  pose proof (paging_install_isolated demo_table demo_paging 4 0 0x44001000 0x301000 3 demo_paging_inv
    (proj1 demo_paging_roots) ltac:(lia)) as H.
  replace (install_refused demo_paging 0 0x44001000 0x301000 3) with false in H by (by vm_compute).
  destruct (paging64_install_user_page_mapping_for_process 4 0x44001000 0x301000 3 demo_paging). exact (proj1 H).
Defined.

Lemma paging_walk_agrees_witness :
  mmu_walk demo_paging (paging64_process_root_physical demo_table 4 demo_paging) 0x44000000 =
  user_entry demo_table demo_paging 4 0x44000000 /\ user_entry demo_table demo_paging 4 0x44000000 <> 0.
Proof.
  split; [|by vm_compute]. apply (paging_walk_agrees demo_table demo_paging 4 0x44000000).
  - exact demo_paging_inv.
  - rewrite (proj1 demo_paging_roots). eexists. reflexivity.
  - split; reflexivity.
Defined.

Lemma paging_alloc_outcome_witness :
  fst (paging64_process_root_alloc 6 7 11 demo_paging) = 1 /\
  let (v, s') := paging64_process_root_alloc 6 7 11 demo_paging in alloc_result demo_paging 6 7 11 v s'.
Proof. split; [by vm_compute|]. apply (paging_alloc_outcome demo_paging 6 7 11). exact demo_paging_inv. Defined.

Definition demo_token : Z := root_token (root_at demo_paging 0).

Lemma paging_release_outcome_witness :
  fst (paging64_process_root_release 4 demo_token demo_paging) = 1.
Proof.
  pose proof (paging_release_outcome demo_paging 4 demo_token demo_paging_inv) as H.
  destruct (paging64_process_root_release 4 demo_token demo_paging) as [v s']. cbn [fst].
  destruct H as (_ & [(_ & _ & _ & Hno)|[-> _]]); [|reflexivity].
  exfalso. destruct (Hno 0%nat (proj1 demo_paging_roots)) as [H|H]; [|apply H; reflexivity]. revert H. by vm_compute.
Defined.

Lemma paging_fork_alloc_outcome_witness :
  let (v, s') := paging64_process_root_fork_alloc 4 6 7 12 demo_paging in fork_alloc_result demo_paging 4 6 7 12 v s'.
Proof. apply (paging_fork_alloc_outcome demo_paging 4 6 7 12). exact demo_paging_inv. Defined.

Lemma paging_install_clear_roundtrip_witness :
  let s1 := snd (paging64_install_user_page_mapping_for_process 4 0x44001000 0x301000 3 demo_paging) in
  fst (paging64_clear_user_page_mapping_for_process demo_table 4 0x44001000 s1) = 1.
Proof.
  pose proof (paging_install_clear_roundtrip demo_table demo_paging 4 0 0x44001000 0x301000 3 demo_paging_inv
    (proj1 demo_paging_roots) ltac:(lia) ltac:(by vm_compute) ltac:(by vm_compute)) as H.
  cbv zeta in *. destruct (paging64_clear_user_page_mapping_for_process demo_table 4 0x44001000 _). exact (proj1 H).
Defined.

(** A mapping for a process without a root, made while the root of another
    process is in CR3, is linked into that root: the directory of process 4
    is replaced by tables of the pool that belong to other slots, and the
    processor no longer reaches its page, though the queries still report it. *)
Theorem shared_install_breaks_active_root :
  let s' := snd (paging64_install_user_page_mapping 0x44001000 0x301000 3 demo_paging) in
  mmu_walk demo_paging (paging64_current_root_physical demo_paging) 0x44000000 = user_entry demo_table demo_paging 4 0x44000000 /\
  paging64_current_root_physical s' = paging64_current_root_physical demo_paging /\
  user_entry demo_table s' 4 0x44000000 = user_entry demo_table demo_paging 4 0x44000000 /\
  pte_present (user_entry demo_table s' 4 0x44000000) = true /\
  mmu_walk s' (paging64_current_root_physical s') 0x44000000 = 0 /\
  entry s' (pml4_of s' 0) 0 = table_entry (pml4_of s' 1).
Proof. by vm_compute. Qed.

End PagingTheorems.
