(* ===== verification/Scheduler.v ===== *)
(** * The run queue: kernel/arch/x86_64/scheduler.c

    Sixteen tasks with their saved interrupt frames, a round-robin choice of
    the next one with a preference for a task just woken, a queue of sleepers,
    and the switch of CR3 and of the FS base register on every change of task.
    UEFI kernel configuration.  The process table is Process.v and the page
    roots are Paging.v; the timer, the personas and the delivery of Linux
    signals are the interface [SchedWorld].  A frame passed by pointer is an
    argument and part of the result. *)

From S2P Require Import Prelude Principal Services64 Process Paging.
Local Open Scope Z_scope.
Local Open Scope kernel_scope.

Module Scheduler.

Definition SCHEDULER64_SLEEP_SPIN_BUDGET_PER_TICK : Z := 50000.
Definition SCHEDULER64_SLEEP_MAX_SPIN_BUDGET : Z := 1000000.
Definition SCHEDULER64_INVALID_TASK : Z := 0xFFFFFFFF.
Definition SCHEDULER64_RUNQUEUE_TASK_LIMIT : nat := 16.
Definition SCHEDULER64_SLEEP_QUEUE_TASK_LIMIT : nat := SCHEDULER64_RUNQUEUE_TASK_LIMIT.
Definition SCHEDULER64_TASK_UNUSED : Z := 0.
Definition SCHEDULER64_TASK_READY : Z := 1.
Definition SCHEDULER64_TASK_RUNNING : Z := 2.
Definition SCHEDULER64_TASK_EXITED : Z := 3.
Definition SCHEDULER64_TASK_BLOCKED : Z := 4.
Definition SCHEDULER64_RUNQUEUE_EXIT_NONE : Z := 0.
Definition SCHEDULER64_RUNQUEUE_EXIT_RESUMED : Z := 1.
Definition SCHEDULER64_RUNQUEUE_EXIT_COMPLETE : Z := 2.
Definition SCHEDULER64_CR3_REASON_START : Z := 0x53544152.
Definition SCHEDULER64_CR3_REASON_TIMER : Z := 0x54494D52.
Definition SCHEDULER64_CR3_REASON_BLOCKED_SYSCALL : Z := 0x42535953.
Definition SCHEDULER64_CR3_REASON_EXIT_RESUME : Z := 0x45585245.
Definition SCHEDULER64_CR3_REASON_EXIT_KERNEL : Z := 0x45584B52.
Definition SCHEDULER64_CR3_REASON_STOP : Z := 0x53544F50.
Definition SCHEDULER64_CR3_REASON_RESET : Z := 0x52534554.
Definition PERSONA64_TYPE_LINUX_ELF : Z := 1.

(** ** Data *)

Record interrupt_frame64 := mk_frame {
  r15 : Z; r14 : Z; r13 : Z; r12 : Z; r11 : Z; r10 : Z; r9 : Z; r8 : Z;
  rdi : Z; rsi : Z; rbp : Z; rbx : Z; rdx : Z; rcx : Z; rax : Z;
  vector : Z; error_code : Z; rip : Z; cs : Z; rflags : Z; rsp : Z; ss : Z }.

#[export] Instance eta_frame : Eta interrupt_frame64 := {| eta f :=
  mk_frame (r15 f) (r14 f) (r13 f) (r12 f) (r11 f) (r10 f) (r9 f) (r8 f) (rdi f) (rsi f) (rbp f) (rbx f)
    (rdx f) (rcx f) (rax f) (vector f) (error_code f) (rip f) (cs f) (rflags f) (rsp f) (ss f) |}.

Record scheduler64_task := mk_task {
  t_state : Z;
  t_frame_valid : Z;
  t_pid : Z;
  t_runtime_token : Z;
  t_entry_token : Z;
  t_dispatches : Z;
  t_exits : Z;
  t_result : Z;
  t_initial_rip : Z;
  t_initial_rsp : Z;
  t_saved_rip : Z;
  t_saved_rsp : Z;
  t_fs_base : Z;
  t_frame : interrupt_frame64 }.

#[export] Instance eta_task : Eta scheduler64_task := {| eta t :=
  mk_task (t_state t) (t_frame_valid t) (t_pid t) (t_runtime_token t) (t_entry_token t) (t_dispatches t)
    (t_exits t) (t_result t) (t_initial_rip t) (t_initial_rsp t) (t_saved_rip t) (t_saved_rsp t)
    (t_fs_base t) (t_frame t) |}.

Record scheduler64_runqueue := mk_runqueue {
  q_active : Z;
  q_task_count : Z;
  q_current_task : Z;
  q_attempts : Z;
  q_exits : Z;
  q_irqs : Z;
  q_switches : Z;
  q_result : Z;
  q_blocks : Z;
  q_wakes : Z;
  q_block_denials : Z;
  q_cs : Z;
  q_ss : Z;
  q_tasks : list scheduler64_task }.

#[export] Instance eta_runqueue : Eta scheduler64_runqueue := {| eta q :=
  mk_runqueue (q_active q) (q_task_count q) (q_current_task q) (q_attempts q) (q_exits q) (q_irqs q)
    (q_switches q) (q_result q) (q_blocks q) (q_wakes q) (q_block_denials q) (q_cs q) (q_ss q) (q_tasks q) |}.

(** A function pointer is a number, 0 for none. *)
Record scheduler64_sleep_entry := mk_sleep {
  sl_active : Z;
  sl_task_id : Z;
  sl_start_tick : Z;
  sl_wake_tick : Z;
  sl_requested_ticks : Z;
  sl_resume_rax : Z;
  sl_expiry_callback : Z;
  sl_callback_cookie : Z }.

#[export] Instance eta_sleep : Eta scheduler64_sleep_entry := {| eta e :=
  mk_sleep (sl_active e) (sl_task_id e) (sl_start_tick e) (sl_wake_tick e) (sl_requested_ticks e)
    (sl_resume_rax e) (sl_expiry_callback e) (sl_callback_cookie e) |}.

(** What the run queue asks of the rest of the kernel: the tick counter,
    which moves between any two readings, the interrupt flag, the persona of
    a process, the delivery of a pending Linux signal on a frame, and the call
    of an expiry function.  None of them calls the scheduler. *)
Class SchedWorld (W : Type) := {
  pit_get_ticks : ST W Z;
  interrupts64_enable : ST W unit;
  interrupts64_disable : ST W unit;
  persona64_type : Z -> W -> Z;
  linux_abi64_signal_deliver_pending : Z -> interrupt_frame64 -> ST W (Z * interrupt_frame64);
  call_expiry : Z -> Z -> Z -> ST W unit;
}.

Record sched_state (W : Type) := mk_sched {
  g_runqueue : scheduler64_runqueue;
  g_scheduler64_sleep_count : Z;
  g_scheduler64_sleep_denial_count : Z;
  g_scheduler64_sleep_last_requested_ticks : Z;
  g_scheduler64_sleep_last_elapsed_ticks : Z;
  g_scheduler64_sleep_last_start_ticks : Z;
  g_scheduler64_sleep_last_end_ticks : Z;
  g_scheduler64_sleep_queue : list scheduler64_sleep_entry;
  g_scheduler64_sleep_wake_count : Z;
  g_scheduler64_sleep_last_task_id : Z;
  g_scheduler64_sleep_last_wake_tick : Z;
  g_scheduler64_fs_save_count : Z;
  g_scheduler64_fs_restore_count : Z;
  g_scheduler64_fs_set_count : Z;
  g_scheduler64_preferred_task : Z;
  fs_base_msr : Z;
  sched_processes : Process.process_state;
  sched_paging : Paging.paging_state;
  sched_world : W }.
Arguments mk_sched {W}.
Arguments g_runqueue {W}.
Arguments g_scheduler64_sleep_count {W}.
Arguments g_scheduler64_sleep_denial_count {W}.
Arguments g_scheduler64_sleep_last_requested_ticks {W}.
Arguments g_scheduler64_sleep_last_elapsed_ticks {W}.
Arguments g_scheduler64_sleep_last_start_ticks {W}.
Arguments g_scheduler64_sleep_last_end_ticks {W}.
Arguments g_scheduler64_sleep_queue {W}.
Arguments g_scheduler64_sleep_wake_count {W}.
Arguments g_scheduler64_sleep_last_task_id {W}.
Arguments g_scheduler64_sleep_last_wake_tick {W}.
Arguments g_scheduler64_fs_save_count {W}.
Arguments g_scheduler64_fs_restore_count {W}.
Arguments g_scheduler64_fs_set_count {W}.
Arguments g_scheduler64_preferred_task {W}.
Arguments fs_base_msr {W}.
Arguments sched_processes {W}.
Arguments sched_paging {W}.
Arguments sched_world {W}.

#[export] Instance eta_sched W : Eta (sched_state W) := {| eta s :=
  mk_sched (g_runqueue s) (g_scheduler64_sleep_count s) (g_scheduler64_sleep_denial_count s)
    (g_scheduler64_sleep_last_requested_ticks s) (g_scheduler64_sleep_last_elapsed_ticks s)
    (g_scheduler64_sleep_last_start_ticks s) (g_scheduler64_sleep_last_end_ticks s)
    (g_scheduler64_sleep_queue s) (g_scheduler64_sleep_wake_count s) (g_scheduler64_sleep_last_task_id s)
    (g_scheduler64_sleep_last_wake_tick s) (g_scheduler64_fs_save_count s) (g_scheduler64_fs_restore_count s)
    (g_scheduler64_fs_set_count s) (g_scheduler64_preferred_task s) (fs_base_msr s) (sched_processes s)
    (sched_paging s) (sched_world s) |}.

(** ** Frames, tasks and sleep entries *)

Definition scheduler64_clear_frame : interrupt_frame64 :=
  mk_frame 0 0 0 0 0 0 0 0 0 0 0 0 0 0 0 0 0 0 0 0 0 0.

Definition scheduler64_prepare_user_frame (rip' rsp' selectors rflags' : Z) : interrupt_frame64 :=
  scheduler64_clear_frame <| rip := rip' |> <| rsp := rsp' |> <| rflags := rflags' |>
    <| cs := Z.land selectors 0xFFFF |> <| ss := Z.land (Z.shiftr selectors 16) 0xFFFF |>.

Definition scheduler64_clear_task : scheduler64_task :=
  mk_task SCHEDULER64_TASK_UNUSED 0 0 0 0 0 0 0 0 0 0 0 0 scheduler64_clear_frame.

Definition scheduler64_clear_sleep_entry : scheduler64_sleep_entry :=
  mk_sleep 0 SCHEDULER64_INVALID_TASK 0 0 0 0 0 0.

Definition scheduler64_sleep_tick_reached (now_tick wake_tick : Z) : bool :=
  sub32 now_tick wake_tick <? 0x80000000.

(** The privilege level in a code selector. *)
Definition user_cs (f : interrupt_frame64) : bool := Z.land (cs f) 3 =? 3.

Definition task_in (q : scheduler64_runqueue) (i : Z) : scheduler64_task :=
  default scheduler64_clear_task (q_tasks q !! Z.to_nat i).

Definition scheduler64_allocate_task_slot (q : scheduler64_runqueue) : Z :=
  match find_index (fun t => (t_state t =? SCHEDULER64_TASK_UNUSED) || (t_state t =? SCHEDULER64_TASK_EXITED))
          (take (Z.to_nat (q_task_count q)) (q_tasks q)) with
  | Some i => Z.of_nat i
  | None =>
      if Z.of_nat SCHEDULER64_RUNQUEUE_TASK_LIMIT <=? q_task_count q then SCHEDULER64_INVALID_TASK
      else q_task_count q
  end.

(** [state == READY && frame_valid != 0]. *)
Definition runnable (t : scheduler64_task) : bool :=
  (t_state t =? SCHEDULER64_TASK_READY) && nz (t_frame_valid t).

(** The slot [offset] places after [current]. *)
Definition candidate (q : scheduler64_runqueue) (current : Z) (offset : nat) : Z :=
  add32 current (Z.of_nat offset) mod q_task_count q.

(** [preferred < task_count && preferred != current && ...]. *)
Definition preferred_eligible (q : scheduler64_runqueue) (preferred current : Z) : bool :=
  if preferred <? q_task_count q then negb (preferred =? current) && runnable (task_in q preferred) else false.

(** The loop of [scheduler64_next_runnable]. *)
Definition rotate (q : scheduler64_runqueue) (current : Z) : Z :=
  match find_index (fun offset => runnable (task_in q (candidate q current offset)))
          (seq 1 (Z.to_nat (q_task_count q) - 1)) with
  | Some k => candidate q current (S k)
  | None => SCHEDULER64_INVALID_TASK
  end.

Section operations.
Context {W : Type} {world : SchedWorld W} {launch : Process.LaunchEnv} {symbols : Paging.PagingSymbols}.

Abbreviation SM := (ST (sched_state W)).

Definition on_processes {A} (m : Process.PM A) : SM A :=
  fun s => let (a, ps) := m (sched_processes s) in (a, s <| sched_processes := ps |>).
Definition on_paging {A} (m : Process.process_state -> ST Paging.paging_state A) : SM A :=
  fun s => let (a, pg) := m (sched_processes s) (sched_paging s) in (a, s <| sched_paging := pg |>).
Definition on_world {A} (m : ST W A) : SM A :=
  fun s => let (a, w) := m (sched_world s) in (a, s <| sched_world := w |>).
Definition rq (f : scheduler64_runqueue -> scheduler64_runqueue) : SM unit :=
  modify (fun s => s <| g_runqueue := f (g_runqueue s) |>).
Definition task_at (s : sched_state W) (i : Z) : scheduler64_task := task_in (g_runqueue s) i.
Definition update_task (i : Z) (f : scheduler64_task -> scheduler64_task) : SM unit :=
  rq (fun q => q <| q_tasks := alter f (Z.to_nat i) (q_tasks q) |>).
Definition update_sleep (i : nat) (f : scheduler64_sleep_entry -> scheduler64_sleep_entry) : SM unit :=
  modify (fun s => s <| g_scheduler64_sleep_queue := alter f i (g_scheduler64_sleep_queue s) |>).
Definition sleep_at (s : sched_state W) (i : nat) : scheduler64_sleep_entry :=
  default scheduler64_clear_sleep_entry (g_scheduler64_sleep_queue s !! i).
Definition write_fs_base64 (v : Z) : SM unit := modify (fun s => s <| fs_base_msr := v |>).
Definition set_preferred (v : Z) : SM unit := modify (fun s => s <| g_scheduler64_preferred_task := v |>).

Definition count_block_denial : SM unit := rq (fun q => q <| q_block_denials := inc32 (q_block_denials q) |>).
Definition count_sleep_denial : SM unit :=
  modify (fun s => s <| g_scheduler64_sleep_denial_count := inc32 (g_scheduler64_sleep_denial_count s) |>).

Definition scheduler64_deliver_linux_signal_on_resume (t : scheduler64_task) (f : interrupt_frame64) : SM interrupt_frame64 :=
  s <- gets id ;;
  if negb (user_cs f) || negb (persona64_type (t_pid t) (sched_world s) =? PERSONA64_TYPE_LINUX_ELF) then ret f
  else
    r <- on_world (linux_abi64_signal_deliver_pending (t_pid t) f) ;;
    ret (snd r).

Definition scheduler64_save_fs_base_for_task (i : Z) : SM unit :=
  base <- gets fs_base_msr ;;
  update_task i (fun t => t <| t_fs_base := base |>) ;;;
  modify (fun s => s <| g_scheduler64_fs_save_count := inc32 (g_scheduler64_fs_save_count s) |>).

Definition scheduler64_restore_fs_base_for_task (i : Z) : SM unit :=
  t <- gets (fun s => task_at s i) ;;
  write_fs_base64 (t_fs_base t) ;;;
  modify (fun s => s <| g_scheduler64_fs_restore_count := inc32 (g_scheduler64_fs_restore_count s) |>).

Definition scheduler64_sleep_queue_reset : SM unit :=
  for_range SCHEDULER64_SLEEP_QUEUE_TASK_LIMIT (fun i => update_sleep i (fun _ => scheduler64_clear_sleep_entry)).

Definition scheduler64_sleep_free_entry (s : sched_state W) : option nat :=
  find_index (fun e => sl_active e =? 0) (g_scheduler64_sleep_queue s).

Definition scheduler64_sleep_task_pending (task : Z) (s : sched_state W) : bool :=
  existsb (fun e => nz (sl_active e) && (sl_task_id e =? task)) (g_scheduler64_sleep_queue s).

(** ** Choosing the next task *)

Definition scheduler64_next_runnable (current : Z) : SM Z :=
  q <- gets g_runqueue ;;
  if q_task_count q =? 0 then ret SCHEDULER64_INVALID_TASK
  else
    preferred <- gets g_scheduler64_preferred_task ;;
    set_preferred SCHEDULER64_INVALID_TASK ;;;
    if preferred_eligible q preferred current then ret preferred
    else ret (rotate q current).

Definition scheduler64_switch_cr3_for_task (i reason : Z) : SM Z :=
  t <- gets (fun s => task_at s i) ;;
  if t_pid t =? 0 then ret 1
  else
    root <- on_processes (Process.process64_page_root_physical (t_pid t)) ;;
    if root =? 0 then ret 1
    else on_paging (fun ps => Paging.paging64_switch_to_process_root ps (t_pid t) reason).

Definition scheduler64_switch_cr3_to_kernel (reason : Z) : SM unit :=
  on_paging (fun _ => Paging.paging64_switch_to_kernel_root reason) ;;; ret tt.

(** ** Starting and stopping *)

Definition scheduler64_runqueue_reset : SM unit :=
  rq (fun q => q <| q_active := 0 |> <| q_task_count := 0 |> <| q_current_task := SCHEDULER64_INVALID_TASK |>
    <| q_attempts := 0 |> <| q_exits := 0 |> <| q_irqs := 0 |> <| q_switches := 0 |> <| q_result := 0 |>
    <| q_blocks := 0 |> <| q_wakes := 0 |> <| q_block_denials := 0 |>) ;;;
  set_preferred SCHEDULER64_INVALID_TASK ;;;
  rq (fun q => q <| q_cs := 0 |> <| q_ss := 0 |>) ;;;
  for_range SCHEDULER64_RUNQUEUE_TASK_LIMIT (fun i => update_task (Z.of_nat i) (fun _ => scheduler64_clear_task)) ;;;
  scheduler64_switch_cr3_to_kernel SCHEDULER64_CR3_REASON_RESET ;;;
  write_fs_base64 0 ;;;
  scheduler64_sleep_queue_reset ;;;
  set_preferred SCHEDULER64_INVALID_TASK.

Definition scheduler64_init : SM unit :=
  scheduler64_runqueue_reset ;;;
  modify (fun s => s <| g_scheduler64_sleep_count := 0 |> <| g_scheduler64_sleep_denial_count := 0 |>
    <| g_scheduler64_sleep_last_requested_ticks := 0 |> <| g_scheduler64_sleep_last_elapsed_ticks := 0 |>
    <| g_scheduler64_sleep_last_start_ticks := 0 |> <| g_scheduler64_sleep_last_end_ticks := 0 |>
    <| g_scheduler64_sleep_wake_count := 0 |> <| g_scheduler64_sleep_last_task_id := SCHEDULER64_INVALID_TASK |>
    <| g_scheduler64_sleep_last_wake_tick := 0 |>) ;;;
  scheduler64_sleep_queue_reset ;;;
  modify (fun s => s <| g_scheduler64_fs_save_count := 0 |> <| g_scheduler64_fs_restore_count := 0 |>
    <| g_scheduler64_fs_set_count := 0 |> <| g_scheduler64_preferred_task := SCHEDULER64_INVALID_TASK |>).

(** [if (task_id == task_count) ++task_count;] *)
Definition extend_count (i : Z) : SM unit :=
  rq (fun q => if i =? q_task_count q then q <| q_task_count := inc32 (q_task_count q) |> else q).

Definition scheduler64_runqueue_register_user_task (rip' rsp' selectors rflags' : Z) : SM Z :=
  i <- gets (fun s => scheduler64_allocate_task_slot (g_runqueue s)) ;;
  if i =? SCHEDULER64_INVALID_TASK then ret SCHEDULER64_INVALID_TASK
  else
    update_task i (fun _ => scheduler64_clear_task <| t_state := SCHEDULER64_TASK_READY |> <| t_frame_valid := 1 |>
      <| t_initial_rip := rip' |> <| t_initial_rsp := rsp' |>
      <| t_frame := scheduler64_prepare_user_frame rip' rsp' selectors rflags' |>) ;;;
    extend_count i ;;;
    ret i.

Definition scheduler64_runqueue_register_process_task
    (pid runtime_token entry_token rip' rsp' selectors rflags' : Z) : SM Z :=
  if (pid =? 0) || (runtime_token =? 0) || (entry_token =? 0) then ret SCHEDULER64_INVALID_TASK
  else
    i <- scheduler64_runqueue_register_user_task rip' rsp' selectors rflags' ;;
    if i =? SCHEDULER64_INVALID_TASK then ret SCHEDULER64_INVALID_TASK
    else
      update_task i (fun t => t <| t_pid := pid |> <| t_runtime_token := runtime_token |> <| t_entry_token := entry_token |>) ;;;
      ret i.

(** The frame pointer of the callers is not null. *)
Definition scheduler64_runqueue_register_process_frame
    (pid runtime_token entry_token : Z) (f : interrupt_frame64) : SM Z :=
  i <- gets (fun s => scheduler64_allocate_task_slot (g_runqueue s)) ;;
  if (pid =? 0) || (runtime_token =? 0) || (entry_token =? 0) || (rip f =? 0) || (rsp f =? 0)
     || negb (user_cs f) || negb (Z.land (ss f) 3 =? 3) || (i =? SCHEDULER64_INVALID_TASK)
  then ret SCHEDULER64_INVALID_TASK
  else
    update_task i (fun _ => scheduler64_clear_task <| t_state := SCHEDULER64_TASK_READY |> <| t_frame_valid := 1 |>
      <| t_pid := pid |> <| t_runtime_token := runtime_token |> <| t_entry_token := entry_token |>
      <| t_initial_rip := rip f |> <| t_initial_rsp := rsp f |> <| t_saved_rip := rip f |> <| t_saved_rsp := rsp f |>
      <| t_frame := f |>) ;;;
    extend_count i ;;;
    ret i.

Definition scheduler64_runqueue_register_launched_process_task (pid rip' rsp' rflags' : Z) : SM Z :=
  ready <- on_processes (Process.process64_runtime_user_entry_ready pid) ;;
  if ready =? 0 then ret SCHEDULER64_INVALID_TASK
  else
    runtime_token <- on_processes (Process.process64_runtime_token pid) ;;
    entry_token <- on_processes (Process.process64_runtime_user_entry_token pid) ;;
    selectors <- on_processes (Process.process64_runtime_user_entry_selectors pid) ;;
    rip' <- (if rip' =? 0 then on_processes (Process.process64_runtime_user_entry_rip pid) else ret rip') ;;
    rsp' <- (if rsp' =? 0 then on_processes (Process.process64_runtime_user_entry_rsp pid) else ret rsp') ;;
    rflags' <- (if rflags' =? 0 then on_processes (Process.process64_runtime_user_entry_rflags pid) else ret rflags') ;;
    if (runtime_token =? 0) || (entry_token =? 0) || (selectors =? 0) || (rip' =? 0) || (rsp' =? 0) || (rflags' =? 0)
    then ret SCHEDULER64_INVALID_TASK
    else scheduler64_runqueue_register_process_task pid runtime_token entry_token rip' rsp' selectors rflags'.

Definition scheduler64_runqueue_start (first : Z) : SM Z :=
  q <- gets g_runqueue ;;
  if (q_task_count q <=? first) || negb (t_state (task_in q first) =? SCHEDULER64_TASK_READY) then ret 0
  else
    rq (fun q => q <| q_active := 1 |> <| q_current_task := first |> <| q_attempts := inc32 (q_attempts q) |>) ;;;
    update_task first (fun t => t <| t_state := SCHEDULER64_TASK_RUNNING |> <| t_dispatches := inc32 (t_dispatches t) |>) ;;;
    rq (fun q => q <| q_cs := cs (t_frame (task_in q first)) |> <| q_ss := ss (t_frame (task_in q first)) |>) ;;;
    switched <- scheduler64_switch_cr3_for_task first SCHEDULER64_CR3_REASON_START ;;
    if switched =? 0 then
      update_task first (fun t => t <| t_state := SCHEDULER64_TASK_READY |>) ;;;
      rq (fun q => q <| q_active := 0 |> <| q_current_task := SCHEDULER64_INVALID_TASK |>) ;;;
      ret 0
    else
      scheduler64_restore_fs_base_for_task first ;;;
      ret 1.

Definition scheduler64_runqueue_stop : SM unit :=
  rq (fun q => q <| q_active := 0 |> <| q_current_task := SCHEDULER64_INVALID_TASK |>) ;;;
  scheduler64_switch_cr3_to_kernel SCHEDULER64_CR3_REASON_STOP ;;;
  write_fs_base64 0.

(** ** Blocking and waking *)

Definition scheduler64_runqueue_block_task (i : Z) : SM Z :=
  q <- gets g_runqueue ;;
  let t := task_in q i in
  if (q_task_count q <=? i) || (t_frame_valid t =? 0) || (t_state t =? SCHEDULER64_TASK_UNUSED)
     || (t_state t =? SCHEDULER64_TASK_EXITED) || (t_state t =? SCHEDULER64_TASK_BLOCKED)
  then count_block_denial ;;; ret 0
  else
    denied <- (if t_state t =? SCHEDULER64_TASK_RUNNING then
                 if (q_active q =? 0) || negb (q_current_task q =? i) then ret true
                 else
                   next <- scheduler64_next_runnable i ;;
                   ret (next =? SCHEDULER64_INVALID_TASK)
               else ret false) ;;
    if denied : bool then count_block_denial ;;; ret 0
    else
      update_task i (fun t => t <| t_state := SCHEDULER64_TASK_BLOCKED |>) ;;;
      rq (fun q => q <| q_blocks := inc32 (q_blocks q) |>) ;;;
      ret 1.

(** The guard and the end of the two wake routines. *)
Definition wake_refused (q : scheduler64_runqueue) (i : Z) : bool :=
  (q_task_count q <=? i) || (t_frame_valid (task_in q i) =? 0)
  || negb (t_state (task_in q i) =? SCHEDULER64_TASK_BLOCKED).
Definition make_ready (i : Z) : SM unit :=
  update_task i (fun t => t <| t_state := SCHEDULER64_TASK_READY |>) ;;;
  set_preferred i ;;;
  rq (fun q => q <| q_wakes := inc32 (q_wakes q) |>).

Definition scheduler64_runqueue_wake_task_with_result (i result : Z) : SM Z :=
  q <- gets g_runqueue ;;
  if wake_refused q i then count_block_denial ;;; ret 0
  else
    update_task i (fun t => t <| t_frame := (t_frame t) <| rax := result |> |>) ;;;
    make_ready i ;;;
    ret 1.

Definition scheduler64_runqueue_wake_task (i : Z) : SM Z := scheduler64_runqueue_wake_task_with_result i 0.

Definition scheduler64_runqueue_wake_task_replay (i : Z) : SM Z :=
  q <- gets g_runqueue ;;
  if wake_refused q i then count_block_denial ;;; ret 0
  else
    make_ready i ;;;
    ret 1.

(** One entry of the sleep queue at an expiry check. *)
Definition expire_body (now_tick : Z) (i : nat) (wake_count : Z) : SM Z :=
  e <- gets (fun s => sleep_at s i) ;;
  if (sl_active e =? 0) || negb (scheduler64_sleep_tick_reached now_tick (sl_wake_tick e)) then ret wake_count
  else
    modify (fun s => s <| g_scheduler64_sleep_last_task_id := sl_task_id e |>
      <| g_scheduler64_sleep_last_requested_ticks := sl_requested_ticks e |>
      <| g_scheduler64_sleep_last_start_ticks := sl_start_tick e |>
      <| g_scheduler64_sleep_last_end_ticks := now_tick |>
      <| g_scheduler64_sleep_last_elapsed_ticks := sub32 now_tick (sl_start_tick e) |>
      <| g_scheduler64_sleep_last_wake_tick := sl_wake_tick e |>) ;;;
    (if nz (sl_expiry_callback e)
     then on_world (call_expiry (sl_expiry_callback e) (sl_task_id e) (sl_callback_cookie e)) else ret tt) ;;;
    woken <- scheduler64_runqueue_wake_task_with_result (sl_task_id e) (sl_resume_rax e) ;;
    (if negb (woken =? 0)
     then modify (fun s => s <| g_scheduler64_sleep_wake_count := inc32 (g_scheduler64_sleep_wake_count s) |>)
     else count_sleep_denial) ;;;
    update_sleep i (fun _ => scheduler64_clear_sleep_entry) ;;;
    ret (if negb (woken =? 0) then inc32 wake_count else wake_count).

Definition scheduler64_sleep_wake_expired (now_tick : Z) : SM Z :=
  fold_range SCHEDULER64_SLEEP_QUEUE_TASK_LIMIT 0 (expire_body now_tick).

(** ** Changing tasks *)

Definition scheduler64_runqueue_current_task_id (s : sched_state W) : Z :=
  let q := g_runqueue s in
  if (q_active q =? 0) || (q_task_count q <=? q_current_task q) then SCHEDULER64_INVALID_TASK else q_current_task q.

Definition scheduler64_runqueue_current_pid (s : sched_state W) : Z :=
  let q := g_runqueue s in
  if (q_active q =? 0) || (q_task_count q <=? q_current_task q) then 0 else t_pid (task_in q (q_current_task q)).

(** [task->frame = *frame; ...] of the interrupted task. *)
Definition save_frame (i : Z) (f : interrupt_frame64) : SM unit :=
  update_task i (fun t => t <| t_frame := f |> <| t_frame_valid := 1 |> <| t_saved_rip := rip f |> <| t_saved_rsp := rsp f |>).

Definition set_selectors (f : interrupt_frame64) : SM unit := rq (fun q => q <| q_cs := cs f |> <| q_ss := ss f |>).

(** [next_task->state = RUNNING; ...] up to the restored FS base; the frame
    to resume. *)
Definition dispatch (next : Z) : SM interrupt_frame64 :=
  update_task next (fun t => t <| t_state := SCHEDULER64_TASK_RUNNING |> <| t_dispatches := inc32 (t_dispatches t) |>) ;;;
  rq (fun q => q <| q_current_task := next |> <| q_switches := inc32 (q_switches q) |>) ;;;
  scheduler64_restore_fs_base_for_task next ;;;
  gets (fun s => t_frame (task_at s next)).

(** [if (task->state == from) task->state = to;] *)
Definition change_state (i from to : Z) : SM unit :=
  t <- gets (fun s => task_at s i) ;;
  if t_state t =? from then update_task i (fun t => t <| t_state := to |>) else ret tt.

Definition scheduler64_runqueue_on_timer (f : interrupt_frame64) : SM (Z * interrupt_frame64) :=
  q <- gets g_runqueue ;;
  let current := q_current_task q in
  if (q_active q =? 0) || (q_task_count q <=? current) || negb (user_cs f) then ret (0, f)
  else
    rq (fun q => q <| q_irqs := inc32 (q_irqs q) |>) ;;;
    save_frame current f ;;;
    scheduler64_save_fs_base_for_task current ;;;
    change_state current SCHEDULER64_TASK_RUNNING SCHEDULER64_TASK_READY ;;;
    set_selectors f ;;;
    now <- on_world pit_get_ticks ;;
    scheduler64_sleep_wake_expired now ;;;
    next <- scheduler64_next_runnable current ;;
    if next =? SCHEDULER64_INVALID_TASK then
      change_state current SCHEDULER64_TASK_READY SCHEDULER64_TASK_RUNNING ;;;
      ret (0, f)
    else
      switched <- scheduler64_switch_cr3_for_task next SCHEDULER64_CR3_REASON_TIMER ;;
      if switched =? 0 then
        change_state current SCHEDULER64_TASK_READY SCHEDULER64_TASK_RUNNING ;;;
        ret (0, f)
      else
        f' <- dispatch next ;;
        set_selectors f' ;;;
        ret (1, f').

Definition scheduler64_runqueue_on_blocked_syscall (f : interrupt_frame64) : SM (Z * interrupt_frame64) :=
  q <- gets g_runqueue ;;
  let current := q_current_task q in
  if (q_active q =? 0) || (q_task_count q <=? current) then ret (0, f)
  else if (t_frame_valid (task_in q current) =? 0)
          || negb (t_state (task_in q current) =? SCHEDULER64_TASK_BLOCKED) || negb (user_cs f)
  then ret (0, f)
  else
    save_frame current f ;;;
    scheduler64_save_fs_base_for_task current ;;;
    set_selectors f ;;;
    next <- scheduler64_next_runnable current ;;
    if next =? SCHEDULER64_INVALID_TASK then count_block_denial ;;; ret (0, f)
    else
      switched <- scheduler64_switch_cr3_for_task next SCHEDULER64_CR3_REASON_BLOCKED_SYSCALL ;;
      if switched =? 0 then count_block_denial ;;; ret (0, f)
      else
        f' <- dispatch next ;;
        t <- gets (fun s => task_at s next) ;;
        f'' <- scheduler64_deliver_linux_signal_on_resume t f' ;;
        set_selectors f'' ;;;
        ret (1, f'').

(** [active = 0; current_task = INVALID; result = result;] *)
Definition leave_queue (result : Z) : SM unit :=
  rq (fun q => q <| q_active := 0 |> <| q_current_task := SCHEDULER64_INVALID_TASK |> <| q_result := result |>).

Definition scheduler64_runqueue_on_exit (f : interrupt_frame64) (result : Z) : SM (Z * interrupt_frame64) :=
  q <- gets g_runqueue ;;
  let current := q_current_task q in
  if (q_active q =? 0) || (q_task_count q <=? current) then ret (SCHEDULER64_RUNQUEUE_EXIT_NONE, f)
  else
    update_task current (fun t => t <| t_state := SCHEDULER64_TASK_EXITED |> <| t_result := result |>) ;;;
    scheduler64_save_fs_base_for_task current ;;;
    update_task current (fun t => t <| t_exits := inc32 (t_exits t) |>) ;;;
    rq (fun q => q <| q_exits := inc32 (q_exits q) |>) ;;;
    set_selectors f ;;;
    next <- scheduler64_next_runnable current ;;
    if negb (next =? SCHEDULER64_INVALID_TASK) then
      switched <- scheduler64_switch_cr3_for_task next SCHEDULER64_CR3_REASON_EXIT_RESUME ;;
      if switched =? 0 then
        scheduler64_switch_cr3_to_kernel SCHEDULER64_CR3_REASON_EXIT_KERNEL ;;;
        leave_queue result ;;;
        ret (SCHEDULER64_RUNQUEUE_EXIT_COMPLETE, f)
      else
        f' <- dispatch next ;;
        t <- gets (fun s => task_at s next) ;;
        f'' <- scheduler64_deliver_linux_signal_on_resume t f' ;;
        set_selectors f'' ;;;
        ret (SCHEDULER64_RUNQUEUE_EXIT_RESUMED, f'')
    else
      leave_queue result ;;;
      scheduler64_switch_cr3_to_kernel SCHEDULER64_CR3_REASON_EXIT_KERNEL ;;;
      write_fs_base64 0 ;;;
      ret (SCHEDULER64_RUNQUEUE_EXIT_COMPLETE, f).

(** ** Sleeping *)

Definition scheduler64_runqueue_task_state (i : Z) (s : sched_state W) : Z :=
  if q_task_count (g_runqueue s) <=? i then SCHEDULER64_TASK_UNUSED else t_state (task_at s i).

Definition scheduler64_sleep_start_current_task (requested resume_rax callback cookie : Z) : SM Z :=
  if requested =? 0 then ret 0
  else
    task <- gets scheduler64_runqueue_current_task_id ;;
    if task =? SCHEDULER64_INVALID_TASK then ret 0
    else
      start <- on_world pit_get_ticks ;;
      s <- gets id ;;
      match scheduler64_sleep_free_entry s with
      | None => count_sleep_denial ;;; ret 0
      | Some i =>
          if negb (scheduler64_runqueue_task_state task s =? SCHEDULER64_TASK_RUNNING)
             || scheduler64_sleep_task_pending task s
          then count_sleep_denial ;;; ret 0
          else
            let wake := add32 start requested in
            update_sleep i (fun _ => mk_sleep 1 task start wake requested resume_rax callback cookie) ;;;
            modify (fun s => s <| g_scheduler64_sleep_last_task_id := task |>
              <| g_scheduler64_sleep_last_wake_tick := wake |>) ;;;
            blocked <- scheduler64_runqueue_block_task task ;;
            if blocked =? 0 then
              update_sleep i (fun _ => scheduler64_clear_sleep_entry) ;;;
              count_sleep_denial ;;;
              ret 0
            else
              modify (fun s => s <| g_scheduler64_sleep_count := inc32 (g_scheduler64_sleep_count s) |>) ;;;
              ret 1
      end.

(** [while (pit_get_ticks() - start < requested && guard < guard_limit)]; the
    number of rounds left is [budget]. *)
Fixpoint spin (budget : nat) (start requested : Z) : SM unit :=
  now <- on_world pit_get_ticks ;;
  if sub32 now start <? requested then
    match budget with
    | O => ret tt
    | S budget' => spin budget' start requested
    end
  else ret tt.

Definition spin_budget (requested : Z) : Z :=
  let limit := requested * SCHEDULER64_SLEEP_SPIN_BUDGET_PER_TICK + SCHEDULER64_SLEEP_SPIN_BUDGET_PER_TICK in
  if SCHEDULER64_SLEEP_MAX_SPIN_BUDGET <? limit then SCHEDULER64_SLEEP_MAX_SPIN_BUDGET else limit.

Definition note_sleep (requested start : Z) : SM unit :=
  modify (fun s => s <| g_scheduler64_sleep_last_requested_ticks := requested |>
    <| g_scheduler64_sleep_last_start_ticks := start |> <| g_scheduler64_sleep_last_end_ticks := start |>
    <| g_scheduler64_sleep_last_elapsed_ticks := 0 |>
    <| g_scheduler64_sleep_last_task_id := SCHEDULER64_INVALID_TASK |>
    <| g_scheduler64_sleep_last_wake_tick := start |>).

Definition scheduler64_sleep_for_ticks (requested : Z) : SM Z :=
  start <- on_world pit_get_ticks ;;
  note_sleep requested start ;;;
  if requested =? 0 then
    modify (fun s => s <| g_scheduler64_sleep_count := inc32 (g_scheduler64_sleep_count s) |>) ;;; ret 1
  else
    task <- gets scheduler64_runqueue_current_task_id ;;
    if negb (task =? SCHEDULER64_INVALID_TASK) then scheduler64_sleep_start_current_task requested 0 0 0
    else
      on_world interrupts64_enable ;;;
      spin (Z.to_nat (spin_budget requested)) start requested ;;;
      on_world interrupts64_disable ;;;
      stop <- on_world pit_get_ticks ;;
      let elapsed := sub32 stop start in
      modify (fun s => s <| g_scheduler64_sleep_last_end_ticks := stop |>
        <| g_scheduler64_sleep_last_elapsed_ticks := elapsed |>) ;;;
      if requested <=? elapsed then
        modify (fun s => s <| g_scheduler64_sleep_count := inc32 (g_scheduler64_sleep_count s) |>) ;;; ret 1
      else count_sleep_denial ;;; ret 0.

Definition scheduler64_sleep_current_task_for_ticks (requested resume_rax callback cookie : Z) : SM Z :=
  start <- on_world pit_get_ticks ;;
  note_sleep requested start ;;;
  scheduler64_sleep_start_current_task requested resume_rax callback cookie.

Definition cancel_body (task : Z) (i : nat) (cancelled : Z) : SM Z :=
  e <- gets (fun s => sleep_at s i) ;;
  if nz (sl_active e) && (sl_task_id e =? task)
  then update_sleep i (fun _ => scheduler64_clear_sleep_entry) ;;; ret (inc32 cancelled)
  else ret cancelled.

Definition scheduler64_sleep_cancel_task (task : Z) : SM Z :=
  fold_range SCHEDULER64_SLEEP_QUEUE_TASK_LIMIT 0 (cancel_body task).

(** ** FS base of a task *)

Definition scheduler64_runqueue_set_task_fs_base (i base : Z) : SM Z :=
  q <- gets g_runqueue ;;
  if (q_task_count q <=? i) || (t_frame_valid (task_in q i) =? 0) || (t_state (task_in q i) =? SCHEDULER64_TASK_UNUSED)
  then ret 0
  else
    update_task i (fun t => t <| t_fs_base := base |>) ;;;
    modify (fun s => s <| g_scheduler64_fs_set_count := inc32 (g_scheduler64_fs_set_count s) |>) ;;;
    (if nz (q_active q) && (q_current_task q =? i) && (t_state (task_in q i) =? SCHEDULER64_TASK_RUNNING)
     then write_fs_base64 base else ret tt) ;;;
    ret 1.

Definition scheduler64_runqueue_set_current_fs_base (base : Z) : SM Z :=
  task <- gets scheduler64_runqueue_current_task_id ;;
  if task =? SCHEDULER64_INVALID_TASK then ret 0 else scheduler64_runqueue_set_task_fs_base task base.

(** ** Queries *)

Definition scheduler64_runqueue_attempts (s : sched_state W) : Z := q_attempts (g_runqueue s).
Definition scheduler64_runqueue_exits (s : sched_state W) : Z := q_exits (g_runqueue s).
Definition scheduler64_runqueue_irqs (s : sched_state W) : Z := q_irqs (g_runqueue s).
Definition scheduler64_runqueue_switches (s : sched_state W) : Z := q_switches (g_runqueue s).
Definition scheduler64_runqueue_result (s : sched_state W) : Z := q_result (g_runqueue s).
Definition scheduler64_runqueue_block_count (s : sched_state W) : Z := q_blocks (g_runqueue s).
Definition scheduler64_runqueue_wake_count (s : sched_state W) : Z := q_wakes (g_runqueue s).
Definition scheduler64_runqueue_block_denial_count (s : sched_state W) : Z := q_block_denials (g_runqueue s).
Definition scheduler64_runqueue_blocked_count (s : sched_state W) : Z :=
  Z.of_nat (count_if (fun t => t_state t =? SCHEDULER64_TASK_BLOCKED)
    (take (Z.to_nat (q_task_count (g_runqueue s))) (q_tasks (g_runqueue s)))).
(** [if (task_id >= task_count) return 0; return tasks[task_id].field;] *)
Definition task_query (field : scheduler64_task -> Z) (i : Z) (s : sched_state W) : Z :=
  if q_task_count (g_runqueue s) <=? i then 0 else field (task_at s i).
Definition scheduler64_runqueue_task_result : Z -> sched_state W -> Z := task_query t_result.
Definition scheduler64_runqueue_task_pid : Z -> sched_state W -> Z := task_query t_pid.
Definition scheduler64_runqueue_task_runtime_token : Z -> sched_state W -> Z := task_query t_runtime_token.
Definition scheduler64_runqueue_task_entry_token : Z -> sched_state W -> Z := task_query t_entry_token.
Definition scheduler64_runqueue_task_rip : Z -> sched_state W -> Z :=
  task_query (fun t => if negb (t_saved_rip t =? 0) then t_saved_rip t else t_initial_rip t).
Definition scheduler64_runqueue_task_rsp : Z -> sched_state W -> Z :=
  task_query (fun t => if negb (t_saved_rsp t =? 0) then t_saved_rsp t else t_initial_rsp t).
Definition scheduler64_runqueue_cs (s : sched_state W) : Z := q_cs (g_runqueue s).
Definition scheduler64_runqueue_ss (s : sched_state W) : Z := q_ss (g_runqueue s).
Definition scheduler64_sleep_pending_count (s : sched_state W) : Z :=
  Z.of_nat (count_if (fun e => nz (sl_active e)) (g_scheduler64_sleep_queue s)).

End operations.

End Scheduler.
