(* ===== verification/SchedFacts.v ===== *)
(** * Facts about the run queue

    The invariant of the queue and of the sleepers, the choice of the next
    task, and the rules for the parts of scheduler.c that touch the process
    table and CR3. *)

From S2P Require Import Prelude Principal Services64 Process ProcessFacts Paging PagingFacts PagingOps PagingRoots Scheduler.
Import Scheduler.
Local Open Scope Z_scope.
Local Open Scope kernel_scope.

Module SchedFacts.

Abbreviation LIMIT := SCHEDULER64_RUNQUEUE_TASK_LIMIT.

(** ** The queue *)

Definition live (t : scheduler64_task) : bool :=
  (t_state t =? SCHEDULER64_TASK_READY) || (t_state t =? SCHEDULER64_TASK_RUNNING)
  || (t_state t =? SCHEDULER64_TASK_BLOCKED).
Definition running (t : scheduler64_task) : bool := t_state t =? SCHEDULER64_TASK_RUNNING.

(** The part that holds at every moment: slots past the count are unused,
    and a task that can run has a frame. *)
Record q_base (q : scheduler64_runqueue) : Prop := {
  qb_len : length (q_tasks q) = LIMIT;
  qb_count : 0 <= q_task_count q <= Z.of_nat LIMIT;
  qb_past : forall i t, q_tasks q !! i = Some t -> q_task_count q <= Z.of_nat i -> t_state t = SCHEDULER64_TASK_UNUSED;
  qb_frame : forall i t, q_tasks q !! i = Some t -> live t = true -> t_frame_valid t <> 0 }.

(** No task is marked running: the moment between two tasks. *)
Definition q_idle (q : scheduler64_runqueue) : Prop :=
  q_base q /\ forall i t, q_tasks q !! i = Some t -> running t = false.

(** Between calls: while the queue is active the current task is one of its
    tasks, live, and no other task is marked running. *)
Record q_ok (q : scheduler64_runqueue) : Prop := {
  q_is_base : q_base q;
  q_cur : q_active q <> 0 -> 0 <= q_current_task q < q_task_count q /\ live (task_in q (q_current_task q)) = true;
  q_one : q_active q <> 0 -> forall i t, q_tasks q !! i = Some t -> running t = true -> Z.of_nat i = q_current_task q }.

Lemma task_in_lookup q i : q_base q -> 0 <= i < q_task_count q -> q_tasks q !! Z.to_nat i = Some (task_in q i).
Proof.
  intros [Hl [_ Hc] _ _] Hi. unfold task_in.
  destruct (q_tasks q !! Z.to_nat i) as [t|] eqn:E; [done|]. apply lookup_ge_None in E. rewrite Hl in E. lia.
Qed.

Lemma live_count q i t : q_base q -> q_tasks q !! i = Some t -> live t = true -> Z.of_nat i < q_task_count q.
Proof.
  intros Hb Hi Hl. destruct (Z.lt_ge_cases (Z.of_nat i) (q_task_count q)) as [|Hge]; [done|].
  pose proof (qb_past q Hb i t Hi Hge) as E. unfold live in Hl. by rewrite E in Hl.
Qed.

Lemma running_live t : running t = true -> live t = true.
Proof. unfold running, live. intros ->. by rewrite orb_true_r. Qed.
Lemma runnable_live t : runnable t = true -> live t = true.
Proof. unfold runnable, live. intros [-> _]%andb_true_iff. done. Qed.

(** The tasks of [q'] are those of [q] with slot [i] changed by [f]. *)
Definition altered (i : Z) (f : scheduler64_task -> scheduler64_task) (q q' : scheduler64_runqueue) : Prop :=
  q_tasks q' = alter f (Z.to_nat i) (q_tasks q) /\ q_task_count q' = q_task_count q.

Lemma altered_task i f q q' : q_base q -> altered i f q q' -> 0 <= i < q_task_count q -> task_in q' i = f (task_in q i).
Proof.
  intros Hb [Ht Hc] Hi. unfold task_in at 1. rewrite Ht, list_lookup_alter, decide_True by done.
  by rewrite (task_in_lookup q i).
Qed.

Lemma altered_other i f q q' j : altered i f q q' -> 0 <= j -> 0 <= i -> j <> i -> task_in q' j = task_in q j.
Proof. intros [Ht _] Hj Hi Hne. unfold task_in. rewrite Ht, list_lookup_alter_ne by lia. done. Qed.

(** Changing a task of the queue. *)
Lemma q_base_alter i f q q' :
  q_base q -> altered i f q q' -> 0 <= i < q_task_count q ->
  (live (f (task_in q i)) = true -> t_frame_valid (f (task_in q i)) <> 0) -> q_base q'.
Proof.
  intros Hb [Ht Hc] Hi Hf. pose proof (task_in_lookup q i Hb Hi) as Hl. split.
  - by rewrite Ht, length_alter, (qb_len q Hb).
  - rewrite Hc. apply Hb.
  - intros j t Hj Hp. rewrite Ht in Hj. rewrite Hc in Hp. apply lookup_alter_Some in Hj as (x & Hx & ->).
    rewrite decide_False by lia. by apply (qb_past q Hb j).
  - intros j t Hj. rewrite Ht in Hj. apply lookup_alter_Some in Hj as (x & Hx & ->).
    case_decide as E; [subst j|by apply (qb_frame q Hb j)]. rewrite Hl in Hx. by injection Hx as <-.
Qed.

Lemma q_ok_alter i f q q' :
  q_ok q -> altered i f q q' -> q_active q' = q_active q -> q_current_task q' = q_current_task q ->
  0 <= i < q_task_count q ->
  (live (f (task_in q i)) = true -> t_frame_valid (f (task_in q i)) <> 0) ->
  (q_current_task q = i -> live (f (task_in q i)) = true) ->
  (running (f (task_in q i)) = true -> running (task_in q i) = true) -> q_ok q'.
Proof.
  intros [Hb Hcur Hone] Ha Eact Ecur Hi Hf Hl Hr. pose proof Ha as [Ht Hc]. split.
  - by eapply q_base_alter.
  - rewrite Eact, Ecur, Hc. intros Hact. destruct (Hcur Hact) as [H1 H2]. split; [done|].
    destruct (decide (q_current_task q = i)) as [E|E]; [|by rewrite (altered_other i f q q') by (done || lia)].
    rewrite E, (altered_task i f q q') by done. by apply Hl.
  - rewrite Eact, Ecur. intros Hact j t Hj Hrun. rewrite Ht in Hj. apply lookup_alter_Some in Hj as (x & Hx & ->).
    case_decide as E; [subst j|by eapply Hone]. rewrite (task_in_lookup q i Hb Hi) in Hx. injection Hx as <-.
    eapply Hone; [done|by apply task_in_lookup|by apply Hr].
Qed.

(** Putting the next task on the processor. *)
Definition dispatched (next : Z) (q : scheduler64_runqueue) : scheduler64_runqueue :=
  q <| q_tasks := alter (fun t => t <| t_state := SCHEDULER64_TASK_RUNNING |> <| t_dispatches := inc32 (t_dispatches t) |>)
         (Z.to_nat next) (q_tasks q) |>
    <| q_current_task := next |> <| q_switches := inc32 (q_switches q) |>.

Lemma q_ok_dispatched next q :
  q_idle q -> 0 <= next < q_task_count q -> runnable (task_in q next) = true -> q_ok (dispatched next q).
Proof.
  intros [Hb Hidle] Hn Hr.
  pose (f := fun t => t <| t_state := SCHEDULER64_TASK_RUNNING |> <| t_dispatches := inc32 (t_dispatches t) |>).
  assert (Ha : altered next f q (dispatched next q)) by done. split.
  - apply (q_base_alter next f q); [done|done|done|]. intros _.
    apply (qb_frame q Hb _ _ (task_in_lookup q next Hb Hn)). by apply runnable_live.
  - intros _. split; [exact Hn|]. change (q_current_task (dispatched next q)) with next.
    by rewrite (altered_task next f q).
  - intros _ i t Hi Hrun. simpl in Hi. apply lookup_alter_Some in Hi as (x & Hx & ->). simpl.
    case_decide as E; [lia|]. by rewrite (Hidle i x Hx) in Hrun.
Qed.

(** An inactive queue has no current task to account for. *)
Lemma q_ok_inactive q q' :
  q_base q -> q_tasks q' = q_tasks q -> q_task_count q' = q_task_count q -> q_active q' = 0 -> q_ok q'.
Proof.
  intros [H1 H2 H3 H4] Et Ec Ea. split; [|by rewrite Ea|by rewrite Ea]. split; rewrite ?Et, ?Ec; done.
Qed.

(** Counters and selectors do not matter. *)
Definition q_core (q : scheduler64_runqueue) := (q_active q, q_task_count q, q_current_task q, q_tasks q).
Lemma q_ok_core q q' : q_core q' = q_core q -> q_ok q -> q_ok q'.
Proof.
  unfold q_core. intros [= Ea Ec Ecur Et] [[B1 B2 B3 B4] Hc Ho]. unfold task_in in *.
  split; [split|..]; unfold task_in; rewrite ?Ea, ?Ec, ?Ecur, ?Et; done.
Qed.

Lemma q_idle_core q q' : q_tasks q' = q_tasks q -> q_task_count q' = q_task_count q -> q_idle q -> q_idle q'.
Proof. intros Et Ec [[B1 B2 B3 B4] Hi]. split; [split|]; rewrite ?Et, ?Ec; done. Qed.

(** With the current task off the processor the queue is idle. *)
Lemma q_idle_alter f q q' :
  q_ok q -> q_active q <> 0 -> altered (q_current_task q) f q q' ->
  (live (f (task_in q (q_current_task q))) = true -> t_frame_valid (f (task_in q (q_current_task q))) <> 0) ->
  running (f (task_in q (q_current_task q))) = false -> q_idle q'.
Proof.
  intros [Hb Hcur Hone] Hact Ha Hf Hr. destruct (Hcur Hact) as [Hi _]. split; [by eapply q_base_alter|].
  intros j t Hj. pose proof Ha as [Ht _]. rewrite Ht in Hj. apply lookup_alter_Some in Hj as (x & Hx & ->).
  pose proof (task_in_lookup q _ Hb Hi) as Hl. case_decide as E.
  - subst j. rewrite Hl in Hx. by injection Hx as <-.
  - destruct (running x) eqn:Er; [|done]. specialize (Hone Hact j x Hx Er). lia.
Qed.

(** ** The next task *)

(** A task of the queue other than [current] that can be dispatched. *)
Definition eligible (q : scheduler64_runqueue) (current next : Z) : Prop :=
  0 <= next < q_task_count q /\ next <> current /\ runnable (task_in q next) = true.

(** The choice: the preferred task if it is eligible, else the first in
    circular order after [current]. *)
Definition choice (q : scheduler64_runqueue) (preferred current : Z) : Z :=
  if q_task_count q =? 0 then SCHEDULER64_INVALID_TASK
  else if preferred_eligible q preferred current then preferred else rotate q current.

Lemma candidate_spec q current k :
  0 <= current < q_task_count q -> q_task_count q <= Z.of_nat LIMIT -> (1 <= k < Z.to_nat (q_task_count q))%nat ->
  candidate q current k = (current + Z.of_nat k) mod q_task_count q /\
  0 <= candidate q current k < q_task_count q /\ candidate q current k <> current.
Proof.
  intros Hc Hl Hk. unfold candidate, add32. unfold LIMIT in Hl.
  assert (Hw : wrap32 (current + Z.of_nat k) = current + Z.of_nat k) by (apply wrap32_small; unfold fits32; lia).
  rewrite Hw. split; [done|]. split; [apply Z.mod_pos_bound; lia|].
  destruct (Z.lt_ge_cases (current + Z.of_nat k) (q_task_count q)).
  - rewrite Z.mod_small by lia. lia.
  - rewrite (Z.mod_eq _ (q_task_count q)) by lia.
    replace ((current + Z.of_nat k) / q_task_count q) with 1; [lia|].
    apply (Z.div_unique _ _ 1 (current + Z.of_nat k - q_task_count q)); lia.
Qed.

(** Every slot but the current one comes up. *)
Lemma candidate_onto q current j :
  0 <= current < q_task_count q -> q_task_count q <= Z.of_nat LIMIT -> 0 <= j < q_task_count q -> j <> current ->
  let k := Z.to_nat ((j - current) mod q_task_count q) in
  (1 <= k < Z.to_nat (q_task_count q))%nat /\ candidate q current k = j.
Proof.
  intros Hc Hl Hj Hne k. pose proof (Z.mod_pos_bound (j - current) (q_task_count q) ltac:(lia)) as Hb.
  assert (Hk : Z.of_nat k = (j - current) mod q_task_count q) by (unfold k; lia).
  assert (Hnz : (j - current) mod q_task_count q <> 0).
  { intros E. apply Z.mod_divide in E as [z Hz]; [|lia]. assert (z = 0 \/ z <= -1 \/ 1 <= z) as [->|[?|?]] by lia; nia. }
  assert (Hr : (1 <= k < Z.to_nat (q_task_count q))%nat) by lia. split; [done|].
  destruct (candidate_spec q current k Hc Hl Hr) as (-> & _). rewrite Hk, Zplus_mod_idemp_r.
  replace (current + (j - current)) with j by lia. apply Z.mod_small. lia.
Qed.

(** The rotation finds the first runnable slot, if there is one. *)
Lemma rotate_cases q current :
  0 <= current < q_task_count q -> q_task_count q <= Z.of_nat LIMIT ->
  (rotate q current = SCHEDULER64_INVALID_TASK /\ forall j, ~ eligible q current j) \/
  exists k, (1 <= k < Z.to_nat (q_task_count q))%nat /\ rotate q current = candidate q current k /\
    eligible q current (candidate q current k) /\
    forall k', (1 <= k' < k)%nat -> runnable (task_in q (candidate q current k')) = false.
Proof.
  intros Hc Hl. unfold rotate. destruct (find_index _ _) as [k|] eqn:E.
  - right. apply find_index_Some in E as (x & Hx & Hr & Hmin). apply lookup_seq in Hx as [-> Hk]. exists (S k).
    assert (Hr' : (1 <= S k < Z.to_nat (q_task_count q))%nat) by lia. split_and!; [lia|lia|done| |].
    + destruct (candidate_spec q current (S k) Hc Hl Hr') as (_ & H1 & H2). by split_and!; try lia.
    + intros k' Hk'. apply (Hmin (k' - 1)%nat k'); [lia|]. apply lookup_seq. lia.
  - left. split; [done|]. intros j (Hj & Hne & Hr). apply (fun H => proj1 (find_index_None _ _) H) with (x := Z.to_nat ((j - current) mod q_task_count q)) in E.
    + destruct (candidate_onto q current j Hc Hl Hj Hne) as [_ Ej]. rewrite Ej in E. congruence.
    + apply elem_of_seq. destruct (candidate_onto q current j Hc Hl Hj Hne) as [H1 _]. lia.
Qed.

Lemma choice_cases q preferred current :
  q_base q -> 0 <= preferred -> 0 <= current < q_task_count q ->
  (choice q preferred current = SCHEDULER64_INVALID_TASK /\ forall j, ~ eligible q current j) \/
  (choice q preferred current <> SCHEDULER64_INVALID_TASK /\ eligible q current (choice q preferred current)).
Proof.
  intros Hb Hp Hc. pose proof (qb_count q Hb) as Hl. unfold choice. rewrite (proj2 (Z.eqb_neq _ 0)) by lia.
  assert (Hlt : forall j, eligible q current j -> j <> SCHEDULER64_INVALID_TASK).
  { intros j (Hj & _). unfold SCHEDULER64_INVALID_TASK, LIMIT in *. lia. }
  destruct (preferred_eligible q preferred current) eqn:E.
  - right. unfold preferred_eligible in E. destruct (Z.ltb_spec preferred (q_task_count q)) as [E1|]; [|done].
    apply andb_true_iff in E as [E2 E3]. apply negb_true_iff, Z.eqb_neq in E2.
    assert (He : eligible q current preferred) by (split_and!; try done; lia). split; [by apply Hlt|done].
  - destruct (rotate_cases q current Hc ltac:(lia)) as [[-> H]|(k & Hk & -> & He & _)]; [by left|right].
    split; [by apply Hlt|done].
Qed.

Lemma eligible_lt q current j : q_base q -> eligible q current j -> j <> SCHEDULER64_INVALID_TASK.
Proof. intros Hb (Hj & _). pose proof (qb_count q Hb). unfold SCHEDULER64_INVALID_TASK, LIMIT in *. lia. Qed.

(** ** The sleepers *)

Definition pending (e : scheduler64_sleep_entry) : bool := nz (sl_active e).

(** Each task sleeps at most once, and is a task of the queue. *)
Record sleep_ok (count : Z) (l : list scheduler64_sleep_entry) : Prop := {
  so_len : length l = SCHEDULER64_SLEEP_QUEUE_TASK_LIMIT;
  so_task : forall i e, l !! i = Some e -> pending e = true -> 0 <= sl_task_id e < count;
  so_once : forall i j e1 e2, l !! i = Some e1 -> l !! j = Some e2 -> pending e1 = true -> pending e2 = true ->
    sl_task_id e1 = sl_task_id e2 -> i = j }.

Lemma sleep_ok_mono c c' l : c <= c' -> sleep_ok c l -> sleep_ok c' l.
Proof. intros Hc [H1 H2 H3]. split; [done| |done]. intros i e Hi He. specialize (H2 i e Hi He). lia. Qed.

Lemma sleep_ok_alter c l i e :
  sleep_ok c l ->
  (pending e = true -> 0 <= sl_task_id e < c /\ forall j e', l !! j = Some e' -> pending e' = true -> sl_task_id e' <> sl_task_id e) ->
  sleep_ok c (alter (fun _ => e) i l).
Proof.
  intros [H1 H2 H3] He. split.
  - by rewrite length_alter.
  - intros j e' Hj Hp. apply lookup_alter_Some in Hj as (x & Hx & ->). case_decide; [by apply He|by eapply H2].
  - intros j k e1 e2 Hj Hk P1 P2 E. apply lookup_alter_Some in Hj as (x1 & X1 & ->). apply lookup_alter_Some in Hk as (x2 & X2 & ->).
    destruct (decide (i = j)) as [<-|], (decide (i = k)) as [<-|]; try done.
    + exfalso. by apply (proj2 (He P1) k x2).
    + exfalso. by apply (proj2 (He P2) j x1).
    + by eapply H3.
Qed.

Lemma sleep_ok_clear c l i : sleep_ok c l -> sleep_ok c (alter (fun _ => scheduler64_clear_sleep_entry) i l).
Proof. intros H. by apply sleep_ok_alter. Qed.

Lemma sleep_ok_reset c : sleep_ok c (replicate SCHEDULER64_SLEEP_QUEUE_TASK_LIMIT scheduler64_clear_sleep_entry).
Proof.
  split; [apply length_replicate|..].
  - by intros i e [-> _]%lookup_replicate.
  - by intros i j e1 e2 [-> _]%lookup_replicate [-> _]%lookup_replicate.
Qed.

End SchedFacts.
