(* ===== verification/SchedOps.v ===== *)
(** * The operations of the run queue

    The invariant of the whole scheduler, and one rule for each step that the
    calls of scheduler.c are made of. *)

From S2P Require Import Prelude Principal Services64 Process ProcessFacts Paging PagingFacts PagingOps PagingRoots Scheduler SchedFacts.
Import Scheduler SchedFacts.
Local Open Scope Z_scope.
Local Open Scope kernel_scope.

Module SchedOps.

Section operations.
Context {W : Type} {world : SchedWorld W} {launch : Process.LaunchEnv} {symbols : Paging.PagingSymbols} {layout : PagingFacts.PagingLayout}.
Implicit Types (s : sched_state W) (q : scheduler64_runqueue) (t : scheduler64_task) (f : interrupt_frame64).

(** ** The processor's root *)

Definition page_root (ps : Process.process_state) (pid : Z) : Z := fst (Process.process64_page_root_physical pid ps).

(** CR3 holds the root of process [pid], when the process has one. *)
Definition cr3_at (ps : Process.process_state) (pg : Paging.paging_state) (pid : Z) : Prop :=
  pid <> 0 -> page_root ps pid <> 0 ->
  Paging.paging64_current_root_physical pg = Z.land (Paging.paging64_process_root_physical ps pid pg) Paging.PAGING64_PAGE_MASK.

(** The switch to the root of [pid] is possible. *)
Definition switchable (ps : Process.process_state) (pg : Paging.paging_state) (pid : Z) : bool :=
  (pid =? 0) || (page_root ps pid =? 0) || nz (Paging.paging64_process_root_physical ps pid pg).

Definition current_pid s : Z := t_pid (task_at s (q_current_task (g_runqueue s))).

Record sched_ok s : Prop := {
  so_queue : q_ok (g_runqueue s);
  so_sleep : sleep_ok (q_task_count (g_runqueue s)) (g_scheduler64_sleep_queue s);
  so_preferred : 0 <= g_scheduler64_preferred_task s;
  so_processes : ProcFacts.pinv (sched_processes s);
  so_paging : PagingFacts.pg_inv (sched_paging s);
  so_cr3 : q_active (g_runqueue s) <> 0 -> cr3_at (sched_processes s) (sched_paging s) (current_pid s) }.

(** Everything but the queue and the sleepers. *)
Definition machine s := (sched_processes s, sched_paging s).

Lemma root_core ps pg pg' pid : PagingFacts.pcore pg' = PagingFacts.pcore pg ->
  Paging.paging64_process_root_physical ps pid pg' = Paging.paging64_process_root_physical ps pid pg.
Proof.
  intros Hc. apply PagingFacts.pcore_inj in Hc as (_ & Eb & Er & _).
  unfold Paging.paging64_process_root_physical, Paging.paging64_process_root_find_slot. rewrite Er. case_match; [|done].
  unfold Paging.pml4_of, Paging.table. by rewrite Eb.
Qed.

Lemma cr3_core ps pg pg' pid : PagingFacts.pcore pg' = PagingFacts.pcore pg -> Paging.cr3 pg' = Paging.cr3 pg ->
  cr3_at ps pg pid -> cr3_at ps pg' pid.
Proof.
  intros Hc E H H1 H2. unfold Paging.paging64_current_root_physical. rewrite E, (root_core ps pg pg') by done. by apply H.
Qed.

(** ** Lifting *)

Lemma sched_processes_wp {A} (m : Process.PM A) s (Q : A -> sched_state W -> Prop) :
  wp m (fun a ps => Q a (s <| sched_processes := ps |>)) (sched_processes s) -> wp (on_processes m) Q s.
Proof. unfold wp, on_processes. by destruct (m (sched_processes s)). Qed.

Lemma sched_paging_wp {A} (m : Process.process_state -> ST Paging.paging_state A) s (Q : A -> sched_state W -> Prop) :
  wp (m (sched_processes s)) (fun a pg => Q a (s <| sched_paging := pg |>)) (sched_paging s) -> wp (on_paging m) Q s.
Proof. unfold wp, on_paging. by destruct (m (sched_processes s) (sched_paging s)). Qed.

(** The world is free to change. *)
Lemma sched_world_wp {A} (m : ST W A) s (Q : A -> sched_state W -> Prop) :
  (forall a w, Q a (s <| sched_world := w |>)) -> wp (on_world m) Q s.
Proof. intros H. unfold wp, on_world. destruct (m (sched_world s)). apply H. Qed.

(** The same, with what the world answers. *)
Lemma sched_answer_wp {A} (m : ST W A) s (Q : A -> sched_state W -> Prop) :
  (forall w, Q (fst (m (sched_world s))) (s <| sched_world := w |>)) -> wp (on_world m) Q s.
Proof. intros H. unfold wp, on_world. destruct (m (sched_world s)) eqn:E. apply (H w). Qed.

Lemma processes_same s : s <| sched_processes := sched_processes s |> = s.
Proof. by destruct s. Qed.
Lemma paging_same s : s <| sched_paging := sched_paging s |> = s.
Proof. by destruct s. Qed.

Lemma page_root_wp s pid (Q : Z -> sched_state W -> Prop) :
  ProcFacts.pinv (sched_processes s) -> Q (page_root (sched_processes s) pid) s ->
  wp (on_processes (Process.process64_page_root_physical pid)) Q s.
Proof.
  intros Hp HQ. apply sched_processes_wp. pose proof (ProcFacts.read_field_wp 0 Process.page_root_physical _ pid Hp) as [H1 H2].
  unfold page_root, wp in *. change (Process.read_field 0 Process.page_root_physical pid) with (Process.process64_page_root_physical pid) in *.
  by rewrite H1, processes_same.
Qed.

(** ** CR3 *)

Lemma switch_task_wp s i reason (Q : Z -> sched_state W -> Prop) :
  ProcFacts.pinv (sched_processes s) ->
  (forall v pg, v = b2z (switchable (sched_processes s) (sched_paging s) (t_pid (task_at s i))) ->
     PagingFacts.pcore pg = PagingFacts.pcore (sched_paging s) ->
     (v = 0 -> Paging.cr3 pg = Paging.cr3 (sched_paging s)) ->
     (v <> 0 -> cr3_at (sched_processes s) pg (t_pid (task_at s i))) -> Q v (s <| sched_paging := pg |>)) ->
  wp (scheduler64_switch_cr3_for_task i reason) Q s.
Proof.
  intros Hp HQ. apply wp_bind, wp_gets.
  assert (Hsame : forall v, v <> 0 -> v = b2z (switchable (sched_processes s) (sched_paging s) (t_pid (task_at s i))) ->
    cr3_at (sched_processes s) (sched_paging s) (t_pid (task_at s i)) -> Q v s).
  { intros v Hv E Hc. specialize (HQ v (sched_paging s) E eq_refl (fun _ => eq_refl) (fun _ => Hc)). by rewrite paging_same in HQ. }
  unfold switchable, cr3_at in Hsame, HQ. destruct (Z.eqb_spec (t_pid (task_at s i)) 0) as [E0|E0]; [by apply wp_ret, Hsame|].
  apply wp_bind, page_root_wp; [done|].
  destruct (Z.eqb_spec (page_root (sched_processes s) (t_pid (task_at s i))) 0) as [E1|E1]; [by apply wp_ret, Hsame|].
  apply sched_paging_wp. eapply wp_mono; [apply PagingRoots.switch_wp|]. intros v pg [Hc H]. simpl in HQ. apply HQ; [|done|..].
  - destruct H as [(-> & E & _)|(-> & E & _)].
    + unfold nz. by rewrite E.
    + unfold nz. by rewrite (proj2 (Z.eqb_neq _ 0) E).
  - by destruct H as [(-> & _ & ?)|(-> & _)].
  - intros Hv _ _. destruct H as [(-> & _ & _)|(_ & _ & E)]; [done|]. by rewrite (root_core _ (sched_paging s) pg).
Qed.

Lemma switch_kernel_queue_wp s reason (Q : unit -> sched_state W -> Prop) :
  PagingFacts.pg_inv (sched_paging s) ->
  (forall pg, PagingFacts.pcore pg = PagingFacts.pcore (sched_paging s) ->
     Paging.cr3 pg = Paging.g_paging64_kernel_root_physical (sched_paging s) -> Q tt (s <| sched_paging := pg |>)) ->
  wp (scheduler64_switch_cr3_to_kernel reason) Q s.
Proof.
  intros Hi HQ. apply wp_bind, sched_paging_wp. apply PagingRoots.switch_kernel_wp; [done|]. intros pg Hc E. apply wp_ret. by apply HQ.
Qed.

(** ** The choice *)

Lemma next_runnable_wp s current (Q : Z -> sched_state W -> Prop) :
  (q_task_count (g_runqueue s) = 0 -> Q SCHEDULER64_INVALID_TASK s) ->
  (q_task_count (g_runqueue s) <> 0 -> Q (choice (g_runqueue s) (g_scheduler64_preferred_task s) current)
    (s <| g_scheduler64_preferred_task := SCHEDULER64_INVALID_TASK |>)) ->
  wp (scheduler64_next_runnable current) Q s.
Proof.
  intros H1 H2. apply wp_bind, wp_gets. unfold choice in H2.
  destruct (Z.eqb_spec (q_task_count (g_runqueue s)) 0) as [E|E]; [by apply wp_ret, H1|].
  apply wp_bind, wp_gets, wp_bind, wp_modify. specialize (H2 E). by destruct (preferred_eligible _ _ _).
Qed.

(** ** The sleepers *)

Definition due (now : Z) (e : scheduler64_sleep_entry) : bool :=
  pending e && scheduler64_sleep_tick_reached now (sl_wake_tick e).

(** What the expiry check does to task [i], for the sleepers [l]. *)
Definition woken (now : Z) (l : list scheduler64_sleep_entry) (i : nat) t : scheduler64_task :=
  match List.find (fun e => due now e && (sl_task_id e =? Z.of_nat i)) l with
  | Some e =>
      if (t_state t =? SCHEDULER64_TASK_BLOCKED) && nz (t_frame_valid t)
      then t <| t_frame := (t_frame t) <| rax := sl_resume_rax e |> |> <| t_state := SCHEDULER64_TASK_READY |> else t
  | None => t
  end.

Definition swept (now : Z) (l : list scheduler64_sleep_entry) : list scheduler64_sleep_entry :=
  (fun e => if due now e then scheduler64_clear_sleep_entry else e) <$> l.

(** The preference after the expiry check of the sleepers [l] with the tasks of
    [q]: the last task woken, or the preference [p] there was. *)
Definition preferred_after (now : Z) (q : scheduler64_runqueue) (l : list scheduler64_sleep_entry) (p : Z) : Z :=
  foldl (fun p e => if due now e && negb (wake_refused q (sl_task_id e)) then sl_task_id e else p) p l.

Lemma preferred_snoc now q l e p :
  preferred_after now q (l ++ [e]) p =
  if due now e && negb (wake_refused q (sl_task_id e)) then sl_task_id e else preferred_after now q l p.
Proof. unfold preferred_after. by rewrite foldl_app. Qed.

Lemma preferred_quiet now q l p : existsb (due now) l = false -> preferred_after now q l p = p.
Proof.
  unfold preferred_after. revert p. induction l as [|e l IH]; intros p; simpl; [done|]. intros [-> H]%orb_false_iff. by apply IH.
Qed.

(** Some part [l] of the sleepers has been looked at. *)
Record expired_upto (now : Z) (l : list scheduler64_sleep_entry) s s' : Prop := {
  ex_queue : (q_active (g_runqueue s'), q_task_count (g_runqueue s'), q_current_task (g_runqueue s')) =
             (q_active (g_runqueue s), q_task_count (g_runqueue s), q_current_task (g_runqueue s));
  ex_tasks : q_tasks (g_runqueue s') = imap (woken now l) (q_tasks (g_runqueue s));
  ex_sleep : g_scheduler64_sleep_queue s' = swept now l ++ drop (length l) (g_scheduler64_sleep_queue s);
  ex_machine : machine s' = machine s;
  ex_fs : fs_base_msr s' = fs_base_msr s;
  ex_switches : q_switches (g_runqueue s') = q_switches (g_runqueue s);
  ex_preferred : 0 <= g_scheduler64_preferred_task s -> 0 <= g_scheduler64_preferred_task s';
  ex_prefers : g_scheduler64_preferred_task s' = preferred_after now (g_runqueue s) l (g_scheduler64_preferred_task s) }.

Lemma find_app_none {A} (P : A -> bool) (l1 l2 : list A) :
  List.find P (l1 ++ l2) = match List.find P l1 with Some x => Some x | None => List.find P l2 end.
Proof. induction l1 as [|x l1 IH]; simpl; [done|]. by destruct (P x). Qed.

Lemma woken_step now l e i t :
  woken now (l ++ [e]) i t =
  (if due now e && (sl_task_id e =? Z.of_nat i)
   then match List.find (fun e => due now e && (sl_task_id e =? Z.of_nat i)) l with
        | Some _ => woken now l i t
        | None => woken now [e] i t
        end
   else woken now l i t).
Proof.
  unfold woken. rewrite find_app_none. simpl. by destruct (List.find _ l), (due now e && (sl_task_id e =? Z.of_nat i)).
Qed.

Lemma imap_id_at {A} (f : nat -> A -> A) (l : list A) : (forall i x, l !! i = Some x -> f i x = x) -> imap f l = l.
Proof.
  intros H. apply list_eq. intros i. rewrite list_lookup_imap. destruct (l !! i) as [x|] eqn:E; simpl; [|done]. by rewrite H.
Qed.

Lemma imap_alter_at {A} (f f' : nat -> A -> A) (g : A -> A) k (l : list A) :
  (forall i x, l !! i = Some x -> i <> k -> f' i x = f i x) -> (forall x, l !! k = Some x -> f' k x = g (f k x)) ->
  alter g k (imap f l) = imap f' l.
Proof.
  intros H1 H2. apply list_eq. intros i. rewrite list_lookup_alter, !list_lookup_imap.
  case_decide as E; [subst i|]; [destruct (l !! k) as [x|] eqn:Ex|destruct (l !! i) as [x|] eqn:Ex]; simpl; try done; f_equal.
  - symmetry. by apply H2.
  - symmetry. by apply H1.
Qed.

(** The scan over the first [k] entries. *)
Lemma take_S_entry {A} (l : list A) k x : l !! k = Some x -> take (S k) l = take k l ++ [x].
Proof. apply take_S_r. Qed.

Lemma swept_app now l1 l2 : swept now (l1 ++ l2) = swept now l1 ++ swept now l2.
Proof. apply fmap_app. Qed.

Lemma wake_result_wp s i result (Q : Z -> sched_state W -> Prop) :
  (wake_refused (g_runqueue s) i = true ->
     Q 0 (s <| g_runqueue := (g_runqueue s) <| q_block_denials := inc32 (q_block_denials (g_runqueue s)) |> |>)) ->
  (wake_refused (g_runqueue s) i = false -> forall s',
     q_tasks (g_runqueue s') = alter (fun t => t <| t_frame := (t_frame t) <| rax := result |> |> <| t_state := SCHEDULER64_TASK_READY |>)
       (Z.to_nat i) (q_tasks (g_runqueue s)) ->
     s' = s <| g_runqueue := (g_runqueue s) <| q_tasks := q_tasks (g_runqueue s') |> <| q_wakes := inc32 (q_wakes (g_runqueue s)) |> |>
            <| g_scheduler64_preferred_task := i |> -> Q 1 s') ->
  wp (scheduler64_runqueue_wake_task_with_result i result) Q s.
Proof.
  intros H1 H2. apply wp_bind, wp_gets. destruct (wake_refused _ _) eqn:E; [apply wp_bind, wp_modify, wp_ret; by apply H1|].
  apply wp_bind, wp_modify, wp_bind, wp_bind, wp_modify, wp_bind, wp_modify, wp_modify, wp_ret. apply H2; [done|..].
  - simpl. by rewrite alter_twice.
  - done.
Qed.

(** Nothing expires: the entry is passed over. *)
Lemma expired_skip now l e s s' :
  g_scheduler64_sleep_queue s !! length l = Some e -> due now e = false ->
  expired_upto now l s s' -> expired_upto now (l ++ [e]) s s'.
Proof.
  intros He Hd [E1 E2 E3 E4 E5 E6 E7 E8]. split; try done.
  - rewrite E2. apply imap_ext. intros i t _. rewrite woken_step, Hd. done.
  - rewrite E3, swept_app, <- app_assoc, length_app, Nat.add_1_r. simpl. rewrite Hd.
    by rewrite (drop_S _ e) by done.
  - by rewrite preferred_snoc, Hd.
Qed.

Lemma alter_app_here {A} (g : A -> A) (l1 : list A) x l2 k : length l1 = k -> alter g k (l1 ++ x :: l2) = l1 ++ g x :: l2.
Proof. intros <-. induction l1 as [|y l1 IH]; simpl; [done|]. f_equal. exact IH. Qed.

(** The tasks after the entry of task [i] expired. *)
Definition wake_one (r : Z) t : scheduler64_task :=
  if (t_state t =? SCHEDULER64_TASK_BLOCKED) && nz (t_frame_valid t)
  then t <| t_frame := (t_frame t) <| rax := r |> |> <| t_state := SCHEDULER64_TASK_READY |> else t.

Lemma woken_due now l e (tasks : list scheduler64_task) :
  due now e = true -> 0 <= sl_task_id e ->
  (forall e', e' ∈ l -> pending e' = true -> sl_task_id e' <> sl_task_id e) ->
  alter (wake_one (sl_resume_rax e)) (Z.to_nat (sl_task_id e)) (imap (woken now l) tasks) = imap (woken now (l ++ [e])) tasks.
Proof.
  intros Hd H0 Hone. apply imap_alter_at.
  - intros i t _ Hi. rewrite woken_step, Hd. simpl. rewrite (proj2 (Z.eqb_neq _ _)) by lia. done.
  - intros t _. rewrite woken_step, Hd. simpl. rewrite (proj2 (Z.eqb_eq _ _)) by lia. simpl.
    assert (Hn : List.find (fun e' => due now e' && (sl_task_id e' =? Z.of_nat (Z.to_nat (sl_task_id e)))) l = None).
    { destruct (List.find _ l) as [x|] eqn:E; [|done]. apply List.find_some in E as [Hin [Hx1 Hx2%Z.eqb_eq]%andb_true_iff].
      apply andb_true_iff in Hx1 as [Hx1 _]. exfalso. apply (Hone x); [by apply list_elem_of_In|done|]. lia. }
    unfold woken at 3. rewrite Hn. unfold woken. simpl. rewrite Hd. simpl. by rewrite (proj2 (Z.eqb_eq _ _)) by lia.
Qed.

(** A pending entry's task is no other's: it has not been woken before. *)
Lemma unwoken now l e s s' :
  0 <= sl_task_id e -> (forall e', e' ∈ l -> pending e' = true -> sl_task_id e' <> sl_task_id e) -> expired_upto now l s s' ->
  wake_refused (g_runqueue s') (sl_task_id e) = wake_refused (g_runqueue s) (sl_task_id e).
Proof.
  intros H0 Hone [[= _ Ec _] Et _ _ _ _ _ _]. unfold wake_refused. rewrite Ec.
  replace (task_in (g_runqueue s') (sl_task_id e)) with (task_in (g_runqueue s) (sl_task_id e)); [done|].
  unfold task_in. rewrite Et, list_lookup_imap. destruct (q_tasks (g_runqueue s) !! Z.to_nat (sl_task_id e)) as [t|]; [|done].
  simpl. unfold woken. destruct (List.find _ l) as [x|] eqn:E; [|done].
  apply List.find_some in E as [Hin [[Hx _]%andb_true_iff E2%Z.eqb_eq]%andb_true_iff].
  exfalso. apply (Hone x); [by apply list_elem_of_In|done|lia].
Qed.

(** The entry expires: its task is woken if it is blocked, and the entry is
    freed. *)
Lemma expired_due now l e s s' s'' :
  g_scheduler64_sleep_queue s !! length l = Some e -> due now e = true -> 0 <= sl_task_id e ->
  (forall e', e' ∈ l -> pending e' = true -> sl_task_id e' <> sl_task_id e) -> expired_upto now l s s' ->
  (q_active (g_runqueue s''), q_task_count (g_runqueue s''), q_current_task (g_runqueue s'')) =
    (q_active (g_runqueue s'), q_task_count (g_runqueue s'), q_current_task (g_runqueue s')) ->
  q_tasks (g_runqueue s'') = alter (wake_one (sl_resume_rax e)) (Z.to_nat (sl_task_id e)) (q_tasks (g_runqueue s')) ->
  g_scheduler64_sleep_queue s'' = alter (fun _ => scheduler64_clear_sleep_entry) (length l) (g_scheduler64_sleep_queue s') ->
  machine s'' = machine s' -> fs_base_msr s'' = fs_base_msr s' -> q_switches (g_runqueue s'') = q_switches (g_runqueue s') ->
  g_scheduler64_preferred_task s'' =
    (if wake_refused (g_runqueue s') (sl_task_id e) then g_scheduler64_preferred_task s' else sl_task_id e) ->
  expired_upto now (l ++ [e]) s s''.
Proof.
  intros He Hd H0 Hone Hex F1 F2 F3 F4 F5 F6 F7. pose proof (unwoken now l e s s' H0 Hone Hex) as Hw.
  destruct Hex as [E1 E2 E3 E4 E5 E6 E7 E8]. split; try congruence; auto.
  - by rewrite F2, E2, woken_due.
  - rewrite F3, E3, (drop_S _ e) by done. rewrite alter_app_here by apply length_fmap.
    rewrite swept_app, <- app_assoc, length_app, Nat.add_1_r. simpl. by rewrite Hd.
  - intros Hp. specialize (E7 Hp). rewrite F7. by case_match.
  - rewrite preferred_snoc, Hd, F7, Hw, E8. simpl. destruct (wake_refused (g_runqueue s) (sl_task_id e)); reflexivity.
Qed.

Lemma expire_body_wp now l e s s' v :
  g_scheduler64_sleep_queue s !! length l = Some e -> q_task_count (g_runqueue s) <= Z.of_nat LIMIT ->
  (pending e = true -> 0 <= sl_task_id e < q_task_count (g_runqueue s)) ->
  (forall e', e' ∈ l -> pending e' = true -> pending e = true -> sl_task_id e' <> sl_task_id e) -> expired_upto now l s s' ->
  wp (expire_body now (length l) v) (fun _ => expired_upto now (l ++ [e]) s) s'.
Proof.
  intros He Hlim Htask Hone Hex.
  assert (Hat : sleep_at s' (length l) = e).
  { unfold sleep_at. rewrite (ex_sleep _ _ _ _ Hex), lookup_app_r by (unfold swept; by rewrite length_fmap).
    unfold swept. rewrite length_fmap, Nat.sub_diag, lookup_drop, Nat.add_0_r. by rewrite He. }
  apply wp_bind, wp_gets. rewrite Hat. destruct (_ || _) eqn:E.
  { apply wp_ret, expired_skip; [done| |done]. unfold due, pending, nz.
    apply orb_true_iff in E as [E|E]; [by rewrite E|]. apply negb_true_iff in E. rewrite E. by apply andb_false_r. }
  apply orb_false_iff in E as [Ea Er]. apply negb_false_iff in Er.
  assert (Hd : due now e = true) by (unfold due, pending, nz; by rewrite Ea, Er).
  assert (Hp : pending e = true) by (unfold pending, nz; by rewrite Ea). specialize (Htask Hp).
  pose proof (ex_queue _ _ _ _ Hex) as [= _ Ec _].
  apply wp_bind, wp_modify, wp_bind.
  assert (Hcb : forall (Q : unit -> sched_state W -> Prop) st, (forall w, Q tt (st <| sched_world := w |>)) -> Q tt st ->
    wp (if nz (sl_expiry_callback e) then on_world (call_expiry (sl_expiry_callback e) (sl_task_id e) (sl_callback_cookie e)) else ret tt) Q st).
  { intros Q st Q1 Q2. destruct (nz _); [apply sched_world_wp; intros []; apply Q1|by apply wp_ret]. }
  assert (Hrest : forall st, g_runqueue st = g_runqueue s' -> g_scheduler64_sleep_queue st = g_scheduler64_sleep_queue s' ->
    machine st = machine s' -> fs_base_msr st = fs_base_msr s' -> g_scheduler64_preferred_task st = g_scheduler64_preferred_task s' ->
    wp (woken <- scheduler64_runqueue_wake_task_with_result (sl_task_id e) (sl_resume_rax e) ;;
        (if negb (woken =? 0)
         then modify (fun s => s <| g_scheduler64_sleep_wake_count := inc32 (g_scheduler64_sleep_wake_count s) |>)
         else count_sleep_denial) ;;;
        update_sleep (length l) (fun _ => scheduler64_clear_sleep_entry) ;;;
        ret (if negb (woken =? 0) then inc32 v else v)) (fun _ => expired_upto now (l ++ [e]) s) st).
  { intros st S1 S2 S3 S4 S5. apply wp_bind, wake_result_wp.
    - intros Hw. rewrite S1 in Hw. simpl. apply wp_bind, wp_modify, wp_bind, wp_modify, wp_ret.
      eapply (expired_due now l e s s'); simpl; try done; rewrite ?S1, ?S2, ?S3, ?S5, ?Hw; try done; auto; try lia.
      symmetry. apply alter_id_at. intros t Ht. unfold wake_one. unfold wake_refused in Hw.
      rewrite (proj2 (Z.leb_gt _ _)) in Hw by lia. simpl in Hw. unfold task_in in Hw. rewrite Ht in Hw. simpl in Hw. unfold nz.
      by destruct (t_frame_valid t =? 0), (t_state t =? SCHEDULER64_TASK_BLOCKED).
    - intros Hw st' Ht Es. rewrite S1 in Hw. simpl. apply wp_bind, wp_modify, wp_bind, wp_modify, wp_ret.
      eapply (expired_due now l e s s'); simpl; try done; try rewrite Es; simpl; rewrite ?S1, ?S2, ?S3, ?S5, ?Hw; try done; auto; try lia.
      rewrite Ht, S1. apply list_alter_ext; [|done]. intros t Hl. unfold wake_one. unfold wake_refused, task_in in Hw. rewrite Hl in Hw. simpl in Hw. unfold nz.
      destruct (q_task_count _ <=? _); [done|]. by destruct (t_frame_valid t =? 0), (t_state t =? SCHEDULER64_TASK_BLOCKED). }
  apply Hcb; [intros w|]; by apply Hrest.
Qed.

Lemma wake_expired_wp s now (Q : Z -> sched_state W -> Prop) :
  q_base (g_runqueue s) -> sleep_ok (q_task_count (g_runqueue s)) (g_scheduler64_sleep_queue s) ->
  (forall v s', expired_upto now (g_scheduler64_sleep_queue s) s s' -> Q v s') -> wp (scheduler64_sleep_wake_expired now) Q s.
Proof.
  intros Hb [Hl Ht Ho] HQ. set (es := g_scheduler64_sleep_queue s) in *.
  eapply wp_mono; [apply (wp_fold_range _ 0 (expire_body now) (fun k _ => expired_upto now (take k es) s))|].
  - split; try done.
    + simpl. symmetry. by apply imap_id_at.
  - intros k v s' Hk Hex. rewrite <- Hl in Hk. apply lookup_lt_is_Some_2 in Hk as [e He].
    assert (Hlen : length (take k es) = k) by (apply length_take_le; apply lookup_lt_Some in He; lia).
    simpl. rewrite (take_S_entry es k e He). rewrite <- Hlen at 1. apply expire_body_wp; [by rewrite Hlen| | | |done].
    + apply Hb.
    + intros Hp. by eapply Ht.
    + intros e' [j [Hj Hjk]%lookup_take_Some]%list_elem_of_lookup_1 P1 P2 E. specialize (Ho j k e' e Hj He P1 P2 E). lia.
  - intros v s'. cbv beta. rewrite take_ge by lia. apply HQ.
Qed.

End operations.

End SchedOps.
