(* ===== verification/SchedSteps.v ===== *)
(** * Changing tasks

    What the timer interrupt, a blocked system call and an exit do to the
    queue, the frame and the processor registers, by which clock and which
    preference the timer decides, and that every call of scheduler.c keeps the
    invariant. *)

From S2P Require Import Prelude Principal Services64 Process ProcessFacts Paging PagingFacts PagingOps PagingRoots Scheduler SchedFacts SchedOps.
Import Scheduler SchedFacts SchedOps.
Local Open Scope Z_scope.
Local Open Scope kernel_scope.

Module SchedSteps.

Section steps.
Context {W : Type} {world : SchedWorld W} {launch : Process.LaunchEnv} {symbols : Paging.PagingSymbols} {layout : PagingFacts.PagingLayout}.
Implicit Types (s : sched_state W) (q : scheduler64_runqueue) (t : scheduler64_task) (f : interrupt_frame64).

(** ** Between two tasks *)

Record sched_mid s : Prop := {
  sm_queue : q_idle (g_runqueue s);
  sm_sleep : sleep_ok (q_task_count (g_runqueue s)) (g_scheduler64_sleep_queue s);
  sm_preferred : 0 <= g_scheduler64_preferred_task s;
  sm_processes : ProcFacts.pinv (sched_processes s);
  sm_paging : PagingFacts.pg_inv (sched_paging s) }.

(** What the scheduler looks at, apart from the counters. *)
Definition sched_core s :=
  (q_core (g_runqueue s), g_scheduler64_sleep_queue s, g_scheduler64_preferred_task s, machine s).

Lemma sched_core_inj s s' : sched_core s' = sched_core s ->
  q_core (g_runqueue s') = q_core (g_runqueue s) /\ g_scheduler64_sleep_queue s' = g_scheduler64_sleep_queue s /\
  g_scheduler64_preferred_task s' = g_scheduler64_preferred_task s /\ sched_processes s' = sched_processes s /\
  sched_paging s' = sched_paging s.
Proof. unfold sched_core, machine, q_core. intros H. injection H. intros. split_and!; congruence. Qed.

Lemma sched_ok_core s s' : sched_core s' = sched_core s -> sched_ok s -> sched_ok s'.
Proof.
  intros (Eq & Es & Ep & E1 & E2)%sched_core_inj [H1 H2 H3 H4 H5 H6]. unfold current_pid, task_at, task_in in *.
  pose proof Eq as [= Ea Ec Ecur Et]. split; rewrite ?Es, ?Ep, ?E1, ?E2, ?Ec; try done; [by eapply q_ok_core|].
  intros H. unfold current_pid, task_at, task_in. rewrite Ecur, Et. apply H6. by rewrite <- Ea.
Qed.

(** Task [next] has been put on the processor. *)
Record resumed (next : Z) s s' : Prop := {
  rs_queue : g_runqueue s' = dispatched next (g_runqueue s);
  rs_sleep : g_scheduler64_sleep_queue s' = g_scheduler64_sleep_queue s;
  rs_preferred : g_scheduler64_preferred_task s' = g_scheduler64_preferred_task s;
  rs_processes : sched_processes s' = sched_processes s;
  rs_paging : PagingFacts.pcore (sched_paging s') = PagingFacts.pcore (sched_paging s);
  rs_cr3 : cr3_at (sched_processes s') (sched_paging s') (t_pid (task_at s next));
  rs_fs : fs_base_msr s' = t_fs_base (task_at s next) }.

Definition put_on t : scheduler64_task := t <| t_state := SCHEDULER64_TASK_RUNNING |> <| t_dispatches := inc32 (t_dispatches t) |>.

Lemma dispatched_task q next j : q_base q -> 0 <= next < q_task_count q -> 0 <= j ->
  task_in (dispatched next q) j = (if decide (j = next) then put_on (task_in q j) else task_in q j).
Proof.
  intros Hb Hn Hj. assert (Ha : altered next put_on q (dispatched next q)) by done. case_decide as E.
  - subst j. by apply altered_task.
  - apply (altered_other next put_on); (done || lia).
Qed.

Lemma resumed_ok next s s' :
  sched_mid s -> 0 <= next < q_task_count (g_runqueue s) -> runnable (task_at s next) = true ->
  resumed next s s' -> sched_ok s'.
Proof.
  intros [M1 M2 M3 M4 M5] Hn Hr [R1 R2 R3 R4 R5 R6 R7]. pose proof M1 as [Hb _]. split.
  - rewrite R1. by apply q_ok_dispatched.
  - by rewrite R1, R2.
  - by rewrite R3.
  - by rewrite R4.
  - by eapply PagingFacts.pg_inv_core.
  - intros _. replace (current_pid s') with (t_pid (task_at s next)); [done|].
    unfold current_pid, task_at. rewrite R1. change (q_current_task (dispatched next (g_runqueue s))) with next.
    by rewrite dispatched_task, decide_True by (done || lia).
Qed.

(** The state [dispatch] leaves. *)
Definition on_processor (next : Z) s : sched_state W :=
  s <| g_runqueue := dispatched next (g_runqueue s) |>
    <| fs_base_msr := t_fs_base (task_in (dispatched next (g_runqueue s)) next) |>
    <| g_scheduler64_fs_restore_count := inc32 (g_scheduler64_fs_restore_count s) |>.

Lemma dispatch_wp next s (Q : interrupt_frame64 -> sched_state W -> Prop) :
  Q (t_frame (task_in (dispatched next (g_runqueue s)) next)) (on_processor next s) -> wp (dispatch next) Q s.
Proof. done. Qed.

(** The switch and what follows it, in either case. *)
Lemma take_over_wp {A} next reason (fail : ST (sched_state W) A) (k : interrupt_frame64 -> ST (sched_state W) A) s Q :
  sched_mid s -> 0 <= next < q_task_count (g_runqueue s) ->
  (switchable (sched_processes s) (sched_paging s) (t_pid (task_at s next)) = false ->
     forall pg, PagingFacts.pcore pg = PagingFacts.pcore (sched_paging s) -> Paging.cr3 pg = Paging.cr3 (sched_paging s) ->
     wp fail Q (s <| sched_paging := pg |>)) ->
  (switchable (sched_processes s) (sched_paging s) (t_pid (task_at s next)) = true ->
     forall s', resumed next s s' -> wp (k (t_frame (task_at s next))) Q s') ->
  wp (switched <- scheduler64_switch_cr3_for_task next reason ;;
      if switched =? 0 then fail else bind (dispatch next) k) Q s.
Proof.
  intros [M1 M2 M3 M4 M5] Hn H1 H2. destruct M1 as [Hb _]. apply wp_bind, switch_task_wp; [done|].
  intros v pg -> Hc Hz Hnz. destruct (switchable _ _ _) eqn:E;
    [change (b2z true =? 0) with false|change (b2z false =? 0) with true]; cbv iota; [|by apply H1; auto].
  apply wp_bind, dispatch_wp. change (g_runqueue (s <| sched_paging := pg |>)) with (g_runqueue s).
  pose proof (dispatched_task (g_runqueue s) next next Hb Hn ltac:(lia)) as Et. rewrite decide_True in Et by done.
  rewrite Et. apply H2; [done|]. split; try done; simpl.
  - by apply Hnz.
  - by rewrite Et.
Qed.

(** ** The timer *)

(** The interrupted task: its frame and FS base are saved, and it is ready
    again unless it blocked. *)
Definition preempted f (base : Z) t : scheduler64_task :=
  t <| t_frame := f |> <| t_frame_valid := 1 |> <| t_saved_rip := rip f |> <| t_saved_rsp := rsp f |> <| t_fs_base := base |>
    <| t_state := if t_state t =? SCHEDULER64_TASK_RUNNING then SCHEDULER64_TASK_READY else t_state t |>.

Definition revived t : scheduler64_task :=
  if t_state t =? SCHEDULER64_TASK_READY then t <| t_state := SCHEDULER64_TASK_RUNNING |> else t.

(** Only the tasks changed, by [g], and counters. *)
Record shifted (g : list scheduler64_task -> list scheduler64_task) s s' : Prop := {
  sh_queue : (q_active (g_runqueue s'), q_task_count (g_runqueue s'), q_current_task (g_runqueue s'), q_switches (g_runqueue s')) =
             (q_active (g_runqueue s), q_task_count (g_runqueue s), q_current_task (g_runqueue s), q_switches (g_runqueue s));
  sh_tasks : q_tasks (g_runqueue s') = g (q_tasks (g_runqueue s));
  sh_rest : (g_scheduler64_sleep_queue s', g_scheduler64_preferred_task s', machine s', fs_base_msr s', sched_world s') =
            (g_scheduler64_sleep_queue s, g_scheduler64_preferred_task s, machine s, fs_base_msr s, sched_world s) }.

Lemma shifted_trans g h s s1 s2 : shifted g s s1 -> shifted h s1 s2 -> shifted (fun l => h (g l)) s s2.
Proof. intros [A1 A2 A3] [B1 B2 B3]. split; congruence. Qed.

Lemma shifted_ext g h s s' : g (q_tasks (g_runqueue s)) = h (q_tasks (g_runqueue s)) -> shifted g s s' -> shifted h s s'.
Proof. intros E [A1 A2 A3]. split; congruence. Qed.

Lemma shift_modify (h : sched_state W -> sched_state W) g s (Q : unit -> sched_state W -> Prop) :
  shifted g s (h s) -> (forall s', shifted g s s' -> Q tt s') -> wp (modify h) Q s.
Proof. intros H HQ. by apply wp_modify, HQ. Qed.

Lemma shift_task i g s (Q : unit -> sched_state W -> Prop) :
  (forall s', shifted (alter g (Z.to_nat i)) s s' -> Q tt s') -> wp (update_task i g) Q s.
Proof. apply shift_modify. done. Qed.

Lemma shift_rq h s (Q : unit -> sched_state W -> Prop) :
  (forall q, q_core (h q) = q_core q /\ q_switches (h q) = q_switches q) -> (forall s', shifted id s s' -> Q tt s') -> wp (rq h) Q s.
Proof.
  intros Hh. apply shift_modify. destruct (Hh (g_runqueue s)) as [[= E1 E2 E3 E4] E5].
  split; [|exact E4|done]. simpl. by rewrite E1, E2, E3, E5.
Qed.

Lemma change_state_wp s i from to (Q : unit -> sched_state W -> Prop) :
  (forall s', shifted (alter (fun t => if t_state t =? from then t <| t_state := to |> else t) (Z.to_nat i)) s s' -> Q tt s') ->
  wp (change_state i from to) Q s.
Proof.
  intros HQ. apply wp_bind, wp_gets.
  assert (Hat : forall x, q_tasks (g_runqueue s) !! Z.to_nat i = Some x -> task_at s i = x) by (intros x Hx; unfold task_at, task_in; by rewrite Hx).
  destruct (t_state (task_at s i) =? from) eqn:E.
  - apply shift_task. intros s' Hs. apply HQ. eapply shifted_ext; [|exact Hs]. apply list_alter_ext; [|done].
    intros x Hx%Hat. subst x. by rewrite E.
  - apply wp_ret, HQ. split; [done| |done]. symmetry. apply alter_id_at. intros x Hx%Hat. subst x. by rewrite E.
Qed.

(** The state when the sleepers are looked at. *)
Definition interrupted f s s' : Prop :=
  shifted (alter (preempted f (fs_base_msr s)) (Z.to_nat (q_current_task (g_runqueue s)))) s s'.

Lemma save_fs_wp i s (Q : unit -> sched_state W -> Prop) :
  (forall s', shifted (alter (fun t => t <| t_fs_base := fs_base_msr s |>) (Z.to_nat i)) s s' -> Q tt s') ->
  wp (scheduler64_save_fs_base_for_task i) Q s.
Proof.
  intros HQ. apply wp_bind, wp_gets, wp_bind, shift_task. intros s1 H1. apply (shift_modify _ id); [done|]. intros s2 H2.
  apply HQ. exact (shifted_trans _ _ _ _ _ H1 H2).
Qed.

Lemma timer_prefix_wp {A} f (k : ST (sched_state W) A) s Q :
  (forall s', interrupted f s s' -> wp k Q s') ->
  wp (rq (fun q => q <| q_irqs := inc32 (q_irqs q) |>) ;;;
      save_frame (q_current_task (g_runqueue s)) f ;;;
      scheduler64_save_fs_base_for_task (q_current_task (g_runqueue s)) ;;;
      change_state (q_current_task (g_runqueue s)) SCHEDULER64_TASK_RUNNING SCHEDULER64_TASK_READY ;;;
      set_selectors f ;;; k) Q s.
Proof.
  intros HQ. apply wp_bind, shift_rq; [done|]. intros s1 H1. apply wp_bind, shift_task. intros s2 H2.
  apply wp_bind, save_fs_wp. intros s3 H3. apply wp_bind, change_state_wp. intros s4 H4. apply wp_bind, shift_rq; [done|]. intros s5 H5.
  pose proof (shifted_trans _ _ _ _ _ H1 H2) as H12. pose proof (shifted_trans _ _ _ _ _ H12 H3) as H13.
  pose proof (shifted_trans _ _ _ _ _ H13 H4) as H14. pose proof (shifted_trans _ _ _ _ _ H14 H5) as H15.
  apply HQ. eapply shifted_ext; [|exact H15]. unfold id. rewrite !alter_twice.
  pose proof (sh_rest _ _ _ H12) as [= _ _ _ _ E _]. apply list_alter_ext; [|done]. intros t _. rewrite E. unfold preempted. simpl.
  by destruct (t_state t =? SCHEDULER64_TASK_RUNNING), t.
Qed.

Lemma preempted_live f base t : live (preempted f base t) = live t.
Proof. unfold live, preempted. simpl. by destruct (t_state t =? SCHEDULER64_TASK_RUNNING) eqn:E; [apply Z.eqb_eq in E; rewrite E|rewrite ?E]. Qed.
Lemma preempted_off f base t : running (preempted f base t) = false.
Proof. unfold running, preempted. simpl. destruct (t_state t =? SCHEDULER64_TASK_RUNNING) eqn:E; [done|exact E]. Qed.

(** A change of tasks keeps the rest of the invariant. *)
Lemma shifted_mid g s s' : ProcFacts.pinv (sched_processes s) -> PagingFacts.pg_inv (sched_paging s) -> 0 <= g_scheduler64_preferred_task s ->
  sleep_ok (q_task_count (g_runqueue s)) (g_scheduler64_sleep_queue s) -> shifted g s s' -> q_idle (g_runqueue s') -> sched_mid s'.
Proof.
  intros H1 H2 H3 H4 [A1 A2 A3] Hi. injection A1 as _ Ec _ _. injection A3 as Es Ep E1 E2 _ _. split; congruence.
Qed.

Lemma interrupted_world f s s' : interrupted f s s' -> sched_world s' = sched_world s.
Proof. by intros [_ _ [= _ _ _ _ _ E]]. Qed.

Lemma interrupted_mid f s s' : sched_ok s -> q_active (g_runqueue s) <> 0 -> interrupted f s s' -> sched_mid s'.
Proof.
  intros [S1 S2 S3 S4 S5 S6] Ha H. eapply shifted_mid; [done..|]. pose proof H as [[= A1 A2 A3 A4] A5 _].
  apply (q_idle_alter (preempted f (fs_base_msr s)) (g_runqueue s)); [done|done|done|done|]. apply preempted_off.
Qed.

(** ** Waking the sleepers *)

Lemma woken_same now l i t : (forall r, wake_one r t = t) -> woken now l i t = t.
Proof. intros H. unfold woken. destruct (List.find _ l) as [e|]; [|done]. apply (H (sl_resume_rax e)). Qed.

(** A task is what it was, or was blocked and is ready. *)
Lemma woken_cases now l i t :
  woken now l i t = t \/ t_state t = SCHEDULER64_TASK_BLOCKED /\ exists r, woken now l i t =
    t <| t_frame := (t_frame t) <| rax := r |> |> <| t_state := SCHEDULER64_TASK_READY |>.
Proof.
  unfold woken. destruct (List.find _ l) as [e|]; [|by left]. destruct (_ && _) eqn:E; [|by left].
  right. apply andb_true_iff in E as [E%Z.eqb_eq _]. split; [done|]. by eexists.
Qed.

Lemma woken_live now l i t : live (woken now l i t) = live t /\ t_frame_valid (woken now l i t) = t_frame_valid t /\
  t_pid (woken now l i t) = t_pid t /\ t_fs_base (woken now l i t) = t_fs_base t /\
  (running (woken now l i t) = running t) /\ (t_state t = SCHEDULER64_TASK_UNUSED -> t_state (woken now l i t) = SCHEDULER64_TASK_UNUSED).
Proof. destruct (woken_cases now l i t) as [->|(E & r & ->)]; [done|]. unfold live, running. simpl. rewrite E. done. Qed.

Lemma imap_woken_Some now l (ts : list scheduler64_task) i t :
  imap (woken now l) ts !! i = Some t -> exists x, ts !! i = Some x /\ t = woken now l i x.
Proof. rewrite list_lookup_imap. destruct (ts !! i) as [x|]; [|done]. intros [= <-]. by exists x. Qed.

Lemma swept_ok now c l : sleep_ok c l -> sleep_ok c (swept now l).
Proof.
  intros [H1 H2 H3]. assert (Hs : forall i e, swept now l !! i = Some e -> pending e = true -> l !! i = Some e).
  { intros i e He Hp. unfold swept in He. rewrite list_lookup_fmap in He. destruct (l !! i) as [x|] eqn:Ex; [|done].
    injection He as <-. by destruct (due now x). }
  split; [unfold swept; by rewrite length_fmap|..].
  - intros i e He Hp. by eapply H2, Hp; apply Hs.
  - intros i j e1 e2 E1 E2 P1 P2. apply (H3 i j e1 e2); auto.
Qed.

Lemma expired_mid now s s' : sched_mid s -> expired_upto now (g_scheduler64_sleep_queue s) s s' -> sched_mid s'.
Proof.
  intros [[[B1 B2 B3 B4] Hi] M2 M3 M4 M5] [E1 E2 E3 E4 E5 E6 E7 E8]. injection E1 as Ea Ec Ecur. injection E4 as Ep Eg.
  rewrite drop_all, app_nil_r in E3. split; [split; [split|]|..].
  - by rewrite E2, length_imap.
  - by rewrite Ec.
  - rewrite E2, Ec. intros i t (x & Hx & ->)%imap_woken_Some Hp. apply woken_live. by apply (B3 i).
  - rewrite E2. intros i t (x & Hx & ->)%imap_woken_Some. destruct (woken_live now (g_scheduler64_sleep_queue s) i x) as (-> & -> & _). by apply (B4 i).
  - rewrite E2. intros i t (x & Hx & ->)%imap_woken_Some. destruct (woken_live now (g_scheduler64_sleep_queue s) i x) as (_ & _ & _ & _ & -> & _). by apply (Hi i).
  - rewrite Ec, E3. by apply swept_ok.
  - by apply E7.
  - by rewrite Ep.
  - by rewrite Eg.
Qed.

(** ** The outcome of a timer interrupt *)

(** The tasks at the choice of the next one: the interrupted task saved, the
    sleepers that are due woken. *)
Definition tick_tasks (now : Z) f s : list scheduler64_task :=
  imap (woken now (g_scheduler64_sleep_queue s))
    (alter (preempted f (fs_base_msr s)) (Z.to_nat (q_current_task (g_runqueue s))) (q_tasks (g_runqueue s))).
Definition tick_queue (now : Z) f s : scheduler64_runqueue := (g_runqueue s) <| q_tasks := tick_tasks now f s |>.

(** The queue with the interrupted task saved. *)
Definition saved_queue f s : scheduler64_runqueue :=
  (g_runqueue s) <| q_tasks := alter (preempted f (fs_base_msr s)) (Z.to_nat (q_current_task (g_runqueue s))) (q_tasks (g_runqueue s)) |>.

(** The time of the interrupt is what the timer's counter says, and the
    preference is the last sleeper woken, or the one there was. *)
Definition tick_now s : Z := fst (pit_get_ticks (sched_world s)).
Definition tick_pref (now : Z) f s : Z :=
  preferred_after now (saved_queue f s) (g_scheduler64_sleep_queue s) (g_scheduler64_preferred_task s).

(** What every counted timer interrupt does, at the time [now] and with the
    preference [pref]. *)
Record ticked (now pref : Z) f s s' : Prop := {
  tk_now : now = tick_now s;
  tk_sleep : g_scheduler64_sleep_queue s' = swept now (g_scheduler64_sleep_queue s);
  tk_taken : g_scheduler64_preferred_task s' = SCHEDULER64_INVALID_TASK;
  tk_pref : 0 <= pref /\ pref = tick_pref now f s;
  tk_processes : sched_processes s' = sched_processes s;
  tk_paging : PagingFacts.pcore (sched_paging s') = PagingFacts.pcore (sched_paging s);
  tk_queue : (q_active (g_runqueue s'), q_task_count (g_runqueue s')) = (q_active (g_runqueue s), q_task_count (g_runqueue s)) }.

(** Without a sleeper that is due the preference stays. *)
Lemma tick_pref_quiet now pref f s s' :
  ticked now pref f s s' -> existsb (due now) (g_scheduler64_sleep_queue s) = false -> pref = g_scheduler64_preferred_task s.
Proof. intros Ht Hq. destruct (tk_pref _ _ _ _ _ Ht) as [_ ->]. by apply preferred_quiet. Qed.

Definition timer_ignores f s : bool :=
  let q := g_runqueue s in (q_active q =? 0) || (q_task_count q <=? q_current_task q) || negb (user_cs f).

Inductive timer_result s f : Z -> interrupt_frame64 -> sched_state W -> Prop :=
| timer_ignored : timer_ignores f s = true -> timer_result s f 0 f s
| timer_kept now pref s' :
    timer_ignores f s = false -> ticked now pref f s s' ->
    (let next := choice (tick_queue now f s) pref (q_current_task (g_runqueue s)) in
     next = SCHEDULER64_INVALID_TASK \/
     switchable (sched_processes s) (sched_paging s) (t_pid (task_in (tick_queue now f s) next)) = false) ->
    q_tasks (g_runqueue s') = alter revived (Z.to_nat (q_current_task (g_runqueue s))) (tick_tasks now f s) ->
    q_current_task (g_runqueue s') = q_current_task (g_runqueue s) ->
    Paging.cr3 (sched_paging s') = Paging.cr3 (sched_paging s) -> fs_base_msr s' = fs_base_msr s ->
    timer_result s f 0 f s'
| timer_switched now pref next s' :
    timer_ignores f s = false -> ticked now pref f s s' ->
    next = choice (tick_queue now f s) pref (q_current_task (g_runqueue s)) ->
    eligible (tick_queue now f s) (q_current_task (g_runqueue s)) next ->
    switchable (sched_processes s) (sched_paging s) (t_pid (task_in (tick_queue now f s) next)) = true ->
    q_tasks (g_runqueue s') = alter put_on (Z.to_nat next) (tick_tasks now f s) ->
    q_current_task (g_runqueue s') = next ->
    cr3_at (sched_processes s') (sched_paging s') (t_pid (task_in (tick_queue now f s) next)) ->
    fs_base_msr s' = t_fs_base (task_in (tick_queue now f s) next) ->
    timer_result s f 1 (t_frame (task_in (tick_queue now f s) next)) s'.

Lemma preferred_ext now q q' l p :
  q_task_count q' = q_task_count q -> q_tasks q' = q_tasks q -> preferred_after now q' l p = preferred_after now q l p.
Proof.
  intros Ec Et. unfold preferred_after. revert p. induction l as [|e l IH]; intros p; simpl; [done|]. rewrite IH. f_equal.
  unfold wake_refused, task_in. by rewrite Ec, Et.
Qed.

(** The queue after the sleepers, seen from the state before. *)
Lemma ticked_queue now f s s1 w s2 :
  interrupted f s s1 -> expired_upto now (g_scheduler64_sleep_queue s1) (s1 <| sched_world := w |>) s2 ->
  g_scheduler64_sleep_queue s1 = g_scheduler64_sleep_queue s /\
  q_tasks (g_runqueue s2) = tick_tasks now f s /\ g_scheduler64_sleep_queue s2 = swept now (g_scheduler64_sleep_queue s) /\
  (q_active (g_runqueue s2), q_task_count (g_runqueue s2), q_current_task (g_runqueue s2)) =
    (q_active (g_runqueue s), q_task_count (g_runqueue s), q_current_task (g_runqueue s)) /\
  machine s2 = machine s /\ fs_base_msr s2 = fs_base_msr s /\
  g_scheduler64_preferred_task s2 = tick_pref now f s.
Proof.
  intros [[= A1 A2 A3 A4] A5 [= A6 A7 A8 A9 A10 _]] [E1 E2 E3 E4 E5 E6 E7 E8]. simpl in *.
  rewrite drop_all, app_nil_r in E3. injection E1 as Ea Ec Ecur. unfold machine in *. simpl in *. injection E4 as Ep Eg.
  rewrite A6 in *. split_and!; try congruence.
  - by rewrite E2, A5.
  - rewrite E8, A7. apply preferred_ext; [done|]. exact A5.
Qed.

Lemma choice_ext q q' pref cur : q_task_count q' = q_task_count q -> q_tasks q' = q_tasks q -> choice q' pref cur = choice q pref cur.
Proof. intros Ec Et. unfold choice, preferred_eligible, rotate, candidate, task_in. by rewrite Ec, Et. Qed.
Lemma task_in_ext q q' i : q_tasks q' = q_tasks q -> task_in q' i = task_in q i.
Proof. intros Et. unfold task_in. by rewrite Et. Qed.
Lemma eligible_ext q q' cur j : q_task_count q' = q_task_count q -> q_tasks q' = q_tasks q -> eligible q cur j -> eligible q' cur j.
Proof. intros Ec Et. unfold eligible. by rewrite Ec, (task_in_ext q q'). Qed.

(** The current task goes on. *)
Lemma q_ok_revive q q' :
  q_idle q -> 0 <= q_current_task q < q_task_count q -> live (task_in q (q_current_task q)) = true ->
  altered (q_current_task q) revived q q' -> q_current_task q' = q_current_task q -> q_ok q'.
Proof.
  intros [Hb Hi] Hc Hl Ha Ecur. pose proof Ha as [Ht Hn].
  assert (Hlr : live (revived (task_in q (q_current_task q))) = true).
  { unfold revived. case_match; [done|exact Hl]. }
  split.
  - apply (q_base_alter (q_current_task q) revived q); [done..|]. intros _. unfold revived.
    assert (t_frame_valid (task_in q (q_current_task q)) <> 0) by (eapply (qb_frame q Hb); [by apply task_in_lookup|done]). by case_match.
  - intros _. rewrite Ecur, Hn, (altered_task (q_current_task q) revived q q') by done. done.
  - intros _ i t Hit Hr. rewrite Ecur. rewrite Ht in Hit. apply lookup_alter_Some in Hit as (x & Hx & ->). case_decide as E; [lia|].
    by rewrite (Hi i x Hx) in Hr.
Qed.

Lemma task_in_imap now l ts q q' i :
  q_tasks q = ts -> q_tasks q' = imap (woken now l) ts -> is_Some (ts !! Z.to_nat i) ->
  task_in q' i = woken now l (Z.to_nat i) (task_in q i).
Proof. intros E E' [t Ht]. unfold task_in. by rewrite E', E, list_lookup_imap, Ht. Qed.

(** The current task is still there, and of the same process. *)
Lemma tick_current now f s q3 :
  q_ok (g_runqueue s) -> q_active (g_runqueue s) <> 0 -> q_tasks q3 = tick_tasks now f s ->
  live (task_in q3 (q_current_task (g_runqueue s))) = true /\ t_pid (task_in q3 (q_current_task (g_runqueue s))) = current_pid s.
Proof.
  intros [Hb Hcur _] Ha E. destruct (Hcur Ha) as [Hi Hl]. set (cur := q_current_task (g_runqueue s)) in *.
  pose proof (task_in_lookup _ _ Hb Hi) as Hlk.
  assert (Et : task_in q3 cur = woken now (g_scheduler64_sleep_queue s) (Z.to_nat cur) (preempted f (fs_base_msr s) (task_in (g_runqueue s) cur))).
  { unfold task_in at 1. rewrite E. unfold tick_tasks. rewrite list_lookup_imap, list_lookup_alter, decide_True by done.
    fold cur. by rewrite Hlk. }
  rewrite Et. destruct (woken_live now (g_scheduler64_sleep_queue s) (Z.to_nat cur) (preempted f (fs_base_msr s) (task_in (g_runqueue s) cur)))
    as (-> & _ & -> & _). split; [by rewrite preempted_live|done].
Qed.

(** The state in which the next task has been chosen. *)
Record ticking (now pref : Z) f s s3 : Prop := {
  tg_mid : sched_mid s3;
  tg_tasks : q_tasks (g_runqueue s3) = tick_tasks now f s;
  tg_sleep : g_scheduler64_sleep_queue s3 = swept now (g_scheduler64_sleep_queue s);
  tg_queue : (q_active (g_runqueue s3), q_task_count (g_runqueue s3), q_current_task (g_runqueue s3)) =
    (q_active (g_runqueue s), q_task_count (g_runqueue s), q_current_task (g_runqueue s));
  tg_machine : machine s3 = machine s;
  tg_fs : fs_base_msr s3 = fs_base_msr s;
  tg_taken : g_scheduler64_preferred_task s3 = SCHEDULER64_INVALID_TASK;
  tg_now : now = tick_now s;
  tg_pref : 0 <= pref /\ pref = tick_pref now f s }.

Lemma timer_active f s : sched_ok s -> timer_ignores f s = false ->
  q_active (g_runqueue s) <> 0 /\ 0 <= q_current_task (g_runqueue s) < q_task_count (g_runqueue s).
Proof.
  intros Hok [[Ha _]%orb_false_iff _]%orb_false_iff. apply Z.eqb_neq in Ha. split; [done|]. by apply (q_cur _ (so_queue _ Hok)).
Qed.

Lemma tick_wp {A} f s (k : Z -> ST (sched_state W) A) Q :
  sched_ok s -> timer_ignores f s = false ->
  (forall now pref s3, ticking now pref f s s3 -> wp (k (choice (tick_queue now f s) pref (q_current_task (g_runqueue s)))) Q s3) ->
  wp (rq (fun q => q <| q_irqs := inc32 (q_irqs q) |>) ;;;
      save_frame (q_current_task (g_runqueue s)) f ;;;
      scheduler64_save_fs_base_for_task (q_current_task (g_runqueue s)) ;;;
      change_state (q_current_task (g_runqueue s)) SCHEDULER64_TASK_RUNNING SCHEDULER64_TASK_READY ;;;
      set_selectors f ;;;
      now <- on_world pit_get_ticks ;;
      scheduler64_sleep_wake_expired now ;;;
      next <- scheduler64_next_runnable (q_current_task (g_runqueue s)) ;; k next) Q s.
Proof.
  intros Hok Hg HQ. destruct (timer_active f s Hok Hg) as [Ha Hi].
  apply timer_prefix_wp. intros s1 H1. pose proof (interrupted_mid f s s1 Hok Ha H1) as Hm1.
  apply wp_bind, sched_answer_wp. intros w. rewrite (interrupted_world f s s1 H1). fold (tick_now s). set (now := tick_now s).
  assert (Hm1' : sched_mid (s1 <| sched_world := w |>)) by (by destruct Hm1).
  apply wp_bind, wake_expired_wp; [apply Hm1'|apply Hm1'|]. intros v s2 H2.
  pose proof (expired_mid now _ s2 Hm1' H2) as Hm2.
  destruct (ticked_queue now f s s1 w s2 H1 H2) as (_ & Et & Es & Eq & Em & Ef & Ep).
  clear H1 H2 Hm1 Hm1' s1 w. pose proof Eq as [= _ Ec _].
  apply wp_bind, next_runnable_wp; [intros; lia|]. intros _.
  rewrite (choice_ext (tick_queue now f s)) by done. apply HQ. split; try done.
  - destruct Hm2. by split.
  - split; [apply Hm2|done].
Qed.

Lemma ticking_ticked now pref f s s3 s' :
  ticking now pref f s s3 -> g_scheduler64_sleep_queue s' = g_scheduler64_sleep_queue s3 ->
  g_scheduler64_preferred_task s' = g_scheduler64_preferred_task s3 -> sched_processes s' = sched_processes s3 ->
  PagingFacts.pcore (sched_paging s') = PagingFacts.pcore (sched_paging s3) ->
  q_active (g_runqueue s') = q_active (g_runqueue s3) -> q_task_count (g_runqueue s') = q_task_count (g_runqueue s3) -> ticked now pref f s s'.
Proof.
  intros [G1 G2 G3 [= G4 G5 G6] [= G7 G8] G9 G10 Gn G11] T1 T2 T3 T4 T5 T6. split; congruence.
Qed.

(** The interrupted task goes on. *)
Lemma kept_ok now f s s3 s4 :
  sched_ok s -> q_active (g_runqueue s) <> 0 -> sched_mid s3 -> q_tasks (g_runqueue s3) = tick_tasks now f s ->
  (q_active (g_runqueue s3), q_task_count (g_runqueue s3), q_current_task (g_runqueue s3)) =
    (q_active (g_runqueue s), q_task_count (g_runqueue s), q_current_task (g_runqueue s)) ->
  sched_processes s3 = sched_processes s -> PagingFacts.pcore (sched_paging s3) = PagingFacts.pcore (sched_paging s) ->
  Paging.cr3 (sched_paging s3) = Paging.cr3 (sched_paging s) ->
  shifted (alter revived (Z.to_nat (q_current_task (g_runqueue s)))) s3 s4 -> sched_ok s4.
Proof.
  intros [S1 S2 S3 S4 S5 S6] Ha [M1 M2 M3 M4 M5] Et [= Ea Ec Ecur] Ep Eg E3 [[= A1 A2 A3 A4] A5 [= A6 A7 A8 A9 A10 _]].
  destruct (q_cur _ S1 Ha) as [Hi _]. destruct (tick_current now f s (g_runqueue s3) S1 Ha Et) as [Hl Hp].
  assert (Halt : altered (q_current_task (g_runqueue s3)) revived (g_runqueue s3) (g_runqueue s4)) by (rewrite Ecur; by split).
  split; try congruence.
  - apply (q_ok_revive (g_runqueue s3)); rewrite ?Ecur, ?Ec; try done. congruence.
  - intros _. replace (current_pid s4) with (current_pid s).
    + rewrite A8, A9, Ep. apply (cr3_core _ (sched_paging s)); [done|done|]. by apply S6.
    + unfold current_pid at 2, task_at. rewrite A3, (altered_task _ revived (g_runqueue s3)); [|apply M1|done|by rewrite Ec, Ecur].
      rewrite Ecur, <- Hp. unfold revived. by case_match.
Qed.

Lemma timer_kept_wp now pref f s s3 pg :
  sched_ok s -> timer_ignores f s = false -> ticking now pref f s s3 ->
  PagingFacts.pcore pg = PagingFacts.pcore (sched_paging s) -> Paging.cr3 pg = Paging.cr3 (sched_paging s) ->
  (let next := choice (tick_queue now f s) pref (q_current_task (g_runqueue s)) in
   next = SCHEDULER64_INVALID_TASK \/
   switchable (sched_processes s) (sched_paging s) (t_pid (task_in (tick_queue now f s) next)) = false) ->
  wp (change_state (q_current_task (g_runqueue s)) SCHEDULER64_TASK_READY SCHEDULER64_TASK_RUNNING ;;; ret (0, f))
    (fun r s' => timer_result s f (fst r) (snd r) s' /\ sched_ok s') (s3 <| sched_paging := pg |>).
Proof.
  intros Hok Hg Ht Hc H3 Hwhy. destruct (timer_active f s Hok Hg) as [Ha _].
  apply wp_bind, change_state_wp. intros s4 H4. apply wp_ret. pose proof Ht as [G1 G2 G3 [= G4 G5 G6] [= G7 G8] G9 G10 Gn G11].
  pose proof H4 as [[= A1 A2 A3 A4] A5 [= A6 A7 A8 A9 A10 _]]. simpl in *. split.
  - apply (timer_kept s f now pref); try done; try congruence.
    + apply (ticking_ticked now pref f s s3); try done. by rewrite A9, Hc, G8.
    + rewrite A5, G2. done.
  - apply (kept_ok now f s (s3 <| sched_paging := pg |>)); try done; simpl; try congruence.
    destruct G1. split; try done. simpl. eapply PagingFacts.pg_inv_core, so_paging, Hok. done.
Qed.

Lemma timer_wp s f : sched_ok s -> wp (scheduler64_runqueue_on_timer f) (fun r s' => timer_result s f (fst r) (snd r) s' /\ sched_ok s') s.
Proof.
  intros Hok. apply wp_bind, wp_gets. cbv zeta.
  match goal with |- wp (if ?b then _ else _) _ _ => change b with (timer_ignores f s) end.
  destruct (timer_ignores f s) eqn:Eg; [apply wp_ret; by split; [apply timer_ignored|]|].
  destruct (timer_active f s Hok Eg) as [Ha Hi]. apply tick_wp; [done|done|]. intros now pref s3 Ht.
  pose proof Ht as [Hm G2 G3 [= G4 G5 G6] [= G7 G8] G9 G10 Gn [G11 _]].
  destruct (Z.eqb_spec (choice (tick_queue now f s) pref (q_current_task (g_runqueue s))) SCHEDULER64_INVALID_TASK) as [En|En].
  { rewrite <- (paging_same s3). apply (timer_kept_wp now pref); try done; [by rewrite G8|by rewrite G8|by left]. }
  set (next := choice (tick_queue now f s) pref (q_current_task (g_runqueue s))) in *.
  assert (Hel : eligible (tick_queue now f s) (q_current_task (g_runqueue s)) next).
  { destruct (choice_cases (g_runqueue s3) pref (q_current_task (g_runqueue s))) as [[E _]|[_ E]]; [apply Hm|done|by rewrite G5|..];
      rewrite (choice_ext (tick_queue now f s)) in E by done; [done|]. by eapply eligible_ext, E. }
  assert (Hat : task_at s3 next = task_in (tick_queue now f s) next) by (by apply task_in_ext).
  pose proof Hel as (Hn & _ & Hr). change (q_task_count (tick_queue now f s)) with (q_task_count (g_runqueue s)) in Hn.
  apply take_over_wp; [done|by rewrite G5|..]; rewrite Hat, G7, G8.
  - intros Esw pg Hc H3. apply (timer_kept_wp now pref); try done. by right.
  - intros Esw s4 R. pose proof (resumed_ok next s3 s4 Hm ltac:(by rewrite G5) ltac:(by rewrite Hat) R) as Hok4.
    apply wp_bind, shift_rq; [done|]. intros s5 [[= A1 A2 A3 A4] A5 [= A6 A7 A8 A9 A10 _]]. apply wp_ret.
    destruct R as [R1 R2 R3 R4 R5 R6 R7]. rewrite R1 in A1, A2, A3, A5. rewrite Hat in R6, R7. split.
    + apply (timer_switched s f now pref next); try done; try congruence.
      * apply (ticking_ticked now pref f s s3); try done; congruence.
      * rewrite A5, <- G2. done.
      * by rewrite A8, A9.
    + eapply sched_ok_core, Hok4. unfold sched_core, machine, q_core. rewrite A1, A2, A3, A5, A6, A7, A8, A9, R1. done.
Qed.

End steps.

End SchedSteps.
