(* ===== verification/SchedCalls.v ===== *)
(** * The other calls of the run queue

    Blocked system calls, exits, starting and stopping, registration,
    blocking, waking and sleeping: what each does, and that each keeps the
    invariant. *)

From S2P Require Import Prelude Principal Services64 Process ProcessFacts Paging PagingFacts PagingOps PagingRoots Scheduler SchedFacts SchedOps SchedSteps.
Import Scheduler SchedFacts SchedOps SchedSteps.
Local Open Scope Z_scope.
Local Open Scope kernel_scope.

Module SchedCalls.

Section calls.
Context {W : Type} {world : SchedWorld W} {launch : Process.LaunchEnv} {symbols : Paging.PagingSymbols} {layout : PagingFacts.PagingLayout}.
Implicit Types (s : sched_state W) (q : scheduler64_runqueue) (t : scheduler64_task) (f : interrupt_frame64).

(** ** Handing the processor over *)

(** The queue with the tasks [ts]. *)
Definition with_tasks s (ts : list scheduler64_task) : scheduler64_runqueue := (g_runqueue s) <| q_tasks := ts |>.

(** From the tasks [ts] the processor went to [next]. *)
Record handed (ts : list scheduler64_task) (next : Z) s s' : Prop := {
  hd_eligible : eligible (with_tasks s ts) (q_current_task (g_runqueue s)) next;
  hd_choice : next = choice (with_tasks s ts) (g_scheduler64_preferred_task s) (q_current_task (g_runqueue s));
  hd_queue : (q_active (g_runqueue s'), q_task_count (g_runqueue s'), q_current_task (g_runqueue s')) =
             (q_active (g_runqueue s), q_task_count (g_runqueue s), next);
  hd_tasks : q_tasks (g_runqueue s') = alter put_on (Z.to_nat next) ts;
  hd_sleep : g_scheduler64_sleep_queue s' = g_scheduler64_sleep_queue s;
  hd_processes : sched_processes s' = sched_processes s;
  hd_paging : PagingFacts.pcore (sched_paging s') = PagingFacts.pcore (sched_paging s);
  hd_cr3 : cr3_at (sched_processes s') (sched_paging s') (t_pid (task_in (with_tasks s ts) next));
  hd_fs : fs_base_msr s' = t_fs_base (task_in (with_tasks s ts) next) }.

(** The chosen task cannot be given the processor. *)
Definition stuck (ts : list scheduler64_task) s : Prop :=
  let next := choice (with_tasks s ts) (g_scheduler64_preferred_task s) (q_current_task (g_runqueue s)) in
  next = SCHEDULER64_INVALID_TASK \/
  switchable (sched_processes s) (sched_paging s) (t_pid (task_in (with_tasks s ts) next)) = false.

(** What a frame may be after the delivery of a signal: itself, or any frame
    for a Linux process. *)
Definition delivered s (pid : Z) f f' : Prop :=
  user_cs f && (persona64_type pid (sched_world s) =? PERSONA64_TYPE_LINUX_ELF) = false -> f' = f.

Lemma deliver_wp t f s (Q : interrupt_frame64 -> sched_state W -> Prop) :
  (forall f' w, delivered s (t_pid t) f f' -> Q f' (s <| sched_world := w |>)) ->
  wp (scheduler64_deliver_linux_signal_on_resume t f) Q s.
Proof.
  intros HQ. apply wp_bind, wp_gets. unfold delivered in HQ. simpl.
  destruct (user_cs f), (persona64_type (t_pid t) (sched_world s) =? PERSONA64_TYPE_LINUX_ELF); simpl in *;
    try (apply wp_ret; specialize (HQ f (sched_world s) (fun _ => eq_refl)); by destruct s).
  apply wp_bind, sched_world_wp. intros r w. apply wp_ret. by apply HQ.
Qed.

(** The end of a change of tasks out of a system call. *)
Definition resume_tail (v next : Z) f : ST (sched_state W) (Z * interrupt_frame64) :=
  t <- gets (fun s => task_at s next) ;;
  f'' <- scheduler64_deliver_linux_signal_on_resume t f ;;
  set_selectors f'' ;;;
  ret (v, f'').

Lemma resume_tail_wp v next f s (Q : Z * interrupt_frame64 -> sched_state W -> Prop) :
  (forall f' s', sched_core s' = sched_core s -> fs_base_msr s' = fs_base_msr s -> delivered s (t_pid (task_at s next)) f f' ->
     Q (v, f') s') -> wp (resume_tail v next f) Q s.
Proof.
  intros HQ. apply wp_bind, wp_gets, wp_bind, deliver_wp. intros f' w Hd. apply wp_bind, shift_rq; [done|].
  intros s1 [[= A1 A2 A3 A4] A5 [= A6 A7 A8 A9 A10]]. apply wp_ret, HQ; [|done|done]. simpl in *.
  unfold sched_core, q_core, machine. by rewrite A1, A2, A3, A5, A6, A7, A8, A9.
Qed.

(** The next task has been chosen among [ts]. *)
Record chosen (ts : list scheduler64_task) s s3 : Prop := {
  ch_queue : (q_active (g_runqueue s3), q_task_count (g_runqueue s3), q_current_task (g_runqueue s3)) =
             (q_active (g_runqueue s), q_task_count (g_runqueue s), q_current_task (g_runqueue s));
  ch_tasks : q_tasks (g_runqueue s3) = ts;
  ch_taken : g_scheduler64_preferred_task s3 = SCHEDULER64_INVALID_TASK;
  ch_rest : (g_scheduler64_sleep_queue s3, machine s3, fs_base_msr s3) = (g_scheduler64_sleep_queue s, machine s, fs_base_msr s);
  ch_mid : sched_mid s3 }.

(** The choice of the next task and the switch, once the current task is off
    the processor in state [s1]. *)
Lemma hand_over_wp (v reason : Z) ts s s1 (fail none : ST (sched_state W) (Z * interrupt_frame64)) Q :
  sched_ok s -> q_active (g_runqueue s) <> 0 -> shifted (fun _ => ts) s s1 -> sched_mid s1 ->
  (stuck ts s -> forall s3, chosen ts s s3 -> wp none Q s3) ->
  (stuck ts s -> forall s3 pg, chosen ts s s3 -> PagingFacts.pcore pg = PagingFacts.pcore (sched_paging s) ->
     Paging.cr3 pg = Paging.cr3 (sched_paging s) -> wp fail Q (s3 <| sched_paging := pg |>)) ->
  (forall next f' s' s4, handed ts next s s' -> sched_ok s' ->
     delivered s4 (t_pid (task_in (with_tasks s ts) next)) (t_frame (task_in (with_tasks s ts) next)) f' -> Q (v, f') s') ->
  wp (next <- scheduler64_next_runnable (q_current_task (g_runqueue s)) ;;
      if next =? SCHEDULER64_INVALID_TASK then none
      else
        switched <- scheduler64_switch_cr3_for_task next reason ;;
        if switched =? 0 then fail else bind (dispatch next) (resume_tail v next)) Q s1.
Proof.
  intros Hok Ha H1 Hm Hnone Hfail HQ. pose proof H1 as [[= A1 A2 A3 A4] A5 [= A6 A7 A8 A9 A10]].
  destruct (q_cur _ (so_queue _ Hok) Ha) as [Hi _]. apply wp_bind, next_runnable_wp; [intros; lia|]. intros _.
  rewrite A7, (choice_ext (with_tasks s ts)) by done.
  set (next := choice (with_tasks s ts) (g_scheduler64_preferred_task s) (q_current_task (g_runqueue s))) in *.
  assert (Hch : chosen ts s (s1 <| g_scheduler64_preferred_task := SCHEDULER64_INVALID_TASK |>)).
  { split; simpl; [congruence|done|done|unfold machine; simpl; congruence|]. destruct Hm. by split. }
  revert Hch. generalize (s1 <| g_scheduler64_preferred_task := SCHEDULER64_INVALID_TASK |>). intros s3 Hch.
  destruct (Z.eqb_spec next SCHEDULER64_INVALID_TASK) as [En|En]; [by apply Hnone; [left|]|].
  pose proof Hch as [[= B1 B2 B3] B4 B5 [= B6 B7 B8 B9] Hm3].
  assert (Hel : eligible (with_tasks s ts) (q_current_task (g_runqueue s)) next).
  { destruct (choice_cases (g_runqueue s1) (g_scheduler64_preferred_task s) (q_current_task (g_runqueue s))) as [[E _]|[_ E]];
      [apply Hm|apply Hok|by rewrite A2|..]; rewrite (choice_ext (with_tasks s ts)) in E by done; [done|]. by eapply eligible_ext, E. }
  assert (Hat : task_at s3 next = task_in (with_tasks s ts) next) by (by apply task_in_ext).
  pose proof Hel as (Hn & _ & Hr). change (q_task_count (with_tasks s ts)) with (q_task_count (g_runqueue s)) in Hn.
  apply take_over_wp; [done|by rewrite B2|..]; rewrite Hat, B7, B8.
  - intros Esw pg Hc H3. apply Hfail; [by right|done|done|done].
  - intros Esw s4 R. pose proof (resumed_ok next s3 s4 Hm3 ltac:(by rewrite B2) ltac:(by rewrite Hat) R) as Hok4.
    pose proof R as [R1 R2 R3 R4 R5 R6 R7]. apply resume_tail_wp. intros f' s5 Hc Hf Hd.
    pose proof (sched_ok_core s4 s5 Hc Hok4) as Hok5.
    apply sched_core_inj in Hc as ([= C1 C2 C3 C4] & C5 & C6 & C7 & C8). rewrite R1 in C1, C2, C3, C4. rewrite Hat in R6, R7.
    apply (HQ next f' s5 s4); [|done|].
    + split; try done; try congruence; [simpl in *; congruence|by rewrite C4, <- B4|by rewrite C7, C8].
    + replace (t_pid (task_at s4 next)) with (t_pid (task_in (with_tasks s ts) next)) in Hd; [done|].
      unfold task_at. rewrite R1, dispatched_task; [|apply Hm3|by rewrite B2|lia]. by rewrite decide_True, <- Hat by done.
Qed.

(** ** A blocked system call *)

Definition blocked_ignores f s : bool :=
  let q := g_runqueue s in
  (q_active q =? 0) || (q_task_count q <=? q_current_task q)
  || ((t_frame_valid (task_in q (q_current_task q)) =? 0)
      || negb (t_state (task_in q (q_current_task q)) =? SCHEDULER64_TASK_BLOCKED) || negb (user_cs f)).

(** The tasks with the frame of the blocked one saved. *)
Definition parked f s : list scheduler64_task :=
  alter (preempted f (fs_base_msr s)) (Z.to_nat (q_current_task (g_runqueue s))) (q_tasks (g_runqueue s)).

(** The queue stays as it is, the current task off the processor. *)
Record stays (ts : list scheduler64_task) s s' : Prop := {
  st_queue : (q_active (g_runqueue s'), q_task_count (g_runqueue s'), q_current_task (g_runqueue s')) =
             (q_active (g_runqueue s), q_task_count (g_runqueue s), q_current_task (g_runqueue s));
  st_tasks : q_tasks (g_runqueue s') = ts;
  st_sleep : g_scheduler64_sleep_queue s' = g_scheduler64_sleep_queue s;
  st_processes : sched_processes s' = sched_processes s;
  st_paging : PagingFacts.pcore (sched_paging s') = PagingFacts.pcore (sched_paging s);
  st_cr3 : Paging.cr3 (sched_paging s') = Paging.cr3 (sched_paging s) }.

Inductive blocked_result s f : Z -> interrupt_frame64 -> sched_state W -> Prop :=
| blocked_ignored : blocked_ignores f s = true -> blocked_result s f 0 f s
| blocked_stays s' :
    blocked_ignores f s = false -> stuck (parked f s) s -> stays (parked f s) s s' -> blocked_result s f 0 f s'
| blocked_switched next f' s' s4 :
    blocked_ignores f s = false -> handed (parked f s) next s s' ->
    delivered s4 (t_pid (task_in (with_tasks s (parked f s)) next)) (t_frame (task_in (with_tasks s (parked f s)) next)) f' ->
    blocked_result s f 1 f' s'.

(** A queue that stays keeps the invariant, while its current task is live. *)
Lemma stays_ok ts s s' :
  sched_ok s -> q_ok (g_runqueue s') -> stays ts s s' -> 0 <= g_scheduler64_preferred_task s' ->
  t_pid (task_at s' (q_current_task (g_runqueue s))) = current_pid s -> sched_ok s'.
Proof.
  intros [S1 S2 S3 S4 S5 S6] Hq [[= A1 A2 A3] A4 A5 A6 A7 A8] Hp Hpid. split; try congruence.
  - by eapply PagingFacts.pg_inv_core.
  - intros Ha. replace (current_pid s') with (current_pid s) by (unfold current_pid at 2; by rewrite A3).
    rewrite A6. apply (cr3_core _ (sched_paging s)); [done|done|]. apply S6. by rewrite <- A1.
Qed.

Lemma wp_if_or {S A} (a b : bool) (m k : ST S A) Q (s : S) :
  wp (if a || b then m else k) Q s -> wp (if a then m else if b then m else k) Q s.
Proof. by destruct a, b. Qed.

Lemma blocked_active f s : sched_ok s -> blocked_ignores f s = false ->
  q_active (g_runqueue s) <> 0 /\ 0 <= q_current_task (g_runqueue s) < q_task_count (g_runqueue s) /\
  t_state (task_at s (q_current_task (g_runqueue s))) = SCHEDULER64_TASK_BLOCKED.
Proof.
  intros Hok [[Ha _]%orb_false_iff [[_ Hst]%orb_false_iff _]%orb_false_iff]%orb_false_iff. apply Z.eqb_neq in Ha.
  apply negb_false_iff, Z.eqb_eq in Hst. split_and!; try done; by apply (q_cur _ (so_queue _ Hok)).
Qed.

(** Up to the choice: the frame of the blocked task is saved. *)
Lemma park_wp {A} f s (k : ST (sched_state W) A) Q :
  sched_ok s -> blocked_ignores f s = false ->
  (forall s1, shifted (fun _ => parked f s) s s1 -> sched_mid s1 -> wp k Q s1) ->
  wp (save_frame (q_current_task (g_runqueue s)) f ;;;
      scheduler64_save_fs_base_for_task (q_current_task (g_runqueue s)) ;;;
      set_selectors f ;;; k) Q s.
Proof.
  intros Hok Hg HQ. destruct (blocked_active f s Hok Hg) as (Ha & Hi & Hst).
  apply wp_bind, shift_task. intros s1 H1. apply wp_bind, save_fs_wp. intros s2 H2. apply wp_bind, shift_rq; [done|]. intros s3 H3.
  pose proof (shifted_trans _ _ _ _ _ (shifted_trans _ _ _ _ _ H1 H2) H3) as H.
  pose proof (sh_rest _ _ _ H1) as [= _ _ _ _ E _]. rewrite E in H.
  apply (shifted_ext _ (fun _ => parked f s)) in H.
  - apply HQ; [done|]. pose proof H as [[= A1 A2 A3 A4] A5 _]. destruct Hok. eapply shifted_mid; [done..|].
    eapply q_idle_alter; [done|done|by split|done|apply preempted_off].
  - unfold id. rewrite alter_twice. apply list_alter_ext; [|done]. intros t Ht.
    rewrite (task_in_lookup _ _ (q_is_base _ (so_queue _ Hok)) Hi) in Ht. injection Ht as <-. unfold preempted. simpl.
    unfold task_at in Hst. rewrite Hst. by destruct (task_in _ _).
Qed.

Lemma parked_stays_ok f s s4 : sched_ok s -> blocked_ignores f s = false ->
  stays (parked f s) s s4 -> 0 <= g_scheduler64_preferred_task s4 -> sched_ok s4.
Proof.
  intros Hok Hg Hs Hp. destruct (blocked_active f s Hok Hg) as (Ha & Hi & Hst). pose proof Hs as [[= B1 B2 B3] B4 _ _ _ _].
  assert (Halt : altered (q_current_task (g_runqueue s)) (preempted f (fs_base_msr s)) (g_runqueue s) (g_runqueue s4)) by (by split).
  apply (stays_ok (parked f s) s); try done.
  - apply (q_ok_alter (q_current_task (g_runqueue s)) (preempted f (fs_base_msr s)) (g_runqueue s)); try done.
    + apply Hok.
    + intros _. rewrite preempted_live. by apply (q_cur _ (so_queue _ Hok)).
    + by rewrite preempted_off.
  - unfold task_at. rewrite (altered_task _ _ _ _ (q_is_base _ (so_queue _ Hok)) Halt Hi). done.
Qed.

Lemma blocked_wp s f : sched_ok s ->
  wp (scheduler64_runqueue_on_blocked_syscall f) (fun r s' => blocked_result s f (fst r) (snd r) s' /\ sched_ok s') s.
Proof.
  intros Hok. apply wp_bind, wp_gets. cbv zeta. apply wp_if_or.
  match goal with |- wp (if ?b then _ else _) _ _ => change b with (blocked_ignores f s) end.
  destruct (blocked_ignores f s) eqn:Hg; [apply wp_ret; split; [by apply blocked_ignored|done]|].
  destruct (blocked_active f s Hok Hg) as (Ha & Hi & Hst).
  apply park_wp; [done|done|]. intros s1 H1 Hm.
  assert (Hden : forall s3 pg, stuck (parked f s) s -> chosen (parked f s) s s3 -> PagingFacts.pcore pg = PagingFacts.pcore (sched_paging s) ->
    Paging.cr3 pg = Paging.cr3 (sched_paging s) ->
    wp (count_block_denial ;;; ret (0, f)) (fun r s' => blocked_result s f (fst r) (snd r) s' /\ sched_ok s') (s3 <| sched_paging := pg |>)).
  { intros s3 pg Hst' [[= B1 B2 B3] B4 B5 [= B6 B7 B8 B9] Hm3] Hc H3. apply wp_bind, shift_rq; [done|].
    intros s4 [[= C1 C2 C3 C4] C5 [= C6 C7 C8 C9 C10]]. apply wp_ret. simpl in *.
    assert (Hs : stays (parked f s) s s4) by (split; unfold id in *; congruence).
    split; [by apply blocked_stays|]. apply (parked_stays_ok f s); try done. by rewrite C7, B5. }
  apply (hand_over_wp 1 SCHEDULER64_CR3_REASON_BLOCKED_SYSCALL (parked f s)); try done.
  - intros Hst' s3 Hch. pose proof Hch as [_ _ _ [= _ _ B8 _] _]. rewrite <- (paging_same s3). by apply Hden; rewrite ?B8.
  - intros Hst' s3 pg Hch Hc H3. by apply Hden.
  - intros next f' s' s4 Hh Hok' Hd. split; [by eapply blocked_switched|done].
Qed.

(** ** An exit *)

Definition exit_ignores s : bool :=
  (q_active (g_runqueue s) =? 0) || (q_task_count (g_runqueue s) <=? q_current_task (g_runqueue s)).

(** The task that exits. *)
Definition ended (result base : Z) t : scheduler64_task :=
  t <| t_state := SCHEDULER64_TASK_EXITED |> <| t_result := result |> <| t_fs_base := base |> <| t_exits := inc32 (t_exits t) |>.
Definition after_exit (result : Z) s : list scheduler64_task :=
  alter (ended result (fs_base_msr s)) (Z.to_nat (q_current_task (g_runqueue s))) (q_tasks (g_runqueue s)).

(** The queue is left. *)
Record left_queue (ts : list scheduler64_task) (result : Z) s s' : Prop := {
  lq_queue : (q_active (g_runqueue s'), q_task_count (g_runqueue s'), q_result (g_runqueue s')) = (0, q_task_count (g_runqueue s), result);
  lq_tasks : q_tasks (g_runqueue s') = ts;
  lq_processes : sched_processes s' = sched_processes s;
  lq_paging : PagingFacts.pcore (sched_paging s') = PagingFacts.pcore (sched_paging s);
  lq_cr3 : Paging.cr3 (sched_paging s') = Paging.g_paging64_kernel_root_physical (sched_paging s) }.

Inductive exit_result s f (result : Z) : Z -> interrupt_frame64 -> sched_state W -> Prop :=
| exit_ignored : exit_ignores s = true -> exit_result s f result SCHEDULER64_RUNQUEUE_EXIT_NONE f s
| exit_complete s' :
    exit_ignores s = false -> stuck (after_exit result s) s -> left_queue (after_exit result s) result s s' ->
    exit_result s f result SCHEDULER64_RUNQUEUE_EXIT_COMPLETE f s'
| exit_resumed next f' s' s4 :
    exit_ignores s = false -> handed (after_exit result s) next s s' ->
    delivered s4 (t_pid (task_in (with_tasks s (after_exit result s)) next)) (t_frame (task_in (with_tasks s (after_exit result s)) next)) f' ->
    exit_result s f result SCHEDULER64_RUNQUEUE_EXIT_RESUMED f' s'.

Lemma wp_bind_eq {S A B} (m : ST S A) (k k' : A -> ST S B) Q (s : S) :
  (forall a st, k a st = k' a st) -> wp (bind m k') Q s -> wp (bind m k) Q s.
Proof. intros E. unfold wp, bind. by rewrite E. Qed.

Lemma exit_active s : sched_ok s -> exit_ignores s = false ->
  q_active (g_runqueue s) <> 0 /\ 0 <= q_current_task (g_runqueue s) < q_task_count (g_runqueue s).
Proof. intros Hok [Ha _]%orb_false_iff. apply Z.eqb_neq in Ha. split; [done|]. by apply (q_cur _ (so_queue _ Hok)). Qed.

(** Up to the choice. *)
Lemma end_wp {A} f result s (k : ST (sched_state W) A) Q :
  sched_ok s -> exit_ignores s = false ->
  (forall s1, shifted (fun _ => after_exit result s) s s1 -> sched_mid s1 -> wp k Q s1) ->
  wp (update_task (q_current_task (g_runqueue s)) (fun t => t <| t_state := SCHEDULER64_TASK_EXITED |> <| t_result := result |>) ;;;
      scheduler64_save_fs_base_for_task (q_current_task (g_runqueue s)) ;;;
      update_task (q_current_task (g_runqueue s)) (fun t => t <| t_exits := inc32 (t_exits t) |>) ;;;
      rq (fun q => q <| q_exits := inc32 (q_exits q) |>) ;;;
      set_selectors f ;;; k) Q s.
Proof.
  intros Hok Hg HQ. destruct (exit_active s Hok Hg) as (Ha & Hi).
  apply wp_bind, shift_task. intros s1 H1. apply wp_bind, save_fs_wp. intros s2 H2. apply wp_bind, shift_task. intros s3 H3.
  apply wp_bind, shift_rq; [done|]. intros s4 H4. apply wp_bind, shift_rq; [done|]. intros s5 H5.
  pose proof (shifted_trans _ _ _ _ _ (shifted_trans _ _ _ _ _ (shifted_trans _ _ _ _ _ (shifted_trans _ _ _ _ _ H1 H2) H3) H4) H5) as H.
  pose proof (sh_rest _ _ _ H1) as [= _ _ _ _ E _]. rewrite E in H.
  apply (shifted_ext _ (fun _ => after_exit result s)) in H; [|unfold id; by rewrite !alter_twice].
  apply HQ; [done|]. pose proof H as [[= A1 A2 A3 A4] A5 _]. destruct Hok. eapply shifted_mid; [done..|].
  apply (q_idle_alter (ended result (fs_base_msr s)) (g_runqueue s)); try done.
Qed.

(** The queue is left with CR3 back at the kernel's root. *)
Lemma left_ok ts result s s' : sched_ok s -> q_base (g_runqueue s') -> left_queue ts result s s' ->
  sleep_ok (q_task_count (g_runqueue s)) (g_scheduler64_sleep_queue s') -> 0 <= g_scheduler64_preferred_task s' -> sched_ok s'.
Proof.
  intros [S1 S2 S3 S4 S5 S6] Hb [[= A1 A2 A3] A4 A5 A6 A7] Hs Hp. split; try congruence.
  - by apply (q_ok_inactive (g_runqueue s')).
  - by eapply PagingFacts.pg_inv_core.
Qed.

Lemma exit_wp s f result : sched_ok s ->
  wp (scheduler64_runqueue_on_exit f result) (fun r s' => exit_result s f result (fst r) (snd r) s' /\ sched_ok s') s.
Proof.
  intros Hok. apply wp_bind, wp_gets. cbv zeta.
  match goal with |- wp (if ?b then _ else _) _ _ => change b with (exit_ignores s) end.
  destruct (exit_ignores s) eqn:Hg; [apply wp_ret; split; [by apply exit_ignored|done]|].
  destruct (exit_active s Hok Hg) as (Ha & Hi). apply end_wp; [done|done|]. intros s1 H1 Hm.
  assert (Hleft : forall s3 s', chosen (after_exit result s) s s3 -> stuck (after_exit result s) s ->
    (q_active (g_runqueue s'), q_task_count (g_runqueue s'), q_result (g_runqueue s')) = (0, q_task_count (g_runqueue s), result) ->
    q_tasks (g_runqueue s') = q_tasks (g_runqueue s3) -> sched_processes s' = sched_processes s ->
    PagingFacts.pcore (sched_paging s') = PagingFacts.pcore (sched_paging s) ->
    Paging.cr3 (sched_paging s') = Paging.g_paging64_kernel_root_physical (sched_paging s) ->
    g_scheduler64_sleep_queue s' = g_scheduler64_sleep_queue s3 -> g_scheduler64_preferred_task s' = g_scheduler64_preferred_task s3 ->
    exit_result s f result SCHEDULER64_RUNQUEUE_EXIT_COMPLETE f s' /\ sched_ok s').
  { intros s3 s' [[= B1 B2 B3] B4 B5 [= B6 B7 B8 B9] Hm3] Hst C1 C2 C3 C4 C5 C6 C7. injection C1 as D1 D2 D3.
    assert (Hl : left_queue (after_exit result s) result s s') by (split; congruence). split; [by apply exit_complete|].
    apply (left_ok (after_exit result s) result s); try done.
    - eapply q_idle_core, sm_queue, Hm3; congruence.
    - rewrite C6, B6. apply Hok.
    - rewrite C7, B5. done. }
  apply (wp_bind_eq _ _ (fun next => if next =? SCHEDULER64_INVALID_TASK then
      leave_queue result ;;; scheduler64_switch_cr3_to_kernel SCHEDULER64_CR3_REASON_EXIT_KERNEL ;;; write_fs_base64 0 ;;;
      ret (SCHEDULER64_RUNQUEUE_EXIT_COMPLETE, f)
    else switched <- scheduler64_switch_cr3_for_task next SCHEDULER64_CR3_REASON_EXIT_RESUME ;;
      if switched =? 0 then
        scheduler64_switch_cr3_to_kernel SCHEDULER64_CR3_REASON_EXIT_KERNEL ;;; leave_queue result ;;;
        ret (SCHEDULER64_RUNQUEUE_EXIT_COMPLETE, f)
      else bind (dispatch next) (resume_tail SCHEDULER64_RUNQUEUE_EXIT_RESUMED next))).
  { intros next st. by destruct (next =? SCHEDULER64_INVALID_TASK). }
  apply (hand_over_wp _ SCHEDULER64_CR3_REASON_EXIT_RESUME (after_exit result s)); try done.
  - intros Hst s3 Hch. pose proof Hch as [[= B1 B2 B3] B4 B5 [= B6 B7 B8 B9] Hm3].
    apply wp_bind, wp_modify, wp_bind, switch_kernel_queue_wp; [apply Hm3|]. intros pg Hc H3. apply wp_bind, wp_modify, wp_ret.
    apply (Hleft s3); try done; simpl in *; congruence.
  - intros Hst s3 pg Hch Hc H3. pose proof Hch as [[= B1 B2 B3] B4 B5 [= B6 B7 B8 B9] Hm3].
    apply wp_bind, switch_kernel_queue_wp; [simpl; eapply PagingFacts.pg_inv_core; [exact Hc|]; apply Hok|].
    intros pg' Hc' H3'. apply wp_bind, wp_modify, wp_ret. simpl in *.
    apply (Hleft s3); try done; simpl; try congruence. rewrite H3'. apply PagingFacts.pcore_inj in Hc. apply Hc.
  - intros next f' s' s4 Hh Hok' Hd. split; [by eapply exit_resumed|done].
Qed.

End calls.

End SchedCalls.
