(* ===== verification/SchedQueue.v ===== *)
(** * Starting, registering, blocking, waking and sleeping

    The calls of scheduler.c that do not change the running task by
    themselves, or that put the first one on the processor. *)

From S2P Require Import Prelude Principal Services64 Process ProcessFacts Paging PagingFacts PagingOps PagingRoots Scheduler SchedFacts SchedOps SchedSteps SchedCalls.
Import Scheduler SchedFacts SchedOps SchedSteps SchedCalls.
Local Open Scope Z_scope.
Local Open Scope kernel_scope.

Module SchedQueue.

Section calls.
Context {W : Type} {world : SchedWorld W} {launch : Process.LaunchEnv} {symbols : Paging.PagingSymbols} {layout : PagingFacts.PagingLayout}.
Implicit Types (s : sched_state W) (q : scheduler64_runqueue) (t : scheduler64_task) (f : interrupt_frame64).

(** A call that keeps the invariant. *)
Definition keeps {A} (m : ST (sched_state W) A) : Prop := forall s, sched_ok s -> wp m (fun _ s' => sched_ok s') s.

(** ** Changes of tasks that keep the current one *)

Lemma shifted_ok g s s' :
  sched_ok s -> shifted g s s' -> q_ok (g_runqueue s') ->
  t_pid (task_at s' (q_current_task (g_runqueue s))) = current_pid s -> sched_ok s'.
Proof.
  intros [S1 S2 S3 S4 S5 S6] [[= A1 A2 A3 A4] A5 [= A6 A7 A8 A9 A10]] Hq Hp. split; try congruence.
  intros Ha. unfold current_pid. rewrite A3, Hp, A8, A9. apply S6. by rewrite <- A1.
Qed.

(** A change of task [i] that keeps its process, and its life when it is the
    current one. *)
Lemma shifted_task_ok i g s s' :
  sched_ok s -> shifted (alter g (Z.to_nat i)) s s' -> 0 <= i < q_task_count (g_runqueue s) ->
  t_pid (g (task_at s i)) = t_pid (task_at s i) ->
  (live (g (task_at s i)) = true -> t_frame_valid (g (task_at s i)) <> 0) ->
  (q_active (g_runqueue s) <> 0 -> q_current_task (g_runqueue s) = i -> live (g (task_at s i)) = true) ->
  (running (g (task_at s i)) = true -> running (task_at s i) = true) -> sched_ok s'.
Proof.
  intros Hok Hs Hi Hp Hf Hl Hr. pose proof Hs as [[= A1 A2 A3 A4] A5 _]. pose proof (so_queue _ Hok) as Hq.
  assert (Halt : altered i g (g_runqueue s) (g_runqueue s')) by (by split).
  assert (Hpid : t_pid (task_in (g_runqueue s') i) = t_pid (task_in (g_runqueue s) i)).
  { by rewrite (altered_task i g _ _ (q_is_base _ Hq) Halt Hi). }
  assert (Hq' : q_ok (g_runqueue s')).
  { destruct (decide (q_active (g_runqueue s) = 0)) as [E|E].
    - apply (q_ok_inactive (g_runqueue s')); try done; [|by rewrite A1]. apply (q_base_alter i g (g_runqueue s)); try done. apply Hq.
    - apply (q_ok_alter i g (g_runqueue s)); try done. by apply Hl. }
  destruct (decide (q_active (g_runqueue s) = 0)) as [E|E].
  - destruct Hok as [S1 S2 S3 S4 S5 S6]. pose proof Hs as [_ _ [= A6 A7 A8 A9 A10]]. split; try congruence.
  - apply (shifted_ok _ s s' Hok Hs Hq'). unfold current_pid, task_at.
    destruct (decide (q_current_task (g_runqueue s) = i)) as [->|Hne]; [done|].
    destruct (q_cur _ Hq E) as [Hc _]. rewrite (altered_other i g (g_runqueue s)); (done || lia).
Qed.

Lemma shifted_id_ok s s' : sched_ok s -> shifted id s s' -> sched_ok s'.
Proof.
  intros Hok [[= A1 A2 A3 A4] A5 [= A6 A7 A8 A9 A10]]. eapply sched_ok_core, Hok.
  unfold sched_core, q_core, machine. unfold id in A5. by rewrite A1, A2, A3, A5, A6, A7, A8, A9.
Qed.

(** ** Blocking *)

Definition block_refused q i : bool :=
  let t := task_in q i in
  (q_task_count q <=? i) || (t_frame_valid t =? 0) || (t_state t =? SCHEDULER64_TASK_UNUSED)
  || (t_state t =? SCHEDULER64_TASK_EXITED) || (t_state t =? SCHEDULER64_TASK_BLOCKED).

(** A running task may block only if it is the current one and another can
    take over. *)
Definition block_alone s i : Prop :=
  running (task_at s i) = true /\
  (q_active (g_runqueue s) = 0 \/ q_current_task (g_runqueue s) <> i \/
   choice (g_runqueue s) (g_scheduler64_preferred_task s) i = SCHEDULER64_INVALID_TASK).

Definition set_blocked t : scheduler64_task := t <| t_state := SCHEDULER64_TASK_BLOCKED |>.

(** Everything but the queue and the preference. *)
Definition rest s := (g_scheduler64_sleep_queue s, machine s, fs_base_msr s).
(** Everything of the queue but the tasks. *)
Definition q_frame q := (q_active q, q_task_count q, q_current_task q, q_switches q).

Inductive block_result s i : Z -> sched_state W -> Prop :=
| block_denied s' :
    block_refused (g_runqueue s) i = true \/ block_alone s i ->
    q_tasks (g_runqueue s') = q_tasks (g_runqueue s) -> q_frame (g_runqueue s') = q_frame (g_runqueue s) -> rest s' = rest s ->
    block_result s i 0 s'
| block_done s' :
    block_refused (g_runqueue s) i = false -> ~ block_alone s i ->
    q_tasks (g_runqueue s') = alter set_blocked (Z.to_nat i) (q_tasks (g_runqueue s)) ->
    q_frame (g_runqueue s') = q_frame (g_runqueue s) -> rest s' = rest s -> block_result s i 1 s'.

Lemma set_preferred_ok s v : sched_ok s -> 0 <= v -> sched_ok (s <| g_scheduler64_preferred_task := v |>).
Proof. intros [S1 S2 S3 S4 S5 S6] Hv. by split. Qed.

Lemma block_wp s i : sched_ok s -> 0 <= i -> wp (scheduler64_runqueue_block_task i) (fun v s' => block_result s i v s' /\ sched_ok s') s.
Proof.
  intros Hok H0. apply wp_bind, wp_gets. cbv zeta.
  match goal with |- wp (if ?b then _ else _) _ _ => change b with (block_refused (g_runqueue s) i) end.
  assert (Hden : forall st, sched_ok st -> g_runqueue st = g_runqueue s -> rest st = rest s ->
    block_refused (g_runqueue s) i = true \/ block_alone s i ->
    wp (count_block_denial ;;; ret 0) (fun v s' => block_result s i v s' /\ sched_ok s') st).
  { intros st Hst E Er Hwhy. apply wp_bind, shift_rq; [done|]. intros s' Hs. apply wp_ret. split; [|by eapply shifted_id_ok].
    pose proof Hs as [[= A1 A2 A3 A4] A5 [= A6 A7 A8 A9 A10]]. unfold id in A5.
    apply block_denied; [done|by rewrite A5, E|unfold q_frame; by rewrite A1, A2, A3, A4, E|].
    rewrite <- Er. unfold rest, machine. by rewrite A6, A8, A9, A10. }
  destruct (block_refused (g_runqueue s) i) eqn:Eg; [by apply Hden; [..|left]|].
  assert (Hdone : forall st, sched_ok st -> g_runqueue st = g_runqueue s -> rest st = rest s -> ~ block_alone s i ->
    wp (update_task i set_blocked ;;; rq (fun q => q <| q_blocks := inc32 (q_blocks q) |>) ;;; ret 1)
      (fun v s' => block_result s i v s' /\ sched_ok s') st).
  { intros st Hst E Er Hno. apply wp_bind, shift_task. intros s1 H1. apply wp_bind, shift_rq; [done|]. intros s2 H2. apply wp_ret.
    pose proof (shifted_trans _ _ _ _ _ H1 H2) as [[= A1 A2 A3 A4] A5 [= A6 A7 A8 A9 A10 _]]. unfold id in A5. split.
    - apply block_done; [done|done|by rewrite A5, E|unfold q_frame; by rewrite A1, A2, A3, A4, E|].
      rewrite <- Er. unfold rest, machine. by rewrite A6, A8, A9, A10.
    - eapply shifted_id_ok, H2. unfold block_refused in Eg. rewrite !orb_false_iff, Z.leb_gt in Eg. destruct Eg as [[[[E1 E2%Z.eqb_neq] _] _] _].
      apply (shifted_task_ok i set_blocked st); try done; unfold task_at; rewrite ?E; try done; try lia. }
  unfold block_alone in *. apply wp_bind. destruct (t_state (task_in (g_runqueue s) i) =? SCHEDULER64_TASK_RUNNING) eqn:Er.
  - destruct (_ || _) eqn:Ec.
    { apply wp_ret, Hden; try done. right. split; [done|]. apply orb_true_iff in Ec as [Ec%Z.eqb_eq|Ec]; [by left|right; left].
      by apply negb_true_iff, Z.eqb_neq in Ec. }
    apply orb_false_iff in Ec as [Ea%Z.eqb_neq Eb]. apply negb_false_iff, Z.eqb_eq in Eb.
    destruct (q_cur _ (so_queue _ Hok) Ea) as [Hc _].
    apply wp_bind, next_runnable_wp; [intros; lia|]. intros _. apply wp_ret.
    destruct (Z.eqb_spec (choice (g_runqueue s) (g_scheduler64_preferred_task s) i) SCHEDULER64_INVALID_TASK) as [En|En].
    + apply Hden; [by apply set_preferred_ok|done|done|]. right. split; [done|]. right. by right.
    + apply Hdone; [by apply set_preferred_ok|done|done|]. intros [_ [?|[?|?]]]; congruence.
  - apply wp_ret, Hdone; try done. intros [Hr _]. unfold running, task_at in Hr. congruence.
Qed.

(** ** Waking *)

Lemma wake_live q i : q_base q -> 0 <= i -> wake_refused q i = false ->
  0 <= i < q_task_count q /\ t_state (task_in q i) = SCHEDULER64_TASK_BLOCKED /\ t_frame_valid (task_in q i) <> 0.
Proof.
  unfold wake_refused. rewrite !orb_false_iff, Z.leb_gt, negb_false_iff, Z.eqb_eq, Z.eqb_neq. intros _ H [[H1 H2] H3]. split_and!; try done.
Qed.

(** Task [i] was blocked and is ready, with the frame changed by [g]; it is
    preferred. *)
Inductive wake_result (g : interrupt_frame64 -> interrupt_frame64) s i : Z -> sched_state W -> Prop :=
| wake_denied s' :
    wake_refused (g_runqueue s) i = true ->
    q_tasks (g_runqueue s') = q_tasks (g_runqueue s) -> q_frame (g_runqueue s') = q_frame (g_runqueue s) -> rest s' = rest s ->
    g_scheduler64_preferred_task s' = g_scheduler64_preferred_task s -> wake_result g s i 0 s'
| wake_done s' :
    wake_refused (g_runqueue s) i = false ->
    q_tasks (g_runqueue s') = alter (fun t => t <| t_frame := g (t_frame t) |> <| t_state := SCHEDULER64_TASK_READY |>)
      (Z.to_nat i) (q_tasks (g_runqueue s)) ->
    q_frame (g_runqueue s') = q_frame (g_runqueue s) -> rest s' = rest s ->
    g_scheduler64_preferred_task s' = i -> wake_result g s i 1 s'.

Lemma wake_denied_wp g s i : sched_ok s -> wake_refused (g_runqueue s) i = true ->
  wp (count_block_denial ;;; ret 0) (fun v s' => wake_result g s i v s' /\ sched_ok s') s.
Proof.
  intros Hok Hw. apply wp_bind, shift_rq; [done|]. intros s' Hs. apply wp_ret. split; [|by eapply shifted_id_ok].
  destruct Hs as [[= A1 A2 A3 A4] A5 [= A6 A7 A8 A9 A10]]. apply wake_denied; try done.
  - unfold q_frame. by rewrite A1, A2, A3, A4.
  - unfold rest, machine. by rewrite A6, A8, A9, A10.
Qed.

Lemma wake_done_ok g s i s' : sched_ok s -> 0 <= i -> wake_refused (g_runqueue s) i = false ->
  shifted (alter (fun t => t <| t_frame := g (t_frame t) |> <| t_state := SCHEDULER64_TASK_READY |>) (Z.to_nat i)) s s' ->
  wp (set_preferred i ;;; rq (fun q => q <| q_wakes := inc32 (q_wakes q) |>)) (fun _ s'' => wake_result g s i 1 s'' /\ sched_ok s'') s'.
Proof.
  intros Hok H0 Hw Hs. destruct (wake_live _ _ (q_is_base _ (so_queue _ Hok)) H0 Hw) as (Hi & Hst & Hv).
  pose proof (shifted_task_ok i _ s s' Hok Hs Hi eq_refl (fun _ => Hv) (fun _ _ => eq_refl) ltac:(done)) as Hok1.
  pose proof Hs as [[= A1 A2 A3 A4] A5 [= A6 A7 A8 A9 A10]].
  apply wp_bind, wp_modify, shift_rq; [done|]. intros s2 H2. pose proof (set_preferred_ok s' i Hok1 H0) as Hok2. split; [|by eapply shifted_id_ok].
  destruct H2 as [[= B1 B2 B3 B4] B5 [= B6 B7 B8 B9 B10]]. simpl in *. apply wake_done; try done.
  - rewrite B5. exact A5.
  - unfold q_frame. congruence.
  - unfold rest, machine. congruence.
Qed.

Lemma wake_with_wp s i r : sched_ok s -> 0 <= i ->
  wp (scheduler64_runqueue_wake_task_with_result i r) (fun v s' => wake_result (fun f => f <| rax := r |>) s i v s' /\ sched_ok s') s.
Proof.
  intros Hok H0. apply wp_bind, wp_gets. destruct (wake_refused (g_runqueue s) i) eqn:Hw; [by apply wake_denied_wp|].
  apply wp_bind, shift_task. intros s1 H1. apply wp_bind, wp_bind, shift_task. intros s2 H2.
  eapply wp_mono; [apply (wake_done_ok (fun f => f <| rax := r |>) s i s2)|by intros u s' H; apply wp_ret]; try done.
  eapply shifted_ext; [|exact (shifted_trans _ _ _ _ _ H1 H2)]. simpl. by rewrite alter_twice.
Qed.

Lemma wake_replay_wp s i : sched_ok s -> 0 <= i ->
  wp (scheduler64_runqueue_wake_task_replay i) (fun v s' => wake_result id s i v s' /\ sched_ok s') s.
Proof.
  intros Hok H0. apply wp_bind, wp_gets. destruct (wake_refused (g_runqueue s) i) eqn:Hw; [by apply wake_denied_wp|].
  apply wp_bind, wp_bind, shift_task. intros s1 H1.
  eapply wp_mono; [apply (wake_done_ok id s i s1)|by intros u s' H; apply wp_ret]; try done.
Qed.

(** ** FS base *)

Lemma set_fs_ok i base : 0 <= i -> keeps (scheduler64_runqueue_set_task_fs_base i base).
Proof.
  intros H0 s Hok. apply wp_bind, wp_gets. destruct (_ || _ || _) eqn:E; [by apply wp_ret|].
  apply orb_false_iff in E as [[E1%Z.leb_gt E2%Z.eqb_neq]%orb_false_iff _].
  apply wp_bind, shift_task. intros s1 H1.
  assert (Hok1 : sched_ok s1).
  { apply (shifted_task_ok i (fun t => t <| t_fs_base := base |>) s); try done.
    intros Ha E. destruct (q_cur _ (so_queue _ Hok) Ha) as [_ Hl]. by rewrite E in Hl. }
  apply wp_bind, (shift_modify _ id); [done|]. intros s2 H2. pose proof (shifted_id_ok s1 s2 Hok1 H2) as Hok2.
  apply wp_bind. case_match; [apply wp_modify|]; apply wp_ret; [|done]. by destruct Hok2; split.
Qed.

(** ** Registering *)

(** Slot [i] is free: unused or exited, or the first past the count. *)
Definition free_slot q i : Prop :=
  0 <= i < Z.of_nat LIMIT /\ (i = q_task_count q \/ i < q_task_count q /\ live (task_in q i) = false).

Lemma allocate_spec q : q_base q ->
  scheduler64_allocate_task_slot q = SCHEDULER64_INVALID_TASK \/ free_slot q (scheduler64_allocate_task_slot q).
Proof.
  intros Hb. pose proof (qb_count q Hb) as Hc. unfold scheduler64_allocate_task_slot. destruct (find_index _ _) as [i|] eqn:E.
  - right. apply find_index_lookup in E as (t & Ht & Hp). apply lookup_take_Some in Ht as [Ht Hi].
    split; [lia|right]. split; [lia|]. unfold task_in. rewrite Nat2Z.id, Ht. simpl. unfold live.
    by apply orb_true_iff in Hp as [E%Z.eqb_eq|E%Z.eqb_eq]; rewrite E.
  - destruct (Z.leb_spec (Z.of_nat SCHEDULER64_RUNQUEUE_TASK_LIMIT) (q_task_count q)); [by left|right]. unfold free_slot. lia.
Qed.

Lemma free_valid q i : free_slot q i -> i <> SCHEDULER64_INVALID_TASK.
Proof. intros [Hi _]. unfold SCHEDULER64_INVALID_TASK, LIMIT in *. lia. Qed.

(** A new task in slot [i]. *)
Definition enrolled (i : Z) t q : scheduler64_runqueue :=
  q <| q_tasks := alter (fun _ => t) (Z.to_nat i) (q_tasks q) |>
    <| q_task_count := if i =? q_task_count q then inc32 (q_task_count q) else q_task_count q |>.

Lemma enrolled_count i t q : q_base q -> free_slot q i ->
  q_task_count (enrolled i t q) = Z.max (q_task_count q) (i + 1) /\ q_task_count (enrolled i t q) <= Z.of_nat LIMIT.
Proof.
  intros Hb [Hi Hf]. pose proof (qb_count q Hb). simpl. unfold LIMIT in *. destruct (Z.eqb_spec i (q_task_count q)) as [->|Hne]; [|lia].
  rewrite inc32_small by (unfold U32_MAX; lia). lia.
Qed.

Lemma enrolled_lookup i t q j x : 0 <= i -> q_tasks (enrolled i t q) !! j = Some x ->
  (j = Z.to_nat i /\ x = t) \/ (Z.of_nat j <> i /\ q_tasks q !! j = Some x).
Proof.
  intros Hi Hj. simpl in Hj. apply lookup_alter_Some in Hj as (y & Hy & ->). case_decide as E; [left|right]; [done|]. split; [lia|done].
Qed.

Lemma enrolled_ok i t q :
  q_ok q -> free_slot q i -> t_state t = SCHEDULER64_TASK_READY -> t_frame_valid t <> 0 -> q_ok (enrolled i t q).
Proof.
  intros [Hb Hcur Hone] Hf Hs Hv. pose proof Hf as [Hi Hfree]. destruct (enrolled_count i t q Hb Hf) as [Ec Hl]. split; [split|..].
  - simpl. by rewrite length_alter, (qb_len q Hb).
  - pose proof (qb_count q Hb). lia.
  - rewrite Ec. intros j x [[-> ->]|[Hne Hj]]%enrolled_lookup Hp; [lia| |lia]. apply (qb_past q Hb j); [done|lia].
  - intros j x [[-> ->]|[Hne Hj]]%enrolled_lookup; [done| |lia]. by apply (qb_frame q Hb j).
  - intros Ha. destruct (Hcur Ha) as [Hc Hlive]. rewrite Ec. change (q_current_task (enrolled i t q)) with (q_current_task q).
    assert (Hne : q_current_task q <> i).
    { intros E. destruct Hfree as [E'|[_ E']]; [lia|]. rewrite <- E in E'. congruence. }
    split; [lia|]. unfold task_in. simpl. rewrite list_lookup_alter_ne by lia. exact Hlive.
  - intros Ha j x [[-> ->]|[Hne Hj]]%enrolled_lookup Hr; [|by eapply Hone|lia]. unfold running in Hr. by rewrite Hs in Hr.
Qed.

(** The state after a registration. *)
Definition registered i t s s' : Prop :=
  g_runqueue s' = enrolled i t (g_runqueue s) /\ rest s' = rest s /\ g_scheduler64_preferred_task s' = g_scheduler64_preferred_task s.

Lemma registered_ok i t s s' :
  sched_ok s -> free_slot (g_runqueue s) i -> t_state t = SCHEDULER64_TASK_READY -> t_frame_valid t <> 0 -> registered i t s s' -> sched_ok s'.
Proof.
  intros Hok Hf Hs Hv (Eq & [= Es E1 E2 E3] & Ep). pose proof (so_queue _ Hok) as Hq. pose proof (q_is_base _ Hq) as Hb.
  destruct (enrolled_count i t _ Hb Hf) as [Ec _]. destruct Hf as [Hi Hfree]. destruct Hok as [S1 S2 S3 S4 S5 S6]. split; rewrite ?Es, ?E1, ?E2, ?Ep; try done.
  - rewrite Eq. by apply enrolled_ok.
  - rewrite Eq, Ec. eapply sleep_ok_mono, S2. lia.
  - rewrite Eq. simpl. intros Ha. replace (current_pid s') with (current_pid s); [by apply S6|].
    destruct (q_cur _ S1 Ha) as [Hc Hl]. unfold current_pid, task_at, task_in. rewrite Eq. simpl. rewrite list_lookup_alter_ne; [done|].
    destruct Hfree as [E|[_ E]]; [lia|]. intros E'. assert (i = q_current_task (g_runqueue s)) by lia. subst i. congruence.
Qed.

Lemma extend_wp i t s s1 (Q : unit -> sched_state W -> Prop) :
  shifted (alter (fun _ => t) (Z.to_nat i)) s s1 -> g_runqueue s1 = (g_runqueue s) <| q_tasks := q_tasks (g_runqueue s1) |> ->
  (forall s', registered i t s s' -> Q tt s') -> wp (extend_count i) Q s1.
Proof.
  intros [[= A1 A2 A3 A4] A5 [= A6 A7 A8 A9 A10]] E HQ. apply wp_modify, HQ. split_and!; simpl.
  - rewrite E. unfold enrolled. rewrite <- A5. simpl. by destruct (i =? q_task_count (g_runqueue s)); destruct (g_runqueue s).
  - unfold rest, machine. simpl. congruence.
  - done.
Qed.

Definition user_task (rip' rsp' selectors rflags' : Z) : scheduler64_task :=
  scheduler64_clear_task <| t_state := SCHEDULER64_TASK_READY |> <| t_frame_valid := 1 |>
    <| t_initial_rip := rip' |> <| t_initial_rsp := rsp' |>
    <| t_frame := scheduler64_prepare_user_frame rip' rsp' selectors rflags' |>.

Lemma enroll_wp i t s (Q : Z -> sched_state W -> Prop) :
  (forall s', registered i t s s' -> Q i s') -> wp (update_task i (fun _ => t) ;;; extend_count i ;;; ret i) Q s.
Proof.
  intros HQ. apply wp_bind, wp_modify, wp_bind. eapply (extend_wp i t s); [done|done|]. intros s' H. by apply wp_ret, HQ.
Qed.

Lemma register_user_wp rip' rsp' selectors rflags' s (Q : Z -> sched_state W -> Prop) :
  sched_ok s -> (scheduler64_allocate_task_slot (g_runqueue s) = SCHEDULER64_INVALID_TASK -> Q SCHEDULER64_INVALID_TASK s) ->
  (forall i s', free_slot (g_runqueue s) i -> registered i (user_task rip' rsp' selectors rflags') s s' -> Q i s') ->
  wp (scheduler64_runqueue_register_user_task rip' rsp' selectors rflags') Q s.
Proof.
  intros Hok H1 H2. apply wp_bind, wp_gets. pose proof (allocate_spec _ (q_is_base _ (so_queue _ Hok))) as Hsp.
  destruct (Z.eqb_spec (scheduler64_allocate_task_slot (g_runqueue s)) SCHEDULER64_INVALID_TASK) as [E|E]; [by apply wp_ret, H1|].
  destruct Hsp as [|Hf]; [done|]. apply enroll_wp. intros s' Hr. by apply H2.
Qed.

(** A registration is refused, or puts a ready task of process [pid] in a
    free slot. *)
Definition register_result (pid : Z) s (v : Z) s' : Prop :=
  v = SCHEDULER64_INVALID_TASK /\ sched_core s' = sched_core s \/
  exists t, free_slot (g_runqueue s) v /\ registered v t s s' /\ t_state t = SCHEDULER64_TASK_READY /\ t_frame_valid t <> 0 /\ t_pid t = pid.

Lemma register_result_ok pid s v s' : sched_ok s -> register_result pid s v s' -> sched_ok s'.
Proof.
  intros Hok [[_ Hc]|(t & Hf & Hr & Hs & Hv & _)]; [by eapply sched_ok_core|by eapply registered_ok].
Qed.

Lemma register_process_wp pid rt et rip' rsp' selectors rflags' s : sched_ok s ->
  wp (scheduler64_runqueue_register_process_task pid rt et rip' rsp' selectors rflags') (register_result pid s) s.
Proof.
  intros Hok. unfold scheduler64_runqueue_register_process_task. case_match; [by apply wp_ret; left|].
  apply wp_bind, register_user_wp; [done|by intros _; apply wp_ret; left|]. intros i s1 Hf (E1 & E2 & E3).
  rewrite (proj2 (Z.eqb_neq _ _)) by (by eapply free_valid). apply wp_bind, wp_modify, wp_ret. right.
  exists ((user_task rip' rsp' selectors rflags') <| t_pid := pid |> <| t_runtime_token := rt |> <| t_entry_token := et |>).
  split_and!; try done. simpl. rewrite E1. unfold enrolled. simpl. by rewrite alter_twice.
Qed.

Lemma register_frame_wp pid rt et f s : sched_ok s ->
  wp (scheduler64_runqueue_register_process_frame pid rt et f) (register_result pid s) s.
Proof.
  intros Hok. apply wp_bind, wp_gets. pose proof (allocate_spec _ (q_is_base _ (so_queue _ Hok))) as Hsp.
  destruct (_ || (scheduler64_allocate_task_slot (g_runqueue s) =? SCHEDULER64_INVALID_TASK)) eqn:E; [by apply wp_ret; left|].
  apply orb_false_iff in E as [_ E%Z.eqb_neq]. destruct Hsp as [|Hf]; [done|].
  apply enroll_wp. intros s' Hr. right. eexists. split_and!; [done|exact Hr|done..].
Qed.

(** Reading the process table changes nothing. *)
Lemma read_same {A} (d : A) g pid s (Q : A -> sched_state W -> Prop) :
  ProcFacts.pinv (sched_processes s) -> (forall v, Q v s) -> wp (on_processes (Process.read_field d g pid)) Q s.
Proof.
  intros Hp HQ. apply sched_processes_wp. eapply wp_mono; [by apply ProcFacts.read_field_wp|].
  intros v ps [-> _]. by rewrite processes_same.
Qed.

Lemma entry_ready_same pid s (Q : Z -> sched_state W -> Prop) :
  ProcFacts.pinv (sched_processes s) -> (forall v, Q v s) -> wp (on_processes (Process.process64_runtime_user_entry_ready pid)) Q s.
Proof.
  intros Hp HQ. apply sched_processes_wp, wp_bind.
  eapply wp_mono; [exact (ProcFacts.read_field_wp 0 (fun r => if Process.manifest_index r =? Process.LAUNCH64_INVALID_MANIFEST then 0
    else Process.launch64_manifest_runtime_user_entry_state (Process.manifest_index r)) _ pid Hp)|].
  intros v ps [-> _]. apply wp_ret. by rewrite processes_same.
Qed.

Lemma default_same (x : Z) d g pid s (Q : Z -> sched_state W -> Prop) :
  ProcFacts.pinv (sched_processes s) -> (forall v, Q v s) ->
  wp (if x =? 0 then on_processes (Process.read_field d g pid) else ret x) Q s.
Proof. intros Hp HQ. case_match; [by apply read_same|by apply wp_ret]. Qed.

Lemma register_launched_wp pid rip' rsp' rflags' s : sched_ok s ->
  wp (scheduler64_runqueue_register_launched_process_task pid rip' rsp' rflags') (register_result pid s) s.
Proof.
  intros Hok. pose proof (so_processes _ Hok) as Hp. apply wp_bind, entry_ready_same; [done|]. intros ready.
  case_match; [by apply wp_ret; left|].
  unfold Process.process64_runtime_token, Process.process64_runtime_user_entry_token, Process.process64_runtime_user_entry_selectors,
    Process.process64_runtime_user_entry_rip, Process.process64_runtime_user_entry_rsp, Process.process64_runtime_user_entry_rflags, Process.runtime_field.
  do 3 (apply wp_bind, read_same; [done|]; intros ?). do 3 (apply wp_bind, default_same; [done|]; intros ?).
  case_match; [by apply wp_ret; left|]. by apply register_process_wp.
Qed.

(** ** Starting and stopping *)

Definition no_running q : bool := forallb (fun t => negb (running t)) (q_tasks q).

Lemma no_running_idle q : q_base q -> no_running q = true -> q_idle q.
Proof.
  intros Hb Hn. split; [done|]. intros i t Hi. unfold no_running in Hn. rewrite forallb_forall in Hn.
  apply negb_true_iff, Hn, list_elem_of_In. by eapply list_elem_of_lookup_2.
Qed.

Definition start_refused q (first : Z) : bool :=
  (q_task_count q <=? first) || negb (t_state (task_in q first) =? SCHEDULER64_TASK_READY).

(** The first task is on the processor, or the queue stays inactive. *)
Inductive start_result s first : Z -> sched_state W -> Prop :=
| start_denied : start_refused (g_runqueue s) first = true -> start_result s first 0 s
| start_failed s' :
    start_refused (g_runqueue s) first = false ->
    switchable (sched_processes s) (sched_paging s) (t_pid (task_at s first)) = false ->
    q_active (g_runqueue s') = 0 -> start_result s first 0 s'
| start_done s' :
    start_refused (g_runqueue s) first = false ->
    switchable (sched_processes s) (sched_paging s) (t_pid (task_at s first)) = true ->
    q_active (g_runqueue s') <> 0 -> q_current_task (g_runqueue s') = first ->
    q_tasks (g_runqueue s') = alter put_on (Z.to_nat first) (q_tasks (g_runqueue s)) ->
    cr3_at (sched_processes s') (sched_paging s') (t_pid (task_at s first)) -> fs_base_msr s' = t_fs_base (task_at s first) ->
    start_result s first 1 s'.

(** The queue of [scheduler64_runqueue_start] before the switch. *)
Definition starting first q : scheduler64_runqueue :=
  (dispatched first (q <| q_active := 1 |>)) <| q_switches := q_switches q |> <| q_attempts := inc32 (q_attempts q) |>.

Lemma start_wp s first : sched_ok s -> no_running (g_runqueue s) = true -> 0 <= first ->
  wp (scheduler64_runqueue_start first) (fun v s' => start_result s first v s' /\ sched_ok s') s.
Proof.
  intros Hok Hno H0. apply wp_bind, wp_gets.
  match goal with |- wp (if ?b then _ else _) _ _ => change b with (start_refused (g_runqueue s) first) end.
  destruct (start_refused (g_runqueue s) first) eqn:Hr; [apply wp_ret; split; [by apply start_denied|done]|].
  pose proof Hr as [Hlt%Z.leb_gt Hst]%orb_false_iff. apply negb_false_iff, Z.eqb_eq in Hst.
  pose proof (q_is_base _ (so_queue _ Hok)) as Hb. pose proof (no_running_idle _ Hb Hno) as Hidle.
  pose proof (task_in_lookup _ _ Hb (conj H0 Hlt)) as Hlk.
  assert (Hrun : runnable (task_at s first) = true).
  { unfold runnable, task_at. rewrite Hst. simpl. apply nz_true, (qb_frame _ Hb _ _ Hlk). unfold live. by rewrite Hst. }
  assert (Hq1 : q_ok (dispatched first ((g_runqueue s) <| q_active := 1 |>))).
  { apply q_ok_dispatched; [|done|exact Hrun]. by eapply q_idle_core, Hidle. }
  apply wp_bind, wp_modify, wp_bind, wp_modify, wp_bind, wp_modify.
  match goal with |- wp _ _ ?x => set (s1 := x) end.
  assert (E1 : g_runqueue s1 = (starting first (g_runqueue s)) <| q_cs := q_cs (g_runqueue s1) |> <| q_ss := q_ss (g_runqueue s1) |>) by done.
  assert (E2 : rest s1 = rest s /\ g_scheduler64_preferred_task s1 = g_scheduler64_preferred_task s) by done. clearbody s1.
  destruct E2 as [[= E2 E3 E4 E5] E6].
  assert (Hat : task_at s1 first = put_on (task_at s first)).
  { unfold task_at, task_in at 1. rewrite E1. simpl. rewrite list_lookup_alter, decide_True, Hlk by done. done. }
  apply wp_bind, switch_task_wp; [rewrite E3; apply Hok|]. intros v pg Hv Hc Hz Hnz. rewrite Hat, E3, E4 in Hv.
  change (t_pid (put_on (task_at s first))) with (t_pid (task_at s first)) in Hv. rewrite E4 in Hc. rewrite Hat, E3 in Hnz.
  destruct (switchable (sched_processes s) (sched_paging s) (t_pid (task_at s first))) eqn:Esw; subst v;
    [change (b2z true =? 0) with false|change (b2z false =? 0) with true]; cbv iota.
  - apply wp_bind, wp_bind, wp_gets, wp_bind, wp_modify, wp_modify, wp_ret.
    change (task_at (s1 <| sched_paging := pg |>) first) with (task_at s1 first). rewrite Hat. specialize (Hnz ltac:(done)). split.
    + apply start_done; try done; simpl; try (by rewrite E1). by rewrite E3.
    + split; simpl; try (by rewrite ?E3, ?E6; apply Hok).
      * rewrite E1. by eapply q_ok_core, Hq1.
      * rewrite E1, E2. apply Hok.
      * eapply PagingFacts.pg_inv_core; [exact Hc|apply Hok].
      * intros _. unfold current_pid. simpl. rewrite E3. unfold task_at at 1. simpl.
        replace (q_current_task (g_runqueue s1)) with first by (by rewrite E1). unfold task_at in Hat. rewrite Hat. exact Hnz.
  - apply wp_bind, shift_task. intros s2 H2. apply wp_bind, wp_modify, wp_ret.
    pose proof H2 as [[= A1 A2 A3 A4] A5 [= A6 A7 A8 A9 A10]]. simpl in A1, A2, A3, A4, A5, A6, A7, A8, A9, A10. split.
    + by apply start_failed.
    + split; simpl; try (by rewrite ?A8, ?A7, ?E3, ?E6; apply Hok).
      * apply (q_ok_inactive (g_runqueue s2)); try done.
        apply (q_base_alter first (fun t => t <| t_state := SCHEDULER64_TASK_READY |>) (g_runqueue s1)).
        -- rewrite E1. by eapply q_is_base, q_ok_core, Hq1.
        -- by split.
        -- by rewrite E1.
        -- intros _. unfold task_at in Hat. rewrite Hat. simpl. apply (qb_frame _ Hb _ _ Hlk). unfold live. by rewrite Hst.
      * rewrite A6, A2, E1, E2. apply Hok.
      * rewrite A9. eapply PagingFacts.pg_inv_core; [exact Hc|apply Hok].
      * done.
Qed.

Lemma stop_ok : keeps scheduler64_runqueue_stop.
Proof.
  intros s Hok. apply wp_bind, wp_modify, wp_bind, switch_kernel_queue_wp; [apply Hok|]. intros pg Hc _. apply wp_modify.
  destruct Hok as [S1 S2 S3 S4 S5 S6]. split; try done.
  - apply (q_ok_inactive (g_runqueue s)); try done. apply S1.
  - simpl in *. by eapply PagingFacts.pg_inv_core.
Qed.

(** ** Resetting *)

Lemma clear_step {A} (c : A) (l : list A) k n : length l = n -> (k < n)%nat ->
  alter (fun _ => c) k (replicate k c ++ drop k l) = replicate (S k) c ++ drop (S k) l.
Proof.
  intros Hl Hk. destruct (lookup_lt_is_Some_2 l k) as [x Hx]; [lia|]. rewrite (drop_S l x k Hx).
  rewrite alter_app_here by apply length_replicate. by rewrite replicate_S_end, <- app_assoc.
Qed.

Lemma sleep_reset_wp s (Q : unit -> sched_state W -> Prop) :
  length (g_scheduler64_sleep_queue s) = SCHEDULER64_SLEEP_QUEUE_TASK_LIMIT ->
  Q tt (s <| g_scheduler64_sleep_queue := replicate SCHEDULER64_SLEEP_QUEUE_TASK_LIMIT scheduler64_clear_sleep_entry |>) ->
  wp scheduler64_sleep_queue_reset Q s.
Proof.
  intros Hl HQ. set (c := scheduler64_clear_sleep_entry) in *. set (l := g_scheduler64_sleep_queue s) in *.
  eapply wp_mono; [apply (wp_for_range _ _ (fun k s' => s' = s <| g_scheduler64_sleep_queue := replicate k c ++ drop k l |>))|].
  - by destruct s.
  - intros k s' Hk ->. apply wp_modify. change (1 + k)%nat with (S k).
    by rewrite <- (clear_step c l k SCHEDULER64_SLEEP_QUEUE_TASK_LIMIT).
  - intros [] s' ->. rewrite drop_ge by lia. by rewrite app_nil_r.
Qed.

Lemma tasks_reset_wp s (Q : unit -> sched_state W -> Prop) :
  length (q_tasks (g_runqueue s)) = LIMIT ->
  Q tt (s <| g_runqueue := (g_runqueue s) <| q_tasks := replicate LIMIT scheduler64_clear_task |> |>) ->
  wp (for_range SCHEDULER64_RUNQUEUE_TASK_LIMIT (fun i => update_task (Z.of_nat i) (fun _ => scheduler64_clear_task))) Q s.
Proof.
  intros Hl HQ. set (c := scheduler64_clear_task) in *. set (l := q_tasks (g_runqueue s)) in *.
  eapply wp_mono; [apply (wp_for_range _ _ (fun k s' => s' = s <| g_runqueue := (g_runqueue s) <| q_tasks := replicate k c ++ drop k l |> |>))|].
  - destruct s as [q]. by destruct q.
  - intros k s' Hk ->. apply wp_modify. rewrite Nat2Z.id. change (1 + k)%nat with (S k).
    by rewrite <- (clear_step c l k LIMIT).
  - intros [] s' ->. rewrite drop_ge by (by rewrite Hl). by rewrite app_nil_r.
Qed.

Definition sized s : Prop :=
  length (q_tasks (g_runqueue s)) = LIMIT /\ length (g_scheduler64_sleep_queue s) = SCHEDULER64_SLEEP_QUEUE_TASK_LIMIT /\
  ProcFacts.pinv (sched_processes s) /\ PagingFacts.pg_inv (sched_paging s).

Lemma clear_queue_ok q : q_tasks q = replicate LIMIT scheduler64_clear_task -> q_task_count q = 0 -> q_active q = 0 -> q_ok q.
Proof.
  intros Et Ec Ea. apply (q_ok_inactive q); try done.
  assert (Hx : forall i t, q_tasks q !! i = Some t -> t = scheduler64_clear_task) by (intros i t; rewrite Et; by intros [-> _]%lookup_replicate).
  split; [by rewrite Et, length_replicate|by rewrite Ec|by intros i t ->%Hx|by intros i t ->%Hx].
Qed.

Lemma reset_wp s (Q : unit -> sched_state W -> Prop) : sized s ->
  (forall s', sched_ok s' -> no_running (g_runqueue s') = true -> fs_base_msr s' = 0 -> Q tt s') -> wp scheduler64_runqueue_reset Q s.
Proof.
  intros (H1 & H2 & H3 & H4) HQ. apply wp_bind, wp_modify, wp_bind, wp_modify, wp_bind, wp_modify.
  apply wp_bind, tasks_reset_wp; [done|]. apply wp_bind, switch_kernel_queue_wp; [done|]. intros pg Hc _.
  apply wp_bind, wp_modify, wp_bind, sleep_reset_wp; [done|]. apply wp_modify. apply HQ; [|done|done].
  split; try done.
  - by apply clear_queue_ok.
  - exact (sleep_ok_reset _).
  - simpl in *. by eapply PagingFacts.pg_inv_core.
Qed.

Lemma ok_sized s : sched_ok s -> sized s.
Proof. intros [S1 S2 S3 S4 S5 S6]. split_and!; try done; [apply S1|apply S2]. Qed.

Lemma init_wp s (Q : unit -> sched_state W -> Prop) : sized s ->
  (forall s', sched_ok s' -> no_running (g_runqueue s') = true -> Q tt s') -> wp scheduler64_init Q s.
Proof.
  intros Hs HQ. apply wp_bind, reset_wp; [done|]. intros s1 Hok Hno _. pose proof (ok_sized s1 Hok) as (_ & Hl & _).
  apply wp_bind, wp_modify, wp_bind, sleep_reset_wp; [done|]. apply wp_modify, HQ; [|done].
  destruct Hok as [S1 S2 S3 S4 S5 S6]. split; try done. exact (sleep_ok_reset _).
Qed.

(** ** Sleeping *)

Lemma world_ok s w : sched_ok s -> sched_ok (s <| sched_world := w |>).
Proof. intros [S1 S2 S3 S4 S5 S6]. by split. Qed.

Lemma cancel_ok task : keeps (scheduler64_sleep_cancel_task task).
Proof.
  intros s Hok. eapply wp_mono; [apply (wp_fold_range _ 0 _ (fun _ _ s' => sched_ok s'))|]; [done| |done].
  intros i v s' Hi Hok'. apply wp_bind, wp_gets. case_match; [|by apply wp_ret]. apply wp_bind, wp_modify, wp_ret.
  destruct Hok' as [S1 S2 S3 S4 S5 S6]. split; try done. by apply sleep_ok_clear.
Qed.

Lemma current_id_cases s : sched_ok s ->
  scheduler64_runqueue_current_task_id s = SCHEDULER64_INVALID_TASK \/
  q_active (g_runqueue s) <> 0 /\ scheduler64_runqueue_current_task_id s = q_current_task (g_runqueue s) /\
  0 <= q_current_task (g_runqueue s) < q_task_count (g_runqueue s).
Proof.
  intros Hok. unfold scheduler64_runqueue_current_task_id. destruct (_ || _) eqn:E; [by left|right].
  apply orb_false_iff in E as [E%Z.eqb_neq _]. split_and!; try done; by apply (q_cur _ (so_queue _ Hok)).
Qed.

Lemma not_pending task s e j :
  scheduler64_sleep_task_pending task s = false -> g_scheduler64_sleep_queue s !! j = Some e -> pending e = true -> sl_task_id e <> task.
Proof.
  unfold scheduler64_sleep_task_pending. intros Hn Hj Hp E. assert (Ht : existsb (fun e => nz (sl_active e) && (sl_task_id e =? task))
    (g_scheduler64_sleep_queue s) = true); [|congruence].
  apply existsb_exists. exists e. split; [apply list_elem_of_In; by eapply list_elem_of_lookup_2|]. unfold pending in Hp. by rewrite Hp, E, Z.eqb_refl.
Qed.

Lemma sleep_entry_ok i e s : sched_ok s ->
  (pending e = true -> 0 <= sl_task_id e < q_task_count (g_runqueue s) /\ scheduler64_sleep_task_pending (sl_task_id e) s = false) ->
  sched_ok (s <| g_scheduler64_sleep_queue := alter (fun _ => e) i (g_scheduler64_sleep_queue s) |>).
Proof.
  intros Hok He. destruct Hok as [S1 S2 S3 S4 S5 S6]. split; try done. apply sleep_ok_alter; [done|].
  intros Hp. destruct (He Hp) as [H1 H2]. split; [done|]. intros j e' Hj Hp'. by eapply not_pending.
Qed.

(** The current task is put to sleep, or nothing about the tasks changes. *)
Definition sleep_result (requested resume callback cookie : Z) s (v : Z) s' : Prop :=
  v = 0 /\ q_tasks (g_runqueue s') = q_tasks (g_runqueue s) /\ q_frame (g_runqueue s') = q_frame (g_runqueue s) /\ machine s' = machine s \/
  v = 1 /\ requested <> 0 /\ running (task_at s (q_current_task (g_runqueue s))) = true /\
    q_tasks (g_runqueue s') = alter set_blocked (Z.to_nat (q_current_task (g_runqueue s))) (q_tasks (g_runqueue s)) /\
    q_frame (g_runqueue s') = q_frame (g_runqueue s) /\ machine s' = machine s /\
    exists i e start, g_scheduler64_sleep_queue s !! i = Some e /\ pending e = false /\
      g_scheduler64_sleep_queue s' = alter (fun _ => mk_sleep 1 (q_current_task (g_runqueue s)) start (add32 start requested)
        requested resume callback cookie) i (g_scheduler64_sleep_queue s).

Lemma sleep_denied_wp r a b c s st : sched_ok st -> q_tasks (g_runqueue st) = q_tasks (g_runqueue s) ->
  q_frame (g_runqueue st) = q_frame (g_runqueue s) -> machine st = machine s ->
  wp (count_sleep_denial ;;; ret 0) (fun v s' => sleep_result r a b c s v s' /\ sched_ok s') st.
Proof.
  intros Hok E1 E2 E3. apply wp_bind, (shift_modify _ id); [done|]. intros s' Hs. apply wp_ret. split; [|by eapply shifted_id_ok].
  destruct Hs as [[= A1 A2 A3 A4] A5 [= A6 A7 A8 A9 A10]]. unfold id in A5. left. unfold q_frame, machine in *. split_and!; congruence.
Qed.

Lemma sleep_start_wp requested resume callback cookie s : sched_ok s ->
  wp (scheduler64_sleep_start_current_task requested resume callback cookie)
    (fun v s' => sleep_result requested resume callback cookie s v s' /\ sched_ok s') s.
Proof.
  intros Hok. unfold scheduler64_sleep_start_current_task. destruct (Z.eqb_spec requested 0) as [Er|Er]; [apply wp_ret; split; [by left|done]|].
  apply wp_bind, wp_gets. destruct (current_id_cases s Hok) as [->|(Ha & -> & Hi)]; [apply wp_ret; split; [by left|done]|].
  pose proof (qb_count _ (q_is_base _ (so_queue _ Hok))) as Hcnt.
  rewrite (proj2 (Z.eqb_neq _ _)) by (unfold SCHEDULER64_INVALID_TASK, LIMIT in *; lia).
  apply wp_bind, sched_world_wp. intros start w. pose proof (world_ok s w Hok) as Hok1.
  set (s1 := s <| sched_world := w |>) in *. assert (E1 : g_runqueue s1 = g_runqueue s) by done.
  assert (E2 : rest s1 = rest s) by done. clearbody s1. apply wp_bind, wp_gets. simpl (id s1). pose proof E2 as [= F1 F2 F3 F4].
  destruct (scheduler64_sleep_free_entry s1) as [i|] eqn:Ef; [|apply sleep_denied_wp; try done; try (by rewrite E1); unfold machine; congruence].
  destruct (_ || _) eqn:Eg; [apply sleep_denied_wp; try done; try (by rewrite E1); unfold machine; congruence|].
  apply orb_false_iff in Eg as [Est Epd]. apply negb_false_iff, Z.eqb_eq in Est.
  unfold scheduler64_runqueue_task_state in Est. rewrite (proj2 (Z.leb_gt _ _)) in Est by (rewrite E1; lia).
  apply find_index_lookup in Ef as (e & He & Hina).
  apply wp_bind, wp_modify, wp_bind, wp_modify.
  set (en := mk_sleep 1 (q_current_task (g_runqueue s)) start (add32 start requested) requested resume callback cookie) in *.
  assert (Hok2 : sched_ok (s1 <| g_scheduler64_sleep_queue := alter (fun _ => en) i (g_scheduler64_sleep_queue s1) |>)).
  { apply sleep_entry_ok; [done|]. intros _. simpl. rewrite E1. done. }
  match goal with |- wp _ _ ?x => set (s2 := x) end.
  assert (Hok3 : sched_ok s2) by (by eapply sched_ok_core, Hok2).
  assert (G1 : g_runqueue s2 = g_runqueue s1) by done. assert (G2 : machine s2 = machine s1) by done.
  assert (G3 : g_scheduler64_sleep_queue s2 = alter (fun _ => en) i (g_scheduler64_sleep_queue s1)) by done. clearbody s2.
  apply wp_bind. eapply wp_mono; [apply (block_wp s2); [done|lia]|]. intros v s3 [Hb Hok4].
  destruct Hb as [s3 Hwhy T1 T2 [= T3 T4 T5 T6]|s3 Hnr Hna T1 T2 [= T3 T4 T5 T6]]; simpl.
  - apply wp_bind, wp_modify. injection G2 as G4 G5. apply sleep_denied_wp.
    + apply sleep_entry_ok; [done|done].
    + simpl. congruence.
    + simpl. congruence.
    + unfold machine. simpl. congruence.
  - apply wp_bind, (shift_modify _ id); [done|]. intros s4 H4. apply wp_ret. split; [|by eapply shifted_id_ok].
    destruct H4 as [[= A1 A2 A3 A4] A5 [= A6 A7 A8 A9 A10]]. unfold id in A5. injection G2 as G4 G5. right. split_and!; try done.
    + unfold running, task_at in *. rewrite E1 in Est. by rewrite Est.
    + rewrite A5, T1, G1, E1. done.
    + unfold q_frame in *. congruence.
    + unfold machine. congruence.
    + exists i, e, start. rewrite <- F1. split_and!; [done| |by rewrite A6, T3, G3]. unfold pending, nz. by rewrite Hina.
Qed.

Lemma sleep_current_wp requested resume callback cookie s : sched_ok s ->
  wp (scheduler64_sleep_current_task_for_ticks requested resume callback cookie)
    (fun v s' => sleep_result requested resume callback cookie s v s' /\ sched_ok s') s.
Proof.
  intros Hok. apply wp_bind, sched_world_wp. intros start w. apply wp_bind, wp_modify.
  match goal with |- wp _ _ ?x => set (s1 := x) end. assert (Hc : sched_core s1 = sched_core s) by done.
  assert (Hq : q_frame (g_runqueue s1) = q_frame (g_runqueue s)) by done. clearbody s1.
  pose proof (sched_ok_core s s1 Hc Hok) as Hok1. eapply wp_mono; [by apply sleep_start_wp|]. intros v s' [H Hok']. split; [|done].
  apply sched_core_inj in Hc as ([= C1 C2 C3 C4] & C5 & C6 & C7 & C8). unfold sleep_result, task_at, task_in, machine in *.
  by rewrite <- C3, <- C4, <- C5, <- C7, <- C8, <- Hq.
Qed.

Lemma spin_wp n start requested s (Q : unit -> sched_state W -> Prop) :
  (forall w, Q tt (s <| sched_world := w |>)) -> wp (spin n start requested) Q s.
Proof.
  revert s. induction n as [|n IH]; intros s HQ; simpl; apply wp_bind, sched_world_wp; intros now w; case_match; try (by apply wp_ret).
  apply IH. intros w'. exact (HQ w').
Qed.

(** A kernel sleep, outside any task, leaves the queue alone; a task goes to
    sleep as above. *)
Lemma sleep_for_ok requested : keeps (scheduler64_sleep_for_ticks requested).
Proof.
  intros s Hok. apply wp_bind, sched_world_wp. intros start w. apply wp_bind, wp_modify.
  match goal with |- wp _ _ ?x => set (s1 := x) end. assert (Hok1 : sched_ok s1) by (by eapply sched_ok_core, Hok). clearbody s1.
  assert (Hc : forall st (h : sched_state W -> sched_state W) (v : Z), sched_ok st -> sched_core (h st) = sched_core st ->
    wp (modify h ;;; ret v) (fun _ s' => sched_ok s') st).
  { intros st h v H1 H2. apply wp_bind, wp_modify, wp_ret. by eapply sched_ok_core. }
  case_match; [by apply Hc|]. apply wp_bind, wp_gets. case_match; [eapply wp_mono; [by apply sleep_start_wp|]; by intros v s' [_ ?]|].
  apply wp_bind, sched_world_wp. intros _ w1. apply wp_bind, spin_wp. intros w2. apply wp_bind, sched_world_wp. intros _ w3.
  apply wp_bind, sched_world_wp. intros stop w4. apply wp_bind, wp_modify.
  match goal with |- wp _ _ ?x => assert (Hok2 : sched_ok x) by (by eapply sched_ok_core, Hok1); generalize dependent x end.
  intros s2 Hok2. case_match; by apply Hc.
Qed.

Lemma set_current_fs_ok base : keeps (scheduler64_runqueue_set_current_fs_base base).
Proof.
  intros s Hok. apply wp_bind, wp_gets. destruct (current_id_cases s Hok) as [->|(Ha & -> & Hi)]; [by apply wp_ret|].
  case_match; [by apply wp_ret|]. apply (set_fs_ok _ base (proj1 Hi) s Hok).
Qed.

End calls.

End SchedQueue.
