(* ===== verification/SchedTheorems.v ===== *)
(** * Theorems about the run queue

    Every sequence of calls keeps the queue consistent and CR3 at the root of
    the running process; what a timer interrupt does; that a ready task gets
    its turn, with the registers it was interrupted with; that blocking hands
    the processor over; and when a sleeper wakes. *)

From S2P Require Import Prelude Principal Services64 Process ProcessFacts ProcessTheorems Paging PagingFacts PagingOps PagingRoots PagingTheorems Scheduler SchedFacts SchedOps SchedSteps SchedCalls SchedQueue.
Import Scheduler SchedFacts SchedOps SchedSteps SchedCalls SchedQueue.
Local Open Scope Z_scope.
Local Open Scope kernel_scope.

Module SchedTheorems.

Section theorems.
Context {W : Type} {world : SchedWorld W} {launch : Process.LaunchEnv} {symbols : Paging.PagingSymbols} {layout : PagingFacts.PagingLayout}.
Implicit Types (s : sched_state W) (q : scheduler64_runqueue) (t : scheduler64_task) (f : interrupt_frame64).

(** ** Every call keeps the queue *)

(** One call, or a change made from outside: of the world, or of the FS base
    by the running task.  The queue is started only when no task is marked
    running. *)
Inductive sched_step : sched_state W -> sched_state W -> Prop :=
| step_reset s : sched_step s (snd (scheduler64_runqueue_reset s))
| step_user rip' rsp' selectors rflags' s : sched_step s (snd (scheduler64_runqueue_register_user_task rip' rsp' selectors rflags' s))
| step_process pid rt et rip' rsp' selectors rflags' s :
    sched_step s (snd (scheduler64_runqueue_register_process_task pid rt et rip' rsp' selectors rflags' s))
| step_frame pid rt et f s : sched_step s (snd (scheduler64_runqueue_register_process_frame pid rt et f s))
| step_launched pid rip' rsp' rflags' s : sched_step s (snd (scheduler64_runqueue_register_launched_process_task pid rip' rsp' rflags' s))
| step_start first s : no_running (g_runqueue s) = true -> 0 <= first -> sched_step s (snd (scheduler64_runqueue_start first s))
| step_stop s : sched_step s (snd (scheduler64_runqueue_stop s))
| step_block i s : 0 <= i -> sched_step s (snd (scheduler64_runqueue_block_task i s))
| step_wake i r s : 0 <= i -> sched_step s (snd (scheduler64_runqueue_wake_task_with_result i r s))
| step_replay i s : 0 <= i -> sched_step s (snd (scheduler64_runqueue_wake_task_replay i s))
| step_timer f s : sched_step s (snd (scheduler64_runqueue_on_timer f s))
| step_blocked f s : sched_step s (snd (scheduler64_runqueue_on_blocked_syscall f s))
| step_exit f r s : sched_step s (snd (scheduler64_runqueue_on_exit f r s))
| step_sleep requested s : sched_step s (snd (scheduler64_sleep_for_ticks requested s))
| step_sleep_current requested resume callback cookie s :
    sched_step s (snd (scheduler64_sleep_current_task_for_ticks requested resume callback cookie s))
| step_cancel task s : sched_step s (snd (scheduler64_sleep_cancel_task task s))
| step_set_fs i base s : 0 <= i -> sched_step s (snd (scheduler64_runqueue_set_task_fs_base i base s))
| step_world w s : sched_step s (s <| sched_world := w |>)
| step_fs base s : sched_step s (s <| fs_base_msr := base |>).

Lemma wp_snd {A} (m : ST (sched_state W) A) (P : sched_state W -> Prop) s : wp m (fun _ s' => P s') s -> P (snd (m s)).
Proof. done. Qed.

Lemma step_ok s s' : sched_step s s' -> sched_ok s -> sched_ok s'.
Proof.
  destruct 1; intros Hok; try apply wp_snd.
  - apply reset_wp; [by apply ok_sized|done].
  - apply register_user_wp; [done|done|]. intros i s' Hf Hr. by apply (registered_ok i (user_task rip' rsp' selectors rflags') s s').
  - eapply wp_mono; [by apply register_process_wp|]. intros v s' H. by eapply register_result_ok, H.
  - eapply wp_mono; [by apply register_frame_wp|]. intros v s' H. by eapply register_result_ok, H.
  - eapply wp_mono; [by apply register_launched_wp|]. intros v s' H. by eapply register_result_ok, H.
  - eapply wp_mono; [by apply start_wp|]. by intros v s' [_ ?].
  - by apply stop_ok.
  - eapply wp_mono; [by apply block_wp|]. by intros v s' [_ ?].
  - eapply wp_mono; [by apply wake_with_wp|]. by intros v s' [_ ?].
  - eapply wp_mono; [by apply wake_replay_wp|]. by intros v s' [_ ?].
  - eapply wp_mono; [by apply timer_wp|]. by intros v s' [_ ?].
  - eapply wp_mono; [by apply blocked_wp|]. by intros v s' [_ ?].
  - eapply wp_mono; [by apply exit_wp|]. by intros v s' [_ ?].
  - by apply sleep_for_ok.
  - eapply wp_mono; [by apply sleep_current_wp|]. by intros v s' [_ ?].
  - by apply cancel_ok.
  - by apply set_fs_ok.
  - by apply world_ok.
  - destruct Hok as [S1 S2 S3 S4 S5 S6]. by split.
Qed.

Lemma steps_ok s s' : rtc sched_step s s' -> sched_ok s -> sched_ok s'.
Proof. induction 1; [done|]. intros Hok. by apply IHrtc, (step_ok x). Qed.

(** C4: Any sequence of registrations, stops, blocks, wakes, timer interrupts,
    blocked system calls, exits and sleeps, and of starts made while no task
    is marked running, keeps the run queue consistent.  (A start after a stop
    is not among them as long as the stopped task is marked running:
    [stop_strands_running_task] below.)  So while it is active the current task is one of its tasks
    and live, no other task is marked running, every task that can run has a
    frame, and CR3 holds the root of the process of the current task if that
    process has one. *)
Theorem sched_steps_keep_queue s s' :
  sched_ok s -> rtc sched_step s s' ->
  sched_ok s' /\
  (q_active (g_runqueue s') <> 0 ->
     (forall i t, q_tasks (g_runqueue s') !! i = Some t -> running t = true -> Z.of_nat i = q_current_task (g_runqueue s')) /\
     live (task_at s' (q_current_task (g_runqueue s'))) = true /\
     cr3_at (sched_processes s') (sched_paging s') (current_pid s')).
Proof.
  intros Hok Hs. pose proof (steps_ok s s' Hs Hok) as Hok'. split; [done|]. intros Ha. split_and!.
  - by apply (q_one _ (so_queue _ Hok')).
  - by apply (q_cur _ (so_queue _ Hok')).
  - by apply (so_cr3 _ Hok').
Qed.

(** ** The timer *)

(** C28: A timer interrupt in user mode saves the frame and the FS base of the
    current task, wakes the sleepers that are due by the tick count the timer
    reports at that moment, and then either leaves the
    task running, because no other is eligible or the root of the chosen one
    cannot be loaded, or resumes the chosen one: the last sleeper woken by
    this interrupt, or else the task preferred before it, if that one is
    eligible, and otherwise the next in circular order.  Then the frame returned, the FS base and CR3 are
    those of the resumed task.  Otherwise the interrupt changes nothing. *)
Theorem sched_timer_outcome s f :
  sched_ok s -> let (r, s') := scheduler64_runqueue_on_timer f s in timer_result s f (fst r) (snd r) s'.
Proof.
  intros Hok. pose proof (timer_wp s f Hok) as H. unfold wp in H. destruct (scheduler64_runqueue_on_timer f s). apply H.
Qed.

(** ** Turns *)

(** A sequence of timer interrupts; the frame that runs after the last. *)
Fixpoint timers (fs : list interrupt_frame64) (last : interrupt_frame64) s : interrupt_frame64 * sched_state W :=
  match fs with
  | [] => (last, s)
  | f :: fs' => let (r, s') := scheduler64_runqueue_on_timer f s in timers fs' (snd r) s'
  end.

(** Nothing sleeps, nothing is preferred, and every root can be loaded. *)
Definition quiet s : bool :=
  negb (existsb pending (g_scheduler64_sleep_queue s)) && (g_scheduler64_preferred_task s =? SCHEDULER64_INVALID_TASK)
  && forallb (fun t => switchable (sched_processes s) (sched_paging s) (t_pid t)) (q_tasks (g_runqueue s)).

(** How many slots after the current one task [j] comes. *)
Definition distance s (j : Z) : nat := Z.to_nat ((j - q_current_task (g_runqueue s)) mod q_task_count (g_runqueue s)).

Lemma quiet_due now s : quiet s = true -> existsb (due now) (g_scheduler64_sleep_queue s) = false.
Proof.
  intros [[H _]%andb_true_iff _]%andb_true_iff. apply negb_true_iff in H.
  induction (g_scheduler64_sleep_queue s) as [|e l IH]; simpl in *; [done|]. apply orb_false_iff in H as [H1 H2].
  unfold due at 1. rewrite H1. simpl. by apply IH.
Qed.

Lemma find_none_due now i l : existsb (due now) l = false -> List.find (fun e => due now e && (sl_task_id e =? i)) l = None.
Proof. induction l as [|e l IH]; simpl; [done|]. intros [-> H]%orb_false_iff. simpl. by apply IH. Qed.

Lemma quiet_tasks now f s : quiet s = true ->
  tick_tasks now f s = alter (preempted f (fs_base_msr s)) (Z.to_nat (q_current_task (g_runqueue s))) (q_tasks (g_runqueue s)).
Proof.
  intros Hq. apply imap_id_at. intros i t _. unfold woken. by rewrite find_none_due by (by apply quiet_due).
Qed.

Lemma quiet_swept now s : quiet s = true -> swept now (g_scheduler64_sleep_queue s) = g_scheduler64_sleep_queue s.
Proof.
  intros Hq%(quiet_due now). unfold swept. induction (g_scheduler64_sleep_queue s) as [|e l IH]; simpl in *; [done|].
  apply orb_false_iff in Hq as [-> H2]. f_equal. by apply IH.
Qed.

Lemma choice_quiet q cur : q_task_count q <= Z.of_nat LIMIT -> q_task_count q <> 0 -> choice q SCHEDULER64_INVALID_TASK cur = rotate q cur.
Proof.
  intros Hl Hn. unfold choice. rewrite (proj2 (Z.eqb_neq _ 0)) by done.
  unfold preferred_eligible. by rewrite (proj2 (Z.ltb_ge _ _)) by (unfold SCHEDULER64_INVALID_TASK, LIMIT in *; lia).
Qed.

(** The first runnable slot is at most as far as any other. *)
Lemma rotate_near q cur j :
  0 <= cur < q_task_count q -> q_task_count q <= Z.of_nat LIMIT -> eligible q cur j ->
  exists k, (1 <= k <= Z.to_nat ((j - cur) mod q_task_count q))%nat /\ rotate q cur = (cur + Z.of_nat k) mod q_task_count q /\
    eligible q cur (rotate q cur).
Proof.
  intros Hc Hl Hj. destruct (rotate_cases q cur Hc Hl) as [[_ Hno]|(k & Hk & E & He & Hmin)]; [by destruct (Hno j)|].
  exists k. rewrite E. split_and!; [lia| |by destruct (candidate_spec q cur k Hc Hl Hk)|apply He..].
  destruct Hj as (Hj & Hne & Hr). destruct (candidate_onto q cur j Hc Hl Hj Hne) as [Hd Ej].
  destruct (le_lt_dec k (Z.to_nat ((j - cur) mod q_task_count q))) as [|Hlt]; [done|].
  rewrite <- Ej, Hmin in Hr; [done|lia].
Qed.

(** What a task keeps over a timer interrupt of a quiet queue. *)
Record turned f s s' (next : Z) : Prop := {
  tn_ok : sched_ok s';
  tn_quiet : quiet s' = true;
  tn_queue : (q_active (g_runqueue s'), q_task_count (g_runqueue s'), q_current_task (g_runqueue s')) =
             (q_active (g_runqueue s), q_task_count (g_runqueue s), next);
  tn_fs : fs_base_msr s' = t_fs_base (task_at s next);
  tn_left : task_at s' (q_current_task (g_runqueue s)) = preempted f (fs_base_msr s) (task_at s (q_current_task (g_runqueue s)));
  tn_others : forall i, 0 <= i -> i <> next -> i <> q_current_task (g_runqueue s) -> task_at s' i = task_at s i }.

Lemma switchable_core ps pg pg' pid : PagingFacts.pcore pg' = PagingFacts.pcore pg -> switchable ps pg' pid = switchable ps pg pid.
Proof. intros H. unfold switchable. by rewrite (root_core ps pg pg'). Qed.

Lemma quiet_eligible f s q j : sched_ok s -> q_active (g_runqueue s) <> 0 -> q_task_count q = q_task_count (g_runqueue s) ->
  q_tasks q = alter (preempted f (fs_base_msr s)) (Z.to_nat (q_current_task (g_runqueue s))) (q_tasks (g_runqueue s)) ->
  eligible q (q_current_task (g_runqueue s)) j <-> eligible (g_runqueue s) (q_current_task (g_runqueue s)) j.
Proof.
  intros Hok Ha Ec Et. destruct (q_cur _ (so_queue _ Hok) Ha) as [Hi _]. unfold eligible. rewrite Ec.
  assert (E : 0 <= j -> j <> q_current_task (g_runqueue s) -> task_in q j = task_in (g_runqueue s) j).
  { intros H0 Hne. apply (altered_other (q_current_task (g_runqueue s)) (preempted f (fs_base_msr s))); (done || lia). }
  split; intros (H1 & H2 & H3); (split; [done|split; [done|]]); [rewrite <- E by lia|rewrite E by lia]; done.
Qed.

Lemma turned_intro f s s' next : sched_ok s -> sched_ok s' -> q_active (g_runqueue s) <> 0 -> quiet s = true ->
  eligible (g_runqueue s) (q_current_task (g_runqueue s)) next ->
  g_scheduler64_sleep_queue s' = g_scheduler64_sleep_queue s -> g_scheduler64_preferred_task s' = SCHEDULER64_INVALID_TASK ->
  sched_processes s' = sched_processes s -> PagingFacts.pcore (sched_paging s') = PagingFacts.pcore (sched_paging s) ->
  (q_active (g_runqueue s'), q_task_count (g_runqueue s'), q_current_task (g_runqueue s')) =
    (q_active (g_runqueue s), q_task_count (g_runqueue s), next) ->
  q_tasks (g_runqueue s') = alter put_on (Z.to_nat next) (alter (preempted f (fs_base_msr s)) (Z.to_nat (q_current_task (g_runqueue s))) (q_tasks (g_runqueue s))) ->
  fs_base_msr s' = t_fs_base (task_at s next) -> turned f s s' next.
Proof.
  intros Hok Hok' Ha Hq (Hn & Hne & _) Es Ep E1 E2 Equ Et Ef. destruct (q_cur _ (so_queue _ Hok) Ha) as [Hi _].
  pose proof (q_is_base _ (so_queue _ Hok)) as Hb. pose proof (task_in_lookup _ _ Hb Hi) as Hlk. split; try done.
  - unfold quiet in *. apply andb_true_iff in Hq as [[Hq1 _]%andb_true_iff Hq2]. rewrite Es, Hq1, Ep, Z.eqb_refl, E1. simpl.
    apply forallb_forall. intros t Ht. rewrite forallb_forall in Hq2. apply list_elem_of_In, list_elem_of_lookup_1 in Ht as [i Hx]. rewrite Et in Hx.
    apply lookup_alter_Some in Hx as (x & Hx & ->). apply lookup_alter_Some in Hx as (y & Hy & ->).
    assert (Hy' : switchable (sched_processes s) (sched_paging s) (t_pid y) = true) by (apply Hq2, list_elem_of_In; by eapply list_elem_of_lookup_2).
    rewrite (switchable_core _ (sched_paging s)) by done. repeat case_decide; exact Hy'.
  - unfold task_at, task_in at 1. rewrite Et, list_lookup_alter_ne, list_lookup_alter, decide_True, Hlk by (done || lia). done.
  - intros i H0 H1 H2. unfold task_at, task_in. rewrite Et, !list_lookup_alter_ne by lia. done.
Qed.

Lemma quiet_timer s f j :
  sched_ok s -> quiet s = true -> q_active (g_runqueue s) <> 0 -> user_cs f = true ->
  eligible (g_runqueue s) (q_current_task (g_runqueue s)) j ->
  wp (scheduler64_runqueue_on_timer f) (fun r s' => exists k, (1 <= k <= distance s j)%nat /\
    let next := (q_current_task (g_runqueue s) + Z.of_nat k) mod q_task_count (g_runqueue s) in
    turned f s s' next /\ snd r = t_frame (task_at s next)) s.
Proof.
  intros Hok Hq Ha Hu Hj. destruct (q_cur _ (so_queue _ Hok) Ha) as [Hi _]. pose proof (qb_count _ (q_is_base _ (so_queue _ Hok))) as Hl.
  assert (Hg : timer_ignores f s = false).
  { unfold timer_ignores. rewrite (proj2 (Z.eqb_neq _ 0)), (proj2 (Z.leb_gt _ _)), Hu by (done || lia). done. }
  eapply wp_mono; [by apply timer_wp|]. intros [v f'] s' [H Hok']. cbn [fst snd] in *.
  assert (Hch : forall now pref s', ticked now pref f s s' -> exists k, (1 <= k <= distance s j)%nat /\
    choice (tick_queue now f s) pref (q_current_task (g_runqueue s)) = (q_current_task (g_runqueue s) + Z.of_nat k) mod q_task_count (g_runqueue s) /\
    eligible (g_runqueue s) (q_current_task (g_runqueue s)) (choice (tick_queue now f s) pref (q_current_task (g_runqueue s)))).
  { intros now pref s2 Ht. pose proof (tick_pref_quiet _ _ _ _ _ Ht (quiet_due now s Hq)) as Ep.
    pose proof Hq as [[_ Hp%Z.eqb_eq]%andb_true_iff _]%andb_true_iff. rewrite Ep, Hp.
    change (q_task_count (g_runqueue s)) with (q_task_count (tick_queue now f s)) in *. rewrite choice_quiet by lia.
    pose proof (fun i => quiet_eligible f s (tick_queue now f s) i Hok Ha eq_refl (quiet_tasks now f s Hq)) as He.
    destruct (rotate_near (tick_queue now f s) (q_current_task (g_runqueue s)) j Hi ltac:(lia)) as (k & Hk & Ek & Hek); [by apply He|].
    exists k. split_and!; [apply Hk..|done|]. by apply He. }
  assert (Hsame : forall now i, eligible (g_runqueue s) (q_current_task (g_runqueue s)) i ->
    task_in (tick_queue now f s) i = task_at s i).
  { intros now i (H1 & H2 & _). unfold task_in, task_at, task_in. simpl. rewrite quiet_tasks by done. by rewrite list_lookup_alter_ne by lia. }
  assert (Hsw : forall i, eligible (g_runqueue s) (q_current_task (g_runqueue s)) i ->
    switchable (sched_processes s) (sched_paging s) (t_pid (task_at s i)) = true).
  { intros i (H1 & _). apply andb_true_iff in Hq as [_ Hq]. rewrite forallb_forall in Hq. apply Hq, list_elem_of_In.
    eapply list_elem_of_lookup_2, task_in_lookup; [apply Hok|done]. }
  destruct H as [Hi'|now pref s' _ Ht Hwhy|now pref next s' _ Ht Hn Hel Hs Et Ecur Hcr Hfs]; [congruence|..].
  - exfalso. destruct (Hch now pref s' Ht) as (k & _ & _ & He). destruct Hwhy as [E|E].
    + apply (eligible_lt _ _ _ (q_is_base _ (so_queue _ Hok)) He). done.
    + rewrite Hsame, Hsw in E by done. done.
  - destruct (Hch now pref s' Ht) as (k & Hk & Ek & He). rewrite <- Hn in Ek, He. exists k. split; [done|]. cbv zeta. rewrite <- Ek.
    rewrite (Hsame now next He) in *. split; [|done]. destruct Ht as [Tn T1 T2 T3 T4 T5 [= T6 T7]].
    apply turned_intro; try done.
    + rewrite T1. by apply quiet_swept.
    + by rewrite T6, T7, Ecur.
    + by rewrite Et, quiet_tasks.
Qed.

(** Going on from the task [k] slots further. *)
Lemma distance_less s s' f j k :
  sched_ok s -> q_active (g_runqueue s) <> 0 -> 0 <= j < q_task_count (g_runqueue s) -> (1 <= k < distance s j)%nat ->
  turned f s s' ((q_current_task (g_runqueue s) + Z.of_nat k) mod q_task_count (g_runqueue s)) ->
  distance s' j = (distance s j - k)%nat.
Proof.
  intros Hok Ha Hj Hk Ht. destruct (q_cur _ (so_queue _ Hok) Ha) as [Hi _]. unfold distance in *. pose proof (tn_queue _ _ _ _ Ht) as [= _ Ec Ecur].
  rewrite Ec, Ecur. set (n := q_task_count (g_runqueue s)) in *. set (c := q_current_task (g_runqueue s)) in *.
  pose proof (Z.mod_pos_bound (j - c) n ltac:(lia)) as Hb.
  assert (E : (j - (c + Z.of_nat k) mod n) mod n = (j - c) mod n - Z.of_nat k); [|lia].
  rewrite Zminus_mod_idemp_r. replace (j - (c + Z.of_nat k)) with (j - c - Z.of_nat k) by lia.
  rewrite <- Zminus_mod_idemp_l. apply Z.mod_small. lia.
Qed.

Lemma distance_zero s j : sched_ok s -> q_active (g_runqueue s) <> 0 -> 0 <= j < q_task_count (g_runqueue s) ->
  (q_current_task (g_runqueue s) + Z.of_nat (distance s j)) mod q_task_count (g_runqueue s) = j.
Proof.
  intros Hok Ha Hj. destruct (q_cur _ (so_queue _ Hok) Ha) as [Hi _]. unfold distance.
  pose proof (Z.mod_pos_bound (j - q_current_task (g_runqueue s)) (q_task_count (g_runqueue s)) ltac:(lia)) as Hb.
  rewrite Z2Nat.id, Zplus_mod_idemp_r by lia. replace (_ + (j - _)) with j by lia. by apply Z.mod_small.
Qed.

Lemma turn_comes n s fs last j :
  distance s j = n -> sched_ok s -> quiet s = true -> q_active (g_runqueue s) <> 0 ->
  eligible (g_runqueue s) (q_current_task (g_runqueue s)) j -> forallb user_cs fs = true -> (n <= length fs)%nat ->
  exists k, (1 <= k <= n)%nat /\ let (f', s') := timers (take k fs) last s in
    sched_ok s' /\ q_active (g_runqueue s') <> 0 /\ q_current_task (g_runqueue s') = j /\
    f' = t_frame (task_at s j) /\ fs_base_msr s' = t_fs_base (task_at s j).
Proof.
  revert s fs last. induction n as [n IH] using lt_wf_ind. intros s fs last Hd Hok Hq Ha Hj Hu Hlen.
  destruct fs as [|f fs]; [exfalso|].
  { destruct Hj as (Hj & Hne & _). destruct (q_cur _ (so_queue _ Hok) Ha) as [Hi _]. pose proof (qb_count _ (q_is_base _ (so_queue _ Hok))).
    destruct (candidate_onto (g_runqueue s) _ j Hi ltac:(lia) Hj Hne) as [Hk _]. unfold distance in Hd. simpl in Hlen. lia. }
  simpl in Hu. apply andb_true_iff in Hu as [Hu Hus]. pose proof (quiet_timer s f j Hok Hq Ha Hu Hj) as H. unfold wp in H.
  destruct (scheduler64_runqueue_on_timer f s) as [r s1] eqn:Er. cbn [fst snd] in H. destruct H as (k & Hk & Ht & Ef). cbv zeta in Ht, Ef.
  rewrite Hd in Hk. pose proof Hj as (Hjr & Hne & Hr).
  pose proof (tn_queue _ _ _ _ Ht) as [= Eact Ecnt Ecur].
  destruct (decide (k = n)) as [->|Hkn].
  - exists 1%nat. split; [lia|]. simpl. rewrite Er. simpl. rewrite <- Hd, distance_zero in Ht, Ef, Ecur by done.
    split_and!; [apply Ht|by rewrite Eact|done|done|apply Ht].
  - assert (Hk' : (1 <= k < distance s j)%nat) by lia. pose proof (distance_less s s1 f j k Hok Ha Hjr Hk' Ht) as Hd1.
    assert (Hne1 : j <> q_current_task (g_runqueue s1)).
    { intros E. unfold distance in Hd1. rewrite <- E, Z.sub_diag, Zmod_0_l in Hd1. simpl in Hd1. unfold distance in Hk'. lia. }
    assert (Hsame : task_at s1 j = task_at s j) by (apply (tn_others _ _ _ _ Ht); [lia|congruence|done]).
    destruct (IH (n - k)%nat ltac:(lia) s1 fs (snd r)) as (k1 & Hk1 & H1); try done; try lia.
    + apply Ht.
    + apply Ht.
    + split; [by rewrite Ecnt|]. split; [done|]. unfold task_at in Hsame. by rewrite Hsame.
    + simpl in Hlen. lia.
    + exists (S k1). split; [lia|]. simpl. rewrite Er. destruct (timers (take k1 fs) (snd r) s1) as [f' s']. by rewrite <- Hsame.
Qed.

(** C31: In a quiet queue, a ready task [d] slots after the current one is on
    the processor after at most [d] timer interrupts, with the frame and the
    FS base it was left with. *)
Theorem sched_round_robin s fs last j :
  sched_ok s -> quiet s = true -> q_active (g_runqueue s) <> 0 ->
  eligible (g_runqueue s) (q_current_task (g_runqueue s)) j -> forallb user_cs fs = true -> (distance s j <= length fs)%nat ->
  exists k, (1 <= k <= distance s j)%nat /\ let (f', s') := timers (take k fs) last s in
    q_active (g_runqueue s') <> 0 /\ q_current_task (g_runqueue s') = j /\
    f' = t_frame (task_at s j) /\ fs_base_msr s' = t_fs_base (task_at s j).
Proof.
  intros Hok Hq Ha Hj Hu Hl. destruct (turn_comes (distance s j) s fs last j eq_refl Hok Hq Ha Hj Hu Hl) as (k & Hk & H).
  exists k. split; [done|]. destruct (timers (take k fs) last s). by destruct H as (_ & H).
Qed.

(** C30: A running task interrupted in a quiet queue with another ready task
    resumes within one round of timer interrupts with exactly the frame and
    the FS base it had when it was interrupted. *)
Theorem sched_preempt_roundtrip s f fs j :
  sched_ok s -> quiet s = true -> q_active (g_runqueue s) <> 0 -> running (task_at s (q_current_task (g_runqueue s))) = true ->
  eligible (g_runqueue s) (q_current_task (g_runqueue s)) j -> user_cs f = true -> forallb user_cs fs = true ->
  q_task_count (g_runqueue s) <= Z.of_nat (length fs) ->
  exists k, (2 <= k)%nat /\ let (f', s') := timers (take k (f :: fs)) f s in
    q_current_task (g_runqueue s') = q_current_task (g_runqueue s) /\ f' = f /\ fs_base_msr s' = fs_base_msr s.
Proof.
  intros Hok Hq Ha Hrun Hj Hu Hus Hlen. pose proof (quiet_timer s f j Hok Hq Ha Hu Hj) as H. unfold wp in H.
  destruct (scheduler64_runqueue_on_timer f s) as [r s1] eqn:Er. cbn [fst snd] in H. destruct H as (k & Hk & Ht & Ef). cbv zeta in Ht, Ef.
  set (cur := q_current_task (g_runqueue s)) in *. destruct (q_cur _ (so_queue _ Hok) Ha) as [Hi _].
  pose proof (tn_queue _ _ _ _ Ht) as [= Eact Ecnt Ecur]. pose proof (tn_left _ _ _ _ Ht) as Hleft. fold cur in Hleft.
  assert (Hne : cur <> q_current_task (g_runqueue s1)).
  { intros E. destruct Hj as (Hj & Hnej & _). pose proof (qb_count _ (q_is_base _ (so_queue _ Hok))).
    pose proof (candidate_onto (g_runqueue s) cur j Hi ltac:(lia) Hj Hnej) as [Hd _]. fold cur in Hk. unfold distance in Hk. fold cur in Hk.
    destruct (candidate_spec (g_runqueue s) cur k Hi ltac:(lia) ltac:(lia)) as (Ek & _ & Hnk). congruence. }
  assert (Hel : eligible (g_runqueue s1) (q_current_task (g_runqueue s1)) cur).
  { split; [by rewrite Ecnt|]. split; [done|]. change (task_in (g_runqueue s1) cur) with (task_at s1 cur). rewrite Hleft.
    unfold running in Hrun. unfold runnable, preempted. simpl. by rewrite Hrun. }
  destruct (turn_comes (distance s1 cur) s1 fs (snd r) cur) as (k1 & Hk1 & H1); try done; [apply Ht|apply Ht|by rewrite Eact| |].
  { unfold distance. rewrite Ecnt. pose proof (Z.mod_pos_bound (cur - q_current_task (g_runqueue s1)) (q_task_count (g_runqueue s)) ltac:(lia)). lia. }
  exists (S k1). split; [lia|]. simpl. rewrite Er. destruct (timers (take k1 fs) (snd r) s1) as [f' s'].
  destruct H1 as (_ & _ & H1 & H2 & H3). rewrite Hleft in H2, H3. done.
Qed.

(** ** Blocking *)

Definition all_switchable s : bool :=
  forallb (fun t => switchable (sched_processes s) (sched_paging s) (t_pid t)) (q_tasks (g_runqueue s)).

(** The current task has blocked, and [j] is ready: the queue is not stuck. *)
Lemma parked_not_stuck f s j : sched_ok s -> q_active (g_runqueue s) <> 0 -> all_switchable s = true ->
  eligible (g_runqueue s) (q_current_task (g_runqueue s)) j -> blocked_ignores f s = false -> ~ stuck (parked f s) s.
Proof.
  intros Hok Ha Hsw Hj Hg. pose proof (fun i => quiet_eligible f s (with_tasks s (parked f s)) i Hok Ha eq_refl eq_refl) as He.
  assert (Hb : q_base (with_tasks s (parked f s))).
  { destruct (q_cur _ (so_queue _ Hok) Ha) as [Hi _].
    apply (q_base_alter (q_current_task (g_runqueue s)) (preempted f (fs_base_msr s)) (g_runqueue s)); [apply Hok|done|done|done]. }
  destruct (q_cur _ (so_queue _ Hok) Ha) as [Hi _].
  destruct (choice_cases _ (g_scheduler64_preferred_task s) (q_current_task (g_runqueue s)) Hb (so_preferred _ Hok) Hi) as [[_ Hno]|[Hn Hel]];
    [by destruct (Hno j); apply He|]. intros [E|E]; [done|].
  apply He in Hel as (H1 & H2 & _). revert E H1 H2. generalize (choice (with_tasks s (parked f s)) (g_scheduler64_preferred_task s) (q_current_task (g_runqueue s))).
  intros c E H1 H2. rewrite (altered_other (q_current_task (g_runqueue s)) (preempted f (fs_base_msr s)) (g_runqueue s)) in E by (done || lia).
  unfold all_switchable in Hsw. rewrite forallb_forall in Hsw. rewrite Hsw in E; [done|].
  apply list_elem_of_In. eapply list_elem_of_lookup_2, task_in_lookup; [apply Hok|done].
Qed.

(** The state after a successful block of the current task. *)
Lemma block_done_eligible s s1 j : sched_ok s -> q_active (g_runqueue s) <> 0 ->
  q_tasks (g_runqueue s1) = alter set_blocked (Z.to_nat (q_current_task (g_runqueue s))) (q_tasks (g_runqueue s)) ->
  q_frame (g_runqueue s1) = q_frame (g_runqueue s) ->
  eligible (g_runqueue s1) (q_current_task (g_runqueue s1)) j <-> eligible (g_runqueue s) (q_current_task (g_runqueue s)) j.
Proof.
  intros Hok Ha Et [= E1 E2 E3 E4]. destruct (q_cur _ (so_queue _ Hok) Ha) as [Hi _]. unfold eligible. rewrite E2, E3.
  assert (E : 0 <= j -> j <> q_current_task (g_runqueue s) -> task_in (g_runqueue s1) j = task_in (g_runqueue s) j).
  { intros H0 Hne. apply (altered_other (q_current_task (g_runqueue s)) set_blocked); (done || lia). }
  split; intros (H1 & H2 & H3); (split; [done|split; [done|]]); [rewrite <- E by lia|rewrite E by lia]; done.
Qed.

(** C29: The running task may block exactly when another task is ready.  The
    system call that blocked it then always hands the processor to a ready
    task, and the blocked one keeps its frame for later; so the processor is
    never left with a blocked task. *)
Theorem sched_block_hands_over s f :
  sched_ok s -> q_active (g_runqueue s) <> 0 -> running (task_at s (q_current_task (g_runqueue s))) = true ->
  all_switchable s = true -> user_cs f = true ->
  let cur := q_current_task (g_runqueue s) in
  let (v, s1) := scheduler64_runqueue_block_task cur s in
  (v = 0 /\ (forall j, ~ eligible (g_runqueue s) cur j) /\ q_tasks (g_runqueue s1) = q_tasks (g_runqueue s)) \/
  (v = 1 /\ let (r, s2) := scheduler64_runqueue_on_blocked_syscall f s1 in
     fst r = 1 /\ eligible (g_runqueue s) cur (q_current_task (g_runqueue s2)) /\
     t_state (task_at s2 cur) = SCHEDULER64_TASK_BLOCKED /\ t_frame (task_at s2 cur) = f).
Proof.
  intros Hok Ha Hrun Hsw Hu cur. destruct (q_cur _ (so_queue _ Hok) Ha) as [Hi Hl]. fold cur in Hi, Hl.
  pose proof (block_wp s cur Hok ltac:(lia)) as H. unfold wp in H. destruct (scheduler64_runqueue_block_task cur s) as [v s1]. cbn [fst snd] in H.
  destruct H as [H Hok1]. pose proof (q_is_base _ (so_queue _ Hok)) as Hb. pose proof (task_in_lookup _ _ Hb Hi) as Hlk.
  pose proof (qb_frame _ Hb _ _ Hlk Hl) as Hfv.
  destruct H as [s1 Hwhy Et Eq Er|s1 Hnr Hna Et Eq Er]; [left|right].
  - split_and!; [done| |done]. destruct Hwhy as [Hr|[_ [?|[?|Hc]]]]; [|done|done|].
    + exfalso. unfold running, task_at in Hrun. apply Z.eqb_eq in Hrun. fold cur in Hrun. unfold block_refused in Hr. rewrite Hrun in Hr.
      rewrite (proj2 (Z.leb_gt _ _)), (proj2 (Z.eqb_neq _ _)) in Hr by (done || lia). done.
    + destruct (choice_cases _ (g_scheduler64_preferred_task s) cur Hb (so_preferred _ Hok) Hi) as [[_ Hno]|[Hn _]]; [done|congruence].
  - split; [done|]. pose proof Eq as [= E1 E2 E3 E4]. fold cur in E3.
    assert (Ha1 : q_active (g_runqueue s1) <> 0) by (by rewrite E1).
    assert (Hcur1 : task_in (g_runqueue s1) cur = set_blocked (task_in (g_runqueue s) cur)) by (by apply altered_task).
    assert (Hg : blocked_ignores f s1 = false).
    { unfold blocked_ignores. cbv zeta. rewrite E1, E2, E3, Hcur1, Hu, (proj2 (Z.eqb_neq _ 0)), (proj2 (Z.leb_gt _ _)) by (done || lia). simpl.
      by rewrite (proj2 (Z.eqb_neq _ 0)). }
    assert (Hj : exists j, eligible (g_runqueue s) cur j).
    { destruct (choice_cases _ (g_scheduler64_preferred_task s) cur Hb (so_preferred _ Hok) Hi) as [[Hc _]|[_ He]]; [|by eexists].
      exfalso. apply Hna. split; [done|]. by right; right. }
    destruct Hj as [j Hj]. injection Er as _ Ep Eg _.
    assert (Hsw1 : all_switchable s1 = true).
    { unfold all_switchable in *. rewrite Ep, Eg, Et, forallb_forall in *. intros t Ht. apply list_elem_of_In, list_elem_of_lookup_1 in Ht as [i Hx].
      apply lookup_alter_Some in Hx as (y & Hy & ->).
      assert (Hy' := Hsw y (proj1 (list_elem_of_In _ _) (list_elem_of_lookup_2 _ _ _ Hy))). by case_decide. }
    pose proof (parked_not_stuck f s1 j Hok1 Ha1 Hsw1) as Hns.
    rewrite (block_done_eligible s s1 j Hok Ha Et Eq) in Hns. specialize (Hns Hj Hg).
    pose proof (blocked_wp s1 f Hok1) as H. unfold wp in H. destruct (scheduler64_runqueue_on_blocked_syscall f s1) as [r s2]. cbn [fst snd] in H.
    destruct H as [H _]. destruct r as [v f']. cbn [fst snd] in *.
    destruct H as [?|s2 _ Hst _|next f' s2 s4 _ Hh _]; [congruence|done|]. destruct Hh as [H1 H2 [= H3 H4 H5] H6 _ _ _ _ _].
    assert (Hel : eligible (g_runqueue s) cur next).
    { apply (block_done_eligible s s1 next Hok Ha Et Eq). eapply (quiet_eligible f s1 (with_tasks s1 (parked f s1))); done. }
    split; [done|]. rewrite H5. split; [done|]. unfold task_at, task_in. rewrite H6, list_lookup_alter_ne by (destruct Hel as (? & ? & _); lia).
    unfold parked. rewrite E3, list_lookup_alter, decide_True, (task_in_lookup _ _ (q_is_base _ (so_queue _ Hok1))) by (done || lia). simpl.
    rewrite Hcur1. done.
Qed.

(** ** Sleeping *)

(** The 32-bit comparison of ticks is exact up to half the range. *)
Lemma tick_reached_exact start d r : 0 <= start < 2 ^ 32 -> 0 <= r <= 2 ^ 31 -> 0 <= d < r + 2 ^ 31 ->
  scheduler64_sleep_tick_reached (add32 start d) (add32 start r) = (r <=? d).
Proof.
  intros Hs Hr Hd. unfold scheduler64_sleep_tick_reached, sub32, add32, wrap32.
  rewrite Zminus_mod_idemp_l, Zminus_mod_idemp_r. replace (start + d - (start + r)) with (d - r) by lia.
  destruct (Z.leb_spec r d) as [H|H].
  - rewrite Z.mod_small by lia. apply Z.ltb_lt. lia.
  - replace (d - r) with (d - r + 2 ^ 32 + (-1) * 2 ^ 32) by lia. rewrite Z_mod_plus_full, Z.mod_small by lia. apply Z.ltb_ge. lia.
Qed.

Lemma find_due now l j e : due now e = true -> l !! j = Some e ->
  (forall i e', l !! i = Some e' -> pending e' = true -> sl_task_id e' = sl_task_id e -> i = j) ->
  List.find (fun e' => due now e' && (sl_task_id e' =? sl_task_id e)) l = Some e.
Proof.
  intros Hd Hj Hu. destruct (List.find _ l) as [x|] eqn:E.
  - apply List.find_some in E as [Hin [H1 H2%Z.eqb_eq]%andb_true_iff]. apply list_elem_of_In, list_elem_of_lookup_1 in Hin as [i Hi].
    pose proof H1 as [Hp _]%andb_true_iff. specialize (Hu i x Hi Hp H2). subst i. congruence.
  - eapply List.find_none in E; [|apply list_elem_of_In; by eapply list_elem_of_lookup_2]. by rewrite Hd, Z.eqb_refl in E.
Qed.

Lemma find_not_due now l j e : due now e = false -> l !! j = Some e -> pending e = true ->
  (forall i e', l !! i = Some e' -> pending e' = true -> sl_task_id e' = sl_task_id e -> i = j) ->
  List.find (fun e' => due now e' && (sl_task_id e' =? sl_task_id e)) l = None.
Proof.
  intros Hd Hj Hpe Hu. destruct (List.find _ l) as [x|] eqn:E; [|done].
  apply List.find_some in E as [Hin [H1 H2%Z.eqb_eq]%andb_true_iff]. apply list_elem_of_In, list_elem_of_lookup_1 in Hin as [i Hi].
  pose proof H1 as [Hp _]%andb_true_iff. specialize (Hu i x Hi Hp H2). subst i. congruence.
Qed.

(** C32: A task that sleeps [r] ticks, at most half the range of the counter,
    is woken by the expiry check exactly when [r] ticks have passed since it
    went to sleep, also across a wrap of the counter: its system call then
    returns the result it asked for and its entry is free again.  Before, the
    check changes neither the task nor the entry. *)
Theorem sched_sleep_exact s j e r d :
  sched_ok s -> g_scheduler64_sleep_queue s !! j = Some e -> pending e = true -> 0 <= sl_start_tick e < 2 ^ 32 ->
  sl_wake_tick e = add32 (sl_start_tick e) r -> 0 <= r <= 2 ^ 31 -> 0 <= d < r + 2 ^ 31 ->
  t_state (task_at s (sl_task_id e)) = SCHEDULER64_TASK_BLOCKED ->
  let (v, s') := scheduler64_sleep_wake_expired (add32 (sl_start_tick e) d) s in
  if r <=? d
  then t_state (task_at s' (sl_task_id e)) = SCHEDULER64_TASK_READY /\ rax (t_frame (task_at s' (sl_task_id e))) = sl_resume_rax e /\
    g_scheduler64_sleep_queue s' !! j = Some scheduler64_clear_sleep_entry
  else task_at s' (sl_task_id e) = task_at s (sl_task_id e) /\ g_scheduler64_sleep_queue s' !! j = Some e.
Proof.
  intros Hok Hj Hp Hst Hw Hr Hd Hb. set (now := add32 (sl_start_tick e) d).
  assert (H : wp (scheduler64_sleep_wake_expired now) (fun _ s' => expired_upto now (g_scheduler64_sleep_queue s) s s') s).
  { apply wake_expired_wp; [apply Hok|apply Hok|done]. }
  unfold wp in H. destruct (scheduler64_sleep_wake_expired now s) as [v s']. cbn [snd] in H. destruct H as [_ Et Es _ _ _ _ _].
  rewrite drop_all, app_nil_r in Es. pose proof (so_sleep _ Hok) as [_ Htask Honce]. pose proof (Htask j e Hj Hp) as Hi.
  pose proof (q_is_base _ (so_queue _ Hok)) as Hbase. pose proof (task_in_lookup _ _ Hbase Hi) as Hlk.
  assert (Hdue : due now e = (r <=? d)) by (unfold due; rewrite Hp, Hw; by apply tick_reached_exact).
  assert (Hu : forall i e', g_scheduler64_sleep_queue s !! i = Some e' -> pending e' = true -> sl_task_id e' = sl_task_id e -> i = j).
  { intros i e' Hi' Hp' E. by apply (Honce i j e' e). }
  assert (Ht : task_at s' (sl_task_id e) = woken now (g_scheduler64_sleep_queue s) (Z.to_nat (sl_task_id e)) (task_at s (sl_task_id e))).
  { unfold task_at, task_in at 1. rewrite Et, list_lookup_imap, Hlk. done. }
  assert (Hq : g_scheduler64_sleep_queue s' !! j = Some (if due now e then scheduler64_clear_sleep_entry else e)).
  { rewrite Es. unfold swept. by rewrite list_lookup_fmap, Hj. }
  rewrite Ht, Hq. unfold woken. rewrite Z2Nat.id by lia. rewrite Hdue in Hq |- *. destruct (r <=? d).
  - rewrite (find_due now _ j e Hdue Hj Hu), Hb. simpl. rewrite (proj2 (nz_true _)); [done|].
    apply (qb_frame _ Hbase _ _ Hlk). unfold live. unfold task_at in Hb. by rewrite Hb.
  - by rewrite (find_not_due now _ j e Hdue Hj Hp Hu).
Qed.

(** A longer sleep ends at the first timer interrupt: half the range later
    the counter already compares as past the wake tick. *)
Lemma long_sleep_wakes_at_once start : 0 <= start < 2 ^ 32 ->
  scheduler64_sleep_tick_reached start (add32 start (2 ^ 31 + 1)) = true.
Proof.
  intros Hs. unfold scheduler64_sleep_tick_reached, sub32, add32, wrap32. rewrite Zminus_mod_idemp_r.
  replace (start - (start + (2 ^ 31 + 1))) with (2 ^ 31 - 1 + (-1) * 2 ^ 32) by lia. by rewrite Z_mod_plus_full.
Qed.

End theorems.

(** ** A small machine

    The page tables of PagingTheorems.v with the root of process 4 attached
    to it in the process table, a tick counter that stands still, and no
    personas. *)

#[export] Instance demo_ticks : SchedWorld Z := {|
  pit_get_ticks w := (w, w);
  interrupts64_enable w := (tt, w);
  interrupts64_disable w := (tt, w);
  persona64_type _ _ := 0;
  linux_abi64_signal_deliver_pending _ f w := ((0, f), w);
  call_expiry _ _ _ w := (tt, w) |}.

#[local] Existing Instance ProcTheorems.demo_launch.
#[local] Existing Instance PagingTheorems.demo_symbols.
#[local] Existing Instance PagingTheorems.demo_layout.

Definition power_on_sched (tick : Z) : sched_state Z :=
  mk_sched (mk_runqueue 0 0 0 0 0 0 0 0 0 0 0 0 0 (replicate LIMIT scheduler64_clear_task)) 0 0 0 0 0 0
    (replicate SCHEDULER64_SLEEP_QUEUE_TASK_LIMIT scheduler64_clear_sleep_entry) 0 0 0 0 0 0 0 0
    ProcTheorems.demo_rooted PagingTheorems.demo_paging tick.

Definition boot_sched : sched_state Z := snd (scheduler64_init (power_on_sched 100)).

Lemma boot_sched_ok : sched_ok boot_sched.
Proof.
  unfold boot_sched. apply (wp_snd scheduler64_init sched_ok). apply init_wp; [|done]. split_and!; [done|done|..].
  - apply ProcTheorems.preach_inv, ProcTheorems.demo_rooted_reached.
  - apply PagingTheorems.demo_paging_inv.
Qed.

(** Tasks of processes 4 and 5 and one without a process; the first runs. *)
Definition demo_first : sched_state Z := snd (scheduler64_runqueue_register_process_task 4 1 1 0x1000 0x2000 0x23001B 0x202 boot_sched).
Definition demo_second : sched_state Z := snd (scheduler64_runqueue_register_process_task 5 1 1 0x3000 0x4000 0x23001B 0x202 demo_first).
Definition demo_third : sched_state Z := snd (scheduler64_runqueue_register_user_task 0x5000 0x6000 0x23001B 0x202 demo_second).
Definition demo_sched : sched_state Z := snd (scheduler64_runqueue_start 0 demo_third).

Lemma demo_sched_steps : rtc sched_step boot_sched demo_sched.
Proof.
  apply (rtc_l _ _ demo_first); [exact (step_process 4 1 1 0x1000 0x2000 0x23001B 0x202 boot_sched)|].
  apply (rtc_l _ _ demo_second); [exact (step_process 5 1 1 0x3000 0x4000 0x23001B 0x202 demo_first)|].
  apply (rtc_l _ _ demo_third); [exact (step_user 0x5000 0x6000 0x23001B 0x202 demo_second)|].
  apply (rtc_l _ _ demo_sched); [|apply rtc_refl]. refine (step_start 0 demo_third _ _); [by vm_compute|lia].
Qed.

Lemma demo_sched_ok : sched_ok demo_sched.
Proof. exact (steps_ok _ _ demo_sched_steps boot_sched_ok). Qed.

(** A frame the processor left in user mode. *)
Definition demo_frame (at_rip : Z) : interrupt_frame64 := scheduler64_prepare_user_frame at_rip 0x2000 0x23001B 0x202.

Lemma sched_steps_keep_queue_witness : sched_ok demo_sched /\ q_active (g_runqueue demo_sched) <> 0 /\
  page_root (sched_processes demo_sched) (current_pid demo_sched) <> 0.
Proof.
  split; [exact (proj1 (sched_steps_keep_queue boot_sched demo_sched boot_sched_ok demo_sched_steps))|by split; vm_compute].
Defined.

Lemma sched_timer_outcome_witness :
  let (r, s') := scheduler64_runqueue_on_timer (demo_frame 0x1010) demo_sched in
  timer_result demo_sched (demo_frame 0x1010) (fst r) (snd r) s' /\ q_current_task (g_runqueue s') = 1.
Proof.
  pose proof (sched_timer_outcome demo_sched (demo_frame 0x1010) demo_sched_ok) as H.
  assert (E : q_current_task (g_runqueue (snd (scheduler64_runqueue_on_timer (demo_frame 0x1010) demo_sched))) = 1)
    by (vm_compute; reflexivity).
  destruct (scheduler64_runqueue_on_timer (demo_frame 0x1010) demo_sched) as [r s']. split; [exact H|exact E].
Defined.

Lemma demo_facts : quiet demo_sched = true /\ q_active (g_runqueue demo_sched) <> 0 /\ q_current_task (g_runqueue demo_sched) = 0 /\
  distance demo_sched 2 = 2%nat /\ runnable (task_at demo_sched 2) = true /\ running (task_at demo_sched 0) = true /\ all_switchable demo_sched = true.
Proof. by vm_compute. Qed.

Lemma demo_eligible : eligible (g_runqueue demo_sched) (q_current_task (g_runqueue demo_sched)) 2.
Proof. split; [by vm_compute|]. split; [by vm_compute|]. by vm_compute. Qed.

Lemma sched_round_robin_witness : exists k, (1 <= k <= 2)%nat /\
  q_current_task (g_runqueue (snd (timers (take k [demo_frame 0x1010; demo_frame 0x3010]) (demo_frame 0) demo_sched))) = 2.
Proof.
  destruct demo_facts as (H1 & H2 & _ & H4 & _).
  destruct (sched_round_robin demo_sched [demo_frame 0x1010; demo_frame 0x3010] (demo_frame 0) 2 demo_sched_ok H1 H2 demo_eligible eq_refl) as (k & Hk & H).
  - rewrite H4. exact (le_n 2).
  - rewrite H4 in Hk. exists k. split; [exact Hk|]. destruct (timers _ _ _) as [f s']. exact (proj1 (proj2 H)).
Defined.

Lemma sched_preempt_roundtrip_witness : exists k, (2 <= k)%nat /\
  fst (timers (take k (demo_frame 0x1010 :: replicate 3 (demo_frame 0x7000))) (demo_frame 0x1010) demo_sched) = demo_frame 0x1010.
Proof.
  destruct demo_facts as (H1 & H2 & H3 & _ & _ & H6 & _).
  destruct (sched_preempt_roundtrip demo_sched (demo_frame 0x1010) (replicate 3 (demo_frame 0x7000)) 2 demo_sched_ok H1 H2
    ltac:(rewrite H3; exact H6) demo_eligible eq_refl eq_refl ltac:(by vm_compute)) as (k & Hk & H).
  exists k. split; [exact Hk|]. destruct (timers _ _ _) as [f s']. exact (proj1 (proj2 H)).
Defined.

Lemma sched_block_hands_over_witness : fst (scheduler64_runqueue_block_task 0 demo_sched) = 1 /\
  fst (fst (scheduler64_runqueue_on_blocked_syscall (demo_frame 0x1010) (snd (scheduler64_runqueue_block_task 0 demo_sched)))) = 1.
Proof.
  destruct demo_facts as (_ & H2 & H3 & _ & _ & H6 & H7).
  pose proof (sched_block_hands_over demo_sched (demo_frame 0x1010) demo_sched_ok H2 ltac:(rewrite H3; exact H6) H7 eq_refl) as H.
  cbv zeta in H. rewrite H3 in H. assert (E : fst (scheduler64_runqueue_block_task 0 demo_sched) = 1) by (by vm_compute).
  destruct (scheduler64_runqueue_block_task 0 demo_sched) as [v s1]. cbn [fst snd] in *. split; [exact E|].
  destruct H as [[E0 _]|[_ H]]; [rewrite E0 in E; discriminate|].
  destruct (scheduler64_runqueue_on_blocked_syscall (demo_frame 0x1010) s1) as [r s2]. exact (proj1 H).
Defined.

(** The first task sleeps 5 ticks from tick 100 on. *)
Definition demo_asleep : sched_state Z := snd (scheduler64_sleep_current_task_for_ticks 5 7 0 0 demo_sched).
Definition demo_entry : scheduler64_sleep_entry := mk_sleep 1 0 100 105 5 7 0 0.

Lemma demo_asleep_ok : sched_ok demo_asleep.
Proof. exact (step_ok _ _ (step_sleep_current 5 7 0 0 demo_sched) demo_sched_ok). Qed.

Lemma sched_sleep_exact_witness :
  t_state (task_at (snd (scheduler64_sleep_wake_expired 105 demo_asleep)) 0) = SCHEDULER64_TASK_READY /\
  t_state (task_at (snd (scheduler64_sleep_wake_expired 104 demo_asleep)) 0) = SCHEDULER64_TASK_BLOCKED.
Proof.
  assert (Hj : g_scheduler64_sleep_queue demo_asleep !! 0%nat = Some demo_entry) by (by vm_compute).
  assert (Hb : t_state (task_at demo_asleep 0) = SCHEDULER64_TASK_BLOCKED) by (by vm_compute). split.
  - pose proof (sched_sleep_exact demo_asleep 0 demo_entry 5 5 demo_asleep_ok Hj eq_refl ltac:(simpl; lia) eq_refl ltac:(lia) ltac:(lia) Hb) as H.
    change (add32 (sl_start_tick demo_entry) 5) with 105 in H. destruct (scheduler64_sleep_wake_expired 105 demo_asleep). exact (proj1 H).
  - pose proof (sched_sleep_exact demo_asleep 0 demo_entry 5 4 demo_asleep_ok Hj eq_refl ltac:(simpl; lia) eq_refl ltac:(lia) ltac:(lia) Hb) as H.
    change (add32 (sl_start_tick demo_entry) 4) with 104 in H. destruct (scheduler64_sleep_wake_expired 104 demo_asleep) as [v s'].
    destruct H as [E _]. simpl snd. change (sl_task_id demo_entry) with 0 in E. rewrite E. exact Hb.
Defined.

(** ** What the queue does not promise *)

(** A task whose process has no page root runs in the address space of the
    task before it: process 5 runs under the root of process 4. *)
Theorem rootless_task_runs_in_foreign_root :
  let s' := snd (scheduler64_runqueue_on_timer (demo_frame 0x1010) demo_sched) in
  current_pid demo_sched = 4 /\ current_pid s' = 5 /\
  Paging.paging64_current_root_physical (sched_paging s') =
    Z.land (Paging.paging64_process_root_physical (sched_processes s') 4 (sched_paging s')) Paging.PAGING64_PAGE_MASK /\
  Paging.paging64_current_root_physical (sched_paging s') <>
    Z.land (Paging.paging64_process_root_physical (sched_processes s') 5 (sched_paging s')) Paging.PAGING64_PAGE_MASK.
Proof. by vm_compute. Qed.

(** The test whether another task is ready takes away the preference of the
    task that was just woken: task 2 was woken and is preferred, task 0
    blocks, and task 1 runs next. *)
Theorem block_test_discards_preference :
  let s1 := snd (scheduler64_runqueue_wake_task 2 (snd (scheduler64_runqueue_block_task 2 demo_sched))) in
  let s2 := snd (scheduler64_runqueue_block_task 0 s1) in
  g_scheduler64_preferred_task s1 = 2 /\ g_scheduler64_preferred_task s2 = SCHEDULER64_INVALID_TASK /\
  q_current_task (g_runqueue (snd (scheduler64_runqueue_on_blocked_syscall (demo_frame 0x1010) s2))) = 1.
Proof. by vm_compute. Qed.

(** Stopping the queue leaves its task marked running: it can neither be
    started again nor be replaced by a new one, and starting another task
    leaves two tasks marked running. *)
Theorem stop_strands_running_task :
  let s' := snd (scheduler64_runqueue_stop demo_sched) in
  t_state (task_at s' 0) = SCHEDULER64_TASK_RUNNING /\ fst (scheduler64_runqueue_start 0 s') = 0 /\
  fst (scheduler64_runqueue_block_task 0 s') = 0 /\ scheduler64_allocate_task_slot (g_runqueue s') = 3 /\
  let s'' := snd (scheduler64_runqueue_start 1 s') in
  q_active (g_runqueue s'') = 1 /\ running (task_at s'' 0) = true /\ running (task_at s'' 1) = true.
Proof. by vm_compute. Qed.

End SchedTheorems.
