(* ===== verification/KernelPipes.v ===== *)
(** * Pipes over the real run queue

    [PipeWorld] implemented by Scheduler.v and Process.v, and what follows for
    a reader and a writer that meet at a pipe: the reader blocks, another task
    runs and writes, the timer returns to the reader, and the repeated read
    delivers the bytes. *)

From S2P Require Import Prelude Principal Services64 Process ProcessFacts ProcessTheorems PersonaBudget Pipe PipeFacts PipeIO PipeTheorems Paging PagingFacts PagingTheorems Scheduler SchedFacts SchedOps SchedSteps SchedCalls SchedQueue SchedTheorems.
Import PersonaBudget Pipe PipeFacts PipeIO PipeTheorems.
Local Open Scope Z_scope.
Local Open Scope kernel_scope.

Module KernelPipes.

(** ** Blocking and waking, seen from the world *)

Section pipes.
Context {W : Type} {pw : PipeWorld W}.
Implicit Types s : pipe_state W.

(** A call of the rest of the kernel leaves the pipes alone. *)
Lemma on_world_same {A} (m : ST W A) s : same_data s (snd (on_world m s)) /\ world (snd (on_world m s)) = snd (m (world s)) /\
  fst (on_world m s) = fst (m (world s)) /\ forall i, pipe_at (snd (on_world m s)) i = pipe_at s i.
Proof. unfold on_world. destruct (m (world s)) as [a w]. split; [by split|done]. Qed.

(** A successful block parks the current task of the owner in the slot. *)
Lemma block_parks owner sl i s :
  slot_of sl -> (i < length (g_pipe64_objects s))%nat -> get_task sl (pipe_at s i) = SCHEDULER64_INVALID_TASK ->
  let t := pipe64_current_task_for_owner owner (world s) in
  t <> SCHEDULER64_INVALID_TASK -> fst (scheduler64_runqueue_block_task t (world s)) <> 0 ->
  exists s', pipe64_block_current_task owner sl i s = (1, s') /\ pipe_at s' i = set_task sl t (pipe_at s i) /\
    world s' = snd (scheduler64_runqueue_block_task t (world s)) /\ same_data s s'.
Proof.
  intros Hsl Hi Hslot t Ht Hok. pose proof (block_same owner sl i s Hsl) as Hs. unfold wp in Hs. revert Hs.
  unfold pipe64_block_current_task, bind, gets. cbn [fst snd]. rewrite Hslot, Z.eqb_refl. cbn [negb]. fold t.
  rewrite (proj2 (Z.eqb_neq _ _) Ht), update_pipe_run. cbn [fst snd]. unfold on_world.
  change (world (upd i (set_task sl t) s)) with (world s).
  destruct (scheduler64_runqueue_block_task t (world s)) as [ok w]. cbn [fst snd] in *.
  rewrite (proj2 (Z.eqb_neq _ _) Hok). intros Hs. eexists. split; [reflexivity|].
  split; [|by split]. rewrite <- (pipe_at_upd i (set_task sl t) s) by done. done.
Qed.

(** A read of an empty open pipe by a task that may block. *)
Lemma read_blocks h n owner s i :
  ready s -> resolve h owner s = Some i -> pipe64_handle_kind h = PIPE64_HANDLE_KIND_READ ->
  reader_closed (pipe_at s i) = 0 -> writer_closed (pipe_at s i) = 0 -> byte_count (pipe_at s i) = 0 ->
  blocked_reader_task_id (pipe_at s i) = SCHEDULER64_INVALID_TASK -> 0 < n ->
  let t := pipe64_current_task_for_owner owner (world s) in
  t <> SCHEDULER64_INVALID_TASK -> fst (scheduler64_runqueue_block_task t (world s)) <> 0 ->
  exists s', pipe64_read h n owner s = ((PIPE64_IO_BLOCKED, []), s') /\
    pipe_at s' i = set_task reader_slot t (pipe_at s i) /\
    world s' = snd (scheduler64_runqueue_block_task t (world s)) /\ same_data s s'.
Proof.
  intros Hr E Hk Hrc Hwc Hb Hslot Hn t Ht Hok. pose proof E as (Hi & _)%resolve_Some.
  assert (Hlt : (i < length (g_pipe64_objects s))%nat) by by rewrite (rd_length _ Hr).
  destruct (block_parks owner reader_slot i s (or_introl eq_refl) Hlt Hslot Ht Hok) as (s' & Hp & H). exists s'. split; [|done].
  unfold pipe64_read. rewrite (proj2 (Z.eqb_neq n 0)) by lia. unfold bind at 1. rewrite (find_run h owner s), E by apply Hr.
  cbn [fst snd]. unfold bind at 1, gets. cbn [fst snd]. rewrite Hk, Hrc, !Z.eqb_refl. cbn [negb orb].
  destruct (Z.to_nat n) as [|k] eqn:Ek; [lia|]. cbn [read_loop]. unfold bind at 1.
  assert (Hwait : read_wait PIPE64_SPIN_WAIT_LIMIT i owner 0 s = (Some PIPE64_IO_BLOCKED, s')).
  { destruct PIPE64_SPIN_WAIT_LIMIT; cbn [read_wait]; unfold bind, gets; cbn [fst snd]; rewrite Hb, Hwc; cbn [negb Z.eqb]; by rewrite Hp. }
  by rewrite Hwait.
Qed.

(** A write that fits wakes the parked reader. *)
Lemma write_wakes h data owner s i :
  ready s -> resolve h owner s = Some i -> pipe64_handle_kind h = PIPE64_HANDLE_KIND_WRITE ->
  reader_closed (pipe_at s i) = 0 -> writer_closed (pipe_at s i) = 0 -> data <> [] -> (length data <= room (pipe_at s i))%nat ->
  let t := blocked_reader_task_id (pipe_at s i) in
  t <> SCHEDULER64_INVALID_TASK ->
  exists s', pipe64_write h data owner s = (Z.of_nat (length data), s') /\
    world s' = snd (scheduler64_runqueue_wake_task_replay t (world s)) /\ same_data (upd i (put_bytes data) s) s'.
Proof.
  intros Hr E Hk Hrc Hwc Hd Hroom t Ht. pose proof E as (Hi & _)%resolve_Some. pose proof (oo_buffer _ _ (ready_at s i Hr Hi)) as Hp.
  assert (Hlt : (i < length (g_pipe64_objects s))%nat) by by rewrite (rd_length _ Hr).
  pose proof (queue_room _ Hp) as Hqr. assert (Hd0 : (0 < length data)%nat) by (destruct data; simpl; [done|lia]).
  rewrite (write_enters h data owner s i), write_loop_fits by (done || unfold PIPE64_BUFFER_BYTES in *; lia).
  eexists. split; [by rewrite Z.add_0_l|]. split; [|apply (wake_same reader_slot); by left].
  unfold pipe64_wake_blocked_task, bind, gets. cbn [fst snd]. rewrite pipe_at_upd by done. cbn [get_task reader_slot].
  rewrite put_bytes_reader. fold t. rewrite (proj2 (Z.eqb_neq _ _) Ht), update_pipe_run. cbn [fst snd].
  change (world (upd i (set_task reader_slot SCHEDULER64_INVALID_TASK) (upd i (put_bytes data) s))) with (world s).
  unfold on_world. simpl. destruct (scheduler64_runqueue_wake_task_replay t (world s)) as [ok w]. simpl. by destruct (ok =? 0).
Qed.

(** A read of a pipe that holds bytes. *)
Lemma read_delivers h n owner s i :
  ready s -> resolve h owner s = Some i -> pipe64_handle_kind h = PIPE64_HANDLE_KIND_READ ->
  reader_closed (pipe_at s i) = 0 -> queue (pipe_at s i) <> [] -> 0 < n ->
  let out := take (Z.to_nat n) (queue (pipe_at s i)) in
  fst (pipe64_read h n owner s) = (Z.of_nat (length out), out).
Proof.
  intros Hr E Hk Hrc Hq Hn out. pose proof E as (Hi & _ & Hl & _)%resolve_Some.
  unfold pipe64_read. rewrite (proj2 (Z.eqb_neq n 0)) by lia. unfold bind at 1. rewrite (find_run h owner s), E by apply Hr.
  cbn [fst snd]. unfold bind at 1, gets. cbn [fst snd]. rewrite Hk, Hrc, !Z.eqb_refl. cbn [negb orb].
  destruct (read_open i owner (Z.to_nat n) s Hr Hi Hl ltac:(lia)) as [_ H]. rewrite decide_False in H by tauto. apply H.
Qed.

End pipes.
End KernelPipes.

(** ** Waiting for a wakeup

    The part of a blocked system call that belongs to the run queue: the
    running task blocks and gives the processor away ([wait_starts]); the
    wakeup makes it the preferred task, and the next timer interrupt resumes
    it with the frame it blocked with ([wait_ends]). *)

Import Scheduler SchedFacts SchedOps SchedSteps SchedCalls SchedQueue SchedTheorems.
Local Open Scope Z_scope.
Local Open Scope kernel_scope.

Module KernelQueue.

Section waiting.
Context {W : Type} {world : SchedWorld W} {launch : Process.LaunchEnv} {symbols : Paging.PagingSymbols} {layout : PagingFacts.PagingLayout}.
Implicit Types (s : sched_state W) (f : interrupt_frame64).

(** Nothing sleeps and every root can be loaded. *)
Definition calm s : bool := negb (existsb pending (g_scheduler64_sleep_queue s)) && all_switchable s.

(** Task [t] waits, off the processor, to be woken and resumed with [f]. *)
Record waiting (t : Z) f (base : Z) s : Prop := {
  wt_ok : sched_ok s;
  wt_active : q_active (g_runqueue s) <> 0;
  wt_task : 0 <= t < q_task_count (g_runqueue s);
  wt_off : t <> q_current_task (g_runqueue s);
  wt_state : t_state (task_at s t) = SCHEDULER64_TASK_BLOCKED;
  wt_frame : t_frame (task_at s t) = f;
  wt_base : t_fs_base (task_at s t) = base;
  wt_calm : calm s = true }.

Lemma calm_due now s : calm s = true -> existsb (due now) (g_scheduler64_sleep_queue s) = false.
Proof.
  intros [H _]%andb_true_iff. apply negb_true_iff in H.
  induction (g_scheduler64_sleep_queue s) as [|e l IH]; simpl in *; [done|]. apply orb_false_iff in H as [H1 H2].
  unfold due at 1. rewrite H1. simpl. by apply IH.
Qed.

Lemma calm_tasks now f s : calm s = true ->
  tick_tasks now f s = alter (preempted f (fs_base_msr s)) (Z.to_nat (q_current_task (g_runqueue s))) (q_tasks (g_runqueue s)).
Proof. intros Hc. apply imap_id_at. intros i t _. unfold woken. by rewrite find_none_due by (by apply calm_due). Qed.

(** Calm depends on the pids of the tasks only. *)
Lemma calm_ext s s' : calm s = true -> g_scheduler64_sleep_queue s' = g_scheduler64_sleep_queue s ->
  sched_processes s' = sched_processes s -> PagingFacts.pcore (sched_paging s') = PagingFacts.pcore (sched_paging s) ->
  t_pid <$> q_tasks (g_runqueue s') = t_pid <$> q_tasks (g_runqueue s) -> calm s' = true.
Proof.
  unfold calm, all_switchable. intros [H1 H2]%andb_true_iff Es Ep Eg Et. rewrite Es, H1. simpl.
  apply forallb_forall. intros t Ht. rewrite forallb_forall in H2. apply list_elem_of_In, list_elem_of_lookup_1 in Ht as [i Hi].
  pose proof (f_equal (fun l => l !! i) Et) as E. simpl in E. rewrite !list_lookup_fmap, Hi in E. simpl in E.
  destruct (q_tasks (g_runqueue s) !! i) as [t'|] eqn:Et'; [|done]. injection E as ->.
  rewrite Ep, (switchable_core _ (sched_paging s)) by done. apply H2, list_elem_of_In. by eapply list_elem_of_lookup_2.
Qed.

Lemma fmap_alter_same {A B} (g : A -> B) (h : A -> A) i (l : list A) : (forall x, g (h x) = g x) -> g <$> alter h i l = g <$> l.
Proof. intros H. apply list_eq. intros j. rewrite !list_lookup_fmap, list_lookup_alter. case_decide; [subst j|done]. destruct (l !! i); simpl; [by rewrite H|done]. Qed.

Lemma calm_at s j : sched_ok s -> calm s = true -> 0 <= j < q_task_count (g_runqueue s) ->
  switchable (sched_processes s) (sched_paging s) (t_pid (task_at s j)) = true.
Proof.
  intros Hok [_ H]%andb_true_iff Hj. unfold all_switchable in H. rewrite forallb_forall in H. apply H, list_elem_of_In.
  eapply list_elem_of_lookup_2, task_in_lookup; [apply Hok|done].
Qed.

(** The running task blocks. *)
Lemma block_current s j : sched_ok s -> q_active (g_runqueue s) <> 0 -> running (task_at s (q_current_task (g_runqueue s))) = true ->
  eligible (g_runqueue s) (q_current_task (g_runqueue s)) j ->
  wp (scheduler64_runqueue_block_task (q_current_task (g_runqueue s))) (fun v s1 => v = 1 /\ sched_ok s1 /\
    q_tasks (g_runqueue s1) = alter set_blocked (Z.to_nat (q_current_task (g_runqueue s))) (q_tasks (g_runqueue s)) /\
    q_frame (g_runqueue s1) = q_frame (g_runqueue s) /\ rest s1 = rest s) s.
Proof.
  intros Hok Ha Hrun Hj. destruct (q_cur _ (so_queue _ Hok) Ha) as [Hi Hl]. pose proof (q_is_base _ (so_queue _ Hok)) as Hb.
  pose proof (qb_frame _ Hb _ _ (task_in_lookup _ _ Hb Hi) Hl) as Hfv.
  eapply wp_mono; [apply block_wp; [done|lia]|]. intros v s1 [H Hok1]. destruct H as [s1 Hwhy Et Eq Er|s1 Hnr Hna Et Eq Er]; [|done].
  exfalso. destruct Hwhy as [Hr|[_ [?|[?|Hc]]]]; [|done|done|].
  - unfold running, task_at in Hrun. apply Z.eqb_eq in Hrun. unfold block_refused in Hr. rewrite Hrun in Hr.
    rewrite (proj2 (Z.leb_gt _ _)), (proj2 (Z.eqb_neq _ _)) in Hr by (done || lia). done.
  - destruct (choice_cases _ (g_scheduler64_preferred_task s) _ Hb (so_preferred _ Hok) Hi) as [[_ Hno]|[Hn _]]; [by apply (Hno j)|done].
Qed.

(** The blocked task gives the processor away. *)
Lemma blocked_hands_over s f j : sched_ok s -> q_active (g_runqueue s) <> 0 ->
  t_state (task_at s (q_current_task (g_runqueue s))) = SCHEDULER64_TASK_BLOCKED -> calm s = true -> user_cs f = true ->
  eligible (g_runqueue s) (q_current_task (g_runqueue s)) j ->
  wp (scheduler64_runqueue_on_blocked_syscall f) (fun r s' => fst r = 1 /\ waiting (q_current_task (g_runqueue s)) f (fs_base_msr s) s') s.
Proof.
  intros Hok Ha Hb Hc Hu Hj. destruct (q_cur _ (so_queue _ Hok) Ha) as [Hi Hl]. pose proof (q_is_base _ (so_queue _ Hok)) as Hbase.
  pose proof (qb_frame _ Hbase _ _ (task_in_lookup _ _ Hbase Hi) Hl) as Hfv. set (cur := q_current_task (g_runqueue s)) in *.
  assert (Hg : blocked_ignores f s = false).
  { unfold blocked_ignores. cbv zeta. fold cur. unfold task_at in Hb.
    rewrite Hb, Hu, (proj2 (Z.eqb_neq _ 0)), (proj2 (Z.leb_gt _ _)), (proj2 (Z.eqb_neq _ 0)) by (done || lia). done. }
  pose proof Hc as [_ Hsw]%andb_true_iff. pose proof (parked_not_stuck f s j Hok Ha Hsw Hj Hg) as Hns.
  eapply wp_mono; [by apply blocked_wp|]. intros [v f'] s' [H Hok']. cbn [fst snd] in *.
  destruct H as [?|? _ ?|next f' s' s4 _ Hh _]; [congruence|done|]. split; [done|].
  destruct Hh as [He _ [= E1 E2 E3] Et Es Ep Eg _ _]. pose proof He as (Hn & Hne & _).
  assert (Hat : task_at s' cur = preempted f (fs_base_msr s) (task_at s cur)).
  { unfold task_at, task_in at 1. rewrite Et, list_lookup_alter_ne by lia. unfold parked. fold cur.
    rewrite list_lookup_alter, decide_True, (task_in_lookup _ _ Hbase Hi) by done. done. }
  split; rewrite ?Hat, ?E1, ?E2, ?E3; try done; [by unfold preempted; simpl; rewrite Hb|].
  eapply calm_ext; try done. rewrite Et. unfold parked. by rewrite !fmap_alter_same.
Qed.

(** A task that is woken while it waits runs after the next interrupt. *)
Lemma woken_runs t f base s : waiting t f base s ->
  wp (scheduler64_runqueue_wake_task_replay t) (fun v s1 => v = 1 /\ sched_ok s1 /\ calm s1 = true /\
    q_active (g_runqueue s1) <> 0 /\ 0 <= t < q_task_count (g_runqueue s1) /\ t <> q_current_task (g_runqueue s1) /\
    g_scheduler64_preferred_task s1 = t /\ runnable (task_at s1 t) = true /\
    t_frame (task_at s1 t) = f /\ t_fs_base (task_at s1 t) = base) s.
Proof.
  intros [Hok Ha Ht Hoff Hst Hf Hb Hc]. pose proof (q_is_base _ (so_queue _ Hok)) as Hbase. pose proof (task_in_lookup _ _ Hbase Ht) as Hlk.
  assert (Hfv : t_frame_valid (task_at s t) <> 0).
  { apply (qb_frame _ Hbase _ _ Hlk). unfold live. unfold task_at in Hst. by rewrite Hst. }
  eapply wp_mono; [apply wake_replay_wp; [done|lia]|]. intros v s1 [H Hok1].
  destruct H as [s1 Hr|s1 _ Et [= E1 E2 E3 E4] [= E5 E6 E7 E8] Ep].
  { exfalso. unfold wake_refused, task_at in *. rewrite Hst in Hr.
    rewrite (proj2 (Z.leb_gt _ _)), (proj2 (Z.eqb_neq _ 0)) in Hr by (done || lia). done. }
  assert (Hat : task_at s1 t = (task_at s t) <| t_frame := t_frame (task_at s t) |> <| t_state := SCHEDULER64_TASK_READY |>).
  { unfold task_at, task_in at 1. by rewrite Et, list_lookup_alter, decide_True, Hlk by done. }
  split_and!; try done; rewrite ?E1, ?E2, ?E3, ?Hat; try (done || lia).
  - apply (calm_ext s); [done|done|done|by rewrite E7|]. by rewrite Et, fmap_alter_same.
  - unfold runnable. simpl. by apply nz_true in Hfv as ->.
Qed.

Lemma preferred_runs t f base f2 s :
  sched_ok s -> calm s = true -> q_active (g_runqueue s) <> 0 -> 0 <= t < q_task_count (g_runqueue s) -> t <> q_current_task (g_runqueue s) ->
  g_scheduler64_preferred_task s = t -> runnable (task_at s t) = true -> t_frame (task_at s t) = f -> t_fs_base (task_at s t) = base ->
  user_cs f2 = true ->
  wp (scheduler64_runqueue_on_timer f2) (fun r s' => r = (1, f) /\ sched_ok s' /\ q_active (g_runqueue s') <> 0 /\
    q_current_task (g_runqueue s') = t /\ running (task_at s' t) = true /\ fs_base_msr s' = base) s.
Proof.
  intros Hok Hc Ha Ht Hoff Hp Hr Hf Hb Hu. destruct (q_cur _ (so_queue _ Hok) Ha) as [Hi _].
  assert (Hg : timer_ignores f2 s = false).
  { unfold timer_ignores. rewrite (proj2 (Z.eqb_neq _ 0)), (proj2 (Z.leb_gt _ _)), Hu by (done || lia). done. }
  assert (Hat : forall now, task_in (tick_queue now f2 s) t = task_at s t).
  { intros now. unfold task_at, task_in. simpl. rewrite calm_tasks, list_lookup_alter_ne by (done || lia). done. }
  assert (Hch : forall now pref s', ticked now pref f2 s s' -> choice (tick_queue now f2 s) pref (q_current_task (g_runqueue s)) = t).
  { intros now pref s' Hti. rewrite (tick_pref_quiet _ _ _ _ _ Hti (calm_due now s Hc)), Hp. unfold choice.
    change (q_task_count (tick_queue now f2 s)) with (q_task_count (g_runqueue s)). rewrite (proj2 (Z.eqb_neq _ 0)) by lia.
    unfold preferred_eligible. rewrite Hat, Hr. change (q_task_count (tick_queue now f2 s)) with (q_task_count (g_runqueue s)).
    by rewrite (proj2 (Z.ltb_lt _ _)), (proj2 (Z.eqb_neq _ _)) by (done || lia). }
  eapply wp_mono; [by apply timer_wp|]. intros [v f'] s' [H Hok']. cbn [fst snd] in H.
  destruct H as [?|now pref s' _ Hti Hwhy|now pref next s' _ Hti Hn Hel Hs Et Ecur Hcr Hfs]; [congruence|exfalso|].
  - cbv zeta in Hwhy. rewrite (Hch now pref s' Hti), Hat in Hwhy. destruct Hwhy as [E|E].
    + pose proof (qb_count _ (q_is_base _ (so_queue _ Hok))). unfold SCHEDULER64_INVALID_TASK, LIMIT in *. lia.
    + by rewrite (calm_at s t Hok Hc Ht) in E.
  - rewrite (Hch now pref s' Hti) in Hn. subst next. rewrite Hat in Hfs |- *.
    split_and!; try done; [by rewrite Hf|by destruct Hti as [_ _ _ _ _ _ [= -> _]]| |congruence].
    unfold task_at, task_in. rewrite Et, list_lookup_alter, decide_True by done. rewrite calm_tasks, list_lookup_alter_ne by (done || lia).
    rewrite (task_in_lookup _ _ (q_is_base _ (so_queue _ Hok)) Ht). done.
Qed.

End waiting.
End KernelQueue.
