(* ===== verification/KernelTheorems.v ===== *)
(** * Theorems about components put together

    The pipes of Pipe.v run over the scheduler of Scheduler.v and the process
    table of Process.v: [queue_for_pipes] discharges the interface
    [PipeWorld] with the calls of those components.  A reader and a writer
    that meet at a pipe are followed through both. *)

From S2P Require Import Prelude Principal Services64 Process ProcessFacts ProcessTheorems PersonaBudget Pipe PipeFacts PipeIO PipeTheorems Paging PagingFacts PagingTheorems Scheduler SchedFacts SchedOps SchedSteps SchedCalls SchedQueue SchedTheorems KernelPipes.
Import PersonaBudget Pipe PipeFacts PipeIO PipeTheorems KernelPipes.
Local Open Scope Z_scope.
Local Open Scope kernel_scope.

Module KernelTheorems.

Section kernel.
Context {W : Type} {sw : Scheduler.SchedWorld W} {launch : Process.LaunchEnv} {symbols : Paging.PagingSymbols} {layout : PagingFacts.PagingLayout}.

#[export] Instance queue_for_pipes : PipeWorld (Scheduler.sched_state W) := {|
  process64_principal pid s := fst (Process.process64_principal pid (Scheduler.sched_processes s));
  scheduler64_runqueue_current_task_id := Scheduler.scheduler64_runqueue_current_task_id;
  scheduler64_runqueue_task_state := Scheduler.scheduler64_runqueue_task_state;
  scheduler64_runqueue_task_pid := Scheduler.scheduler64_runqueue_task_pid;
  scheduler64_runqueue_block_task := Scheduler.scheduler64_runqueue_block_task;
  scheduler64_runqueue_wake_task_replay := Scheduler.scheduler64_runqueue_wake_task_replay |}.

Implicit Types s : pipe_state (Scheduler.sched_state W).

Definition current s : Z := Scheduler.q_current_task (Scheduler.g_runqueue (world s)).

(** The owner of the running task is the one the pipes ask for. *)
Lemma current_for_owner owner s :
  SchedOps.sched_ok (world s) ->
  pipe64_current_task_for_owner owner (world s) <> SCHEDULER64_INVALID_TASK ->
  pipe64_current_task_for_owner owner (world s) = current s /\
  Scheduler.q_active (Scheduler.g_runqueue (world s)) <> 0 /\
  SchedFacts.running (Scheduler.task_at (world s) (current s)) = true.
Proof.
  intros Hok. unfold pipe64_current_task_for_owner. cbn [scheduler64_runqueue_current_task_id queue_for_pipes].
  destruct (Z.eqb_spec (Scheduler.q_active (Scheduler.g_runqueue (world s))) 0) as [E|Ea].
  { unfold Scheduler.scheduler64_runqueue_current_task_id. by rewrite E. }
  destruct (SchedFacts.q_cur _ (SchedOps.so_queue _ Hok) Ea) as [Hi _]. fold (current s) in Hi.
  assert (Hid : Scheduler.scheduler64_runqueue_current_task_id (world s) = current s).
  { unfold Scheduler.scheduler64_runqueue_current_task_id. fold (current s).
    by rewrite (proj2 (Z.eqb_neq _ _) Ea), (proj2 (Z.leb_gt _ _)) by lia. }
  rewrite Hid. cbv zeta. destruct ((current s =? SCHEDULER64_INVALID_TASK) || _) eqn:E; [done|]. intros Hne.
  destruct (_ || _) in Hne |- *; [done|]. apply orb_false_iff in E as [_ E%negb_false_iff]. split_and!; [done|done|].
  cbn [scheduler64_runqueue_task_state queue_for_pipes] in E. unfold Scheduler.scheduler64_runqueue_task_state in E.
  by rewrite (proj2 (Z.leb_gt _ _)) in E by lia.
Qed.

(** The two open ends of one pipe. *)
Record joined (hr hw reader writer : Z) (i : nat) s : Prop := {
  jn_read : resolve hr reader s = Some i /\ pipe64_handle_kind hr = PIPE64_HANDLE_KIND_READ /\ reader_closed (pipe_at s i) = 0;
  jn_write : resolve hw writer s = Some i /\ pipe64_handle_kind hw = PIPE64_HANDLE_KIND_WRITE /\ writer_closed (pipe_at s i) = 0 }.

Lemma joined_same hr hw reader writer i s s' : same_data s s' -> joined hr hw reader writer i s -> joined hr hw reader writer i s'.
Proof.
  intros Hs [(H1 & H2 & H3) (H4 & H5 & H6)]. pose proof (same_data_at _ _ i Hs) as Hu.
  split; rewrite (resolve_same _ _ _ _ Hs); split_and!; try done.
  - change (reader_closed (untasked (pipe_at s' i)) = 0). by rewrite Hu.
  - change (writer_closed (untasked (pipe_at s' i)) = 0). by rewrite Hu.
Qed.

(** The reader is parked at its pipe, off the processor. *)
Record parked_reader (hr hw reader writer : Z) (i : nat) (t : Z) (f : Scheduler.interrupt_frame64) (base : Z) s : Prop := {
  pk_ready : ready s;
  pk_joined : joined hr hw reader writer i s;
  pk_queue : queue (pipe_at s i) = [];
  pk_task : blocked_reader_task_id (pipe_at s i) = t;
  pk_waiting : KernelQueue.waiting t f base (world s) }.

Lemma reader_parks s hr hw reader writer n j f i :
  ready s -> joined hr hw reader writer i s -> queue (pipe_at s i) = [] ->
  blocked_reader_task_id (pipe_at s i) = SCHEDULER64_INVALID_TASK ->
  SchedOps.sched_ok (world s) -> KernelQueue.calm (world s) = true ->
  pipe64_current_task_for_owner reader (world s) <> SCHEDULER64_INVALID_TASK ->
  SchedFacts.eligible (Scheduler.g_runqueue (world s)) (current s) j -> Scheduler.user_cs f = true -> 0 < n ->
  let (r1, s1) := pipe64_read hr n reader s in
  let (r2, s2) := on_world (Scheduler.scheduler64_runqueue_on_blocked_syscall f) s1 in
  r1 = (PIPE64_IO_BLOCKED, []) /\ fst r2 = 1 /\
  parked_reader hr hw reader writer i (current s) f (Scheduler.fs_base_msr (world s)) s2.
Proof.
  intros Hr Hj Hq Hslot Hok Hc Hcur Hel Hu Hn. pose proof Hj as [(R1 & R2 & R3) (_ & _ & W3)].
  destruct (current_for_owner reader s Hok Hcur) as (Ecur & Ha & Hrun).
  pose proof (KernelQueue.block_current (world s) j Hok Ha Hrun Hel) as Hb. unfold wp in Hb. fold (current s) in Hb.
  destruct Hb as (Eb & Hok1 & Et & [= E1 E2 E3 E4] & [= E5 E6 E7 E8]).
  assert (Hbc : byte_count (pipe_at s i) = 0).
  { pose proof (length_queue (pipe_at s i)) as Hlq. rewrite Hq in Hlq.
    pose proof (po_count _ (oo_buffer _ _ (ready_at s i Hr (proj1 (resolve_Some _ _ _ _ R1))))). simpl in Hlq. lia. }
  destruct (read_blocks hr n reader s i Hr R1 R2 R3 W3 Hbc Hslot Hn Hcur) as (s1 & -> & Hat & Hw & Hs1).
  { rewrite Ecur. cbn [scheduler64_runqueue_block_task queue_for_pipes]. by rewrite Eb. }
  rewrite Ecur in Hat, Hw. cbn [scheduler64_runqueue_block_task queue_for_pipes] in Hw. rewrite <- Hw in *.
  destruct (on_world_same (Scheduler.scheduler64_runqueue_on_blocked_syscall f) s1) as (Hs2 & Hw2 & Er2 & Hp2).
  destruct (on_world _ s1) as [r2 s2]. cbn [fst snd] in *. split; [done|].
  destruct (SchedFacts.q_cur _ (SchedOps.so_queue _ Hok) Ha) as [Hi _]. fold (current s) in Hi.
  pose proof (SchedFacts.task_in_lookup _ _ (SchedFacts.q_is_base _ (SchedOps.so_queue _ Hok)) Hi) as Hlk.
  pose proof (KernelQueue.blocked_hands_over (world s1) f j Hok1) as Hb. unfold wp in Hb. rewrite E1, E3, E8 in Hb. fold (current s) in Hb.
  destruct Hb as [Hv Hwt]; try done.
  - unfold Scheduler.task_at, Scheduler.task_in. by rewrite Et, list_lookup_alter, decide_True, Hlk by done.
  - apply (KernelQueue.calm_ext (world s)); [done|done|done|by rewrite E7|]. by rewrite Et, KernelQueue.fmap_alter_same.
  - pose proof (SchedTheorems.block_done_eligible (world s) (world s1) j Hok Ha Et) as He. rewrite E3 in He. apply He; [|done].
    unfold SchedQueue.q_frame. congruence.
  - rewrite Er2. split; [done|]. assert (Hs : same_data s s2) by (by transitivity s1). split.
    + by eapply ready_same.
    + by eapply joined_same.
    + by rewrite (same_data_queue _ _ i Hs).
    + by rewrite Hp2, Hat.
    + by rewrite Hw2.
Qed.

Lemma reader_resumes s hr hw reader writer n t f base f2 data i :
  parked_reader hr hw reader writer i t f base s -> Scheduler.user_cs f2 = true ->
  0 < n -> data <> [] -> Z.of_nat (length data) <= PIPE64_BUFFER_BYTES ->
  let (r3, s3) := pipe64_write hw data writer s in
  let (r4, s4) := on_world (Scheduler.scheduler64_runqueue_on_timer f2) s3 in
  let (r5, s5) := pipe64_read hr n reader s4 in
  r3 = Z.of_nat (length data) /\
  (r4 = (1, f) /\ current s4 = t /\ Scheduler.fs_base_msr (world s4) = base) /\
  r5 = (Z.of_nat (length (take (Z.to_nat n) data)), take (Z.to_nat n) data).
Proof.
  intros [Hr Hj Hq Ht Hwt] Hu Hn Hd Hlen. pose proof Hj as [(R1 & R2 & R3) (W1 & W2 & W3)].
  pose proof W1 as (Hi & _ & Hl & _)%resolve_Some. pose proof (ready_at s i Hr Hi) as Ho.
  assert (Hlt : (i < length (g_pipe64_objects s))%nat) by by rewrite (rd_length _ Hr).
  assert (Hroom : (length data <= room (pipe_at s i))%nat).
  { pose proof (queue_room _ (oo_buffer _ _ Ho)) as Hqr. rewrite Hq in Hqr. simpl in Hqr. unfold PIPE64_BUFFER_BYTES in *. lia. }
  assert (Htv : t <> SCHEDULER64_INVALID_TASK).
  { pose proof (SchedFacts.qb_count _ (SchedFacts.q_is_base _ (SchedOps.so_queue _ (KernelQueue.wt_ok _ _ _ _ Hwt)))) as Hcn.
    pose proof (KernelQueue.wt_task _ _ _ _ Hwt). change (Z.of_nat SchedFacts.LIMIT) with 16 in Hcn. unfold SCHEDULER64_INVALID_TASK. lia. }
  destruct (write_wakes hw data writer s i Hr W1 W2 R3 W3 Hd Hroom) as (s3 & -> & Hw3 & Hs3); [by rewrite Ht|].
  rewrite Ht in Hw3. cbn [scheduler64_runqueue_wake_task_replay queue_for_pipes] in Hw3.
  pose proof (KernelQueue.woken_runs t f base (world s) Hwt) as Hwk. unfold wp in Hwk. rewrite <- Hw3 in Hwk.
  destruct Hwk as (_ & Hok3 & Hc3 & Ha3 & Ht3 & Hoff3 & Hp3 & Hr3 & Hf3 & Hb3).
  destruct (on_world_same (Scheduler.scheduler64_runqueue_on_timer f2) s3) as (Hs4 & Hw4 & Er4 & _).
  destruct (on_world _ s3) as [r4 s4]. cbn [fst snd] in *.
  pose proof (KernelQueue.preferred_runs t f base f2 (world s3) Hok3 Hc3 Ha3 Ht3 Hoff3 Hp3 Hr3 Hf3 Hb3 Hu) as Htm.
  unfold wp in Htm. rewrite <- Hw4, <- Er4 in Htm. destruct Htm as (E4 & Hok4 & _ & Hcur4 & _ & Hfs4).
  assert (Hs : same_data (upd i (put_bytes data) s) s4) by (by transitivity s3).
  assert (Hr' : ready (upd i (put_bytes data) s)) by (apply ready_upd; [done|by apply object_ok_puts]).
  destruct (put_bytes_meta data (pipe_at s i)) as [[= M1 M2 M3 M4 M5 M6 M7] _].
  destruct (put_bytes_ok data (pipe_at s i) (oo_buffer _ _ Ho) Hroom) as (_ & Hq' & _). rewrite Hq in Hq'. simpl in Hq'.
  assert (Hq4 : queue (pipe_at s4 i) = data) by (by rewrite (same_data_queue _ _ i Hs), pipe_at_upd).
  pose proof (read_delivers hr n reader s4 i) as Hread. rewrite Hq4 in Hread. cbv zeta in Hread.
  destruct (pipe64_read hr n reader s4) as [r5 s5]. cbn [fst] in Hread. split_and!; try done. apply Hread; try done.
  - by eapply ready_same.
  - rewrite (resolve_same _ _ _ _ Hs). by apply resolve_put.
  - pose proof (same_data_at _ _ i Hs) as Hu4. change (reader_closed (untasked (pipe_at s4 i)) = 0). rewrite Hu4, pipe_at_upd by done.
    change (reader_closed (put_bytes data (pipe_at s i)) = 0). congruence.
Qed.

(** C11: In a queue without sleepers, a reader that finds its pipe empty gives
    the processor to another task; when the next thing that happens is a
    nonempty write that fits the buffer, it wakes the reader, and the timer
    interrupt that follows puts the reader back on the processor with exactly
    the registers and the FS base it blocked with, so that it repeats its
    read, and that read returns the first bytes that were written.  The
    schedule is this fixed one: read, blocked system call, write, timer, read;
    nothing is said of a write larger than the buffer, which blocks the
    writer. *)
Theorem pipe_wakeup_reaches_reader (s : pipe_state (Scheduler.sched_state W)) (hr hw reader writer n j : Z) (data : list Z)
    (f f2 : Scheduler.interrupt_frame64) (i : nat) :
  ready s -> joined hr hw reader writer i s -> queue (pipe_at s i) = [] ->
  blocked_reader_task_id (pipe_at s i) = SCHEDULER64_INVALID_TASK ->
  SchedOps.sched_ok (world s) -> KernelQueue.calm (world s) = true ->
  pipe64_current_task_for_owner reader (world s) <> SCHEDULER64_INVALID_TASK ->
  SchedFacts.eligible (Scheduler.g_runqueue (world s)) (current s) j ->
  Scheduler.user_cs f = true -> Scheduler.user_cs f2 = true ->
  0 < n -> data <> [] -> Z.of_nat (length data) <= PIPE64_BUFFER_BYTES ->
  let (r1, s1) := pipe64_read hr n reader s in
  let (r2, s2) := on_world (Scheduler.scheduler64_runqueue_on_blocked_syscall f) s1 in
  let (r3, s3) := pipe64_write hw data writer s2 in
  let (r4, s4) := on_world (Scheduler.scheduler64_runqueue_on_timer f2) s3 in
  let (r5, s5) := pipe64_read hr n reader s4 in
  r1 = (PIPE64_IO_BLOCKED, []) /\ (fst r2 = 1 /\ current s2 <> current s) /\ r3 = Z.of_nat (length data) /\
  (r4 = (1, f) /\ current s4 = current s /\ Scheduler.fs_base_msr (world s4) = Scheduler.fs_base_msr (world s)) /\
  r5 = (Z.of_nat (length (take (Z.to_nat n) data)), take (Z.to_nat n) data).
Proof.
  intros Hr Hj Hq Hslot Hok Hc Hcur Hel Hu Hu2 Hn Hd Hlen.
  pose proof (reader_parks s hr hw reader writer n j f i Hr Hj Hq Hslot Hok Hc Hcur Hel Hu Hn) as H1.
  destruct (pipe64_read hr n reader s) as [r1 s1], (on_world _ s1) as [r2 s2]. destruct H1 as (E1 & E2 & Hp).
  pose proof (reader_resumes s2 hr hw reader writer n (current s) f _ f2 data i Hp Hu2 Hn Hd Hlen) as H2.
  destruct (pipe64_write hw data writer s2) as [r3 s3], (on_world _ s3) as [r4 s4], (pipe64_read hr n reader s4) as [r5 s5].
  destruct H2 as (E3 & (E41 & E42 & E43) & E5). pose proof (KernelQueue.wt_off _ _ _ _ (pk_waiting _ _ _ _ _ _ _ _ _ Hp)) as Hoff.
  by split_and!.
Qed.
End kernel.

(** ** The small machine of SchedTheorems.v with one pipe

    Process 4 runs, and the pipe belongs to its principal. *)

#[local] Existing Instance SchedTheorems.demo_ticks.
#[local] Existing Instance ProcTheorems.demo_launch.
#[local] Existing Instance PagingTheorems.demo_symbols.
#[local] Existing Instance PagingTheorems.demo_layout.

Definition demo_owner : Z := fst (Process.process64_principal 4 (Scheduler.sched_processes SchedTheorems.demo_sched)).
Definition demo_kernel : pipe_state (Scheduler.sched_state Z) :=
  upd 0 (fun _ => opened 0 2 4 demo_owner)
    (snd (pipe64_init (mk_pipe_state (replicate PIPE64_MAX_OBJECTS (cleared 0)) 0 0 0 0 0 (mk_persona_state ∅ 0) SchedTheorems.demo_sched))).

Lemma demo_kernel_ready : ready demo_kernel.
Proof.
  apply ready_upd; [|by apply object_ok_opened]. apply boot_ready; [done|]. apply length_replicate.
Qed.

Lemma demo_kernel_world : world demo_kernel = SchedTheorems.demo_sched.
Proof. by vm_compute. Qed.

Lemma demo_kernel_facts :
  resolve rh demo_owner demo_kernel = Some 0%nat /\ resolve wh demo_owner demo_kernel = Some 0%nat /\
  reader_closed (pipe_at demo_kernel 0) = 0 /\ writer_closed (pipe_at demo_kernel 0) = 0 /\
  queue (pipe_at demo_kernel 0) = [] /\ blocked_reader_task_id (pipe_at demo_kernel 0) = SCHEDULER64_INVALID_TASK /\
  pipe64_current_task_for_owner demo_owner SchedTheorems.demo_sched = 0 /\ KernelQueue.calm SchedTheorems.demo_sched = true.
Proof. by vm_compute. Qed.

Lemma demo_kernel_joined : joined rh wh demo_owner demo_owner 0 demo_kernel.
Proof. destruct demo_kernel_facts as (H1 & H2 & H3 & H4 & _). exact (Build_joined _ _ _ _ _ _ (conj H1 (conj eq_refl H3)) (conj H2 (conj eq_refl H4))). Qed.

Lemma demo_kernel_ok : SchedOps.sched_ok (world demo_kernel) /\ KernelQueue.calm (world demo_kernel) = true /\
  pipe64_current_task_for_owner demo_owner (world demo_kernel) <> SCHEDULER64_INVALID_TASK /\
  SchedFacts.eligible (Scheduler.g_runqueue (world demo_kernel)) (current demo_kernel) 2.
Proof.
  destruct demo_kernel_facts as (_ & _ & _ & _ & _ & _ & H & Hc). unfold current. rewrite demo_kernel_world, H.
  split; [apply SchedTheorems.demo_sched_ok|]. split; [exact Hc|]. split; [discriminate|apply SchedTheorems.demo_eligible].
Qed.

Lemma demo_data : [7; 8; 9] <> [] /\ Z.of_nat (length [7; 8; 9]) <= PIPE64_BUFFER_BYTES.
Proof. done. Qed.

Lemma pipe_wakeup_reaches_reader_witness :
  let (r1, s1) := pipe64_read rh 2 demo_owner demo_kernel in
  let (r2, s2) := on_world (Scheduler.scheduler64_runqueue_on_blocked_syscall (SchedTheorems.demo_frame 0x1010)) s1 in
  let (r3, s3) := pipe64_write wh [7; 8; 9] demo_owner s2 in
  let (r4, s4) := on_world (Scheduler.scheduler64_runqueue_on_timer (SchedTheorems.demo_frame 0x3010)) s3 in
  let (r5, s5) := pipe64_read rh 2 demo_owner s4 in
  r1 = (PIPE64_IO_BLOCKED, []) /\ (fst r2 = 1 /\ current s2 <> current demo_kernel) /\ r3 = Z.of_nat (length [7; 8; 9]) /\
  (r4 = (1, SchedTheorems.demo_frame 0x1010) /\ current s4 = current demo_kernel /\
   Scheduler.fs_base_msr (world s4) = Scheduler.fs_base_msr (world demo_kernel)) /\
  r5 = (Z.of_nat (length (take (Z.to_nat 2) [7; 8; 9])), take (Z.to_nat 2) [7; 8; 9]).
Proof.
  destruct demo_kernel_ok as (H1 & H2 & H3 & H4). destruct demo_data as [D1 D2].
  destruct demo_kernel_facts as (_ & _ & _ & _ & F1 & F2 & _).
  pose proof (pipe_wakeup_reaches_reader demo_kernel rh wh demo_owner demo_owner 2 2 [7; 8; 9]
    (SchedTheorems.demo_frame 0x1010) (SchedTheorems.demo_frame 0x3010) 0) as H.
  specialize (H demo_kernel_ready demo_kernel_joined F1 F2 H1 H2 H3 H4).
  specialize (H eq_refl eq_refl eq_refl D1 D2). exact H.
Defined.

End KernelTheorems.
