(* ===== verification/VmaTree.v ===== *)
(** * The region tree of an address space: kernel/arch/x86_64/vma.c

    A process's address space is a set of regions, linked twice over the
    same nodes: a doubly linked list in address order and a red-black tree
    with parent pointers.  This file has the data, the tree and list routines
    of vma.c, which only touch one [vma_tree_t] and the region pool; Vma.v
    has the calls that use them.  A pointer to a region is its index in
    [g_vma64_regions], and [None] is NULL.  The loops that follow links carry
    fuel, [VMA64_MAX_STATIC_REGIONS + 1] steps, one more than there are
    nodes; VmaRb.v and VmaList.v show that it never runs out. *)

From S2P Require Import Prelude.
Local Open Scope Z_scope.
Local Open Scope kernel_scope.

Module VmaTree.

Definition VMA64_PAGE_BYTES : Z := 0x1000.
Definition VMA64_INVALID_TOKEN : Z := 0.
Definition VMA64_BACKING_HANDLE_NONE : Z := 0xFFFFFFFF.
Definition VMA64_MAX_STATIC_REGIONS : nat := 1152.
Definition VMA64_RB_RED : Z := 0.
Definition VMA64_RB_BLACK : Z := 1.

Record vma_region_t := mk_region {
  virt_base : Z; virt_end : Z; phys_base : Z; prot_flags : Z; map_flags : Z;
  backing_type : Z; backing_handle : Z; vma_token : Z; reserved : Z;
  prev : option nat; next : option nat;
  rb_parent : option nat; rb_left : option nat; rb_right : option nat; rb_color : Z }.

#[export] Instance eta_region : Eta vma_region_t := {| eta r :=
  mk_region (virt_base r) (virt_end r) (phys_base r) (prot_flags r) (map_flags r)
    (backing_type r) (backing_handle r) (vma_token r) (reserved r) (prev r) (next r)
    (rb_parent r) (rb_left r) (rb_right r) (rb_color r) |}.

Record vma_tree_t := mk_tree {
  head : option nat; rb_root : option nat; region_count : Z; peak_region_count : Z;
  mapped_bytes : Z; peak_mapped_bytes : Z; brk_base : Z; brk_current : Z; brk_peak : Z }.

#[export] Instance eta_tree : Eta vma_tree_t := {| eta t :=
  mk_tree (head t) (rb_root t) (region_count t) (peak_region_count t) (mapped_bytes t)
    (peak_mapped_bytes t) (brk_base t) (brk_current t) (brk_peak t) |}.

Definition vma64_clear_tree : vma_tree_t := mk_tree None None 0 0 0 0 0 0 0.

Definition vma64_clear_region : vma_region_t :=
  mk_region 0 0 0 0 0 0 VMA64_BACKING_HANDLE_NONE VMA64_INVALID_TOKEN 0
    None None None None None VMA64_RB_BLACK.

(** ** Ranges and pages *)

Definition vma64_align_up (value alignment : Z) : Z :=
  if alignment =? 0 then value
  else
    let mask := sub64 alignment 1 in
    if nz (Z.land alignment mask) then 0 else Z.land (add64 value mask) (not64 mask).

Definition vma64_align_down (value alignment : Z) : Z :=
  if alignment =? 0 then value else Z.land value (not64 (sub64 alignment 1)).

Definition vma64_page_count_from_length (len : Z) : Z :=
  if (len =? 0) || nz (Z.land len (VMA64_PAGE_BYTES - 1)) || (U32_MAX <? len / VMA64_PAGE_BYTES)
  then 0 else len / VMA64_PAGE_BYTES.

Definition vma64_range_valid (base end_ : Z) : bool :=
  negb ((end_ <=? base) || nz (Z.land base (VMA64_PAGE_BYTES - 1))
        || nz (Z.land end_ (VMA64_PAGE_BYTES - 1))).

Definition vma64_ranges_overlap (left_base left_end right_base right_end : Z) : bool :=
  (left_base <? right_end) && (right_base <? left_end).

Definition vma64_split_token (token salt : Z) : Z :=
  let split := Z.lxor token salt in
  if negb (split =? VMA64_INVALID_TOKEN) then split else salt.

(** ** One tree and the region pool *)

Record vma_heap := mk_heap { tree : vma_tree_t; regions : list vma_region_t }.

#[export] Instance eta_heap : Eta vma_heap := {| eta h := mk_heap (tree h) (regions h) |}.

Abbreviation RM := (ST vma_heap).

Definition region_at (h : vma_heap) (i : nat) : vma_region_t :=
  default vma64_clear_region (regions h !! i).
Definition put_region (i : nat) (f : vma_region_t -> vma_region_t) (h : vma_heap) : vma_heap :=
  mk_heap (tree h) (alter f i (regions h)).
Definition put_tree (f : vma_tree_t -> vma_tree_t) (h : vma_heap) : vma_heap :=
  mk_heap (f (tree h)) (regions h).
Definition set_region (i : nat) (f : vma_region_t -> vma_region_t) : RM unit := modify (put_region i f).
Definition set_tree (f : vma_tree_t -> vma_tree_t) : RM unit := modify (put_tree f).

(** Steps that follow every node of a list or a path and one more. *)
Definition link_fuel : nat := S VMA64_MAX_STATIC_REGIONS.
Arguments link_fuel : simpl never.

Definition vma64_region_is_red (h : vma_heap) (region : option nat) : bool :=
  match region with Some i => rb_color (region_at h i) =? VMA64_RB_RED | None => false end.

(** [node->rb_parent]'s child pointer, or the root, now points to [child]. *)
Definition replace_child_left (parent : option nat) (node child : nat) : RM unit :=
  match parent with
  | None => set_tree (fun t => t <| rb_root := Some child |>)
  | Some p =>
      l <- gets (fun h => rb_left (region_at h p)) ;;
      if bool_decide (Some node = l)
      then set_region p (fun r => r <| rb_left := Some child |>)
      else set_region p (fun r => r <| rb_right := Some child |>)
  end.

Definition replace_child_right (parent : option nat) (node child : nat) : RM unit :=
  match parent with
  | None => set_tree (fun t => t <| rb_root := Some child |>)
  | Some p =>
      r <- gets (fun h => rb_right (region_at h p)) ;;
      if bool_decide (Some node = r)
      then set_region p (fun r => r <| rb_right := Some child |>)
      else set_region p (fun r => r <| rb_left := Some child |>)
  end.

Definition vma64_rb_rotate_left (node : nat) : RM unit :=
  rt <- gets (fun h => rb_right (region_at h node)) ;;
  match rt with
  | None => ret tt
  | Some rt =>
      inner <- gets (fun h => rb_left (region_at h rt)) ;;
      set_region node (fun r => r <| rb_right := inner |>) ;;;
      match inner with
      | Some b => set_region b (fun r => r <| rb_parent := Some node |>)
      | None => ret tt
      end ;;;
      parent <- gets (fun h => rb_parent (region_at h node)) ;;
      set_region rt (fun r => r <| rb_parent := parent |>) ;;;
      replace_child_left parent node rt ;;;
      set_region rt (fun r => r <| rb_left := Some node |>) ;;;
      set_region node (fun r => r <| rb_parent := Some rt |>)
  end.

Definition vma64_rb_rotate_right (node : nat) : RM unit :=
  lt <- gets (fun h => rb_left (region_at h node)) ;;
  match lt with
  | None => ret tt
  | Some lt =>
      inner <- gets (fun h => rb_right (region_at h lt)) ;;
      set_region node (fun r => r <| rb_left := inner |>) ;;;
      match inner with
      | Some b => set_region b (fun r => r <| rb_parent := Some node |>)
      | None => ret tt
      end ;;;
      parent <- gets (fun h => rb_parent (region_at h node)) ;;
      set_region lt (fun r => r <| rb_parent := parent |>) ;;;
      replace_child_right parent node lt ;;;
      set_region lt (fun r => r <| rb_right := Some node |>) ;;;
      set_region node (fun r => r <| rb_parent := Some lt |>)
  end.

Definition paint (i : nat) (c : Z) : RM unit := set_region i (fun r => r <| rb_color := c |>).

(** The two colour changes and the outer rotation that end the fixup, once
    [parent] and [grandparent] are known. *)
Definition recolor_and_rotate (parent grandparent : option nat) (rotate : nat -> RM unit) : RM unit :=
  match parent, grandparent with
  | Some p, Some g => paint p VMA64_RB_BLACK ;;; paint g VMA64_RB_RED ;;; rotate g
  | _, _ => ret tt
  end.

Definition grandparent_of (h : vma_heap) (parent : option nat) : option nat :=
  match parent with Some p => rb_parent (region_at h p) | None => None end.

Fixpoint fixup_loop (fuel : nat) (node : nat) : RM unit :=
  match fuel with
  | O => ret tt
  | S fuel' =>
      parent <- gets (fun h => rb_parent (region_at h node)) ;;
      red <- gets (fun h => vma64_region_is_red h parent) ;;
      match parent with
      | None => ret tt
      | Some p =>
          if negb red then ret tt
          else
            grandparent <- gets (fun h => rb_parent (region_at h p)) ;;
            match grandparent with
            | None => ret tt
            | Some g =>
                gl <- gets (fun h => rb_left (region_at h g)) ;;
                if bool_decide (Some p = gl) then
                  uncle <- gets (fun h => rb_right (region_at h g)) ;;
                  uncle_red <- gets (fun h => vma64_region_is_red h uncle) ;;
                  match uncle, uncle_red with
                  | Some u, true =>
                      paint p VMA64_RB_BLACK ;;; paint u VMA64_RB_BLACK ;;; paint g VMA64_RB_RED ;;;
                      fixup_loop fuel' g
                  | _, _ =>
                      pr <- gets (fun h => rb_right (region_at h p)) ;;
                      if bool_decide (Some node = pr) then
                        vma64_rb_rotate_left p ;;;
                        parent' <- gets (fun h => rb_parent (region_at h p)) ;;
                        grandparent' <- gets (fun h => grandparent_of h parent') ;;
                        recolor_and_rotate parent' grandparent' vma64_rb_rotate_right ;;;
                        fixup_loop fuel' p
                      else
                        recolor_and_rotate (Some p) (Some g) vma64_rb_rotate_right ;;;
                        fixup_loop fuel' node
                  end
                else
                  uncle <- gets (fun h => rb_left (region_at h g)) ;;
                  uncle_red <- gets (fun h => vma64_region_is_red h uncle) ;;
                  match uncle, uncle_red with
                  | Some u, true =>
                      paint p VMA64_RB_BLACK ;;; paint u VMA64_RB_BLACK ;;; paint g VMA64_RB_RED ;;;
                      fixup_loop fuel' g
                  | _, _ =>
                      pl <- gets (fun h => rb_left (region_at h p)) ;;
                      if bool_decide (Some node = pl) then
                        vma64_rb_rotate_right p ;;;
                        parent' <- gets (fun h => rb_parent (region_at h p)) ;;
                        grandparent' <- gets (fun h => grandparent_of h parent') ;;
                        recolor_and_rotate parent' grandparent' vma64_rb_rotate_left ;;;
                        fixup_loop fuel' p
                      else
                        recolor_and_rotate (Some p) (Some g) vma64_rb_rotate_left ;;;
                        fixup_loop fuel' node
                  end
            end
      end
  end.

Definition vma64_rb_insert_fixup (node : nat) : RM unit :=
  fixup_loop link_fuel node ;;;
  root <- gets (fun h => rb_root (tree h)) ;;
  match root with Some r => paint r VMA64_RB_BLACK | None => ret tt end.

(** The descent of [vma64_rb_insert]: the parent of the free position, or
    [None] when the base address is taken. *)
Fixpoint descend (fuel : nat) (h : vma_heap) (base : Z) (cursor parent : option nat) : option (option nat) :=
  match fuel, cursor with
  | _, None => Some parent
  | O, Some _ => None
  | S fuel', Some c =>
      let r := region_at h c in
      if base <? virt_base r then descend fuel' h base (rb_left r) (Some c)
      else if virt_base r <? base then descend fuel' h base (rb_right r) (Some c)
      else None
  end.

Definition clear_links (c : Z) (r : vma_region_t) : vma_region_t :=
  r <| rb_parent := None |> <| rb_left := None |> <| rb_right := None |> <| rb_color := c |>.

Definition vma64_rb_insert (region : nat) : RM Z :=
  set_region region (clear_links VMA64_RB_RED) ;;;
  base <- gets (fun h => virt_base (region_at h region)) ;;
  found <- gets (fun h => descend link_fuel h base (rb_root (tree h)) None) ;;
  match found with
  | None => ret 0
  | Some parent =>
      set_region region (fun r => r <| rb_parent := parent |>) ;;;
      match parent with
      | None => set_tree (fun t => t <| rb_root := Some region |>)
      | Some p =>
          pbase <- gets (fun h => virt_base (region_at h p)) ;;
          if base <? pbase
          then set_region p (fun r => r <| rb_left := Some region |>)
          else set_region p (fun r => r <| rb_right := Some region |>)
      end ;;;
      vma64_rb_insert_fixup region ;;;
      ret 1
  end.

Fixpoint rebuild_loop (fuel : nat) (cursor : option nat) : RM unit :=
  match fuel, cursor with
  | S fuel', Some c =>
      set_region c (clear_links VMA64_RB_BLACK) ;;;
      vma64_rb_insert c ;;;
      next <- gets (fun h => next (region_at h c)) ;;
      rebuild_loop fuel' next
  | _, _ => ret tt
  end.

Definition vma64_rb_rebuild : RM unit :=
  set_tree (fun t => t <| rb_root := None |>) ;;;
  first <- gets (fun h => head (tree h)) ;;
  rebuild_loop link_fuel first.

(** ** The list in address order *)

(** [while (cursor != 0 && !stop(cursor)) cursor = cursor->next;] *)
Fixpoint walk (fuel : nat) (h : vma_heap) (stop : nat -> bool) (cursor : option nat) : option nat :=
  match fuel, cursor with
  | S fuel', Some c => if stop c then Some c else walk fuel' h stop (next (region_at h c))
  | _, _ => None
  end.

(** Take [region] out of the list: the statements shared by
    [vma64_detach_region] and the undo path of [vma64_insert]. *)
Definition unlink (region : nat) : RM unit :=
  r <- gets (fun h => region_at h region) ;;
  match prev r with
  | Some p => set_region p (fun q => q <| next := next r |>)
  | None => set_tree (fun t => t <| head := next r |>)
  end ;;;
  match next r with
  | Some n => set_region n (fun q => q <| prev := prev r |>)
  | None => ret tt
  end.

(** The counters after a detachment; both stop at 0. *)
Definition account_detach (bytes : Z) (t : vma_tree_t) : vma_tree_t :=
  t <| region_count := if nz (region_count t) then dec32 (region_count t) else region_count t |>
    <| mapped_bytes := if bytes <=? mapped_bytes t then sub64 (mapped_bytes t) bytes else 0 |>.

Definition vma64_detach_region (region : nat) : RM (option nat) :=
  found <- gets (fun h => walk link_fuel h (Nat.eqb region) (head (tree h))) ;;
  match found with Some _ => unlink region | None => ret tt end ;;;
  r <- gets (fun h => region_at h region) ;;
  let bytes := sub64 (virt_end r) (virt_base r) in
  set_region region (fun r => r <| prev := None |> <| next := None |>) ;;;
  set_tree (account_detach bytes) ;;;
  set_region region (clear_links VMA64_RB_BLACK) ;;;
  vma64_rb_rebuild ;;;
  ret (Some region).

(** The overlap scan of [vma64_insert]: the neighbours of the free place, or
    [None] on an overlap. *)
Fixpoint insert_scan (fuel : nat) (h : vma_heap) (base end_ : Z) (previous cursor : option nat)
    : option (option nat * option nat) :=
  match fuel, cursor with
  | _, None => Some (previous, None)
  | O, Some _ => None
  | S fuel', Some c =>
      let r := region_at h c in
      if vma64_ranges_overlap base end_ (virt_base r) (virt_end r) then None
      else if base <? virt_base r then Some (previous, Some c)
      else insert_scan fuel' h base end_ (Some c) (next r)
  end.

(** The counters and peaks after an insertion. *)
Definition account_insert (bytes : Z) (t : vma_tree_t) : vma_tree_t :=
  let count := inc32 (region_count t) in
  let mapped := add64 (mapped_bytes t) bytes in
  t <| region_count := count |> <| mapped_bytes := mapped |>
    <| peak_region_count := if peak_region_count t <? count then count else peak_region_count t |>
    <| peak_mapped_bytes := if peak_mapped_bytes t <? mapped then mapped else peak_mapped_bytes t |>.

(** The rest of [vma64_insert] once the budget has been checked. *)
Definition insert_link (region : nat) (previous cursor : option nat) : RM Z :=
  r <- gets (fun h => region_at h region) ;;
  let bytes := sub64 (virt_end r) (virt_base r) in
  set_region region (fun r => r <| prev := previous |> <| next := cursor |>) ;;;
  match previous with
  | Some p => set_region p (fun q => q <| next := Some region |>)
  | None => set_tree (fun t => t <| head := Some region |>)
  end ;;;
  match cursor with
  | Some c => set_region c (fun q => q <| prev := Some region |>)
  | None => ret tt
  end ;;;
  ok <- vma64_rb_insert region ;;
  if ok =? 0 then
    unlink region ;;;
    set_region region (fun r => r <| prev := None |> <| next := None |>) ;;;
    set_region region (clear_links VMA64_RB_BLACK) ;;;
    vma64_rb_rebuild ;;;
    ret 0
  else
    set_tree (account_insert bytes) ;;;
    ret 1.

(** ** Lookups *)

(** The descent of [vma64_find], with the number of nodes visited.  The C
    loop itself stops after [VMA64_MAX_STATIC_REGIONS + 1] nodes. *)
Fixpoint find_loop (fuel : nat) (h : vma_heap) (address : Z) (cursor : option nat) (steps : Z)
    : option nat * Z :=
  match fuel, cursor with
  | S fuel', Some c =>
      let r := region_at h c in
      if (virt_base r <=? address) && (address <? virt_end r) then (Some c, steps + 1)
      else if address <? virt_base r then find_loop fuel' h address (rb_left r) (steps + 1)
      else find_loop fuel' h address (rb_right r) (steps + 1)
  | _, _ => (None, steps)
  end.

Fixpoint gap_loop (fuel : nat) (h : vma_heap) (len alignment candidate : Z) (cursor : option nat) : Z :=
  match fuel, cursor with
  | S fuel', Some c =>
      let r := region_at h c in
      let clash := (candidate <? virt_end r) && (virt_base r <? add64 candidate len) in
      let candidate' := if clash then vma64_align_up (virt_end r) alignment else candidate in
      if clash && (candidate' =? 0) then 0
      else if add64 candidate' len <=? virt_base r then candidate'
      else gap_loop fuel' h len alignment candidate' (next r)
  | _, _ => candidate
  end.

Definition find_gap (h : vma_heap) (min_addr max_addr len alignment : Z) : Z :=
  if (len =? 0) || (max_addr <=? min_addr) then 0
  else
    let start := vma64_align_up min_addr alignment in
    if start =? 0 then 0
    else
      let candidate := gap_loop link_fuel h len alignment start (head (tree h)) in
      if (candidate <? min_addr) || (add64 candidate len <? candidate)
         || (max_addr <? add64 candidate len)
      then 0 else candidate.

Definition vma64_region_physical_for_address (r : vma_region_t) (address : Z) : Z :=
  if (phys_base r =? 0) || (phys_base r =? 0xFFFFFFFFFFFFFFFF)
     || (address <? virt_base r) || (virt_end r <=? address)
  then 0 else add64 (phys_base r) (sub64 address (virt_base r)).

End VmaTree.
