(* ===== verification/RbTree.v ===== *)
(** * Red-black trees with a zipper

    The reference definitions for the region tree: a binary tree whose nodes
    carry a colour and a region index, the path from a position up to the
    root as a list of frames, insertion at the bottom of a search path and
    the bottom-up repair.  Facts: the in-order sequence, the red-black
    invariant and the height bound.  VmaRb.v shows that the pointer code
    computes these functions. *)

From stdpp Require Import sorting.
From S2P Require Import Prelude.

Module RbTree.

Inductive color := Red | Black.

#[export] Instance color_eq_dec : EqDecision color.
Proof. solve_decision. Defined.

Inductive rbt := E | T (c : color) (l : rbt) (i : nat) (r : rbt).

(** The hole is the left ([FL]) or right ([FR]) child of node [i]. *)
Inductive frame := FL (c : color) (i : nat) (r : rbt) | FR (c : color) (i : nat) (l : rbt).

Fixpoint elems (t : rbt) : list nat :=
  match t with E => [] | T _ l i r => elems l ++ i :: elems r end.

Definition plug1 (t : rbt) (f : frame) : rbt :=
  match f with FL c i r => T c t i r | FR c i l => T c l i t end.
Fixpoint plug (t : rbt) (k : list frame) : rbt :=
  match k with [] => t | f :: k' => plug (plug1 t f) k' end.

Definition is_red (t : rbt) : bool := match t with T Red _ _ _ => true | _ => false end.
Definition frame_red (f : frame) : bool := match f with FL Red _ _ | FR Red _ _ => true | _ => false end.
Definition blacken (t : rbt) : rbt := match t with T _ l i r => T Black l i r | E => E end.
Definition reden (t : rbt) : rbt := match t with T _ l i r => T Red l i r | E => E end.

(** ** Insertion *)

Section insertion.
Variable key : nat -> Z.

(** The path to the leaf where a node with key [b] belongs; [None] when the
    key is taken. *)
Fixpoint path (b : Z) (t : rbt) (k : list frame) : option (list frame) :=
  match t with
  | E => Some k
  | T c l i r =>
      if (b <? key i)%Z then path b l (FL c i r :: k)
      else if (key i <? b)%Z then path b r (FR c i l :: k)
      else None
  end.

(** The repair after a red node has been hung at the end of path [k]. *)
Fixpoint fixup (t : rbt) (k : list frame) : rbt :=
  match k with
  | f1 :: f2 :: k' =>
      if negb (frame_red f1) then plug t k
      else
        match f2 with
        | FL _ g u =>
            if is_red u then fixup (T Red (blacken (plug1 t f1)) g (blacken u)) k'
            else match f1, t with
                 | FL _ p s, _ => plug (T Black t p (T Red s g u)) k'
                 | FR _ p s, T _ a x b => plug (T Black (T Red s p a) x (T Red b g u)) k'
                 | FR _ p s, E => E
                 end
        | FR _ g u =>
            if is_red u then fixup (T Red (blacken u) g (blacken (plug1 t f1))) k'
            else match f1, t with
                 | FR _ p s, _ => plug (T Black (T Red u g s) p t) k'
                 | FL _ p s, T _ a x b => plug (T Black (T Red u g a) x (T Red b p s)) k'
                 | FL _ p s, E => E
                 end
        end
  | _ => plug t k
  end.

Definition insert (x : nat) (t : rbt) : option rbt :=
  (fun k => blacken (fixup (T Red E x E) k)) <$> path (key x) t [].

End insertion.

(** ** Mirror images

    Most facts come in two mirrored forms; [node d] and [frame_at d] state
    them once for a direction [d]. *)

Inductive dir := L | R.
#[export] Instance dir_eq_dec : EqDecision dir.
Proof. solve_decision. Defined.
Definition flip (d : dir) : dir := match d with L => R | R => L end.

(** The node with [near] on side [d]. *)
Definition node (d : dir) (c : color) (near : rbt) (i : nat) (far : rbt) : rbt :=
  match d with L => T c near i far | R => T c far i near end.
Definition frame_at (d : dir) (c : color) (i : nat) (s : rbt) : frame :=
  match d with L => FL c i s | R => FR c i s end.

Lemma plug1_frame_at d c i s t : plug1 t (frame_at d c i s) = node d c t i s.
Proof. by destruct d. Qed.

Lemma node_flip d c x i y : node (flip d) c x i y = node d c y i x.
Proof. by destruct d. Qed.

Lemma frame_view f : exists d c i s, f = frame_at d c i s.
Proof. destruct f as [c i s|c i s]; [exists L|exists R]; by exists c, i, s. Qed.

Lemma tree_view d t : t <> E -> exists c a x b, t = node d c a x b.
Proof. destruct t as [|c a x b]; [done|]. intros _. destruct d; simpl; eauto. Qed.

(** The equations of the repair. *)
Lemma fixup_done t f k : frame_red f = false -> fixup t (f :: k) = plug t (f :: k).
Proof. intros Hf. destruct k; cbn [fixup]; [done|]. by rewrite Hf. Qed.

Lemma fixup_recolor t d1 p s d c g u k :
  is_red u = true ->
  fixup t (frame_at d1 Red p s :: frame_at d c g u :: k) =
  fixup (node d Red (node d1 Black t p s) g (blacken u)) k.
Proof. intros Hu. destruct d1, d; cbn [fixup frame_at frame_red negb plug1 blacken node]; by rewrite Hu. Qed.

Lemma fixup_outer t d p s c g u k :
  is_red u = false ->
  fixup t (frame_at d Red p s :: frame_at d c g u :: k) =
  plug (node d Black t p (node d Red s g u)) k.
Proof. intros Hu. destruct d; cbn [fixup frame_at frame_red negb node]; by rewrite Hu. Qed.

Lemma fixup_inner d c' a x b p s c g u k :
  is_red u = false ->
  fixup (node d c' a x b) (frame_at (flip d) Red p s :: frame_at d c g u :: k) =
  plug (node d Black (node d Red s p a) x (node d Red b g u)) k.
Proof. intros Hu. destruct d; cbn [fixup flip frame_at frame_red negb node]; by rewrite Hu. Qed.

(** ** In-order sequence *)

Fixpoint before (k : list frame) : list nat :=
  match k with [] => [] | FL _ _ _ :: k' => before k' | FR _ i l :: k' => before k' ++ elems l ++ [i] end.
Fixpoint after (k : list frame) : list nat :=
  match k with [] => [] | FL _ i r :: k' => i :: elems r ++ after k' | FR _ _ _ :: k' => after k' end.

Lemma elems_plug t k : elems (plug t k) = before k ++ elems t ++ after k.
Proof.
  revert t. induction k as [|[c i r|c i l] k IH]; intros t; simpl.
  - by rewrite app_nil_r.
  - rewrite IH. simpl. by rewrite <- !app_assoc.
  - rewrite IH. simpl. by rewrite <- !app_assoc.
Qed.

Lemma elems_blacken t : elems (blacken t) = elems t.
Proof. by destruct t. Qed.

Lemma elems_fixup t k : t <> E -> elems (fixup t k) = before k ++ elems t ++ after k.
Proof.
  intros Ht. cut (forall n t k, length k <= n -> t <> E -> elems (fixup t k) = elems (plug t k)).
  { intros H. by rewrite (H (length k)), elems_plug. }
  clear t k Ht. induction n as [|n IH]; intros t k Hn Ht; (destruct k as [|f1 [|f2 k]]; [done|done|]).
  { simpl in Hn. lia. }
  simpl in Hn. cbn [fixup]. destruct (frame_red f1) eqn:Hf; [cbn [negb]|done].
  destruct t as [|c a x b]; [done|].
  destruct f2 as [c2 g u|c2 g u]; (destruct (is_red u); [rewrite IH by (done || lia)|]);
    destruct f1 as [c1 p s|c1 p s]; cbn [plug plug1]; rewrite ?elems_plug; simpl;
    rewrite ?elems_blacken; repeat (progress simpl || rewrite <- app_assoc); done.
Qed.

(** ** Search order *)

Section order.
Variable key : nat -> Z.

Definition sorted (l : list nat) : Prop := StronglySorted Z.lt (key <$> l).

Lemma sorted_app l1 l2 :
  sorted (l1 ++ l2) <-> sorted l1 /\ sorted l2 /\ forall i j, i ∈ l1 -> j ∈ l2 -> (key i < key j)%Z.
Proof.
  unfold sorted. rewrite fmap_app. induction l1 as [|a l1 IH]; simpl.
  { split; [|tauto]. intros H. split_and!; [constructor|done|]. set_solver. }
  split.
  - intros [H1 H2]%StronglySorted_inv. apply IH in H1 as (Ha & Hb & Hc).
    rewrite Forall_app in H2. destruct H2 as [H2 H3]. split_and!; [by constructor|done|].
    intros i j [->|Hi]%elem_of_cons Hj; [|by apply Hc].
    rewrite Forall_fmap, Forall_forall in H3. by apply H3.
  - intros ([H1 H2]%StronglySorted_inv & H3 & H4). constructor.
    + apply IH. split_and!; [done|done|]. intros i j Hi Hj. apply H4; [|done]. by right.
    + rewrite Forall_app. split; [done|]. rewrite Forall_fmap, Forall_forall. intros j Hj.
      apply H4; [by left|done].
Qed.

Lemma sorted_cons i l : sorted (i :: l) <-> sorted l /\ forall j, j ∈ l -> (key i < key j)%Z.
Proof.
  rewrite (sorted_app [i] l). split.
  - intros (_ & H & Hc). split; [done|]. intros j. apply Hc. by left.
  - intros [H Hc]. split_and!; [repeat constructor|done|].
    intros a j ->%list_elem_of_singleton. apply Hc.
Qed.

(** The path found for [b] splits the in-order sequence at [b]. *)
Lemma path_spec b t k k' :
  sorted (before k ++ elems t ++ after k) ->
  (forall i, i ∈ before k -> (key i < b)%Z) -> (forall i, i ∈ after k -> (b < key i)%Z) ->
  path key b t k = Some k' ->
  before k' ++ after k' = before k ++ elems t ++ after k /\
  (forall i, i ∈ before k' -> (key i < b)%Z) /\ (forall i, i ∈ after k' -> (b < key i)%Z).
Proof.
  revert k. induction t as [|c l IHl i r IHr]; intros k Hs Hb Ha; simpl.
  { intros [= <-]. done. }
  assert (Hsame : before k ++ elems l ++ i :: elems r ++ after k = before k ++ elems (T c l i r) ++ after k).
  { simpl. by rewrite <- app_assoc. }
  rewrite <- Hsame in Hs. pose proof Hs as Hs'. apply sorted_app in Hs' as (_ & Hs' & _).
  apply sorted_app in Hs' as (_ & Hr & Hl). apply sorted_cons in Hr as [_ Hr].
  destruct (Z.ltb_spec b (key i)); [|destruct (Z.ltb_spec (key i) b); [|done]]; intros Hp.
  - apply IHl in Hp; simpl in *.
    + rewrite Hsame in Hp. exact Hp.
    + by rewrite Hsame, <- Hsame.
    + done.
    + intros j [->|Hj]%elem_of_cons; [done|]. specialize (Hr j Hj). lia.
  - assert (Heq : before (FR c i l :: k) ++ elems r ++ after (FR c i l :: k) =
      before k ++ elems l ++ i :: elems r ++ after k) by (simpl; by rewrite <- !app_assoc).
    apply IHr in Hp.
    + rewrite Heq, Hsame in Hp. exact Hp.
    + by rewrite Heq.
    + simpl. intros j. rewrite !elem_of_app, list_elem_of_singleton.
      intros [Hj|[Hj|Hj]]; [by apply Hb| |by subst].
      specialize (Hl j i Hj ltac:(by left)). lia.
    + done.
Qed.

(** The search only fails on a key that is there. *)
Lemma path_total b t k :
  (forall i, i ∈ elems t -> key i <> b) -> is_Some (path key b t k).
Proof.
  revert k. induction t as [|c l IHl i r IHr]; intros k Hn; simpl; [by eexists|].
  destruct (Z.ltb_spec b (key i)); [apply IHl|destruct (Z.ltb_spec (key i) b); [apply IHr|]];
    try (intros j Hj; apply Hn; simpl; set_solver).
  exfalso. apply (Hn i); [simpl; set_solver|lia].
Qed.

End order.

(** ** The red-black invariant

    [rb n t]: every path from the root of [t] to a leaf has [n] black nodes
    and no red node has a red child. *)

Inductive rb : nat -> rbt -> Prop :=
| rb_E : rb 0 E
| rb_Red n l i r : rb n l -> rb n r -> is_red l = false -> is_red r = false -> rb n (T Red l i r)
| rb_Black n l i r : rb n l -> rb n r -> rb (S n) (T Black l i r).

(** The root of the tree around a red node exists and is black. *)
Definition black_head (k : list frame) : Prop :=
  match k with [] => False | f :: _ => frame_red f = false end.

(** [rbk n k]: a tree of black height [n] may sit in the hole of [k], red
    only if [k] is empty or its first frame is black. *)
Inductive rbk : nat -> list frame -> Prop :=
| rbk_nil n : rbk n []
| rbk_FL_Red n i r k : rb n r -> is_red r = false -> rbk n k -> black_head k -> rbk n (FL Red i r :: k)
| rbk_FR_Red n i l k : rb n l -> is_red l = false -> rbk n k -> black_head k -> rbk n (FR Red i l :: k)
| rbk_FL_Black n i r k : rb n r -> rbk (S n) k -> rbk n (FL Black i r :: k)
| rbk_FR_Black n i l k : rb n l -> rbk (S n) k -> rbk n (FR Black i l :: k).

Create HintDb rbdb.
#[local] Hint Constructors rb rbk : rbdb.

Lemma rb_plug n t k :
  rb n t -> rbk n k -> (is_red t = true -> black_head k) ->
  exists m, rb m (plug t k) /\ is_red (plug t k) = false.
Proof.
  intros Ht Hk. revert t Ht. induction Hk; intros t Ht Hc; simpl.
  - exists n. split; [done|]. destruct (is_red t); [by destruct Hc|done].
  - apply IHHk; [|done]. constructor; auto. destruct (is_red t); [by specialize (Hc eq_refl)|done].
  - apply IHHk; [|done]. constructor; auto. destruct (is_red t); [by specialize (Hc eq_refl)|done].
  - apply IHHk; [|done]. auto with rbdb.
  - apply IHHk; [|done]. auto with rbdb.
Qed.

Lemma rb_blacken n t : rb n t -> exists m, rb m (blacken t) /\ is_red (blacken t) = false.
Proof. destruct 1; simpl; eauto with rbdb. Qed.

Lemma rb_blacken_red n l i r : rb n (T Red l i r) -> rb (S n) (T Black l i r).
Proof. inversion 1. auto with rbdb. Qed.

Lemma is_red_inv t : is_red t = true -> exists l i r, t = T Red l i r.
Proof. destruct t as [|[] l i r]; try done. intros _. by exists l, i, r. Qed.

(** The repair restores the invariant. *)
Lemma rb_fixup n a x b k :
  rb n (T Red a x b) -> rbk n k -> exists m, rb m (blacken (fixup (T Red a x b) k)) /\
    is_red (blacken (fixup (T Red a x b) k)) = false.
Proof.
  cut (forall s k n a x b, length k <= s -> rb n (T Red a x b) -> rbk n k ->
    exists m, rb m (blacken (fixup (T Red a x b) k)) /\ is_red (blacken (fixup (T Red a x b) k)) = false).
  { intros H. by apply (H (length k)). }
  clear. induction s as [|s IH]; intros k n a x b Hs Ht Hk.
  { destruct k; [|simpl in Hs; lia]. by apply rb_blacken_red, rb_blacken in Ht. }
  destruct k as [|f1 [|f2 k]].
  - by apply rb_blacken_red, rb_blacken in Ht.
  - cbn [fixup plug]. inversion Hk; subst; try done;
      (eapply (rb_blacken (S n)); simpl; auto with rbdb).
  - cbn [fixup]. destruct (frame_red f1) eqn:Hf1; cbn [negb].
    2:{ destruct (rb_plug n (T Red a x b) (f1 :: f2 :: k)) as (m & Hm & _); [done|done|done|].
        eapply rb_blacken, Hm. }
    assert (Hk' : exists u g, (f2 = FL Black g u \/ f2 = FR Black g u) /\ rb n u /\ rbk (S n) k).
    { inversion Hk; subst; try done;
        match goal with H : rbk n (f2 :: k) |- _ => inversion H; subst; try done; eauto 10 end. }
    assert (Hs1 : exists s p, (f1 = FL Red p s \/ f1 = FR Red p s) /\ rb n s /\ is_red s = false).
    { inversion Hk; subst; try done; eauto 10. }
    destruct Hk' as (u & g & Hf2 & Hu & Hk'), Hs1 as (sib & p & Hf1' & Hsib & Hsr). simpl in Hs.
    inversion Ht; subst.
    assert (Hdone : forall t, rb (S n) t -> is_red t = false -> exists m,
      rb m (blacken (plug t k)) /\ is_red (blacken (plug t k)) = false).
    { intros t Ht1 Ht2. destruct (rb_plug (S n) t k) as (m & Hm & _); [done|done|by rewrite Ht2|].
      eapply rb_blacken, Hm. }
    destruct (is_red u) eqn:Hur.
    + apply is_red_inv in Hur as (ul & ui & ur & ->). apply rb_blacken_red in Hu.
      destruct Hf2 as [->| ->], Hf1' as [->| ->]; cbn [blacken plug1 is_red];
        (apply (IH _ (S n)); [lia| |done]); auto with rbdb.
    + destruct Hf2 as [->| ->], Hf1' as [->| ->]; rewrite ?Hur; apply Hdone; auto with rbdb.
Qed.

Lemma rbk_path key b n t k k' :
  rb n t -> rbk n k -> (is_red t = true -> black_head k) -> path key b t k = Some k' -> rbk 0 k'.
Proof.
  intros Ht. revert k. induction Ht as [|n l i r Hl IHl Hr IHr Hlr Hrr|n l i r Hl IHl Hr IHr];
    intros k Hk Hc; simpl.
  - by intros [= <-].
  - destruct (b <? key i)%Z; [|destruct (key i <? b)%Z; [|done]].
    + apply IHl; [|by rewrite Hlr]. constructor; auto.
    + apply IHr; [|by rewrite Hrr]. constructor; auto.
  - destruct (b <? key i)%Z; [|destruct (key i <? b)%Z; [|done]].
    + apply IHl; [|done]. by constructor.
    + apply IHr; [|done]. by constructor.
Qed.

(** ** Insertion is insertion in order *)

Lemma split_unique (key : nat -> Z) b l1 l2 m1 m2 :
  l1 ++ l2 = m1 ++ m2 ->
  (forall i, i ∈ l1 -> (key i < b)%Z) -> (forall i, i ∈ l2 -> (b < key i)%Z) ->
  (forall i, i ∈ m1 -> (key i < b)%Z) -> (forall i, i ∈ m2 -> (b < key i)%Z) -> l1 = m1 /\ l2 = m2.
Proof.
  revert m1. induction l1 as [|a l1 IH]; intros m1 Heq H1 H2 H3 H4.
  - destruct m1 as [|c m1]; [done|]. simpl in Heq. subst l2.
    pose proof (H2 c ltac:(set_solver)). pose proof (H3 c ltac:(set_solver)). lia.
  - destruct m1 as [|c m1].
    + simpl in Heq. subst m2. pose proof (H1 a ltac:(set_solver)). pose proof (H4 a ltac:(set_solver)). lia.
    + injection Heq as -> Heq. destruct (IH m1) as [-> ->]; try done; set_solver.
Qed.

Lemma insert_spec key n t x l1 l2 :
  elems t = l1 ++ l2 -> sorted key (elems t) -> rb n t -> is_red t = false ->
  (forall i, i ∈ l1 -> (key i < key x)%Z) -> (forall i, i ∈ l2 -> (key x < key i)%Z) ->
  exists t' m, insert key x t = Some t' /\ elems t' = l1 ++ x :: l2 /\ rb m t' /\ is_red t' = false.
Proof.
  intros Hel Hs Hrb Hc H1 H2.
  destruct (path_total key (key x) t []) as [k Hk].
  { intros i. rewrite Hel, elem_of_app. intros [Hi|Hi]; [specialize (H1 i Hi)|specialize (H2 i Hi)]; lia. }
  destruct (path_spec key (key x) t [] k) as (P1 & P2 & P3); simpl; rewrite ?app_nil_r; try done; try set_solver.
  simpl in P1. rewrite app_nil_r, Hel in P1.
  destruct (split_unique key (key x) (before k) (after k) l1 l2) as [Hb Ha]; try done.
  assert (Hrk : rbk 0 k) by (eapply (rbk_path key (key x) n t []); eauto with rbdb; by rewrite Hc).
  destruct (rb_fixup 0 E x E k) as (m & Hm & Hr); [auto with rbdb|done|].
  exists (blacken (fixup (T Red E x E) k)), m. unfold insert. rewrite Hk. split_and!; try done.
  rewrite elems_blacken, elems_fixup by done. simpl. by rewrite Hb, Ha.
Qed.

(** ** Height *)

Fixpoint height (t : rbt) : nat :=
  match t with E => 0 | T _ l _ r => S (max (height l) (height r)) end.

Lemma height_rb n t : rb n t -> height t <= 2 * n + Nat.b2n (is_red t).
Proof.
  induction 1; cbn [height is_red Nat.b2n] in *; [lia| |].
  - rewrite H1, H2 in *. simpl in *. lia.
  - destruct (is_red l), (is_red r); simpl in *; lia.
Qed.

Lemma size_rb n t : rb n t -> 2 ^ n <= S (length (elems t)).
Proof.
  induction 1; simpl in *; rewrite ?length_app in *; simpl in *; lia.
Qed.

Lemma height_log n t : rb n t -> is_red t = false -> height t <= 2 * Nat.log2 (S (length (elems t))).
Proof.
  intros Ht Hr. pose proof (height_rb n t Ht) as Hh. rewrite Hr in Hh. simpl in Hh.
  pose proof (Nat.log2_le_mono _ _ (size_rb n t Ht)) as Hl. rewrite Nat.log2_pow2 in Hl by lia. lia.
Qed.

(** A path is no longer than the tree has nodes. *)
Lemma path_length key b t k k' :
  path key b t k = Some k' -> length k' <= length k + length (elems t).
Proof.
  revert k. induction t as [|c l IHl i r IHr]; intros k; simpl; [intros [= <-]; lia|].
  rewrite length_app. simpl.
  destruct (b <? key i)%Z; [|destruct (key i <? b)%Z; [|done]].
  - intros H%IHl. simpl in H. lia.
  - intros H%IHr. simpl in H. lia.
Qed.

End RbTree.
