(* ===== verification/VmaRb.v ===== *)
(** * The pointer tree computes the reference tree

    [zrep h t k] says that the links of heap [h] spell the tree [t] at the
    bottom of path [k].  Each routine of VmaTree.v is shown to take a heap
    that spells one tree to a heap that spells the tree of RbTree.v, and to
    touch nothing but the links of its nodes. *)

From S2P Require Import Prelude VmaTree RbTree.
Import VmaTree RbTree.
Local Open Scope Z_scope.

Module VmaRb.

Implicit Types (h : vma_heap) (t : rbt) (k : list frame) (i j : nat).

Definition col (c : color) : Z := match c with Red => VMA64_RB_RED | Black => VMA64_RB_BLACK end.

Definition root_of (t : rbt) : option nat := match t with E => None | T _ _ i _ => Some i end.
Definition frame_idx (f : frame) : nat := match f with FL _ i _ | FR _ i _ => i end.
Definition parent_of (k : list frame) : option nat := match k with [] => None | f :: _ => Some (frame_idx f) end.

Definition in_pool h i : Prop := (i < length (regions h))%nat.

(** The four link fields of a region. *)
Record links_of (r : vma_region_t) (c : color) (par left_ right_ : option nat) : Prop := {
  lk_color : rb_color r = col c; lk_parent : rb_parent r = par;
  lk_left : rb_left r = left_; lk_right : rb_right r = right_ }.

Fixpoint rep h (par : option nat) (t : rbt) : Prop :=
  match t with
  | E => True
  | T c l i r => in_pool h i /\ links_of (region_at h i) c par (root_of l) (root_of r)
                 /\ rep h (Some i) l /\ rep h (Some i) r
  end.

Fixpoint repk h (hole : option nat) (k : list frame) : Prop :=
  match k with
  | [] => rb_root (tree h) = hole
  | FL c i r :: k' => in_pool h i /\ links_of (region_at h i) c (parent_of k') hole (root_of r)
                      /\ rep h (Some i) r /\ repk h (Some i) k'
  | FR c i l :: k' => in_pool h i /\ links_of (region_at h i) c (parent_of k') (root_of l) hole
                      /\ rep h (Some i) l /\ repk h (Some i) k'
  end.

Definition zrep h t k : Prop := rep h (parent_of k) t /\ repk h (root_of t) k.

(** Everything but the links. *)
Definition data (r : vma_region_t) : vma_region_t := clear_links 0 r.

(** [h'] differs from [h] in the links of nodes of [X] and in the root. *)
Record relinked (X : list nat) h h' : Prop := {
  rl_length : length (regions h') = length (regions h);
  rl_tree : (tree h') <| rb_root := None |> = (tree h) <| rb_root := None |>;
  rl_data : forall i, data (region_at h' i) = data (region_at h i);
  rl_other : forall i, i ∉ X -> region_at h' i = region_at h i }.

Lemma relinked_refl X h : relinked X h h.
Proof. done. Qed.

Lemma relinked_trans X h1 h2 h3 : relinked X h1 h2 -> relinked X h2 h3 -> relinked X h1 h3.
Proof.
  intros [A1 A2 A3 A4] [B1 B2 B3 B4]. split; [congruence|congruence| |].
  - intros i. by rewrite B3, A3.
  - intros i Hi. by rewrite B4, A4.
Qed.

Lemma relinked_mono X Y h h' : X ⊆ Y -> relinked X h h' -> relinked Y h h'.
Proof. intros HX [A1 A2 A3 A4]. split; [done|done|done|]. intros i Hi. apply A4. set_solver. Qed.

(** ** Reading an updated heap *)

Lemma at_same h i f : in_pool h i -> region_at (put_region i f h) i = f (region_at h i).
Proof.
  intros Hi. unfold region_at. simpl. rewrite list_lookup_alter, decide_True by done.
  apply lookup_lt_is_Some_2 in Hi as [r ->]. done.
Qed.

Lemma at_other h i j f : i <> j -> region_at (put_region i f h) j = region_at h j.
Proof. intros Hi. unfold region_at. simpl. by rewrite list_lookup_alter_ne. Qed.

Lemma at_put_tree h f j : region_at (put_tree f h) j = region_at h j.
Proof. done. Qed.

Lemma in_pool_put h i f j : in_pool (put_region i f h) j <-> in_pool h j.
Proof. unfold in_pool. simpl. by rewrite length_alter. Qed.

Lemma in_pool_tree h f j : in_pool (put_tree f h) j <-> in_pool h j.
Proof. done. Qed.

Lemma relinked_put X h i f : i ∈ X -> (forall r, data (f r) = data r) -> relinked X h (put_region i f h).
Proof.
  intros Hi Hf. split; simpl; [by rewrite length_alter|done| |].
  - intros j. destruct (decide (i = j)) as [->|Hne]; [|by rewrite at_other].
    unfold region_at. simpl. rewrite list_lookup_alter, decide_True by done.
    destruct (regions h !! j); simpl; [apply Hf|done].
  - intros j Hj. apply at_other. set_solver.
Qed.

Lemma relinked_root X h v : relinked X h (put_tree (fun tr => tr <| rb_root := v |>) h).
Proof. done. Qed.

(** ** Framing *)

Lemma rep_frame h h' par t :
  length (regions h') = length (regions h) ->
  (forall i, i ∈ elems t -> region_at h' i = region_at h i) -> rep h par t -> rep h' par t.
Proof.
  intros Hlen. revert par. induction t as [|c l IHl i r IHr]; intros par Hs; simpl; [done|].
  unfold in_pool. rewrite Hlen. intros (H1 & H2 & H3 & H4). rewrite Hs by (simpl; set_solver).
  split_and!; [done|done|apply IHl|apply IHr]; try done; intros j Hj; apply Hs; simpl; set_solver.
Qed.

Lemma repk_frame h h' hole k :
  length (regions h') = length (regions h) -> rb_root (tree h') = rb_root (tree h) ->
  (forall i, i ∈ before k ++ after k -> region_at h' i = region_at h i) ->
  repk h hole k -> repk h' hole k.
Proof.
  intros Hlen Hroot. revert hole. induction k as [|[c i r|c i r] k IH]; intros hole Hs; simpl;
    [congruence| |]; unfold in_pool; rewrite Hlen; intros (H1 & H2 & H3 & H4);
    rewrite Hs by (simpl; set_solver); (split_and!; [done|done| |apply IH; [|done]]);
    try (intros j Hj; apply Hs; simpl; set_solver);
    (eapply rep_frame; [done| |done]; intros j Hj; apply Hs; simpl; set_solver).
Qed.

(** A subtree under another parent. *)
Lemma rep_reparent h h' par par' t :
  length (regions h') = length (regions h) -> NoDup (elems t) ->
  (forall i, i ∈ elems t -> Some i <> root_of t -> region_at h' i = region_at h i) ->
  (forall i, root_of t = Some i -> region_at h' i = (region_at h i) <| rb_parent := par' |>) ->
  rep h par t -> rep h' par' t.
Proof.
  intros Hlen Hnd Hs Hr. destruct t as [|c l i r]; simpl; [done|].
  unfold in_pool. rewrite Hlen. intros (H1 & [L1 L2 L3 L4] & H3 & H4).
  simpl in Hs, Hnd. apply NoDup_app in Hnd as (N1 & N2 & N3). apply NoDup_cons in N3 as [N3 N4].
  rewrite (Hr i eq_refl). split_and!; [done|by split| |];
    (eapply rep_frame; [done| |done]; intros j Hj; apply Hs; [set_solver|]);
    intros [= ->]; set_solver.
Qed.

Lemma zrep_cons h t f k : zrep h t (f :: k) <-> zrep h (plug1 t f) k.
Proof. unfold zrep. destruct f; simpl; tauto. Qed.

Lemma zrep_plug h t k : zrep h t k <-> zrep h (plug t k) [].
Proof. revert t. induction k as [|f k IH]; intros t; simpl; [done|]. by rewrite zrep_cons, IH. Qed.

(** ** Rotations *)

Lemma root_elem t i : root_of t = Some i -> i ∈ elems t.
Proof. destruct t; simpl; [done|]. intros [= ->]. set_solver. Qed.

Lemma parent_elem k i : parent_of k = Some i -> i ∈ before k ++ after k.
Proof. destruct k as [|[]]; simpl; [done| |]; intros [= ->]; set_solver. Qed.

Ltac pool := rewrite ?in_pool_put, ?in_pool_tree; first [assumption | by auto].
Ltac ne := first [assumption | by apply not_eq_sym | congruence | set_solver].
Ltac rd := repeat match goal with
  | |- context [region_at (put_tree ?f ?h) ?j] => rewrite (at_put_tree h f j)
  | |- context [region_at (put_region ?i ?f ?h) ?i] => rewrite (at_same h i f) by pool
  | |- context [region_at (put_region ?i ?f ?h) ?j] => rewrite (at_other h i j f) by ne
  end.

(** *** One direction *)

Definition child (d : dir) (r : vma_region_t) : option nat :=
  match d with L => rb_left r | R => rb_right r end.
Definition set_child (d : dir) (v : option nat) (r : vma_region_t) : vma_region_t :=
  match d with L => r <| rb_left := v |> | R => r <| rb_right := v |> end.
Definition replace_child (d : dir) : option nat -> nat -> nat -> RM unit :=
  match d with L => replace_child_left | R => replace_child_right end.
Definition rotate (d : dir) : nat -> RM unit :=
  match d with L => vma64_rb_rotate_left | R => vma64_rb_rotate_right end.

Lemma rotate_unfold d n : rotate d n =
  (far <- gets (fun h => child (flip d) (region_at h n)) ;;
   match far with
   | None => ret tt
   | Some m =>
       inner <- gets (fun h => child d (region_at h m)) ;;
       set_region n (set_child (flip d) inner) ;;;
       match inner with
       | Some b => set_region b (fun r => r <| rb_parent := Some n |>)
       | None => ret tt
       end ;;;
       parent <- gets (fun h => rb_parent (region_at h n)) ;;
       set_region m (fun r => r <| rb_parent := parent |>) ;;;
       replace_child d parent n m ;;;
       set_region m (set_child d (Some n)) ;;;
       set_region n (fun r => r <| rb_parent := Some m |>)
   end)%kernel.
Proof. by destruct d. Qed.

Lemma replace_child_unfold d p n m : replace_child d (Some p) n m =
  (c <- gets (fun h => child d (region_at h p)) ;;
   if bool_decide (Some n = c) then set_region p (set_child d (Some m))
   else set_region p (set_child (flip d) (Some m)))%kernel.
Proof. by destruct d. Qed.

Record linked (d : dir) (r : vma_region_t) (c : color) (par near far : option nat) : Prop := {
  ld_color : rb_color r = col c; ld_parent : rb_parent r = par;
  ld_near : child d r = near; ld_far : child (flip d) r = far }.

Lemma rep_node d h par c x i y :
  rep h par (node d c x i y) <-> in_pool h i /\ linked d (region_at h i) c par (root_of x) (root_of y)
    /\ rep h (Some i) x /\ rep h (Some i) y.
Proof. destruct d; simpl; (split; [intros (?&[]&?&?)|intros (?&[]&?&?)]); (split_and!; [done|by split|done|done]). Qed.

Lemma repk_frame_at d h hole c i s k :
  repk h hole (frame_at d c i s :: k) <-> in_pool h i /\
    linked d (region_at h i) c (parent_of k) hole (root_of s) /\ rep h (Some i) s /\ repk h (Some i) k.
Proof. destruct d; simpl; (split; [intros (?&[]&?&?)|intros (?&[]&?&?)]); (split_and!; [done|by split|done|done]). Qed.

Lemma parent_frame d c i s k : parent_of (frame_at d c i s :: k) = Some i.
Proof. by destruct d. Qed.
Lemma root_node d c x i y : root_of (node d c x i y) = Some i.
Proof. by destruct d. Qed.
Lemma elems_node d c x i y j : j ∈ elems (node d c x i y) <-> j = i \/ j ∈ elems x \/ j ∈ elems y.
Proof. destruct d; simpl; set_solver. Qed.
Lemma set_child_data d v r : data (set_child d v r) = data r.
Proof. by destruct d. Qed.

(** All nodes of a zipper, in the order the facts below want them. *)
Definition kelems (k : list frame) : list nat := before k ++ after k.

Lemma nodup_node d c x i y :
  NoDup (elems (node d c x i y)) <->
  NoDup (elems x) /\ NoDup (elems y) /\ i ∉ elems x /\ i ∉ elems y /\ (forall j, j ∈ elems x -> j ∉ elems y).
Proof.
  destruct d; simpl; rewrite NoDup_app, NoDup_cons; (split; [intros (?&?&?&?)|intros (?&?&?&?&?)]);
    split_and!; try done; set_solver.
Qed.

Lemma nodup_kelems d c i s k :
  NoDup (kelems (frame_at d c i s :: k)) <->
  NoDup (elems s) /\ NoDup (kelems k) /\ i ∉ elems s /\ i ∉ kelems k /\ (forall j, j ∈ elems s -> j ∉ kelems k).
Proof.
  unfold kelems. destruct d; cbn [frame_at before after].
  - rewrite NoDup_app, NoDup_cons, !NoDup_app. split.
    + intros (?&?&?&?&?&?). split_and!; try done; set_solver.
    + intros (?&(?&?&?)&?&?&?). split_and!; try done; set_solver.
  - rewrite !NoDup_app, NoDup_cons. split.
    + intros ((?&?&?&?&?&?)&?&?). split_and!; try done; try set_solver.
    + intros (?&(?&?&?)&?&?&?). split_and!; try done; try set_solver. constructor.
Qed.

Lemma elem_kelems d c i s k j :
  j ∈ kelems (frame_at d c i s :: k) <-> j = i \/ j ∈ elems s \/ j ∈ kelems k.
Proof. unfold kelems. destruct d; cbn [frame_at before after]; set_solver. Qed.

(** Distinct nodes in a zipper. *)
Definition zdistinct t k : Prop :=
  NoDup (elems t) /\ NoDup (kelems k) /\ forall j, j ∈ elems t -> j ∉ kelems k.

Lemma zdistinct_nodup t k : NoDup (elems (plug t k)) <-> zdistinct t k.
Proof.
  rewrite elems_plug. unfold zdistinct, kelems. rewrite !NoDup_app. split.
  - intros (?&?&?&?&?). split_and!; try done; set_solver.
  - intros (?&(?&?&?)&?). split_and!; try done; set_solver.
Qed.

(** The parent of a rotated node, or the root, is pointed to the new child. *)
Lemma replace_child_spec d h n m k :
  repk h (Some n) k -> n ∉ kelems k -> NoDup (kelems k) ->
  wp (replace_child d (parent_of k) n m) (fun _ h' => repk h' (Some m) k /\ relinked (kelems k) h h') h.
Proof.
  intros Hk Hn Hnd. destruct k as [|f k].
  { destruct d; apply wp_modify; (split; [done|apply relinked_root]). }
  destruct (frame_view f) as (d' & c & i & s & ->).
  apply repk_frame_at in Hk as (Hi & [L1 L2 L3 L4] & Hs & Hk).
  apply nodup_kelems in Hnd as (_ & _ & Ho1 & Ho2 & _). rewrite elem_kelems in Hn.
  assert (Hsn : root_of s <> Some n) by (intros ?%root_elem; tauto).
  rewrite parent_frame.
  rewrite replace_child_unfold. apply wp_bind, wp_gets.
  assert (Hres : forall g, g = set_child d' (Some m) ->
    let h' := put_region i g h in
    repk h' (Some m) (frame_at d' c i s :: k) /\ relinked (kelems (frame_at d' c i s :: k)) h h').
  { intros g ->. split.
    - apply repk_frame_at. split_and!; [by pool| | |].
      + rd. destruct d'; by split.
      + eapply rep_frame; [simpl; by rewrite length_alter| |exact Hs]. intros j Hj. rd. done.
      + eapply repk_frame; [simpl; by rewrite length_alter|done| |exact Hk]. intros j Hj. unfold kelems in *. rd. done.
    - apply relinked_put; [rewrite elem_kelems; by left|apply set_child_data]. }
  destruct d, d'; cbn [child flip] in *; case_bool_decide; try (exfalso; congruence);
    by apply wp_modify, Hres.
Qed.

(** First half of a rotation: [n] takes over the inner subtree [b]. *)
Lemma adopt_inner_spec d h n b :
  in_pool h n -> n ∉ elems b -> NoDup (elems b) -> (exists par, rep h par b) ->
  wp (match root_of b with Some j => set_region j (fun r => r <| rb_parent := Some n |>) | None => ret tt end)
    (fun _ h' => relinked (n :: elems b) h h' /\ rb_root (tree h') = rb_root (tree h) /\
       region_at h' n = set_child (flip d) (root_of b) (region_at h n) /\ rep h' (Some n) b /\
       forall j, j ∉ n :: elems b -> region_at h' j = region_at h j)
    (put_region n (set_child (flip d) (root_of b)) h).
Proof.
  intros Hn Hnb Hnd [par Rb].
  assert (H1 : relinked (n :: elems b) h (put_region n (set_child (flip d) (root_of b)) h)).
  { apply relinked_put; [by left|apply set_child_data]. }
  destruct (root_of b) as [bi|] eqn:Hbi.
  - pose proof (root_elem b bi Hbi) as Hbe. assert (n <> bi) by (intros ->; done).
    assert (Hbi' : in_pool h bi) by (destruct b; [done|]; injection Hbi as ->; apply Rb).
    apply wp_modify. assert (H2 : relinked (n :: elems b) h
      (put_region bi (fun r => r <| rb_parent := Some n |>) (put_region n (set_child (flip d) (Some bi)) h))).
    { eapply relinked_trans; [exact H1|]. apply relinked_put; [by right|done]. }
    split_and!; [exact H2|done|by rd| |apply H2].
    eapply rep_reparent; [| | | |exact Rb]; [simpl; by rewrite !length_alter|done| |].
    + intros j Hj Hne. rewrite Hbi in Hne. rd. done.
    + intros j Hj. replace j with bi by congruence. rd. done.
  - apply wp_ret. split_and!; [exact H1|done|by rd|by destruct b|apply H1].
Qed.

Lemma rotate_spec d h c a n c2 b m f k :
  zrep h (node d c a n (node d c2 b m f)) k -> zdistinct (node d c a n (node d c2 b m f)) k ->
  wp (rotate d n)
    (fun _ h' => zrep h' (node d c2 (node d c a n b) m f) k /\
       relinked (elems (node d c a n (node d c2 b m f)) ++ kelems k) h h') h.
Proof.
  intros [Ht Hk] (Hnd & Hctx & Hout). set (X := elems _ ++ kelems k).
  assert (HX : forall j, j = n \/ j = m \/ j ∈ elems b \/ j ∈ kelems k -> j ∈ X).
  { intros j. unfold X. rewrite elem_of_app, !elems_node. naive_solver. }
  assert (Hout' : forall j, j = n \/ j = m \/ j ∈ elems a \/ j ∈ elems b \/ j ∈ elems f -> j ∉ kelems k).
  { intros j Hj. apply Hout. rewrite !elems_node. naive_solver. }
  apply nodup_node in Hnd as (Na & Hnd & N1 & N2 & N3). apply nodup_node in Hnd as (Nb & Nf & M1 & M2 & M3).
  rewrite elems_node in N2. setoid_rewrite elems_node in N3.
  apply rep_node in Ht as (Hn & [A1 A2 A3 A4] & Ra & Ht). rewrite root_node in A4, Hk.
  apply rep_node in Ht as (Hm & [B1 B2 B3 B4] & Rb & Rf).
  assert (Hnm : n <> m) by tauto.
  rewrite rotate_unfold. apply wp_bind, wp_gets. rewrite A4. apply wp_bind, wp_gets. rewrite B3.
  apply (wp_bind (set_region n _)), wp_modify, wp_bind.
  eapply wp_mono; [exact (adopt_inner_spec d h n b Hn ltac:(tauto) Nb (ex_intro (fun par => rep h par b) _ Rb))|].
  intros _ h2 (X2 & R2 & F2n & Rb2 & F2o). pose proof (rl_length _ _ _ X2) as L2.
  apply wp_bind, wp_gets. rewrite F2n.
  replace (rb_parent (set_child (flip d) (root_of b) (region_at h n))) with (parent_of k) by by destruct d.
  apply wp_bind, wp_modify, wp_bind. set (h3 := put_region m _ h2).
  assert (F3 : forall j, j <> n -> j <> m -> j ∉ elems b -> region_at h3 j = region_at h j).
  { intros j H1 H2 H3. unfold h3. rd. apply F2o. set_solver. }
  assert (L3 : length (regions h3) = length (regions h)) by (unfold h3; simpl; by rewrite length_alter).
  assert (Hk3 : repk h3 (Some n) k).
  { eapply repk_frame; [done|exact R2| |exact Hk]. intros j Hj. apply F3; intros Hj'; apply (Hout' j); auto; tauto. }
  eapply wp_mono; [exact (replace_child_spec d h3 n m k Hk3 (Hout' n ltac:(auto)) Hctx)|].
  intros _ h4 [Hk4 X4]. apply wp_bind, wp_modify, wp_modify.
  pose proof (rl_length _ _ _ X4) as L4. pose proof (rl_other _ _ _ X4) as F4.
  assert (in_pool h2 m /\ in_pool h4 m /\ in_pool h4 n) as (Hm2 & Hm4 & Hn4) by (unfold in_pool in *; split_and!; congruence).
  assert (Hfin : forall Y par h', Y = a \/ Y = f \/ Y = b -> (forall j, j ∈ elems Y -> region_at h' j = region_at h3 j) ->
    length (regions h') = length (regions h) -> rep h' par Y ->
    rep (put_region n (fun r => r <| rb_parent := Some m |>) (put_region m (set_child d (Some n)) h4)) par Y).
  { intros Y par h' HY Hh' Hl HR. eapply rep_frame; [| |exact HR]; [simpl; rewrite !length_alter; congruence|].
    intros j Hj. assert (j <> n /\ j <> m) as [? ?] by (destruct HY as [->|[->| ->]]; split; intros ->; naive_solver).
    rd. rewrite F4, Hh' by (auto; apply Hout'; destruct HY as [->|[->| ->]]; auto). done. }
  split; [split|].
  - rewrite !rep_node, root_node. split_and!; [by pool| |by pool| | | |].
    + rd. rewrite F4 by auto. unfold h3. rd. rewrite F2o by (set_solver).
      destruct d; split; done.
    + rd. rewrite F4 by auto. unfold h3. rd. rewrite F2n. destruct d; by split.
    + apply (Hfin a _ h); [auto| |done|done]. intros j Hj. symmetry. apply F3; [| |]; try (intros ->); naive_solver.
    + apply (Hfin b _ h2); [auto| |done|done]. intros j Hj. assert (m <> j) by (intros ->; done). unfold h3. rd. done.
    + apply (Hfin f _ h); [auto| |done|done]. intros j Hj. symmetry. apply F3; [| |]; try (intros ->); naive_solver.
  - rewrite root_node. eapply repk_frame; [| | |exact Hk4]; [simpl; by rewrite !length_alter|done|].
    intros j Hj. assert (n <> j /\ m <> j) as [? ?] by (split; intros ->; (eapply (Hout' j); [by auto|exact Hj])). rd. done.
  - eapply relinked_trans; [eapply relinked_mono; [|exact X2]; intros j; rewrite elem_of_cons; naive_solver|].
    eapply (relinked_trans X h2 h3); [apply relinked_put; [apply HX; auto|done]|].
    eapply relinked_trans; [eapply relinked_mono; [|exact X4]; intros j Hj; apply HX; auto|].
    apply (relinked_trans X _ (put_region m (set_child d (Some n)) h4));
      (apply relinked_put; [apply HX; auto|]); [apply set_child_data|done].
Qed.

(** ** Steps of the repair

    [zin X h t k]: the heap spells the zipper, its nodes are distinct and
    all in [X]. *)

Definition zin (X : list nat) h t k : Prop :=
  zrep h t k /\ zdistinct t k /\ forall j, j ∈ elems t \/ j ∈ kelems k -> j ∈ X.

Lemma zin_cons X d h c t i s k : zin X h t (frame_at d c i s :: k) <-> zin X h (node d c t i s) k.
Proof.
  unfold zin. rewrite zrep_cons, plug1_frame_at, <- !zdistinct_nodup. cbn [plug]. rewrite plug1_frame_at.
  assert (Heq : forall j, (j ∈ elems t \/ j ∈ kelems (frame_at d c i s :: k)) <->
    (j ∈ elems (node d c t i s) \/ j ∈ kelems k)).
  { intros j. rewrite elem_kelems, elems_node. tauto. }
  naive_solver.
Qed.

Lemma zin_cons_far X d h c t i s k : zin X h s (frame_at (flip d) c i t :: k) <-> zin X h (node d c t i s) k.
Proof. by rewrite zin_cons, node_flip. Qed.

Lemma zin_plug X h t k : zin X h t k <-> zin X h (plug t k) [].
Proof.
  revert t. induction k as [|f k IH]; intros t; [done|].
  destruct (frame_view f) as (d & c & i & s & ->). rewrite zin_cons, IH. cbn [plug]. by rewrite plug1_frame_at.
Qed.

Lemma zin_rotate X d h c a n c2 b m f k :
  zin X h (node d c a n (node d c2 b m f)) k ->
  wp (rotate d n) (fun _ h' => zin X h' (node d c2 (node d c a n b) m f) k /\ relinked X h h') h.
Proof.
  intros (Hz & Hd & HX). eapply wp_mono; [by apply (rotate_spec d h c a n c2 b m f k)|].
  intros _ h' [Hz' HR]. split; [split_and!; [done| |]|].
  - destruct Hd as (H1 & H2 & H3). split_and!; [|done|].
    + rewrite !nodup_node in *. setoid_rewrite elems_node in H1. setoid_rewrite elems_node. naive_solver.
    + intros j. setoid_rewrite elems_node in H3. rewrite !elems_node in *. specialize (H3 j). rewrite elems_node in H3. naive_solver.
  - intros j Hj. apply HX. rewrite !elems_node in *. naive_solver.
  - eapply relinked_mono; [|exact HR]. intros j. rewrite elem_of_app. apply HX.
Qed.

Lemma zin_paint X d h c c' a x b k :
  zin X h (node d c a x b) k ->
  wp (paint x (col c')) (fun _ h' => zin X h' (node d c' a x b) k /\ relinked X h h') h.
Proof.
  intros ([Ht Hk] & (H1 & H2 & H3) & HX). apply wp_modify.
  apply rep_node in Ht as (Hx & [A1 A2 A3 A4] & Ra & Rb). rewrite nodup_node in H1.
  destruct H1 as (Na & Nb & N1 & N2 & N3). setoid_rewrite elems_node in H3.
  assert (Hfr : forall h', h' = put_region x (fun r => r <| rb_color := col c' |>) h ->
    forall par Y, Y = a \/ Y = b -> rep h par Y -> rep h' par Y).
  { intros h' -> par Y HY HR. eapply rep_frame; [| |exact HR]; [simpl; by rewrite length_alter|].
    intros j Hj. assert (x <> j) by (intros ->; destruct HY as [-> | ->]; done). rd. done. }
  split; [split; [split|split_and!]|].
  - apply rep_node. split_and!; [by pool| |by eapply Hfr; auto|by eapply Hfr; auto].
    rd. destruct d; by split.
  - rewrite root_node in *. eapply repk_frame; [simpl; by rewrite length_alter|done| |exact Hk].
    intros j Hj. assert (x <> j) by (intros ->; eapply H3; eauto). rd. done.
  - split_and!; [by apply nodup_node|done|]. intros j. rewrite elems_node. auto.
  - intros j Hj. apply HX. rewrite elems_node in *. done.
  - apply relinked_put; [|done]. apply HX. rewrite elems_node. auto.
Qed.

(** The loop stops below a black node. *)
Lemma fixup_exit X fuel d h t x p s k :
  zin X h t (frame_at d Black p s :: k) -> root_of t = Some x ->
  wp (fixup_loop (S fuel) x) (fun _ h' => h' = h) h.
Proof.
  intros ([Ht Hk] & _ & _) Hx. destruct t as [|c a y b]; [done|]. injection Hx as ->.
  cbn [rep] in Ht. destruct Ht as (_ & [_ L2 _ _] & _).
  apply repk_frame_at in Hk as (_ & [K1 _ _ _] & _).
  rewrite parent_frame in L2. cbn [fixup_loop]. apply wp_bind, wp_gets. rewrite L2.
  apply wp_bind, wp_gets. cbn [vma64_region_is_red]. rewrite K1. done.
Qed.

Lemma recolor_and_rotate_spec X d h cp t p s cg g u k :
  zin X h (node d cg (node d cp t p s) g u) k ->
  wp (recolor_and_rotate (Some p) (Some g) (rotate (flip d)))
    (fun _ h' => zin X h' (node d Black t p (node d Red s g u)) k /\ relinked X h h') h.
Proof.
  intros Hz. rewrite <- zin_cons in Hz. apply wp_bind.
  eapply wp_mono; [exact (zin_paint X d h cp Black t p s _ Hz)|]. intros _ h1 [Hz1 R1].
  rewrite zin_cons in Hz1. apply wp_bind.
  eapply wp_mono; [exact (zin_paint X d h1 cg Red _ g u _ Hz1)|]. intros _ h2 [Hz2 R2].
  rewrite <- !(node_flip d) in Hz2.
  eapply wp_mono; [exact (zin_rotate X (flip d) h2 Red u g Black s p t k Hz2)|]. intros _ h3 [Hz3 R3].
  rewrite !node_flip in Hz3. split; [done|]. by eapply relinked_trans, relinked_trans.
Qed.

(** One half of the loop body: [p] is the child of [g] on side [d]. *)
Definition fixup_turn (d : dir) (again : nat -> RM unit) (x p g : nat) : RM unit :=
  (pc <- gets (fun h => child (flip d) (region_at h p)) ;;
   if bool_decide (Some x = pc) then
     rotate d p ;;;
     parent' <- gets (fun h => rb_parent (region_at h p)) ;;
     grandparent' <- gets (fun h => grandparent_of h parent') ;;
     recolor_and_rotate parent' grandparent' (rotate (flip d)) ;;;
     again p
   else
     recolor_and_rotate (Some p) (Some g) (rotate (flip d)) ;;;
     again x)%kernel.

Definition fixup_half (d : dir) (again : nat -> RM unit) (x p g : nat) : RM unit :=
  (uncle <- gets (fun h => child (flip d) (region_at h g)) ;;
   uncle_red <- gets (fun h => vma64_region_is_red h uncle) ;;
   match uncle, uncle_red with
   | Some u, true =>
       paint p VMA64_RB_BLACK ;;; paint u VMA64_RB_BLACK ;;; paint g VMA64_RB_RED ;;; again g
   | _, _ => fixup_turn d again x p g
   end)%kernel.

Lemma fixup_loop_unfold fuel x : fixup_loop (S fuel) x =
  (parent <- gets (fun h => rb_parent (region_at h x)) ;;
   red <- gets (fun h => vma64_region_is_red h parent) ;;
   match parent with
   | None => ret tt
   | Some p =>
       if negb red then ret tt
       else
         grandparent <- gets (fun h => rb_parent (region_at h p)) ;;
         match grandparent with
         | None => ret tt
         | Some g =>
             gl <- gets (fun h => rb_left (region_at h g)) ;;
             if bool_decide (Some p = gl) then fixup_half L (fixup_loop fuel) x p g
             else fixup_half R (fixup_loop fuel) x p g
         end
   end)%kernel.
Proof. reflexivity. Qed.

Lemma is_red_spec X h t k : zin X h t k -> vma64_region_is_red h (root_of t) = is_red t.
Proof.
  intros ([Ht _] & _). destruct t as [|c a x b]; [done|]. simpl in *. destruct Ht as (_ & [L1 _ _ _] & _).
  rewrite L1. by destruct c.
Qed.

(** The case of a red uncle. *)
Lemma fixup_recolor_spec X d d1 again h t p s cg g u k (Q : unit -> vma_heap -> Prop) x :
  zin X h t (frame_at d1 Red p s :: frame_at d cg g u :: k) -> is_red u = true ->
  (forall h', zin X h' (node d Red (node d1 Black t p s) g (blacken u)) k -> relinked X h h' ->
     wp (again g) Q h') ->
  wp (fixup_half d again x p g) Q h.
Proof.
  intros Hz Hu Hagain. rewrite !zin_cons in Hz. pose proof Hz as Hzu. rewrite <- zin_cons_far in Hzu.
  pose proof (is_red_spec _ _ _ _ Hzu) as Hred. rewrite Hu in Hred.
  destruct Hz as ([Hg _] & Hz'). apply rep_node in Hg as (_ & [_ _ _ Gf] & _).
  apply is_red_inv in Hu as (ul & ui & ur & ->). cbn [root_of] in *.
  unfold fixup_half. apply wp_bind, wp_gets. rewrite Gf. apply wp_bind, wp_gets. rewrite Hred.
  rewrite zin_cons_far, <- zin_cons in Hzu. apply wp_bind.
  eapply wp_mono; [exact (zin_paint X d1 h Red Black t p s _ Hzu)|]. intros _ h1 [Hz1 R1].
  rewrite zin_cons, <- zin_cons_far in Hz1. apply wp_bind.
  eapply wp_mono; [exact (zin_paint X L h1 Red Black ul ui ur _ Hz1)|]. intros _ h2 [Hz2 R2].
  rewrite zin_cons_far in Hz2. apply wp_bind.
  eapply wp_mono; [exact (zin_paint X d h2 cg Red _ g _ _ Hz2)|]. intros _ h3 [Hz3 R3].
  apply Hagain; [done|]. by eapply relinked_trans, relinked_trans.
Qed.

(** The two cases of a black uncle. *)
Lemma fixup_outer_spec X d again h t x p s cg g u k (Q : unit -> vma_heap -> Prop) :
  zin X h t (frame_at d Red p s :: frame_at d cg g u :: k) -> is_red u = false -> root_of t = Some x ->
  (forall h', zin X h' (node d Black t p (node d Red s g u)) k -> relinked X h h' -> wp (again x) Q h') ->
  wp (fixup_half d again x p g) Q h.
Proof.
  intros Hz Hu Hx Hagain. rewrite !zin_cons in Hz. pose proof Hz as Hzu. rewrite <- zin_cons_far in Hzu.
  pose proof (is_red_spec _ _ _ _ Hzu) as Hred. rewrite Hu in Hred.
  pose proof Hz as ([Hg _] & (Hnd & _) & _).
  apply rep_node in Hg as (_ & [_ _ _ Gf] & Hp & _). apply rep_node in Hp as (_ & [_ _ _ Pf] & _).
  assert (Hxs : root_of s <> Some x).
  { intros Hs%root_elem. apply root_elem in Hx. rewrite !nodup_node in Hnd. naive_solver. }
  unfold fixup_half. apply wp_bind, wp_gets. rewrite Gf. apply wp_bind, wp_gets. rewrite Hred.
  assert (Hrest : wp (fixup_turn d again x p g) Q h).
  { apply wp_bind, wp_gets. rewrite Pf, bool_decide_false by congruence. apply wp_bind.
    eapply wp_mono; [exact (recolor_and_rotate_spec X d h Red t p s cg g u k Hz)|]. intros _ h1 [? ?]. by apply Hagain. }
  by destruct (root_of u).
Qed.

Lemma fixup_inner_spec X d again h c a x b p s cg g u k (Q : unit -> vma_heap -> Prop) :
  zin X h (node d c a x b) (frame_at (flip d) Red p s :: frame_at d cg g u :: k) -> is_red u = false ->
  (forall h', zin X h' (node d Black (node d Red s p a) x (node d Red b g u)) k -> relinked X h h' ->
     wp (again p) Q h') ->
  wp (fixup_half d again x p g) Q h.
Proof.
  intros Hz Hu Hagain. pose proof Hz as Hz'. rewrite zin_cons, node_flip in Hz'.
  pose proof Hz' as Hzu. rewrite zin_cons, <- zin_cons_far in Hzu.
  pose proof (is_red_spec _ _ _ _ Hzu) as Hred. rewrite Hu in Hred.
  pose proof Hz' as Hg. rewrite zin_cons in Hg. destruct Hg as ([Hg _] & _).
  apply rep_node in Hg as (_ & [_ _ _ Gf] & Hp & _). apply rep_node in Hp as (_ & [_ _ _ Pf] & _).
  rewrite root_node in Pf.
  unfold fixup_half. apply wp_bind, wp_gets. rewrite Gf. apply wp_bind, wp_gets. rewrite Hred.
  assert (Hrest : wp (fixup_turn d again x p g) Q h).
  { apply wp_bind, wp_gets. rewrite Pf, bool_decide_true by done. apply wp_bind.
    eapply wp_mono; [exact (zin_rotate X d h Red s p c a x b _ Hz')|]. intros _ h1 [Hz1 R1].
    pose proof Hz1 as ([Hx _] & _). apply rep_node in Hx as (_ & [_ X2 _ _] & Hp1 & _).
    apply rep_node in Hp1 as (_ & [_ P2 _ _] & _). rewrite parent_frame in X2.
    apply wp_bind, wp_gets. rewrite P2. apply wp_bind, wp_gets. cbn [grandparent_of]. rewrite X2.
    rewrite zin_cons in Hz1. apply wp_bind.
    eapply wp_mono; [exact (recolor_and_rotate_spec X d h1 c _ x b cg g u k Hz1)|]. intros _ h2 [Hz2 R2].
    apply Hagain; [done|]. by eapply relinked_trans. }
  by destruct (root_of u).
Qed.

Lemma fixup_loop_spec X fuel t k h x :
  zin X h t k -> root_of t = Some x -> (length k < fuel)%nat ->
  wp (fixup_loop fuel x) (fun _ h' => zin X h' (fixup t k) [] /\ relinked X h h') h.
Proof.
  revert t k h x. induction fuel as [|fuel IH]; intros t k h x Hz Hx Hf; [lia|].
  pose proof Hz as ([Ht Hk] & _). destruct t as [|c a y b]; [done|]. injection Hx as ->.
  destruct k as [|f1 k].
  { rewrite fixup_loop_unfold. cbn [rep parent_of] in Ht. destruct Ht as (_ & [_ L2 _ _] & _).
    apply wp_bind, wp_gets. rewrite L2. done. }
  destruct (frame_view f1) as (d1 & c1 & p & s & ->).
  destruct c1; cycle 1.
  { eapply wp_mono; [by eapply fixup_exit|]. intros _ h' ->. split; [|done].
    rewrite fixup_done by by destruct d1. exact (proj1 (zin_plug X h _ _) Hz). }
  rewrite fixup_loop_unfold. cbn [rep] in Ht. rewrite parent_frame in Ht. destruct Ht as (_ & [_ L2 _ _] & _).
  apply repk_frame_at in Hk as (_ & [K1 K2 _ _] & _ & Hk).
  apply wp_bind, wp_gets. rewrite L2. apply wp_bind, wp_gets. cbn [vma64_region_is_red]. rewrite K1.
  change (negb (col Red =? VMA64_RB_RED)) with false. cbv iota.
  apply wp_bind, wp_gets. rewrite K2. destruct k as [|f2 k].
  { apply wp_ret. split; [|done]. rewrite zin_plug in Hz. exact Hz. }
  destruct (frame_view f2) as (d & cg & g & u & ->). rewrite parent_frame.
  apply repk_frame_at in Hk as (_ & [_ _ G3 G4] & _).
  assert (Hside : forall Q, wp (fixup_half d (fixup_loop fuel) x p g) Q h ->
    wp (gl <- gets (fun h => rb_left (region_at h g)) ;;
        if bool_decide (Some p = gl) then fixup_half L (fixup_loop fuel) x p g
        else fixup_half R (fixup_loop fuel) x p g)%kernel Q h).
  { intros Q HQ. apply wp_bind, wp_gets. destruct d; cbn [child flip] in *.
    - by rewrite G3, bool_decide_true.
    - rewrite G4, bool_decide_false; [done|]. intros Hp. symmetry in Hp. apply root_elem in Hp.
      rewrite !zin_cons in Hz. destruct Hz as (_ & (Hnd & _) & _). rewrite !nodup_node in Hnd.
      apply (proj2 (proj2 (proj2 (proj2 Hnd))) p); [|done]. apply elems_node. by left. }
  apply Hside. clear Hside.
  assert (Hstop : forall d' t' y' p' s' h', zin X h' (node d' Black t' p' s') k -> root_of t' = Some y' ->
    relinked X h h' -> fixup (T c a x b) (frame_at d1 Red p s :: frame_at d cg g u :: k) =
      plug (node d' Black t' p' s') k ->
    wp (fixup_loop fuel y') (fun _ h2 =>
      zin X h2 (fixup (T c a x b) (frame_at d1 Red p s :: frame_at d cg g u :: k)) [] /\ relinked X h h2) h').
  { intros d' t' y' p' s' h' Hz' Hy' HR ->. simpl in Hf. destruct fuel as [|fuel']; [lia|].
    pose proof Hz' as Hz2. rewrite <- zin_cons in Hz'.
    eapply wp_mono; [by eapply fixup_exit|]. intros _ h2 ->. split; [|done]. exact (proj1 (zin_plug X h' _ _) Hz2). }
  destruct (is_red u) eqn:Hu.
  - eapply fixup_recolor_spec; [exact Hz|done|]. intros h' Hz' HR. rewrite fixup_recolor by done.
    eapply wp_mono; [apply IH; [exact Hz'|apply root_node|simpl in Hf; lia]|].
    intros _ h2 [? ?]. split; [done|]. by eapply relinked_trans.
  - destruct (tree_view d (T c a x b)) as (c' & a' & x' & b' & Hv); [done|].
    assert (x' = x) as -> by (pose proof (root_node d c' a' x' b') as Hr; rewrite <- Hv in Hr; by injection Hr).
    destruct (decide (d1 = d)) as [->|Hd].
    + eapply fixup_outer_spec; [exact Hz|done|done|]. intros h' Hz' HR.
      eapply Hstop; [exact Hz'|done|done|]. by apply fixup_outer.
    + assert (d1 = flip d) as -> by (by destruct d1, d). rewrite Hv in *.
      eapply fixup_inner_spec; [exact Hz|done|]. intros h' Hz' HR.
      eapply Hstop; [exact Hz'|apply root_node|done|]. by apply fixup_inner.
Qed.

(** ** Insertion *)

Definition key h (i : nat) : Z := virt_base (region_at h i).

(** The tree the links of [h] spell. *)
Definition tree_rep h t : Prop := zrep h t [] /\ NoDup (elems t).

Lemma tree_rep_zin h t : tree_rep h t <-> zin (elems t) h t [].
Proof.
  unfold tree_rep, zin, zdistinct, kelems. simpl. split.
  - intros [H1 H2]. split_and!; [done|done|constructor|set_solver|set_solver].
  - naive_solver.
Qed.

Lemma key_data h h' i : data (region_at h' i) = data (region_at h i) -> key h' i = key h i.
Proof.
  intros H. change (virt_base (data (region_at h' i)) = virt_base (data (region_at h i))). by rewrite H.
Qed.

Lemma path_ext key1 key2 b t k : (forall i, key1 i = key2 i) -> path key1 b t k = path key2 b t k.
Proof.
  intros H. revert k. induction t as [|c l IHl i r IHr]; intros k; simpl; [done|].
  rewrite H. destruct (_ <? _)%Z; [apply IHl|]. destruct (_ <? _)%Z; [apply IHr|done].
Qed.

Lemma descend_spec fuel h b t k :
  rep h (parent_of k) t -> (length (elems t) < fuel)%nat ->
  descend fuel h b (root_of t) (parent_of k) = parent_of <$> path (key h) b t k.
Proof.
  revert t k. induction fuel as [|fuel IH]; intros t k Ht Hf; [lia|].
  destruct t as [|c l i r]; [done|]. simpl in Ht, Hf. destruct Ht as (_ & [_ _ L3 L4] & Hl & Hr).
  rewrite length_app in Hf. simpl in Hf. cbn [descend root_of path]. fold (key h i). rewrite L3, L4.
  destruct (b <? key h i); [by apply (IH l (FL c i r :: k)); [done|lia]|].
  destruct (key h i <? b); [by apply (IH r (FR c i l :: k)); [done|lia]|done].
Qed.

(** The new node goes to the side of its parent its key says. *)
Definition side_ok (ky : nat -> Z) (b : Z) (k : list frame) : Prop :=
  match k with [] => True | FL _ i _ :: _ => b < ky i | FR _ i _ :: _ => ky i < b end.

Lemma path_side ky b t k k' : side_ok ky b k -> path ky b t k = Some k' -> side_ok ky b k'.
Proof.
  revert k. induction t as [|c l IHl i r IHr]; intros k Hk; simpl; [by intros [= <-]|].
  destruct (Z.ltb_spec b (ky i)); [by apply IHl|].
  destruct (Z.ltb_spec (ky i) b); [by apply IHr|done].
Qed.

Lemma path_plug ky b t k k' : path ky b t k = Some k' -> plug E k' = plug t k.
Proof.
  revert k. induction t as [|c l IHl i r IHr]; intros k; simpl; [by intros [= <-]|].
  destruct (b <? ky i); [by intros H%IHl|]. destruct (ky i <? b); [by intros H%IHr|done].
Qed.

Lemma rb_insert_fixup_spec X h t k x :
  zin X h t k -> root_of t = Some x -> (length k < link_fuel)%nat ->
  wp (vma64_rb_insert_fixup x) (fun _ h' => zin X h' (blacken (fixup t k)) [] /\ relinked X h h') h.
Proof.
  intros Hz Hx Hf. apply wp_bind. eapply wp_mono; [by apply (fixup_loop_spec X _ t k h x)|].
  intros _ h1 [Hz1 R1]. apply wp_bind, wp_gets. pose proof Hz1 as ([_ Hr] & _). simpl in Hr. rewrite Hr.
  destruct (fixup t k) as [|c a y b]; [by apply wp_ret|].
  eapply wp_mono; [exact (zin_paint X L h1 c Black a y b [] Hz1)|].
  intros _ h2 [Hz2 R2]. split; [done|]. by eapply relinked_trans.
Qed.

(** Hanging the cleared red node [x] at the end of path [k]. *)
Lemma hang_spec h k x :
  repk h None k -> NoDup (kelems k) -> x ∉ kelems k -> in_pool h x ->
  links_of (region_at h x) Red None None None -> side_ok (key h) (key h x) k ->
  wp (match parent_of k with
      | None => set_tree (fun tr => tr <| rb_root := Some x |>)
      | Some p =>
          pbase <- gets (fun h => virt_base (region_at h p)) ;;
          if key h x <? pbase then set_region p (fun r => r <| rb_left := Some x |>)
          else set_region p (fun r => r <| rb_right := Some x |>)
      end)%kernel
    (fun _ h' => zin (x :: kelems k) h' (T Red E x E) k /\ relinked (x :: kelems k) h h')
    (put_region x (fun r => r <| rb_parent := parent_of k |>) h).
Proof.
  intros Hk Hnd Hx Hp [L1 L2 L3 L4] Hs. set (h1 := put_region x _ h).
  assert (R1 : relinked (x :: kelems k) h h1) by (apply relinked_put; [by left|done]).
  assert (Hd : zdistinct (T Red E x E) k).
  { split_and!; [apply NoDup_singleton|done|]. simpl. intros j ->%list_elem_of_singleton. done. }
  assert (Hfin : forall h', relinked (kelems k) h1 h' -> repk h' (Some x) k ->
    zin (x :: kelems k) h' (T Red E x E) k /\ relinked (x :: kelems k) h h').
  { intros h' R2 Hk'. split; [|eapply relinked_trans; [exact R1|eapply relinked_mono; [|exact R2]; set_solver]].
    split; [split; [|done]|split; [done|simpl; set_solver]].
    simpl. rewrite (rl_other _ _ _ R2 x Hx). unfold h1. rd.
    split_and!; [unfold in_pool in *; rewrite (rl_length _ _ _ R2), (rl_length _ _ _ R1); done|by split|done|done]. }
  destruct k as [|f k]; [by apply wp_modify, Hfin|].
  destruct (frame_view f) as (d & c & i & s & ->). rewrite parent_frame. apply wp_bind, wp_gets.
  apply repk_frame_at in Hk as (Hi & [K1 K2 K3 K4] & Rs & Hk). rewrite elem_kelems in Hx.
  apply nodup_kelems in Hnd as (Ns & _ & N1 & N2 & _). assert (x <> i) by tauto. unfold h1. rd. fold h1.
  assert (Hcmp : (key h x <? virt_base (region_at h i)) = match d with L => true | R => false end).
  { destruct d; simpl in Hs; [apply Z.ltb_lt|apply Z.ltb_ge]; unfold key in *; lia. }
  rewrite Hcmp. assert (Hput : forall g, g = set_child d (Some x) -> wp (set_region i g) (fun _ h' =>
    zin (x :: kelems (frame_at d c i s :: k)) h' (T Red E x E) (frame_at d c i s :: k) /\
    relinked (x :: kelems (frame_at d c i s :: k)) h h') h1).
  { intros g ->. apply wp_modify, Hfin.
    - apply relinked_put; [apply elem_kelems; by left|apply set_child_data].
    - apply repk_frame_at. unfold h1. split_and!; [by pool| | |].
      + rd. destruct d; by split.
      + eapply rep_frame; [simpl; by rewrite !length_alter| |exact Rs].
        intros j Hj. assert (x <> j) by (intros ->; tauto). rd. done.
      + eapply repk_frame; [simpl; by rewrite !length_alter|done| |exact Hk].
        intros j Hj. fold (kelems k) in Hj. assert (x <> j) by (intros ->; tauto). rd. done. }
  destruct d; by apply Hput.
Qed.

Lemma vma64_rb_insert_spec h t x :
  tree_rep h t -> x ∉ elems t -> in_pool h x -> (length (elems t) < link_fuel)%nat ->
  wp (vma64_rb_insert x) (fun v h' =>
    match insert (key h) x t with
    | Some t' => v = 1 /\ tree_rep h' t' /\ relinked (x :: elems t) h h'
    | None => v = 0 /\ tree_rep h' t /\ relinked (x :: elems t) h h'
    end) h.
Proof.
  intros [[Ht Hr] Hnd] Hx Hp Hf. apply wp_bind, wp_modify. set (h1 := put_region x _ h).
  assert (R1 : relinked (x :: elems t) h h1) by (apply relinked_put; [by left|done]).
  assert (Hz1 : zrep h1 t []).
  { split; [|done]. eapply rep_frame; [simpl; by rewrite length_alter| |exact Ht].
    intros j Hj. assert (x <> j) by (intros ->; done). unfold h1. rd. done. }
  assert (Hk1 : forall i, key h1 i = key h i) by (intros i; apply key_data, R1).
  apply wp_bind, wp_gets. fold (key h1 x). rewrite Hk1. apply wp_bind, wp_gets.
  destruct Hz1 as [Ht1 Hr1]. change (rb_root (tree h1) = root_of t) in Hr1. rewrite Hr1.
  change (@None nat) with (parent_of []) at 1.
  rewrite (descend_spec link_fuel h1 (key h x) t [] Ht1 Hf), (path_ext _ (key h) _ _ _ Hk1).
  unfold insert. destruct (path (key h) (key h x) t []) as [k|] eqn:Hpath; simpl; [|by split_and!].
  pose proof (path_plug _ _ _ _ _ Hpath) as Hplug. simpl in Hplug.
  assert (Hzk : zrep h1 E k /\ zdistinct E k).
  { split; [rewrite zrep_plug, Hplug; done|]. apply zdistinct_nodup. by rewrite Hplug. }
  destruct Hzk as [[_ Hk] (_ & Ndk & _)].
  assert (Hel : elems t = kelems k) by (by rewrite <- Hplug, elems_plug).
  assert (Hside : side_ok (key h1) (key h1 x) k).
  { assert (Hs : side_ok (key h) (key h x) k) by (by eapply path_side; [|exact Hpath]).
    destruct k as [|[]]; simpl in *; rewrite ?Hk1; done. }
  rewrite Hel in *. assert (Hp1 : in_pool h1 x) by (unfold h1; by pool).
  assert (Hl1 : links_of (region_at h1 x) Red None None None) by (unfold h1; rd; by split).
  pose proof (hang_spec h1 k x Hk Ndk Hx Hp1 Hl1 Hside) as Hh. rewrite Hk1 in Hh.
  apply wp_bind, wp_modify, wp_bind. eapply wp_mono; [exact Hh|].
  intros _ h2 [Hz2 R2]. apply wp_bind.
  eapply wp_mono; [eapply rb_insert_fixup_spec; [exact Hz2|done|]|].
  { pose proof (path_length _ _ _ _ _ Hpath) as Hl. simpl in Hl. rewrite Hel in Hl. lia. }
  intros _ h3 [Hz3 R3]. apply wp_ret. split_and!; [done| |].
  - split; [apply Hz3|]. destruct Hz3 as (_ & (Hnd3 & _) & _). exact Hnd3.
  - by eapply relinked_trans, relinked_trans.
Qed.

End VmaRb.
