(* ===== verification/VmaList.v ===== *)
(** * An address space: the list, the tree and their agreement

    [space h l] says that the nodes [l], in this order, are the address space
    of heap [h]: they form its doubly linked list and its search tree, their
    ranges are valid, disjoint and increasing, and the counters are exact.
    The list routines of VmaTree.v keep it, and lookups compute what a search
    of the list would. *)

From stdpp Require Import sorting.
From S2P Require Import Prelude VmaTree RbTree VmaRb.
Import VmaTree RbTree VmaRb.
Local Open Scope Z_scope.

Module VmaList.

Implicit Types (h : vma_heap) (i j x : nat) (l : list nat).

(** ** The doubly linked list *)

Definition first_of (l : list nat) (d : option nat) : option nat :=
  match l with [] => d | i :: _ => Some i end.
Fixpoint last_of (l : list nat) (d : option nat) : option nat :=
  match l with [] => d | i :: l' => last_of l' (Some i) end.

Fixpoint dseg h (pv : option nat) l (nx : option nat) : Prop :=
  match l with
  | [] => True
  | i :: l' => in_pool h i /\ prev (region_at h i) = pv /\ next (region_at h i) = first_of l' nx
               /\ dseg h (Some i) l' nx
  end.

Definition list_rep h l : Prop := dseg h None l None /\ head (tree h) = first_of l None.

Lemma dseg_app h pv l1 l2 nx :
  dseg h pv (l1 ++ l2) nx <-> dseg h pv l1 (first_of l2 nx) /\ dseg h (last_of l1 pv) l2 nx.
Proof.
  revert pv. induction l1 as [|i l1 IH]; intros pv; simpl; [tauto|].
  rewrite IH. destruct l1; simpl; tauto.
Qed.

Lemma dseg_pool h pv l nx i : dseg h pv l nx -> i ∈ l -> in_pool h i.
Proof.
  revert pv. induction l as [|j l IH]; intros pv; simpl; [set_solver|].
  intros (H1 & _ & _ & H2) [->|Hi]%elem_of_cons; eauto.
Qed.

Lemma dseg_frame h h' pv l nx :
  length (regions h') = length (regions h) ->
  (forall i, i ∈ l -> prev (region_at h' i) = prev (region_at h i) /\ next (region_at h' i) = next (region_at h i)) ->
  dseg h pv l nx -> dseg h' pv l nx.
Proof.
  intros Hlen. revert pv. induction l as [|i l IH]; intros pv Hs; simpl; [done|].
  intros (H1 & H2 & H3 & H4). destruct (Hs i ltac:(set_solver)) as [-> ->].
  unfold in_pool in *. rewrite Hlen. split_and!; [done|done|done|]. apply IH; [set_solver|done].
Qed.

(** The same segment under another predecessor, or before another successor. *)
Lemma dseg_prev h h' pv pv' l nx :
  length (regions h') = length (regions h) -> NoDup l ->
  (forall i, i ∈ l -> Some i <> first_of l None -> region_at h' i = region_at h i) ->
  (forall i, first_of l None = Some i -> region_at h' i = (region_at h i) <| prev := pv' |>) ->
  dseg h pv l nx -> dseg h' pv' l nx.
Proof.
  intros Hlen Hnd Hs Hf. destruct l as [|i l]; simpl; [done|]. intros (H1 & H2 & H3 & H4).
  rewrite (Hf i eq_refl). apply NoDup_cons in Hnd as [Hi _].
  split_and!; [unfold in_pool in *; by rewrite Hlen|done|done|].
  eapply dseg_frame; [done| |exact H4]. intros j Hj. rewrite Hs; [done|set_solver|].
  simpl. intros [= ->]. done.
Qed.

Lemma last_of_app l i d : last_of (l ++ [i]) d = Some i.
Proof. revert d. induction l; intros d; simpl; auto. Qed.

Lemma last_elem l d i : last_of l d = Some i -> i ∈ l \/ d = Some i.
Proof.
  revert d. induction l as [|j l IH]; intros d; simpl; [auto|].
  intros [H|[= ->]]%IH; [left; set_solver|left; set_solver].
Qed.

Lemma dseg_next h h' pv l nx nx' :
  length (regions h') = length (regions h) -> NoDup l ->
  (forall i, i ∈ l -> Some i <> last_of l None -> region_at h' i = region_at h i) ->
  (forall i, last_of l None = Some i -> region_at h' i = (region_at h i) <| next := nx' |>) ->
  dseg h pv l nx -> dseg h' pv l nx'.
Proof.
  intros Hlen. destruct l as [|i l _] using rev_ind; [done|]. intros Hnd. rewrite last_of_app.
  intros Hs Hf. rewrite !dseg_app. simpl. intros (H1 & H2 & H3 & _ & _).
  apply NoDup_app in Hnd as (_ & Hd & _). rewrite (Hf i eq_refl).
  split; [|by unfold in_pool in *; rewrite Hlen].
  eapply dseg_frame; [done| |exact H1]. intros j Hj. rewrite Hs; [done|set_solver|].
  intros [= ->]. apply (Hd i Hj). set_solver.
Qed.

(** [walk] stops at the first node of the list that satisfies [stop]. *)
Lemma walk_spec fuel h stop pv l :
  dseg h pv l None -> (length l < fuel)%nat ->
  walk fuel h stop (first_of l None) = List.find stop l.
Proof.
  revert pv l. induction fuel as [|fuel IH]; intros pv l Hl Hf; [lia|].
  destruct l as [|i l]; [done|]. simpl in *. destruct Hl as (_ & _ & Hn & Hl).
  destruct (stop i); [done|]. rewrite Hn. apply (IH (Some i)); [done|lia].
Qed.

(** ** Linking and unlinking a node *)

(** Everything but the list links. *)
Definition unlisted (r : vma_region_t) : vma_region_t := r <| prev := None |> <| next := None |>.

Record relisted (X : list nat) h h' : Prop := {
  rs_length : length (regions h') = length (regions h);
  rs_tree : (tree h') <| head := None |> = (tree h) <| head := None |>;
  rs_data : forall i, unlisted (region_at h' i) = unlisted (region_at h i);
  rs_other : forall i, i ∉ X -> region_at h' i = region_at h i }.

Lemma relisted_trans X h1 h2 h3 : relisted X h1 h2 -> relisted X h2 h3 -> relisted X h1 h3.
Proof.
  intros [A1 A2 A3 A4] [B1 B2 B3 B4]. split; [congruence|congruence| |].
  - intros i. by rewrite B3, A3.
  - intros i Hi. by rewrite B4, A4.
Qed.

Lemma relisted_put X h i f : i ∈ X -> (forall r, unlisted (f r) = unlisted r) -> relisted X h (put_region i f h).
Proof.
  intros Hi Hf. split; simpl; [by rewrite length_alter|done| |].
  - intros j. destruct (decide (i = j)) as [->|Hne]; [|by rewrite at_other].
    unfold region_at. simpl. rewrite list_lookup_alter, decide_True by done.
    destruct (regions h !! j); simpl; [apply Hf|done].
  - intros j Hj. apply at_other. set_solver.
Qed.

Lemma relisted_head X h v : relisted X h (put_tree (fun tr => tr <| head := v |>) h).
Proof. done. Qed.

(** [pv->next = v], or the head of the list. *)
Definition point_next (pv v : option nat) : RM unit :=
  match pv with
  | Some p => set_region p (fun q => q <| next := v |>)
  | None => set_tree (fun tr => tr <| head := v |>)
  end.
(** [nx->prev = v], if there is a next node. *)
Definition point_prev (nx v : option nat) : RM unit :=
  match nx with Some n => set_region n (fun q => q <| prev := v |>) | None => ret tt end.

(** [l1] now ends before [v]. *)
Lemma point_next_spec h l1 v nx :
  dseg h None l1 nx -> NoDup l1 -> (l1 <> [] -> head (tree h) = first_of l1 None) ->
  wp (point_next (last_of l1 None) v) (fun _ h' => dseg h' None l1 v /\
    head (tree h') = first_of l1 v /\ relisted l1 h h') h.
Proof.
  intros Hd Hnd Hh. destruct l1 as [|i l1 _] using rev_ind.
  { apply wp_modify. split_and!; [done|done|apply relisted_head]. }
  rewrite last_of_app. apply wp_modify. split_and!.
  - assert (Hi : in_pool h i) by (eapply dseg_pool; [exact Hd|set_solver]).
    eapply dseg_next; [simpl; by rewrite length_alter|done| | |exact Hd]; rewrite last_of_app.
    + intros j Hj Hne. apply at_other. congruence.
    + intros j [= <-]. by apply at_same.
  - simpl. rewrite Hh by by destruct l1. by destruct l1.
  - apply relisted_put; [set_solver|done].
Qed.

Lemma point_prev_spec h l2 v pv :
  dseg h pv l2 None -> NoDup l2 ->
  wp (point_prev (first_of l2 None) v) (fun _ h' => dseg h' v l2 None /\
    tree h' = tree h /\ relisted l2 h h') h.
Proof.
  intros Hd Hnd. destruct l2 as [|i l2]; [by apply wp_ret|]. apply wp_modify.
  assert (Hi : in_pool h i) by (eapply dseg_pool; [exact Hd|set_solver]). split_and!; [|done|].
  - eapply dseg_prev; [simpl; by rewrite length_alter|done| | |exact Hd].
    + intros j Hj Hne. apply at_other. simpl in Hne. congruence.
    + intros j [= <-]. by apply at_same.
  - apply relisted_put; [set_solver|done].
Qed.

Lemma relisted_seg X h h' pv l nx :
  relisted X h h' -> (forall i, i ∈ l -> i ∉ X) -> dseg h pv l nx -> dseg h' pv l nx.
Proof.
  intros HR Hd. apply dseg_frame; [apply HR|]. intros i Hi. by rewrite (rs_other _ _ _ HR i (Hd i Hi)).
Qed.

Lemma relisted_mono X Y h h' : X ⊆ Y -> relisted X h h' -> relisted Y h h'.
Proof. intros HX [A1 A2 A3 A4]. split; [done|done|done|]. intros i Hi. apply A4. set_solver. Qed.

Lemma nodup_split l1 x l2 : NoDup (l1 ++ x :: l2) <->
  NoDup l1 /\ NoDup l2 /\ x ∉ l1 /\ x ∉ l2 /\ (forall i, i ∈ l1 -> i ∉ l2).
Proof.
  rewrite NoDup_app, NoDup_cons. split; [intros (?&?&?&?)|intros (?&?&?&?&?)]; split_and!; try done; set_solver.
Qed.

Lemma link_spec h l1 x l2 :
  list_rep h (l1 ++ l2) -> NoDup (l1 ++ x :: l2) -> in_pool h x ->
  wp (set_region x (fun r => r <| prev := last_of l1 None |> <| next := first_of l2 None |>) ;;;
      point_next (last_of l1 None) (Some x) ;;; point_prev (first_of l2 None) (Some x))%kernel
    (fun _ h' => list_rep h' (l1 ++ x :: l2) /\ relisted (l1 ++ x :: l2) h h') h.
Proof.
  intros [Hd Hh] Hnd Hx. apply nodup_split in Hnd as (N1 & N2 & X1 & X2 & N3).
  apply dseg_app in Hd as [D1 D2]. apply wp_bind, wp_modify. set (h1 := put_region x _ h).
  assert (R1 : relisted [x] h h1) by (apply relisted_put; [by left|done]).
  assert (D1' : dseg h1 None l1 (first_of l2 None)) by (eapply relisted_seg; [exact R1| |done]; set_solver).
  apply wp_bind. eapply wp_mono; [eapply (point_next_spec h1 l1 (Some x)); [exact D1'|done|]|].
  { intros Hne. simpl. rewrite Hh. by destruct l1. }
  intros _ h2 (D1'' & Hh2 & R2).
  assert (D2' : dseg h2 (last_of l1 None) l2 None).
  { eapply relisted_seg; [exact R2|set_solver|]. eapply relisted_seg; [exact R1| |done]. set_solver. }
  eapply wp_mono; [eapply (point_prev_spec h2 l2 (Some x)); [exact D2'|done]|].
  intros _ h3 (D3 & T3 & R3). split; [split|].
  - apply dseg_app. split; [eapply relisted_seg; [exact R3|set_solver|done]|]. simpl. split_and!; [| | |done].
    + unfold in_pool in *. by rewrite (rs_length _ _ _ R3), (rs_length _ _ _ R2), (rs_length _ _ _ R1).
    + rewrite (rs_other _ _ _ R3 x), (rs_other _ _ _ R2 x) by done. unfold h1. by rewrite at_same.
    + rewrite (rs_other _ _ _ R3 x), (rs_other _ _ _ R2 x) by done. unfold h1. by rewrite at_same.
  - rewrite T3, Hh2. by destruct l1.
  - eapply relisted_trans; [eapply relisted_mono; [|exact R1]; set_solver|].
    eapply relisted_trans; eapply relisted_mono; [|exact R2| |exact R3]; set_solver.
Qed.

Lemma unlink_spec h l1 x l2 :
  list_rep h (l1 ++ x :: l2) -> NoDup (l1 ++ x :: l2) ->
  wp (unlink x) (fun _ h' => list_rep h' (l1 ++ l2) /\ relisted (l1 ++ x :: l2) h h') h.
Proof.
  intros [Hd Hh] Hnd. apply nodup_split in Hnd as (N1 & N2 & X1 & X2 & N3).
  apply dseg_app in Hd as [D1 (Hx & Hp & Hn & D2)]. apply wp_bind, wp_gets. rewrite Hp, Hn. apply wp_bind.
  eapply wp_mono; [eapply (point_next_spec h l1 (first_of l2 None)); [exact D1|done|]|].
  { intros Hne. rewrite Hh. by destruct l1. }
  intros _ h1 (D1' & Hh1 & R1).
  assert (D2' : dseg h1 (Some x) l2 None) by (eapply relisted_seg; [exact R1|set_solver|done]).
  eapply wp_mono; [eapply (point_prev_spec h1 l2 (last_of l1 None)); [exact D2'|done]|].
  intros _ h2 (D3 & T3 & R2). split; [split|].
  - apply dseg_app. split; [|done]. eapply relisted_seg; [exact R2|set_solver|done].
  - rewrite T3, Hh1. by destruct l1.
  - eapply relisted_trans; eapply relisted_mono; [|exact R1| |exact R2]; set_solver.
Qed.

End VmaList.
