(* ===== verification/VmaSpace.v ===== *)
(** * Address spaces and their operations

    [space h l] is the invariant of one address space; inserting, detaching
    and looking up are specified against the list of its areas. *)

From stdpp Require Import sorting.
From S2P Require Import Prelude VmaTree RbTree VmaRb VmaList.
Import VmaTree RbTree VmaRb VmaList.
Local Open Scope Z_scope.

Module VmaSpace.

Implicit Types (h : vma_heap) (i j x : nat) (l : list nat).

(** What a region means, without the links. *)
Record area := mk_area {
  a_base : Z; a_end : Z; a_phys : Z; a_prot : Z; a_map : Z; a_type : Z; a_handle : Z; a_token : Z }.

Definition area_of (r : vma_region_t) : area :=
  mk_area (virt_base r) (virt_end r) (phys_base r) (prot_flags r) (map_flags r)
    (backing_type r) (backing_handle r) (vma_token r).

Definition range_ok (r : vma_region_t) : Prop :=
  vma64_range_valid (virt_base r) (virt_end r) = true /\ 0 <= virt_base r /\ virt_end r < 2 ^ 64.

Definition below h (i j : nat) : Prop := virt_end (region_at h i) <= virt_base (region_at h j).

Fixpoint bytes h l : Z :=
  match l with [] => 0 | i :: l' => virt_end (region_at h i) - virt_base (region_at h i) + bytes h l' end.

(** The search tree over the nodes [l]. *)
Definition indexed h l : Prop :=
  exists t n, tree_rep h t /\ elems t = l /\ rb n t /\ is_red t = false.

Record space h l : Prop := {
  sp_list : list_rep h l;
  sp_tree : indexed h l;
  sp_order : StronglySorted (below h) l;
  sp_range : forall i, i ∈ l -> range_ok (region_at h i);
  sp_count : region_count (tree h) = Z.of_nat (length l);
  sp_bytes : mapped_bytes (tree h) = bytes h l;
  sp_pool : length (regions h) = VMA64_MAX_STATIC_REGIONS }.

(** Outside [X] nothing changed, and no area changed its meaning. *)
Record touched (X : list nat) h h' : Prop := {
  tc_length : length (regions h') = length (regions h);
  tc_brk : (brk_base (tree h'), brk_current (tree h'), brk_peak (tree h'))
           = (brk_base (tree h), brk_current (tree h), brk_peak (tree h));
  tc_area : forall i, area_of (region_at h' i) = area_of (region_at h i);
  tc_other : forall i, i ∉ X -> region_at h' i = region_at h i }.

Lemma touched_refl X h : touched X h h.
Proof. done. Qed.

Lemma touched_trans X h1 h2 h3 : touched X h1 h2 -> touched X h2 h3 -> touched X h1 h3.
Proof.
  intros [A1 A2 A3 A4] [B1 B2 B3 B4]. split; [congruence|congruence| |].
  - intros i. by rewrite B3, A3.
  - intros i Hi. by rewrite B4, A4.
Qed.

Lemma touched_mono X Y h h' : X ⊆ Y -> touched X h h' -> touched Y h h'.
Proof. intros HX [A1 A2 A3 A4]. split; [done|done|done|]. intros i Hi. apply A4. set_solver. Qed.

Lemma area_data r r' : data r' = data r -> area_of r' = area_of r.
Proof. intros H. change (area_of (data r') = area_of (data r)). by rewrite H. Qed.
Lemma area_unlisted r r' : unlisted r' = unlisted r -> area_of r' = area_of r.
Proof. intros H. change (area_of (unlisted r') = area_of (unlisted r)). by rewrite H. Qed.

Lemma relinked_touched X h h' : relinked X h h' -> touched X h h'.
Proof.
  intros [A1 A2 A3 A4]. split; [done| |intros i; apply area_data, A3|done].
  clear A3 A4. destruct (tree h), (tree h'). cbn in *. injection A2; intros; congruence.
Qed.
Lemma relisted_touched X h h' : relisted X h h' -> touched X h h'.
Proof.
  intros [A1 A2 A3 A4]. split; [done| |intros i; apply area_unlisted, A3|done].
  clear A3 A4. destruct (tree h), (tree h'). cbn in *. injection A2; intros; congruence.
Qed.

(** ** Reading through a change *)

Lemma touched_base X h h' i : touched X h h' -> virt_base (region_at h' i) = virt_base (region_at h i).
Proof. intros H. change (a_base (area_of (region_at h' i)) = a_base (area_of (region_at h i))). by rewrite (tc_area _ _ _ H). Qed.
Lemma touched_end X h h' i : touched X h h' -> virt_end (region_at h' i) = virt_end (region_at h i).
Proof. intros H. change (a_end (area_of (region_at h' i)) = a_end (area_of (region_at h i))). by rewrite (tc_area _ _ _ H). Qed.

Lemma touched_key X h h' i : touched X h h' -> key h' i = key h i.
Proof. apply touched_base. Qed.

Lemma touched_range X h h' i : touched X h h' -> range_ok (region_at h i) -> range_ok (region_at h' i).
Proof. intros H. unfold range_ok. by rewrite (touched_base X h h' i H), (touched_end X h h' i H). Qed.

Lemma touched_order X h h' l : touched X h h' -> StronglySorted (below h) l -> StronglySorted (below h') l.
Proof.
  intros H. induction 1 as [|i l Hl IH Hf]; constructor; [done|].
  eapply Forall_impl; [exact Hf|]. intros j. unfold below.
  by rewrite (touched_end X h h' i H), (touched_base X h h' j H).
Qed.

Lemma touched_bytes X h h' l : touched X h h' -> bytes h' l = bytes h l.
Proof.
  intros H. induction l as [|i l IH]; simpl; [done|].
  by rewrite IH, (touched_base X h h' i H), (touched_end X h h' i H).
Qed.

(** ** Facts of an address space *)

Lemma range_pos r : range_ok r -> virt_base r < virt_end r.
Proof. intros [H _]. unfold vma64_range_valid in H. boolify. done. Qed.

Lemma order_app h l1 l2 : StronglySorted (below h) (l1 ++ l2) <->
  StronglySorted (below h) l1 /\ StronglySorted (below h) l2 /\ forall i j, i ∈ l1 -> j ∈ l2 -> below h i j.
Proof.
  induction l1 as [|a l1 IH]; simpl.
  { split; [|tauto]. intros H. split_and!; [constructor|done|set_solver]. }
  split.
  - intros [H1 H2]%StronglySorted_inv. apply IH in H1 as (Ha & Hb & Hc). rewrite Forall_app in H2.
    destruct H2 as [H2 H3]. rewrite Forall_forall in H3.
    split_and!; [by constructor|done|]. intros i j [->|Hi]%elem_of_cons Hj; auto.
  - intros ([H1 H2]%StronglySorted_inv & H3 & H4). constructor; [apply IH; split_and!; [done|done|set_solver]|].
    rewrite Forall_app, !Forall_forall in *. split; [done|]. intros j Hj. apply H4; set_solver.
Qed.

Lemma order_cons h i l : StronglySorted (below h) (i :: l) <->
  StronglySorted (below h) l /\ forall j, j ∈ l -> below h i j.
Proof.
  rewrite (order_app h [i] l). split.
  - intros (_ & H & Hc). split; [done|]. intros j. apply Hc. by left.
  - intros [H Hc]. split_and!; [repeat constructor|done|]. intros a j ->%list_elem_of_singleton. apply Hc.
Qed.

Lemma order_sorted h l : StronglySorted (below h) l -> (forall i, i ∈ l -> range_ok (region_at h i)) ->
  RbTree.sorted (key h) l.
Proof.
  induction l as [|i l IH]; intros Ho Hr; [constructor|]. apply order_cons in Ho as [Ho Hb].
  apply sorted_cons. split; [apply IH; [done|set_solver]|]. intros j Hj.
  specialize (Hb j Hj). pose proof (range_pos _ (Hr i ltac:(set_solver))). unfold below, key in *. lia.
Qed.

Lemma sorted_nodup ky l : RbTree.sorted ky l -> NoDup l.
Proof.
  induction l as [|i l IH]; intros Hs; [constructor|]. apply sorted_cons in Hs as [Hs Hb].
  constructor; [|by apply IH]. intros Hi. specialize (Hb i Hi). lia.
Qed.

Lemma order_nodup h l : StronglySorted (below h) l -> (forall i, i ∈ l -> range_ok (region_at h i)) -> NoDup l.
Proof. intros. by eapply sorted_nodup, order_sorted. Qed.

(** Disjoint ranges below 2^64 have less than 2^64 bytes. *)
Lemma bytes_bound h lo l :
  StronglySorted (below h) l -> (forall i, i ∈ l -> range_ok (region_at h i) /\ lo <= virt_base (region_at h i)) ->
  lo < 2 ^ 64 -> 0 <= bytes h l /\ lo + bytes h l < 2 ^ 64.
Proof.
  revert lo. induction l as [|i l IH]; intros lo Ho Hr Hlo; simpl; [lia|].
  apply order_cons in Ho as [Ho Hb]. destruct (Hr i ltac:(set_solver)) as [Hi Hl].
  pose proof (range_pos _ Hi). destruct Hi as (_ & H0 & H1).
  destruct (IH (virt_end (region_at h i)) Ho) as [H2 H3]; [|lia|lia].
  intros j Hj. split; [apply Hr; set_solver|]. by apply Hb.
Qed.

Lemma bytes_app h l1 l2 : bytes h (l1 ++ l2) = bytes h l1 + bytes h l2.
Proof. induction l1 as [|i l1 IH]; simpl; [done|]. rewrite IH. lia. Qed.

Lemma pool_length h l : NoDup l -> (forall i, i ∈ l -> in_pool h i) -> (length l <= length (regions h))%nat.
Proof.
  intros Hnd Hp. rewrite <- (length_seq (length (regions h)) 0).
  apply NoDup_incl_length; [by apply NoDup_ListNoDup|].
  intros i Hi%list_elem_of_In. apply in_seq. specialize (Hp i Hi). unfold in_pool in Hp. lia.
Qed.

Section space_facts.
Context {h l} (Hs : space h l).

Lemma space_nodup : NoDup l.
Proof. by eapply order_nodup; apply Hs. Qed.
Lemma space_pool i : i ∈ l -> in_pool h i.
Proof. eapply dseg_pool, Hs. Qed.
Lemma space_length : (length l <= VMA64_MAX_STATIC_REGIONS)%nat.
Proof. rewrite <- (sp_pool _ _ Hs). apply pool_length; [apply space_nodup|apply space_pool]. Qed.
Lemma space_fuel : (length l < link_fuel)%nat.
Proof. pose proof space_length. unfold link_fuel. lia. Qed.
Lemma space_bytes : 0 <= bytes h l < 2 ^ 64.
Proof.
  destruct (bytes_bound h 0 l (sp_order _ _ Hs)) as [H1 H2]; [|lia|lia].
  intros i Hi. pose proof (sp_range _ _ Hs i Hi) as Hr. split; [done|]. apply Hr.
Qed.
End space_facts.

End VmaSpace.
