(* ===== verification/VmaSpaceOps.v ===== *)
(** * Inserting into, detaching from and searching an address space *)

From stdpp Require Import sorting.
From S2P Require Import Prelude VmaTree RbTree VmaRb VmaList VmaSpace.
Import VmaTree RbTree VmaRb VmaList VmaSpace.
Local Open Scope Z_scope.

Module VmaSpaceOps.

Implicit Types (h : vma_heap) (i j x : nat) (l : list nat).

(** ** The tree *)

Definition links (r : vma_region_t) := (rb_color r, rb_parent r, rb_left r, rb_right r).

Lemma rep_links h h' par t :
  length (regions h') = length (regions h) ->
  (forall i, i ∈ elems t -> links (region_at h' i) = links (region_at h i)) -> rep h par t -> rep h' par t.
Proof.
  intros Hlen. revert par. induction t as [|c l IHl i r IHr]; intros par Hs; simpl; [done|].
  unfold in_pool. rewrite Hlen. intros (H1 & [L1 L2 L3 L4] & H3 & H4).
  pose proof (Hs i ltac:(simpl; set_solver)) as Hi. unfold links in Hi. injection Hi as E1 E2 E3 E4.
  split_and!; [done|split; congruence|apply IHl|apply IHr]; try done; intros j Hj; apply Hs; simpl; set_solver.
Qed.

Lemma unlisted_links r r' : unlisted r' = unlisted r -> links r' = links r.
Proof. intros H. change (links (unlisted r') = links (unlisted r)). by rewrite H. Qed.

Lemma relisted_tree_rep X h h' t : relisted X h h' -> tree_rep h t -> tree_rep h' t.
Proof.
  intros HR [[Ht Hr] Hnd]. split; [split|done].
  - eapply rep_links; [apply HR| |exact Ht]. intros i _. apply unlisted_links, HR.
  - simpl in *. rewrite <- Hr. pose proof (rs_tree _ _ _ HR) as H.
    change (rb_root ((tree h') <| head := None |>) = rb_root ((tree h) <| head := None |>)). by rewrite H.
Qed.

Lemma relinked_list_rep X h h' l : relinked X h h' -> list_rep h l -> list_rep h' l.
Proof.
  intros HR [Hd Hh]. split.
  - eapply dseg_frame; [apply HR| |exact Hd]. intros i _. pose proof (rl_data _ _ _ HR i) as H.
    change (prev (data (region_at h' i)) = prev (data (region_at h i)) /\
            next (data (region_at h' i)) = next (data (region_at h i))). by rewrite H.
  - rewrite <- Hh. pose proof (rl_tree _ _ _ HR) as H.
    change (head ((tree h') <| rb_root := None |>) = head ((tree h) <| rb_root := None |>)). by rewrite H.
Qed.

(** Inserting a node between [l1] and [l2] of the index. *)
Lemma rb_insert_indexed h l1 x l2 :
  indexed h (l1 ++ l2) -> RbTree.sorted (key h) (l1 ++ x :: l2) -> in_pool h x ->
  (length (l1 ++ l2) < link_fuel)%nat ->
  wp (vma64_rb_insert x) (fun v h' => v = 1 /\ indexed h' (l1 ++ x :: l2) /\
    relinked (l1 ++ x :: l2) h h') h.
Proof.
  intros (t & n & Ht & Hel & Hrb & Hc) Hs Hx Hf.
  pose proof (sorted_nodup _ _ Hs) as Hnd. apply nodup_split in Hnd as (N1 & N2 & X1 & X2 & N3).
  apply sorted_app in Hs as (S1 & S2 & S3). apply sorted_cons in S2 as [S2 S4].
  destruct (insert_spec (key h) n t x l1 l2 Hel) as (t' & m & Hi & Hel' & Hrb' & Hc'); try done.
  { rewrite Hel. apply sorted_app. split_and!; [done|done|]. intros i j Hi Hj. apply S3; set_solver. }
  { intros i Hi. apply S3; set_solver. }
  eapply wp_mono; [apply (vma64_rb_insert_spec h t x Ht); [rewrite Hel; set_solver|done|by rewrite Hel]|].
  intros v h'. rewrite Hi. intros (-> & Ht' & HR). split_and!; [done| |].
  - by exists t', m.
  - eapply relinked_mono; [|exact HR]. rewrite Hel. set_solver.
Qed.

(** ** Rebuilding the tree from the list *)

Lemma relinked_sorted X h h' l : relinked X h h' -> RbTree.sorted (key h) l -> RbTree.sorted (key h') l.
Proof.
  intros HR. unfold RbTree.sorted. replace (key h' <$> l) with (key h <$> l); [done|].
  apply list_fmap_ext. intros i j _. symmetry. eapply touched_key, relinked_touched, HR.
Qed.

Lemma rebuild_loop_spec fuel : forall h pv done rest,
  indexed h done -> dseg h pv rest None -> RbTree.sorted (key h) (done ++ rest) ->
  (length rest < fuel)%nat -> (length (done ++ rest) < link_fuel)%nat ->
  wp (rebuild_loop fuel (first_of rest None)) (fun _ h' => indexed h' (done ++ rest) /\
    relinked (done ++ rest) h h') h.
Proof.
  induction fuel as [|fuel IH]; intros h pv dn rest Hi Hd Hs Hf Hl; [lia|].
  destruct rest as [|x rest]; [apply wp_ret; by rewrite app_nil_r|].
  cbn [rebuild_loop first_of]. apply wp_bind, wp_modify. set (h1 := put_region x _ h).
  assert (R1 : relinked (dn ++ x :: rest) h h1) by (apply relinked_put; [set_solver|done]).
  pose proof (sorted_nodup _ _ Hs) as Hnd. apply nodup_split in Hnd as (N1 & N2 & X1 & X2 & N3).
  simpl in Hd. destruct Hd as (Hx & Hp & Hn & Hd).
  assert (Hi1 : indexed h1 dn).
  { destruct Hi as (t & n & [[Ht Hr] Hnd] & Hel & Hrb & Hc). exists t, n. split_and!; [|done|done|done].
    split; [split; [|done]|done]. eapply rep_frame; [apply R1| |exact Ht]. rewrite Hel.
    intros j Hj. apply at_other. intros ->. done. }
  assert (Hs1 : RbTree.sorted (key h1) (dn ++ [x])).
  { apply (relinked_sorted _ _ _ _ R1).
    rewrite (cons_middle x dn rest) in Hs. rewrite app_assoc in Hs. by apply sorted_app in Hs as (? & _). }
  apply wp_bind. eapply wp_mono.
  { apply (rb_insert_indexed h1 dn x []); [by rewrite app_nil_r|done|unfold h1; by apply in_pool_put|].
    rewrite app_nil_r. rewrite length_app in Hl. lia. }
  intros v h2 (_ & Hi2 & R2). apply wp_bind, wp_gets.
  assert (R12 : relinked (dn ++ x :: rest) h h2).
  { eapply relinked_trans; [exact R1|]. eapply relinked_mono; [|exact R2]. set_solver. }
  assert (Hnx : next (region_at h2 x) = first_of rest None).
  { rewrite <- Hn. change (next (data (region_at h2 x)) = next (data (region_at h x))).
    by rewrite (rl_data _ _ _ R12). }
  rewrite Hnx. assert (Heq : (dn ++ [x]) ++ rest = dn ++ x :: rest) by by rewrite <- app_assoc.
  eapply wp_mono; [eapply (IH h2 (Some x) (dn ++ [x]) rest Hi2)|].
  - eapply dseg_frame; [apply R12| |exact Hd]. intros i _. pose proof (rl_data _ _ _ R12 i) as H.
    change (prev (data (region_at h2 i)) = prev (data (region_at h i)) /\
            next (data (region_at h2 i)) = next (data (region_at h i))). by rewrite H.
  - rewrite Heq. by apply (relinked_sorted _ _ _ _ R12).
  - simpl in Hf. lia.
  - by rewrite Heq.
  - rewrite Heq. intros _ h3 [? ?]. split; [done|]. by eapply relinked_trans.
Qed.

Lemma vma64_rb_rebuild_spec h l :
  list_rep h l -> RbTree.sorted (key h) l -> (length l < link_fuel)%nat ->
  wp vma64_rb_rebuild (fun _ h' => indexed h' l /\ relinked l h h') h.
Proof.
  intros [Hd Hh] Hs Hf. apply wp_bind, wp_modify, wp_bind, wp_gets. cbn [tree put_tree].
  change (head (_ <| rb_root := None |>)) with (head (tree h)). rewrite Hh.
  set (h1 := put_tree _ h). assert (Hd1 : dseg h1 None l None) by (eapply dseg_frame; [..|exact Hd]; done).
  eapply wp_mono; [eapply (rebuild_loop_spec link_fuel h1 None [] l)|]; [|exact Hd1|exact Hs|exact Hf|exact Hf|].
  - exists E, 0%nat. split_and!; [|done|constructor|done]. split; [by split|constructor].
  - intros _ h2 [? R2]. split; [done|]. eapply relinked_trans; [|exact R2]. apply relinked_root.
Qed.

(** ** Inserting an area *)

(** Counters and peaks are outside the lists, the trees and the regions. *)
Lemma space_counters h l f :
  list_rep h l -> indexed h l -> StronglySorted (below h) l -> (forall i, i ∈ l -> range_ok (region_at h i)) ->
  length (regions h) = VMA64_MAX_STATIC_REGIONS ->
  head (f (tree h)) = head (tree h) -> rb_root (f (tree h)) = rb_root (tree h) ->
  region_count (f (tree h)) = Z.of_nat (length l) -> mapped_bytes (f (tree h)) = bytes h l ->
  space (put_tree f h) l.
Proof.
  intros [Hd Hh] (t & n & [[Ht Hr] Hnd] & Hel & Hrb & Hc) Ho Hg Hp F1 F2 F3 F4.
  assert (Hb : forall l, bytes (put_tree f h) l = bytes h l) by (intros l0; induction l0 as [|i l0 IH]; simpl; [done|by rewrite IH]).
  split; try done.
  - split; [eapply dseg_frame; [..|exact Hd]; done|]. simpl. by rewrite F1.
  - exists t, n. split_and!; try done. split; [split|done]; [|simpl in *; by rewrite F2].
    eapply rep_frame; [..|exact Ht]; done.
  - by rewrite Hb.
Qed.

Lemma bytes_insert h l1 x l2 :
  StronglySorted (below h) (l1 ++ x :: l2) -> (forall i, i ∈ l1 ++ x :: l2 -> range_ok (region_at h i)) ->
  bytes h (l1 ++ x :: l2) = bytes h (l1 ++ l2) + sub64 (virt_end (region_at h x)) (virt_base (region_at h x)) /\
  0 <= bytes h (l1 ++ x :: l2) < 2 ^ 64.
Proof.
  intros Ho Hg. pose proof (Hg x ltac:(set_solver)) as Hx. pose proof (range_pos _ Hx). destruct Hx as (_ & ? & ?).
  split.
  - rewrite !bytes_app. simpl. unfold sub64, wrap64. rewrite Z.mod_small by lia. lia.
  - destruct (bytes_bound h 0 _ Ho) as [? ?]; [|lia|lia]. intros i Hi. split; [by apply Hg|]. by apply Hg.
Qed.

Lemma insert_link_space h l1 x l2 :
  space h (l1 ++ l2) -> x ∉ l1 ++ l2 -> in_pool h x -> range_ok (region_at h x) ->
  (forall i, i ∈ l1 -> below h i x) -> (forall i, i ∈ l2 -> below h x i) ->
  wp (insert_link x (last_of l1 None) (first_of l2 None)) (fun v h' => v = 1 /\
    space h' (l1 ++ x :: l2) /\ touched (l1 ++ x :: l2) h h') h.
Proof.
  intros Hs Hx Hp Hr Hb1 Hb2. pose proof (sp_order _ _ Hs) as Ho. apply order_app in Ho as (O1 & O2 & O3).
  assert (Ho : StronglySorted (below h) (l1 ++ x :: l2)).
  { apply order_app. split_and!; [done|by apply order_cons|].
    intros i j Hi [->|Hj]%elem_of_cons; [by apply Hb1|by apply O3]. }
  assert (Hg : forall i, i ∈ l1 ++ x :: l2 -> range_ok (region_at h i)).
  { intros i. rewrite elem_of_app, elem_of_cons. intros [Hi|[->|Hi]]; [|done|]; apply (sp_range _ _ Hs); set_solver. }
  pose proof (order_nodup h _ Ho Hg) as Hnd. pose proof (order_sorted h _ Ho Hg) as Hsort.
  unfold insert_link. apply wp_bind, wp_gets.
  pose proof (link_spec h l1 x l2 (sp_list _ _ Hs) Hnd Hp) as Hlink.
  apply wp_unbind in Hlink. apply wp_bind, (wp_mono _ _ _ _ Hlink). clear Hlink. intros _ h0 Hlink.
  apply wp_unbind in Hlink. apply wp_bind, (wp_mono _ _ _ _ Hlink). clear Hlink. intros _ h1 Hlink.
  apply wp_bind, (wp_mono _ _ _ _ Hlink). clear Hlink. intros _ h2 [L2 R2].
  pose proof (relisted_touched _ _ _ R2) as T2.
  apply wp_bind. eapply wp_mono.
  { apply (rb_insert_indexed h2 l1 x l2).
    - destruct (sp_tree _ _ Hs) as (t & n & Ht & ?). exists t, n. split; [|done]. by eapply relisted_tree_rep.
    - unfold RbTree.sorted. replace (key h2 <$> _) with (key h <$> (l1 ++ x :: l2)); [done|].
      apply list_fmap_ext. intros i j _. symmetry. by eapply touched_key.
    - unfold in_pool. by rewrite (rs_length _ _ _ R2).
    - apply (space_fuel Hs). }
  intros v h3 (-> & I3 & R3). cbv beta iota. change (1 =? 0) with false. cbv iota.
  assert (T3 : touched (l1 ++ x :: l2) h h3) by (eapply touched_trans; [exact T2|by apply relinked_touched]).
  apply wp_bind, wp_modify, wp_ret. split; [done|].
  assert (region_count (tree h3) = region_count (tree h) /\ mapped_bytes (tree h3) = mapped_bytes (tree h)) as [C1 C2].
  { pose proof (rs_tree _ _ _ R2) as A. pose proof (rl_tree _ _ _ R3) as B. clear -A B.
    destruct (tree h), (tree h2), (tree h3). cbn in *. injection A; injection B; intros; subst. done. }
  split.
  - pose proof (bytes_insert h l1 x l2 Ho Hg) as [Hbytes Hbound].
    apply space_counters; [by apply (relinked_list_rep _ _ _ _ R3)|done|by apply (touched_order _ _ _ _ T3)| | |done|done| |].
    + intros i Hi. apply (touched_range _ _ _ _ T3). by apply Hg.
    + rewrite (tc_length _ _ _ T3). apply Hs.
    + change (inc32 (region_count (tree h3)) = Z.of_nat (length (l1 ++ x :: l2))).
      pose proof (space_length Hs). rewrite length_app in *. simpl.
      rewrite C1, (sp_count _ _ Hs), inc32_small; unfold VMA64_MAX_STATIC_REGIONS, U32_MAX in *;
        rewrite length_app; lia.
    + rewrite (touched_bytes _ _ _ _ T3), Hbytes, <- (sp_bytes _ _ Hs), <- C2. unfold account_insert.
      rewrite (sp_bytes _ _ Hs) in *. unfold add64, wrap64. rewrite C2. simpl. apply Z.mod_small. lia.
  - destruct T3 as [A1 A2 A3 A4]. by split.
Qed.

(** ** Detaching an area *)

Lemma find_eqb l x : x ∈ l -> List.find (Nat.eqb x) l = Some x.
Proof.
  induction l as [|y l IH]; intros Hx; simpl; [by apply not_elem_of_nil in Hx|].
  destruct (Nat.eqb_spec x y) as [->|Hne]; [done|]. apply IH. set_solver.
Qed.

Lemma detach_space h l1 x l2 :
  space h (l1 ++ x :: l2) ->
  wp (vma64_detach_region x) (fun v h' => v = Some x /\ space h' (l1 ++ l2) /\
    touched (l1 ++ x :: l2) h h' /\ prev (region_at h' x) = None /\ next (region_at h' x) = None) h.
Proof.
  intros Hs. pose proof (space_nodup Hs) as Hnd. pose proof (sp_order _ _ Hs) as Ho.
  pose proof (sp_range _ _ Hs) as Hg.
  unfold vma64_detach_region. apply wp_bind, wp_gets.
  destruct (sp_list _ _ Hs) as [Hd Hh]. rewrite Hh.
  rewrite (walk_spec _ _ _ None) by (done || apply (space_fuel Hs)). rewrite find_eqb by set_solver.
  apply wp_bind. eapply wp_mono; [by apply (unlink_spec h l1 x l2); [split|]|].
  intros _ h1 [L1 R1]. pose proof (relisted_touched _ _ _ R1) as T1. apply wp_bind, wp_gets.
  rewrite (touched_end _ _ _ x T1), (touched_base _ _ _ x T1).
  set (b := sub64 _ _). apply wp_bind, wp_modify. set (h2 := put_region x _ h1).
  assert (Hx1 : in_pool h1 x).
  { unfold in_pool. rewrite (rs_length _ _ _ R1). apply (space_pool Hs). set_solver. }
  assert (R2 : relisted (l1 ++ x :: l2) h h2).
  { eapply relisted_trans; [exact R1|]. apply relisted_put; [set_solver|done]. }
  apply wp_bind, wp_modify. set (h3 := put_tree _ h2). apply wp_bind, wp_modify.
  set (h4 := put_region x (clear_links VMA64_RB_BLACK) h3).
  assert (T4 : touched (l1 ++ x :: l2) h h4).
  { eapply touched_trans; [by apply relisted_touched|]. eapply (touched_trans _ _ h3); [done|].
    apply relinked_touched, relinked_put; [set_solver|done]. }
  apply nodup_split in Hnd as (N1 & N2 & X1 & X2 & N3).
  apply order_app in Ho as (O1 & O2 & O3). apply order_cons in O2 as [O2 O4].
  assert (Ho : StronglySorted (below h) (l1 ++ l2)).
  { apply order_app. split_and!; [done|done|]. intros i j Hi Hj. apply O3; set_solver. }
  assert (Hg' : forall i, i ∈ l1 ++ l2 -> range_ok (region_at h i)) by (intros i Hi; apply Hg; set_solver).
  assert (Hx2 : in_pool h3 x) by (apply in_pool_put, Hx1).
  assert (L4 : list_rep h4 (l1 ++ l2)).
  { destruct L1 as [D1 H1]. split; [|exact H1]. eapply dseg_frame; [|intros i Hi|exact D1].
    - simpl. by rewrite !length_alter.
    - assert (x <> i) by (intros ->; set_solver). unfold h4, h3, h2. rd. done. }
  apply wp_bind. eapply wp_mono; [apply (vma64_rb_rebuild_spec h4 (l1 ++ l2) L4)|].
  { unfold RbTree.sorted. replace (key h4 <$> _) with (key h <$> (l1 ++ l2)); [by apply order_sorted|].
    apply list_fmap_ext. intros i j _. symmetry. by eapply touched_key. }
  { pose proof (space_fuel Hs) as Hf. rewrite length_app in *. simpl in Hf. lia. }
  intros _ h5 [I5 R5]. apply wp_ret.
  assert (T5 : touched (l1 ++ x :: l2) h h5).
  { eapply touched_trans; [exact T4|]. eapply touched_mono; [|by apply relinked_touched]. set_solver. }
  assert (Htree : region_count (tree h5) = region_count (account_detach b (tree h)) /\
    mapped_bytes (tree h5) = mapped_bytes (account_detach b (tree h))).
  { pose proof (rl_tree _ _ _ R5) as A. pose proof (rs_tree _ _ _ R1) as B.
    change (tree h4) with (account_detach b (tree h1)) in A. clear -A B. unfold account_detach in *.
    destruct (tree h), (tree h1), (tree h5). cbn in *. injection A; injection B; intros; subst. done. }
  destruct Htree as [C1 C2]. pose proof (space_bytes Hs) as Hb.
  destruct (bytes_insert h l1 x l2 (sp_order _ _ Hs) Hg) as [Hbytes _]. fold b in Hbytes.
  destruct (bytes_bound h 0 _ Ho) as [Hb0 _]; [|lia|].
  { intros i Hi. split; [by apply Hg'|]. by apply Hg'. }
  split_and!; [done|split|exact T5| |].
  - by apply (relinked_list_rep _ _ _ _ R5).
  - done.
  - by apply (touched_order _ _ _ _ T5).
  - intros i Hi. apply (touched_range _ _ _ _ T5). by apply Hg'.
  - rewrite C1. unfold account_detach. simpl. rewrite (sp_count _ _ Hs). pose proof (space_length Hs) as Hl.
    rewrite !length_app in *. simpl in *. rewrite (proj2 (nz_true _)) by lia.
    unfold dec32, sub32. rewrite wrap32_small; unfold fits32, VMA64_MAX_STATIC_REGIONS in *; lia.
  - rewrite C2, (touched_bytes _ _ _ _ T5). unfold account_detach. simpl. rewrite (sp_bytes _ _ Hs).
    assert (Hpos : 0 <= b) by apply Z.mod_pos_bound, eq_refl.
    rewrite (proj2 (Z.leb_le _ _)) by lia. unfold sub64, wrap64. rewrite Z.mod_small by lia. lia.
  - rewrite (tc_length _ _ _ T5). apply Hs.
  - rewrite (rl_other _ _ _ R5 x) by set_solver. unfold h4, h3, h2. rd. done.
  - rewrite (rl_other _ _ _ R5 x) by set_solver. unfold h4, h3, h2. rd. done.
Qed.

(** ** Lookups *)

Definition contains h (a : Z) (i : nat) : bool :=
  (virt_base (region_at h i) <=? a) && (a <? virt_end (region_at h i)).

Lemma find_none_all {A} (P : A -> bool) (l : list A) : (forall z : A, z ∈ l -> P z = false) -> List.find P l = None.
Proof. induction l as [|z l IH]; intros H; simpl; [done|]. rewrite H by set_solver. apply IH. set_solver. Qed.

Lemma find_app_l {A} (P : A -> bool) (l1 l2 : list A) :
  (forall z : A, z ∈ l1 -> P z = false) -> List.find P (l1 ++ l2) = List.find P l2.
Proof. induction l1 as [|z l1 IH]; intros H; simpl; [done|]. rewrite H by set_solver. apply IH. set_solver. Qed.

Lemma find_app_r {A} (P : A -> bool) (l1 l2 : list A) :
  (forall z : A, z ∈ l2 -> P z = false) -> List.find P (l1 ++ l2) = List.find P l1.
Proof. intros H. induction l1 as [|z l1 IH]; simpl; [by apply find_none_all|]. destruct (P z); [done|apply IH]. Qed.

(** The tree descent finds what a scan of the list finds, visiting no more
    nodes than the tree is high. *)
Lemma find_loop_spec fuel h a par t s :
  rep h par t -> StronglySorted (below h) (elems t) -> (forall i, i ∈ elems t -> range_ok (region_at h i)) ->
  (height t < fuel)%nat ->
  fst (find_loop fuel h a (root_of t) s) = List.find (contains h a) (elems t) /\
  s <= snd (find_loop fuel h a (root_of t) s) <= s + Z.of_nat (height t).
Proof.
  revert par t s. induction fuel as [|fuel IH]; intros par t s Ht Ho Hg Hf; [lia|].
  destruct t as [|c l i r]; [simpl; split; [done|lia]|]. cbn [rep] in Ht. destruct Ht as (_ & [_ _ L3 L4] & Hl & Hr).
  cbn [elems] in *. apply order_app in Ho as (O1 & O2 & O3). apply order_cons in O2 as [O2 O4].
  cbn [find_loop root_of height] in *. fold (contains h a i). rewrite L3, L4.
  pose proof (range_pos _ (Hg i ltac:(set_solver))) as Hi.
  assert (Hleft : virt_base (region_at h i) <= a -> forall j, j ∈ elems l -> contains h a j = false).
  { intros Ha j Hj. specialize (O3 j i Hj ltac:(set_solver)). unfold contains, below in *.
    apply andb_false_iff. right. apply Z.ltb_ge. lia. }
  destruct (contains h a i) eqn:Hc.
  - simpl. rewrite find_app_l; [simpl; rewrite Hc; split; [done|lia]|].
    apply Hleft. unfold contains in Hc. by boolify.
  - destruct (Z.ltb_spec a (virt_base (region_at h i))) as [Ha|Ha].
    + destruct (IH (Some i) l (s + 1)) as [-> ?]; [done|done|intros; apply Hg; set_solver|lia|].
      split; [|lia]. rewrite find_app_r; [done|]. intros j [->|Hj]%elem_of_cons; [done|].
      specialize (O4 j Hj). unfold contains, below in *. apply andb_false_iff. left. apply Z.leb_gt. lia.
    + destruct (IH (Some i) r (s + 1)) as [-> ?]; [done|done|intros; apply Hg; set_solver|lia|].
      split; [|lia]. rewrite find_app_l by by apply Hleft. simpl. by rewrite Hc.
Qed.

Lemma find_space h l a :
  space h l ->
  let res := find_loop link_fuel h a (rb_root (tree h)) 0 in
  fst res = List.find (contains h a) l /\ 0 <= snd res <= Z.of_nat (2 * Nat.log2 (S (length l))).
Proof.
  intros Hs. destruct (sp_tree _ _ Hs) as (t & n & [[Ht Hr] _] & Hel & Hrb & Hc).
  pose proof (height_log n t Hrb Hc) as Hh. rewrite Hel in Hh. simpl in Hr. rewrite Hr.
  destruct (find_loop_spec link_fuel h a None t 0 Ht) as [H1 H2].
  - rewrite Hel. apply Hs.
  - rewrite Hel. apply Hs.
  - pose proof (space_length Hs) as Hl. apply (Nat.le_lt_trans _ _ _ Hh).
    assert (Nat.log2 (S (length l)) <= Nat.log2 (S VMA64_MAX_STATIC_REGIONS))%nat as Hlog
      by (apply Nat.log2_le_mono; lia).
    change (Nat.log2 (S VMA64_MAX_STATIC_REGIONS)) with 10%nat in Hlog. unfold link_fuel, VMA64_MAX_STATIC_REGIONS. lia.
  - rewrite Hel in H1. split; [done|]. lia.
Qed.

End VmaSpaceOps.
