(* ===== verification/VmaGap.v ===== *)
(** * Finding a place in an address space

    The overlap scan of [vma64_insert] and the first-fit search of
    [vma64_find_gap]. *)

From stdpp Require Import sorting.
From S2P Require Import Prelude VmaTree VmaRb VmaList VmaSpace.
Import VmaTree VmaRb VmaList VmaSpace.
Local Open Scope Z_scope.

Module VmaGap.

Implicit Types (h : vma_heap) (i j x : nat) (l : list nat).

(** ** The overlap scan *)

Definition overlaps h (b e : Z) (i : nat) : bool :=
  vma64_ranges_overlap b e (virt_base (region_at h i)) (virt_end (region_at h i)).

(** The outcome of the scan: an overlap, or the place in the list. *)
Definition scan_result h (b e : Z) l (res : option (option nat * option nat)) : Prop :=
  match res with
  | None => exists i, i ∈ l /\ overlaps h b e i = true
  | Some (pv, cu) => exists l1 l2, l = l1 ++ l2 /\ pv = last_of l1 None /\ cu = first_of l2 None /\
      (forall i, i ∈ l1 -> virt_end (region_at h i) <= b) /\
      (forall i, i ∈ l2 -> e <= virt_base (region_at h i))
  end.

Lemma insert_scan_spec fuel h b e pv dn rest :
  b < e -> dseg h pv rest None -> StronglySorted (below h) rest ->
  (forall i, i ∈ rest -> range_ok (region_at h i)) ->
  (forall i, i ∈ dn -> virt_end (region_at h i) <= b) -> (length rest < fuel)%nat ->
  scan_result h b e (dn ++ rest) (insert_scan fuel h b e (last_of dn None) (first_of rest None)).
Proof.
  intros Hbe. revert pv dn rest. induction fuel as [|fuel IH]; intros pv dn rest Hd Ho Hg Hdn Hf; [lia|].
  destruct rest as [|i rest]; cbn [first_of insert_scan].
  { exists dn, []. split_and!; [done|done|done|done|set_solver]. }
  fold (overlaps h b e i). destruct (overlaps h b e i) eqn:Hov.
  { exists i. split; [set_solver|done]. }
  destruct Hd as (_ & _ & Hn & Hd). apply order_cons in Ho as [Ho Hb].
  pose proof (range_pos _ (Hg i ltac:(set_solver))) as Hi.
  assert (Hside : virt_end (region_at h i) <= b \/ e <= virt_base (region_at h i)).
  { unfold overlaps, vma64_ranges_overlap in Hov. apply andb_false_iff in Hov as [?%Z.ltb_ge|?%Z.ltb_ge]; auto. }
  destruct (Z.ltb_spec b (virt_base (region_at h i))).
  - exists dn, (i :: rest). split_and!; [done|done|done|done|].
    intros j [->|Hj]%elem_of_cons; [lia|]. specialize (Hb j Hj). unfold below in Hb. lia.
  - rewrite Hn. replace (dn ++ i :: rest) with ((dn ++ [i]) ++ rest) by by rewrite <- app_assoc.
    rewrite <- (last_of_app dn i None). apply (IH (Some i)); [done|done|set_solver| |simpl in Hf; lia].
    intros j [Hj|Hj%list_elem_of_singleton]%elem_of_app; [by apply Hdn|subst; lia].
Qed.

Lemma scan_space h l b e : space h l -> b < e ->
  scan_result h b e l (insert_scan link_fuel h b e None (head (tree h))).
Proof.
  intros Hs Hbe. destruct (sp_list _ _ Hs) as [Hd Hh]. rewrite Hh.
  apply (insert_scan_spec link_fuel h b e None [] l Hbe Hd); [apply Hs|apply Hs|set_solver|apply (space_fuel Hs)].
Qed.

(** ** Alignment *)

(** [lia] with quotients and remainders. *)
Ltac dlia := Z.to_euclidean_division_equations; lia.

Lemma land_not64 v n : 0 <= n <= 64 -> 0 <= v < 2 ^ 64 -> Z.land v (not64 (2 ^ n - 1)) = v / 2 ^ n * 2 ^ n.
Proof.
  intros Hn Hv. rewrite <- Z.shiftr_div_pow2, <- Z.shiftl_mul_pow2 by lia.
  apply Z.bits_inj'. intros i Hi. unfold not64.
  rewrite Z.land_spec, Z.lxor_spec, Z.shiftl_spec by lia.
  change 0xFFFFFFFFFFFFFFFF with (Z.ones 64).
  replace (2 ^ n - 1) with (Z.ones n) by (rewrite Z.ones_equiv; unfold Z.pred; lia).
  rewrite !Z.testbit_ones_nonneg by lia.
  destruct (Z.ltb_spec i n).
  - rewrite (Z.testbit_neg_r _ (i - n)) by lia. destruct (Z.ltb_spec i 64); [|lia]. simpl. apply andb_false_r.
  - rewrite Z.shiftr_spec by lia. replace (i - n + n) with i by lia.
    destruct (Z.ltb_spec i 64); simpl; [apply andb_true_r|].
    rewrite andb_false_r. symmetry. rewrite <- (Z.mod_small v (2 ^ 64)) by lia.
    by apply Z.mod_pow2_bits_high.
Qed.

Definition page_round_up (v : Z) : Z := (v + 4095) / 4096 * 4096.

Lemma align_up_page v : 0 <= v < 2 ^ 64 ->
  vma64_align_up v VMA64_PAGE_BYTES = if page_round_up v <? 2 ^ 64 then page_round_up v else 0.
Proof.
  intros Hv. unfold vma64_align_up, VMA64_PAGE_BYTES, page_round_up.
  change (0x1000 =? 0) with false. change (sub64 0x1000 1) with (2 ^ 12 - 1).
  change (nz (Z.land 0x1000 (2 ^ 12 - 1))) with false. cbv iota.
  rewrite land_not64; [|lia|apply Z.mod_pos_bound; lia]. unfold add64, wrap64.
  change (2 ^ 12) with 4096. change (v + (4096 - 1)) with (v + 4095).
  destruct (Z.ltb_spec ((v + 4095) / 4096 * 4096) (2 ^ 64)) as [H|H].
  - rewrite Z.mod_small; [done|]. split; [lia|]. apply Z.lt_nge. intros Hge.
    assert (2 ^ 64 / 4096 <= (v + 4095) / 4096) by (apply Z.div_le_mono; lia).
    change (2 ^ 64 / 4096) with (2 ^ 52) in *. lia.
  - assert (2 ^ 64 <= v + 4095) by (pose proof (Z.mul_div_le (v + 4095) 4096 ltac:(lia)); lia).
    replace (v + 4095) with (v + 4095 - 2 ^ 64 + 1 * 2 ^ 64) by lia.
    rewrite Z_mod_plus_full, Z.mod_small by lia. rewrite Z.div_small by lia. done.
Qed.

Lemma range_aligned r : range_ok r -> virt_base r mod 4096 = 0 /\ virt_end r mod 4096 = 0.
Proof.
  intros [H _]. unfold vma64_range_valid, VMA64_PAGE_BYTES in H. boolify.
  repeat match goal with H : nz _ = false |- _ => apply nz_false in H end.
  change (0x1000 - 1) with (Z.ones 12) in *. rewrite Z.land_ones in * by lia. done.
Qed.

Lemma page_round_exact v : v mod 4096 = 0 -> page_round_up v = v.
Proof. intros H. unfold page_round_up. dlia. Qed.

Lemma page_round_least v g : g mod 4096 = 0 -> v <= g -> page_round_up v <= g.
Proof. intros H1 H2. unfold page_round_up. dlia. Qed.

Lemma page_round_ge v : v <= page_round_up v /\ page_round_up v mod 4096 = 0.
Proof. unfold page_round_up. split; [dlia|]. apply Z_mod_mult. Qed.

(** ** First fit *)

(** [g, g + len) meets no area of [l]. *)
Definition free_at h l (len g : Z) : Prop :=
  forall i, i ∈ l -> g + len <= virt_base (region_at h i) \/ virt_end (region_at h i) <= g.

(** One round of the loop at area [i]. *)
Definition gap_step h (len c : Z) (i : nat) : Z :=
  if (c <? virt_end (region_at h i)) && (virt_base (region_at h i) <? add64 c len)
  then virt_end (region_at h i) else c.

Lemma gap_loop_cons fuel h len c i :
  0 < c < 2 ^ 64 -> range_ok (region_at h i) ->
  gap_loop (S fuel) h len VMA64_PAGE_BYTES c (Some i) =
  (if add64 (gap_step h len c i) len <=? virt_base (region_at h i) then gap_step h len c i
   else gap_loop fuel h len VMA64_PAGE_BYTES (gap_step h len c i) (next (region_at h i))).
Proof.
  intros Hc Hr. pose proof (range_pos _ Hr). pose proof (range_aligned _ Hr) as [_ Hae].
  destruct Hr as (_ & ? & ?). cbn [gap_loop]. unfold gap_step.
  destruct ((c <? virt_end (region_at h i)) && (virt_base (region_at h i) <? add64 c len)); cbn [andb].
  - rewrite align_up_page, page_round_exact, (proj2 (Z.ltb_lt _ _)) by lia.
    by rewrite (proj2 (Z.eqb_neq _ 0)) by lia.
  - done.
Qed.

Lemma gap_step_range h len c i :
  0 < c < 2 ^ 64 -> c mod 4096 = 0 -> range_ok (region_at h i) ->
  c <= gap_step h len c i < 2 ^ 64 /\ gap_step h len c i mod 4096 = 0.
Proof.
  intros Hc Ha Hr. pose proof (range_aligned _ Hr) as [_ Hae]. destruct Hr as (_ & ? & ?).
  unfold gap_step. destruct (_ && _) eqn:Hcl; [|split; [lia|done]]. boolify. split; [lia|done].
Qed.

Lemma gap_loop_range fuel h len pv rest c :
  dseg h pv rest None -> (forall i, i ∈ rest -> range_ok (region_at h i)) -> 0 < c < 2 ^ 64 -> c mod 4096 = 0 ->
  let r := gap_loop fuel h len VMA64_PAGE_BYTES c (first_of rest None) in c <= r < 2 ^ 64 /\ r mod 4096 = 0.
Proof.
  revert pv rest c. induction fuel as [|fuel IH]; intros pv rest c Hd Hg Hc Ha; [split; [simpl; lia|done]|].
  destruct rest as [|i rest]; [split; [simpl; lia|done]|]. destruct Hd as (_ & _ & Hn & Hd).
  cbn [first_of]. rewrite gap_loop_cons by (done || apply Hg; set_solver). rewrite Hn.
  destruct (gap_step_range h len c i Hc Ha) as [H1 H2]; [apply Hg; set_solver|].
  destruct (_ <=? _); [by split|]. destruct (IH (Some i) rest (gap_step h len c i)) as [H3 H4]; [done|set_solver|lia|done|].
  split; [lia|done].
Qed.

Lemma gap_loop_spec fuel h len pv dn rest c :
  0 < len < 2 ^ 64 -> dseg h pv rest None -> StronglySorted (below h) (dn ++ rest) ->
  (forall i, i ∈ dn ++ rest -> range_ok (region_at h i)) ->
  (forall i, i ∈ dn -> virt_end (region_at h i) <= c) ->
  0 < c < 2 ^ 64 -> c mod 4096 = 0 -> (length rest < fuel)%nat ->
  let r := gap_loop fuel h len VMA64_PAGE_BYTES c (first_of rest None) in
  (r + len < 2 ^ 64 -> free_at h (dn ++ rest) len r) /\
  forall g, c <= g -> g + len < 2 ^ 64 -> free_at h (dn ++ rest) len g -> r <= g.
Proof.
  intros Hlen. revert pv dn rest c. induction fuel as [|fuel IH]; intros pv dn rest c Hd Ho Hg Hdn Hc Ha Hf; [lia|].
  destruct rest as [|i rest].
  { cbn [first_of gap_loop]. split; [|done]. intros _ i Hi. right. apply Hdn. set_solver. }
  pose proof (gap_loop_range (S fuel) h len pv (i :: rest) c Hd ltac:(set_solver) Hc Ha) as [Hr1 _]. revert Hr1.
  destruct Hd as (_ & _ & Hn & Hd). pose proof Ho as Ho'. apply order_app in Ho' as (_ & Ho' & _).
  apply order_cons in Ho' as [_ Hb]. pose proof (Hg i ltac:(set_solver)) as Hri. pose proof (range_pos _ Hri).
  cbn [first_of]. rewrite gap_loop_cons by done. rewrite Hn.
  destruct (gap_step_range h len c i Hc Ha Hri) as [Hle Hal]. intros Hr1. cbv zeta.
  destruct (decide (2 ^ 64 <= c + len)) as [Hw|Hw]; [split; intros; lia|].
  assert (Hw' : add64 c len = c + len) by (apply Z.mod_small; lia).
  set (c' := gap_step h len c i) in *.
  assert (Hmin : forall g, c <= g -> g + len < 2 ^ 64 -> free_at h (dn ++ i :: rest) len g -> c' <= g).
  { intros g H1 H2 H3. unfold c', gap_step. rewrite Hw'. destruct (_ && _) eqn:Hcl; [|done]. boolify.
    destruct (H3 i ltac:(set_solver)); lia. }
  destruct (Z.leb_spec (add64 c' len) (virt_base (region_at h i))) as [Hbr|Hbr].
  - split; [|exact Hmin]. intros Hlt j [Hj|Hj]%elem_of_app; [right; specialize (Hdn j Hj); lia|]. left.
    unfold add64, wrap64 in Hbr. rewrite Z.mod_small in Hbr by lia.
    apply elem_of_cons in Hj as [->|Hj]; [done|]. specialize (Hb j Hj). unfold below in Hb. lia.
  - assert (Heq : dn ++ i :: rest = (dn ++ [i]) ++ rest) by by rewrite <- app_assoc. rewrite Heq in *.
    assert (Hpast : virt_end (region_at h i) <= c').
    { revert Hbr. unfold c', gap_step. rewrite Hw'. destruct (_ && _) eqn:Hcl; [lia|]. rewrite Hw'. intros Hbr.
      apply andb_false_iff in Hcl as [?%Z.ltb_ge|?%Z.ltb_ge]; lia. }
    destruct (IH (Some i) (dn ++ [i]) rest c') as (R3 & R4); try done; [|lia|simpl in Hf; lia|].
    { intros j [Hj|Hj%list_elem_of_singleton]%elem_of_app; [specialize (Hdn j Hj); lia|by subst]. }
    split; [done|]. intros g H1 H2 H3. apply R4; [by apply Hmin|done|done].
Qed.

(** A gap the search may return. *)
Definition gap_ok h l (lo hi len g : Z) : Prop :=
  lo <= g /\ g mod 4096 = 0 /\ g + len <= hi /\ free_at h l len g.

(** [find_gap] returns the lowest page-aligned free gap, and 0 when there is
    none. *)
Lemma find_gap_space h l lo hi len :
  space h l -> 0 < lo -> lo < 2 ^ 64 -> hi < 2 ^ 64 -> 0 < len < 2 ^ 64 ->
  let r := find_gap h lo hi len VMA64_PAGE_BYTES in
  (r <> 0 -> gap_ok h l lo hi len r) /\ (forall g, gap_ok h l lo hi len g -> r <> 0 /\ r <= g).
Proof.
  intros Hs Hlo Hlo' Hhi Hlen. unfold find_gap. rewrite (proj2 (Z.eqb_neq len 0)) by lia. cbn [orb].
  destruct (Z.leb_spec hi lo) as [Hle|Hle].
  { split; [done|]. intros g (H1 & _ & H2 & _). lia. }
  rewrite align_up_page by lia. destruct (page_round_ge lo) as [Hup Hupa].
  destruct (Z.ltb_spec (page_round_up lo) (2 ^ 64)) as [Hr|Hr]; cycle 1.
  { split; [done|]. intros g (H1 & H2 & H3 & _). pose proof (page_round_least lo g H2 H1). lia. }
  rewrite (proj2 (Z.eqb_neq _ 0)) by lia. destruct (sp_list _ _ Hs) as [Hd Hh]. rewrite Hh.
  assert (Hc : 0 < page_round_up lo < 2 ^ 64) by lia.
  assert (Hnil : forall i, i ∈ @nil nat -> virt_end (region_at h i) <= page_round_up lo) by set_solver.
  pose proof (gap_loop_range link_fuel h len None l _ Hd (sp_range _ _ Hs) Hc Hupa) as [R1 R2].
  pose proof (gap_loop_spec link_fuel h len None [] l _ Hlen Hd (sp_order _ _ Hs) (sp_range _ _ Hs)
    Hnil Hc Hupa (space_fuel Hs)) as [R3 R4].
  set (r := gap_loop _ _ _ _ _ _) in *. cbn [app] in *. rewrite (proj2 (Z.ltb_ge r lo)) by lia. cbn [orb].
  destruct (decide (2 ^ 64 <= r + len)) as [Hw|Hw].
  - assert (add64 r len < r) as Hlt.
    { unfold add64, wrap64. replace (r + len) with (r + len - 2 ^ 64 + 1 * 2 ^ 64) by lia.
      rewrite Z_mod_plus_full, Z.mod_small by lia. lia. }
    rewrite (proj2 (Z.ltb_lt _ _) Hlt). cbn [orb]. split; [done|]. intros g (H1 & H2 & H3 & H4).
    pose proof (page_round_least lo g H2 H1). specialize (R4 g ltac:(lia) ltac:(lia) H4). lia.
  - assert (Hadd : add64 r len = r + len) by (apply Z.mod_small; lia). rewrite Hadd.
    rewrite (proj2 (Z.ltb_ge _ _)) by lia. cbn [orb]. destruct (Z.ltb_spec hi (r + len)).
    + split; [done|]. intros g (H1 & H2 & H3 & H4). pose proof (page_round_least lo g H2 H1).
      specialize (R4 g ltac:(lia) ltac:(lia) H4). lia.
    + split; [intros _; split_and!; [lia|done|lia|apply R3; lia]|]. intros g (H1 & H2 & H3 & H4).
      pose proof (page_round_least lo g H2 H1). split; [lia|]. apply R4; [lia|lia|done].
Qed.

End VmaGap.
