(* ===== verification/Vma.v ===== *)
(** * Address spaces: kernel/arch/x86_64/vma.c

    Sixteen region trees attached to processes, a pool of 1152 regions and a
    pool of 1024 reference-counted anonymous pages.  The routines that touch
    only one tree are in VmaTree.v; here are the calls.  The process table
    (Process.v) and the page budgets (PersonaBudget.v) are the real ones; the
    page tables are seen through the interface [VmaPaging], which VmaWorld.v
    implements with Paging.v.  UEFI kernel
    configuration; region pointers handed in are pointers into the pool. *)

From S2P Require Import Prelude Principal Services64 Process PersonaBudget Paging VmaTree.
Import PersonaBudget VmaTree.
Local Open Scope Z_scope.
Local Open Scope kernel_scope.

Module Vma.

Definition VMA64_MAX_PROCESS_TREES : nat := 16.
Definition VMA64_MAX_ANON_PAGES : nat := 1024.
Definition VMA64_PHYS_ANON : Z := 0xFFFFFFFFFFFFFFFF.
Definition VMA64_ANON_HINT_BASE : Z := 0x44000000.
Definition VMA64_ANON_HINT_LIMIT : Z := 0x44200000.
Definition VMA64_BRK_BASE_DEFAULT : Z := 0x44100000.
Definition VMA64_BRK_LIMIT_DEFAULT : Z := 0x44180000.
Definition VMA64_PROT_READ : Z := 1.
Definition VMA64_PROT_WRITE : Z := 2.
Definition VMA64_PROT_EXECUTE : Z := 4.
Definition VMA64_MAP_PRIVATE : Z := 1.
Definition VMA64_MAP_FIXED : Z := 4.
Definition VMA64_MAP_ANONYMOUS : Z := 8.
Definition VMA64_MAP_COPY_ON_WRITE : Z := 16.
Definition VMA64_FAULT_PRESENT : Z := 1.
Definition VMA64_FAULT_WRITE : Z := 2.
Definition VMA64_BACKING_ANON : Z := 1.
Definition VMA64_DIAG_REGION_COUNT : Z := 1.
Definition VMA64_DIAG_MAPPED_BYTES : Z := 2.
Definition VMA64_DIAG_COW_PAGE_COUNT : Z := 3.
Definition VMA64_DIAG_BRK_CURRENT : Z := 4.
Definition VMA64_DIAG_PEAK_REGION_COUNT : Z := 5.
Definition VMA64_DIAG_DENIED : Z := 0xFFFFFFFFFFFFFFFF.

(** What address spaces ask of paging.c: where the kernel is loaded, the
    page-table root of a process, and the user mappings of that root or, for
    a process without one, of the shared root.  paging.c reads the root of a
    process from the process table when it has none of its own, so its
    per-process routines see the table. *)
Class VmaPaging (W : Type) := {
  g_vma64_anon_pages_address : Z;
  g_paging64_kernel_physical_base : W -> Z;
  paging64_process_root_physical : Process.process_state -> Z -> W -> Z;
  paging64_install_user_page_mapping_for_process : Process.process_state -> Z -> Z -> Z -> Z -> ST W Z;
  paging64_install_user_page_mapping : Z -> Z -> Z -> ST W Z;
  paging64_clear_user_page_mapping_for_process : Process.process_state -> Z -> Z -> ST W Z;
  paging64_clear_user_page_mapping : Z -> ST W Z;
  paging64_remap_user_page_for_process : Process.process_state -> Z -> Z -> Z -> Z -> ST W Z;
  paging64_remap_user_page : Z -> Z -> Z -> ST W Z;
  paging64_update_user_page_protection_for_process : Process.process_state -> Z -> Z -> Z -> ST W Z;
  paging64_update_user_page_protection : Z -> Z -> ST W Z;
  paging64_user_page_present_for_process : Process.process_state -> Z -> Z -> W -> Z;
  paging64_user_page_present : Z -> W -> Z;
  paging64_user_page_physical_for_process : Process.process_state -> Z -> Z -> W -> Z;
  paging64_user_page_physical : Z -> W -> Z;
  paging64_user_page_protection_for_process : Process.process_state -> Z -> Z -> W -> Z;
  paging64_user_page_protection : Z -> W -> Z;
}.

(** Installing and remapping a user page does not move the kernel. *)
Class VmaPagingLaws (W : Type) `{!VmaPaging W} : Prop := {
  install_keeps_base ps p va pa prot w :
    g_paging64_kernel_physical_base (snd (paging64_install_user_page_mapping_for_process ps p va pa prot w)) =
    g_paging64_kernel_physical_base w;
  install_shared_keeps_base va pa prot w :
    g_paging64_kernel_physical_base (snd (paging64_install_user_page_mapping va pa prot w)) = g_paging64_kernel_physical_base w;
  remap_keeps_base ps p va pa prot w :
    g_paging64_kernel_physical_base (snd (paging64_remap_user_page_for_process ps p va pa prot w)) =
    g_paging64_kernel_physical_base w;
  remap_shared_keeps_base va pa prot w :
    g_paging64_kernel_physical_base (snd (paging64_remap_user_page va pa prot w)) = g_paging64_kernel_physical_base w
}.

Record vma_state (W : Type) := mk_vma_state {
  g_vma64_trees : list vma_tree_t;
  g_vma64_tree_pids : list Z;
  g_vma64_regions : list vma_region_t;
  g_vma64_region_used : list Z;
  g_vma64_anon_pages : list (list Z);
  g_vma64_anon_page_used : list Z;
  g_vma64_anon_claimed_pages : Z;
  g_vma64_cow_fault_count : Z;
  g_vma64_last_lookup_steps : Z;
  g_vma64_peak_lookup_steps : Z;
  g_vma64_last_map_stage : Z;
  g_vma64_last_unmap_stage : Z;
  g_vma64_initialized : Z;
  g_vma64_fork_copy_count : Z;
  g_vma64_fork_copy_denial_count : Z;
  g_vma64_fork_copy_last_parent_pid : Z;
  g_vma64_fork_copy_last_child_pid : Z;
  g_vma64_fork_copy_last_regions : Z;
  g_vma64_fork_copy_last_pages : Z;
  g_vma64_fork_copy_last_stage : Z;
  g_vma64_fork_copy_last_unsupported_backing : Z;
  vma_processes : Process.process_state;
  vma_personas : persona_state;
  vma_paging : W }.
Arguments mk_vma_state {W}.
Arguments g_vma64_trees {W}.
Arguments g_vma64_tree_pids {W}.
Arguments g_vma64_regions {W}.
Arguments g_vma64_region_used {W}.
Arguments g_vma64_anon_pages {W}.
Arguments g_vma64_anon_page_used {W}.
Arguments g_vma64_anon_claimed_pages {W}.
Arguments g_vma64_cow_fault_count {W}.
Arguments g_vma64_last_lookup_steps {W}.
Arguments g_vma64_peak_lookup_steps {W}.
Arguments g_vma64_last_map_stage {W}.
Arguments g_vma64_last_unmap_stage {W}.
Arguments g_vma64_initialized {W}.
Arguments g_vma64_fork_copy_count {W}.
Arguments g_vma64_fork_copy_denial_count {W}.
Arguments g_vma64_fork_copy_last_parent_pid {W}.
Arguments g_vma64_fork_copy_last_child_pid {W}.
Arguments g_vma64_fork_copy_last_regions {W}.
Arguments g_vma64_fork_copy_last_pages {W}.
Arguments g_vma64_fork_copy_last_stage {W}.
Arguments g_vma64_fork_copy_last_unsupported_backing {W}.
Arguments vma_processes {W}.
Arguments vma_personas {W}.
Arguments vma_paging {W}.

#[export] Instance eta_vma_state W : Eta (vma_state W) := {| eta s :=
  mk_vma_state (g_vma64_trees s) (g_vma64_tree_pids s) (g_vma64_regions s) (g_vma64_region_used s)
    (g_vma64_anon_pages s) (g_vma64_anon_page_used s) (g_vma64_anon_claimed_pages s)
    (g_vma64_cow_fault_count s) (g_vma64_last_lookup_steps s) (g_vma64_peak_lookup_steps s)
    (g_vma64_last_map_stage s) (g_vma64_last_unmap_stage s) (g_vma64_initialized s)
    (g_vma64_fork_copy_count s) (g_vma64_fork_copy_denial_count s)
    (g_vma64_fork_copy_last_parent_pid s) (g_vma64_fork_copy_last_child_pid s)
    (g_vma64_fork_copy_last_regions s) (g_vma64_fork_copy_last_pages s)
    (g_vma64_fork_copy_last_stage s) (g_vma64_fork_copy_last_unsupported_backing s)
    (vma_processes s) (vma_personas s) (vma_paging s) |}.

Definition zero_page : list Z := replicate (Z.to_nat VMA64_PAGE_BYTES) 0.
(** [page[k]] of a run starts at byte [k * VMA64_PAGE_BYTES]. *)
Definition page_offset (k : nat) : Z := Z.of_nat k * VMA64_PAGE_BYTES.

Definition vma64_paging_prot (prot : Z) : Z :=
  Z.lor (Z.lor (if nz (Z.land prot VMA64_PROT_READ) then Paging.PAGING64_USER_PROT_READ else 0)
               (if nz (Z.land prot VMA64_PROT_WRITE) then Paging.PAGING64_USER_PROT_WRITE else 0))
        (if nz (Z.land prot VMA64_PROT_EXECUTE) then Paging.PAGING64_USER_PROT_EXECUTE else 0).

(** FNV-1a over the page. *)
Definition vma64_page_checksum (page : list Z) : Z :=
  let digest := fold_left (fun d b => mul32 (Z.lxor d b) 16777619) page 2166136261 in
  if negb (digest =? 0) then digest else 1.

Section operations.
Context {W : Type} {paging : VmaPaging W} {launch : Process.LaunchEnv}.

Abbreviation VM := (ST (vma_state W)).

(** [&g_vma64_trees[t]], and back. *)
Definition tree_ptr (t : nat) : Z := Z.of_nat (S t).
Definition tree_index (ptr : Z) : option nat :=
  if (0 <? ptr) && (ptr <=? Z.of_nat VMA64_MAX_PROCESS_TREES) then Some (Z.to_nat (ptr - 1)) else None.

Definition tree_at (s : vma_state W) (t : nat) : vma_tree_t := default vma64_clear_tree (g_vma64_trees s !! t).
Definition heap_of (s : vma_state W) (t : nat) : vma_heap := mk_heap (tree_at s t) (g_vma64_regions s).
Definition pool_at (s : vma_state W) (i : nat) : vma_region_t :=
  default vma64_clear_region (g_vma64_regions s !! i).

Definition on_tree {A} (t : nat) (m : RM A) : VM A :=
  fun s => let (a, h) := m (heap_of s t) in
    (a, s <| g_vma64_trees := alter (fun _ => tree h) t (g_vma64_trees s) |> <| g_vma64_regions := regions h |>).
Definition on_processes {A} (m : Process.PM A) : VM A :=
  fun s => let (a, ps) := m (vma_processes s) in (a, s <| vma_processes := ps |>).
Definition on_personas {A} (m : BM A) : VM A :=
  fun s => let (a, ps) := m (vma_personas s) in (a, s <| vma_personas := ps |>).
Definition on_paging {A} (m : Process.process_state -> ST W A) : VM A :=
  fun s => let (a, w) := m (vma_processes s) (vma_paging s) in (a, s <| vma_paging := w |>).

Definition update_tree (t : nat) (f : vma_tree_t -> vma_tree_t) : VM unit :=
  modify (fun s => s <| g_vma64_trees := alter f t (g_vma64_trees s) |>).
Definition update_region (i : nat) (f : vma_region_t -> vma_region_t) : VM unit :=
  modify (fun s => s <| g_vma64_regions := alter f i (g_vma64_regions s) |>).
Definition set_region_used (i : nat) (v : Z) : VM unit :=
  modify (fun s => s <| g_vma64_region_used := <[i := v]> (g_vma64_region_used s) |>).
Definition set_tree_pid (t : nat) (v : Z) : VM unit :=
  modify (fun s => s <| g_vma64_tree_pids := <[t := v]> (g_vma64_tree_pids s) |>).
Definition set_page (k : nat) (bytes : list Z) : VM unit :=
  modify (fun s => s <| g_vma64_anon_pages := <[k := bytes]> (g_vma64_anon_pages s) |>).
Definition set_page_used (k : nat) (v : Z) : VM unit :=
  modify (fun s => s <| g_vma64_anon_page_used := <[k := v]> (g_vma64_anon_page_used s) |>).
Definition page_used (s : vma_state W) (k : nat) : Z := default 0 (g_vma64_anon_page_used s !! k).

(** ** Initialisation and the pools *)

Definition vma64_init : VM unit :=
  done <- gets (fun s => nz (g_vma64_initialized s)) ;;
  if done : bool then ret tt
  else modify (fun s => s
    <| g_vma64_trees := replicate VMA64_MAX_PROCESS_TREES vma64_clear_tree |>
    <| g_vma64_tree_pids := replicate VMA64_MAX_PROCESS_TREES Process.PROCESS64_INVALID_PID |>
    <| g_vma64_regions := replicate VMA64_MAX_STATIC_REGIONS vma64_clear_region |>
    <| g_vma64_region_used := replicate VMA64_MAX_STATIC_REGIONS 0 |>
    <| g_vma64_anon_pages := replicate VMA64_MAX_ANON_PAGES zero_page |>
    <| g_vma64_anon_page_used := replicate VMA64_MAX_ANON_PAGES 0 |>
    <| g_vma64_anon_claimed_pages := 0 |> <| g_vma64_cow_fault_count := 0 |>
    <| g_vma64_initialized := 1 |>).

(** [paging64_kernel_physical_alias(g_vma64_anon_pages[k])]. *)
Definition anon_physical (w : W) (k : nat) : Z :=
  Paging.paging64_kernel_physical_alias (g_paging64_kernel_physical_base w) (add64 g_vma64_anon_pages_address (page_offset k)).

(** The first run of [n] free pages. *)
Definition claim_index (n : nat) (used : list Z) : option nat :=
  List.find (fun k => forallb (fun u => u =? 0) (take n (drop k used)))
            (seq 0 (S (VMA64_MAX_ANON_PAGES - n))).

Definition claim_page (k : nat) : VM unit := set_page_used k 1 ;;; set_page k zero_page.

Definition vma64_claim_anon_pages (page_count : Z) : VM Z :=
  vma64_init ;;;
  if (page_count =? 0) || (Z.of_nat VMA64_MAX_ANON_PAGES <? page_count) then ret 0
  else
    found <- gets (fun s => claim_index (Z.to_nat page_count) (g_vma64_anon_page_used s)) ;;
    match found with
    | None => ret 0
    | Some k =>
        for_range (Z.to_nat page_count) (fun run => claim_page (k + run)) ;;;
        modify (fun s => s <| g_vma64_anon_claimed_pages := add32 (g_vma64_anon_claimed_pages s) page_count |>) ;;;
        gets (fun s => anon_physical (vma_paging s) k)
    end.

Definition vma64_anon_page_index (w : W) (physical : Z) : option nat :=
  if physical =? 0 then None
  else List.find (fun k => anon_physical w k =? physical) (seq 0 VMA64_MAX_ANON_PAGES).

Definition vma64_retain_anon_page (physical : Z) : VM Z :=
  found <- gets (fun s => vma64_anon_page_index (vma_paging s) physical) ;;
  match found with
  | None => ret 0
  | Some k =>
      used <- gets (fun s => page_used s k) ;;
      if used =? 0 then ret 0
      else
        set_page_used k (inc32 used) ;;;
        modify (fun s => s <| g_vma64_anon_claimed_pages := inc32 (g_vma64_anon_claimed_pages s) |>) ;;;
        ret 1
  end.

(** One page of [vma64_release_anon_pages]. *)
Definition release_page (k : nat) : VM unit :=
  used <- gets (fun s => page_used s k) ;;
  (if nz used then
     set_page_used k (dec32 used) ;;;
     modify (fun s => if nz (g_vma64_anon_claimed_pages s)
       then s <| g_vma64_anon_claimed_pages := dec32 (g_vma64_anon_claimed_pages s) |> else s)
   else ret tt) ;;;
  used' <- gets (fun s => page_used s k) ;;
  if used' =? 0 then set_page k zero_page else ret tt.

Definition vma64_release_anon_pages (physical page_count : Z) : VM unit :=
  if (physical =? 0) || (page_count =? 0) || (Z.of_nat VMA64_MAX_ANON_PAGES <? page_count) then ret tt
  else
    found <- gets (fun s => List.find (fun k => anon_physical (vma_paging s) k =? physical)
                              (seq 0 (S (VMA64_MAX_ANON_PAGES - Z.to_nat page_count)))) ;;
    match found with
    | None => ret tt
    | Some k => for_range (Z.to_nat page_count) (fun run => release_page (k + run))
    end.

Definition vma64_init_process (p : Z) : VM Z :=
  vma64_init ;;;
  if p =? Process.PROCESS64_INVALID_PID then ret 0
  else
    root <- on_processes (Process.process64_vma_root p) ;;
    if nz root then ret 1
    else
      found <- gets (fun s => find_index (fun q => q =? Process.PROCESS64_INVALID_PID) (g_vma64_tree_pids s)) ;;
      match found with
      | None => ret 0
      | Some t =>
          update_tree t (fun _ => vma64_clear_tree) ;;;
          ok <- on_processes (Process.process64_attach_vma p (tree_ptr t)) ;;
          if ok =? 0 then ret 0 else set_tree_pid t p ;;; ret 1
      end.

Definition vma64_tree_for_process (p : Z) : VM (option nat) :=
  vma64_init ;;;
  root <- on_processes (Process.process64_vma_root p) ;;
  ret (tree_index root).

Definition vma64_first_region (p : Z) : VM (option nat) :=
  tree <- vma64_tree_for_process p ;;
  match tree with None => ret None | Some t => gets (fun s => head (tree_at s t)) end.
Definition vma64_next_region (region : option nat) : VM (option nat) :=
  match region with None => ret None | Some i => gets (fun s => next (pool_at s i)) end.

Definition vma64_region_acquire : VM (option nat) :=
  vma64_init ;;;
  found <- gets (fun s => find_index (fun u => u =? 0) (g_vma64_region_used s)) ;;
  match found with
  | None => ret None
  | Some i => set_region_used i 1 ;;; update_region i (fun _ => vma64_clear_region) ;;; ret (Some i)
  end.

Definition vma64_region_release (i : nat) : VM unit :=
  vma64_init ;;;
  if (i <? VMA64_MAX_STATIC_REGIONS)%nat
  then update_region i (fun _ => vma64_clear_region) ;;; set_region_used i 0
  else ret tt.

Definition prepared (base end_ phys prot map btype bhandle token : Z) : vma_region_t :=
  mk_region base end_ phys prot map btype bhandle token 0 None None None None None VMA64_RB_BLACK.

Definition vma64_region_prepare (i : nat) (base end_ phys prot map btype bhandle token : Z) : VM Z :=
  if negb (vma64_range_valid base end_) || (token =? VMA64_INVALID_TOKEN) then ret 0
  else update_region i (fun _ => prepared base end_ phys prot map btype bhandle token) ;;; ret 1.

(** ** Insert, remove, find *)

(** [(u32)((bytes + VMA64_PAGE_BYTES - 1) / VMA64_PAGE_BYTES)]. *)
Definition budget_pages (bytes : Z) : Z :=
  wrap32 (add64 bytes (VMA64_PAGE_BYTES - 1) / VMA64_PAGE_BYTES).

Definition vma64_insert (p : Z) (region : nat) : VM Z :=
  tree <- vma64_tree_for_process p ;;
  match tree with
  | None => ret 0
  | Some t =>
      r <- gets (fun s => pool_at s region) ;;
      if negb (vma64_range_valid (virt_base r) (virt_end r))
         || bool_decide (is_Some (prev r)) || bool_decide (is_Some (next r))
      then ret 0
      else
        place <- gets (fun s => insert_scan link_fuel (heap_of s t) (virt_base r) (virt_end r) None
                                  (head (tree_at s t))) ;;
        match place with
        | None => ret 0
        | Some (previous, cursor) =>
            mapped <- gets (fun s => mapped_bytes (tree_at s t)) ;;
            budget <- on_personas (persona64_budget_check_vma_pages p (budget_pages mapped)
                                     (budget_pages (sub64 (virt_end r) (virt_base r)))) ;;
            if budget =? 0 then ret 0 else on_tree t (insert_link region previous cursor)
        end
  end.

Definition vma64_remove (p base end_ : Z) : VM (option nat) :=
  tree <- vma64_tree_for_process p ;;
  match tree with
  | None => ret None
  | Some t =>
      if negb (vma64_range_valid base end_) then ret None
      else
        found <- gets (fun s => walk link_fuel (heap_of s t)
          (fun c => (virt_base (pool_at s c) =? base) && (virt_end (pool_at s c) =? end_))
          (head (tree_at s t))) ;;
        match found with
        | None => ret None
        | Some c => on_tree t (vma64_detach_region c)
        end
  end.

Definition vma64_find (p address : Z) : VM (option nat) :=
  tree <- vma64_tree_for_process p ;;
  match tree with
  | None => modify (fun s => s <| g_vma64_last_lookup_steps := 0 |>) ;;; ret None
  | Some t =>
      res <- gets (fun s => find_loop link_fuel (heap_of s t) address (rb_root (tree_at s t)) 0) ;;
      modify (fun s => s <| g_vma64_last_lookup_steps := snd res |>
        <| g_vma64_peak_lookup_steps := if g_vma64_peak_lookup_steps s <? snd res then snd res
                                        else g_vma64_peak_lookup_steps s |>) ;;;
      ret (fst res)
  end.

Definition vma64_find_gap (p min_addr max_addr len alignment : Z) : VM Z :=
  tree <- vma64_tree_for_process p ;;
  match tree with
  | None => ret 0
  | Some t => gets (fun s => find_gap (heap_of s t) min_addr max_addr len alignment)
  end.

(** ** The page tables of a process, or the shared ones *)

Definition private_root (p : Z) (ps : Process.process_state) (w : W) : bool :=
  negb (paging64_process_root_physical ps p w =? 0).

Definition vma64_paging_install_user_page_mapping (p va pa prot : Z) : VM Z :=
  on_paging (fun ps w => if private_root p ps w then paging64_install_user_page_mapping_for_process ps p va pa prot w
                         else paging64_install_user_page_mapping va pa prot w).
Definition vma64_paging_clear_user_page_mapping (p va : Z) : VM Z :=
  on_paging (fun ps w => if private_root p ps w then paging64_clear_user_page_mapping_for_process ps p va w
                         else paging64_clear_user_page_mapping va w).
Definition vma64_paging_remap_user_page (p va pa prot : Z) : VM Z :=
  on_paging (fun ps w => if private_root p ps w then paging64_remap_user_page_for_process ps p va pa prot w
                         else paging64_remap_user_page va pa prot w).
Definition vma64_paging_update_user_page_protection (p va prot : Z) : VM Z :=
  on_paging (fun ps w => if private_root p ps w then paging64_update_user_page_protection_for_process ps p va prot w
                         else paging64_update_user_page_protection va prot w).
Definition vma64_paging_user_page_present (p va : Z) (s : vma_state W) : Z :=
  let (ps, w) := (vma_processes s, vma_paging s) in
  if private_root p ps w then paging64_user_page_present_for_process ps p va w else paging64_user_page_present va w.
Definition vma64_paging_user_page_physical (p va : Z) (s : vma_state W) : Z :=
  let (ps, w) := (vma_processes s, vma_paging s) in
  if private_root p ps w then paging64_user_page_physical_for_process ps p va w else paging64_user_page_physical va w.
Definition vma64_paging_user_page_protection (p va : Z) (s : vma_state W) : Z :=
  let (ps, w) := (vma_processes s, vma_paging s) in
  if private_root p ps w then paging64_user_page_protection_for_process ps p va w
  else paging64_user_page_protection va w.

Definition vma64_user_pages_clear (p va page_count : Z) (s : vma_state W) : bool :=
  forallb (fun k => vma64_paging_user_page_present p (add64 va (page_offset k)) s =? 0)
          (seq 0 (Z.to_nat page_count)).

Definition vma64_user_pages_match_region (p : Z) (r : vma_region_t) (va page_count : Z) (s : vma_state W) : bool :=
  forallb (fun k =>
      let page_virtual := add64 va (page_offset k) in
      let expected := vma64_region_physical_for_address r page_virtual in
      negb ((expected =? 0) || (vma64_paging_user_page_present p page_virtual s =? 0)
            || negb (vma64_paging_user_page_physical p page_virtual s =? expected)))
    (seq 0 (Z.to_nat page_count)).

(** ** Mapping anonymous memory *)

Definition set_map_stage (v : Z) : VM unit := modify (fun s => s <| g_vma64_last_map_stage := v |>).
Definition set_unmap_stage (v : Z) : VM unit := modify (fun s => s <| g_vma64_last_unmap_stage := v |>).

(** Install pages [ks] of a run; [Some k] is the first that failed. *)
Fixpoint install_pages (p va pa prot : Z) (ks : list nat) : VM (option nat) :=
  match ks with
  | [] => ret None
  | k :: ks' =>
      ok <- vma64_paging_install_user_page_mapping p (add64 va (page_offset k)) (add64 pa (page_offset k)) prot ;;
      if ok =? 0 then ret (Some k) else install_pages p va pa prot ks'
  end.

(** Clear the mappings of pages [ks] of a run. *)
Fixpoint clear_pages (p va : Z) (ks : list nat) : VM unit :=
  match ks with
  | [] => ret tt
  | k :: ks' => vma64_paging_clear_user_page_mapping p (add64 va (page_offset k)) ;;; clear_pages p va ks'
  end.

(** Where to map: the fixed address asked for, or the first gap. *)
Definition map_address (p hint len map page_count : Z) : VM (option Z) :=
  if nz (Z.land map VMA64_MAP_FIXED) then
    if nz (Z.land hint (VMA64_PAGE_BYTES - 1)) then ret None
    else
      gap <- vma64_find_gap p hint (add64 hint len) len VMA64_PAGE_BYTES ;;
      if negb (gap =? hint) then ret None
      else
        free <- gets (fun s => vma64_user_pages_clear p hint page_count s) ;;
        ret (if free then Some hint else None)
  else
    set_map_stage 3 ;;;
    gap <- vma64_find_gap p (if negb (hint =? 0) then hint else VMA64_ANON_HINT_BASE)
             VMA64_ANON_HINT_LIMIT len VMA64_PAGE_BYTES ;;
    if gap =? 0 then ret None
    else
      free <- gets (fun s => vma64_user_pages_clear p gap page_count s) ;;
      ret (if free then Some gap else None).

(** The region and its pages, inserted; [None] when any step failed and was
    undone. *)
Definition map_region (p va len prot map page_count : Z) : VM (option (nat * Z)) :=
  set_map_stage 4 ;;;
  region <- vma64_region_acquire ;;
  match region with
  | None => ret None
  | Some i =>
      set_map_stage 5 ;;;
      physical <- vma64_claim_anon_pages page_count ;;
      if physical =? 0 then vma64_region_release i ;;; ret None
      else
        set_map_stage 6 ;;;
        ready <- vma64_region_prepare i va (add64 va len) physical prot map VMA64_BACKING_ANON
                   VMA64_BACKING_HANDLE_NONE 0xA3000001 ;;
        inserted <- (if ready =? 0 then ret 0 else vma64_insert p i) ;;
        if inserted =? 0 then
          vma64_release_anon_pages physical page_count ;;; vma64_region_release i ;;; ret None
        else ret (Some (i, physical))
  end.

Definition vma64_map_anon (p hint len prot map : Z) : VM Z :=
  let page_count := vma64_page_count_from_length len in
  let paging_prot := vma64_paging_prot prot in
  set_map_stage 1 ;;;
  if (page_count =? 0) || (Z.of_nat VMA64_MAX_ANON_PAGES <? page_count)
     || (Z.land map VMA64_MAP_ANONYMOUS =? 0)
  then ret 0
  else
    ready <- vma64_init_process p ;;
    if ready =? 0 then ret 0
    else
      set_map_stage 2 ;;;
      place <- map_address p hint len map page_count ;;
      match place with
      | None => ret 0
      | Some va =>
        mapped <- map_region p va len prot map page_count ;;
        match mapped with
        | None => ret 0
        | Some (i, physical) =>
            set_map_stage 7 ;;;
            if paging_prot =? 0 then set_map_stage 8 ;;; ret va
            else
              failed <- install_pages p va physical paging_prot (seq 0 (Z.to_nat page_count)) ;;
              match failed with
              | None => set_map_stage 8 ;;; ret va
              | Some k =>
                  clear_pages p va (rev (seq 0 k)) ;;;
                  vma64_remove p va (add64 va len) ;;;
                  vma64_release_anon_pages physical page_count ;;;
                  vma64_region_release i ;;;
                  ret 0
              end
        end
      end.

(** ** Unmapping *)

Definition vma64_unmap (p address len : Z) : VM Z :=
  let page_count := vma64_page_count_from_length len in
  let end_ := add64 address len in
  set_unmap_stage 1 ;;;
  if (page_count =? 0) || nz (Z.land address (VMA64_PAGE_BYTES - 1)) || (end_ <? address) then ret 0
  else
    set_unmap_stage 2 ;;;
    found <- vma64_find p address ;;
    match found with
    | None => ret 0
    | Some i =>
        set_unmap_stage 3 ;;;
        r <- gets (fun s => pool_at s i) ;;
        if negb (virt_base r =? address) || negb (virt_end r =? end_) then ret 0
        else
          set_unmap_stage 4 ;;;
          if negb (backing_type r =? VMA64_BACKING_ANON) then ret 0
          else
            set_unmap_stage 5 ;;;
            if phys_base r =? 0 then ret 0
            else
              set_unmap_stage 6 ;;;
              set_unmap_stage 7 ;;;
              clear_pages p address (seq 0 (Z.to_nat page_count)) ;;;
              tree <- vma64_tree_for_process p ;;
              removed <- vma64_remove p address end_ ;;
              removed' <- (match removed with
                           | Some x => ret (Some x)
                           | None => match tree with
                                     | Some t => on_tree t (vma64_detach_region i)
                                     | None => ret None
                                     end
                           end) ;;
              match removed' with
              | None => set_unmap_stage 8 ;;; ret 0
              | Some x =>
                  vma64_release_anon_pages (phys_base r) page_count ;;;
                  vma64_region_release x ;;;
                  set_unmap_stage 9 ;;;
                  ret 1
              end
    end.

(** One region of [vma64_release_process]. *)
Definition release_region (p : Z) (i : nat) : VM unit :=
  r <- gets (fun s => pool_at s i) ;;
  let page_count := vma64_page_count_from_length (sub64 (virt_end r) (virt_base r)) in
  clear_pages p (virt_base r) (seq 0 (Z.to_nat page_count)) ;;;
  (if (backing_type r =? VMA64_BACKING_ANON) && negb (phys_base r =? 0)
      && negb (phys_base r =? VMA64_PHYS_ANON) && negb (page_count =? 0)
   then vma64_release_anon_pages (phys_base r) page_count else ret tt) ;;;
  vma64_region_release i.

Fixpoint release_loop (fuel : nat) (p : Z) (cursor : option nat) (released : Z) : VM Z :=
  match fuel, cursor with
  | S fuel', Some c =>
      next <- gets (fun s => next (pool_at s c)) ;;
      release_region p c ;;;
      release_loop fuel' p next (inc32 released)
  | _, _ => ret released
  end.

Definition vma64_release_process (p : Z) : VM Z :=
  tree <- vma64_tree_for_process p ;;
  match tree with
  | None => ret 0
  | Some t =>
      first <- gets (fun s => head (tree_at s t)) ;;
      released <- release_loop link_fuel p first 0 ;;
      on_processes (Process.process64_detach_vma p) ;;;
      set_tree_pid t Process.PROCESS64_INVALID_PID ;;;
      update_tree t (fun _ => vma64_clear_tree) ;;;
      ret released
  end.

(** ** Changing protection *)

(** Apply the new protection to pages [ks]; 0 as soon as one fails. *)
Fixpoint protect_pages (p address prot : Z) (region : nat) (ks : list nat) : VM Z :=
  match ks with
  | [] => ret 1
  | k :: ks' =>
      let page_address := add64 address (page_offset k) in
      ok <- (if prot =? 0 then vma64_paging_clear_user_page_mapping p page_address ;;; ret 1
             else
               present <- gets (fun s => vma64_paging_user_page_present p page_address s) ;;
               if negb (present =? 0) then vma64_paging_update_user_page_protection p page_address prot
               else
                 physical <- gets (fun s => vma64_region_physical_for_address (pool_at s region) page_address) ;;
                 if physical =? 0 then ret 0
                 else vma64_paging_install_user_page_mapping p page_address physical prot) ;;
      if ok =? 0 then ret 0 else protect_pages p address prot region ks'
  end.

Definition release_spare (region : option nat) : VM unit :=
  match region with Some i => vma64_region_release i | None => ret tt end.

(** Prepare [i] and insert it. *)
Definition place_region (p : Z) (i : nat) (base end_ phys prot : Z) (old : vma_region_t) (token : Z) : VM Z :=
  ready <- vma64_region_prepare i base end_ phys prot (map_flags old) (backing_type old)
             (backing_handle old) token ;;
  if ready =? 0 then ret 0 else vma64_insert p i.

(** The removed region [i] comes back as up to three. *)
Definition split_region (p : Z) (i : nat) (old : vma_region_t) (prefix suffix : option nat)
    (address end_ new_prot : Z) : VM Z :=
  first <- (match prefix with
            | None => ret 1
            | Some q => place_region p q (virt_base old) address (phys_base old) (prot_flags old) old
                          (vma64_split_token (vma_token old) 0xA5000100)
            end) ;;
  if first =? 0 then release_spare prefix ;;; ret 0
  else
    physical <- gets (fun s => vma64_region_physical_for_address (pool_at s i) address) ;;
    middle <- place_region p i address end_ physical new_prot old (vma_token old) ;;
    if middle =? 0 then ret 0
    else
      last <- (match suffix with
               | None => ret 1
               | Some q => place_region p q end_ (virt_end old)
                             (add64 (phys_base old) (sub64 end_ (virt_base old))) (prot_flags old) old
                             (vma64_split_token (vma_token old) 0xA5000200)
               end) ;;
      if last =? 0 then release_spare suffix ;;; ret 0 else ret 1.

(** Up to two spare regions, or none at all. *)
Definition acquire_spares (need_prefix need_suffix : bool) : VM (option (option nat * option nat)) :=
  prefix <- (if need_prefix then vma64_region_acquire else ret None) ;;
  if need_prefix && bool_decide (prefix = None) then ret None
  else
    suffix <- (if need_suffix then vma64_region_acquire else ret None) ;;
    if need_suffix && bool_decide (suffix = None) then release_spare prefix ;;; ret None
    else ret (Some (prefix, suffix)).

Definition vma64_protect (p address len new_prot : Z) : VM Z :=
  let page_count := vma64_page_count_from_length len in
  let end_ := add64 address len in
  if (page_count =? 0) || nz (Z.land address (VMA64_PAGE_BYTES - 1)) || (end_ <? address) then ret 0
  else
    found <- vma64_find p address ;;
    match found with
    | None => ret 0
    | Some i =>
        old <- gets (fun s => pool_at s i) ;;
        if (virt_end old <? end_) || negb (backing_type old =? VMA64_BACKING_ANON) then ret 0
        else
          matches <- gets (fun s => vma64_user_pages_match_region p old address page_count s) ;;
          if negb (vma64_paging_prot (prot_flags old) =? 0) && negb matches then ret 0
          else
            spares <- acquire_spares (virt_base old <? address) (end_ <? virt_end old) ;;
            match spares with
            | None => ret 0
            | Some (prefix, suffix) =>
                removed <- vma64_remove p (virt_base old) (virt_end old) ;;
                if negb (bool_decide (removed = Some i)) then
                  release_spare prefix ;;; release_spare suffix ;;; ret 0
                else
                  placed <- split_region p i old prefix suffix address end_ new_prot ;;
                  if placed =? 0 then ret 0
                  else protect_pages p address (vma64_paging_prot new_prot) i (seq 0 (Z.to_nat page_count))
            end
    end.

(** ** Copy on write *)

Definition vma64_anon_page_ptr (physical : Z) (w : W) : option nat := vma64_anon_page_index w physical.
Definition vma64_copy_page (target source : nat) : VM unit :=
  modify (fun s => s <| g_vma64_anon_pages :=
    <[target := default zero_page (g_vma64_anon_pages s !! source)]> (g_vma64_anon_pages s) |>).

Definition vma64_clone_cow_page (source_pid source_address target_pid target_address : Z) : VM Z :=
  let source_page := vma64_align_down source_address VMA64_PAGE_BYTES in
  let target_page := vma64_align_down target_address VMA64_PAGE_BYTES in
  if negb (source_page =? source_address) || negb (target_page =? target_address)
     || (source_pid =? Process.PROCESS64_INVALID_PID) || (target_pid =? Process.PROCESS64_INVALID_PID)
  then ret 0
  else
    ready1 <- vma64_init_process source_pid ;;
    if ready1 =? 0 then ret 0
    else
      ready2 <- vma64_init_process target_pid ;;
      if ready2 =? 0 then ret 0
      else
        taken <- vma64_find target_pid target_page ;;
        present <- gets (fun s => vma64_paging_user_page_present target_pid target_page s) ;;
        if bool_decide (is_Some taken) || negb (present =? 0) then ret 0
        else
          found <- vma64_find source_pid source_page ;;
          match found with
          | None => ret 0
          | Some i =>
              r <- gets (fun s => pool_at s i) ;;
              matches <- gets (fun s => vma64_user_pages_match_region source_pid r source_page 1 s) ;;
              if negb (backing_type r =? VMA64_BACKING_ANON) || negb (virt_base r =? source_page)
                 || negb (virt_end r =? add64 source_page VMA64_PAGE_BYTES)
                 || (Z.land (prot_flags r) VMA64_PROT_WRITE =? 0) || negb matches
              then ret 0
              else
                physical <- gets (fun s => vma64_paging_user_page_physical source_pid source_page s) ;;
                retained <- (if physical =? 0 then ret 0 else vma64_retain_anon_page physical) ;;
                if retained =? 0 then ret 0
                else
                  target <- vma64_region_acquire ;;
                  match target with
                  | None => vma64_release_anon_pages physical 1 ;;; ret 0
                  | Some j =>
                      ready <- vma64_region_prepare j target_page (add64 target_page VMA64_PAGE_BYTES) physical
                                 (prot_flags r) (Z.lor (map_flags r) VMA64_MAP_COPY_ON_WRITE) VMA64_BACKING_ANON
                                 VMA64_BACKING_HANDLE_NONE (vma64_split_token (vma_token r) 0xA7001000) ;;
                      inserted <- (if ready =? 0 then ret 0 else vma64_insert target_pid j) ;;
                      if inserted =? 0 then
                        vma64_release_anon_pages physical 1 ;;; vma64_region_release j ;;; ret 0
                      else
                        update_region i (fun q => q <| map_flags := Z.lor (map_flags q) VMA64_MAP_COPY_ON_WRITE |>) ;;;
                        let readonly := vma64_paging_prot (Z.land (prot_flags r) (not32 VMA64_PROT_WRITE)) in
                        shared <- (if readonly =? 0 then ret 0
                                   else
                                     ok <- vma64_paging_update_user_page_protection source_pid source_page readonly ;;
                                     if ok =? 0 then ret 0
                                     else vma64_paging_install_user_page_mapping target_pid target_page physical readonly) ;;
                        if shared =? 0 then
                          vma64_remove target_pid target_page (add64 target_page VMA64_PAGE_BYTES) ;;;
                          vma64_region_release j ;;;
                          vma64_release_anon_pages physical 1 ;;;
                          ret 0
                        else ret 1
                  end
          end.

Definition vma64_handle_cow_fault (p fault_address error_code : Z) : VM Z :=
  let page := vma64_align_down fault_address VMA64_PAGE_BYTES in
  let wanted := Z.lor VMA64_FAULT_PRESENT VMA64_FAULT_WRITE in
  if negb (Z.land error_code wanted =? wanted) || (VMA64_PAGE_BYTES <=? sub64 fault_address page) then ret 0
  else
    found <- vma64_find p page ;;
    match found with
    | None => ret 0
    | Some i =>
        r <- gets (fun s => pool_at s i) ;;
        present <- gets (fun s => vma64_paging_user_page_present p page s) ;;
        protection <- gets (fun s => vma64_paging_user_page_protection p page s) ;;
        if (Z.land (map_flags r) VMA64_MAP_COPY_ON_WRITE =? 0) || (Z.land (prot_flags r) VMA64_PROT_WRITE =? 0)
           || negb (backing_type r =? VMA64_BACKING_ANON) || negb (virt_base r =? page)
           || negb (virt_end r =? add64 page VMA64_PAGE_BYTES) || (present =? 0)
           || nz (Z.land protection Paging.PAGING64_USER_PROT_WRITE)
        then ret 0
        else
          old_physical <- gets (fun s => vma64_paging_user_page_physical p page s) ;;
          old_page <- gets (fun s => vma64_anon_page_ptr old_physical (vma_paging s)) ;;
          new_physical <- vma64_claim_anon_pages 1 ;;
          new_page <- gets (fun s => vma64_anon_page_ptr new_physical (vma_paging s)) ;;
          let writable := vma64_paging_prot (prot_flags r) in
          match old_page, new_page, negb (new_physical =? old_physical) && negb (writable =? 0) with
          | Some source, Some target, true =>
              vma64_copy_page target source ;;;
              ok <- vma64_paging_remap_user_page p page new_physical writable ;;
              if ok =? 0 then vma64_release_anon_pages new_physical 1 ;;; ret 0
              else
                update_region i (fun q => q <| phys_base := new_physical |>
                  <| map_flags := Z.land (map_flags q) (not32 VMA64_MAP_COPY_ON_WRITE) |>) ;;;
                vma64_release_anon_pages old_physical 1 ;;;
                modify (fun s => s <| g_vma64_cow_fault_count := inc32 (g_vma64_cow_fault_count s) |>) ;;;
                ret 1
          | _, _, _ =>
              (if negb (new_physical =? 0) then vma64_release_anon_pages new_physical 1 else ret tt) ;;;
              ret 0
          end
    end.

(** ** Fork *)

Definition set_fork_stage (v : Z) : VM unit := modify (fun s => s <| g_vma64_fork_copy_last_stage := v |>).
Definition deny_fork : VM Z :=
  modify (fun s => s <| g_vma64_fork_copy_denial_count := inc32 (g_vma64_fork_copy_denial_count s) |>) ;;; ret 0.
Definition abandon_fork (child : Z) : VM Z := vma64_release_process child ;;; deny_fork.

(** Copy pages [ks] of the run at [from] to the run at [to]; 0 when one of
    them is no anonymous page. *)
Fixpoint copy_pages (from to : Z) (ks : list nat) : VM Z :=
  match ks with
  | [] => ret 1
  | k :: ks' =>
      source <- gets (fun s => vma64_anon_page_ptr (add64 from (page_offset k)) (vma_paging s)) ;;
      target <- gets (fun s => vma64_anon_page_ptr (add64 to (page_offset k)) (vma_paging s)) ;;
      match source, target with
      | Some f, Some t => vma64_copy_page t f ;;; copy_pages from to ks'
      | _, _ => ret 0
      end
  end.

(** One region of [vma64_fork_copy_process]; 0 when the fork was abandoned,
    and otherwise the number of its pages. *)
Definition fork_region (parent child : Z) (source : nat) (copied_regions : Z) : VM Z :=
  r <- gets (fun s => pool_at s source) ;;
  let page_count := vma64_page_count_from_length (sub64 (virt_end r) (virt_base r)) in
  set_fork_stage 2 ;;;
  matches <- gets (fun s => vma64_user_pages_match_region parent r (virt_base r) page_count s) ;;
  if (page_count =? 0) || negb (backing_type r =? VMA64_BACKING_ANON) || (phys_base r =? 0)
     || (phys_base r =? VMA64_PHYS_ANON) || negb matches
  then
    modify (fun s => s <| g_vma64_fork_copy_last_unsupported_backing := backing_type r |>) ;;;
    abandon_fork child
  else
    set_fork_stage 3 ;;;
    target <- vma64_region_acquire ;;
    match target with
    | None => abandon_fork child
    | Some j =>
        physical <- vma64_claim_anon_pages page_count ;;
        if physical =? 0 then vma64_region_release j ;;; abandon_fork child
        else
          set_fork_stage 4 ;;;
          copied <- copy_pages (phys_base r) physical (seq 0 (Z.to_nat page_count)) ;;
          if copied =? 0 then
            vma64_release_anon_pages physical page_count ;;; vma64_region_release j ;;; abandon_fork child
          else
            set_fork_stage 5 ;;;
            ready <- vma64_region_prepare j (virt_base r) (virt_end r) physical (prot_flags r)
                       (Z.land (map_flags r) (not32 VMA64_MAP_COPY_ON_WRITE)) VMA64_BACKING_ANON
                       VMA64_BACKING_HANDLE_NONE
                       (vma64_split_token (vma_token r) (add32 0xF0230000 copied_regions)) ;;
            inserted <- (if ready =? 0 then ret 0 else vma64_insert child j) ;;
            if inserted =? 0 then
              vma64_release_anon_pages physical page_count ;;; vma64_region_release j ;;; abandon_fork child
            else
              let paging_prot := vma64_paging_prot (prot_flags r) in
              if paging_prot =? 0 then abandon_fork child
              else
                set_fork_stage 6 ;;;
                failed <- install_pages child (virt_base r) physical paging_prot (seq 0 (Z.to_nat page_count)) ;;
                match failed with
                | Some _ => abandon_fork child
                | None => ret page_count
                end
    end.

Fixpoint vma_fork_loop (fuel : nat) (parent child : Z) (cursor : option nat) (regions pages : Z) : VM Z :=
  match fuel, cursor with
  | S fuel', Some c =>
      copied <- fork_region parent child c regions ;;
      if copied =? 0 then ret 0
      else
        modify (fun s => s <| g_vma64_fork_copy_last_regions := inc32 regions |>
                           <| g_vma64_fork_copy_last_pages := add32 pages copied |>) ;;;
        next <- gets (fun s => next (pool_at s c)) ;;
        vma_fork_loop fuel' parent child next (inc32 regions) (add32 pages copied)
  | _, _ =>
      set_fork_stage 7 ;;;
      modify (fun s => s <| g_vma64_fork_copy_count := inc32 (g_vma64_fork_copy_count s) |>) ;;;
      ret 1
  end.

Definition vma64_fork_copy_process (parent child : Z) : VM Z :=
  modify (fun s => s <| g_vma64_fork_copy_last_parent_pid := parent |> <| g_vma64_fork_copy_last_child_pid := child |>
    <| g_vma64_fork_copy_last_regions := 0 |> <| g_vma64_fork_copy_last_pages := 0 |>
    <| g_vma64_fork_copy_last_stage := 1 |> <| g_vma64_fork_copy_last_unsupported_backing := 0 |>) ;;;
  if (parent =? Process.PROCESS64_INVALID_PID) || (child =? Process.PROCESS64_INVALID_PID) || (parent =? child)
  then deny_fork
  else
    ready1 <- vma64_init_process parent ;;
    if ready1 =? 0 then deny_fork
    else
      ready2 <- vma64_init_process child ;;
      if ready2 =? 0 then deny_fork
      else
        parent_tree <- vma64_tree_for_process parent ;;
        child_tree <- vma64_tree_for_process child ;;
        match parent_tree, child_tree with
        | Some pt, Some ct =>
            count <- gets (fun s => region_count (tree_at s ct)) ;;
            if nz count then deny_fork
            else
              source <- gets (fun s => tree_at s pt) ;;
              update_tree ct (fun t => t <| brk_base := brk_base source |> <| brk_current := brk_current source |>
                                         <| brk_peak := brk_peak source |>) ;;;
              vma_fork_loop link_fuel parent child (head source) 0 0
        | _, _ => deny_fork
        end.

(** ** The program break *)

Definition vma64_brk_init_tree (t : vma_tree_t) : vma_tree_t :=
  if brk_base t =? 0
  then t <| brk_base := VMA64_BRK_BASE_DEFAULT |> <| brk_current := VMA64_BRK_BASE_DEFAULT |>
         <| brk_peak := VMA64_BRK_BASE_DEFAULT |>
  else t.

Definition vma64_brk_query (p : Z) : VM Z :=
  ready <- vma64_init_process p ;;
  if ready =? 0 then ret 0
  else
    tree <- vma64_tree_for_process p ;;
    match tree with
    | None => ret 0
    | Some t => update_tree t vma64_brk_init_tree ;;; gets (fun s => brk_current (tree_at s t))
    end.

Definition vma64_brk_extend (p new_brk : Z) : VM Z :=
  ready <- vma64_init_process p ;;
  if (ready =? 0) || nz (Z.land new_brk (VMA64_PAGE_BYTES - 1)) then ret 0
  else
    tree <- vma64_tree_for_process p ;;
    match tree with
    | None => ret 0
    | Some t =>
        update_tree t vma64_brk_init_tree ;;;
        tr <- gets (fun s => tree_at s t) ;;
        if (new_brk <? brk_base tr) || (VMA64_BRK_LIMIT_DEFAULT <? new_brk) then ret 0
        else
          let current := brk_current tr in
          if new_brk =? current then ret current
          else
            moved <- (if current <? new_brk then
                        got <- vma64_map_anon p current (sub64 new_brk current)
                                 (Z.lor VMA64_PROT_READ VMA64_PROT_WRITE)
                                 (Z.lor (Z.lor VMA64_MAP_PRIVATE VMA64_MAP_FIXED) VMA64_MAP_ANONYMOUS) ;;
                        ret (got =? current)
                      else
                        ok <- vma64_unmap p new_brk (sub64 current new_brk) ;; ret (negb (ok =? 0))) ;;
            if negb moved then ret 0
            else
              update_tree t (fun tr => tr <| brk_current := new_brk |>
                <| brk_peak := if brk_peak tr <? new_brk then new_brk else brk_peak tr |>) ;;;
              ret new_brk
    end.

(** ** Queries *)

Definition tree_query (d : Z) (f : vma_tree_t -> Z) (p : Z) : VM Z :=
  tree <- vma64_tree_for_process p ;;
  match tree with None => ret d | Some t => gets (fun s => f (tree_at s t)) end.

Definition vma64_region_count : Z -> VM Z := tree_query 0 region_count.
Definition vma64_mapped_bytes : Z -> VM Z := tree_query 0 mapped_bytes.
Definition vma64_peak_region_count : Z -> VM Z := tree_query 0 peak_region_count.
Definition vma64_anon_claimed_pages : VM Z := gets g_vma64_anon_claimed_pages.
Definition vma64_anon_total_pages : VM Z := ret (Z.of_nat VMA64_MAX_ANON_PAGES).
Definition vma64_anon_free_pages : VM Z :=
  gets (fun s => if g_vma64_anon_claimed_pages s <? Z.of_nat VMA64_MAX_ANON_PAGES
                 then Z.of_nat VMA64_MAX_ANON_PAGES - g_vma64_anon_claimed_pages s else 0).

(** Sum [f] over the areas of the list that are copy-on-write. *)
Fixpoint cow_sum (fuel : nat) (s : vma_state W) (f : vma_region_t -> Z) (cursor : option nat) (acc : Z) : Z :=
  match fuel, cursor with
  | S fuel', Some c =>
      let r := pool_at s c in
      cow_sum fuel' s f (next r)
        (if nz (Z.land (map_flags r) VMA64_MAP_COPY_ON_WRITE) then add32 acc (f r) else acc)
  | _, _ => acc
  end.

Definition cow_query (f : vma_region_t -> Z) (p : Z) : VM Z :=
  tree <- vma64_tree_for_process p ;;
  match tree with
  | None => ret 0
  | Some t => gets (fun s => cow_sum link_fuel s f (head (tree_at s t)) 0)
  end.
Definition vma64_cow_region_count : Z -> VM Z := cow_query (fun _ => 1).
Definition vma64_cow_page_count : Z -> VM Z :=
  cow_query (fun r => vma64_page_count_from_length (sub64 (virt_end r) (virt_base r))).
Definition vma64_cow_fault_count : VM Z := gets g_vma64_cow_fault_count.

Definition vma64_physical_page_ref_count (physical : Z) : VM Z :=
  gets (fun s => from_option (page_used s) 0 (vma64_anon_page_index (vma_paging s) physical)).
Definition vma64_physical_page_checksum (physical : Z) : VM Z :=
  gets (fun s => from_option (fun k => vma64_page_checksum (default zero_page (g_vma64_anon_pages s !! k))) 0
                   (vma64_anon_page_ptr physical (vma_paging s))).

Definition vma64_diag_query (p selected : Z) : VM Z :=
  tree <- vma64_tree_for_process p ;;
  match tree with
  | None => ret VMA64_DIAG_DENIED
  | Some t =>
      tr <- gets (fun s => tree_at s t) ;;
      if selected =? VMA64_DIAG_REGION_COUNT then ret (region_count tr)
      else if selected =? VMA64_DIAG_MAPPED_BYTES then ret (mapped_bytes tr)
      else if selected =? VMA64_DIAG_COW_PAGE_COUNT then vma64_cow_page_count p
      else if selected =? VMA64_DIAG_BRK_CURRENT then ret (brk_current tr)
      else if selected =? VMA64_DIAG_PEAK_REGION_COUNT then ret (peak_region_count tr)
      else ret VMA64_DIAG_DENIED
  end.

Definition vma64_reset_lookup_telemetry : VM unit :=
  modify (fun s => s <| g_vma64_last_lookup_steps := 0 |> <| g_vma64_peak_lookup_steps := 0 |>).
Definition vma64_last_lookup_steps : VM Z := gets g_vma64_last_lookup_steps.
Definition vma64_peak_lookup_steps : VM Z := gets g_vma64_peak_lookup_steps.
Definition vma64_last_map_stage : VM Z := gets g_vma64_last_map_stage.
Definition vma64_last_unmap_stage : VM Z := gets g_vma64_last_unmap_stage.
Definition vma64_fork_copy_count : VM Z := gets g_vma64_fork_copy_count.
Definition vma64_fork_copy_denial_count : VM Z := gets g_vma64_fork_copy_denial_count.
Definition vma64_fork_copy_last_parent_pid : VM Z := gets g_vma64_fork_copy_last_parent_pid.
Definition vma64_fork_copy_last_child_pid : VM Z := gets g_vma64_fork_copy_last_child_pid.
Definition vma64_fork_copy_last_regions : VM Z := gets g_vma64_fork_copy_last_regions.
Definition vma64_fork_copy_last_pages : VM Z := gets g_vma64_fork_copy_last_pages.
Definition vma64_fork_copy_last_stage : VM Z := gets g_vma64_fork_copy_last_stage.
Definition vma64_fork_copy_last_unsupported_backing : VM Z := gets g_vma64_fork_copy_last_unsupported_backing.

End operations.
End Vma.
