(* ===== verification/VmaFacts.v ===== *)
(** * Invariant of the address spaces

    [vinv ls s]: tree [t] holds exactly the regions [ls t], as a well-formed
    address space; no region is in two trees; listed regions are taken from
    the pool; a free tree is empty; and a process with a tree owns it. *)

From stdpp Require Import sorting.
From S2P Require Import Prelude Process ProcessFacts PersonaBudget VmaTree RbTree VmaRb VmaList VmaSpace VmaSpaceOps VmaGap Vma.
Import PersonaBudget VmaTree VmaRb VmaList VmaSpace VmaSpaceOps VmaGap Vma.
Local Open Scope Z_scope.

Module VmaFacts.

Abbreviation TREES := VMA64_MAX_PROCESS_TREES.
Abbreviation proc := ProcFacts.proc.

Section facts.
Context {W : Type} {paging : VmaPaging W} {launch : Process.LaunchEnv}.
Implicit Types (s : vma_state W) (t i j : nat) (p : Z) (ls : nat -> list nat).

(** ** The tree of a process *)

Definition vroot s p : Z := from_option Process.vma_root 0 (proc (vma_processes s) p).
Definition att s p : option nat := tree_index (vroot s p).

Definition brk_of s t := (brk_base (tree_at s t), brk_current (tree_at s t), brk_peak (tree_at s t)).

(** The break lies between its base and the limit of the heap. *)
Definition brk_ok (b : Z * Z * Z) : Prop :=
  let '(base, current, peak) := b in 0 <= base <= current /\ current <= peak <= VMA64_BRK_LIMIT_DEFAULT.

Lemma brk_ok_clear : brk_ok (brk_base vma64_clear_tree, brk_current vma64_clear_tree, brk_peak vma64_clear_tree).
Proof. unfold brk_ok, VMA64_BRK_LIMIT_DEFAULT. simpl. lia. Qed.

Record vinv ls s : Prop := {
  v_init : g_vma64_initialized s <> 0;
  v_trees : length (g_vma64_trees s) = TREES;
  v_pids : length (g_vma64_tree_pids s) = TREES;
  v_regions : length (g_vma64_regions s) = VMA64_MAX_STATIC_REGIONS;
  v_used : length (g_vma64_region_used s) = VMA64_MAX_STATIC_REGIONS;
  v_proc : ProcFacts.pinv (vma_processes s);
  v_space : forall t, (t < TREES)%nat -> space (heap_of s t) (ls t);
  v_disjoint : forall t1 t2 i, (t1 < TREES)%nat -> (t2 < TREES)%nat -> i ∈ ls t1 -> i ∈ ls t2 -> t1 = t2;
  v_live : forall t i, (t < TREES)%nat -> i ∈ ls t -> g_vma64_region_used s !! i <> Some 0;
  v_free : forall t, g_vma64_tree_pids s !! t = Some Process.PROCESS64_INVALID_PID -> ls t = [];
  v_owner : forall p, vroot s p <> 0 -> exists t, vroot s p = tree_ptr t /\ (t < TREES)%nat /\
    g_vma64_tree_pids s !! t = Some p;
  v_brk : forall t, brk_ok (brk_of s t) }.

(** The parts of the state the invariant is about. *)
Definition core s := (g_vma64_trees s, g_vma64_tree_pids s, g_vma64_regions s, g_vma64_region_used s,
  g_vma64_initialized s, vma_processes s).

Lemma core_inj s s' : core s' = core s ->
  g_vma64_trees s' = g_vma64_trees s /\ g_vma64_tree_pids s' = g_vma64_tree_pids s /\
  g_vma64_regions s' = g_vma64_regions s /\ g_vma64_region_used s' = g_vma64_region_used s /\
  g_vma64_initialized s' = g_vma64_initialized s /\ vma_processes s' = vma_processes s.
Proof. unfold core. intros [= -> -> -> -> -> ->]. done. Qed.

Lemma vinv_core ls s s' : core s' = core s -> vinv ls s -> vinv ls s'.
Proof.
  intros (E1 & E2 & E3 & E4 & E5 & E6)%core_inj [].
  assert (Hh : forall t, heap_of s' t = heap_of s t) by (intros t; unfold heap_of, tree_at; by rewrite E1, E3).
  assert (Hr : forall p, vroot s' p = vroot s p) by (intros p; unfold vroot; by rewrite E6).
  split; rewrite ?E1, ?E2, ?E3, ?E4, ?E5, ?E6; try done.
  - intros t Ht. rewrite Hh. auto.
  - intros p. rewrite Hr. auto.
  - intros t. unfold brk_of, tree_at. rewrite E1. apply v_brk0.
Qed.

Lemma heap_core s s' t : core s' = core s -> heap_of s' t = heap_of s t.
Proof. intros (E1 & E2 & E3 & E4 & E5 & E6)%core_inj. unfold heap_of, tree_at. by rewrite E1, E3. Qed.
Lemma pool_core s s' i : core s' = core s -> pool_at s' i = pool_at s i.
Proof. intros (E1 & E2 & E3 & E4 & E5 & E6)%core_inj. unfold pool_at. by rewrite E3. Qed.
Lemma att_core s s' p : core s' = core s -> att s' p = att s p.
Proof. intros (E1 & E2 & E3 & E4 & E5 & E6)%core_inj. unfold att, vroot. by rewrite E6. Qed.

Lemma region_heap s t i : region_at (heap_of s t) i = pool_at s i.
Proof. done. Qed.

(** ** Stepping through calls *)

Lemma on_tree_wp {A} t (m : RM A) s (Q : A -> vma_state W -> Prop) :
  wp m (fun a h => Q a (s <| g_vma64_trees := alter (fun _ => tree h) t (g_vma64_trees s) |>
                          <| g_vma64_regions := regions h |>)) (heap_of s t) ->
  wp (on_tree t m) Q s.
Proof. unfold wp, on_tree. destruct (m (heap_of s t)). done. Qed.

Lemma vma_processes_wp {A} (m : Process.PM A) s (Q : A -> vma_state W -> Prop) :
  wp m (fun a ps => Q a (s <| vma_processes := ps |>)) (vma_processes s) -> wp (on_processes m) Q s.
Proof. unfold wp, on_processes. destruct (m (vma_processes s)). done. Qed.

Lemma on_personas_wp {A} (m : BM A) s (Q : A -> vma_state W -> Prop) :
  wp m (fun a ps => Q a (s <| vma_personas := ps |>)) (vma_personas s) -> wp (on_personas m) Q s.
Proof. unfold wp, on_personas. destruct (m (vma_personas s)). done. Qed.

Lemma on_paging_wp {A} (m : Process.process_state -> ST W A) s (Q : A -> vma_state W -> Prop) :
  wp (m (vma_processes s)) (fun a w => Q a (s <| vma_paging := w |>)) (vma_paging s) -> wp (on_paging m) Q s.
Proof. unfold wp, on_paging. destruct (m (vma_processes s) (vma_paging s)). done. Qed.

Lemma vma_init_wp ls s (Q : unit -> vma_state W -> Prop) : vinv ls s -> Q tt s -> wp vma64_init Q s.
Proof.
  intros Hi HQ. unfold vma64_init. apply wp_bind, wp_gets. by rewrite (proj2 (nz_true _) (v_init _ _ Hi)).
Qed.

Lemma vma_processes_id s : s <| vma_processes := vma_processes s |> = s.
Proof. by destruct s. Qed.

Lemma root_wp ls s p (Q : Z -> vma_state W -> Prop) :
  vinv ls s -> Q (vroot s p) s -> wp (on_processes (Process.process64_vma_root p)) Q s.
Proof.
  intros Hi HQ. apply vma_processes_wp.
  apply (wp_mono _ _ _ _ (ProcFacts.read_field_wp 0 Process.vma_root _ p (v_proc _ _ Hi))).
  intros v ps [-> ->]. by rewrite vma_processes_id.
Qed.

Lemma tree_for_wp ls s p (Q : option nat -> vma_state W -> Prop) :
  vinv ls s -> Q (att s p) s -> wp (vma64_tree_for_process p) Q s.
Proof.
  intros Hi HQ. apply wp_bind, (vma_init_wp ls); [done|]. apply wp_bind, (root_wp ls); [done|]. by apply wp_ret.
Qed.

Lemma tree_index_ptr t : (t < TREES)%nat -> tree_index (tree_ptr t) = Some t.
Proof.
  intros Ht. unfold tree_index, tree_ptr. rewrite (proj2 (Z.ltb_lt _ _)) by lia.
  rewrite (proj2 (Z.leb_le _ _)) by (unfold TREES in *; lia). simpl. f_equal. lia.
Qed.

Lemma att_owner ls s p t : vinv ls s -> att s p = Some t ->
  (t < TREES)%nat /\ g_vma64_tree_pids s !! t = Some p /\ vroot s p = tree_ptr t.
Proof.
  intros Hi Ha. destruct (decide (vroot s p = 0)) as [H0|H0].
  { unfold att in Ha. by rewrite H0 in Ha. }
  destruct (v_owner _ _ Hi p H0) as (t' & Hr & Ht & Hp).
  unfold att in Ha. rewrite Hr, tree_index_ptr in Ha by done. by injection Ha as <-.
Qed.

Lemma att_inj ls s p q t : vinv ls s -> att s p = Some t -> att s q = Some t -> p = q.
Proof.
  intros Hi Hp Hq. destruct (att_owner ls s p t Hi Hp) as (_ & H1 & _), (att_owner ls s q t Hi Hq) as (_ & H2 & _).
  congruence.
Qed.

(** A live process has a proper pid. *)
Lemma proc_pid ps p r : ProcFacts.pinv ps -> proc ps p = Some r -> p <> Process.PROCESS64_INVALID_PID.
Proof.
  intros Hi Hr. apply (ProcFacts.proc_points ps p r Hi) in Hr as ([i|i] & Hpt & <-).
  - destruct (ProcFacts.boot_seed ps i r Hi Hpt) as (sd & Hsd & -> & _).
    apply ProcFacts.seed_lookup_range in Hsd as [? _]. unfold Process.PROCESS64_INVALID_PID. lia.
  - destruct Hpt as [Hpt Ha]. destruct (ProcFacts.p_range ps Hi i r Hpt Ha) as [? _].
    pose proof (ProcFacts.p_next ps Hi). lia.
Qed.

Lemma att_valid ls s p t : vinv ls s -> att s p = Some t -> p <> Process.PROCESS64_INVALID_PID.
Proof.
  intros Hi Ha. unfold att, vroot in Ha. destruct (proc (vma_processes s) p) as [r|] eqn:Hr; [|done].
  by eapply proc_pid; [apply Hi|].
Qed.

(** ** One tree changes *)

Definition with_heap (t : nat) (h : vma_heap) s : vma_state W :=
  s <| g_vma64_trees := alter (fun _ => tree h) t (g_vma64_trees s) |> <| g_vma64_regions := regions h |>.

Definition at_tree ls (t : nat) (l : list nat) : nat -> list nat := fun t' => if decide (t' = t) then l else ls t'.

Lemma at_tree_same ls t l : at_tree ls t l t = l.
Proof. unfold at_tree. by rewrite decide_True. Qed.
Lemma at_tree_other ls t l t' : t' <> t -> at_tree ls t l t' = ls t'.
Proof. intros H. unfold at_tree. by rewrite decide_False. Qed.

Lemma heap_with_same t h s : (t < length (g_vma64_trees s))%nat -> heap_of (with_heap t h s) t = h.
Proof.
  intros Ht. unfold heap_of, tree_at, with_heap. simpl. rewrite list_lookup_alter, decide_True by done.
  apply lookup_lt_is_Some_2 in Ht as [x ->]. by destruct h.
Qed.

Lemma heap_with_other t h s t' : t' <> t -> heap_of (with_heap t h s) t' = mk_heap (tree_at s t') (regions h).
Proof. intros Ht. unfold heap_of, tree_at, with_heap. simpl. by rewrite list_lookup_alter_ne. Qed.

(** An address space only depends on its own regions. *)
Lemma space_frame h h' l :
  tree h' = tree h -> length (regions h') = length (regions h) ->
  (forall i, i ∈ l -> region_at h' i = region_at h i) -> space h l -> space h' l.
Proof.
  intros Ht Hlen Hs [Hl Hx Ho Hg Hc Hb Hp].
  assert (Hsub : forall l0, (forall i, i ∈ l0 -> i ∈ l) -> bytes h' l0 = bytes h l0).
  { induction l0 as [|i l0 IH]; intros Hin; simpl; [done|]. rewrite IH by set_solver. by rewrite Hs by set_solver. }
  split.
  - destruct Hl as [H1 H2]. split; [|by rewrite Ht]. eapply dseg_frame; [done| |exact H1]. intros i Hi. by rewrite Hs.
  - destruct Hx as (tr & n & [[H1 H2] H3] & H4 & H5 & H6). exists tr, n. split_and!; try done.
    split; [split|done]; [|simpl; by rewrite Ht]. eapply rep_frame; [done| |exact H1]. rewrite H4. auto.
  - clear -Ho Hs. induction Ho as [|i l Ho IH Hf]; constructor; [apply IH; set_solver|].
    rewrite Forall_forall in *. intros j Hj. unfold below. rewrite !Hs by set_solver. by apply Hf.
  - intros i Hi. rewrite Hs by done. auto.
  - by rewrite Ht.
  - rewrite Ht, Hsub by done. done.
  - by rewrite Hlen.
Qed.

(** Replacing the address space of one owned tree. *)
Lemma vinv_heap ls s t h l (X : list nat) :
  vinv ls s -> (t < TREES)%nat -> g_vma64_tree_pids s !! t <> Some Process.PROCESS64_INVALID_PID ->
  space h l -> (brk_base (tree h), brk_current (tree h), brk_peak (tree h)) = brk_of s t ->
  (forall i, i ∉ X -> region_at h i = pool_at s i) ->
  (forall t' i, (t' < TREES)%nat -> t' <> t -> i ∈ ls t' -> i ∉ X /\ i ∉ l) ->
  (forall i, i ∈ l -> g_vma64_region_used s !! i <> Some 0) ->
  vinv (at_tree ls t l) (with_heap t h s).
Proof.
  intros Hi Ht Hpid Hs Hbrk Hfr Hout Hlive. pose proof (v_trees _ _ Hi) as Htr.
  split; try apply Hi; simpl.
  - rewrite length_alter. apply Hi.
  - rewrite (sp_pool _ _ Hs). done.
  - intros t' Ht'. destruct (decide (t' = t)) as [->|Hne].
    + rewrite at_tree_same, heap_with_same by lia. done.
    + rewrite at_tree_other, heap_with_other by done.
      eapply space_frame; [..|apply (v_space _ _ Hi t' Ht')]; simpl.
      * done.
      * by rewrite (sp_pool _ _ Hs), (v_regions _ _ Hi).
      * intros i Hil. change (region_at h i = pool_at s i). apply Hfr. by apply (Hout t').
  - intros t1 t2 i H1 H2. unfold at_tree. do 2 case_decide; subst; try done.
    + intros Ha Hb. by destruct (Hout t2 i H2 H0 Hb).
    + intros Ha Hb. by destruct (Hout t1 i H1 H Ha).
    + by apply (v_disjoint _ _ Hi).
  - intros t' i Ht'. unfold at_tree. case_decide; [subst; apply Hlive|]. by apply (v_live _ _ Hi).
  - intros t' Ht'. unfold at_tree. case_decide; [by subst|]. by apply (v_free _ _ Hi).
  - intros t'. unfold brk_of, tree_at, with_heap. simpl. rewrite list_lookup_alter. case_decide as E; [subst t'|apply Hi].
    assert (is_Some (g_vma64_trees s !! t)) as [x ->] by (apply lookup_lt_is_Some_2; lia).
    change (brk_ok (brk_base (tree h), brk_current (tree h), brk_peak (tree h))). rewrite Hbrk. apply Hi.
Qed.

End facts.
End VmaFacts.
