(* ===== verification/VmaOps.v ===== *)
(** * Effects of the address-space primitives

    Acquiring, preparing and releasing regions of the pool, inserting and
    detaching them, and the lookups, each specified against the invariant of
    VmaFacts.v. *)

From stdpp Require Import sorting.
From S2P Require Import Prelude Process ProcessFacts PersonaBudget VmaTree VmaRb VmaList VmaSpace VmaSpaceOps VmaGap Vma VmaFacts.
Import PersonaBudget VmaTree VmaRb VmaList VmaSpace VmaSpaceOps VmaGap Vma VmaFacts.
Local Open Scope Z_scope.

Module VmaOps.

Section ops.
Context {W : Type} {paging : VmaPaging W} {launch : Process.LaunchEnv}.
Implicit Types (s : vma_state W) (t i j : nat) (p : Z) (ls : nat -> list nat) (X : list nat).

(** Only regions of [X] and the links of trees changed. *)
Record frame X s s' : Prop := {
  f_pool : forall j, j ∉ X -> pool_at s' j = pool_at s j;
  f_used : forall j, j ∉ X -> g_vma64_region_used s' !! j = g_vma64_region_used s !! j;
  f_pids : g_vma64_tree_pids s' = g_vma64_tree_pids s;
  f_procs : vma_processes s' = vma_processes s;
  f_brk : forall t, brk_of s' t = brk_of s t }.

Lemma frame_core X s s' : core s' = core s -> frame X s s'.
Proof.
  intros (E1 & E2 & E3 & E4 & E5 & E6)%core_inj.
  split; intros; unfold pool_at, brk_of, tree_at; rewrite ?E1, ?E2, ?E3, ?E4, ?E6; done.
Qed.

Lemma frame_trans X s1 s2 s3 : frame X s1 s2 -> frame X s2 s3 -> frame X s1 s3.
Proof.
  intros [A1 A2 A3 A4 A5] [B1 B2 B3 B4 B5]. split; [| |congruence|congruence|congruence]; intros j Hj.
  - by rewrite B1, A1.
  - by rewrite B2, A2.
Qed.

Lemma frame_mono X Y s s' : X ⊆ Y -> frame X s s' -> frame Y s s'.
Proof. intros HX [A1 A2 A3 A4 A5]. split; try done; intros j Hj; [apply A1|apply A2]; set_solver. Qed.

Lemma frame_root X s s' p : frame X s s' -> vroot s' p = vroot s p.
Proof. intros [_ _ _ E _]. unfold vroot. by rewrite E. Qed.
Lemma frame_att X s s' p : frame X s s' -> att s' p = att s p.
Proof. intros H. unfold att. by erewrite frame_root. Qed.

(** A region taken from the pool that is in no tree. *)
Definition spare ls s i : Prop :=
  (i < VMA64_MAX_STATIC_REGIONS)%nat /\ g_vma64_region_used s !! i <> Some 0 /\ forall t, (t < TREES)%nat -> i ∉ ls t.

Lemma spare_core ls s s' i : core s' = core s -> spare ls s i -> spare ls s' i.
Proof. intros (E1 & E2 & E3 & E4 & E5 & E6)%core_inj. unfold spare. by rewrite E4. Qed.

Lemma spare_frame ls X s s' i : frame X s s' -> i ∉ X -> spare ls s i -> spare ls s' i.
Proof. intros HF Hi (H1 & H2 & H3). split_and!; [done|by rewrite (f_used _ _ _ HF)|done]. Qed.

(** ** The pool *)

Lemma pool_alter s i f j : (i < length (g_vma64_regions s))%nat ->
  default vma64_clear_region (alter f i (g_vma64_regions s) !! j) = if decide (i = j) then f (pool_at s j) else pool_at s j.
Proof.
  intros Hi. rewrite list_lookup_alter. unfold pool_at. case_decide as E; [|done]. subst.
  apply lookup_lt_is_Some_2 in Hi as [r ->]. done.
Qed.

(** Writing a region that is in no tree. *)
Lemma vinv_unlisted ls s i f used :
  vinv ls s -> (forall t, (t < TREES)%nat -> i ∉ ls t) -> length used = VMA64_MAX_STATIC_REGIONS ->
  (forall j, j <> i -> used !! j = g_vma64_region_used s !! j) ->
  vinv ls (s <| g_vma64_regions := alter f i (g_vma64_regions s) |> <| g_vma64_region_used := used |>).
Proof.
  intros Hi Hout Hlen Hused. split; try apply Hi; simpl.
  - rewrite length_alter. apply Hi.
  - done.
  - intros t Ht. eapply space_frame; [..|apply (v_space _ _ Hi t Ht)]; simpl; [done|by rewrite length_alter|].
    intros j Hj. unfold region_at. simpl. rewrite list_lookup_alter_ne; [done|]. intros ->. by apply (Hout t).
  - intros t j Ht Hj. rewrite Hused; [by apply (v_live _ _ Hi t)|]. intros ->. by apply (Hout t).
Qed.

Lemma frame_region s i f : frame [i] s (s <| g_vma64_regions := alter f i (g_vma64_regions s) |>).
Proof.
  split; try done. intros j Hj. unfold pool_at. simpl. rewrite list_lookup_alter_ne; [done|set_solver].
Qed.
Lemma frame_used s i v : frame [i] s (s <| g_vma64_region_used := <[i := v]> (g_vma64_region_used s) |>).
Proof. split; try done. intros j Hj. simpl. rewrite list_lookup_insert_ne; [done|set_solver]. Qed.

Lemma acquire_wp ls s (Q : option nat -> vma_state W -> Prop) :
  vinv ls s -> Q None s ->
  (forall i s', vinv ls s' -> spare ls s' i -> ~ spare ls s i -> frame [i] s s' ->
     pool_at s' i = vma64_clear_region -> g_vma64_region_used s !! i = Some 0 -> Q (Some i) s') ->
  wp vma64_region_acquire Q s.
Proof.
  intros Hi HN HS. apply wp_bind, (vma_init_wp ls); [done|]. apply wp_bind, wp_gets.
  destruct (find_index _ _) as [i|] eqn:Hf; [|by apply wp_ret].
  apply find_index_lookup in Hf as (u & Hu & ->%Z.eqb_eq).
  assert (Hlt : (i < VMA64_MAX_STATIC_REGIONS)%nat) by (rewrite <- (v_used _ _ Hi); by eapply lookup_lt_Some).
  assert (Hout : forall t, (t < TREES)%nat -> i ∉ ls t).
  { intros t Ht Hin. by apply (v_live _ _ Hi t i Ht Hin). }
  apply wp_bind, wp_modify, wp_bind, wp_modify, wp_ret. apply HS.
  - apply (vinv_unlisted ls s i (fun _ => vma64_clear_region)); [done|done|simpl; rewrite length_insert; apply Hi|].
    intros j Hj. simpl. by rewrite list_lookup_insert_ne.
  - split_and!; [done| |done]. simpl. rewrite list_lookup_insert_eq by (by rewrite (v_used _ _ Hi)). done.
  - intros (_ & Hn & _). done.
  - eapply frame_trans; [apply frame_used|apply frame_region].
  - unfold pool_at. simpl. rewrite pool_alter by (by rewrite (v_regions _ _ Hi)). by rewrite decide_True.
  - done.
Qed.

Lemma region_release_wp ls s i (Q : unit -> vma_state W -> Prop) :
  vinv ls s -> (forall t, (t < TREES)%nat -> i ∉ ls t) ->
  (forall s', vinv ls s' -> frame [i] s s' -> Q tt s') -> wp (vma64_region_release i) Q s.
Proof.
  intros Hi Hout HQ. apply wp_bind, (vma_init_wp ls); [done|].
  destruct (Nat.ltb_spec i VMA64_MAX_STATIC_REGIONS); [|apply wp_ret, HQ; [done|by apply frame_core]].
  apply wp_bind, wp_modify, wp_modify. apply HQ.
  - apply (vinv_unlisted ls s i (fun _ => vma64_clear_region)); [done|done|simpl; rewrite length_insert; apply Hi|].
    intros j Hj. simpl. by rewrite list_lookup_insert_ne.
  - eapply frame_trans; [apply frame_region|apply frame_used].
Qed.

Lemma prepare_wp ls s i base end_ phys prot map btype bh token (Q : Z -> vma_state W -> Prop) :
  vinv ls s -> spare ls s i ->
  (vma64_range_valid base end_ = false \/ token = VMA64_INVALID_TOKEN -> Q 0 s) ->
  (forall s', vinv ls s' -> spare ls s' i -> frame [i] s s' -> vma64_range_valid base end_ = true ->
     pool_at s' i = prepared base end_ phys prot map btype bh token ->
     core s' = core (s <| g_vma64_regions := alter (fun _ => prepared base end_ phys prot map btype bh token) i
                          (g_vma64_regions s) |>) -> Q 1 s') ->
  wp (vma64_region_prepare i base end_ phys prot map btype bh token) Q s.
Proof.
  intros Hi (H1 & H2 & H3) H0 HQ. unfold vma64_region_prepare.
  destruct (vma64_range_valid base end_) eqn:Hv; cbn [negb orb]; [|apply wp_ret, H0; by left].
  destruct (Z.eqb_spec token VMA64_INVALID_TOKEN); [apply wp_ret, H0; by right|].
  apply wp_bind, wp_modify, wp_ret. apply HQ; try done.
  - pose proof (vinv_unlisted ls s i (fun _ => prepared base end_ phys prot map btype bh token)
      (g_vma64_region_used s) Hi H3 (v_used _ _ Hi) ltac:(done)) as Hv'. by eapply vinv_core; [|exact Hv'].
  - apply frame_region.
  - unfold pool_at. simpl. rewrite pool_alter by (by rewrite (v_regions _ _ Hi)). by rewrite decide_True.
Qed.

(** ** Inserting *)

Lemma budget_personas p c a ps :
  wp (persona64_budget_check_vma_pages p c a) (fun _ _ => True) ps.
Proof. done. Qed.

(** No area of the tree meets [b, e). *)
Definition clear_of ls s t (b e : Z) : Prop :=
  forall i, i ∈ ls t -> vma64_ranges_overlap b e (virt_base (pool_at s i)) (virt_end (pool_at s i)) = false.

Lemma insert_wp ls s p t i (Q : Z -> vma_state W -> Prop) :
  vinv ls s -> att s p = Some t -> spare ls s i -> range_ok (pool_at s i) ->
  prev (pool_at s i) = None -> next (pool_at s i) = None ->
  (forall s', core s' = core s -> Q 0 s') ->
  (forall s' l1 l2, ls t = l1 ++ l2 -> vinv (at_tree ls t (l1 ++ i :: l2)) s' -> frame (l1 ++ i :: l2) s s' ->
     g_vma64_region_used s' = g_vma64_region_used s ->
     (forall j, area_of (pool_at s' j) = area_of (pool_at s j)) ->
     clear_of ls s t (virt_base (pool_at s i)) (virt_end (pool_at s i)) -> Q 1 s') ->
  wp (vma64_insert p i) Q s.
Proof.
  intros Hi Ha (S1 & S2 & S3) Hr Hp Hn H0 H1. apply wp_bind, (tree_for_wp ls); [done|]. rewrite Ha.
  destruct (att_owner _ _ _ _ Hi Ha) as (Ht & Hpid & _). pose proof (att_valid _ _ _ _ Hi Ha) as Hpv.
  apply wp_bind, wp_gets. rewrite Hp, Hn. rewrite (proj1 Hr). cbn [negb orb].
  rewrite !bool_decide_false by (intros [? ?]; done). cbn [orb]. apply wp_bind, wp_gets.
  pose proof (v_space _ _ Hi t Ht) as Hs. pose proof (range_pos _ Hr) as Hpos.
  pose proof (scan_space (heap_of s t) (ls t) _ _ Hs Hpos) as Hscan.
  change (head (tree (heap_of s t))) with (head (tree_at s t)) in Hscan.
  destruct (insert_scan _ _ _ _ _ _) as [[pv cu]|]; [|apply wp_ret, H0; done].
  destruct Hscan as (l1 & l2 & Hl & -> & -> & B1 & B2). apply wp_bind, wp_gets, wp_bind, on_personas_wp.
  apply (wp_mono _ (fun _ _ => True)); [done|]. intros v ps _.
  destruct (v =? 0); [apply wp_ret, H0; done|]. apply on_tree_wp.
  change (heap_of (s <| vma_personas := ps |>) t) with (heap_of s t).
  rewrite Hl in Hs. assert (Hni : i ∉ l1 ++ l2) by (rewrite <- Hl; by apply S3).
  eapply wp_mono; [apply (insert_link_space (heap_of s t) l1 i l2 Hs Hni)|].
  { unfold in_pool. simpl. by rewrite (v_regions _ _ Hi). }
  { done. }
  { intros j Hj. by apply B1. }
  { intros j Hj. by apply B2. }
  intros r h (-> & Hs' & Htc).
  change (Q 1 (with_heap t h (s <| vma_personas := ps |>))).
  assert (Hc : core (s <| vma_personas := ps |>) = core s) by done.
  apply (H1 _ l1 l2 Hl).
  - apply (vinv_heap ls (s <| vma_personas := ps |>) t h _ (l1 ++ i :: l2)); try done.
    + by eapply vinv_core; [|exact Hi].
    + simpl. rewrite Hpid. by intros [=].
    + apply (tc_brk _ _ _ Htc).
    + intros j Hj. by rewrite (tc_other _ _ _ Htc).
    + intros t' j Ht' Hne Hj. assert (j ∉ l1 ++ i :: l2); [|done].
      rewrite elem_of_app, elem_of_cons. intros Hj'.
      assert (j = i \/ j ∈ ls t) as [->|Hjt] by (rewrite Hl, elem_of_app; tauto); [by apply (S3 t')|].
      by apply Hne, (v_disjoint _ _ Hi t' t j).
    + intros j. rewrite elem_of_app, elem_of_cons. intros Hj.
      assert (j = i \/ j ∈ ls t) as [->|Hjt] by (rewrite Hl, elem_of_app; tauto); [done|]. by apply (v_live _ _ Hi t).
  - split; try done.
    + intros j Hj. exact (tc_other _ _ _ Htc j Hj).
    + intros t'. unfold brk_of, tree_at, with_heap. simpl. rewrite list_lookup_alter.
      case_decide as E; [subst t'|done]. pose proof (tc_brk _ _ _ Htc) as Hb. simpl in Hb. unfold tree_at in Hb.
      destruct (g_vma64_trees s !! t) eqn:Hg; [by rewrite <- Hb|].
      apply lookup_ge_None in Hg. rewrite (v_trees _ _ Hi) in Hg. lia.
  - done.
  - intros j. apply (tc_area _ _ _ Htc).
  - intros j. rewrite Hl, elem_of_app. unfold vma64_ranges_overlap. intros [Hj|Hj].
    + specialize (B1 j Hj). rewrite region_heap in B1. rewrite (proj2 (Z.ltb_ge _ _)) by lia. done.
    + specialize (B2 j Hj). rewrite region_heap in B2. apply andb_false_iff. right. apply Z.ltb_ge. lia.
Qed.

(** ** Removing *)

Lemma removed_frame s t h X : (t < length (g_vma64_trees s))%nat -> touched X (heap_of s t) h -> frame X s (with_heap t h s).
Proof.
  intros Ht Htc. split; try done.
  - intros j Hj. exact (tc_other _ _ _ Htc j Hj).
  - intros t'. unfold brk_of, tree_at, with_heap. simpl. rewrite list_lookup_alter.
    case_decide as E; [subst t'|done]. pose proof (tc_brk _ _ _ Htc) as Hb. simpl in Hb. unfold tree_at in Hb.
    apply lookup_lt_is_Some_2 in Ht as [x Hx]. rewrite Hx in *. by rewrite <- Hb.
Qed.

Lemma detach_region_wp ls s t l1 i l2 (Q : option nat -> vma_state W -> Prop) :
  vinv ls s -> (t < TREES)%nat -> g_vma64_tree_pids s !! t <> Some Process.PROCESS64_INVALID_PID ->
  ls t = l1 ++ i :: l2 ->
  (forall s', vinv (at_tree ls t (l1 ++ l2)) s' -> spare (at_tree ls t (l1 ++ l2)) s' i ->
     frame (l1 ++ i :: l2) s s' -> g_vma64_region_used s' = g_vma64_region_used s ->
     (forall j, area_of (pool_at s' j) = area_of (pool_at s j)) -> Q (Some i) s') ->
  wp (on_tree t (vma64_detach_region i)) Q s.
Proof.
  intros Hi Ht Hpid Hl HQ. pose proof (v_space _ _ Hi t Ht) as Hs. rewrite Hl in Hs.
  assert (Hin : i ∈ ls t) by (rewrite Hl; set_solver).
  assert (Hnd : i ∉ l1 ++ l2).
  { pose proof (space_nodup Hs) as Hnd. apply NoDup_app in Hnd as (_ & Hx & [Hy _]%NoDup_cons). set_solver. }
  apply on_tree_wp. eapply wp_mono; [apply (detach_space _ l1 i l2 Hs)|].
  intros r h (-> & Hs' & Htc & _). change (Q (Some i) (with_heap t h s)). apply HQ.
  - eapply (vinv_heap ls s t h _ (l1 ++ i :: l2)); try done.
    + apply (tc_brk _ _ _ Htc).
    + intros j Hj. exact (tc_other _ _ _ Htc j Hj).
    + intros t' j Ht' Hne Hj. assert (j ∉ ls t) as Hjt by (intros Hjt; by apply Hne, (v_disjoint _ _ Hi t' t j)).
      rewrite Hl in Hjt. split; [done|]. set_solver.
    + intros j Hj. apply (v_live _ _ Hi t j Ht). rewrite Hl. set_solver.
  - split_and!.
    + pose proof (space_pool Hs i ltac:(set_solver)) as Hp. unfold in_pool in Hp. simpl in Hp.
      by rewrite (v_regions _ _ Hi) in Hp.
    + apply (v_live _ _ Hi t i Ht Hin).
    + intros t' Ht'. unfold at_tree. case_decide; [done|]. intros Hx. by apply H, (v_disjoint _ _ Hi t' t i).
  - apply removed_frame; [by rewrite (v_trees _ _ Hi)|done].
  - done.
  - intros j. apply (tc_area _ _ _ Htc).
Qed.

(** The region exactly at [b, e). *)
Definition at_range s b e (j : nat) : bool := (virt_base (pool_at s j) =? b) && (virt_end (pool_at s j) =? e).

Lemma remove_wp ls s p b e (Q : option nat -> vma_state W -> Prop) :
  vinv ls s ->
  ((vma64_range_valid b e = true -> forall t, att s p = Some t -> forall j, j ∈ ls t -> at_range s b e j = false) -> Q None s) ->
  (forall t l1 i l2 s', att s p = Some t -> ls t = l1 ++ i :: l2 -> at_range s b e i = true ->
     vinv (at_tree ls t (l1 ++ l2)) s' -> spare (at_tree ls t (l1 ++ l2)) s' i ->
     frame (l1 ++ i :: l2) s s' -> g_vma64_region_used s' = g_vma64_region_used s ->
     (forall j, area_of (pool_at s' j) = area_of (pool_at s j)) -> Q (Some i) s') ->
  wp (vma64_remove p b e) Q s.
Proof.
  intros Hi HN HS. apply wp_bind, (tree_for_wp ls); [done|].
  destruct (att s p) as [t|] eqn:Ha; [|apply wp_ret, HN; done].
  destruct (vma64_range_valid b e); cbn [negb]; [|apply wp_ret, HN; done].
  destruct (att_owner _ _ _ _ Hi Ha) as (Ht & Hpid & _). pose proof (att_valid _ _ _ _ Hi Ha) as Hpv.
  pose proof (v_space _ _ Hi t Ht) as Hs. destruct (sp_list _ _ Hs) as [Hd Hh].
  apply wp_bind, wp_gets. simpl in Hh. rewrite Hh.
  change (fun c => _) with (at_range s b e).
  rewrite (walk_spec link_fuel (heap_of s t) (at_range s b e) None (ls t) Hd) by apply (space_fuel Hs).
  destruct (List.find _ _) as [i|] eqn:Hf.
  - apply find_some in Hf as [Hin Hr]. apply list_elem_of_In, list_elem_of_split in Hin as (l1 & l2 & Hl).
    apply (detach_region_wp ls s t l1 i l2); [done|done|by rewrite Hpid; intros [=]|done|]. intros. by eapply HS.
  - apply wp_ret, HN. intros _ t' [= <-] j Hj%list_elem_of_In. by apply (find_none _ _ Hf).
Qed.

(** ** Looking up *)

Definition lookup ls s p a : option nat :=
  match att s p with None => None | Some t => List.find (contains (heap_of s t) a) (ls t) end.

(** Only the statistics moved. *)
Definition quiet s s' : Prop :=
  core s' = core s /\ g_vma64_anon_pages s' = g_vma64_anon_pages s /\
  g_vma64_anon_page_used s' = g_vma64_anon_page_used s /\
  g_vma64_anon_claimed_pages s' = g_vma64_anon_claimed_pages s /\ vma_paging s' = vma_paging s /\
  vma_personas s' = vma_personas s.

Lemma vma_find_wp ls s p a (Q : option nat -> vma_state W -> Prop) :
  vinv ls s -> (forall s', quiet s s' -> Q (lookup ls s p a) s') -> wp (vma64_find p a) Q s.
Proof.
  intros Hi HQ. apply wp_bind, (tree_for_wp ls); [done|]. unfold lookup in HQ.
  destruct (att s p) as [t|] eqn:Ha.
  - destruct (att_owner _ _ _ _ Hi Ha) as (Ht & _ & _).
    destruct (find_space _ _ a (v_space _ _ Hi t Ht)) as [Hf _].
    apply wp_bind, wp_gets, wp_bind, wp_modify, wp_ret. change (rb_root (tree_at s t)) with (rb_root (tree (heap_of s t))).
    rewrite Hf. by apply HQ.
  - apply wp_bind, wp_modify, wp_ret. by apply HQ.
Qed.

Lemma lookup_in ls s p a i : lookup ls s p a = Some i ->
  exists t, att s p = Some t /\ i ∈ ls t /\ virt_base (pool_at s i) <= a < virt_end (pool_at s i).
Proof.
  unfold lookup. destruct (att s p) as [t|]; [|done]. intros [Hin Hc]%find_some. exists t.
  split; [done|]. split; [by apply list_elem_of_In|]. unfold contains in Hc. boolify. done.
Qed.

End ops.
End VmaOps.
