(* ===== verification/VmaSteps.v ===== *)
(** * Steps of the address-space calls

    [step ls s ls' s' X] relates the state before and after a part of a call:
    the invariant holds again, the processes keep their trees, and outside
    the regions [X] no area changed its meaning and no spare region was
    lost.  Every primitive a call is made of is such a step, and steps
    compose.  Module VmaPages follows the pages of the pool themselves: which
    a call draws, which it gives back, and what bytes they hold. *)

From S2P Require Import Prelude Process ProcessFacts PersonaBudget VmaTree RbTree VmaRb VmaSpace VmaSpaceOps VmaGap Vma VmaFacts VmaOps.
Import PersonaBudget VmaTree RbTree VmaRb VmaSpace VmaSpaceOps VmaGap Vma VmaFacts VmaOps.
Local Open Scope Z_scope.

Module VmaSteps.

Section steps.
Context {W : Type} {paging : VmaPaging W} {launch : Process.LaunchEnv}.
Implicit Types (s : vma_state W) (t i j : nat) (p q : Z) (ls : nat -> list nat) (X : list nat).

Record step ls s ls' s' X : Prop := {
  st_inv : vinv ls' s';
  st_att : forall q, att s' q = att s q;
  st_area : forall j, j ∉ X -> area_of (pool_at s' j) = area_of (pool_at s j);
  st_spare : forall j, j ∉ X -> spare ls s j -> spare ls' s' j /\ pool_at s' j = pool_at s j;
  st_brk : forall q t, att s q = Some t -> brk_of s' t = brk_of s t }.

Lemma step_refl ls s X : vinv ls s -> step ls s ls s X.
Proof. done. Qed.

Lemma step_trans X ls1 s1 ls2 s2 ls3 s3 : step ls1 s1 ls2 s2 X -> step ls2 s2 ls3 s3 X -> step ls1 s1 ls3 s3 X.
Proof.
  intros [A1 A2 A3 A4 A5] [B1 B2 B3 B4 B5]. split; [done|..].
  - intros q. by rewrite B2.
  - intros j Hj. by rewrite B3, A3.
  - intros j Hj Hs. destruct (A4 j Hj Hs) as [H1 H2], (B4 j Hj H1) as [H3 H4]. by rewrite H4.
  - intros q t Ha. rewrite (B5 q t); [by apply (A5 q)|]. by rewrite A2.
Qed.

Lemma step_mono X Y ls s ls' s' : X ⊆ Y -> step ls s ls' s' X -> step ls s ls' s' Y.
Proof. intros HX [A1 A2 A3 A4 A5]. split; try done; intros j Hj; [apply A3|apply A4]; set_solver. Qed.

Lemma core_step ls s s' X : vinv ls s -> core s' = core s -> step ls s ls s' X.
Proof.
  intros Hi Hc. split.
  - by eapply vinv_core.
  - intros q. by apply att_core.
  - intros j _. by rewrite (pool_core s s').
  - intros j _ Hs. split; [by eapply spare_core|by apply pool_core].
  - intros _ t _. apply core_inj in Hc as (E1 & _). unfold brk_of, tree_at. by rewrite E1.
Qed.

Lemma frame_step ls s s' X : vinv ls s' -> frame X s s' -> step ls s ls s' X.
Proof.
  intros Hi HF. split; [done|intros q; by eapply frame_att| | |intros; apply HF].
  - intros j Hj. by rewrite (f_pool _ _ _ HF).
  - intros j Hj Hs. split; [by eapply spare_frame|by apply HF].
Qed.

(** ** Calls that leave the trees and regions alone *)

Definition still {A} (m : ST (vma_state W) A) : Prop :=
  forall s0, g_vma64_initialized s0 <> 0 -> preserves (fun s => core s = core s0) m.

Lemma still_wp {A} (m : ST (vma_state W) A) ls s (Q : A -> vma_state W -> Prop) :
  still m -> vinv ls s -> (forall a s', core s' = core s -> Q a s') -> wp m Q s.
Proof. intros Hm Hi HQ. eapply wp_mono; [apply (Hm s (v_init _ _ Hi)); done|]. auto. Qed.

Lemma still_next {A B} (m : ST (vma_state W) A) (k : A -> ST (vma_state W) B) ls0 s0 ls s X Q :
  still m -> step ls0 s0 ls s X ->
  (forall a s', core s' = core s -> step ls0 s0 ls s' X -> wp (k a) Q s') -> wp (bind m k) Q s.
Proof.
  intros Hm Hst HQ. apply wp_bind, (still_wp _ ls); [done|apply Hst|]. intros a s' Hc. apply HQ; [done|].
  eapply step_trans; [exact Hst|]. apply core_step; [apply Hst|done].
Qed.

Lemma still_modify f : (forall s, core (f s) = core s) -> still (modify f).
Proof. intros Hf s0 H0. apply preserves_modify. intros s <-. apply Hf. Qed.
Lemma still_ret {A} (a : A) : still (ret a).
Proof. intros s0 H0. apply preserves_ret. Qed.
Lemma still_gets {A} (f : vma_state W -> A) : still (gets f).
Proof. intros s0 H0. apply preserves_gets. Qed.
Lemma still_bind {A B} (m : ST (vma_state W) A) (k : A -> ST (vma_state W) B) :
  still m -> (forall a, still (k a)) -> still (bind m k).
Proof. intros Hm Hk s0 H0. apply preserves_bind; [by apply Hm|]. intros a. by apply Hk. Qed.
Lemma still_if {A} (b : bool) (m1 m2 : ST (vma_state W) A) : still m1 -> still m2 -> still (if b then m1 else m2).
Proof. by destruct b. Qed.
Lemma still_option {A B} (o : option A) (f : A -> ST (vma_state W) B) d :
  (forall a, still (f a)) -> still d -> still (match o with Some a => f a | None => d end).
Proof. destruct o; auto. Qed.
Lemma still_for n (body : nat -> ST (vma_state W) unit) : (forall k, still (body k)) -> still (for_range n body).
Proof. intros Hb s0 H0. apply preserves_fold_each. intros k b _. by apply Hb. Qed.
Lemma still_init : still vma64_init.
Proof.
  intros s0 H0 s Hs. apply wp_bind, wp_gets. apply core_inj in Hs as Hc. destruct Hc as (_ & _ & _ & _ & E & _).
  rewrite (proj2 (nz_true _)) by (by rewrite E). by apply wp_ret.
Qed.
Lemma still_paging {A} (m : Process.process_state -> ST W A) : still (on_paging m).
Proof. intros s0 H0 s Hs. apply on_paging_wp. unfold wp. by destruct (m (vma_processes s) (vma_paging s)). Qed.

Create HintDb still.
Hint Resolve still_ret still_gets still_init still_paging : still.

Ltac still_step :=
  match goal with
  | |- still (bind _ _) => apply still_bind; [|intros ?]
  | |- still (if _ then _ else _) => apply still_if
  | |- still (match _ with Some _ => _ | None => _ end) => apply still_option; [intros ?|]
  | |- still (for_range _ _) => apply still_for; intros ?
  | |- still (modify _) => apply still_modify; intros ?; try done; by destruct (nz _)
  end.
Ltac still_auto := repeat still_step; auto with still.

Lemma still_claim n : still (vma64_claim_anon_pages n).
Proof. unfold vma64_claim_anon_pages, claim_page, set_page_used, set_page. still_auto. Qed.
Lemma still_release a n : still (vma64_release_anon_pages a n).
Proof. unfold vma64_release_anon_pages, release_page, set_page_used, set_page. still_auto. Qed.
Lemma still_retain a : still (vma64_retain_anon_page a).
Proof. unfold vma64_retain_anon_page, set_page_used. still_auto. Qed.
Lemma still_copy i j : still (vma64_copy_page i j).
Proof. unfold vma64_copy_page. still_auto. Qed.
Lemma still_install p va pa prot ks : still (install_pages p va pa prot ks).
Proof.
  induction ks as [|k ks IH]; simpl; [apply still_ret|]. apply still_bind; [apply still_paging|]. intros ok.
  apply still_if; [apply still_ret|done].
Qed.
Lemma still_clear p va ks : still (clear_pages p va ks).
Proof. induction ks as [|k ks IH]; simpl; [apply still_ret|]. apply still_bind; [apply still_paging|]. done. Qed.
Lemma still_copies a b ks : still (copy_pages a b ks).
Proof.
  induction ks as [|k ks IH]; simpl; [apply still_ret|]. do 2 (apply still_bind; [apply still_gets|intros [?|]]);
    try apply still_ret. apply still_bind; [apply still_copy|done].
Qed.
Lemma still_protect p a prot i ks : still (protect_pages p a prot i ks).
Proof.
  induction ks as [|k ks IH]; simpl; [apply still_ret|].
  apply still_bind; [unfold vma64_paging_clear_user_page_mapping, vma64_paging_update_user_page_protection,
    vma64_paging_install_user_page_mapping; still_auto|intros ok]. by apply still_if; [apply still_ret|].
Qed.
Lemma still_map_stage v : still (set_map_stage v).
Proof. by apply still_modify. Qed.
Lemma still_unmap_stage v : still (set_unmap_stage v).
Proof. by apply still_modify. Qed.
Lemma still_fork_stage v : still (set_fork_stage v).
Proof. by apply still_modify. Qed.

(** *** Calls that never touch the page tables *)

Definition dark {A} (m : ST (vma_state W) A) : Prop := forall s, vma_paging (snd (m s)) = vma_paging s.

Lemma dark_wp {A} (m : ST (vma_state W) A) s (Q : A -> vma_state W -> Prop) :
  dark m -> wp m (fun a s' => vma_paging s' = vma_paging s -> Q a s') s -> wp m Q s.
Proof. intros Hd H. apply H, Hd. Qed.

Lemma dark_ret {A} (a : A) : dark (ret a).
Proof. done. Qed.
Lemma dark_gets {A} (f : vma_state W -> A) : dark (gets f).
Proof. done. Qed.
Lemma dark_modify f : (forall s, vma_paging (f s) = vma_paging s) -> dark (modify f).
Proof. intros Hf s. apply Hf. Qed.
Lemma dark_bind {A B} (m : ST (vma_state W) A) (k : A -> ST (vma_state W) B) : dark m -> (forall a, dark (k a)) -> dark (bind m k).
Proof.
  intros Hm Hk s. unfold bind. specialize (Hm s). destruct (m s) as [a s1]. simpl in Hm. rewrite <- Hm. exact (Hk a s1).
Qed.
Lemma dark_if {A} (b : bool) (m1 m2 : ST (vma_state W) A) : dark m1 -> dark m2 -> dark (if b then m1 else m2).
Proof. by destruct b. Qed.
Lemma dark_option {A B} (o : option A) (f : A -> ST (vma_state W) B) d :
  (forall a, dark (f a)) -> dark d -> dark (match o with Some a => f a | None => d end).
Proof. destruct o; auto. Qed.
Lemma dark_for n (body : nat -> ST (vma_state W) unit) : (forall k, dark (body k)) -> dark (for_range n body).
Proof.
  intros Hb s. assert (H : wp (for_range n body) (fun _ s' => vma_paging s' = vma_paging s) s); [|exact H].
  apply (wp_for_range _ _ (fun _ s' => vma_paging s' = vma_paging s)); [done|]. intros m s' _ E. unfold wp. by rewrite Hb.
Qed.
Lemma dark_tree {A} t (m : RM A) : dark (on_tree t m).
Proof. intros s. unfold on_tree. by destruct (m _). Qed.
Lemma dark_processes {A} (m : Process.PM A) : dark (on_processes m).
Proof. intros s. unfold on_processes. by destruct (m _). Qed.
Lemma dark_personas {A} (m : BM A) : dark (on_personas m).
Proof. intros s. unfold on_personas. by destruct (m _). Qed.

Create HintDb dark.
Hint Resolve dark_ret dark_gets dark_tree dark_processes dark_personas : dark.

Ltac dark_step :=
  match goal with
  | |- dark (bind _ _) => apply dark_bind; [|intros ?]
  | |- dark (if _ then _ else _) => apply dark_if
  | |- dark (match _ with Some _ => _ | None => _ end) => apply dark_option; [intros ?|]
  | |- dark (let '(_, _) := ?x in _) => destruct x
  | |- dark (for_range _ _) => apply dark_for; intros ?
  | |- dark (modify _) => apply dark_modify; intros ?; first [done | by destruct (nz _)]
  end.
Ltac dark_auto := repeat dark_step; auto with dark.

Lemma dark_init : dark vma64_init.
Proof. unfold vma64_init. dark_auto. Qed.
Hint Resolve dark_init : dark.
Lemma dark_tree_for p : dark (vma64_tree_for_process p).
Proof. unfold vma64_tree_for_process. dark_auto. Qed.
Hint Resolve dark_tree_for : dark.
Lemma dark_find p a : dark (vma64_find p a).
Proof. unfold vma64_find. dark_auto. Qed.
Lemma dark_copy i j : dark (vma64_copy_page i j).
Proof. unfold vma64_copy_page. dark_auto. Qed.
Lemma dark_init_process p : dark (vma64_init_process p).
Proof. unfold vma64_init_process, update_tree, set_tree_pid. dark_auto. Qed.
Lemma dark_find_gap p lo hi len al : dark (vma64_find_gap p lo hi len al).
Proof. unfold vma64_find_gap. dark_auto. Qed.
Hint Resolve dark_find_gap : dark.
Lemma dark_acquire : dark vma64_region_acquire.
Proof. unfold vma64_region_acquire, set_region_used, update_region. dark_auto. Qed.
Lemma dark_release i : dark (vma64_region_release i).
Proof. unfold vma64_region_release, set_region_used, update_region. dark_auto. Qed.
Lemma dark_claim n : dark (vma64_claim_anon_pages n).
Proof. unfold vma64_claim_anon_pages, claim_page, set_page_used, set_page. dark_auto. Qed.
Lemma dark_release_pages a n : dark (vma64_release_anon_pages a n).
Proof. unfold vma64_release_anon_pages, release_page, set_page_used, set_page. dark_auto. Qed.
Lemma dark_prepare i b e phys prot map bt bh tk : dark (vma64_region_prepare i b e phys prot map bt bh tk).
Proof. unfold vma64_region_prepare, update_region. dark_auto. Qed.
Lemma dark_insert p i : dark (vma64_insert p i).
Proof. unfold vma64_insert. dark_auto. Qed.
Hint Resolve dark_acquire dark_release dark_claim dark_release_pages dark_prepare dark_insert : dark.
Lemma dark_map_address p hint len map n : dark (map_address p hint len map n).
Proof. unfold map_address, set_map_stage. dark_auto. Qed.
Lemma dark_map_region p va len prot map n : dark (map_region p va len prot map n).
Proof. unfold map_region, set_map_stage. dark_auto. Qed.

(** *** Calls that leave the pages of the pool alone *)

Definition page_at s k : list Z := default zero_page (g_vma64_anon_pages s !! k).

(** The pages, their use counts, and where they are. *)
Definition pview s := (g_vma64_anon_pages s, g_vma64_anon_page_used s, g_paging64_kernel_physical_base (vma_paging s)).
Definition paged s0 s : Prop := pview s = pview s0 /\ g_vma64_initialized s <> 0.

Definition pageless {A} (m : ST (vma_state W) A) : Prop := forall s0, preserves (paged s0) m.

Lemma paged_refl s : g_vma64_initialized s <> 0 -> paged s s.
Proof. by split. Qed.

(** What else is known of a part of a call. *)
Lemma know_wp {A} (m : ST (vma_state W) A) (R : A -> vma_state W -> Prop) s (Q : A -> vma_state W -> Prop) :
  wp m R s -> wp m (fun a s' => R a s' -> Q a s') s -> wp m Q s.
Proof. intros Hr H. apply H, Hr. Qed.
Lemma know_next {A B} (m : ST (vma_state W) A) (k : A -> ST (vma_state W) B) (R : A -> vma_state W -> Prop) s Q :
  wp m R s -> wp m (fun a s' => R a s' -> wp (k a) Q s') s -> wp (bind m k) Q s.
Proof. intros Hr H. apply H, Hr. Qed.

Lemma pageless_next {A B} (m : ST (vma_state W) A) (k : A -> ST (vma_state W) B) s0 s Q :
  pageless m -> paged s0 s -> wp m (fun a s' => paged s0 s' -> wp (k a) Q s') s -> wp (bind m k) Q s.
Proof. intros Hm Hp. apply (know_next m k (fun _ => paged s0)), Hm, Hp. Qed.

Lemma still_know {A B} (m : ST (vma_state W) A) (k : A -> ST (vma_state W) B) (R : A -> vma_state W -> Prop) ls0 s0 ls s X Q :
  still m -> step ls0 s0 ls s X -> wp m R s ->
  (forall a s', core s' = core s -> step ls0 s0 ls s' X -> R a s' -> wp (k a) Q s') -> wp (bind m k) Q s.
Proof.
  intros Hs Hst Hr HQ. apply (know_next m k R s Q Hr), (still_wp _ ls); [done|apply Hst|]. intros a s' Hc HR.
  apply HQ; [done| |done]. eapply step_trans; [exact Hst|]. apply core_step; [apply Hst|done].
Qed.

Lemma pageless_still {A B} (m : ST (vma_state W) A) (k : A -> ST (vma_state W) B) sp ls0 s0 ls s X Q :
  still m -> pageless m -> step ls0 s0 ls s X -> paged sp s ->
  (forall a s', core s' = core s -> step ls0 s0 ls s' X -> paged sp s' -> wp (k a) Q s') -> wp (bind m k) Q s.
Proof. intros Hs Hm Hst Hp. apply (still_know m k (fun _ => paged sp) ls0 s0 ls s X Q Hs Hst), Hm, Hp. Qed.

Lemma pageless_modify f : (forall s, pview (f s) = pview s /\ (g_vma64_initialized s <> 0 -> g_vma64_initialized (f s) <> 0)) -> pageless (modify f).
Proof. intros Hf s0. apply preserves_modify. intros s [E Hi]. destruct (Hf s) as [E' Hi']. split; [congruence|auto]. Qed.
Lemma pageless_ret {A} (a : A) : pageless (ret a).
Proof. intros s0. apply preserves_ret. Qed.
Lemma pageless_gets {A} (f : vma_state W -> A) : pageless (gets f).
Proof. intros s0. apply preserves_gets. Qed.
Lemma pageless_bind {A B} (m : ST (vma_state W) A) (k : A -> ST (vma_state W) B) :
  pageless m -> (forall a, pageless (k a)) -> pageless (bind m k).
Proof. intros Hm Hk s0. apply preserves_bind; [apply Hm|intros a; apply Hk]. Qed.
Lemma pageless_if {A} (b : bool) (m1 m2 : ST (vma_state W) A) : pageless m1 -> pageless m2 -> pageless (if b then m1 else m2).
Proof. by destruct b. Qed.
Lemma pageless_option {A B} (o : option A) (f : A -> ST (vma_state W) B) d :
  (forall a, pageless (f a)) -> pageless d -> pageless (match o with Some a => f a | None => d end).
Proof. destruct o; auto. Qed.
Lemma pageless_tree {A} t (m : RM A) : pageless (on_tree t m).
Proof. intros s0 s Hp. unfold wp, on_tree. by destruct (m _). Qed.
Lemma pageless_processes {A} (m : Process.PM A) : pageless (on_processes m).
Proof. intros s0 s Hp. unfold wp, on_processes. by destruct (m _). Qed.
Lemma pageless_personas {A} (m : BM A) : pageless (on_personas m).
Proof. intros s0 s Hp. unfold wp, on_personas. by destruct (m _). Qed.
Lemma pageless_init : pageless vma64_init.
Proof. intros s0 s [E Hi]. unfold wp, vma64_init, bind, gets. rewrite (proj2 (nz_true _) Hi). by split. Qed.

Create HintDb pageless.
Hint Resolve pageless_ret pageless_gets pageless_tree pageless_processes pageless_personas pageless_init : pageless.

Ltac pageless_step :=
  match goal with
  | |- pageless (bind _ _) => apply pageless_bind; [|intros ?]
  | |- pageless (if _ then _ else _) => apply pageless_if
  | |- pageless (match _ with Some _ => _ | None => _ end) => apply pageless_option; [intros ?|]
  | |- pageless (let '(_, _) := ?x in _) => destruct x
  | |- pageless (modify _) => apply pageless_modify; intros ?; by split
  end.
Ltac pageless_auto := repeat pageless_step; auto with pageless.

Lemma pageless_tree_for p : pageless (vma64_tree_for_process p).
Proof. unfold vma64_tree_for_process. pageless_auto. Qed.
Hint Resolve pageless_tree_for : pageless.
Lemma pageless_init_process p : pageless (vma64_init_process p).
Proof. unfold vma64_init_process, update_tree, set_tree_pid. pageless_auto. Qed.
Lemma pageless_find p a : pageless (vma64_find p a).
Proof. unfold vma64_find. pageless_auto. Qed.
Lemma pageless_acquire : pageless vma64_region_acquire.
Proof. unfold vma64_region_acquire, set_region_used, update_region. pageless_auto. Qed.
Lemma pageless_prepare i b e phys prot map bt bh tk : pageless (vma64_region_prepare i b e phys prot map bt bh tk).
Proof. unfold vma64_region_prepare, update_region. pageless_auto. Qed.
Lemma pageless_insert p i : pageless (vma64_insert p i).
Proof. unfold vma64_insert. pageless_auto. Qed.
Lemma pageless_update_region i f : pageless (update_region i f).
Proof. unfold update_region. pageless_auto. Qed.
Lemma pageless_fork_stage v : pageless (set_fork_stage v).
Proof. unfold set_fork_stage. pageless_auto. Qed.
Hint Resolve pageless_prepare pageless_insert : pageless.
Lemma pageless_place p i b e phys prot map bt bh tk :
  pageless (ready <- vma64_region_prepare i b e phys prot map bt bh tk ;; if ready =? 0 then ret 0 else vma64_insert p i)%kernel.
Proof. pageless_auto. Qed.

Lemma pageless_paging {A} (m : Process.process_state -> ST W A) :
  (forall ps w, g_paging64_kernel_physical_base (snd (m ps w)) = g_paging64_kernel_physical_base w) -> pageless (on_paging m).
Proof.
  intros Hm s0 s [E Hi]. unfold wp, on_paging. specialize (Hm (vma_processes s) (vma_paging s)).
  destruct (m _ _) as [a w]. split; [|done]. unfold pview in *. simpl in *. congruence.
Qed.
Lemma on_paging_ext {A} s s' (m : Process.process_state -> ST W A) :
  vma_processes s' = vma_processes s -> vma_paging s' = vma_paging s ->
  fst (on_paging m s') = fst (on_paging m s) /\ vma_paging (snd (on_paging m s')) = vma_paging (snd (on_paging m s)).
Proof. unfold on_paging. intros -> ->. by destruct (m _ _). Qed.
Lemma pageless_install {laws : VmaPagingLaws W} p va pa prot ks : pageless (install_pages p va pa prot ks).
Proof.
  induction ks as [|k ks IH]; simpl; [apply pageless_ret|]. apply pageless_bind; [|intros ok; apply pageless_if; [apply pageless_ret|done]].
  apply pageless_paging. intros ps w. destruct (private_root p ps w); [apply install_keeps_base|apply install_shared_keeps_base].
Qed.
Lemma pageless_remap {laws : VmaPagingLaws W} p va pa prot : pageless (vma64_paging_remap_user_page p va pa prot).
Proof. apply pageless_paging. intros ps w. destruct (private_root p ps w); [apply remap_keeps_base|apply remap_shared_keeps_base]. Qed.

(** ** The pool and the trees *)

Lemma acquire_step ls s (Q : option nat -> vma_state W -> Prop) :
  vinv ls s -> Q None s ->
  (forall i s', step ls s ls s' [i] -> spare ls s' i -> ~ spare ls s i -> Q (Some i) s') ->
  wp vma64_region_acquire Q s.
Proof.
  intros Hi HN HS. eapply acquire_wp; [done|done|]. intros i s' H1 H2 H3 H4 _ _.
  apply HS; [by apply frame_step|done|done].
Qed.

Lemma release_step ls s i (Q : unit -> vma_state W -> Prop) :
  vinv ls s -> spare ls s i -> (forall s', step ls s ls s' [i] -> Q tt s') -> wp (vma64_region_release i) Q s.
Proof.
  intros Hi (_ & _ & Hout) HQ. eapply region_release_wp; [done|done|]. intros s' H1 H2. apply HQ. by apply frame_step.
Qed.

Lemma prepare_step ls s i base end_ phys prot map btype bh token (Q : Z -> vma_state W -> Prop) :
  vinv ls s -> spare ls s i -> Q 0 s ->
  (forall s', step ls s ls s' [i] -> spare ls s' i -> vma64_range_valid base end_ = true ->
     pool_at s' i = prepared base end_ phys prot map btype bh token -> Q 1 s') ->
  wp (vma64_region_prepare i base end_ phys prot map btype bh token) Q s.
Proof.
  intros Hi Hs H0 H1. eapply prepare_wp; [done|done|done|]. intros s' A1 A2 A3 A4 A5 _.
  apply H1; [by apply frame_step|done..].
Qed.

(** Tree [t] of [p] gained the region [i]. *)
Definition gained ls s ls' s' p i t l1 l2 : Prop :=
  att s p = Some t /\ ls t = l1 ++ l2 /\ ls' = at_tree ls t (l1 ++ i :: l2) /\ step ls s ls' s' [i] /\
  area_of (pool_at s' i) = area_of (pool_at s i) /\
  clear_of ls s t (virt_base (pool_at s i)) (virt_end (pool_at s i)).

Lemma at_tree_app ls s t l1 i l2 j :
  vinv ls s -> ls t = l1 ++ l2 -> spare ls s j -> j <> i -> forall t', (t' < TREES)%nat -> j ∉ at_tree ls t (l1 ++ i :: l2) t'.
Proof.
  intros Hi Hl (_ & _ & Hj) Hne t' Ht'. unfold at_tree. case_decide; [|by apply Hj]. subst t'.
  specialize (Hj t Ht'). rewrite Hl in Hj. set_solver.
Qed.

Lemma insert_step ls s p i (Q : Z -> vma_state W -> Prop) :
  vinv ls s -> spare ls s i -> range_ok (pool_at s i) -> prev (pool_at s i) = None -> next (pool_at s i) = None ->
  (forall s', core s' = core s -> Q 0 s') ->
  (forall s' ls' t l1 l2, gained ls s ls' s' p i t l1 l2 -> Q 1 s') ->
  wp (vma64_insert p i) Q s.
Proof.
  intros Hi Hs Hr Hp Hn H0 H1. destruct (att s p) as [t|] eqn:Ha; cycle 1.
  { apply wp_bind, (tree_for_wp ls); [done|]. rewrite Ha. by apply wp_ret, H0. }
  eapply (insert_wp ls s p t i); try done. intros s' l1 l2 Hl Hv HF Hu Har Hcl.
  apply (H1 s' (at_tree ls t (l1 ++ i :: l2)) t l1 l2). split_and!; try done. split; [done|intros q; by eapply frame_att|done| |intros; apply HF].
  intros j Hj Hsj. assert (Hji : j <> i) by set_solver. destruct (att_owner _ _ _ _ Hi Ha) as (Ht & _ & _).
  pose proof (at_tree_app ls s t l1 i l2 j Hi Hl Hsj Hji) as Hout. destruct Hsj as (S1 & S2 & S3). split.
  - split_and!; [done|by rewrite Hu|done].
  - apply (f_pool _ _ _ HF). specialize (Hout t Ht). by rewrite at_tree_same in Hout.
Qed.

(** Tree [t] of [p] lost the region [i]. *)
Definition lost ls s ls' s' p i t l1 l2 : Prop :=
  att s p = Some t /\ ls t = l1 ++ i :: l2 /\ ls' = at_tree ls t (l1 ++ l2) /\ step ls s ls' s' [] /\ spare ls' s' i.

Lemma remove_step ls s p b e (Q : option nat -> vma_state W -> Prop) :
  vinv ls s ->
  ((vma64_range_valid b e = true -> forall t, att s p = Some t -> forall j, j ∈ ls t -> at_range s b e j = false) -> Q None s) ->
  (forall s' ls' t l1 i l2, lost ls s ls' s' p i t l1 l2 -> at_range s b e i = true -> Q (Some i) s') ->
  wp (vma64_remove p b e) Q s.
Proof.
  intros Hi HN HS. eapply remove_wp; [done|done|]. intros t l1 i l2 s' Ha Hl Hr Hv Hs HF Hu Har.
  apply (HS s' (at_tree ls t (l1 ++ l2)) t l1 i l2); [|done]. split_and!; try done. split; [done|intros q; by eapply frame_att|done| |intros; apply HF].
  intros j _ (S1 & S2 & S3). destruct (att_owner _ _ _ _ Hi Ha) as (Ht & _ & _). split.
  - split_and!; [done|by rewrite Hu|]. intros t' Ht'. unfold at_tree. case_decide; [|by apply S3]. subst t'.
    specialize (S3 t Ht). rewrite Hl in S3. set_solver.
  - apply (f_pool _ _ _ HF). rewrite <- Hl. by apply S3.
Qed.

(** ** What the processes have mapped *)

Definition areas_at s (l : list nat) : list area := (fun i => area_of (pool_at s i)) <$> l.
Definition areas ls s p : list area := from_option (fun t => areas_at s (ls t)) [] (att s p).

Lemma areas_at_app s l1 l2 : areas_at s (l1 ++ l2) = areas_at s l1 ++ areas_at s l2.
Proof. apply fmap_app. Qed.
Lemma areas_at_ext s s' l :
  (forall j, j ∈ l -> area_of (pool_at s' j) = area_of (pool_at s j)) -> areas_at s' l = areas_at s l.
Proof. intros Hs. apply list_fmap_ext. intros k j Hk%list_elem_of_lookup_2. by apply Hs. Qed.

Lemma areas_ext ls s s' q :
  vinv ls s -> att s' q = att s q ->
  (forall t j, (t < TREES)%nat -> j ∈ ls t -> area_of (pool_at s' j) = area_of (pool_at s j)) ->
  areas ls s' q = areas ls s q.
Proof.
  intros Hi Ha Hs. unfold areas. rewrite Ha. destruct (att s q) as [t|] eqn:Hq; [|done].
  destruct (att_owner _ _ _ _ Hi Hq) as (Ht & _). apply areas_at_ext. intros j. by apply (Hs t).
Qed.

Lemma step_areas ls s s' X q :
  vinv ls s -> step ls s ls s' X -> (forall t j, (t < TREES)%nat -> j ∈ ls t -> j ∉ X) -> areas ls s' q = areas ls s q.
Proof. intros Hi Hst HX. apply areas_ext; [done|apply Hst|]. intros t j Ht Hj. apply Hst. by eapply HX. Qed.

(** The tree of a process other than [p] is not [p]'s. *)
Lemma att_other ls s p q t t' : vinv ls s -> att s p = Some t -> att s q = Some t' -> q <> p -> t' <> t.
Proof. intros Hi Hp Hq Hne ->. by apply Hne, (att_inj ls s q p t). Qed.

Lemma gained_areas ls s ls' s' p i t l1 l2 :
  vinv ls s -> spare ls s i -> gained ls s ls' s' p i t l1 l2 ->
  areas ls s p = areas_at s l1 ++ areas_at s l2 /\
  areas ls' s' p = areas_at s l1 ++ area_of (pool_at s i) ::
                   areas_at s l2 /\
  forall q, q <> p -> areas ls' s' q = areas ls s q.
Proof.
  intros Hi (_ & _ & Hout) (Ha & Hl & -> & Hst & Hai & _). unfold areas at 1 2. rewrite (st_att _ _ _ _ _ Hst), Ha.
  destruct (att_owner _ _ _ _ Hi Ha) as (Ht & _). specialize (Hout t Ht) as Hit. rewrite Hl in Hit.
  assert (Hsame : forall l, i ∉ l -> areas_at s' l = areas_at s l).
  { intros l Hil. apply areas_at_ext. intros j Hj. apply Hst. set_solver. }
  split_and!.
  - simpl. by rewrite Hl, areas_at_app.
  - simpl. rewrite at_tree_same, areas_at_app, (Hsame l1) by set_solver. unfold areas_at at 2. simpl. rewrite Hai.
    f_equal. f_equal. apply Hsame. set_solver.
  - intros q Hq. unfold areas. rewrite (st_att _ _ _ _ _ Hst). destruct (att s q) as [t'|] eqn:Hqa; [|done].
    destruct (att_owner _ _ _ _ Hi Hqa) as (Ht' & _).
    simpl. rewrite at_tree_other by (by eapply (att_other ls s p q)). apply Hsame, Hout, Ht'.
Qed.

Lemma lost_areas ls s ls' s' p i t l1 l2 :
  vinv ls s -> lost ls s ls' s' p i t l1 l2 ->
  areas ls s p = areas_at s l1 ++ area_of (pool_at s i) ::
                 areas_at s l2 /\
  areas ls' s' p = areas_at s l1 ++ areas_at s l2 /\
  forall q, q <> p -> areas ls' s' q = areas ls s q.
Proof.
  intros Hi (Ha & Hl & -> & Hst & _). unfold areas at 1 2. rewrite (st_att _ _ _ _ _ Hst), Ha.
  assert (Hsame : forall l, areas_at s' l = areas_at s l).
  { intros l. apply areas_at_ext. intros j _. apply Hst. set_solver. }
  split_and!.
  - simpl. by rewrite Hl, areas_at_app.
  - simpl. by rewrite at_tree_same, areas_at_app, !Hsame.
  - intros q Hq. unfold areas. rewrite (st_att _ _ _ _ _ Hst). destruct (att s q) as [t'|] eqn:Hqa; [|done]. simpl.
    rewrite at_tree_other by (by eapply (att_other ls s p q)). apply Hsame.
Qed.

(** ** Giving a process a tree *)

Lemma space_clear rs : length rs = VMA64_MAX_STATIC_REGIONS -> space (mk_heap vma64_clear_tree rs) [].
Proof.
  intros Hl. split; try done; try set_solver; [|constructor].
  exists E, 0%nat. split_and!; [|done|constructor|done]. split; [by split|constructor].
Qed.

(** [p] has a tree: the one it had, or a fresh empty one. *)
Record opened ls s s' p : Prop := {
  op_inv : vinv ls s';
  op_pool : forall j, pool_at s' j = pool_at s j;
  op_used : g_vma64_region_used s' = g_vma64_region_used s;
  op_other : forall q, q <> p -> att s' q = att s q;
  op_self : att s p = att s' p \/ (att s p = None /\ forall t, att s' p = Some t -> ls t = []);
  op_brk : forall q t, att s q = Some t -> brk_of s' t = brk_of s t }.

Lemma opened_areas ls s s' p q : vinv ls s -> opened ls s s' p -> areas ls s' q = areas ls s q.
Proof.
  intros Hi Ho. destruct (decide (q = p)) as [->|Hne].
  - destruct (op_self _ _ _ _ Ho) as [Ha|[Ha Hn]].
    + apply areas_ext; [done|by symmetry|]. intros. by rewrite (op_pool _ _ _ _ Ho).
    + unfold areas. rewrite Ha. destruct (att s' p) as [t|]; [|done]. simpl. by rewrite Hn.
  - apply areas_ext; [done|by apply Ho|]. intros. by rewrite (op_pool _ _ _ _ Ho).
Qed.

Lemma opened_refl ls s p : vinv ls s -> opened ls s s p.
Proof. intros Hi. split; try done. by left. Qed.

Lemma opened_spare ls s s' p j : opened ls s s' p -> spare ls s j -> spare ls s' j.
Proof. intros Ho. unfold spare. by rewrite (op_used _ _ _ _ Ho). Qed.

Lemma vroot_views s s' q :
  (proc (vma_processes s') q = proc (vma_processes s) q) -> vroot s' q = vroot s q.
Proof. unfold vroot. by intros ->. Qed.

(** A free tree [t], wiped. *)
Lemma vinv_wiped ls s t :
  vinv ls s -> ls t = [] -> (t < TREES)%nat ->
  vinv ls (s <| g_vma64_trees := alter (fun _ => vma64_clear_tree) t (g_vma64_trees s) |>).
Proof.
  intros Hi Hl Ht. split; try apply Hi; simpl.
  - rewrite length_alter. apply Hi.
  - intros t' Ht'. unfold heap_of, tree_at. simpl. rewrite list_lookup_alter. case_decide as E; [|by apply Hi].
    subst t'. assert (is_Some (g_vma64_trees s !! t)) as [x ->] by (apply lookup_lt_is_Some_2; by rewrite (v_trees _ _ Hi)).
    simpl. rewrite Hl. apply space_clear, Hi.
  - intros t'. unfold brk_of, tree_at. simpl. rewrite list_lookup_alter. case_decide; [|apply Hi].
    destruct (g_vma64_trees s !! t); apply brk_ok_clear.
Qed.

(** The processes changed, but not their trees. *)
Lemma vinv_procs ls s ps :
  vinv ls s -> ProcFacts.pinv ps -> (forall q, proc ps q = proc (vma_processes s) q) -> vinv ls (s <| vma_processes := ps |>).
Proof.
  intros Hi Hp Hq. split; try apply Hi; [done|]. intros p Hr. rewrite (vroot_views s) in * by (by apply Hq). by apply Hi.
Qed.

(** [p], without a tree, gets the free tree [t]. *)
Lemma vinv_attached ls s t p r ps :
  vinv ls s -> (t < TREES)%nat -> g_vma64_tree_pids s !! t = Some Process.PROCESS64_INVALID_PID ->
  p <> Process.PROCESS64_INVALID_PID -> ProcFacts.pinv ps -> Process.vma_root r = tree_ptr t ->
  (forall q, proc ps q = ProcFacts.upd (proc (vma_processes s)) p (Some r) q) ->
  vinv ls (s <| vma_processes := ps |> <| g_vma64_tree_pids := <[t := p]> (g_vma64_tree_pids s) |>).
Proof.
  intros Hi Ht Hf Hp Hps Hrt Hq. split; try apply Hi; simpl; try done.
  - rewrite length_insert. apply Hi.
  - intros t' Ht'. destruct (decide (t = t')) as [<-|Hne].
    + rewrite list_lookup_insert_eq in Ht' by (by rewrite (v_pids _ _ Hi)). by injection Ht'.
    + rewrite list_lookup_insert_ne in Ht' by done. by apply Hi.
  - intros q. unfold vroot. simpl. rewrite Hq. unfold ProcFacts.upd. destruct (Z.eqb_spec q p) as [->|Hne].
    + intros _. exists t. simpl. rewrite list_lookup_insert_eq by (by rewrite (v_pids _ _ Hi)). done.
    + intros Hr. destruct (v_owner _ _ Hi q Hr) as (t' & E1 & E2 & E3). exists t'. split_and!; [done|done|].
      rewrite list_lookup_insert_ne; [done|]. intros <-. rewrite Hf in E3. injection E3 as <-.
      unfold vroot in Hr. destruct (proc (vma_processes s) _) as [x|] eqn:Hx; [|done].
      by apply (proc_pid _ _ _ (v_proc _ _ Hi) Hx).
Qed.

Lemma init_process_step ls s p (Q : Z -> vma_state W -> Prop) :
  vinv ls s ->
  (forall s', opened ls s s' p -> att s' p = None -> Q 0 s') ->
  (forall s' t, opened ls s s' p -> att s' p = Some t -> Q 1 s') ->
  wp (vma64_init_process p) Q s.
Proof.
  intros Hi H0 H1. apply wp_bind, (vma_init_wp ls); [done|].
  destruct (Z.eqb_spec p Process.PROCESS64_INVALID_PID) as [Hp|Hp].
  { apply wp_ret, H0; [by apply opened_refl|]. destruct (att s p) eqn:Ha; [|done]. by apply (att_valid _ _ _ _ Hi) in Ha. }
  apply wp_bind, (root_wp ls); [done|]. destruct (nz (vroot s p)) eqn:Hz.
  { apply nz_true in Hz. destruct (v_owner _ _ Hi p Hz) as (t & E1 & E2 & E3). apply wp_ret.
    apply (H1 _ t); [by apply opened_refl|]. unfold att. rewrite E1. by apply tree_index_ptr. }
  apply nz_false in Hz. assert (Ha : att s p = None) by (unfold att; by rewrite Hz).
  apply wp_bind, wp_gets. destruct (find_index _ _) as [t|] eqn:Hf; [|by apply wp_ret, H0; [apply opened_refl|]].
  apply find_index_lookup in Hf as (u & Hu & ->%Z.eqb_eq).
  assert (Ht : (t < TREES)%nat) by (rewrite <- (v_pids _ _ Hi); by eapply lookup_lt_Some).
  pose proof (v_free _ _ Hi t Hu) as Hl. apply wp_bind, wp_modify. set (s1 := s <| g_vma64_trees := _ |>).
  assert (Hi1 : vinv ls s1) by (by apply vinv_wiped).
  assert (Hbrk : forall q t', att s q = Some t' -> brk_of s1 t' = brk_of s t').
  { intros q t' Hq. unfold brk_of, tree_at, s1. simpl. rewrite list_lookup_alter_ne; [done|].
    intros <-. destruct (att_owner _ _ _ _ Hi Hq) as (_ & E & _). apply (att_valid _ _ _ _ Hi Hq). congruence. }
  apply wp_bind, vma_processes_wp. eapply wp_mono; [apply (@ProcFacts.attach_wp launch _ _ ProcFacts.vma_slot _ p (tree_ptr t) (v_proc _ _ Hi1))|].
  intros ok ps (Hps & -> & Hview). unfold ProcFacts.attach_view in *. change (vma_processes s1) with (vma_processes s) in *.
  unfold vroot in Hz. destruct (proc (vma_processes s) p) as [r|] eqn:Hr; simpl in Hz.
  - rewrite Hz in *. rewrite (proj2 (Z.eqb_neq (tree_ptr t) 0)) in * by (unfold tree_ptr; lia). simpl in *.
    apply wp_bind, wp_modify, wp_ret.
    assert (Hp' : forall q, vroot (s1 <| vma_processes := ps |> <| g_vma64_tree_pids := <[t:=p]> (g_vma64_tree_pids s) |>) q =
                   if q =? p then tree_ptr t else vroot s q).
    { intros q. unfold vroot. simpl. rewrite Hview. unfold ProcFacts.upd. by destruct (q =? p). }
    assert (Hself : att (s1 <| vma_processes := ps |> <| g_vma64_tree_pids := <[t:=p]> (g_vma64_tree_pids s) |>) p = Some t).
    { unfold att. rewrite Hp', Z.eqb_refl. by apply tree_index_ptr. }
    apply (H1 _ t); [|done]. split; try done.
    + eapply (vinv_attached ls s1 t p); [done|done|done|done|done| |exact Hview]. done.
    + intros q Hq. unfold att. by rewrite Hp', (proj2 (Z.eqb_neq q p) Hq).
    + right. split; [done|]. intros t' Ht'. by pose proof (eq_trans (eq_sym Hself) Ht') as [= <-].
  - assert (Hav : forall q, att (s1 <| vma_processes := ps |>) q = att s q)
      by (intros q; unfold att; by rewrite (vroot_views s) by (by apply Hview)).
    apply wp_ret, H0; [|by rewrite Hav]. split; try done; [by apply vinv_procs|left; by rewrite Hav].
Qed.

End steps.
End VmaSteps.

(** ** The pages of the pool

    Claiming, copying and giving back single pages, seen by their numbers. *)
Module VmaPages.
Import VmaSteps.
Local Open Scope kernel_scope.

Abbreviation PAGES := VMA64_MAX_ANON_PAGES.

Section pages.
Context {W : Type} {paging : VmaPaging W} {launch : Process.LaunchEnv}.
Implicit Types (s : vma_state W) (i j k n : nat).

(** The pool has all its pages, and they lie in one run of physical memory. *)
Record pool_ok s : Prop := {
  pl_pages : length (g_vma64_anon_pages s) = PAGES;
  pl_used : length (g_vma64_anon_page_used s) = PAGES;
  pl_run : exists d, 0 < d /\ d + Z.of_nat PAGES * VMA64_PAGE_BYTES < 2 ^ 64 /\
    forall k, (k < PAGES)%nat -> anon_physical (vma_paging s) k = d + Z.of_nat k * VMA64_PAGE_BYTES }.

Lemma pview_inj s s' : pview s' = pview s ->
  g_vma64_anon_pages s' = g_vma64_anon_pages s /\ g_vma64_anon_page_used s' = g_vma64_anon_page_used s /\
  g_paging64_kernel_physical_base (vma_paging s') = g_paging64_kernel_physical_base (vma_paging s).
Proof. unfold pview. by intros [= -> -> ->]. Qed.

Lemma physical_base s s' k :
  g_paging64_kernel_physical_base (vma_paging s') = g_paging64_kernel_physical_base (vma_paging s) ->
  anon_physical (vma_paging s') k = anon_physical (vma_paging s) k.
Proof. unfold anon_physical. by intros ->. Qed.

Lemma index_base s s' a :
  g_paging64_kernel_physical_base (vma_paging s') = g_paging64_kernel_physical_base (vma_paging s) ->
  vma64_anon_page_index (vma_paging s') a = vma64_anon_page_index (vma_paging s) a.
Proof. unfold vma64_anon_page_index, anon_physical. by intros ->. Qed.

Lemma pool_ok_like s s' : pool_ok s -> length (g_vma64_anon_pages s') = PAGES -> length (g_vma64_anon_page_used s') = PAGES ->
  g_paging64_kernel_physical_base (vma_paging s') = g_paging64_kernel_physical_base (vma_paging s) -> pool_ok s'.
Proof.
  intros [_ _ (d & H1 & H2 & H3)] Hl Hu Hb. split; [done|done|]. exists d. split_and!; [done|done|]. intros k Hk.
  by rewrite (physical_base s), H3.
Qed.

Lemma pool_ok_view s s' : pview s' = pview s -> pool_ok s -> pool_ok s'.
Proof. intros (E1 & E2 & E3)%pview_inj Hp. pose proof Hp as [P1 P2 _]. apply (pool_ok_like s); congruence. Qed.

Lemma used_view s s' j : pview s' = pview s -> page_used s' j = page_used s j.
Proof. intros (_ & E & _)%pview_inj. unfold page_used. by rewrite E. Qed.
Lemma page_view s s' j : pview s' = pview s -> page_at s' j = page_at s j.
Proof. intros (E & _)%pview_inj. unfold page_at. by rewrite E. Qed.

(** *** Numbers and addresses *)

Lemma find_seq (P : nat -> bool) a n k :
  (a <= k < a + n)%nat -> P k = true -> (forall j, (a <= j < k)%nat -> P j = false) -> List.find P (seq a n) = Some k.
Proof.
  revert a. induction n as [|n IH]; intros a Hk Hp Hn; [lia|]. simpl. destruct (decide (a = k)) as [->|Hne]; [by rewrite Hp|].
  rewrite Hn by lia. apply IH; [lia|done|]. intros j Hj. apply Hn. lia.
Qed.

Lemma find_number s n k : pool_ok s -> (k < n)%nat -> (n <= PAGES)%nat ->
  List.find (fun j => anon_physical (vma_paging s) j =? anon_physical (vma_paging s) k) (seq 0 n) = Some k.
Proof.
  intros [_ _ (d & H1 & H2 & H3)] Hk Hn. apply find_seq; [lia|apply Z.eqb_refl|]. intros j Hj.
  rewrite !H3 by lia. apply Z.eqb_neq. unfold VMA64_PAGE_BYTES. lia.
Qed.

Lemma physical_nonzero s k : pool_ok s -> (k < PAGES)%nat -> anon_physical (vma_paging s) k <> 0.
Proof. intros [_ _ (d & H1 & H2 & H3)] Hk. rewrite H3 by done. unfold VMA64_PAGE_BYTES. lia. Qed.

Lemma index_physical s k : pool_ok s -> (k < PAGES)%nat ->
  vma64_anon_page_index (vma_paging s) (anon_physical (vma_paging s) k) = Some k.
Proof.
  intros Hp Hk. unfold vma64_anon_page_index. rewrite (proj2 (Z.eqb_neq _ 0)) by (by apply physical_nonzero).
  by apply find_number.
Qed.

Lemma index_some s a k : vma64_anon_page_index (vma_paging s) a = Some k -> (k < PAGES)%nat /\ anon_physical (vma_paging s) k = a.
Proof.
  unfold vma64_anon_page_index. destruct (a =? 0); [done|]. intros [Hin Ha%Z.eqb_eq]%List.find_some.
  apply in_seq in Hin. split; [lia|done].
Qed.

Lemma physical_next s k i : pool_ok s -> (k + i < PAGES)%nat ->
  add64 (anon_physical (vma_paging s) k) (page_offset i) = anon_physical (vma_paging s) (k + i).
Proof.
  intros [_ _ (d & H1 & H2 & H3)] Hk. rewrite !H3 by lia. unfold add64, wrap64, page_offset, VMA64_PAGE_BYTES in *.
  rewrite Z.mod_small by lia. lia.
Qed.

(** *** One page changes *)

(** The pages but [j] are as they were. *)
Definition pages_but j s s' : Prop :=
  g_paging64_kernel_physical_base (vma_paging s') = g_paging64_kernel_physical_base (vma_paging s) /\
  (pool_ok s -> pool_ok s') /\ (g_vma64_initialized s <> 0 -> g_vma64_initialized s' <> 0) /\
  forall i, i <> j -> page_used s' i = page_used s i /\ page_at s' i = page_at s i.

Lemma page_stored s j bytes used s' :
  (j < PAGES)%nat -> pool_ok s -> vma_paging s' = vma_paging s -> g_vma64_initialized s' = g_vma64_initialized s ->
  g_vma64_anon_pages s' = from_option (fun b => <[j := b]> (g_vma64_anon_pages s)) (g_vma64_anon_pages s) bytes ->
  g_vma64_anon_page_used s' = from_option (fun u => <[j := u]> (g_vma64_anon_page_used s)) (g_vma64_anon_page_used s) used ->
  pages_but j s s' /\ page_at s' j = default (page_at s j) bytes /\ page_used s' j = default (page_used s j) used.
Proof.
  intros Hj Hp Ew Ei Eb Eu. pose proof Hp as [P1 P2 _]. unfold pages_but. split_and!.
  - by rewrite Ew.
  - intros _. apply (pool_ok_like s); [done|..|by rewrite Ew].
    + rewrite Eb. destruct bytes; simpl; by rewrite ?length_insert.
    + rewrite Eu. destruct used; simpl; by rewrite ?length_insert.
  - by rewrite Ei.
  - intros i Hi. unfold page_used, page_at. rewrite Eb, Eu. destruct bytes, used; simpl; by rewrite ?list_lookup_insert_ne by done.
  - unfold page_at. rewrite Eb. destruct bytes; simpl; [|done]. by rewrite list_lookup_insert_eq by lia.
  - unfold page_used. rewrite Eu. destruct used; simpl; [|done]. by rewrite list_lookup_insert_eq by lia.
Qed.

Lemma copy_page_wp s t f : (t < PAGES)%nat -> pool_ok s ->
  wp (vma64_copy_page t f) (fun _ s' => pages_but t s s' /\ page_at s' t = page_at s f /\ page_used s' t = page_used s t) s.
Proof.
  intros Ht Hp. apply wp_modify. by apply (page_stored s t (Some (page_at s f)) None).
Qed.

Lemma claim_page_wp s k : (k < PAGES)%nat -> pool_ok s ->
  wp (claim_page k) (fun _ s' => pages_but k s s' /\ page_at s' k = zero_page /\ page_used s' k = 1) s.
Proof.
  intros Hk Hp. apply wp_bind, wp_modify, wp_modify. by apply (page_stored s k (Some zero_page) (Some 1)).
Qed.

(** What is left of a page after one of its users gave it back. *)
Definition given_back s s' j : Prop :=
  let left := if nz (page_used s j) then dec32 (page_used s j) else 0 in
  pages_but j s s' /\ page_used s' j = left /\ page_at s' j = if left =? 0 then zero_page else page_at s j.

Lemma release_page_wp s j : (j < PAGES)%nat -> pool_ok s -> wp (release_page j) (fun _ s' => given_back s s' j) s.
Proof.
  intros Hj Hp. unfold release_page, given_back. apply wp_bind, wp_gets.
  set (left := if nz (page_used s j) then dec32 (page_used s j) else 0).
  assert (Hfin : forall s1, pages_but j s s1 -> page_used s1 j = left -> page_at s1 j = page_at s j ->
    wp (used' <- gets (fun s => page_used s j) ;; if used' =? 0 then set_page j zero_page else ret tt)
      (fun _ s' => pages_but j s s' /\ page_used s' j = left /\ page_at s' j = if left =? 0 then zero_page else page_at s j) s1).
  { intros s1 (B1 & B2 & B3 & B4) Hu Hb. apply wp_bind, wp_gets. rewrite Hu. destruct (left =? 0).
    - apply wp_modify. destruct (page_stored s1 j (Some zero_page) None (s1 <| g_vma64_anon_pages := <[j := zero_page]> (g_vma64_anon_pages s1) |>))
        as ((C1 & C2 & C3 & C4) & C5 & C6); [done|by apply B2|done..|].
      split; [|split; [exact (eq_trans C6 Hu)|exact C5]].
      unfold pages_but. split_and!; [congruence|auto|auto|]. intros i Hi. destruct (B4 i Hi), (C4 i Hi). split; congruence.
    - apply wp_ret. done. }
  destruct (nz (page_used s j)) eqn:Hz.
  - apply wp_bind, wp_bind, wp_modify, wp_modify. set (s0 := s <| g_vma64_anon_page_used := _ |>).
    set (s1 := if nz (g_vma64_anon_claimed_pages s0) then _ else s0).
    destruct (page_stored s j None (Some (dec32 (page_used s j))) s1) as (C1 & C2 & C3);
      [done|done|unfold s1; by destruct (nz (g_vma64_anon_claimed_pages s0))..|]. by apply Hfin.
  - apply wp_bind, wp_ret. apply nz_false in Hz. apply Hfin; [by split_and!|by rewrite Hz|done].
Qed.

Lemma release_one_wp s j : (j < PAGES)%nat -> pool_ok s ->
  wp (vma64_release_anon_pages (anon_physical (vma_paging s) j) 1) (fun _ s' => given_back s s' j) s.
Proof.
  intros Hj Hp. unfold vma64_release_anon_pages. rewrite (proj2 (Z.eqb_neq _ 0)) by (by apply physical_nonzero).
  change ((1 =? 0) || (Z.of_nat PAGES <? 1)) with false. cbn [orb]. apply wp_bind, wp_gets.
  change (S (PAGES - Z.to_nat 1)) with PAGES. rewrite find_number by done. apply wp_bind.
  replace (j + 0)%nat with j by lia. eapply wp_mono; [by apply release_page_wp|]. intros [] s' H. by apply wp_ret.
Qed.

(** *** Runs of pages *)

Definition inside k n j : Prop := (k <= j < k + n)%nat.

(** The free pages [k], ..., [k + n - 1] have been claimed; no other page
    changed. *)
Record drawn s s' k n : Prop := {
  dw_pool : pool_ok s';
  dw_base : g_paging64_kernel_physical_base (vma_paging s') = g_paging64_kernel_physical_base (vma_paging s);
  dw_in : (k + n <= PAGES)%nat;
  dw_free : forall j, inside k n j -> page_used s j = 0;
  dw_used : forall j, inside k n j -> page_used s' j = 1;
  dw_out : forall j, ~ inside k n j -> page_used s' j = page_used s j /\ page_at s' j = page_at s j }.

Lemma drawn_view s0 s s' k n : pview s' = pview s -> drawn s0 s k n -> drawn s0 s' k n.
Proof.
  intros E [D1 D2 D3 D4 D5 D6]. split; try done.
  - by apply (pool_ok_view s).
  - apply pview_inj in E as (_ & _ & ->). done.
  - intros j Hj. rewrite (used_view s) by done. by apply D5.
  - intros j Hj. rewrite (used_view s), (page_view s) by done. by apply D6.
Qed.

(** From a state with the same pages. *)
Lemma drawn_from s0 s0' s k n : pview s0' = pview s0 -> drawn s0' s k n -> drawn s0 s k n.
Proof.
  intros E [D1 D2 D3 D4 D5 D6]. split; try done.
  - rewrite D2. by apply pview_inj in E as (_ & _ & ->).
  - intros j Hj. rewrite <- (used_view s0 s0') by done. by apply D4.
  - intros j Hj. rewrite <- (used_view s0 s0'), <- (page_view s0 s0') by done. by apply D6.
Qed.

Lemma drawn_more s0 s s' k n : drawn s0 s k n -> (k + S n <= PAGES)%nat -> page_used s0 (k + n) = 0 ->
  pages_but (k + n) s s' -> page_used s' (k + n) = 1 -> drawn s0 s' k (S n).
Proof.
  intros [D1 D2 D3 D4 D5 D6] Hin Hf (B1 & B2 & B3 & B4) Hu. split; [by apply B2|congruence|done|..]; unfold inside in *.
  - intros j Hj. destruct (decide (j = (k + n)%nat)) as [->|]; [done|]. apply D4. lia.
  - intros j Hj. destruct (decide (j = (k + n)%nat)) as [->|Hne]; [done|]. destruct (B4 j Hne) as [-> _]. apply D5. lia.
  - intros j Hj. destruct (B4 j ltac:(lia)) as [-> ->]. apply D6. lia.
Qed.

(** A claim that succeeds answers the address of a run that was free. *)
Lemma claim_wp s c : pool_ok s -> g_vma64_initialized s <> 0 ->
  wp (vma64_claim_anon_pages c) (fun phys s' => phys <> 0 ->
    exists k, phys = anon_physical (vma_paging s) k /\ drawn s s' k (Z.to_nat c) /\ c <> 0) s.
Proof.
  intros Hp Hi. unfold vma64_claim_anon_pages. apply wp_bind. unfold vma64_init. apply wp_bind, wp_gets.
  rewrite (proj2 (nz_true _) Hi). apply wp_ret. destruct (_ || _) eqn:Hg; [by apply wp_ret|].
  apply orb_false_iff in Hg as [Hz%Z.eqb_neq Hc%Z.ltb_ge]. apply wp_bind, wp_gets.
  destruct (claim_index _ _) as [k|] eqn:Hk; [|by apply wp_ret].
  apply List.find_some in Hk as [Hin Hfree]. apply in_seq in Hin. set (n := Z.to_nat c) in *.
  assert (Hkn : (k + n <= PAGES)%nat) by (unfold n in *; lia).
  assert (Hf : forall i, (i < n)%nat -> page_used s (k + i) = 0).
  { intros i Hlt. rewrite forallb_forall in Hfree. unfold page_used.
    destruct (g_vma64_anon_page_used s !! (k + i)%nat) as [u|] eqn:Hu; [|done]. simpl. apply Z.eqb_eq, Hfree, list_elem_of_In.
    apply list_elem_of_lookup_2 with i. rewrite lookup_take_lt by done. by rewrite lookup_drop. }
  apply wp_bind. eapply wp_mono; [apply (wp_for_range n _ (fun m s1 => drawn s s1 k m))|].
  - split; [done|done|lia|by unfold inside; intros; lia..|done].
  - intros m s1 Hm D. eapply wp_mono; [apply claim_page_wp; [lia|apply D]|]. intros [] s2 (B & _ & Hu).
    eapply drawn_more; [done|lia|by apply Hf|done|done].
  - intros [] s1 D. apply wp_bind, wp_modify, wp_gets. intros _. exists k.
    split; [apply physical_base, D|]. split; [by apply (drawn_view s s1)|done].
Qed.

(** The pages [ks] of a run hold what the pages of the run at [from] hold. *)
Definition copied_run s s' from k n (ks : list nat) : Prop := forall i, i ∈ ks -> exists src,
  vma64_anon_page_index (vma_paging s) (add64 from (page_offset i)) = Some src /\
  (~ inside k n src -> page_at s' (k + i) = page_at s src).

Lemma copy_run_wp s0 from k n : pool_ok s0 -> forall ks old s,
  drawn s0 s k n -> (forall i, i ∈ ks -> (i < n)%nat) -> NoDup (old ++ ks) -> copied_run s0 s from k n old ->
  wp (copy_pages from (anon_physical (vma_paging s0) k) ks) (fun v s' => drawn s0 s' k n /\ (v <> 0 -> copied_run s0 s' from k n (old ++ ks))) s.
Proof.
  intros Hp0. induction ks as [|x ks IH]; intros old s D Hks Hnd C; cbn [copy_pages]; [by apply wp_ret; rewrite app_nil_r|].
  assert (Hx : (x < n)%nat) by (apply Hks; set_solver). pose proof (dw_in _ _ _ _ D) as Hin.
  apply wp_bind, wp_gets, wp_bind, wp_gets. unfold vma64_anon_page_ptr. rewrite !(index_base s0 s) by apply D.
  rewrite physical_next, index_physical by (done || lia).
  destruct (vma64_anon_page_index (vma_paging s0) (add64 from (page_offset x))) as [f|] eqn:Hf; [|by apply wp_ret; split].
  apply wp_bind. eapply wp_mono; [apply copy_page_wp; [lia|apply D]|]. intros [] s1 ((B1 & B2 & B3 & B4) & Hb & Hu).
  assert (D1 : drawn s0 s1 k n).
  { destruct D as [D1 D2 D3 D4 D5 D6]. split; [by apply B2|congruence|done|done|..]; intros j Hj.
    - destruct (decide (j = (k + x)%nat)) as [->|Hne]; [rewrite Hu; by apply D5|]. destruct (B4 j Hne) as [-> _]. by apply D5.
    - destruct (B4 j) as [-> ->]; [unfold inside in Hj; lia|by apply D6]. }
  replace (old ++ x :: ks) with ((old ++ [x]) ++ ks) in * by (by rewrite <- app_assoc).
  apply IH; [done|intros i Hi; apply Hks; set_solver|done|].
  intros i [Hi|Hi%list_elem_of_singleton]%elem_of_app.
  - destruct (C i Hi) as (src & H1 & H2). exists src. split; [done|]. intros Ho. rewrite <- H2 by done.
    apply (proj2 (B4 (k + i)%nat ltac:(intros E; assert (i = x) as -> by lia;
      apply NoDup_app in Hnd as ([_ [Hd _]]%NoDup_app & _); by apply (Hd x Hi); left))).
  - subst i. exists f. split; [done|]. intros Ho. rewrite Hb. by apply D.
Qed.

End pages.
End VmaPages.
