(* ===== verification/VmaCalls.v ===== *)
(** * Mapping and unmapping

    [vma64_map_anon] and [vma64_unmap] as changes of the list of areas of one
    process; a failed call leaves every process with the areas it had. *)

From S2P Require Import Prelude Process ProcessFacts PersonaBudget VmaTree RbTree VmaRb VmaSpace VmaSpaceOps VmaGap Vma VmaFacts VmaOps VmaSteps.
Import PersonaBudget VmaTree VmaSpace VmaSpaceOps VmaGap Vma VmaFacts VmaOps VmaSteps.
Local Open Scope Z_scope.
Local Open Scope kernel_scope.

Module VmaCalls.

Section calls.
Context {W : Type} {paging : VmaPaging W} {launch : Process.LaunchEnv}.
Implicit Types (s : vma_state W) (t i j : nat) (p q : Z) (ls : nat -> list nat) (X : list nat).

(** ** Undoing an insertion *)

Lemma vinv_ext ls ls' s : (forall t, ls' t = ls t) -> vinv ls s -> vinv ls' s.
Proof.
  intros He Hi. split; try apply Hi.
  - intros t Ht. rewrite He. by apply Hi.
  - intros t1 t2 i. rewrite !He. apply Hi.
  - intros t i. rewrite He. apply Hi.
  - intros t. rewrite He. apply Hi.
Qed.

Lemma spare_ext ls ls' s j : (forall t, ls' t = ls t) -> spare ls s j -> spare ls' s j.
Proof. intros He (H1 & H2 & H3). split_and!; [done|done|]. intros t Ht. rewrite He. auto. Qed.

Lemma step_ext ls ls1 ls2 s s' X : (forall t, ls2 t = ls1 t) -> step ls s ls1 s' X -> step ls s ls2 s' X.
Proof.
  intros He [A1 A2 A3 A4 A5]. split; try done; [by eapply vinv_ext|]. intros j Hj Hs.
  destruct (A4 j Hj Hs). split; [by eapply spare_ext|done].
Qed.

(** Two areas of a process never share an address. *)
Lemma area_unique ls s t i j a :
  vinv ls s -> (t < TREES)%nat -> i ∈ ls t -> j ∈ ls t ->
  virt_base (pool_at s i) <= a < virt_end (pool_at s i) -> virt_base (pool_at s j) <= a < virt_end (pool_at s j) -> i = j.
Proof.
  intros Hi Ht Hil Hjl Ha Hb. pose proof (v_space _ _ Hi t Ht) as Hs.
  apply list_elem_of_split in Hil as (l1 & l2 & Hl). rewrite Hl in *.
  pose proof (sp_order _ _ Hs) as Ho. apply order_app in Ho as (_ & O2 & O3). apply order_cons in O2 as [_ O4].
  apply elem_of_app in Hjl as [Hj|[->|Hj]%elem_of_cons]; [|done|].
  - specialize (O3 j i Hj ltac:(set_solver)). unfold below in O3. rewrite !region_heap in O3. lia.
  - specialize (O4 j Hj). unfold below in O4. rewrite !region_heap in O4. lia.
Qed.

Lemma listed_range ls s t i : vinv ls s -> (t < TREES)%nat -> i ∈ ls t -> range_ok (pool_at s i).
Proof. intros Hi Ht Hil. rewrite <- (region_heap s t). by apply (sp_range _ _ (v_space _ _ Hi t Ht)). Qed.

Lemma base_unique ls s t i j :
  vinv ls s -> (t < TREES)%nat -> i ∈ ls t -> j ∈ ls t -> virt_base (pool_at s i) = virt_base (pool_at s j) -> i = j.
Proof.
  intros Hi Ht Hil Hjl Hb. pose proof (range_pos _ (listed_range _ _ _ _ Hi Ht Hil)).
  pose proof (range_pos _ (listed_range _ _ _ _ Hi Ht Hjl)).
  apply (area_unique ls s t i j (virt_base (pool_at s i))); try done; lia.
Qed.

Lemma lookup_base ls s p t i a :
  vinv ls s -> att s p = Some t -> i ∈ ls t -> virt_base (pool_at s i) <= a < virt_end (pool_at s i) -> lookup ls s p a = Some i.
Proof.
  intros Hi Ha Hil Hb. destruct (att_owner _ _ _ _ Hi Ha) as (Ht & _).
  destruct (lookup ls s p a) as [j|] eqn:Hl.
  - apply lookup_in in Hl as (t' & Ha' & Hj & Hr). f_equal. apply (area_unique ls s t j i a); try done. congruence.
  - unfold lookup in Hl. rewrite Ha in Hl. apply list_elem_of_In in Hil.
    pose proof (find_none _ _ Hl i Hil) as Hc. unfold contains in Hc. rewrite region_heap in Hc.
    apply andb_false_iff in Hc as [Hc%Z.leb_gt|Hc%Z.ltb_ge]; lia.
Qed.

Lemma at_range_base s b e j : at_range s b e j = true -> virt_base (pool_at s j) = b /\ virt_end (pool_at s j) = e.
Proof. unfold at_range. intros H. boolify. lia. Qed.

Lemma list_split_unique (l1 l2 l1' l2' : list nat) i :
  NoDup (l1 ++ i :: l2) -> l1 ++ i :: l2 = l1' ++ i :: l2' -> l1 = l1' /\ l2 = l2'.
Proof.
  revert l1'. induction l1 as [|x l1 IH]; intros [|y l1'] Hnd E1; simpl in *;
    apply NoDup_cons in Hnd as [Hn Hnd] || idtac; try (injection E1 as ? E2); subst.
  - split; congruence.
  - set_solver.
  - set_solver.
  - by destruct (IH l1' Hnd E2) as [-> ->].
Qed.

Lemma area_range s s' j : area_of (pool_at s' j) = area_of (pool_at s j) ->
  virt_base (pool_at s' j) = virt_base (pool_at s j) /\ virt_end (pool_at s' j) = virt_end (pool_at s j).
Proof. by intros [= -> ->]. Qed.

(** A listed region is removed by its range. *)
Lemma remove_known ls s p t i b e (Q : option nat -> vma_state W -> Prop) :
  vinv ls s -> att s p = Some t -> i ∈ ls t -> virt_base (pool_at s i) = b -> virt_end (pool_at s i) = e ->
  (forall s' ls' l1 l2, lost ls s ls' s' p i t l1 l2 -> Q (Some i) s') -> wp (vma64_remove p b e) Q s.
Proof.
  intros Hi Ha Hil <- <- HQ. destruct (att_owner _ _ _ _ Hi Ha) as (Ht & _).
  pose proof (listed_range _ _ _ _ Hi Ht Hil) as [Hv _]. eapply remove_step; [done|..].
  - intros Hno. specialize (Hno Hv t Ha i Hil). unfold at_range in Hno. by rewrite !Z.eqb_refl in Hno.
  - intros s' ls' t' l1 i' l2 Hlost [Hb _]%at_range_base.
    assert (t' = t /\ i' = i) as [-> ->]; [|by eapply HQ]. destruct Hlost as (Ha' & Hl' & _).
    assert (t' = t) as -> by congruence. split; [done|]. apply (base_unique ls s t); try done. rewrite Hl'. set_solver.
Qed.

(** The region just inserted is removed by its range. *)
Lemma undo_wp ls s ls1 s1 p i t l1 l2 (Q : option nat -> vma_state W -> Prop) :
  vinv ls s -> spare ls s i -> range_ok (pool_at s i) -> gained ls s ls1 s1 p i t l1 l2 ->
  (forall s', step ls s ls s' [i] -> spare ls s' i -> Q (Some i) s') ->
  wp (vma64_remove p (virt_base (pool_at s i)) (virt_end (pool_at s i))) Q s1.
Proof.
  intros Hi Hsp Hr (Ha & Hl & -> & Hst & Har & _) HQ. destruct (att_owner _ _ _ _ Hi Ha) as (Ht & _).
  apply area_range in Har as [E1 E2]. pose proof (st_inv _ _ _ _ _ Hst) as Hi1.
  eapply (remove_known _ s1 p t i); [done|by rewrite (st_att _ _ _ _ _ Hst)|rewrite at_tree_same; set_solver|done|done|].
  intros s' ls' l1' l2' (_ & Hl' & -> & Hst' & Hsp').
  rewrite at_tree_same in Hl'. apply list_split_unique in Hl' as [<- <-]; cycle 1.
  { pose proof (space_nodup (v_space _ _ Hi1 t Ht)) as Hnd. by rewrite at_tree_same in Hnd. }
  assert (He : forall t', ls t' = at_tree (at_tree ls t (l1 ++ i :: l2)) t (l1 ++ l2) t').
  { intros t'. unfold at_tree. case_decide; [by subst|done]. }
  apply HQ.
  - eapply step_trans; [exact Hst|]. eapply step_mono; [|eapply step_ext; [exact He|exact Hst']]. set_solver.
  - eapply spare_ext; [exact He|done].
Qed.

(** ** Mapping *)

Lemma find_gap_wp ls s p lo hi len (Q : Z -> vma_state W -> Prop) :
  vinv ls s ->
  Q (match att s p with None => 0 | Some t => find_gap (heap_of s t) lo hi len VMA64_PAGE_BYTES end) s ->
  wp (vma64_find_gap p lo hi len VMA64_PAGE_BYTES) Q s.
Proof.
  intros Hi HQ. apply wp_bind, (tree_for_wp ls); [done|]. destruct (att s p); [by apply wp_gets|by apply wp_ret].
Qed.

(** Where [map_address] puts a region of [len] bytes. *)
Definition placed ls s p hint len map va : Prop :=
  if nz (Z.land map VMA64_MAP_FIXED) then va = hint
  else let lo := if negb (hint =? 0) then hint else VMA64_ANON_HINT_BASE in
    exists t, att s p = Some t /\ gap_ok (heap_of s t) (ls t) lo VMA64_ANON_HINT_LIMIT len va /\
      forall g, gap_ok (heap_of s t) (ls t) lo VMA64_ANON_HINT_LIMIT len g -> va <= g.

Lemma map_address_wp ls s p hint len map n (Q : option Z -> vma_state W -> Prop) :
  vinv ls s -> 0 <= hint < 2 ^ 64 -> 0 < len < 2 ^ 64 ->
  (forall s', core s' = core s -> Q None s') ->
  (forall va s', core s' = core s -> placed ls s p hint len map va -> 0 <= va < 2 ^ 64 ->
     (va = 0 -> hint = 0 /\ nz (Z.land map VMA64_MAP_FIXED) = true) -> Q (Some va) s') ->
  wp (map_address p hint len map n) Q s.
Proof.
  intros Hi Hh Hlen HN HS. unfold map_address, placed in *. destruct (nz (Z.land map VMA64_MAP_FIXED)) eqn:Hfix.
  - destruct (nz (Z.land hint _)); [by apply wp_ret, HN|]. apply wp_bind, (find_gap_wp ls); [done|].
    destruct (negb (_ =? hint)); [by apply wp_ret, HN|].
    apply wp_bind, wp_gets, wp_ret. destruct (vma64_user_pages_clear _ _ _ _); [|by apply HN]. by apply HS.
  - apply wp_bind, wp_modify, wp_bind. set (lo := if negb (hint =? 0) then hint else VMA64_ANON_HINT_BASE) in *.
    assert (Hlo : 0 < lo < 2 ^ 64) by (unfold lo; destruct (Z.eqb_spec hint 0); cbn [negb]; unfold VMA64_ANON_HINT_BASE; lia).
    set (s1 := s <| g_vma64_last_map_stage := 3 |>).
    assert (Hi1 : vinv ls s1) by (by eapply vinv_core; [|exact Hi]). eapply (find_gap_wp ls); [done|].
    change (att s1 p) with (att s p). destruct (att s p) as [t|] eqn:Ha; [|by apply wp_ret, HN].
    change (heap_of s1 t) with (heap_of s t). destruct (att_owner _ _ _ _ Hi Ha) as (Ht & _).
    destruct (find_gap_space _ _ lo VMA64_ANON_HINT_LIMIT len (v_space _ _ Hi t Ht)) as [G1 G2];
      [lia|lia|unfold VMA64_ANON_HINT_LIMIT; lia|lia|].
    set (g := find_gap _ _ _ _ _) in *. destruct (Z.eqb_spec g 0); [by apply wp_ret, HN|].
    apply wp_bind, wp_gets, wp_ret. destruct (vma64_user_pages_clear _ _ _ _); [|by apply HN].
    specialize (G1 n0). apply HS; [done| | |done].
    + exists t. split_and!; [done|done|]. intros g' Hg'. by apply G2.
    + destruct G1 as (L1 & _ & L2 & _). unfold VMA64_ANON_HINT_LIMIT in L2. lia.
Qed.

(** Nothing that is mapped changed. *)
Definition unmoved ls s s' : Prop :=
  exists X, step ls s ls s' X /\ forall t j, (t < TREES)%nat -> j ∈ ls t -> j ∉ X.

Lemma unmoved_areas ls s s' q : vinv ls s -> unmoved ls s s' -> areas ls s' q = areas ls s q.
Proof. intros Hi (X & Hst & HX). by eapply step_areas. Qed.
Lemma unmoved_core ls s s' : vinv ls s -> core s' = core s -> unmoved ls s s'.
Proof. intros Hi Hc. exists []. split; [by apply core_step|]. set_solver. Qed.
Lemma unmoved_spare ls s s' i : step ls s ls s' [i] -> spare ls s' i -> unmoved ls s s'.
Proof. intros Hst (_ & _ & Hout). exists [i]. split; [done|]. intros t j Ht Hj. specialize (Hout t Ht). set_solver. Qed.
Lemma unmoved_drop ls s s' s'' i : step ls s ls s' [i] -> spare ls s' i -> step ls s' ls s'' [i] -> unmoved ls s s''.
Proof.
  intros A1 (_ & _ & Hout) A2. exists [i]. split; [by eapply step_trans|].
  intros t j Ht Hj. specialize (Hout t Ht). set_solver.
Qed.
Lemma unmoved_trans ls s1 s2 s3 : unmoved ls s1 s2 -> unmoved ls s2 s3 -> unmoved ls s1 s3.
Proof.
  intros (X & A1 & A2) (Y & B1 & B2). exists (X ++ Y). split.
  - eapply step_trans; [eapply step_mono; [|exact A1]|eapply step_mono; [|exact B1]]; set_solver.
  - intros t j Ht Hj. rewrite elem_of_app. intros [H|H]; [by eapply A2|by eapply B2].
Qed.

Lemma step_core ls s ls' s1 s2 X : core s2 = core s1 -> step ls s ls' s1 X -> step ls s ls' s2 X.
Proof. intros Hc Hst. eapply step_trans; [exact Hst|]. apply core_step; [apply Hst|done]. Qed.
Lemma gained_core ls s ls' s1 s2 p i t l1 l2 :
  core s2 = core s1 -> gained ls s ls' s1 p i t l1 l2 -> gained ls s ls' s2 p i t l1 l2.
Proof.
  intros Hc (H1 & H2 & H3 & H4 & H5 & H6). split_and!; try done; [by eapply step_core|by rewrite (pool_core s1 s2)].
Qed.

Lemma prepared_range b e phys prot map btype bh token :
  vma64_range_valid b e = true -> 0 <= b -> e < 2 ^ 64 -> range_ok (prepared b e phys prot map btype bh token).
Proof. intros. by split_and!. Qed.

(** A spare region is prepared and inserted. *)
Lemma place_wp ls s p i b e phys prot map btype bh token (Q : Z -> vma_state W -> Prop) :
  vinv ls s -> spare ls s i -> 0 <= b -> e < 2 ^ 64 ->
  (forall s', step ls s ls s' [i] -> spare ls s' i -> Q 0 s') ->
  (forall s1 s' ls' t l1 l2, step ls s ls s1 [i] -> spare ls s1 i ->
     vma64_range_valid b e = true -> pool_at s1 i = prepared b e phys prot map btype bh token ->
     gained ls s1 ls' s' p i t l1 l2 -> Q 1 s') ->
  wp (ready <- vma64_region_prepare i b e phys prot map btype bh token ;;
      if ready =? 0 then ret 0 else vma64_insert p i)%kernel Q s.
Proof.
  intros Hi Hs Hb He H0 H1. apply wp_bind, (prepare_step ls); [done|done|by apply wp_ret, H0; [apply step_refl|]|].
  intros s1 Hst1 Hs1 Hv Hp. change (1 =? 0) with false. cbn [negb].
  apply (insert_step ls s1); [apply Hst1|done|rewrite Hp; by apply prepared_range|by rewrite Hp|by rewrite Hp|..].
  - intros s' Hc. apply H0; [by eapply step_core|by eapply spare_core].
  - intros s' ls' t l1 l2 Hg. by eapply H1.
Qed.

Definition anon_region va len phys prot map : vma_region_t :=
  prepared va (add64 va len) phys prot map VMA64_BACKING_ANON VMA64_BACKING_HANDLE_NONE 0xA3000001.

Lemma add64_lt a b : add64 a b < 2 ^ 64.
Proof. unfold add64, wrap64. apply Z.mod_pos_bound. lia. Qed.
Lemma add64_nonneg a b : 0 <= add64 a b.
Proof. unfold add64, wrap64. apply Z.mod_pos_bound. lia. Qed.

(** The state in which a new region [r] at index [i] was about to go into
    the list of [p], and the one in which it is there. *)
Definition inserted ls s s' p i r t l1 l2 ls' s1 : Prop :=
  step ls s ls s1 [i] /\ spare ls s1 i /\ range_ok (pool_at s1 i) /\ pool_at s1 i = r /\
  gained ls s1 ls' s' p i t l1 l2.

Lemma map_region_wp ls s p va len prot map n (Q : option (nat * Z) -> vma_state W -> Prop) :
  vinv ls s -> 0 <= va ->
  (forall s', unmoved ls s s' -> Q None s') ->
  (forall i phys s1 s' ls' t l1 l2, phys <> 0 ->
     inserted ls s s' p i (anon_region va len phys prot map) t l1 l2 ls' s1 -> Q (Some (i, phys)) s') ->
  wp (map_region p va len prot map n) Q s.
Proof.
  intros Hi Hva HN HS. unfold map_region.
  eapply (still_next _ _ ls s); [apply still_map_stage|apply (step_refl ls s [] Hi)|]. intros _ s0 Hc0 Hst0.
  apply wp_bind, (acquire_step ls); [apply Hst0|by apply wp_ret, HN, unmoved_core|]. intros i s1 Hst1 Hsp1 _.
  assert (Hst : step ls s ls s1 [i]) by (eapply step_trans; [eapply step_mono, Hst0; set_solver|exact Hst1]).
  eapply (still_next _ _ ls s); [apply still_map_stage|exact Hst|]. intros _ s2 Hc2 Hst2.
  pose proof (spare_core _ _ _ _ Hc2 Hsp1) as Hsp2.
  eapply (still_next _ _ ls s); [apply still_claim|exact Hst2|]. intros phys s3 Hc3 Hst3.
  pose proof (spare_core _ _ _ _ Hc3 Hsp2) as Hsp3.
  destruct (Z.eqb_spec phys 0) as [->|Hphys].
  { apply wp_bind, (release_step ls); [apply Hst3|done|]. intros s4 Hst4. apply wp_ret, HN. by eapply unmoved_drop. }
  eapply (still_next _ _ ls s); [apply still_map_stage|exact Hst3|]. intros _ s4 Hc4 Hst4.
  pose proof (spare_core _ _ _ _ Hc4 Hsp3) as Hsp4. apply wp_assoc.
  apply (place_wp ls s4); [apply Hst4|done|done|apply add64_lt|..].
  - intros s5 Hst5 Hsp5. assert (Hst5' : step ls s ls s5 [i]) by (by eapply step_trans).
    eapply (still_next _ _ ls s); [apply still_release|exact Hst5'|]. intros _ s6 Hc6 Hst6.
    apply wp_bind, (release_step ls); [apply Hst6|by eapply spare_core|]. intros s7 Hst7. apply wp_ret, HN.
    eapply unmoved_drop; [exact Hst6|by eapply spare_core|done].
  - intros s5 s6 ls' t l1 l2 Hst5 Hsp5 Hv Hp Hg. apply wp_ret. eapply (HS i phys s5 s6 ls' t l1 l2); [done|].
    split_and!; [by eapply step_trans|done| |done|done]. rewrite Hp. apply prepared_range; [done|done|apply add64_lt].
Qed.

(** ** The whole call *)

(** A process keeps its tree, and with it the program break. *)
Definition tied s s' : Prop := forall q t, att s q = Some t -> att s' q = Some t /\ brk_of s' t = brk_of s t.

Lemma tied_refl s : tied s s.
Proof. done. Qed.
Lemma tied_trans s1 s2 s3 : tied s1 s2 -> tied s2 s3 -> tied s1 s3.
Proof. intros H1 H2 q t Ha. destruct (H1 q t Ha) as [E1 E2], (H2 q t E1) as [E3 E4]. split; congruence. Qed.
Lemma tied_step ls s ls' s' X : step ls s ls' s' X -> tied s s'.
Proof. intros Hst q t Ha. split; [by rewrite (st_att _ _ _ _ _ Hst)|by apply (st_brk _ _ _ _ _ Hst q)]. Qed.
Lemma tied_unmoved ls s s' : unmoved ls s s' -> tied s s'.
Proof. intros (X & Hst & _). by eapply tied_step. Qed.
Lemma tied_core ls s s' : vinv ls s -> core s' = core s -> tied s s'.
Proof. intros Hi Hc. eapply (tied_step ls s ls s' []). by apply core_step. Qed.
Lemma tied_opened ls s s' p : vinv ls s -> opened ls s s' p -> tied s s'.
Proof.
  intros Hi Ho q t Ha. split; [|by apply (op_brk _ _ _ _ Ho q)]. destruct (decide (q = p)) as [->|Hne].
  - destruct (op_self _ _ _ _ Ho) as [<-|[Hn _]]; [done|congruence].
  - by rewrite (op_other _ _ _ _ Ho).
Qed.

(** A page-aligned place for [len] bytes in [lo, hi) clear of every area. *)
Definition area_gap (l : list area) lo hi len g : Prop :=
  lo <= g /\ g mod 4096 = 0 /\ g + len <= hi /\ forall a, a ∈ l -> g + len <= a_base a \/ a_end a <= g.

Lemma gap_areas s l t lo hi len g : gap_ok (heap_of s t) l lo hi len g <-> area_gap (areas_at s l) lo hi len g.
Proof.
  unfold gap_ok, area_gap, free_at, areas_at. split; intros (H1 & H2 & H3 & H4); split_and!; try done.
  - intros a (j & -> & Hj)%list_elem_of_fmap. by apply H4.
  - intros j Hj. apply (H4 (area_of (pool_at s j))). apply list_elem_of_fmap. eauto.
Qed.

Definition anon_area va len phys prot map : area := area_of (anon_region va len phys prot map).

(** Where a successful mapping is: at the address asked for, or in the
    lowest gap. *)
Definition chosen (l : list area) hint len map va : Prop :=
  if nz (Z.land map VMA64_MAP_FIXED) then va = hint
  else let lo := if negb (hint =? 0) then hint else VMA64_ANON_HINT_BASE in
    area_gap l lo VMA64_ANON_HINT_LIMIT len va /\
    forall g, area_gap l lo VMA64_ANON_HINT_LIMIT len g -> va <= g.

(** [p] gained one area, in its place; the others are as before. *)
Definition area_added ls s ls' s' p (a : area) : Prop :=
  (exists A B, areas ls s p = A ++ B /\ areas ls' s' p = A ++ a :: B) /\
  (forall x, x ∈ areas ls s p -> vma64_ranges_overlap (a_base a) (a_end a) (a_base x) (a_end x) = false) /\
  vma64_range_valid (a_base a) (a_end a) = true.

Definition map_result ls s p hint len prot map v s' : Prop :=
  exists ls', vinv ls' s' /\ tied s s' /\ (forall q, q <> p -> areas ls' s' q = areas ls s q) /\
    ((v = 0 /\ areas ls' s' p = areas ls s p) \/
     exists phys, phys <> 0 /\ area_added ls s ls' s' p (anon_area v len phys prot map) /\
       chosen (areas ls s p) hint len map v /\ (v = 0 -> hint = 0 /\ nz (Z.land map VMA64_MAP_FIXED) = true)).

Lemma inserted_added ls s s' p i r t l1 l2 ls' s1 :
  vinv ls s -> inserted ls s s' p i r t l1 l2 ls' s1 ->
  vinv ls' s' /\ (forall q, q <> p -> areas ls' s' q = areas ls s q) /\ area_added ls s ls' s' p (area_of r).
Proof.
  intros Hi (Hst & Hsp & Hr & Hp & Hg). pose proof (st_inv _ _ _ _ _ Hst) as Hi1.
  destruct (gained_areas _ _ _ _ _ _ _ _ _ Hi1 Hsp Hg) as (E1 & E2 & E3).
  assert (Hs : forall q, areas ls s1 q = areas ls s q) by (intros q; apply unmoved_areas; [done|by eapply unmoved_spare]).
  rewrite Hs in E1. rewrite Hp in E2. destruct Hg as (Ha & Hl & -> & Hst' & _ & Hcl). unfold area_added. split_and!.
  - apply Hst'.
  - intros q Hq. by rewrite E3.
  - eexists _, _. split; [exact E1|exact E2].
  - intros x. rewrite <- Hs. unfold areas. rewrite Ha. simpl. intros (j & -> & Hj)%list_elem_of_fmap.
    specialize (Hcl j Hj). by rewrite Hp in Hcl.
  - rewrite Hp in Hr. apply Hr.
Qed.

Lemma page_count_pos len : vma64_page_count_from_length len <> 0 -> 0 <= len -> 0 < len.
Proof. intros H Hl. destruct (decide (len = 0)) as [->|]; [done|lia]. Qed.

Lemma map_anon_wp ls s p hint len prot map :
  vinv ls s -> 0 <= hint < 2 ^ 64 -> 0 <= len < 2 ^ 64 ->
  wp (vma64_map_anon p hint len prot map) (map_result ls s p hint len prot map) s.
Proof.
  intros Hi Hh Hlen. unfold vma64_map_anon. apply wp_bind, wp_modify. set (s0 := s <| g_vma64_last_map_stage := 1 |>).
  assert (Hi0 : vinv ls s0) by (by eapply vinv_core; [|exact Hi]).
  assert (Hs0 : forall q, areas ls s0 q = areas ls s q) by done.
  assert (Hno : forall s' s'', opened ls s0 s' p -> unmoved ls s' s'' -> map_result ls s p hint len prot map 0 s'').
  { intros s' s'' Ho Hu. exists ls. split_and!.
    - destruct Hu as (X & Hst & _). apply Hst.
    - eapply (tied_trans s s'); [|by eapply tied_unmoved]. by apply (tied_opened ls s0 s' p).
    - intros q _. rewrite (unmoved_areas ls s') by (apply Ho || done). by apply (opened_areas ls s0 s' p).
    - left. split; [done|]. rewrite (unmoved_areas ls s') by (apply Ho || done). by apply (opened_areas ls s0 s' p). }
  assert (Hun : unmoved ls s0 s0) by (by apply unmoved_core).
  destruct (_ || _) eqn:Hg; [apply wp_ret, (Hno s0); [by apply opened_refl|done]|].
  apply orb_false_iff in Hg as [[Hg%Z.eqb_neq _]%orb_false_iff _]. pose proof (page_count_pos _ Hg ltac:(lia)) as Hpos.
  apply wp_bind, (init_process_step ls); [done| |].
  { intros s1 Ho _. apply wp_ret, (Hno s1); [done|]. apply unmoved_core; [apply Ho|done]. }
  intros s1 t Ho Ha. pose proof (op_inv _ _ _ _ Ho) as Hi1. change (1 =? 0) with false. cbn [negb].
  assert (Hs1 : forall q, areas ls s1 q = areas ls s q) by (intros q; by rewrite (opened_areas ls s0 s1 p)).
  eapply (still_next _ _ ls s1); [apply still_map_stage|apply (step_refl ls s1 [] Hi1)|]. intros _ s2 Hc2 Hst2.
  pose proof (st_inv _ _ _ _ _ Hst2) as Hi2. apply wp_bind, (map_address_wp ls); [done|done|lia|..].
  { intros s3 Hc3. apply wp_ret, (Hno s1); [done|]. apply unmoved_core; [done|congruence]. }
  intros va s3 Hc3 Hpl Hva Hz. assert (Hi3 : vinv ls s3) by (by eapply vinv_core).
  assert (Hu3 : unmoved ls s1 s3) by (apply unmoved_core; [done|congruence]).
  assert (Hs3 : forall q, areas ls s3 q = areas ls s q) by (intros q; by rewrite (unmoved_areas ls s1 s3), Hs1).
  assert (Hch : chosen (areas ls s p) hint len map va).
  { unfold placed in Hpl. unfold chosen. destruct (nz (Z.land map VMA64_MAP_FIXED)); [done|].
    destruct Hpl as (t' & Ha' & G1 & G2). rewrite <- Hs3, (unmoved_areas ls s2 s3) by (done || by apply unmoved_core).
    unfold areas. rewrite Ha'. simpl. split; [by apply (gap_areas s2 (ls t') t')|].
    intros g Hg'. apply G2. by apply (gap_areas s2 (ls t') t'). }
  clear Hpl Hst2 Hc2 Hi2. apply wp_bind, (map_region_wp ls); [done|lia| |].
  { intros s4 Hu. apply wp_ret, (Hno s1); [done|]. by eapply unmoved_trans. }
  intros i phys s4 s5 ls' t' l1 l2 Hphys Hin.
  assert (Hyes : forall s6, core s6 = core s5 -> map_result ls s p hint len prot map va s6).
  { intros s6 Hc6. destruct (inserted_added ls s3 s6 p i (anon_region va len phys prot map) t' l1 l2 ls' s4) as (R1 & R2 & R3).
    - done.
    - destruct Hin as (H1 & H2 & H3 & H4 & H5). split_and!; try done. by eapply gained_core.
    - exists ls'. split_and!; [done| |intros q Hq; by rewrite R2|].
      { eapply (tied_trans s s1); [by apply (tied_opened ls s0 s1 p)|]. eapply tied_trans; [by eapply tied_unmoved|].
        destruct Hin as (H1 & _ & _ & _ & (_ & _ & _ & H5 & _)). eapply tied_trans; [by eapply tied_step|].
        eapply tied_trans; [by eapply tied_step|]. eapply (tied_core ls'); [apply H5|done]. }
      right. exists phys. split_and!; try done.
      unfold area_added in *. by rewrite Hs3 in R3. }
  eapply (still_next _ _ ls' s5); [apply still_map_stage| |].
  { apply (step_refl ls' s5 []). destruct Hin as (_ & _ & _ & _ & (_ & _ & _ & Hst & _)). apply Hst. }
  intros _ s6 Hc6 Hst6. destruct (vma64_paging_prot prot =? 0).
  { apply wp_bind, wp_modify, wp_ret, Hyes. by rewrite <- Hc6. }
  eapply (still_next _ _ ls' s5); [apply still_install|exact Hst6|]. intros failed s7 Hc7 Hst7.
  destruct failed as [k|]; [|apply wp_bind, wp_modify, wp_ret, Hyes; by rewrite <- Hc6, <- Hc7].
  eapply (still_next _ _ ls' s5); [apply still_clear|exact Hst7|]. intros _ s8 Hc8 Hst8.
  destruct Hin as (H1 & H2 & H3 & H4 & H5). apply wp_bind.
  replace va with (virt_base (pool_at s4 i)) by (by rewrite H4).
  replace (add64 (virt_base (pool_at s4 i)) len) with (virt_end (pool_at s4 i)) by (by rewrite H4).
  eapply (undo_wp ls s4 ls' s8 p i t' l1 l2); [apply H1|done|done|eapply gained_core, H5; congruence|].
  intros s9 Hst9 Hsp9. assert (Hst9' : step ls s3 ls s9 [i]) by (by eapply step_trans).
  eapply (still_next _ _ ls s3); [apply still_release|exact Hst9'|]. intros _ s10 Hc10 Hst10.
  apply wp_bind, (release_step ls); [apply Hst10|by eapply spare_core|]. intros s11 Hst11.
  apply wp_ret, (Hno s1); [done|]. eapply unmoved_trans; [exact Hu3|].
  eapply unmoved_drop; [exact Hst10|by eapply spare_core|done].
Qed.

(** ** Unmapping *)

(** The call names exactly an anonymous area with pages. *)
Definition unmappable (l : list area) address len : Prop :=
  vma64_page_count_from_length len <> 0 /\ Z.land address (VMA64_PAGE_BYTES - 1) = 0 /\ address <= add64 address len /\
  exists a, a ∈ l /\ a_base a = address /\ a_end a = add64 address len /\ a_type a = VMA64_BACKING_ANON /\ a_phys a <> 0.

Definition unmap_result ls s p address len v s' : Prop :=
  exists ls', vinv ls' s' /\ tied s s' /\ (forall q, q <> p -> areas ls' s' q = areas ls s q) /\
    ((v = 0 /\ ~ unmappable (areas ls s p) address len /\ areas ls' s' p = areas ls s p) \/
     (v = 1 /\ unmappable (areas ls s p) address len /\
      exists A a B, areas ls s p = A ++ a :: B /\ areas ls' s' p = A ++ B /\
        a_base a = address /\ a_end a = add64 address len)).

Lemma areas_elem ls s p a : a ∈ areas ls s p -> exists t i, att s p = Some t /\ i ∈ ls t /\ a = area_of (pool_at s i).
Proof.
  unfold areas. destruct (att s p) as [t|]; simpl; [|by intros ?%not_elem_of_nil].
  intros (j & -> & Hj)%list_elem_of_fmap. eauto.
Qed.

(** An area the call would unmap is the one the lookup finds. *)
Lemma unmappable_lookup ls s p address len :
  vinv ls s -> unmappable (areas ls s p) address len ->
  exists i, lookup ls s p address = Some i /\ virt_base (pool_at s i) = address /\
    virt_end (pool_at s i) = add64 address len /\ backing_type (pool_at s i) = VMA64_BACKING_ANON /\ phys_base (pool_at s i) <> 0.
Proof.
  intros Hi (_ & _ & _ & a & Ha & H1 & H2 & H3 & H4). apply areas_elem in Ha as (t & i & Ht & Hil & ->).
  destruct (att_owner _ _ _ _ Hi Ht) as (Hlt & _). pose proof (range_pos _ (listed_range _ _ _ _ Hi Hlt Hil)).
  exists i. split_and!; try done. apply (lookup_base ls s p t); try done. simpl in *. lia.
Qed.

(** Once the area is known to be the one asked for, unmapping succeeds. *)
Lemma unmap_known ls s p t i address len :
  vinv ls s -> att s p = Some t -> i ∈ ls t -> virt_base (pool_at s i) = address ->
  virt_end (pool_at s i) = add64 address len -> unmappable (areas ls s p) address len ->
  wp (tree <- vma64_tree_for_process p ;;
      removed <- vma64_remove p address (add64 address len) ;;
      removed' <- (match removed with
                   | Some x => ret (Some x)
                   | None => match tree with
                             | Some t => on_tree t (vma64_detach_region i)
                             | None => ret None
                             end
                   end) ;;
      match removed' with
      | None => set_unmap_stage 8 ;;; ret 0
      | Some x =>
          vma64_release_anon_pages (phys_base (pool_at s i)) (vma64_page_count_from_length len) ;;;
          vma64_region_release x ;;;
          set_unmap_stage 9 ;;;
          ret 1
      end)%kernel (unmap_result ls s p address len) s.
Proof.
  intros Hi Ha Hil Hb He Hu. apply wp_bind, (tree_for_wp ls); [done|]. apply wp_bind, (remove_known ls s p t i); try done.
  intros s1 ls' l1 l2 Hlost. destruct (lost_areas ls s ls' s1 p i t l1 l2 Hi Hlost) as (L1 & L2 & L3).
  destruct Hlost as (_ & _ & _ & Hst1 & Hsp). apply wp_bind, wp_ret.
  eapply (still_next _ _ ls' s1); [apply still_release|apply (step_refl ls' s1 []), Hst1|]. intros _ s2 Hc2 Hst2.
  pose proof (spare_core _ _ _ _ Hc2 Hsp) as Hsp2.
  apply wp_bind, (release_step ls'); [apply Hst2|done|]. intros s3 Hst3. apply wp_bind, wp_modify, wp_ret.
  assert (Hum : unmoved ls' s1 (s3 <| g_vma64_last_unmap_stage := 9 |>)).
  { eapply (unmoved_drop ls' s1 s2 _ i); [eapply step_mono, Hst2; set_solver|exact Hsp2|]. by eapply step_core; [|exact Hst3]. }
  exists ls'. split_and!.
  - by eapply vinv_core; [|apply Hst3].
  - eapply tied_trans; [by eapply tied_step|by eapply tied_unmoved].
  - intros q Hq. rewrite (unmoved_areas ls' s1) by (apply Hst1 || done). by apply L3.
  - right. split_and!; [done|done|]. exists (areas_at s l1), (area_of (pool_at s i)), (areas_at s l2).
    split_and!; [done| |done|done]. by rewrite (unmoved_areas ls' s1) by (apply Hst1 || done).
Qed.

(** The result of a call only depends on the trees and regions. *)
Lemma unmap_result_core ls s s1 p address len v s' :
  vinv ls s -> core s1 = core s -> unmap_result ls s1 p address len v s' -> unmap_result ls s p address len v s'.
Proof.
  intros Hi Hc. unfold unmap_result. assert (Hs : forall q, areas ls s1 q = areas ls s q)
    by (intros q; apply unmoved_areas; [done|by apply unmoved_core]).
  intros (ls' & H0 & H1 & H2 & H3). exists ls'. split_and!; [done| |intros q Hq; by rewrite H2|by rewrite !Hs in H3].
  eapply tied_trans; [by eapply (tied_core ls)|done].
Qed.

Lemma lookup_core ls s s' p a : core s' = core s -> lookup ls s' p a = lookup ls s p a.
Proof.
  intros Hc. unfold lookup. rewrite (att_core s s') by done. destruct (att s p); [|done]. by rewrite (heap_core s s').
Qed.

Lemma unmap_wp ls s p address len :
  vinv ls s -> wp (vma64_unmap p address len) (unmap_result ls s p address len) s.
Proof.
  intros Hi. unfold vma64_unmap.
  assert (Hno : forall s', core s' = core s -> ~ unmappable (areas ls s p) address len -> unmap_result ls s p address len 0 s').
  { intros s' Hc Hn. pose proof (unmoved_core ls s s' Hi Hc) as Hu. exists ls. split_and!.
    - by eapply vinv_core.
    - by eapply tied_unmoved.
    - intros q _. by apply unmoved_areas.
    - left. split_and!; [done|done|]. by apply unmoved_areas. }
  eapply (still_next _ _ ls s); [apply still_unmap_stage|apply (step_refl ls s [] Hi)|]. intros _ s0 Hc0 Hst0.
  destruct (_ || _) eqn:Hg.
  { apply wp_ret, Hno; [done|]. intros (U1 & U2 & U3 & _).
    apply orb_true_iff in Hg as [[Hg%Z.eqb_eq|Hg%nz_true]%orb_true_iff|Hg%Z.ltb_lt]; [done|done|lia]. }
  apply orb_false_iff in Hg as [[G1%Z.eqb_neq G2%nz_false]%orb_false_iff G3%Z.ltb_ge].
  eapply (still_next _ _ ls s); [apply still_unmap_stage|exact Hst0|]. intros _ s1 Hc1 Hst1.
  apply wp_bind, (vma_find_wp ls); [apply Hst1|]. intros s2 (Hc2 & _). rewrite (lookup_core ls s s1) by congruence.
  destruct (lookup ls s p address) as [i|] eqn:Hl; cycle 1.
  { apply wp_ret, Hno; [congruence|]. intros Hu. destruct (unmappable_lookup ls s p address len Hi Hu) as (i & Hl' & _). congruence. }
  pose proof (step_core _ _ _ _ _ _ Hc2 Hst1) as Hst2.
  eapply (still_next _ _ ls s); [apply still_unmap_stage|exact Hst2|]. intros _ s3 Hc3 Hst3.
  assert (Hpool : pool_at s3 i = pool_at s i) by (apply pool_core; congruence).
  apply wp_bind, wp_gets. rewrite Hpool.
  assert (Hdeny : forall s', core s' = core s ->
    ~ (virt_base (pool_at s i) = address /\ virt_end (pool_at s i) = add64 address len /\
       backing_type (pool_at s i) = VMA64_BACKING_ANON /\ phys_base (pool_at s i) <> 0) -> unmap_result ls s p address len 0 s').
  { intros s' Hc' Hn. apply Hno; [done|]. intros Hu.
    destruct (unmappable_lookup ls s p address len Hi Hu) as (i' & Hl' & Hr). assert (i' = i) as -> by congruence. by apply Hn. }
  destruct (_ || _) eqn:Hr.
  { apply wp_ret, Hdeny; [congruence|]. intros (E1 & E2 & _). by rewrite E1, E2, !Z.eqb_refl in Hr. }
  apply orb_false_iff in Hr as [Hb%negb_false_iff%Z.eqb_eq He%negb_false_iff%Z.eqb_eq].
  eapply (still_next _ _ ls s); [apply still_unmap_stage|exact Hst3|]. intros _ s4 Hc4 Hst4.
  destruct (Z.eqb_spec (backing_type (pool_at s i)) VMA64_BACKING_ANON) as [Hty|Hty]; cbn [negb]; cycle 1.
  { apply wp_ret, Hdeny; [congruence|]. tauto. }
  eapply (still_next _ _ ls s); [apply still_unmap_stage|exact Hst4|]. intros _ s5 Hc5 Hst5.
  destruct (Z.eqb_spec (phys_base (pool_at s i)) 0) as [Hph|Hph].
  { apply wp_ret, Hdeny; [congruence|]. tauto. }
  do 2 (eapply (still_next _ _ ls s); [apply still_unmap_stage|eassumption|]; intros _ ? ? ?).
  eapply (still_next _ _ ls s); [apply still_clear|eassumption|]. intros _ s8 Hc8 Hst8.
  assert (Hcs : core s8 = core s) by congruence. apply lookup_in in Hl as (t & Ha & Hil & _).
  rewrite <- (pool_core s s8 i Hcs) in *. eapply wp_mono; [|intros v u; by apply (unmap_result_core ls s s8)].
  apply (unmap_known ls s8 p t i); [apply Hst8|by rewrite (att_core s s8)|done|done|done|].
  split_and!; [done|done|done|]. exists (area_of (pool_at s8 i)). split_and!; try done.
  unfold areas. rewrite (att_core s s8), Ha by done. apply list_elem_of_fmap. eauto.
Qed.

End calls.
End VmaCalls.
