(* ===== verification/VmaRelease.v ===== *)
(** * Giving an address space back

    [vma64_release_process] walks the list of a process while it returns the
    regions to the pool, then takes the tree away from the process. *)

From S2P Require Import Prelude Process ProcessFacts PersonaBudget VmaTree RbTree VmaRb VmaList VmaSpace VmaSpaceOps VmaGap Vma VmaFacts VmaOps VmaSteps VmaCalls.
Import PersonaBudget VmaTree VmaRb VmaList VmaSpace VmaSpaceOps VmaGap Vma VmaFacts VmaOps VmaSteps VmaCalls.
Local Open Scope Z_scope.

Module VmaRelease.

Section release.
Context {W : Type} {paging : VmaPaging W} {launch : Process.LaunchEnv}.
Implicit Types (s : vma_state W) (t i j : nat) (p q : Z) (ls : nat -> list nat) (X : list nat).

Lemma listed_pool ls s t i : vinv ls s -> (t < TREES)%nat -> i ∈ ls t -> (i < VMA64_MAX_STATIC_REGIONS)%nat.
Proof.
  intros Hi Ht Hil. pose proof (space_pool (v_space _ _ Hi t Ht) i Hil) as Hp. unfold in_pool in Hp. simpl in Hp.
  by rewrite (v_regions _ _ Hi) in Hp.
Qed.

(** Only regions of [X] changed. *)
Record dropped X s s' : Prop := {
  dr_trees : g_vma64_trees s' = g_vma64_trees s;
  dr_pids : g_vma64_tree_pids s' = g_vma64_tree_pids s;
  dr_init : g_vma64_initialized s' = g_vma64_initialized s;
  dr_procs : vma_processes s' = vma_processes s;
  dr_regions : length (g_vma64_regions s') = length (g_vma64_regions s);
  dr_length : length (g_vma64_region_used s') = length (g_vma64_region_used s);
  dr_pool : forall j, j ∉ X -> pool_at s' j = pool_at s j;
  dr_used : forall j, j ∉ X -> g_vma64_region_used s' !! j = g_vma64_region_used s !! j;
  dr_free : forall j, j ∈ X -> (j < length (g_vma64_region_used s))%nat -> g_vma64_region_used s' !! j = Some 0 }.

Lemma dropped_refl s : dropped [] s s.
Proof. split; try done. set_solver. Qed.

Lemma dropped_core X s s1 s2 : core s2 = core s1 -> dropped X s s1 -> dropped X s s2.
Proof.
  intros Hc [D1 D2 D3 D4 D5 D6 D7 D8 D9]. pose proof Hc as (E1 & E2 & E3 & E4 & E5 & E6)%core_inj.
  split; rewrite ?E1, ?E2, ?E3, ?E4, ?E5, ?E6; try done. intros j Hj. rewrite (pool_core s1 s2) by done. auto.
Qed.

Lemma still_run {A} (m : ST (vma_state W) A) s (Q : A -> vma_state W -> Prop) :
  still m -> g_vma64_initialized s <> 0 -> (forall a s', core s' = core s -> Q a s') -> wp m Q s.
Proof. intros Hm Hi HQ. eapply wp_mono; [apply (Hm s Hi); done|]. auto. Qed.

Lemma release_region_wp X s s1 p c (Q : unit -> vma_state W -> Prop) :
  g_vma64_initialized s <> 0 -> dropped X s s1 -> (c < VMA64_MAX_STATIC_REGIONS)%nat ->
  (forall s2, dropped (c :: X) s s2 -> Q tt s2) -> wp (release_region p c) Q s1.
Proof.
  intros Hi Hd Hc HQ. unfold release_region. apply wp_bind, wp_gets.
  assert (Hi1 : g_vma64_initialized s1 <> 0) by (by rewrite (dr_init _ _ _ Hd)).
  apply wp_bind, still_run; [apply still_clear|done|]. intros _ s2 Hc2. pose proof (dropped_core _ _ _ _ Hc2 Hd) as Hd2.
  assert (Hi2 : g_vma64_initialized s2 <> 0) by (by rewrite (dr_init _ _ _ Hd2)).
  apply wp_bind, still_run; [apply still_if; [apply still_release|apply still_ret]|done|].
  intros _ s3 Hc3. pose proof (dropped_core _ _ _ _ Hc3 Hd2) as Hd3.
  assert (Hi3 : g_vma64_initialized s3 <> 0) by (by rewrite (dr_init _ _ _ Hd3)).
  apply wp_bind, still_run; [apply still_init|done|]. intros _ s4 Hc4. pose proof (dropped_core _ _ _ _ Hc4 Hd3) as Hd4.
  rewrite (proj2 (Nat.ltb_lt _ _) Hc). apply wp_bind, wp_modify, wp_modify, HQ.
  destruct Hd4 as [D1 D2 D3 D4 D5 D6 D7 D8 D9]. split; simpl; try done.
  - by rewrite length_alter.
  - by rewrite length_insert.
  - intros j Hj. unfold pool_at. simpl. rewrite list_lookup_alter_ne by set_solver. apply D7. set_solver.
  - intros j Hj. rewrite list_lookup_insert_ne by set_solver. apply D8. set_solver.
  - intros j Hj Hlt. destruct (decide (c = j)) as [<-|Hne]; [by rewrite list_lookup_insert_eq by (by rewrite D6)|].
    rewrite list_lookup_insert_ne by done. apply D9; [set_solver|done].
Qed.

Lemma release_loop_wp fuel s t p : forall X s1 pv rest n,
  g_vma64_initialized s <> 0 -> dropped X s s1 -> dseg (heap_of s t) pv rest None -> NoDup rest ->
  (forall j, j ∈ rest -> j ∉ X /\ (j < VMA64_MAX_STATIC_REGIONS)%nat) -> (length rest < fuel)%nat ->
  0 <= n -> n + Z.of_nat (length rest) < 2 ^ 32 - 1 ->
  wp (release_loop fuel p (first_of rest None) n) (fun v s2 => v = n + Z.of_nat (length rest) /\
    dropped (rev rest ++ X) s s2) s1.
Proof.
  induction fuel as [|fuel IH]; intros X s1 pv rest n Hi Hd Hseg Hnd Hout Hf Hn Hb; [lia|].
  destruct rest as [|c rest]; [apply wp_ret; split; [simpl; lia|done]|]. simpl in Hseg, Hf, Hb.
  destruct Hseg as (_ & _ & Hnx & Hseg). apply NoDup_cons in Hnd as [Hnc Hnd].
  destruct (Hout c ltac:(set_solver)) as [HcX Hcp]. cbn [release_loop first_of]. apply wp_bind, wp_gets.
  rewrite (dr_pool _ _ _ Hd c HcX). rewrite region_heap in Hnx. rewrite Hnx.
  apply wp_bind, (release_region_wp X s s1); [done|done|done|]. intros s2 Hd2. rewrite inc32_small by (unfold U32_MAX; lia).
  eapply wp_mono; [apply (IH (c :: X) s2 (Some c) rest (n + 1)); try done; try lia|].
  - intros j Hj. destruct (Hout j ltac:(set_solver)). split; [set_solver|done].
  - intros v s3 [-> Hd3]. split; [simpl; lia|]. simpl. by rewrite <- app_assoc.
Qed.

Lemma dropped_space ls s s' t t' X :
  vinv ls s -> dropped X s s' -> (t' < TREES)%nat -> (forall j, j ∈ ls t' -> j ∉ X) -> space (heap_of s' t') (ls t').
Proof.
  intros Hi Hd Ht' HX. eapply space_frame; [..|apply (v_space _ _ Hi t' Ht')]; simpl.
  - unfold tree_at. by rewrite (dr_trees _ _ _ Hd).
  - apply Hd.
  - intros j Hj. rewrite !region_heap. by apply (dr_pool _ _ _ Hd), HX.
Qed.

Definition detached t ps s : vma_state W :=
  s <| vma_processes := ps |>
    <| g_vma64_tree_pids := <[t := Process.PROCESS64_INVALID_PID]> (g_vma64_tree_pids s) |>
    <| g_vma64_trees := alter (fun _ => vma64_clear_tree) t (g_vma64_trees s) |>.

Lemma vinv_detached ls s s' t p ps :
  vinv ls s -> att s p = Some t -> dropped (ls t) s s' -> ProcFacts.pinv ps ->
  (forall q, q <> p -> proc ps q = proc (vma_processes s) q) -> from_option Process.vma_root 0 (proc ps p) = 0 ->
  vinv (at_tree ls t []) (detached t ps s').
Proof.
  intros Hi Ha Hd Hps Hq Hp. destruct (att_owner _ _ _ _ Hi Ha) as (Ht & Hpid & _).
  assert (Hdis : forall t' j, (t' < TREES)%nat -> t' <> t -> j ∈ ls t' -> j ∉ ls t).
  { intros t' j Ht' Hne H1 H2. by apply Hne, (v_disjoint _ _ Hi t' t j). }
  split; simpl; try done.
  - rewrite (dr_init _ _ _ Hd). apply Hi.
  - rewrite length_alter, (dr_trees _ _ _ Hd). apply Hi.
  - rewrite length_insert, (dr_pids _ _ _ Hd). apply Hi.
  - rewrite (dr_regions _ _ _ Hd). apply Hi.
  - rewrite (dr_length _ _ _ Hd). apply Hi.
  - intros t' Ht'. unfold heap_of, tree_at, at_tree. simpl. rewrite list_lookup_alter, (dr_trees _ _ _ Hd). case_decide as E.
    + subst t'. rewrite decide_True by done.
      assert (is_Some (g_vma64_trees s !! t)) as [x ->] by (apply lookup_lt_is_Some_2; by rewrite (v_trees _ _ Hi)).
      simpl. apply space_clear. rewrite (dr_regions _ _ _ Hd). apply Hi.
    + rewrite decide_False by congruence. rewrite <- (dr_trees _ _ _ Hd). eapply (dropped_space ls s s' t t'); try done.
      intros j Hj. apply (Hdis t'); try done; congruence.
  - intros t1 t2 i H1 H2. unfold at_tree. do 2 case_decide; subst; try set_solver. by apply (v_disjoint _ _ Hi).
  - intros t' i Ht'. unfold at_tree. case_decide as E; [set_solver|]. intros Hin.
    rewrite (dr_used _ _ _ Hd) by (by eapply Hdis). by apply (v_live _ _ Hi t').
  - intros t'. unfold at_tree. case_decide as E; [done|]. rewrite list_lookup_insert_ne by congruence.
    rewrite (dr_pids _ _ _ Hd). apply Hi.
  - intros q. unfold vroot. simpl. destruct (decide (q = p)) as [->|Hne]; [by rewrite Hp|]. rewrite Hq by done.
    intros Hr. destruct (v_owner _ _ Hi q Hr) as (t' & E1 & E2 & E3). exists t'. split_and!; [done|done|].
    rewrite list_lookup_insert_ne, (dr_pids _ _ _ Hd); [done|]. congruence.
  - intros t'. unfold brk_of, tree_at. simpl. rewrite list_lookup_alter, (dr_trees _ _ _ Hd). case_decide; [|apply Hi].
    destruct (g_vma64_trees s !! t); apply brk_ok_clear.
Qed.

(** The process has no tree, the pool has its regions back, and the other
    processes keep what they had. *)
Record released ls s p s' ls' : Prop := {
  rl_inv : vinv ls' s';
  rl_self : att s' p = None;
  rl_other : forall q, q <> p -> att s' q = att s q;
  rl_lists : forall q t, q <> p -> att s q = Some t -> ls' t = ls t;
  rl_pool : forall j, (forall t, att s p = Some t -> j ∉ ls t) -> pool_at s' j = pool_at s j;
  rl_used : forall j, (forall t, att s p = Some t -> j ∉ ls t) -> g_vma64_region_used s' !! j = g_vma64_region_used s !! j;
  rl_free : forall t j, att s p = Some t -> j ∈ ls t -> g_vma64_region_used s' !! j = Some 0;
  rl_brk : forall q t, q <> p -> att s q = Some t -> brk_of s' t = brk_of s t }.

Lemma released_areas ls s p s' ls' q :
  vinv ls s -> released ls s p s' ls' -> q <> p -> areas ls' s' q = areas ls s q.
Proof.
  intros Hi Hr Hq. unfold areas. rewrite (rl_other _ _ _ _ _ Hr) by done. destruct (att s q) as [t|] eqn:Ha; [|done].
  simpl. rewrite (rl_lists _ _ _ _ _ Hr q t) by done. apply areas_at_ext. intros j Hj.
  rewrite (rl_pool _ _ _ _ _ Hr); [done|]. intros t' Ha' Hj'. destruct (att_owner _ _ _ _ Hi Ha) as (Ht & _).
  destruct (att_owner _ _ _ _ Hi Ha') as (Ht' & _). apply (att_other ls s p q t' t Hi Ha' Ha Hq).
  by apply (v_disjoint _ _ Hi t t' j).
Qed.

Lemma release_process_wp ls s p (Q : Z -> vma_state W -> Prop) :
  vinv ls s ->
  (forall s' ls', released ls s p s' ls' -> Q (Z.of_nat (length (areas ls s p))) s') -> wp (vma64_release_process p) Q s.
Proof.
  intros Hi HQ. apply wp_bind, (tree_for_wp ls); [done|]. unfold areas in HQ. destruct (att s p) as [t|] eqn:Ha; cycle 1.
  { apply wp_ret, (HQ s ls). split; try done; congruence. }
  destruct (att_owner _ _ _ _ Hi Ha) as (Ht & Hpid & _). pose proof (v_space _ _ Hi t Ht) as Hs.
  destruct (sp_list _ _ Hs) as [Hd Hh]. apply wp_bind, wp_gets. change (head (tree_at s t)) with (head (tree (heap_of s t))).
  rewrite Hh. pose proof (space_fuel Hs) as Hf. pose proof (space_length Hs) as Hl.
  apply wp_bind. eapply wp_mono; [apply (release_loop_wp link_fuel s t p [] s None (ls t) 0); try done|].
  - apply (v_init _ _ Hi).
  - apply dropped_refl.
  - by apply (space_nodup Hs).
  - intros j Hj. split; [set_solver|]. by apply (listed_pool ls s t).
  - unfold VMA64_MAX_STATIC_REGIONS in Hl. lia.
  - intros v s1 [-> Hdr0]. assert (Hdr : dropped (ls t) s s1).
    { destruct Hdr0 as [D1 D2 D3 D4 D5 D6 D7 D8 D9].
      split; try done; intros j Hj; [apply D7|apply D8|apply D9]; rewrite app_nil_r, list_elem_of_In, <- in_rev, <- list_elem_of_In; done. }
    clear Hdr0. apply wp_bind, vma_processes_wp. assert (Hp1 : ProcFacts.pinv (vma_processes s1)) by (rewrite (dr_procs _ _ _ Hdr); apply Hi).
    eapply wp_mono; [apply (@ProcFacts.detach_wp launch _ _ ProcFacts.vma_slot _ p Hp1)|].
    intros x ps (Hps & _ & Hview). unfold ProcFacts.detach_view in Hview. rewrite (dr_procs _ _ _ Hdr) in Hview.
    assert (Hq : forall q, q <> p -> proc ps q = proc (vma_processes s) q).
    { intros q Hne. rewrite Hview. destruct (ProcFacts.proc (vma_processes s) p); [|done]. simpl.
      unfold ProcFacts.upd. by rewrite (proj2 (Z.eqb_neq q p) Hne). }
    assert (Hp0 : from_option Process.vma_root 0 (proc ps p) = 0).
    { rewrite Hview. destruct (ProcFacts.proc (vma_processes s) p) eqn:E; simpl; [|by rewrite E].
      unfold ProcFacts.upd. by rewrite Z.eqb_refl. }
    apply wp_bind, wp_modify, wp_bind, wp_modify, wp_ret.
    replace (0 + Z.of_nat (length (ls t))) with (Z.of_nat (length (areas_at s (ls t)))) by (unfold areas_at; rewrite length_fmap; lia).
    apply (HQ (detached t ps s1) (at_tree ls t [])).
    assert (Hatt : forall q, att (detached t ps s1) q = if decide (q = p) then None else att s q).
    { intros q. unfold att, vroot. simpl. case_decide; [subst; by rewrite Hp0|]. by rewrite Hq. }
    split.
    + by apply (vinv_detached ls s s1 t p ps).
    + rewrite Hatt. by rewrite decide_True.
    + intros q Hne. rewrite Hatt. by rewrite decide_False.
    + intros q t' Hne Hqa. apply at_tree_other. by apply (att_other ls s p q t t').
    + intros j Hj. apply (dr_pool _ _ _ Hdr). by apply Hj.
    + intros j Hj. apply (dr_used _ _ _ Hdr). by apply Hj.
    + intros t' j Hqa Hj. assert (t' = t) as -> by congruence. apply (dr_free _ _ _ Hdr j Hj).
      rewrite (v_used _ _ Hi). by apply (listed_pool ls s t).
    + intros q t' Hne Hqa. unfold brk_of, tree_at. simpl. rewrite list_lookup_alter_ne, (dr_trees _ _ _ Hdr); [done|].
      intros <-. by apply (att_other ls s p q t t Hi Ha Hqa Hne).
Qed.

End release.
End VmaRelease.
