(* ===== verification/VmaProtect.v ===== *)
(** * Changing the protection of a range

    [vma64_protect] removes the area around the range and puts it back in up
    to three pieces, the middle one with the new protection. *)

From stdpp Require Import sorting.
From S2P Require Import Prelude Process ProcessFacts PersonaBudget VmaTree VmaList VmaSpace VmaSpaceOps VmaGap Vma VmaFacts VmaOps VmaSteps VmaCalls VmaRelease.
Import PersonaBudget VmaTree VmaList VmaSpace VmaSpaceOps VmaGap Vma VmaFacts VmaOps VmaSteps VmaCalls VmaRelease.
Local Open Scope Z_scope.
Local Open Scope kernel_scope.

Module VmaProtect.

(** ** Sorted lists of areas *)

Definition before (a b : area) : Prop := a_end a <= a_base b.
Definition area_ok (a : area) : Prop := a_base a < a_end a.

Definition areas_wf (l : list area) : Prop := StronglySorted before l /\ forall a, a ∈ l -> area_ok a.

Lemma sorted_before l1 a l2 : StronglySorted before (l1 ++ a :: l2) ->
  (forall x, x ∈ l1 -> before x a) /\ (forall x, x ∈ l2 -> before a x).
Proof.
  induction l1 as [|y l1 IH]; simpl; intros [H1 H2]%StronglySorted_inv.
  - split; [set_solver|]. by rewrite Forall_forall in H2.
  - destruct (IH H1) as [H3 H4]. split; [|done]. rewrite Forall_forall in H2.
    intros x [->|Hx]%elem_of_cons; [|by apply H3]. apply H2. set_solver.
Qed.

(** A new area has only one place in the list. *)
Lemma sorted_place (A B A' B' : list area) a :
  A ++ B = A' ++ B' -> (forall x, x ∈ A -> before x a) -> (forall x, x ∈ B -> before a x) ->
  area_ok a -> areas_wf (A' ++ a :: B') -> A' = A /\ B' = B.
Proof.
  intros E HA HB Ha [Hs Hok]. apply sorted_before in Hs as [H1 H2].
  assert (HAB : forall x, x ∈ A -> x ∈ B' -> False).
  { intros x H3 H4. specialize (HA x H3). specialize (H2 x H4). pose proof (Hok x ltac:(set_solver)).
    unfold before, area_ok in *. lia. }
  assert (HBA : forall x, x ∈ A' -> x ∈ B -> False).
  { intros x H3 H4. specialize (HB x H4). specialize (H1 x H3). pose proof (Hok x ltac:(set_solver)).
    unfold before, area_ok in *. lia. }
  apply app_eq_inv in E as [(k & E1 & E2)|(k & E1 & E2)]; subst; destruct k as [|x k]; rewrite ?app_nil_r in *; try done.
  - exfalso. apply (HBA x); set_solver.
  - exfalso. apply (HAB x); set_solver.
Qed.

Section protect.
Context {W : Type} {paging : VmaPaging W} {launch : Process.LaunchEnv}.
Implicit Types (s : vma_state W) (t i j : nat) (p q : Z) (ls : nat -> list nat) (X : list nat).

Lemma areas_ok ls s p : vinv ls s -> areas_wf (areas ls s p).
Proof.
  intros Hi. split.
  - unfold areas. destruct (att s p) as [t|] eqn:Ha; simpl; [|constructor].
    destruct (att_owner _ _ _ _ Hi Ha) as (Ht & _). pose proof (sp_order _ _ (v_space _ _ Hi t Ht)) as Ho.
    unfold areas_at. induction Ho as [|i l Ho IH Hf]; simpl; constructor; [done|].
    rewrite Forall_fmap. eapply Forall_impl; [exact Hf|]. done.
  - intros a (t & i & Ha & Hil & ->)%areas_elem. destruct (att_owner _ _ _ _ Hi Ha) as (Ht & _).
    apply (range_pos _ (listed_range _ _ _ _ Hi Ht Hil)).
Qed.

(** A spare region becomes an area of [p]. *)
Record placed_area ls s ls' s' p i a : Prop := {
  pa_inv : vinv ls' s';
  pa_att : forall q, att s' q = att s q;
  pa_other : forall q, q <> p -> areas ls' s' q = areas ls s q;
  pa_self : area_added ls s ls' s' p a;
  pa_spare : forall j, j <> i -> spare ls s j -> spare ls' s' j /\ pool_at s' j = pool_at s j }.

Lemma place_area_wp ls s p i b e phys prot map btype bh token (Q : Z -> vma_state W -> Prop) :
  vinv ls s -> spare ls s i -> 0 <= b -> e < 2 ^ 64 ->
  (forall s', step ls s ls s' [i] -> spare ls s' i -> Q 0 s') ->
  (forall ls' s', placed_area ls s ls' s' p i (area_of (prepared b e phys prot map btype bh token)) -> Q 1 s') ->
  wp (ready <- vma64_region_prepare i b e phys prot map btype bh token ;;
      if ready =? 0 then ret 0 else vma64_insert p i) Q s.
Proof.
  intros Hi Hs Hb He H0 H1. apply (place_wp ls); try done. intros s1 s' ls' t l1 l2 Hst Hsp Hv Hp Hg.
  apply (H1 ls'). destruct (inserted_added ls s s' p i (pool_at s1 i) t l1 l2 ls' s1 Hi) as (R1 & R2 & R3).
  - split_and!; try done. rewrite Hp. by apply prepared_range.
  - rewrite Hp in R3. destruct Hg as (_ & _ & _ & Hst' & _). split; try done.
    + intros q. by rewrite (st_att _ _ _ _ _ Hst'), (st_att _ _ _ _ _ Hst).
    + intros j Hj Hsj. assert (Hj' : j ∉ [i]) by set_solver. destruct (st_spare _ _ _ _ _ Hst j Hj' Hsj) as [S1 E1].
      destruct (st_spare _ _ _ _ _ Hst' j Hj' S1) as [S2 E2]. by rewrite E2.
Qed.

(** ** Splitting *)

Definition piece (old : area) b e phys prot token : area :=
  mk_area b e phys prot (a_map old) (a_type old) (a_handle old) token.

(** What [vma64_region_physical_for_address] reads of a region. *)
Definition area_physical (a : area) address : Z :=
  if (a_phys a =? 0) || (a_phys a =? VMA64_PHYS_ANON) || (address <? a_base a) || (a_end a <=? address)
  then 0 else add64 (a_phys a) (sub64 address (a_base a)).

Lemma area_physical_of r address : vma64_region_physical_for_address r address = area_physical (area_of r) address.
Proof. done. Qed.

Definition prefix_piece (old : area) address : list area :=
  if a_base old <? address
  then [piece old (a_base old) address (a_phys old) (a_prot old) (vma64_split_token (a_token old) 0xA5000100)] else [].
Definition suffix_piece (old : area) end_ : list area :=
  if end_ <? a_end old
  then [piece old end_ (a_end old) (add64 (a_phys old) (sub64 end_ (a_base old))) (a_prot old)
          (vma64_split_token (a_token old) 0xA5000200)] else [].
Definition middle_piece (old : area) address end_ prot : area :=
  piece old address end_ (area_physical old address) prot (a_token old).
Definition pieces (old : area) address end_ prot : list area :=
  prefix_piece old address ++ middle_piece old address end_ prot :: suffix_piece old end_.

(** Nobody but [p] noticed. *)
Definition kept ls s ls' s' p : Prop := vinv ls' s' /\ forall q, q <> p -> areas ls' s' q = areas ls s q.

Lemma kept_refl ls s p : vinv ls s -> kept ls s ls s p.
Proof. by split. Qed.
Lemma kept_trans ls1 s1 ls2 s2 ls3 s3 p : kept ls1 s1 ls2 s2 p -> kept ls2 s2 ls3 s3 p -> kept ls1 s1 ls3 s3 p.
Proof. intros [H1 H2] [H3 H4]. split; [done|]. intros q Hq. by rewrite H4, H2. Qed.
Lemma kept_unmoved ls s s' p : vinv ls s -> unmoved ls s s' -> kept ls s ls s' p.
Proof.
  intros Hi Hu. split; [destruct Hu as (X & Hst & _); apply Hst|]. intros q _. by apply unmoved_areas.
Qed.
Lemma kept_spare ls s s' p i : vinv ls s -> step ls s ls s' [i] -> spare ls s' i -> kept ls s ls s' p.
Proof. intros Hi Hst Hs. apply kept_unmoved; [done|]. by eapply unmoved_spare. Qed.
Lemma kept_placed ls s ls' s' p i a : placed_area ls s ls' s' p i a -> kept ls s ls' s' p.
Proof. intros H. split; apply H. Qed.

(** Where the new area is, when its neighbours are known. *)
Lemma added_at ls s ls' s' p i a A B :
  placed_area ls s ls' s' p i a -> areas ls s p = A ++ B ->
  (forall x, x ∈ A -> before x a) -> (forall x, x ∈ B -> before a x) -> areas ls' s' p = A ++ a :: B.
Proof.
  intros Hp E HA HB. destruct (pa_self _ _ _ _ _ _ _ Hp) as [(A' & B' & E1 & E2) _].
  pose proof (areas_ok ls' s' p (pa_inv _ _ _ _ _ _ _ Hp)) as Hw. rewrite E2 in Hw.
  assert (Ha : area_ok a) by (apply Hw; set_solver). rewrite E in E1.
  destruct (sorted_place A B A' B' a E1 HA HB Ha Hw) as [-> ->]. done.
Qed.

(** An optional piece: nothing to do, or one more area. *)
Lemma place_optional ls s p (o : option nat) b e phys prot old token (Q : Z -> vma_state W -> Prop) :
  vinv ls s -> (forall i, o = Some i -> spare ls s i) -> 0 <= b -> e < 2 ^ 64 ->
  (forall i s', o = Some i -> step ls s ls s' [i] -> spare ls s' i -> Q 0 s') ->
  (o = None -> Q 1 s) ->
  (forall i ls' s', o = Some i ->
     placed_area ls s ls' s' p i (piece (area_of old) b e phys prot token) -> Q 1 s') ->
  wp (match o with None => ret 1 | Some i => place_region p i b e phys prot old token end) Q s.
Proof.
  intros Hi Hs Hb He H0 HN HS. destruct o as [i|]; [|by apply wp_ret, HN].
  apply (place_area_wp ls); [done|by apply Hs|done|done|intros s'; by apply (H0 i)|]. intros ls' s'. by apply (HS i).
Qed.

Lemma release_spare_wp ls s (o : option nat) (Q : unit -> vma_state W -> Prop) :
  vinv ls s -> (forall i, o = Some i -> spare ls s i) ->
  (forall s', unmoved ls s s' -> (forall j, Some j <> o -> spare ls s j -> spare ls s' j /\ pool_at s' j = pool_at s j) -> Q tt s') ->
  wp (release_spare o) Q s.
Proof.
  intros Hi Hs HQ. destruct o as [i|]; simpl; [|by apply wp_ret, HQ; [apply unmoved_core|]].
  pose proof (Hs i eq_refl) as Hsi. apply (release_step ls); [done|done|]. intros s' Hst. apply HQ.
  - eapply unmoved_drop; [by apply (step_refl ls s [i])|done|done].
  - intros j Hj Hsj. apply Hst; [|done]. intros ->%list_elem_of_singleton. done.
Qed.

(** A spare region came and went. *)
Lemma kept_dropped ls s s1 s2 p i :
  vinv ls s -> step ls s ls s1 [i] -> spare ls s1 i -> unmoved ls s1 s2 -> kept ls s ls s2 p.
Proof.
  intros Hi Hst Hsp Hu. eapply kept_trans; [by eapply kept_spare|]. apply kept_unmoved; [apply Hst|done].
Qed.
Lemma dropped_same ls s s1 s2 p i :
  vinv ls s -> step ls s ls s1 [i] -> spare ls s1 i -> unmoved ls s1 s2 -> areas ls s2 p = areas ls s p.
Proof.
  intros Hi Hst Hsp Hu. apply unmoved_areas; [done|]. eapply unmoved_trans; [by eapply unmoved_spare|done].
Qed.

Section split.
Variables (p : Z) (old : vma_region_t) (address end_ prot : Z) (suf : option nat) (A B : list area).
Hypothesis Hr : range_ok old.
Hypothesis H1 : virt_base old <= address.
Hypothesis H2 : address < end_.
Hypothesis H3 : end_ <= virt_end old.
Hypothesis HA : forall x, x ∈ A -> before x (area_of old).
Hypothesis HB : forall x, x ∈ B -> before (area_of old) x.

Let pre_area := piece (area_of old) (virt_base old) address (phys_base old) (prot_flags old)
  (vma64_split_token (vma_token old) 0xA5000100).
Let suf_area := piece (area_of old) end_ (virt_end old) (add64 (phys_base old) (sub64 end_ (virt_base old)))
  (prot_flags old) (vma64_split_token (vma_token old) 0xA5000200).

(** Between [C] and [B] the pieces of [l] are in place: all of them, or the
    first ones when the call failed. *)
Definition outcome ls s (C l : list area) v s' : Prop :=
  exists ls' D, kept ls s ls' s' p /\ areas ls' s' p = C ++ D ++ B /\ D `prefix_of` l /\ (v = 0 \/ v = 1 /\ D = l).

Lemma outcome_trans ls0 s0 ls s C l v s' : kept ls0 s0 ls s p -> outcome ls s C l v s' -> outcome ls0 s0 C l v s'.
Proof. intros Hk (ls' & D & Hk' & Hv). exists ls', D. split; [by eapply kept_trans|done]. Qed.

(** One more piece in front. *)
Lemma outcome_cons ls0 s0 ls s C a l v s' :
  kept ls0 s0 ls s p -> outcome ls s (C ++ [a]) l v s' -> outcome ls0 s0 C (a :: l) v s'.
Proof.
  intros Hk (ls' & D & Hk' & E & HD & Hv). exists ls', (a :: D). split_and!.
  - by eapply kept_trans.
  - by rewrite E, <- app_assoc.
  - by apply prefix_cons.
  - destruct Hv as [->|[-> ->]]; auto.
Qed.

(** Nothing was placed. *)
Lemma outcome_none ls s C l s' : areas ls s p = C ++ B -> kept ls s ls s' p -> areas ls s' p = areas ls s p -> outcome ls s C l 0 s'.
Proof. intros E Hk E'. exists ls, []. split_and!; [done|by rewrite E'|apply prefix_nil|by left]. Qed.

Lemma before_l x b e phys pr tk : x ∈ A -> virt_base old <= b -> before x (piece (area_of old) b e phys pr tk).
Proof. intros Hx Hb. specialize (HA x Hx). unfold before in *. simpl in *. lia. Qed.
Lemma before_r x b e phys pr tk : x ∈ B -> e <= virt_end old -> before (piece (area_of old) b e phys pr tk) x.
Proof. intros Hx Hb. specialize (HB x Hx). unfold before in *. simpl in *. lia. Qed.

Lemma place_suffix ls s C :
  vinv ls s -> (forall j, suf = Some j -> spare ls s j) -> areas ls s p = C ++ B ->
  (forall x, x ∈ C -> before x suf_area) ->
  wp (last <- (match suf with
               | None => ret 1
               | Some q => place_region p q end_ (virt_end old)
                             (add64 (phys_base old) (sub64 end_ (virt_base old))) (prot_flags old) old
                             (vma64_split_token (vma_token old) 0xA5000200)
               end) ;;
      if last =? 0 then release_spare suf ;;; ret 0 else ret 1)
    (outcome ls s C (match suf with None => [] | Some _ => [suf_area] end)) s.
Proof.
  intros Hi Hsuf HC HCb. pose proof Hr as (_ & R1 & R2).
  apply wp_bind, (place_optional ls); [done|done|lia|lia|..].
  - intros j s1 Hj Hst Hsj. apply wp_bind, (release_spare_wp ls); [apply Hst|intros k Hk; congruence|].
    intros s2 Hu _. apply wp_ret, outcome_none; [done|by eapply kept_dropped|by eapply dropped_same].
  - intros ->. apply wp_ret. exists ls, []. split_and!; [by apply kept_refl|done|done|by right].
  - intros j ls' s' -> Hp. apply wp_ret. exists ls', [suf_area]. split_and!; [by eapply kept_placed| |done|by right].
    simpl. eapply added_at; [exact Hp|done|done|]. intros x Hx. by apply before_r.
Qed.

Lemma place_middle ls s i C :
  vinv ls s -> spare ls s i -> area_of (pool_at s i) = area_of old ->
  (forall j, suf = Some j -> spare ls s j /\ j <> i) -> areas ls s p = C ++ B ->
  (forall x, x ∈ C -> a_end x <= address) ->
  wp (physical <- gets (fun s => vma64_region_physical_for_address (pool_at s i) address) ;;
      middle <- place_region p i address end_ physical prot old (vma_token old) ;;
      if middle =? 0 then ret 0
      else
        last <- (match suf with
                 | None => ret 1
                 | Some q => place_region p q end_ (virt_end old)
                               (add64 (phys_base old) (sub64 end_ (virt_base old))) (prot_flags old) old
                               (vma64_split_token (vma_token old) 0xA5000200)
                 end) ;;
        if last =? 0 then release_spare suf ;;; ret 0 else ret 1)
    (outcome ls s C (middle_piece (area_of old) address end_ prot ::
                   (match suf with None => [] | Some _ => [suf_area] end))) s.
Proof.
  intros Hi Hsp Har Hsuf HC HCb. pose proof Hr as (_ & R1 & R2). apply wp_bind, wp_gets.
  rewrite area_physical_of, Har. apply wp_bind, (place_area_wp ls); [done|done|lia|lia|..].
  - intros s1 Hst Hs1. apply wp_ret, outcome_none; [done|by eapply kept_spare|by eapply unmoved_areas; [|eapply unmoved_spare]].
  - intros ls1 s1 Hp. change (1 =? 0) with false. cbv iota.
    assert (Hl : areas ls1 s1 p = C ++ middle_piece (area_of old) address end_ prot :: B).
    { eapply added_at; [exact Hp|done| |intros x Hx; by apply before_r]. intros x Hx. by apply HCb. }
    eapply wp_mono; [apply (place_suffix ls1 s1 (C ++ [middle_piece (area_of old) address end_ prot]))|].
    + apply Hp.
    + intros j Hj. destruct (Hsuf j Hj) as [S1 S2]. by apply (pa_spare _ _ _ _ _ _ _ Hp).
    + by rewrite <- app_assoc.
    + intros x [Hx|Hx%list_elem_of_singleton]%elem_of_app; [|subst x; unfold before; simpl; lia].
      specialize (HCb x Hx). unfold before. simpl. lia.
    + intros v s'. apply outcome_cons. by eapply kept_placed.
Qed.

Lemma split_region_wp ls s i pre :
  vinv ls s -> spare ls s i -> area_of (pool_at s i) = area_of old ->
  (forall j, pre = Some j -> spare ls s j /\ j <> i /\ suf <> Some j) -> (forall j, suf = Some j -> spare ls s j /\ j <> i) ->
  (pre = None <-> virt_base old = address) -> (suf = None <-> virt_end old = end_) -> areas ls s p = A ++ B ->
  wp (split_region p i old pre suf address end_ prot) (outcome ls s A (pieces (area_of old) address end_ prot)) s.
Proof.
  intros Hi Hsi Har Hpre Hsuf Hpn Hsn HAB. pose proof Hr as (_ & R1 & R2).
  assert (Hpp : prefix_piece (area_of old) address = match pre with None => [] | Some _ => [pre_area] end).
  { unfold prefix_piece. simpl. destruct (Z.ltb_spec (virt_base old) address), pre; try done.
    - pose proof (proj1 Hpn eq_refl). lia.
    - by pose proof (proj2 Hpn ltac:(lia)). }
  assert (Hsp : suffix_piece (area_of old) end_ = match suf with None => [] | Some _ => [suf_area] end).
  { unfold suffix_piece. simpl. destruct (Z.ltb_spec end_ (virt_end old)), suf; try done.
    - pose proof (proj1 Hsn eq_refl). lia.
    - by pose proof (proj2 Hsn ltac:(lia)). }
  unfold pieces. rewrite Hpp, Hsp. unfold split_region.
  apply wp_bind, (place_optional ls); [done|intros j Hj; by apply Hpre|lia|lia|..].
  - intros j s1 Hj Hst Hsj. apply wp_bind, (release_spare_wp ls); [apply Hst|intros k Hk; congruence|].
    intros s2 Hu _. apply wp_ret, outcome_none; [done|by eapply kept_dropped|by eapply dropped_same].
  - intros ->. apply (place_middle ls s i A); try done. intros x Hx. specialize (HA x Hx). unfold before in HA. simpl in HA. lia.
  - intros j ls1 s1 -> Hp. destruct (Hpre j eq_refl) as (S1 & S2 & S3).
    assert (Hl : areas ls1 s1 p = A ++ pre_area :: B).
    { eapply added_at; [exact Hp|done|intros x Hx; by apply before_l|intros x Hx; apply before_r; [done|lia]]. }
    destruct (pa_spare _ _ _ _ _ _ _ Hp i ltac:(congruence) Hsi) as [Hsi1 Hpi].
    eapply wp_mono; [apply (place_middle ls1 s1 i (A ++ [pre_area]))|].
    + apply Hp.
    + done.
    + by rewrite Hpi.
    + intros k Hk. destruct (Hsuf k Hk) as [K1 K2]. split; [|done]. apply (pa_spare _ _ _ _ _ _ _ Hp); [congruence|done].
    + by rewrite <- app_assoc.
    + intros x [Hx|Hx%list_elem_of_singleton]%elem_of_app; [|subst x; simpl; lia]. specialize (HA x Hx). unfold before in HA. simpl in HA. lia.
    + intros v s'. simpl. apply outcome_cons. by eapply kept_placed.
Qed.

End split.
(** ** The whole call *)

Lemma unmoved_listed ls s s' t j : unmoved ls s s' -> (t < TREES)%nat -> j ∈ ls t -> area_of (pool_at s' j) = area_of (pool_at s j).
Proof. intros (X & Hst & HX) Ht Hj. apply Hst. by apply (HX t). Qed.
Lemma unmoved_att ls s s' q : unmoved ls s s' -> att s' q = att s q.
Proof. intros (X & Hst & _). apply Hst. Qed.
Lemma unmoved_inv ls s s' : unmoved ls s s' -> vinv ls s'.
Proof. intros (X & Hst & _). apply Hst. Qed.

(** The spare regions, as asked for and different from each other. *)
Definition spares_ok ls s (b1 b2 : bool) (pre suf : option nat) : Prop :=
  (pre = None <-> b1 = false) /\ (suf = None <-> b2 = false) /\
  (forall j, pre = Some j -> spare ls s j /\ suf <> Some j) /\ (forall j, suf = Some j -> spare ls s j).

Lemma acquire_optional ls s (b : bool) (Q : option nat -> vma_state W -> Prop) :
  vinv ls s -> Q None s ->
  (forall i s', b = true -> step ls s ls s' [i] -> spare ls s' i -> ~ spare ls s i -> Q (Some i) s') ->
  wp (if b then vma64_region_acquire else ret None) Q s.
Proof. intros Hi HN HS. destruct b; [|by apply wp_ret]. apply (acquire_step ls); auto. Qed.

Lemma acquire_spares_wp ls s b1 b2 (Q : option (option nat * option nat) -> vma_state W -> Prop) :
  vinv ls s -> (forall s', unmoved ls s s' -> Q None s') ->
  (forall s' pre suf, unmoved ls s s' -> spares_ok ls s' b1 b2 pre suf -> Q (Some (pre, suf)) s') ->
  wp (acquire_spares b1 b2) Q s.
Proof.
  intros Hi HN HS. unfold acquire_spares.
  assert (Hrest : forall s1 pre, unmoved ls s s1 -> (pre = None <-> b1 = false) -> (forall j, pre = Some j -> spare ls s1 j) ->
    wp (suffix <- (if b2 then vma64_region_acquire else ret None) ;;
        if b2 && bool_decide (suffix = None) then release_spare pre ;;; ret None else ret (Some (pre, suffix))) Q s1).
  { intros s1 pre Hu Hb Hsp. pose proof (unmoved_inv _ _ _ Hu) as Hi1. apply wp_bind, (acquire_optional ls); [done|..].
    - destruct b2; cbn [andb].
      + rewrite bool_decide_true by done. apply wp_bind, (release_spare_wp ls); [done|done|]. intros s2 Hu2 _.
        apply wp_ret, HN. by eapply unmoved_trans.
      + apply wp_ret, HS; [done|]. split_and!; try done. intros j Hj. split; [by apply Hsp|done].
    - intros i s2 -> Hst Hsi Hni. rewrite bool_decide_false by done. apply wp_ret, HS.
      { eapply unmoved_trans; [done|]. by eapply unmoved_spare. }
      split_and!; try done; [|by intros j [= <-]]. intros j Hj. specialize (Hsp j Hj).
      assert (Hne : j <> i) by congruence. split; [|congruence]. apply Hst; [|done]. set_solver. }
  apply wp_bind, (acquire_optional ls); [done|..].
  - destruct b1; cbn [andb].
    + rewrite bool_decide_true by done. by apply wp_ret, HN, unmoved_core.
    + apply Hrest; [by apply unmoved_core|done|done].
  - intros i s1 -> Hst Hsi _. rewrite bool_decide_false by done. cbn [andb]. apply Hrest.
    + by eapply unmoved_spare.
    + done.
    + by intros j [= <-].
Qed.

Definition protect_result ls s p address len prot v s' : Prop :=
  exists ls', kept ls s ls' s' p /\
    ((v = 0 /\ areas ls' s' p = areas ls s p) \/
     exists A old B D, areas ls s p = A ++ old :: B /\ a_base old <= address /\
       address < add64 address len /\ add64 address len <= a_end old /\
       areas ls' s' p = A ++ D ++ B /\ D `prefix_of` pieces old address (add64 address len) prot /\
       (v = 0 \/ v = 1 /\ D = pieces old address (add64 address len) prot)).

Lemma add64_grow a len : 0 < len < 2 ^ 64 -> 0 <= a < 2 ^ 64 -> a <= add64 a len -> a < add64 a len.
Proof.
  intros Hl Ha Hle. destruct (decide (a + len < 2 ^ 64)) as [H|H].
  - unfold add64, wrap64. rewrite Z.mod_small by lia. lia.
  - exfalso. revert Hle. unfold add64, wrap64. replace (a + len) with (a + len - 2 ^ 64 + 1 * 2 ^ 64) by lia.
    rewrite Z_mod_plus_full, Z.mod_small by lia. lia.
Qed.

Lemma protect_pages_01 p a prot i ks s : wp (protect_pages p a prot i ks) (fun v _ => v = 0 \/ v = 1) s.
Proof.
  revert s. induction ks as [|k ks IH]; intros s; simpl; [apply wp_ret; by right|]. apply wp_bind.
  eapply (wp_mono _ (fun _ _ => True)); [done|]. intros ok s' _. destruct (ok =? 0); [apply wp_ret; by left|apply IH].
Qed.

(** What follows once the area around the range is known. *)
Lemma protect_known ls s p t i (pre suf : option nat) address end_ prot n old :
  vinv ls s -> att s p = Some t -> i ∈ ls t -> area_of (pool_at s i) = area_of old ->
  virt_base old <= address -> address < end_ -> end_ <= virt_end old ->
  spares_ok ls s (virt_base old <? address) (end_ <? virt_end old) pre suf ->
  wp (removed <- vma64_remove p (virt_base old) (virt_end old) ;;
      if negb (bool_decide (removed = Some i)) then release_spare pre ;;; release_spare suf ;;; ret 0
      else
        placed <- split_region p i old pre suf address end_ prot ;;
        if placed =? 0 then ret 0
        else protect_pages p address (vma64_paging_prot prot) i (seq 0 (Z.to_nat n)))
    (fun v s' => exists A B, areas ls s p = A ++ area_of old :: B /\
       outcome p B ls s A (pieces (area_of old) address end_ prot) v s') s.
Proof.
  intros Hi Ha Hil Har H1 H2 H3 (P1 & P2 & P3 & P4). destruct (att_owner _ _ _ _ Hi Ha) as (Ht & _).
  pose proof (listed_range _ _ _ _ Hi Ht Hil) as Hr.
  assert (Hr' : range_ok old) by (revert Hr; unfold range_ok; by injection Har as -> ->).
  apply wp_bind, (remove_known ls s p t i); [done|done|done|by injection Har|by injection Har|].
  intros s1 ls1 l1 l2 Hlost. rewrite bool_decide_true by done. cbn [negb].
  destruct (lost_areas ls s ls1 s1 p i t l1 l2 Hi Hlost) as (L1 & L2 & L3).
  destruct Hlost as (_ & Hl & _ & Hst & Hsi). pose proof (st_inv _ _ _ _ _ Hst) as Hi1. rewrite Har in L1.
  pose proof (areas_ok ls s p Hi) as [Hsrt _]. rewrite L1 in Hsrt. apply sorted_before in Hsrt as [HA HB].
  assert (Hkeep : forall j, spare ls s j -> spare ls1 s1 j /\ j <> i).
  { intros j Hj. split; [apply Hst; [set_solver|done]|]. intros ->. by apply (proj2 (proj2 Hj) t Ht). }
  assert (Hk : kept ls s ls1 s1 p) by (by split).
  apply wp_bind. eapply wp_mono; [apply (split_region_wp p old address end_ prot suf (areas_at s l1) (areas_at s l2) Hr' H1 H2 H3 HA HB ls1 s1 i pre)|].
  - done.
  - done.
  - rewrite (st_area _ _ _ _ _ Hst) by set_solver. done.
  - intros j Hj. destruct (P3 j Hj) as [S1 S2], (Hkeep j ltac:(apply P3; done)). done.
  - intros j Hj. apply Hkeep, P4, Hj.
  - rewrite P1. rewrite Z.ltb_ge. lia.
  - rewrite P2. rewrite Z.ltb_ge. lia.
  - done.
  - intros v s2 (ls2 & D & Hk2 & E2 & HD & Hv). destruct (Z.eqb_spec v 0) as [->|Hne].
    + apply wp_ret. eexists _, _. split; [done|]. exists ls2, D. split_and!; [by eapply kept_trans|done|done|by left].
    + destruct Hv as [?|[-> ->]]; [done|]. destruct Hk2 as [Hi2 Ho2].
      pose proof (protect_pages_01 p address (vma64_paging_prot prot) i (seq 0 (Z.to_nat n)) s2) as H01.
      eapply (wp_mono _ (fun v s' => core s' = core s2 /\ (v = 0 \/ v = 1))).
      { split; [|exact H01]. apply (still_protect _ _ _ _ _ s2 (v_init _ _ Hi2)). done. }
      intros w s3 [Hc H01']. exists (areas_at s l1), (areas_at s l2). split; [done|]. exists ls2. eexists.
      assert (Hu3 : unmoved ls2 s2 s3) by (by apply unmoved_core). split_and!; [|by rewrite (unmoved_areas ls2 s2 s3)|done|].
      { eapply kept_trans; [exact Hk|]. eapply kept_trans; [by split; [exact Hi2|exact Ho2]|]. by apply kept_unmoved. }
      destruct H01' as [-> | ->]; [by left|by right].
Qed.

Lemma protect_wp ls s p address len prot :
  vinv ls s -> 0 <= address < 2 ^ 64 -> 0 <= len < 2 ^ 64 ->
  wp (vma64_protect p address len prot) (protect_result ls s p address len prot) s.
Proof.
  intros Hi Haddr Hlen. unfold vma64_protect.
  assert (Hno : forall s', unmoved ls s s' -> protect_result ls s p address len prot 0 s').
  { intros s' Hu. exists ls. split; [by apply kept_unmoved|]. left. split; [done|]. by apply unmoved_areas. }
  destruct (_ || _) eqn:Hg; [by apply wp_ret, Hno, unmoved_core|].
  apply orb_false_iff in Hg as [[G1%Z.eqb_neq _]%orb_false_iff G3%Z.ltb_ge].
  pose proof (page_count_pos _ G1 ltac:(lia)) as Hpos. pose proof (add64_grow address len ltac:(lia) Haddr G3) as Hlt.
  apply wp_bind, (vma_find_wp ls); [done|]. intros s1 (Hc1 & _). pose proof (unmoved_core ls s s1 Hi Hc1) as Hu1.
  destruct (lookup ls s p address) as [i|] eqn:Hl; [|by apply wp_ret, Hno].
  apply lookup_in in Hl as (t & Ha & Hil & Hin). destruct (att_owner _ _ _ _ Hi Ha) as (Ht & _).
  apply wp_bind, wp_gets. rewrite (pool_core s s1) by done.
  destruct (_ || _) eqn:Hg; [by apply wp_ret, Hno|]. apply orb_false_iff in Hg as [Hend%Z.ltb_ge _].
  apply wp_bind, wp_gets. destruct (_ && _); [by apply wp_ret, Hno|].
  apply wp_bind, (acquire_spares_wp ls); [by eapply unmoved_inv|..].
  { intros s2 Hu2. apply wp_ret, Hno. by eapply unmoved_trans. }
  intros s2 pre suf Hu2 Hsp. pose proof (unmoved_trans _ _ _ _ Hu1 Hu2) as Hu.
  eapply wp_mono; [apply (protect_known ls s2 p t i); try done|].
  - by eapply unmoved_inv.
  - by rewrite (unmoved_att ls s s2).
  - by apply (unmoved_listed ls s s2 t).
  - lia.
  - intros v s3 (A & B & E & ls3 & D & Hk & E3 & HD & Hv). exists ls3. split.
    { eapply kept_trans; [apply kept_unmoved; [done|exact Hu]|exact Hk]. }
    rewrite (unmoved_areas ls s s2) in E by done.
    right. exists A, (area_of (pool_at s i)), B, D. split_and!; try done; simpl; lia.
Qed.

End protect.
End VmaProtect.
