(* ===== verification/VmaCow.v ===== *)
(** * Copy on write

    Sharing a page between two processes and splitting it again at the first
    write: the areas change their flags and pages, never their ranges, and
    the page drawn at the split holds the bytes of the shared one. *)

From stdpp Require Import sorting.
From S2P Require Import Prelude Process ProcessFacts PersonaBudget VmaTree RbTree VmaRb VmaList VmaSpace VmaSpaceOps VmaGap Vma VmaFacts VmaOps VmaSteps VmaCalls VmaRelease VmaProtect.
Import PersonaBudget VmaTree VmaRb VmaList VmaSpace VmaSpaceOps VmaGap Vma VmaFacts VmaOps VmaSteps VmaPages VmaCalls VmaRelease VmaProtect.
Local Open Scope Z_scope.
Local Open Scope kernel_scope.

Module VmaCow.

(** The range and the links of a region. *)
Definition shape (r : vma_region_t) := (virt_base r, virt_end r, prev r, next r, links r).

Lemma shape_inj r r' : shape r' = shape r ->
  virt_base r' = virt_base r /\ virt_end r' = virt_end r /\ prev r' = prev r /\ next r' = next r /\ links r' = links r.
Proof. unfold shape. intros H. split_and!; congruence. Qed.

(** An address space only depends on the shapes of its regions. *)
Lemma space_shape h h' l :
  tree h' = tree h -> length (regions h') = length (regions h) ->
  (forall i, shape (region_at h' i) = shape (region_at h i)) -> space h l -> space h' l.
Proof.
  intros Ht Hlen Hsh [Hl Hx Ho Hg Hc Hb Hp].
  assert (Hb' : forall i, virt_base (region_at h' i) = virt_base (region_at h i)) by (intros i; by apply shape_inj).
  assert (He' : forall i, virt_end (region_at h' i) = virt_end (region_at h i)) by (intros i; by apply shape_inj).
  assert (Hsum : forall l0, bytes h' l0 = bytes h l0).
  { induction l0 as [|i l0 IH]; simpl; [done|]. by rewrite IH, Hb', He'. }
  split.
  - destruct Hl as [H1 H2]. split; [|by rewrite Ht]. eapply dseg_frame; [done| |exact H1].
    intros i _. by destruct (shape_inj _ _ (Hsh i)) as (_ & _ & -> & -> & _).
  - destruct Hx as (tr & n & [[H1 H2] H3] & H4 & H5 & H6). exists tr, n. split_and!; try done.
    split; [split|done]; [|simpl; by rewrite Ht]. eapply rep_links; [done| |exact H1]. intros i _. by apply shape_inj.
  - clear -Ho Hb' He'. induction Ho as [|i l Ho IH Hf]; constructor; [done|].
    eapply Forall_impl; [exact Hf|]. intros j. unfold below. by rewrite Hb', He'.
  - intros i Hi. unfold range_ok. rewrite Hb', He'. by apply Hg.
  - by rewrite Ht.
  - by rewrite Ht, Hsum.
  - by rewrite Hlen.
Qed.

Section cow.
Context {W : Type} {paging : VmaPaging W} {launch : Process.LaunchEnv}.
Implicit Types (s : vma_state W) (t i j : nat) (p q : Z) (ls : nat -> list nat) (X : list nat).

Definition relabelled i f s : vma_state W := s <| g_vma64_regions := alter f i (g_vma64_regions s) |>.

Lemma pool_relabelled i f s j : (i < length (g_vma64_regions s))%nat ->
  pool_at (relabelled i f s) j = if decide (i = j) then f (pool_at s j) else pool_at s j.
Proof. intros Hi. unfold pool_at at 1. simpl. by apply pool_alter. Qed.

Lemma vinv_relabelled ls s i f :
  vinv ls s -> (i < VMA64_MAX_STATIC_REGIONS)%nat -> (forall r, shape (f r) = shape r) -> vinv ls (relabelled i f s).
Proof.
  intros Hi Hlt Hf. split; try apply Hi; simpl.
  - rewrite length_alter. apply Hi.
  - intros t Ht. eapply space_shape; [..|apply (v_space _ _ Hi t Ht)]; simpl; [done|by rewrite length_alter|].
    intros j. rewrite !region_heap. change (shape (pool_at (relabelled i f s) j) = shape (pool_at s j)).
    rewrite pool_relabelled by (by rewrite (v_regions _ _ Hi)). case_decide; [apply Hf|done].
Qed.

(** Changing one listed region changes one area of its owner. *)
Lemma relabelled_areas ls s i f p t l1 l2 :
  vinv ls s -> att s p = Some t -> ls t = l1 ++ i :: l2 -> (forall r, shape (f r) = shape r) ->
  vinv ls (relabelled i f s) /\ areas ls s p = areas_at s l1 ++ area_of (pool_at s i) :: areas_at s l2 /\
  areas ls (relabelled i f s) p = areas_at s l1 ++ area_of (f (pool_at s i)) :: areas_at s l2 /\
  forall q, q <> p -> areas ls (relabelled i f s) q = areas ls s q.
Proof.
  intros Hi Ha Hl Hf. destruct (att_owner _ _ _ _ Hi Ha) as (Ht & _).
  assert (Hlt : (i < VMA64_MAX_STATIC_REGIONS)%nat) by (apply (listed_pool ls s t); [done|done|rewrite Hl; set_solver]).
  assert (Hlt' : (i < length (g_vma64_regions s))%nat) by (by rewrite (v_regions _ _ Hi)).
  pose proof (space_nodup (v_space _ _ Hi t Ht)) as Hnd. rewrite Hl in Hnd.
  apply NoDup_app in Hnd as (_ & N1 & [N2 _]%NoDup_cons).
  assert (Hsame : forall l, i ∉ l -> areas_at (relabelled i f s) l = areas_at s l).
  { intros l Hil. apply areas_at_ext. intros j Hj. rewrite pool_relabelled, decide_False; [done|set_solver|done]. }
  split_and!.
  - by apply vinv_relabelled.
  - unfold areas. rewrite Ha. simpl. by rewrite Hl, areas_at_app.
  - unfold areas. change (att (relabelled i f s) p) with (att s p). rewrite Ha. simpl. rewrite Hl, areas_at_app, Hsame by set_solver.
    f_equal. unfold areas_at at 1. simpl. rewrite pool_relabelled, decide_True by done. f_equal. by apply Hsame.
  - intros q Hq. unfold areas. change (att (relabelled i f s) q) with (att s q). destruct (att s q) as [t'|] eqn:Hqa; [|done].
    simpl. apply Hsame. intros Hin. destruct (att_owner _ _ _ _ Hi Hqa) as (Ht' & _).
    apply (att_other ls s p q t t' Hi Ha Hqa Hq). apply (v_disjoint _ _ Hi t' t i); try done. rewrite Hl. set_solver.
Qed.

(** ** The write fault *)

(** The area of a copied page: its own page, no longer shared. *)
Definition copied (a : area) phys : area :=
  mk_area (a_base a) (a_end a) phys (a_prot a) (Z.land (a_map a) (not32 VMA64_MAP_COPY_ON_WRITE))
    (a_type a) (a_handle a) (a_token a).

Definition shared_page (a : area) page : Prop :=
  a_base a = page /\ a_end a = add64 page VMA64_PAGE_BYTES /\ a_type a = VMA64_BACKING_ANON /\
  Z.land (a_map a) VMA64_MAP_COPY_ON_WRITE <> 0 /\ Z.land (a_prot a) VMA64_PROT_WRITE <> 0.

(** What happens to the pages of the pool, with the address [old] of the
    shared one: a page [k] that was free, and is used once, has the bytes of
    the shared page [src], which has one user less; the page tables map the
    new page with the protection of the area. *)
Record page_split s s' p page (a : area) phys k src : Prop := {
  ps_phys : phys = anon_physical (vma_paging s) k;
  ps_source : vma64_anon_page_index (vma_paging s) (vma64_paging_user_page_physical p page s) = Some src;
  ps_apart : k <> src;
  ps_free : page_used s k = 0;
  ps_used : page_used s' k = 1;
  ps_bytes : page_at s' k = page_at s src;
  ps_left : let left := if nz (page_used s src) then dec32 (page_used s src) else 0 in
    page_used s' src = left /\ page_at s' src = if left =? 0 then zero_page else page_at s src;
  ps_other : forall j, j <> k -> j <> src -> page_used s' j = page_used s j /\ page_at s' j = page_at s j;
  ps_mapped : let m := vma64_paging_remap_user_page p page phys (vma64_paging_prot (a_prot a)) s in
    fst m <> 0 /\ vma_paging s' = vma_paging (snd m) }.

Definition fault_result ls s p address v s' : Prop :=
  vinv ls s' /\ (forall q, q <> p -> areas ls s' q = areas ls s q) /\
    (v = 0 /\ areas ls s' p = areas ls s p \/
     v = 1 /\ exists A a B phys, areas ls s p = A ++ a :: B /\ areas ls s' p = A ++ copied a phys :: B /\
       shared_page a (vma64_align_down address VMA64_PAGE_BYTES) /\ phys <> 0 /\
       (VmaPagingLaws W -> pool_ok s -> exists k src, page_split s s' p (vma64_align_down address VMA64_PAGE_BYTES) a phys k src)).

(** The new page, as it is after the claim, the copy and the release. *)
Lemma split_pages s s2 s3 s4 s5 s6 k src :
  pool_ok s -> drawn s s2 k 1 -> src <> k -> (src < PAGES)%nat ->
  pages_but k s2 s3 -> page_at s3 k = page_at s2 src -> page_used s3 k = page_used s2 k ->
  pview s4 = pview s3 -> given_back s4 s5 src -> pview s6 = pview s5 ->
  page_used s k = 0 /\ page_used s6 k = 1 /\ page_at s6 k = page_at s src /\
  (let left := if nz (page_used s src) then dec32 (page_used s src) else 0 in
   page_used s6 src = left /\ page_at s6 src = if left =? 0 then zero_page else page_at s src) /\
  forall j, j <> k -> j <> src -> page_used s6 j = page_used s j /\ page_at s6 j = page_at s j.
Proof.
  intros Hp [D1 D2 D3 D4 D5 D6] Hne Hsrc (_ & _ & _ & B) Hb Hu E4 ((_ & _ & _ & G) & G2 & G3) E6.
  assert (Hin : inside k 1 k) by (unfold inside; lia).
  assert (Hout : forall j, j <> k -> ~ inside k 1 j) by (unfold inside; intros; lia).
  assert (H3 : forall j, j <> k -> page_used s4 j = page_used s j /\ page_at s4 j = page_at s j).
  { intros j Hj. rewrite (used_view s3), (page_view s3) by done. destruct (B j Hj) as [-> ->]. by apply D6, Hout. }
  destruct (H3 src Hne) as [S1 S2]. cbv zeta in G2, G3. rewrite S1 in G2, G3. rewrite S2 in G3.
  destruct (G k ltac:(congruence)) as [K1 K2]. split_and!.
  - by apply D4.
  - rewrite (used_view s5), K1, (used_view s3), Hu by done. by apply D5.
  - rewrite (page_view s5), K2, (page_view s3), Hb by done. by apply D6, Hout.
  - rewrite (used_view s5 s6), (page_view s5 s6) by done. by rewrite G2, G3.
  - intros j J1 J2. rewrite (used_view s5), (page_view s5) by done. destruct (G j J2) as [-> ->]. by apply H3.
Qed.

(** The same for the states of the call: the lookup, the claim, the copy, the
    remapping, the area and the release. *)
Lemma split_intro s s1 s2 s3 s4 s5 s6 p page (r : vma_region_t) phys tgt src :
  let old := vma64_paging_user_page_physical p page s1 in
  let m := vma64_paging_remap_user_page p page phys (vma64_paging_prot (prot_flags r)) in
  core s1 = core s -> core s3 = core s -> paged s s1 -> vma_paging s1 = vma_paging s -> vma_paging s2 = vma_paging s1 ->
  vma_paging s3 = vma_paging s2 -> pool_ok s -> phys <> 0 -> phys <> old ->
  vma64_anon_page_index (vma_paging s1) old = Some src -> vma64_anon_page_index (vma_paging s2) phys = Some tgt ->
  (pool_ok s1 -> phys <> 0 -> exists k, phys = anon_physical (vma_paging s1) k /\ drawn s1 s2 k 1 /\ 1 <> 0) ->
  (pool_ok s2 -> pages_but tgt s2 s3 /\ page_at s3 tgt = page_at s2 src /\ page_used s3 tgt = page_used s2 tgt) ->
  pview s4 = pview s3 -> (pool_ok s4 -> given_back s4 s5 src) -> pview s6 = pview s5 ->
  vma_paging s6 = vma_paging (snd (m s3)) -> fst (m s3) <> 0 ->
  exists k src, page_split s s6 p page (area_of r) phys k src.
Proof.
  intros old m Hc1 Hc3 Hp1 Hw1 Hw2 Hw3 Hpool Hph Hdiff Hsrc Htgt Hcl Hcp Hv4 Hgb Hv6 Hw6 Hok.
  pose proof (index_some _ _ _ Hsrc) as [Hsl Hse]. destruct (Hcl (pool_ok_view s s1 (proj1 Hp1) Hpool) Hph) as (k & Ek & Hd & _).
  assert (tgt = k) as ->.
  { rewrite Ek, <- (physical_base s1 s2) in Htgt by apply Hd. pose proof (dw_in _ _ _ _ Hd).
    rewrite index_physical in Htgt by (lia || apply Hd). congruence. }
  destruct (Hcp (dw_pool _ _ _ _ Hd)) as (Hb3 & Hc3' & Hu3). assert (Hne : src <> k) by (intros ->; congruence).
  apply (drawn_from s s1) in Hd; [|apply Hp1].
  destruct (split_pages s s2 s3 s4 s5 s6 k src) as (P1 & P2 & P3 & P4 & P5); try done; [apply Hgb, (pool_ok_view s3), Hb3, Hd; done|].
  pose proof (core_inj s s3 Hc3) as (_ & _ & _ & _ & _ & Hps). pose proof (core_inj s s1 Hc1) as (_ & _ & _ & _ & _ & Hps1).
  assert (Em : fst (m s3) = fst (m s) /\ vma_paging (snd (m s3)) = vma_paging (snd (m s)))
    by (apply (on_paging_ext s s3); [exact Hps|congruence]). destruct Em as [E1 E2].
  exists k, src. split; [| |congruence|exact P1|exact P2|exact P3|exact P4|exact P5|].
  - by rewrite Ek, Hw1.
  - unfold old, vma64_paging_user_page_physical in Hsrc. by rewrite Hps1, Hw1 in Hsrc.
  - change (fst (m s) <> 0 /\ vma_paging s6 = vma_paging (snd (m s))). rewrite <- E1, <- E2. done.
Qed.

Lemma cow_fault_wp ls s p address error_code :
  vinv ls s -> wp (vma64_handle_cow_fault p address error_code) (fault_result ls s p address) s.
Proof.
  intros Hi. unfold vma64_handle_cow_fault. set (page := vma64_align_down address VMA64_PAGE_BYTES).
  assert (Hno : forall s', core s' = core s -> fault_result ls s p address 0 s').
  { intros s' Hc. pose proof (unmoved_core ls s s' Hi Hc) as Hu. split_and!; [by eapply unmoved_inv| |].
    - intros q _. by apply unmoved_areas.
    - left. split; [done|]. by apply unmoved_areas. }
  destruct (_ || _); [by apply wp_ret, Hno|]. apply (know_next _ _ (fun _ s1 => paged s s1 /\ vma_paging s1 = vma_paging s));
    [split; [apply pageless_find, paged_refl, Hi|apply dark_find]|]. apply (vma_find_wp ls); [done|]. intros s1 (Hc1 & _) [Hp1 Hw1].
  destruct (lookup ls s p page) as [i|] eqn:Hl; [|by apply wp_ret, Hno]. apply lookup_in in Hl as (t & Ha & Hil & _).
  do 3 apply wp_bind, wp_gets. rewrite (pool_core s s1) by done.
  destruct (_ || _) eqn:Hg; [by apply wp_ret, Hno|].
  repeat (apply orb_false_iff in Hg as [Hg ?]). boolify.
  assert (Hsh : shared_page (area_of (pool_at s i)) page) by (split_and!; simpl; lia).
  do 2 apply wp_bind, wp_gets. assert (Hi1 : vinv ls s1) by (by eapply vinv_core).
  eapply (still_know _ _ (fun phys s2 => (pool_ok s1 -> phys <> 0 ->
    exists k, phys = anon_physical (vma_paging s1) k /\ drawn s1 s2 k 1 /\ 1 <> 0) /\ vma_paging s2 = vma_paging s1) ls s1);
    [apply still_claim|apply (step_refl ls s1 [] Hi1)|split; [intros Hpool; apply claim_wp; [done|apply Hi1]|apply dark_claim]|].
  intros phys s2 Hc2 Hst2 [Hcl Hw2]. apply wp_bind, wp_gets. assert (Hc : core s2 = core s) by congruence.
  assert (Hfail : wp ((if negb (phys =? 0) then vma64_release_anon_pages phys 1 else ret tt) ;;; ret 0)
    (fault_result ls s p address) s2).
  { eapply (still_next _ _ ls s1); [apply still_if; [apply still_release|apply still_ret]|exact Hst2|].
    intros _ s3 Hc3 _. apply wp_ret, Hno. congruence. }
  set (old := vma64_paging_user_page_physical p page s1) in *.
  destruct (vma64_anon_page_ptr old (vma_paging s1)) as [src|] eqn:Hsrc, (vma64_anon_page_ptr phys (vma_paging s2)) as [tgt|] eqn:Htgt;
    try exact Hfail. destruct (_ && _) eqn:Hdiff; [|exact Hfail]. apply andb_true_iff in Hdiff as [Hdiff%negb_true_iff%Z.eqb_neq _].
  apply index_some in Hsrc as Hs'. destruct Hs' as [Hsl Hse]. apply index_some in Htgt as Ht'. destruct Ht' as [Htl Hte].
  eapply (still_know _ _ (fun _ s3 => (pool_ok s2 -> pages_but tgt s2 s3 /\ page_at s3 tgt = page_at s2 src /\ page_used s3 tgt = page_used s2 tgt) /\
    vma_paging s3 = vma_paging s2) ls s1); [apply still_copy|exact Hst2|split; [intros Hpool; by apply copy_page_wp|apply dark_copy]|].
  intros _ s3 Hc3 Hst3 [Hcp Hw3]. set (m := vma64_paging_remap_user_page p page phys _) in *.
  eapply (still_know _ _ (fun ok s4 => (VmaPagingLaws W -> paged s3 s4) /\ ok = fst (m s3) /\ vma_paging s4 = vma_paging (snd (m s3))) ls s1); [apply still_paging|exact Hst3| |].
  { split; [intros laws; apply pageless_remap, paged_refl, (st_inv _ _ _ _ _ Hst3)|done]. }
  intros ok s4 Hc4 Hst4 (Hp4 & Hok & Hw4). destruct (ok =? 0) eqn:Hokz.
  { eapply (still_next _ _ ls s1); [apply still_release|exact Hst4|]. intros _ s5 Hc5 _. apply wp_ret, Hno. congruence. }
  apply list_elem_of_split in Hil as (l1 & l2 & Hls). assert (Hcs : core s4 = core s) by congruence.
  apply wp_bind, wp_modify. set (f := fun q : vma_region_t => q <| phys_base := phys |> <| map_flags := _ |>).
  change (s4 <| g_vma64_regions := _ |>) with (relabelled i f s4).
  destruct (relabelled_areas ls s4 i f p t l1 l2) as (R1 & R2 & R3 & R4); [by eapply vinv_core|by rewrite (att_core s s4)|done|done|].
  eapply (still_know _ _ (fun _ s5 => (VmaPagingLaws W -> pool_ok s4 -> given_back (relabelled i f s4) s5 src) /\ vma_paging s5 = vma_paging s4) ls (relabelled i f s4));
    [apply still_release|apply (step_refl ls _ [] R1)| |].
  { split; [|exact (dark_release_pages old 1 (relabelled i f s4))]. intros laws Hpool. rewrite <- Hse.
    rewrite <- (physical_base s1 s4) by (destruct (pview_inj _ _ (proj1 (Hp4 laws))) as (_ & _ & ->); by rewrite Hw3, Hw2).
    apply (release_one_wp (relabelled i f s4)); [done|]. by apply (pool_ok_view s4). }
  intros _ s5 Hc5 Hst5 [Hgb Hw5].
  apply wp_bind, wp_modify, wp_ret. assert (Hu : unmoved ls (relabelled i f s4) (s5 <| g_vma64_cow_fault_count := inc32 (g_vma64_cow_fault_count s5) |>))
    by (apply unmoved_core; [done|exact Hc5]).
  assert (Hs4 : forall q, areas ls s4 q = areas ls s q) by (intros q; apply unmoved_areas; [done|by apply unmoved_core]).
  split_and!; [by eapply unmoved_inv| |].
  - intros q Hq. rewrite (unmoved_areas ls (relabelled i f s4)) by done. by rewrite R4, Hs4.
  - right. split; [done|]. exists (areas_at s4 l1), (area_of (pool_at s4 i)), (areas_at s4 l2), phys. split_and!.
    + by rewrite <- R2, Hs4.
    + by rewrite (unmoved_areas ls (relabelled i f s4)) by done.
    + by rewrite (pool_core s s4).
    + intros ->. done.
    + intros laws Hpool. rewrite (pool_core s s4) by done.
      apply (split_intro s s1 s2 s3 (relabelled i f s4) s5 _ p page (pool_at s i) phys tgt src);
        [exact Hc1|congruence|exact Hp1|exact Hw1|exact Hw2|exact Hw3|exact Hpool|by intros ->|exact Hdiff|exact Hsrc|exact Htgt|exact Hcl|exact Hcp
        |by apply Hp4|intros Hpool4; by apply Hgb, (pool_ok_view (relabelled i f s4))|done|exact (eq_trans Hw5 Hw4)|].
      change (fst (m s3) <> 0). rewrite <- Hok. by apply Z.eqb_neq.
Qed.

(** ** Sharing a page *)

Definition marked (a : area) : area :=
  mk_area (a_base a) (a_end a) (a_phys a) (a_prot a) (Z.lor (a_map a) VMA64_MAP_COPY_ON_WRITE)
    (a_type a) (a_handle a) (a_token a).
(** The area of the process the page is shared with. *)
Definition shared (a : area) page phys : area :=
  mk_area page (add64 page VMA64_PAGE_BYTES) phys (a_prot a) (Z.lor (a_map a) VMA64_MAP_COPY_ON_WRITE)
    VMA64_BACKING_ANON VMA64_BACKING_HANDLE_NONE (vma64_split_token (a_token a) 0xA7001000).

Definition clone_result ls s sp sa tp ta v s' : Prop :=
  exists ls', vinv ls' s' /\ (forall q, q <> sp -> q <> tp -> areas ls' s' q = areas ls s q) /\
    (sp <> tp -> v = 0 -> areas ls' s' tp = areas ls s tp) /\
    (sp <> tp -> v = 0 \/ v = 1 /\ exists A a B phys, areas ls s sp = A ++ a :: B /\ areas ls' s' sp = A ++ marked a :: B /\
       a_base a = sa /\ a_end a = add64 sa VMA64_PAGE_BYTES /\ phys <> 0 /\
       area_added ls s ls' s' tp (shared a ta phys)).

(** Taking an inserted region out again restores the lists. *)
Lemma remove_inserted ls s p t l1 j l2 b e (Q : option nat -> vma_state W -> Prop) :
  vinv (at_tree ls t (l1 ++ j :: l2)) s -> ls t = l1 ++ l2 -> att s p = Some t ->
  virt_base (pool_at s j) = b -> virt_end (pool_at s j) = e ->
  (forall s', step (at_tree ls t (l1 ++ j :: l2)) s ls s' [] -> spare ls s' j -> Q (Some j) s') ->
  wp (vma64_remove p b e) Q s.
Proof.
  intros Hi Hl Ha Hb He HQ. destruct (att_owner _ _ _ _ Hi Ha) as (Ht & _).
  eapply (remove_known _ s p t j); try done; [rewrite at_tree_same; set_solver|].
  intros s' ls' l1' l2' (_ & Hl' & -> & Hst & Hsp). rewrite at_tree_same in Hl'.
  apply list_split_unique in Hl' as [<- <-]; cycle 1.
  { pose proof (space_nodup (v_space _ _ Hi t Ht)) as Hnd. by rewrite at_tree_same in Hnd. }
  assert (Heq : forall t', ls t' = at_tree (at_tree ls t (l1 ++ j :: l2)) t (l1 ++ l2) t').
  { intros t'. unfold at_tree. case_decide; [by subst|done]. }
  apply HQ; [by eapply step_ext|by eapply spare_ext].
Qed.

(** The source's flag and the two page tables. *)
Lemma share_wp ls s s0 sp sa tp ta i ts j t l1 l2 ls1 s1 s2 phys prot (m : ST (vma_state W) Z) :
  vinv ls s -> (forall q, areas ls s0 q = areas ls s q) -> vinv ls s0 ->
  att s0 sp = Some ts -> i ∈ ls ts -> virt_base (pool_at s0 i) = sa -> virt_end (pool_at s0 i) = add64 sa VMA64_PAGE_BYTES ->
  still m -> phys <> 0 ->
  inserted ls s0 s2 tp j (prepared ta (add64 ta VMA64_PAGE_BYTES) phys (prot_flags (pool_at s0 i))
    (Z.lor (map_flags (pool_at s0 i)) VMA64_MAP_COPY_ON_WRITE) VMA64_BACKING_ANON VMA64_BACKING_HANDLE_NONE
    (vma64_split_token (vma_token (pool_at s0 i)) 0xA7001000)) t l1 l2 ls1 s1 ->
  wp (update_region i (fun q : vma_region_t => q <| map_flags := Z.lor (map_flags q) VMA64_MAP_COPY_ON_WRITE |>) ;;;
      ok <- m ;;
      if ok =? 0 then
        vma64_remove tp ta (add64 ta VMA64_PAGE_BYTES) ;;;
        vma64_region_release j ;;;
        vma64_release_anon_pages phys prot ;;;
        ret 0
      else ret 1) (clone_result ls s sp sa tp ta) s2.
Proof.
  intros Hi Hs0 Hi0 Ha Hil Hb He Hm Hphys Hins. destruct (inserted_added _ _ _ _ _ _ _ _ _ _ _ Hi0 Hins) as (V2 & O2 & A2).
  destruct Hins as (Hst1 & Hsp1 & Hr1 & Hp1 & Ha1 & Hl1 & -> & Hst2 & Har2 & _).
  assert (Hat : forall q, att s2 q = att s0 q) by (intros q; by rewrite (st_att _ _ _ _ _ Hst2), (st_att _ _ _ _ _ Hst1)).
  destruct (att_owner _ _ _ _ Hi0 Ha) as (Hts & _). destruct (att_owner _ _ _ _ (st_inv _ _ _ _ _ Hst1) Ha1) as (Htt & _).
  assert (Hij : i <> j) by (intros <-; by apply (proj2 (proj2 Hsp1) ts Hts)).
  assert (Hil2 : i ∈ at_tree ls t (l1 ++ j :: l2) ts).
  { unfold at_tree. case_decide; [subst|done]. rewrite Hl1 in Hil. set_solver. }
  apply list_elem_of_split in Hil2 as (k1 & k2 & Hk). apply wp_bind, wp_modify.
  set (f := fun q : vma_region_t => q <| map_flags := _ |>). change (s2 <| g_vma64_regions := _ |>) with (relabelled i f s2).
  destruct (relabelled_areas _ s2 i f sp ts k1 k2 V2) as (R1 & R2 & R3 & R4); [by rewrite Hat|done|done|].
  assert (Hari : area_of (pool_at s2 i) = area_of (pool_at s0 i)).
  { rewrite (st_area _ _ _ _ _ Hst2), (st_area _ _ _ _ _ Hst1); [done|set_solver|set_solver]. }
  assert (Hpj : pool_at (relabelled i f s2) j = pool_at s2 j).
  { rewrite pool_relabelled, decide_False by (done || by rewrite (v_regions _ _ V2);
      apply (listed_pool ls s0 ts)). done. }
  eapply (still_next _ _ _ (relabelled i f s2)); [exact Hm|apply (step_refl _ _ [] R1)|]. intros ok s3 Hc3 Hst3.
  assert (Hu3 : unmoved (at_tree ls t (l1 ++ j :: l2)) (relabelled i f s2) s3) by (by apply unmoved_core).
  assert (Hq3 : forall q, areas (at_tree ls t (l1 ++ j :: l2)) s3 q = areas (at_tree ls t (l1 ++ j :: l2)) (relabelled i f s2) q)
    by (intros q; by apply unmoved_areas).
  destruct (ok =? 0); cycle 1.
  { apply wp_ret. exists (at_tree ls t (l1 ++ j :: l2)). split_and!; [by eapply unmoved_inv| |done|].
    - intros q Q1 Q2. by rewrite Hq3, R4, O2, Hs0.
    - intros Hne. right. split; [done|]. exists (areas_at s2 k1), (area_of (pool_at s2 i)), (areas_at s2 k2), phys.
      rewrite Hq3. split_and!; try done.
      + by rewrite <- R2, O2, Hs0.
      + by rewrite Hari.
      + by rewrite Hari.
      + destruct A2 as ((A & B & E1 & E2) & E3 & E4). rewrite Hs0 in E1, E3. split_and!.
        * exists A, B. split; [done|]. rewrite Hq3, R4, E2 by done. unfold shared. by rewrite Hari.
        * done.
        * done. }
  assert (Hpj3 : area_of (pool_at s3 j) = area_of (pool_at s1 j)).
  { rewrite (st_area _ _ _ _ _ Hst3) by set_solver. by rewrite Hpj. }
  rewrite Hp1 in Hpj3. injection Hpj3 as Eb Ee _ _ _ _ _ _.
  apply wp_bind, (remove_inserted ls s3 tp t l1 j l2); [apply Hst3|done| |done|done|].
  { rewrite (st_att _ _ _ _ _ Hst3). change (att (relabelled i f s2) tp) with (att s2 tp). by rewrite Hat, <- (st_att _ _ _ _ _ Hst1). }
  intros s4 Hst4 Hsp4. apply wp_bind, (release_step ls); [apply Hst4|done|]. intros s5 Hst5.
  eapply (still_next _ _ ls s4); [apply still_release|exact Hst5|]. intros _ s6 Hc6 Hst6. apply wp_ret.
  assert (Hq6 : forall q, q <> sp -> areas ls s6 q = areas ls s q).
  { intros q Hq. rewrite (unmoved_areas ls s4); [|apply Hst4|].
    - rewrite <- Hs0. unfold areas.
      rewrite (st_att _ _ _ _ _ Hst4), (st_att _ _ _ _ _ Hst3). change (att (relabelled i f s2) q) with (att s2 q). rewrite Hat.
      destruct (att s0 q) as [tq|] eqn:Hqa; [|done]. simpl. apply areas_at_ext. intros x Hx.
      destruct (att_owner _ _ _ _ Hi0 Hqa) as (Htq & _).
      assert (Hxj : x <> j) by (intros ->; by apply (proj2 (proj2 Hsp1) tq Htq)).
      assert (Hxi : i <> x) by (intros <-; apply (att_other ls s0 sp q ts tq Hi0 Ha Hqa Hq); by apply (v_disjoint _ _ Hi0 tq ts i)).
      rewrite (st_area _ _ _ _ _ Hst4), (st_area _ _ _ _ _ Hst3) by set_solver.
      rewrite pool_relabelled, decide_False by (done || by rewrite (v_regions _ _ V2); apply (listed_pool ls s0 ts)).
      rewrite (st_area _ _ _ _ _ Hst2), (st_area _ _ _ _ _ Hst1) by set_solver. done.
    - exists [j]. split; [exact Hst6|]. intros t' x Ht' Hx. destruct Hsp4 as (_ & _ & Hout). specialize (Hout t' Ht'). set_solver. }
  exists ls. split_and!; [apply Hst6|by auto| |by left].
  intros Hne _. apply Hq6. congruence.
Qed.

Lemma clone_wp ls s sp sa tp ta :
  vinv ls s -> 0 <= ta < 2 ^ 64 -> wp (vma64_clone_cow_page sp sa tp ta) (clone_result ls s sp sa tp ta) s.
Proof.
  intros Hi Hta. unfold vma64_clone_cow_page.
  assert (Hno : forall s0 s', vinv ls s0 -> (forall q, areas ls s0 q = areas ls s q) -> unmoved ls s0 s' ->
    clone_result ls s sp sa tp ta 0 s').
  { intros s0 s' Hi0 Hs0 Hu. assert (Hq : forall q, areas ls s' q = areas ls s q).
    { intros q. by rewrite (unmoved_areas ls s0). }
    exists ls. split_and!; [by eapply unmoved_inv|by auto|by auto|by left]. }
  destruct (_ || _) eqn:Hg; [apply wp_ret, (Hno s); [done|done|by apply unmoved_core]|].
  apply orb_false_iff in Hg as [[[G1%negb_false_iff%Z.eqb_eq G2%negb_false_iff%Z.eqb_eq]%orb_false_iff _]%orb_false_iff _].
  rewrite !G1, !G2. apply wp_bind, (init_process_step ls); [done|..].
  { intros s1 Ho _. apply wp_ret, (Hno s1); [apply Ho|intros q; by apply (opened_areas ls s s1 sp)|]. apply unmoved_core; [apply Ho|done]. }
  intros s1 ts Ho1 Ha1. change (1 =? 0) with false. cbv iota. pose proof (op_inv _ _ _ _ Ho1) as Hi1.
  assert (Hs1 : forall q, areas ls s1 q = areas ls s q) by (intros q; by apply (opened_areas ls s s1 sp)).
  apply wp_bind, (init_process_step ls); [done|..].
  { intros s2 Ho _. apply wp_ret, (Hno s2); [apply Ho| |apply unmoved_core; [apply Ho|done]].
    intros q. by rewrite (opened_areas ls s1 s2 tp). }
  intros s2 tt2 Ho2 Ha2. change (1 =? 0) with false. cbv iota. pose proof (op_inv _ _ _ _ Ho2) as Hi2.
  assert (Hs2 : forall q, areas ls s2 q = areas ls s q) by (intros q; by rewrite (opened_areas ls s1 s2 tp)).
  apply wp_bind, (vma_find_wp ls); [done|]. intros s3 (Hc3 & _). apply wp_bind, wp_gets.
  destruct (_ || _); [apply wp_ret, (Hno s2); [done|done|by apply unmoved_core]|].
  assert (Hi3 : vinv ls s3) by (by eapply vinv_core). apply wp_bind, (vma_find_wp ls); [done|]. intros s4 (Hc4 & _).
  assert (Hc : core s4 = core s2) by congruence. assert (Hi4 : vinv ls s4) by (by eapply vinv_core).
  assert (Hs4 : forall q, areas ls s4 q = areas ls s q) by (intros q; by rewrite (unmoved_areas ls s2 s4) by (done || by apply unmoved_core)).
  rewrite (lookup_core ls s4 s3) by done. clear s3 Hc3 Hi3 Hc4.
  assert (Hno4 : forall s', unmoved ls s4 s' -> clone_result ls s sp sa tp ta 0 s') by (intros s'; by apply Hno).
  destruct (lookup ls s4 sp _) as [i|] eqn:Hl; [|by apply wp_ret, Hno4, unmoved_core].
  apply lookup_in in Hl as (t & Ha & Hil & _). do 2 apply wp_bind, wp_gets.
  destruct (_ || _) eqn:Hg2; [by apply wp_ret, Hno4, unmoved_core|].
  do 4 (apply orb_false_iff in Hg2 as [Hg2 ?]). boolify.
  apply wp_bind, wp_gets. set (phys := vma64_paging_user_page_physical _ _ _).
  destruct (Z.eqb_spec phys 0) as [Hph|Hph]; [by apply wp_bind, wp_ret, wp_ret, Hno4, unmoved_core|].
  eapply (still_next _ _ ls s4); [apply still_retain|apply (step_refl ls s4 [] Hi4)|].
  intros retained s5 Hc5 Hst5. destruct (retained =? 0) eqn:Hret; [by apply wp_ret, Hno4, unmoved_core|].
  apply wp_bind, (acquire_step ls); [apply Hst5|..].
  { eapply (still_next _ _ ls s4); [apply still_release|exact Hst5|]. intros _ s6 Hc6 Hst6.
    apply wp_ret, Hno4, unmoved_core; [done|congruence]. }
  intros j s6 Hst6 Hsp6 _. assert (Hst : step ls s4 ls s6 [j]) by (eapply step_trans; [eapply step_mono, Hst5; set_solver|exact Hst6]).
  apply wp_assoc, (place_wp ls s6); [apply Hst|done|lia|apply add64_lt|..].
  - intros s7 Hst7 Hsp7. assert (Hst7' : step ls s4 ls s7 [j]) by (by eapply step_trans).
    eapply (still_next _ _ ls s4); [apply still_release|exact Hst7'|]. intros _ s8 Hc8 Hst8.
    apply wp_bind, (release_step ls); [apply Hst8|by eapply spare_core|]. intros s9 Hst9. apply wp_ret, Hno4.
    eapply unmoved_drop; [exact Hst8|by eapply spare_core|done].
  - intros s7 s8 ls' t' l1 l2 Hst7 Hsp7 Hv Hp Hgn. change (1 =? 0) with false. cbv iota.
    eapply (share_wp ls s s4 sp sa tp ta i t j t' l1 l2 ls' s7 s8 phys); try done.
    + apply still_if; [apply still_ret|]. apply still_bind; [apply still_paging|intros ok]. apply still_if; [apply still_ret|apply still_paging].
    + split_and!; [by eapply step_trans|done| |congruence|done]. rewrite Hp. apply prepared_range; [done|lia|apply add64_lt].
Qed.

End cow.
End VmaCow.
