(* ===== verification/VmaFork.v ===== *)
(** * Fork and the program break

    [vma64_fork_copy_process] copies every area of the parent into an empty
    child, each onto pages of its own with the bytes of the parent's, or leaves
    the child without an address space; [vma64_brk_extend] grows and shrinks
    the heap through the mapping calls. *)

From stdpp Require Import sorting.
From S2P Require Import Prelude Process ProcessFacts PersonaBudget VmaTree RbTree VmaRb VmaList VmaSpace VmaSpaceOps VmaGap Vma VmaFacts VmaOps VmaSteps VmaCalls VmaRelease VmaProtect VmaCow.
Import PersonaBudget VmaTree VmaRb VmaList VmaSpace VmaSpaceOps VmaGap Vma VmaFacts VmaOps VmaSteps VmaPages VmaCalls VmaRelease VmaProtect VmaCow.
Local Open Scope Z_scope.
Local Open Scope kernel_scope.

Module VmaFork.

Section fork.
Context {W : Type} {paging : VmaPaging W} {launch : Process.LaunchEnv}.
Implicit Types (s : vma_state W) (t i j : nat) (p q : Z) (ls : nat -> list nat) (X : list nat).

(** ** Changing the break fields of a tree *)

Definition retree t f s : vma_state W := s <| g_vma64_trees := alter f t (g_vma64_trees s) |>.

Definition same_index (f : vma_tree_t -> vma_tree_t) : Prop := forall x,
  head (f x) = head x /\ rb_root (f x) = rb_root x /\ region_count (f x) = region_count x /\ mapped_bytes (f x) = mapped_bytes x.

Lemma vinv_retree ls s t f :
  vinv ls s -> same_index f ->
  brk_ok (brk_base (f (tree_at s t)), brk_current (f (tree_at s t)), brk_peak (f (tree_at s t))) -> vinv ls (retree t f s).
Proof.
  intros Hi Hf Hb. split; try apply Hi; simpl; [rewrite length_alter; apply Hi| |]; cycle 1.
  { intros t'. unfold brk_of, tree_at in *. simpl. rewrite list_lookup_alter. case_decide as E; [subst t'|apply Hi].
    destruct (g_vma64_trees s !! t); done. }
  intros t' Ht'. pose proof (v_space _ _ Hi t' Ht') as Hs. unfold heap_of, tree_at in *. simpl. rewrite list_lookup_alter.
  case_decide as E; [subst t'|done].
  assert (is_Some (g_vma64_trees s !! t)) as [x Hx] by (apply lookup_lt_is_Some_2; by rewrite (v_trees _ _ Hi)).
  rewrite Hx in *. simpl in *. destruct (Hf x) as (F1 & F2 & F3 & F4). destruct Hs as [Hl Hix Ho Hg Hc Hb' Hp].
  apply (space_counters (mk_heap x (g_vma64_regions s)) (ls t) (fun _ => f x)); try done; simpl in *; congruence.
Qed.

Lemma areas_retree ls s t f q : areas ls (retree t f s) q = areas ls s q.
Proof. done. Qed.

(** ** Abandoning a fork *)

(** The child has no address space; nobody else changed. *)
Definition abandoned ls s child s' : Prop :=
  exists ls', vinv ls' s' /\ areas ls' s' child = [] /\ forall q, q <> child -> areas ls' s' q = areas ls s q.

Lemma abandon_wp ls s child (Q : Z -> vma_state W -> Prop) :
  vinv ls s -> (forall s', abandoned ls s child s' -> Q 0 s') -> wp (abandon_fork child) Q s.
Proof.
  intros Hi HQ. apply wp_bind, (release_process_wp ls); [done|]. intros s1 ls1 Hr.
  apply wp_bind, wp_modify, wp_ret, HQ. exists ls1. split_and!.
  - by eapply vinv_core; [|apply Hr].
  - unfold areas. change (att (_ <| g_vma64_fork_copy_denial_count := _ |>) child) with (att s1 child).
    by rewrite (rl_self _ _ _ _ _ Hr).
  - intros q Hq. rewrite (unmoved_areas ls1 s1); [by eapply released_areas|apply Hr|]. by apply unmoved_core; [apply Hr|].
Qed.

Lemma abandoned_trans ls s ls1 s1 child s' :
  (forall q, q <> child -> areas ls1 s1 q = areas ls s q) -> abandoned ls1 s1 child s' -> abandoned ls s child s'.
Proof. intros H (ls' & H1 & H2 & H3). exists ls'. split_and!; [done|done|]. intros q Hq. by rewrite H3, H. Qed.

(** ** One region *)

(** The child's copy of an area: same range and protection, pages of its own. *)
Definition fork_of (a b : area) : Prop :=
  a_base b = a_base a /\ a_end b = a_end a /\ a_prot b = a_prot a /\ a_phys b <> 0 /\
  a_map b = Z.land (a_map a) (not32 VMA64_MAP_COPY_ON_WRITE) /\ a_type b = VMA64_BACKING_ANON.

Lemma page_count_nonneg x y : 0 <= vma64_page_count_from_length (sub64 x y).
Proof.
  unfold vma64_page_count_from_length. destruct (_ || _); [done|]. apply Z.div_pos; [|unfold VMA64_PAGE_BYTES; lia].
  unfold sub64, wrap64. apply Z.mod_pos_bound. lia.
Qed.

Definition area_pages (a : area) : nat := Z.to_nat (vma64_page_count_from_length (sub64 (a_end a) (a_base a))).

(** The pages of [b] are the run at [k]: free before, used once now, and each
    with the bytes of the page of [a] at its place. *)
Record own_pages s s' (a b : area) k : Prop := {
  own_phys : a_phys b = anon_physical (vma_paging s) k;
  own_in : (0 < area_pages a)%nat /\ (k + area_pages a <= PAGES)%nat;
  own_free : forall i, (i < area_pages a)%nat -> page_used s (k + i) = 0;
  own_used : forall i, (i < area_pages a)%nat -> page_used s' (k + i) = 1;
  own_bytes : forall i, (i < area_pages a)%nat -> exists src,
    vma64_anon_page_index (vma_paging s) (add64 (a_phys a) (page_offset i)) = Some src /\
    (page_used s src <> 0 -> page_at s' (k + i) = page_at s src) }.

(** The pages of the runs at [ks]. *)
Definition runs (as_ : list area) (ks : list nat) : list nat := concat (zip_with (fun a k => seq k (area_pages a)) as_ ks).

(** The areas [bs] have pages of their own, the copies of those of [as_]; no
    page is in two runs, and all other pages are as they were. *)
Record fork_pages s s' (as_ bs : list area) (ks : list nat) : Prop := {
  fp_pool : pool_ok s';
  fp_base : g_paging64_kernel_physical_base (vma_paging s') = g_paging64_kernel_physical_base (vma_paging s);
  fp_each : Forall3 (own_pages s s') as_ bs ks;
  fp_apart : NoDup (runs as_ ks);
  fp_other : forall j, j ∉ runs as_ ks -> page_used s' j = page_used s j /\ page_at s' j = page_at s j }.

Lemma fork_pages_none s s' : pool_ok s -> pview s' = pview s -> fork_pages s s' [] [] [].
Proof.
  intros Hp E. split; [by apply (pool_ok_view s)|by apply pview_inj in E as (_ & _ & ->)|constructor|constructor|].
  intros j _. by rewrite (used_view s), (page_view s).
Qed.

Lemma fork_pages_view s s0 s' as_ bs ks : pview s0 = pview s' -> fork_pages s s0 as_ bs ks -> fork_pages s s' as_ bs ks.
Proof.
  intros E [F1 F2 F3 F4 F5]. symmetry in E. split; [by apply (pool_ok_view s0)|apply pview_inj in E as (_ & _ & ->); done| |done|].
  - eapply Forall3_impl; [exact F3|]. intros a b k [O1 O2 O3 O4 O5]. split; [done..|by intros; rewrite (used_view s0), O4|].
    intros i Hi. destruct (O5 i Hi) as (src & S1 & S2). exists src. split; [done|]. intros Hu. by rewrite (page_view s0), S2.
  - intros j Hj. rewrite (used_view s0), (page_view s0) by done. by apply F5.
Qed.

Lemma runs_used s s' as_ bs ks j : Forall3 (own_pages s s') as_ bs ks -> j ∈ runs as_ ks -> page_used s j = 0 /\ page_used s' j = 1.
Proof.
  unfold runs. induction 1 as [|a b k as_ bs ks [O1 O2 O3 O4 O5] _ IH]; simpl; [by intros ?%elem_of_nil|].
  intros [Hj|Hj]%elem_of_app; [|by apply IH]. apply elem_of_seq in Hj. replace j with (k + (j - k))%nat by lia.
  split; [apply O3|apply O4]; lia.
Qed.

Lemma runs_snoc as_ ks a k : length as_ = length ks -> runs (as_ ++ [a]) (ks ++ [k]) = runs as_ ks ++ seq k (area_pages a).
Proof. intros H. unfold runs. rewrite zip_with_app, concat_app by done. simpl. by rewrite app_nil_r. Qed.

(** One more area is copied. *)
Lemma fork_pages_snoc s0 s s' as_ bs ks a b k :
  let n := area_pages a in
  fork_pages s0 s as_ bs ks -> drawn s s' k n -> copied_run s s' (a_phys a) k n (seq 0 n) ->
  a_phys b = anon_physical (vma_paging s) k -> (0 < n)%nat -> fork_pages s0 s' (as_ ++ [a]) (bs ++ [b]) (ks ++ [k]).
Proof.
  intros n [F1 F2 F3 F4 F5] [D1 D2 D3 D4 D5 D6] C Hb Hn.
  assert (Hlen : length as_ = length ks) by (by eapply Forall3_length_lr).
  assert (Hfree : forall j, inside k n j -> j ∉ runs as_ ks).
  { intros j Hj Hr. destruct (runs_used _ _ _ _ _ _ F3 Hr) as [_ E]. rewrite D4 in E by done. done. }
  assert (Hin : forall i, (i < n)%nat -> inside k n (k + i)) by (unfold inside; lia).
  split; [done|congruence| |..].
  - apply Forall3_app; [|constructor; [split|constructor]].
    + eapply Forall3_impl; [exact F3|]. intros a' b' k' [O1 O2 O3 O4 O5].
      assert (Hout : forall i, (i < area_pages a')%nat -> ~ inside k n (k' + i)) by (intros i Hi Hj; specialize (O4 i Hi); by rewrite D4 in O4).
      split; try done; [intros i Hi; destruct (D6 _ (Hout i Hi)) as [-> _]; by apply O4|].
      intros i Hi. destruct (O5 i Hi) as (src & S1 & S2). exists src. split; [done|]. intros Hu. destruct (D6 _ (Hout i Hi)) as [_ ->]. by apply S2.
    + by rewrite Hb, (physical_base s0 s).
    + done.
    + intros i Hi. destruct (F5 _ (Hfree _ (Hin i Hi))) as [<- _]. by apply D4, Hin.
    + intros i Hi. by apply D5, Hin.
    + intros i Hi. destruct (C i) as (src & S1 & S2); [apply elem_of_seq; fold n in Hi; lia|]. exists src.
      rewrite <- (index_base s0 s) by done. split; [done|]. intros Hu.
      assert (Hr : src ∉ runs as_ ks) by (intros Hr; by destruct (runs_used _ _ _ _ _ _ F3 Hr) as [E _]).
      destruct (F5 src Hr) as [E1 <-]. apply S2. intros Hs. apply Hu. rewrite <- E1. by apply D4.
  - rewrite runs_snoc by done. apply NoDup_app. split_and!; [done| |apply NoDup_seq].
    intros j Hj Hs%elem_of_seq. by apply (Hfree j).
  - intros j. rewrite runs_snoc by done. intros [H1 H2]%not_elem_of_app.
    destruct (D6 j) as [-> ->]; [|by apply F5]. intros Hs. apply H2, elem_of_seq. unfold inside in Hs. fold n. lia.
Qed.

(** The run of the copy [b] of [a]. *)
Definition run_copied s s' (a b : area) : Prop := VmaPagingLaws W -> pool_ok s -> exists k,
  a_phys b = anon_physical (vma_paging s) k /\ drawn s s' k (area_pages a) /\
  copied_run s s' (a_phys a) k (area_pages a) (seq 0 (area_pages a)) /\ (0 < area_pages a)%nat.

Lemma run_copied_intro s s2 s5 s' k count a b :
  pview s2 = pview s -> pview s' = pview s5 -> count = vma64_page_count_from_length (sub64 (a_end a) (a_base a)) -> count <> 0 ->
  a_phys b = anon_physical (vma_paging s2) k -> drawn s2 s5 k (Z.to_nat count) ->
  copied_run s2 s5 (a_phys a) k (Z.to_nat count) (seq 0 (Z.to_nat count)) -> exists k,
    a_phys b = anon_physical (vma_paging s) k /\ drawn s s' k (area_pages a) /\
    copied_run s s' (a_phys a) k (area_pages a) (seq 0 (area_pages a)) /\ (0 < area_pages a)%nat.
Proof.
  intros E2 E5 -> Hz Hb Hd Hc. fold (area_pages a) in *. exists k. pose proof (pview_inj _ _ E2) as (_ & _ & Eb). split_and!.
  - by rewrite Hb, (physical_base s s2).
  - apply (drawn_view s s5); [done|]. by apply (drawn_from s s2).
  - intros i Hi. destruct (Hc i Hi) as (src & S1 & S2). exists src. rewrite <- (index_base s s2) by done. split; [done|].
    intros Ho. rewrite (page_view s5), <- (page_view s s2) by done. by apply S2.
  - pose proof (page_count_nonneg (a_end a) (a_base a)). unfold area_pages. lia.
Qed.

(** The child gained the copy of region [c] and the other lists are as they were. *)
Definition forked ls s ls' s' child ct c : Prop :=
  vinv ls' s' /\ (forall q, att s' q = att s q) /\ (forall t, t <> ct -> ls' t = ls t) /\
  (forall q, q <> child -> areas ls' s' q = areas ls s q) /\
  exists b, fork_of (area_of (pool_at s c)) b /\ area_added ls s ls' s' child b /\ run_copied s s' (area_of (pool_at s c)) b.

Lemma fork_region_wp ls s parent child ct pt c n (Q : Z -> vma_state W -> Prop) :
  vinv ls s -> att s child = Some ct -> att s parent = Some pt -> c ∈ ls pt ->
  (forall s', abandoned ls s child s' -> Q 0 s') ->
  (forall v ls' s', v <> 0 -> forked ls s ls' s' child ct c -> Q v s') ->
  wp (fork_region parent child c n) Q s.
Proof.
  intros Hi Hct Hpt Hc H0 H1. unfold fork_region. apply wp_bind, wp_gets.
  destruct (att_owner _ _ _ _ Hi Hpt) as (Ht & _). pose proof (listed_range _ _ _ _ Hi Ht Hc) as (_ & Rb & Re).
  set (r := pool_at s c) in *. set (count := vma64_page_count_from_length _).
  assert (Hab : forall s1, unmoved ls s s1 -> wp (abandon_fork child) Q s1).
  { intros s1 Hu. apply (abandon_wp ls); [by eapply unmoved_inv|]. intros s2 Ha. apply H0.
    eapply abandoned_trans; [|exact Ha]. intros q _. by apply unmoved_areas. }
  pose proof (paged_refl s (v_init _ _ Hi)) as Hpg.
  eapply (pageless_still _ _ s ls s); [apply still_fork_stage|apply pageless_fork_stage|apply (step_refl ls s [] Hi)|done|].
  intros _ s0 Hc0 Hst0 Hpg0. apply wp_bind, wp_gets. destruct (_ || _) eqn:Hg.
  { apply wp_bind, wp_modify, Hab. apply unmoved_core; [done|]. exact Hc0. }
  do 4 (apply orb_false_iff in Hg as [Hg ?]). boolify.
  eapply (pageless_still _ _ s ls s); [apply still_fork_stage|apply pageless_fork_stage|exact Hst0|done|]. intros _ s1 Hc1 Hst1 Hpg1.
  apply (pageless_next _ _ s); [apply pageless_acquire|done|].
  apply (acquire_step ls); [apply Hst1|intros _; apply Hab, unmoved_core; [done|congruence]|].
  intros j s2 Hst2 Hsp2 _ Hpg2. assert (Hst : step ls s ls s2 [j]) by (eapply step_trans; [eapply step_mono, Hst1; set_solver|exact Hst2]).
  eapply (still_know _ _ (fun phys s3 => pool_ok s2 -> phys <> 0 -> exists k,
      phys = anon_physical (vma_paging s2) k /\ drawn s2 s3 k (Z.to_nat count) /\ count <> 0) ls s);
    [apply still_claim|exact Hst|intros Hpool; apply claim_wp; [done|apply Hst]|]. intros phys s3 Hc3 Hst3 Hcl.
  pose proof (spare_core _ _ _ _ Hc3 Hsp2) as Hsp3. destruct (Z.eqb_spec phys 0) as [->|Hph].
  { apply wp_bind, (release_step ls); [apply Hst3|done|]. intros s4 Hst4. apply Hab. by eapply unmoved_drop. }
  pose proof (paged_refl s3 (v_init _ _ (st_inv _ _ _ _ _ Hst3))) as Hpg3.
  eapply (pageless_still _ _ s3 ls s); [apply still_fork_stage|apply pageless_fork_stage|exact Hst3|done|]. intros _ s4 Hc4 Hst4 Hpg4.
  eapply (still_know _ _ (fun v s5 => pool_ok s2 -> forall k, phys = anon_physical (vma_paging s2) k -> drawn s2 s4 k (Z.to_nat count) ->
      drawn s2 s5 k (Z.to_nat count) /\ (v <> 0 -> copied_run s2 s5 (phys_base r) k (Z.to_nat count) (seq 0 (Z.to_nat count)))) ls s);
    [apply still_copies|exact Hst4| |].
  { intros Hpool k -> Hd. apply (copy_run_wp s2 (phys_base r) k _ Hpool _ [] s4); [done|by intros i ?%elem_of_seq; lia|apply NoDup_seq|].
    by intros i ?%elem_of_nil. }
  intros copied s5 Hc5 Hst5 Hcp.
  pose proof (spare_core _ _ _ _ Hc4 Hsp3) as Hsp4. pose proof (spare_core _ _ _ _ Hc5 Hsp4) as Hsp5.
  assert (Hdrop : forall s6, step ls s ls s6 [j] -> spare ls s6 j ->
    wp (vma64_release_anon_pages phys count ;;; vma64_region_release j ;;; abandon_fork child) Q s6).
  { intros s6 Hst6 Hsp6. eapply (still_next _ _ ls s); [apply still_release|exact Hst6|]. intros _ s7 Hc7 Hst7.
    pose proof (spare_core _ _ _ _ Hc7 Hsp6) as Hsp7.
    apply wp_bind, (release_step ls); [apply Hst7|done|]. intros s8 Hst8. apply Hab. by eapply unmoved_drop. }
  destruct (Z.eqb_spec copied 0) as [|Hcopied]; [by apply Hdrop|].
  pose proof (paged_refl s5 (v_init _ _ (st_inv _ _ _ _ _ Hst5))) as Hpg5.
  eapply (pageless_still _ _ s5 ls s); [apply still_fork_stage|apply pageless_fork_stage|exact Hst5|done|]. intros _ s6 Hc6 Hst6 Hpg6.
  pose proof (spare_core _ _ _ _ Hc6 Hsp5) as Hsp6.
  apply wp_assoc, (know_wp _ (fun _ s8 => paged s5 s8)); [apply pageless_place, Hpg6|].
  apply (place_wp ls s6); [apply Hst6|done|done|done|..].
  { intros s7 Hst7 Hsp7 _. apply Hdrop; [by eapply step_trans|done]. }
  intros s7 s8 ls' t l1 l2 Hst7 Hsp7 Hv Hp Hgn Hpg8. change (1 =? 0) with false. cbv iota.
  match type of Hp with _ = ?b => set (nr := b) in * end.
  destruct (inserted_added ls s s8 child j nr t l1 l2 ls' s7 Hi) as (V8 & O8 & A8).
  { split_and!; [by eapply step_trans|done| |done|done]. rewrite Hp. by apply prepared_range. }
  assert (Hab8 : forall s9, core s9 = core s8 -> wp (abandon_fork child) Q s9).
  { intros s9 Hc9. apply (abandon_wp ls'); [by eapply vinv_core|]. intros s10 Ha. apply H0.
    eapply abandoned_trans; [|exact Ha]. intros q Hq. rewrite (unmoved_areas ls' s8) by (done || by apply unmoved_core). by apply O8. }
  destruct (_ =? 0); [by apply Hab8|].
  eapply (pageless_still _ _ s5 ls' s8); [apply still_fork_stage|apply pageless_fork_stage|apply (step_refl ls' s8 [] V8)|done|].
  intros _ s9 Hc9 Hst9 Hpg9.
  eapply (still_know _ _ (fun _ s10 => VmaPagingLaws W -> paged s5 s10) ls' s8);
    [apply still_install|exact Hst9|intros laws; by apply pageless_install|]. intros failed s10 Hc10 Hst10 Hpg10.
  assert (Hcc : core s10 = core s8) by congruence. destruct failed as [k|]; [by apply Hab8|]. apply wp_ret.
  assert (Hu : unmoved ls' s8 s10) by (by apply unmoved_core).
  apply (H1 _ ls'); [done|]. split_and!; [by eapply unmoved_inv| | | |].
  - intros q. rewrite (unmoved_att ls' s8 s10) by done. destruct Hgn as (_ & _ & _ & Hst8 & _).
    by rewrite (st_att _ _ _ _ _ Hst8), (st_att _ _ _ _ _ Hst7), (st_att _ _ _ _ _ Hst6).
  - intros t' Ht'. destruct Hgn as (Ha & _ & -> & _). apply at_tree_other. intros ->. apply Ht'.
    rewrite (st_att _ _ _ _ _ Hst7), (st_att _ _ _ _ _ Hst6) in Ha. congruence.
  - intros q Hq. rewrite (unmoved_areas ls' s8 s10) by done. by apply O8.
  - exists (area_of nr). split; [by split_and!|]. split; [unfold area_added; by rewrite (unmoved_areas ls' s8 s10)|].
    intros laws Hpool. destruct (Hcl (pool_ok_view s s2 (proj1 Hpg2) Hpool) Hph) as (k & Ek & Hd & Hcount).
    destruct (Hcp (pool_ok_view s s2 (proj1 Hpg2) Hpool) k Ek (drawn_view _ _ _ _ _ (proj1 Hpg4) Hd)) as [Hd5 Hcr].
    apply (run_copied_intro s s2 s5 s10 k count); try done; [apply Hpg2|by apply Hpg10|by apply Hcr].
Qed.

(** ** The whole fork *)

Lemma dseg_split h pv l1 c l2 nx : dseg h pv (l1 ++ c :: l2) nx -> next (region_at h c) = first_of l2 nx.
Proof.
  revert pv. induction l1 as [|x l1 IH]; intros pv; simpl; intros H; [tauto|].
  destruct H as (_ & _ & _ & H). by apply (IH (Some x)).
Qed.

Lemma next_of ls s t l1 c l2 : vinv ls s -> (t < TREES)%nat -> ls t = l1 ++ c :: l2 -> next (pool_at s c) = first_of l2 None.
Proof.
  intros Hi Ht Hl. destruct (sp_list _ _ (v_space _ _ Hi t Ht)) as [Hd _]. rewrite Hl in Hd. by apply dseg_split in Hd.
Qed.

(** The pages since [s0], if the pool was in order then. *)
Definition pages_copied s0 s' (as_ bs : list area) : Prop := VmaPagingLaws W -> pool_ok s0 -> exists ks, fork_pages s0 s' as_ bs ks.

Lemma pages_copied_snoc s0 s s1 s' as_ bs a b :
  pages_copied s0 s as_ bs -> run_copied s s1 a b -> pview s' = pview s1 -> pages_copied s0 s' (as_ ++ [a]) (bs ++ [b]).
Proof.
  intros H Hr E laws Hp. destruct (H laws Hp) as [ks F]. destruct (Hr laws (fp_pool _ _ _ _ _ F)) as (k & R1 & R2 & R3 & R4).
  exists (ks ++ [k]). apply (fork_pages_view s0 s1); [done|]. by apply (fork_pages_snoc s0 s).
Qed.

Definition fork_loop_result s0 ls s child (as_ : list area) v s' : Prop :=
  (v = 0 /\ abandoned ls s child s') \/
  (v = 1 /\ exists ls', vinv ls' s' /\ (forall q, q <> child -> areas ls' s' q = areas ls s q) /\
     Forall2 fork_of as_ (areas ls' s' child) /\ pages_copied s0 s' as_ (areas ls' s' child)).

Lemma fork_loop_wp s0 fuel parent child pt ct : forall ls s l1 l2 n m,
  vinv ls s -> parent <> child -> att s child = Some ct -> att s parent = Some pt -> ls pt = l1 ++ l2 ->
  (length l2 < fuel)%nat -> Forall2 fork_of (areas_at s l1) (areas ls s child) ->
  pages_copied s0 s (areas_at s l1) (areas ls s child) ->
  wp (vma_fork_loop fuel parent child (first_of l2 None) n m) (fork_loop_result s0 ls s child (areas ls s parent)) s.
Proof.
  induction fuel as [|fuel IH]; intros ls s l1 l2 n m Hi Hne Hct Hpt Hl Hf HF HP; [lia|].
  assert (Hpa : areas ls s parent = areas_at s (l1 ++ l2)) by (unfold areas; rewrite Hpt; simpl; by rewrite Hl).
  destruct l2 as [|c l2]; cbn [vma_fork_loop first_of].
  { eapply (pageless_still _ _ s ls s);
      [apply still_fork_stage|apply pageless_fork_stage|apply (step_refl ls s [] Hi)|apply paged_refl, Hi|]. intros _ s1 Hc1 Hst1 Hp1.
    apply wp_bind, wp_modify, wp_ret. right. split; [done|]. exists ls.
    assert (Hu : unmoved ls s (s1 <| g_vma64_fork_copy_count := inc32 (g_vma64_fork_copy_count s1) |>)) by (by apply unmoved_core).
    rewrite (unmoved_areas ls s _ child Hi Hu), Hpa, app_nil_r.
    split; [by eapply unmoved_inv|]. split; [intros q _; by apply unmoved_areas|]. split; [done|].
    intros laws Hpool. destruct (HP laws Hpool) as [ks F]. exists ks. eapply fork_pages_view, F. symmetry. apply Hp1. }
  assert (Hcin : c ∈ ls pt) by (rewrite Hl; set_solver). destruct (att_owner _ _ _ _ Hi Hpt) as (Ht & _).
  destruct (att_owner _ _ _ _ Hi Hct) as (Htc & _).
  apply wp_bind, (fork_region_wp ls s parent child ct pt); try done.
  { intros s1 Ha. apply wp_ret. left. by split. }
  intros v ls1 s1 Hv (V1 & A1 & L1 & O1 & b & Hb & Hadd & Hrun). rewrite (proj2 (Z.eqb_neq v 0) Hv).
  apply wp_bind, wp_modify. set (s2 := s1 <| g_vma64_fork_copy_last_regions := _ |> <| g_vma64_fork_copy_last_pages := _ |>).
  assert (Hi2 : vinv ls1 s2) by (by eapply vinv_core; [|exact V1]).
  assert (Htne : pt <> ct) by (intros ->; by apply Hne, (att_inj ls s parent child ct)).
  assert (Hl1 : ls1 pt = l1 ++ c :: l2) by (by rewrite L1).
  apply wp_bind, wp_gets. rewrite (next_of ls1 s2 pt l1 c l2) by done.
  assert (Hpar : areas ls1 s2 parent = areas ls s parent) by (by rewrite <- (O1 parent Hne)).
  assert (Hat2 : areas_at s2 (l1 ++ c :: l2) = areas_at s (l1 ++ c :: l2)).
  { rewrite <- Hpa, <- Hpar. unfold areas. change (att s2 parent) with (att s1 parent). rewrite A1, Hpt. simpl. by rewrite Hl1. }
  pose proof (areas_ok ls s parent Hi) as [Hsrt _]. rewrite Hpa, areas_at_app in Hsrt. simpl in Hsrt.
  apply sorted_before in Hsrt as [HB _].
  assert (Hch : areas ls1 s2 child = areas ls s child ++ [b]).
  { destruct Hadd as [(A & B & E1 & E2) _]. change (areas ls1 s2 child) with (areas ls1 s1 child). rewrite E2.
    pose proof (areas_ok ls1 s1 child V1) as Hw. rewrite E2 in Hw.
    destruct (sorted_place (areas ls s child) [] A B b) as [-> ->]; [by rewrite app_nil_r| |set_solver| |done|done].
    - intros x Hx. apply list_elem_of_lookup_1 in Hx as [k Hk].
      destruct (Forall2_lookup_r _ _ _ _ _ HF Hk) as (a & Ha & F1 & F2 & _). apply list_elem_of_lookup_2 in Ha.
      specialize (HB a Ha). destruct Hb as (B1 & _). unfold before in *. simpl in *. congruence || (rewrite F2, B1; done).
    - apply Hw. set_solver. }
  assert (Hsplit : ls1 pt = (l1 ++ [c]) ++ l2) by (by rewrite <- app_assoc).
  assert (Hl1c : areas_at s2 (l1 ++ [c]) = areas_at s l1 ++ [area_of (pool_at s c)]).
  { rewrite (areas_at_app s2 l1 (c :: l2)), (areas_at_app s l1 (c :: l2)) in Hat2.
    apply app_inj_1 in Hat2 as [E1 E2]; [|unfold areas_at; by rewrite !length_fmap].
    rewrite areas_at_app, E1. unfold areas_at in *. simpl in *. congruence. }
  eapply wp_mono; [apply (IH ls1 s2 (l1 ++ [c]) l2); try done|].
  - exact (eq_trans (A1 child) Hct).
  - exact (eq_trans (A1 parent) Hpt).
  - simpl in Hf. lia.
  - by rewrite Hch, Hl1c; apply Forall2_app; [|constructor].
  - rewrite Hch, Hl1c. by apply (pages_copied_snoc s0 s s1).
  - intros w s3. rewrite Hpar. intros [[-> Ha]|(-> & ls' & W1 & W2 & W3 & W4)].
    + left. split; [done|]. eapply abandoned_trans; [|exact Ha]. intros q Hq. by rewrite <- (O1 q Hq).
    + right. split; [done|]. exists ls'. split; [done|]. split; [|by split]. intros q Hq. rewrite W2 by done. by rewrite <- (O1 q Hq).
Qed.

Definition fork_result ls s parent child v s' : Prop :=
  exists ls', vinv ls' s' /\ (forall q, q <> child -> areas ls' s' q = areas ls s q) /\
    (v = 0 /\ areas ls' s' child = areas ls s child \/
     v = 1 /\ Forall2 fork_of (areas ls s parent) (areas ls' s' child) /\
       pages_copied s s' (areas ls s parent) (areas ls' s' child)).

Lemma fork_copy_wp ls s parent child :
  vinv ls s -> wp (vma64_fork_copy_process parent child) (fork_result ls s parent child) s.
Proof.
  intros Hi. unfold vma64_fork_copy_process. apply wp_bind, wp_modify. match goal with |- wp _ _ ?x => set (s0 := x) end.
  assert (Hi0 : vinv ls s0) by (by eapply vinv_core; [|exact Hi]).
  assert (Hno : forall s1, vinv ls s1 -> (forall q, areas ls s1 q = areas ls s q) -> wp deny_fork (fork_result ls s parent child) s1).
  { intros s1 Hi1 Hs1. apply wp_bind, wp_modify, wp_ret. exists ls. split_and!; [by eapply vinv_core; [|exact Hi1]|intros q _; exact (Hs1 q)|].
    left. split; [done|]. exact (Hs1 child). }
  destruct (_ || _) eqn:Hg; [by apply Hno|]. apply orb_false_iff in Hg as [_ Hne%Z.eqb_neq].
  assert (Hpg0 : paged s s0) by (split; [done|apply Hi0]).
  apply (pageless_next _ _ s); [apply pageless_init_process|done|]. apply (init_process_step ls); [done|..].
  { intros s1 Ho _ _. apply Hno; [apply Ho|]. intros q. by apply (opened_areas ls s0 s1 parent). }
  intros s1 pt Ho1 Ha1 Hpg1. change (1 =? 0) with false. cbv iota. pose proof (op_inv _ _ _ _ Ho1) as Hi1.
  assert (Hs1 : forall q, areas ls s1 q = areas ls s q) by (intros q; by apply (opened_areas ls s0 s1 parent)).
  apply (pageless_next _ _ s); [apply pageless_init_process|done|]. apply (init_process_step ls); [done|..].
  { intros s2 Ho _ _. apply Hno; [apply Ho|]. intros q. by rewrite (opened_areas ls s1 s2 child). }
  intros s2 ct Ho2 Ha2 Hpg2. change (1 =? 0) with false. cbv iota. pose proof (op_inv _ _ _ _ Ho2) as Hi2.
  assert (Hs2 : forall q, areas ls s2 q = areas ls s q) by (intros q; by rewrite (opened_areas ls s1 s2 child)).
  do 2 (apply wp_bind, (tree_for_wp ls); [done|]). rewrite Ha2.
  assert (Hap : att s2 parent = Some pt) by (by rewrite (op_other _ _ _ _ Ho2)). rewrite Hap.
  apply wp_bind, wp_gets. destruct (nz (region_count (tree_at s2 ct))) eqn:Hz; [by apply Hno|]. apply nz_false in Hz.
  destruct (att_owner _ _ _ _ Hi2 Ha2) as (Hct & _). destruct (att_owner _ _ _ _ Hi2 Hap) as (Hpt & _).
  pose proof (v_space _ _ Hi2 ct Hct) as Hsc. pose proof (sp_count _ _ Hsc) as Hcnt. simpl in Hcnt. rewrite Hz in Hcnt.
  assert (Hnil : ls ct = []) by (destruct (ls ct); [done|simpl in Hcnt; lia]).
  apply wp_bind, wp_gets, wp_bind, wp_modify. match goal with |- context [alter ?f ct _] => set (g := f) end.
  change (s2 <| g_vma64_trees := _ |>) with (retree ct g s2).
  assert (Hi3 : vinv ls (retree ct g s2)) by (apply vinv_retree; [done|by intros x|exact (v_brk _ _ Hi2 pt)]).
  destruct (sp_list _ _ (v_space _ _ Hi2 pt Hpt)) as [_ Hh]. simpl in Hh. rewrite Hh.
  assert (Hchild : areas ls s child = []) by (rewrite <- Hs2; unfold areas; rewrite Ha2; simpl; by rewrite Hnil).
  eapply wp_mono; [apply (fork_loop_wp s link_fuel parent child pt ct ls _ [] (ls pt)); try done|].
  - apply (space_fuel (v_space _ _ Hi2 pt Hpt)).
  - rewrite areas_retree, Hs2, Hchild. constructor.
  - rewrite areas_retree, Hs2, Hchild. intros laws Hpool. exists []. apply fork_pages_none; [done|apply Hpg2].
  - intros v s3. rewrite areas_retree, Hs2.
    intros [[-> (ls' & W1 & W2 & W3)]|(-> & ls' & W1 & W2 & W3 & W4)]; exists ls'; (split; [done|]); split.
    + intros q Hq. by rewrite W3, areas_retree, Hs2.
    + left. by rewrite Hchild.
    + intros q Hq. by rewrite W2, areas_retree, Hs2.
    + by right.
Qed.

(** ** The program break *)

Lemma tree_retree s t f : (t < length (g_vma64_trees s))%nat -> tree_at (retree t f s) t = f (tree_at s t).
Proof.
  intros Ht. unfold tree_at. simpl. rewrite list_lookup_alter, decide_True by done.
  by apply lookup_lt_is_Some_2 in Ht as [x ->].
Qed.

Lemma brk_init_ok tr : brk_ok (brk_base tr, brk_current tr, brk_peak tr) ->
  let tr' := vma64_brk_init_tree tr in brk_ok (brk_base tr', brk_current tr', brk_peak tr') /\ 0 < brk_base tr'.
Proof.
  unfold vma64_brk_init_tree. destruct (Z.eqb_spec (brk_base tr) 0) as [E|E]; simpl.
  - intros _. unfold VMA64_BRK_BASE_DEFAULT, VMA64_BRK_LIMIT_DEFAULT. lia.
  - unfold brk_ok. intros [? ?]. split; [done|]. lia.
Qed.

Lemma brk_init_index : same_index vma64_brk_init_tree.
Proof. intros x. unfold vma64_brk_init_tree. by destruct (brk_base x =? 0). Qed.

(** The break of [p] is at [b]. *)
Definition brk_at s p b : Prop := exists t, att s p = Some t /\ brk_current (tree_at s t) = b.

Definition heap_flags : Z := Z.lor (Z.lor VMA64_MAP_PRIVATE VMA64_MAP_FIXED) VMA64_MAP_ANONYMOUS.
Definition heap_prot : Z := Z.lor VMA64_PROT_READ VMA64_PROT_WRITE.

(** Moving the break to [b] maps or unmaps exactly what lies between. *)
Definition brk_moved ls s ls' s' p current b : Prop :=
  b = current /\ areas ls' s' p = areas ls s p \/
  (current < b /\ exists phys, phys <> 0 /\ area_added ls s ls' s' p (anon_area current (sub64 b current) phys heap_prot heap_flags)) \/
  (b < current /\ exists A a B, areas ls s p = A ++ a :: B /\ areas ls' s' p = A ++ B /\ a_base a = b /\
     a_end a = add64 b (sub64 current b)).

Definition brk_result ls s p b v s' : Prop :=
  exists ls', vinv ls' s' /\ (forall q, q <> p -> areas ls' s' q = areas ls s q) /\
    (v = 0 /\ areas ls' s' p = areas ls s p \/
     v = b /\ brk_at s' p b /\ 0 < b <= VMA64_BRK_LIMIT_DEFAULT /\ exists current, brk_moved ls s ls' s' p current b).

(** Setting the break of a state where the areas are already right. *)
Lemma brk_set_wp ls s p t b (Q : Z -> vma_state W -> Prop) :
  vinv ls s -> att s p = Some t -> brk_base (tree_at s t) <= b <= VMA64_BRK_LIMIT_DEFAULT ->
  (forall s', vinv ls s' -> brk_at s' p b -> (forall q, areas ls s' q = areas ls s q) -> Q b s') ->
  wp (update_tree t (fun tr => tr <| brk_current := b |>
        <| brk_peak := if brk_peak tr <? b then b else brk_peak tr |>) ;;; ret b) Q s.
Proof.
  intros Hi Ha Hb HQ. destruct (att_owner _ _ _ _ Hi Ha) as (Ht & _). apply wp_bind, wp_modify, wp_ret.
  set (f := fun tr : vma_tree_t => tr <| brk_current := b |> <| brk_peak := _ |>).
  change (s <| g_vma64_trees := _ |>) with (retree t f s). apply HQ.
  - apply vinv_retree; [done|done|]. pose proof (v_brk _ _ Hi t) as H. unfold brk_of, brk_ok in H |- *. simpl.
    destruct (Z.ltb_spec (brk_peak (tree_at s t)) b); lia.
  - exists t. split; [done|]. rewrite tree_retree by (by rewrite (v_trees _ _ Hi)). done.
  - done.
Qed.

Lemma brk_extend_wp ls s p b :
  vinv ls s -> wp (vma64_brk_extend p b) (brk_result ls s p b) s.
Proof.
  intros Hi. unfold vma64_brk_extend. apply wp_bind, (init_process_step ls); [done|..].
  { intros s1 Ho _. apply wp_ret. exists ls. split_and!; [apply Ho|intros q _; by apply (opened_areas ls s s1 p)|].
    left. split; [done|]. by apply (opened_areas ls s s1 p). }
  intros s1 t Ho Ha. change (1 =? 0) with false. cbn [orb]. pose proof (op_inv _ _ _ _ Ho) as Hi1.
  assert (Hno : forall s2, vinv ls s2 -> (forall q, areas ls s2 q = areas ls s1 q) -> brk_result ls s p b 0 s2).
  { intros s2 Hi2 Hs2. exists ls. split_and!; [done|intros q _; by rewrite Hs2, (opened_areas ls s s1 p)|].
    left. split; [done|]. by rewrite Hs2, (opened_areas ls s s1 p). }
  destruct (nz _); [by apply wp_ret, Hno|]. apply wp_bind, (tree_for_wp ls); [done|]. rewrite Ha.
  destruct (att_owner _ _ _ _ Hi1 Ha) as (Ht & _). apply wp_bind, wp_modify.
  change (s1 <| g_vma64_trees := _ |>) with (retree t vma64_brk_init_tree s1).
  destruct (brk_init_ok _ (v_brk _ _ Hi1 t)) as [Hbok Hbase].
  assert (Hi2 : vinv ls (retree t vma64_brk_init_tree s1)) by (apply vinv_retree; [done|apply brk_init_index|done]).
  set (s2 := retree t vma64_brk_init_tree s1) in *. apply wp_bind, wp_gets.
  assert (Htr : tree_at s2 t = vma64_brk_init_tree (tree_at s1 t)) by (apply tree_retree; by rewrite (v_trees _ _ Hi1)).
  rewrite Htr. set (tr := vma64_brk_init_tree _) in *. destruct (_ || _) eqn:Hg; [by apply wp_ret, Hno|].
  apply orb_false_iff in Hg as [Hlo%Z.ltb_ge Hhi%Z.ltb_ge].
  assert (Hs2 : forall q, areas ls s2 q = areas ls s q) by (intros q; by rewrite <- (opened_areas ls s s1 p)).
  assert (Ha2 : att s2 p = Some t) by done. unfold brk_ok in Hbok.
  assert (Hbrk2 : brk_of s2 t = (brk_base tr, brk_current tr, brk_peak tr)) by (unfold brk_of; by rewrite Htr).
  destruct (Z.eqb_spec b (brk_current tr)) as [->|Hne].
  { apply wp_ret. exists ls. split_and!; [done|by auto|]. right. split_and!; [done| |lia|lia|].
    - exists t. split; [done|]. by rewrite Htr.
    - exists (brk_current tr). left. split; [done|]. apply Hs2. }
  assert (Hfin : forall ls3 s3, vinv ls3 s3 -> tied s2 s3 -> (forall q, q <> p -> areas ls3 s3 q = areas ls s2 q) ->
    brk_moved ls s ls3 s3 p (brk_current tr) b ->
    wp (update_tree t (fun tr => tr <| brk_current := b |>
          <| brk_peak := if brk_peak tr <? b then b else brk_peak tr |>) ;;; ret b) (brk_result ls s p b) s3).
  { intros ls3 s3 Hi3 Htd Hq3 Hmv. destruct (Htd p t Ha2) as [Ha3 Hb3]. rewrite Hbrk2 in Hb3. injection Hb3 as E1 E2 E3.
    apply (brk_set_wp ls3 s3 p t); [done|done|lia|]. intros s4 Hi4 Hat4 Hq4. exists ls3.
    split_and!; [done|intros q Hq; by rewrite Hq4, Hq3|]. right. split_and!; [done|done|lia|lia|].
    exists (brk_current tr). unfold brk_moved, area_added in *. by rewrite !Hq4. }
  assert (Hno2 : forall ls3 s3, vinv ls3 s3 -> (forall q, q <> p -> areas ls3 s3 q = areas ls s2 q) ->
    areas ls3 s3 p = areas ls s2 p -> brk_result ls s p b 0 s3).
  { intros ls3 s3 Hi3 Hq3 Hp3. exists ls3. split_and!; [done|intros q Hq; by rewrite Hq3|]. left. by rewrite Hp3. }
  destruct (Z.ltb_spec (brk_current tr) b) as [Hlt|Hge]; apply wp_bind, wp_bind.
  - eapply wp_mono; [apply (map_anon_wp ls s2); [done|unfold VMA64_BRK_LIMIT_DEFAULT in *; lia|apply Z.mod_pos_bound; lia]|].
    intros got s3 (ls3 & Hi3 & Htd & Hq3 & Hcase). apply wp_ret.
    destruct (Z.eqb_spec got (brk_current tr)) as [->|Hng]; cbn [negb].
    + destruct Hcase as [[E0 _]|(phys & Hph & Hadd & _)]; [lia|]. apply (Hfin ls3); try done. right. left.
      split; [done|]. exists phys. split; [done|]. unfold area_added in *. by rewrite Hs2 in Hadd.
    + apply wp_ret. destruct Hcase as [[E0 E1]|(phys & Hph & Hadd & Hch & _)]; [by apply (Hno2 ls3)|]. by destruct Hng.
  - eapply wp_mono; [apply (unmap_wp ls s2); done|].
    intros ok s3 (ls3 & Hi3 & Htd & Hq3 & Hcase). apply wp_ret. destruct Hcase as [(-> & _ & E)|(-> & _ & A & a & B & E1 & E2 & E3 & E4)].
    + apply wp_ret. by apply (Hno2 ls3).
    + apply (Hfin ls3); try done. right. right. split; [lia|]. exists A, a, B. by rewrite <- Hs2.
Qed.

Lemma brk_query_wp ls s p :
  vinv ls s -> wp (vma64_brk_query p) (fun v s' => vinv ls s' /\ (forall q, areas ls s' q = areas ls s q) /\
    (v = 0 \/ brk_at s' p v /\ 0 < v <= VMA64_BRK_LIMIT_DEFAULT)) s.
Proof.
  intros Hi. apply wp_bind, (init_process_step ls); [done|..].
  { intros s1 Ho _. apply wp_ret. split_and!; [apply Ho|intros q; by apply (opened_areas ls s s1 p)|by left]. }
  intros s1 t Ho Ha. change (1 =? 0) with false. cbv iota. pose proof (op_inv _ _ _ _ Ho) as Hi1.
  apply wp_bind, (tree_for_wp ls); [done|]. rewrite Ha. destruct (att_owner _ _ _ _ Hi1 Ha) as (Ht & _).
  apply wp_bind, wp_modify, wp_gets. change (s1 <| g_vma64_trees := _ |>) with (retree t vma64_brk_init_tree s1).
  destruct (brk_init_ok _ (v_brk _ _ Hi1 t)) as [Hbok Hbase]. split_and!.
  - apply vinv_retree; [done|apply brk_init_index|done].
  - intros q. by rewrite areas_retree, (opened_areas ls s s1 p).
  - right. rewrite tree_retree by (by rewrite (v_trees _ _ Hi1)). split_and!; [|unfold brk_ok in Hbok; lia|unfold brk_ok in Hbok; lia].
    exists t. split; [done|]. by rewrite tree_retree by (by rewrite (v_trees _ _ Hi1)).
Qed.

End fork.
End VmaFork.
