(* ===== verification/VmaWorld.v ===== *)
(** * Address spaces over the page tables

    [VmaPaging] implemented by Paging.v, with the address the linker gave the
    pool of anonymous pages, and [VmaPagingLaws] proved of it. *)

From S2P Require Import Prelude Principal Services64 Process Paging Vma.
Local Open Scope Z_scope.
Local Open Scope kernel_scope.

Module VmaWorld.

Class AnonPool := { anon_pool : Z }.

#[export] Instance vma_over_paging `{!Paging.PagingSymbols, !AnonPool, !Process.LaunchEnv} :
    Vma.VmaPaging Paging.paging_state := {|
  Vma.g_vma64_anon_pages_address := anon_pool;
  Vma.g_paging64_kernel_physical_base := Paging.g_paging64_kernel_physical_base;
  Vma.paging64_process_root_physical := Paging.paging64_process_root_physical;
  Vma.paging64_install_user_page_mapping_for_process _ := Paging.paging64_install_user_page_mapping_for_process;
  Vma.paging64_install_user_page_mapping := Paging.paging64_install_user_page_mapping;
  Vma.paging64_clear_user_page_mapping_for_process := Paging.paging64_clear_user_page_mapping_for_process;
  Vma.paging64_clear_user_page_mapping := Paging.paging64_clear_user_page_mapping;
  Vma.paging64_remap_user_page_for_process := Paging.paging64_remap_user_page_for_process;
  Vma.paging64_remap_user_page := Paging.paging64_remap_user_page;
  Vma.paging64_update_user_page_protection_for_process := Paging.paging64_update_user_page_protection_for_process;
  Vma.paging64_update_user_page_protection := Paging.paging64_update_user_page_protection;
  Vma.paging64_user_page_present_for_process := Paging.paging64_user_page_present_for_process;
  Vma.paging64_user_page_present := Paging.paging64_user_page_present;
  Vma.paging64_user_page_physical_for_process := Paging.paging64_user_page_physical_for_process;
  Vma.paging64_user_page_physical := Paging.paging64_user_page_physical;
  Vma.paging64_user_page_protection_for_process := Paging.paging64_user_page_protection_for_process;
  Vma.paging64_user_page_protection := Paging.paging64_user_page_protection;
|}.

(** The mapping calls keep the kernel where it is loaded. *)
Section laws.
Context {symbols : Paging.PagingSymbols} {pool : AnonPool} {launch : Process.LaunchEnv}.

Definition loaded_at (base : Z) (s : Paging.paging_state) : Prop := Paging.g_paging64_kernel_physical_base s = base.
Definition in_place {A} (m : ST Paging.paging_state A) : Prop := forall base, preserves (loaded_at base) m.

Ltac place_step :=
  first [ preserves_step
        | match goal with
          | |- preserves _ (Paging.put_entry _ _ _) => apply preserves_modify; intros s H; exact H
          | |- preserves _ (modify _) => apply preserves_modify; intros s H; exact H
          end ].

Lemma place_zero page : in_place (Paging.paging64_zero_table page).
Proof. intros base. unfold Paging.paging64_zero_table. repeat place_step. Qed.
Lemma place_nx prot : in_place (Paging.enable_nx prot).
Proof. intros base. unfold Paging.enable_nx. repeat place_step. Qed.
Lemma place_active : in_place Paging.paging64_reload_active_root.
Proof. intros base. unfold Paging.paging64_reload_active_root, Paging.write_cr3_64. repeat place_step. Qed.
Lemma place_reload physical : in_place (Paging.paging64_reload_root_if_active physical).
Proof. intros base. unfold Paging.paging64_reload_root_if_active. repeat (apply place_active || place_step). Qed.
Lemma place_shared pd : in_place (Paging.paging64_vma_user_pt_acquire_slot pd).
Proof. intros base. unfold Paging.paging64_vma_user_pt_acquire_slot. repeat (apply place_zero || place_step). Qed.
Lemma place_private slot pd : in_place (Paging.paging64_process_vma_user_pt_acquire_slot slot pd).
Proof.
  intros base. unfold Paging.paging64_process_vma_user_pt_acquire_slot, Paging.update_root. repeat (apply place_zero || place_step).
Qed.
Lemma place_remap at_ pa prot reload : in_place reload -> in_place (Paging.remap_entry at_ pa prot reload).
Proof.
  intros Hr base. unfold Paging.remap_entry. destruct at_ as [[page i]|]; repeat (apply Hr || apply place_nx || place_step).
Qed.

Lemma in_place_run {A} (m : ST Paging.paging_state A) s : in_place m ->
  Paging.g_paging64_kernel_physical_base (snd (m s)) = Paging.g_paging64_kernel_physical_base s.
Proof. intros Hm. exact (Hm _ s eq_refl). Qed.

#[export] Instance vma_over_paging_laws : Vma.VmaPagingLaws Paging.paging_state.
Proof.
  split; intros; apply in_place_run; intros base.
  - cbn. unfold Paging.paging64_install_user_page_mapping_for_process.
    repeat (apply place_private || apply place_nx || apply place_reload || place_step).
  - cbn. unfold Paging.paging64_install_user_page_mapping. cbv zeta.
    repeat (apply place_shared || apply place_nx || apply place_active || place_step).
  - cbn. unfold Paging.paging64_remap_user_page_for_process. do 2 (apply preserves_bind; [apply preserves_gets|intros ?]).
    apply place_remap, place_reload.
  - cbn. unfold Paging.paging64_remap_user_page. apply preserves_bind; [apply preserves_gets|intros ?]. apply place_remap, place_active.
Qed.

End laws.
End VmaWorld.
