(* ===== verification/VmaTheorems.v ===== *)
(** * Theorems about address spaces

    The properties of the calls of vma.c, stated on the list of mappings a
    process has, read from the state by following the links of its tree. *)

From stdpp Require Import sorting.
From S2P Require Import Prelude Principal Services64 Process ProcessFacts ProcessTheorems PersonaBudget Paging PagingTheorems Demo VmaTree RbTree VmaRb VmaList VmaSpace VmaSpaceOps VmaGap Vma VmaFacts VmaOps VmaSteps VmaCalls VmaRelease VmaProtect VmaCow VmaFork VmaWorld.
Import PersonaBudget VmaTree VmaList VmaSpace VmaSpaceOps VmaGap Vma VmaFacts VmaOps VmaSteps VmaPages VmaCalls VmaRelease VmaProtect VmaCow VmaFork.
Local Open Scope Z_scope.
Local Open Scope kernel_scope.

Module VmaTheorems.

Section theorems.
Context {W : Type} {paging : VmaPaging W} {launch : Process.LaunchEnv}.
Implicit Types (s : vma_state W) (t i j : nat) (p q : Z) (ls : nat -> list nat).

(** ** The mappings of a process *)

Fixpoint follow (fuel : nat) s (cur : option nat) : list nat :=
  match fuel, cur with S fuel', Some i => i :: follow fuel' s (next (pool_at s i)) | _, _ => [] end.

(** The regions of tree [t], in list order. *)
Definition listed s t : list nat := follow link_fuel s (head (tree_at s t)).
Arguments listed : simpl never.

(** What process [p] has mapped, in address order. *)
Definition mappings s p : list area := areas (listed s) s p.

(** The address spaces are consistent: for each tree the linked list and the
    red-black tree hold the same regions in address order, disjoint and
    aligned, with the counters of the tree; no region is in two trees or both
    listed and free; trees and processes own each other. *)
Definition vma_ok s : Prop := vinv (listed s) s.

Lemma follow_dseg fuel s t pv l : dseg (heap_of s t) pv l None -> (length l < fuel)%nat -> follow fuel s (first_of l None) = l.
Proof.
  revert fuel pv. induction l as [|i l IH]; intros [|fuel] pv; simpl; [lia|done|lia|]. intros (_ & _ & Hn & Hd) Hf.
  change (region_at (heap_of s t) i) with (pool_at s i) in Hn. rewrite Hn. f_equal. apply (IH _ (Some i)); [done|lia].
Qed.

Lemma listed_eq ls s t : vinv ls s -> (t < TREES)%nat -> listed s t = ls t.
Proof.
  intros Hi Ht. pose proof (v_space _ _ Hi t Ht) as Hs. destruct (sp_list _ _ Hs) as [Hd Hh].
  unfold listed. change (head (tree_at s t)) with (head (tree (heap_of s t))). rewrite Hh.
  apply (follow_dseg _ s t None); [done|]. by apply (space_fuel Hs).
Qed.

Lemma ok_of ls s : vinv ls s -> vma_ok s.
Proof.
  intros Hi. pose proof (fun t => listed_eq ls s t Hi) as E. destruct Hi as [F1 F2 F3 F4 F5 F6 F7 F8 F9 F10 F11 F12].
  assert (Ht : forall t o, g_vma64_tree_pids s !! t = Some o -> (t < TREES)%nat).
  { intros t o Ho. rewrite <- F3. by eapply lookup_lt_Some. }
  split; try done.
  - intros t Ht'. rewrite E by done. auto.
  - intros t1 t2 i H1 H2. rewrite !E by done. by apply F8.
  - intros t i H1. rewrite E by done. by apply F9.
  - intros t Hp. rewrite E by (by eapply Ht). auto.
Qed.

Lemma mappings_eq ls s p : vinv ls s -> mappings s p = areas ls s p.
Proof.
  intros Hi. unfold mappings, areas. destruct (att s p) as [t|] eqn:Ha; simpl; [|done].
  rewrite (listed_eq ls s t Hi); [done|]. apply (att_owner _ _ _ _ Hi Ha).
Qed.

(** ** Every call keeps them *)

Inductive vma_call :=
| VInit (p : Z)
| VMap (p hint len prot map : Z)
| VUnmap (p address len : Z)
| VProtect (p address len prot : Z)
| VClone (sp sa tp ta : Z)
| VFault (p address code : Z)
| VFork (parent child : Z)
| VRelease (p : Z)
| VBrk (p b : Z)
| VBrkQuery (p : Z)
| VFind (p address : Z).

Definition run_vma_call (c : vma_call) (s : vma_state W) : vma_state W :=
  match c with
  | VInit p => snd (vma64_init_process p s)
  | VMap p hint len prot map => snd (vma64_map_anon p hint len prot map s)
  | VUnmap p address len => snd (vma64_unmap p address len s)
  | VProtect p address len prot => snd (vma64_protect p address len prot s)
  | VClone sp sa tp ta => snd (vma64_clone_cow_page sp sa tp ta s)
  | VFault p address code => snd (vma64_handle_cow_fault p address code s)
  | VFork parent child => snd (vma64_fork_copy_process parent child s)
  | VRelease p => snd (vma64_release_process p s)
  | VBrk p b => snd (vma64_brk_extend p b s)
  | VBrkQuery p => snd (vma64_brk_query p s)
  | VFind p address => snd (vma64_find p address s)
  end.

Fixpoint run_vma_calls (cs : list vma_call) s : vma_state W :=
  match cs with [] => s | c :: cs' => run_vma_calls cs' (run_vma_call c s) end.

(** Addresses and lengths are 64-bit. *)
Definition u64 (a : Z) : bool := (0 <=? a) && (a <? 2 ^ 64).
Definition call_u64 (c : vma_call) : bool :=
  match c with
  | VMap _ hint len _ _ => u64 hint && u64 len
  | VUnmap _ a len => u64 a && u64 len
  | VProtect _ a len _ => u64 a && u64 len
  | VClone _ sa _ ta => u64 sa && u64 ta
  | _ => true
  end.

Lemma u64_range a : u64 a = true -> 0 <= a < 2 ^ 64.
Proof. unfold u64. rewrite andb_true_iff, Z.leb_le, Z.ltb_lt. done. Qed.

(** The state a call leaves satisfies what its result does. *)
Lemma wp_state {A} (m : ST (vma_state W) A) (P : vma_state W -> Prop) s : wp m (fun _ => P) s -> P (snd (m s)).
Proof. unfold wp. by destruct (m s). Qed.

Lemma call_keeps_ok c s : vma_ok s -> call_u64 c = true -> vma_ok (run_vma_call c s).
Proof.
  intros Hi Hc. destruct c as [p|p hint len prot map|p a len|p a len prot|sp sa tp ta|p a code|pa ch|p|p b|p|p a]; simpl in *;
    rewrite ?andb_true_iff in Hc; try (destruct Hc as [?%u64_range ?%u64_range]); apply wp_state.
  - apply (init_process_step (listed s)); [done|..]; intros; eapply ok_of; eapply op_inv; eassumption.
  - eapply wp_mono; [by apply (map_anon_wp (listed s))|]. intros v s' (ls' & ? & _). by eapply ok_of.
  - eapply wp_mono; [by apply (unmap_wp (listed s))|]. intros v s' (ls' & ? & _). by eapply ok_of.
  - eapply wp_mono; [by apply (protect_wp (listed s))|]. intros v s' (ls' & [? _] & _). by eapply ok_of.
  - eapply wp_mono; [by apply (clone_wp (listed s))|]. intros v s' (ls' & ? & _). by eapply ok_of.
  - eapply wp_mono; [by apply (cow_fault_wp (listed s))|]. intros v s' (? & _). by eapply ok_of.
  - eapply wp_mono; [by apply (fork_copy_wp (listed s))|]. intros v s' (ls' & ? & _). by eapply ok_of.
  - apply (release_process_wp (listed s)); [done|]. intros s' ls' Hr. eapply ok_of. apply Hr.
  - eapply wp_mono; [by apply (brk_extend_wp (listed s))|]. intros v s' (ls' & ? & _). by eapply ok_of.
  - eapply wp_mono; [by apply (brk_query_wp (listed s))|]. intros v s' (? & _). by eapply ok_of.
  - apply (vma_find_wp (listed s)); [done|]. intros s' (Hc' & _). eapply ok_of, vinv_core; done.
Qed.

Lemma calls_keep_ok cs s : vma_ok s -> forallb call_u64 cs = true -> vma_ok (run_vma_calls cs s).
Proof.
  revert s. induction cs as [|c cs IH]; simpl; intros s Hi; [done|]. intros [H1 H2]%andb_true_iff. by apply IH, H2; apply call_keeps_ok.
Qed.

(** C2: From consistent address spaces, any sequence of map, unmap, protect,
    copy-on-write, fork, release and break calls with 64-bit arguments leaves
    them consistent; and the mappings of every process are sorted by address
    and disjoint. *)
Theorem vma_calls_keep_spaces s cs :
  vma_ok s -> forallb call_u64 cs = true ->
  vma_ok (run_vma_calls cs s) /\ forall p, areas_wf (mappings (run_vma_calls cs s) p).
Proof.
  intros Hi Hc. pose proof (calls_keep_ok cs s Hi Hc) as Hok. split; [done|]. intros p. by apply areas_ok.
Qed.

(** ** Looking up *)

Definition covers (a : Z) (x : area) : bool := (a_base x <=? a) && (a <? a_end x).

Lemma find_areas s t a l :
  List.find (covers a) (areas_at s l) = (fun i => area_of (pool_at s i)) <$> List.find (contains (heap_of s t) a) l.
Proof.
  induction l as [|i l IH]; simpl; [done|]. change (covers a (area_of (pool_at s i))) with (contains (heap_of s t) a i).
  by destruct (contains (heap_of s t) a i).
Qed.

Lemma core_mappings s s' q : vma_ok s -> core s' = core s -> mappings s' q = mappings s q.
Proof.
  intros Hi Hc. pose proof (vinv_core _ s s' Hc Hi) as Hi'. rewrite (mappings_eq _ s' q Hi').
  exact (unmoved_areas _ s s' q Hi (unmoved_core _ s s' Hi Hc)).
Qed.

(** C12: Looking an address up in the red-black tree gives the mapping a scan
    of the list would find, or none; it takes at most twice the logarithm of
    the number of mappings in steps, and changes no mapping. *)
Theorem vma_find_scan s p a :
  vma_ok s ->
  let (v, s') := vma64_find p a s in
  (fun i => area_of (pool_at s i)) <$> v = List.find (covers a) (mappings s p) /\
  0 <= g_vma64_last_lookup_steps s' <= Z.of_nat (2 * Nat.log2 (S (length (mappings s p)))) /\
  forall q, mappings s' q = mappings s q.
Proof.
  intros Hi. assert (H : wp (vma64_find p a) (fun v s' =>
    (fun i => area_of (pool_at s i)) <$> v = List.find (covers a) (mappings s p) /\
    0 <= g_vma64_last_lookup_steps s' <= Z.of_nat (2 * Nat.log2 (S (length (mappings s p)))) /\
    forall q, mappings s' q = mappings s q) s); [|unfold wp in H; by destruct (vma64_find p a s)].
  assert (Hq : forall s', core s' = core s -> forall q, mappings s' q = mappings s q).
  { intros s' Hc q. exact (core_mappings s s' q Hi Hc). }
  apply wp_bind, (tree_for_wp (listed s)); [done|]. unfold mappings, areas at 1 2. destruct (att s p) as [t|] eqn:Ha; cbn [from_option].
  - destruct (att_owner _ _ _ _ Hi Ha) as (Ht & _). destruct (find_space _ _ a (v_space _ _ Hi t Ht)) as [Hf Hs].
    apply wp_bind, wp_gets, wp_bind, wp_modify, wp_ret. change (rb_root (tree_at s t)) with (rb_root (tree (heap_of s t))).
    split; [by rewrite Hf, (find_areas s t)|]. split; [unfold areas_at; rewrite length_fmap; exact Hs|by apply Hq].
  - apply wp_bind, wp_modify, wp_ret. split; [done|]. split; [done|by apply Hq].
Qed.

(** A gap search returns the lowest page-aligned address of the range
    where the length fits between the mappings, and 0 exactly when there is
    none. *)
Theorem vma_find_gap_lowest s p lo hi len t :
  vma_ok s -> att s p = Some t -> 0 < lo < 2 ^ 64 -> hi < 2 ^ 64 -> 0 < len < 2 ^ 64 ->
  let (r, s') := vma64_find_gap p lo hi len VMA64_PAGE_BYTES s in
  s' = s /\ (r <> 0 -> area_gap (mappings s p) lo hi len r) /\
  forall g, area_gap (mappings s p) lo hi len g -> r <> 0 /\ r <= g.
Proof.
  intros Hi Ha Hlo Hhi Hlen. destruct (att_owner _ _ _ _ Hi Ha) as (Ht & _).
  destruct (find_gap_space _ _ lo hi len (v_space _ _ Hi t Ht) ltac:(lia) ltac:(lia) Hhi Hlen) as [G1 G2].
  assert (H : wp (vma64_find_gap p lo hi len VMA64_PAGE_BYTES) (fun r s' => s' = s /\
    (r <> 0 -> area_gap (mappings s p) lo hi len r) /\
    forall g, area_gap (mappings s p) lo hi len g -> r <> 0 /\ r <= g) s);
    [|unfold wp in H; by destruct (vma64_find_gap p lo hi len VMA64_PAGE_BYTES s)].
  apply (find_gap_wp (listed s)); [done|]. rewrite Ha. unfold mappings, areas. rewrite Ha. simpl. split_and!; [done|..].
  - intros Hr. by apply (gap_areas s (listed s t) t), G1.
  - intros g Hg. by apply G2, (gap_areas s (listed s t) t).
Qed.

(** ** Mapping and unmapping *)

(** The other processes see no change. *)
Definition others_kept s s' p : Prop := forall q, q <> p -> mappings s' q = mappings s q.

(** The mappings [l'] are those of [l] and [a]. *)
Definition with_area (l l' : list area) a : Prop := exists A B, l = A ++ B /\ l' = A ++ a :: B.

(** The two ends of a result, in terms of mappings. *)
Lemma others_of s ls' s' p :
  vma_ok s -> vinv ls' s' -> (forall q, q <> p -> areas ls' s' q = areas (listed s) s q) -> others_kept s s' p.
Proof. intros Hi Hi' Ho q Hq. rewrite (mappings_eq ls' s' q) by done. by apply Ho. Qed.

(** C34: A successful anonymous mapping adds exactly one area, of the length,
    protection and flags asked for, aligned and overlapping no other, at the
    fixed address asked for or else at the lowest gap of the search range; a
    failed one leaves the mappings as they were, whatever step failed; and no
    other process sees a change. *)
Theorem vma_map_outcome s p hint len prot map :
  vma_ok s -> u64 hint = true -> u64 len = true ->
  let (v, s') := vma64_map_anon p hint len prot map s in
  others_kept s s' p /\
    ((v = 0 /\ mappings s' p = mappings s p) \/
     exists phys, phys <> 0 /\ with_area (mappings s p) (mappings s' p) (anon_area v len phys prot map) /\
       vma64_range_valid v (add64 v len) = true /\ chosen (mappings s p) hint len map v /\
       forall x, x ∈ mappings s p -> vma64_ranges_overlap v (add64 v len) (a_base x) (a_end x) = false).
Proof.
  intros Hi Hh%u64_range Hl%u64_range. pose proof (map_anon_wp (listed s) s p hint len prot map Hi Hh Hl) as H. unfold wp in H.
  destruct (vma64_map_anon p hint len prot map s) as [v s']. cbn [fst snd] in H. destruct H as (ls' & Hi' & _ & Ho & H).
  split; [by eapply others_of|]. rewrite (mappings_eq ls' s' p) by done. destruct H as [H|(phys & Hp & (H1 & H2 & H3) & H4 & _)]; [by left|].
  right. by exists phys.
Qed.

(** Unmapping succeeds exactly for the range of one whole anonymous area,
    and then takes that area away and nothing else; a refused call changes no
    mapping. *)
Theorem vma_unmap_outcome s p address len :
  vma_ok s ->
  let (v, s') := vma64_unmap p address len s in
  others_kept s s' p /\
    ((v = 0 /\ ~ unmappable (mappings s p) address len /\ mappings s' p = mappings s p) \/
     (v = 1 /\ unmappable (mappings s p) address len /\
      exists a, with_area (mappings s' p) (mappings s p) a /\ a_base a = address /\ a_end a = add64 address len)).
Proof.
  intros Hi. pose proof (unmap_wp (listed s) s p address len Hi) as H. unfold wp in H.
  destruct (vma64_unmap p address len s) as [v s']. cbn [fst snd] in H. destruct H as (ls' & Hi' & _ & Ho & H).
  split; [by eapply others_of|]. rewrite (mappings_eq ls' s' p) by done.
  destruct H as [H|(H1 & H2 & A & a & B & E1 & E2 & E3 & E4)]; [by left|]. right. split_and!; [done|done|]. exists a. split_and!; try done.
  by exists A, B.
Qed.

(** An area of a sorted list is where its base says. *)
Lemma area_place (A B A' B' : list area) a a' :
  areas_wf (A ++ a :: B) -> A ++ a :: B = A' ++ a' :: B' -> a_base a' = a_base a -> A' = A /\ B' = B.
Proof.
  intros [Hs Hok] E Hb. pose proof (sorted_before _ _ _ Hs) as [S1 S2].
  assert (Hin : forall x, x ∈ A ++ a :: B -> a_base x = a_base a -> x ∉ A /\ x ∉ B).
  { intros x Hx E'. pose proof (Hok a ltac:(set_solver)) as Ha. pose proof (Hok x Hx) as Hx'. unfold area_ok in *. split.
    - intros H. specialize (S1 x H). unfold before in S1. lia.
    - intros H. specialize (S2 x H). unfold before in S2. lia. }
  destruct (Hin a' ltac:(rewrite E; set_solver) Hb) as [N1 N2]. destruct (Hin a ltac:(set_solver) eq_refl) as [M1 M2].
  apply app_eq_inv in E as [(k & E1 & E2)|(k & E1 & E2)]; destruct k as [|x k]; simplify_eq/=; rewrite ?app_nil_r; try done.
  - exfalso. apply N2. set_solver.
  - exfalso. apply N1. set_solver.
Qed.

Lemma map_length s p hint len prot map :
  fst (vma64_map_anon p hint len prot map s) <> 0 -> vma64_page_count_from_length len <> 0.
Proof.
  intros H E. apply H. unfold vma64_map_anon, bind, set_map_stage, modify. by rewrite E.
Qed.

(** Unmapping what a successful mapping returned succeeds and gives every
    process the mappings it had before. *)
Theorem vma_map_unmap_roundtrip s p hint len prot map :
  vma_ok s -> u64 hint = true -> u64 len = true ->
  let (v, s1) := vma64_map_anon p hint len prot map s in
  v <> 0 -> let (w, s2) := vma64_unmap p v len s1 in w = 1 /\ forall q, mappings s2 q = mappings s q.
Proof.
  intros Hi Hh%u64_range Hl%u64_range. pose proof (map_anon_wp (listed s) s p hint len prot map Hi Hh Hl) as H. unfold wp in H.
  pose proof (map_length s p hint len prot map) as Hlen.
  destruct (vma64_map_anon p hint len prot map s) as [v s1]. cbn [fst snd] in *. intros Hv. specialize (Hlen Hv).
  destruct H as (ls1 & Hi1 & _ & Ho & [[? _]|(phys & Hp & ((A & B & E0 & E1) & _ & Hr) & _)]); [done|].
  pose proof (unmap_wp ls1 s1 p v len Hi1) as H. unfold wp in H. destruct (vma64_unmap p v len s1) as [w s2]. cbn [fst snd] in *.
  destruct H as (ls2 & Hi2 & _ & Ho2 & H).
  assert (Hun : unmappable (areas ls1 s1 p) v len).
  { change (vma64_range_valid v (add64 v len) = true) in Hr. unfold vma64_range_valid in Hr.
    apply negb_true_iff in Hr. rewrite !orb_false_iff in Hr. destruct Hr as [[R1%Z.leb_gt R2] _]. unfold nz in R2. apply negb_false_iff, Z.eqb_eq in R2.
    split_and!; [done|done|lia|]. exists (anon_area v len phys prot map). split_and!; try done. rewrite E1. set_solver. }
  destruct H as [(_ & Hno & _)|(-> & _ & A' & a & B' & E2 & E3 & B1 & _)]; [by destruct Hno|]. split; [done|]. intros q.
  rewrite (mappings_eq ls2 s2 q) by done. destruct (decide (q = p)) as [->|Hq].
  - change (mappings s p) with (areas (listed s) s p). rewrite E3, E0. rewrite E1 in E2.
    pose proof (areas_ok ls1 s1 p Hi1) as Hw. rewrite E1 in Hw.
    by destruct (area_place _ _ _ _ _ _ Hw E2 B1) as [-> ->].
  - rewrite Ho2, Ho by done. done.
Qed.

(** ** Protection *)

(** C35: Changing the protection of a range either changes no mapping, or it
    replaces the one area around the range by its pieces: the part before and
    after it with the old protection, the range with the new one, at the same
    offsets of the same memory.  When the call succeeds all pieces are there;
    when it fails half-way the first ones are.  No other process sees it. *)
Theorem vma_protect_outcome s p address len prot :
  vma_ok s -> u64 address = true -> u64 len = true ->
  let (v, s') := vma64_protect p address len prot s in
  others_kept s s' p /\
    ((v = 0 /\ mappings s' p = mappings s p) \/
     exists A old B D, mappings s p = A ++ old :: B /\ mappings s' p = A ++ D ++ B /\
       a_base old <= address < add64 address len /\ add64 address len <= a_end old /\
       D `prefix_of` pieces old address (add64 address len) prot /\
       (v = 0 \/ v = 1 /\ D = pieces old address (add64 address len) prot)).
Proof.
  intros Hi Ha%u64_range Hl%u64_range. pose proof (protect_wp (listed s) s p address len prot Hi Ha Hl) as H. unfold wp in H.
  destruct (vma64_protect p address len prot s) as [v s']. cbn [fst snd] in H. destruct H as (ls' & [Hi' Ho] & H).
  split; [by eapply others_of|]. rewrite (mappings_eq ls' s' p) by done.
  destruct H as [H|(A & old & B & D & E & B1 & B2 & B3 & E' & HD & Hv)]; [by left|]. right. by exists A, old, B, D.
Qed.

(** ** Copy on write *)

(** C38: A write fault is handled only for a copy-on-write page of the process
    itself, writable and one page long; the area then gets a page of its own
    and loses the mark, and no other mapping changes.  When the pool is in one
    run of physical memory, that page was free, is used once, has the bytes of
    the page it replaces, and is where the page tables map the address with
    the protection of the area; the replaced page has one user less (and is
    cleared if it has none), and no other page of the pool changes.  A fault
    that is not handled changes no mapping. *)
Theorem vma_cow_fault_outcome {laws : VmaPagingLaws W} s p address code :
  vma_ok s ->
  let (v, s') := vma64_handle_cow_fault p address code s in
  others_kept s s' p /\
    ((v = 0 /\ mappings s' p = mappings s p) \/
     (v = 1 /\ exists A a B phys, mappings s p = A ++ a :: B /\ mappings s' p = A ++ copied a phys :: B /\
        shared_page a (vma64_align_down address VMA64_PAGE_BYTES) /\ phys <> 0 /\
        (pool_ok s -> exists k src, page_split s s' p (vma64_align_down address VMA64_PAGE_BYTES) a phys k src))).
Proof.
  intros Hi. pose proof (cow_fault_wp (listed s) s p address code Hi) as H. unfold wp in H.
  destruct (vma64_handle_cow_fault p address code s) as [v s']. cbn [fst snd] in H. destruct H as (Hi' & Ho & H).
  split; [by eapply others_of|]. rewrite (mappings_eq (listed s) s' p) by done.
  destruct H as [H|(-> & A & a & B & phys & E & E' & Hs & Hp & Hpg)]; [by left|]. right. split; [done|]. exists A, a, B, phys.
  exact (conj E (conj E' (conj Hs (conj Hp (Hpg laws))))).
Qed.

(** ** Fork and release *)

(** C39: Forking an address space is all or nothing: the child gets a copy of
    every area of the parent, in order, at the same addresses with the same
    protection, or the call fails and the child has the mappings it had; the
    parent and all others keep theirs.  When the pool is in one run of
    physical memory, the areas of the child have pages of their own: they were
    free, each is used once and in one area only, each holds the bytes of the
    parent's page at its place, and no other page of the pool changes. *)
Theorem vma_fork_outcome {laws : VmaPagingLaws W} s parent child :
  vma_ok s ->
  let (v, s') := vma64_fork_copy_process parent child s in
  others_kept s s' child /\
    ((v = 0 /\ mappings s' child = mappings s child) \/
     (v = 1 /\ Forall2 fork_of (mappings s parent) (mappings s' child) /\
        (pool_ok s -> exists ks, fork_pages s s' (mappings s parent) (mappings s' child) ks))).
Proof.
  intros Hi. pose proof (fork_copy_wp (listed s) s parent child Hi) as H. unfold wp in H.
  destruct (vma64_fork_copy_process parent child s) as [v s']. cbn [fst snd] in H. destruct H as (ls' & Hi' & Ho & H).
  split; [by eapply others_of|]. rewrite (mappings_eq ls' s' child) by done.
  destruct H as [H|(-> & H & Hpg)]; [by left|]. right. exact (conj eq_refl (conj H (Hpg laws))).
Qed.

(** Releasing an address space reports the number of its areas, detaches
    its tree, returns every region of it to the pool, and leaves the mappings
    of the others alone. *)
Theorem vma_release_outcome s p :
  vma_ok s ->
  let (v, s') := vma64_release_process p s in
  v = Z.of_nat (length (mappings s p)) /\ mappings s' p = [] /\ att s' p = None /\ others_kept s s' p /\
  forall t i, att s p = Some t -> i ∈ listed s t -> g_vma64_region_used s' !! i = Some 0.
Proof.
  intros Hi. assert (H : wp (vma64_release_process p) (fun v s' =>
    v = Z.of_nat (length (mappings s p)) /\ mappings s' p = [] /\ att s' p = None /\ others_kept s s' p /\
    forall t i, att s p = Some t -> i ∈ listed s t -> g_vma64_region_used s' !! i = Some 0) s);
    [|unfold wp in H; by destruct (vma64_release_process p s)].
  apply (release_process_wp (listed s)); [done|]. intros s' ls' Hr. pose proof (rl_inv _ _ _ _ _ Hr) as Hi'. split_and!.
  - done.
  - rewrite (mappings_eq ls' s' p) by done. unfold areas. by rewrite (rl_self _ _ _ _ _ Hr).
  - apply Hr.
  - eapply others_of; [done|exact Hi'|]. intros q Hq. by apply (released_areas (listed s) s p).
  - intros t i Ha Hil. by apply (rl_free _ _ _ _ _ Hr t).
Qed.

(** ** The program break *)

(** Moving the break to a new value maps or unmaps exactly the pages
    between the old and the new one and stays within the heap; a refused move
    changes no mapping. *)
Theorem vma_brk_outcome s p b :
  vma_ok s ->
  let (v, s') := vma64_brk_extend p b s in
  others_kept s s' p /\
    ((v = 0 /\ mappings s' p = mappings s p) \/
     (v = b /\ brk_at s' p b /\ 0 < b <= VMA64_BRK_LIMIT_DEFAULT /\ exists current,
        b = current /\ mappings s' p = mappings s p \/
        (current < b /\ exists phys, phys <> 0 /\
           with_area (mappings s p) (mappings s' p) (anon_area current (sub64 b current) phys heap_prot heap_flags)) \/
        (b < current /\ exists a, with_area (mappings s' p) (mappings s p) a /\ a_base a = b /\
           a_end a = add64 b (sub64 current b)))).
Proof.
  intros Hi. pose proof (brk_extend_wp (listed s) s p b Hi) as H. unfold wp in H.
  destruct (vma64_brk_extend p b s) as [v s']. cbn [fst snd] in H. destruct H as (ls' & Hi' & Ho & H).
  split; [by eapply others_of|]. rewrite (mappings_eq ls' s' p) by done.
  destruct H as [H|(Hv & Hb & Hr & current & H)]; [by left|]. right. do 3 (split; [done|]). exists current.
  destruct H as [H|[(Hlt & phys & Hp & Hadd & _)|(Hlt & A & a & B & E & E' & B1 & B2)]]; [by left| |]; right; [left|right].
  - split; [done|]. by exists phys.
  - split; [done|]. exists a. split_and!; try done. by exists A, B.
Qed.

(** ** The index *)

(** C37: Inserting a region into the pointer tree never runs out of steps: it
    ends with the tree that has the region in its place by address, again a
    red-black tree with black root, and changes only links of the regions of
    the tree. *)
Theorem vma_rb_insert_balanced h l1 x l2 :
  indexed h (l1 ++ l2) -> RbTree.sorted (VmaRb.key h) (l1 ++ x :: l2) -> VmaRb.in_pool h x ->
  (length (l1 ++ l2) < link_fuel)%nat ->
  let (v, h') := vma64_rb_insert x h in v = 1 /\ indexed h' (l1 ++ x :: l2) /\ VmaRb.relinked (l1 ++ x :: l2) h h'.
Proof.
  intros H1 H2 H3 H4. pose proof (rb_insert_indexed h l1 x l2 H1 H2 H3 H4) as H. unfold wp in H. by destruct (vma64_rb_insert x h).
Qed.

End theorems.
(** ** A small machine

    The processes of the boot table over the page tables of
    PagingTheorems.v, with the page pool at 4 MiB. *)

#[local] Existing Instance ProcTheorems.demo_launch.
#[local] Existing Instance PagingTheorems.demo_symbols.
#[export] Instance demo_pool : VmaWorld.AnonPool := {| VmaWorld.anon_pool := 0x400000 |}.
#[local] Existing Instance VmaWorld.vma_over_paging.
#[local] Existing Instance VmaWorld.vma_over_paging_laws.

Definition power_on_vma {W} (ps : Process.process_state) (pers : persona_state) (w : W) : vma_state W :=
  mk_vma_state [] [] [] [] [] [] 0 0 0 0 0 0 0 0 0 0 0 0 0 0 0 ps pers w.

(** After [vma64_init], with no process attached to a tree. *)
Lemma boot_vma_ok {W} {paging : VmaPaging W} (ps : Process.process_state) pers (w : W) :
  ProcFacts.pinv ps -> (forall p r, proc ps p = Some r -> Process.vma_root r = 0) ->
  vma_ok (snd (vma64_init (power_on_vma ps pers w))).
Proof.
  intros Hp Hr. apply (ok_of (fun _ => [])). split; try done.
  - intros t Ht. unfold heap_of, tree_at. change (g_vma64_trees _) with (replicate TREES vma64_clear_tree).
    rewrite lookup_replicate_2 by done. apply space_clear. apply length_replicate.
  - intros t1 t2 i _ _ []%not_elem_of_nil.
  - intros t i _ []%not_elem_of_nil.
  - intros p Hv. exfalso. apply Hv. unfold vroot. change (vma_processes _) with ps.
    destruct (proc ps p) as [r|] eqn:E; [|done]. by eapply Hr.
  - intros t. unfold brk_of, tree_at. change (g_vma64_trees _) with (replicate TREES vma64_clear_tree).
    destruct (replicate TREES vma64_clear_tree !! t) as [x|] eqn:E; [apply lookup_replicate in E as [-> _]|]; apply brk_ok_clear.
Qed.

Definition boot_vma : vma_state Paging.paging_state :=
  snd (vma64_init (power_on_vma ProcTheorems.demo_table Demo.no_personas PagingTheorems.demo_paging)).

Lemma demo_table_roots p r : proc ProcTheorems.demo_table p = Some r -> Process.vma_root r = 0.
Proof.
  intros (ref & Hpt & _)%(ProcFacts.proc_points _ p r (ProcTheorems.preach_inv _ ProcTheorems.demo_table_reached)).
  assert (Hall : forallb (fun r => Process.vma_root r =? 0)
    (Process.g_processes ProcTheorems.demo_table ++ Process.g_process64_clone_records ProcTheorems.demo_table) = true) by (by vm_compute).
  rewrite forallb_forall in Hall. apply Z.eqb_eq, Hall. rewrite <- list_elem_of_In, elem_of_app.
  destruct ref as [i|i]; simpl in Hpt; [left|right]; [|destruct Hpt as [Hpt _]]; by eapply list_elem_of_lookup_2.
Qed.

Lemma boot_vma_okay : vma_ok boot_vma.
Proof. apply boot_vma_ok; [apply ProcTheorems.preach_inv, ProcTheorems.demo_table_reached|exact demo_table_roots]. Qed.

(** Process 4 has two writable areas, one of them shared with 5 until one
    of them writes. *)
Definition demo_vma_calls : list vma_call :=
  [VMap 4 0x44002000 0x2000 3 9; VMap 4 0x44006000 0x1000 3 13; VInit 5; VClone 4 0x44006000 5 0x44006000].
Definition demo_vma : vma_state Paging.paging_state := run_vma_calls demo_vma_calls boot_vma.

Lemma demo_vma_okay : vma_ok demo_vma.
Proof. apply (calls_keep_ok demo_vma_calls boot_vma boot_vma_okay). reflexivity. Qed.

Lemma vma_calls_keep_spaces_witness : vma_ok (run_vma_calls demo_vma_calls boot_vma) /\ length (mappings demo_vma 4) = 2%nat.
Proof. split; [|by vm_compute]. apply (vma_calls_keep_spaces boot_vma demo_vma_calls boot_vma_okay). reflexivity. Defined.

Lemma vma_find_scan_witness :
  a_base <$> List.find (covers 0x44003008) (mappings demo_vma 4) = Some 0x44002000 /\
  let (v, s') := vma64_find 4 0x44003008 demo_vma in
  (fun i => area_of (pool_at demo_vma i)) <$> v = List.find (covers 0x44003008) (mappings demo_vma 4).
Proof.
  split; [by vm_compute|]. pose proof (vma_find_scan demo_vma 4 0x44003008 demo_vma_okay) as H.
  destruct (vma64_find 4 0x44003008 demo_vma). exact (proj1 H).
Defined.

Lemma demo_att : att demo_vma 4 = Some 0%nat.
Proof. by vm_compute. Qed.

Lemma vma_find_gap_lowest_witness :
  fst (vma64_find_gap 4 0x44002000 0x44200000 0x3000 VMA64_PAGE_BYTES demo_vma) = 0x44007000 /\
  area_gap (mappings demo_vma 4) 0x44002000 0x44200000 0x3000 0x44007000.
Proof.
  assert (E : fst (vma64_find_gap 4 0x44002000 0x44200000 0x3000 VMA64_PAGE_BYTES demo_vma) = 0x44007000) by (by vm_compute).
  split; [exact E|].
  pose proof (vma_find_gap_lowest demo_vma 4 0x44002000 0x44200000 0x3000 0 demo_vma_okay demo_att ltac:(lia) ltac:(lia) ltac:(lia)) as H.
  destruct (vma64_find_gap 4 0x44002000 0x44200000 0x3000 VMA64_PAGE_BYTES demo_vma) as [r s']. simpl in E. subst r.
  apply H. lia.
Defined.

Lemma vma_map_outcome_witness :
  let (v, s') := vma64_map_anon 4 0x44008000 0x2000 3 9 demo_vma in v = 0x44008000 /\ others_kept demo_vma s' 4.
Proof.
  assert (E : fst (vma64_map_anon 4 0x44008000 0x2000 3 9 demo_vma) = 0x44008000) by (by vm_compute).
  pose proof (vma_map_outcome demo_vma 4 0x44008000 0x2000 3 9 demo_vma_okay eq_refl eq_refl) as H.
  destruct (vma64_map_anon 4 0x44008000 0x2000 3 9 demo_vma) as [v s']. split; [exact E|apply H].
Defined.

Lemma vma_unmap_outcome_witness :
  let (v, s') := vma64_unmap 4 0x44002000 0x2000 demo_vma in v = 1 /\ others_kept demo_vma s' 4.
Proof.
  assert (E : fst (vma64_unmap 4 0x44002000 0x2000 demo_vma) = 1) by (by vm_compute).
  pose proof (vma_unmap_outcome demo_vma 4 0x44002000 0x2000 demo_vma_okay) as H.
  destruct (vma64_unmap 4 0x44002000 0x2000 demo_vma) as [v s']. split; [exact E|apply H].
Defined.

Lemma vma_map_unmap_roundtrip_witness :
  let (v, s1) := vma64_map_anon 4 0x44008000 0x2000 3 9 demo_vma in fst (vma64_unmap 4 v 0x2000 s1) = 1.
Proof.
  assert (E : fst (vma64_map_anon 4 0x44008000 0x2000 3 9 demo_vma) = 0x44008000) by (by vm_compute).
  pose proof (vma_map_unmap_roundtrip demo_vma 4 0x44008000 0x2000 3 9 demo_vma_okay eq_refl eq_refl) as H.
  destruct (vma64_map_anon 4 0x44008000 0x2000 3 9 demo_vma) as [v s1]. simpl in E. specialize (H ltac:(subst v; discriminate)).
  destruct (vma64_unmap 4 v 0x2000 s1). exact (proj1 H).
Defined.

Lemma vma_protect_outcome_witness :
  let (v, s') := vma64_protect 4 0x44003000 0x1000 1 demo_vma in v = 1 /\ others_kept demo_vma s' 4.
Proof.
  assert (E : fst (vma64_protect 4 0x44003000 0x1000 1 demo_vma) = 1) by (by vm_compute).
  pose proof (vma_protect_outcome demo_vma 4 0x44003000 0x1000 1 demo_vma_okay eq_refl eq_refl) as H.
  destruct (vma64_protect 4 0x44003000 0x1000 1 demo_vma) as [v s']. split; [exact E|apply H].
Defined.

(** The same with a different byte in every page of the pool. *)
Definition written_vma : vma_state Paging.paging_state :=
  demo_vma <| g_vma64_anon_pages := (fun k => [Z.of_nat k]) <$> seq 0 PAGES |>.

Lemma vma_ok_pages (s : vma_state Paging.paging_state) pages : vma_ok s -> vma_ok (s <| g_vma64_anon_pages := pages |>).
Proof. intros H. change (vinv (listed s) (s <| g_vma64_anon_pages := pages |>)). by eapply vinv_core, H. Qed.
Lemma written_vma_okay : vma_ok written_vma.
Proof. apply vma_ok_pages, demo_vma_okay. Qed.

Lemma written_pool : pool_ok written_vma.
Proof.
  split; [by vm_compute|by vm_compute|]. exists (anon_physical (vma_paging written_vma) 0). split; [by vm_compute|]. split; [by vm_compute|].
  intros k Hk. apply Z.eqb_eq.
  assert (H : forallb (fun k => anon_physical (vma_paging written_vma) k =? anon_physical (vma_paging written_vma) 0 + Z.of_nat k * VMA64_PAGE_BYTES)
    (seq 0 PAGES) = true) by (by vm_compute).
  rewrite forallb_forall in H. apply H, in_seq. lia.
Qed.

Lemma vma_cow_fault_outcome_witness :
  let (v, s') := vma64_handle_cow_fault 5 0x44006010 3 written_vma in
  v = 1 /\ others_kept written_vma s' 5 /\ exists k src, k <> src /\ page_at s' k = page_at written_vma src.
Proof.
  assert (E : fst (vma64_handle_cow_fault 5 0x44006010 3 written_vma) = 1) by (by vm_compute).
  pose proof (vma_cow_fault_outcome written_vma 5 0x44006010 3 written_vma_okay) as H.
  destruct (vma64_handle_cow_fault 5 0x44006010 3 written_vma) as [v s']. simpl in E. split; [exact E|]. destruct H as [H1 H2]. split; [exact H1|].
  destruct H2 as [[E0 _]|(_ & A & a & B & phys & _ & _ & _ & _ & Hp)]; [subst v; discriminate|].
  destruct (Hp written_pool) as (k & src & []). exists k, src. by split.
Defined.

Lemma vma_fork_outcome_witness :
  let (v, s') := vma64_fork_copy_process 4 1 written_vma in
  v = 1 /\ Forall2 fork_of (mappings written_vma 4) (mappings s' 1) /\
  exists ks, length ks = 2%nat /\ Forall3 (own_pages written_vma s') (mappings written_vma 4) (mappings s' 1) ks.
Proof.
  assert (E : fst (vma64_fork_copy_process 4 1 written_vma) = 1) by (by vm_compute).
  assert (El : length (mappings written_vma 4) = 2%nat) by (by vm_compute).
  pose proof (vma_fork_outcome written_vma 4 1 written_vma_okay) as H.
  destruct (vma64_fork_copy_process 4 1 written_vma) as [v s']. simpl in E. split; [exact E|].
  destruct H as [_ [[E0 _]|(_ & H & Hp)]]; [subst v; discriminate|]. split; [exact H|]. destruct (Hp written_pool) as [ks F].
  exists ks. split; [|apply F]. by rewrite <- (Forall3_length_lr _ _ _ _ (fp_each _ _ _ _ _ F)).
Defined.

Lemma vma_release_outcome_witness : fst (vma64_release_process 4 demo_vma) = 2.
Proof.
  pose proof (vma_release_outcome demo_vma 4 demo_vma_okay) as H. destruct (vma64_release_process 4 demo_vma) as [v s'].
  destruct H as [-> _]. by vm_compute.
Defined.

Lemma vma_brk_outcome_witness :
  let (v, s') := vma64_brk_extend 4 0x44102000 demo_vma in v = 0x44102000 /\ others_kept demo_vma s' 4.
Proof.
  assert (E : fst (vma64_brk_extend 4 0x44102000 demo_vma) = 0x44102000) by (by vm_compute).
  pose proof (vma_brk_outcome demo_vma 4 0x44102000 demo_vma_okay) as H.
  destruct (vma64_brk_extend 4 0x44102000 demo_vma) as [v s']. split; [exact E|apply H].
Defined.

(** A tree of one region and a second one to insert. *)
Definition demo_heap : vma_heap :=
  mk_heap (vma64_clear_tree <| head := Some 0%nat |> <| rb_root := Some 0%nat |>)
    [mk_region 0x1000 0x2000 0 0 0 0 0 1 0 None None None None None VMA64_RB_BLACK;
     mk_region 0x3000 0x4000 0 0 0 0 0 1 0 None None None None None VMA64_RB_RED].

Lemma demo_indexed : indexed demo_heap ([0%nat] ++ []).
Proof.
  exists (RbTree.T RbTree.Black RbTree.E 0 RbTree.E), 1%nat. split_and!; [|done|repeat constructor|done].
  split; [|constructor; [set_solver|constructor]]. split; [|done]. split; [unfold VmaRb.in_pool; simpl; lia|done].
Qed.

Lemma vma_rb_insert_balanced_witness :
  fst (vma64_rb_insert 1 demo_heap) = 1 /\ indexed (snd (vma64_rb_insert 1 demo_heap)) [0%nat; 1%nat].
Proof.
  pose proof (vma_rb_insert_balanced demo_heap [0%nat] 1%nat [] demo_indexed) as H.
  assert (H1 : RbTree.sorted (VmaRb.key demo_heap) ([0%nat] ++ 1%nat :: [])).
  { repeat constructor. }
  specialize (H H1 ltac:(unfold VmaRb.in_pool; simpl; lia) ltac:(unfold link_fuel, VMA64_MAX_STATIC_REGIONS; simpl; lia)).
  destruct (vma64_rb_insert 1 demo_heap) as [v h']. split; apply H.
Defined.

End VmaTheorems.
