(* ===== verification/ElfParse.v ===== *)
(** * Parsing ELF images: kernel/arch/x86_64/elf64.c

    The header and the program headers of an image in memory.  The image is
    the list of its bytes; a read outside it, which C leaves undefined, is
    [None], so that the absence of such reads is a theorem (ElfFacts.v).
    Pointer arguments are non-null.  Loading is in Elf64.v. *)

From S2P Require Import Prelude.
Local Open Scope Z_scope.

Module ElfParse.

Definition ELF64_EHDR_BYTES : Z := 64.
Definition ELF64_PHDR_BYTES : Z := 56.
Definition ELF64_MAX_PROGRAM_HEADERS : nat := 32.
Definition ELF64_EI_CLASS : Z := 4.
Definition ELF64_EI_DATA : Z := 5.
Definition ELF64_EI_VERSION : Z := 6.
Definition ELF64_EI_OSABI : Z := 7.
Definition ELF64_CLASS_64 : Z := 2.
Definition ELF64_DATA_LSB : Z := 1.
Definition ELF64_VERSION_CURRENT : Z := 1.
Definition ELF64_OSABI_NONE : Z := 0.
Definition ELF64_OSABI_LINUX : Z := 3.
Definition ELF64_TYPE_EXEC : Z := 2.
Definition ELF64_TYPE_DYN : Z := 3.
Definition ELF64_MACHINE_X86_64 : Z := 62.
Definition ELF64_PT_LOAD : Z := 1.
Definition ELF64_PT_DYNAMIC : Z := 2.
Definition ELF64_PT_INTERP : Z := 3.
Definition ELF64_PT_TLS : Z := 7.
Definition ELF64_PT_GNU_STACK : Z := 0x6474E551.
Definition ELF64_PT_GNU_RELRO : Z := 0x6474E552.
Definition ELF64_PF_X : Z := 1.
Definition ELF64_PF_W : Z := 2.
Definition ELF64_PF_R : Z := 4.
Definition ELF64_OK : Z := 1.
Definition ELF64_DENIED : Z := 0.
Definition ELF64_ERROR_NONE : Z := 0.
Definition ELF64_ERROR_NULL : Z := 1.
Definition ELF64_ERROR_SHORT_HEADER : Z := 2.
Definition ELF64_ERROR_MAGIC : Z := 3.
Definition ELF64_ERROR_CLASS : Z := 4.
Definition ELF64_ERROR_DATA : Z := 5.
Definition ELF64_ERROR_VERSION : Z := 6.
Definition ELF64_ERROR_OSABI : Z := 7.
Definition ELF64_ERROR_TYPE : Z := 8.
Definition ELF64_ERROR_MACHINE : Z := 9.
Definition ELF64_ERROR_HEADER_SIZE : Z := 10.
Definition ELF64_ERROR_PHDR_SIZE : Z := 11.
Definition ELF64_ERROR_PHDR_RANGE : Z := 12.
Definition ELF64_ERROR_SECTION_RANGE : Z := 13.
Definition ELF64_ERROR_PHDR_COUNT : Z := 14.
Definition ELF64_ERROR_LOAD_RANGE : Z := 15.
Definition ELF64_ERROR_LOAD_SIZE : Z := 16.
Definition ELF64_ERROR_LOAD_ALIGN : Z := 17.
Definition ELF64_ERROR_INTERP_RANGE : Z := 18.
Definition ELF64_ERROR_OUTPUT_CAPACITY : Z := 19.

Record elf64_header_t := mk_header {
  type : Z; machine : Z; version : Z; entry : Z; phoff : Z; shoff : Z; flags : Z;
  ehsize : Z; phentsize : Z; phnum : Z; shentsize : Z; shnum : Z; shstrndx : Z;
  osabi : Z; error : Z }.

#[export] Instance eta_header : Eta elf64_header_t := {| eta h :=
  mk_header (type h) (machine h) (version h) (entry h) (phoff h) (shoff h) (flags h)
    (ehsize h) (phentsize h) (phnum h) (shentsize h) (shnum h) (shstrndx h) (osabi h) (error h) |}.

Record elf64_program_header_t := mk_phdr {
  p_type : Z; p_flags : Z; p_offset : Z; p_vaddr : Z; p_paddr : Z; p_filesz : Z; p_memsz : Z; p_align : Z }.

Record elf64_phdr_summary_t := mk_summary {
  load_count : Z; interp_count : Z; gnu_stack_count : Z; gnu_relro_count : Z; tls_count : Z;
  dynamic_count : Z; executable_loads : Z; writable_loads : Z; load_mem_bytes : Z;
  first_load_vaddr : Z; max_load_end : Z; sm_error : Z }.

#[export] Instance eta_summary : Eta elf64_phdr_summary_t := {| eta m :=
  mk_summary (load_count m) (interp_count m) (gnu_stack_count m) (gnu_relro_count m) (tls_count m)
    (dynamic_count m) (executable_loads m) (writable_loads m) (load_mem_bytes m)
    (first_load_vaddr m) (max_load_end m) (sm_error m) |}.

Definition elf64_clear_header : elf64_header_t := mk_header 0 0 0 0 0 0 0 0 0 0 0 0 0 0 ELF64_ERROR_NONE.
Definition elf64_clear_program_header : elf64_program_header_t := mk_phdr 0 0 0 0 0 0 0 0.
Definition elf64_clear_summary : elf64_phdr_summary_t := mk_summary 0 0 0 0 0 0 0 0 0 0 0 ELF64_ERROR_NONE.
Definition elf64_set_header_error (h : elf64_header_t) (e : Z) : elf64_header_t := h <| error := e |>.
Definition elf64_set_summary_error (m : elf64_phdr_summary_t) (e : Z) : elf64_phdr_summary_t := m <| sm_error := e |>.

(** ** Reading *)

(** [data[i]]. *)
Definition byte_at (data : list Z) (i : Z) : option Z := if i <? 0 then None else data !! Z.to_nat i.

Definition elf64_read_le16 (data : list Z) (at_ : Z) : option Z :=
  b0 ← byte_at data at_; b1 ← byte_at data (at_ + 1);
  Some (Z.lor b0 (Z.shiftl b1 8)).

Definition elf64_read_le32 (data : list Z) (at_ : Z) : option Z :=
  b0 ← byte_at data at_; b1 ← byte_at data (at_ + 1); b2 ← byte_at data (at_ + 2); b3 ← byte_at data (at_ + 3);
  Some (Z.lor (Z.lor (Z.lor b0 (Z.shiftl b1 8)) (Z.shiftl b2 16)) (Z.shiftl b3 24)).

Definition elf64_read_le64 (data : list Z) (at_ : Z) : option Z :=
  lo ← elf64_read_le32 data at_; hi ← elf64_read_le32 data (at_ + 4);
  Some (Z.lor lo (Z.shiftl hi 32)).

Definition elf64_range_available (size offset bytes : Z) : bool :=
  if size <? offset then false else bytes <=? size - offset.

Definition elf64_is_power_of_two (value : Z) : bool :=
  nz value && (Z.land value (sub64 value 1) =? 0).

Definition elf64_validate_table_range (size offset count entry_size : Z) : bool :=
  if count =? 0 then true
  else if (offset =? 0) || (entry_size =? 0) then false
  else elf64_range_available size offset (count * entry_size).

(** ** The header *)

(** The fields behind the identification. *)
Definition read_header (data : list Z) (abi : Z) : option elf64_header_t :=
  t ← elf64_read_le16 data 16; m ← elf64_read_le16 data 18; v ← elf64_read_le32 data 20;
  e ← elf64_read_le64 data 24; po ← elf64_read_le64 data 32; so ← elf64_read_le64 data 40;
  fl ← elf64_read_le32 data 48; es ← elf64_read_le16 data 52; ps ← elf64_read_le16 data 54;
  pn ← elf64_read_le16 data 56; ss ← elf64_read_le16 data 58; sn ← elf64_read_le16 data 60;
  si ← elf64_read_le16 data 62;
  Some (mk_header t m v e po so fl es ps pn ss sn si abi ELF64_ERROR_NONE).

(** The checks on the identification, in order: the error, or 0. *)
Definition ident_error (data : list Z) : option Z :=
  b0 ← byte_at data 0; b1 ← byte_at data 1; b2 ← byte_at data 2; b3 ← byte_at data 3;
  if negb (b0 =? 0x7F) || negb (b1 =? 0x45) || negb (b2 =? 0x4C) || negb (b3 =? 0x46) then Some ELF64_ERROR_MAGIC
  else
    c ← byte_at data ELF64_EI_CLASS;
    if negb (c =? ELF64_CLASS_64) then Some ELF64_ERROR_CLASS
    else
      d ← byte_at data ELF64_EI_DATA;
      if negb (d =? ELF64_DATA_LSB) then Some ELF64_ERROR_DATA
      else
        v ← byte_at data ELF64_EI_VERSION;
        if negb (v =? ELF64_VERSION_CURRENT) then Some ELF64_ERROR_VERSION
        else
          o ← byte_at data ELF64_EI_OSABI;
          if negb (o =? ELF64_OSABI_NONE) && negb (o =? ELF64_OSABI_LINUX) then Some ELF64_ERROR_OSABI
          else Some ELF64_ERROR_NONE.

(** The checks on the fields, in order: the error, or 0. *)
Definition header_error (size : Z) (h : elf64_header_t) : Z :=
  if negb (type h =? ELF64_TYPE_EXEC) && negb (type h =? ELF64_TYPE_DYN) then ELF64_ERROR_TYPE
  else if negb (machine h =? ELF64_MACHINE_X86_64) then ELF64_ERROR_MACHINE
  else if negb (version h =? ELF64_VERSION_CURRENT) then ELF64_ERROR_VERSION
  else if negb (ehsize h =? ELF64_EHDR_BYTES) then ELF64_ERROR_HEADER_SIZE
  else if (phnum h =? 0) || negb (phentsize h =? ELF64_PHDR_BYTES) then ELF64_ERROR_PHDR_SIZE
  else if Z.of_nat ELF64_MAX_PROGRAM_HEADERS <? phnum h then ELF64_ERROR_PHDR_COUNT
  else if negb (elf64_validate_table_range size (phoff h) (phnum h) (phentsize h)) then ELF64_ERROR_PHDR_RANGE
  else if nz (shnum h) && negb (elf64_validate_table_range size (shoff h) (shnum h) (shentsize h)) then ELF64_ERROR_SECTION_RANGE
  else ELF64_ERROR_NONE.

Definition elf64_parse_header (data : list Z) (size : Z) : option (Z * elf64_header_t) :=
  if size <? ELF64_EHDR_BYTES then
    Some (ELF64_DENIED, elf64_set_header_error elf64_clear_header ELF64_ERROR_SHORT_HEADER)
  else
    ie ← ident_error data;
    if negb (ie =? ELF64_ERROR_NONE) then Some (ELF64_DENIED, elf64_set_header_error elf64_clear_header ie)
    else
      abi ← byte_at data ELF64_EI_OSABI;
      h ← read_header data abi;
      let e := header_error size h in
      if negb (e =? ELF64_ERROR_NONE) then Some (ELF64_DENIED, elf64_set_header_error h e)
      else Some (ELF64_OK, h <| error := ELF64_ERROR_NONE |>).

(** ** Program headers *)

Definition read_phdr (data : list Z) (record : Z) : option elf64_program_header_t :=
  t ← elf64_read_le32 data record; f ← elf64_read_le32 data (record + 4);
  o ← elf64_read_le64 data (record + 8); v ← elf64_read_le64 data (record + 16);
  p ← elf64_read_le64 data (record + 24); fs ← elf64_read_le64 data (record + 32);
  ms ← elf64_read_le64 data (record + 40); a ← elf64_read_le64 data (record + 48);
  Some (mk_phdr t f o v p fs ms a).

(** The checks on one record: the error, or 0. *)
Definition phdr_error (size : Z) (p : elf64_program_header_t) : Z :=
  if p_type p =? ELF64_PT_LOAD then
    if p_memsz p <? p_filesz p then ELF64_ERROR_LOAD_SIZE
    else if negb (elf64_range_available size (p_offset p) (p_filesz p)) then ELF64_ERROR_LOAD_RANGE
    else if (1 <? p_align p)
            && (negb (elf64_is_power_of_two (p_align p))
                || negb (Z.land (p_vaddr p) (sub64 (p_align p) 1) =? Z.land (p_offset p) (sub64 (p_align p) 1)))
    then ELF64_ERROR_LOAD_ALIGN
    else if add64 (p_vaddr p) (p_memsz p) <? p_vaddr p then ELF64_ERROR_LOAD_SIZE
    else ELF64_ERROR_NONE
  else if p_type p =? ELF64_PT_INTERP then
    if (p_filesz p =? 0) || negb (elf64_range_available size (p_offset p) (p_filesz p)) then ELF64_ERROR_INTERP_RANGE
    else ELF64_ERROR_NONE
  else ELF64_ERROR_NONE.

(** What an accepted record adds to the summary. *)
Definition summarize (p : elf64_program_header_t) (m : elf64_phdr_summary_t) : elf64_phdr_summary_t :=
  if p_type p =? ELF64_PT_LOAD then
    let load_end := add64 (p_vaddr p) (p_memsz p) in
    let m := if load_count m =? 0 then m <| first_load_vaddr := p_vaddr p |> else m in
    let m := m <| load_count := inc32 (load_count m) |> <| load_mem_bytes := add64 (load_mem_bytes m) (p_memsz p) |> in
    let m := if max_load_end m <? load_end then m <| max_load_end := load_end |> else m in
    let m := if nz (Z.land (p_flags p) ELF64_PF_X) then m <| executable_loads := inc32 (executable_loads m) |> else m in
    if nz (Z.land (p_flags p) ELF64_PF_W) then m <| writable_loads := inc32 (writable_loads m) |> else m
  else if p_type p =? ELF64_PT_INTERP then m <| interp_count := inc32 (interp_count m) |>
  else if p_type p =? ELF64_PT_GNU_STACK then m <| gnu_stack_count := inc32 (gnu_stack_count m) |>
  else if p_type p =? ELF64_PT_GNU_RELRO then m <| gnu_relro_count := inc32 (gnu_relro_count m) |>
  else if p_type p =? ELF64_PT_TLS then m <| tls_count := inc32 (tls_count m) |>
  else if p_type p =? ELF64_PT_DYNAMIC then m <| dynamic_count := inc32 (dynamic_count m) |>
  else m.

(** The loop over the records: [left] are to come, the next is [index]. *)
Fixpoint phdr_loop (data : list Z) (size table stride : Z) (left : nat) (index : nat)
    (out : list elf64_program_header_t) (m : elf64_phdr_summary_t)
    : option (Z * list elf64_program_header_t * elf64_phdr_summary_t) :=
  match left with
  | O => Some (ELF64_OK, out, elf64_set_summary_error m ELF64_ERROR_NONE)
  | S left' =>
      p ← read_phdr data (table + Z.of_nat index * stride);
      let out := <[index := p]> out in
      let e := phdr_error size p in
      if negb (e =? ELF64_ERROR_NONE) then Some (ELF64_DENIED, out, elf64_set_summary_error m e)
      else phdr_loop data size table stride left' (S index) out (summarize p m)
  end.

(** [out] is the caller's array of [max] records. *)
Definition elf64_parse_phdrs (data : list Z) (size : Z) (h : elf64_header_t) (out : list elf64_program_header_t) (max : Z)
    : option (Z * list elf64_program_header_t * elf64_phdr_summary_t) :=
  let denied e := Some (ELF64_DENIED, out, elf64_set_summary_error elf64_clear_summary e) in
  if negb (error h =? ELF64_ERROR_NONE) then denied (error h)
  else if max <? phnum h then denied ELF64_ERROR_OUTPUT_CAPACITY
  else if (phnum h =? 0) || negb (phentsize h =? ELF64_PHDR_BYTES)
          || negb (elf64_validate_table_range size (phoff h) (phnum h) (phentsize h))
  then denied ELF64_ERROR_PHDR_RANGE
  else
    phdr_loop data size (phoff h) (phentsize h) (Z.to_nat (phnum h)) 0
      (replicate (Z.to_nat max) elf64_clear_program_header) elf64_clear_summary.

End ElfParse.
