(* ===== verification/ElfFacts.v ===== *)
(** * Facts about the ELF parser

    Little-endian encodings, the encoding of a header and of a program header
    ([encode_fields], [encode_phdr]), and that the parser reads exactly what
    is encoded, never outside the image. *)

From S2P Require Import Prelude ElfParse.
Import ElfParse.
Local Open Scope Z_scope.

Module ElfFacts.

(** ** Bytes *)

Definition is_byte (b : Z) : bool := (0 <=? b) && (b <? 256).

(** The [n] low bytes of [v], least first. *)
Fixpoint le_bytes (n : nat) (v : Z) : list Z :=
  match n with O => [] | S n' => v mod 256 :: le_bytes n' (v / 256) end.

Fixpoint le_value (bs : list Z) : Z :=
  match bs with [] => 0 | b :: bs' => b + 256 * le_value bs' end.

Lemma length_le_bytes n v : length (le_bytes n v) = n.
Proof. revert v. induction n; intros; simpl; [done|by rewrite IHn]. Qed.

Lemma le_value_bytes n v : 0 <= v < 256 ^ Z.of_nat n -> le_value (le_bytes n v) = v.
Proof.
  revert v. induction n as [|n IH]; intros v Hv; [simpl in *; lia|]. cbn [le_bytes le_value].
  rewrite Nat2Z.inj_succ, Z.pow_succ_r in Hv by lia. rewrite IH; [pose proof (Z.div_mod v 256); lia|].
  split; [apply Z.div_pos; lia|apply Z.div_lt_upper_bound; lia].
Qed.

Lemma le_bytes_value bs : forallb is_byte bs = true -> le_bytes (length bs) (le_value bs) = bs /\ 0 <= le_value bs < 256 ^ Z.of_nat (length bs).
Proof.
  induction bs as [|b bs IH]; intros H; [done|]. cbn [forallb] in H. apply andb_true_iff in H as [Hb H]. destruct (IH H) as [E Hr].
  unfold is_byte in Hb. apply andb_true_iff in Hb as [B1%Z.leb_le B2%Z.ltb_lt]. cbn [length le_bytes le_value].
  rewrite Nat2Z.inj_succ, Z.pow_succ_r by lia. split; [|lia]. f_equal.
  - rewrite (Z.mul_comm 256), Z_mod_plus_full. by apply Z.mod_small.
  - by rewrite (Z.mul_comm 256), Z.div_add, Z.div_small by lia.
Qed.

Lemma le_bytes_bytes n v : 0 <= v -> forallb is_byte (le_bytes n v) = true.
Proof.
  revert v. induction n as [|n IH]; intros v Hv; simpl; [done|]. rewrite IH by (apply Z.div_pos; lia). rewrite andb_true_r.
  unfold is_byte. pose proof (Z.mod_pos_bound v 256). apply andb_true_iff. rewrite Z.leb_le, Z.ltb_lt. lia.
Qed.

Lemma le_value_app bs1 bs2 : le_value (bs1 ++ bs2) = le_value bs1 + 256 ^ Z.of_nat (length bs1) * le_value bs2.
Proof.
  induction bs1 as [|b bs1 IH]; [simpl; lia|]. cbn [app le_value length]. rewrite IH, Nat2Z.inj_succ, Z.pow_succ_r by lia. lia.
Qed.

(** The bytes [bs] are in the image from [a] on. *)
Definition holds (data : list Z) (a : Z) (bs : list Z) : Prop :=
  forall k b, bs !! k = Some b -> byte_at data (a + Z.of_nat k) = Some b.

Lemma holds_app data a bs1 bs2 : holds data a (bs1 ++ bs2) <-> holds data a bs1 /\ holds data (a + Z.of_nat (length bs1)) bs2.
Proof.
  split.
  - intros H. split; intros k b Hk.
    + apply H. by apply lookup_app_l_Some.
    + rewrite <- Z.add_assoc, <- Nat2Z.inj_add. apply H. rewrite lookup_app_r by lia. by replace (_ + k - _)%nat with k by lia.
  - intros [H1 H2] k b Hk. apply lookup_app_Some in Hk as [Hk|[Hl Hk]]; [by apply H1|].
    specialize (H2 _ _ Hk). rewrite <- Z.add_assoc, <- Nat2Z.inj_add in H2. by replace (_ + (k - _))%nat with k in H2 by lia.
Qed.

Lemma holds_cons data a b bs : holds data a (b :: bs) <-> byte_at data a = Some b /\ holds data (a + 1) bs.
Proof.
  change (b :: bs) with ([b] ++ bs). rewrite holds_app. simpl. split; intros [H1 H2]; (split; [|done]).
  - rewrite <- (Z.add_0_r a). by apply (H1 0%nat).
  - intros [|k] x Hx; simplify_eq/=. by rewrite Z.add_0_r.
Qed.

Lemma holds_nil data a : holds data a [].
Proof. intros k b Hk. by rewrite lookup_nil in Hk. Qed.

(** What an image of bytes holds at a place. *)
Lemma byte_at_Some data i : 0 <= i < Z.of_nat (length data) -> exists b, byte_at data i = Some b.
Proof.
  intros Hi. unfold byte_at. rewrite (proj2 (Z.ltb_ge _ _)) by lia. apply lookup_lt_is_Some. lia.
Qed.

Lemma byte_at_byte data i b : forallb is_byte data = true -> byte_at data i = Some b -> is_byte b = true.
Proof.
  intros H. unfold byte_at. case_match; [done|]. intros Hb%list_elem_of_lookup_2. rewrite forallb_forall in H. apply H. by apply list_elem_of_In.
Qed.

Lemma holds_slice data a n : 0 <= a -> a + Z.of_nat n <= Z.of_nat (length data) ->
  exists bs, length bs = n /\ holds data a bs /\ (forallb is_byte data = true -> forallb is_byte bs = true).
Proof.
  revert a. induction n as [|n IH]; intros a H0 Ha; [exists []; split_and!; [done|apply holds_nil|done]|].
  destruct (byte_at_Some data a) as [b Hb]; [lia|]. destruct (IH (a + 1)) as (bs & Hl & Hh & Hbs); [lia|lia|].
  exists (b :: bs). split_and!; [simpl; congruence|by apply holds_cons|]. intros Hd. simpl. rewrite Hbs by done.
  by rewrite (byte_at_byte data a b).
Qed.

Lemma holds_unique data a bs bs' : length bs = length bs' -> holds data a bs -> holds data a bs' -> bs = bs'.
Proof.
  intros Hl H1 H2. apply list_eq. intros k. destruct (bs !! k) as [b|] eqn:E, (bs' !! k) as [b'|] eqn:E'; [|exfalso..|done].
  - specialize (H1 _ _ E). specialize (H2 _ _ E'). congruence.
  - apply lookup_lt_Some in E. apply lookup_ge_None in E'. lia.
  - apply lookup_lt_Some in E'. apply lookup_ge_None in E. lia.
Qed.

(** ** The readers *)

Lemma lor_add a b n : 0 <= n -> 0 <= a < 2 ^ n -> Z.lor a (Z.shiftl b n) = a + 2 ^ n * b.
Proof. intros Hn Ha. rewrite Z.lor_comm, lor_shiftl_add by done. lia. Qed.

Lemma is_byte_range b : is_byte b = true -> 0 <= b < 256.
Proof. unfold is_byte. intros [?%Z.leb_le ?%Z.ltb_lt]%andb_true_iff. lia. Qed.

Lemma read16_holds data a bs : length bs = 2%nat -> forallb is_byte bs = true -> holds data a bs -> elf64_read_le16 data a = Some (le_value bs).
Proof.
  destruct bs as [|b0 [|b1 [|]]]; try done. intros _ Hb (H0 & (H1 & _)%holds_cons)%holds_cons. cbn [forallb] in Hb.
  rewrite !andb_true_iff in Hb. destruct Hb as (B0%is_byte_range & B1%is_byte_range & _).
  unfold elf64_read_le16. rewrite H0, H1. simpl. f_equal. rewrite lor_add by lia. lia.
Qed.

Lemma read32_holds data a bs : length bs = 4%nat -> forallb is_byte bs = true -> holds data a bs -> elf64_read_le32 data a = Some (le_value bs).
Proof.
  destruct bs as [|b0 [|b1 [|b2 [|b3 [|]]]]]; try done.
  intros _ Hb (H0 & (H1 & (H2 & (H3 & _)%holds_cons)%holds_cons)%holds_cons)%holds_cons. cbn [forallb] in Hb. rewrite !andb_true_iff in Hb.
  destruct Hb as (B0%is_byte_range & B1%is_byte_range & B2%is_byte_range & B3%is_byte_range & _).
  replace (a + 1 + 1 + 1) with (a + 3) in H3 by lia. replace (a + 1 + 1) with (a + 2) in H2 by lia.
  unfold elf64_read_le32. rewrite H0, H1, H2, H3. simpl. f_equal.
  rewrite (lor_add b0 b1 8), (lor_add _ b2 16), (lor_add _ b3 24) by lia. lia.
Qed.

Lemma read64_holds data a bs : length bs = 8%nat -> forallb is_byte bs = true -> holds data a bs -> elf64_read_le64 data a = Some (le_value bs).
Proof.
  intros Hl Hb Hh. rewrite <- (take_drop 4 bs) in Hh, Hb. apply holds_app in Hh as [H1 H2]. rewrite forallb_app in Hb. apply andb_true_iff in Hb as [B1 B2].
  rewrite length_take in H2. replace (Z.of_nat (4 `min` length bs)) with 4 in H2 by lia.
  unfold elf64_read_le64. rewrite (read32_holds data a (take 4 bs)), (read32_holds data (a + 4) (drop 4 bs)) by (rewrite ?length_take, ?length_drop; (done || lia)).
  simpl. f_equal. destruct (le_bytes_value _ B1) as [_ R1]. rewrite length_take in R1. replace (4 `min` length bs)%nat with 4%nat in R1 by lia.
  change (256 ^ Z.of_nat 4) with (2 ^ 32) in R1. rewrite lor_add by lia.
  destruct bs as [|b0 [|b1 [|b2 [|b3 bs]]]]; try done. cbn [take drop firstn skipn le_value]. rewrite take_0, drop_0. simpl le_value. lia.
Qed.

(** *** Reading is decoding *)

Lemma read16_iff data a v : forallb is_byte data = true ->
  elf64_read_le16 data a = Some v <-> 0 <= v < 2 ^ 16 /\ holds data a (le_bytes 2 v).
Proof.
  intros Hd. split.
  - unfold elf64_read_le16. destruct (byte_at data a) as [b0|] eqn:H0; [|done]. simpl.
    destruct (byte_at data (a + 1)) as [b1|] eqn:H1; [|done]. simpl. intros Hv.
    assert (Hb : forallb is_byte [b0; b1] = true).
    { simpl. by rewrite (byte_at_byte _ _ _ Hd H0), (byte_at_byte _ _ _ Hd H1). }
    assert (Hh : holds data a [b0; b1]) by (rewrite !holds_cons; split_and!; [done|done|apply holds_nil]).
    pose proof (read16_holds data a [b0; b1] eq_refl Hb Hh) as E. unfold elf64_read_le16 in E. rewrite H0, H1 in E. simpl in E.
    rewrite Hv in E. injection E as ->. destruct (le_bytes_value _ Hb) as [E R]. split; [exact R|exact (eq_ind_r (holds data a) Hh E)].
  - intros [Hv Hh]. rewrite (read16_holds data a (le_bytes 2 v)); [by rewrite le_value_bytes by exact Hv|done| |done]. apply le_bytes_bytes. lia.
Qed.

Lemma read32_iff data a v : forallb is_byte data = true ->
  elf64_read_le32 data a = Some v <-> 0 <= v < 2 ^ 32 /\ holds data a (le_bytes 4 v).
Proof.
  intros Hd. split.
  - unfold elf64_read_le32. destruct (byte_at data a) as [b0|] eqn:H0; [|done]. destruct (byte_at data (a + 1)) as [b1|] eqn:H1; [|done].
    destruct (byte_at data (a + 2)) as [b2|] eqn:H2; [|done]. destruct (byte_at data (a + 3)) as [b3|] eqn:H3; [|done]. simpl. intros Hv.
    assert (Hb : forallb is_byte [b0; b1; b2; b3] = true).
    { simpl. by rewrite (byte_at_byte _ _ _ Hd H0), (byte_at_byte _ _ _ Hd H1), (byte_at_byte _ _ _ Hd H2), (byte_at_byte _ _ _ Hd H3). }
    assert (Hh : holds data a [b0; b1; b2; b3]).
    { rewrite !holds_cons, <- !Z.add_assoc. split_and!; [done|done|done|done|apply holds_nil]. }
    pose proof (read32_holds data a [b0; b1; b2; b3] eq_refl Hb Hh) as E. unfold elf64_read_le32 in E. rewrite H0, H1, H2, H3 in E. simpl in E.
    rewrite Hv in E. injection E as ->. destruct (le_bytes_value _ Hb) as [E R]. split; [exact R|exact (eq_ind_r (holds data a) Hh E)].
  - intros [Hv Hh]. rewrite (read32_holds data a (le_bytes 4 v)); [by rewrite le_value_bytes by exact Hv|done| |done]. apply le_bytes_bytes. lia.
Qed.

Lemma read64_iff data a v : forallb is_byte data = true ->
  elf64_read_le64 data a = Some v <-> 0 <= v < 2 ^ 64 /\ holds data a (le_bytes 8 v).
Proof.
  intros Hd. split.
  - unfold elf64_read_le64. destruct (elf64_read_le32 data a) as [lo|] eqn:H0; [|done].
    destruct (elf64_read_le32 data (a + 4)) as [hi|] eqn:H1; [|done]. simpl. intros [= <-].
    apply (read32_iff data a lo Hd) in H0 as [R0 H0]. apply (read32_iff data (a + 4) hi Hd) in H1 as [R1 H1].
    assert (Hb : forallb is_byte (le_bytes 4 lo ++ le_bytes 4 hi) = true) by (rewrite forallb_app; by rewrite !le_bytes_bytes by lia).
    assert (Hh : holds data a (le_bytes 4 lo ++ le_bytes 4 hi)) by (by rewrite holds_app, length_le_bytes).
    destruct (le_bytes_value _ Hb) as [E R]. rewrite length_app, !length_le_bytes in E, R.
    assert (Ev : le_value (le_bytes 4 lo ++ le_bytes 4 hi) = Z.lor lo (Z.shiftl hi 32)).
    { rewrite le_value_app, length_le_bytes, !le_value_bytes, lor_add by (done || lia). done. }
    rewrite Ev in E, R. split; [exact R|exact (eq_ind_r (holds data a) Hh E)].
  - intros [Hv Hh]. rewrite (read64_holds data a (le_bytes 8 v)); [by rewrite le_value_bytes by exact Hv|done| |done]. apply le_bytes_bytes. lia.
Qed.

(** Enough bytes are there. *)
Lemma reads_defined data a : forallb is_byte data = true -> 0 <= a ->
  (a + 2 <= Z.of_nat (length data) -> is_Some (elf64_read_le16 data a)) /\
  (a + 4 <= Z.of_nat (length data) -> is_Some (elf64_read_le32 data a)) /\
  (a + 8 <= Z.of_nat (length data) -> is_Some (elf64_read_le64 data a)).
Proof.
  intros Hd Ha. split_and!; intros Hl.
  - destruct (holds_slice data a 2) as (bs & L & Hh & Hb); [lia|lia|]. rewrite (read16_holds data a bs); eauto.
  - destruct (holds_slice data a 4) as (bs & L & Hh & Hb); [lia|lia|]. rewrite (read32_holds data a bs); eauto.
  - destruct (holds_slice data a 8) as (bs & L & Hh & Hb); [lia|lia|]. rewrite (read64_holds data a bs); eauto.
Qed.

(** ** Records *)

(** Bytes 16 to 63 of the header. *)
Definition encode_fields (h : elf64_header_t) : list Z :=
  le_bytes 2 (type h) ++ le_bytes 2 (machine h) ++ le_bytes 4 (version h) ++ le_bytes 8 (entry h) ++
  le_bytes 8 (phoff h) ++ le_bytes 8 (shoff h) ++ le_bytes 4 (flags h) ++ le_bytes 2 (ehsize h) ++
  le_bytes 2 (phentsize h) ++ le_bytes 2 (phnum h) ++ le_bytes 2 (shentsize h) ++ le_bytes 2 (shnum h) ++
  le_bytes 2 (shstrndx h).

Definition u16 (v : Z) : Prop := 0 <= v < 2 ^ 16.
Definition u32 (v : Z) : Prop := 0 <= v < 2 ^ 32.
Definition u64 (v : Z) : Prop := 0 <= v < 2 ^ 64.

Definition fields_fit (h : elf64_header_t) : Prop :=
  u16 (type h) /\ u16 (machine h) /\ u32 (version h) /\ u64 (entry h) /\ u64 (phoff h) /\ u64 (shoff h) /\ u32 (flags h) /\
  u16 (ehsize h) /\ u16 (phentsize h) /\ u16 (phnum h) /\ u16 (shentsize h) /\ u16 (shnum h) /\ u16 (shstrndx h).

Definition encode_phdr (p : elf64_program_header_t) : list Z :=
  le_bytes 4 (p_type p) ++ le_bytes 4 (p_flags p) ++ le_bytes 8 (p_offset p) ++ le_bytes 8 (p_vaddr p) ++
  le_bytes 8 (p_paddr p) ++ le_bytes 8 (p_filesz p) ++ le_bytes 8 (p_memsz p) ++ le_bytes 8 (p_align p).

Definition phdr_fits (p : elf64_program_header_t) : Prop :=
  u32 (p_type p) /\ u32 (p_flags p) /\ u64 (p_offset p) /\ u64 (p_vaddr p) /\
  u64 (p_paddr p) /\ u64 (p_filesz p) /\ u64 (p_memsz p) /\ u64 (p_align p).

Lemma bind_Some_iff {A B} (m : option A) (k : A -> option B) (b : B) : (m ≫= k) = Some b <-> exists a, m = Some a /\ k a = Some b.
Proof. destruct m; simpl; naive_solver. Qed.

(** Offsets as numbers. *)
Ltac closed_offsets :=
  repeat match goal with
  | |- context [holds ?d (?a + ?c) ?l] =>
      tryif is_var a then let v := eval vm_compute in c in progress change (holds d (a + c) l) with (holds d (a + v) l)
      else let v := eval vm_compute in (a + c) in change (holds d (a + c) l) with (holds d v l)
  end.

(** One read of a record, decoded. *)
Ltac decode H Hd :=
  first [apply bind_Some_iff in H as (? & ?%(proj1 (read16_iff _ _ _ Hd)) & H)
        |apply bind_Some_iff in H as (? & ?%(proj1 (read32_iff _ _ _ Hd)) & H)
        |apply bind_Some_iff in H as (? & ?%(proj1 (read64_iff _ _ _ Hd)) & H)].
(** One read of a record that holds its encoding. *)
Ltac encode Hd F H :=
  first [rewrite (proj2 (read16_iff _ _ _ Hd) (conj F H))|rewrite (proj2 (read32_iff _ _ _ Hd) (conj F H))
        |rewrite (proj2 (read64_iff _ _ _ Hd) (conj F H))]; cbn [mbind option_bind].

Lemma read_phdr_iff data a p : forallb is_byte data = true ->
  read_phdr data a = Some p <-> phdr_fits p /\ holds data a (encode_phdr p).
Proof.
  intros Hd. unfold read_phdr, encode_phdr, phdr_fits. rewrite !holds_app, !length_le_bytes, <- !Z.add_assoc. closed_offsets.
  split.
  - intros H. repeat decode H Hd.
    injection H as <-. cbn [p_type p_flags p_offset p_vaddr p_paddr p_filesz p_memsz p_align]. unfold u32, u64. tauto.
  - intros ((F1 & F2 & F3 & F4 & F5 & F6 & F7 & F8) & (H1 & H2 & H3 & H4 & H5 & H6 & H7 & H8)).
    encode Hd F1 H1. encode Hd F2 H2. encode Hd F3 H3. encode Hd F4 H4. encode Hd F5 H5. encode Hd F6 H6. encode Hd F7 H7. encode Hd F8 H8.
    by destruct p.
Qed.

Lemma read_header_iff data abi h : forallb is_byte data = true ->
  read_header data abi = Some h <-> fields_fit h /\ holds data 16 (encode_fields h) /\ osabi h = abi /\ error h = ELF64_ERROR_NONE.
Proof.
  intros Hd. unfold read_header, encode_fields, fields_fit. rewrite !holds_app, !length_le_bytes, <- !Z.add_assoc. closed_offsets.
  split.
  - intros H. repeat decode H Hd. injection H as <-.
    cbn [type machine version entry phoff shoff flags ehsize phentsize phnum shentsize shnum shstrndx osabi error]. unfold u16, u32, u64. tauto.
  - intros ((F1 & F2 & F3 & F4 & F5 & F6 & F7 & F8 & F9 & F10 & F11 & F12 & F13) &
      (H1 & H2 & H3 & H4 & H5 & H6 & H7 & H8 & H9 & H10 & H11 & H12 & H13) & <- & He).
    encode Hd F1 H1. encode Hd F2 H2. encode Hd F3 H3. encode Hd F4 H4. encode Hd F5 H5. encode Hd F6 H6. encode Hd F7 H7.
    encode Hd F8 H8. encode Hd F9 H9. encode Hd F10 H10. encode Hd F11 H11. encode Hd F12 H12. encode Hd F13 H13.
    destruct h. simpl in *. by subst.
Qed.

(** ** The checks *)

(** The identification of a file for ABI [abi]. *)
Definition identified (data : list Z) (abi : Z) : Prop :=
  holds data 0 [0x7F; 0x45; 0x4C; 0x46; ELF64_CLASS_64; ELF64_DATA_LSB; ELF64_VERSION_CURRENT; abi] /\
  (abi = ELF64_OSABI_NONE \/ abi = ELF64_OSABI_LINUX).

Lemma ident_total data : 8 <= Z.of_nat (length data) -> is_Some (ident_error data).
Proof.
  intros Hl. assert (H : forall i, 0 <= i < 8 -> exists b, byte_at data i = Some b) by (intros i Hi; apply byte_at_Some; lia).
  unfold ident_error, ELF64_EI_CLASS, ELF64_EI_DATA, ELF64_EI_VERSION, ELF64_EI_OSABI.
  destruct (H 0 ltac:(lia)) as [b0 ->], (H 1 ltac:(lia)) as [b1 ->], (H 2 ltac:(lia)) as [b2 ->], (H 3 ltac:(lia)) as [b3 ->],
    (H 4 ltac:(lia)) as [b4 ->], (H 5 ltac:(lia)) as [b5 ->], (H 6 ltac:(lia)) as [b6 ->], (H 7 ltac:(lia)) as [b7 ->]. simpl.
  repeat (case_match; [by eexists|]). by eexists.
Qed.

Lemma ident_iff data abi : byte_at data ELF64_EI_OSABI = Some abi -> ident_error data = Some ELF64_ERROR_NONE <-> identified data abi.
Proof.
  intros Ho. unfold identified. rewrite !holds_cons, <- !Z.add_assoc. unfold ident_error.
  change (0 + (1 + 1)) with 2. change (0 + 1) with 1. change (0 + (1 + (1 + 1))) with 3. change (0 + (1 + (1 + (1 + 1)))) with ELF64_EI_CLASS.
  change (0 + (1 + (1 + (1 + (1 + 1))))) with ELF64_EI_DATA. change (0 + (1 + (1 + (1 + (1 + (1 + 1)))))) with ELF64_EI_VERSION.
  change (0 + (1 + (1 + (1 + (1 + (1 + (1 + 1))))))) with ELF64_EI_OSABI. rewrite Ho.
  destruct (byte_at data 0) as [b0|]; simpl; [|naive_solver]. destruct (byte_at data 1) as [b1|]; simpl; [|naive_solver].
  destruct (byte_at data 2) as [b2|]; simpl; [|naive_solver]. destruct (byte_at data 3) as [b3|]; simpl; [|naive_solver].
  destruct (_ || _ || _ || _) eqn:E0.
  { split; [done|]. intros [([= ->] & [= ->] & [= ->] & [= ->] & _) _]. done. }
  rewrite !orb_false_iff, !negb_false_iff, !Z.eqb_eq in E0. destruct E0 as [[[-> ->] ->] ->].
  destruct (byte_at data ELF64_EI_CLASS) as [c|]; simpl; [|naive_solver].
  destruct (Z.eqb_spec c ELF64_CLASS_64) as [->|Hc]; simpl; [|split; [done|]; naive_solver].
  destruct (byte_at data ELF64_EI_DATA) as [d|]; simpl; [|naive_solver].
  destruct (Z.eqb_spec d ELF64_DATA_LSB) as [->|Hd]; simpl; [|split; [done|]; naive_solver].
  destruct (byte_at data ELF64_EI_VERSION) as [v|]; simpl; [|naive_solver].
  destruct (Z.eqb_spec v ELF64_VERSION_CURRENT) as [->|Hv]; simpl; [|split; [done|]; naive_solver].
  destruct (Z.eqb_spec abi ELF64_OSABI_NONE) as [->|H0]; simpl.
  { split; [|done]. intros _. split; [|by left]. by split_and!. }
  destruct (Z.eqb_spec abi ELF64_OSABI_LINUX) as [->|H3]; simpl.
  - split; [|done]. intros _. split; [|by right]. by split_and!.
  - split; [done|]. intros [_ [?|?]]; done.
Qed.

(** A power of two, as the mask test finds it. *)
Lemma pow2_mask a n : 0 <= n -> Z.land a (2 ^ n - 1) = a mod 2 ^ n.
Proof. intros Hn. rewrite <- (Z.ones_equiv n) || replace (2 ^ n - 1) with (Z.ones n) by (rewrite Z.ones_equiv; lia). by apply Z.land_ones. Qed.

Lemma power_of_two_iff v : 0 < v < 2 ^ 64 -> elf64_is_power_of_two v = true <-> exists k, 0 <= k /\ v = 2 ^ k.
Proof.
  intros Hv. unfold elf64_is_power_of_two, nz, sub64, wrap64. rewrite (proj2 (Z.eqb_neq v 0)), (Z.mod_small (v - 1)) by lia. simpl. rewrite Z.eqb_eq. split.
  - intros H. exists (Z.log2 v). split; [apply Z.log2_nonneg|]. destruct (Z.log2_spec v ltac:(lia)) as [H1 H2].
    destruct (Z.eq_dec v (2 ^ Z.log2 v)) as [|Hne]; [done|exfalso].
    assert (Hb : Z.testbit (Z.land v (v - 1)) (Z.log2 v) = true); [|by rewrite H, Z.bits_0 in Hb].
    rewrite Z.land_spec, Z.bit_log2 by lia. simpl. replace (Z.log2 v) with (Z.log2 (v - 1)); [apply Z.bit_log2|].
    + pose proof (Z.pow_pos_nonneg 2 (Z.log2 v) ltac:(lia) (Z.log2_nonneg v)). lia.
    + apply Z.log2_unique; [apply Z.log2_nonneg|lia].
  - intros (k & Hk & ->). rewrite pow2_mask by done. apply Z_mod_same_full.
Qed.

(** What an accepted program header promises. *)
Definition segment_ok (size : Z) (p : elf64_program_header_t) : Prop :=
  (p_type p = ELF64_PT_LOAD ->
     p_filesz p <= p_memsz p /\ p_offset p + p_filesz p <= size /\ p_vaddr p + p_memsz p < 2 ^ 64 /\
     (1 < p_align p -> exists k, 0 <= k /\ p_align p = 2 ^ k /\ p_vaddr p mod p_align p = p_offset p mod p_align p)) /\
  (p_type p = ELF64_PT_INTERP -> 0 < p_filesz p /\ p_offset p + p_filesz p <= size).

Lemma range_available_iff size o n : 0 <= n -> elf64_range_available size o n = true <-> o + n <= size.
Proof. intros Hn. unfold elf64_range_available. destruct (Z.ltb_spec size o); [split; [done|lia]|]. rewrite Z.leb_le. lia. Qed.

Lemma phdr_error_iff size p : phdr_fits p -> phdr_error size p = ELF64_ERROR_NONE <-> segment_ok size p.
Proof.
  unfold phdr_fits, u32, u64. intros (_ & _ & Ho & Hv & _ & Hf & Hm & Ha). unfold phdr_error, segment_ok.
  destruct (Z.eqb_spec (p_type p) ELF64_PT_LOAD) as [Et|Et].
  - destruct (Z.ltb_spec (p_memsz p) (p_filesz p)) as [?|Hfm]; [split; [done|]; intros [H' _]; specialize (H' Et); lia|].
    pose proof (range_available_iff size (p_offset p) (p_filesz p) ltac:(lia)) as Hr.
    destruct (elf64_range_available _ _ _); simpl; [|split; [done|]; intros [H _]; destruct (H Et) as (_ & H2 & _); by apply Hr in H2].
    assert (Hal : (1 <? p_align p) && (negb (elf64_is_power_of_two (p_align p)) ||
        negb (Z.land (p_vaddr p) (sub64 (p_align p) 1) =? Z.land (p_offset p) (sub64 (p_align p) 1))) = false <->
      (1 < p_align p -> exists k, 0 <= k /\ p_align p = 2 ^ k /\ p_vaddr p mod p_align p = p_offset p mod p_align p)).
    { destruct (Z.ltb_spec 1 (p_align p)) as [H1|H1]; simpl; [|split; [lia|done]].
      unfold sub64, wrap64. rewrite (Z.mod_small (p_align p - 1)) by lia.
      pose proof (power_of_two_iff (p_align p) ltac:(lia)) as Hp. rewrite orb_false_iff, !negb_false_iff, Hp, Z.eqb_eq. split.
      - intros [(k & Hk & E) Hm'] _. exists k. rewrite E, !pow2_mask in * by done. done.
      - intros H. destruct (H H1) as (k & Hk & E & Hm'). split; [by exists k|]. rewrite E, !pow2_mask in * by done. done. }
    destruct (_ && _) eqn:Eal.
    { split; [done|]. intros [H _]. destruct (H Et) as (_ & _ & _ & H4). apply Hal in H4. done. }
    assert (Hw : (add64 (p_vaddr p) (p_memsz p) <? p_vaddr p) = false <-> p_vaddr p + p_memsz p < 2 ^ 64).
    { unfold add64, wrap64. rewrite Z.ltb_ge. destruct (Z.lt_ge_cases (p_vaddr p + p_memsz p) (2 ^ 64)) as [Hlt|Hge].
      - rewrite Z.mod_small by lia. lia.
      - replace (p_vaddr p + p_memsz p) with (p_vaddr p + p_memsz p - 2 ^ 64 + 1 * 2 ^ 64) at 1 by lia. rewrite Z_mod_plus_full, Z.mod_small by lia. lia. }
    destruct (add64 (p_vaddr p) (p_memsz p) <? p_vaddr p); [split; [done|]; intros [H _]; destruct (H Et) as (_ & _ & H3 & _); apply Hw in H3; done|].
    split; [|done]. intros _. split; [intros _|intros E; by rewrite Et in E]. split_and!; [done|by apply Hr|by apply Hw|by apply Hal].
  - destruct (Z.eqb_spec (p_type p) ELF64_PT_INTERP) as [Ei|Ei]; [|split; [|done]; by intros _].
    pose proof (range_available_iff size (p_offset p) (p_filesz p) ltac:(lia)) as Hr.
    destruct (Z.eqb_spec (p_filesz p) 0); simpl; [split; [done|]; intros [_ H]; specialize (H Ei); lia|].
    destruct (elf64_range_available _ _ _); simpl; (split; [|done]) || (split; [done|]).
    + intros _. split; [done|]. intros _. split; [lia|by apply Hr].
    + intros [_ H]. destruct (H Ei) as [_ H2]. apply Hr in H2. done.
Qed.

(** ** The two parsers *)

Lemma is_Some_bind {A B} (m : option A) (k : A -> option B) : is_Some m -> (forall a, m = Some a -> is_Some (k a)) -> is_Some (m ≫= k).
Proof. intros [a ->] H. by apply H. Qed.

Lemma read_header_total data abi : forallb is_byte data = true -> 64 <= Z.of_nat (length data) -> is_Some (read_header data abi).
Proof.
  intros Hd Hl. unfold read_header.
  repeat (apply is_Some_bind; [apply (reads_defined data); [done|lia|lia]|intros ? _]). done.
Qed.

Lemma read_phdr_total data a : forallb is_byte data = true -> 0 <= a -> a + ELF64_PHDR_BYTES <= Z.of_nat (length data) -> is_Some (read_phdr data a).
Proof.
  unfold ELF64_PHDR_BYTES. intros Hd Ha Hl. unfold read_phdr.
  repeat (apply is_Some_bind; [apply (reads_defined data); [done|lia|lia]|intros ? _]). done.
Qed.

Lemma parse_header_total data size : forallb is_byte data = true -> size <= Z.of_nat (length data) -> is_Some (elf64_parse_header data size).
Proof.
  intros Hd Hl. unfold elf64_parse_header, ELF64_EHDR_BYTES. destruct (Z.ltb_spec size 64); [done|].
  apply is_Some_bind; [apply ident_total; lia|]. intros ie _. case_match; [done|].
  apply is_Some_bind; [destruct (byte_at_Some data ELF64_EI_OSABI) as [b ->]; [unfold ELF64_EI_OSABI; lia|done]|]. intros abi _.
  apply is_Some_bind; [apply read_header_total; [done|lia]|]. intros h _. by case_match.
Qed.

Lemma parse_header_ok data size h : forallb is_byte data = true -> size <= Z.of_nat (length data) ->
  elf64_parse_header data size = Some (ELF64_OK, h) <->
  ELF64_EHDR_BYTES <= size /\ identified data (osabi h) /\ fields_fit h /\ holds data 16 (encode_fields h) /\
  error h = ELF64_ERROR_NONE /\ header_error size h = ELF64_ERROR_NONE.
Proof.
  intros Hd Hl. unfold elf64_parse_header. destruct (Z.ltb_spec size ELF64_EHDR_BYTES) as [?|Hs]; [split; [done|lia]|].
  unfold ELF64_EHDR_BYTES in Hs. destruct (byte_at_Some data ELF64_EI_OSABI) as [abi Ho]; [unfold ELF64_EI_OSABI; lia|].
  destruct (ident_total data ltac:(lia)) as [ie Hie]. pose proof (ident_iff data abi Ho) as Hid. rewrite Hie in *. cbn [mbind option_bind].
  assert (Habi : identified data (osabi h) -> osabi h = abi).
  { intros [H _]. specialize (H 7%nat (osabi h) eq_refl). change (0 + Z.of_nat 7) with ELF64_EI_OSABI in H. congruence. }
  destruct (Z.eqb_spec ie ELF64_ERROR_NONE) as [->|Hne]; cbn [negb].
  - rewrite Ho. cbn [mbind option_bind]. destruct Hid as [Hid _]. specialize (Hid eq_refl). split.
    + intros (h' & Hh & H)%bind_Some_iff. pose proof Hh as (F & E & E1 & E2)%(read_header_iff data abi h' Hd). revert H.
      destruct (Z.eqb_spec (header_error size h') ELF64_ERROR_NONE) as [He|]; cbn [negb]; [|done]. intros [= <-].
      destruct h'. simpl in *. subst. unfold ELF64_EHDR_BYTES. done.
    + intros (_ & Hi & F & E & E1 & E2). pose proof (Habi Hi) as Ea.
      rewrite (proj2 (read_header_iff data abi h Hd)) by done. cbn [mbind option_bind]. rewrite E2. cbn [Z.eqb negb ELF64_ERROR_NONE].
      do 2 f_equal. destruct h. simpl in *. by subst.
  - split; [done|]. intros (_ & Hi & _). rewrite (Habi Hi) in Hi. apply Hid in Hi. congruence.
Qed.

(** The records of the table at [table]. *)
Definition phdrs_at (data : list Z) (table stride : Z) (ps : list elf64_program_header_t) : Prop :=
  forall i p, ps !! i = Some p -> phdr_fits p /\ holds data (table + Z.of_nat i * stride) (encode_phdr p).

Definition summary_of (ps : list elf64_program_header_t) : elf64_phdr_summary_t := foldl (fun m p => summarize p m) elf64_clear_summary ps.

Lemma summarize_error p m : sm_error (summarize p m) = sm_error m.
Proof. unfold summarize. repeat case_match; done. Qed.

Lemma foldl_summarize_error ps m : sm_error (foldl (fun m p => summarize p m) m ps) = sm_error m.
Proof. revert m. induction ps as [|p ps IH]; intros m; simpl; [done|]. by rewrite IH, summarize_error. Qed.

Lemma set_same_error m : elf64_set_summary_error m (sm_error m) = m.
Proof. by destruct m. Qed.

Lemma take_insert_next {A} (l : list A) i x : (i < length l)%nat -> take (S i) (<[i:=x]> l) = take i l ++ [x] /\ drop (S i) (<[i:=x]> l) = drop (S i) l.
Proof.
  intros Hi. split; [|by rewrite drop_insert_lt by lia].
  rewrite (take_S_r _ i x) by (by apply list_lookup_insert_eq). by rewrite take_insert_ge by lia.
Qed.

Lemma phdr_loop_ok data size table stride : forallb is_byte data = true -> forall left index out m out' m',
  sm_error m = ELF64_ERROR_NONE -> (index + left <= length out)%nat ->
  phdr_loop data size table stride left index out m = Some (ELF64_OK, out', m') <->
  exists ps, length ps = left /\ phdrs_at data (table + Z.of_nat index * stride) stride ps /\ Forall (segment_ok size) ps /\
    out' = take index out ++ ps ++ drop (index + left) out /\ m' = foldl (fun m p => summarize p m) m ps.
Proof.
  intros Hd. induction left as [|left IH]; intros index out m out' m' Hm Hl; cbn [phdr_loop].
  - rewrite <- Hm, set_same_error. split.
    + intros [= <- <-]. exists []. split_and!; [done|intros i p Hp; by rewrite lookup_nil in Hp|constructor| |done].
      simpl. by rewrite Nat.add_0_r, take_drop.
    + intros ([|] & ? & _ & _ & -> & ->); [|done]. simpl. by rewrite Nat.add_0_r, take_drop.
  - rewrite bind_Some_iff. split.
    + intros (p & Hp & H). pose proof Hp as [Hf Hh]%(read_phdr_iff _ _ _ Hd).
      destruct (Z.eqb_spec (phdr_error size p) ELF64_ERROR_NONE) as [He|]; cbn [negb] in H; [|done].
      apply IH in H as (ps & E1 & E2 & E3 & E4 & E5); [|by rewrite summarize_error|rewrite length_insert; lia].
      exists (p :: ps). split_and!; [simpl; congruence| |constructor; [by apply phdr_error_iff|done]| |done].
      * intros [|i] q Hq; simplify_eq/=; [by rewrite Z.add_0_r|]. specialize (E2 i q Hq).
        by replace (table + Z.of_nat index * stride + Z.of_nat (S i) * stride) with (table + Z.of_nat (S index) * stride + Z.of_nat i * stride) by lia.
      * rewrite E4. destruct (take_insert_next out index p) as [-> _]; [lia|]. rewrite drop_insert_lt by lia.
        rewrite <- app_assoc. simpl. by replace (index + S left)%nat with (S (index + left)) by lia.
    + intros (ps & E1 & E2 & E3 & E4 & E5). destruct ps as [|p ps]; [done|]. apply Forall_cons in E3 as [S1 S2].
      destruct (E2 0%nat p eq_refl) as [Hf Hh]. rewrite Z.add_0_r in Hh. exists p. split; [by apply read_phdr_iff|].
      rewrite (proj2 (phdr_error_iff size p Hf) S1). cbn [Z.eqb negb ELF64_ERROR_NONE].
      apply IH; [by rewrite summarize_error|rewrite length_insert; lia|]. exists ps. split_and!; [simpl in *; lia| |done| |done].
      * intros i q Hq. specialize (E2 (S i) q Hq).
        by replace (table + Z.of_nat (S index) * stride + Z.of_nat i * stride) with (table + Z.of_nat index * stride + Z.of_nat (S i) * stride) by lia.
      * rewrite E4. destruct (take_insert_next out index p) as [-> _]; [lia|]. rewrite drop_insert_lt by lia.
        rewrite <- app_assoc. simpl. by replace (index + S left)%nat with (S (index + left)) by lia.
Qed.

Lemma phdr_loop_total data size table : forallb is_byte data = true -> 0 <= table -> forall left index out m,
  table + (Z.of_nat index + Z.of_nat left) * ELF64_PHDR_BYTES <= Z.of_nat (length data) ->
  is_Some (phdr_loop data size table ELF64_PHDR_BYTES left index out m).
Proof.
  intros Hd Ht. induction left as [|left IH]; intros index out m Hl; cbn [phdr_loop]; [done|].
  apply is_Some_bind; [apply read_phdr_total; [done|unfold ELF64_PHDR_BYTES in *; lia..]|].
  intros p _. case_match; [done|]. apply IH. unfold ELF64_PHDR_BYTES in *. lia.
Qed.

End ElfFacts.
