(* ===== verification/Elf64.v ===== *)
(** * Loading ELF images: kernel/arch/x86_64/elf64.c

    Mapping the load segments of a parsed image, protecting its RELRO ranges,
    the auxiliary vector, the initial stack, and the launch of a static
    program.  The address space is the model of vma.c and the process table
    is reached through it.  The bytes the loader stores at user addresses are
    a map; it reads back only what it stored.  The personas, the VDSO, the
    timer and the entry to user mode are the interface [ElfWorld].  UEFI
    kernel configuration; pointers are non-null; the image has at least
    [binary_size] bytes, and a byte past its end would read as 0. *)

From S2P Require Import Prelude Principal Services64 Process PersonaBudget Paging VmaTree Vma ElfParse.
Import VmaTree Vma ElfParse.
Local Open Scope Z_scope.
Local Open Scope kernel_scope.

Module Elf64.

Definition ELF64_AUXV_BASE_ENTRIES : Z := 18.
Definition ELF64_AUXV_LINUX_VDSO_ENTRIES : Z := 19.
Definition ELF64_AUXV_MAX_ENTRIES : nat := 19.
Definition ELF64_AUX_RANDOM_BYTES : nat := 16.
Definition ELF64_AUX_PLATFORM_BYTES : nat := 8.
Definition ELF64_STACK_MAX_ARGC : Z := 8.
Definition ELF64_STACK_MAX_ENVC : Z := 8.
Definition ELF64_STACK_MAX_STRING_BYTES : nat := 256.
Definition ELF64_ERROR_LOAD_ADDRESS : Z := 20.
Definition ELF64_ERROR_LOAD_MAP : Z := 21.
Definition ELF64_ERROR_LOAD_PROTECT : Z := 22.
Definition ELF64_ERROR_RELRO_RANGE : Z := 23.
Definition ELF64_ERROR_RELRO_PROTECT : Z := 24.
Definition ELF64_ERROR_AUX_ARGUMENT : Z := 25.
Definition ELF64_ERROR_AUX_CAPACITY : Z := 26.
Definition ELF64_ERROR_STACK_ARGUMENT : Z := 27.
Definition ELF64_ERROR_STACK_RANGE : Z := 28.
Definition ELF64_ERROR_STACK_OVERFLOW : Z := 29.
Definition ELF64_ERROR_STACK_WRITE : Z := 30.
Definition ELF64_ERROR_LAUNCH_ARGUMENT : Z := 31.
Definition ELF64_ERROR_LAUNCH_PARSE : Z := 32.
Definition ELF64_ERROR_LAUNCH_PHDR : Z := 33.
Definition ELF64_ERROR_LAUNCH_DYNAMIC : Z := 34.
Definition ELF64_ERROR_LAUNCH_LOAD : Z := 35.
Definition ELF64_ERROR_LAUNCH_RELRO : Z := 36.
Definition ELF64_ERROR_LAUNCH_STACK_MAP : Z := 37.
Definition ELF64_ERROR_LAUNCH_AUXV : Z := 38.
Definition ELF64_ERROR_LAUNCH_STACK : Z := 39.
Definition ELF64_ERROR_LAUNCH_TRANSFER : Z := 40.
Definition ELF64_ERROR_AUX_VDSO_MAP : Z := 41.
Definition ELF64_AT_NULL : Z := 0.
Definition ELF64_AT_PHDR : Z := 3.
Definition ELF64_AT_PHENT : Z := 4.
Definition ELF64_AT_PHNUM : Z := 5.
Definition ELF64_AT_PAGESZ : Z := 6.
Definition ELF64_AT_BASE : Z := 7.
Definition ELF64_AT_FLAGS : Z := 8.
Definition ELF64_AT_ENTRY : Z := 9.
Definition ELF64_AT_UID : Z := 11.
Definition ELF64_AT_EUID : Z := 12.
Definition ELF64_AT_GID : Z := 13.
Definition ELF64_AT_EGID : Z := 14.
Definition ELF64_AT_PLATFORM : Z := 15.
Definition ELF64_AT_HWCAP : Z := 16.
Definition ELF64_AT_CLKTCK : Z := 17.
Definition ELF64_AT_SECURE : Z := 23.
Definition ELF64_AT_RANDOM : Z := 25.
Definition ELF64_AT_HWCAP2 : Z := 26.
Definition ELF64_AT_SYSINFO_EHDR : Z := 33.
Definition ELF64_AUX_HWCAP_BASELINE : Z := 0.
Definition ELF64_AUX_HWCAP2_BASELINE : Z := 0.
Definition ELF64_AUX_DEFAULT_UID : Z := 1000.
Definition ELF64_AUX_DEFAULT_GID : Z := 1000.
Definition LINUX_VDSO64_BASE : Z := 0x441C0000.
Definition LINUX_VDSO64_PHDR_COUNT : Z := 2.
Definition LINUX_VDSO64_MAP_OK : Z := 1.
Definition DESCRIPTORS64_USER_DATA_SELECTOR : Z := 0x2B.
Definition DESCRIPTORS64_USER_CODE_SELECTOR : Z := 0x33.
Definition LAUNCH64_USER_RFLAGS : Z := 2.
Definition PERSONA64_TYPE_LINUX_ELF : Z := 1.

Record elf64_load_result_t := mk_load_result {
  mapped_count : Z; total_map_bytes : Z; total_file_bytes : Z; total_bss_bytes : Z;
  first_mapped_vaddr : Z; max_mapped_end : Z; source_checksum : Z; mapped_checksum : Z;
  bss_nonzero_count : Z; lr_error : Z }.

#[export] Instance eta_load_result : Eta elf64_load_result_t := {| eta r :=
  mk_load_result (mapped_count r) (total_map_bytes r) (total_file_bytes r) (total_bss_bytes r)
    (first_mapped_vaddr r) (max_mapped_end r) (source_checksum r) (mapped_checksum r)
    (bss_nonzero_count r) (lr_error r) |}.

Record elf64_relro_result_t := mk_relro_result {
  relro_count : Z; protected_count : Z; total_protected_bytes : Z;
  first_protected_vaddr : Z; max_protected_end : Z; rr_error : Z }.

#[export] Instance eta_relro_result : Eta elf64_relro_result_t := {| eta r :=
  mk_relro_result (relro_count r) (protected_count r) (total_protected_bytes r)
    (first_protected_vaddr r) (max_protected_end r) (rr_error r) |}.

Record elf64_auxv_entry_t := mk_aux { at_type : Z; at_value : Z }.

Record elf64_auxv_t := mk_auxv {
  entries : list elf64_auxv_entry_t; entry_count : Z; random_byte_count : Z;
  random_staging_address : Z; platform_staging_address : Z; random : list Z; platform : list Z;
  random_checksum : Z; platform_checksum : Z; ax_error : Z }.

#[export] Instance eta_auxv : Eta elf64_auxv_t := {| eta a :=
  mk_auxv (entries a) (entry_count a) (random_byte_count a) (random_staging_address a)
    (platform_staging_address a) (random a) (platform a) (random_checksum a) (platform_checksum a) (ax_error a) |}.

Record elf64_stack_result_t := mk_stack_result {
  sr_stack_base : Z; sr_stack_top : Z; sr_initial_rsp : Z; argc_address : Z; argv_address : Z;
  envp_address : Z; auxv_address : Z; strings_base : Z; random_address : Z; platform_address : Z;
  sr_argc : Z; sr_envc : Z; auxv_entry_count : Z; pointer_slot_count : Z; string_bytes : Z;
  layout_bytes : Z; sr_random_checksum : Z; sr_platform_checksum : Z; alignment_ok : Z;
  argv_null_ok : Z; envp_null_ok : Z; auxv_null_ok : Z; sr_error : Z }.

#[export] Instance eta_stack_result : Eta elf64_stack_result_t := {| eta r :=
  mk_stack_result (sr_stack_base r) (sr_stack_top r) (sr_initial_rsp r) (argc_address r) (argv_address r)
    (envp_address r) (auxv_address r) (strings_base r) (random_address r) (platform_address r)
    (sr_argc r) (sr_envc r) (auxv_entry_count r) (pointer_slot_count r) (string_bytes r)
    (layout_bytes r) (sr_random_checksum r) (sr_platform_checksum r) (alignment_ok r)
    (argv_null_ok r) (envp_null_ok r) (auxv_null_ok r) (sr_error r) |}.

Record elf64_launch_result_t := mk_launch_result {
  la_header : elf64_header_t; phdr_summary : elf64_phdr_summary_t; load_result : elf64_load_result_t;
  relro_result : elf64_relro_result_t; la_auxv : elf64_auxv_t; stack_result : elf64_stack_result_t;
  load_bias : Z; entry_rip : Z; phdr_vaddr : Z; la_stack_base : Z; la_stack_top : Z; la_initial_rsp : Z;
  transfer_rip : Z; transfer_rsp : Z; transfer_selectors : Z; transfer_ready : Z; transfer_executed : Z;
  transfer_result : Z; entry_page_present : Z; entry_page_prot : Z; stack_page_present : Z;
  stack_page_prot : Z; la_error : Z }.

#[export] Instance eta_launch_result : Eta elf64_launch_result_t := {| eta r :=
  mk_launch_result (la_header r) (phdr_summary r) (load_result r) (relro_result r) (la_auxv r) (stack_result r)
    (load_bias r) (entry_rip r) (phdr_vaddr r) (la_stack_base r) (la_stack_top r) (la_initial_rsp r)
    (transfer_rip r) (transfer_rsp r) (transfer_selectors r) (transfer_ready r) (transfer_executed r)
    (transfer_result r) (entry_page_present r) (entry_page_prot r) (stack_page_present r)
    (stack_page_prot r) (la_error r) |}.

Record linux_vdso64_info_t := mk_vdso_info { vdso_base : Z; vdso_page_present : Z; vdso_elf_magic : Z; vdso_phdr_count : Z }.

(** The bytes at user addresses, the address spaces, and the rest. *)
Record elf_state (W E : Type) := mk_elf_state {
  user_memory : gmap Z Z;
  elf_vma : vma_state W;
  elf_env : E }.
Arguments mk_elf_state {W E}.
Arguments user_memory {W E}.
Arguments elf_vma {W E}.
Arguments elf_env {W E}.

#[export] Instance eta_elf_state W E : Eta (elf_state W E) := {| eta s :=
  mk_elf_state (user_memory s) (elf_vma s) (elf_env s) |}.

(** The rest of the kernel, as far as the loader sees it. *)
Class ElfWorld (W E : Type) := {
  persona64_type : Z -> E -> Z;
  pit_get_ticks : E -> Z;
  pit_get_frequency_hz : E -> Z;
  linux_vdso64_map : Z -> ST (elf_state W E) (Z * linux_vdso64_info_t);
  linux_vdso64_unmap : Z -> ST (elf_state W E) Z;
  interrupts64_trigger_user_entry_probe : Z -> Z -> Z -> Z -> ST (elf_state W E) Z;
}.

Definition elf64_clear_load_result : elf64_load_result_t := mk_load_result 0 0 0 0 0 0 0 0 0 ELF64_ERROR_NONE.
Definition elf64_clear_relro_result : elf64_relro_result_t := mk_relro_result 0 0 0 0 0 ELF64_ERROR_NONE.
Definition elf64_clear_auxv : elf64_auxv_t :=
  mk_auxv (replicate ELF64_AUXV_MAX_ENTRIES (mk_aux ELF64_AT_NULL 0)) 0 0 0 0
    (replicate ELF64_AUX_RANDOM_BYTES 0) (replicate ELF64_AUX_PLATFORM_BYTES 0) 0 0 ELF64_ERROR_NONE.
Definition elf64_clear_stack_result : elf64_stack_result_t :=
  mk_stack_result 0 0 0 0 0 0 0 0 0 0 0 0 0 0 0 0 0 0 0 0 0 0 ELF64_ERROR_NONE.
Definition elf64_clear_launch_result : elf64_launch_result_t :=
  mk_launch_result elf64_clear_header elf64_clear_summary elf64_clear_load_result elf64_clear_relro_result
    elf64_clear_auxv elf64_clear_stack_result 0 0 0 0 0 0 0 0 0 0 0 0 0 0 0 0 ELF64_ERROR_NONE.

Definition elf64_set_load_error (r : elf64_load_result_t) (e : Z) := r <| lr_error := e |>.
Definition elf64_set_relro_error (r : elf64_relro_result_t) (e : Z) := r <| rr_error := e |>.
Definition elf64_set_auxv_error (a : elf64_auxv_t) (e : Z) := a <| ax_error := e |>.
Definition elf64_set_stack_error (r : elf64_stack_result_t) (e : Z) := r <| sr_error := e |>.
Definition elf64_set_launch_error (r : elf64_launch_result_t) (e : Z) := r <| la_error := e |>.

(** ** Arithmetic *)

Definition elf64_align_down (value alignment : Z) : Z := Z.land value (not64 (sub64 alignment 1)).
Definition elf64_align_up (value alignment : Z) : Z :=
  Z.land (sub64 (add64 value alignment) 1) (not64 (sub64 alignment 1)).

Definition elf64_mix_checksum (checksum value : Z) : Z := add32 (mul32 (Z.lxor checksum value) 16777619) 0x9E3779B9.
Definition elf64_checksum_bytes (bytes : list Z) : Z := fold_left elf64_mix_checksum bytes 0.

(** A C string is the list of its bytes without the NUL; the length counts
    the NUL, and 0 means that there is none within [max]. *)
Definition elf64_strlen_bounded (text : list Z) (max : nat) : Z :=
  match find_index (fun b => b =? 0) (take max (text ++ [0])) with
  | Some i => Z.of_nat i + 1
  | None => 0
  end.

Definition mul64 (a b : Z) : Z := wrap64 (a * b).
Definition shl64 (a b : Z) : Z := wrap64 (Z.shiftl a b).

Definition elf64_mix_entropy64 (state value : Z) : Z :=
  let state := Z.lxor state (add64 (add64 (add64 value 0x9E3779B97F4A7C15) (shl64 state 6)) (Z.shiftr state 2)) in
  let state := Z.lxor state (Z.shiftr state 30) in
  let state := mul64 state 0xBF58476D1CE4E5B9 in
  let state := Z.lxor state (Z.shiftr state 27) in
  let state := mul64 state 0x94D049BB133111EB in
  Z.lxor state (Z.shiftr state 31).

(** The next word and the next state. *)
Definition elf64_entropy_next (state : Z) : Z * Z :=
  if state =? 0 then (0xA5A5A5A55A5A5A5A, state)
  else
    let value := Z.lxor state (Z.shiftr state 12) in
    let value := Z.lxor value (shl64 value 25) in
    let value := Z.lxor value (Z.shiftr value 27) in
    (mul64 value 0x2545F4914F6CDD1D, value).

Definition elf64_vma_prot_from_flags (flags : Z) : Z :=
  Z.lor (Z.lor (if nz (Z.land flags ELF64_PF_R) then VMA64_PROT_READ else 0)
               (if nz (Z.land flags ELF64_PF_W) then VMA64_PROT_WRITE else 0))
        (if nz (Z.land flags ELF64_PF_X) then VMA64_PROT_EXECUTE else 0).

Section loader.
Context {W E : Type} {paging : VmaPaging W} {launch : Process.LaunchEnv} {world : ElfWorld W E}.
Abbreviation EM := (ST (elf_state W E)).

Definition on_vma {A} (m : ST (vma_state W) A) : EM A :=
  fun s => let (a, v) := m (elf_vma s) in (a, s <| elf_vma := v |>).
Definition on_processes {A} (m : Process.PM A) : EM A := on_vma (Vma.on_processes m).

(** ** User memory *)

Definition load_byte (a : Z) (s : elf_state W E) : Z := default 0 (user_memory s !! a).
Definition store_byte (a b : Z) : EM unit := modify (fun s => s <| user_memory := <[a := b]> (user_memory s) |>).

Fixpoint store_bytes (a : Z) (bs : list Z) : EM unit :=
  match bs with [] => ret tt | b :: bs' => store_byte a b ;;; store_bytes (a + 1) bs' end.

(** The [n] bytes from [a] on. *)
Definition load_bytes (a : Z) (n : nat) (s : elf_state W E) : list Z := (fun k => load_byte (a + Z.of_nat k) s) <$> seq 0 n.

Definition elf64_stack_write_bytes (a : Z) (bs : list Z) : EM unit := if a =? 0 then ret tt else store_bytes a bs.

(** The eight bytes of a word, least first. *)
Definition word_bytes (v : Z) : list Z := (fun k => Z.land (Z.shiftr v (8 * Z.of_nat k)) 0xFF) <$> seq 0 8.
Definition elf64_stack_write_u64 (a v : Z) : EM unit := if a =? 0 then ret tt else store_bytes a (word_bytes v).
Definition elf64_stack_read_u64 (a : Z) (s : elf_state W E) : Z :=
  if a =? 0 then 0 else foldr (fun b v => Z.lor b (Z.shiftl v 8)) 0 (load_bytes a 8 s).

(** [source] is the part of the image that is copied; both checksums. *)
Fixpoint elf64_copy_to_user (destination : Z) (source : list Z) (source_sum mapped_sum : Z) : EM (Z * Z) :=
  match source with
  | [] => ret (source_sum, mapped_sum)
  | b :: source' =>
      store_byte destination b ;;;
      v <- gets (load_byte destination) ;;
      elf64_copy_to_user (destination + 1) source' (elf64_mix_checksum source_sum b) (elf64_mix_checksum mapped_sum v)
  end.

Fixpoint elf64_zero_bss (destination : Z) (byte_count : nat) (nonzero_count : Z) : EM Z :=
  match byte_count with
  | O => ret nonzero_count
  | S n =>
      store_byte destination 0 ;;;
      v <- gets (load_byte destination) ;;
      elf64_zero_bss (destination + 1) n (if nz v then inc32 nonzero_count else nonzero_count)
  end.

(** The bytes of the image a segment is copied from. *)
Definition source_bytes (data : list Z) (offset : Z) (n : nat) : list Z :=
  (fun k => default 0 (byte_at data (offset + Z.of_nat k))) <$> seq 0 n.

(** ** Load segments *)

Fixpoint elf64_unmap_recorded_segments (p : Z) (mapped : list (Z * Z)) : EM unit :=
  match mapped with
  | [] => ret tt
  | (base, len) :: rest =>
      (if nz base && nz len then on_vma (vma64_unmap p base len) ;;; ret tt else ret tt) ;;;
      elf64_unmap_recorded_segments p rest
  end.

(** The failure of a load after the segments [mapped]. *)
Definition load_denied (p : Z) (mapped : list (Z * Z)) (r : elf64_load_result_t) (e : Z) : EM (Z * elf64_load_result_t) :=
  elf64_unmap_recorded_segments p mapped ;;;
  ret (ELF64_DENIED, elf64_set_load_error r e).

(** Copying and zeroing one mapped segment. *)
Definition fill_segment (data : list Z) (ph : elf64_program_header_t) (load_vaddr : Z) (r : elf64_load_result_t) : EM elf64_load_result_t :=
  sums <- elf64_copy_to_user load_vaddr (source_bytes data (p_offset ph) (Z.to_nat (p_filesz ph)))
            (source_checksum r) (mapped_checksum r) ;;
  nonzero <- elf64_zero_bss (add64 load_vaddr (p_filesz ph)) (Z.to_nat (sub64 (p_memsz ph) (p_filesz ph))) 0 ;;
  ret (r <| source_checksum := fst sums |> <| mapped_checksum := snd sums |>
         <| bss_nonzero_count := add32 (bss_nonzero_count r) nonzero |>).

Definition count_segment (ph : elf64_program_header_t) (map_base map_bytes : Z) (r : elf64_load_result_t) : elf64_load_result_t :=
  let r := if mapped_count r =? 0 then r <| first_mapped_vaddr := map_base |> else r in
  let r := r <| mapped_count := inc32 (mapped_count r) |>
             <| total_map_bytes := add64 (total_map_bytes r) map_bytes |>
             <| total_file_bytes := add64 (total_file_bytes r) (p_filesz ph) |>
             <| total_bss_bytes := add64 (total_bss_bytes r) (sub64 (p_memsz ph) (p_filesz ph)) |> in
  if max_mapped_end r <? add64 map_base map_bytes then r <| max_mapped_end := add64 map_base map_bytes |> else r.

Definition load_flags : Z := Z.lor (Z.lor VMA64_MAP_PRIVATE VMA64_MAP_FIXED) VMA64_MAP_ANONYMOUS.
Definition load_prot : Z := Z.lor VMA64_PROT_READ VMA64_PROT_WRITE.

(** The pages of a segment: base and length. *)
Definition segment_pages (load_vaddr memsz : Z) : Z * Z :=
  let map_base := elf64_align_down load_vaddr VMA64_PAGE_BYTES in
  let map_offset := sub64 load_vaddr map_base in
  (map_base, elf64_align_up (add64 map_offset memsz) VMA64_PAGE_BYTES).

Fixpoint segment_loop (p : Z) (data : list Z) (size bias : Z) (phdrs : list elf64_program_header_t)
    (mapped : list (Z * Z)) (r : elf64_load_result_t) : EM (Z * elf64_load_result_t) :=
  match phdrs with
  | [] => ret (ELF64_OK, elf64_set_load_error r ELF64_ERROR_NONE)
  | ph :: rest =>
      if negb (p_type ph =? ELF64_PT_LOAD) || (p_memsz ph =? 0) then segment_loop p data size bias rest mapped r
      else if (p_memsz ph <? p_filesz ph) || negb (elf64_range_available size (p_offset ph) (p_filesz ph))
      then load_denied p mapped r ELF64_ERROR_LOAD_RANGE
      else
        let load_vaddr := add64 (p_vaddr ph) bias in
        let load_end := add64 load_vaddr (p_memsz ph) in
        let map_base := fst (segment_pages load_vaddr (p_memsz ph)) in
        let map_bytes := snd (segment_pages load_vaddr (p_memsz ph)) in
        let final_prot := elf64_vma_prot_from_flags (p_flags ph) in
        if (load_vaddr <? p_vaddr ph) || (load_end <? load_vaddr) || (map_bytes =? 0) || (add64 map_base map_bytes <? map_base)
        then load_denied p mapped r ELF64_ERROR_LOAD_ADDRESS
        else if final_prot =? 0 then load_denied p mapped r ELF64_ERROR_LOAD_PROTECT
        else
          v <- on_vma (vma64_map_anon p map_base map_bytes load_prot load_flags) ;;
          if negb (v =? map_base) then load_denied p mapped r ELF64_ERROR_LOAD_MAP
          else
            let mapped := mapped ++ [(map_base, map_bytes)] in
            r <- fill_segment data ph load_vaddr r ;;
            ok <- on_vma (vma64_protect p map_base map_bytes final_prot) ;;
            if ok =? 0 then load_denied p mapped r ELF64_ERROR_LOAD_PROTECT
            else segment_loop p data size bias rest mapped (count_segment ph map_base map_bytes r)
  end.

Definition elf64_map_load_segments (p : Z) (phdrs : list elf64_program_header_t) (phdr_count : Z)
    (data : list Z) (size bias : Z) : EM (Z * elf64_load_result_t) :=
  if Z.of_nat ELF64_MAX_PROGRAM_HEADERS <? phdr_count
  then ret (ELF64_DENIED, elf64_set_load_error elf64_clear_load_result ELF64_ERROR_NULL)
  else segment_loop p data size bias (take (Z.to_nat phdr_count) phdrs) [] elf64_clear_load_result.

(** The unmapping of every segment of a table. *)
Fixpoint unmap_phdrs (p bias : Z) (phdrs : list elf64_program_header_t) : EM unit :=
  match phdrs with
  | [] => ret tt
  | ph :: rest =>
      let load_vaddr := add64 (p_vaddr ph) bias in
      let load_end := add64 load_vaddr (p_memsz ph) in
      let map_base := fst (segment_pages load_vaddr (p_memsz ph)) in
      let map_bytes := snd (segment_pages load_vaddr (p_memsz ph)) in
      (if negb (p_type ph =? ELF64_PT_LOAD) || (p_memsz ph =? 0) || (load_vaddr <? p_vaddr ph) || (load_end <? load_vaddr)
          || (map_bytes =? 0) || (add64 map_base map_bytes <? map_base)
       then ret tt
       else on_vma (vma64_unmap p map_base map_bytes) ;;; ret tt) ;;;
      unmap_phdrs p bias rest
  end.

Definition elf64_unmap_phdr_segments (p : Z) (phdrs : list elf64_program_header_t) (phdr_count bias : Z) : EM unit :=
  if Z.of_nat ELF64_MAX_PROGRAM_HEADERS <? phdr_count then ret tt
  else unmap_phdrs p bias (take (Z.to_nat phdr_count) phdrs).

(** ** RELRO *)

Definition count_relro (protect_base protect_end : Z) (r : elf64_relro_result_t) : elf64_relro_result_t :=
  let r := if relro_count r =? 0 then r <| first_protected_vaddr := protect_base |> else r in
  let r := r <| relro_count := inc32 (relro_count r) |> <| protected_count := inc32 (protected_count r) |>
             <| total_protected_bytes := add64 (total_protected_bytes r) (sub64 protect_end protect_base) |> in
  if max_protected_end r <? protect_end then r <| max_protected_end := protect_end |> else r.

Fixpoint relro_loop (p bias : Z) (phdrs : list elf64_program_header_t) (r : elf64_relro_result_t) : EM (Z * elf64_relro_result_t) :=
  match phdrs with
  | [] => ret (ELF64_OK, elf64_set_relro_error r ELF64_ERROR_NONE)
  | ph :: rest =>
      if negb (p_type ph =? ELF64_PT_GNU_RELRO) || (p_memsz ph =? 0) then relro_loop p bias rest r
      else
        let relro_start := add64 (p_vaddr ph) bias in
        let relro_end := add64 relro_start (p_memsz ph) in
        let protect_base := elf64_align_down relro_start VMA64_PAGE_BYTES in
        let protect_end := elf64_align_up relro_end VMA64_PAGE_BYTES in
        if (relro_start <? p_vaddr ph) || (relro_end <? relro_start) || (protect_end <=? protect_base) || (protect_end <? relro_end)
        then ret (ELF64_DENIED, elf64_set_relro_error r ELF64_ERROR_RELRO_RANGE)
        else
          ok <- on_vma (vma64_protect p protect_base (sub64 protect_end protect_base) VMA64_PROT_READ) ;;
          if ok =? 0 then ret (ELF64_DENIED, elf64_set_relro_error r ELF64_ERROR_RELRO_PROTECT)
          else relro_loop p bias rest (count_relro protect_base protect_end r)
  end.

Definition elf64_apply_gnu_relro (p : Z) (phdrs : list elf64_program_header_t) (phdr_count bias : Z) : EM (Z * elf64_relro_result_t) :=
  if Z.of_nat ELF64_MAX_PROGRAM_HEADERS <? phdr_count
  then ret (ELF64_DENIED, elf64_set_relro_error elf64_clear_relro_result ELF64_ERROR_NULL)
  else relro_loop p bias (take (Z.to_nat phdr_count) phdrs) elf64_clear_relro_result.

(** ** The program headers in memory *)

Fixpoint phdr_address (table table_bytes bias fallback : Z) (phdrs : list elf64_program_header_t) : Z :=
  match phdrs with
  | [] => fallback
  | ph :: rest =>
      if negb (p_type ph =? ELF64_PT_LOAD) then phdr_address table table_bytes bias fallback rest
      else
        let fallback := if fallback =? 0 then add64 (add64 bias (p_vaddr ph)) table else fallback in
        let file_end := add64 (p_offset ph) (p_filesz ph) in
        if (p_offset ph <=? file_end) && (p_offset ph <=? table) && (table <=? add64 table table_bytes)
           && (add64 table table_bytes <=? file_end)
        then add64 (add64 bias (p_vaddr ph)) (sub64 table (p_offset ph))
        else phdr_address table table_bytes bias fallback rest
  end.

Definition elf64_program_header_vaddr (h : elf64_header_t) (phdrs : list elf64_program_header_t) (phdr_count bias : Z) : Z :=
  if phdr_count =? 0 then 0
  else phdr_address (phoff h) (phnum h * phentsize h) bias 0 (take (Z.to_nat phdr_count) phdrs).

(** ** The auxiliary vector *)

Definition elf64_auxv_entropy_seed (p entry phdr_vaddr phnum interp_base : Z) : EM Z :=
  principal <- on_processes (Process.process64_principal p) ;;
  manifest <- on_processes (Process.process64_manifest_token p) ;;
  runtime <- on_processes (Process.process64_runtime_token p) ;;
  image <- on_processes (Process.process64_runtime_image_token p) ;;
  ticks <- gets (fun s => pit_get_ticks (elf_env s)) ;;
  hz <- gets (fun s => pit_get_frequency_hz (elf_env s)) ;;
  let seed := fold_left elf64_mix_entropy64
    [p; principal; manifest; runtime; image; entry; phdr_vaddr; phnum; interp_base; ticks; hz] 0x454C463641555856 in
  ret (if nz seed then seed else 0x9E3779B97F4A7C15).

Definition elf64_auxv_add (t v : Z) (a : elf64_auxv_t) : Z * elf64_auxv_t :=
  if Z.of_nat ELF64_AUXV_MAX_ENTRIES <=? entry_count a then (0, a)
  else (1, a <| entries := <[Z.to_nat (entry_count a) := mk_aux t v]> (entries a) |> <| entry_count := inc32 (entry_count a) |>).

(** [ok &= elf64_auxv_add(...)] for each entry. *)
Definition add_entries (l : list (Z * Z)) (a : elf64_auxv_t) : Z * elf64_auxv_t :=
  fold_left (fun acc e => let (ok, a) := elf64_auxv_add (fst e) (snd e) (snd acc) in (Z.land (fst acc) ok, a)) l (1, a).

Definition elf64_auxv_has_null_terminator (a : elf64_auxv_t) : bool :=
  if (entry_count a =? 0) || (Z.of_nat ELF64_AUXV_MAX_ENTRIES <? entry_count a) then false
  else
    let last := default (mk_aux ELF64_AT_NULL 0) (entries a !! Z.to_nat (entry_count a - 1)) in
    (at_type last =? ELF64_AT_NULL) && (at_value last =? 0).

Definition platform_name : list Z := [0x78; 0x38; 0x36; 0x5F; 0x36; 0x34; 0; 0].

(** Byte [k] of the random block comes from word [k / 8]. *)
Definition random_block (seed : Z) : list Z :=
  let (w0, seed) := elf64_entropy_next seed in
  let (w1, _) := elf64_entropy_next seed in
  ((fun k => Z.land (Z.shiftr w0 (8 * Z.of_nat k)) 0xFF) <$> seq 0 8)
  ++ ((fun k => Z.land (Z.shiftr w1 (8 * Z.of_nat k)) 0xFF) <$> seq 0 8).

Definition aux_entries (a : elf64_auxv_t) (entry phdr_vaddr phnum interp_base hz : Z) (vdso : bool) : list (Z * Z) :=
  [(ELF64_AT_PHDR, phdr_vaddr); (ELF64_AT_PHENT, ELF64_PHDR_BYTES); (ELF64_AT_PHNUM, phnum);
   (ELF64_AT_PAGESZ, VMA64_PAGE_BYTES); (ELF64_AT_BASE, interp_base); (ELF64_AT_FLAGS, 0); (ELF64_AT_ENTRY, entry);
   (ELF64_AT_UID, ELF64_AUX_DEFAULT_UID); (ELF64_AT_EUID, ELF64_AUX_DEFAULT_UID);
   (ELF64_AT_GID, ELF64_AUX_DEFAULT_GID); (ELF64_AT_EGID, ELF64_AUX_DEFAULT_GID);
   (ELF64_AT_HWCAP, ELF64_AUX_HWCAP_BASELINE); (ELF64_AT_CLKTCK, hz); (ELF64_AT_SECURE, 0);
   (ELF64_AT_RANDOM, random_staging_address a); (ELF64_AT_HWCAP2, ELF64_AUX_HWCAP2_BASELINE);
   (ELF64_AT_PLATFORM, platform_staging_address a)]
  ++ (if vdso then [(ELF64_AT_SYSINFO_EHDR, LINUX_VDSO64_BASE)] else []) ++ [(ELF64_AT_NULL, 0)].

(** The end of [elf64_build_auxv]: the entries and their number. *)
Definition finish_auxv (p : Z) (l : list (Z * Z)) (vdso : bool) (a : elf64_auxv_t) : EM (Z * elf64_auxv_t) :=
  let (ok, a) := add_entries l a in
  let required := if vdso then ELF64_AUXV_LINUX_VDSO_ENTRIES else ELF64_AUXV_BASE_ENTRIES in
  if (ok =? 0) || negb (entry_count a =? required) then
    (if vdso then linux_vdso64_unmap p ;;; ret tt else ret tt) ;;;
    ret (ELF64_DENIED, elf64_set_auxv_error a ELF64_ERROR_AUX_CAPACITY)
  else ret (ELF64_OK, elf64_set_auxv_error a ELF64_ERROR_NONE).

(** [at_] is the address of the caller's [elf64_auxv_t], whose [random] and
    [platform] are 328 and 344 bytes into it. *)
Definition elf64_build_auxv (at_ p entry phdr_vaddr phnum interp_base : Z) : EM (Z * elf64_auxv_t) :=
  principal <- on_processes (Process.process64_principal p) ;;
  if (p =? Process.PROCESS64_INVALID_PID) || (principal =? 0) || (entry =? 0) || (phdr_vaddr =? 0) || (phnum =? 0)
     || (Z.of_nat ELF64_MAX_PROGRAM_HEADERS <? phnum)
  then ret (ELF64_DENIED, elf64_set_auxv_error elf64_clear_auxv ELF64_ERROR_AUX_ARGUMENT)
  else
    seed <- elf64_auxv_entropy_seed p entry phdr_vaddr phnum interp_base ;;
    let a := elf64_clear_auxv <| platform := platform_name |> <| platform_staging_address := at_ + 344 |>
               <| random := random_block seed |> <| random_byte_count := Z.of_nat ELF64_AUX_RANDOM_BYTES |>
               <| random_staging_address := at_ + 328 |>
               <| random_checksum := elf64_checksum_bytes (random_block seed) |>
               <| platform_checksum := elf64_checksum_bytes (take 7 platform_name) |> in
    hz <- gets (fun s => pit_get_frequency_hz (elf_env s)) ;;
    linux <- gets (fun s => persona64_type p (elf_env s) =? PERSONA64_TYPE_LINUX_ELF) ;;
    if linux : bool then
      mapped <- linux_vdso64_map p ;;
      let info := snd mapped in
      if negb (fst mapped =? LINUX_VDSO64_MAP_OK) || negb (vdso_base info =? LINUX_VDSO64_BASE)
         || (vdso_page_present info =? 0) || (vdso_elf_magic info =? 0)
         || negb (vdso_phdr_count info =? LINUX_VDSO64_PHDR_COUNT)
      then ret (ELF64_DENIED, elf64_set_auxv_error a ELF64_ERROR_AUX_VDSO_MAP)
      else finish_auxv p (aux_entries a entry phdr_vaddr phnum interp_base hz true) true a
    else finish_auxv p (aux_entries a entry phdr_vaddr phnum interp_base hz false) false a.

Definition used_entries (a : elf64_auxv_t) : list elf64_auxv_entry_t := take (Z.to_nat (entry_count a)) (entries a).

Definition elf64_auxv_has_type (a : elf64_auxv_t) (t : Z) : bool := existsb (fun e => at_type e =? t) (used_entries a).
Definition elf64_auxv_value (a : elf64_auxv_t) (t : Z) : Z :=
  from_option at_value 0 (List.find (fun e => at_type e =? t) (used_entries a)).

Definition elf64_unmap_linux_vdso_if_present (p : Z) (a : elf64_auxv_t) : EM unit :=
  if elf64_auxv_has_type a ELF64_AT_SYSINFO_EHDR then linux_vdso64_unmap p ;;; ret tt else ret tt.

(** ** The initial stack *)

Definition page_writable (p page : Z) (s : elf_state W E) : bool :=
  let ps := vma_processes (elf_vma s) in
  let w := vma_paging (elf_vma s) in
  if nz (paging64_process_root_physical ps p w) then
    nz (paging64_user_page_present_for_process ps p page w)
    && nz (Z.land (paging64_user_page_protection_for_process ps p page w) Paging.PAGING64_USER_PROT_WRITE)
  else
    nz (paging64_user_page_present page w)
    && nz (Z.land (paging64_user_page_protection page w) Paging.PAGING64_USER_PROT_WRITE).

Definition elf64_stack_range_writable (p stack_base stack_top : Z) (s : elf_state W E) : bool :=
  if (stack_top <=? stack_base) || nz (Z.land stack_base (VMA64_PAGE_BYTES - 1)) || nz (Z.land stack_top (VMA64_PAGE_BYTES - 1))
  then false
  else forallb (fun k => page_writable p (stack_base + Z.of_nat k * VMA64_PAGE_BYTES) s)
         (seq 0 (Z.to_nat ((stack_top - stack_base) / VMA64_PAGE_BYTES))).

(** The caller's strings, the last one first, pushed below [cursor]; [None]
    when one does not fit or has no end. *)
Fixpoint push_strings (stack_base : Z) (strings : list (list Z)) (cursor : Z) (ptrs : list Z) (r : elf64_stack_result_t)
    : EM (option (Z * list Z) * elf64_stack_result_t) :=
  match strings with
  | [] => ret (Some (cursor, ptrs), r)
  | text :: rest =>
      let string_length := elf64_strlen_bounded text ELF64_STACK_MAX_STRING_BYTES in
      if (string_length =? 0) || (sub64 cursor stack_base <? string_length) then ret (None, r)
      else
        let cursor := sub64 cursor string_length in
        elf64_stack_write_bytes cursor (take (Z.to_nat string_length) (text ++ [0])) ;;;
        push_strings stack_base rest cursor (cursor :: ptrs) (r <| string_bytes := add32 (string_bytes r) string_length |>)
  end.

Fixpoint write_words (cursor : Z) (words : list Z) : EM Z :=
  match words with
  | [] => ret cursor
  | w :: rest => elf64_stack_write_u64 cursor w ;;; write_words (add64 cursor 8) rest
  end.

Definition aux_words (random_at platform_at : Z) (a : elf64_auxv_t) : list Z :=
  concat ((fun e => [at_type e;
    if at_type e =? ELF64_AT_RANDOM then random_at else if at_type e =? ELF64_AT_PLATFORM then platform_at else at_value e])
    <$> used_entries a).

Definition stack_denied (r : elf64_stack_result_t) (e : Z) : EM (Z * elf64_stack_result_t) :=
  ret (ELF64_DENIED, elf64_set_stack_error r e).

(** From the strings on: the checks, the words and the read-back. *)
Definition finish_stack (stack_base stack_top argc envc cursor : Z) (argv_ptrs envp_ptrs : list Z) (a : elf64_auxv_t)
    (r : elf64_stack_result_t) : EM (Z * elf64_stack_result_t) :=
  random_bytes <- gets (load_bytes (random_address r) ELF64_AUX_RANDOM_BYTES) ;;
  platform_bytes <- gets (load_bytes (platform_address r) ELF64_AUX_PLATFORM_BYTES) ;;
  let slots := add32 (add32 (add32 (add32 (add32 1 argc) 1) envc) 1) (mul32 (entry_count a) 2) in
  let pointer_bytes := slots * 8 in
  let r := r <| strings_base := cursor |> <| sr_random_checksum := elf64_checksum_bytes random_bytes |>
             <| sr_platform_checksum := elf64_checksum_bytes platform_bytes |> <| pointer_slot_count := slots |> in
  if (cursor <? stack_base) || (sub64 cursor stack_base <? pointer_bytes) then stack_denied r ELF64_ERROR_STACK_OVERFLOW
  else
    let rsp := Z.land (sub64 cursor pointer_bytes) (not64 0xF) in
    if (rsp <? stack_base) || (cursor <? add64 rsp pointer_bytes) then stack_denied r ELF64_ERROR_STACK_OVERFLOW
    else
      let argv_at := add64 rsp 8 in
      let envp_at := add64 argv_at (add32 argc 1 * 8) in
      let auxv_at := add64 envp_at (add32 envc 1 * 8) in
      let r := r <| sr_initial_rsp := rsp |> <| argc_address := rsp |> <| argv_address := argv_at |>
                 <| envp_address := envp_at |> <| auxv_address := auxv_at |> <| auxv_entry_count := entry_count a |>
                 <| layout_bytes := wrap32 (sub64 stack_top rsp) |>
                 <| alignment_ok := b2z (Z.land rsp 0xF =? 0) |> in
      write_cursor <- write_words rsp ([argc] ++ argv_ptrs ++ [0] ++ envp_ptrs ++ [0] ++ aux_words (random_address r) (platform_address r) a) ;;
      if negb (write_cursor =? add64 rsp pointer_bytes) then stack_denied r ELF64_ERROR_STACK_WRITE
      else
        argv_null <- gets (elf64_stack_read_u64 (add64 argv_at (argc * 8))) ;;
        envp_null <- gets (elf64_stack_read_u64 (add64 envp_at (envc * 8))) ;;
        last_type <- gets (elf64_stack_read_u64 (add64 auxv_at (dec32 (entry_count a) * 16))) ;;
        last_value <- gets (elf64_stack_read_u64 (add64 (add64 auxv_at (dec32 (entry_count a) * 16)) 8)) ;;
        ret (ELF64_OK, elf64_set_stack_error
          (r <| argv_null_ok := b2z (argv_null =? 0) |> <| envp_null_ok := b2z (envp_null =? 0) |>
             <| auxv_null_ok := b2z ((last_type =? ELF64_AT_NULL) && (last_value =? 0)) |>) ELF64_ERROR_NONE).

(** [argv] and [envp] are the strings of the caller's arrays, of which the
    first [argc] and [envc] are used. *)
Definition elf64_build_initial_stack (p stack_base stack_top argc : Z) (argv : list (list Z)) (envc : Z) (envp : list (list Z))
    (a : elf64_auxv_t) : EM (Z * elf64_stack_result_t) :=
  let r := elf64_clear_stack_result <| sr_stack_base := stack_base |> <| sr_stack_top := stack_top |>
             <| sr_argc := argc |> <| sr_envc := envc |> in
  principal <- on_processes (Process.process64_principal p) ;;
  if (p =? Process.PROCESS64_INVALID_PID) || (principal =? 0) || (ELF64_STACK_MAX_ARGC <? argc) || (ELF64_STACK_MAX_ENVC <? envc)
     || negb (elf64_auxv_has_null_terminator a)
  then stack_denied r ELF64_ERROR_STACK_ARGUMENT
  else
    writable <- gets (elf64_stack_range_writable p stack_base stack_top) ;;
    if (stack_top <=? stack_base) || (0xFFFFFFFF <? stack_top - stack_base) || negb writable
    then stack_denied r ELF64_ERROR_STACK_RANGE
    else
      store_bytes stack_base (replicate (Z.to_nat (stack_top - stack_base)) 0) ;;;
      if stack_top - stack_base <? Z.of_nat ELF64_AUX_PLATFORM_BYTES then stack_denied r ELF64_ERROR_STACK_OVERFLOW
      else
        let cursor := sub64 stack_top (Z.of_nat ELF64_AUX_PLATFORM_BYTES) in
        let r := r <| platform_address := cursor |> in
        elf64_stack_write_bytes cursor (platform a) ;;;
        if sub64 cursor stack_base <? Z.of_nat ELF64_AUX_RANDOM_BYTES then stack_denied r ELF64_ERROR_STACK_OVERFLOW
        else
          let cursor := sub64 cursor (Z.of_nat ELF64_AUX_RANDOM_BYTES) in
          let r := r <| random_address := cursor |> in
          elf64_stack_write_bytes cursor (random a) ;;;
          envs <- push_strings stack_base (rev (take (Z.to_nat envc) envp)) cursor [] r ;;
          match fst envs with
          | None => stack_denied (snd envs) ELF64_ERROR_STACK_OVERFLOW
          | Some (cursor, envp_ptrs) =>
              args <- push_strings stack_base (rev (take (Z.to_nat argc) argv)) cursor [] (snd envs) ;;
              match fst args with
              | None => stack_denied (snd args) ELF64_ERROR_STACK_OVERFLOW
              | Some (cursor, argv_ptrs) =>
                  finish_stack stack_base stack_top argc envc cursor argv_ptrs envp_ptrs a (snd args)
              end
          end.

(** ** Launching a static program *)

(** What [elf64_transfer_frame_ready] stores of the two pages. *)
Definition frame_pages (p entry_page stack_base : Z) (s : elf_state W E) : Z * Z * (Z * Z) :=
  let ps := vma_processes (elf_vma s) in
  let w := vma_paging (elf_vma s) in
  if nz (paging64_process_root_physical ps p w) then
    (paging64_user_page_present_for_process ps p entry_page w, paging64_user_page_protection_for_process ps p entry_page w,
     (paging64_user_page_present_for_process ps p stack_base w, paging64_user_page_protection_for_process ps p stack_base w))
  else
    (paging64_user_page_present entry_page w, paging64_user_page_protection entry_page w,
     (paging64_user_page_present stack_base w, paging64_user_page_protection stack_base w)).

Definition elf64_transfer_frame_ready (p entry_rip stack_base stack_top : Z) (r : elf64_launch_result_t)
    : EM (Z * elf64_launch_result_t) :=
  if (p =? Process.PROCESS64_INVALID_PID) || (entry_rip =? 0) || (stack_top <=? stack_base) then ret (0, r)
  else
    at_entry <- on_vma (vma64_find p entry_rip) ;;
    if negb (bool_decide (is_Some at_entry)) then ret (0, r)
    else
      at_stack <- on_vma (vma64_find p stack_base) ;;
      if negb (bool_decide (is_Some at_stack)) then ret (0, r)
      else
        pages <- gets (frame_pages p (elf64_align_down entry_rip VMA64_PAGE_BYTES) stack_base) ;;
        let '(entry_present, entry_prot, (stack_present, stack_prot)) := pages in
        ret (b2z (nz entry_present && nz (Z.land entry_prot Paging.PAGING64_USER_PROT_EXECUTE)
                  && nz stack_present && nz (Z.land stack_prot Paging.PAGING64_USER_PROT_WRITE)),
             r <| entry_page_present := entry_present |> <| entry_page_prot := entry_prot |>
               <| stack_page_present := stack_present |> <| stack_page_prot := stack_prot |>).

Definition launch_denied (r : elf64_launch_result_t) (e : Z) : EM (Z * elf64_launch_result_t) :=
  ret (ELF64_DENIED, elf64_set_launch_error r e).

(** The undoing of a launch whose stack is mapped. *)
Definition undo_stack (p stack_base stack_bytes : Z) (phdrs : list elf64_program_header_t) (phdr_count bias : Z) : EM unit :=
  on_vma (vma64_unmap p stack_base stack_bytes) ;;; elf64_unmap_phdr_segments p phdrs phdr_count bias.

(** From the auxiliary vector on. *)
Definition launch_image (at_ p stack_base stack_bytes argc : Z) (argv : list (list Z)) (envc : Z) (envp : list (list Z))
    (run_transfer_probe : Z) (phdrs : list elf64_program_header_t) (r : elf64_launch_result_t) : EM (Z * elf64_launch_result_t) :=
  let count := phnum (la_header r) in
  let bias := load_bias r in
  let undo := undo_stack p stack_base stack_bytes phdrs count bias in
  aux <- elf64_build_auxv at_ p (entry_rip r) (phdr_vaddr r) count 0 ;;
  let r := r <| la_auxv := snd aux |> in
  if negb (fst aux =? ELF64_OK) then undo ;;; launch_denied r ELF64_ERROR_LAUNCH_AUXV
  else
    stack <- elf64_build_initial_stack p stack_base (la_stack_top r) argc argv envc envp (la_auxv r) ;;
    let r := r <| stack_result := snd stack |> in
    if negb (fst stack =? ELF64_OK) then
      elf64_unmap_linux_vdso_if_present p (la_auxv r) ;;; undo ;;; launch_denied r ELF64_ERROR_LAUNCH_STACK
    else
      let r := r <| la_initial_rsp := sr_initial_rsp (stack_result r) |> <| transfer_rip := entry_rip r |>
                 <| transfer_rsp := sr_initial_rsp (stack_result r) |>
                 <| transfer_selectors := Z.lor (Z.shiftl DESCRIPTORS64_USER_DATA_SELECTOR 16) DESCRIPTORS64_USER_CODE_SELECTOR |> in
      ready <- elf64_transfer_frame_ready p (entry_rip r) stack_base (la_stack_top r) r ;;
      let r := (snd ready) <| transfer_ready := fst ready |> in
      if transfer_ready r =? 0 then
        elf64_unmap_linux_vdso_if_present p (la_auxv r) ;;; undo ;;; launch_denied r ELF64_ERROR_LAUNCH_TRANSFER
      else if run_transfer_probe =? 0 then ret (ELF64_OK, elf64_set_launch_error r ELF64_ERROR_NONE)
      else
        entered <- interrupts64_trigger_user_entry_probe (transfer_rip r) (transfer_rsp r) (transfer_selectors r) LAUNCH64_USER_RFLAGS ;;
        let r := r <| transfer_result := entered |> <| transfer_executed := 1 |> in
        if transfer_result r =? 0 then
          elf64_unmap_linux_vdso_if_present p (la_auxv r) ;;; undo ;;; launch_denied r ELF64_ERROR_LAUNCH_TRANSFER
        else ret (ELF64_OK, elf64_set_launch_error r ELF64_ERROR_NONE).

(** From the mapping of the segments on. *)
Definition launch_segments (at_ p : Z) (data : list Z) (size stack_base stack_bytes argc : Z) (argv : list (list Z))
    (envc : Z) (envp : list (list Z)) (run_transfer_probe : Z) (phdrs : list elf64_program_header_t) (r : elf64_launch_result_t)
    : EM (Z * elf64_launch_result_t) :=
  let count := phnum (la_header r) in
  let bias := load_bias r in
  loaded <- elf64_map_load_segments p phdrs count data size bias ;;
  let r := r <| load_result := snd loaded |> in
  if negb (fst loaded =? ELF64_OK) then launch_denied r ELF64_ERROR_LAUNCH_LOAD
  else
    relro <- elf64_apply_gnu_relro p phdrs count bias ;;
    let r := r <| relro_result := snd relro |> in
    if negb (fst relro =? ELF64_OK) then
      elf64_unmap_phdr_segments p phdrs count bias ;;; launch_denied r ELF64_ERROR_LAUNCH_RELRO
    else
      v <- on_vma (vma64_map_anon p stack_base stack_bytes load_prot load_flags) ;;
      if negb (v =? stack_base) then
        elf64_unmap_phdr_segments p phdrs count bias ;;; launch_denied r ELF64_ERROR_LAUNCH_STACK_MAP
      else launch_image at_ p stack_base stack_bytes argc argv envc envp run_transfer_probe phdrs r.

(** The parts of the launch that only read the image: the result with the
    header, the summary, the entry and the program headers' address, and the
    error, or 0.  [None]: the parser left the image, which it never does. *)
Definition launch_parse (data : list Z) (size : Z) (r : elf64_launch_result_t)
    : option (Z * list elf64_program_header_t * elf64_launch_result_t) :=
  let table := replicate ELF64_MAX_PROGRAM_HEADERS elf64_clear_program_header in
  header ← elf64_parse_header data size;
  let r := r <| la_header := snd header |> in
  if negb (fst header =? ELF64_OK) then Some (ELF64_ERROR_LAUNCH_PARSE, table, r)
  else if negb (type (la_header r) =? ELF64_TYPE_EXEC) then Some (ELF64_ERROR_LAUNCH_DYNAMIC, table, r)
  else
    parsed ← elf64_parse_phdrs data size (la_header r) table (Z.of_nat ELF64_MAX_PROGRAM_HEADERS);
    let '(ok, phdrs, summary) := parsed in
    let r := r <| phdr_summary := summary |> in
    if negb (ok =? ELF64_OK) then Some (ELF64_ERROR_LAUNCH_PHDR, phdrs, r)
    else if (load_count summary =? 0) || nz (interp_count summary) || nz (dynamic_count summary)
    then Some (ELF64_ERROR_LAUNCH_DYNAMIC, phdrs, r)
    else
      let entry_at := add64 (entry (la_header r)) (load_bias r) in
      if (entry_at <? entry (la_header r)) || (entry_at =? 0) then Some (ELF64_ERROR_LAUNCH_ARGUMENT, phdrs, r)
      else
        let r := r <| entry_rip := entry_at |>
                   <| phdr_vaddr := elf64_program_header_vaddr (la_header r) phdrs (phnum (la_header r)) (load_bias r) |> in
        Some (if phdr_vaddr r =? 0 then ELF64_ERROR_LAUNCH_PHDR else ELF64_ERROR_NONE, phdrs, r).

(** [at_] is the address of [out_result->auxv]. *)
Definition elf64_launch_static (at_ p : Z) (data : list Z) (size bias stack_base stack_bytes argc : Z) (argv : list (list Z))
    (envc : Z) (envp : list (list Z)) (run_transfer_probe : Z) : EM (option (Z * elf64_launch_result_t)) :=
  let r := elf64_clear_launch_result <| load_bias := bias |> <| la_stack_base := stack_base |>
             <| la_stack_top := add64 stack_base stack_bytes |> in
  principal <- on_processes (Process.process64_principal p) ;;
  if (p =? Process.PROCESS64_INVALID_PID) || (principal =? 0) || (size =? 0) || (stack_bytes =? 0)
     || nz (Z.land stack_base (VMA64_PAGE_BYTES - 1)) || nz (Z.land stack_bytes (VMA64_PAGE_BYTES - 1))
     || (add64 stack_base stack_bytes <=? stack_base)
  then denied <- launch_denied r ELF64_ERROR_LAUNCH_ARGUMENT ;; ret (Some denied)
  else
    match launch_parse data size r with
    | None => ret None
    | Some (e, phdrs, r) =>
        if negb (e =? ELF64_ERROR_NONE) then denied <- launch_denied r e ;; ret (Some denied)
        else
          done_ <- launch_segments at_ p data size stack_base stack_bytes argc argv envc envp run_transfer_probe phdrs r ;;
          ret (Some done_)
    end.

End loader.
End Elf64.
