(* ===== verification/ElfMemory.v ===== *)
(** * Facts about the loader's stores

    What is at user addresses after a run of stores, copies and clearings,
    and the strings and words of the initial stack. *)

From S2P Require Import Prelude Principal Services64 Process ProcessFacts PersonaBudget Paging VmaTree Vma VmaFacts ElfParse ElfFacts Elf64.
Import ProcFacts VmaTree Vma VmaFacts ElfParse ElfFacts Elf64.
Local Open Scope Z_scope.
Local Open Scope kernel_scope.

Module ElfMemory.

(** The bytes [bs] written from [a] on. *)
Fixpoint written (a : Z) (bs : list Z) (m : gmap Z Z) : gmap Z Z :=
  match bs with [] => m | b :: bs' => written (a + 1) bs' (<[a := b]> m) end.

Lemma lookup_written a bs m x :
  written a bs m !! x = if (a <=? x) && (x <? a + Z.of_nat (length bs)) then bs !! Z.to_nat (x - a) else m !! x.
Proof.
  revert a m. induction bs as [|b bs IH]; intros a m; cbn [written length].
  { by destruct (Z.leb_spec a x), (Z.ltb_spec x (a + Z.of_nat 0)); simpl; [lia|..]. }
  rewrite IH. destruct (decide (x = a)) as [->|Hx].
  - rewrite lookup_insert_eq, Z.sub_diag. destruct (Z.leb_spec (a + 1) a), (Z.leb_spec a a), (Z.ltb_spec a (a + Z.of_nat (S (length bs)))); simpl; (done || lia).
  - rewrite lookup_insert_ne by done.
    destruct (Z.leb_spec (a + 1) x), (Z.ltb_spec x (a + 1 + Z.of_nat (length bs))), (Z.leb_spec a x),
      (Z.ltb_spec x (a + Z.of_nat (S (length bs)))); simpl; try lia; try done.
    by replace (Z.to_nat (x - a)) with (S (Z.to_nat (x - (a + 1)))) by lia.
Qed.

Lemma written_app a bs1 bs2 m : written a (bs1 ++ bs2) m = written (a + Z.of_nat (length bs1)) bs2 (written a bs1 m).
Proof.
  revert a m. induction bs1 as [|b bs1 IH]; intros a m; simpl; [by rewrite Z.add_0_r|]. rewrite IH. f_equal. lia.
Qed.

Section memory.
Context {W E : Type} {paging : VmaPaging W} {launch : Process.LaunchEnv} {world : ElfWorld W E}.
Implicit Types s : elf_state W E.

Definition with_bytes a bs s : elf_state W E := s <| user_memory := written a bs (user_memory s) |>.

(** The bytes [bs] are in memory from [a] on. *)
Definition in_memory s a (bs : list Z) : Prop := forall k b, bs !! k = Some b -> load_byte (a + Z.of_nat k) s = b.

(** Only the addresses from [lo] to [hi] changed. *)
Definition only_within lo hi s s' : Prop :=
  elf_vma s' = elf_vma s /\ elf_env s' = elf_env s /\ forall x, ~ (lo <= x < hi) -> load_byte x s' = load_byte x s.

Lemma only_within_refl lo hi s : only_within lo hi s s.
Proof. done. Qed.

Lemma only_within_trans lo hi s1 s2 s3 : only_within lo hi s1 s2 -> only_within lo hi s2 s3 -> only_within lo hi s1 s3.
Proof.
  intros (A1 & A2 & A3) (B1 & B2 & B3). split_and!; [congruence|congruence|]. intros x Hx. by rewrite B3, A3.
Qed.

Lemma only_within_mono lo hi lo' hi' s s' : lo' <= lo -> hi <= hi' -> only_within lo hi s s' -> only_within lo' hi' s s'.
Proof. intros H1 H2 (A1 & A2 & A3). split_and!; [done|done|]. intros x Hx. apply A3. lia. Qed.

Lemma load_with_bytes a bs s x :
  load_byte x (with_bytes a bs s) = if (a <=? x) && (x <? a + Z.of_nat (length bs)) then default 0 (bs !! Z.to_nat (x - a)) else load_byte x s.
Proof. unfold load_byte, with_bytes. simpl. rewrite lookup_written. by destruct (_ && _). Qed.

Lemma with_bytes_within a bs s : only_within a (a + Z.of_nat (length bs)) s (with_bytes a bs s).
Proof.
  split_and!; [done|done|]. intros x Hx. rewrite load_with_bytes.
  destruct (Z.leb_spec a x), (Z.ltb_spec x (a + Z.of_nat (length bs))); simpl; (done || lia).
Qed.

Lemma with_bytes_there a bs s : in_memory (with_bytes a bs s) a bs.
Proof.
  intros k b Hk. pose proof (lookup_lt_Some _ _ _ Hk) as Hl. rewrite load_with_bytes, (proj2 (Z.leb_le _ _)), (proj2 (Z.ltb_lt _ _)) by lia. simpl.
  replace (Z.to_nat (a + Z.of_nat k - a)) with k by lia. by rewrite Hk.
Qed.

Lemma in_memory_app s a bs1 bs2 : in_memory s a (bs1 ++ bs2) <-> in_memory s a bs1 /\ in_memory s (a + Z.of_nat (length bs1)) bs2.
Proof.
  split.
  - intros H. split; intros k b Hk.
    + apply H. by apply lookup_app_l_Some.
    + rewrite <- Z.add_assoc, <- Nat2Z.inj_add. apply H. rewrite lookup_app_r by lia. by replace (_ + k - _)%nat with k by lia.
  - intros [H1 H2] k b Hk. apply lookup_app_Some in Hk as [Hk|[Hl Hk]]; [by apply H1|].
    specialize (H2 _ _ Hk). rewrite <- Z.add_assoc, <- Nat2Z.inj_add in H2. by replace (_ + (k - _))%nat with k in H2 by lia.
Qed.

(** Stores elsewhere leave the bytes alone. *)
Lemma in_memory_kept s s' lo hi a bs :
  only_within lo hi s s' -> a + Z.of_nat (length bs) <= lo \/ hi <= a -> in_memory s a bs -> in_memory s' a bs.
Proof.
  intros (_ & _ & H) Hd Hm k b Hk. pose proof (lookup_lt_Some _ _ _ Hk) as Hl. rewrite H by lia. by apply Hm.
Qed.

(** A middle part is overwritten. *)
Lemma in_memory_replace s a bs1 old new bs2 : length new = length old -> in_memory s a (bs1 ++ old ++ bs2) ->
  in_memory (with_bytes (a + Z.of_nat (length bs1)) new s) a (bs1 ++ new ++ bs2).
Proof.
  intros Hl Hm. apply in_memory_app in Hm as [H1 H2]. apply in_memory_app in H2 as [_ H2].
  pose proof (with_bytes_within (a + Z.of_nat (length bs1)) new s) as Hw. apply in_memory_app. split; [|apply in_memory_app; split].
  - eapply in_memory_kept; [exact Hw|lia|done].
  - apply with_bytes_there.
  - rewrite Hl. eapply in_memory_kept; [exact Hw|lia|done].
Qed.

(** ** The operations *)

Lemma store_bytes_run a bs s : store_bytes a bs s = (tt, with_bytes a bs s).
Proof.
  revert a s. induction bs as [|b bs IH]; intros a s; simpl; [by destruct s|]. unfold bind. simpl. rewrite IH. by destruct s.
Qed.

Lemma load_store a b s : load_byte a (with_bytes a [b] s) = b.
Proof. rewrite <- (Z.add_0_r a) at 1. by apply (with_bytes_there a [b] s 0%nat). Qed.

Lemma with_bytes_cons a b bs s : with_bytes (a + 1) bs (with_bytes a [b] s) = with_bytes a (b :: bs) s.
Proof. by destruct s. Qed.

Lemma copy_to_user_run bs a ss ms s :
  elf64_copy_to_user a bs ss ms s = ((fold_left elf64_mix_checksum bs ss, fold_left elf64_mix_checksum bs ms), with_bytes a bs s).
Proof.
  revert a ss ms s. induction bs as [|b bs IH]; intros a ss ms s; cbn [elf64_copy_to_user]; [by destruct s|].
  unfold bind at 1 2. cbn [store_byte modify gets fst snd].
  change (s <| user_memory := <[a:=b]> (user_memory s) |>) with (with_bytes a [b] s). by rewrite load_store, IH, with_bytes_cons.
Qed.

Lemma zero_bss_run n a c s : elf64_zero_bss a n c s = (c, with_bytes a (replicate n 0) s).
Proof.
  revert a s. induction n as [|n IH]; intros a s; cbn [elf64_zero_bss replicate]; [by destruct s|].
  unfold bind at 1 2. cbn [store_byte modify gets fst snd].
  change (s <| user_memory := <[a:=0]> (user_memory s) |>) with (with_bytes a [0] s). rewrite load_store. cbn [nz Z.eqb negb].
  by rewrite IH, with_bytes_cons.
Qed.

Lemma load_bytes_there s a bs : in_memory s a bs -> load_bytes a (length bs) s = bs.
Proof.
  intros H. apply list_eq. intros k. unfold load_bytes. rewrite list_lookup_fmap. destruct (bs !! k) as [b|] eqn:Ek.
  - pose proof (lookup_lt_Some _ _ _ Ek). rewrite lookup_seq_lt by lia. simpl. f_equal. by apply H.
  - apply lookup_ge_None in Ek. by rewrite lookup_seq_ge by lia.
Qed.

Lemma length_word_bytes w : length (word_bytes w) = 8%nat.
Proof. done. Qed.

Lemma write_words_run ws a s : 0 < a -> a + 8 * Z.of_nat (length ws) < 2 ^ 64 ->
  write_words a ws s = (a + 8 * Z.of_nat (length ws), with_bytes a (concat (word_bytes <$> ws)) s).
Proof.
  revert a s. induction ws as [|w ws IH]; intros a s Ha Hb; cbn [write_words]; [destruct s; unfold ret; simpl; f_equal; lia|].
  unfold bind at 1, elf64_stack_write_u64. rewrite (proj2 (Z.eqb_neq a 0)), store_bytes_run by lia. cbn [fst snd].
  assert (Ea : add64 a 8 = a + 8) by (unfold add64, wrap64; simpl length in Hb; rewrite Z.mod_small; lia). rewrite Ea, IH by (simpl length in Hb; lia).
  f_equal; [simpl length; lia|]. unfold with_bytes. rewrite fmap_cons. cbn [concat]. rewrite written_app, length_word_bytes. by destruct s.
Qed.

(** A word of zeros reads as 0. *)
Lemma read_zero s a bs : in_memory s a (concat (word_bytes <$> bs)) -> forall i, bs !! i = Some 0 -> elf64_stack_read_u64 (a + 8 * Z.of_nat i) s = 0.
Proof.
  revert a. induction bs as [|b bs IH]; intros a H i Hi; [done|]. rewrite fmap_cons in H. cbn [concat] in H. apply in_memory_app in H as [H1 H2].
  destruct i as [|i]; cbn [lookup list_lookup] in Hi.
  - injection Hi as ->. unfold elf64_stack_read_u64. replace (a + 8 * Z.of_nat 0) with a by lia. case_match; [done|].
    change 8%nat with (length (word_bytes 0)). by rewrite (load_bytes_there s a (word_bytes 0)).
  - rewrite length_word_bytes in H2. replace (a + 8 * Z.of_nat (S i)) with (a + Z.of_nat 8 + 8 * Z.of_nat i) by lia. by apply IH.
Qed.

End memory.
End ElfMemory.
