(* ===== verification/ElfStack.v ===== *)
(** * The initial stack of a program

    The bytes [elf64_build_initial_stack] leaves between the ends of the
    stack, as one list, and that the function leaves exactly them. *)

From S2P Require Import Prelude Principal Services64 Process ProcessFacts PersonaAuditFacts PersonaBudget Paging VmaTree Vma VmaGap VmaFacts ElfParse ElfFacts Elf64 ElfMemory.
Import ProcFacts VmaTree Vma VmaGap VmaFacts ElfParse ElfFacts Elf64 ElfMemory.
Local Open Scope Z_scope.
Local Open Scope kernel_scope.

Module ElfStack.

(** ** The layout *)

Definition cstring (text : list Z) : bool := forallb nz text.
Definition terminated (text : list Z) : list Z := text ++ [0].
Definition short (text : list Z) : bool := Nat.ltb (length text) ELF64_STACK_MAX_STRING_BYTES.
Definition packed (texts : list (list Z)) : list Z := concat (terminated <$> texts).

(** The addresses of strings packed from [at_] on. *)
Fixpoint places (at_ : Z) (texts : list (list Z)) : list Z :=
  match texts with [] => [] | t :: rest => at_ :: places (at_ + Z.of_nat (length (terminated t))) rest end.

(** What is on the stack above the words: strings, random bytes, platform. *)
Definition upper (args envs : list (list Z)) (a : elf64_auxv_t) : list Z := packed args ++ packed envs ++ random a ++ platform a.

Definition words (top : Z) (args envs : list (list Z)) (a : elf64_auxv_t) : list Z :=
  let strings := top - Z.of_nat (length (upper args envs a)) in
  [Z.of_nat (length args)] ++ places strings args ++ [0] ++ places (strings + Z.of_nat (length (packed args))) envs ++ [0]
  ++ aux_words (top - 24) (top - 8) a.

(** The stack pointer: below the words, on a 16-byte boundary. *)
Definition stack_pointer (top : Z) (args envs : list (list Z)) (a : elf64_auxv_t) : Z :=
  (top - Z.of_nat (length (upper args envs a)) - 8 * Z.of_nat (length (words top args envs a))) / 16 * 16.

Definition stack_image (base top : Z) (args envs : list (list Z)) (a : elf64_auxv_t) : list Z :=
  let rsp := stack_pointer top args envs a in
  let n := Z.of_nat (length (words top args envs a)) in
  replicate (Z.to_nat (rsp - base)) 0 ++ concat (word_bytes <$> words top args envs a)
  ++ replicate (Z.to_nat (top - Z.of_nat (length (upper args envs a)) - 8 * n - rsp)) 0 ++ upper args envs a.

(** Everything fits between the ends. *)
Definition fits (base top : Z) (args envs : list (list Z)) (a : elf64_auxv_t) : bool :=
  forallb short (args ++ envs)
  && (Z.of_nat (length (upper args envs a)) + 8 * Z.of_nat (length (words top args envs a)) <=? top - base).

(** ** Strings *)

Lemma strlen_cstring text : cstring text = true ->
  elf64_strlen_bounded text ELF64_STACK_MAX_STRING_BYTES = if short text then Z.of_nat (length (terminated text)) else 0.
Proof.
  intros Hc. unfold elf64_strlen_bounded, short, terminated. rewrite length_app. simpl length.
  assert (Hnz : forall b, b ∈ text -> (b =? 0) = false).
  { intros b Hb. unfold cstring in Hc. rewrite forallb_forall in Hc. apply Z.eqb_neq, nz_true, Hc. by apply list_elem_of_In. }
  destruct (Nat.ltb_spec (length text) ELF64_STACK_MAX_STRING_BYTES) as [Hl|Hl].
  - rewrite (find_index_unique _ _ (length text) 0); [lia| |done|].
    + rewrite lookup_take_lt by lia. by rewrite lookup_app_r, Nat.sub_diag by lia.
    + intros j y Hj Hy. apply lookup_take_Some in Hj as [Hj _]. apply lookup_app_Some in Hj as [Hj|[Hlj Hj]].
      * apply list_elem_of_lookup_2, Hnz in Hj. congruence.
      * apply list_lookup_singleton_Some in Hj as [Hj _]. lia.
  - rewrite (proj2 (find_index_None _ _)); [done|]. intros x Hx. apply Hnz. rewrite take_app_le in Hx by lia.
    apply list_elem_of_lookup in Hx as (i & Hi). apply lookup_take_Some in Hi as [Hi _]. by eapply list_elem_of_lookup_2.
Qed.

Lemma packed_app l1 l2 : packed (l1 ++ l2) = packed l1 ++ packed l2.
Proof. unfold packed. by rewrite fmap_app, concat_app. Qed.

Lemma packed_one t : packed [t] = terminated t.
Proof. unfold packed. cbn [concat fmap list_fmap]. apply app_nil_r. Qed.

Lemma length_packed_rev l : length (packed (rev l)) = length (packed l).
Proof.
  induction l as [|t l IH]; [done|]. simpl rev. change (t :: l) with ([t] ++ l). rewrite !packed_app, !length_app, IH. lia.
Qed.

Lemma places_app at_ l1 l2 : places at_ (l1 ++ l2) = places at_ l1 ++ places (at_ + Z.of_nat (length (packed l1))) l2.
Proof.
  revert at_. induction l1 as [|t l1 IH]; intros at_; cbn [app places]; [by rewrite Z.add_0_r|]. rewrite IH.
  change (t :: l1) with ([t] ++ l1). rewrite packed_app, length_app. rewrite packed_one, Nat2Z.inj_add.
  by rewrite Z.add_assoc.
Qed.

Lemma length_places at_ l : length (places at_ l) = length l.
Proof. revert at_. induction l as [|t l IH]; intros at_; simpl; [done|]. by rewrite IH. Qed.

Lemma length_aux_words r q a : length (aux_words r q a) = (2 * length (used_entries a))%nat.
Proof.
  unfold aux_words. induction (used_entries a) as [|e l IH]; [done|].
  rewrite fmap_cons. cbn [concat]. rewrite length_app, IH. simpl. lia.
Qed.

Lemma length_words top args envs a : length (words top args envs a) = (3 + length args + length envs + 2 * length (used_entries a))%nat.
Proof. unfold words. rewrite !length_app, !length_places, length_aux_words. simpl. lia. Qed.

Lemma sub64_small a b : b <= a -> 0 <= b -> a < 2 ^ 64 -> sub64 a b = a - b.
Proof. intros. unfold sub64, wrap64. apply Z.mod_small. lia. Qed.

Lemma add64_small a b : 0 <= a -> 0 <= b -> a + b < 2 ^ 64 -> add64 a b = a + b.
Proof. intros. unfold add64, wrap64. apply Z.mod_small. lia. Qed.

(** ** The words and the read-back *)

(** What the caller is told of a finished stack. *)
Record stack_reported (base top : Z) (args envs : list (list Z)) (a : elf64_auxv_t) (r : elf64_stack_result_t) : Prop := {
  rp_rsp : sr_initial_rsp r = stack_pointer top args envs a;
  rp_argc : argc_address r = sr_initial_rsp r;
  rp_argv : argv_address r = sr_initial_rsp r + 8;
  rp_envp : envp_address r = argv_address r + 8 * (Z.of_nat (length args) + 1);
  rp_auxv : auxv_address r = envp_address r + 8 * (Z.of_nat (length envs) + 1);
  rp_random : random_address r = top - 24;
  rp_platform : platform_address r = top - 8;
  rp_slots : pointer_slot_count r = Z.of_nat (length (words top args envs a));
  rp_checks : alignment_ok r = 1 /\ argv_null_ok r = 1 /\ envp_null_ok r = 1 /\ auxv_null_ok r = 1;
  rp_error : sr_error r = ELF64_ERROR_NONE
}.

(** The auxiliary vector as the caller built it. *)
Record auxv_ok (a : elf64_auxv_t) : Prop := {
  ax_entries : length (entries a) = ELF64_AUXV_MAX_ENTRIES;
  ax_count : 0 <= entry_count a;
  ax_random : length (random a) = ELF64_AUX_RANDOM_BYTES;
  ax_platform : length (platform a) = ELF64_AUX_PLATFORM_BYTES
}.

Lemma null_terminated a : auxv_ok a -> elf64_auxv_has_null_terminator a = true ->
  Z.of_nat (length (used_entries a)) = entry_count a /\ 0 < entry_count a <= Z.of_nat ELF64_AUXV_MAX_ENTRIES /\
  used_entries a !! Z.to_nat (entry_count a - 1) = Some (mk_aux ELF64_AT_NULL 0).
Proof.
  intros [H1 H2 _ _]. unfold elf64_auxv_has_null_terminator. destruct (_ || _) eqn:Eg; [done|].
  apply orb_false_iff in Eg as [G1%Z.eqb_neq G2%Z.ltb_ge]. unfold used_entries. rewrite length_take, H1.
  intros [T1%Z.eqb_eq T2%Z.eqb_eq]%andb_true_iff. split_and!; [lia|lia|lia|].
  rewrite lookup_take_lt by lia. destruct (entries a !! Z.to_nat (entry_count a - 1)) as [e|] eqn:Ee.
  - simpl in *. destruct e. simpl in *. by subst.
  - apply lookup_ge_None in Ee. lia.
Qed.

(** Where the words that are read back are. *)
Lemma words_null top args envs a : auxv_ok a -> elf64_auxv_has_null_terminator a = true ->
  let w := words top args envs a in
  w !! (1 + length args)%nat = Some 0 /\ w !! (2 + length args + length envs)%nat = Some 0 /\
  w !! (3 + length args + length envs + 2 * Z.to_nat (entry_count a - 1))%nat = Some 0 /\
  w !! (3 + length args + length envs + 2 * Z.to_nat (entry_count a - 1) + 1)%nat = Some 0.
Proof.
  intros Ha Hn. destruct (null_terminated a Ha Hn) as (_ & _ & Hl). cbv zeta. unfold words. cbn [app].
  set (at1 := top - Z.of_nat (length (upper args envs a))).
  assert (Haux : forall (l : list elf64_auxv_entry_t) i k e f (g : elf64_auxv_entry_t -> Z), l !! i = Some e -> (k < 2)%nat ->
    concat ((fun e => [f e; g e]) <$> l) !! (2 * i + k)%nat = Some (if decide (k = 0)%nat then f e else g e)).
  { induction l as [|x l IH]; intros i k e f g Hi Hk; [done|]. rewrite fmap_cons. cbn [concat]. destruct i as [|i]; cbn [lookup list_lookup] in Hi.
    - injection Hi as ->. by destruct k as [|[|k]]; [..|lia].
    - rewrite lookup_app_r by (simpl; lia). simpl length. replace (2 * S i + k - 2)%nat with (2 * i + k)%nat by lia. by apply IH. }
  set (envs_at := at1 + Z.of_nat (length (packed args))). set (aux := aux_words (top - 24) (top - 8) a).
  assert (L1 : length (Z.of_nat (length args) :: places at1 args) = (1 + length args)%nat) by (simpl; by rewrite length_places).
  assert (L2 : length ((Z.of_nat (length args) :: places at1 args) ++ 0 :: places envs_at envs) = (2 + length args + length envs)%nat)
    by (rewrite length_app, L1; simpl; rewrite length_places; lia).
  assert (Hx : forall i k, (k < 2)%nat -> i = (3 + length args + length envs + 2 * Z.to_nat (entry_count a - 1) + k)%nat ->
    (Z.of_nat (length args) :: places at1 args ++ 0 :: places envs_at envs ++ 0 :: aux) !! i = Some 0).
  { intros i k Hk ->. rewrite !app_comm_cons, app_assoc, lookup_app_r by lia. rewrite L2, lookup_cons_ne_0 by lia.
    replace (Init.Nat.pred _) with (2 * Z.to_nat (entry_count a - 1) + k)%nat by lia. unfold aux, aux_words.
    rewrite (Haux _ _ k _ _ _ Hl) by lia. by destruct k as [|[|k]]; [..|lia]. }
  split_and!; [| |by apply (Hx _ 0%nat); [lia|]|by apply (Hx _ 1%nat); lia].
  - rewrite app_comm_cons. by apply list_lookup_middle.
  - rewrite !app_comm_cons, app_assoc. by apply list_lookup_middle.
Qed.

Lemma add32_small a b : 0 <= a -> 0 <= b -> a + b < 2 ^ 32 -> add32 a b = a + b.
Proof. intros. unfold add32, wrap32. apply Z.mod_small. lia. Qed.

Section stack.
Context {W E : Type} {paging : VmaPaging W} {launch : Process.LaunchEnv} {world : ElfWorld W E}.
Implicit Types (s : elf_state W E) (n : nat).

(** [n] clear bytes, and then [tail]. *)
Definition cleared s base n tail : Prop := in_memory s base (replicate n 0 ++ tail).

Lemma push_bytes s base n bs tail : (length bs <= n)%nat -> cleared s base n tail ->
  cleared (with_bytes (base + Z.of_nat (n - length bs)) bs s) base (n - length bs) (bs ++ tail).
Proof.
  intros Hl H. unfold cleared. replace n with ((n - length bs) + length bs)%nat in H by lia. unfold cleared in H.
  rewrite replicate_add, <- app_assoc in H.
  pose proof (in_memory_replace s base (replicate (n - length bs) 0) (replicate (length bs) 0) bs tail) as R.
  rewrite !length_replicate in R. by apply R.
Qed.

Lemma push_strings_wp base texts : forall n ptrs r s tail,
  0 < base -> base + Z.of_nat n < 2 ^ 64 -> forallb cstring texts = true -> cleared s base n tail ->
  wp (push_strings base texts (base + Z.of_nat n) ptrs r) (fun v s' =>
    only_within base (base + Z.of_nat n) s s' /\ (exists sb, snd v = r <| string_bytes := sb |>) /\
    if forallb short texts && (length (packed texts) <=? n)%nat then
      let m := (n - length (packed texts))%nat in
      fst v = Some (base + Z.of_nat m, places (base + Z.of_nat m) (rev texts) ++ ptrs) /\
      cleared s' base m (packed (rev texts) ++ tail)
    else fst v = None) s.
Proof.
  induction texts as [|t texts IH]; intros n ptrs r s tail Hb Hn Hc Hm; cbn [push_strings forallb].
  { apply wp_ret. split; [done|]. split; [exists (string_bytes r); by destruct r|]. simpl. by rewrite Nat.sub_0_r. }
  cbn [forallb] in Hc. apply andb_true_iff in Hc as [Ht Hc]. rewrite strlen_cstring by done.
  assert (Hp : length (packed (t :: texts)) = (length (terminated t) + length (packed texts))%nat) by (unfold packed; simpl; by rewrite length_app).
  assert (Hno : exists sb, r = r <| string_bytes := sb |>) by (exists (string_bytes r); by destruct r).
  destruct (short t) eqn:Hs; cbn [andb]; [|by apply wp_ret].
  rewrite (proj2 (Z.eqb_neq _ 0)) by (unfold terminated; rewrite length_app; simpl; lia). cbn [orb].
  rewrite sub64_small by lia.
  destruct (Z.ltb_spec (base + Z.of_nat n - base) (Z.of_nat (length (terminated t)))) as [Hlt|Hle].
  { apply wp_ret. split; [done|]. split; [done|]. rewrite (proj2 (Nat.leb_gt _ _)) by lia. by rewrite andb_false_r. }
  assert (Ec : sub64 (base + Z.of_nat n) (Z.of_nat (length (terminated t))) = base + Z.of_nat (n - length (terminated t))) by (rewrite sub64_small; lia).
  rewrite Ec, Nat2Z.id. apply wp_bind. unfold elf64_stack_write_bytes. rewrite (proj2 (Z.eqb_neq _ 0)) by lia.
  unfold wp at 1. change (t ++ [0]) with (terminated t). rewrite take_ge by done. rewrite store_bytes_run. cbn [fst snd].
  eapply wp_mono; [apply (IH (n - length (terminated t))%nat); [done|lia|done|apply push_bytes; [lia|exact Hm]]|].
  intros v s' (Hw & [sb Hr] & H). split; [|split].
  - eapply only_within_trans; [|eapply only_within_mono, Hw; lia]. eapply only_within_mono, with_bytes_within; lia.
  - exists sb. by rewrite Hr.
  - destruct (forallb short texts); cbn [andb] in *; [|done]. rewrite Hp.
    destruct (Nat.leb_spec (length (packed texts)) (n - length (terminated t))) as [H1|H1].
    + rewrite (proj2 (Nat.leb_le _ _)) by lia. cbn [rev].
      replace (n - (length (terminated t) + length (packed texts)))%nat with (n - length (terminated t) - length (packed texts))%nat by lia.
      rewrite packed_app, packed_one, places_app, <- !app_assoc, length_packed_rev. destruct H as [H2 H3]. split.
      * rewrite H2. do 4 f_equal. simpl. f_equal. lia.
      * done.
    + by rewrite (proj2 (Nat.leb_gt _ _)) by lia.
Qed.

Lemma used_le a : auxv_ok a -> (length (used_entries a) <= ELF64_AUXV_MAX_ENTRIES)%nat.
Proof. intros [H _ _ _]. unfold used_entries. rewrite length_take, H. lia. Qed.

Lemma slots_words argc envc top args envs a :
  argc = Z.of_nat (length args) -> envc = Z.of_nat (length envs) -> (length args <= 8)%nat -> (length envs <= 8)%nat ->
  auxv_ok a -> Z.of_nat (length (used_entries a)) = entry_count a ->
  add32 (add32 (add32 (add32 (add32 1 argc) 1) envc) 1) (mul32 (entry_count a) 2) = Z.of_nat (length (words top args envs a)).
Proof.
  intros -> -> H1 H2 Ha Hu. pose proof (used_le a Ha) as H3. unfold ELF64_AUXV_MAX_ENTRIES in H3. rewrite length_words.
  assert (Hm : mul32 (entry_count a) 2 = entry_count a * 2) by (unfold mul32, wrap32; apply Z.mod_small; lia). rewrite Hm.
  rewrite (add32_small 1), (add32_small (1 + _)), (add32_small (1 + _ + 1)), (add32_small (1 + _ + 1 + _)), add32_small by lia. lia.
Qed.

Lemma with_bytes_spread s base k ws gap tail n :
  n = (k + length ws + gap)%nat -> cleared s base n tail ->
  in_memory (with_bytes (base + Z.of_nat k) ws s) base (replicate k 0 ++ ws ++ replicate gap 0 ++ tail).
Proof.
  intros -> H. unfold cleared in H. rewrite !replicate_add, <- !app_assoc in H.
  pose proof (in_memory_replace s base (replicate k 0) (replicate (length ws) 0) ws (replicate gap 0 ++ tail)) as R.
  rewrite !length_replicate in R. by apply R.
Qed.

Lemma finish_stack_wp s base top argc envc args envs a r :
  0 < base -> base mod 16 = 0 -> top < 2 ^ 64 -> argc = Z.of_nat (length args) -> envc = Z.of_nat (length envs) ->
  (length args <= 8)%nat -> (length envs <= 8)%nat -> auxv_ok a -> elf64_auxv_has_null_terminator a = true ->
  let cursor := top - Z.of_nat (length (upper args envs a)) in
  base <= cursor -> random_address r = top - 24 -> platform_address r = top - 8 ->
  cleared s base (Z.to_nat (cursor - base)) (upper args envs a) ->
  wp (finish_stack base top argc envc cursor (places cursor args) (places (cursor + Z.of_nat (length (packed args))) envs) a r)
    (fun v s' => only_within base top s s' /\
      if Z.of_nat (length (upper args envs a)) + 8 * Z.of_nat (length (words top args envs a)) <=? top - base
      then fst v = ELF64_OK /\ in_memory s' base (stack_image base top args envs a) /\ stack_reported base top args envs a (snd v)
      else fst v = ELF64_DENIED /\ sr_error (snd v) = ELF64_ERROR_STACK_OVERFLOW) s.
Proof.
  intros Hb Hal Ht Hargc Henvc Hna Hne Ha Hnull cursor Hc Hra Hpa Hm. destruct (null_terminated a Ha Hnull) as (Hu & Hcnt & _).
  unfold finish_stack. apply wp_bind, wp_gets, wp_bind, wp_gets. rewrite (slots_words argc envc top args envs a) by done.
  set (N := Z.of_nat (length (words top args envs a))). set (ws := words top args envs a) in *.
  rewrite (proj2 (Z.ltb_ge cursor base)) by lia. cbn [orb]. rewrite sub64_small by lia.
  destruct (Z.leb_spec (Z.of_nat (length (upper args envs a)) + 8 * N) (top - base)) as [Hf|Hf]; cycle 1.
  { rewrite (proj2 (Z.ltb_lt (cursor - base) (N * 8))) by lia. by apply wp_ret. }
  rewrite (proj2 (Z.ltb_ge (cursor - base) (N * 8))) by lia.
  assert (Ersp : Z.land (sub64 cursor (N * 8)) (not64 0xF) = stack_pointer top args envs a).
  { rewrite sub64_small by lia. change 0xF with (2 ^ 4 - 1). rewrite land_not64 by lia. unfold stack_pointer, cursor, N, ws. do 3 f_equal. lia. }
  rewrite Ersp. set (rsp := stack_pointer top args envs a) in *.
  assert (Hrsp : base <= rsp /\ rsp <= cursor - 8 * N < rsp + 16 /\ rsp mod 16 = 0).
  { unfold rsp, stack_pointer. fold ws. fold N. fold cursor. pose proof (Z.div_mod (cursor - 8 * N) 16 ltac:(lia)) as D.
    pose proof (Z.mod_pos_bound (cursor - 8 * N) 16 ltac:(lia)). rewrite Z_mod_mult. split; [|lia].
    apply Z.mod_divide in Hal as [q Hq]; [|lia]. rewrite Hq in *. assert (q <= (cursor - 8 * N) / 16); [|lia].
    apply Z.div_le_lower_bound; lia. }
  rewrite (proj2 (Z.ltb_ge rsp base)), (add64_small rsp (N * 8)), (proj2 (Z.ltb_ge cursor _)) by lia. cbn [orb].
  assert (HN : N = 3 + argc + envc + 2 * entry_count a) by (unfold N, ws; rewrite length_words; lia).
  rewrite (add64_small rsp 8) by lia. replace (add32 argc 1) with (argc + 1) by (unfold add32, wrap32; rewrite Z.mod_small; lia).
  replace (add32 envc 1) with (envc + 1) by (unfold add32, wrap32; rewrite Z.mod_small; lia).
  rewrite (add64_small (rsp + 8) ((argc + 1) * 8)) by lia. rewrite (add64_small (rsp + 8 + (argc + 1) * 8) ((envc + 1) * 8)) by lia.
  apply wp_bind. unfold wp at 1.
  match goal with |- context [write_words rsp ?l] => assert (Ews : l = ws) end.
  { unfold ws, words. rewrite Hargc. simpl. by rewrite Hra, Hpa. }
  rewrite Ews, write_words_run by lia. fold ws. fold N. cbn [fst snd].
  replace (rsp + 8 * N) with (rsp + N * 8) by lia. rewrite Z.eqb_refl. cbn [negb].
  set (s1 := with_bytes rsp (concat (word_bytes <$> ws)) s).
  assert (Hlen : Z.of_nat (length (concat (word_bytes <$> ws))) = 8 * N).
  { unfold N. clear. induction ws as [|w l IH]; [done|]. rewrite fmap_cons. cbn [concat]. rewrite length_app, length_word_bytes. simpl length. lia. }
  assert (Hw : only_within base top s s1) by (eapply only_within_mono, with_bytes_within; lia).
  assert (Hmem : in_memory s1 rsp (concat (word_bytes <$> ws))) by apply with_bytes_there.
  assert (Himg : in_memory s1 base (stack_image base top args envs a)).
  { unfold stack_image, s1. fold rsp. fold ws. replace rsp with (base + Z.of_nat (Z.to_nat (rsp - base))) at 1 by lia.
    eapply with_bytes_spread; [|exact Hm]. fold N. fold cursor. lia. }
  destruct (words_null top args envs a Ha Hnull) as (W1 & W2 & W3 & W4). fold ws in W1, W2, W3, W4.
  assert (Hdec : dec32 (entry_count a) = entry_count a - 1) by (unfold dec32, sub32, wrap32; rewrite Z.mod_small; unfold ELF64_AUXV_MAX_ENTRIES in *; lia).
  rewrite Hdec. do 4 (apply wp_bind, wp_gets). apply wp_ret. split; [done|]. cbn [fst snd]. split; [done|]. split; [done|].
  rewrite !add64_small by (unfold ELF64_AUXV_MAX_ENTRIES in *; lia).
  pose proof (read_zero s1 rsp ws Hmem _ W1) as R1. pose proof (read_zero s1 rsp ws Hmem _ W2) as R2.
  pose proof (read_zero s1 rsp ws Hmem _ W3) as R3. pose proof (read_zero s1 rsp ws Hmem _ W4) as R4.
  replace (rsp + 8 * Z.of_nat (1 + length args)) with (rsp + 8 + argc * 8) in R1 by lia.
  replace (rsp + 8 * Z.of_nat (2 + length args + length envs)) with (rsp + 8 + (argc + 1) * 8 + envc * 8) in R2 by lia.
  replace (rsp + 8 * Z.of_nat (3 + length args + length envs + 2 * Z.to_nat (entry_count a - 1)))
    with (rsp + 8 + (argc + 1) * 8 + (envc + 1) * 8 + (entry_count a - 1) * 16) in R3 by lia.
  replace (rsp + 8 * Z.of_nat (3 + length args + length envs + 2 * Z.to_nat (entry_count a - 1) + 1))
    with (rsp + 8 + (argc + 1) * 8 + (envc + 1) * 8 + (entry_count a - 1) * 16 + 8) in R4 by lia.
  split; simpl; rewrite ?R1, ?R2, ?R3, ?R4; try done; try lia.
  split_and!; try done. change 15 with (2 ^ 4 - 1). rewrite pow2_mask by lia. change (2 ^ 4) with 16. destruct Hrsp as (_ & _ & ->). done.
Qed.

(** ** The whole function *)

Lemma elf_principal_wp s p (Q : Z -> elf_state W E -> Prop) :
  pinv (vma_processes (elf_vma s)) ->
  Q (from_option Process.principal_id 0 (proc (vma_processes (elf_vma s)) p)) s -> wp (on_processes (Process.process64_principal p)) Q s.
Proof.
  intros Hp HQ. unfold wp, on_processes, on_vma, Vma.on_processes.
  destruct (read_field_wp 0 Process.principal_id _ p Hp) as [R1 R2]. unfold Process.process64_principal.
  destruct (Process.read_field 0 Process.principal_id p _) as [v ps]. simpl in *. subst. destruct s as [m [] e]. done.
Qed.

(** The arguments are those of a live process. *)
Definition admitted (s : elf_state W E) p argc envc a : bool :=
  bool_decide (is_Some (proc (vma_processes (elf_vma s)) p)) && (argc <=? ELF64_STACK_MAX_ARGC) && (envc <=? ELF64_STACK_MAX_ENVC)
  && elf64_auxv_has_null_terminator a.

Lemma admitted_guard s p argc envc a : pinv (vma_processes (elf_vma s)) ->
  (p =? Process.PROCESS64_INVALID_PID) || (from_option Process.principal_id 0 (proc (vma_processes (elf_vma s)) p) =? 0)
  || (ELF64_STACK_MAX_ARGC <? argc) || (ELF64_STACK_MAX_ENVC <? envc) || negb (elf64_auxv_has_null_terminator a)
  = negb (admitted s p argc envc a).
Proof.
  intros Hp. unfold admitted. destruct (proc (vma_processes (elf_vma s)) p) as [x|] eqn:Hx; simpl.
  - rewrite (proj2 (Z.eqb_neq _ 0)) by exact (AuditFacts.proc_principal _ p x Hp Hx).
    rewrite (proj2 (Z.eqb_neq p _)) by (intros ->; by rewrite AuditFacts.proc_invalid in Hx). simpl.
    rewrite !negb_andb, !(Z.ltb_antisym). done.
  - by rewrite orb_true_r.
Qed.

(** A range the stack may be in. *)
Definition stack_range s p base top : bool :=
  (base <? top) && (top - base <=? 0xFFFFFFFF) && elf64_stack_range_writable p base top s.

Definition build_result s base top args envs a v s' (adm rng : bool) : Prop :=
  only_within base top s s' /\
  if negb adm then fst v = ELF64_DENIED /\ sr_error (snd v) = ELF64_ERROR_STACK_ARGUMENT
  else if negb rng then fst v = ELF64_DENIED /\ sr_error (snd v) = ELF64_ERROR_STACK_RANGE
  else if fits base top args envs a
  then fst v = ELF64_OK /\ in_memory s' base (stack_image base top args envs a) /\ stack_reported base top args envs a (snd v)
  else fst v = ELF64_DENIED /\ sr_error (snd v) = ELF64_ERROR_STACK_OVERFLOW.

Lemma stack_range_page s p base top : 0 < base -> stack_range s p base top = true -> base mod 4096 = 0 /\ base + 4096 <= top.
Proof.
  intros Hb. unfold stack_range, elf64_stack_range_writable. intros [[H1%Z.ltb_lt _]%andb_true_iff H]%andb_true_iff.
  destruct (_ || _) eqn:Eg; [done|]. apply orb_false_iff in Eg as [[_ G1]%orb_false_iff G2].
  apply nz_false in G1, G2. change (VMA64_PAGE_BYTES - 1) with (2 ^ 12 - 1) in *. rewrite !pow2_mask in * by lia. change (2 ^ 12) with 4096 in *.
  split; [done|]. apply Z.mod_divide in G1 as [q1 ->], G2 as [q2 ->]; lia.
Qed.

Lemma build_stack_wp s p base top argc argv envc envp a :
  pinv (vma_processes (elf_vma s)) -> 0 < base -> top < 2 ^ 64 -> 0 <= argc <= Z.of_nat (length argv) -> 0 <= envc <= Z.of_nat (length envp) ->
  auxv_ok a -> let args := take (Z.to_nat argc) argv in let envs := take (Z.to_nat envc) envp in forallb cstring (args ++ envs) = true ->
  wp (elf64_build_initial_stack p base top argc argv envc envp a)
    (fun v s' => build_result s base top args envs a v s' (admitted s p argc envc a) (stack_range s p base top)) s.
Proof.
  intros Hp Hb Ht Hac Hec Ha args envs Hcs. unfold elf64_build_initial_stack, build_result.
  apply wp_bind, elf_principal_wp; [done|]. rewrite admitted_guard by done.
  destruct (admitted s p argc envc a) eqn:Hadm; cbn [negb]; [|by apply wp_ret].
  apply wp_bind, wp_gets.
  assert (Er : (top <=? base) || (0xFFFFFFFF <? top - base) || negb (elf64_stack_range_writable p base top s) = negb (stack_range s p base top))
    by (unfold stack_range; rewrite !negb_andb, (Z.leb_antisym base top), (Z.ltb_antisym (top - base)); done).
  rewrite Er. destruct (stack_range s p base top) eqn:Hrg; cbn [negb]; [|by apply wp_ret].
  destruct (stack_range_page s p base top Hb Hrg) as [Hal Hpg].
  unfold admitted in Hadm. apply andb_true_iff in Hadm as [[[_ A1%Z.leb_le]%andb_true_iff A2%Z.leb_le]%andb_true_iff Hnull].
  unfold ELF64_STACK_MAX_ARGC, ELF64_STACK_MAX_ENVC in A1, A2.
  assert (Hna : Z.of_nat (length args) = argc) by (unfold args; rewrite length_take; lia).
  assert (Hne : Z.of_nat (length envs) = envc) by (unfold envs; rewrite length_take; lia).
  rewrite forallb_app in Hcs. apply andb_true_iff in Hcs as [Hca Hce].
  assert (Hrev : forall l, forallb cstring l = true -> forallb cstring (rev l) = true).
  { intros l. rewrite !forallb_forall. intros H x Hx%in_rev. by apply H. }
  assert (Hsrev : forall l, forallb short (rev l) = forallb short l).
  { intros l. apply eq_true_iff_eq. rewrite !forallb_forall. split; intros H x Hx; apply H; [by apply -> in_rev|by apply in_rev]. }
  apply wp_bind. unfold wp at 1. rewrite store_bytes_run. cbn [fst snd].
  set (s1 := with_bytes base _ s). set (n := Z.to_nat (top - base)) in *. pose proof Ha as [X1 X2 X3 X4].
  assert (W1 : only_within base top s s1) by (eapply only_within_mono, with_bytes_within; rewrite ?length_replicate; lia).
  assert (C1 : cleared s1 base n []) by (unfold cleared; rewrite app_nil_r; apply with_bytes_there).
  rewrite (proj2 (Z.ltb_ge _ _)) by (unfold ELF64_AUX_PLATFORM_BYTES; lia). unfold ELF64_AUX_PLATFORM_BYTES, ELF64_AUX_RANDOM_BYTES in *.
  rewrite (sub64_small top) by lia. apply wp_bind. unfold elf64_stack_write_bytes at 1, wp at 1.
  rewrite (proj2 (Z.eqb_neq _ 0)), store_bytes_run by lia. cbn [fst snd].
  apply (push_bytes _ _ _ (platform a)) in C1; [|lia]. rewrite X4, app_nil_r in C1.
  replace (base + Z.of_nat (n - 8)) with (top - Z.of_nat 8) in C1 by lia. set (s2 := with_bytes _ (platform a) s1) in *.
  rewrite (sub64_small _ base), (proj2 (Z.ltb_ge _ _)) by lia. rewrite (sub64_small _ (Z.of_nat 16)) by lia.
  apply wp_bind. unfold elf64_stack_write_bytes at 1, wp at 1. rewrite (proj2 (Z.eqb_neq _ 0)), store_bytes_run by lia. cbn [fst snd].
  apply (push_bytes _ _ _ (random a)) in C1; [|lia]. rewrite X3 in C1.
  replace (base + Z.of_nat (n - 8 - 16)) with (top - Z.of_nat 8 - Z.of_nat 16) in C1 by lia. set (s3 := with_bytes _ (random a) s2) in *.
  assert (W3 : only_within base top s s3).
  { eapply only_within_trans; [exact W1|]. eapply only_within_trans; (eapply only_within_mono, with_bytes_within; rewrite ?X3, ?X4; lia). }
  replace (n - 8 - 16)%nat with (n - 24)%nat in C1 by lia. replace (top - Z.of_nat 8 - Z.of_nat 16) with (base + Z.of_nat (n - 24)) by lia.
  apply wp_bind. eapply wp_mono; [apply (push_strings_wp base (rev envs) (n - 24)%nat); [done|lia|by apply Hrev|exact C1]|].
  intros v s4 (W4 & [sb4 E4] & P4). unfold fits. rewrite forallb_app, Hsrev, length_packed_rev in *.
  assert (W4' : only_within base top s s4) by (eapply only_within_trans, only_within_mono, W4; [done|lia|lia]).
  assert (HU : length (upper args envs a) = (length (packed args) + length (packed envs) + 24)%nat) by (unfold upper; rewrite !length_app, X3, X4; lia).
  assert (HW : (0 < length (words top args envs a))%nat) by (rewrite length_words; lia).
  destruct (forallb short envs && (length (packed envs) <=? n - 24)%nat) eqn:F4; cycle 1.
  { rewrite P4. apply wp_ret. split; [done|]. rewrite (proj2 (andb_false_iff _ _)); [done|]. apply andb_false_iff in F4 as [->|F4%Nat.leb_gt]; [left; apply andb_false_r|right; apply Z.leb_gt; lia]. }
  apply andb_true_iff in F4 as [S4 F4%Nat.leb_le]. rewrite S4, andb_true_r. destruct P4 as [P4 C4]. rewrite P4, rev_involutive, app_nil_r in *.
  set (n4 := (n - 24 - length (packed envs))%nat) in *.
  apply wp_bind. eapply wp_mono; [apply (push_strings_wp base (rev args) n4); [done|lia|by apply Hrev|exact C4]|].
  intros w s5 (W5 & [sb5 E5] & P5). rewrite Hsrev, length_packed_rev in P5.
  assert (W5' : only_within base top s s5) by (eapply only_within_trans, only_within_mono, W5; [done|lia|lia]).
  destruct (forallb short args && (length (packed args) <=? n4)%nat) eqn:F5; cycle 1.
  { rewrite P5. apply wp_ret. split; [done|]. rewrite (proj2 (andb_false_iff _ _)); [done|]. apply andb_false_iff in F5 as [->|F5%Nat.leb_gt]; [by left|right; apply Z.leb_gt; lia]. }
  apply andb_true_iff in F5 as [S5 F5%Nat.leb_le]. rewrite S5. destruct P5 as [P5 C5]. rewrite P5, rev_involutive, app_nil_r in *. cbn [andb].
  assert (Ecur : base + Z.of_nat (n4 - length (packed args)) = top - Z.of_nat (length (upper args envs a))) by lia.
  assert (Eenv : base + Z.of_nat n4 = top - Z.of_nat (length (upper args envs a)) + Z.of_nat (length (packed args))) by lia.
  rewrite Ecur, Eenv. eapply wp_mono; [apply (finish_stack_wp s5 base top argc envc args envs a)|]; try done; try lia.
  - apply Z.mod_divide; [lia|]. apply Z.mod_divide in Hal as [q ->]; [|lia]. exists (q * 256). lia.
  - rewrite E5, E4. simpl. lia.
  - rewrite E5, E4. simpl. lia.
  - replace (Z.to_nat _) with (n4 - length (packed args))%nat by lia. unfold upper. by rewrite <- app_assoc in C5 || exact C5.
  - intros u s6 [W6 H6]. split; [by eapply only_within_trans|done].
Qed.

End stack.
End ElfStack.
