(* ===== verification/ElfLoad.v ===== *)
(** * Loading segments: the steps

    The places and contents of load segments, the calls of the address space
    as the loader makes them, and the undoing of a failed load. *)

From stdpp Require Import sorting.
From S2P Require Import Prelude Principal Services64 Process ProcessFacts PersonaBudget Paging VmaTree VmaSpace VmaGap Vma VmaFacts VmaOps VmaSteps VmaCalls VmaProtect VmaTheorems ElfParse ElfFacts Elf64 ElfMemory ElfStack.
Import ProcFacts VmaTree VmaSpace VmaGap Vma VmaFacts VmaSteps VmaCalls VmaProtect VmaTheorems ElfParse ElfFacts Elf64 ElfMemory ElfStack.
Local Open Scope Z_scope.
Local Open Scope kernel_scope.

Module ElfLoad.

(** ** Segments *)

(** The records the loader maps. *)
Definition loadable (ph : elf64_program_header_t) : bool := (p_type ph =? ELF64_PT_LOAD) && negb (p_memsz ph =? 0).
Definition segments (phdrs : list elf64_program_header_t) : list elf64_program_header_t := List.filter loadable phdrs.

Definition seg_at (bias : Z) (ph : elf64_program_header_t) : Z := add64 (p_vaddr ph) bias.
Definition seg_base (bias : Z) (ph : elf64_program_header_t) : Z := fst (segment_pages (seg_at bias ph) (p_memsz ph)).
Definition seg_len (bias : Z) (ph : elf64_program_header_t) : Z := snd (segment_pages (seg_at bias ph) (p_memsz ph)).

(** What the segment holds: the bytes of the file, then zeros. *)
Definition segment_image (data : list Z) (ph : elf64_program_header_t) : list Z :=
  source_bytes data (p_offset ph) (Z.to_nat (p_filesz ph)) ++ replicate (Z.to_nat (p_memsz ph - p_filesz ph)) 0.

(** The area of a loaded segment. *)
Record segment_area (bias : Z) (ph : elf64_program_header_t) (a : area) : Prop := {
  sa_base : a_base a = seg_base bias ph;
  sa_end : a_end a = seg_base bias ph + seg_len bias ph;
  sa_prot : a_prot a = elf64_vma_prot_from_flags (p_flags ph);
  sa_map : a_map a = load_flags;
  sa_type : a_type a = VMA64_BACKING_ANON
}.

(** The address of a byte of the segment. *)
Definition in_segment (bias : Z) (ph : elf64_program_header_t) (x : Z) : Prop :=
  seg_at bias ph <= x < seg_at bias ph + p_memsz ph.

(** The segment lies in whole pages of the address space. *)
Record seg_placed (bias : Z) (ph : elf64_program_header_t) : Prop := {
  sp_low : 0 <= seg_base bias ph <= seg_at bias ph;
  sp_high : seg_at bias ph + p_memsz ph <= seg_base bias ph + seg_len bias ph;
  sp_range : seg_base bias ph + seg_len bias ph < 2 ^ 64;
  sp_len : 0 < seg_len bias ph
}.

Lemma align_up64 v : 0 <= v < 2 ^ 64 -> elf64_align_up v VMA64_PAGE_BYTES = 0 \/ (v <= elf64_align_up v VMA64_PAGE_BYTES < 2 ^ 64).
Proof.
  intros Hv. unfold elf64_align_up, VMA64_PAGE_BYTES. change (sub64 0x1000 1) with (2 ^ 12 - 1).
  assert (E : sub64 (add64 v 4096) 1 = wrap64 (v + 4095)).
  { unfold sub64, add64, wrap64. rewrite Zminus_mod_idemp_l. f_equal. lia. }
  rewrite E, land_not64; [|lia|apply Z.mod_pos_bound; lia]. change (2 ^ 12) with 4096. unfold wrap64.
  destruct (Z.lt_ge_cases (v + 4095) (2 ^ 64)) as [H|H].
  - rewrite Z.mod_small by lia. right. dlia.
  - left. replace (v + 4095) with (v + 4095 - 2 ^ 64 + 1 * 2 ^ 64) by lia. rewrite Z_mod_plus_full, Z.mod_small, Z.div_small by lia. done.
Qed.

(** The guards of the loader leave a well-placed segment. *)
Lemma guards_placed bias ph : phdr_fits ph -> 0 <= bias < 2 ^ 64 -> p_memsz ph <> 0 ->
  (seg_at bias ph <? p_vaddr ph) || (add64 (seg_at bias ph) (p_memsz ph) <? seg_at bias ph) || (seg_len bias ph =? 0)
  || (add64 (seg_base bias ph) (seg_len bias ph) <? seg_base bias ph) = false -> seg_placed bias ph.
Proof.
  unfold phdr_fits, u32, ElfFacts.u64. intros (_ & _ & _ & Hv & _ & _ & Hm & _) Hb Hz. rewrite !orb_false_iff.
  intros [[[G1%Z.ltb_ge G2%Z.ltb_ge] G3%Z.eqb_neq] G4%Z.ltb_ge].
  assert (Hw : forall a b, 0 <= a < 2 ^ 64 -> 0 <= b < 2 ^ 64 -> a <= add64 a b -> add64 a b = a + b).
  { intros a b Ha Hb'. unfold add64, wrap64. destruct (Z.lt_ge_cases (a + b) (2 ^ 64)); [by rewrite Z.mod_small by lia|].
    replace (a + b) with (a + b - 2 ^ 64 + 1 * 2 ^ 64) by lia. rewrite Z_mod_plus_full, Z.mod_small by lia. lia. }
  unfold seg_len, seg_base, segment_pages in *. cbn [fst snd] in *. set (at1 := seg_at bias ph) in *.
  assert (H1 : 0 <= at1 < 2 ^ 64) by (unfold at1, seg_at; split; [apply add64_nonneg|apply add64_lt]).
  assert (Eb : elf64_align_down at1 VMA64_PAGE_BYTES = at1 / 4096 * 4096).
  { unfold elf64_align_down, VMA64_PAGE_BYTES. change (sub64 0x1000 1) with (2 ^ 12 - 1). by rewrite land_not64 by lia. }
  rewrite Eb in *. set (base := at1 / 4096 * 4096) in *. assert (Hbase : 0 <= base <= at1 /\ at1 < base + 4096) by (unfold base; dlia).
  pose proof (add64_nonneg at1 (p_memsz ph)). pose proof (add64_lt at1 (p_memsz ph)). rewrite (Hw at1) in * by lia.
  rewrite (sub64_small at1) in * by lia. rewrite (Hw (at1 - base)) in * by (try lia; rewrite add64_small by lia; lia).
  destruct (align_up64 (at1 - base + p_memsz ph)) as [?|Hup]; [lia|done|]. set (len := elf64_align_up _ _) in *.
  pose proof (add64_lt base len). rewrite (Hw base) in * by lia. 
  assert (E1 : seg_base bias ph = base) by exact Eb.
  assert (E2 : seg_len bias ph = len) by (unfold seg_len, segment_pages; cbn [snd]; fold at1; rewrite Eb, sub64_small, add64_small by lia; done).
  split; rewrite ?E1, ?E2; fold at1; lia.
Qed.

(** ** The calls *)

Section load.
Context {W E : Type} {paging : VmaPaging W} {launch : Process.LaunchEnv} {world : ElfWorld W E}.
Implicit Types (s : elf_state W E) (v : vma_state W) (p : Z) (l : list area).

Lemma on_vma_wp {A} (m : ST (vma_state W) A) s (Q : A -> elf_state W E -> Prop) :
  wp m (fun a v => Q a (s <| elf_vma := v |>)) (elf_vma s) -> wp (on_vma m) Q s.
Proof. unfold wp, on_vma. by destruct (m (elf_vma s)). Qed.

Lemma mappings_wf v p : vma_ok v -> areas_wf (mappings v p).
Proof. intros Hi. by apply areas_ok. Qed.

(** Two areas of a process that meet are the same. *)
Lemma wf_meet l a b : areas_wf l -> a ∈ l -> b ∈ l -> a_base a < a_end b -> a_base b < a_end a -> a = b.
Proof.
  intros [Hs _] Ha Hb H1 H2. apply list_elem_of_split in Ha as (l1 & l2 & ->). destruct (sorted_before _ _ _ Hs) as [S1 S2].
  apply elem_of_app in Hb as [Hb|[->|Hb]%elem_of_cons]; [|done|].
  - specialize (S1 b Hb). unfold before in S1. lia.
  - specialize (S2 b Hb). unfold before in S2. lia.
Qed.

Lemma wf_nodup l : areas_wf l -> NoDup l.
Proof.
  intros [Hs Hok]. induction Hs as [|a l Hs IH Hf]; constructor.
  - intros Hin. rewrite Forall_forall in Hf. specialize (Hf a Hin). specialize (Hok a ltac:(set_solver)). unfold before, area_ok in *. lia.
  - apply IH. intros x Hx. apply Hok. set_solver.
Qed.

(** The order of the areas is determined. *)
Lemma wf_perm l l' : areas_wf l -> areas_wf l' -> l ≡ₚ l' -> l = l'.
Proof.
  revert l'. induction l as [|a l IH]; intros l' Hw Hw' Hp; [by apply Permutation_nil in Hp|].
  destruct l' as [|b l']; [by apply Permutation_sym, Permutation_nil in Hp|].
  assert (a = b) as <-.
  { assert (Ha : a ∈ b :: l') by (rewrite <- Hp; set_solver). assert (Hb : b ∈ a :: l) by (rewrite Hp; set_solver).
    destruct Hw as [[_ Hf]%StronglySorted_inv Hok], Hw' as [[_ Hf']%StronglySorted_inv Hok']. rewrite Forall_forall in Hf, Hf'.
    apply elem_of_cons in Ha as [->|Ha]; [done|]. apply elem_of_cons in Hb as [->|Hb]; [done|].
    specialize (Hf b Hb). specialize (Hf' a Ha). specialize (Hok a ltac:(set_solver)). specialize (Hok' b ltac:(set_solver)).
    unfold before, area_ok in *. lia. }
  f_equal. destruct Hw as [[? ?]%StronglySorted_inv Hok], Hw' as [[? ?]%StronglySorted_inv Hok']. apply IH.
  - split; [done|]. intros x Hx. apply Hok. set_solver.
  - split; [done|]. intros x Hx. apply Hok'. set_solver.
  - by eapply Permutation_cons_inv.
Qed.

(** Mapping pages at a fixed address other than 0. *)
Lemma map_step v p base len prot : vma_ok v -> 0 < base < 2 ^ 64 -> 0 < len < 2 ^ 64 ->
  wp (vma64_map_anon p base len prot load_flags) (fun r v' => vma_ok v' /\ others_kept v v' p /\
    ((r = 0 /\ mappings v' p = mappings v p) \/
     (r = base /\ vma64_page_count_from_length len <> 0 /\ exists phys, phys <> 0 /\
        mappings v' p ≡ₚ anon_area base len phys prot load_flags :: mappings v p /\ vma64_range_valid base (add64 base len) = true /\
        forall x, x ∈ mappings v p -> vma64_ranges_overlap base (add64 base len) (a_base x) (a_end x) = false))) v.
Proof.
  intros Hi Hb Hl. pose proof (map_length v p base len prot load_flags) as Hc.
  pose proof (map_anon_wp (listed v) v p base len prot load_flags Hi ltac:(lia) ltac:(lia)) as H. unfold wp in *.
  destruct (vma64_map_anon p base len prot load_flags v) as [r v']. cbn [fst snd] in *.
  destruct H as (ls' & Hi' & _ & Ho & H). split; [by eapply ok_of|]. split; [by eapply others_of|].
  rewrite (mappings_eq ls' v' p) by done. destruct H as [H|(phys & Hp & ((A & B & E0 & E1) & H2 & H3) & H4 & _)]; [by left|].
  right. unfold chosen in H4. change (nz (Z.land load_flags VMA64_MAP_FIXED)) with true in H4. cbv iota in H4. subst r.
  split; [done|]. split; [apply Hc; lia|]. exists phys. split; [done|]. split; [|split; [exact H3|exact H2]].
  change (mappings v p) with (areas (listed v) v p). rewrite E1, E0. symmetry. apply Permutation_middle.
Qed.

(** Unmapping. *)
Lemma unmap_step v p base len : vma_ok v ->
  wp (vma64_unmap p base len) (fun r v' => vma_ok v' /\ others_kept v v' p /\
    ((~ unmappable (mappings v p) base len /\ mappings v' p = mappings v p) \/
     exists a, mappings v p ≡ₚ a :: mappings v' p /\ a_base a = base)) v.
Proof.
  intros Hi. pose proof (unmap_wp (listed v) v p base len Hi) as H. unfold wp in *.
  destruct (vma64_unmap p base len v) as [r v']. cbn [fst snd] in *. destruct H as (ls' & Hi' & _ & Ho & H).
  split; [by eapply ok_of|]. split; [by eapply others_of|]. rewrite (mappings_eq ls' v' p) by done.
  destruct H as [(_ & H)|(_ & _ & A & a & B & E1 & E2 & E3 & _)]; [by left|]. right. exists a. split; [|done].
  change (mappings v p) with (areas (listed v) v p). rewrite E1, E2. symmetry. apply Permutation_middle.
Qed.

(** Protecting exactly one whole area. *)
Lemma protect_step v p base len prot a l : vma_ok v -> 0 <= base < 2 ^ 64 -> 0 <= len < 2 ^ 64 ->
  mappings v p ≡ₚ a :: l -> a_base a = base -> a_end a = add64 base len ->
  wp (vma64_protect p base len prot) (fun r v' => vma_ok v' /\ others_kept v v' p /\ exists D, mappings v' p ≡ₚ D ++ l /\
    (r = 1 /\ D = [middle_piece a base (add64 base len) prot] \/
     r = 0 /\ (D = [a] \/ D `prefix_of` [middle_piece a base (add64 base len) prot]))) v.
Proof.
  intros Hi Hb Hl Hp Eb Ee. pose proof (protect_wp (listed v) v p base len prot Hi Hb Hl) as H. unfold wp in *.
  destruct (vma64_protect p base len prot v) as [r v']. cbn [fst snd] in *. destruct H as (ls' & [Hi' Ho] & H).
  split; [by eapply ok_of|]. split; [by eapply others_of|]. rewrite (mappings_eq ls' v' p) by done.
  change (areas (listed v) v p) with (mappings v p) in H.
  destruct H as [[-> H]|(A & old & B & D & E0 & H1 & H2 & H3 & E1 & HD & Hv)]; [exists [a]; rewrite H; eauto|].
  assert (old = a) as ->.
  { apply (wf_meet (mappings v p)); [by apply mappings_wf|rewrite E0; set_solver|rewrite Hp; set_solver|lia|lia]. }
  assert (Ep : pieces a base (add64 base len) prot = [middle_piece a base (add64 base len) prot]).
  { unfold pieces, prefix_piece, suffix_piece. rewrite (proj2 (Z.ltb_ge _ _)), (proj2 (Z.ltb_ge _ _)) by lia. done. }
  rewrite Ep in *. exists D. split.
  - rewrite E1. rewrite E0, <- Permutation_middle in Hp. apply Permutation_cons_inv in Hp. rewrite <- Hp.
    rewrite !(app_assoc), (Permutation_app_comm A D). done.
  - destruct Hv as [->|[-> ->]]; [right; split; [done|by right]|by left].
Qed.

(** ** Undoing *)

Definition same_others s s' p : Prop := others_kept (elf_vma s) (elf_vma s') p /\ elf_env s' = elf_env s /\ user_memory s' = user_memory s.

(** An area of a recorded segment. *)
Definition recorded (mapped : list (Z * Z)) (a : area) : Prop :=
  a_type a = VMA64_BACKING_ANON /\ exists len, (a_base a, len) ∈ mapped /\ a_end a = add64 (a_base a) len.

Definition record_ok l (m : Z * Z) : Prop :=
  0 < fst m /\ vma64_page_count_from_length (snd m) <> 0 /\ Z.land (fst m) (VMA64_PAGE_BYTES - 1) = 0 /\
  fst m <= add64 (fst m) (snd m) /\ forall x, x ∈ l -> a_base x <> fst m.

Lemma undo_segments_wp mapped : forall s p l rest, vma_ok (elf_vma s) -> mappings (elf_vma s) p ≡ₚ l ++ rest ->
  Forall (record_ok l) mapped -> Forall (fun a => a_phys a = 0 \/ recorded mapped a) rest ->
  wp (elf64_unmap_recorded_segments p mapped) (fun _ s' => vma_ok (elf_vma s') /\ same_others s s' p /\
    exists left, mappings (elf_vma s') p ≡ₚ l ++ left /\ Forall (fun a => a_phys a = 0) left /\ left ⊆ rest) s.
Proof.
  induction mapped as [|[base len] mapped IH]; intros s p l rest Hi Hp Hm Hr; cbn [elf64_unmap_recorded_segments].
  { apply wp_ret. split; [done|]. split; [done|]. exists rest. split; [done|]. split; [|done]. eapply Forall_impl; [exact Hr|].
    intros a [?|(_ & ln & Hin & _)]; [done|]. set_solver. }
  apply Forall_cons in Hm as [(M1 & M2 & M3 & M4 & M5) Hm]. cbn [fst snd] in *.
  assert (Hlen : nz len = true) by (apply nz_true; intros ->; by apply M2). rewrite (proj2 (nz_true base)), Hlen by lia. cbn [andb].
  apply wp_bind, wp_bind, on_vma_wp. eapply wp_mono; [by apply unmap_step|]. intros r v' (Hi' & Ho & H). apply wp_ret.
  set (s1 := s <| elf_vma := v' |>). assert (Hs1 : same_others s s1 p) by (split_and!; done).
  assert (Hdone : forall rest', rest' ⊆ rest -> mappings v' p ≡ₚ l ++ rest' -> Forall (fun a => a_phys a = 0 \/ recorded mapped a) rest' ->
    wp (elf64_unmap_recorded_segments p mapped) (fun _ s' => vma_ok (elf_vma s') /\ same_others s s' p /\
      exists left, mappings (elf_vma s') p ≡ₚ l ++ left /\ Forall (fun a => a_phys a = 0) left /\ left ⊆ rest) s1).
  { intros rest' Hsub Hp' Hr'. eapply wp_mono; [by apply (IH s1 p l rest')|]. intros _ s' (Hi2 & (O1 & O2 & O3) & left & L1 & L2 & L3).
    split; [done|]. split; [|exists left; split_and!; [done|done|by transitivity rest']]. destruct Hs1 as (Q1 & Q2 & Q3). split_and!; [|congruence|congruence]. intros q Hq. by rewrite O1, Q1. }
  destruct H as [[Hno E0]|(a & Ha & Eb)].
  - apply (Hdone rest); [done|by rewrite E0|]. rewrite Forall_forall in Hr |- *. intros a Hin.
    destruct (Hr a Hin) as [?|(Ht & ln & [Heq|Hmem]%elem_of_cons & He)]; [by left| |by right; split; [|exists ln]]. left.
    injection Heq as Eb ->. destruct (decide (a_phys a = 0)); [done|]. exfalso. apply Hno. split_and!; try done.
    exists a. split_and!; try done; [rewrite Hp; set_solver|by rewrite He, Eb].
  - assert (Hin : a ∈ l ++ rest) by (rewrite <- Hp, Ha; set_solver). apply elem_of_app in Hin as [Hin|Hin]; [by destruct (M5 a Hin)|].
    apply list_elem_of_split in Hin as (r1 & r2 & ->). apply (Hdone (r1 ++ r2)).
    + set_solver.
    + rewrite Ha, <- Permutation_middle in Hp. rewrite app_comm_cons, (Permutation_app_comm l), <- app_assoc in Hp. simpl in Hp.
      apply Permutation_cons_inv in Hp. rewrite Hp. rewrite app_assoc, Permutation_app_comm. done.
    + assert (Hnd : forall x, x ∈ r1 ++ r2 -> a_base x <> base).
      { intros x Hx E1. pose proof (mappings_wf _ p Hi) as Hw. pose proof (wf_nodup _ Hw) as Hd. rewrite Hp in Hd.
        assert (Hxa : x = a); [|subst x; apply NoDup_app in Hd as (_ & _ & Hd); apply NoDup_app in Hd as (_ & Hd1 & Hd2);
          apply NoDup_cons in Hd2 as [Hd2 _]; apply elem_of_app in Hx as [Hx|Hx]; [by destruct (Hd1 a Hx ltac:(set_solver))|done]].
        assert (Hx' : x ∈ mappings (elf_vma s) p) by (rewrite Hp; set_solver). assert (Ha' : a ∈ mappings (elf_vma s) p) by (rewrite Ha; set_solver).
        pose proof (proj2 Hw x Hx') as O1. pose proof (proj2 Hw a Ha') as O2. unfold area_ok in *.
        eapply wf_meet; [exact Hw|done|done|lia|lia]. }
      rewrite Forall_forall in Hr |- *. intros x Hx. specialize (Hnd x Hx).
      destruct (Hr x ltac:(set_solver)) as [?|(Ht & ln & [Heq|Hmem]%elem_of_cons & He)]; [by left|congruence|].
      right. split; [done|]. by exists ln.
Qed.

End load.
End ElfLoad.
