(* ===== verification/ElfSegments.v ===== *)
(** * Loading segments: the whole loop

    What a successful load leaves in the address space and in memory, and
    what a failed one leaves behind. *)

From S2P Require Import Prelude Principal Services64 Process ProcessFacts PersonaBudget Paging VmaTree VmaSpace VmaGap Vma VmaFacts VmaSteps VmaCalls VmaProtect VmaTheorems ElfParse ElfFacts Elf64 ElfMemory ElfStack ElfLoad.
Import ProcFacts VmaTree VmaSpace VmaGap Vma VmaFacts VmaSteps VmaCalls VmaProtect VmaTheorems ElfParse ElfFacts Elf64 ElfMemory ElfStack ElfLoad.
Local Open Scope Z_scope.
Local Open Scope kernel_scope.

Module ElfSegments.

Definition records (bias : Z) (phs : list elf64_program_header_t) : list (Z * Z) := (fun ph => (seg_base bias ph, seg_len bias ph)) <$> phs.

Lemma records_app bias l1 l2 : records bias (l1 ++ l2) = records bias l1 ++ records bias l2.
Proof. apply fmap_app. Qed.

(** The bytes copied for the segments, one after the other. *)
Definition file_bytes (data : list Z) (phs : list elf64_program_header_t) : list Z :=
  concat ((fun ph => source_bytes data (p_offset ph) (Z.to_nat (p_filesz ph))) <$> phs).

(** The part of the file a segment is loaded from. *)
Definition in_file (size : Z) (ph : elf64_program_header_t) : Prop := 0 <= p_filesz ph <= p_memsz ph /\ p_offset ph + p_filesz ph <= size.

(** What the caller is told of the segments [phs]. *)
Record load_reported (data : list Z) (phs : list elf64_program_header_t) (r : elf64_load_result_t) : Prop := {
  lr_count : mapped_count r = wrap32 (Z.of_nat (length phs));
  lr_source : source_checksum r = elf64_checksum_bytes (file_bytes data phs);
  lr_mapped : mapped_checksum r = source_checksum r;
  lr_bss : bss_nonzero_count r = 0
}.

Section segments.
Context {W E : Type} {paging : VmaPaging W} {launch : Process.LaunchEnv} {world : ElfWorld W E}.
Implicit Types (s : elf_state W E) (p : Z).

(** The segments [phs] have been loaded since [s0]. *)
Record loaded (s0 : elf_state W E) p bias data size (phs : list elf64_program_header_t) (added : list area) s : Prop := {
  ld_ok : vma_ok (elf_vma s);
  ld_others : others_kept (elf_vma s0) (elf_vma s) p;
  ld_env : elf_env s = elf_env s0;
  ld_map : mappings (elf_vma s) p ≡ₚ mappings (elf_vma s0) p ++ added;
  ld_areas : Forall2 (segment_area bias) phs added;
  ld_fresh : Forall (record_ok (mappings (elf_vma s0) p)) (records bias phs);
  ld_placed : Forall (seg_placed bias) phs;
  ld_file : Forall (in_file size) phs;
  ld_bytes : Forall (fun ph => in_memory s (seg_at bias ph) (segment_image data ph)) phs;
  ld_frame : forall x, Forall (fun ph => ~ in_segment bias ph x) phs -> load_byte x s = load_byte x s0
}.

(** A load of segments among [phs] has failed since [s0].  What is left of it
    are areas of those segments that carry the physical address 0. *)
Record load_failed (s0 : elf_state W E) p bias (phs : list elf64_program_header_t) s : Prop := {
  lf_ok : vma_ok (elf_vma s);
  lf_others : others_kept (elf_vma s0) (elf_vma s) p;
  lf_env : elf_env s = elf_env s0;
  lf_map : exists left, mappings (elf_vma s) p ≡ₚ mappings (elf_vma s0) p ++ left /\
    Forall (fun a => a_phys a = 0 /\ recorded (records bias phs) a) left;
  lf_frame : forall x, Forall (fun ph => ~ in_segment bias ph x) phs -> load_byte x s = load_byte x s0
}.

(** ** One segment *)

Lemma length_segment_image data ph : 0 <= p_filesz ph <= p_memsz ph -> Z.of_nat (length (segment_image data ph)) = p_memsz ph.
Proof. intros H. unfold segment_image, source_bytes. rewrite length_app, length_fmap, length_seq, length_replicate. lia. Qed.

Lemma fill_run data ph bias r s : phdr_fits ph -> p_filesz ph <= p_memsz ph -> seg_placed bias ph ->
  exists r', fill_segment data ph (seg_at bias ph) r s = (r', with_bytes (seg_at bias ph) (segment_image data ph) s) /\
    let bs := source_bytes data (p_offset ph) (Z.to_nat (p_filesz ph)) in
    r' = r <| source_checksum := fold_left elf64_mix_checksum bs (source_checksum r) |>
           <| mapped_checksum := fold_left elf64_mix_checksum bs (mapped_checksum r) |>
           <| bss_nonzero_count := add32 (bss_nonzero_count r) 0 |>.
Proof.
  unfold phdr_fits, u32, ElfFacts.u64. intros (_ & _ & _ & _ & _ & Hf & Hm & _) Hfm [P1 P2 P3 P4].
  eexists. split; [|reflexivity]. unfold fill_segment, bind. rewrite copy_to_user_run. cbn [fst snd]. rewrite zero_bss_run. cbn [fst snd].
  rewrite add64_small, sub64_small by lia. unfold ret. f_equal. unfold segment_image, with_bytes. rewrite written_app.
  unfold source_bytes. rewrite length_fmap, length_seq, Z2Nat.id by lia. by destruct s.
Qed.

Lemma disjoint_pages b e b' e' : vma64_ranges_overlap b e b' e' = false -> e' <= b \/ e <= b'.
Proof. unfold vma64_ranges_overlap. intros [H%Z.ltb_ge|H%Z.ltb_ge]%andb_false_iff; lia. Qed.

Lemma range_valid_iff b e : vma64_range_valid b e = true -> b < e /\ Z.land b (VMA64_PAGE_BYTES - 1) = 0.
Proof.
  unfold vma64_range_valid. intros H%negb_true_iff. rewrite !orb_false_iff in H. destruct H as [[H1%Z.leb_gt H2] _].
  apply nz_false in H2. done.
Qed.

(** The loaded segments after a store to pages that were free. *)
Lemma loaded_write s0 p bias data size phs added s ph : loaded s0 p bias data size phs added s ->
  0 <= p_filesz ph <= p_memsz ph -> seg_placed bias ph ->
  (forall x, x ∈ mappings (elf_vma s) p -> vma64_ranges_overlap (seg_base bias ph) (seg_base bias ph + seg_len bias ph) (a_base x) (a_end x) = false) ->
  let s' := with_bytes (seg_at bias ph) (segment_image data ph) s in
  Forall (fun ph => in_memory s' (seg_at bias ph) (segment_image data ph)) (phs ++ [ph]) /\
  forall x, Forall (fun ph => ~ in_segment bias ph x) (phs ++ [ph]) -> load_byte x s' = load_byte x s0.
Proof.
  intros L Hf [P1 P2 P3 P4] Hov s'. pose proof (with_bytes_within (seg_at bias ph) (segment_image data ph) s) as Hw.
  rewrite length_segment_image in Hw by done. split.
  - apply Forall_app. split; [|constructor; [apply with_bytes_there|constructor]]. pose proof (ld_bytes _ _ _ _ _ _ _ _ L) as Hb.
    rewrite Forall_forall in Hb |- *. intros ph' Hin. eapply in_memory_kept; [exact Hw| |by apply Hb].
    pose proof (ld_placed _ _ _ _ _ _ _ _ L) as Hp. pose proof (ld_file _ _ _ _ _ _ _ _ L) as Hfl. rewrite Forall_forall in Hp, Hfl.
    destruct (Hp ph' Hin) as [R1 R2 R3 R4]. destruct (Hfl ph' Hin) as [F1 _].
    apply list_elem_of_lookup in Hin as (i & Hi). destruct (Forall2_lookup_l _ _ _ _ _ (ld_areas _ _ _ _ _ _ _ _ L) Hi) as (a & Ha & [A1 A2 _ _ _]).
    specialize (Hov a). rewrite (ld_map _ _ _ _ _ _ _ _ L) in Hov. apply list_elem_of_lookup_2 in Ha.
    specialize (Hov ltac:(set_solver)). apply disjoint_pages in Hov. rewrite A1, A2 in Hov.
    rewrite length_segment_image by done. lia.
  - intros x [Hx1 Hx2]%Forall_app. apply Forall_inv in Hx2. destruct Hw as (_ & _ & Hw). unfold s'. rewrite Hw by exact Hx2.
    by apply (ld_frame _ _ _ _ _ _ _ _ L).
Qed.

(** ** Failure *)

Definition load_error (s0 : elf_state W E) p bias all (v : Z * elf64_load_result_t) s : Prop :=
  fst v = ELF64_DENIED /\ lr_error (snd v) <> ELF64_ERROR_NONE /\ load_failed s0 p bias all s.

Lemma records_subset bias phs all : phs ⊆ all -> records bias phs ⊆ records bias all.
Proof. intros H m (ph & -> & Hin)%list_elem_of_fmap. apply list_elem_of_fmap. exists ph. split; [done|by apply H]. Qed.

Lemma denied_wp s0 p bias all s mapped rest r e :
  e <> ELF64_ERROR_NONE -> vma_ok (elf_vma s) -> others_kept (elf_vma s0) (elf_vma s) p -> elf_env s = elf_env s0 ->
  mappings (elf_vma s) p ≡ₚ mappings (elf_vma s0) p ++ rest -> Forall (record_ok (mappings (elf_vma s0) p)) mapped ->
  Forall (recorded mapped) rest -> mapped ⊆ records bias all ->
  (forall x, Forall (fun ph => ~ in_segment bias ph x) all -> load_byte x s = load_byte x s0) ->
  wp (load_denied p mapped r e) (load_error s0 p bias all) s.
Proof.
  intros He Hi Ho Hv Hp Hm Hr Hsub Hf. unfold load_denied. apply wp_bind. eapply wp_mono.
  { apply (undo_segments_wp mapped s p (mappings (elf_vma s0) p) rest); try done. eapply Forall_impl; [exact Hr|]. by right. }
  intros _ s' (Hi' & (O1 & O2 & O3) & left & L1 & L2 & L3). apply wp_ret. split; [done|]. split; [done|]. split; [done| |congruence| |].
  - intros q Hq. by rewrite O1, Ho.
  - exists left. split; [done|]. rewrite Forall_forall in Hr, L2 |- *. intros a Ha. split; [by apply L2|].
    destruct (Hr a (L3 a Ha)) as (Ht & len & Hin & He'). split; [done|]. exists len. split; [by apply Hsub|done].
  - intros x Hx. rewrite <- Hf by done. unfold load_byte. by rewrite O3.
Qed.

Lemma recorded_areas bias phs added : Forall2 (segment_area bias) phs added -> Forall (seg_placed bias) phs -> Forall (recorded (records bias phs)) added.
Proof.
  intros Ha Hp. rewrite Forall_forall. intros a Hin. apply list_elem_of_lookup in Hin as (i & Hi).
  destruct (Forall2_lookup_r _ _ _ _ _ Ha Hi) as (ph & Hph & [A1 A2 _ _ A5]). split; [done|]. exists (seg_len bias ph). apply list_elem_of_lookup_2 in Hph.
  rewrite Forall_forall in Hp. destruct (Hp ph Hph) as [P1 P2 P3 P4]. split; [|by rewrite A1, A2, add64_small by lia].
  rewrite A1. unfold records. apply list_elem_of_fmap. by exists ph.
Qed.

Lemma recorded_app m1 m2 a : recorded m1 a \/ recorded m2 a -> recorded (m1 ++ m2) a.
Proof. intros [(H1 & n & H2 & H3)|(H1 & n & H2 & H3)]; (split; [done|]; exists n; split; [|done]); apply elem_of_app; auto. Qed.

Lemma recorded_one bias ph a : a_type a = VMA64_BACKING_ANON -> a_base a = seg_base bias ph -> a_end a = add64 (seg_base bias ph) (seg_len bias ph) ->
  recorded (records bias [ph]) a.
Proof. intros H1 H2 H3. split; [done|]. exists (seg_len bias ph). rewrite H2. split; [by left|done]. Qed.

Lemma loaded_denied s0 p bias data size phs added all s r e : e <> ELF64_ERROR_NONE -> loaded s0 p bias data size phs added s -> phs ⊆ all ->
  wp (load_denied p (records bias phs) r e) (load_error s0 p bias all) s.
Proof.
  intros He L Hsub. eapply (denied_wp _ _ _ _ _ _ added); [done|apply L|apply L|apply L|apply L|apply L| | |].
  - apply (recorded_areas bias phs); apply L.
  - by apply records_subset.
  - intros x Hx. apply (ld_frame _ _ _ _ _ _ _ _ L). rewrite Forall_forall in Hx |- *. auto.
Qed.

(** ** The loop *)

(** What one more segment adds to the report. *)
Lemma count_reported data phs ph bias r r' : load_reported data phs r ->
  (let bs := source_bytes data (p_offset ph) (Z.to_nat (p_filesz ph)) in
   r' = r <| source_checksum := fold_left elf64_mix_checksum bs (source_checksum r) |>
          <| mapped_checksum := fold_left elf64_mix_checksum bs (mapped_checksum r) |>
          <| bss_nonzero_count := add32 (bss_nonzero_count r) 0 |>) ->
  load_reported data (phs ++ [ph]) (count_segment ph (seg_base bias ph) (seg_len bias ph) r').
Proof.
  intros [R1 R2 R3 R4] ->. unfold count_segment. cbn [mapped_count].
  assert (Hc : inc32 (wrap32 (Z.of_nat (length phs))) = wrap32 (Z.of_nat (length (phs ++ [ph])))).
  { unfold inc32, add32, wrap32. rewrite Zplus_mod_idemp_l, length_app. f_equal. simpl. lia. }
  assert (Hs : elf64_checksum_bytes (file_bytes data (phs ++ [ph])) =
    fold_left elf64_mix_checksum (source_bytes data (p_offset ph) (Z.to_nat (p_filesz ph))) (source_checksum r)).
  { rewrite R2. unfold elf64_checksum_bytes, file_bytes. rewrite fmap_app, concat_app, fold_left_app. cbn [fmap list_fmap concat]. by rewrite app_nil_r. }
  repeat case_match; split; simpl in *; rewrite ?R1, ?Hc, ?Hs, ?R3, ?R4 in *; try done.
Qed.

(** Mapping, filling and protecting the pages of a segment that passed the
    checks. *)
Lemma map_segment_wp s0 p bias data size phs added all s ph r (k : elf64_load_result_t -> ST (elf_state W E) (Z * elf64_load_result_t)) Q :
  phdr_fits ph -> 0 < seg_base bias ph -> p_memsz ph <> 0 -> in_file size ph -> seg_placed bias ph ->
  loaded s0 p bias data size phs added s -> load_reported data phs r -> phs ⊆ all -> ph ∈ all ->
  (forall v s', load_error s0 p bias all v s' -> Q v s') ->
  (forall r' added' s', loaded s0 p bias data size (phs ++ [ph]) added' s' ->
     load_reported data (phs ++ [ph]) (count_segment ph (seg_base bias ph) (seg_len bias ph) r') ->
     wp (k r') Q s') ->
  wp (v <- on_vma (vma64_map_anon p (seg_base bias ph) (seg_len bias ph) load_prot load_flags) ;;
      if negb (v =? seg_base bias ph) then load_denied p (records bias phs) r ELF64_ERROR_LOAD_MAP
      else
        r <- fill_segment data ph (seg_at bias ph) r ;;
        ok <- on_vma (vma64_protect p (seg_base bias ph) (seg_len bias ph) (elf64_vma_prot_from_flags (p_flags ph))) ;;
        if ok =? 0 then load_denied p (records bias phs ++ [(seg_base bias ph, seg_len bias ph)]) r ELF64_ERROR_LOAD_PROTECT
        else k r) Q s.
Proof.
  intros Hfit Hlow Hmem Hfile Hpl L R Hsub Hin Hno Hyes. pose proof Hpl as [P1 P2 P3 P4]. pose proof Hfile as [F1 _].
  apply wp_bind, on_vma_wp. eapply wp_mono; [apply (map_step (elf_vma s) p); [apply L|lia|lia]|].
  intros v w1 (Hi1 & Ho1 & H). destruct H as [[-> Hsame]|(-> & Hcount & phys & Hphys & Hp1 & Hvalid & Hover)].
  { rewrite (proj2 (Z.eqb_neq 0 _)) by lia. cbn [negb]. eapply wp_mono; [|exact Hno].
    eapply (loaded_denied _ _ _ _ _ phs added); [done| |done]. destruct L as [L1 L2 L3 L4 L5 L6 L7 L8 L9 L10].
    split; try done; [intros q Hq; by rewrite Ho1, L2|by simpl; rewrite Hsame]. }
  rewrite Z.eqb_refl. cbn [negb]. rewrite (add64_small (seg_base bias ph)) in * by lia. apply wp_bind.
  destruct (fill_run data ph bias r (s <| elf_vma := w1 |>) Hfit (proj2 F1) Hpl) as (r' & Efill & Er). unfold wp at 1. rewrite Efill. cbn [fst snd].
  destruct (loaded_write s0 p bias data size phs added s ph L F1 Hpl Hover) as [Wb Wf].
  set (a := anon_area (seg_base bias ph) (seg_len bias ph) phys load_prot load_flags) in *.
  assert (Ea : a_base a = seg_base bias ph /\ a_end a = seg_base bias ph + seg_len bias ph /\ a_type a = VMA64_BACKING_ANON /\ a_map a = load_flags)
    by (split_and!; [done|apply (add64_small (seg_base bias ph) (seg_len bias ph)); lia|done|done]). destruct Ea as (Ea1 & Ea2 & Ea3 & Ea4).
  assert (Hfresh : Forall (record_ok (mappings (elf_vma s0) p)) (records bias (phs ++ [ph]))).
  { rewrite records_app. apply Forall_app. split; [apply L|]. constructor; [|constructor].
    apply range_valid_iff in Hvalid as [V1 V2]. split_and!; cbn [fst snd]; [lia|done|done|rewrite add64_small by lia; lia|].
    intros x Hx E1. cbn [fst] in E1. pose proof (mappings_wf _ p (ld_ok _ _ _ _ _ _ _ _ L)) as Hwf.
    assert (Hx' : x ∈ mappings (elf_vma s) p) by (rewrite (ld_map _ _ _ _ _ _ _ _ L); set_solver).
    pose proof (proj2 Hwf x Hx') as Hokx. unfold area_ok in Hokx. specialize (Hover x Hx'). apply disjoint_pages in Hover. lia. }
  apply wp_bind, on_vma_wp. eapply wp_mono.
  { apply (protect_step w1 p (seg_base bias ph) (seg_len bias ph) _ a (mappings (elf_vma s) p)); [done|lia|lia|exact Hp1|done|by rewrite add64_small by lia]. }
  intros ok w2 (Hi2 & Ho2 & D & Hp2 & HD).
  assert (Ho : others_kept (elf_vma s0) w2 p) by (intros q Hq; by rewrite Ho2, Ho1, (ld_others _ _ _ _ _ _ _ _ L)).
  assert (Hp : mappings w2 p ≡ₚ mappings (elf_vma s0) p ++ (added ++ D)).
  { rewrite Hp2, (ld_map _ _ _ _ _ _ _ _ L), Permutation_app_comm. by rewrite app_assoc. }
  assert (Hmid : forall pr, segment_area bias ph (middle_piece a (seg_base bias ph) (add64 (seg_base bias ph) (seg_len bias ph)) pr) <->
    pr = elf64_vma_prot_from_flags (p_flags ph)).
  { intros pr. rewrite add64_small by lia. split; [by intros [_ _ ? _ _]|]. by intros ->. }
  destruct HD as [[-> ->]|[-> HD]]; cbn [Z.eqb].
  - apply (Hyes _ (added ++ [middle_piece a (seg_base bias ph) (add64 (seg_base bias ph) (seg_len bias ph)) (elf64_vma_prot_from_flags (p_flags ph))])); [|by eapply count_reported].
    split; try done; [apply L| | | |exact Wf..].
    + apply Forall2_app; [apply L|]. constructor; [by apply Hmid|constructor].
    + apply Forall_app. split; [apply L|by constructor].
    + apply Forall_app. split; [apply L|by constructor].
  - eapply wp_mono; [|exact Hno]. change (records bias phs ++ [(seg_base bias ph, seg_len bias ph)]) with (records bias phs ++ records bias [ph]).
    rewrite <- records_app.
    eapply (denied_wp _ _ _ _ _ _ (added ++ D)); [done|done|exact Ho|apply L|exact Hp|exact Hfresh| | |].
    + rewrite records_app. apply Forall_app. split.
      * eapply Forall_impl; [apply (recorded_areas bias phs); apply L|]. intros b Hb. apply recorded_app. by left.
      * rewrite Forall_forall. intros b Hb. apply recorded_app. right. destruct HD as [->|HD].
        { apply list_elem_of_singleton in Hb as ->. by apply recorded_one; [..|rewrite add64_small by lia]. }
        eapply elem_of_prefix in Hb; [|exact HD]. apply list_elem_of_singleton in Hb as ->. by apply recorded_one.
    + apply records_subset. set_solver.
    + intros x Hx. apply Wf. rewrite Forall_forall in Hx |- *. intros y [Hy|Hy%list_elem_of_singleton]%elem_of_app; [by apply Hx, Hsub|subst y; by apply Hx].
Qed.

(** The outcome of loading [all]. *)
Definition load_done (s0 : elf_state W E) p bias data size all (v : Z * elf64_load_result_t) s : Prop :=
  (fst v = ELF64_OK /\ lr_error (snd v) = ELF64_ERROR_NONE /\ load_reported data all (snd v) /\
   exists added, loaded s0 p bias data size all added s) \/
  load_error s0 p bias all v s.

Lemma reported_error data phs r : load_reported data phs r -> load_reported data phs (elf64_set_load_error r ELF64_ERROR_NONE).
Proof. intros [R1 R2 R3 R4]. by split. Qed.

Lemma segment_loop_wp p bias data size : 0 <= bias < 2 ^ 64 -> forall phdrs s0 s phs added r,
  Forall phdr_fits phdrs -> Forall (fun ph => loadable ph = true -> 0 < seg_base bias ph) phdrs ->
  loaded s0 p bias data size phs added s -> load_reported data phs r ->
  wp (segment_loop p data size bias phdrs (records bias phs) r) (load_done s0 p bias data size (phs ++ segments phdrs)) s.
Proof.
  intros Hbias. induction phdrs as [|ph phdrs IH]; intros s0 s phs added r Hfit Hlow L R; cbn [segment_loop].
  { apply wp_ret. left. unfold segments. simpl. rewrite app_nil_r. split_and!; [done|done|by apply reported_error|by exists added]. }
  apply Forall_cons in Hfit as [Hf Hfit]. apply Forall_cons in Hlow as [Hl Hlow]. unfold segments. cbn [List.filter]. fold (segments phdrs).
  destruct (loadable ph) eqn:Hld; cycle 1.
  { unfold loadable in Hld. rewrite <- (negb_involutive (p_type ph =? ELF64_PT_LOAD)), <- negb_orb, negb_false_iff in Hld.
    rewrite Hld. by apply (IH s0 s phs added). }
  specialize (Hl eq_refl). unfold loadable in Hld. apply andb_true_iff in Hld as [T1 T2]. rewrite T1. cbn [negb orb].
  apply negb_true_iff, Z.eqb_neq in T2. rewrite (proj2 (Z.eqb_neq _ 0) T2).
  set (all := phs ++ ph :: segments phdrs). assert (Hsub : phs ⊆ all) by (unfold all; set_solver).
  assert (Hin : ph ∈ all) by (unfold all; set_solver).
  assert (Hno : forall m s', wp m (load_error s0 p bias all) s' -> wp m (load_done s0 p bias data size all) s').
  { intros m s' H. eapply wp_mono; [exact H|]. intros v s'' Hv. by right. }
  unfold phdr_fits, u32, ElfFacts.u64 in Hf. pose proof Hf as (_ & _ & Ho & _ & _ & Hfs & _ & _). change (phdr_fits ph) in Hf.
  pose proof (range_available_iff size (p_offset ph) (p_filesz ph) ltac:(lia)) as Hr.
  destruct (Z.ltb_spec (p_memsz ph) (p_filesz ph)) as [|Hfm]; cbn [orb]; [apply Hno; by apply (loaded_denied s0 p bias data size phs added)|].
  destruct (elf64_range_available size (p_offset ph) (p_filesz ph)); cbn [negb]; [|apply Hno; by apply (loaded_denied s0 p bias data size phs added)].
  fold (seg_at bias ph). fold (seg_base bias ph). fold (seg_len bias ph). destruct (_ || _ || _ || _) eqn:Eg; [apply Hno; by apply (loaded_denied s0 p bias data size phs added)|].
  pose proof (guards_placed bias ph Hf Hbias T2 Eg) as Hpl.
  case_match; [apply Hno; by apply (loaded_denied s0 p bias data size phs added)|].
  apply (map_segment_wp s0 p bias data size phs added all); try done.
  - split; [lia|by apply Hr].
  - intros v s' Hv. by right.
  - intros r' added' s' L' R'. change (records bias phs ++ [(seg_base bias ph, seg_len bias ph)]) with (records bias phs ++ records bias [ph]).
    rewrite <- records_app. unfold all. change (ph :: segments phdrs) with ([ph] ++ segments phdrs). rewrite app_assoc. by apply (IH s0 s' (phs ++ [ph]) added').
Qed.

Lemma map_load_segments_wp s p bias data size phdrs count :
  vma_ok (elf_vma s) -> 0 <= bias < 2 ^ 64 -> count <= Z.of_nat ELF64_MAX_PROGRAM_HEADERS -> let phs := take (Z.to_nat count) phdrs in
  Forall phdr_fits phs -> Forall (fun ph => loadable ph = true -> 0 < seg_base bias ph) phs ->
  wp (elf64_map_load_segments p phdrs count data size bias) (load_done s p bias data size (segments phs)) s.
Proof.
  intros Hi Hb Hc phs Hf Hl. unfold elf64_map_load_segments. rewrite (proj2 (Z.ltb_ge _ _)) by done.
  apply (segment_loop_wp p bias data size Hb phs s s [] []); [done|done| |done].
  split; try done. by rewrite app_nil_r.
Qed.

End segments.
End ElfSegments.
