(* ===== verification/ElfTheorems.v ===== *)
(** * Theorems about the ELF loader

    The properties of elf64.c: the parser reads only the image and accepts
    exactly the encodings it should, a load gives each segment its area and
    its bytes or leaves no mapping behind, and the initial stack is the one
    of the System V ABI. *)

From S2P Require Import Prelude Principal Services64 Process ProcessFacts ProcessTheorems PersonaBudget Paging PagingTheorems Demo VmaTree VmaSpace VmaGap Vma VmaFacts VmaSteps VmaCalls VmaProtect VmaWorld VmaTheorems ElfParse ElfFacts Elf64 ElfMemory ElfStack ElfLoad ElfSegments.
Import ProcFacts VmaTree VmaSpace VmaGap Vma VmaFacts VmaSteps VmaCalls VmaProtect VmaTheorems ElfParse ElfFacts Elf64 ElfMemory ElfStack ElfLoad ElfSegments.
Local Open Scope Z_scope.
Local Open Scope kernel_scope.

Module ElfTheorems.

(** ** The parser *)

(** C27: Parsing never reads outside the image, whatever its bytes and
    whatever header the program headers are parsed with: both functions
    return, with a result or an error, on every image that has at least the
    size they are told. *)
Theorem elf_parse_stays_inside data size h out max :
  forallb is_byte data = true -> size <= Z.of_nat (length data) -> 0 <= phoff h -> 0 <= phnum h ->
  is_Some (elf64_parse_header data size) /\ is_Some (elf64_parse_phdrs data size h out max).
Proof.
  intros Hd Hl Ho Hn. split; [by apply parse_header_total|]. unfold elf64_parse_phdrs.
  do 2 (case_match; [done|]). destruct (_ || _ || _) eqn:Eg; [done|]. rewrite !orb_false_iff, !negb_false_iff in Eg.
  destruct Eg as [[G1%Z.eqb_neq G2%Z.eqb_eq] G3]. unfold elf64_validate_table_range in G3. rewrite (proj2 (Z.eqb_neq _ _) G1), G2 in *.
  destruct (_ || _); [done|]. apply range_available_iff in G3; [|unfold ELF64_PHDR_BYTES; lia].
  apply (phdr_loop_total data size); [done|done|lia].
Qed.

(** What an accepted header promises. *)
Definition header_ok (size : Z) (h : elf64_header_t) : Prop :=
  (type h = ELF64_TYPE_EXEC \/ type h = ELF64_TYPE_DYN) /\ machine h = ELF64_MACHINE_X86_64 /\ version h = ELF64_VERSION_CURRENT /\
  ehsize h = ELF64_EHDR_BYTES /\ phentsize h = ELF64_PHDR_BYTES /\ 0 < phnum h <= Z.of_nat ELF64_MAX_PROGRAM_HEADERS /\
  0 < phoff h /\ phoff h + phnum h * ELF64_PHDR_BYTES <= size /\
  (shnum h <> 0 -> 0 < shoff h /\ 0 < shentsize h /\ shoff h + shnum h * shentsize h <= size).

Lemma table_range_iff size o n e : 0 <= o -> 0 <= n -> 0 <= e ->
  elf64_validate_table_range size o n e = true <-> (n <> 0 -> 0 < o /\ 0 < e /\ o + n * e <= size).
Proof.
  intros Ho Hn He. unfold elf64_validate_table_range. destruct (Z.eqb_spec n 0); [by subst|].
  destruct (Z.eqb_spec o 0); simpl; [split; [done|]; intros H; lia|]. destruct (Z.eqb_spec e 0); simpl; [split; [done|]; intros H; lia|].
  rewrite range_available_iff by nia. split; [intros ? _; lia|intros H; by apply H].
Qed.

Lemma header_error_iff size h : fields_fit h -> header_error size h = ELF64_ERROR_NONE <-> header_ok size h.
Proof.
  unfold fields_fit, u16, u32, ElfFacts.u64. intros (_ & _ & _ & _ & Hp & Hs & _ & _ & He & Hn & Hse & Hsn & _).
  pose proof (table_range_iff size (phoff h) (phnum h) (phentsize h) ltac:(lia) ltac:(lia) ltac:(lia)) as Tp.
  pose proof (table_range_iff size (shoff h) (shnum h) (shentsize h) ltac:(lia) ltac:(lia) ltac:(lia)) as Ts.
  unfold header_error, header_ok.
  destruct (Z.eqb_spec (type h) ELF64_TYPE_EXEC) as [T1|T1], (Z.eqb_spec (type h) ELF64_TYPE_DYN) as [T2|T2]; cbn [negb andb];
    (split; [|intros (K1 & K2 & K3 & K4 & K5 & K6 & K7 & K8 & K9)]); try (by destruct K1); try done;
    try (rewrite K2, K3, K4, K5, !Z.eqb_refl; cbn [negb]; rewrite (proj2 (Z.eqb_neq (phnum h) 0)), (proj2 (Z.ltb_ge _ _)) by lia; cbn [orb];
         rewrite K5 in Tp; rewrite (proj2 Tp), (proj2 Ts) by (try done; intros _; unfold ELF64_PHDR_BYTES in *; lia); cbn [negb]; by rewrite andb_false_r).
  all: destruct (Z.eqb_spec (machine h) ELF64_MACHINE_X86_64); cbn [negb]; [|done];
    destruct (Z.eqb_spec (version h) ELF64_VERSION_CURRENT); cbn [negb]; [|done];
    destruct (Z.eqb_spec (ehsize h) ELF64_EHDR_BYTES); cbn [negb]; [|done];
    destruct (Z.eqb_spec (phnum h) 0); cbn [orb]; [done|];
    destruct (Z.eqb_spec (phentsize h) ELF64_PHDR_BYTES) as [Ep|]; cbn [negb]; [|done]; rewrite Ep in *;
    destruct (Z.ltb_spec (Z.of_nat ELF64_MAX_PROGRAM_HEADERS) (phnum h)); [done|];
    destruct (elf64_validate_table_range size (phoff h) _ _); cbn [negb]; [|done]; destruct (proj1 Tp eq_refl ltac:(done)) as (Q1 & _ & Q2);
    (destruct (elf64_validate_table_range size (shoff h) _ _) eqn:Es; cbn [negb]; [|unfold nz; destruct (Z.eqb_spec (shnum h) 0); cbn [negb andb]; [|done]]);
    intros _; split_and!; auto; try lia; intros Hx; by apply Ts.
Qed.

(** C24: Parsing succeeds with a header, program headers and a summary exactly
    when the image holds their encodings: the identification of a little-
    endian 64-bit ELF file, the fields of the header behind it and the table
    where the header says, with the header consistent, every load segment
    inside the file, aligned and within the address space, the interpreter
    inside the file, and the output array large enough.  The rest of the output array is cleared, and
    the summary is the sum over the table. *)
Theorem elf_parse_decodes data size out max h out' m :
  forallb is_byte data = true -> size <= Z.of_nat (length data) ->
  elf64_parse_header data size = Some (ELF64_OK, h) /\ elf64_parse_phdrs data size h out max = Some (ELF64_OK, out', m) <->
  ELF64_EHDR_BYTES <= size /\ identified data (osabi h) /\ fields_fit h /\ holds data 16 (encode_fields h) /\
  error h = ELF64_ERROR_NONE /\ header_ok size h /\ phnum h <= max /\
  exists ps, Z.of_nat (length ps) = phnum h /\ phdrs_at data (phoff h) ELF64_PHDR_BYTES ps /\ Forall (segment_ok size) ps /\
    out' = ps ++ replicate (Z.to_nat (max - phnum h)) elf64_clear_program_header /\ m = summary_of ps.
Proof.
  intros Hd Hl. rewrite parse_header_ok by done.
  split.
  - intros ((H1 & H2 & H3 & H4 & H5 & H6%header_error_iff) & Hp); [|done]. pose proof H6 as (_ & _ & _ & _ & K5 & K6 & K7 & K8 & _).
    unfold elf64_parse_phdrs in Hp. rewrite H5, Z.eqb_refl in Hp. cbn [negb] in Hp. destruct (Z.ltb_spec max (phnum h)); [done|].
    destruct (_ || _ || _); [done|]. rewrite K5 in Hp.
    apply (phdr_loop_ok data size _ _ Hd) in Hp as (ps & E1 & E2 & E3 & E4 & E5); [|done|rewrite length_replicate; lia].
    split_and!; try done. exists ps. rewrite Z.mul_0_l, Z.add_0_r in E2. split_and!; try done; [lia|].
    rewrite E4. simpl. f_equal. rewrite drop_replicate. f_equal. lia.
  - intros (H1 & H2 & H3 & H4 & H5 & H6 & H7 & ps & E1 & E2 & E3 & E4 & E5). split; [split_and!; try done; by apply header_error_iff|].
    pose proof H6 as (_ & _ & _ & _ & K5 & K6 & K7 & K8 & _). unfold elf64_parse_phdrs. rewrite H5, Z.eqb_refl. cbn [negb].
    rewrite (proj2 (Z.ltb_ge _ _) H7), (proj2 (Z.eqb_neq (phnum h) 0)), K5, Z.eqb_refl by lia. cbn [negb orb].
    rewrite (proj2 (table_range_iff size (phoff h) (phnum h) ELF64_PHDR_BYTES ltac:(lia) ltac:(lia) ltac:(done))) by (intros _; unfold ELF64_PHDR_BYTES in *; lia).
    cbn [negb]. apply (phdr_loop_ok data size _ _ Hd); [done|rewrite length_replicate; lia|]. exists ps. split_and!; try done; [lia| |].
    + intros i p Hi. rewrite Z.mul_0_l, Z.add_0_r. by apply E2.
    + rewrite E4. simpl. f_equal. rewrite drop_replicate. f_equal. lia.
Qed.

Section theorems.
Context {W E : Type} {paging : VmaPaging W} {launch : Process.LaunchEnv} {world : ElfWorld W E}.
Implicit Types (s : elf_state W E) (p : Z).

(** ** Segments *)

(** C25: Loading the segments of a table, none of which starts in page zero,
    either succeeds, and then the process has gained exactly one area for each
    load segment, on its pages and with the protection of its flags, and memory
    holds there the bytes of the file followed by zeros, whose checksum is the
    one reported; or it fails, and then the process has the mappings it had
    before, and besides them only areas of those segments that have the physical
    address 0, which vma64_unmap refuses.  In both cases no byte outside the
    segments is written and no other process sees a change. *)
Theorem elf_load_outcome s p bias data size phdrs count :
  vma_ok (elf_vma s) -> 0 <= bias < 2 ^ 64 -> count <= Z.of_nat ELF64_MAX_PROGRAM_HEADERS ->
  let phs := take (Z.to_nat count) phdrs in
  Forall phdr_fits phs -> Forall (fun ph => loadable ph = true -> 0 < seg_base bias ph) phs ->
  let '(ok, r, s') := elf64_map_load_segments p phdrs count data size bias s in
  (ok = ELF64_OK /\ lr_error r = ELF64_ERROR_NONE /\ load_reported data (segments phs) r /\
   exists added, loaded s p bias data size (segments phs) added s') \/
  (ok = ELF64_DENIED /\ lr_error r <> ELF64_ERROR_NONE /\ load_failed s p bias (segments phs) s').
Proof.
  intros Hi Hb Hc phs Hf Hl. pose proof (map_load_segments_wp s p bias data size phdrs count Hi Hb Hc Hf Hl) as H. unfold wp in H.
  by destruct (elf64_map_load_segments p phdrs count data size bias s) as [[ok r] s'].
Qed.

(** ** The stack *)

(** C26: Building the initial stack succeeds exactly for a live process, at
    most eight arguments and eight environment strings, a terminated auxiliary
    vector, a writable page-aligned range, strings of at most 255 bytes, and
    room for everything.  The stack is then, byte for byte, [stack_image]: zeros
    down to a 16-byte aligned stack pointer, the argument count, the addresses of
    the argument strings, a null, those of the environment strings, a null, the
    auxiliary vector with AT_RANDOM and AT_PLATFORM pointing into the stack, and
    above them the strings, the random bytes and the platform name.  No byte
    outside the stack is written in any case. *)
Theorem elf_stack_layout s p base top argc argv envc envp a :
  pinv (vma_processes (elf_vma s)) -> 0 < base -> top < 2 ^ 64 ->
  0 <= argc <= Z.of_nat (length argv) -> 0 <= envc <= Z.of_nat (length envp) -> auxv_ok a ->
  let args := take (Z.to_nat argc) argv in let envs := take (Z.to_nat envc) envp in forallb cstring (args ++ envs) = true ->
  let '(ok, r, s') := elf64_build_initial_stack p base top argc argv envc envp a s in
  only_within base top s s' /\
  if negb (admitted s p argc envc a) then ok = ELF64_DENIED /\ sr_error r = ELF64_ERROR_STACK_ARGUMENT
  else if negb (stack_range s p base top) then ok = ELF64_DENIED /\ sr_error r = ELF64_ERROR_STACK_RANGE
  else if fits base top args envs a
  then ok = ELF64_OK /\ in_memory s' base (stack_image base top args envs a) /\ stack_reported base top args envs a r
  else ok = ELF64_DENIED /\ sr_error r = ELF64_ERROR_STACK_OVERFLOW.
Proof.
  intros Hp Hb Ht Ha He Hx args envs Hc. pose proof (build_stack_wp s p base top argc argv envc envp a Hp Hb Ht Ha He Hx Hc) as H. unfold wp in H.
  by destruct (elf64_build_initial_stack p base top argc argv envc envp a s) as [[ok r] s'].
Qed.

End theorems.

(** ** An image and a process *)

(** A program of one page: its header, two program headers, and 20 bytes. *)
Definition demo_header : elf64_header_t :=
  mk_header ELF64_TYPE_EXEC ELF64_MACHINE_X86_64 ELF64_VERSION_CURRENT 0x440100B0 64 0 0 64 56 2 0 0 0 0 0.
Definition demo_phdrs : list elf64_program_header_t :=
  [mk_phdr ELF64_PT_LOAD 5 0 0x44010000 0x44010000 196 300 0x1000; mk_phdr ELF64_PT_GNU_STACK 6 0 0 0 0 0 16].
Definition demo_image : list Z :=
  [0x7F; 0x45; 0x4C; 0x46; 2; 1; 1; 0; 0; 0; 0; 0; 0; 0; 0; 0] ++ encode_fields demo_header
  ++ encode_phdr (mk_phdr ELF64_PT_LOAD 5 0 0x44010000 0x44010000 196 300 0x1000) ++ encode_phdr (mk_phdr ELF64_PT_GNU_STACK 6 0 0 0 0 0 16)
  ++ ((fun k => Z.of_nat k) <$> seq 1 20).
Definition demo_size : Z := Z.of_nat (length demo_image).


Lemma demo_phdrs_fit : Forall phdr_fits demo_phdrs.
Proof. unfold demo_phdrs. constructor; [|constructor; [|constructor]]; split_and!; (split; [by apply Z.leb_le|by apply Z.ltb_lt]). Qed.

Lemma demo_phdrs_above : Forall (fun ph => loadable ph = true -> 0 < seg_base 0 ph) (take (Z.to_nat 2) demo_phdrs).
Proof. change (take (Z.to_nat 2) demo_phdrs) with demo_phdrs. constructor; [|constructor; [|constructor]]; [intros _; by apply Z.ltb_lt|done]. Qed.

Lemma elf_parse_stays_inside_witness :
  demo_size = 196 /\ is_Some (elf64_parse_header demo_image demo_size) /\ is_Some (elf64_parse_phdrs demo_image demo_size demo_header [] 2).
Proof.
  split; [by vm_compute|]. apply (elf_parse_stays_inside demo_image demo_size demo_header [] 2); [by vm_compute|done|done|done].
Defined.

Definition demo_parsed : Z * list elf64_program_header_t * elf64_phdr_summary_t :=
  default (0, [], elf64_clear_summary) (elf64_parse_phdrs demo_image demo_size demo_header [] 4).

Lemma elf_parse_decodes_witness :
  demo_parsed.1.2 = demo_phdrs ++ [elf64_clear_program_header; elf64_clear_program_header] /\
  header_ok demo_size demo_header /\ phdrs_at demo_image 64 ELF64_PHDR_BYTES demo_phdrs /\ demo_parsed.2 = summary_of demo_phdrs.
Proof.
  assert (E : demo_parsed.1.2 = demo_phdrs ++ [elf64_clear_program_header; elf64_clear_program_header]) by (by vm_compute).
  split; [exact E|].
  destruct (elf_parse_decodes demo_image demo_size [] 4 demo_header (demo_parsed.1.2) (demo_parsed.2)) as [H _]; [by vm_compute|done|].
  destruct H as (_ & _ & _ & _ & _ & Hok & _ & ps & H1 & H2 & _ & H3 & H4); [split; by vm_compute|].
  rewrite E in H3. change (replicate (Z.to_nat (4 - phnum demo_header)) elf64_clear_program_header) with [elf64_clear_program_header; elf64_clear_program_header] in H3.
  apply app_inj_2 in H3 as [<- _]; [|done]. done.
Defined.

(** Process 4 and no other part of the kernel. *)
#[local] Existing Instance ProcTheorems.demo_launch.
#[local] Existing Instance PagingTheorems.demo_symbols.
#[local] Existing Instance VmaWorld.vma_over_paging.

#[export] Instance demo_elf_world : ElfWorld Paging.paging_state unit := {|
  persona64_type _ _ := 0;
  pit_get_ticks _ := 7;
  pit_get_frequency_hz _ := 100;
  linux_vdso64_map _ := ret (0, mk_vdso_info 0 0 0 0);
  linux_vdso64_unmap _ := ret 0;
  interrupts64_trigger_user_entry_probe _ _ _ _ := ret 1;
|}.

Definition demo_elf : elf_state Paging.paging_state unit := mk_elf_state ∅ demo_vma tt.

Lemma elf_load_outcome_witness :
  let '(ok, r, s') := elf64_map_load_segments 4 demo_phdrs 2 demo_image demo_size 0 demo_elf in
  ok = ELF64_OK /\ bss_nonzero_count r = 0 /\ exists added, loaded demo_elf 4 0 demo_image demo_size (segments demo_phdrs) added s'.
Proof.
  assert (E : fst (fst (elf64_map_load_segments 4 demo_phdrs 2 demo_image demo_size 0 demo_elf)) = ELF64_OK) by (by vm_compute).
  pose proof (elf_load_outcome demo_elf 4 0 demo_image demo_size demo_phdrs 2 demo_vma_okay (conj (Z.le_refl 0) eq_refl)
    (Zle_bool_imp_le 2 32 eq_refl) demo_phdrs_fit demo_phdrs_above) as H.
  destruct (elf64_map_load_segments 4 demo_phdrs 2 demo_image demo_size 0 demo_elf) as [[ok r] s']. cbn [fst] in E. subst ok.
  destruct H as [(_ & _ & Hr & Ha)|(H & _)]; [|done]. split; [done|]. split; [apply Hr|exact Ha].
Defined.

(** A stack of one page, three auxiliary entries and two arguments. *)
Definition demo_stack_vma : vma_state Paging.paging_state := run_vma_calls [VMap 4 0x44020000 0x1000 3 13] demo_vma.
Definition demo_stack : elf_state Paging.paging_state unit := mk_elf_state ∅ demo_stack_vma tt.
Definition demo_auxv : elf64_auxv_t :=
  elf64_clear_auxv <| entries := [mk_aux ELF64_AT_PAGESZ 4096; mk_aux ELF64_AT_RANDOM 0; mk_aux ELF64_AT_NULL 0] ++ replicate 16 (mk_aux ELF64_AT_NULL 0) |>
    <| entry_count := 3 |> <| platform := platform_name |>.
Definition demo_argv : list (list Z) := [[97]; [98; 99]].

Lemma demo_stack_processes : pinv (vma_processes (elf_vma demo_stack)).
Proof. apply (v_proc (listed demo_stack_vma)). apply (calls_keep_ok _ demo_vma); [exact demo_vma_okay|done]. Qed.

Lemma demo_auxv_ok : auxv_ok demo_auxv.
Proof. by split. Qed.

Lemma elf_stack_layout_witness :
  let '(ok, r, s') := elf64_build_initial_stack 4 0x44020000 0x44021000 2 demo_argv 0 [] demo_auxv demo_stack in
  ok = ELF64_OK /\ sr_initial_rsp r = 0x44020F80 /\ in_memory s' 0x44020000 (stack_image 0x44020000 0x44021000 demo_argv [] demo_auxv).
Proof.
  assert (A : admitted demo_stack 4 2 0 demo_auxv = true) by (by vm_compute).
  assert (R : stack_range demo_stack 4 0x44020000 0x44021000 = true) by (by vm_compute).
  pose proof (elf_stack_layout demo_stack 4 0x44020000 0x44021000 2 demo_argv 0 [] demo_auxv demo_stack_processes eq_refl eq_refl
    (conj (Zle_bool_imp_le 0 2 eq_refl) (Z.le_refl 2)) (conj (Z.le_refl 0) (Z.le_refl 0)) demo_auxv_ok eq_refl) as H.
  rewrite A, R in H. change (take (Z.to_nat 2) demo_argv) with demo_argv in H. change (take (Z.to_nat 0) []) with (@nil (list Z)) in H.
  change (fits 0x44020000 0x44021000 demo_argv [] demo_auxv) with true in H. cbn [negb] in H.
  destruct (elf64_build_initial_stack 4 0x44020000 0x44021000 2 demo_argv 0 [] demo_auxv demo_stack) as [[ok r] s'].
  destruct H as (_ & H1 & H2 & H3). split; [exact H1|]. split; [|exact H2]. rewrite (rp_rsp _ _ _ _ _ _ H3). by vm_compute.
Defined.

(** A load segment in the page of address 0: [vma64_map_anon] refuses it, but
    its 0 is also the address asked for, so that the loader copies the file to
    pages that are not mapped and only fails at the protection. *)
Definition zero_phdrs : list elf64_program_header_t := [mk_phdr ELF64_PT_LOAD 6 0 0x100 0x100 16 16 1].

Example page_zero_written :
  let run := elf64_map_load_segments 4 zero_phdrs 1 demo_image demo_size 0 demo_elf in
  fst (vma64_map_anon 4 0 0x1000 load_prot load_flags demo_vma) = 0 /\
  (run.1.1, lr_error run.1.2, load_byte 0x100 run.2) = (ELF64_DENIED, ELF64_ERROR_LOAD_PROTECT, 0x7F) /\
  mappings (elf_vma run.2) 4 = mappings demo_vma 4.
Proof. cbv zeta. split; [|split]; vm_compute; reflexivity. Qed.
End ElfTheorems.
