(* ===== verification/Auth.v ===== *)
(** * Local accounts: kernel/arch/x86_64/auth.c

    The user record, password checking, the login gate, the session lock and
    their rate limit, in the UEFI kernel.  Keyboard, disk, clock, entropy,
    the capability broker and bcrypt are the interface [AuthWorld]; drawing
    and debug output are left out.  Waiting loops have fuel: [None] is a call
    that still waits.  Buffers are lists of their length; a C string in a
    buffer ends at its first zero. *)

From Stdlib Require Import String.
From S2P Require Import Prelude Principal Services64 Capability Process.
Import Principal Services64 Capability.
Local Open Scope Z_scope.
Local Open Scope kernel_scope.

Module Auth.

Definition AUTH64_USERNAME_BYTES : nat := 32.
Definition AUTH64_PASSWORD_BYTES : nat := 64.
Definition AUTH64_RECORD_BYTES : nat := 384.
Definition AUTH64_BCRYPT_HASH_BYTES : nat := 60.
Definition AUTH64_BCRYPT_SETTING_BYTES : nat := 29.
Definition AUTH64_BCRYPT_SALT_OFFSET : nat := 7.
Definition AUTH64_BCRYPT_SALT_RAW_BYTES : nat := 16.
Definition AUTH64_WAIT_FOREVER : Z := 0.
Definition AUTH64_FIRST_RUN_DEFAULT_TICKS : Z := 60 * 100.
Definition AUTH64_DEFAULT_ACCOUNT_SIGNIN_TICKS : Z := 5 * 100.
Definition AUTH64_READ_LINE : Z := 1.
Definition AUTH64_READ_EMPTY : Z := 2.
Definition AUTH64_READ_TIMEOUT : Z := 3.
Definition AUTH64_READ_DENIED : Z := 4.
Definition AUTH64_RATE_LIMIT_SECONDS : Z := 30.
Definition DISPLAY64_LOGIN_FIELD_USERNAME : Z := 0.
Definition DISPLAY64_LOGIN_FIELD_PASSWORD : Z := 1.
Definition INPUT64_INVALID_RESULT : Z := 0xFFFFFFFF.

Definition g_auth64_store_path : list Z := Process.bytes_of "/USERDB.TXT".
Definition g_auth64_default_user : list Z := Process.bytes_of "limitless".
Definition g_auth64_default_password : list Z := Process.bytes_of "limitless".
Definition g_auth64_default_home : list Z := Process.bytes_of "/HOME/LIMITLESS".
Definition g_auth64_default_profile : list Z := Process.bytes_of "local-console".
Definition g_auth64_legacy_bcrypt_salt : list Z := Process.bytes_of "LimitlessOSM10salt000".
Definition g_auth64_bcrypt_prefix : list Z := Process.bytes_of "$2b$10$".
Definition g_auth64_bcrypt_alphabet : list Z := Process.bytes_of "./ABCDEFGHIJKLMNOPQRSTUVWXYZabcdefghijklmnopqrstuvwxyz0123456789".

Definition newline : Z := 10.
Definition dollar : Z := 36.

(** The rest of the kernel and the machine. *)
Class AuthWorld (E : Type) := {
  crypt_blowfish : list Z -> list Z -> option (list Z);
  entropy64_fill : nat -> ST E (list Z);
  entropy64_stir : Z -> ST E unit;
  mmio64_nvme_fat_shell_read_file : list Z -> nat -> Z -> ST E (option (list Z));
  mmio64_nvme_fat_shell_write_file : list Z -> list Z -> Z -> ST E Z;
  pit_get_ticks : E -> Z;
  poll_keyboards : ST E unit;
  input64_read_keyboard_line : Z -> Z -> Z -> ST E (Z * list Z);
  input64_keyboard_line_count : E -> Z;
  input64_keyboard_peek_line : nat -> E -> list Z;
  wait_interrupt : ST E unit;
  capability64_grant_service : Z -> Z -> Z -> ST E Z
}.

Record auth_state (E : Type) := mk_auth {
  g_auth64_login_screen : Z;
  g_auth64_first_run_setup : Z;
  g_auth64_user_store_nvme : Z;
  g_auth64_user_store_persistent : Z;
  g_auth64_bcrypt_hash : Z;
  g_auth64_auth_success : Z;
  g_auth64_wrong_password_denied : Z;
  g_auth64_rate_limited : Z;
  g_auth64_session_lock : Z;
  g_auth64_session_unlock : Z;
  g_auth64_session_authority_scoped : Z;
  g_auth64_login_display_only : Z;
  g_auth64_login_input_only : Z;
  g_auth64_desktop_blocked_pre_auth : Z;
  g_auth64_failure_count : Z;
  g_auth64_lockout_seconds : Z;
  g_auth64_input_wait_count : Z;
  g_auth64_hardware_fallback_count : Z;
  g_auth64_hardware_recovery_count : Z;
  g_auth64_lock_unavailable_count : Z;
  g_auth64_keyboard_capture : Z;
  g_auth64_username : list Z;
  g_auth64_home : list Z;
  g_auth64_profile : list Z;
  g_auth64_record : list Z;
  g_auth64_password_hash : list Z;
  g_auth64_line : list Z;
  g_auth64_echo : list Z;
  g_auth64_echo_shown : list Z;
  auth_env : E
}.
Arguments mk_auth {E}.
Arguments g_auth64_login_screen {E}.
Arguments g_auth64_first_run_setup {E}.
Arguments g_auth64_user_store_nvme {E}.
Arguments g_auth64_user_store_persistent {E}.
Arguments g_auth64_bcrypt_hash {E}.
Arguments g_auth64_auth_success {E}.
Arguments g_auth64_wrong_password_denied {E}.
Arguments g_auth64_rate_limited {E}.
Arguments g_auth64_session_lock {E}.
Arguments g_auth64_session_unlock {E}.
Arguments g_auth64_session_authority_scoped {E}.
Arguments g_auth64_login_display_only {E}.
Arguments g_auth64_login_input_only {E}.
Arguments g_auth64_desktop_blocked_pre_auth {E}.
Arguments g_auth64_failure_count {E}.
Arguments g_auth64_lockout_seconds {E}.
Arguments g_auth64_input_wait_count {E}.
Arguments g_auth64_hardware_fallback_count {E}.
Arguments g_auth64_hardware_recovery_count {E}.
Arguments g_auth64_lock_unavailable_count {E}.
Arguments g_auth64_keyboard_capture {E}.
Arguments g_auth64_username {E}.
Arguments g_auth64_home {E}.
Arguments g_auth64_profile {E}.
Arguments g_auth64_record {E}.
Arguments g_auth64_password_hash {E}.
Arguments g_auth64_line {E}.
Arguments g_auth64_echo {E}.
Arguments g_auth64_echo_shown {E}.
Arguments auth_env {E}.

#[export] Instance eta_auth_state E : Eta (auth_state E) := {| eta s :=
  mk_auth
    (g_auth64_login_screen s) (g_auth64_first_run_setup s) (g_auth64_user_store_nvme s) (g_auth64_user_store_persistent s)
    (g_auth64_bcrypt_hash s) (g_auth64_auth_success s) (g_auth64_wrong_password_denied s) (g_auth64_rate_limited s)
    (g_auth64_session_lock s) (g_auth64_session_unlock s) (g_auth64_session_authority_scoped s) (g_auth64_login_display_only s)
    (g_auth64_login_input_only s) (g_auth64_desktop_blocked_pre_auth s) (g_auth64_failure_count s) (g_auth64_lockout_seconds s)
    (g_auth64_input_wait_count s) (g_auth64_hardware_fallback_count s) (g_auth64_hardware_recovery_count s) (g_auth64_lock_unavailable_count s)
    (g_auth64_keyboard_capture s) (g_auth64_username s) (g_auth64_home s) (g_auth64_profile s)
    (g_auth64_record s) (g_auth64_password_hash s) (g_auth64_line s) (g_auth64_echo s)
    (g_auth64_echo_shown s) (auth_env s) |}.

(** ** Text *)

(** [n] bytes of zeros; [bs] written over the start of a buffer.  A write past
    the end of a buffer makes the list longer, so that a buffer that keeps its
    length has not been overrun. *)
Definition zeros (n : nat) : list Z := replicate n 0.
Definition overwrite (bs buffer : list Z) : list Z := bs ++ drop (length bs) buffer.
(** The same with a zero behind. *)
Definition overwrite_string (bs buffer : list Z) : list Z := overwrite (bs ++ [0]) buffer.

(** [buffer[i] = v;] *)
Definition store_at (i : nat) (v : Z) (buffer : list Z) : list Z :=
  if (i <? length buffer)%nat then <[i := v]> buffer else buffer ++ zeros (i - length buffer) ++ [v].

(** The C string in a buffer. *)
Fixpoint c_string (text : list Z) : list Z :=
  match text with
  | [] => []
  | b :: rest => if b =? 0 then [] else b :: c_string rest
  end.

Definition auth64_cstr_length (text : list Z) (capacity : nat) : nat := length (c_string (take capacity text)).

Definition auth64_copy_cstr_to_line (capacity : nat) (text : list Z) : nat * list Z :=
  let length_ := auth64_cstr_length text capacity in
  let length_ := if (capacity <=? length_)%nat then (capacity - 1)%nat else length_ in
  (length_, overwrite_string (take length_ text) (zeros capacity)).

(** [bytes_equal left left_count right right_count], for the bytes counted. *)
Definition auth64_bytes_equal (left right : list Z) : bool := bool_decide (left = right).

(** ** The user record *)

Definition alphabet_at (i : Z) : Z := default 0 (g_auth64_bcrypt_alphabet !! Z.to_nat i).

(** The base64 of bcrypt.  A salt of 16 bytes ends after one byte of a group
    of three. *)
Fixpoint salt_text (salt : list Z) : list Z :=
  match salt with
  | b0 :: b1 :: b2 :: rest =>
      alphabet_at (Z.shiftr b0 2) :: alphabet_at (Z.lor (Z.shiftl (Z.land b0 0x03) 4) (Z.shiftr b1 4))
      :: alphabet_at (Z.lor (Z.shiftl (Z.land b1 0x0F) 2) (Z.shiftr b2 6)) :: alphabet_at (Z.land b2 0x3F) :: salt_text rest
  | b0 :: _ => [alphabet_at (Z.shiftr b0 2); alphabet_at (Z.shiftl (Z.land b0 0x03) 4)]
  | [] => []
  end.

Definition auth64_append_bytes (capacity : nat) (record text : list Z) : list Z :=
  if (capacity <=? length record + length text)%nat then record else record ++ text.
Definition auth64_append_text (capacity : nat) (record text : list Z) : list Z :=
  auth64_append_bytes capacity record (c_string (take capacity text)).

(** Whether the field name stands at [index], at the start of a line. *)
Definition field_at (record field : list Z) (index : nat) : bool :=
  ((index =? 0)%nat || bool_decide (record !! (index - 1)%nat = Some newline))
  && auth64_bytes_equal (take (length field) (drop index record)) field.

Fixpoint to_newline (text : list Z) : list Z :=
  match text with
  | [] => []
  | b :: rest => if b =? newline then [] else b :: to_newline rest
  end.

(** Found, the destination and the number of bytes of the value.  [record]
    are the [record_bytes] bytes of the record. *)
Definition auth64_find_line_value (record field destination : list Z) : bool * list Z * nat :=
  match find_index (field_at record field) (seq 0 (length record - length field)) with
  | Some index =>
      let value := to_newline (take (length destination - 1) (drop (index + length field) record)) in
      (negb (length value =? 0)%nat, overwrite_string value destination, length value)
  | None => (false, destination, 0%nat)
  end.

(** Whether the stored hash has the old shared salt or another cost. *)
Definition auth64_record_needs_upgrade (hash : list Z) : bool :=
  negb (auth64_bytes_equal (take AUTH64_BCRYPT_SALT_OFFSET hash) g_auth64_bcrypt_prefix)
  || auth64_bytes_equal (take (length g_auth64_legacy_bcrypt_salt) (drop AUTH64_BCRYPT_SALT_OFFSET hash)) g_auth64_legacy_bcrypt_salt.

(** The buffers a line is read into. *)
Inductive auth_buffer := BUsername | BLine.

Section auth.
Context {E : Type} {world : AuthWorld E}.

(** A call that may still be waiting. *)
Definition AM (A : Type) : Type := ST (auth_state E) (option A).
Definition answer {A} (a : A) : AM A := ret (Some a).
Definition lift {A} (m : ST (auth_state E) A) : AM A := fun s => let (a, s') := m s in (Some a, s').
Definition then_ {A B} (m : AM A) (k : A -> AM B) : AM B :=
  o <- m ;; match o with Some a => k a | None => ret None end.
Notation "x <-? m ;; k" := (then_ m (fun x => k)) (at level 100, m at next level, right associativity).
Notation "m ;;? k" := (then_ m (fun _ => k)) (at level 100, right associativity).

(** [for (;;) body], where [body] returns or goes on. *)
Fixpoint forever {A} (fuel : nat) (body : AM (option A)) : AM A :=
  match fuel with
  | O => ret None
  | S fuel' => r <-? body ;; match r with Some a => answer a | None => forever fuel' body end
  end.
(** [return a;] and [continue;]. *)
Definition return_ {A} (a : A) : AM (option A) := answer (Some a).
Definition continue {A} : AM (option A) := answer None.

Definition on_env {A} (m : ST E A) : ST (auth_state E) A :=
  fun s => let (a, e) := m (auth_env s) in (a, s <| auth_env := e |>).

Definition capacity_of (b : auth_buffer) : nat := match b with BUsername => AUTH64_USERNAME_BYTES | BLine => AUTH64_PASSWORD_BYTES end.
Definition buffer_of (b : auth_buffer) (s : auth_state E) : list Z := match b with BUsername => g_auth64_username s | BLine => g_auth64_line s end.
Definition set_buffer (b : auth_buffer) (v : list Z) : ST (auth_state E) unit :=
  modify (fun s => match b with BUsername => s <| g_auth64_username := v |> | BLine => s <| g_auth64_line := v |> end).

(** ** Hashing *)

Definition auth64_make_bcrypt_setting : ST (auth_state E) (list Z) :=
  salt <- on_env (entropy64_fill AUTH64_BCRYPT_SALT_RAW_BYTES) ;;
  ret (g_auth64_bcrypt_prefix ++ salt_text salt).

(** [hash_out] after the call. *)
Definition auth64_hash_password (password setting hash_out : list Z) : ST (auth_state E) (list Z) :=
  match crypt_blowfish (c_string (take AUTH64_PASSWORD_BYTES password)) (c_string setting) with
  | Some (c :: result) =>
      if c =? dollar then
        modify (fun s => s <| g_auth64_bcrypt_hash := 1 |>) ;;;
        ret (overwrite_string (take AUTH64_BCRYPT_HASH_BYTES (overwrite (c :: result) (zeros 64))) hash_out)
      else modify (fun s => s <| g_auth64_bcrypt_hash := 0 |>) ;;; ret (store_at 0 0 hash_out)
  | _ => modify (fun s => s <| g_auth64_bcrypt_hash := 0 |>) ;;; ret (store_at 0 0 hash_out)
  end.

(** The text of a record. *)
Definition record_text (username hash : list Z) : list Z :=
  let append_text := auth64_append_text AUTH64_RECORD_BYTES in
  let append_bytes := auth64_append_bytes AUTH64_RECORD_BYTES in
  let r := append_text [] (Process.bytes_of "USER ") in
  let r := append_bytes r username in
  let r := append_text r ([newline] ++ Process.bytes_of "ALG bcrypt-2b-v1" ++ [newline] ++ Process.bytes_of "HASH ") in
  let r := append_bytes r hash in
  append_text r ([newline] ++ Process.bytes_of "HOME /HOME/LIMITLESS" ++ [newline] ++ Process.bytes_of "PROFILE local-console" ++ [newline]).

(** The number of bytes of the record, 0 when hashing failed.  [username] and
    [password] are the bytes counted. *)
Definition auth64_make_record (username password : list Z) : ST (auth_state E) nat :=
  modify (fun s => s <| g_auth64_record := zeros AUTH64_RECORD_BYTES |>) ;;;
  setting <- auth64_make_bcrypt_setting ;;
  hash_out <- gets g_auth64_password_hash ;;
  hash <- auth64_hash_password password setting hash_out ;;
  modify (fun s => s <| g_auth64_password_hash := hash |>) ;;;
  hashed <- gets g_auth64_bcrypt_hash ;;
  if hashed =? 0 then ret 0%nat
  else
    let r := record_text username (take AUTH64_BCRYPT_HASH_BYTES hash) in
    modify (fun s => s <| g_auth64_record := overwrite r (zeros AUTH64_RECORD_BYTES) |>) ;;;
    ret (length r).

(** ** Storage *)

(** One field of the record into its buffer. *)
Definition read_field (record field : list Z) (get : auth_state E -> list Z) (put : list Z -> auth_state E -> auth_state E)
    : ST (auth_state E) (bool * nat) :=
  destination <- gets get ;;
  let '(found, destination, value_bytes) := auth64_find_line_value record field destination in
  modify (put destination) ;;;
  ret (found, value_bytes).

Definition auth64_load_user_record : ST (auth_state E) bool :=
  modify (fun s => s <| g_auth64_record := zeros AUTH64_RECORD_BYTES |>) ;;;
  file <- on_env (mmio64_nvme_fat_shell_read_file g_auth64_store_path (AUTH64_RECORD_BYTES - 1) PRINCIPAL64_ID_CONSOLE_CLIENT) ;;
  match file with
  | None => ret false
  | Some record =>
      modify (fun s => s <| g_auth64_record := overwrite record (zeros AUTH64_RECORD_BYTES) |>) ;;;
      user <- read_field record (Process.bytes_of "USER ") g_auth64_username (fun v s => s <| g_auth64_username := v |>) ;;
      if negb (fst user) then ret false
      else
        let '(found, alg, alg_bytes) := auth64_find_line_value record (Process.bytes_of "ALG ") (zeros 24) in
        if negb found then ret false
        else
          hash <- read_field record (Process.bytes_of "HASH ") g_auth64_password_hash (fun v s => s <| g_auth64_password_hash := v |>) ;;
          if negb (fst hash) then ret false
          else
            home <- read_field record (Process.bytes_of "HOME ") g_auth64_home (fun v s => s <| g_auth64_home := v |>) ;;
            if negb (fst home) then ret false
            else
              profile <- read_field record (Process.bytes_of "PROFILE ") g_auth64_profile (fun v s => s <| g_auth64_profile := v |>) ;;
              if negb (fst profile) then ret false
              else
                first <- gets (fun s => default 0 (g_auth64_password_hash s !! 0%nat)) ;;
                if negb (auth64_bytes_equal (take alg_bytes alg) (Process.bytes_of "bcrypt-2b-v1"))
                   || negb (snd hash =? AUTH64_BCRYPT_HASH_BYTES)%nat || negb (first =? dollar)
                then ret false
                else
                  modify (fun s => s <| g_auth64_user_store_nvme := 1 |> <| g_auth64_user_store_persistent := 1 |>
                                     <| g_auth64_bcrypt_hash := 1 |>) ;;;
                  ret true
  end.

Definition auth64_save_user_record (username password : list Z) : ST (auth_state E) bool :=
  record_bytes <- auth64_make_record username password ;;
  if (record_bytes =? 0)%nat then ret false
  else
    record <- gets (fun s => take record_bytes (g_auth64_record s)) ;;
    written <- on_env (mmio64_nvme_fat_shell_write_file g_auth64_store_path record PRINCIPAL64_ID_CONSOLE_CLIENT) ;;
    if written =? 0 then ret false else auth64_load_user_record.

(** ** Reading a line *)

(** The line typed so far, drawn when it changed. *)
Definition echo_line (field : Z) (echoed : option nat) : ST (auth_state E) nat :=
  pending <- gets (fun s => input64_keyboard_peek_line AUTH64_PASSWORD_BYTES (auth_env s)) ;;
  let pending_bytes := length pending in
  modify (fun s => s <| g_auth64_echo := overwrite_string pending (g_auth64_echo s) |>) ;;;
  (if bool_decide (echoed = Some pending_bytes) then ret tt else on_env (entropy64_stir (Z.of_nat pending_bytes))) ;;;
  shown <- gets (fun s => take pending_bytes (g_auth64_echo_shown s)) ;;
  (if negb (bool_decide (echoed = Some pending_bytes))
      || ((field =? DISPLAY64_LOGIN_FIELD_USERNAME) && negb (auth64_bytes_equal pending shown))
   then modify (fun s => s <| g_auth64_echo_shown :=
          if field =? DISPLAY64_LOGIN_FIELD_USERNAME then overwrite pending (zeros AUTH64_PASSWORD_BYTES) else zeros AUTH64_PASSWORD_BYTES |>)
   else ret tt) ;;;
  modify (fun s => s <| g_auth64_echo := zeros AUTH64_PASSWORD_BYTES |>) ;;;
  ret pending_bytes.

(** The loop of [auth64_read_login_line_captured]: the bytes and the outcome. *)
Fixpoint read_loop (fuel : nat) (capability : Z) (b : auth_buffer) (timeout start_ticks start_lines field : Z) (echoed : option nat)
    : AM (nat * Z) :=
  match fuel with
  | O => ret None
  | S fuel' =>
      on_env poll_keyboards ;;;
      line <- on_env (input64_read_keyboard_line capability (Z.of_nat (capacity_of b) - 1) PRINCIPAL64_ID_CONSOLE_CLIENT) ;;
      if fst line =? INPUT64_INVALID_RESULT then answer (0%nat, AUTH64_READ_DENIED)
      else if nz (fst line) then
        buffer <- gets (buffer_of b) ;;
        set_buffer b (store_at (Z.to_nat (fst line)) 0 (overwrite (snd line) buffer)) ;;;
        answer (Z.to_nat (fst line), AUTH64_READ_LINE)
      else
        lines <- gets (fun s => input64_keyboard_line_count (auth_env s)) ;;
        if negb (lines =? start_lines) then answer (0%nat, AUTH64_READ_EMPTY)
        else
          echoed <- echo_line field echoed ;;
          now <- gets (fun s => pit_get_ticks (auth_env s)) ;;
          if negb (timeout =? AUTH64_WAIT_FOREVER) && (timeout <=? sub32 now start_ticks) then
            modify (fun s => s <| g_auth64_hardware_fallback_count := inc32 (g_auth64_hardware_fallback_count s) |>) ;;;
            answer (0%nat, AUTH64_READ_TIMEOUT)
          else
            on_env wait_interrupt ;;;
            read_loop fuel' capability b timeout start_ticks start_lines field (Some echoed)
  end.

Definition auth64_read_login_line_captured (fuel : nat) (capability : Z) (b : auth_buffer) (timeout field : Z) : AM (nat * Z) :=
  start_ticks <- gets (fun s => pit_get_ticks (auth_env s)) ;;
  start_lines <- gets (fun s => input64_keyboard_line_count (auth_env s)) ;;
  modify (fun s => s <| g_auth64_input_wait_count := inc32 (g_auth64_input_wait_count s) |>) ;;;
  set_buffer b (zeros (capacity_of b)) ;;;
  read_loop fuel capability b timeout start_ticks start_lines field None.

Definition auth64_read_login_line (fuel : nat) (capability : Z) (b : auth_buffer) (timeout field : Z) : AM (nat * Z) :=
  modify (fun s => s <| g_auth64_keyboard_capture := 1 |>) ;;;
  res <-? auth64_read_login_line_captured fuel capability b timeout field ;;
  modify (fun s => s <| g_auth64_keyboard_capture := 0 |>) ;;;
  answer res.

(** ** Passwords and failures *)

Definition auth64_password_matches (password : list Z) : ST (auth_state E) bool :=
  stored <- gets g_auth64_password_hash ;;
  candidate <- auth64_hash_password password stored (zeros (AUTH64_BCRYPT_HASH_BYTES + 1)) ;;
  ret (auth64_bytes_equal (take AUTH64_BCRYPT_HASH_BYTES candidate) (take AUTH64_BCRYPT_HASH_BYTES stored)).

Definition auth64_accept_session : ST (auth_state E) Z :=
  modify (fun s => s <| g_auth64_login_screen := 1 |> <| g_auth64_auth_success := 1 |> <| g_auth64_failure_count := 0 |>
                     <| g_auth64_lockout_seconds := 0 |> <| g_auth64_session_authority_scoped := 1 |>) ;;;
  ret 1.

Definition auth64_is_default_account : ST (auth_state E) bool :=
  username <- gets g_auth64_username ;;
  if auth64_bytes_equal (c_string (take AUTH64_USERNAME_BYTES username)) g_auth64_default_user
  then auth64_password_matches g_auth64_default_password
  else ret false.

Definition delay_step (start wait_ticks : Z) : AM (option unit) :=
  now <- gets (fun s => pit_get_ticks (auth_env s)) ;;
  if sub32 now start <? wait_ticks then on_env wait_interrupt ;;; continue else return_ tt.

Definition auth64_delay_seconds (fuel : nat) (seconds : Z) : AM unit :=
  start <- gets (fun s => pit_get_ticks (auth_env s)) ;;
  forever fuel (delay_step start (mul32 seconds 100)).

Definition auth64_record_failure (fuel : nat) (enforce_delay : bool) : AM unit :=
  modify (fun s => s <| g_auth64_failure_count := inc32 (g_auth64_failure_count s) |> <| g_auth64_wrong_password_denied := 1 |>) ;;;
  failures <- gets g_auth64_failure_count ;;
  if 3 <=? failures then
    modify (fun s => s <| g_auth64_rate_limited := 1 |> <| g_auth64_lockout_seconds := AUTH64_RATE_LIMIT_SECONDS |>) ;;;
    if enforce_delay then
      auth64_delay_seconds fuel AUTH64_RATE_LIMIT_SECONDS ;;?
      lift (modify (fun s => s <| g_auth64_failure_count := 0 |> <| g_auth64_lockout_seconds := 0 |>))
    else answer tt
  else answer tt.

Definition auth64_init : ST (auth_state E) unit :=
  modify (fun s => s <| g_auth64_username := overwrite g_auth64_default_user (zeros AUTH64_USERNAME_BYTES) |>
                     <| g_auth64_home := overwrite g_auth64_default_home (zeros 48) |>
                     <| g_auth64_profile := overwrite g_auth64_default_profile (zeros 32) |>).

Definition auth64_run_negative_probe (fuel : nat) : AM unit :=
  matches <-? lift (auth64_password_matches (Process.bytes_of "wrong-password")) ;;
  if matches : bool then answer tt
  else auth64_record_failure fuel false ;;? auth64_record_failure fuel false ;;? auth64_record_failure fuel false.

Definition auth64_upgrade_record (password : list Z) : ST (auth_state E) unit :=
  persistent <- gets g_auth64_user_store_persistent ;;
  needed <- gets (fun s => auth64_record_needs_upgrade (g_auth64_password_hash s)) ;;
  if (persistent =? 0) || negb needed then ret tt
  else
    username <- gets (fun s => c_string (take AUTH64_USERNAME_BYTES (g_auth64_username s))) ;;
    saved <- auth64_save_user_record username password ;;
    if saved : bool then ret tt else auth64_load_user_record ;;; ret tt.

(** ** The login gate *)

Definition clear_line : ST (auth_state E) unit := set_buffer BLine (zeros AUTH64_PASSWORD_BYTES).
Definition typed (b : auth_buffer) (n : nat) (s : auth_state E) : list Z := take n (buffer_of b s).

(** The first password of a new account: [false] when input is refused. *)
Definition first_password (fuel : nat) (capability : Z) : AM (option (nat * bool)) :=
  line <-? auth64_read_login_line fuel capability BLine AUTH64_WAIT_FOREVER DISPLAY64_LOGIN_FIELD_PASSWORD ;;
  if snd line =? AUTH64_READ_DENIED then return_ (0%nat, false)
  else if snd line =? AUTH64_READ_LINE then return_ (fst line, true)
  else continue.

(** The account chosen on the first run, saved or kept in memory. *)
Definition create_account (username_bytes password_bytes : nat) : ST (auth_state E) Z :=
  username <- gets (typed BUsername username_bytes) ;;
  password <- gets (typed BLine password_bytes) ;;
  saved <- auth64_save_user_record username password ;;
  if saved : bool then clear_line ;;; auth64_accept_session
  else
    username <- gets (typed BUsername username_bytes) ;;
    record_bytes <- auth64_make_record username password ;;
    if (record_bytes =? 0)%nat then ret 0
    else
      modify (fun s => s <| g_auth64_user_store_nvme := 0 |> <| g_auth64_user_store_persistent := 0 |>) ;;;
      clear_line ;;;
      auth64_accept_session.

Definition first_run (fuel : nat) (capability : Z) : AM Z :=
  modify (fun s => s <| g_auth64_first_run_setup := 1 |> <| g_auth64_username := zeros AUTH64_USERNAME_BYTES |>) ;;;
  line <-? auth64_read_login_line fuel capability BUsername AUTH64_FIRST_RUN_DEFAULT_TICKS DISPLAY64_LOGIN_FIELD_USERNAME ;;
  if snd line =? AUTH64_READ_DENIED then answer 0
  else if negb (snd line =? AUTH64_READ_LINE) then
    (if snd line =? AUTH64_READ_TIMEOUT
     then modify (fun s => s <| g_auth64_hardware_recovery_count := inc32 (g_auth64_hardware_recovery_count s) |>) else ret tt) ;;;
    let (username_bytes, username) := auth64_copy_cstr_to_line AUTH64_USERNAME_BYTES g_auth64_default_user in
    let (password_bytes, password) := auth64_copy_cstr_to_line AUTH64_PASSWORD_BYTES g_auth64_default_password in
    set_buffer BUsername username ;;;
    set_buffer BLine password ;;;
    lift (create_account username_bytes password_bytes)
  else
    password <-? forever fuel (first_password fuel capability) ;;
    if negb (snd password) then answer 0 else lift (create_account (fst line) (fst password)).

(** One attempt to sign in. *)
Definition login_attempt (fuel : nat) (capability : Z) (default_account : bool) : AM (option Z) :=
  modify (fun s => s <| g_auth64_login_screen := 1 |>) ;;;
  line <-? auth64_read_login_line fuel capability BLine
             (if default_account then AUTH64_DEFAULT_ACCOUNT_SIGNIN_TICKS else AUTH64_WAIT_FOREVER) DISPLAY64_LOGIN_FIELD_USERNAME ;;
  if snd line =? AUTH64_READ_DENIED then return_ 0
  else if negb (snd line =? AUTH64_READ_LINE) then
    if default_account
    then v <-? lift (auth64_upgrade_record g_auth64_default_password ;;; auth64_accept_session) ;; return_ v
    else continue
  else
    name <- gets (typed BLine (fst line)) ;;
    username <- gets (fun s => c_string (take AUTH64_USERNAME_BYTES (g_auth64_username s))) ;;
    line <-? auth64_read_login_line fuel capability BLine AUTH64_WAIT_FOREVER DISPLAY64_LOGIN_FIELD_PASSWORD ;;
    if negb (auth64_bytes_equal name username) then auth64_record_failure fuel true ;;? continue
    else
      password <- gets (typed BLine (fst line)) ;;
      matches <-? (if snd line =? AUTH64_READ_LINE then lift (auth64_password_matches password) else answer false) ;;
      if negb matches then auth64_record_failure fuel true ;;? continue
      else v <-? lift (auth64_upgrade_record password ;;; clear_line ;;; auth64_accept_session) ;; return_ v.

Definition auth64_run_login_gate (fuel : nat) : AM Z :=
  auth64_init ;;;
  modify (fun s => s <| g_auth64_desktop_blocked_pre_auth := 1 |> <| g_auth64_login_display_only := 1 |> <| g_auth64_login_input_only := 1 |>) ;;;
  capability <- on_env (capability64_grant_service SERVICE_ENDPOINT_CLASS_INPUT CAPABILITY64_RIGHT_SEND PRINCIPAL64_ID_CONSOLE_CLIENT) ;;
  if capability =? CAPABILITY64_INVALID_HANDLE then answer 0
  else
    loaded <- auth64_load_user_record ;;
    if negb loaded then first_run fuel capability
    else
      auth64_run_negative_probe fuel ;;?
      modify (fun s => s <| g_auth64_failure_count := 0 |> <| g_auth64_lockout_seconds := 0 |>) ;;;
      default_account <- auth64_is_default_account ;;
      forever fuel (login_attempt fuel capability default_account).

(** ** The session lock *)

Definition auth64_controlled_lock_probe : ST (auth_state E) unit :=
  success <- gets g_auth64_auth_success ;;
  if success =? 0 then ret tt
  else modify (fun s => s <| g_auth64_session_lock := 1 |> <| g_auth64_session_unlock := 1 |>).

Definition unlock_attempt (fuel : nat) (capability : Z) : AM (option bool) :=
  line <-? auth64_read_login_line fuel capability BLine AUTH64_WAIT_FOREVER DISPLAY64_LOGIN_FIELD_PASSWORD ;;
  if snd line =? AUTH64_READ_DENIED then return_ false
  else
    password <- gets (typed BLine (fst line)) ;;
    matches <-? (if snd line =? AUTH64_READ_LINE then lift (auth64_password_matches password) else answer false) ;;
    if matches : bool then return_ true else auth64_record_failure fuel true ;;? continue.

Definition auth64_lock_session (fuel : nat) : AM Z :=
  success <- gets g_auth64_auth_success ;;
  persistent <- gets g_auth64_user_store_persistent ;;
  if (success =? 0) || (persistent =? 0) then
    modify (fun s => s <| g_auth64_lock_unavailable_count := inc32 (g_auth64_lock_unavailable_count s) |>) ;;;
    answer 0
  else
    capability <- on_env (capability64_grant_service SERVICE_ENDPOINT_CLASS_INPUT CAPABILITY64_RIGHT_SEND PRINCIPAL64_ID_CONSOLE_CLIENT) ;;
    if capability =? CAPABILITY64_INVALID_HANDLE then answer 0
    else
      modify (fun s => s <| g_auth64_session_lock := 1 |>) ;;;
      unlocked <-? forever fuel (unlock_attempt fuel capability) ;;
      if negb unlocked then answer 0
      else
        clear_line ;;;
        modify (fun s => s <| g_auth64_session_unlock := 1 |> <| g_auth64_failure_count := 0 |> <| g_auth64_lockout_seconds := 0 |>) ;;;
        answer 1.

(** ** Queries *)

Definition auth64_login_screen (s : auth_state E) : Z := g_auth64_login_screen s.
Definition auth64_first_run_setup (s : auth_state E) : Z := g_auth64_first_run_setup s.
Definition auth64_user_store_nvme (s : auth_state E) : Z := g_auth64_user_store_nvme s.
Definition auth64_user_store_persistent (s : auth_state E) : Z := g_auth64_user_store_persistent s.
Definition auth64_bcrypt_hash (s : auth_state E) : Z := g_auth64_bcrypt_hash s.
Definition auth64_auth_success (s : auth_state E) : Z := g_auth64_auth_success s.
Definition auth64_wrong_password_denied (s : auth_state E) : Z := g_auth64_wrong_password_denied s.
Definition auth64_rate_limited (s : auth_state E) : Z := g_auth64_rate_limited s.
Definition auth64_session_lock (s : auth_state E) : Z := g_auth64_session_lock s.
Definition auth64_session_unlock (s : auth_state E) : Z := g_auth64_session_unlock s.
Definition auth64_session_authority_scoped (s : auth_state E) : Z := g_auth64_session_authority_scoped s.
Definition auth64_login_display_only (s : auth_state E) : Z := g_auth64_login_display_only s.
Definition auth64_login_input_only (s : auth_state E) : Z := g_auth64_login_input_only s.
Definition auth64_desktop_blocked_pre_auth (s : auth_state E) : Z := g_auth64_desktop_blocked_pre_auth s.
Definition auth64_failure_count (s : auth_state E) : Z := g_auth64_failure_count s.
Definition auth64_lockout_seconds (s : auth_state E) : Z := g_auth64_lockout_seconds s.
Definition auth64_input_wait_count (s : auth_state E) : Z := g_auth64_input_wait_count s.
Definition auth64_hardware_fallback_count (s : auth_state E) : Z := g_auth64_hardware_fallback_count s.
Definition auth64_hardware_recovery_count (s : auth_state E) : Z := g_auth64_hardware_recovery_count s.
Definition auth64_lock_unavailable_count (s : auth_state E) : Z := g_auth64_lock_unavailable_count s.
Definition auth64_keyboard_capture_active (s : auth_state E) : Z := g_auth64_keyboard_capture s.
Definition auth64_active_user (s : auth_state E) : list Z := c_string (g_auth64_username s).
Definition auth64_home_namespace (s : auth_state E) : list Z := c_string (g_auth64_home s).
Definition auth64_session_profile (s : auth_state E) : list Z := c_string (g_auth64_profile s).

End auth.
End Auth.
