(* ===== verification/AuthFacts.v ===== *)
(** * Facts about accounts

    The text of a user record as lines, and what the parser finds in lines. *)

From S2P Require Import Prelude Principal Services64 Capability Process Auth.
Import Auth.
Local Open Scope Z_scope.
Local Open Scope kernel_scope.

Module AuthFacts.

(** ** Lines *)

Definition plain (l : list Z) : bool := forallb (fun b => negb (b =? newline)) l.
Definition unlines (ls : list (list Z)) : list Z := concat ((fun l => l ++ [newline]) <$> ls).

Lemma plain_lookup l i : plain l = true -> l !! i <> Some newline.
Proof.
  unfold plain. rewrite forallb_forall. intros H Hi. apply list_elem_of_lookup_2, list_elem_of_In, H in Hi. done.
Qed.

Lemma plain_app l1 l2 : plain (l1 ++ l2) = plain l1 && plain l2.
Proof. apply forallb_app. Qed.

Lemma unlines_app l1 l2 : unlines (l1 ++ l2) = unlines l1 ++ unlines l2.
Proof. unfold unlines. by rewrite fmap_app, concat_app. Qed.

Lemma unlines_cons l ls : unlines (l :: ls) = l ++ [newline] ++ unlines ls.
Proof. unfold unlines. rewrite fmap_cons. cbn [concat]. by rewrite <- app_assoc. Qed.

Lemma to_newline_plain l rest : plain l = true -> to_newline (l ++ newline :: rest) = l.
Proof.
  induction l as [|b l IH]; cbn [plain forallb app to_newline]; [done|]. intros [Hb Hl]%andb_true_iff. apply negb_true_iff in Hb. rewrite Hb. by f_equal; apply IH.
Qed.

(** A field name inside a text of lines stands at the start of one of them. *)
Lemma field_in_line field l rest : plain field = true -> plain l = true ->
  take (length field) (l ++ newline :: rest) = field -> field `prefix_of` l.
Proof.
  intros Hf Hl H. destruct (decide (length field <= length l)%nat) as [Hle|Hgt].
  - rewrite take_app_le in H by done. exists (drop (length field) l). by rewrite <- H at 1; rewrite take_drop.
  - exfalso. apply (plain_lookup field (length l) Hf). rewrite <- H, lookup_take_lt by lia. by apply list_lookup_middle.
Qed.

Lemma field_before field ls post : plain field = true -> Forall (fun l => plain l = true) ls ->
  Forall (fun l => ~ field `prefix_of` l) ls -> forall pre j, (length pre <= j < length pre + length (unlines ls))%nat ->
  field_at (pre ++ unlines ls ++ post) field j = false.
Proof.
  intros Hf. induction ls as [|l ls IH]; intros Hp Hn pre j Hj; [simpl in Hj; lia|].
  apply Forall_cons in Hp as [Hpl Hp], Hn as [Hnl Hn]. rewrite unlines_cons in *. rewrite <- !app_assoc. rewrite !length_app in Hj. simpl length in Hj.
  destruct (decide (j < length pre + S (length l))%nat) as [Hlt|Hge].
  - unfold field_at. destruct (decide (j = length pre)) as [->|Hne].
    + apply andb_false_iff. right. apply bool_decide_eq_false. rewrite drop_app_length. intros H. by apply Hnl, (field_in_line field l (unlines ls ++ post)).
    + apply andb_false_iff. left. apply orb_false_iff. split; [apply Nat.eqb_neq; lia|]. apply bool_decide_eq_false.
      rewrite lookup_app_r, lookup_app_l by lia. by apply plain_lookup.
  - specialize (IH Hp Hn (pre ++ l ++ [newline]) j). rewrite <- !app_assoc in IH. apply IH. rewrite !length_app. simpl. lia.
Qed.

Lemma field_here field v ls post : field_at (unlines ls ++ (field ++ v) ++ post) field (length (unlines ls)) = true.
Proof.
  unfold field_at. apply andb_true_iff. split.
  - destruct ls as [|l ls] using rev_ind; [done|]. apply orb_true_iff. right. apply bool_decide_eq_true.
    rewrite unlines_app, unlines_cons. change (unlines []) with (@nil Z). rewrite !app_nil_r, !length_app. simpl length.
    rewrite lookup_app_l by (rewrite !length_app; simpl; lia). rewrite lookup_app_r by lia. rewrite lookup_app_r by lia.
    by replace (_ - _ - _ - _)%nat with 0%nat by lia.
  - apply bool_decide_eq_true. by rewrite drop_app_length, <- app_assoc, take_app_length.
Qed.

Lemma find_index_seq P n i : (i < n)%nat -> P i = true -> (forall j, (j < i)%nat -> P j = false) -> find_index P (seq 0 n) = Some i.
Proof.
  intros Hi HP Hn. apply find_index_Some. exists i. split_and!; [by apply lookup_seq|done|]. intros j y Hj Hy. apply lookup_seq in Hy as [-> _]. by apply Hn.
Qed.

(** The parser finds the value of the first line of its field. *)
Lemma find_line ls field v post dest : plain field = true -> plain v = true -> Forall (fun l => plain l = true) ls ->
  Forall (fun l => ~ field `prefix_of` l) ls -> (length v < length dest)%nat ->
  auth64_find_line_value (unlines ls ++ (field ++ v) ++ newline :: post) field dest =
    (negb (length v =? 0)%nat, overwrite_string v dest, length v).
Proof.
  intros Hf Hv Hp Hn Hd. unfold auth64_find_line_value.
  rewrite (find_index_seq _ _ (length (unlines ls))); [| |apply field_here|].
  - rewrite <- app_assoc. rewrite drop_app_add, drop_app_length.
    assert (E : to_newline (take (length dest - 1) (v ++ newline :: post)) = v).
    { rewrite take_app_ge by lia. destruct (length dest - 1 - length v)%nat as [|n] eqn:En.
      - rewrite app_nil_r. clear -Hv. induction v as [|b v IH]; [done|]. cbn [plain forallb to_newline] in *. apply andb_true_iff in Hv as [Hb Hv].
        apply negb_true_iff in Hb. rewrite Hb. f_equal. by apply IH.
      - cbn [take]. by apply to_newline_plain. }
    by rewrite E.
  - rewrite !length_app. simpl. lia.
  - intros j Hj. apply (field_before field ls _ Hf Hp Hn []). simpl. lia.
Qed.

End AuthFacts.
