(* ===== verification/AuthStore.v ===== *)
(** * The stored account

    What saving a user record leaves on the disk and what loading reads back,
    over a disk that keeps what was written and a bcrypt whose result is its
    own setting. *)

From Stdlib Require Import String.
From S2P Require Import Prelude Principal Services64 Capability Process Auth AuthFacts.
Import Principal Services64 Capability Auth AuthFacts.
Local Open Scope Z_scope.
Local Open Scope kernel_scope.

Module AuthStore.

(** A text without an end of line or a zero, as C and the record need it. *)
Definition clean (l : list Z) : Prop := plain l = true /\ Forall (fun b => b <> 0) l.
(** A name that fits the record and its buffer. *)
Definition name_ok (u : list Z) : Prop := clean u /\ (0 < length u < AUTH64_USERNAME_BYTES)%nat.
Definition hash_ok (h : list Z) : Prop := clean h /\ length h = AUTH64_BCRYPT_HASH_BYTES /\ head h = Some dollar.

(** The documented behaviour of the disk and of bcrypt that accounts rely on. *)
Class AuthStorage (E : Type) `{AuthWorld E} := {
  stored_file : E -> option (list Z);
  read_law e d : stored_file e = Some d -> (length d < AUTH64_RECORD_BYTES)%nat ->
    exists e', mmio64_nvme_fat_shell_read_file g_auth64_store_path (AUTH64_RECORD_BYTES - 1) PRINCIPAL64_ID_CONSOLE_CLIENT e = (Some d, e')
               /\ stored_file e' = Some d;
  write_law e d : let (ok, e') := mmio64_nvme_fat_shell_write_file g_auth64_store_path d PRINCIPAL64_ID_CONSOLE_CLIENT e in
    ok <> 0 -> stored_file e' = Some d;
  crypt_law k setting h : crypt_blowfish k setting = Some h -> hash_ok h /\ crypt_blowfish k h = Some h
}.

(** Buffers of the lengths the source declares. *)
Definition buffers_ok {E} (s : auth_state E) : Prop :=
  length (g_auth64_username s) = AUTH64_USERNAME_BYTES /\ length (g_auth64_home s) = 48%nat
  /\ length (g_auth64_profile s) = 32%nat /\ length (g_auth64_password_hash s) = S AUTH64_BCRYPT_HASH_BYTES
  /\ length (g_auth64_line s) = AUTH64_PASSWORD_BYTES /\ length (g_auth64_record s) = AUTH64_RECORD_BYTES.

(** ** C strings in buffers *)

Lemma c_string_clean l rest : Forall (fun b => b <> 0) l -> c_string (l ++ 0 :: rest) = l.
Proof. induction 1 as [|b l Hb Hl IH]; [done|]. cbn [app c_string]. apply Z.eqb_neq in Hb. rewrite Hb. by f_equal. Qed.

Lemma c_string_all l : Forall (fun b => b <> 0) l -> c_string l = l.
Proof. induction 1 as [|b l Hb Hl IH]; [done|]. cbn [c_string]. apply Z.eqb_neq in Hb. rewrite Hb. by f_equal. Qed.

Lemma c_string_take_written v buffer n : Forall (fun b => b <> 0) v -> (length v < n)%nat ->
  c_string (take n (overwrite_string v buffer)) = v.
Proof.
  intros Hv Hn. unfold overwrite_string, overwrite. rewrite <- app_assoc, take_app_ge by lia.
  destruct (n - length v)%nat eqn:E; [lia|]. by apply c_string_clean.
Qed.

Lemma overwrite_string_length v buffer : (length v < length buffer)%nat -> length (overwrite_string v buffer) = length buffer.
Proof. intros H. unfold overwrite_string, overwrite. rewrite !length_app, length_drop. simpl. lia. Qed.

Lemma store_at_length i v buffer : (i < length buffer)%nat -> length (store_at i v buffer) = length buffer.
Proof. intros Hi. unfold store_at. rewrite (proj2 (Nat.ltb_lt _ _) Hi). apply length_insert. Qed.
Lemma overwrite_all v buffer : length v = length buffer -> overwrite v buffer = v.
Proof. intros H. unfold overwrite. by rewrite H, drop_all, app_nil_r. Qed.
Lemma overwrite_length v buffer : (length v <= length buffer)%nat -> length (overwrite v buffer) = length buffer.
Proof. intros H. unfold overwrite. rewrite length_app, length_drop. lia. Qed.

(** ** The record of an account *)

Definition record_lines (u h : list Z) : list (list Z) :=
  [Process.bytes_of "USER " ++ u; Process.bytes_of "ALG bcrypt-2b-v1"; Process.bytes_of "HASH " ++ h;
   Process.bytes_of "HOME /HOME/LIMITLESS"; Process.bytes_of "PROFILE local-console"].

Lemma append_bytes_fits n r t : (length r + length t < n)%nat -> auth64_append_bytes n r t = r ++ t.
Proof. intros H. unfold auth64_append_bytes. by rewrite (proj2 (Nat.leb_gt _ _) H). Qed.

Lemma append_text_fits n r t : Forall (fun b => b <> 0) t -> (length r + length t < n)%nat -> auth64_append_text n r t = r ++ t.
Proof.
  intros Ht H. unfold auth64_append_text. rewrite take_ge by lia. rewrite c_string_all by done. by apply append_bytes_fits.
Qed.

Definition nonzeros (l : list Z) : bool := forallb (fun b => negb (b =? 0)) l.
Lemma nonzeros_spec l : nonzeros l = true -> Forall (fun b => b <> 0) l.
Proof. unfold nonzeros. rewrite forallb_forall, Forall_forall. intros H x Hx. apply list_elem_of_In, H, negb_true_iff, Z.eqb_neq in Hx. done. Qed.

(** Lengths of texts with literals in them. *)
Ltac text_length :=
  rewrite ?length_app; cbn [List.length];
  repeat match goal with |- context [List.length (Process.bytes_of ?t)] =>
    let n := eval vm_compute in (List.length (Process.bytes_of t)) in change (List.length (Process.bytes_of t)) with n end;
  unfold AUTH64_USERNAME_BYTES, AUTH64_BCRYPT_HASH_BYTES, AUTH64_RECORD_BYTES in *; lia.

Lemma record_text_lines u h : name_ok u -> hash_ok h -> record_text u h = unlines (record_lines u h).
Proof.
  intros [[_ Hu] Hlu] [[_ Hh] [Hlh _]]. unfold record_text. cbv zeta.
  rewrite (append_text_fits _ []); [|by apply nonzeros_spec|text_length]. rewrite app_nil_l.
  rewrite (append_bytes_fits _ (Process.bytes_of _)) by text_length.
  rewrite (append_text_fits _ (Process.bytes_of _ ++ u)); [|by apply nonzeros_spec|text_length].
  rewrite append_bytes_fits by text_length.
  rewrite append_text_fits; [|by apply nonzeros_spec|text_length].
  unfold record_lines. rewrite !unlines_cons. change (unlines []) with (@nil Z). by rewrite <- !app_assoc.
Qed.

Lemma record_text_length u h : name_ok u -> hash_ok h -> (0 < length (record_text u h) < AUTH64_RECORD_BYTES)%nat.
Proof.
  intros Hu Hh. rewrite record_text_lines by done. destruct Hu as [_ Hu], Hh as [_ [Hh _]].
  unfold record_lines. rewrite !unlines_cons. change (unlines []) with (@nil Z). text_length.
Qed.

(** ** The fields of a record *)

Lemma plain_lines u h : plain u = true -> plain h = true -> Forall (fun l => plain l = true) (record_lines u h).
Proof. intros Hu Hh. unfold record_lines. repeat constructor; try done; by rewrite plain_app, ?Hu, ?Hh. Qed.

(** A line whose first byte differs does not have the field. *)
Lemma other_field (b c : Z) field l : b <> c -> ~ (b :: field) `prefix_of` (c :: l).
Proof. intros Hne [k Hk]. by injection Hk. Qed.

(** Splitting the record at the line of a field. *)
Lemma record_field u h field v before after dest : name_ok u -> hash_ok h -> plain field = true -> plain v = true ->
  record_lines u h = before ++ (field ++ v) :: after -> Forall (fun l => ~ field `prefix_of` l) before ->
  (length v < length dest)%nat ->
  auth64_find_line_value (record_text u h) field dest = (negb (length v =? 0)%nat, overwrite_string v dest, length v).
Proof.
  intros Hu Hh Hf Hv Hl Hn Hd. rewrite record_text_lines by done.
  pose proof (plain_lines u h (proj1 (proj1 Hu)) (proj1 (proj1 Hh))) as Hp. rewrite Hl in *.
  rewrite unlines_app, unlines_cons. apply find_line; try done. by apply Forall_app in Hp as [? _].
Qed.

Lemma no_prefix_here (field l : list Z) : take (length field) l <> field -> ~ field `prefix_of` l.
Proof. intros H [k ->]. by rewrite take_app_length in H. Qed.

Ltac other_lines := repeat constructor; apply no_prefix_here; by intros ?.

Lemma user_field u h dest : name_ok u -> hash_ok h -> (length u < length dest)%nat ->
  auth64_find_line_value (record_text u h) (Process.bytes_of "USER ") dest = (true, overwrite_string u dest, length u).
Proof.
  intros Hu Hh Hd. rewrite (record_field u h _ u [] (tail (record_lines u h))); try done; [|apply Hu].
  by destruct u; [destruct Hu as [_ [? _]]; simpl in *; lia|].
Qed.

Lemma alg_field u h dest : name_ok u -> hash_ok h -> (12 < length dest)%nat ->
  auth64_find_line_value (record_text u h) (Process.bytes_of "ALG ") dest
    = (true, overwrite_string (Process.bytes_of "bcrypt-2b-v1") dest, 12%nat).
Proof. intros Hu Hh Hd. rewrite (record_field u h _ (Process.bytes_of "bcrypt-2b-v1") (take 1 (record_lines u h)) (drop 2 (record_lines u h))); try done; other_lines. Qed.

Lemma hash_field u h dest : name_ok u -> hash_ok h -> (AUTH64_BCRYPT_HASH_BYTES < length dest)%nat ->
  auth64_find_line_value (record_text u h) (Process.bytes_of "HASH ") dest = (true, overwrite_string h dest, length h).
Proof.
  intros Hu Hh Hd. rewrite (record_field u h _ h (take 2 (record_lines u h)) (drop 3 (record_lines u h))); try done; [|apply Hh|other_lines|].
  - by destruct Hh as [_ [-> _]].
  - by destruct Hh as [_ [-> _]].
Qed.

Lemma home_field u h dest : name_ok u -> hash_ok h -> (15 < length dest)%nat ->
  auth64_find_line_value (record_text u h) (Process.bytes_of "HOME ") dest = (true, overwrite_string g_auth64_default_home dest, 15%nat).
Proof. intros Hu Hh Hd. rewrite (record_field u h _ g_auth64_default_home (take 3 (record_lines u h)) (drop 4 (record_lines u h))); try done; other_lines. Qed.

Lemma profile_field u h dest : name_ok u -> hash_ok h -> (13 < length dest)%nat ->
  auth64_find_line_value (record_text u h) (Process.bytes_of "PROFILE ") dest = (true, overwrite_string g_auth64_default_profile dest, 13%nat).
Proof. intros Hu Hh Hd. rewrite (record_field u h _ g_auth64_default_profile (take 4 (record_lines u h)) []); try done; other_lines. Qed.

(** ** Loading *)

Section storage.
Context {E : Type} {world : AuthWorld E} {storage : AuthStorage E}.
Implicit Types s : auth_state E.

(** The account [u] with the password hash [h] is the one in memory. *)
Definition account (u h : list Z) (s : auth_state E) : Prop :=
  auth64_active_user s = u /\ auth64_home_namespace s = g_auth64_default_home /\ auth64_session_profile s = g_auth64_default_profile
  /\ g_auth64_password_hash s = h ++ [0] /\ g_auth64_user_store_persistent s = 1.

Lemma wp_on_env {A} (m : ST E A) (Q : A -> auth_state E -> Prop) s :
  (forall a e, m (auth_env s) = (a, e) -> Q a (s <| auth_env := e |>)) -> wp (on_env m) Q s.
Proof. intros H. unfold wp, on_env. destruct (m (auth_env s)) as [a e] eqn:Em. by apply H. Qed.

(** The value of a field that is there. *)
Lemma wp_read_field record field get put v n (Q : bool * nat -> auth_state E -> Prop) s :
  auth64_find_line_value record field (get s) = (true, v, n) -> Q (true, n) (put v s) -> wp (read_field record field get put) Q s.
Proof. intros Hv HQ. unfold read_field. apply wp_bind, wp_gets. rewrite Hv. exact HQ. Qed.

Lemma c_string_written v buffer : Forall (fun b => b <> 0) v -> c_string (overwrite_string v buffer) = v.
Proof. intros H. unfold overwrite_string, overwrite. rewrite <- app_assoc. by apply c_string_clean. Qed.

Lemma load_stored u h s : name_ok u -> hash_ok h -> buffers_ok s -> stored_file (auth_env s) = Some (record_text u h) ->
  wp auth64_load_user_record (fun ok s' => ok = true /\ account u h s' /\ buffers_ok s' /\ stored_file (auth_env s') = Some (record_text u h)) s.
Proof.
  intros Hu Hh (B1 & B2 & B3 & B4 & B5 & B6) Hf. unfold auth64_load_user_record.
  apply wp_bind, wp_modify, wp_bind, wp_on_env. intros a e Hr.
  destruct (read_law (auth_env s) (record_text u h)) as (e' & Hr' & Hf'); [done|by apply record_text_length|].
  change (auth_env _) with (auth_env s) in Hr. rewrite Hr' in Hr. injection Hr as <- <-. cbn beta iota.
  assert (D1 : (length u < length (g_auth64_username s))%nat) by (rewrite B1; apply Hu).
  assert (D2 : (AUTH64_BCRYPT_HASH_BYTES < length (g_auth64_password_hash s))%nat) by (rewrite B4; lia).
  assert (D3 : (15 < length (g_auth64_home s))%nat) by (rewrite B2; lia).
  assert (D4 : (13 < length (g_auth64_profile s))%nat) by (rewrite B3; lia).
  apply wp_bind, wp_modify, wp_bind. eapply wp_read_field; [exact (user_field u h _ Hu Hh D1)|]. cbn [fst negb].
  rewrite alg_field by (first [done | simpl; lia]). cbn [negb].
  apply wp_bind. eapply wp_read_field; [exact (hash_field u h _ Hu Hh D2)|]. cbn [fst negb].
  apply wp_bind. eapply wp_read_field; [exact (home_field u h _ Hu Hh D3)|]. cbn [fst negb].
  apply wp_bind. eapply wp_read_field; [exact (profile_field u h _ Hu Hh D4)|]. cbn [fst negb].
  assert (Eh : overwrite_string h (g_auth64_password_hash s) = h ++ [0]).
  { unfold overwrite_string, overwrite. rewrite drop_ge; [by rewrite app_nil_r|]. rewrite length_app, B4. destruct Hh as [_ [-> _]]. cbn [length]. lia. }
  apply wp_bind, wp_gets.
  match goal with |- wp (if ?c then _ else _) _ _ => assert (Ec : c = false) end.
  { change (negb (auth64_bytes_equal (take 12 (overwrite_string (Process.bytes_of "bcrypt-2b-v1") (zeros 24))) (Process.bytes_of "bcrypt-2b-v1"))
      || negb (length h =? AUTH64_BCRYPT_HASH_BYTES)%nat || negb (default 0 (overwrite_string h (g_auth64_password_hash s) !! 0%nat) =? dollar) = false).
    rewrite Eh. destruct Hh as [_ [-> Hd]]. destruct h; [done|]. injection Hd as ->. by vm_compute. }
  rewrite Ec. apply wp_bind, wp_modify, wp_ret.
  pose proof (record_text_length u h Hu Hh) as Hr. destruct Hu as [[_ Hu] Hlu], Hh as [[_ Hh] [Hlh Hd]].
  split; [done|]. split; [|split; [|exact Hf']].
  - split; [exact (c_string_written _ _ Hu)|]. split; [exact (c_string_written g_auth64_default_home _ (nonzeros_spec g_auth64_default_home eq_refl))|].
    split; [exact (c_string_written g_auth64_default_profile _ (nonzeros_spec g_auth64_default_profile eq_refl))|]. split; [exact Eh|done].
  - repeat split.
    + exact (eq_trans (overwrite_string_length _ _ D1) B1).
    + exact (eq_trans (overwrite_string_length g_auth64_default_home _ D3) B2).
    + exact (eq_trans (overwrite_string_length g_auth64_default_profile _ D4) B3).
    + refine (eq_trans (overwrite_string_length _ _ _) B4). by rewrite Hlh.
    + exact B5.
    + exact (overwrite_length _ (zeros AUTH64_RECORD_BYTES) (Nat.lt_le_incl _ _ (proj2 Hr))).
Qed.
(** ** Hashing *)

Lemma take_hash h n : length h = AUTH64_BCRYPT_HASH_BYTES -> take AUTH64_BCRYPT_HASH_BYTES (overwrite h (zeros n)) = h.
Proof. intros H. unfold overwrite. rewrite <- H. by rewrite take_app_length. Qed.

(** What a password becomes under a setting, and the flag that says so. *)
Lemma hash_password_run password setting out s : length out = S AUTH64_BCRYPT_HASH_BYTES ->
  auth64_hash_password password setting out s =
  match crypt_blowfish (c_string (take AUTH64_PASSWORD_BYTES password)) (c_string setting) with
  | Some h => (h ++ [0], s <| g_auth64_bcrypt_hash := 1 |>)
  | None => (store_at 0 0 out, s <| g_auth64_bcrypt_hash := 0 |>)
  end.
Proof.
  intros Ho. unfold auth64_hash_password. destruct (crypt_blowfish _ _) as [h|] eqn:Ec; [|done].
  destruct (crypt_law _ _ _ Ec) as [[_ [Hl Hd]] _]. destruct h as [|c h]; [done|]. simpl in Hd. injection Hd as ->.
  rewrite Z.eqb_refl. unfold bind, modify, ret, overwrite_string. rewrite take_hash, overwrite_all by first [exact Hl | rewrite length_app, Hl, Ho; reflexivity].
  done.
Qed.

(** A password matches when bcrypt gives the stored hash back. *)
Lemma matches_run q h s : hash_ok h -> g_auth64_password_hash s = h ++ [0] ->
  exists b, auth64_password_matches q s =
    (bool_decide (crypt_blowfish (c_string (take AUTH64_PASSWORD_BYTES q)) h = Some h), s <| g_auth64_bcrypt_hash := b |>).
Proof.
  intros [[_ Hz] [Hl Hd]] Hs. 
  assert (Er : auth64_password_matches q s =
    let p := auth64_hash_password q (g_auth64_password_hash s) (zeros (AUTH64_BCRYPT_HASH_BYTES + 1)) s in
    (auth64_bytes_equal (take AUTH64_BCRYPT_HASH_BYTES (fst p)) (take AUTH64_BCRYPT_HASH_BYTES (g_auth64_password_hash s)), snd p)) by done.
  rewrite Er, hash_password_run, Hs, c_string_clean by done. clear Er. cbv zeta.
  assert (Et : take AUTH64_BCRYPT_HASH_BYTES (h ++ [0]) = h) by (rewrite <- Hl; apply take_app_length). rewrite Et.
  destruct (crypt_blowfish _ h) as [h'|] eqn:Ec.
  - destruct (crypt_law _ _ _ Ec) as [[_ [Hl' _]] _]. exists 1. unfold auth64_bytes_equal.
    assert (Et' : take AUTH64_BCRYPT_HASH_BYTES (h' ++ [0]) = h') by (rewrite <- Hl'; apply take_app_length). cbn [fst snd]. rewrite Et'.
    f_equal. apply bool_decide_ext. split; [by intros ->|by intros [=]].
  - exists 0. f_equal. unfold auth64_bytes_equal. rewrite !bool_decide_eq_false_2; [done|done|]. intros <-. done.
Qed.

(** ** Saving *)

Definition setting_of (salt : list Z) : list Z := g_auth64_bcrypt_prefix ++ salt_text salt.

(** The hash a new record of [password] gets, and what writing it answers. *)
Definition new_hash (password : list Z) (s : auth_state E) : option (list Z) :=
  crypt_blowfish (c_string (take AUTH64_PASSWORD_BYTES password))
    (c_string (setting_of (fst (entropy64_fill AUTH64_BCRYPT_SALT_RAW_BYTES (auth_env s))))).
Definition write_of (u h : list Z) (s : auth_state E) : Z :=
  fst (mmio64_nvme_fat_shell_write_file g_auth64_store_path (record_text u h) PRINCIPAL64_ID_CONSOLE_CLIENT
         (snd (entropy64_fill AUTH64_BCRYPT_SALT_RAW_BYTES (auth_env s)))).

Lemma make_record_run u password s : name_ok u -> buffers_ok s ->
  wp (auth64_make_record u password) (fun n s' =>
    auth_env s' = snd (entropy64_fill AUTH64_BCRYPT_SALT_RAW_BYTES (auth_env s)) /\ buffers_ok s' /\
    match new_hash password s with
    | Some h => n = length (record_text u h) /\ take n (g_auth64_record s') = record_text u h /\ g_auth64_password_hash s' = h ++ [0]
    | None => n = 0%nat
    end) s.
Proof.
  intros Hu (B1 & B2 & B3 & B4 & B5 & B6). unfold auth64_make_record, auth64_make_bcrypt_setting, new_hash, setting_of.
  apply wp_bind, wp_modify, wp_bind, wp_bind, wp_on_env. intros salt e He.
  change (auth_env (s <| g_auth64_record := zeros AUTH64_RECORD_BYTES |>)) with (auth_env s) in He. rewrite He. cbn [fst snd].
  apply wp_ret, wp_bind, wp_gets, wp_bind. unfold wp at 1. rewrite hash_password_run by exact B4.
  destruct (crypt_blowfish _ _) as [h|] eqn:Ec; cbn [fst snd].
  - destruct (crypt_law _ _ _ Ec) as [Hh _]. pose proof (record_text_length u h Hu Hh) as Hr.
    assert (Et : take AUTH64_BCRYPT_HASH_BYTES (h ++ [0]) = h) by (destruct Hh as [_ [<- _]]; apply take_app_length).
    rewrite Et. unfold wp, bind, modify, gets, ret. cbn beta iota zeta. cbn [fst snd].
    match goal with |- context [if ?c then _ else _] => change c with false end. cbn beta iota zeta. cbn [fst snd].
    split; [done|]. split; [|split; [done|split; [|done]]].
    + repeat split; [exact B1|exact B2|exact B3| |exact B5|].
      * change (length (h ++ [0]) = S AUTH64_BCRYPT_HASH_BYTES). rewrite length_app. destruct Hh as [_ [-> _]]. done.
      * exact (overwrite_length _ (zeros AUTH64_RECORD_BYTES) (Nat.lt_le_incl _ _ (proj2 Hr))).
    + change (take (length (record_text u h)) (overwrite (record_text u h) (zeros AUTH64_RECORD_BYTES)) = record_text u h).
      unfold overwrite. apply take_app_length.
  - unfold wp, bind, modify, gets, ret. cbn beta iota zeta. cbn [fst snd].
    match goal with |- context [if ?c then _ else _] => change c with true end. cbn beta iota zeta. cbn [fst snd].
    split; [done|]. split; [|done]. repeat split; [exact B1|exact B2|exact B3| |exact B5].
    change (length (store_at 0 0 (g_auth64_password_hash s)) = S AUTH64_BCRYPT_HASH_BYTES). rewrite store_at_length; [exact B4|]. rewrite B4. lia.
Qed.

Lemma save_run u password s : name_ok u -> buffers_ok s ->
  wp (auth64_save_user_record u password) (fun ok s' =>
    match new_hash password s with
    | Some h => ok = negb (write_of u h s =? 0) /\
        (ok = true -> account u h s' /\ buffers_ok s' /\ stored_file (auth_env s') = Some (record_text u h))
    | None => ok = false
    end) s.
Proof.
  intros Hu Hb. unfold auth64_save_user_record. apply wp_bind. eapply wp_mono; [by apply make_record_run|].
  intros n s1 (He & B1 & Hn). destruct (new_hash password s) as [h|] eqn:Eh.
  - destruct Hn as (-> & Ht & Hp). unfold new_hash in Eh. destruct (crypt_law _ _ _ Eh) as [Hh _].
    pose proof (record_text_length u h Hu Hh) as Hr. rewrite (proj2 (Nat.eqb_neq _ _)) by lia.
    apply wp_bind, wp_gets. rewrite Ht. apply wp_bind, wp_on_env. intros w e Hw. unfold write_of. rewrite He in Hw. rewrite Hw. cbn [fst].
    destruct (w =? 0) eqn:E0; [by apply wp_ret|]. apply Z.eqb_neq in E0.
    pose proof (write_law (snd (entropy64_fill AUTH64_BCRYPT_SALT_RAW_BYTES (auth_env s))) (record_text u h)) as Hl. rewrite Hw in Hl.
    eapply wp_mono; [apply (load_stored u h); [done|done|exact B1|exact (Hl E0)]|].
    intros ok s2 (-> & Ha & Hb2 & Hf). done.
  - subst n. by apply wp_ret.
Qed.
End storage.

End AuthStore.
