(* ===== verification/AuthGate.v ===== *)
(** * The login gate

    What one attempt to sign in or to unlock reads and decides, and the loops
    around it; the credentials in memory stay as they are while attempts are
    turned away. *)

From S2P Require Import Prelude Principal Services64 Capability Process Auth AuthFacts AuthStore.
Import Principal Services64 Capability Auth AuthFacts AuthStore.
Local Open Scope Z_scope.
Local Open Scope kernel_scope.

Module AuthGate.

Section gate.
Context {E : Type} {world : AuthWorld E}.
Implicit Types s : auth_state E.

(** ** Calls that may wait *)

Lemma then_run {A B} (m : AM A) (k : A -> AM B) s : then_ m k s =
  match m s with (Some a, s') => k a s' | (None, s') => (None, s') end.
Proof. unfold then_, bind. destruct (m s) as [[a|] s']; done. Qed.

(** A loop returns when some attempt within its fuel does, after attempts that
    went on. *)
Lemma forever_returns {A} (body : AM (option A)) fuel s a s' :
  forever fuel body s = (Some a, s') <->
  exists k s0, (k < fuel)%nat /\ nsteps (fun x y => body x = (Some None, y)) k s s0 /\ body s0 = (Some (Some a), s').
Proof.
  revert s. induction fuel as [|fuel IH]; intros s.
  - split; [done|]. intros (k & s0 & Hk & _). lia.
  - cbn [forever]. rewrite then_run. split.
    + destruct (body s) as [[[b|]|] s1] eqn:Eb; intros H.
      * injection H as -> ->. exists 0%nat, s. split_and!; [lia|constructor|done].
      * apply IH in H as (k & s0 & Hk & Hn & H0). exists (S k), s0. split_and!; [lia|by econstructor|done].
      * done.
    + intros (k & s0 & Hk & Hn & H0). destruct k as [|k]; inversion Hn; subst.
      * by rewrite H0.
      * match goal with H : body s = _ |- _ => rewrite H end. apply IH. exists k, s0. split_and!; [lia|done|done].
Qed.

Lemma steps_keep (R : auth_state E -> auth_state E -> Prop) (I : auth_state E -> Prop) k s s' :
  (forall x y, R x y -> I x -> I y) -> nsteps R k s s' -> I s -> I s'.
Proof. intros H Hn. induction Hn; eauto. Qed.

(** ** Credentials *)

(** The hash of a password under the stored one, as the comparison sees it. *)
Definition hash_candidate (stored password : list Z) : list Z :=
  match crypt_blowfish (c_string (take AUTH64_PASSWORD_BYTES password)) (c_string stored) with
  | Some (c :: result) => if c =? dollar then take AUTH64_BCRYPT_HASH_BYTES (overwrite (c :: result) (zeros 64)) else zeros AUTH64_BCRYPT_HASH_BYTES
  | _ => zeros AUTH64_BCRYPT_HASH_BYTES
  end.
Definition password_ok (stored password : list Z) : bool :=
  bool_decide (hash_candidate stored password = take AUTH64_BCRYPT_HASH_BYTES stored).

Lemma candidate_length (l : list Z) : length (take AUTH64_BCRYPT_HASH_BYTES (overwrite l (zeros 64))) = AUTH64_BCRYPT_HASH_BYTES.
Proof.
  rewrite length_take. unfold overwrite. rewrite length_app, length_drop.
  change (length (zeros 64)) with 64%nat. unfold AUTH64_BCRYPT_HASH_BYTES. lia.
Qed.
Lemma take_candidate (l out : list Z) :
  take AUTH64_BCRYPT_HASH_BYTES (overwrite_string (take AUTH64_BCRYPT_HASH_BYTES (overwrite l (zeros 64))) out)
  = take AUTH64_BCRYPT_HASH_BYTES (overwrite l (zeros 64)).
Proof.
  unfold overwrite_string. set (c := take AUTH64_BCRYPT_HASH_BYTES (overwrite l (zeros 64))). unfold overwrite.
  rewrite <- app_assoc, <- (candidate_length l). fold c. apply take_app_length.
Qed.

Lemma matches_decides q s : exists b,
  auth64_password_matches q s = (password_ok (g_auth64_password_hash s) q, s <| g_auth64_bcrypt_hash := b |>).
Proof.
  assert (Er : auth64_password_matches q s =
    let p := auth64_hash_password q (g_auth64_password_hash s) (zeros (AUTH64_BCRYPT_HASH_BYTES + 1)) s in
    (auth64_bytes_equal (take AUTH64_BCRYPT_HASH_BYTES (fst p)) (take AUTH64_BCRYPT_HASH_BYTES (g_auth64_password_hash s)), snd p)) by done.
  rewrite Er. clear Er. unfold auth64_hash_password, password_ok, hash_candidate.
  destruct (crypt_blowfish _ _) as [[|c h]|]; [by exists 0| |by exists 0].
  destruct (c =? dollar); [|by exists 0]. exists 1. unfold bind, modify, ret. cbn [fst snd]. by rewrite take_candidate.
Qed.

(** The credentials in memory. *)
Definition credentials (u h : list Z) (s : auth_state E) : Prop := g_auth64_username s = u /\ g_auth64_password_hash s = h.

Lemma preserves_on_env {A} (I : auth_state E -> Prop) (m : ST E A) :
  (forall s e, I s -> I (s <| auth_env := e |>)) -> preserves I (on_env m).
Proof. intros H s Hs. apply wp_on_env. intros. by apply H. Qed.

Lemma preserves_then {A B} (I : auth_state E -> Prop) (m : AM A) (k : A -> AM B) :
  preserves I m -> (forall a, preserves I (k a)) -> preserves I (then_ m k).
Proof. intros Hm Hk. unfold then_. apply preserves_bind; [done|]. intros [a|]; [apply Hk|apply preserves_ret]. Qed.

Lemma preserves_lift {A} (I : auth_state E -> Prop) (m : ST (auth_state E) A) : preserves I m -> preserves I (lift m).
Proof. intros H s Hs. specialize (H s Hs). unfold wp, lift in *. destruct (m s). exact H. Qed.

Lemma preserves_forever {A} (I : auth_state E -> Prop) (body : AM (option A)) fuel : preserves I body -> preserves I (forever fuel body).
Proof.
  intros H. induction fuel as [|fuel IH]; cbn [forever]; [apply preserves_ret|].
  apply preserves_then; [done|]. intros [a|]; [apply preserves_ret|done].
Qed.

(** ** What reading a line leaves alone *)

(** [I] does not depend on the buffers, counters and flags of reading. *)
Record reading_free (I : auth_state E -> Prop) : Prop := {
  free_line v s : I s -> I (s <| g_auth64_line := v |>);
  free_echo v s : I s -> I (s <| g_auth64_echo := v |>);
  free_shown v s : I s -> I (s <| g_auth64_echo_shown := v |>);
  free_capture v s : I s -> I (s <| g_auth64_keyboard_capture := v |>);
  free_waits v s : I s -> I (s <| g_auth64_input_wait_count := v |>);
  free_fallback v s : I s -> I (s <| g_auth64_hardware_fallback_count := v |>);
  free_poll : preserves I (on_env poll_keyboards);
  free_input cap n who : preserves I (on_env (input64_read_keyboard_line cap n who));
  free_stir v : preserves I (on_env (entropy64_stir v));
  free_wait : preserves I (on_env wait_interrupt)
}.

Ltac free_step HI :=
  first [ preserves_step
        | exact (free_poll _ HI) | exact (free_input _ HI _ _ _) | exact (free_stir _ HI _) | exact (free_wait _ HI)
        | apply preserves_modify; intros ? ?
        | match goal with Hs : _ ?s |- _ _ =>
            first [exact (free_line _ HI _ _ Hs) | exact (free_echo _ HI _ _ Hs) | exact (free_shown _ HI _ _ Hs)
                  | exact (free_capture _ HI _ _ Hs) | exact (free_waits _ HI _ _ Hs) | exact (free_fallback _ HI _ _ Hs)] end ].

Lemma echo_line_keeps I field echoed : reading_free I -> preserves I (echo_line field echoed).
Proof.
  intros HI. unfold echo_line. repeat free_step HI.
Qed.

Lemma auth_read_loop_keeps I fuel cap timeout t0 l0 field echoed : reading_free I ->
  preserves I (read_loop fuel cap BLine timeout t0 l0 field echoed).
Proof.
  intros HI. revert echoed. induction fuel as [|fuel IH]; intros echoed; cbn [read_loop]; [apply preserves_ret|].
  unfold answer, set_buffer. repeat (apply IH || apply (echo_line_keeps I _ _ HI) || free_step HI).
Qed.

Lemma auth_read_keeps I fuel cap timeout field : reading_free I -> preserves I (auth64_read_login_line fuel cap BLine timeout field).
Proof.
  intros HI. unfold auth64_read_login_line, auth64_read_login_line_captured, answer, set_buffer.
  apply preserves_bind; [repeat free_step HI|]. intros _. apply preserves_then.
  - repeat (apply (auth_read_loop_keeps I _ _ _ _ _ _ _ HI) || free_step HI).
  - intros r. repeat free_step HI.
Qed.

Lemma credentials_free u h : reading_free (credentials u h).
Proof. by split; try (intros; apply preserves_on_env). Qed.

Lemma delay_credentials u h fuel n : preserves (credentials u h) (auth64_delay_seconds fuel n).
Proof.
  unfold auth64_delay_seconds. apply preserves_bind; [apply preserves_gets|]. intros t0. apply preserves_forever.
  unfold delay_step, continue, return_, answer. repeat preserves_step. by apply preserves_on_env.
Qed.

Lemma failure_credentials u h fuel enforce : preserves (credentials u h) (auth64_record_failure fuel enforce).
Proof.
  unfold auth64_record_failure. apply preserves_bind; [by apply preserves_modify|]. intros _.
  apply preserves_bind; [apply preserves_gets|]. intros n. apply preserves_if; [|apply preserves_ret].
  apply preserves_bind; [by apply preserves_modify|]. intros _. apply preserves_if; [|apply preserves_ret].
  apply preserves_then; [apply delay_credentials|]. intros _. by apply preserves_lift, preserves_modify.
Qed.

Lemma matches_credentials u h q : preserves (credentials u h) (auth64_password_matches q).
Proof. intros s Hs. unfold wp. destruct (matches_decides q s) as [b ->]. exact Hs. Qed.

(** ** One attempt *)

(** The lines typed at the two prompts of an attempt that starts in [s]. *)
Definition enters (fuel : nat) (cap : Z) (s : auth_state E) (name password : list Z) (s' : auth_state E) : Prop :=
  exists n m s1,
    auth64_read_login_line fuel cap BLine AUTH64_WAIT_FOREVER DISPLAY64_LOGIN_FIELD_USERNAME (s <| g_auth64_login_screen := 1 |>)
      = (Some (n, AUTH64_READ_LINE), s1) /\ typed BLine n s1 = name /\
    auth64_read_login_line fuel cap BLine AUTH64_WAIT_FOREVER DISPLAY64_LOGIN_FIELD_PASSWORD s1
      = (Some (m, AUTH64_READ_LINE), s') /\ typed BLine m s' = password.

(** The attempt is turned away and the next one begins. *)
Definition turned_away (fuel : nat) (cap : Z) (s s' : auth_state E) : Prop := login_attempt fuel cap false s = (Some None, s').

(** The username in memory as a C string. *)
Definition user_of (u : list Z) : list Z := c_string (take AUTH64_USERNAME_BYTES u).

Lemma run_keeps {A} I (m : ST (auth_state E) A) s a s' : preserves I m -> I s -> m s = (a, s') -> I s'.
Proof. intros H Hs Hm. specialize (H s Hs). unfold wp in H. by rewrite Hm in H. Qed.

Lemma lift_return {A} (m : ST (auth_state E) A) s : then_ (lift m) return_ s = (Some (Some (fst (m s))), snd (m s)).
Proof. rewrite then_run. unfold lift. by destruct (m s). Qed.

(** The attempt as its two reads and what follows. *)
Lemma attempt_run fuel cap s : login_attempt fuel cap false s =
  match auth64_read_login_line fuel cap BLine AUTH64_WAIT_FOREVER DISPLAY64_LOGIN_FIELD_USERNAME (s <| g_auth64_login_screen := 1 |>) with
  | (None, s1) => (None, s1)
  | (Some (n, o), s1) =>
      if o =? AUTH64_READ_DENIED then (Some (Some 0), s1)
      else if negb (o =? AUTH64_READ_LINE) then (Some None, s1)
      else
        match auth64_read_login_line fuel cap BLine AUTH64_WAIT_FOREVER DISPLAY64_LOGIN_FIELD_PASSWORD s1 with
        | (None, s2) => (None, s2)
        | (Some (m, o2), s2) =>
            if bool_decide (typed BLine n s1 = user_of (g_auth64_username s1)) then
              if (o2 =? AUTH64_READ_LINE) && password_ok (g_auth64_password_hash s2) (typed BLine m s2)
              then then_ (lift (auth64_upgrade_record (typed BLine m s2) ;;; clear_line ;;; auth64_accept_session)) return_
                     (snd (auth64_password_matches (typed BLine m s2) s2))
              else then_ (auth64_record_failure fuel true) (fun _ => continue)
                     (if o2 =? AUTH64_READ_LINE then snd (auth64_password_matches (typed BLine m s2) s2) else s2)
            else then_ (auth64_record_failure fuel true) (fun _ => continue) s2
        end
  end.
Proof.
  unfold login_attempt. change (bind (modify ?f) ?k s) with (k tt (f s)). cbn beta. rewrite then_run.
  destruct (auth64_read_login_line _ _ _ _ _ _) as [[[n o]|] s1]; [|done]. cbn [fst snd].
  destruct (o =? AUTH64_READ_DENIED); [done|]. destruct (o =? AUTH64_READ_LINE); [|done]. cbn [negb].
  change (bind (gets ?f) ?k s1) with (k (f s1) s1). cbn beta. change (bind (gets ?f) ?k s1) with (k (f s1) s1). cbn beta. rewrite then_run.
  destruct (auth64_read_login_line _ _ _ _ _ s1) as [[[m o2]|] s2]; [|done]. cbn [fst snd].
  unfold auth64_bytes_equal. fold (user_of (g_auth64_username s1)). destruct (bool_decide _); [|done]. cbn [negb].
  change (bind (gets ?f) ?k s2) with (k (f s2) s2). cbn beta. rewrite then_run.
  destruct (o2 =? AUTH64_READ_LINE); [|done]. unfold lift at 1. cbn [andb].
  destruct (matches_decides (typed BLine m s2) s2) as [b Eb]. rewrite Eb. cbn [snd].
  destruct (password_ok _ _); done.
Qed.

Lemma turned_away_credentials u h fuel cap s s' : credentials u h s -> turned_away fuel cap s s' -> credentials u h s'.
Proof.
  intros Hc Ht. unfold turned_away in Ht. rewrite attempt_run in Ht.
  destruct (auth64_read_login_line _ _ _ _ _ _) as [[[n o]|] s1] eqn:E1; [|done].
  assert (H1 : credentials u h s1) by (refine (run_keeps _ _ _ _ _ (auth_read_keeps _ _ _ _ _ (credentials_free u h)) _ E1); exact Hc).
  destruct (o =? AUTH64_READ_DENIED); [done|]. destruct (o =? AUTH64_READ_LINE); [|by injection Ht as <-]. cbn [negb] in Ht.
  destruct (auth64_read_login_line _ _ _ _ _ s1) as [[[m o2]|] s2] eqn:E2; [|done].
  pose proof (run_keeps _ _ _ _ _ (auth_read_keeps _ _ _ _ _ (credentials_free u h)) H1 E2) as H2.
  assert (Hf : preserves (credentials u h) (then_ (auth64_record_failure fuel true) (fun _ => @continue _ Z))).
  { apply preserves_then; [apply failure_credentials|]. intros _. apply preserves_ret. }
  assert (H2' : credentials u h (snd (auth64_password_matches (typed BLine m s2) s2))) by (destruct (matches_decides (typed BLine m s2) s2) as [b ->]; exact H2).
  destruct (bool_decide _); [|exact (run_keeps _ _ _ _ _ Hf H2 Ht)].
  destruct (_ && _).
  - by rewrite lift_return in Ht.
  - refine (run_keeps _ _ _ _ _ Hf _ Ht). by destruct (o2 =? _).
Qed.

Lemma turned_away_all u h fuel cap k s s' : credentials u h s -> nsteps (turned_away fuel cap) k s s' -> credentials u h s'.
Proof. intros Hc Hn. refine (steps_keep _ _ _ _ _ _ Hn Hc). intros x y H Hx. by eapply turned_away_credentials. Qed.

(** An attempt is admitted exactly with the credentials in memory. *)
Lemma attempt_admits u h fuel cap s : credentials u h s ->
  (exists s', login_attempt fuel cap false s = (Some (Some 1), s')) <->
  exists name password s', enters fuel cap s name password s' /\ name = user_of u /\ password_ok h password = true.
Proof.
  intros Hc. rewrite attempt_run. unfold enters.
  destruct (auth64_read_login_line _ _ _ _ _ _) as [[[n o]|] s1] eqn:E1.
  2: { split; [by intros []|]. intros (? & ? & ? & (? & ? & ? & H & _) & _). done. }
  assert (H1 : credentials u h s1) by (refine (run_keeps _ _ _ _ _ (auth_read_keeps _ _ _ _ _ (credentials_free u h)) _ E1); exact Hc).
  destruct (o =? AUTH64_READ_DENIED) eqn:Ed.
  { apply Z.eqb_eq in Ed as ->. split; [by intros []|]. intros (? & ? & ? & (? & ? & ? & H & _) & _). done. }
  destruct (o =? AUTH64_READ_LINE) eqn:El; cbn [negb].
  2: { apply Z.eqb_neq in El. split; [by intros []|]. intros (? & ? & ? & (? & ? & ? & H & _) & _). by injection H as _ -> _. }
  apply Z.eqb_eq in El as ->.
  destruct (auth64_read_login_line _ _ _ _ _ s1) as [[[m o2]|] s2] eqn:E2.
  2: { split; [by intros []|]. intros (? & ? & ? & (? & ? & ? & H & _ & H' & _) & _). injection H as <- <-. congruence. }
  pose proof (run_keeps _ _ _ _ _ (auth_read_keeps _ _ _ _ _ (credentials_free u h)) H1 E2) as H2.
  destruct H1 as [U1 _], H2 as [_ P2]. rewrite U1, P2.
  assert (Hf : forall x s', then_ (auth64_record_failure fuel true) (fun _ => @continue _ Z) x <> (Some (Some 1), s')).
  { intros x s'. rewrite then_run. by destruct (auth64_record_failure _ _ _) as [[]]. }
  split.
  - intros [s' H]. case_bool_decide as Hn; [|by apply Hf in H].
    destruct ((o2 =? AUTH64_READ_LINE) && password_ok h (typed BLine m s2)) eqn:Ep; [|by apply Hf in H].
    apply andb_true_iff in Ep as [Eo Ep]. apply Z.eqb_eq in Eo as ->. by exists (typed BLine n s1), (typed BLine m s2), s2; split; [exists n, m, s1|].
  - intros (name & password & s' & (n' & m' & s1' & R1 & <- & R2 & <-) & Hn & Hp).
    injection R1 as <- <-. rewrite E2 in R2. injection R2 as <- -> <-.
    rewrite bool_decide_eq_true_2, Hp by done. rewrite lift_return. eexists. reflexivity.
Qed.

End gate.

End AuthGate.

(** ** Loops of the login gate

    The gate and the session lock as loops of attempts, the time that failed
    attempts cost and the fuel with which waiting ends, over a tick counter
    that does not run backwards. *)

Import Principal Services64 Capability Auth AuthFacts AuthStore AuthGate.
Local Open Scope Z_scope.
Local Open Scope kernel_scope.

Module AuthLimits.

Section loops.
Context {E : Type} {world : AuthWorld E}.
Implicit Types s : auth_state E.

(** ** The gate around its loop *)

(** The gate up to the load of the record: the input capability. *)
Definition gate_opening : ST (auth_state E) Z :=
  auth64_init ;;;
  modify (fun s => s <| g_auth64_desktop_blocked_pre_auth := 1 |> <| g_auth64_login_display_only := 1 |> <| g_auth64_login_input_only := 1 |>) ;;;
  on_env (capability64_grant_service SERVICE_ENDPOINT_CLASS_INPUT CAPABILITY64_RIGHT_SEND PRINCIPAL64_ID_CONSOLE_CLIENT).

(** From the loaded record to the loop: whether the account is the default. *)
Definition gate_prepare (fuel : nat) : AM bool :=
  then_ (auth64_run_negative_probe fuel) (fun _ =>
    modify (fun s => s <| g_auth64_failure_count := 0 |> <| g_auth64_lockout_seconds := 0 |>) ;;;
    lift auth64_is_default_account).
Definition loop_start (fuel : nat) s : auth_state E := snd (gate_prepare fuel s).

Definition default_credentials (u h : list Z) : Prop := user_of u = g_auth64_default_user /\ password_ok h g_auth64_default_password = true.

Lemma failure_probe fuel s : exists s', auth64_record_failure fuel false s = (Some tt, s').
Proof. unfold auth64_record_failure, bind, modify, gets, answer, ret. cbn [fst snd]. destruct (3 <=? _); by eexists. Qed.

Lemma probe_ends fuel s : exists s', auth64_run_negative_probe fuel s = (Some tt, s').
Proof.
  unfold auth64_run_negative_probe. rewrite then_run. unfold lift. destruct (auth64_password_matches _ s) as [[] s1]; [by eexists|]. cbn beta iota.
  do 2 (rewrite then_run; match goal with |- context [auth64_record_failure fuel false ?x] => destruct (failure_probe fuel x) as [? ->] end).
  apply failure_probe.
Qed.

Lemma probe_credentials u h fuel : preserves (credentials u h) (auth64_run_negative_probe fuel).
Proof.
  apply preserves_then; [apply preserves_lift, matches_credentials|]. intros []; [apply preserves_ret|].
  repeat (apply preserves_then; [apply failure_credentials|]; intros _). apply failure_credentials.
Qed.

Lemma default_account_run u h s : credentials u h s -> exists b s',
  auth64_is_default_account s = (b, s') /\ credentials u h s' /\ g_auth64_failure_count s' = g_auth64_failure_count s
  /\ (b = true <-> default_credentials u h).
Proof.
  intros [<- <-]. unfold auth64_is_default_account, default_credentials, bind at 1, gets. cbn beta iota zeta. cbn [fst snd].
  unfold auth64_bytes_equal. fold (user_of (g_auth64_username s)). case_bool_decide as Hn.
  - destruct (matches_decides g_auth64_default_password s) as [b ->]. eexists _, _. split; [reflexivity|]. split; [done|]. split; [done|]. naive_solver.
  - exists false, s. do 3 (split; [done|]). split; [done|]. by intros [? _].
Qed.

Lemma prepare_run fuel u h s : credentials u h s -> exists b s',
  gate_prepare fuel s = (Some b, s') /\ credentials u h s' /\ g_auth64_failure_count s' = 0 /\ (b = true <-> default_credentials u h).
Proof.
  intros Hc. unfold gate_prepare. rewrite then_run. destruct (probe_ends fuel s) as [s1 E1]. rewrite E1.
  pose proof (run_keeps _ _ _ _ _ (probe_credentials u h fuel) Hc E1) as H1.
  unfold bind, modify. cbn [fst snd]. unfold lift.
  destruct (default_account_run u h (s1 <| g_auth64_failure_count := 0 |> <| g_auth64_lockout_seconds := 0 |>)) as (b & s2 & -> & H2 & H3 & Hb); [exact H1|].
  exists b, s2. split_and!; try done.
Qed.

Lemma gate_run fuel s cap s0 s1 : gate_opening s = (cap, s0) -> cap <> CAPABILITY64_INVALID_HANDLE -> auth64_load_user_record s0 = (true, s1) ->
  auth64_run_login_gate fuel s = then_ (gate_prepare fuel) (fun default => forever fuel (login_attempt fuel cap default)) s1.
Proof.
  intros H0 Hc Hl.
  assert (Eg : auth64_run_login_gate fuel s =
    (let p := gate_opening s in
     if fst p =? CAPABILITY64_INVALID_HANDLE then answer 0 (snd p)
     else let q := auth64_load_user_record (snd p) in
       if negb (fst q) then first_run fuel (fst p) (snd q)
       else then_ (auth64_run_negative_probe fuel) (fun _ =>
              modify (fun s => s <| g_auth64_failure_count := 0 |> <| g_auth64_lockout_seconds := 0 |>) ;;;
              default_account <- auth64_is_default_account ;;
              forever fuel (login_attempt fuel (fst p) default_account)) (snd q))).
  { unfold auth64_run_login_gate. unfold bind at 1 2 3 4. fold gate_opening.
    change (auth64_init s) with (tt, snd (auth64_init s)). cbn [fst snd]. unfold gate_opening.
    cbn zeta. destruct (_ =? _); [done|]. unfold bind at 1. cbn zeta. by destruct (negb _). }
  rewrite Eg, H0. cbn zeta. cbn [fst snd]. apply Z.eqb_neq in Hc. rewrite Hc, Hl. cbn [fst snd negb].
  unfold gate_prepare. rewrite !then_run. destruct (auth64_run_negative_probe fuel s1) as [[[]|] s2]; [|done].
  unfold bind, modify, lift. cbn [fst snd]. by destruct (auth64_is_default_account _) as [b s3].
Qed.

Lemma gate_admits fuel s cap s0 s1 u h : gate_opening s = (cap, s0) -> cap <> CAPABILITY64_INVALID_HANDLE ->
  auth64_load_user_record s0 = (true, s1) -> credentials u h s1 -> ~ default_credentials u h ->
  (exists s', auth64_run_login_gate fuel s = (Some 1, s')) <->
  exists k s2 name password s3, (k < fuel)%nat /\ nsteps (turned_away fuel cap) k (loop_start fuel s1) s2
    /\ enters fuel cap s2 name password s3 /\ name = user_of u /\ password_ok h password = true.
Proof.
  intros H0 Hcap Hl Hc Hd. rewrite (gate_run _ _ _ _ _ H0 Hcap Hl), then_run. unfold loop_start.
  destruct (prepare_run fuel u h s1 Hc) as (b & s2 & -> & Hc2 & _ & Hb). destruct b; [by destruct Hd; apply Hb|]. cbn [snd].
  split.
  - intros [s' H]. apply forever_returns in H as (k & s3 & Hk & Hn & H3).
    pose proof (turned_away_all _ _ _ _ _ _ _ Hc2 Hn) as Hc3.
    destruct (proj1 (attempt_admits u h fuel cap s3 Hc3)) as (name & pw & s4 & He & Hp); [by eexists|]. by exists k, s3, name, pw, s4.
  - intros (k & s3 & name & pw & s4 & Hk & Hn & He & Hp). pose proof (turned_away_all _ _ _ _ _ _ _ Hc2 Hn) as Hc3.
    destruct (proj2 (attempt_admits u h fuel cap s3 Hc3)) as [s' H]; [by exists name, pw, s4|].
    exists s'. apply forever_returns. by exists k, s3.
Qed.

(** ** The session lock *)

Definition stays_locked (fuel : nat) (cap : Z) s s' : Prop := unlock_attempt fuel cap s = (Some None, s').

(** The password typed at the lock. *)
Definition enters_password (fuel : nat) (cap : Z) s (password : list Z) s' : Prop := exists m,
  auth64_read_login_line fuel cap BLine AUTH64_WAIT_FOREVER DISPLAY64_LOGIN_FIELD_PASSWORD s = (Some (m, AUTH64_READ_LINE), s')
  /\ typed BLine m s' = password.

Lemma unlock_run fuel cap s : unlock_attempt fuel cap s =
  match auth64_read_login_line fuel cap BLine AUTH64_WAIT_FOREVER DISPLAY64_LOGIN_FIELD_PASSWORD s with
  | (None, s1) => (None, s1)
  | (Some (m, o), s1) =>
      if o =? AUTH64_READ_DENIED then (Some (Some false), s1)
      else
        let s2 := if o =? AUTH64_READ_LINE then snd (auth64_password_matches (typed BLine m s1) s1) else s1 in
        if (o =? AUTH64_READ_LINE) && password_ok (g_auth64_password_hash s1) (typed BLine m s1) then (Some (Some true), s2)
        else then_ (auth64_record_failure fuel true) (fun _ => continue) s2
  end.
Proof.
  unfold unlock_attempt. rewrite then_run. destruct (auth64_read_login_line _ _ _ _ _ _) as [[[m o]|] s1]; [|done]. cbn [fst snd].
  destruct (o =? AUTH64_READ_DENIED); [done|]. change (bind (gets ?f) ?k s1) with (k (f s1) s1). cbn beta. rewrite then_run.
  destruct (o =? AUTH64_READ_LINE); [|done]. unfold lift. cbn [andb].
  destruct (matches_decides (typed BLine m s1) s1) as [b Eb]. rewrite Eb. cbn [snd]. by destruct (password_ok _ _).
Qed.

Lemma stays_locked_credentials u h fuel cap s s' : credentials u h s -> stays_locked fuel cap s s' -> credentials u h s'.
Proof.
  intros Hc H. refine (run_keeps _ (unlock_attempt fuel cap) _ _ _ _ Hc H). unfold unlock_attempt.
  apply preserves_then; [apply auth_read_keeps, credentials_free|]. intros [m o]. apply preserves_if; [apply preserves_ret|].
  apply preserves_bind; [apply preserves_gets|]. intros pw. apply preserves_then.
  { apply preserves_if; [apply preserves_lift, matches_credentials|apply preserves_ret]. }
  intros b. apply preserves_if; [apply preserves_ret|]. apply preserves_then; [apply failure_credentials|]. intros _. apply preserves_ret.
Qed.

Lemma unlock_admits u h fuel cap s : credentials u h s ->
  (exists s', unlock_attempt fuel cap s = (Some (Some true), s')) <-> exists password s', enters_password fuel cap s password s' /\ password_ok h password = true.
Proof.
  intros Hc. rewrite unlock_run. unfold enters_password.
  destruct (auth64_read_login_line _ _ _ _ _ _) as [[[m o]|] s1] eqn:E1.
  2: { split; [by intros []|]. intros (? & ? & (? & H & _) & _). done. }
  destruct (run_keeps _ _ _ _ _ (auth_read_keeps _ _ _ _ _ (credentials_free u h)) Hc E1) as [_ P1]. rewrite P1.
  assert (Hf : forall x s', then_ (auth64_record_failure fuel true) (fun _ => @continue _ bool) x <> (Some (Some true), s')).
  { intros x s'. rewrite then_run. by destruct (auth64_record_failure _ _ _) as [[]]. }
  destruct (o =? AUTH64_READ_DENIED) eqn:Ed.
  { apply Z.eqb_eq in Ed as ->. split; [by intros []|]. intros (? & ? & (? & H & _) & _). done. }
  split.
  - intros [s' H]. cbv zeta in H. destruct ((o =? AUTH64_READ_LINE) && password_ok h (typed BLine m s1)) eqn:Ep; [|by apply Hf in H].
    apply andb_true_iff in Ep as [Eo Ep]. apply Z.eqb_eq in Eo as ->. exists (typed BLine m s1), s1. split; [by exists m|done].
  - intros (pw & s' & (m' & R & <-) & Hp). injection R as -> -> ->. cbv zeta. rewrite Hp. by eexists.
Qed.

Lemma lock_admits fuel s :
  (exists s', auth64_lock_session fuel s = (Some 1, s')) <->
  g_auth64_auth_success s <> 0 /\ g_auth64_user_store_persistent s <> 0 /\
  exists cap e k s2 password s3,
    capability64_grant_service SERVICE_ENDPOINT_CLASS_INPUT CAPABILITY64_RIGHT_SEND PRINCIPAL64_ID_CONSOLE_CLIENT (auth_env s) = (cap, e)
    /\ cap <> CAPABILITY64_INVALID_HANDLE /\ (k < fuel)%nat
    /\ nsteps (stays_locked fuel cap) k (s <| auth_env := e |> <| g_auth64_session_lock := 1 |>) s2
    /\ enters_password fuel cap s2 password s3 /\ password_ok (g_auth64_password_hash s) password = true.
Proof.
  unfold auth64_lock_session. change (bind (gets ?f) ?k s) with (k (f s) s). cbn beta. change (bind (gets ?f) ?k s) with (k (f s) s). cbn beta.
  destruct (g_auth64_auth_success s =? 0) eqn:E0; cbn [orb].
  { apply Z.eqb_eq in E0. split; [by intros []|]. by intros []. }
  destruct (g_auth64_user_store_persistent s =? 0) eqn:E1; cbn [orb].
  { apply Z.eqb_eq in E1. split; [by intros []|]. by intros (_ & ? & _). }
  apply Z.eqb_neq in E0, E1. unfold bind at 1, on_env. destruct (capability64_grant_service _ _ _ _) as [cap e] eqn:Eg. cbn [fst snd].
  destruct (cap =? CAPABILITY64_INVALID_HANDLE) eqn:Ec.
  { apply Z.eqb_eq in Ec as ->. split; [by intros []|]. intros (_ & _ & cap & e' & ? & ? & ? & ? & H & Hn & _). by injection H as <- _. }
  apply Z.eqb_neq in Ec. change (bind (modify ?f) ?k ?x) with (k tt (f x)). cbn beta. rewrite then_run.
  assert (Hc : credentials (g_auth64_username s) (g_auth64_password_hash s) (s <| auth_env := e |> <| g_auth64_session_lock := 1 |>)) by done.
  assert (Ha : forall k s2, nsteps (stays_locked fuel cap) k (s <| auth_env := e |> <| g_auth64_session_lock := 1 |>) s2 ->
            credentials (g_auth64_username s) (g_auth64_password_hash s) s2).
  { intros k s2 Hn. refine (steps_keep _ _ _ _ _ _ Hn Hc). intros x y H Hx. by eapply stays_locked_credentials. }
  split.
  - intros [s' H]. do 2 (split; [done|]). destruct (forever fuel (unlock_attempt fuel cap) _) as [[[]|] s3] eqn:Ef; [|done..].
    apply forever_returns in Ef as (k & s2 & Hk & Hn & H2).
    destruct (proj1 (unlock_admits _ _ fuel cap s2 (Ha k s2 Hn))) as (pw & s4 & He & Hp); [by eexists|].
    by exists cap, e, k, s2, pw, s4.
  - intros (_ & _ & cap' & e' & k & s2 & pw & s3 & Hg & _ & Hk & Hn & He & Hp). injection Hg as <- <-.
    destruct (proj2 (unlock_admits _ _ fuel cap s2 (Ha k s2 Hn))) as [s4 H4]; [by exists pw, s3|].
    rewrite (proj2 (forever_returns _ fuel _ true s4)); [by eexists|]. by exists k, s2.
Qed.

End loops.

(** ** Time *)

(** A tick counter of 32 bits over a clock that does not run backwards: ticks
    are counted by the timer interrupt, which the reads keep off. *)
Class AuthClock (E : Type) `{AuthWorld E} := {
  clock : E -> Z;
  ticks_law e : pit_get_ticks e = wrap32 (clock e);
  poll_still e : clock (snd (poll_keyboards e)) = clock e;
  input_still cap n who e : clock (snd (input64_read_keyboard_line cap n who e)) = clock e;
  stir_still v e : clock (snd (entropy64_stir v e)) = clock e;
  wait_forwards e : clock e <= clock (snd (wait_interrupt e))
}.

Section time.
Context {E : Type} {world : AuthWorld E} {clock_ok : AuthClock E}.
Implicit Types s : auth_state E.

(** The clock stands at [c] or later, with [f] failures counted. *)
Definition since (c f : Z) s : Prop := c <= clock (auth_env s) /\ g_auth64_failure_count s = f.

Lemma preserves_since {A} c f (m : ST E A) : (forall e, clock e <= clock (snd (m e))) -> preserves (since c f) (on_env m).
Proof.
  intros H s [Hc Hf]. unfold wp, on_env. specialize (H (auth_env s)). destruct (m (auth_env s)) as [a e]. cbn [fst snd] in *.
  split; [|exact Hf]. change (c <= clock e). lia.
Qed.

Lemma since_free c f : reading_free (since c f).
Proof.
  split; try (intros v s Hs; exact Hs); intros; apply preserves_since; intros e.
  - rewrite poll_still. lia.
  - rewrite input_still. lia.
  - rewrite stir_still. lia.
  - apply wait_forwards.
Qed.

Lemma elapsed a b n : a <= b -> n <= sub32 (wrap32 b) (wrap32 a) -> a + n <= b.
Proof.
  intros Hab. unfold sub32, wrap32. rewrite <- Zminus_mod. intros H.
  pose proof (Z.mod_le (b - a) (2 ^ 32) ltac:(lia) ltac:(lia)). lia.
Qed.

(** The lockout lasts as long as it says. *)
Lemma delay_lasts fuel seconds s s' : 0 <= seconds * 100 < 2 ^ 32 -> auth64_delay_seconds fuel seconds s = (Some tt, s') ->
  clock (auth_env s) + seconds * 100 <= clock (auth_env s') /\ g_auth64_failure_count s' = g_auth64_failure_count s.
Proof.
  intros Hs H. unfold auth64_delay_seconds in H. change (bind (gets ?f) ?k s) with (k (f s) s) in H. cbn beta in H.
  apply forever_returns in H as (k & s0 & _ & Hn & H0). rewrite ticks_law in *.
  assert (Hi : since (clock (auth_env s)) (g_auth64_failure_count s) s0).
  { assert (Hp : preserves (since (clock (auth_env s)) (g_auth64_failure_count s)) (delay_step (wrap32 (clock (auth_env s))) (mul32 seconds 100))).
    { unfold delay_step, continue, return_, answer. repeat preserves_step. apply preserves_since. apply wait_forwards. }
    refine (steps_keep _ _ _ _ _ _ Hn _); [|by split]. intros x y Hx H1. exact (run_keeps _ _ _ _ _ Hp H1 Hx). }
  destruct Hi as [Hi Hf]. unfold delay_step, bind, gets, continue, return_, answer, ret in H0. cbn [fst snd] in H0. rewrite ticks_law in H0.
  destruct (_ <? _) eqn:El; [done|]. injection H0 as <-. apply Z.ltb_ge in El. split; [|done].
  apply elapsed in El; [|done]. unfold mul32 in El. rewrite wrap32_small in El by done. done.
Qed.

Definition lockout_ticks : Z := AUTH64_RATE_LIMIT_SECONDS * 100.

(** Every third failure costs the lockout. *)
Lemma failure_costs fuel s s' : 0 <= g_auth64_failure_count s < 3 -> auth64_record_failure fuel true s = (Some tt, s') ->
  clock (auth_env s) + lockout_ticks * ((g_auth64_failure_count s + 1) / 3) <= clock (auth_env s')
  /\ g_auth64_failure_count s' = (g_auth64_failure_count s + 1) mod 3.
Proof.
  intros Hf H. unfold auth64_record_failure in H. change (bind (modify ?f) ?k s) with (k tt (f s)) in H. cbn beta in H.
  change (bind (gets ?f) ?k ?x) with (k (f x) x) in H. cbn beta in H.
  change (g_auth64_failure_count (s <| g_auth64_failure_count := ?v |> <| g_auth64_wrong_password_denied := 1 |>)) with v in H.
  rewrite inc32_small in H by (unfold U32_MAX; lia).
  destruct (3 <=? _) eqn:E3.
  - apply Z.leb_le in E3. change (bind (modify ?f) ?k ?x) with (k tt (f x)) in H. cbn beta in H. rewrite then_run in H.
    destruct (auth64_delay_seconds fuel AUTH64_RATE_LIMIT_SECONDS _) as [[[]|] s1] eqn:Ed; [|done].
    apply delay_lasts in Ed as [Hc _]; [|by vm_compute; split]. unfold lift, modify in H. injection H as <-.
    assert (Hn : g_auth64_failure_count s = 2) by lia. rewrite Hn.
    change ((2 + 1) / 3) with 1. change ((2 + 1) mod 3) with 0. rewrite Z.mul_1_r. split; [exact Hc|done].
  - apply Z.leb_gt in E3. injection H as <-. rewrite Z.div_small, Z.mod_small by lia. rewrite Z.mul_0_r, Z.add_0_r. split; [|done]. apply Z.le_refl.
Qed.

(** Whether the attempt that starts in [s] gets a name typed. *)
Definition reads_name (fuel : nat) (cap : Z) s : bool :=
  match auth64_read_login_line fuel cap BLine AUTH64_WAIT_FOREVER DISPLAY64_LOGIN_FIELD_USERNAME (s <| g_auth64_login_screen := 1 |>) with
  | (Some (_, o), _) => o =? AUTH64_READ_LINE
  | (None, _) => false
  end.

(** Attempts that fail at the login or at the lock, and how many of them count
    as a guess. *)
Inductive tries : Z -> auth_state E -> auth_state E -> Prop :=
| tries_none s : tries 0 s s
| tries_idle fuel cap n s s1 s' : turned_away fuel cap s s1 -> reads_name fuel cap s = false -> tries n s1 s' -> tries n s s'
| tries_login fuel cap n s s1 s' : turned_away fuel cap s s1 -> reads_name fuel cap s = true -> tries n s1 s' -> tries (n + 1) s s'
| tries_lock fuel cap n s s1 s' : stays_locked fuel cap s s1 -> tries n s1 s' -> tries (n + 1) s s'.

(** What [g] guesses from [s] cost by [s']. *)
Definition costs (g : Z) s s' : Prop :=
  clock (auth_env s) + lockout_ticks * ((g_auth64_failure_count s + g) / 3) <= clock (auth_env s')
  /\ g_auth64_failure_count s' = (g_auth64_failure_count s + g) mod 3.

Lemma read_since c f fuel cap timeout field s r s' : since c f s -> auth64_read_login_line fuel cap BLine timeout field s = (r, s') -> since c f s'.
Proof. intros Hs H. exact (run_keeps _ _ _ _ _ (auth_read_keeps _ _ _ _ _ (since_free c f)) Hs H). Qed.

Lemma failed_costs {A} c f fuel s s' : since c f s -> 0 <= f < 3 ->
  then_ (auth64_record_failure fuel true) (fun _ => @continue E A) s = (Some None, s') ->
  c + lockout_ticks * ((f + 1) / 3) <= clock (auth_env s') /\ g_auth64_failure_count s' = (f + 1) mod 3.
Proof.
  intros [Hc <-] Hf H. rewrite then_run in H. destruct (auth64_record_failure fuel true s) as [[[]|] s1] eqn:Er; [|done].
  apply failure_costs in Er as [H1 H2]; [|done]. injection H as <-. split; [lia|done].
Qed.

Lemma matches_since c f q s : since c f s -> since c f (snd (auth64_password_matches q s)).
Proof. intros H. destruct (matches_decides q s) as [b ->]. exact H. Qed.

Lemma login_costs fuel cap s s' : 0 <= g_auth64_failure_count s < 3 -> turned_away fuel cap s s' ->
  costs (Z.b2z (reads_name fuel cap s)) s s'.
Proof.
  intros Hf H. unfold turned_away in H. rewrite attempt_run in H. unfold costs, reads_name.
  destruct (auth64_read_login_line _ _ _ _ _ _) as [[[n o]|] s1] eqn:E1; [|done].
  assert (H1 : since (clock (auth_env s)) (g_auth64_failure_count s) s1) by (refine (read_since _ _ _ _ _ _ _ _ _ _ E1); split; [apply Z.le_refl|done]).
  destruct (o =? AUTH64_READ_DENIED); [done|]. destruct (o =? AUTH64_READ_LINE); cbn [negb Z.b2z] in *.
  2: { injection H as <-. destruct H1 as [H1 H2]. rewrite Z.add_0_r, Z.div_small, Z.mod_small by lia. split; [lia|done]. }
  destruct (auth64_read_login_line _ _ _ _ _ s1) as [[[m o2]|] s2] eqn:E2; [|done].
  pose proof (read_since _ _ _ _ _ _ _ _ _ H1 E2) as H2.
  destruct (bool_decide _); [|exact (failed_costs _ _ _ _ _ H2 Hf H)].
  destruct (_ && _); [by rewrite lift_return in H|].
  refine (failed_costs _ _ _ _ _ _ Hf H). destruct (_ =? _); [by apply matches_since|done].
Qed.

Lemma lock_costs fuel cap s s' : 0 <= g_auth64_failure_count s < 3 -> stays_locked fuel cap s s' -> costs 1 s s'.
Proof.
  intros Hf H. unfold stays_locked in H. rewrite unlock_run in H. unfold costs.
  destruct (auth64_read_login_line _ _ _ _ _ _) as [[[m o]|] s1] eqn:E1; [|done].
  assert (H1 : since (clock (auth_env s)) (g_auth64_failure_count s) s1) by (refine (read_since _ _ _ _ _ _ _ _ _ _ E1); split; [apply Z.le_refl|done]).
  destruct (o =? AUTH64_READ_DENIED); [done|]. cbv zeta in H. destruct (_ && _); [done|].
  refine (failed_costs _ _ _ _ _ _ Hf H). destruct (_ =? _); [by apply matches_since|done].
Qed.

Lemma mod3_steps f g h : (f + g) / 3 + ((f + g) mod 3 + h) / 3 = (f + (h + g)) / 3 /\ ((f + g) mod 3 + h) mod 3 = (f + (h + g)) mod 3.
Proof.
  pose proof (Z.div_mod (f + g) 3 ltac:(lia)) as Hd. pose proof (Z.mod_pos_bound (f + g) 3 ltac:(lia)).
  replace (f + (h + g)) with (((f + g) mod 3 + h) + (f + g) / 3 * 3) by lia.
  rewrite Z.div_add, Z.mod_add by lia. lia.
Qed.

Lemma costs_step g n s s1 s' : costs g s s1 -> costs n s1 s' -> costs (n + g) s s'.
Proof.
  intros [C1 F1] [C2 F2]. unfold costs, lockout_ticks in *. rewrite F1 in *. destruct (mod3_steps (g_auth64_failure_count s) g n) as [Hd Hm].
  rewrite <- Hd, <- Hm. split; [|done]. lia.
Qed.

Lemma tries_cost n s s' : tries n s s' -> 0 <= g_auth64_failure_count s < 3 -> costs n s s'.
Proof.
  assert (Hm : forall g s s1, costs g s s1 -> 0 <= g_auth64_failure_count s1 < 3).
  { intros g x y [_ ->]. apply Z.mod_pos_bound. lia. }
  induction 1 as [s|fuel cap n s s1 s' Ht Hr Hn IH|fuel cap n s s1 s' Ht Hr Hn IH|fuel cap n s s1 s' Ht Hn IH]; intros Hf.
  - unfold costs. rewrite Z.add_0_r, Z.div_small, Z.mod_small by lia. split; [lia|done].
  - apply login_costs in Ht; [|done]. rewrite Hr in Ht. rewrite <- (Z.add_0_r n). eapply costs_step; [exact Ht|]. by eapply IH, Hm.
  - apply login_costs in Ht; [|done]. rewrite Hr in Ht. eapply costs_step; [exact Ht|]. by eapply IH, Hm.
  - apply lock_costs in Ht; [|done]. eapply costs_step; [exact Ht|]. by eapply IH, Hm.
Qed.

End time.

(** ** The end of waiting *)

(** Between two ticks of the timer the processor is woken at most [wakeups]
    times by other interrupts. *)
Class AuthTimer (E : Type) `{AuthClock E} := {
  wakeups : nat;
  other_wakeups : E -> nat;
  wakeups_law e : (other_wakeups e <= wakeups)%nat;
  poll_wakeups e : (other_wakeups (snd (poll_keyboards e)) <= other_wakeups e)%nat;
  input_wakeups cap n who e : (other_wakeups (snd (input64_read_keyboard_line cap n who e)) <= other_wakeups e)%nat;
  stir_wakeups v e : (other_wakeups (snd (entropy64_stir v e)) <= other_wakeups e)%nat;
  tick_law e : clock (snd (wait_interrupt e)) = clock e + 1
    \/ clock (snd (wait_interrupt e)) = clock e /\ (other_wakeups (snd (wait_interrupt e)) < other_wakeups e)%nat
}.

Section ending.
Context {E : Type} {world : AuthWorld E} {clock_ok : AuthClock E} {timer : AuthTimer E}.
Implicit Types s : auth_state E.

(** Iterations left before the clock reaches [stop]. *)
Definition left_until (stop : Z) (e : E) : nat := Z.to_nat (stop - clock e) * S wakeups + other_wakeups e.
(** Enough fuel for a wait of [ticks]. *)
Definition enough (ticks : Z) : nat := S (Z.to_nat ticks * S wakeups + wakeups).

Lemma wait_closer stop e : clock e < stop ->
  clock (snd (wait_interrupt e)) <= stop /\ (left_until stop (snd (wait_interrupt e)) < left_until stop e)%nat.
Proof.
  intros H. unfold left_until. destruct (tick_law e) as [->|[-> Hw]]; split; try lia.
  pose proof (wakeups_law (snd (wait_interrupt e))).
  replace (Z.to_nat (stop - clock e)) with (S (Z.to_nat (stop - (clock e + 1)))) by lia. lia.
Qed.

Lemma ticks_since c now n : 0 <= n < 2 ^ 32 -> c <= now <= c + n -> sub32 (wrap32 now) (wrap32 c) = now - c.
Proof. intros Hn H. unfold sub32, wrap32. rewrite <- Zminus_mod. apply Z.mod_small. lia. Qed.

Lemma delay_loop_ends c n fuel s : 0 <= n < 2 ^ 32 -> c <= clock (auth_env s) <= c + n ->
  (left_until (c + n) (auth_env s) < fuel)%nat -> exists s', forever fuel (delay_step (wrap32 c) n) s = (Some tt, s').
Proof.
  intros Hn. revert s. induction fuel as [|fuel IH]; intros s Hc Hl; [lia|]. cbn [forever]. rewrite then_run.
  unfold delay_step at 1. change (bind (gets ?f) ?k s) with (k (f s) s). cbn beta. rewrite ticks_law, (ticks_since c _ n) by done.
  destruct (_ <? n) eqn:El; [|by eexists]. apply Z.ltb_lt in El.
  destruct (wait_closer (c + n) (auth_env s)) as [H1 H2]; [lia|]. pose proof (wait_forwards (auth_env s)) as Hw.
  unfold bind, on_env, continue, answer, ret. destruct (wait_interrupt (auth_env s)) as [a e]. cbn [fst snd] in *.
  apply IH; change (auth_env (s <| auth_env := e |>)) with e; lia.
Qed.

Lemma left_enough n s : 0 <= n -> (left_until (clock (auth_env s) + n) (auth_env s) < enough n)%nat.
Proof.
  intros Hn. unfold left_until, enough. pose proof (wakeups_law (auth_env s)).
  replace (clock (auth_env s) + n - clock (auth_env s)) with n by lia. lia.
Qed.

Lemma forever_more {A} (body : AM (option A)) fuel fuel' s a s' : (fuel <= fuel')%nat -> forever fuel body s = (Some a, s') -> forever fuel' body s = (Some a, s').
Proof. intros Hf. rewrite !forever_returns. intros (k & s0 & Hk & H). exists k, s0. split; [lia|done]. Qed.

Lemma failure_ends fuel s : (enough lockout_ticks <= fuel)%nat -> exists s', auth64_record_failure fuel true s = (Some tt, s').
Proof.
  intros Hf. unfold auth64_record_failure. change (bind (modify ?f) ?k s) with (k tt (f s)). cbn beta.
  change (bind (gets ?f) ?k ?x) with (k (f x) x). cbn beta. destruct (3 <=? _); [|by eexists].
  change (bind (modify ?f) ?k ?x) with (k tt (f x)). cbn beta. rewrite then_run.
  unfold auth64_delay_seconds. change (bind (gets ?f) ?k ?x) with (k (f x) x). cbn beta. rewrite ticks_law.
  change (mul32 AUTH64_RATE_LIMIT_SECONDS 100) with lockout_ticks.
  match goal with |- context [forever fuel _ ?x] => destruct (delay_loop_ends (clock (auth_env x)) lockout_ticks (enough lockout_ticks) x) as [s1 H1] end.
  - by vm_compute.
  - change lockout_ticks with 3000. lia.
  - by apply left_enough.
  - rewrite (forever_more _ _ _ _ _ _ Hf H1). by eexists.
Qed.

(** Waiting since [c], with no more than [m] iterations left. *)
Definition waiting (c stop : Z) (m : nat) s : Prop := c <= clock (auth_env s) <= stop /\ (left_until stop (auth_env s) <= m)%nat.

Lemma waiting_still {A} c stop m (call : ST E A) :
  (forall e, clock (snd (call e)) = clock e) -> (forall e, (other_wakeups (snd (call e)) <= other_wakeups e)%nat) ->
  preserves (waiting c stop m) (on_env call).
Proof.
  intros Hc Hw s [H1 H2]. unfold wp, on_env. specialize (Hc (auth_env s)). specialize (Hw (auth_env s)).
  destruct (call (auth_env s)) as [a e]. cbn [fst snd] in *. unfold waiting, left_until in *.
  change (auth_env (s <| auth_env := e |>)) with e. rewrite Hc. lia.
Qed.

Lemma waiting_echo c stop m field echoed : preserves (waiting c stop m) (echo_line field echoed).
Proof.
  unfold echo_line.
  repeat first [preserves_step | apply waiting_still; [apply stir_still|apply stir_wakeups] | apply preserves_modify; intros ? H; exact H].
Qed.

Lemma read_loop_ends c timeout fuel cap b lines field echoed s : 0 < timeout < 2 ^ 32 ->
  waiting c (c + timeout) fuel s ->
  exists r s', read_loop (S fuel) cap b timeout (wrap32 c) lines field echoed s = (Some r, s').
Proof.
  intros Ht. revert echoed s. induction fuel as [fuel IH] using lt_wf_ind. intros echoed s Hw.
  assert (Hwp : wp (read_loop (S fuel) cap b timeout (wrap32 c) lines field echoed) (fun o _ => exists r, o = Some r) s).
  2: { unfold wp in Hwp. destruct (read_loop _ _ _ _ _ _ _ _ _) as [o s']. cbn [fst] in Hwp. destruct Hwp as [r ->]. by eexists _, _. }
  cbn [read_loop]. apply wp_bind. eapply wp_mono; [exact (waiting_still _ _ _ _ poll_still poll_wakeups _ Hw)|]. intros ? s1 H1.
  apply wp_bind. eapply wp_mono; [exact (waiting_still _ _ _ _ (input_still _ _ _) (input_wakeups _ _ _) _ H1)|]. intros line s2 H2.
  destruct (fst line =? INPUT64_INVALID_RESULT); [by eexists|]. destruct (nz (fst line)); [by eexists|].
  apply wp_bind, wp_gets. destruct (negb _); [by eexists|].
  apply wp_bind. eapply wp_mono; [exact (waiting_echo _ _ _ _ _ _ H2)|]. intros echoed' s3 [Hc Hl].
  apply wp_bind, wp_gets. rewrite ticks_law, (ticks_since c _ timeout) by lia.
  destruct (timeout =? AUTH64_WAIT_FOREVER) eqn:E0; [apply Z.eqb_eq in E0; change AUTH64_WAIT_FOREVER with 0 in E0; lia|].
  destruct (timeout <=? _) eqn:El; cbn [negb andb]; [by eexists|]. apply Z.leb_gt in El.
  destruct (wait_closer (c + timeout) (auth_env s3)) as [Hs Hlt]; [lia|]. pose proof (wait_forwards (auth_env s3)) as Hf.
  apply wp_bind, wp_on_env. intros woken e He. rewrite He in *. cbn [snd] in *.
  destruct fuel as [|fuel]; [lia|].
  destruct (IH fuel ltac:(lia) (Some echoed') (s3 <| auth_env := e |>)) as (r & s' & H).
  { split; change (auth_env (s3 <| auth_env := e |>)) with e; lia. }
  unfold wp. rewrite H. by exists r.
Qed.

Lemma read_loop_more fuel fuel' cap b timeout t0 lines field echoed s r s' : (fuel <= fuel')%nat ->
  read_loop fuel cap b timeout t0 lines field echoed s = (Some r, s') -> read_loop fuel' cap b timeout t0 lines field echoed s = (Some r, s').
Proof.
  revert fuel' echoed s. induction fuel as [|fuel IH]; intros [|fuel'] echoed s Hf H; [done|done|lia|].
  cbn [read_loop] in *. unfold bind at 1 in H. unfold bind at 1. cbn zeta in *.
  destruct (on_env poll_keyboards s) as [polled s1]. cbn [fst snd] in *. unfold bind at 1 in H. unfold bind at 1. cbn zeta in *.
  destruct (on_env _ s1) as [line s2]. cbn [fst snd] in *. destruct (_ =? INPUT64_INVALID_RESULT); [done|]. destruct (nz _); [done|].
  change (bind (gets ?f) ?k s2) with (k (f s2) s2) in *. cbn beta in *. destruct (negb _); [done|].
  unfold bind at 1 in H. unfold bind at 1. cbn zeta in *. destruct (echo_line field echoed s2) as [echoed' s3]. cbn [fst snd] in *.
  change (bind (gets ?f) ?k s3) with (k (f s3) s3) in *. cbn beta in *. destruct (_ && _); [done|].
  unfold bind at 1 in H. unfold bind at 1. cbn zeta in *. destruct (on_env wait_interrupt s3) as [woken s4]. cbn [fst snd] in *.
  apply IH; [lia|done].
Qed.

Lemma read_ends fuel cap b timeout field s : 0 < timeout < 2 ^ 32 -> (enough timeout <= fuel)%nat ->
  exists r s', auth64_read_login_line fuel cap b timeout field s = (Some r, s').
Proof.
  intros Ht Hf. unfold auth64_read_login_line, auth64_read_login_line_captured, set_buffer.
  change (bind (modify ?f) ?k s) with (k tt (f s)). cbn beta. rewrite then_run.
  change (bind (gets ?f) ?k ?x) with (k (f x) x). cbn beta. change (bind (gets ?f) ?k ?x) with (k (f x) x). cbn beta.
  change (bind (modify ?f) ?k ?x) with (k tt (f x)). cbn beta. change (bind (modify ?f) ?k ?x) with (k tt (f x)). cbn beta. rewrite ticks_law.
  match goal with |- context [read_loop fuel _ _ _ (wrap32 ?c) ?l _ _ ?x] => destruct (read_loop_ends c timeout (Z.to_nat timeout * S wakeups + wakeups) cap b l field None x) as (r & s' & H) end.
  - done.
  - assert (Hx : forall x, auth_env x = auth_env s -> waiting (clock (auth_env s)) (clock (auth_env s) + timeout) (Z.to_nat timeout * S wakeups + wakeups) x).
    { intros x Hx. unfold waiting. rewrite Hx. split; [lia|]. pose proof (left_enough timeout s ltac:(lia)). unfold enough in *. lia. }
    apply Hx. by destruct b.
  - erewrite read_loop_more; [|exact Hf|exact H]. by eexists _, _.
Qed.

End ending.

End AuthLimits.
