(* ===== verification/AuthSizes.v ===== *)
(** * Buffers of the account code

    Writing past a buffer makes its list longer, so a buffer that keeps the
    length it is declared with is never overrun.  Every call keeps them all,
    when the disk and the keyboard give no more bytes than they are asked
    for. *)

From Stdlib Require Import String.
From S2P Require Import Prelude Principal Services64 Capability Process Auth AuthFacts AuthStore AuthGate.
Import Principal Services64 Capability Auth AuthFacts AuthStore AuthGate.
Local Open Scope Z_scope.
Local Open Scope kernel_scope.

Module AuthSizes.

(** What the disk and the keyboard promise about counts. *)
Class AuthCounts (E : Type) `{AuthWorld E} : Prop := {
  read_count path n who e d e' : mmio64_nvme_fat_shell_read_file path n who e = (Some d, e') -> (length d <= n)%nat;
  line_count cap n who e k l e' : input64_read_keyboard_line cap n who e = ((k, l), e') -> k <> INPUT64_INVALID_RESULT -> 0 <= k ->
    0 <= n -> Z.of_nat (length l) = k /\ k <= n;
  line_sign cap n who e : 0 <= fst (fst (input64_read_keyboard_line cap n who e));
  peek_count n e : (0 < n)%nat -> (length (input64_keyboard_peek_line n e) < n)%nat
}.

Definition sized {E} (s : auth_state E) : Prop :=
  buffers_ok s /\ length (g_auth64_echo s) = AUTH64_PASSWORD_BYTES /\ length (g_auth64_echo_shown s) = AUTH64_PASSWORD_BYTES.

Section sizes.
Context {E : Type} {world : AuthWorld E} {counts : AuthCounts E}.
Implicit Types s : auth_state E.

Definition keeps {A} (m : ST (auth_state E) A) : Prop := preserves sized m.

Lemma keeps_env {A} (m : ST E A) : keeps (on_env m).
Proof. by apply preserves_on_env. Qed.

(** Updates of one buffer. *)
Lemma sized_username v s : sized s -> length v = AUTH64_USERNAME_BYTES -> sized (s <| g_auth64_username := v |>).
Proof. intros [(B1 & B) H] Hv. exact (conj (conj Hv B) H). Qed.
Lemma sized_home v s : sized s -> length v = 48%nat -> sized (s <| g_auth64_home := v |>).
Proof. intros [(B1 & B2 & B) H] Hv. exact (conj (conj B1 (conj Hv B)) H). Qed.
Lemma sized_profile v s : sized s -> length v = 32%nat -> sized (s <| g_auth64_profile := v |>).
Proof. intros [(B1 & B2 & B3 & B) H] Hv. exact (conj (conj B1 (conj B2 (conj Hv B))) H). Qed.
Lemma sized_hash v s : sized s -> length v = S AUTH64_BCRYPT_HASH_BYTES -> sized (s <| g_auth64_password_hash := v |>).
Proof. intros [(B1 & B2 & B3 & B4 & B) H] Hv. exact (conj (conj B1 (conj B2 (conj B3 (conj Hv B)))) H). Qed.
Lemma sized_line v s : sized s -> length v = AUTH64_PASSWORD_BYTES -> sized (s <| g_auth64_line := v |>).
Proof. intros [(B1 & B2 & B3 & B4 & B5 & B6) H] Hv. exact (conj (conj B1 (conj B2 (conj B3 (conj B4 (conj Hv B6))))) H). Qed.
Lemma sized_record v s : sized s -> length v = AUTH64_RECORD_BYTES -> sized (s <| g_auth64_record := v |>).
Proof. intros [(B1 & B2 & B3 & B4 & B5 & B6) H] Hv. exact (conj (conj B1 (conj B2 (conj B3 (conj B4 (conj B5 Hv))))) H). Qed.
Lemma sized_echo v s : sized s -> length v = AUTH64_PASSWORD_BYTES -> sized (s <| g_auth64_echo := v |>).
Proof. intros [B [H1 H2]] Hv. exact (conj B (conj Hv H2)). Qed.
Lemma sized_shown v s : sized s -> length v = AUTH64_PASSWORD_BYTES -> sized (s <| g_auth64_echo_shown := v |>).
Proof. intros [B [H1 H2]] Hv. exact (conj B (conj H1 Hv)). Qed.

Lemma sized_buffer b v s : sized s -> length v = capacity_of b -> sized (snd (set_buffer b v s)).
Proof. destruct b; [apply sized_username|apply sized_line]. Qed.

Lemma keeps_set_buffer b v : length v = capacity_of b -> keeps (set_buffer b v).
Proof. intros Hv s Hs. by apply sized_buffer. Qed.

Lemma buffer_length b s : sized s -> length (buffer_of b s) = capacity_of b.
Proof. intros [(B1 & _ & _ & _ & B5 & _) _]. by destruct b. Qed.

(** Structure, calls of the machine, and updates of flags and counters. *)
Ltac keeps_step :=
  first
    [ progress unfold keeps | preserves_step
    | match goal with
      | |- preserves _ (on_env _) => apply keeps_env
      | |- preserves _ (then_ _ _) => apply preserves_then; [|intros ?]
      | |- preserves _ (lift _) => apply preserves_lift
      | |- preserves _ (forever _ _) => apply preserves_forever
      | |- preserves _ (set_buffer _ _) => apply keeps_set_buffer; by vm_compute
      | |- preserves _ (modify _) => apply preserves_modify; let s := fresh "s" in let Hs := fresh "Hs" in intros s Hs; exact Hs
      end ].
Ltac keeps_auto := repeat keeps_step.

(** ** Values *)

Lemma find_line_length record field dest : (0 < length dest)%nat -> length (snd (fst (auth64_find_line_value record field dest))) = length dest.
Proof.
  intros Hd. unfold auth64_find_line_value. destruct (find_index _ _) as [i|]; [|done]. cbn [fst snd].
  apply overwrite_string_length.
  assert (Ht : forall l, (length (to_newline l) <= length l)%nat) by (induction l as [|x l IH]; cbn [to_newline]; [done|]; destruct (x =? newline); cbn [length]; lia).
  specialize (Ht (take (length dest - 1) (drop (i + length field) record))). rewrite length_take in Ht. lia.
Qed.

Lemma append_length n r t : (length r < n)%nat -> (length (auth64_append_bytes n r t) < n)%nat.
Proof. intros H. unfold auth64_append_bytes. destruct (n <=? _)%nat eqn:El; [done|]. apply Nat.leb_gt in El. by rewrite length_app. Qed.

Lemma record_length u h : (length (record_text u h) < AUTH64_RECORD_BYTES)%nat.
Proof. unfold record_text, auth64_append_text. repeat apply append_length. cbn [length]. unfold AUTH64_RECORD_BYTES. lia. Qed.

Lemma wp_hash_password password setting out s : sized s -> length out = S AUTH64_BCRYPT_HASH_BYTES ->
  wp (auth64_hash_password password setting out) (fun h s' => sized s' /\ length h = S AUTH64_BCRYPT_HASH_BYTES) s.
Proof.
  intros Hs Ho. unfold auth64_hash_password.
  assert (Hi : length (store_at 0 0 out) = S AUTH64_BCRYPT_HASH_BYTES) by (rewrite store_at_length; lia).
  destruct (crypt_blowfish _ _) as [[|c result]|]; try (apply wp_bind, wp_modify, wp_ret; by split).
  destruct (c =? dollar); apply wp_bind, wp_modify, wp_ret; [|by split]. split; [exact Hs|].
  rewrite <- Ho. apply overwrite_string_length. rewrite candidate_length, Ho. lia.
Qed.

Lemma keeps_matches q : keeps (auth64_password_matches q).
Proof. intros s Hs. unfold wp. destruct (matches_decides q s) as [b ->]. exact Hs. Qed.

Lemma keeps_make_record u password : keeps (auth64_make_record u password).
Proof.
  intros s Hs. unfold auth64_make_record, auth64_make_bcrypt_setting. apply wp_bind, wp_modify, wp_bind, wp_bind.
  eapply wp_mono; [apply keeps_env; apply sized_record; [exact Hs|done]|]. intros salt s1 H1.
  apply wp_ret, wp_bind, wp_gets, wp_bind. eapply wp_mono; [apply wp_hash_password; [exact H1|apply H1]|]. intros h s2 [H2 Hh].
  apply wp_bind, wp_modify, wp_bind, wp_gets. pose proof (sized_hash h s2 H2 Hh) as H3.
  destruct (_ =? 0); [by apply wp_ret|]. apply wp_bind, wp_modify, wp_ret. apply sized_record; [exact H3|].
  apply overwrite_length. apply Nat.lt_le_incl, record_length.
Qed.

Lemma keeps_read_field record field get put : (forall s, sized s -> (0 < length (get s))%nat) ->
  (forall v s, sized s -> length v = length (get s) -> sized (put v s)) -> keeps (read_field record field get put).
Proof.
  intros Hg Hp s Hs. unfold read_field. apply wp_bind, wp_gets.
  pose proof (find_line_length record field (get s) (Hg s Hs)) as Hl.
  destruct (auth64_find_line_value record field (get s)) as [[found dest] n]. cbn [fst snd] in Hl. apply wp_bind, wp_modify, wp_ret. by apply Hp.
Qed.

Lemma keeps_username record field : keeps (read_field record field g_auth64_username (fun v s => s <| g_auth64_username := v |>)).
Proof.
  apply keeps_read_field; [intros s [(-> & _) _]; unfold AUTH64_USERNAME_BYTES; lia|]. intros v s Hs Hv. apply sized_username; [done|]. rewrite Hv. apply Hs.
Qed.
Lemma keeps_hash record field : keeps (read_field record field g_auth64_password_hash (fun v s => s <| g_auth64_password_hash := v |>)).
Proof.
  apply keeps_read_field; [intros s [(_ & _ & _ & -> & _) _]; lia|]. intros v s Hs Hv. apply sized_hash; [done|]. rewrite Hv. apply Hs.
Qed.
Lemma keeps_home record field : keeps (read_field record field g_auth64_home (fun v s => s <| g_auth64_home := v |>)).
Proof.
  apply keeps_read_field; [intros s [(_ & -> & _) _]; lia|]. intros v s Hs Hv. apply sized_home; [done|]. rewrite Hv. apply Hs.
Qed.
Lemma keeps_profile record field : keeps (read_field record field g_auth64_profile (fun v s => s <| g_auth64_profile := v |>)).
Proof.
  apply keeps_read_field; [intros s [(_ & _ & -> & _) _]; lia|]. intros v s Hs Hv. apply sized_profile; [done|]. rewrite Hv. apply Hs.
Qed.

Lemma keeps_load : keeps auth64_load_user_record.
Proof.
  intros s Hs. unfold auth64_load_user_record. apply wp_bind, wp_modify, wp_bind, wp_on_env. intros file e He.
  assert (H1 : sized (s <| g_auth64_record := zeros AUTH64_RECORD_BYTES |> <| auth_env := e |>)) by (apply (sized_record _ s Hs); done).
  destruct file as [record|]; [|by apply wp_ret]. apply read_count in He.
  apply wp_bind, wp_modify.
  assert (H2 : sized (s <| g_auth64_record := zeros AUTH64_RECORD_BYTES |> <| auth_env := e |> <| g_auth64_record := overwrite record (zeros AUTH64_RECORD_BYTES) |>)).
  { apply sized_record; [exact H1|]. apply overwrite_length. unfold AUTH64_RECORD_BYTES in *. change (length (zeros 384)) with 384%nat. lia. }
  match goal with |- wp ?m _ ?x => enough (Hk : keeps m) by exact (Hk x H2) end.
  apply preserves_bind; [apply keeps_username|]. intros user. apply preserves_if; [apply preserves_ret|].
  destruct (auth64_find_line_value record (Process.bytes_of "ALG ") (zeros 24)) as [[found alg] n].
  apply preserves_if; [apply preserves_ret|].
  apply preserves_bind; [apply keeps_hash|]. intros hash. apply preserves_if; [apply preserves_ret|].
  apply preserves_bind; [apply keeps_home|]. intros home. apply preserves_if; [apply preserves_ret|].
  apply preserves_bind; [apply keeps_profile|]. intros profile. keeps_auto.
Qed.

Lemma keeps_save u password : keeps (auth64_save_user_record u password).
Proof.
  unfold auth64_save_user_record. apply preserves_bind; [apply keeps_make_record|]. intros n. keeps_auto. apply keeps_load.
Qed.

(** ** Reading *)

Lemma keeps_echo field echoed : keeps (echo_line field echoed).
Proof.
  intros s Hs. unfold echo_line. apply wp_bind, wp_gets.
  assert (Hp : (length (input64_keyboard_peek_line AUTH64_PASSWORD_BYTES (auth_env s)) < AUTH64_PASSWORD_BYTES)%nat) by (apply peek_count; unfold AUTH64_PASSWORD_BYTES; lia).
  set (pending := input64_keyboard_peek_line AUTH64_PASSWORD_BYTES (auth_env s)) in *. clearbody pending.
  apply wp_bind, wp_modify.
  assert (H1 : sized (s <| g_auth64_echo := overwrite_string pending (g_auth64_echo s) |>)).
  { apply sized_echo; [done|]. destruct Hs as [_ [He _]]. rewrite <- He. apply overwrite_string_length. by rewrite He. }
  match goal with |- wp ?m _ ?x => enough (Hk : keeps m) by exact (Hk x H1) end.
  apply preserves_bind; [keeps_auto|]. intros _. apply preserves_bind; [keeps_auto|]. intros shown.
  apply preserves_bind.
  { apply preserves_if; [|apply preserves_ret]. apply preserves_modify. intros x Hx. apply sized_shown; [exact Hx|].
    destruct (_ =? _); [|done]. apply overwrite_length. change (length (zeros AUTH64_PASSWORD_BYTES)) with AUTH64_PASSWORD_BYTES. lia. }
  intros _. apply preserves_bind; [|intros _; apply preserves_ret]. apply preserves_modify. intros x Hx. by apply sized_echo.
Qed.

Lemma line_fits cap b n who e k l e' buffer : input64_read_keyboard_line cap (Z.of_nat (capacity_of b) - 1) who e = ((k, l), e') ->
  k <> INPUT64_INVALID_RESULT -> length buffer = capacity_of b -> n = Z.to_nat k ->
  length (store_at n 0 (overwrite l buffer)) = capacity_of b.
Proof.
  intros H Hk Hb ->. pose proof (line_sign cap (Z.of_nat (capacity_of b) - 1) who e) as Hs. rewrite H in Hs. cbn [fst] in Hs.
  assert (Hc : (0 < capacity_of b)%nat) by (destruct b; unfold capacity_of, AUTH64_USERNAME_BYTES, AUTH64_PASSWORD_BYTES; lia).
  destruct (line_count _ _ _ _ _ _ _ H Hk Hs) as [H1 H2]; [lia|]. assert (Ho : length (overwrite l buffer) = capacity_of b) by (rewrite overwrite_length; lia).
  rewrite store_at_length; lia.
Qed.

Lemma keeps_read_loop fuel cap b timeout t0 l0 field echoed : keeps (read_loop fuel cap b timeout t0 l0 field echoed).
Proof.
  revert echoed. induction fuel as [|fuel IH]; intros echoed; cbn [read_loop]; [apply preserves_ret|].
  apply preserves_bind; [apply keeps_env|]. intros _. intros s Hs. apply wp_bind, wp_on_env. intros [k l] e He. cbn [fst snd].
  destruct (k =? INPUT64_INVALID_RESULT) eqn:Ek; [by apply wp_ret|]. apply Z.eqb_neq in Ek.
  destruct (nz k).
  - apply wp_bind, wp_gets, wp_bind. unfold wp at 1. apply wp_ret. apply sized_buffer; [exact Hs|].
    refine (line_fits _ _ _ _ _ _ _ _ _ He Ek _ eq_refl). by apply (buffer_length b (s <| auth_env := e |>)).
  - match goal with |- wp ?m _ ?x => enough (Hk : keeps m) by exact (Hk x Hs) end.
    unfold answer. repeat (apply IH || apply keeps_echo || keeps_step).
Qed.

Lemma keeps_read fuel cap b timeout field : keeps (auth64_read_login_line fuel cap b timeout field).
Proof.
  unfold auth64_read_login_line, auth64_read_login_line_captured, answer.
  assert (Hz : keeps (set_buffer b (zeros (capacity_of b)))) by (by apply keeps_set_buffer; destruct b).
  repeat (exact Hz || apply keeps_read_loop || keeps_step).
Qed.

(** ** The calls *)

Lemma keeps_failure fuel enforce : keeps (auth64_record_failure fuel enforce).
Proof. unfold auth64_record_failure, auth64_delay_seconds, delay_step, answer, continue, return_, answer. keeps_auto. Qed.

Lemma keeps_accept : keeps auth64_accept_session.
Proof. unfold auth64_accept_session. keeps_auto. Qed.

Lemma keeps_upgrade password : keeps (auth64_upgrade_record password).
Proof. unfold auth64_upgrade_record. repeat (apply keeps_save || apply keeps_load || keeps_step). Qed.

Lemma keeps_create n m : keeps (create_account n m).
Proof. unfold create_account, clear_line. repeat (apply keeps_save || apply keeps_make_record || apply keeps_accept || keeps_step). Qed.

Lemma keeps_init : keeps auth64_init.
Proof.
  apply preserves_modify. intros s Hs. apply sized_profile; [apply sized_home; [apply sized_username; [exact Hs|]|]|]; done.
Qed.

Lemma copy_line_length n text : (0 < n)%nat -> length (snd (auth64_copy_cstr_to_line n text)) = n.
Proof.
  intros Hn. unfold auth64_copy_cstr_to_line. cbv zeta. cbn [snd]. assert (Hz : length (zeros n) = n) by apply length_replicate.
  rewrite overwrite_string_length; [exact Hz|]. rewrite Hz, length_take. destruct (n <=? auth64_cstr_length text n)%nat eqn:El; [lia|]. apply Nat.leb_gt in El. lia.
Qed.

Lemma keeps_first_run fuel cap : keeps (first_run fuel cap).
Proof.
  unfold first_run, first_password, answer, return_, continue, answer.
  apply preserves_bind; [apply preserves_modify; intros s Hs; by apply sized_username|]. intros _.
  apply preserves_then; [apply keeps_read|]. intros line. apply preserves_if; [apply preserves_ret|]. apply preserves_if.
  - apply preserves_bind; [keeps_auto|]. intros _.
    pose proof (copy_line_length AUTH64_USERNAME_BYTES g_auth64_default_user ltac:(by apply Nat.ltb_lt)) as H1.
    pose proof (copy_line_length AUTH64_PASSWORD_BYTES g_auth64_default_password ltac:(by apply Nat.ltb_lt)) as H2.
    destruct (auth64_copy_cstr_to_line AUTH64_USERNAME_BYTES _) as [n1 l1], (auth64_copy_cstr_to_line AUTH64_PASSWORD_BYTES _) as [n2 l2].
    repeat (apply preserves_bind; [apply keeps_set_buffer; first [exact H1 | exact H2]|]; intros _). apply preserves_lift, keeps_create.
  - repeat (apply keeps_read || apply keeps_create || keeps_step).
Qed.

Lemma keeps_attempt fuel cap default : keeps (login_attempt fuel cap default).
Proof.
  unfold login_attempt, answer, return_, continue, answer, clear_line.
  repeat (apply keeps_read || apply keeps_failure || apply keeps_upgrade || apply keeps_matches || apply keeps_accept || keeps_step).
Qed.

Lemma keeps_probe fuel : keeps (auth64_run_negative_probe fuel).
Proof. unfold auth64_run_negative_probe, answer. repeat (apply keeps_matches || apply keeps_failure || keeps_step). Qed.

Lemma keeps_gate fuel : keeps (auth64_run_login_gate fuel).
Proof.
  unfold auth64_run_login_gate, auth64_is_default_account, answer.
  repeat (apply keeps_init || apply keeps_load || apply keeps_first_run || apply keeps_probe || apply keeps_matches || apply keeps_attempt || keeps_step).
Qed.

Lemma keeps_lock fuel : keeps (auth64_lock_session fuel).
Proof.
  unfold auth64_lock_session, unlock_attempt, answer, return_, continue, answer, clear_line.
  repeat (apply keeps_read || apply keeps_matches || apply keeps_failure || keeps_step).
Qed.

Lemma keeps_lock_probe : keeps auth64_controlled_lock_probe.
Proof. unfold auth64_controlled_lock_probe. keeps_auto. Qed.

(** The calls other parts make. *)
Inductive auth_call := CInit | CGate (fuel : nat) | CLock (fuel : nat) | CLockProbe.
Definition auth_do (c : auth_call) : ST (auth_state E) unit :=
  match c with
  | CInit => auth64_init
  | CGate fuel => auth64_run_login_gate fuel ;;; ret tt
  | CLock fuel => auth64_lock_session fuel ;;; ret tt
  | CLockProbe => auth64_controlled_lock_probe
  end.
Definition auth_run (calls : list auth_call) s : auth_state E := fold_left (fun s c => snd (auth_do c s)) calls s.

Lemma keeps_do c : keeps (auth_do c).
Proof.
  destruct c; cbn [auth_do]; [apply keeps_init| | |apply keeps_lock_probe].
  - apply preserves_bind; [apply keeps_gate|]. intros _. apply preserves_ret.
  - apply preserves_bind; [apply keeps_lock|]. intros _. apply preserves_ret.
Qed.

End sizes.

End AuthSizes.
