(* ===== verification/AuthTheorems.v ===== *)
(** * Theorems on local accounts

    The account round trip through the disk, who the login gate and the lock
    let in, what guessing costs, and that waiting ends; with a demonstration
    machine on which they are evaluated. *)

From Stdlib Require Import String.
From S2P Require Import Prelude Principal Services64 Capability Process Auth AuthFacts AuthStore AuthGate AuthSizes.
Import Principal Services64 Capability Auth AuthFacts AuthStore AuthGate AuthLimits AuthSizes.
Local Open Scope Z_scope.
Local Open Scope kernel_scope.

Module AuthTheorems.

(** ** A machine for the witnesses *)

Record machine := mk_machine { disk : option (list Z); keyboard : list (list Z); ticks : Z }.

(** A stand-in for bcrypt: the setting, then the password padded. *)
Definition digest (k : list Z) : list Z := take 31 (List.filter (fun b => negb (b =? newline) && negb (b =? 0)) k ++ replicate 31 42).
Definition setting_ok (p : list Z) : bool := (length p =? 29)%nat && plain p && nonzeros p && bool_decide (head p = Some dollar).
Definition toy_crypt (k setting : list Z) : option (list Z) :=
  if setting_ok (take 29 setting) then Some (take 29 setting ++ digest k) else None.

#[export] Instance machine_world : AuthWorld machine := {|
  crypt_blowfish := toy_crypt;
  entropy64_fill n := ret (replicate n 7);
  entropy64_stir _ := ret tt;
  mmio64_nvme_fat_shell_read_file _ n _ m := (take n <$> disk m, m);
  mmio64_nvme_fat_shell_write_file _ d _ m := (1, mk_machine (Some d) (keyboard m) (ticks m));
  pit_get_ticks m := wrap32 (ticks m);
  poll_keyboards := ret tt;
  input64_read_keyboard_line _ n _ m :=
    match keyboard m with
    | [] => ((0, []), m)
    | l :: ls => let l := take (Z.to_nat n) l in ((Z.of_nat (length l), l), mk_machine (disk m) ls (ticks m))
    end;
  input64_keyboard_line_count _ := 0;
  input64_keyboard_peek_line _ _ := [];
  wait_interrupt m := (tt, mk_machine (disk m) (keyboard m) (ticks m + 1));
  capability64_grant_service _ _ _ := ret 5
|}.

Lemma digest_length k : length (digest k) = 31%nat.
Proof. unfold digest. rewrite length_take, length_app, length_replicate. lia. Qed.

Lemma digest_clean k : clean (digest k).
Proof.
  assert (H : Forall (fun b => b <> newline /\ b <> 0) (digest k)).
  { unfold digest. apply Forall_take, Forall_app. split; [|by apply Forall_replicate].
    apply Forall_forall. intros b Hb. apply list_elem_of_In, List.filter_In in Hb as [_ Hb]. apply andb_true_iff in Hb as [H1 H2].
    apply negb_true_iff, Z.eqb_neq in H1, H2. done. }
  split; [|by eapply Forall_impl; [exact H|intros b []]]. unfold plain. apply forallb_forall. intros b Hb.
  rewrite Forall_forall in H. destruct (H b) as [Hn _]; [by apply list_elem_of_In|]. apply negb_true_iff. by apply Z.eqb_neq.
Qed.

Lemma toy_crypt_law k setting h : toy_crypt k setting = Some h -> hash_ok h /\ toy_crypt k h = Some h.
Proof.
  unfold toy_crypt. destruct (setting_ok (take 29 setting)) eqn:Es; [|done]. intros [= <-].
  pose proof Es as Es'. unfold setting_ok in Es'. boolify. apply Nat.eqb_eq in H. apply bool_decide_eq_true in H0.
  destruct (digest_clean k) as [D1 D2].
  split.
  - split; [split|split].
    + by rewrite plain_app, H2.
    + apply Forall_app. split; [by apply nonzeros_spec|done].
    + by rewrite length_app, H, digest_length.
    + destruct (take 29 setting); [done|]. done.
  - assert (Et : take 29 (take 29 setting ++ digest k) = take 29 setting) by (rewrite <- H at 1; apply take_app_length).
    by rewrite Et, Es.
Qed.

#[export] Program Instance machine_storage : AuthStorage machine := {| stored_file := disk |}.
Next Obligation.
  intros e d Hd Hl. exists e. cbn. rewrite Hd. split; [|done]. cbn. rewrite take_ge; [done|]. unfold AUTH64_RECORD_BYTES in *. lia.
Qed.
Next Obligation. intros e d _. done. Qed.
Next Obligation. exact toy_crypt_law. Qed.

#[export] Program Instance machine_clock : AuthClock machine := {| clock := ticks |}.
Solve All Obligations with intros; cbn; try (destruct (keyboard _)); cbn; first [done | lia].

#[export] Program Instance machine_timer : AuthTimer machine := {| wakeups := 0%nat; other_wakeups _ := 0%nat |}.
Solve All Obligations with intros; cbn; first [lia | by left].

#[export] Instance machine_counts : AuthCounts machine.
Proof.
  split.
  - intros path n who [d ks c] d' e' H. cbn in H. injection H as H <-. destruct d as [d|]; [|done]. cbn in H. injection H as <-. rewrite length_take. lia.
  - intros cap n who [d ks c] k l e' H _ _ Hn. cbn in H. destruct ks as [|l0 ks]; injection H as <- <- <-; [by split|]. rewrite length_take. lia.
  - intros cap n who [d ks c]. cbn. destruct ks; cbn; lia.
  - intros n e Hn. exact Hn.
Qed.

Definition boot (m : machine) : auth_state machine :=
  mk_auth 0 0 0 0 0 0 0 0 0 0 0 0 0 0 0 0 0 0 0 0 0 (zeros 32) (zeros 48) (zeros 32) (zeros 384) (zeros 61) (zeros 64) (zeros 64) (zeros 64) m.

Definition ada : list Z := Process.bytes_of "ada".
Definition ada_password : list Z := Process.bytes_of "difference engine".
Definition ada_hash : list Z := default [] (toy_crypt ada_password (setting_of (replicate 16 7))).
Definition ada_disk : option (list Z) := Some (record_text ada ada_hash).
Definition typing (lines : list (list Z)) : auth_state machine := boot (mk_machine ada_disk lines 1000).

Lemma ada_ok : name_ok ada.
Proof. split; [split; [done|by apply nonzeros_spec]|]. change (length ada) with 3%nat. unfold AUTH64_USERNAME_BYTES. lia. Qed.

(** ** The theorems *)

(** C20: Saving an account succeeds exactly when its password can be hashed
    and the disk accepts the record; whenever a machine starts later from that
    disk, loading finds the same user, home and profile, and the password that
    was saved is accepted. *)
Theorem auth_save_roundtrip {E} {world : AuthWorld E} {storage : AuthStorage E} u password (s : auth_state E) :
  name_ok u -> buffers_ok s ->
  let (ok, s') := auth64_save_user_record u password s in
  (ok = true <-> exists h, new_hash password s = Some h /\ write_of u h s <> 0) /\
  (ok = true -> forall s2, buffers_ok s2 -> stored_file (auth_env s2) = stored_file (auth_env s') ->
     let (ok2, s3) := auth64_load_user_record s2 in
     ok2 = true /\ auth64_active_user s3 = u /\ auth64_home_namespace s3 = g_auth64_default_home
     /\ auth64_session_profile s3 = g_auth64_default_profile /\ fst (auth64_password_matches password s3) = true).
Proof.
  intros Hu Hb. pose proof (save_run u password s Hu Hb) as H. unfold wp in H.
  destruct (auth64_save_user_record u password s) as [ok s']. cbn [fst snd] in H.
  destruct (new_hash password s) as [h|] eqn:Eh.
  - destruct H as [-> H]. split.
    + rewrite negb_true_iff, Z.eqb_neq. split; [by exists h|]. by intros (h' & [= <-] & ?).
    + intros Hok s2 Hb2 Hf. destruct (H Hok) as (_ & _ & Hs). unfold new_hash in Eh. destruct (crypt_law _ _ _ Eh) as [Hh Hc].
      pose proof (load_stored u h s2 Hu Hh Hb2 (eq_trans Hf Hs)) as Hl. unfold wp in Hl.
      destruct (auth64_load_user_record s2) as [ok2 s3]. cbn [fst snd] in Hl. destruct Hl as (-> & (A1 & A2 & A3 & A4 & _) & _). cbn [fst snd] in *.
      split_and!; try done. destruct (matches_run password h s3 Hh A4) as [b ->]. by apply bool_decide_eq_true.
  - subst ok. split; [|done]. split; [done|]. by intros (h & ? & _).
Qed.

(** C19: When input is granted and a record is loaded whose account is not the
    default one, the login gate opens exactly when, after fewer failed attempts than its loop
    has rounds, the stored username and a password whose bcrypt hash is the
    stored one are typed at its two prompts.  Without a record that loads, or
    with the default account, the gate sets up an account instead and opens
    without a check ([unreadable_record_is_replaced]). *)
Theorem auth_gate_admits {E} {world : AuthWorld E} fuel (s : auth_state E) cap s0 s1 u h :
  gate_opening s = (cap, s0) -> cap <> CAPABILITY64_INVALID_HANDLE ->
  auth64_load_user_record s0 = (true, s1) -> credentials u h s1 -> ~ default_credentials u h ->
  (exists s', auth64_run_login_gate fuel s = (Some 1, s')) <->
  exists k s2 name password s3, (k < fuel)%nat /\ nsteps (turned_away fuel cap) k (loop_start fuel s1) s2
    /\ enters fuel cap s2 name password s3 /\ name = user_of u /\ password_ok h password = true.
Proof. apply gate_admits. Qed.

(** A locked session opens exactly when one was open, its account is
    stored, input is granted and, after fewer failed attempts than the loop
    has rounds, a password is typed whose bcrypt hash is the stored one. *)
Theorem auth_unlock_needs_password {E} {world : AuthWorld E} fuel (s : auth_state E) :
  (exists s', auth64_lock_session fuel s = (Some 1, s')) <->
  g_auth64_auth_success s <> 0 /\ g_auth64_user_store_persistent s <> 0 /\
  exists cap e k s2 password s3,
    capability64_grant_service SERVICE_ENDPOINT_CLASS_INPUT CAPABILITY64_RIGHT_SEND PRINCIPAL64_ID_CONSOLE_CLIENT (auth_env s) = (cap, e)
    /\ cap <> CAPABILITY64_INVALID_HANDLE /\ (k < fuel)%nat
    /\ nsteps (stays_locked fuel cap) k (s <| auth_env := e |> <| g_auth64_session_lock := 1 |>) s2
    /\ enters_password fuel cap s2 password s3 /\ password_ok (g_auth64_password_hash s) password = true.
Proof. apply lock_admits. Qed.

(** C21: Whatever is typed, [n] failed guesses at the login or at the lock,
    in any order, take at least a lockout of thirty seconds for every three of
    them, and the count of failures is what is left over. *)
Theorem auth_guess_rate {E} {world : AuthWorld E} {clock_ok : AuthClock E} n (s s' : auth_state E) :
  tries n s s' -> 0 <= g_auth64_failure_count s < 3 ->
  clock (auth_env s) + AUTH64_RATE_LIMIT_SECONDS * 100 * ((g_auth64_failure_count s + n) / 3) <= clock (auth_env s')
  /\ g_auth64_failure_count s' = (g_auth64_failure_count s + n) mod 3.
Proof. apply tries_cost. Qed.

(** C22: Waiting ends: a read with a time limit returns, and so does the
    record of a failure with its lockout, with fuel for the ticks of the wait
    and the other interrupts between them. *)
Theorem auth_waits_end {E} {world : AuthWorld E} {clock_ok : AuthClock E} {timer : AuthTimer E} fuel cap b timeout field (s : auth_state E) :
  0 < timeout < 2 ^ 32 -> (enough timeout <= fuel)%nat -> (enough lockout_ticks <= fuel)%nat ->
  (exists r s', auth64_read_login_line fuel cap b timeout field s = (Some r, s')) /\
  (exists s', auth64_record_failure fuel true s = (Some tt, s')).
Proof. intros Ht Hf Hl. split; [by apply read_ends|by apply failure_ends]. Qed.

(** C23: No buffer is overrun or shrinks: whatever the disk holds and whatever
    is typed, after any calls every buffer has the length it is declared
    with.  A write past the end, the terminator behind a typed line included,
    would make the list of the buffer longer ([overwrite], [store_at]). *)
Theorem auth_buffers_keep_size {E} {world : AuthWorld E} {counts : AuthCounts E} calls (s : auth_state E) :
  sized s -> sized (auth_run calls s).
Proof.
  unfold auth_run. revert s. induction calls as [|c calls IH]; intros s Hs; [exact Hs|]. apply IH. exact (keeps_do c s Hs).
Qed.

(** ** Witnesses *)

Lemma auth_save_roundtrip_witness :
  name_ok ada /\ fst (auth64_save_user_record ada ada_password (boot (mk_machine None [] 0))) = true.
Proof.
  split; [exact ada_ok|].
  pose proof (auth_save_roundtrip ada ada_password (boot (mk_machine None [] 0)) ada_ok) as H.
  destruct (auth64_save_user_record ada ada_password (boot (mk_machine None [] 0))) as [ok s'].
  destruct H as [Hok _]; [by repeat split|]. cbn [fst]. apply Hok. exists ada_hash. by vm_compute.
Defined.

(** One wrong attempt, then the right one. *)
Definition evening : auth_state machine := typing [Process.bytes_of "eve"; Process.bytes_of "guess"; ada; ada_password].

Lemma auth_gate_admits_witness : exists k s2 name password s3, (k < 4)%nat
  /\ nsteps (turned_away 4 5) k (loop_start 4 (snd (auth64_load_user_record (snd (gate_opening evening))))) s2
  /\ enters 4 5 s2 name password s3 /\ name = ada /\ password_ok (ada_hash ++ [0]) password = true.
Proof.
  refine (proj1 (auth_gate_admits 4 evening 5 (snd (gate_opening evening)) (snd (auth64_load_user_record (snd (gate_opening evening))))
    (g_auth64_username (snd (auth64_load_user_record (snd (gate_opening evening))))) (ada_hash ++ [0]) _ _ _ _ _) _).
  - by vm_compute.
  - by vm_compute.
  - by vm_compute.
  - split; by vm_compute.
  - intros [H _]. by vm_compute in H.
  - eexists. vm_compute. reflexivity.
Defined.

Example evening_ends : option_map Z.to_nat (fst (auth64_run_login_gate 4 evening)) = Some 1%nat.
Proof. by vm_compute. Qed.

(** Two wrong attempts at the start of the loop. *)
Definition guessing : auth_state machine :=
  loop_start 2 (snd (auth64_load_user_record (snd (gate_opening (typing [Process.bytes_of "ada"; Process.bytes_of "guess"; Process.bytes_of "eve"; Process.bytes_of "guess"]))))).
Definition guessed (s : auth_state machine) : auth_state machine := snd (login_attempt 2 5 false s).

Lemma auth_guess_rate_witness : tries 2 guessing (guessed (guessed guessing)) /\ g_auth64_failure_count (guessed (guessed guessing)) = 2.
Proof.
  assert (H : tries 2 guessing (guessed (guessed guessing))).
  { apply (tries_login 2 5 1 _ (guessed guessing)); [by vm_compute|by vm_compute|].
    apply (tries_login 2 5 0 _ (guessed (guessed guessing))); [by vm_compute|by vm_compute|]. constructor. }
  split; [exact H|]. refine (eq_trans (proj2 (auth_guess_rate 2 guessing _ H _)) _); [by vm_compute; split|by vm_compute].
Defined.

Lemma auth_waits_end_witness : exists r s',
  auth64_read_login_line 4000 5 BLine AUTH64_DEFAULT_ACCOUNT_SIGNIN_TICKS DISPLAY64_LOGIN_FIELD_USERNAME (typing []) = (Some r, s').
Proof.
  refine (proj1 (auth_waits_end 4000 5 BLine AUTH64_DEFAULT_ACCOUNT_SIGNIN_TICKS DISPLAY64_LOGIN_FIELD_USERNAME (typing []) _ _ _)).
  - by vm_compute; split.
  - apply Nat.leb_le. by vm_compute.
  - apply Nat.leb_le. by vm_compute.
Defined.

Lemma auth_buffers_keep_size_witness :
  sized evening /\ sized (auth_run [CGate 4; CLockProbe; CLock 4] evening).
Proof. assert (H : sized evening) by (by repeat split). split; [exact H|]. exact (auth_buffers_keep_size [CGate 4; CLockProbe; CLock 4] evening H). Defined.

(** A record that cannot be read is taken for a first run: Enter or no input
    at all opens the session, and the account on the disk is replaced. *)
Example unreadable_record_is_replaced :
  let s := boot (mk_machine (Some (Process.bytes_of "USER ada")) [] 0) in
  option_map fst (Some (auth64_run_login_gate (Z.to_nat 6001) s)) = Some (Some 1)
  /\ auth64_active_user (snd (auth64_run_login_gate (Z.to_nat 6001) s)) = g_auth64_default_user
  /\ disk (auth_env (snd (auth64_run_login_gate (Z.to_nat 6001) s))) <> Some (Process.bytes_of "USER ada").
Proof. split_and!; by vm_compute. Qed.

End AuthTheorems.
