(* ===== verification/WindowsHandle.v ===== *)
(** * Windows object handles: kernel/arch/x86_64/windows_handle.c

    Sixteen handle tables of 256 entries for the processes of the Windows
    persona, the events and the mutants (reentrant mutexes) that handles name,
    and the waiters armed on them.  A pointer to a table, event or mutant is
    its index; the slot [windows_handle_table] of a persona context is in
    [persona_contexts].  Capabilities, the RAM file system, the process table
    and the audit log are the interface [HandleWorld].  Pointer arguments for
    results are not null: the results are returned. *)

From S2P Require Import Prelude Principal Services64 Capability Process.
Import Services64.
Local Open Scope Z_scope.
Local Open Scope kernel_scope.

Module WindowsHandle.

Definition WINDOWS_HANDLE64_TABLE_LIMIT : nat := Z.to_nat 256.
Arguments WINDOWS_HANDLE64_TABLE_LIMIT : simpl never.
Definition WINDOWS_HANDLE64_MAX_TABLES : nat := 16.
Definition WINDOWS_HANDLE64_INVALID : Z := 0.
Definition WINDOWS_HANDLE64_FIRST_DYNAMIC : Z := 0x40.
Definition WINDOWS_HANDLE64_GRANULARITY : Z := 4.
Definition WINDOWS_HANDLE64_PSEUDO_CURRENT_PROCESS : Z := 0xFFFFFFFFFFFFFFFF.
Definition WINDOWS_HANDLE64_PSEUDO_CURRENT_THREAD : Z := 0xFFFFFFFFFFFFFFFE.
Definition WINDOWS_HANDLE64_TYPE_EMPTY : Z := 0.
Definition WINDOWS_HANDLE64_TYPE_FILE : Z := 1.
Definition WINDOWS_HANDLE64_TYPE_DEVICE : Z := 2.
Definition WINDOWS_HANDLE64_TYPE_EVENT : Z := 3.
Definition WINDOWS_HANDLE64_TYPE_MUTANT : Z := 4.
Definition WINDOWS_HANDLE64_TYPE_PROCESS : Z := 5.
Definition WINDOWS_HANDLE64_TYPE_THREAD : Z := 6.
Definition WINDOWS_HANDLE64_TYPE_KEY : Z := 7.
Definition WINDOWS_HANDLE64_MAX_EVENTS : nat := 32.
Definition WINDOWS_HANDLE64_EVENT_WAIT_DENIED : Z := 0.
Definition WINDOWS_HANDLE64_EVENT_WAIT_SIGNALED : Z := 1.
Definition WINDOWS_HANDLE64_EVENT_WAIT_TIMEOUT : Z := 2.
Definition WINDOWS_HANDLE64_MAX_MUTANTS : nat := 32.
Definition WINDOWS_HANDLE64_MUTANT_WAIT_DENIED : Z := 0.
Definition WINDOWS_HANDLE64_MUTANT_WAIT_ACQUIRED : Z := 1.
Definition WINDOWS_HANDLE64_MUTANT_WAIT_TIMEOUT : Z := 2.
Definition WINDOWS_HANDLE64_FLAG_INHERITABLE : Z := 1.
Definition WINDOWS_HANDLE64_FLAG_PROTECT_CLOSE : Z := 2.
Definition WINDOWS_HANDLE64_AUDIT_HANDLE_TABLE : Z := 0x4B.
Definition CAPABILITY64_INVALID_HANDLE : Z := 0xFFFFFFFF.
Definition CAPABILITY64_RIGHT_SEND : Z := 1.
Definition CAPABILITY64_RIGHT_QUERY : Z := 4.
Definition PROCESS64_INVALID_PID : Z := 0xFFFFFFFF.
Definition SCHEDULER64_INVALID_TASK : Z := 0xFFFFFFFF.
Definition PERSONA64_TYPE_WINDOWS_PE : Z := 2.
Definition PERSONA64_TYPE_COUNT : Z := 4.
Definition PERSONA_AUDIT64_EVENT_CAPABILITY_DENIED : Z := 4.
Definition WINDOWS_ABI64_STATUS_SUCCESS : Z := 0.
Definition WINDOWS_ABI64_STATUS_INVALID_HANDLE : Z := 0xC0000008.
Definition WINDOWS_ABI64_STATUS_INVALID_PARAMETER : Z := 0xC000000D.
Definition WINDOWS_ABI64_STATUS_NO_MEMORY : Z := 0xC0000017.
Definition WINDOWS_ABI64_STATUS_ACCESS_DENIED : Z := 0xC0000022.
Definition WINDOWS_ABI64_STATUS_MUTANT_NOT_OWNED : Z := 0xC0000046.
Definition WINDOWS_ABI64_STATUS_TIMEOUT : Z := 0x102.

(** [(((caller) & 0xFFFF) << 16) | ((recipient) & 0xFFFF)]. *)
Definition CAPABILITY64_CONTEXT (caller recipient : Z) : Z :=
  Z.lor (Z.shiftl (Z.land caller 0xFFFF) 16) (Z.land recipient 0xFFFF).

Record handle_entry := mk_entry {
  handle : Z; capability_handle : Z; object_type : Z; rights : Z; flags : Z; ref_count : Z; reserved : Z }.
#[export] Instance eta_handle_entry : Eta handle_entry := {| eta e :=
  mk_entry (handle e) (capability_handle e) (object_type e) (rights e) (flags e) (ref_count e) (reserved e) |}.

Record handle_table := mk_table {
  pid : Z; owner_id : Z; live_count : Z; denial_count : Z; high_water_handle : Z; entries : list handle_entry }.
#[export] Instance eta_handle_table : Eta handle_table := {| eta t :=
  mk_table (pid t) (owner_id t) (live_count t) (denial_count t) (high_water_handle t) (entries t) |}.

Record event_object := mk_event {
  e_active : Z; e_pid : Z; manual_reset : Z; signaled : Z; set_count : Z; e_wait_count : Z; e_waiting_pid : Z; e_waiting_task_id : Z }.
#[export] Instance eta_event_object : Eta event_object := {| eta e :=
  mk_event (e_active e) (e_pid e) (manual_reset e) (signaled e) (set_count e) (e_wait_count e) (e_waiting_pid e) (e_waiting_task_id e) |}.

Record mutant_object := mk_mutant {
  m_active : Z; creator_pid : Z; owner_pid : Z; recursion_count : Z; m_wait_count : Z; release_count : Z;
  m_waiting_pid : Z; m_waiting_task_id : Z }.
#[export] Instance eta_mutant_object : Eta mutant_object := {| eta m :=
  mk_mutant (m_active m) (creator_pid m) (owner_pid m) (recursion_count m) (m_wait_count m) (release_count m)
    (m_waiting_pid m) (m_waiting_task_id m) |}.

(** What handles use of a persona context. *)
Record persona_view := mk_persona { persona_type : Z; windows_handle_table : option nat }.
#[export] Instance eta_persona_view : Eta persona_view := {| eta c := mk_persona (persona_type c) (windows_handle_table c) |}.

(** The rest of the kernel. *)
Class HandleWorld (W : Type) := {
  process64_principal : Z -> W -> Z;
  capability64_owner : Z -> Z -> ST W Z;
  capability64_rights : Z -> Z -> ST W Z;
  capability64_route : Z -> Z -> Z -> ST W Z;
  capability64_revoke : Z -> Z -> ST W Z;
  capability64_grant_service : Z -> Z -> Z -> ST W Z;
  capability64_delegate_persistent : Z -> Z -> Z -> ST W Z;
  fs64_handle_is_node : Z -> Z -> ST W Z;
  fs64_revoke : Z -> Z -> ST W Z;
  persona_audit64_record : Z -> Z -> Z -> Z -> Z -> ST W Z
}.

Record handle_state (W : Type) := mk_handles {
  g_windows_handle64_tables : list handle_table;
  g_windows_handle64_table_used : list Z;
  g_windows_handle64_events : list event_object;
  g_windows_handle64_mutants : list mutant_object;
  g_windows_handle64_initialized : Z;
  g_windows_handle64_install_count : Z;
  g_windows_handle64_duplicate_count : Z;
  g_windows_handle64_inherit_count : Z;
  g_windows_handle64_close_count : Z;
  g_windows_handle64_pseudo_count : Z;
  g_windows_handle64_global_denial_count : Z;
  g_windows_handle64_event_create_count : Z;
  g_windows_handle64_event_set_count : Z;
  g_windows_handle64_event_wait_count : Z;
  g_windows_handle64_event_denial_count : Z;
  g_windows_handle64_event_live_count : Z;
  g_windows_handle64_event_last_handle : Z;
  g_windows_handle64_event_last_state : Z;
  g_windows_handle64_mutant_create_count : Z;
  g_windows_handle64_mutant_wait_count : Z;
  g_windows_handle64_mutant_release_count : Z;
  g_windows_handle64_mutant_denial_count : Z;
  g_windows_handle64_mutant_live_count : Z;
  g_windows_handle64_mutant_last_handle : Z;
  g_windows_handle64_mutant_last_owner : Z;
  g_windows_handle64_mutant_last_count : Z;
  g_windows_handle64_last_handle : Z;
  g_windows_handle64_last_capability : Z;
  g_windows_handle64_last_result : Z;
  persona_contexts : gmap Z persona_view;
  handle_world : W }.
Arguments mk_handles {W}.
Arguments g_windows_handle64_tables {W}.
Arguments g_windows_handle64_table_used {W}.
Arguments g_windows_handle64_events {W}.
Arguments g_windows_handle64_mutants {W}.
Arguments g_windows_handle64_initialized {W}.
Arguments g_windows_handle64_install_count {W}.
Arguments g_windows_handle64_duplicate_count {W}.
Arguments g_windows_handle64_inherit_count {W}.
Arguments g_windows_handle64_close_count {W}.
Arguments g_windows_handle64_pseudo_count {W}.
Arguments g_windows_handle64_global_denial_count {W}.
Arguments g_windows_handle64_event_create_count {W}.
Arguments g_windows_handle64_event_set_count {W}.
Arguments g_windows_handle64_event_wait_count {W}.
Arguments g_windows_handle64_event_denial_count {W}.
Arguments g_windows_handle64_event_live_count {W}.
Arguments g_windows_handle64_event_last_handle {W}.
Arguments g_windows_handle64_event_last_state {W}.
Arguments g_windows_handle64_mutant_create_count {W}.
Arguments g_windows_handle64_mutant_wait_count {W}.
Arguments g_windows_handle64_mutant_release_count {W}.
Arguments g_windows_handle64_mutant_denial_count {W}.
Arguments g_windows_handle64_mutant_live_count {W}.
Arguments g_windows_handle64_mutant_last_handle {W}.
Arguments g_windows_handle64_mutant_last_owner {W}.
Arguments g_windows_handle64_mutant_last_count {W}.
Arguments g_windows_handle64_last_handle {W}.
Arguments g_windows_handle64_last_capability {W}.
Arguments g_windows_handle64_last_result {W}.
Arguments persona_contexts {W}.
Arguments handle_world {W}.

#[export] Instance eta_handle_state W : Eta (handle_state W) := {| eta s :=
  mk_handles
    (g_windows_handle64_tables s) (g_windows_handle64_table_used s) (g_windows_handle64_events s) (g_windows_handle64_mutants s)
    (g_windows_handle64_initialized s) (g_windows_handle64_install_count s) (g_windows_handle64_duplicate_count s) (g_windows_handle64_inherit_count s)
    (g_windows_handle64_close_count s) (g_windows_handle64_pseudo_count s) (g_windows_handle64_global_denial_count s) (g_windows_handle64_event_create_count s)
    (g_windows_handle64_event_set_count s) (g_windows_handle64_event_wait_count s) (g_windows_handle64_event_denial_count s) (g_windows_handle64_event_live_count s)
    (g_windows_handle64_event_last_handle s) (g_windows_handle64_event_last_state s) (g_windows_handle64_mutant_create_count s) (g_windows_handle64_mutant_wait_count s)
    (g_windows_handle64_mutant_release_count s) (g_windows_handle64_mutant_denial_count s) (g_windows_handle64_mutant_live_count s) (g_windows_handle64_mutant_last_handle s)
    (g_windows_handle64_mutant_last_owner s) (g_windows_handle64_mutant_last_count s) (g_windows_handle64_last_handle s) (g_windows_handle64_last_capability s)
    (g_windows_handle64_last_result s) (persona_contexts s) (handle_world s) |}.

(** ** Cleared objects *)

Definition windows_handle64_clear_event : event_object :=
  mk_event 0 PROCESS64_INVALID_PID 0 0 0 0 PROCESS64_INVALID_PID SCHEDULER64_INVALID_TASK.
Definition windows_handle64_clear_mutant : mutant_object :=
  mk_mutant 0 PROCESS64_INVALID_PID PROCESS64_INVALID_PID 0 0 0 PROCESS64_INVALID_PID SCHEDULER64_INVALID_TASK.
Definition windows_handle64_clear_entry : handle_entry :=
  mk_entry WINDOWS_HANDLE64_INVALID CAPABILITY64_INVALID_HANDLE WINDOWS_HANDLE64_TYPE_EMPTY 0 0 0 0.
Definition windows_handle64_clear_table : handle_table :=
  mk_table PROCESS64_INVALID_PID 0 0 0 WINDOWS_HANDLE64_INVALID (replicate WINDOWS_HANDLE64_TABLE_LIMIT windows_handle64_clear_entry).

Definition windows_handle64_valid_type (ty : Z) : bool :=
  (ty =? WINDOWS_HANDLE64_TYPE_FILE) || (ty =? WINDOWS_HANDLE64_TYPE_DEVICE) || (ty =? WINDOWS_HANDLE64_TYPE_EVENT)
  || (ty =? WINDOWS_HANDLE64_TYPE_MUTANT) || (ty =? WINDOWS_HANDLE64_TYPE_PROCESS) || (ty =? WINDOWS_HANDLE64_TYPE_THREAD)
  || (ty =? WINDOWS_HANDLE64_TYPE_KEY).

(** [(flags & ~WINDOWS_HANDLE64_FLAGS_VALID) == 0]. *)
Definition flags_valid (fl : Z) : bool :=
  Z.land fl (not32 (Z.lor WINDOWS_HANDLE64_FLAG_INHERITABLE WINDOWS_HANDLE64_FLAG_PROTECT_CLOSE)) =? 0.

Definition windows_handle64_entry_active (e : handle_entry) : bool :=
  negb (handle e =? WINDOWS_HANDLE64_INVALID) && negb (capability_handle e =? CAPABILITY64_INVALID_HANDLE)
  && negb (object_type e =? WINDOWS_HANDLE64_TYPE_EMPTY) && negb (ref_count e =? 0).

Definition windows_handle64_slot_handle (slot : nat) : Z :=
  WINDOWS_HANDLE64_FIRST_DYNAMIC + Z.of_nat slot * WINDOWS_HANDLE64_GRANULARITY.

Definition windows_handle64_is_pseudo (h : Z) : bool :=
  (h =? WINDOWS_HANDLE64_PSEUDO_CURRENT_PROCESS) || (h =? WINDOWS_HANDLE64_PSEUDO_CURRENT_THREAD).

(** ** Entries of a table *)

Definition windows_handle64_find_entry (t : handle_table) (h : Z) : option nat :=
  if h =? WINDOWS_HANDLE64_INVALID then None
  else find_index (fun e => windows_handle64_entry_active e && (handle e =? h)) (entries t).

Definition entry_at (t : handle_table) (i : nat) : handle_entry := default windows_handle64_clear_entry (entries t !! i).
Definition set_entry (i : nat) (f : handle_entry -> handle_entry) (t : handle_table) : handle_table :=
  t <| entries := alter f i (entries t) |>.

(** An active entry for the same capability and type. *)
Definition shares (cap ty : Z) (e : handle_entry) : bool :=
  windows_handle64_entry_active e && (capability_handle e =? cap) && (object_type e =? ty).
(** An active entry for the same object. *)
Definition names (ty token : Z) (e : handle_entry) : bool :=
  windows_handle64_entry_active e && (object_type e =? ty) && (reserved e =? token).

Definition windows_handle64_shared_entry_count (t : handle_table) (cap ty : Z) : Z := Z.of_nat (count_if (shares cap ty) (entries t)).

Definition windows_handle64_sync_ref_counts (cap ty : Z) (t : handle_table) : handle_table :=
  let n := windows_handle64_shared_entry_count t cap ty in
  if n =? 0 then t
  else t <| entries := (fun e => if shares cap ty e then e <| ref_count := n |> else e) <$> entries t |>.

Definition windows_handle64_prior_shared_entry_exists (t : handle_table) (i : nat) : bool :=
  let e := entry_at t i in
  windows_handle64_entry_active e && (0 <? count_if (shares (capability_handle e) (object_type e)) (take i (entries t)))%nat.

(** The table with a new entry in slot [i]. *)
Definition entry_installed (i : nat) (cap ty rt fl : Z) (t : handle_table) : handle_table :=
  let h := windows_handle64_slot_handle i in
  let t := set_entry i (fun _ => mk_entry h cap ty rt fl 1 0) t in
  let t := t <| live_count := inc32 (live_count t) |> in
  let t := if high_water_handle t <? h then t <| high_water_handle := h |> else t in
  windows_handle64_sync_ref_counts cap ty t.

Definition drop_live (t : handle_table) : handle_table :=
  if negb (live_count t =? 0) then t <| live_count := dec32 (live_count t) |> else t.

Section handles.
Context {W : Type} {world : HandleWorld W}.

Abbreviation HM := (ST (handle_state W)).

Definition on_handle_world {A} (m : ST W A) : HM A := fun s => let (a, w) := m (handle_world s) in (a, s <| handle_world := w |>).

Definition table_at (s : handle_state W) (t : nat) : handle_table := default windows_handle64_clear_table (g_windows_handle64_tables s !! t).
Definition update_table (t : nat) (f : handle_table -> handle_table) : HM unit :=
  modify (fun s => s <| g_windows_handle64_tables := alter f t (g_windows_handle64_tables s) |>).
Definition event_at (s : handle_state W) (i : nat) : event_object := default windows_handle64_clear_event (g_windows_handle64_events s !! i).
Definition update_event (i : nat) (f : event_object -> event_object) : HM unit :=
  modify (fun s => s <| g_windows_handle64_events := alter f i (g_windows_handle64_events s) |>).
Definition mutant_at (s : handle_state W) (i : nat) : mutant_object := default windows_handle64_clear_mutant (g_windows_handle64_mutants s !! i).
Definition update_mutant (i : nat) (f : mutant_object -> mutant_object) : HM unit :=
  modify (fun s => s <| g_windows_handle64_mutants := alter f i (g_windows_handle64_mutants s) |>).
Definition principal_of (p : Z) (s : handle_state W) : Z := process64_principal p (handle_world s).

Definition windows_handle64_init : HM unit :=
  done <- gets (fun s => negb (g_windows_handle64_initialized s =? 0)) ;;
  if done : bool then ret tt
  else modify (fun s => mk_handles
    ((fun _ => windows_handle64_clear_table) <$> g_windows_handle64_tables s) ((fun _ => 0) <$> g_windows_handle64_table_used s)
    ((fun _ => windows_handle64_clear_event) <$> g_windows_handle64_events s)
    ((fun _ => windows_handle64_clear_mutant) <$> g_windows_handle64_mutants s) 1
    0 0 0 0 0 0 0 0 0 0 0 WINDOWS_HANDLE64_INVALID 0 0 0 0 0 0 WINDOWS_HANDLE64_INVALID PROCESS64_INVALID_PID 0
    WINDOWS_HANDLE64_INVALID CAPABILITY64_INVALID_HANDLE WINDOWS_ABI64_STATUS_SUCCESS
    (persona_contexts s) (handle_world s)).

Definition persona64_type (p : Z) : HM Z :=
  gets (fun s => match persona_contexts s !! p with Some c => persona_type c | None => PERSONA64_TYPE_COUNT end).

Definition windows_handle64_table_for_process (p : Z) : HM (option nat) :=
  windows_handle64_init ;;;
  gets (fun s => match persona_contexts s !! p with
                 | Some c => if persona_type c =? PERSONA64_TYPE_WINDOWS_PE then windows_handle_table c else None
                 | None => None
                 end).

Definition windows_handle64_note_denial (p result : Z) : HM unit :=
  table <- windows_handle64_table_for_process p ;;
  modify (fun s => s <| g_windows_handle64_global_denial_count := inc32 (g_windows_handle64_global_denial_count s) |>
                     <| g_windows_handle64_last_result := result |>) ;;;
  (match table with
   | Some t => update_table t (fun tb => tb <| denial_count := inc32 (denial_count tb) |>)
   | None => ret tt
   end) ;;;
  on_handle_world (persona_audit64_record p PERSONA_AUDIT64_EVENT_CAPABILITY_DENIED WINDOWS_HANDLE64_AUDIT_HANDLE_TABLE result 0) ;;;
  ret tt.

(** ** Counting over all tables *)

(** The entries of the tables in use. *)
Definition count_used (P : handle_entry -> bool) (tb : handle_table) (used : Z) : nat := if used =? 0 then 0%nat else count_if P (entries tb).
Definition count_entries (P : handle_entry -> bool) (s : handle_state W) : nat :=
  sum_list (zip_with (count_used P) (g_windows_handle64_tables s) (g_windows_handle64_table_used s)).

Definition windows_handle64_global_shared_entry_count (cap ty : Z) (s : handle_state W) : Z := Z.of_nat (count_entries (shares cap ty) s).
Definition windows_handle64_global_event_entry_count (token : Z) (s : handle_state W) : Z :=
  if (token =? 0) || (Z.of_nat WINDOWS_HANDLE64_MAX_EVENTS <? token) then 0
  else Z.of_nat (count_entries (names WINDOWS_HANDLE64_TYPE_EVENT token) s).
Definition windows_handle64_global_mutant_entry_count (token : Z) (s : handle_state W) : Z :=
  if (token =? 0) || (Z.of_nat WINDOWS_HANDLE64_MAX_MUTANTS <? token) then 0
  else Z.of_nat (count_entries (names WINDOWS_HANDLE64_TYPE_MUTANT token) s).

(** The index a token stands for. *)
Definition token_index (token : Z) : nat := Z.to_nat (token - 1).

Definition windows_handle64_release_event_if_unreferenced (token : Z) : HM unit :=
  count <- gets (windows_handle64_global_event_entry_count token) ;;
  if (token =? 0) || (Z.of_nat WINDOWS_HANDLE64_MAX_EVENTS <? token) || negb (count =? 0) then ret tt
  else
    event <- gets (fun s => event_at s (token_index token)) ;;
    if e_active event =? 0 then ret tt
    else
      update_event (token_index token) (fun _ => windows_handle64_clear_event) ;;;
      modify (fun s => if negb (g_windows_handle64_event_live_count s =? 0)
                       then s <| g_windows_handle64_event_live_count := dec32 (g_windows_handle64_event_live_count s) |> else s).

Definition windows_handle64_release_mutant_if_unreferenced (token : Z) : HM unit :=
  count <- gets (windows_handle64_global_mutant_entry_count token) ;;
  if (token =? 0) || (Z.of_nat WINDOWS_HANDLE64_MAX_MUTANTS <? token) || negb (count =? 0) then ret tt
  else
    mutant <- gets (fun s => mutant_at s (token_index token)) ;;
    if m_active mutant =? 0 then ret tt
    else
      update_mutant (token_index token) (fun _ => windows_handle64_clear_mutant) ;;;
      modify (fun s => if negb (g_windows_handle64_mutant_live_count s =? 0)
                       then s <| g_windows_handle64_mutant_live_count := dec32 (g_windows_handle64_mutant_live_count s) |> else s).

Definition release_object (ty token : Z) : HM unit :=
  if ty =? WINDOWS_HANDLE64_TYPE_EVENT then windows_handle64_release_event_if_unreferenced token
  else if ty =? WINDOWS_HANDLE64_TYPE_MUTANT then windows_handle64_release_mutant_if_unreferenced token
  else ret tt.

(** ** What a handle stands on *)

Definition is_file_node (cap owner ty : Z) : HM bool :=
  if ty =? WINDOWS_HANDLE64_TYPE_FILE
  then node <- on_handle_world (fs64_handle_is_node cap owner) ;; ret (negb (node =? 0))
  else ret false.

Definition windows_handle64_backing_is_valid (cap owner ty rt : Z) : HM bool :=
  node <- is_file_node cap owner ty ;;
  if node : bool then ret true
  else
    holder <- on_handle_world (capability64_owner cap owner) ;;
    if negb (holder =? owner) then ret false
    else held <- on_handle_world (capability64_rights cap owner) ;; ret (Z.land held rt =? rt).

Definition windows_handle64_revoke_backing (cap owner ty : Z) : HM unit :=
  node <- is_file_node cap owner ty ;;
  if node : bool then on_handle_world (fs64_revoke cap owner) ;;; ret tt
  else on_handle_world (capability64_revoke cap owner) ;;; ret tt.

Definition windows_handle64_note_event_denial (result : Z) : HM unit :=
  modify (fun s => s <| g_windows_handle64_event_denial_count := inc32 (g_windows_handle64_event_denial_count s) |>
                     <| g_windows_handle64_last_result := result |>).
Definition windows_handle64_note_mutant_denial (result : Z) : HM unit :=
  modify (fun s => s <| g_windows_handle64_mutant_denial_count := inc32 (g_windows_handle64_mutant_denial_count s) |>
                     <| g_windows_handle64_last_result := result |>).

(** The entry of a handle that names an object of a type with a right. *)
Definition routed_entry (t : nat) (h ty required : Z) : HM (option handle_entry) :=
  tb <- gets (fun s => table_at s t) ;;
  match windows_handle64_find_entry tb h with
  | None => ret None
  | Some i =>
      let e := entry_at tb i in
      if negb (object_type e =? ty) || negb (Z.land (rights e) required =? required) then ret None
      else
        routed <- on_handle_world (capability64_route (capability_handle e) required (owner_id tb)) ;;
        ret (if routed =? CAPABILITY64_INVALID_HANDLE then None else Some e)
  end.

Definition windows_handle64_event_for_handle (p h required : Z) : HM (option nat) :=
  let deny := windows_handle64_note_event_denial WINDOWS_ABI64_STATUS_INVALID_HANDLE ;;; ret None in
  table <- windows_handle64_table_for_process p ;;
  match table with
  | None => deny
  | Some t =>
      if required =? 0 then deny
      else
        entry <- routed_entry t h WINDOWS_HANDLE64_TYPE_EVENT required ;;
        match entry with
        | None => deny
        | Some e =>
            let token := reserved e in
            event <- gets (fun s => event_at s (token_index token)) ;;
            if (token =? 0) || (Z.of_nat WINDOWS_HANDLE64_MAX_EVENTS <? token) || (e_active event =? 0) then deny
            else modify (fun s => s <| g_windows_handle64_event_last_handle := h |>) ;;; ret (Some (token_index token))
        end
  end.

Definition windows_handle64_mutant_for_handle (p h required : Z) : HM (option nat) :=
  let deny := windows_handle64_note_mutant_denial WINDOWS_ABI64_STATUS_INVALID_HANDLE ;;; ret None in
  table <- windows_handle64_table_for_process p ;;
  match table with
  | None => deny
  | Some t =>
      if required =? 0 then deny
      else
        entry <- routed_entry t h WINDOWS_HANDLE64_TYPE_MUTANT required ;;
        match entry with
        | None => deny
        | Some e =>
            let token := reserved e in
            mutant <- gets (fun s => mutant_at s (token_index token)) ;;
            if (token =? 0) || (Z.of_nat WINDOWS_HANDLE64_MAX_MUTANTS <? token) || (m_active mutant =? 0) then deny
            else modify (fun s => s <| g_windows_handle64_mutant_last_handle := h |>) ;;; ret (Some (token_index token))
        end
  end.

(** ** Tables of processes *)

Definition windows_handle64_install_in_table (t : nat) (cap ty rt fl : Z) : HM Z :=
  if (cap =? CAPABILITY64_INVALID_HANDLE) || negb (windows_handle64_valid_type ty) || (rt =? 0) || negb (flags_valid fl)
  then ret WINDOWS_HANDLE64_INVALID
  else
    free <- gets (fun s => find_index (fun e => negb (windows_handle64_entry_active e)) (entries (table_at s t))) ;;
    match free with
    | None => ret WINDOWS_HANDLE64_INVALID
    | Some i => update_table t (entry_installed i cap ty rt fl) ;;; ret (windows_handle64_slot_handle i)
    end.

Definition set_context_table (p : Z) (t : option nat) : HM unit :=
  modify (fun s => s <| persona_contexts := alter (fun c => c <| windows_handle_table := t |>) p (persona_contexts s) |>).

Definition windows_handle64_init_process (p : Z) : HM bool :=
  windows_handle64_init ;;;
  context <- gets (fun s => persona_contexts s !! p) ;;
  owner <- gets (principal_of p) ;;
  let deny := windows_handle64_note_denial p WINDOWS_ABI64_STATUS_INVALID_PARAMETER ;;; ret false in
  match context with
  | None => deny
  | Some c =>
      if (p =? PROCESS64_INVALID_PID) || (owner =? 0) || negb (persona_type c =? PERSONA64_TYPE_WINDOWS_PE) then deny
      else
        match windows_handle_table c with
        | Some _ => ret true
        | None =>
            free <- gets (fun s => find_index (fun u => u =? 0) (g_windows_handle64_table_used s)) ;;
            match free with
            | None => deny
            | Some t =>
                modify (fun s => s <| g_windows_handle64_table_used := <[t := 1]> (g_windows_handle64_table_used s) |>) ;;;
                update_table t (fun _ => windows_handle64_clear_table <| pid := p |> <| owner_id := owner |>) ;;;
                set_context_table p (Some t) ;;;
                ret true
            end
        end
  end.

(** The loops of [windows_handle64_release_process]. *)
Definition release_revoke_body (t i : nat) : HM unit :=
  tb <- gets (fun s => table_at s t) ;;
  let e := entry_at tb i in
  if negb (windows_handle64_entry_active e) then ret tt
  else
    shared <- gets (windows_handle64_global_shared_entry_count (capability_handle e) (object_type e)) ;;
    if negb (windows_handle64_prior_shared_entry_exists tb i)
       && (shared =? windows_handle64_shared_entry_count tb (capability_handle e) (object_type e))
    then windows_handle64_revoke_backing (capability_handle e) (owner_id tb) (object_type e)
    else ret tt.

Definition release_clear_body (t i : nat) (released : Z) : HM Z :=
  tb <- gets (fun s => table_at s t) ;;
  let e := entry_at tb i in
  if negb (windows_handle64_entry_active e) then ret released
  else
    update_table t (set_entry i (fun _ => windows_handle64_clear_entry)) ;;;
    release_object (object_type e) (reserved e) ;;;
    ret (inc32 released).

Definition windows_handle64_release_process (p : Z) : HM Z :=
  windows_handle64_init ;;;
  context <- gets (fun s => persona_contexts s !! p) ;;
  match context with
  | Some c =>
      match windows_handle_table c with
      | Some t =>
          for_range WINDOWS_HANDLE64_TABLE_LIMIT (release_revoke_body t) ;;;
          released <- fold_range WINDOWS_HANDLE64_TABLE_LIMIT 0 (release_clear_body t) ;;
          update_table t (fun tb => tb <| live_count := 0 |>) ;;;
          set_context_table p None ;;;
          (if (t <? WINDOWS_HANDLE64_MAX_TABLES)%nat
           then update_table t (fun _ => windows_handle64_clear_table) ;;;
                modify (fun s => s <| g_windows_handle64_table_used := <[t := 0]> (g_windows_handle64_table_used s) |>)
           else ret tt) ;;;
          ret released
      | None => ret 0
      end
  | None => ret 0
  end.

(** [g_windows_handle64_last_handle = ...] and the two fields behind it. *)
Definition note_success (h cap : Z) : HM unit :=
  modify (fun s => s <| g_windows_handle64_last_handle := h |> <| g_windows_handle64_last_capability := cap |>
                     <| g_windows_handle64_last_result := WINDOWS_ABI64_STATUS_SUCCESS |>).

Definition windows_handle64_install (p cap ty rt fl : Z) : HM Z :=
  let deny result := windows_handle64_note_denial p result ;;; ret WINDOWS_HANDLE64_INVALID in
  table <- windows_handle64_table_for_process p ;;
  owner <- gets (principal_of p) ;;
  match table with
  | None => deny WINDOWS_ABI64_STATUS_INVALID_HANDLE
  | Some t =>
      if (owner =? 0) || (cap =? CAPABILITY64_INVALID_HANDLE) then deny WINDOWS_ABI64_STATUS_INVALID_HANDLE
      else
        valid <- windows_handle64_backing_is_valid cap owner ty rt ;;
        if negb valid then deny WINDOWS_ABI64_STATUS_INVALID_HANDLE
        else
          h <- windows_handle64_install_in_table t cap ty rt fl ;;
          if h =? WINDOWS_HANDLE64_INVALID then deny WINDOWS_ABI64_STATUS_INVALID_PARAMETER
          else
            modify (fun s => s <| g_windows_handle64_install_count := inc32 (g_windows_handle64_install_count s) |>) ;;;
            note_success h cap ;;;
            ret h
  end.

(** The capability of a duplicate, [None] when it is denied. *)
Definition duplicate_capability (source_pid source_owner target_owner : Z) (e : handle_entry) : HM (option Z) :=
  if source_owner =? target_owner then ret (Some (capability_handle e))
  else
    node <- is_file_node (capability_handle e) source_owner (object_type e) ;;
    if node : bool then windows_handle64_note_denial source_pid WINDOWS_ABI64_STATUS_ACCESS_DENIED ;;; ret None
    else
      cap <- on_handle_world (capability64_delegate_persistent (capability_handle e) (rights e) (CAPABILITY64_CONTEXT source_owner target_owner)) ;;
      if cap =? CAPABILITY64_INVALID_HANDLE
      then windows_handle64_note_denial source_pid WINDOWS_ABI64_STATUS_INVALID_HANDLE ;;; ret None
      else ret (Some cap).

(** The object of the source named by the new entry too. *)
Definition copy_token (t : nat) (h : Z) (e : handle_entry) : HM unit :=
  if (object_type e =? WINDOWS_HANDLE64_TYPE_EVENT) || (object_type e =? WINDOWS_HANDLE64_TYPE_MUTANT) || (object_type e =? WINDOWS_HANDLE64_TYPE_KEY)
  then
    target <- gets (fun s => windows_handle64_find_entry (table_at s t) h) ;;
    match target with
    | Some i => update_table t (set_entry i (fun x => x <| reserved := reserved e |>))
    | None => ret tt
    end
  else ret tt.

Definition windows_handle64_duplicate (source_pid source_handle target_pid fl : Z) : HM Z :=
  let deny result := windows_handle64_note_denial source_pid result ;;; ret WINDOWS_HANDLE64_INVALID in
  source_table <- windows_handle64_table_for_process source_pid ;;
  target_table <- windows_handle64_table_for_process target_pid ;;
  source_owner <- gets (principal_of source_pid) ;;
  target_owner <- gets (principal_of target_pid) ;;
  if windows_handle64_is_pseudo source_handle then
    modify (fun s => s <| g_windows_handle64_duplicate_count := inc32 (g_windows_handle64_duplicate_count s) |>) ;;;
    note_success source_handle CAPABILITY64_INVALID_HANDLE ;;;
    ret source_handle
  else
    match source_table, target_table with
    | Some st, Some tt_ =>
        if negb (flags_valid fl) then deny WINDOWS_ABI64_STATUS_INVALID_HANDLE
        else
          tb <- gets (fun s => table_at s st) ;;
          match windows_handle64_find_entry tb source_handle with
          | None => deny WINDOWS_ABI64_STATUS_INVALID_HANDLE
          | Some i =>
              let e := entry_at tb i in
              target_capability <- duplicate_capability source_pid source_owner target_owner e ;;
              match target_capability with
              | None => ret WINDOWS_HANDLE64_INVALID
              | Some cap =>
                  h <- windows_handle64_install_in_table tt_ cap (object_type e) (rights e) fl ;;
                  if h =? WINDOWS_HANDLE64_INVALID then
                    (if negb (source_owner =? target_owner) then windows_handle64_revoke_backing cap target_owner (object_type e) else ret tt) ;;;
                    deny WINDOWS_ABI64_STATUS_INVALID_PARAMETER
                  else
                    copy_token tt_ h e ;;;
                    modify (fun s => s <| g_windows_handle64_duplicate_count := inc32 (g_windows_handle64_duplicate_count s) |>) ;;;
                    note_success h cap ;;;
                    ret h
              end
          end
    | _, _ => deny WINDOWS_ABI64_STATUS_INVALID_HANDLE
    end.

Definition inherit_body (source_pid target_pid : Z) (st i : nat) (inherited : Z) : HM Z :=
  e <- gets (fun s => entry_at (table_at s st) i) ;;
  if windows_handle64_entry_active e && negb (Z.land (flags e) WINDOWS_HANDLE64_FLAG_INHERITABLE =? 0) then
    h <- windows_handle64_duplicate source_pid (handle e) target_pid (flags e) ;;
    ret (if h =? WINDOWS_HANDLE64_INVALID then inherited else inc32 inherited)
  else ret inherited.

Definition windows_handle64_inherit (source_pid target_pid : Z) : HM Z :=
  source_table <- windows_handle64_table_for_process source_pid ;;
  target_table <- windows_handle64_table_for_process target_pid ;;
  match source_table, target_table with
  | Some st, Some _ =>
      inherited <- fold_range WINDOWS_HANDLE64_TABLE_LIMIT 0 (inherit_body source_pid target_pid st) ;;
      (if negb (inherited =? 0)
       then modify (fun s => s <| g_windows_handle64_inherit_count := add32 (g_windows_handle64_inherit_count s) inherited |>) else ret tt) ;;;
      ret inherited
  | _, _ => windows_handle64_note_denial source_pid WINDOWS_ABI64_STATUS_INVALID_HANDLE ;;; ret 0
  end.

Definition windows_handle64_close (p h : Z) : HM bool :=
  let deny := windows_handle64_note_denial p WINDOWS_ABI64_STATUS_INVALID_HANDLE ;;; ret false in
  table <- windows_handle64_table_for_process p ;;
  match table with
  | None => deny
  | Some t =>
      if windows_handle64_is_pseudo h then deny
      else
        tb <- gets (fun s => table_at s t) ;;
        match windows_handle64_find_entry tb h with
        | None => deny
        | Some i =>
            let e := entry_at tb i in
            if negb (Z.land (flags e) WINDOWS_HANDLE64_FLAG_PROTECT_CLOSE =? 0) then deny
            else
              shared <- gets (windows_handle64_global_shared_entry_count (capability_handle e) (object_type e)) ;;
              update_table t (set_entry i (fun _ => windows_handle64_clear_entry)) ;;;
              release_object (object_type e) (reserved e) ;;;
              update_table t drop_live ;;;
              (if 1 <? shared then update_table t (windows_handle64_sync_ref_counts (capability_handle e) (object_type e))
               else windows_handle64_revoke_backing (capability_handle e) (owner_id tb) (object_type e)) ;;;
              modify (fun s => s <| g_windows_handle64_close_count := inc32 (g_windows_handle64_close_count s) |>) ;;;
              note_success h (capability_handle e) ;;;
              ret true
        end
  end.

(** The object type and the identity, [None] when denied. *)
Definition windows_handle64_resolve_pseudo (p h : Z) : HM (option (Z * Z)) :=
  owner <- gets (principal_of p) ;;
  if (owner =? 0) || negb (windows_handle64_is_pseudo h) then
    windows_handle64_note_denial p WINDOWS_ABI64_STATUS_INVALID_HANDLE ;;; ret None
  else
    modify (fun s => s <| g_windows_handle64_pseudo_count := inc32 (g_windows_handle64_pseudo_count s) |>) ;;;
    note_success h CAPABILITY64_INVALID_HANDLE ;;;
    ret (Some (if h =? WINDOWS_HANDLE64_PSEUDO_CURRENT_PROCESS then WINDOWS_HANDLE64_TYPE_PROCESS else WINDOWS_HANDLE64_TYPE_THREAD, p)).

(** ** Queries of a table *)

Definition table_query (none : Z) (f : handle_table -> Z) (p : Z) : HM Z :=
  table <- windows_handle64_table_for_process p ;;
  gets (fun s => match table with Some t => f (table_at s t) | None => none end).
Definition windows_handle64_live_count : Z -> HM Z := table_query 0 live_count.
Definition windows_handle64_denial_count : Z -> HM Z := table_query 0 denial_count.
Definition windows_handle64_high_water_handle : Z -> HM Z := table_query WINDOWS_HANDLE64_INVALID high_water_handle.
Definition windows_handle64_first_handle : Z -> HM Z :=
  table_query WINDOWS_HANDLE64_INVALID (fun tb =>
    match find_index windows_handle64_entry_active (entries tb) with
    | Some i => handle (entry_at tb i)
    | None => WINDOWS_HANDLE64_INVALID
    end).
Definition entry_query (none : Z) (f : handle_entry -> Z) (p h : Z) : HM Z :=
  table_query none (fun tb => match windows_handle64_find_entry tb h with Some i => f (entry_at tb i) | None => none end) p.
Definition windows_handle64_entry_capability : Z -> Z -> HM Z := entry_query CAPABILITY64_INVALID_HANDLE capability_handle.
Definition windows_handle64_entry_type : Z -> Z -> HM Z := entry_query WINDOWS_HANDLE64_TYPE_EMPTY object_type.
Definition windows_handle64_entry_rights : Z -> Z -> HM Z := entry_query 0 rights.
Definition windows_handle64_entry_flags : Z -> Z -> HM Z := entry_query 0 flags.
Definition windows_handle64_entry_ref_count : Z -> Z -> HM Z := entry_query 0 ref_count.

(** ** Objects behind handles *)

(** The table of a process that creates an object, made when it has none. *)
Definition table_for_creation (p : Z) : HM (option nat) :=
  table <- windows_handle64_table_for_process p ;;
  (match table with None => windows_handle64_init_process p ;;; ret tt | Some _ => ret tt end) ;;;
  windows_handle64_table_for_process p.

(** A granted capability in a new entry: the handle and its slot, or the
    status of the denial. *)
Definition grant_entry (t : nat) (owner ty rt fl p : Z) : HM (Z * nat * Z + Z) :=
  cap <- on_handle_world (capability64_grant_service SERVICE_ENDPOINT_CLASS_INIT rt owner) ;;
  if cap =? CAPABILITY64_INVALID_HANDLE then ret (inr WINDOWS_ABI64_STATUS_NO_MEMORY)
  else
    h <- windows_handle64_install_in_table t cap ty rt fl ;;
    if h =? WINDOWS_HANDLE64_INVALID then
      on_handle_world (capability64_revoke cap owner) ;;; ret (inr WINDOWS_ABI64_STATUS_NO_MEMORY)
    else
      entry <- gets (fun s => windows_handle64_find_entry (table_at s t) h) ;;
      match entry with
      | None => windows_handle64_close p h ;;; ret (inr WINDOWS_ABI64_STATUS_INVALID_HANDLE)
      | Some i => ret (inl (h, i, cap))
      end.

Definition windows_handle64_key_create (p key_id rt fl : Z) : HM Z :=
  let deny result := windows_handle64_note_denial p result ;;; ret WINDOWS_HANDLE64_INVALID in
  owner <- gets (principal_of p) ;;
  windows_handle64_init ;;;
  ty <- persona64_type p ;;
  if (p =? PROCESS64_INVALID_PID) || (owner =? 0) || (key_id =? 0) || negb (ty =? PERSONA64_TYPE_WINDOWS_PE) || (rt =? 0) || negb (flags_valid fl)
  then deny WINDOWS_ABI64_STATUS_INVALID_PARAMETER
  else
    table <- table_for_creation p ;;
    match table with
    | None => deny WINDOWS_ABI64_STATUS_INVALID_HANDLE
    | Some t =>
        granted <- grant_entry t owner WINDOWS_HANDLE64_TYPE_KEY rt fl p ;;
        match granted with
        | inr status => deny status
        | inl (h, i, cap) =>
            update_table t (set_entry i (fun e => e <| reserved := key_id |>)) ;;;
            note_success h cap ;;;
            ret h
        end
    end.

Definition windows_handle64_key_id (p h : Z) : HM Z :=
  let deny := windows_handle64_note_denial p WINDOWS_ABI64_STATUS_INVALID_HANDLE ;;; ret 0 in
  table <- windows_handle64_table_for_process p ;;
  match table with
  | None => deny
  | Some t =>
      tb <- gets (fun s => table_at s t) ;;
      match windows_handle64_find_entry tb h with
      | None => deny
      | Some i =>
          let e := entry_at tb i in
          if negb (object_type e =? WINDOWS_HANDLE64_TYPE_KEY) || (reserved e =? 0) then deny
          else
            routed <- on_handle_world (capability64_route (capability_handle e) CAPABILITY64_RIGHT_QUERY (owner_id tb)) ;;
            if routed =? CAPABILITY64_INVALID_HANDLE then deny
            else note_success h (capability_handle e) ;;; ret (reserved e)
      end
  end.

(** *** Events *)

Definition object_rights : Z := Z.lor CAPABILITY64_RIGHT_SEND CAPABILITY64_RIGHT_QUERY.

Definition windows_handle64_event_create (p manual initial fl : Z) : HM Z :=
  let deny result := windows_handle64_note_event_denial result ;;; ret WINDOWS_HANDLE64_INVALID in
  owner <- gets (principal_of p) ;;
  windows_handle64_init ;;;
  ty <- persona64_type p ;;
  if (p =? PROCESS64_INVALID_PID) || (owner =? 0) || negb (ty =? PERSONA64_TYPE_WINDOWS_PE) || negb (flags_valid fl)
  then deny WINDOWS_ABI64_STATUS_INVALID_PARAMETER
  else
    table <- table_for_creation p ;;
    match table with
    | None => deny WINDOWS_ABI64_STATUS_INVALID_HANDLE
    | Some t =>
        free <- gets (fun s => find_index (fun e => e_active e =? 0) (g_windows_handle64_events s)) ;;
        match free with
        | None => deny WINDOWS_ABI64_STATUS_NO_MEMORY
        | Some k =>
            granted <- grant_entry t owner WINDOWS_HANDLE64_TYPE_EVENT object_rights fl p ;;
            match granted with
            | inr status => deny status
            | inl (h, i, cap) =>
                let state := b2z (nz initial) in
                update_event k (fun _ => mk_event 1 p (b2z (nz manual)) state 0 0 PROCESS64_INVALID_PID SCHEDULER64_INVALID_TASK) ;;;
                update_table t (set_entry i (fun e => e <| reserved := Z.of_nat k + 1 |>)) ;;;
                modify (fun s => s <| g_windows_handle64_event_create_count := inc32 (g_windows_handle64_event_create_count s) |>
                                   <| g_windows_handle64_event_live_count := inc32 (g_windows_handle64_event_live_count s) |>
                                   <| g_windows_handle64_event_last_handle := h |> <| g_windows_handle64_event_last_state := state |>) ;;;
                note_success h cap ;;;
                ret h
            end
        end
    end.

Definition no_waiter_e (e : event_object) : event_object :=
  e <| e_waiting_pid := PROCESS64_INVALID_PID |> <| e_waiting_task_id := SCHEDULER64_INVALID_TASK |>.

(** Setting an event with or without a waiter. *)
Definition event_after_set (e : event_object) : event_object :=
  let e := e <| signaled := 1 |> in
  let e := if negb (e_waiting_task_id e =? SCHEDULER64_INVALID_TASK)
           then (if manual_reset e =? 0 then no_waiter_e e <| signaled := 0 |> else no_waiter_e e) else e in
  e <| set_count := inc32 (set_count e) |>.

Definition event_outcome (h state result : Z) : HM unit :=
  modify (fun s => s <| g_windows_handle64_event_last_state := state |> <| g_windows_handle64_last_handle := h |>
                     <| g_windows_handle64_last_result := result |>).

(** The previous state and the task to wake, [None] when denied. *)
Definition windows_handle64_event_set (p h : Z) : HM (option (Z * Z)) :=
  event <- windows_handle64_event_for_handle p h CAPABILITY64_RIGHT_SEND ;;
  match event with
  | None => ret None
  | Some k =>
      e <- gets (fun s => event_at s k) ;;
      update_event k event_after_set ;;;
      modify (fun s => s <| g_windows_handle64_event_set_count := inc32 (g_windows_handle64_event_set_count s) |>) ;;;
      event_outcome h (signaled (event_after_set e)) WINDOWS_ABI64_STATUS_SUCCESS ;;;
      ret (Some (signaled e, e_waiting_task_id e))
  end.

Definition windows_handle64_event_wait (p h : Z) : HM Z :=
  event <- windows_handle64_event_for_handle p h CAPABILITY64_RIGHT_QUERY ;;
  match event with
  | None => ret WINDOWS_HANDLE64_EVENT_WAIT_DENIED
  | Some k =>
      update_event k (fun e => e <| e_wait_count := inc32 (e_wait_count e) |>) ;;;
      modify (fun s => s <| g_windows_handle64_event_wait_count := inc32 (g_windows_handle64_event_wait_count s) |>) ;;;
      e <- gets (fun s => event_at s k) ;;
      if signaled e =? 0 then
        event_outcome h 0 WINDOWS_ABI64_STATUS_TIMEOUT ;;;
        ret WINDOWS_HANDLE64_EVENT_WAIT_TIMEOUT
      else
        (if manual_reset e =? 0 then update_event k (fun e => e <| signaled := 0 |>) else ret tt) ;;;
        state <- gets (fun s => signaled (event_at s k)) ;;
        event_outcome h state WINDOWS_ABI64_STATUS_SUCCESS ;;;
        ret WINDOWS_HANDLE64_EVENT_WAIT_SIGNALED
  end.

Definition windows_handle64_event_arm_wait (p h task : Z) : HM bool :=
  let deny := windows_handle64_note_event_denial WINDOWS_ABI64_STATUS_INVALID_PARAMETER ;;; ret false in
  event <- windows_handle64_event_for_handle p h CAPABILITY64_RIGHT_QUERY ;;
  match event with
  | None => deny
  | Some k =>
      e <- gets (fun s => event_at s k) ;;
      if (task =? SCHEDULER64_INVALID_TASK) || negb (signaled e =? 0) || negb (e_waiting_task_id e =? SCHEDULER64_INVALID_TASK) then deny
      else update_event k (fun e => e <| e_waiting_pid := p |> <| e_waiting_task_id := task |>) ;;; ret true
  end.

Definition windows_handle64_event_cancel_wait (p h task : Z) : HM bool :=
  event <- windows_handle64_event_for_handle p h CAPABILITY64_RIGHT_QUERY ;;
  match event with
  | None => ret false
  | Some k =>
      e <- gets (fun s => event_at s k) ;;
      if negb (e_waiting_pid e =? p) || negb (e_waiting_task_id e =? task) then ret false
      else update_event k no_waiter_e ;;; ret true
  end.

Definition event_query (none : Z) (f : event_object -> Z) (p h : Z) : HM Z :=
  event <- windows_handle64_event_for_handle p h CAPABILITY64_RIGHT_QUERY ;;
  gets (fun s => match event with Some k => f (event_at s k) | None => none end).
Definition windows_handle64_event_waiter_task : Z -> Z -> HM Z := event_query SCHEDULER64_INVALID_TASK e_waiting_task_id.
Definition windows_handle64_event_waiter_pid : Z -> Z -> HM Z := event_query PROCESS64_INVALID_PID e_waiting_pid.
Definition windows_handle64_event_signaled : Z -> Z -> HM Z := event_query 0 signaled.
Definition windows_handle64_event_manual_reset : Z -> Z -> HM Z := event_query 0 manual_reset.

(** *** Mutants *)

Definition windows_handle64_mutant_create (p initial_owner fl : Z) : HM Z :=
  let deny result := windows_handle64_note_mutant_denial result ;;; ret WINDOWS_HANDLE64_INVALID in
  owner <- gets (principal_of p) ;;
  windows_handle64_init ;;;
  ty <- persona64_type p ;;
  if (p =? PROCESS64_INVALID_PID) || (owner =? 0) || negb (ty =? PERSONA64_TYPE_WINDOWS_PE) || negb (flags_valid fl)
  then deny WINDOWS_ABI64_STATUS_INVALID_PARAMETER
  else
    table <- table_for_creation p ;;
    match table with
    | None => deny WINDOWS_ABI64_STATUS_INVALID_HANDLE
    | Some t =>
        free <- gets (fun s => find_index (fun m => m_active m =? 0) (g_windows_handle64_mutants s)) ;;
        match free with
        | None => deny WINDOWS_ABI64_STATUS_NO_MEMORY
        | Some k =>
            granted <- grant_entry t owner WINDOWS_HANDLE64_TYPE_MUTANT object_rights fl p ;;
            match granted with
            | inr status => deny status
            | inl (h, i, cap) =>
                let holder := if nz initial_owner then p else PROCESS64_INVALID_PID in
                let depth := b2z (nz initial_owner) in
                update_mutant k (fun _ => mk_mutant 1 p holder depth 0 0 PROCESS64_INVALID_PID SCHEDULER64_INVALID_TASK) ;;;
                update_table t (set_entry i (fun e => e <| reserved := Z.of_nat k + 1 |>)) ;;;
                modify (fun s => s <| g_windows_handle64_mutant_create_count := inc32 (g_windows_handle64_mutant_create_count s) |>
                                   <| g_windows_handle64_mutant_live_count := inc32 (g_windows_handle64_mutant_live_count s) |>
                                   <| g_windows_handle64_mutant_last_handle := h |> <| g_windows_handle64_mutant_last_owner := holder |>
                                   <| g_windows_handle64_mutant_last_count := depth |>) ;;;
                note_success h cap ;;;
                ret h
            end
        end
    end.

(** The fields every outcome of a mutant leaves behind. *)
Definition mutant_outcome (h : Z) (k : nat) (result : Z) : HM unit :=
  modify (fun s => s <| g_windows_handle64_mutant_last_owner := owner_pid (mutant_at s k) |>
                     <| g_windows_handle64_mutant_last_count := recursion_count (mutant_at s k) |>
                     <| g_windows_handle64_last_handle := h |> <| g_windows_handle64_last_result := result |>).

Definition windows_handle64_mutant_wait (p h : Z) : HM Z :=
  mutant <- windows_handle64_mutant_for_handle p h CAPABILITY64_RIGHT_QUERY ;;
  match mutant with
  | None => ret WINDOWS_HANDLE64_MUTANT_WAIT_DENIED
  | Some k =>
      update_mutant k (fun m => m <| m_wait_count := inc32 (m_wait_count m) |>) ;;;
      modify (fun s => s <| g_windows_handle64_mutant_wait_count := inc32 (g_windows_handle64_mutant_wait_count s) |>) ;;;
      m <- gets (fun s => mutant_at s k) ;;
      if (owner_pid m =? PROCESS64_INVALID_PID) || (recursion_count m =? 0) then
        update_mutant k (fun m => m <| owner_pid := p |> <| recursion_count := 1 |>) ;;;
        mutant_outcome h k WINDOWS_ABI64_STATUS_SUCCESS ;;;
        ret WINDOWS_HANDLE64_MUTANT_WAIT_ACQUIRED
      else if owner_pid m =? p then
        update_mutant k (fun m => m <| recursion_count := inc32 (recursion_count m) |>) ;;;
        mutant_outcome h k WINDOWS_ABI64_STATUS_SUCCESS ;;;
        ret WINDOWS_HANDLE64_MUTANT_WAIT_ACQUIRED
      else
        mutant_outcome h k WINDOWS_ABI64_STATUS_TIMEOUT ;;;
        ret WINDOWS_HANDLE64_MUTANT_WAIT_TIMEOUT
  end.

Definition windows_handle64_mutant_arm_wait (p h task : Z) : HM bool :=
  let deny := windows_handle64_note_mutant_denial WINDOWS_ABI64_STATUS_INVALID_PARAMETER ;;; ret false in
  mutant <- windows_handle64_mutant_for_handle p h CAPABILITY64_RIGHT_QUERY ;;
  match mutant with
  | None => deny
  | Some k =>
      m <- gets (fun s => mutant_at s k) ;;
      if (task =? SCHEDULER64_INVALID_TASK) || (owner_pid m =? PROCESS64_INVALID_PID) || (owner_pid m =? p) || (recursion_count m =? 0)
         || negb (m_waiting_task_id m =? SCHEDULER64_INVALID_TASK)
      then deny
      else update_mutant k (fun m => m <| m_waiting_pid := p |> <| m_waiting_task_id := task |>) ;;; ret true
  end.

Definition no_waiter_m (m : mutant_object) : mutant_object :=
  m <| m_waiting_pid := PROCESS64_INVALID_PID |> <| m_waiting_task_id := SCHEDULER64_INVALID_TASK |>.

Definition windows_handle64_mutant_cancel_wait (p h task : Z) : HM bool :=
  mutant <- windows_handle64_mutant_for_handle p h CAPABILITY64_RIGHT_QUERY ;;
  match mutant with
  | None => ret false
  | Some k =>
      m <- gets (fun s => mutant_at s k) ;;
      if negb (m_waiting_pid m =? p) || negb (m_waiting_task_id m =? task) then ret false
      else update_mutant k no_waiter_m ;;; ret true
  end.

(** One release by the owner: the last one hands over to the waiter. *)
Definition mutant_after_release (m : mutant_object) : mutant_object :=
  let m := m <| recursion_count := dec32 (recursion_count m) |> in
  let m := if recursion_count m =? 0 then
             if negb (m_waiting_task_id m =? SCHEDULER64_INVALID_TASK)
             then no_waiter_m (m <| owner_pid := m_waiting_pid m |> <| recursion_count := 1 |>)
             else m <| owner_pid := PROCESS64_INVALID_PID |>
           else m in
  m <| release_count := inc32 (release_count m) |>.
(** The task the release wakes. *)
Definition wakes (m : mutant_object) : Z :=
  if dec32 (recursion_count m) =? 0 then m_waiting_task_id m else SCHEDULER64_INVALID_TASK.

(** The status, the previous count and the task to wake. *)
Definition windows_handle64_mutant_release (p h : Z) : HM (Z * option Z * Z) :=
  mutant <- windows_handle64_mutant_for_handle p h CAPABILITY64_RIGHT_SEND ;;
  match mutant with
  | None => ret (WINDOWS_ABI64_STATUS_INVALID_HANDLE, None, SCHEDULER64_INVALID_TASK)
  | Some k =>
      m <- gets (fun s => mutant_at s k) ;;
      if negb (owner_pid m =? p) || (recursion_count m =? 0) then
        windows_handle64_note_mutant_denial WINDOWS_ABI64_STATUS_MUTANT_NOT_OWNED ;;;
        ret (WINDOWS_ABI64_STATUS_MUTANT_NOT_OWNED, None, SCHEDULER64_INVALID_TASK)
      else
        update_mutant k mutant_after_release ;;;
        modify (fun s => s <| g_windows_handle64_mutant_release_count := inc32 (g_windows_handle64_mutant_release_count s) |>
                           <| g_windows_handle64_mutant_last_handle := h |>) ;;;
        mutant_outcome h k WINDOWS_ABI64_STATUS_SUCCESS ;;;
        ret (WINDOWS_ABI64_STATUS_SUCCESS, Some (recursion_count m), wakes m)
  end.

Definition mutant_query (none : Z) (f : mutant_object -> Z) (p h : Z) : HM Z :=
  mutant <- windows_handle64_mutant_for_handle p h CAPABILITY64_RIGHT_QUERY ;;
  gets (fun s => match mutant with Some k => f (mutant_at s k) | None => none end).
Definition windows_handle64_mutant_owner : Z -> Z -> HM Z := mutant_query PROCESS64_INVALID_PID owner_pid.
Definition windows_handle64_mutant_recursion : Z -> Z -> HM Z := mutant_query 0 recursion_count.
Definition windows_handle64_mutant_waiter_task : Z -> Z -> HM Z := mutant_query SCHEDULER64_INVALID_TASK m_waiting_task_id.
Definition windows_handle64_mutant_waiter_pid : Z -> Z -> HM Z := mutant_query PROCESS64_INVALID_PID m_waiting_pid.

(** ** Counters *)

Definition windows_handle64_event_create_count (s : handle_state W) : Z := g_windows_handle64_event_create_count s.
Definition windows_handle64_event_set_count (s : handle_state W) : Z := g_windows_handle64_event_set_count s.
Definition windows_handle64_event_wait_count (s : handle_state W) : Z := g_windows_handle64_event_wait_count s.
Definition windows_handle64_event_denial_count (s : handle_state W) : Z := g_windows_handle64_event_denial_count s.
Definition windows_handle64_event_live_count (s : handle_state W) : Z := g_windows_handle64_event_live_count s.
Definition windows_handle64_event_last_handle (s : handle_state W) : Z := g_windows_handle64_event_last_handle s.
Definition windows_handle64_event_last_state (s : handle_state W) : Z := g_windows_handle64_event_last_state s.
Definition windows_handle64_mutant_create_count (s : handle_state W) : Z := g_windows_handle64_mutant_create_count s.
Definition windows_handle64_mutant_wait_count (s : handle_state W) : Z := g_windows_handle64_mutant_wait_count s.
Definition windows_handle64_mutant_release_count (s : handle_state W) : Z := g_windows_handle64_mutant_release_count s.
Definition windows_handle64_mutant_denial_count (s : handle_state W) : Z := g_windows_handle64_mutant_denial_count s.
Definition windows_handle64_mutant_live_count (s : handle_state W) : Z := g_windows_handle64_mutant_live_count s.
Definition windows_handle64_mutant_last_handle (s : handle_state W) : Z := g_windows_handle64_mutant_last_handle s.
Definition windows_handle64_mutant_last_owner (s : handle_state W) : Z := g_windows_handle64_mutant_last_owner s.
Definition windows_handle64_mutant_last_count (s : handle_state W) : Z := g_windows_handle64_mutant_last_count s.
Definition windows_handle64_install_count (s : handle_state W) : Z := g_windows_handle64_install_count s.
Definition windows_handle64_duplicate_count (s : handle_state W) : Z := g_windows_handle64_duplicate_count s.
Definition windows_handle64_inherit_count (s : handle_state W) : Z := g_windows_handle64_inherit_count s.
Definition windows_handle64_close_count (s : handle_state W) : Z := g_windows_handle64_close_count s.
Definition windows_handle64_pseudo_count (s : handle_state W) : Z := g_windows_handle64_pseudo_count s.
Definition windows_handle64_global_denial_count (s : handle_state W) : Z := g_windows_handle64_global_denial_count s.
Definition windows_handle64_last_handle (s : handle_state W) : Z := g_windows_handle64_last_handle s.
Definition windows_handle64_last_capability (s : handle_state W) : Z := g_windows_handle64_last_capability s.
Definition windows_handle64_last_result (s : handle_state W) : Z := g_windows_handle64_last_result s.

End handles.
End WindowsHandle.
