(* ===== verification/WindowsInv.v ===== *)
(** * Facts about handle tables

    [table_ok] is the invariant of one table of windows_handle.c; counts of
    entries over all tables change with the one table that changes. *)

From S2P Require Import Prelude Principal Services64 Capability Process WindowsHandle.
Import WindowsHandle.
Local Open Scope Z_scope.
Local Open Scope kernel_scope.

Module WindowsTables.

Implicit Types (e : handle_entry) (tb : handle_table).
Notation active := windows_handle64_entry_active.
Notation cleared := windows_handle64_clear_entry.
Notation slot_handle := windows_handle64_slot_handle.

(** ** One table *)

Definition aliases tb e : nat := count_if (shares (capability_handle e) (object_type e)) (entries tb).

Record table_ok tb : Prop := {
  to_length : length (entries tb) = WINDOWS_HANDLE64_TABLE_LIMIT;
  to_live : live_count tb = Z.of_nat (count_if active (entries tb));
  to_empty i e : entries tb !! i = Some e -> active e = false -> e = cleared;
  to_active i e : entries tb !! i = Some e -> active e = true ->
    handle e = slot_handle i /\ ref_count e = Z.of_nat (aliases tb e) /\ slot_handle i <= high_water_handle tb
}.

(** What an entry says apart from its count. *)
Definition naming e : handle_entry := e <| ref_count := 0 |>.

Lemma slot_handle_inj i j : slot_handle i = slot_handle j -> i = j.
Proof. unfold slot_handle, WINDOWS_HANDLE64_GRANULARITY. lia. Qed.

Lemma slot_handle_valid i : slot_handle i <> WINDOWS_HANDLE64_INVALID.
Proof. unfold slot_handle, WINDOWS_HANDLE64_FIRST_DYNAMIC, WINDOWS_HANDLE64_GRANULARITY, WINDOWS_HANDLE64_INVALID. lia. Qed.

Lemma slot_handle_not_pseudo i : (i < WINDOWS_HANDLE64_TABLE_LIMIT)%nat -> windows_handle64_is_pseudo (slot_handle i) = false.
Proof.
  intros H. assert (Hi : Z.of_nat i < 256) by (unfold WINDOWS_HANDLE64_TABLE_LIMIT in H; lia).
  unfold windows_handle64_is_pseudo, slot_handle, WINDOWS_HANDLE64_FIRST_DYNAMIC, WINDOWS_HANDLE64_GRANULARITY,
    WINDOWS_HANDLE64_PSEUDO_CURRENT_PROCESS, WINDOWS_HANDLE64_PSEUDO_CURRENT_THREAD.
  apply orb_false_iff. split; apply Z.eqb_neq; lia.
Qed.

Lemma active_cleared : active cleared = false.
Proof. reflexivity. Qed.

Lemma active_fields e : active e = true ->
  handle e <> WINDOWS_HANDLE64_INVALID /\ capability_handle e <> CAPABILITY64_INVALID_HANDLE /\ object_type e <> WINDOWS_HANDLE64_TYPE_EMPTY /\ ref_count e <> 0.
Proof. unfold active. intros H. by boolify. Qed.

Lemma active_ref e n : n <> 0 -> ref_count e <> 0 -> active (e <| ref_count := n |>) = active e.
Proof.
  intros Hn He. unfold active. change (ref_count (e <| ref_count := n |>)) with n.
  by rewrite (proj2 (Z.eqb_neq n 0)), (proj2 (Z.eqb_neq (ref_count e) 0)).
Qed.

Lemma handle_shares_active cap ty e : shares cap ty e = true -> active e = true.
Proof. unfold shares. intros H. by boolify. Qed.
Lemma handle_shares_inactive cap ty e : active e = false -> shares cap ty e = false.
Proof. unfold shares. by intros ->. Qed.
Lemma handle_shares_self e : active e = true -> shares (capability_handle e) (object_type e) e = true.
Proof. unfold shares. intros ->. by rewrite !Z.eqb_refl. Qed.
Lemma handle_shares_key cap ty e : shares cap ty e = true -> capability_handle e = cap /\ object_type e = ty.
Proof. unfold shares. intros H. by boolify. Qed.
Lemma names_active ty k e : names ty k e = true -> active e = true.
Proof. unfold names. intros H. by boolify. Qed.
Lemma names_inactive ty k e : active e = false -> names ty k e = false.
Proof. unfold names. by intros ->. Qed.

(** A test that does not look at the count of an active entry. *)
Definition count_free (P : handle_entry -> bool) : Prop :=
  (forall e, active e = false -> P e = false) /\ forall e n, n <> 0 -> active e = true -> P (e <| ref_count := n |>) = P e.

Lemma active_count_free : count_free active.
Proof. split; [done|]. intros e n Hn Ha. apply active_ref; [done|]. by apply active_fields. Qed.
Lemma shares_count_free cap ty : count_free (shares cap ty).
Proof. split; [apply handle_shares_inactive|]. intros e n Hn Ha. unfold shares. by rewrite (proj2 active_count_free). Qed.
Lemma names_count_free ty k : count_free (names ty k).
Proof. split; [apply names_inactive|]. intros e n Hn Ha. unfold names. by rewrite (proj2 active_count_free). Qed.

(** ** Refreshing counts *)

Definition refresh (cap ty n : Z) e : handle_entry := if shares cap ty e then e <| ref_count := n |> else e.

Lemma refresh_test P cap ty n e : count_free P -> n <> 0 -> P (refresh cap ty n e) = P e.
Proof. intros [_ HP] Hn. unfold refresh. destruct (shares cap ty e) eqn:E; [|done]. apply HP; [done|]. by eapply handle_shares_active. Qed.

Lemma refresh_naming cap ty n e : naming (refresh cap ty n e) = naming e.
Proof. unfold refresh. by destruct (shares cap ty e). Qed.

Lemma sync_entries cap ty tb : exists n, n <> 0 /\
  (entries (windows_handle64_sync_ref_counts cap ty tb) = refresh cap ty n <$> entries tb
   \/ entries (windows_handle64_sync_ref_counts cap ty tb) = entries tb).
Proof.
  unfold windows_handle64_sync_ref_counts. destruct (_ =? 0) eqn:E.
  - exists 1. split; [done|]. by right.
  - apply Z.eqb_neq in E. eexists. split; [exact E|]. by left.
Qed.

Lemma sync_count P cap ty tb : count_free P -> count_if P (entries (windows_handle64_sync_ref_counts cap ty tb)) = count_if P (entries tb).
Proof.
  intros HP. destruct (sync_entries cap ty tb) as (n & Hn & [->| ->]); [|done].
  rewrite count_if_fmap. apply count_if_ext. intros e _. by apply refresh_test.
Qed.

Lemma sync_lookup cap ty tb i :
  naming <$> entries (windows_handle64_sync_ref_counts cap ty tb) !! i = naming <$> entries tb !! i.
Proof.
  destruct (sync_entries cap ty tb) as (n & Hn & [->| ->]); [|done].
  rewrite list_lookup_fmap. destruct (entries tb !! i) as [e|]; [|done]. change (Some (naming (refresh cap ty n e)) = Some (naming e)). by rewrite refresh_naming.
Qed.

Lemma sync_meta cap ty tb : pid (windows_handle64_sync_ref_counts cap ty tb) = pid tb /\ owner_id (windows_handle64_sync_ref_counts cap ty tb) = owner_id tb
  /\ live_count (windows_handle64_sync_ref_counts cap ty tb) = live_count tb /\ high_water_handle (windows_handle64_sync_ref_counts cap ty tb) = high_water_handle tb.
Proof. unfold windows_handle64_sync_ref_counts. by destruct (_ =? 0). Qed.

(** A table in which the counts of one capability may be wrong. *)
Record table_ok_but (cap ty : Z) tb : Prop := {
  tob_length : length (entries tb) = WINDOWS_HANDLE64_TABLE_LIMIT;
  tob_live : live_count tb = Z.of_nat (count_if active (entries tb));
  tob_empty i e : entries tb !! i = Some e -> active e = false -> e = cleared;
  tob_active i e : entries tb !! i = Some e -> active e = true ->
    handle e = slot_handle i /\ slot_handle i <= high_water_handle tb /\ (shares cap ty e = false -> ref_count e = Z.of_nat (aliases tb e))
}.

Lemma handle_sync_ok cap ty tb : table_ok_but cap ty tb -> table_ok (windows_handle64_sync_ref_counts cap ty tb).
Proof.
  intros Ht. destruct (sync_meta cap ty tb) as (_ & _ & Hl & Hw).
  assert (Ha : forall e, aliases (windows_handle64_sync_ref_counts cap ty tb) e = aliases tb e).
  { intros e. apply sync_count, shares_count_free. }
  assert (Hlen : length (entries (windows_handle64_sync_ref_counts cap ty tb)) = WINDOWS_HANDLE64_TABLE_LIMIT).
  { destruct (sync_entries cap ty tb) as (n & _ & [->| ->]); [rewrite length_fmap|]; apply Ht. }
  assert (Hc : live_count (windows_handle64_sync_ref_counts cap ty tb) = Z.of_nat (count_if active (entries (windows_handle64_sync_ref_counts cap ty tb)))).
  { rewrite sync_count by apply active_count_free. rewrite Hl. apply Ht. }
  revert Ha Hl Hw Hlen Hc. unfold windows_handle64_sync_ref_counts, windows_handle64_shared_entry_count.
  destruct (_ =? 0) eqn:E; intros Ha Hl Hw Hlen Hc.
  - apply Z.eqb_eq in E. constructor; [done|done|apply Ht|]. intros i e Hi He. destruct (tob_active _ _ _ Ht i e Hi He) as (H1 & H2 & H3).
    split_and!; [done| |done]. apply H3. destruct (shares cap ty e) eqn:Es; [|done]. pose proof (count_if_pos _ _ _ _ Hi Es). lia.
  - apply Z.eqb_neq in E. set (n := Z.of_nat (count_if (shares cap ty) (entries tb))) in *.
    set (tb' := tb <| entries := _ |>) in *. assert (Ee : entries tb' = refresh cap ty n <$> entries tb) by done.
    constructor; [done|done| |]; intros i e; rewrite Ee, list_lookup_fmap; intros (e0 & Hi & ->)%fmap_Some Hact;
      rewrite (refresh_test active) in Hact by (done || apply active_count_free).
    + unfold refresh. rewrite handle_shares_inactive by done. by apply (tob_empty _ _ _ Ht i).
    + destruct (tob_active _ _ _ Ht i e0 Hi Hact) as (H1 & H2 & H3). rewrite Ha. unfold refresh.
      destruct (shares cap ty e0) eqn:Es; [|split_and!; [done|by apply H3|by rewrite Hw]].
      split_and!; [done| |by rewrite Hw]. destruct (handle_shares_key _ _ _ Es) as [<- <-]. done.
Qed.

(** ** Filling and clearing a slot *)

Lemma set_entry_entries i f tb : entries (set_entry i f tb) = alter f i (entries tb).
Proof. done. Qed.

Lemma set_entry_lookup i f tb j : entries (set_entry i f tb) !! j = if decide (i = j) then f <$> entries tb !! j else entries tb !! j.
Proof.
  rewrite set_entry_entries. destruct (decide (i = j)) as [->|Hne]; [by rewrite list_lookup_alter_eq|by rewrite list_lookup_alter_ne].
Qed.

Lemma set_entry_count P i f tb e : entries tb !! i = Some e ->
  (count_if P (entries (set_entry i f tb)) + Nat.b2n (P e) = count_if P (entries tb) + Nat.b2n (P (f e)))%nat.
Proof. intros He. exact (count_if_alter P (entries tb) i e f He). Qed.

Lemma handle_clear_table_ok : table_ok windows_handle64_clear_table.
Proof.
  assert (Hl : forall i e, entries windows_handle64_clear_table !! i = Some e -> e = cleared) by (intros i e H; by apply lookup_replicate in H as [-> _]).
  constructor.
  - apply length_replicate.
  - cbn [live_count windows_handle64_clear_table]. rewrite count_if_none; [done|]. intros e [i Hi]%list_elem_of_lookup. by rewrite (Hl _ _ Hi).
  - intros i e Hi _. by apply Hl in Hi.
  - intros i e Hi. by rewrite (Hl _ _ Hi).
Qed.

Lemma handle_live_bound tb : table_ok tb -> 0 <= live_count tb <= 256.
Proof. intros Ht. rewrite (to_live _ Ht). pose proof (count_if_le active (entries tb)) as H. rewrite (to_length _ Ht) in H. unfold WINDOWS_HANDLE64_TABLE_LIMIT in H. lia. Qed.

Definition new_entry (i : nat) (cap ty rt fl : Z) : handle_entry := mk_entry (slot_handle i) cap ty rt fl 1 0.

Lemma installed_entries i cap ty rt fl tb : exists tb0,
  entry_installed i cap ty rt fl tb = windows_handle64_sync_ref_counts cap ty tb0 /\ entries tb0 = entries (set_entry i (fun _ => new_entry i cap ty rt fl) tb)
  /\ live_count tb0 = inc32 (live_count tb) /\ high_water_handle tb0 = Z.max (high_water_handle tb) (slot_handle i)
  /\ pid tb0 = pid tb /\ owner_id tb0 = owner_id tb.
Proof.
  eexists. split; [reflexivity|]. change (high_water_handle (_ <| live_count := _ |>)) with (high_water_handle tb).
  destruct (Z.ltb_spec (high_water_handle tb) (slot_handle i)) as [Hlt|Hge].
  - split_and!; try done. change (slot_handle i = Z.max (high_water_handle tb) (slot_handle i)). lia.
  - split_and!; try done. change (high_water_handle tb = Z.max (high_water_handle tb) (slot_handle i)). lia.
Qed.

Lemma handle_installed_ok i cap ty rt fl tb e0 : table_ok tb -> entries tb !! i = Some e0 -> active e0 = false ->
  cap <> CAPABILITY64_INVALID_HANDLE -> ty <> WINDOWS_HANDLE64_TYPE_EMPTY -> table_ok (entry_installed i cap ty rt fl tb).
Proof.
  intros Ht Hi H0 Hc Hty. destruct (installed_entries i cap ty rt fl tb) as (tb0 & -> & He & Hl & Hw & _ & _). apply handle_sync_ok.
  assert (Hact : active (new_entry i cap ty rt fl) = true).
  { unfold active, new_entry. cbn. rewrite !(proj2 (Z.eqb_neq _ _)); done || apply slot_handle_valid. }
  pose proof (handle_live_bound _ Ht) as Hb.
  assert (Hcount : forall P, P e0 = false -> count_if P (entries tb0) = (count_if P (entries tb) + Nat.b2n (P (new_entry i cap ty rt fl)))%nat).
  { intros P HP. pose proof (set_entry_count P i (fun _ => new_entry i cap ty rt fl) tb e0 Hi) as H. rewrite He. rewrite HP in H. cbn [Nat.b2n] in H. lia. }
  constructor.
  - rewrite He, set_entry_entries, length_alter. apply Ht.
  - rewrite Hl, (Hcount active H0), Hact, inc32_small by (unfold U32_MAX; lia). rewrite (to_live _ Ht). cbn. lia.
  - intros j e. rewrite He, set_entry_lookup. destruct (decide (i = j)) as [<-|Hne]; [|apply Ht]. rewrite Hi. intros [= <-]. by rewrite Hact.
  - intros j e. rewrite He, set_entry_lookup. destruct (decide (i = j)) as [<-|Hne].
    + rewrite Hi. intros [= <-] _. split_and!; [done|rewrite Hw; lia|]. unfold shares. rewrite Hact. cbn. by rewrite !Z.eqb_refl.
    + intros Hj Ha. destruct (to_active _ Ht j e Hj Ha) as (H1 & H2 & H3). split_and!; [done|rewrite Hw; lia|]. intros Hs. rewrite H2. f_equal.
      unfold aliases. rewrite Hcount by by apply handle_shares_inactive.
      replace (shares (capability_handle e) (object_type e) (new_entry i cap ty rt fl)) with false; [by rewrite Nat.add_0_r|].
      symmetry. unfold shares in *. rewrite Hact. rewrite Ha in Hs. cbn in *. by rewrite (Z.eqb_sym cap), (Z.eqb_sym ty).
Qed.

(** Changing what an active entry says, not what it stands on. *)
Lemma reserved_ok i v tb e0 : table_ok tb -> entries tb !! i = Some e0 -> active e0 = true -> table_ok (set_entry i (fun e => e <| reserved := v |>) tb).
Proof.
  intros Ht Hi0 H0.
  assert (Hc : forall P : handle_entry -> bool, (forall e, P (e <| reserved := v |>) = P e) -> count_if P (entries (set_entry i (fun e => e <| reserved := v |>) tb)) = count_if P (entries tb)).
  { intros P HP. apply count_if_alter_same. intros. apply HP. }
  constructor.
  - rewrite set_entry_entries, length_alter. apply Ht.
  - rewrite Hc by done. apply Ht.
  - intros j e. rewrite set_entry_lookup. destruct (decide (i = j)) as [<-|Hne]; [|apply Ht].
    rewrite Hi0. intros [= <-] Ha. change (active e0 = false) in Ha. congruence.
  - intros j e. rewrite set_entry_lookup. unfold aliases.
    destruct (decide (i = j)) as [<-|Hne]; [rewrite Hi0; intros [= <-] _|intros Hj Ha]; rewrite Hc by done.
    + exact (to_active _ Ht i e0 Hi0 H0).
    + exact (to_active _ Ht j e Hj Ha).
Qed.

(** Clearing an entry leaves only the counts of its aliases wrong. *)
Lemma cleared_ok_but i tb e : table_ok tb -> entries tb !! i = Some e -> active e = true ->
  table_ok_but (capability_handle e) (object_type e) (drop_live (set_entry i (fun _ => cleared) tb)).
Proof.
  intros Ht Hi Ha. pose proof (handle_live_bound _ Ht) as Hb. pose proof (count_if_pos active _ _ _ Hi Ha) as Hp. pose proof (to_live _ Ht) as Hl.
  assert (Hd : drop_live (set_entry i (fun _ => cleared) tb) = (set_entry i (fun _ => cleared) tb) <| live_count := live_count tb - 1 |>).
  { unfold drop_live. change (live_count (set_entry i (fun _ => cleared) tb)) with (live_count tb). rewrite (proj2 (Z.eqb_neq _ 0)) by lia. cbn [negb].
    unfold dec32, sub32. by rewrite wrap32_small by (unfold fits32; lia). }
  rewrite Hd. constructor.
  - change (length (entries (set_entry i (fun _ => cleared) tb)) = WINDOWS_HANDLE64_TABLE_LIMIT). rewrite set_entry_entries, length_alter. apply Ht.
  - cbn [live_count entries]. pose proof (set_entry_count active i (fun _ => cleared) tb e Hi) as H. rewrite Ha, active_cleared in H. cbn [Nat.b2n] in H.
    change (count_if active (entries ((set_entry i (fun _ => cleared) tb) <| live_count := live_count tb - 1 |>))) with (count_if active (entries (set_entry i (fun _ => cleared) tb))).
    change (live_count ((set_entry i (fun _ => cleared) tb) <| live_count := live_count tb - 1 |>)) with (live_count tb - 1). lia.
  - intros j x. change (entries (_ <| live_count := _ |>)) with (entries (set_entry i (fun _ => cleared) tb)). rewrite set_entry_lookup.
    destruct (decide (i = j)) as [<-|Hne]; [|apply Ht]. rewrite Hi. by intros [= <-].
  - intros j x. change (entries (_ <| live_count := _ |>) !! j) with (entries (set_entry i (fun _ => cleared) tb) !! j). rewrite set_entry_lookup.
    destruct (decide (i = j)) as [<-|Hne]; [rewrite Hi; by intros [= <-]|]. intros Hj Hx. destruct (to_active _ Ht j x Hj Hx) as (H1 & H2 & H3).
    split_and!; [done|exact H3|]. intros Hs. rewrite H2. f_equal. unfold aliases.
    change (entries (_ <| live_count := _ |>)) with (entries (set_entry i (fun _ => cleared) tb)).
    pose proof (set_entry_count (shares (capability_handle x) (object_type x)) i (fun _ => cleared) tb e Hi) as H.
    replace (shares (capability_handle x) (object_type x) e) with false in H; [change (Nat.b2n (shares (capability_handle x) (object_type x) cleared)) with 0%nat in H; cbn [Nat.b2n] in H; lia|].
    symmetry. unfold shares in *. rewrite Ha. rewrite Hx in Hs. cbn in *. by rewrite (Z.eqb_sym (capability_handle e)), (Z.eqb_sym (object_type e)).
Qed.

Lemma ok_but_none cap ty tb : table_ok_but cap ty tb -> count_if (shares cap ty) (entries tb) = 0%nat -> table_ok tb.
Proof.
  intros Ht H0. constructor; try apply Ht. intros i e Hi Ha. destruct (tob_active _ _ _ Ht i e Hi Ha) as (H1 & H2 & H3). split_and!; [done| |done].
  apply H3. destruct (shares cap ty e) eqn:Es; [|done]. pose proof (count_if_pos _ _ _ _ Hi Es). lia.
Qed.

(** ** Looking handles up *)

Lemma find_entry_Some tb h i : windows_handle64_find_entry tb h = Some i ->
  exists e, entries tb !! i = Some e /\ entry_at tb i = e /\ active e = true /\ handle e = h.
Proof.
  unfold windows_handle64_find_entry. destruct (_ =? _); [done|]. intros (e & He & Hp)%find_index_lookup. boolify.
  exists e. split_and!; try done. unfold entry_at. by rewrite He.
Qed.

Lemma find_entry_slot tb i e : table_ok tb -> entries tb !! i = Some e -> active e = true -> windows_handle64_find_entry tb (slot_handle i) = Some i.
Proof.
  intros Ht Hi Ha. unfold windows_handle64_find_entry. rewrite (proj2 (Z.eqb_neq _ _)) by apply slot_handle_valid.
  destruct (to_active _ Ht i e Hi Ha) as (Hh & _). apply (find_index_unique _ _ i e); [done|by rewrite Ha, Hh, Z.eqb_refl|].
  intros j y Hj Hy. boolify. destruct (to_active _ Ht j y Hj) as (Hy' & _); [done|]. apply slot_handle_inj. congruence.
Qed.

Lemma find_entry_handle tb h i : table_ok tb -> windows_handle64_find_entry tb h = Some i -> h = slot_handle i /\ (i < WINDOWS_HANDLE64_TABLE_LIMIT)%nat.
Proof.
  intros Ht (e & He & _ & Ha & <-)%find_entry_Some. split; [by apply (to_active _ Ht i e)|]. rewrite <- (to_length _ Ht). by eapply lookup_lt_Some.
Qed.

(** ** Sums over tables *)

Lemma zip_with_cons (F : handle_table -> Z -> nat) x ts y us : zip_with F (x :: ts) (y :: us) = F x y :: zip_with F ts us.
Proof. done. Qed.
Lemma sum_list_cons n l : sum_list (n :: l) = (n + sum_list l)%nat.
Proof. done. Qed.

Lemma sum_zip_alter (F : handle_table -> Z -> nat) f (ts : list handle_table) (us : list Z) t tb u :
  ts !! t = Some tb -> us !! t = Some u ->
  (sum_list (zip_with F (alter f t ts) us) + F tb u = sum_list (zip_with F ts us) + F (f tb) u)%nat.
Proof.
  revert t us. induction ts as [|x ts IH]; intros [|t] [|y us] Ht Hu; try done.
  - injection Ht as ->. injection Hu as ->. simpl. lia.
  - specialize (IH t us Ht Hu). change (alter f (S t) (x :: ts)) with (x :: alter f t ts). rewrite !zip_with_cons, !sum_list_cons. lia.
Qed.

Lemma sum_zip_alter_same (F : handle_table -> Z -> nat) f (ts : list handle_table) (us : list Z) t :
  (forall tb u, ts !! t = Some tb -> us !! t = Some u -> F (f tb) u = F tb u) ->
  sum_list (zip_with F (alter f t ts) us) = sum_list (zip_with F ts us).
Proof.
  revert t us. induction ts as [|x ts IH]; intros [|t] [|y us] H; simpl; [done..| |done|].
  - by rewrite (H x y).
  - f_equal. apply IH. intros tb u. apply H.
Qed.

Lemma sum_zip_ge (F : handle_table -> Z -> nat) (ts : list handle_table) (us : list Z) t tb u :
  ts !! t = Some tb -> us !! t = Some u -> (F tb u <= sum_list (zip_with F ts us))%nat.
Proof. revert t us. induction ts as [|x ts IH]; intros [|t] [|y us] Ht Hu; simplify_eq/=; [lia|]. specialize (IH t us Ht Hu). lia. Qed.

Lemma sum_zip_pos (F : handle_table -> Z -> nat) (ts : list handle_table) (us : list Z) :
  (0 < sum_list (zip_with F ts us))%nat -> exists t tb u, ts !! t = Some tb /\ us !! t = Some u /\ (0 < F tb u)%nat.
Proof.
  revert us. induction ts as [|x ts IH]; intros [|y us] H; simpl in H; try lia.
  destruct (decide (0 < F x y)%nat) as [Hp|Hn]; [by exists 0%nat, x, y|]. destruct (IH us) as (t & tb & u & ? & ? & ?); [lia|]. by exists (S t), tb, u.
Qed.

Lemma sum_zip_used (F : handle_table -> Z -> nat) (ts : list handle_table) (us : list Z) t v :
  (forall tb u, ts !! t = Some tb -> us !! t = Some u -> F tb v = F tb u) ->
  sum_list (zip_with F ts (<[t := v]> us)) = sum_list (zip_with F ts us).
Proof.
  revert t us. induction ts as [|x ts IH]; intros [|t] [|y us] H; simpl; [done..| |done|].
  - by rewrite (H x y).
  - f_equal. apply IH. intros tb u. apply H.
Qed.

End WindowsTables.

(** ** The invariant of windows_handle.c

    Tables are consistent and belong to one process each; an event or mutant
    is active exactly while some entry names it; live counts are exact.  Most
    calls change little besides counters: [same] says what they leave alone. *)

Import WindowsHandle WindowsTables.
Local Open Scope Z_scope.
Local Open Scope kernel_scope.

Module WindowsInv.

Section inv.
Context {W : Type} {world : HandleWorld W}.
Implicit Types s : handle_state W.

(** ** Objects and the entries that name them *)

Definition event_active (e : event_object) : bool := nz (e_active e).
Definition mutant_active (m : mutant_object) : bool := nz (m_active m).

(** Whether the object a token stands for is active. *)
Definition active_at (act : list bool) (token : Z) : Prop := 1 <= token /\ act !! token_index token = Some true.

(** The entries of a type name exactly the active objects. *)
Definition named_ok (ty : Z) (act : list bool) s : Prop :=
  forall token, token <> 0 -> (0 < count_entries (names ty token) s)%nat <-> active_at act token.

Definition events_of s : list bool := event_active <$> g_windows_handle64_events s.
Definition mutants_of s : list bool := mutant_active <$> g_windows_handle64_mutants s.

(** The table of a context is in use and belongs to it. *)
Definition context_ok s (p : Z) (c : persona_view) : Prop := forall t, windows_handle_table c = Some t ->
  p <> PROCESS64_INVALID_PID /\ exists tb u, g_windows_handle64_tables s !! t = Some tb /\ g_windows_handle64_table_used s !! t = Some u /\ u <> 0 /\ pid tb = p.

(** What holds of the tables apart from what is in them. *)
Record frame_ok s : Prop := {
  i_init : g_windows_handle64_initialized s <> 0;
  i_tables_length : length (g_windows_handle64_tables s) = WINDOWS_HANDLE64_MAX_TABLES;
  i_used_length : length (g_windows_handle64_table_used s) = WINDOWS_HANDLE64_MAX_TABLES;
  i_events_length : length (g_windows_handle64_events s) = WINDOWS_HANDLE64_MAX_EVENTS;
  i_mutants_length : length (g_windows_handle64_mutants s) = WINDOWS_HANDLE64_MAX_MUTANTS;
  i_contexts p c : persona_contexts s !! p = Some c -> context_ok s p c
}.

Record objects_ok s : Prop := {
  i_events : named_ok WINDOWS_HANDLE64_TYPE_EVENT (events_of s) s;
  i_mutants : named_ok WINDOWS_HANDLE64_TYPE_MUTANT (mutants_of s) s;
  i_event_live : g_windows_handle64_event_live_count s = Z.of_nat (count_if id (events_of s));
  i_mutant_live : g_windows_handle64_mutant_live_count s = Z.of_nat (count_if id (mutants_of s))
}.

Record inv s : Prop := {
  i_frame : frame_ok s;
  i_tables : Forall table_ok (g_windows_handle64_tables s);
  i_objects : objects_ok s
}.

(** ** States that differ in counters only *)

Definition table_same (a b : handle_table) : Prop :=
  entries a = entries b /\ live_count a = live_count b /\ high_water_handle a = high_water_handle b /\ pid a = pid b /\ owner_id a = owner_id b.

Record same s s' : Prop := {
  sm_tables : Forall2 table_same (g_windows_handle64_tables s) (g_windows_handle64_tables s');
  sm_used : g_windows_handle64_table_used s' = g_windows_handle64_table_used s;
  sm_events : g_windows_handle64_events s' = g_windows_handle64_events s;
  sm_mutants : g_windows_handle64_mutants s' = g_windows_handle64_mutants s;
  sm_init : g_windows_handle64_initialized s' = g_windows_handle64_initialized s;
  sm_contexts : persona_contexts s' = persona_contexts s;
  sm_event_live : g_windows_handle64_event_live_count s' = g_windows_handle64_event_live_count s;
  sm_mutant_live : g_windows_handle64_mutant_live_count s' = g_windows_handle64_mutant_live_count s
}.

Lemma table_same_refl tb : table_same tb tb.
Proof. done. Qed.

Lemma same_tables_refl (l : list handle_table) : Forall2 table_same l l.
Proof. induction l; constructor; done. Qed.

Lemma same_tables_trans (l1 l2 l3 : list handle_table) : Forall2 table_same l1 l2 -> Forall2 table_same l2 l3 -> Forall2 table_same l1 l3.
Proof.
  intros H. revert l3. induction H as [|a b la lb Hab Hl IH]; intros l3 H3; inversion H3; subst; constructor; [|by apply IH].
  unfold table_same in *. repeat match goal with Hc : _ /\ _ |- _ => destruct Hc end. split_and!; congruence.
Qed.

#[export] Instance same_refl : Reflexive same.
Proof. intros s. constructor; try done. apply same_tables_refl. Qed.

#[export] Instance same_trans : Transitive same.
Proof.
  intros s1 s2 s3 [] []. constructor; try congruence.
  by eapply same_tables_trans.
Qed.

Lemma same_table_at s s' t tb : same s s' -> g_windows_handle64_tables s !! t = Some tb ->
  exists tb', g_windows_handle64_tables s' !! t = Some tb' /\ table_same tb tb'.
Proof. intros H Ht. exact (Forall2_lookup_l _ _ _ _ _ (sm_tables _ _ H) Ht). Qed.

Lemma same_count P s s' : same s s' -> count_entries P s' = count_entries P s.
Proof.
  intros [H Hu _ _ _ _ _ _]. unfold count_entries. rewrite Hu. generalize (g_windows_handle64_table_used s).
  induction H as [|a b la lb Hab Hl IH]; intros [| u us]; try done. rewrite !zip_with_cons, !sum_list_cons, IH. f_equal.
  unfold count_used. destruct Hab as (He & _). by rewrite He.
Qed.

Lemma table_ok_same a b : table_same a b -> table_ok a -> table_ok b.
Proof.
  intros (He & Hl & Hw & _) [H1 H2 H3 H4]. rewrite He in *. constructor; [done|by rewrite <- Hl|done|].
  intros i e Hi Ha. rewrite <- Hw. destruct (H4 i e Hi Ha) as (H5 & H6 & H7). split_and!; try done. rewrite H6. unfold aliases. by rewrite He.
Qed.

Lemma frame_same s s' : same s s' -> frame_ok s -> frame_ok s'.
Proof.
  intros H [I1 I2 I3 I4 I5 I7]. constructor.
  - by rewrite (sm_init _ _ H).
  - rewrite <- I2. symmetry. apply (Forall2_length _ _ _ (sm_tables _ _ H)).
  - by rewrite (sm_used _ _ H).
  - by rewrite (sm_events _ _ H).
  - by rewrite (sm_mutants _ _ H).
  - intros p c. rewrite (sm_contexts _ _ H). intros Hp t Ht. destruct (I7 p c Hp t Ht) as (Hne & tb & u & Htb & Hu & Hu0 & Hpid).
    split; [done|]. destruct (same_table_at _ _ _ _ H Htb) as (tb' & Htb' & Hs). exists tb', u. rewrite (sm_used _ _ H). split_and!; try done.
    destruct Hs as (_ & _ & _ & <- & _). done.
Qed.

Lemma objects_same s s' : same s s' -> objects_ok s -> objects_ok s'.
Proof.
  intros H [I8 I9 I10 I11].
  assert (Hev : events_of s' = events_of s) by (unfold events_of; by rewrite (sm_events _ _ H)).
  assert (Hmu : mutants_of s' = mutants_of s) by (unfold mutants_of; by rewrite (sm_mutants _ _ H)).
  constructor.
  - intros token Ht. rewrite (same_count _ _ _ H), Hev. by apply I8.
  - intros token Ht. rewrite (same_count _ _ _ H), Hmu. by apply I9.
  - by rewrite (sm_event_live _ _ H), Hev.
  - by rewrite (sm_mutant_live _ _ H), Hmu.
Qed.

Lemma inv_same s s' : same s s' -> inv s -> inv s'.
Proof.
  intros H [I1 I2 I3]. constructor; [by eapply frame_same| |by eapply objects_same].
  eapply Forall2_Forall_r; [exact (sm_tables _ _ H)|]. eapply Forall_impl; [exact I2|]. intros a Ha b Hb. by eapply table_ok_same.
Qed.

(** ** Calls that change counters only *)

(** [m] keeps everything that matters, from a consistent state. *)
Definition quiet {A} (m : ST (handle_state W) A) : Prop := forall s, inv s -> wp m (fun _ s' => same s s') s.

Lemma quiet_ret {A} (a : A) : quiet (ret a).
Proof. intros s _. apply wp_ret. reflexivity. Qed.
Lemma quiet_gets {A} (f : handle_state W -> A) : quiet (gets f).
Proof. intros s _. apply wp_gets. reflexivity. Qed.
Lemma quiet_bind {A B} (m : ST (handle_state W) A) (k : A -> ST (handle_state W) B) : quiet m -> (forall a, quiet (k a)) -> quiet (bind m k).
Proof.
  intros Hm Hk s Hs. apply wp_bind. eapply wp_mono; [by apply Hm|]. intros a s1 H1. cbn beta in H1. eapply wp_mono; [apply Hk; by eapply inv_same|].
  intros b s2 H2. by transitivity s1.
Qed.
Lemma quiet_if {A} (b : bool) (m n : ST (handle_state W) A) : quiet m -> quiet n -> quiet (if b then m else n).
Proof. by destruct b. Qed.
Lemma quiet_option {A B} (o : option A) (f : A -> ST (handle_state W) B) d : (forall a, quiet (f a)) -> quiet d -> quiet (match o with Some a => f a | None => d end).
Proof. by destruct o. Qed.
Lemma quiet_modify f : (forall s, same s (f s)) -> quiet (modify f).
Proof. intros H s _. by apply wp_modify. Qed.
Lemma quiet_world {A} (m : ST W A) : quiet (on_handle_world m).
Proof. intros s _. unfold wp, on_handle_world. destruct (m (handle_world s)) as [a w]. constructor; try done. apply same_tables_refl. Qed.

Lemma update_same_tables f (l : list handle_table) t : (forall tb, table_same tb (f tb)) -> Forall2 table_same l (alter f t l).
Proof. intros H. revert t. induction l as [|x l IH]; intros [|t]; constructor; try done; apply same_tables_refl. Qed.

Lemma quiet_deny t : quiet (update_table t (fun tb => tb <| denial_count := inc32 (denial_count tb) |>)).
Proof. apply quiet_modify. intros s. constructor; try done. by apply update_same_tables. Qed.

Lemma handle_init_done s : g_windows_handle64_initialized s <> 0 -> windows_handle64_init s = (tt, s).
Proof. intros H. unfold windows_handle64_init, bind, gets. cbn [fst snd]. by rewrite (proj2 (Z.eqb_neq _ _)). Qed.

Lemma quiet_init : quiet windows_handle64_init.
Proof. intros s Hs. unfold wp. rewrite handle_init_done by apply (i_frame _ Hs). reflexivity. Qed.

(** The table of a process, from a consistent state. *)
Definition table_of (p : Z) s : option nat :=
  match persona_contexts s !! p with
  | Some c => if persona_type c =? PERSONA64_TYPE_WINDOWS_PE then windows_handle_table c else None
  | None => None
  end.

Lemma table_for_run p s : inv s -> windows_handle64_table_for_process p s = (table_of p s, s).
Proof. intros Hs. unfold windows_handle64_table_for_process, bind. rewrite handle_init_done by apply (i_frame _ Hs). done. Qed.

Lemma quiet_table_for p : quiet (windows_handle64_table_for_process p).
Proof. intros s Hs. unfold wp. rewrite table_for_run by done. reflexivity. Qed.

Ltac quiet_same := let s := fresh "s" in intros s; constructor; try done; apply same_tables_refl.
Ltac quiet_step :=
  match goal with
  | |- quiet (bind _ _) => apply quiet_bind; [|intros ?]
  | |- quiet (ret _) => apply quiet_ret
  | |- quiet (gets _) => apply quiet_gets
  | |- quiet (if _ then _ else _) => apply quiet_if
  | |- quiet (match _ with Some _ => _ | None => _ end) => apply quiet_option; [intros ?|]
  | |- quiet (on_handle_world _) => apply quiet_world
  | |- quiet (windows_handle64_table_for_process _) => apply quiet_table_for
  | |- quiet windows_handle64_init => apply quiet_init
  | |- quiet (update_table _ (fun tb => tb <| denial_count := _ |>)) => apply quiet_deny
  | |- quiet (modify _) => apply quiet_modify; quiet_same
  end.

Lemma quiet_note_denial p result : quiet (windows_handle64_note_denial p result).
Proof. unfold windows_handle64_note_denial. repeat quiet_step. Qed.
Lemma quiet_note_event_denial result : quiet (windows_handle64_note_event_denial result).
Proof. unfold windows_handle64_note_event_denial. repeat quiet_step. Qed.
Lemma quiet_note_mutant_denial result : quiet (windows_handle64_note_mutant_denial result).
Proof. unfold windows_handle64_note_mutant_denial. repeat quiet_step. Qed.
Lemma quiet_note_success h cap : quiet (note_success h cap).
Proof. unfold note_success. repeat quiet_step. Qed.
Lemma quiet_file_node cap owner ty : quiet (is_file_node cap owner ty).
Proof. unfold is_file_node. repeat quiet_step. Qed.
Lemma quiet_backing cap owner ty rt : quiet (windows_handle64_backing_is_valid cap owner ty rt).
Proof. unfold windows_handle64_backing_is_valid. repeat (apply quiet_file_node || quiet_step). Qed.
Lemma quiet_revoke cap owner ty : quiet (windows_handle64_revoke_backing cap owner ty).
Proof. unfold windows_handle64_revoke_backing. repeat (apply quiet_file_node || quiet_step). Qed.
Lemma quiet_routed t h ty required : quiet (routed_entry t h ty required).
Proof. unfold routed_entry. repeat quiet_step. Qed.

(** The denials of calls, all of which change counters only. *)
Ltac quiet_auto :=
  repeat first [ apply quiet_note_denial | apply quiet_note_event_denial | apply quiet_note_mutant_denial | apply quiet_note_success
               | apply quiet_backing | apply quiet_revoke | apply quiet_routed | apply quiet_file_node | quiet_step ].

Lemma quiet_event_for p h required : quiet (windows_handle64_event_for_handle p h required).
Proof. unfold windows_handle64_event_for_handle. quiet_auto. Qed.
Lemma quiet_mutant_for p h required : quiet (windows_handle64_mutant_for_handle p h required).
Proof. unfold windows_handle64_mutant_for_handle. quiet_auto. Qed.

(** ** Lists of active flags *)

Lemma token_index_of k : token_index (Z.of_nat k + 1) = k.
Proof. unfold token_index. lia. Qed.

Lemma active_at_token act k : active_at act (Z.of_nat k + 1) <-> act !! k = Some true.
Proof. unfold active_at. rewrite token_index_of. split; [by intros []|]. intros H. split; [lia|done]. Qed.

Lemma active_at_insert act k b token : (k < length act)%nat ->
  active_at (<[k := b]> act) token <-> (if decide (token = Z.of_nat k + 1) then b = true else active_at act token).
Proof.
  intros Hk. unfold active_at. case_decide as Hd.
  - rewrite Hd, token_index_of, list_lookup_insert_eq by done. split; [by intros [_ [= ->]]|]. intros ->. split; [lia|done].
  - split; intros [H1 H]; (split; [done|]); unfold token_index in *.
    + rewrite list_lookup_insert_ne in H by lia. done.
    + rewrite list_lookup_insert_ne by lia. done.
Qed.

Lemma count_id_insert (act : list bool) k b b' : act !! k = Some b ->
  (count_if id (<[k := b']> act) + Nat.b2n b = count_if id act + Nat.b2n b')%nat.
Proof.
  intros Hk. replace (<[k := b']> act) with (alter (fun _ => b') k act).
  - exact (count_if_alter id act k b (fun _ => b') Hk).
  - clear Hk. revert k. induction act as [|x act IH]; intros [|k]; try done. cbn. f_equal. apply IH.
Qed.

Lemma active_at_bound act token : active_at act token -> (token_index token < length act)%nat /\ token = Z.of_nat (token_index token) + 1.
Proof. intros [H1 H2]. apply lookup_lt_Some in H2. unfold token_index in *. lia. Qed.

(** ** Destroying an object without entries *)

(** The object of type [ty] behind [token] may have lost its last entry. *)
Definition loose_ok (ty : Z) (act : list bool) (ty' token' : Z) s : Prop :=
  forall token, token <> 0 ->
    ((0 < count_entries (names ty token) s)%nat -> active_at act token)
    /\ (active_at act token -> (0 < count_entries (names ty token) s)%nat \/ ty = ty' /\ token = token').

Lemma loose_tight ty act ty' token' s : loose_ok ty act ty' token' s ->
  (ty = ty' -> token' <> 0 -> active_at act token' -> (0 < count_entries (names ty token') s)%nat) -> named_ok ty act s.
Proof. intros H Hl token Ht. destruct (H token Ht) as [H1 H2]. split; [done|]. intros Ha. destruct (H2 Ha) as [?|[-> ->]]; [done|by apply Hl]. Qed.

Record objects_loose (ty token : Z) s : Prop := {
  l_events : loose_ok WINDOWS_HANDLE64_TYPE_EVENT (events_of s) ty token s;
  l_mutants : loose_ok WINDOWS_HANDLE64_TYPE_MUTANT (mutants_of s) ty token s;
  l_event_live : g_windows_handle64_event_live_count s = Z.of_nat (count_if id (events_of s));
  l_mutant_live : g_windows_handle64_mutant_live_count s = Z.of_nat (count_if id (mutants_of s));
  l_event_token : ty = WINDOWS_HANDLE64_TYPE_EVENT -> token = 0 \/ active_at (events_of s) token;
  l_mutant_token : ty = WINDOWS_HANDLE64_TYPE_MUTANT -> token = 0 \/ active_at (mutants_of s) token
}.

(** Tables, their use and the contexts are left alone. *)
Definition tables_kept s s' : Prop :=
  g_windows_handle64_tables s' = g_windows_handle64_tables s /\ g_windows_handle64_table_used s' = g_windows_handle64_table_used s
  /\ g_windows_handle64_initialized s' = g_windows_handle64_initialized s /\ persona_contexts s' = persona_contexts s
  /\ length (g_windows_handle64_events s') = length (g_windows_handle64_events s)
  /\ length (g_windows_handle64_mutants s') = length (g_windows_handle64_mutants s)
  /\ handle_world s' = handle_world s.

Lemma kept_count P s s' : tables_kept s s' -> count_entries P s' = count_entries P s.
Proof. intros (H1 & H2 & _). unfold count_entries. by rewrite H1, H2. Qed.

Lemma dec_live n : (0 < n < 100)%nat -> dec32 (Z.of_nat n) = Z.of_nat (n - 1).
Proof. intros H. unfold dec32, sub32. rewrite wrap32_small; [lia|]. unfold fits32. lia. Qed.

Lemma event_at_active s k : events_of s !! k = Some true <-> event_active (event_at s k) = true.
Proof.
  unfold event_at, events_of. rewrite list_lookup_fmap. destruct (_ !! k) as [e|]; [|done]. cbn. split; [by intros [= ->]|by intros ->].
Qed.
Lemma mutant_at_active s k : mutants_of s !! k = Some true <-> mutant_active (mutant_at s k) = true.
Proof.
  unfold mutant_at, mutants_of. rewrite list_lookup_fmap. destruct (_ !! k) as [m|]; [|done]. cbn. split; [by intros [= ->]|by intros ->].
Qed.

Lemma alter_fmap_insert {A} (f : A -> bool) (g : A -> A) (l : list A) k b : (forall x, f (g x) = b) -> f <$> alter g k l = <[k := b]> (f <$> l).
Proof.
  intros H. revert k. induction l as [|x l IH]; intros [|k]; [done..| |].
  - cbn. by rewrite H.
  - change (alter g (S k) (x :: l)) with (x :: alter g k l). rewrite !fmap_cons. cbn. f_equal. apply IH.
Qed.

(** The flags after one object without entries is destroyed. *)
Lemma loose_destroyed ty act token s s' : loose_ok ty act ty token s -> active_at act token -> count_entries (names ty token) s = 0%nat ->
  (forall P, count_entries P s' = count_entries P s) -> named_ok ty (<[token_index token := false]> act) s'.
Proof.
  intros Hl Ha H0 Hc k Hk. rewrite Hc. destruct (active_at_bound _ _ Ha) as [Hb He]. rewrite active_at_insert by done. rewrite <- He.
  case_decide as Hd; [subst k; rewrite H0; split; [lia|done]|]. destruct (Hl k Hk) as [H1 H2]. split; [done|]. intros Hx. destruct (H2 Hx) as [?|[_ ?]]; [done|congruence].
Qed.

Lemma live_destroyed (act : list bool) token live : active_at act token -> live = Z.of_nat (count_if id act) -> (length act <= 32)%nat ->
  live <> 0 /\ dec32 live = Z.of_nat (count_if id (<[token_index token := false]> act)).
Proof.
  intros [_ Ha] -> Hl. pose proof (count_if_pos id act _ true Ha eq_refl) as Hp. pose proof (count_if_le id act).
  pose proof (count_id_insert act _ true false Ha) as Hc. cbn in Hc. split; [lia|]. rewrite dec_live by lia. f_equal. lia.
Qed.

Lemma wp_release_event token s : frame_ok s -> objects_loose WINDOWS_HANDLE64_TYPE_EVENT token s ->
  wp (windows_handle64_release_event_if_unreferenced token) (fun _ s' => objects_ok s' /\ tables_kept s s' /\
    g_windows_handle64_mutants s' = g_windows_handle64_mutants s /\
    (forall k, event_at s' k = event_at s k \/ (event_at s' k = windows_handle64_clear_event /\ event_active (event_at s k) = true))) s.
Proof.
  intros Hf Hl. pose proof (l_event_token _ _ _ Hl eq_refl) as Htok.
  assert (Htight : (token <> 0 -> active_at (events_of s) token -> (0 < count_entries (names WINDOWS_HANDLE64_TYPE_EVENT token) s)%nat) -> objects_ok s).
  { intros H. constructor; [|  |apply Hl|apply Hl].
    - apply (loose_tight _ _ _ _ _ (l_events _ _ _ Hl)). by intros _.
    - apply (loose_tight _ _ _ _ _ (l_mutants _ _ _ Hl)). done. }
  unfold windows_handle64_release_event_if_unreferenced. apply wp_bind, wp_gets. unfold windows_handle64_global_event_entry_count.
  destruct ((token =? 0) || _) eqn:E0; cbn [orb].
  { apply wp_ret. split; [|split; [done|split; [done|by left]]]. apply Htight. intros Hne Ha. destruct (active_at_bound _ _ Ha) as [Hb He].
    unfold events_of in Hb. rewrite length_fmap, (i_events_length _ Hf) in Hb. unfold WINDOWS_HANDLE64_MAX_EVENTS in *. apply orb_true_iff in E0 as [E0|E0]; [by apply Z.eqb_eq in E0|]. apply Z.ltb_lt in E0. lia. }
  apply orb_false_iff in E0 as [E0 _]. apply Z.eqb_neq in E0. destruct Htok as [?|Ha]; [done|].
  destruct (Z.of_nat (count_entries _ s) =? 0) eqn:Ec; cbn [negb].
  2: { apply Z.eqb_neq in Ec. apply wp_ret. split; [|split; [done|split; [done|by left]]]. apply Htight. intros _ _. lia. }
  apply Z.eqb_eq in Ec. apply wp_bind, wp_gets. assert (Hact : event_active (event_at s (token_index token)) = true) by (apply event_at_active, Ha).
  unfold event_active, nz in Hact. apply negb_true_iff in Hact. rewrite Hact.
  unfold update_event. apply wp_bind, wp_modify, wp_modify.
  assert (Hlen : (length (events_of s) <= 32)%nat) by (unfold events_of; rewrite length_fmap, (i_events_length _ Hf); done).
  destruct (live_destroyed _ _ _ Ha (l_event_live _ _ _ Hl) Hlen) as [Hnz Hdec].
  match goal with |- context [if ?c then _ else _] => assert (Hcond : c = true) end.
  { apply negb_true_iff, Z.eqb_neq. exact Hnz. }
  rewrite Hcond. set (s' := _ <| g_windows_handle64_event_live_count := _ |>).
  assert (He : events_of s' = <[token_index token := false]> (events_of s)) by (apply (alter_fmap_insert event_active); done).
  split; [|split; [|split; [done|]]].
  - constructor.
    + rewrite He. eapply loose_destroyed; [apply Hl|done|lia|done].
    + apply (loose_tight _ _ WINDOWS_HANDLE64_TYPE_EVENT token); [exact (l_mutants _ _ _ Hl)|done].
    + rewrite He. exact Hdec.
    + exact (l_mutant_live _ _ _ Hl).
  - split_and!; try done. change (length (alter (fun _ => windows_handle64_clear_event) (token_index token) (g_windows_handle64_events s)) = length (g_windows_handle64_events s)).
    by rewrite length_alter.
  - intros k. change (default windows_handle64_clear_event (alter (fun _ => windows_handle64_clear_event) (token_index token) (g_windows_handle64_events s) !! k) = event_at s k
      \/ (default windows_handle64_clear_event (alter (fun _ => windows_handle64_clear_event) (token_index token) (g_windows_handle64_events s) !! k) = windows_handle64_clear_event
          /\ event_active (event_at s k) = true)).
    destruct (decide (token_index token = k)) as [<-|Hne].
    + right. split; [|by apply event_at_active, Ha]. rewrite list_lookup_alter_eq. by destruct (g_windows_handle64_events s !! token_index token).
    + left. unfold event_at. by rewrite list_lookup_alter_ne.
Qed.

Lemma wp_release_mutant token s : frame_ok s -> objects_loose WINDOWS_HANDLE64_TYPE_MUTANT token s ->
  wp (windows_handle64_release_mutant_if_unreferenced token) (fun _ s' => objects_ok s' /\ tables_kept s s' /\
    g_windows_handle64_events s' = g_windows_handle64_events s /\
    (forall k, mutant_at s' k = mutant_at s k \/ (mutant_at s' k = windows_handle64_clear_mutant /\ mutant_active (mutant_at s k) = true))) s.
Proof.
  intros Hf Hl. pose proof (l_mutant_token _ _ _ Hl eq_refl) as Htok.
  assert (Htight : (token <> 0 -> active_at (mutants_of s) token -> (0 < count_entries (names WINDOWS_HANDLE64_TYPE_MUTANT token) s)%nat) -> objects_ok s).
  { intros H. constructor; [|  |apply Hl|apply Hl].
    - apply (loose_tight _ _ _ _ _ (l_events _ _ _ Hl)). done.
    - apply (loose_tight _ _ _ _ _ (l_mutants _ _ _ Hl)). by intros _. }
  unfold windows_handle64_release_mutant_if_unreferenced. apply wp_bind, wp_gets. unfold windows_handle64_global_mutant_entry_count.
  destruct ((token =? 0) || _) eqn:E0; cbn [orb].
  { apply wp_ret. split; [|split; [done|split; [done|by left]]]. apply Htight. intros Hne Ha. destruct (active_at_bound _ _ Ha) as [Hb He].
    unfold mutants_of in Hb. rewrite length_fmap, (i_mutants_length _ Hf) in Hb. unfold WINDOWS_HANDLE64_MAX_MUTANTS in *. apply orb_true_iff in E0 as [E0|E0]; [by apply Z.eqb_eq in E0|]. apply Z.ltb_lt in E0. lia. }
  apply orb_false_iff in E0 as [E0 _]. apply Z.eqb_neq in E0. destruct Htok as [?|Ha]; [done|].
  destruct (Z.of_nat (count_entries _ s) =? 0) eqn:Ec; cbn [negb].
  2: { apply Z.eqb_neq in Ec. apply wp_ret. split; [|split; [done|split; [done|by left]]]. apply Htight. intros _ _. lia. }
  apply Z.eqb_eq in Ec. apply wp_bind, wp_gets. assert (Hact : mutant_active (mutant_at s (token_index token)) = true) by (apply mutant_at_active, Ha).
  unfold mutant_active, nz in Hact. apply negb_true_iff in Hact. rewrite Hact.
  unfold update_mutant. apply wp_bind, wp_modify, wp_modify.
  assert (Hlen : (length (mutants_of s) <= 32)%nat) by (unfold mutants_of; rewrite length_fmap, (i_mutants_length _ Hf); done).
  destruct (live_destroyed _ _ _ Ha (l_mutant_live _ _ _ Hl) Hlen) as [Hnz Hdec].
  match goal with |- context [if ?c then _ else _] => assert (Hcond : c = true) end.
  { apply negb_true_iff, Z.eqb_neq. exact Hnz. }
  rewrite Hcond. set (s' := _ <| g_windows_handle64_mutant_live_count := _ |>).
  assert (He : mutants_of s' = <[token_index token := false]> (mutants_of s)) by (apply (alter_fmap_insert mutant_active); done).
  split; [|split; [|split; [done|]]].
  - constructor.
    + apply (loose_tight _ _ WINDOWS_HANDLE64_TYPE_MUTANT token); [exact (l_events _ _ _ Hl)|done].
    + rewrite He. eapply loose_destroyed; [apply Hl|done|lia|done].
    + exact (l_event_live _ _ _ Hl).
    + rewrite He. exact Hdec.
  - split_and!; try done. change (length (alter (fun _ => windows_handle64_clear_mutant) (token_index token) (g_windows_handle64_mutants s)) = length (g_windows_handle64_mutants s)).
    by rewrite length_alter.
  - intros k. change (default windows_handle64_clear_mutant (alter (fun _ => windows_handle64_clear_mutant) (token_index token) (g_windows_handle64_mutants s) !! k) = mutant_at s k
      \/ (default windows_handle64_clear_mutant (alter (fun _ => windows_handle64_clear_mutant) (token_index token) (g_windows_handle64_mutants s) !! k) = windows_handle64_clear_mutant
          /\ mutant_active (mutant_at s k) = true)).
    destruct (decide (token_index token = k)) as [<-|Hne].
    + right. split; [|by apply mutant_at_active, Ha]. rewrite list_lookup_alter_eq. by destruct (g_windows_handle64_mutants s !! token_index token).
    + left. unfold mutant_at. by rewrite list_lookup_alter_ne.
Qed.

End inv.

End WindowsInv.
