(* ===== verification/WindowsCalls.v ===== *)
(** * Calls on handle tables keep the invariant

    Installing, clearing and closing entries, attaching and releasing tables,
    duplicating and inheriting. *)

From S2P Require Import Prelude Principal Services64 Capability Process WindowsHandle WindowsInv.
Import WindowsHandle WindowsTables WindowsInv.
Local Open Scope Z_scope.
Local Open Scope kernel_scope.

Module WindowsCalls.

Section calls.
Context {W : Type} {world : HandleWorld W}.
Implicit Types (s : handle_state W) (tb : handle_table).

(** ** One table of a state *)

Definition upd (t : nat) (f : handle_table -> handle_table) s : handle_state W :=
  s <| g_windows_handle64_tables := alter f t (g_windows_handle64_tables s) |>.

(** Table [t] is [tb] and in use. *)
Definition attached (t : nat) tb s : Prop :=
  g_windows_handle64_tables s !! t = Some tb /\ exists u, g_windows_handle64_table_used s !! t = Some u /\ u <> 0.

Lemma table_at_eq t tb s : g_windows_handle64_tables s !! t = Some tb -> table_at s t = tb.
Proof. unfold table_at. by intros ->. Qed.

Lemma upd_lookup t f s t' : g_windows_handle64_tables (upd t f s) !! t' =
  if decide (t = t') then f <$> g_windows_handle64_tables s !! t' else g_windows_handle64_tables s !! t'.
Proof.
  change (g_windows_handle64_tables (upd t f s)) with (alter f t (g_windows_handle64_tables s)).
  destruct (decide (t = t')) as [->|Hne]; [by rewrite list_lookup_alter_eq|by rewrite list_lookup_alter_ne].
Qed.

Lemma attached_upd t f tb s : attached t tb s -> attached t (f tb) (upd t f s).
Proof. intros [H1 H2]. split; [|exact H2]. rewrite upd_lookup, decide_True by done. by rewrite H1. Qed.

Lemma upd_twice t f g s : upd t f (upd t g s) = upd t (fun tb => f (g tb)) s.
Proof. unfold upd. cbn. f_equal. apply alter_twice. Qed.

Lemma attached_ok t tb s : inv s -> attached t tb s -> table_ok tb.
Proof. intros Hs [Ht _]. pose proof (i_tables _ Hs) as H. rewrite Forall_lookup in H. by apply (H t). Qed.

Lemma count_upd P t f tb s : attached t tb s ->
  (count_entries P (upd t f s) + count_if P (entries tb) = count_entries P s + count_if P (entries (f tb)))%nat.
Proof.
  intros [Ht (u & Hu & Hu0)]. unfold count_entries.
  change (g_windows_handle64_tables (upd t f s)) with (alter f t (g_windows_handle64_tables s)).
  pose proof (sum_zip_alter (count_used P) f _ (g_windows_handle64_table_used s) t tb u Ht Hu) as H.
  change (g_windows_handle64_table_used (upd t f s)) with (g_windows_handle64_table_used s).
  unfold count_used at 2 4 in H. by rewrite (proj2 (Z.eqb_neq u 0)) in H by done.
Qed.

Lemma count_ge P t tb s : attached t tb s -> (count_if P (entries tb) <= count_entries P s)%nat.
Proof.
  intros [Ht (u & Hu & Hu0)]. pose proof (sum_zip_ge (count_used P) _ _ _ _ _ Ht Hu) as H. unfold count_used in H at 1.
  by rewrite (proj2 (Z.eqb_neq u 0)) in H by done.
Qed.

Lemma frame_upd t f s : (forall tb, pid (f tb) = pid tb) -> frame_ok s -> frame_ok (upd t f s).
Proof.
  intros Hp [I1 I2 I3 I4 I5 I6]. constructor; try done.
  - change (length (alter f t (g_windows_handle64_tables s)) = WINDOWS_HANDLE64_MAX_TABLES). by rewrite length_alter.
  - intros p c Hc t' Ht'. destruct (I6 p c Hc t' Ht') as (Hne & tb & u & Htb & Hu & Hu0 & Hpid). split; [done|].
    exists (if decide (t = t') then f tb else tb), u. split_and!; try done.
    + rewrite upd_lookup, Htb. by case_decide.
    + case_decide; [by rewrite Hp|done].
Qed.

Lemma objects_upd t f tb s : attached t tb s ->
  (forall ty k, k <> 0 -> count_if (names ty k) (entries (f tb)) = count_if (names ty k) (entries tb)) -> objects_ok s -> objects_ok (upd t f s).
Proof.
  intros Ht Hf [I1 I2 I3 I4].
  assert (Hc : forall ty k, k <> 0 -> count_entries (names ty k) (upd t f s) = count_entries (names ty k) s).
  { intros ty k Hk. pose proof (count_upd (names ty k) t f tb s Ht) as H. rewrite Hf in H by done. lia. }
  constructor; [| |done|done]; intros token Hk; rewrite Hc by done; [by apply I1|by apply I2].
Qed.

Lemma inv_upd t f tb s : attached t tb s -> (forall tb, pid (f tb) = pid tb) -> table_ok (f tb) ->
  (forall ty k, k <> 0 -> count_if (names ty k) (entries (f tb)) = count_if (names ty k) (entries tb)) -> inv s -> inv (upd t f s).
Proof.
  intros Ht Hp Hok Hn [I1 I2 I3]. constructor; [by apply frame_upd| |by eapply objects_upd].
  apply Forall_lookup. intros t' tb' H. rewrite upd_lookup in H. rewrite Forall_lookup in I2. destruct (decide (t = t')) as [<-|Hne].
  - rewrite (proj1 Ht) in H. by injection H as <-.
  - by apply (I2 t').
Qed.

(** ** Installing *)

Lemma installed_names ty k i cap ty' rt fl tb e0 : entries tb !! i = Some e0 -> active e0 = false ->
  count_if (names ty k) (entries (entry_installed i cap ty' rt fl tb)) =
    (count_if (names ty k) (entries tb) + Nat.b2n (names ty k (new_entry i cap ty' rt fl)))%nat.
Proof.
  intros Hi H0. destruct (installed_entries i cap ty' rt fl tb) as (tb0 & -> & He & _). rewrite sync_count by apply names_count_free. rewrite He.
  pose proof (set_entry_count (names ty k) i (fun _ => new_entry i cap ty' rt fl) tb e0 Hi) as H. rewrite names_inactive in H by done. cbn [Nat.b2n] in H. lia.
Qed.

Lemma installed_pid i cap ty rt fl tb : pid (entry_installed i cap ty rt fl tb) = pid tb /\ owner_id (entry_installed i cap ty rt fl tb) = owner_id tb.
Proof.
  destruct (installed_entries i cap ty rt fl tb) as (tb0 & -> & _ & _ & _ & Hp & Ho). destruct (sync_meta cap ty tb0) as (-> & -> & _). done.
Qed.

Lemma installed_lookup i cap ty rt fl tb j e0 : entries tb !! i = Some e0 -> naming <$> entries (entry_installed i cap ty rt fl tb) !! j =
  if decide (i = j) then Some (naming (new_entry i cap ty rt fl)) else naming <$> entries tb !! j.
Proof.
  intros Hi. destruct (installed_entries i cap ty rt fl tb) as (tb0 & -> & He & _). rewrite sync_lookup, He, set_entry_lookup.
  case_decide as Hd; [subst j; by rewrite Hi|done].
Qed.

(** What an install did: nothing, or a new entry in slot [i]. *)
Definition install_result (t : nat) (cap ty rt fl : Z) tb s (h : Z) s' : Prop :=
  (h = WINDOWS_HANDLE64_INVALID /\ s' = s) \/
  exists i e0, entries tb !! i = Some e0 /\ active e0 = false /\ h = slot_handle i /\ cap <> CAPABILITY64_INVALID_HANDLE
    /\ ty <> WINDOWS_HANDLE64_TYPE_EMPTY /\ s' = upd t (entry_installed i cap ty rt fl) s.

Lemma valid_type_not_empty ty : windows_handle64_valid_type ty = true -> ty <> WINDOWS_HANDLE64_TYPE_EMPTY.
Proof. intros H ->. done. Qed.

Lemma wp_install t cap ty rt fl tb s : inv s -> attached t tb s ->
  wp (windows_handle64_install_in_table t cap ty rt fl) (fun h s' => inv s' /\ install_result t cap ty rt fl tb s h s') s.
Proof.
  intros Hs Ht. unfold windows_handle64_install_in_table.
  destruct (_ || _) eqn:Eg; [apply wp_ret; split; [done|by left]|]. boolify.
  apply wp_bind, wp_gets. rewrite (table_at_eq _ _ _ (proj1 Ht)).
  destruct (find_index _ _) as [i|] eqn:Ei; [|apply wp_ret; split; [done|by left]].
  apply find_index_lookup in Ei as (e0 & Hi & Hfree). apply negb_true_iff in Hfree.
  apply wp_bind, wp_modify, wp_ret. fold (upd t (entry_installed i cap ty rt fl) s).
  assert (Hty : ty <> WINDOWS_HANDLE64_TYPE_EMPTY) by by apply valid_type_not_empty.
  split; [|right; by exists i, e0].
  eapply inv_upd; [done|intros; apply installed_pid|eapply handle_installed_ok; try done; by eapply attached_ok| |done].
  intros ty' k Hk. rewrite (installed_names _ _ _ _ _ _ _ _ _ Hi Hfree).
  replace (names ty' k (new_entry i cap ty rt fl)) with false; [by rewrite Nat.add_0_r|].
  symmetry. unfold names. apply andb_false_iff. right. apply Z.eqb_neq. cbn. congruence.
Qed.

(** ** Clearing an entry *)

Lemma clear_names P tb i e : entries tb !! i = Some e -> P cleared = false ->
  (count_if P (entries (set_entry i (fun _ => cleared) tb)) + Nat.b2n (P e) = count_if P (entries tb))%nat.
Proof. intros Hi HP. pose proof (set_entry_count P i (fun _ => cleared) tb e Hi) as H. cbn beta in H. rewrite HP in H. cbn [Nat.b2n] in H. lia. Qed.

Lemma clear_loose t tb i e s : attached t tb s -> entries tb !! i = Some e -> active e = true -> objects_ok s ->
  objects_loose (object_type e) (reserved e) (upd t (set_entry i (fun _ => cleared)) s).
Proof.
  intros Ht Hi Ha [I1 I2 I3 I4].
  assert (Hc : forall ty k, (count_entries (names ty k) (upd t (set_entry i (fun _ => cleared)) s) + Nat.b2n (names ty k e) = count_entries (names ty k) s)%nat).
  { intros ty k. pose proof (count_upd (names ty k) t (set_entry i (fun _ => cleared)) tb s Ht). pose proof (clear_names (names ty k) tb i e Hi eq_refl). lia. }
  assert (Hl : forall ty act, named_ok ty act s -> loose_ok ty act (object_type e) (reserved e) (upd t (set_entry i (fun _ => cleared)) s)).
  { intros ty act Hn token Hk. specialize (Hn token Hk). specialize (Hc ty token). split.
    - intros Hp. apply Hn. lia.
    - intros Hact. apply Hn in Hact. destruct (names ty token e) eqn:En; cbn [Nat.b2n] in Hc; [|left; lia]. right. unfold names in En. by boolify. }
  assert (Htok : forall ty act, named_ok ty act s -> object_type e = ty -> reserved e = 0 \/ active_at act (reserved e)).
  { intros ty act Hn Hty. destruct (decide (reserved e = 0)) as [?|Hne]; [by left|]. right. apply Hn; [done|].
    assert (En : names ty (reserved e) e = true) by (unfold names; by rewrite Ha, Hty, !Z.eqb_refl).
    pose proof (count_if_pos _ _ _ _ Hi En). pose proof (count_ge (names ty (reserved e)) t tb s Ht). lia. }
  constructor; [by apply Hl|by apply Hl|done|done|by apply Htok|by apply Htok].
Qed.

(** Objects are left alone or destroyed. *)
Definition objects_dropped s s' : Prop :=
  (forall k, event_at s' k = event_at s k \/ (event_at s' k = windows_handle64_clear_event /\ event_active (event_at s k) = true))
  /\ (forall k, mutant_at s' k = mutant_at s k \/ (mutant_at s' k = windows_handle64_clear_mutant /\ mutant_active (mutant_at s k) = true)).

Lemma wp_release_object ty token s : frame_ok s -> objects_loose ty token s ->
  wp (release_object ty token) (fun _ s' => objects_ok s' /\ tables_kept s s' /\ objects_dropped s s') s.
Proof.
  intros Hf Hl. unfold release_object. destruct (ty =? WINDOWS_HANDLE64_TYPE_EVENT) eqn:E1.
  { apply Z.eqb_eq in E1 as ->. eapply wp_mono; [by apply wp_release_event|]. intros _ s' (? & ? & Hm & ?).
    split_and!; try done. split; [done|]. intros k. left. unfold mutant_at. by rewrite Hm. }
  destruct (ty =? WINDOWS_HANDLE64_TYPE_MUTANT) eqn:E2.
  { apply Z.eqb_eq in E2 as ->. eapply wp_mono; [by apply wp_release_mutant|]. intros _ s' (? & ? & He & ?).
    split_and!; try done. split; [|done]. intros k. left. unfold event_at. by rewrite He. }
  apply Z.eqb_neq in E1, E2. apply wp_ret. split_and!; [|done|split; by left].
  constructor; [| |apply Hl|apply Hl]; eapply loose_tight; try apply Hl; intros Hty; by subst.
Qed.

Lemma kept_attached t tb s s' : tables_kept s s' -> attached t tb s -> attached t tb s'.
Proof. intros (H1 & H2 & _) [Ht (u & Hu & Hu0)]. split; [by rewrite H1|]. exists u. by rewrite H2. Qed.

Lemma kept_frame s s' : tables_kept s s' -> frame_ok s -> frame_ok s'.
Proof.
  intros (H1 & H2 & H3 & H4 & H5 & H6 & _) [I1 I2 I3 I4 I5 I6]. constructor; try congruence.
  intros p c. rewrite H4. intros Hc t Ht. destruct (I6 p c Hc t Ht) as (Hne & tb & u & ?). split; [done|]. exists tb, u. by rewrite H1, H2.
Qed.

(** ** Closing *)

(** Consistent but for what is in table [t]. *)
Record inv_but (t : nat) s : Prop := {
  b_frame : frame_ok s;
  b_tables t' tb' : t' <> t -> g_windows_handle64_tables s !! t' = Some tb' -> table_ok tb';
  b_objects : objects_ok s
}.

Lemma inv_finish t f tb s : inv_but t s -> attached t tb s -> (forall tb, pid (f tb) = pid tb) -> table_ok (f tb) ->
  (forall ty k, k <> 0 -> count_if (names ty k) (entries (f tb)) = count_if (names ty k) (entries tb)) -> inv (upd t f s).
Proof.
  intros [I1 I2 I3] Ht Hp Hok Hn. constructor; [by apply frame_upd| |by eapply objects_upd].
  apply Forall_lookup. intros t' tb' H. rewrite upd_lookup in H. destruct (decide (t = t')) as [<-|Hne].
  - rewrite (proj1 Ht) in H. by injection H as <-.
  - by apply (I2 t').
Qed.

Lemma table_of_attached p t s : inv s -> table_of p s = Some t -> exists tb, attached t tb s /\ pid tb = p /\ p <> PROCESS64_INVALID_PID.
Proof.
  intros Hs. unfold table_of. destruct (persona_contexts s !! p) as [c|] eqn:Hc; [|done]. destruct (persona_type c =? _); [|done]. intros Ht.
  destruct (i_contexts _ (i_frame _ Hs) p c Hc t Ht) as (Hne & tb & u & Htb & Hu & Hu0 & Hpid). exists tb. split_and!; try done. split; [done|]. by exists u.
Qed.

Lemma inv_inv_but t s : inv s -> inv_but t s.
Proof. intros [I1 I2 I3]. constructor; [done| |done]. intros t' tb' _ H. rewrite Forall_lookup in I2. by apply (I2 t'). Qed.

(** Clearing the entry of a slot and dropping the object nothing names. *)
Lemma wp_clear t tb i e s : inv_but t s -> attached t tb s -> entries tb !! i = Some e -> active e = true ->
  wp (release_object (object_type e) (reserved e))
    (fun _ s' => inv_but t s' /\ attached t (set_entry i (fun _ => cleared) tb) s' /\ tables_kept (upd t (set_entry i (fun _ => cleared)) s) s'
      /\ objects_dropped s s')
    (upd t (set_entry i (fun _ => cleared)) s).
Proof.
  intros Hs Ht Hi Ha.
  assert (Hf : frame_ok (upd t (set_entry i (fun _ => cleared)) s)) by (apply frame_upd; [done|apply Hs]).
  eapply wp_mono; [apply wp_release_object; [done|eapply clear_loose; try done; apply Hs]|].
  intros _ s' (Hobj & Hk & Hd). pose proof (attached_upd t (set_entry i (fun _ => cleared)) _ _ Ht) as Hat.
  split_and!; [|by eapply kept_attached|done|done]. constructor; [by eapply kept_frame| |done].
  intros t' tb' Hne Htb'. destruct Hk as (Htabs & _). rewrite Htabs, upd_lookup, decide_False in Htb' by done.
  by apply (b_tables _ _ Hs t').
Qed.

Lemma drop_live_entries tb : entries (drop_live tb) = entries tb /\ pid (drop_live tb) = pid tb /\ owner_id (drop_live tb) = owner_id tb.
Proof. unfold drop_live. by destruct (negb _). Qed.

Lemma drop_sync_names cap ty ty' k tb : count_if (names ty' k) (entries (windows_handle64_sync_ref_counts cap ty (drop_live tb))) = count_if (names ty' k) (entries tb).
Proof. rewrite sync_count by apply names_count_free. by destruct (drop_live_entries tb) as (-> & _). Qed.

(** The state after the entry of slot [i] is closed: other tables and the
    rest of this one are as before, up to counts. *)
Definition slot s (t j : nat) : option handle_entry := g_windows_handle64_tables s !! t ≫= fun tb => entries tb !! j.

(** What revoking a backing does to the rest of the kernel. *)
Definition backing_revoked (cap owner ty : Z) (w : W) : W :=
  let (node, w) := if ty =? WINDOWS_HANDLE64_TYPE_FILE then (let (n, w') := fs64_handle_is_node cap owner w in (negb (n =? 0), w')) else (false, w) in
  if node : bool then snd (fs64_revoke cap owner w) else snd (capability64_revoke cap owner w).

Lemma revoke_run cap owner ty s :
  windows_handle64_revoke_backing cap owner ty s = (tt, s <| handle_world := backing_revoked cap owner ty (handle_world s) |>).
Proof.
  unfold windows_handle64_revoke_backing, is_file_node, backing_revoked, on_handle_world, bind, ret.
  destruct (ty =? WINDOWS_HANDLE64_TYPE_FILE).
  - destruct (fs64_handle_is_node cap owner (handle_world s)) as [n w]. cbn [fst snd]. destruct (negb (n =? 0)).
    + change (handle_world (s <| handle_world := w |>)) with w. by destruct (fs64_revoke cap owner w) as [x w'].
    + change (handle_world (s <| handle_world := w |>)) with w. by destruct (capability64_revoke cap owner w) as [x w'].
  - cbn [fst snd]. by destruct (capability64_revoke cap owner (handle_world s)) as [x w'].
Qed.

Record closed (t i : nat) tb (e : handle_entry) s s' : Prop := {
  c_slots t' j : naming <$> slot s' t' j = if decide (t' = t /\ j = i) then Some (naming cleared) else naming <$> slot s t' j;
  c_counts ty k : (count_entries (names ty k) s' + Nat.b2n (names ty k e) = count_entries (names ty k) s)%nat;
  c_objects : objects_dropped s s';
  c_used : g_windows_handle64_table_used s' = g_windows_handle64_table_used s;
  c_contexts : persona_contexts s' = persona_contexts s;
  c_world : handle_world s' =
    (if 1 <? windows_handle64_global_shared_entry_count (capability_handle e) (object_type e) s then handle_world s
     else backing_revoked (capability_handle e) (owner_id tb) (object_type e) (handle_world s))
}.

(** The slots of a state in which one table is rewritten in two steps. *)
Lemma slot_upd t f tb s t' j : g_windows_handle64_tables s !! t = Some tb ->
  slot (upd t f s) t' j = if decide (t' = t) then entries (f tb) !! j else slot s t' j.
Proof.
  intros Ht. unfold slot. rewrite upd_lookup. destruct (decide (t = t')) as [<-|Hne].
  - rewrite decide_True by done. by rewrite Ht.
  - by rewrite decide_False.
Qed.

Lemma slot_cleared g t tb i e s t' j : attached t tb s -> entries tb !! i = Some e ->
  (forall tb' j, naming <$> entries (g tb') !! j = naming <$> entries tb' !! j) ->
  naming <$> slot (upd t g (upd t (set_entry i (fun _ => cleared)) s)) t' j =
    if decide (t' = t /\ j = i) then Some (naming cleared) else naming <$> slot s t' j.
Proof.
  intros Ht Hi Hg. rewrite (slot_upd t g _ _ t' j (proj1 (attached_upd t (set_entry i (fun _ => cleared)) _ _ Ht))).
  rewrite (slot_upd t (set_entry i (fun _ => cleared)) _ _ t' j (proj1 Ht)).
  destruct (decide (t' = t)) as [->|Hne]; [|by rewrite decide_False by (intros []; done)].
  rewrite Hg, set_entry_lookup. destruct (decide (i = j)) as [<-|Hne]; [by rewrite decide_True, Hi|].
  rewrite decide_False by (intros []; done). unfold slot. by rewrite (proj1 Ht).
Qed.

Lemma kept_slot s s' t j : tables_kept s s' -> slot s' t j = slot s t j.
Proof. intros (H & _). unfold slot. by rewrite H. Qed.

Lemma sync_drop_naming cap ty tb j : naming <$> entries (windows_handle64_sync_ref_counts cap ty (drop_live tb)) !! j = naming <$> entries tb !! j.
Proof. rewrite sync_lookup. by destruct (drop_live_entries tb) as (-> & _). Qed.

(** The two ends of a close: counts refreshed, or the backing revoked. *)
Lemma close_ends t tb i e s s2 : inv s -> attached t tb s -> entries tb !! i = Some e -> active e = true ->
  inv_but t s2 -> attached t (set_entry i (fun _ => cleared) tb) s2 ->
  let s3 := upd t drop_live s2 in
  inv (upd t (windows_handle64_sync_ref_counts (capability_handle e) (object_type e)) s3)
  /\ ((1 <? windows_handle64_global_shared_entry_count (capability_handle e) (object_type e) s) = false -> inv s3).
Proof.
  intros Hs Ht Hi Ha Hb Hat s3. set (tb1 := set_entry i (fun _ => cleared) tb) in *.
  pose proof (cleared_ok_but i tb e (attached_ok _ _ _ Hs Ht) Hi Ha) as Hok.
  split.
  - unfold s3. rewrite upd_twice. eapply inv_finish; [done|exact Hat| | |].
    + intros tb0. destruct (sync_meta (capability_handle e) (object_type e) (drop_live tb0)) as (-> & _). apply drop_live_entries.
    + by apply handle_sync_ok.
    + intros ty k _. apply drop_sync_names.
  - intros Hn. eapply inv_finish; [done|exact Hat| | |].
    + intros tb0. apply drop_live_entries.
    + eapply ok_but_none; [exact Hok|]. destruct (drop_live_entries tb1) as (-> & _).
      apply Z.ltb_ge in Hn. unfold windows_handle64_global_shared_entry_count in Hn.
      pose proof (count_ge (shares (capability_handle e) (object_type e)) t tb s Ht) as Hge.
      pose proof (clear_names (shares (capability_handle e) (object_type e)) tb i e Hi eq_refl) as Hc. rewrite handle_shares_self in Hc by done.
      cbn [Nat.b2n] in Hc. unfold tb1. lia.
    + intros ty k _. by destruct (drop_live_entries tb1) as (-> & _).
Qed.

Lemma closed_upd g t tb i e s s2 : attached t tb s -> entries tb !! i = Some e ->
  (forall tb' j, naming <$> entries (g tb') !! j = naming <$> entries tb' !! j) ->
  tables_kept (upd t (set_entry i (fun _ => cleared)) s) s2 -> objects_dropped s s2 ->
  forall t' j, naming <$> slot (upd t g s2) t' j = if decide (t' = t /\ j = i) then Some (naming cleared) else naming <$> slot s t' j.
Proof.
  intros Ht Hi Hg (Hk & _) Hd t' j. rewrite <- (slot_cleared g t tb i e s t' j Ht Hi Hg). unfold slot, upd.
  change (naming <$> (alter g t (g_windows_handle64_tables s2) !! t' ≫= (fun tb0 => entries tb0 !! j)) =
          naming <$> (alter g t (alter (set_entry i (fun _ => cleared)) t (g_windows_handle64_tables s)) !! t' ≫= (fun tb0 => entries tb0 !! j))).
  by rewrite Hk.
Qed.

Lemma closed_count g t tb i e s s2 ty k : attached t tb s -> entries tb !! i = Some e -> attached t (set_entry i (fun _ => cleared) tb) s2 ->
  (forall tb', count_if (names ty k) (entries (g tb')) = count_if (names ty k) (entries tb')) ->
  tables_kept (upd t (set_entry i (fun _ => cleared)) s) s2 ->
  (count_entries (names ty k) (upd t g s2) + Nat.b2n (names ty k e) = count_entries (names ty k) s)%nat.
Proof.
  intros Ht Hi Ht2 Hg Hk. pose proof (count_upd (names ty k) t g _ s2 Ht2) as H1. rewrite Hg in H1.
  pose proof (kept_count (names ty k) _ _ Hk) as H2. pose proof (count_upd (names ty k) t (set_entry i (fun _ => cleared)) tb s Ht) as H3.
  pose proof (clear_names (names ty k) tb i e Hi eq_refl) as H4. lia.
Qed.

(** Who may close what. *)
Definition closable (p h : Z) s (t i : nat) tb (e : handle_entry) : Prop :=
  table_of p s = Some t /\ attached t tb s /\ pid tb = p /\ windows_handle64_is_pseudo h = false
  /\ windows_handle64_find_entry tb h = Some i /\ entries tb !! i = Some e /\ active e = true
  /\ Z.land (flags e) WINDOWS_HANDLE64_FLAG_PROTECT_CLOSE = 0.

(** A denial changes counters only. *)
Lemma wp_deny {A} (m : ST (handle_state W) unit) (r : A) (Q : A -> handle_state W -> Prop) s :
  quiet m -> inv s -> (forall s', same s s' -> inv s' -> Q r s') -> wp (m ;;; ret r) Q s.
Proof. intros Hm Hs HQ. apply wp_bind. eapply wp_mono; [by apply Hm|]. intros u s' H. cbn beta in H. apply wp_ret, HQ; [done|by eapply inv_same]. Qed.

Lemma wp_close p h s : inv s ->
  wp (windows_handle64_close p h)
    (fun r s' => inv s' /\
       if r : bool then exists t i tb e, closable p h s t i tb e /\ closed t i tb e s s'
       else same s s' /\ (forall t i tb e, ~ closable p h s t i tb e)) s.
Proof.
  intros Hs. unfold windows_handle64_close.
  assert (Hdeny : (forall t i tb e, ~ closable p h s t i tb e) ->
    wp (windows_handle64_note_denial p WINDOWS_ABI64_STATUS_INVALID_HANDLE ;;; ret false) (fun r s' => inv s' /\
       if r : bool then exists t i tb e, closable p h s t i tb e /\ closed t i tb e s s'
       else same s s' /\ (forall t i tb e, ~ closable p h s t i tb e)) s).
  { intros Hn. apply wp_deny; [apply quiet_note_denial|done|]. by intros s' Hsame Hs'. }
  apply wp_bind. unfold wp at 1. rewrite table_for_run by done. cbn [fst snd].
  destruct (table_of p s) as [t|] eqn:Et; [|by apply Hdeny; intros ???? []; congruence].
  destruct (table_of_attached _ _ _ Hs Et) as (tb & Ht & Hp & _).
  assert (Htb : forall t' i tb' e, closable p h s t' i tb' e -> t' = t /\ tb' = tb).
  { intros t' i tb' e (H1 & [H2 _] & _). rewrite Et in H1. injection H1 as <-. rewrite (proj1 Ht) in H2. by injection H2 as <-. }
  destruct (windows_handle64_is_pseudo h) eqn:Eh; [apply Hdeny; intros ???? H; destruct H as (_ & _ & _ & ? & _); congruence|].
  apply wp_bind, wp_gets. rewrite (table_at_eq _ _ _ (proj1 Ht)).
  destruct (windows_handle64_find_entry tb h) as [i|] eqn:Ei.
  2: { apply Hdeny. intros t' j tb' e' H. destruct (Htb _ _ _ _ H) as [Et' Etb']. subst t' tb'. destruct H as (_ & _ & _ & _ & ? & _). congruence. }
  destruct (find_entry_Some _ _ _ Ei) as (e & He & Heq & Ha & _). rewrite Heq.
  destruct (Z.land (flags e) _ =? 0) eqn:Ef; cbn [negb].
  2: { apply Hdeny. intros t' j tb' e' H. destruct (Htb _ _ _ _ H) as [Et' Etb']. subst t' tb'. destruct H as (_ & _ & _ & _ & Hj & He' & _ & Hfl). rewrite Ei in Hj.
       injection Hj as <-. rewrite He in He'. injection He' as <-. apply Z.eqb_neq in Ef. done. }
  apply wp_bind, wp_gets, wp_bind, wp_modify, wp_bind. fold (upd t (set_entry i (fun _ => cleared)) s).
  eapply wp_mono; [eapply wp_clear; try done; by apply inv_inv_but|]. intros _ s2 (Hb & Hat & Hk & Hd).
  destruct (close_ends _ _ _ _ _ _ Hs Ht He Ha Hb Hat) as [Hsync Hlast].
  apply Z.eqb_eq in Ef. assert (Hcl : closable p h s t i tb e) by done.
  apply wp_bind, wp_modify. fold (upd t drop_live s2). apply wp_bind.
  destruct (1 <? _) eqn:En.
  - apply wp_modify. fold (upd t (windows_handle64_sync_ref_counts (capability_handle e) (object_type e)) (upd t drop_live s2)). rewrite upd_twice in *.
    apply wp_bind, wp_modify, wp_bind, wp_modify, wp_ret. split.
    + eapply inv_same; [|exact Hsync]. constructor; try done. apply same_tables_refl.
    + exists t, i, tb, e. split; [done|]. constructor; [| |done|apply Hk|apply Hk|rewrite En; apply Hk].
      * exact (closed_upd _ _ _ _ _ _ _ Ht He (sync_drop_naming _ _) Hk Hd).
      * intros ty k. refine (closed_count _ _ _ _ _ _ _ ty k Ht He Hat _ Hk). intros tb'. apply drop_sync_names.
  - unfold wp at 1. rewrite revoke_run. cbn [fst snd]. apply wp_bind, wp_modify, wp_bind, wp_modify, wp_ret. split.
    + eapply inv_same; [|exact (Hlast eq_refl)]. constructor; try done. apply same_tables_refl.
    + exists t, i, tb, e. split; [done|]. constructor; [| |done|apply Hk|apply Hk|rewrite En; destruct Hk as (_ & _ & _ & _ & _ & _ & Hw); exact (f_equal (backing_revoked _ _ _) Hw)].
      * eapply closed_upd; try done. intros tb' j. by destruct (drop_live_entries tb') as (-> & _).
      * intros ty k. refine (closed_count _ _ _ _ _ _ _ ty k Ht He Hat _ Hk). intros tb'. by destruct (drop_live_entries tb') as (-> & _).
Qed.

End calls.

End WindowsCalls.

(** ** Attaching and releasing handle tables

    A process of the Windows persona gets a free table and gives it back with
    all its entries cleared. *)

Import WindowsHandle WindowsTables WindowsInv WindowsCalls.
Local Open Scope Z_scope.
Local Open Scope kernel_scope.

Module WindowsRelease.

Section release.
Context {W : Type} {world : HandleWorld W}.
Implicit Types (s : handle_state W) (tb : handle_table).

Lemma quiet_preserves {A} (m : ST (handle_state W) A) : quiet m -> preserves inv m.
Proof. intros H s Hs. eapply wp_mono; [by apply H|]. intros a s' Hs'. eapply inv_same; [exact Hs'|done]. Qed.

Lemma handle_table_ok_meta tb tb' : table_ok tb -> entries tb' = entries tb -> live_count tb' = live_count tb -> high_water_handle tb' = high_water_handle tb -> table_ok tb'.
Proof.
  intros [H1 H2 H3 H4] He Hl Hh. constructor; rewrite ?He, ?Hl, ?Hh; try done. intros i e Hi Ha. unfold aliases. rewrite He. by apply H4.
Qed.

(** ** A free table for a process *)

Definition with_table (t : nat) (p owner : Z) s : handle_state W :=
  s <| g_windows_handle64_table_used := <[t := 1]> (g_windows_handle64_table_used s) |>
    <| g_windows_handle64_tables := alter (fun _ => windows_handle64_clear_table <| pid := p |> <| owner_id := owner |>) t (g_windows_handle64_tables s) |>
    <| persona_contexts := alter (fun c => c <| windows_handle_table := Some t |>) p (persona_contexts s) |>.

Lemma clear_table_count P p owner : (forall e, active e = false -> P e = false) ->
  count_if P (entries (windows_handle64_clear_table <| pid := p |> <| owner_id := owner |>)) = 0%nat.
Proof.
  intros HP. apply count_if_none. intros e [i Hi]%list_elem_of_lookup. apply HP.
  by apply lookup_replicate in Hi as [-> _].
Qed.

Lemma with_table_count P t p owner s : (forall e, active e = false -> P e = false) -> g_windows_handle64_table_used s !! t = Some 0 ->
  count_entries P (with_table t p owner s) = count_entries P s.
Proof.
  intros HP Hu. unfold count_entries.
  change (sum_list (zip_with (count_used P)
    (alter (fun _ => windows_handle64_clear_table <| pid := p |> <| owner_id := owner |>) t (g_windows_handle64_tables s))
    (<[t := 1]> (g_windows_handle64_table_used s))) = sum_list (zip_with (count_used P) (g_windows_handle64_tables s) (g_windows_handle64_table_used s))).
  rewrite sum_zip_used.
  - apply sum_zip_alter_same. intros tb u _ H. rewrite Hu in H. by injection H as <-.
  - intros tb u Htb H. rewrite Hu in H. injection H as <-. apply lookup_alter_Some in Htb as (tb0 & Htb0 & ->).
    rewrite decide_True by done. by apply (clear_table_count P).
Qed.

Lemma with_table_inv t p owner c s : inv s -> g_windows_handle64_table_used s !! t = Some 0 -> persona_contexts s !! p = Some c ->
  windows_handle_table c = None -> p <> PROCESS64_INVALID_PID -> inv (with_table t p owner s).
Proof.
  intros [[I1 I2 I3 I4 I5 I6] Ht [O1 O2 O3 O4]] Hu Hc Hn Hp.
  assert (Hl : (t < length (g_windows_handle64_tables s))%nat) by (apply lookup_lt_Some in Hu; congruence).
  constructor.
  - constructor; try done.
    + change (length (alter (fun _ => windows_handle64_clear_table <| pid := p |> <| owner_id := owner |>) t (g_windows_handle64_tables s)) = WINDOWS_HANDLE64_MAX_TABLES).
      by rewrite length_alter.
    + change (length (<[t := 1]> (g_windows_handle64_table_used s)) = WINDOWS_HANDLE64_MAX_TABLES). by rewrite length_insert.
    + intros p' c' Hc' t' Ht'. change (alter (fun c => c <| windows_handle_table := Some t |>) p (persona_contexts s) !! p' = Some c') in Hc'.
      change (p' <> PROCESS64_INVALID_PID /\ exists tb u,
        alter (fun _ => windows_handle64_clear_table <| pid := p |> <| owner_id := owner |>) t (g_windows_handle64_tables s) !! t' = Some tb
        /\ <[t := 1]> (g_windows_handle64_table_used s) !! t' = Some u /\ u <> 0 /\ pid tb = p').
      destruct (decide (p = p')) as [<-|Hne].
      * rewrite lookup_alter, Hc in Hc'. rewrite decide_True in Hc' by done. injection Hc' as <-. injection Ht' as <-. split; [done|].
        destruct (lookup_lt_is_Some_2 _ _ Hl) as [tb0 Htb0]. eexists _, 1. split_and!; [by rewrite list_lookup_alter_eq, Htb0|
          rewrite list_lookup_insert_eq; [done|by apply lookup_lt_Some in Hu]|done|done].
      * rewrite lookup_alter_ne in Hc' by done. destruct (I6 p' c' Hc' t' Ht') as (Hne' & tb & u & Htb & Hu' & Hu0 & Hpid). split; [done|].
        assert (t <> t') by (intros <-; rewrite Hu in Hu'; congruence).
        exists tb, u. by rewrite list_lookup_alter_ne, list_lookup_insert_ne.
  - apply Forall_lookup. intros t' tb' H. change (alter (fun _ => windows_handle64_clear_table <| pid := p |> <| owner_id := owner |>) t (g_windows_handle64_tables s) !! t' = Some tb') in H.
    apply lookup_alter_Some in H as (tb0 & Htb0 & ->). rewrite Forall_lookup in Ht. case_decide; [|by apply (Ht t')].
    eapply handle_table_ok_meta; [apply handle_clear_table_ok|done..].
  - constructor; try done; intros token Hk; rewrite with_table_count by (done || apply names_inactive); [by apply O1|by apply O2].
Qed.

Lemma handle_init_process_keeps p : preserves inv (windows_handle64_init_process p).
Proof.
  intros s Hs. unfold windows_handle64_init_process. apply wp_bind. unfold wp at 1. rewrite handle_init_done by apply (i_frame _ Hs). cbn [fst snd].
  apply wp_bind, wp_gets, wp_bind, wp_gets.
  assert (Hdeny : wp (windows_handle64_note_denial p WINDOWS_ABI64_STATUS_INVALID_PARAMETER ;;; ret false) (fun _ s' => inv s') s)
    by (apply wp_deny; [apply quiet_note_denial|done|done]).
  destruct (persona_contexts s !! p) as [c|] eqn:Hc; [|done]. destruct (_ || _) eqn:Eg; [done|]. boolify.
  destruct (windows_handle_table c) as [t|] eqn:Ht; [by apply wp_ret|]. apply wp_bind, wp_gets.
  destruct (find_index _ _) as [t|] eqn:Ei; [|done]. apply find_index_lookup in Ei as (u & Hu & Hu0). boolify. subst u.
  apply wp_bind, wp_modify, wp_bind, wp_modify, wp_bind, wp_modify, wp_ret. exact (with_table_inv t p (principal_of p s) c s Hs Hu Hc Ht ltac:(assumption)).
Qed.

(** ** Giving a table back *)

Definition without_table (t : nat) (p : Z) s : handle_state W :=
  s <| g_windows_handle64_tables := alter (fun _ => windows_handle64_clear_table) t (g_windows_handle64_tables s) |>
    <| persona_contexts := alter (fun c => c <| windows_handle_table := None |>) p (persona_contexts s) |>
    <| g_windows_handle64_table_used := <[t := 0]> (g_windows_handle64_table_used s) |>.

(** No entry of a table is active. *)
Definition emptied tb : Prop := forall j e, entries tb !! j = Some e -> active e = false.

Lemma emptied_count P tb : (forall e, active e = false -> P e = false) -> emptied tb -> count_if P (entries tb) = 0%nat.
Proof. intros HP H. apply count_if_none. intros e [j Hj]%list_elem_of_lookup. by eapply HP, H. Qed.

Lemma cleared_emptied : emptied windows_handle64_clear_table.
Proof. intros j e H. by apply lookup_replicate in H as [-> _]. Qed.

Lemma without_table_count P t p tb s : (forall e, active e = false -> P e = false) -> attached t tb s -> emptied tb ->
  count_entries P (without_table t p s) = count_entries P s.
Proof.
  intros HP [Ht _] He. unfold count_entries.
  change (sum_list (zip_with (count_used P) (alter (fun _ => windows_handle64_clear_table) t (g_windows_handle64_tables s))
    (<[t := 0]> (g_windows_handle64_table_used s))) = sum_list (zip_with (count_used P) (g_windows_handle64_tables s) (g_windows_handle64_table_used s))).
  rewrite sum_zip_used.
  - apply sum_zip_alter_same. intros tb0 u Htb0 _. rewrite Ht in Htb0. injection Htb0 as <-. unfold count_used.
    rewrite !emptied_count by (done || apply cleared_emptied). done.
  - intros tb0 u Htb0 _. apply lookup_alter_Some in Htb0 as (tb1 & Htb1 & ->). rewrite decide_True by done.
    unfold count_used. rewrite emptied_count by (done || apply cleared_emptied). by destruct (u =? 0).
Qed.

Lemma without_table_inv t p tb s : inv_but t s -> attached t tb s -> pid tb = p -> emptied tb -> inv (without_table t p s).
Proof.
  intros [[I1 I2 I3 I4 I5 I6] Hok [O1 O2 O3 O4]] Ht Hp He. constructor.
  - constructor; try done.
    + change (length (alter (fun _ => windows_handle64_clear_table) t (g_windows_handle64_tables s)) = WINDOWS_HANDLE64_MAX_TABLES).
      by rewrite length_alter.
    + change (length (<[t := 0]> (g_windows_handle64_table_used s)) = WINDOWS_HANDLE64_MAX_TABLES). by rewrite length_insert.
    + intros p' c' Hc' t' Ht'. change (alter (fun c => c <| windows_handle_table := None |>) p (persona_contexts s) !! p' = Some c') in Hc'.
      change (p' <> PROCESS64_INVALID_PID /\ exists tb u, alter (fun _ => windows_handle64_clear_table) t (g_windows_handle64_tables s) !! t' = Some tb
        /\ <[t := 0]> (g_windows_handle64_table_used s) !! t' = Some u /\ u <> 0 /\ pid tb = p').
      destruct (decide (p = p')) as [<-|Hne].
      * rewrite lookup_alter, decide_True in Hc' by done. destruct (persona_contexts s !! p) as [c|]; [|done]. injection Hc' as <-. done.
      * rewrite lookup_alter_ne in Hc' by done. destruct (I6 p' c' Hc' t' Ht') as (Hne' & tb' & u & Htb & Hu' & Hu0 & Hpid). split; [done|].
        assert (t <> t') by (intros <-; rewrite (proj1 Ht) in Htb; congruence).
        exists tb', u. by rewrite list_lookup_alter_ne, list_lookup_insert_ne.
  - apply Forall_lookup. intros t' tb' H. change (alter (fun _ => windows_handle64_clear_table) t (g_windows_handle64_tables s) !! t' = Some tb') in H.
    apply lookup_alter_Some in H as (tb0 & Htb0 & ->). case_decide; [apply handle_clear_table_ok|by apply (Hok t')].
  - constructor; try done; intros token Hk; rewrite (without_table_count _ _ _ _ _ (names_inactive _ _) Ht He); [by apply O1|by apply O2].
Qed.

(** The first loop only revokes backings. *)
Lemma quiet_revoke_body t i : quiet (release_revoke_body t i).
Proof.
  unfold release_revoke_body. apply quiet_bind; [apply quiet_gets|]. intros tb. apply quiet_if; [apply quiet_ret|].
  apply quiet_bind; [apply quiet_gets|]. intros n. apply quiet_if; [apply quiet_revoke|apply quiet_ret].
Qed.

Lemma quiet_for_range n (body : nat -> ST (handle_state W) unit) : (forall i, quiet (body i)) -> quiet (for_range n body).
Proof.
  intros H s Hs. eapply wp_mono; [apply (wp_for_range n body (fun _ s' => same s s')); [reflexivity|]|done].
  intros i s1 _ H1. eapply wp_mono; [apply H; by eapply inv_same|]. intros a s2 H2. cbn beta in H2. by transitivity s1.
Qed.

(** The second loop clears the entries below [i]. *)
Record clearing (t : nat) (p : Z) (i : nat) s : Prop := {
  cl_inv : inv_but t s;
  cl_table : exists tb, attached t tb s /\ pid tb = p /\ length (entries tb) = WINDOWS_HANDLE64_TABLE_LIMIT
    /\ forall j e, (j < i)%nat -> entries tb !! j = Some e -> active e = false
}.

Lemma clear_body_step t p i n s : clearing t p i s -> wp (release_clear_body t i n) (fun _ s' => clearing t p (S i) s') s.
Proof.
  intros [Hb (tb & Ht & Hp & Hl & Hc)]. unfold release_clear_body. apply wp_bind, wp_gets. rewrite (table_at_eq _ _ _ (proj1 Ht)).
  unfold entry_at. destruct (entries tb !! i) as [e|] eqn:Hi; cbn [default from_option id].
  2: { change (active cleared) with false. apply wp_ret. split; [done|]. exists tb. split_and!; try done. intros j e Hj Hje.
       apply (Hc j); [|done]. assert (j <> i) by congruence. lia. }
  destruct (active e) eqn:Ha; cbn [negb].
  2: { apply wp_ret. split; [done|]. exists tb. split_and!; try done. intros j e' Hj Hje.
       destruct (decide (j = i)) as [->|Hne]; [congruence|]. apply (Hc j); [lia|done]. }
  apply wp_bind, wp_modify, wp_bind. fold (upd t (set_entry i (fun _ => cleared)) s).
  eapply wp_mono; [by eapply wp_clear|]. intros _ s' (Hb' & Hat & _). apply wp_ret. split; [done|].
  eexists. split; [exact Hat|]. split_and!; [done|by rewrite set_entry_entries, length_alter|].
  intros j e' Hj Hje. rewrite set_entry_lookup in Hje. case_decide as Hd; [subst j; rewrite Hi in Hje; by injection Hje as <-|]. apply (Hc j); [lia|done].
Qed.

Lemma release_process_keeps p : preserves inv (windows_handle64_release_process p).
Proof.
  intros s Hs. unfold windows_handle64_release_process. apply wp_bind. unfold wp at 1. rewrite handle_init_done by apply (i_frame _ Hs). cbn [fst snd].
  apply wp_bind, wp_gets. destruct (persona_contexts s !! p) as [c|] eqn:Hc; [|by apply wp_ret].
  destruct (windows_handle_table c) as [t|] eqn:Ht; [|by apply wp_ret].
  apply wp_bind. eapply wp_mono; [apply (quiet_for_range _ _ (quiet_revoke_body t) s Hs)|]. intros _u s1 H1. cbn beta in H1.
  pose proof (inv_same _ _ H1 Hs) as Hs1. assert (Hc1 : persona_contexts s1 !! p = Some c) by (by rewrite (sm_contexts _ _ H1)).
  destruct (i_contexts _ (i_frame _ Hs1) p c Hc1 t Ht) as (_ & tb & u & Htb & Hu & Hu0 & Hpid).
  apply wp_bind. eapply wp_mono.
  { apply (wp_fold_range _ 0 (release_clear_body t) (fun i _ s' => clearing t p i s')).
    - split; [by apply inv_inv_but|]. exists tb. split_and!; [split; [done|by exists u]|done| |lia].
      pose proof (i_tables _ Hs1) as Hall. rewrite Forall_lookup in Hall. exact (to_length _ (Hall _ _ Htb)).
    - intros i n s' _ Hcl. by apply clear_body_step. }
  intros n s2 [Hb2 (tb2 & Ht2 & Hp2 & Hl2 & Hcl2)].
  assert (Hlt : (t <? WINDOWS_HANDLE64_MAX_TABLES)%nat = true).
  { apply Nat.ltb_lt. rewrite <- (i_tables_length _ (i_frame _ Hs1)). by eapply lookup_lt_Some. }
  rewrite Hlt. apply wp_bind, wp_modify, wp_bind, wp_modify, wp_bind, wp_bind, wp_modify, wp_modify, wp_ret.
  match goal with |- inv ?x => assert (Heq : x = without_table t p s2) end.
  { unfold without_table. cbn. f_equal. apply alter_twice. }
  rewrite Heq. eapply without_table_inv; try done. intros j e Hj. apply (Hcl2 j); [|done]. rewrite <- Hl2. by eapply lookup_lt_Some.
Qed.

End release.

End WindowsRelease.
