(* ===== verification/WindowsObjects.v ===== *)
(** * Objects behind handles keep the invariant

    Installing, duplicating and inheriting entries, creating keys, events and
    mutants, and the calls that set, wait for, release, arm and cancel. *)

From S2P Require Import Prelude Principal Services64 Capability Process WindowsHandle WindowsInv WindowsCalls.
Import WindowsHandle WindowsTables WindowsInv WindowsCalls WindowsRelease.
Local Open Scope Z_scope.
Local Open Scope kernel_scope.

Module WindowsObjects.

Section objects.
Context {W : Type} {world : HandleWorld W}.
Implicit Types (s : handle_state W) (tb : handle_table).

(** ** Naming an object in a fresh entry *)

Definition set_token (i : nat) (v : Z) : handle_table -> handle_table := set_entry i (fun e => e <| reserved := v |>).

Lemma names_token ty k v e0 : active e0 = true -> names ty k (e0 <| reserved := v |>) = (object_type e0 =? ty) && (v =? k).
Proof. intros Ha. unfold names. change (active (e0 <| reserved := v |>)) with (active e0). by rewrite Ha. Qed.

Lemma token_count ty k t tb i e0 v s : attached t tb s -> entries tb !! i = Some e0 -> active e0 = true -> reserved e0 = 0 -> k <> 0 ->
  count_entries (names ty k) (upd t (set_token i v) s) = (count_entries (names ty k) s + Nat.b2n ((object_type e0 =? ty)%Z && (v =? k)%Z))%nat.
Proof.
  intros Ht Hi Ha Hr Hk. rewrite <- (names_token ty k v e0 Ha).
  pose proof (count_upd (names ty k) t (set_token i v) tb s Ht) as H.
  pose proof (set_entry_count (names ty k) i (fun e => e <| reserved := v |>) tb e0 Hi) as H'. cbn beta in H'. fold (set_token i v tb) in H'.
  assert (Hn : names ty k e0 = false) by (unfold names; rewrite Hr, (proj2 (Z.eqb_neq 0 k)) by done; apply andb_false_r).
  rewrite Hn in H'. cbn [Nat.b2n] in H'. lia.
Qed.

(** Another name for an active object. *)
Lemma token_named ty act t tb i e0 v s : attached t tb s -> entries tb !! i = Some e0 -> active e0 = true -> reserved e0 = 0 ->
  (object_type e0 = ty -> v <> 0 -> active_at act v) -> named_ok ty act s -> named_ok ty act (upd t (set_token i v) s).
Proof.
  intros Ht Hi Ha Hr Hv Hn k Hk. rewrite (token_count _ _ _ _ _ _ _ _ Ht Hi Ha Hr Hk).
  destruct ((object_type e0 =? ty) && (v =? k)) eqn:E; cbn [Nat.b2n]; [|rewrite Nat.add_0_r; by apply Hn].
  boolify. subst v. split; [by intros _; apply Hv|lia].
Qed.

(** The first name of a new object. *)
Lemma token_made ty act t tb i e0 k s : attached t tb s -> entries tb !! i = Some e0 -> active e0 = true -> reserved e0 = 0 ->
  object_type e0 = ty -> act !! k = Some false -> named_ok ty act s -> named_ok ty (<[k := true]> act) (upd t (set_token i (Z.of_nat k + 1)) s).
Proof.
  intros Ht Hi Ha Hr Hty Hact Hn v Hv. rewrite (token_count _ _ _ _ _ _ _ _ Ht Hi Ha Hr Hv), Hty, Z.eqb_refl. cbn [andb].
  rewrite active_at_insert by (by eapply lookup_lt_Some). case_decide as Hd.
  - subst v. rewrite Z.eqb_refl. cbn [Nat.b2n]. split; [done|lia].
  - rewrite (proj2 (Z.eqb_neq _ _)) by done. cbn [Nat.b2n]. rewrite Nat.add_0_r. by apply Hn.
Qed.

Lemma token_table_ok t tb i e0 v s : inv s -> attached t tb s -> entries tb !! i = Some e0 -> active e0 = true ->
  Forall table_ok (g_windows_handle64_tables (upd t (set_token i v) s)).
Proof.
  intros Hs Ht Hi Ha. apply Forall_lookup. intros t' tb' H. rewrite upd_lookup in H. pose proof (i_tables _ Hs) as Hall. rewrite Forall_lookup in Hall.
  destruct (decide (t = t')) as [<-|Hne]; [|by apply (Hall t')]. rewrite (proj1 Ht) in H. injection H as <-.
  eapply reserved_ok; try done. by eapply attached_ok.
Qed.

Lemma token_inv t tb i e0 v s : inv s -> attached t tb s -> entries tb !! i = Some e0 -> active e0 = true -> reserved e0 = 0 ->
  (object_type e0 = WINDOWS_HANDLE64_TYPE_EVENT -> v <> 0 -> active_at (events_of s) v) ->
  (object_type e0 = WINDOWS_HANDLE64_TYPE_MUTANT -> v <> 0 -> active_at (mutants_of s) v) -> inv (upd t (set_token i v) s).
Proof.
  intros Hs Ht Hi Ha Hr He Hm. pose proof Hs as [I1 I2 [O1 O2 O3 O4]]. constructor; [by apply frame_upd|by eapply token_table_ok|].
  constructor; try done; by eapply token_named.
Qed.

(** ** New events and mutants *)

Lemma live_made (act : list bool) k live : act !! k = Some false -> live = Z.of_nat (count_if id act) -> (length act <= 32)%nat ->
  inc32 live = Z.of_nat (count_if id (<[k := true]> act)).
Proof.
  intros Hk -> Hl. pose proof (count_id_insert act k false true Hk) as Hc. pose proof (count_if_le id act). cbn [Nat.b2n] in Hc.
  rewrite inc32_small by (unfold U32_MAX; lia). lia.
Qed.

Definition with_event (k : nat) (ev : event_object) (live : Z) s : handle_state W :=
  s <| g_windows_handle64_events := alter (fun _ => ev) k (g_windows_handle64_events s) |> <| g_windows_handle64_event_live_count := live |>.
Definition with_mutant (k : nat) (m : mutant_object) (live : Z) s : handle_state W :=
  s <| g_windows_handle64_mutants := alter (fun _ => m) k (g_windows_handle64_mutants s) |> <| g_windows_handle64_mutant_live_count := live |>.

Lemma event_made k ev t tb i e0 s : inv s -> events_of s !! k = Some false -> event_active ev = true ->
  attached t tb s -> entries tb !! i = Some e0 -> active e0 = true -> reserved e0 = 0 -> object_type e0 = WINDOWS_HANDLE64_TYPE_EVENT ->
  inv (upd t (set_token i (Z.of_nat k + 1)) (with_event k ev (inc32 (g_windows_handle64_event_live_count s)) s)).
Proof.
  intros Hs Hk Hev Ht Hi Ha Hr Hty. pose proof Hs as [[I1 I2 I3 I4 I5 I6] I7 [O1 O2 O3 O4]].
  set (s1 := with_event _ _ _ s). assert (Hact : events_of s1 = <[k := true]> (events_of s)) by (by apply (alter_fmap_insert event_active)).
  assert (Hlen : (length (events_of s) <= 32)%nat) by (unfold events_of; rewrite length_fmap, I4; done).
  constructor.
  - apply frame_upd; [done|]. constructor; try done.
    change (length (alter (fun _ => ev) k (g_windows_handle64_events s)) = WINDOWS_HANDLE64_MAX_EVENTS). by rewrite length_alter.
  - exact (token_table_ok t tb i e0 (Z.of_nat k + 1) s Hs Ht Hi Ha).
  - constructor.
    + change (events_of (upd t (set_token i (Z.of_nat k + 1)) s1)) with (events_of s1). rewrite Hact.
      exact (token_made WINDOWS_HANDLE64_TYPE_EVENT (events_of s) t tb i e0 k s Ht Hi Ha Hr Hty Hk O1).
    + refine (token_named WINDOWS_HANDLE64_TYPE_MUTANT (mutants_of s) t tb i e0 (Z.of_nat k + 1) s Ht Hi Ha Hr _ O2). by rewrite Hty.
    + change (events_of (upd t (set_token i (Z.of_nat k + 1)) s1)) with (events_of s1). rewrite Hact. by apply (live_made (events_of s)).
    + exact O4.
Qed.

Lemma mutant_made k m t tb i e0 s : inv s -> mutants_of s !! k = Some false -> mutant_active m = true ->
  attached t tb s -> entries tb !! i = Some e0 -> active e0 = true -> reserved e0 = 0 -> object_type e0 = WINDOWS_HANDLE64_TYPE_MUTANT ->
  inv (upd t (set_token i (Z.of_nat k + 1)) (with_mutant k m (inc32 (g_windows_handle64_mutant_live_count s)) s)).
Proof.
  intros Hs Hk Hm Ht Hi Ha Hr Hty. pose proof Hs as [[I1 I2 I3 I4 I5 I6] I7 [O1 O2 O3 O4]].
  set (s1 := with_mutant _ _ _ s). assert (Hact : mutants_of s1 = <[k := true]> (mutants_of s)) by (by apply (alter_fmap_insert mutant_active)).
  assert (Hlen : (length (mutants_of s) <= 32)%nat) by (unfold mutants_of; rewrite length_fmap, I5; done).
  constructor.
  - apply frame_upd; [done|]. constructor; try done.
    change (length (alter (fun _ => m) k (g_windows_handle64_mutants s)) = WINDOWS_HANDLE64_MAX_MUTANTS). by rewrite length_alter.
  - exact (token_table_ok t tb i e0 (Z.of_nat k + 1) s Hs Ht Hi Ha).
  - constructor.
    + refine (token_named WINDOWS_HANDLE64_TYPE_EVENT (events_of s) t tb i e0 (Z.of_nat k + 1) s Ht Hi Ha Hr _ O1). by rewrite Hty.
    + change (mutants_of (upd t (set_token i (Z.of_nat k + 1)) s1)) with (mutants_of s1). rewrite Hact.
      exact (token_made WINDOWS_HANDLE64_TYPE_MUTANT (mutants_of s) t tb i e0 k s Ht Hi Ha Hr Hty Hk O2).
    + exact O3.
    + change (mutants_of (upd t (set_token i (Z.of_nat k + 1)) s1)) with (mutants_of s1). rewrite Hact. by apply (live_made (mutants_of s)).
Qed.

(** ** Granting an entry *)

(** An entry made for an object of type [ty], not named yet. *)
Definition granted (t : nat) (h : Z) (i : nat) (ty : Z) s0 s : Prop :=
  exists tb e, attached t tb s /\ entries tb !! i = Some e /\ active e = true /\ object_type e = ty /\ reserved e = 0
    /\ events_of s = events_of s0 /\ mutants_of s = mutants_of s0.

Lemma same_attached t tb s s' : same s s' -> attached t tb s -> exists tb', attached t tb' s' /\ entries tb' = entries tb.
Proof.
  intros H [Ht (u & Hu & Hu0)]. destruct (same_table_at _ _ _ _ H Ht) as (tb' & Htb' & He & _). exists tb'. split; [|done]. split; [done|].
  exists u. by rewrite (sm_used _ _ H).
Qed.

Lemma new_slot i cap ty rt fl tb e0 : table_ok (entry_installed i cap ty rt fl tb) -> entries tb !! i = Some e0 ->
  cap <> CAPABILITY64_INVALID_HANDLE -> ty <> WINDOWS_HANDLE64_TYPE_EMPTY ->
  exists e, entries (entry_installed i cap ty rt fl tb) !! i = Some e /\ active e = true /\ naming e = naming (new_entry i cap ty rt fl)
    /\ windows_handle64_find_entry (entry_installed i cap ty rt fl tb) (slot_handle i) = Some i.
Proof.
  intros Hok Hi Hc Hty. pose proof (installed_lookup i cap ty rt fl tb i e0 Hi) as H. rewrite decide_True in H by done.
  destruct (entries (entry_installed i cap ty rt fl tb) !! i) as [e|] eqn:He; [|done]. pose proof (Some_inj _ _ H) as Hn. exists e.
  assert (Ha : active e = true).
  { destruct (active e) eqn:Ha; [done|]. rewrite (to_empty _ Hok i e He Ha) in Hn. apply (f_equal capability_handle) in Hn. cbn in Hn. congruence. }
  split_and!; try done. by eapply find_entry_slot.
Qed.

Lemma wp_grant t owner ty rt fl p tb s : inv s -> attached t tb s ->
  wp (grant_entry t owner ty rt fl p) (fun r s' => inv s' /\ match r with inr _ => True | inl (h, i, cap) => granted t h i ty s s' end) s.
Proof.
  intros Hs Ht. unfold grant_entry. apply wp_bind. eapply wp_mono; [by apply quiet_world|]. intros cap s1 H1. cbn beta in H1.
  pose proof (inv_same _ _ H1 Hs) as Hs1. destruct (same_attached _ _ _ _ H1 Ht) as (tb1 & Ht1 & _).
  destruct (cap =? CAPABILITY64_INVALID_HANDLE) eqn:Ec; [by apply wp_ret|]. apply wp_bind.
  eapply wp_mono; [by eapply wp_install|]. intros h s2 [Hs2 Hr]. destruct (h =? WINDOWS_HANDLE64_INVALID) eqn:Eh.
  { apply wp_bind. eapply wp_mono; [by apply quiet_world|]. intros x s3 H3. cbn beta in H3. apply wp_ret. split; [by eapply inv_same|done]. }
  apply Z.eqb_neq in Eh. destruct Hr as [[? _]|(i & e0 & Hi & H0 & Hh & Hc & Hty & ->)]; [done|]. subst h.
  pose proof (attached_upd t (entry_installed i cap ty rt fl) _ _ Ht1) as Ht2.
  destruct (new_slot i cap ty rt fl tb1 e0 (attached_ok _ _ _ Hs2 Ht2) Hi Hc Hty) as (e & He & Ha & Hn & Hf).
  apply wp_bind, wp_gets. rewrite (table_at_eq _ _ _ (proj1 Ht2)), Hf. apply wp_ret. split; [done|].
  eexists _, e. split_and!; [exact Ht2|done|done| | | |].
  - by apply (f_equal object_type) in Hn.
  - by apply (f_equal reserved) in Hn.
  - unfold events_of. by rewrite <- (sm_events _ _ H1).
  - unfold mutants_of. by rewrite <- (sm_mutants _ _ H1).
Qed.

Lemma table_for_keeps p : preserves inv (table_for_creation p).
Proof.
  unfold table_for_creation. apply preserves_bind; [apply quiet_preserves, quiet_table_for|]. intros o.
  apply preserves_bind; [|intros _; apply quiet_preserves, quiet_table_for]. destruct o; [apply preserves_ret|].
  apply preserves_bind; [apply handle_init_process_keeps|intros; apply preserves_ret].
Qed.

Lemma wp_table_for p s : inv s -> wp (table_for_creation p) (fun o s' => inv s' /\ forall t, o = Some t -> exists tb, attached t tb s') s.
Proof.
  intros Hs. unfold table_for_creation. apply wp_bind. unfold wp at 1. rewrite table_for_run by done. cbn [fst snd].
  assert (Hlast : forall s', inv s' -> wp (windows_handle64_table_for_process p) (fun o s' => inv s' /\ forall t, o = Some t -> exists tb, attached t tb s') s').
  { intros s' Hs'. unfold wp. rewrite table_for_run by done. split; [done|]. intros t Ht. destruct (table_of_attached p t s' Hs' Ht) as (tb & ? & _). by exists tb. }
  apply wp_bind. destruct (table_of p s) as [t|]; [by apply wp_ret, Hlast|].
  apply wp_bind. eapply wp_mono; [by apply handle_init_process_keeps|]. intros b s' Hs'. cbn beta in Hs'. by apply wp_ret, Hlast.
Qed.

(** ** Creating objects *)

Lemma same_counters s s' : g_windows_handle64_tables s' = g_windows_handle64_tables s -> g_windows_handle64_table_used s' = g_windows_handle64_table_used s ->
  g_windows_handle64_events s' = g_windows_handle64_events s -> g_windows_handle64_mutants s' = g_windows_handle64_mutants s ->
  g_windows_handle64_initialized s' = g_windows_handle64_initialized s -> persona_contexts s' = persona_contexts s ->
  g_windows_handle64_event_live_count s' = g_windows_handle64_event_live_count s ->
  g_windows_handle64_mutant_live_count s' = g_windows_handle64_mutant_live_count s -> same s s'.
Proof. intros H1. constructor; try done. rewrite H1. apply same_tables_refl. Qed.

Lemma key_create_keeps p key_id rt fl : preserves inv (windows_handle64_key_create p key_id rt fl).
Proof.
  intros s Hs. unfold windows_handle64_key_create. apply wp_bind, wp_gets, wp_bind. eapply wp_mono; [by apply quiet_init|]. intros x s1 H1. cbn beta in H1.
  pose proof (inv_same _ _ H1 Hs) as Hs1. apply wp_bind, wp_gets.
  assert (Hdeny : forall result s', inv s' -> wp (windows_handle64_note_denial p result ;;; ret WINDOWS_HANDLE64_INVALID) (fun _ s'' => inv s'') s')
    by (intros; apply wp_deny; [apply quiet_note_denial|done|done]).
  destruct (_ || _); [by apply Hdeny|]. apply wp_bind. eapply wp_mono; [by apply wp_table_for|]. intros [t|] s2 [Hs2 Ht]; [|by apply Hdeny].
  destruct (Ht t eq_refl) as (tb & Hat). apply wp_bind. eapply wp_mono; [by eapply wp_grant|]. intros [[[h i] cap]|st] s3 [Hs3 Hg]; [|by apply Hdeny].
  destruct Hg as (tb3 & e & Hat3 & He & Ha & Hty & Hr & _).
  apply wp_bind, wp_modify, wp_bind, wp_modify, wp_ret. eapply inv_same; [|eapply (token_inv t tb3 i e key_id s3); try done; by rewrite Hty].
  by apply same_counters.
Qed.

Lemma free_event k s : find_index (fun ev => e_active ev =? 0) (g_windows_handle64_events s) = Some k -> events_of s !! k = Some false.
Proof. intros (ev & Hk & H0)%find_index_lookup. unfold events_of. rewrite list_lookup_fmap, Hk. cbn. unfold event_active, nz. by rewrite H0. Qed.
Lemma free_mutant k s : find_index (fun m => m_active m =? 0) (g_windows_handle64_mutants s) = Some k -> mutants_of s !! k = Some false.
Proof. intros (m & Hk & H0)%find_index_lookup. unfold mutants_of. rewrite list_lookup_fmap, Hk. cbn. unfold mutant_active, nz. by rewrite H0. Qed.

Lemma event_create_keeps p manual initial fl : preserves inv (windows_handle64_event_create p manual initial fl).
Proof.
  intros s Hs. unfold windows_handle64_event_create. apply wp_bind, wp_gets, wp_bind. eapply wp_mono; [by apply quiet_init|]. intros x s1 H1. cbn beta in H1.
  pose proof (inv_same _ _ H1 Hs) as Hs1. apply wp_bind, wp_gets.
  assert (Hdeny : forall result s', inv s' -> wp (windows_handle64_note_event_denial result ;;; ret WINDOWS_HANDLE64_INVALID) (fun _ s'' => inv s'') s')
    by (intros; apply wp_deny; [apply quiet_note_event_denial|done|done]).
  destruct (_ || _); [by apply Hdeny|]. apply wp_bind. eapply wp_mono; [by apply wp_table_for|]. intros [t|] s2 [Hs2 Ht]; [|by apply Hdeny].
  destruct (Ht t eq_refl) as (tb & Hat). apply wp_bind, wp_gets. destruct (find_index _ _) as [k|] eqn:Ek; [|by apply Hdeny]. apply free_event in Ek.
  apply wp_bind. eapply wp_mono; [by eapply wp_grant|]. intros [[[h i] cap]|st] s3 [Hs3 Hg]; [|by apply Hdeny].
  destruct Hg as (tb3 & e & Hat3 & He & Ha & Hty & Hr & Hev & _). rewrite <- Hev in Ek.
  apply wp_bind, wp_modify, wp_bind, wp_modify, wp_bind, wp_modify, wp_bind, wp_modify, wp_ret.
  eapply inv_same; [|exact (event_made k (mk_event 1 p (b2z (nz manual)) (b2z (nz initial)) 0 0 PROCESS64_INVALID_PID SCHEDULER64_INVALID_TASK)
                        t tb3 i e s3 Hs3 Ek eq_refl Hat3 He Ha Hr Hty)].
  by apply same_counters.
Qed.

Lemma mutant_create_keeps p initial_owner fl : preserves inv (windows_handle64_mutant_create p initial_owner fl).
Proof.
  intros s Hs. unfold windows_handle64_mutant_create. apply wp_bind, wp_gets, wp_bind. eapply wp_mono; [by apply quiet_init|]. intros x s1 H1. cbn beta in H1.
  pose proof (inv_same _ _ H1 Hs) as Hs1. apply wp_bind, wp_gets.
  assert (Hdeny : forall result s', inv s' -> wp (windows_handle64_note_mutant_denial result ;;; ret WINDOWS_HANDLE64_INVALID) (fun _ s'' => inv s'') s')
    by (intros; apply wp_deny; [apply quiet_note_mutant_denial|done|done]).
  destruct (_ || _); [by apply Hdeny|]. apply wp_bind. eapply wp_mono; [by apply wp_table_for|]. intros [t|] s2 [Hs2 Ht]; [|by apply Hdeny].
  destruct (Ht t eq_refl) as (tb & Hat). apply wp_bind, wp_gets. destruct (find_index _ _) as [k|] eqn:Ek; [|by apply Hdeny]. apply free_mutant in Ek.
  apply wp_bind. eapply wp_mono; [by eapply wp_grant|]. intros [[[h i] cap]|st] s3 [Hs3 Hg]; [|by apply Hdeny].
  destruct Hg as (tb3 & e & Hat3 & He & Ha & Hty & Hr & _ & Hm). rewrite <- Hm in Ek.
  apply wp_bind, wp_modify, wp_bind, wp_modify, wp_bind, wp_modify, wp_bind, wp_modify, wp_ret.
  eapply inv_same; [|exact (mutant_made k (mk_mutant 1 p (if nz initial_owner then p else PROCESS64_INVALID_PID) (b2z (nz initial_owner)) 0 0
                        PROCESS64_INVALID_PID SCHEDULER64_INVALID_TASK) t tb3 i e s3 Hs3 Ek eq_refl Hat3 He Ha Hr Hty)].
  by apply same_counters.
Qed.

(** ** Installing, duplicating and inheriting *)

Lemma handle_install_keeps p cap ty rt fl : preserves inv (windows_handle64_install p cap ty rt fl).
Proof.
  intros s Hs. unfold windows_handle64_install. apply wp_bind. unfold wp at 1. rewrite table_for_run by done. cbn [fst snd]. apply wp_bind, wp_gets.
  assert (Hdeny : forall result s', inv s' -> wp (windows_handle64_note_denial p result ;;; ret WINDOWS_HANDLE64_INVALID) (fun _ s'' => inv s'') s')
    by (intros; apply wp_deny; [apply quiet_note_denial|done|done]).
  destruct (table_of p s) as [t|] eqn:Et; [|by apply Hdeny]. destruct (table_of_attached _ _ _ Hs Et) as (tb & Ht & _).
  destruct (_ || _); [by apply Hdeny|]. apply wp_bind. eapply wp_mono; [by apply quiet_backing|]. intros b s1 H1. cbn beta in H1.
  pose proof (inv_same _ _ H1 Hs) as Hs1. destruct (same_attached _ _ _ _ H1 Ht) as (tb1 & Ht1 & _).
  destruct b; [|by apply Hdeny]. apply wp_bind. eapply wp_mono; [by eapply wp_install|]. intros h s2 [Hs2 _].
  destruct (h =? _); [by apply Hdeny|]. apply wp_bind, wp_modify, wp_bind, wp_modify, wp_ret. eapply inv_same; [|exact Hs2]. by apply same_counters.
Qed.

Lemma quiet_duplicate_capability source_pid source_owner target_owner e : quiet (duplicate_capability source_pid source_owner target_owner e).
Proof.
  unfold duplicate_capability. apply quiet_if; [apply quiet_ret|]. apply quiet_bind; [apply quiet_file_node|]. intros b.
  apply quiet_if; [apply quiet_bind; [apply quiet_note_denial|intros; apply quiet_ret]|].
  apply quiet_bind; [apply quiet_world|]. intros cap.
  apply quiet_if; [apply quiet_bind; [apply quiet_note_denial|intros; apply quiet_ret]|apply quiet_ret].
Qed.

(** The object an active entry names is active. *)
Lemma named_active ty act t tb i e s : named_ok ty act s -> attached t tb s -> entries tb !! i = Some e -> active e = true ->
  object_type e = ty -> reserved e <> 0 -> active_at act (reserved e).
Proof.
  intros Hn Ht Hi Ha Hty Hr. apply Hn; [done|].
  assert (En : names ty (reserved e) e = true) by (unfold names; by rewrite Ha, Hty, !Z.eqb_refl).
  pose proof (count_if_pos _ _ _ _ Hi En). pose proof (count_ge (names ty (reserved e)) t tb s Ht). lia.
Qed.

(** The entry of a fresh handle. *)
Lemma install_result_entry t cap ty rt fl tb s h s' : inv s' -> attached t tb s -> install_result t cap ty rt fl tb s h s' -> h <> WINDOWS_HANDLE64_INVALID ->
  exists i, granted t h i ty s s' /\ windows_handle64_find_entry (table_at s' t) h = Some i.
Proof.
  intros Hs' Ht [[? _]|(i & e0 & Hi & H0 & -> & Hc & Hty & ->)] Hh; [done|].
  pose proof (attached_upd t (entry_installed i cap ty rt fl) _ _ Ht) as Ht2.
  destruct (new_slot i cap ty rt fl tb e0 (attached_ok _ _ _ Hs' Ht2) Hi Hc Hty) as (e & He & Ha & Hn & Hf).
  exists i. rewrite (table_at_eq _ _ _ (proj1 Ht2)). split; [|done]. eexists _, e. split_and!; [exact Ht2|done|done| | |done|done].
  - by apply (f_equal object_type) in Hn.
  - by apply (f_equal reserved) in Hn.
Qed.

Lemma copy_token_keeps t h i e s0 s : inv s -> granted t h i (object_type e) s0 s -> windows_handle64_find_entry (table_at s t) h = Some i ->
  (object_type e = WINDOWS_HANDLE64_TYPE_EVENT -> reserved e <> 0 -> active_at (events_of s0) (reserved e)) ->
  (object_type e = WINDOWS_HANDLE64_TYPE_MUTANT -> reserved e <> 0 -> active_at (mutants_of s0) (reserved e)) ->
  wp (copy_token t h e) (fun _ s' => inv s') s.
Proof.
  intros Hs (tb & e' & Ht & Hi & Ha & Hty & Hr & Hev & Hmu) Hf He Hm. unfold copy_token. destruct (_ || _); [|by apply wp_ret].
  apply wp_bind, wp_gets. rewrite Hf. apply wp_modify. eapply (token_inv t tb i e' (reserved e) s); try done; rewrite Hty, ?Hev, ?Hmu; done.
Qed.

Lemma duplicate_keeps source_pid h target_pid fl : preserves inv (windows_handle64_duplicate source_pid h target_pid fl).
Proof.
  intros s Hs. unfold windows_handle64_duplicate. apply wp_bind. unfold wp at 1. rewrite table_for_run by done. cbn [fst snd].
  apply wp_bind. unfold wp at 1. rewrite table_for_run by done. cbn [fst snd]. apply wp_bind, wp_gets, wp_bind, wp_gets.
  destruct (windows_handle64_is_pseudo h).
  { apply wp_bind, wp_modify, wp_bind, wp_modify, wp_ret. eapply inv_same; [|exact Hs]. by apply same_counters. }
  assert (Hdeny : forall result s', inv s' -> wp (windows_handle64_note_denial source_pid result ;;; ret WINDOWS_HANDLE64_INVALID) (fun _ s'' => inv s'') s')
    by (intros; apply wp_deny; [apply quiet_note_denial|done|done]).
  destruct (table_of source_pid s) as [st|] eqn:Est; [|by apply Hdeny]. destruct (table_of target_pid s) as [t|] eqn:Et; [|by apply Hdeny].
  destruct (table_of_attached _ _ _ Hs Est) as (stb & Hst & _). destruct (table_of_attached _ _ _ Hs Et) as (tb & Ht & _).
  destruct (negb _); [by apply Hdeny|]. apply wp_bind, wp_gets. rewrite (table_at_eq _ _ _ (proj1 Hst)).
  destruct (windows_handle64_find_entry stb h) as [i|] eqn:Ei; [|by apply Hdeny]. destruct (find_entry_Some _ _ _ Ei) as (e & He & Heq & Ha & _). rewrite Heq.
  apply wp_bind. eapply wp_mono; [by apply quiet_duplicate_capability|]. intros [cap|] s1 H1; cbn beta in H1; pose proof (inv_same _ _ H1 Hs) as Hs1; [|by apply wp_ret].
  destruct (same_attached _ _ _ _ H1 Ht) as (tb1 & Ht1 & _). apply wp_bind. eapply wp_mono; [by eapply wp_install|]. intros h2 s2 [Hs2 Hr].
  destruct (h2 =? WINDOWS_HANDLE64_INVALID) eqn:Eh.
  { apply wp_bind.
    eapply wp_mono; [apply (preserves_if inv); [apply quiet_preserves, quiet_revoke|apply preserves_ret|exact Hs2]|]. intros _u s3 Hs3. by apply Hdeny. }
  apply Z.eqb_neq in Eh. destruct (install_result_entry _ _ _ _ _ _ _ _ _ Hs2 Ht1 Hr Eh) as (j & Hg & Hf).
  pose proof (i_objects _ Hs) as [O1 O2 _ _].
  assert (Hev : events_of s1 = events_of s) by (unfold events_of; by rewrite (sm_events _ _ H1)).
  assert (Hmu : mutants_of s1 = mutants_of s) by (unfold mutants_of; by rewrite (sm_mutants _ _ H1)).
  apply wp_bind. eapply wp_mono; [eapply (copy_token_keeps _ _ _ _ s1); try done|].
  - intros Hty Hre. rewrite Hev. by eapply (named_active _ _ _ stb i e s O1).
  - intros Hty Hre. rewrite Hmu. by eapply (named_active _ _ _ stb i e s O2).
  - intros _u s3 Hs3. cbn beta in Hs3. apply wp_bind, wp_modify, wp_bind, wp_modify, wp_ret. eapply inv_same; [|exact Hs3]. by apply same_counters.
Qed.

Lemma inherit_keeps source_pid target_pid : preserves inv (windows_handle64_inherit source_pid target_pid).
Proof.
  unfold windows_handle64_inherit. apply preserves_bind; [apply quiet_preserves, quiet_table_for|]. intros st.
  apply preserves_bind; [apply quiet_preserves, quiet_table_for|]. intros t.
  assert (Hdeny : preserves inv (windows_handle64_note_denial source_pid WINDOWS_ABI64_STATUS_INVALID_HANDLE ;;; ret 0))
    by (apply preserves_bind; [apply quiet_preserves, quiet_note_denial|intros; apply preserves_ret]).
  destruct st as [st|]; [|done]. destruct t as [t|]; [|done].
  apply preserves_bind.
  - apply preserves_fold_each. intros i n _. unfold inherit_body. apply preserves_bind; [apply preserves_gets|]. intros e.
    apply preserves_if; [|apply preserves_ret]. apply preserves_bind; [apply duplicate_keeps|intros; apply preserves_ret].
  - intros n. apply preserves_bind; [|intros; apply preserves_ret]. apply preserves_if; [|apply preserves_ret].
    apply preserves_modify. intros s Hs. eapply inv_same; [|exact Hs]. by apply same_counters.
Qed.

Lemma close_keeps p h : preserves inv (windows_handle64_close p h).
Proof. intros s Hs. eapply wp_mono; [by apply wp_close|]. by intros b s' [H _]. Qed.

End objects.

End WindowsObjects.
