(* ===== verification/WindowsSync.v ===== *)
(** * Waiting on objects: what events and mutants promise

    An event is a signal with one waiter, a mutant a reentrant lock with one
    waiter.  Setting, waiting, releasing, arming and cancelling through
    handles refine them. *)

From S2P Require Import Prelude Principal Services64 Capability Process WindowsHandle WindowsInv WindowsCalls.
From S2P Require Import WindowsObjects.
Import WindowsHandle WindowsTables WindowsInv WindowsCalls WindowsRelease WindowsObjects.
Local Open Scope Z_scope.
Local Open Scope kernel_scope.

Module WindowsSync.

(** ** Locks *)

(** A process and the task of it to wake. *)
Notation waiter := (option (Z * Z)).

Inductive lock := Free | Held (holder depth : Z) (w : waiter).

Definition lock_wait (p : Z) (l : lock) : Z * lock :=
  match l with
  | Free => (WINDOWS_HANDLE64_MUTANT_WAIT_ACQUIRED, Held p 1 None)
  | Held q n w => if q =? p then (WINDOWS_HANDLE64_MUTANT_WAIT_ACQUIRED, Held q (n + 1) w) else (WINDOWS_HANDLE64_MUTANT_WAIT_TIMEOUT, l)
  end.

(** The status, the count before and the task to wake; the last release of
    a lock someone waits for hands it over. *)
Definition lock_release (p : Z) (l : lock) : (Z * option Z * Z) * lock :=
  match l with
  | Held q n w =>
      if negb (q =? p) then ((WINDOWS_ABI64_STATUS_MUTANT_NOT_OWNED, None, SCHEDULER64_INVALID_TASK), l)
      else if 1 <? n then ((WINDOWS_ABI64_STATUS_SUCCESS, Some n, SCHEDULER64_INVALID_TASK), Held q (n - 1) w)
      else match w with
           | Some (r, task) => ((WINDOWS_ABI64_STATUS_SUCCESS, Some n, task), Held r 1 None)
           | None => ((WINDOWS_ABI64_STATUS_SUCCESS, Some n, SCHEDULER64_INVALID_TASK), Free)
           end
  | Free => ((WINDOWS_ABI64_STATUS_MUTANT_NOT_OWNED, None, SCHEDULER64_INVALID_TASK), l)
  end.

Definition lock_arm (p task : Z) (l : lock) : bool * lock :=
  match l with
  | Held q n None => if (task =? SCHEDULER64_INVALID_TASK) || (q =? p) then (false, l) else (true, Held q n (Some (p, task)))
  | _ => (false, l)
  end.

Definition lock_cancel (p task : Z) (l : lock) : bool * lock :=
  match l with
  | Held q n (Some (r, t)) => if (r =? p) && (t =? task) then (true, Held q n None) else (false, l)
  | _ => (false, l)
  end.

(** ** Signals *)

Record signal := mk_signal { manual : bool; is_set : bool; awaited : waiter }.

(** The state before and the task to wake. *)
Definition signal_set (g : signal) : (Z * Z) * signal :=
  match awaited g with
  | Some (r, task) => ((b2z (is_set g), task), mk_signal (manual g) (manual g) None)
  | None => ((b2z (is_set g), SCHEDULER64_INVALID_TASK), mk_signal (manual g) true None)
  end.

Definition signal_wait (g : signal) : Z * signal :=
  if is_set g then (WINDOWS_HANDLE64_EVENT_WAIT_SIGNALED, mk_signal (manual g) (manual g) (awaited g)) else (WINDOWS_HANDLE64_EVENT_WAIT_TIMEOUT, g).

Definition signal_arm (p task : Z) (g : signal) : bool * signal :=
  match awaited g with
  | None => if (task =? SCHEDULER64_INVALID_TASK) || is_set g then (false, g) else (true, mk_signal (manual g) false (Some (p, task)))
  | Some _ => (false, g)
  end.

Definition signal_cancel (p task : Z) (g : signal) : bool * signal :=
  match awaited g with
  | Some (r, t) => if (r =? p) && (t =? task) then (true, mk_signal (manual g) (is_set g) None) else (false, g)
  | None => (false, g)
  end.

(** ** Calls on objects *)

Inductive sync_call :=
  | EventSet (p h : Z) | EventWait (p h : Z) | EventArm (p h task : Z) | EventCancel (p h task : Z)
  | MutantWait (p h : Z) | MutantRelease (p h : Z) | MutantArm (p h task : Z) | MutantCancel (p h task : Z).

Inductive sync_result := RSet (r : option (Z * Z)) | RWait (r : Z) | RDone (r : bool) | RRelease (r : Z * option Z * Z).

Record objects := mk_objects { signals : nat -> signal; locks : nat -> lock }.

Definition put {A} (k : nat) (a : A) (f : nat -> A) : nat -> A := fun j => if decide (j = k) then a else f j.
Definition with_signal {A} (k : nat) (o : objects) (r : A * signal) (f : A -> sync_result) : sync_result * objects :=
  (f (fst r), mk_objects (put k (snd r) (signals o)) (locks o)).
Definition with_lock {A} (k : nat) (o : objects) (r : A * lock) (f : A -> sync_result) : sync_result * objects :=
  (f (fst r), mk_objects (signals o) (put k (snd r) (locks o))).

(** What a call does to the object its handle names, and when it names none. *)
Definition spec_call (c : sync_call) (k : nat) (o : objects) : sync_result * objects :=
  match c with
  | EventSet p h => with_signal k o (signal_set (signals o k)) (fun r => RSet (Some r))
  | EventWait p h => with_signal k o (signal_wait (signals o k)) RWait
  | EventArm p h task => with_signal k o (signal_arm p task (signals o k)) RDone
  | EventCancel p h task => with_signal k o (signal_cancel p task (signals o k)) RDone
  | MutantWait p h => with_lock k o (lock_wait p (locks o k)) RWait
  | MutantRelease p h => with_lock k o (lock_release p (locks o k)) RRelease
  | MutantArm p h task => with_lock k o (lock_arm p task (locks o k)) RDone
  | MutantCancel p h task => with_lock k o (lock_cancel p task (locks o k)) RDone
  end.

Definition spec_denied (c : sync_call) : sync_result :=
  match c with
  | EventSet _ _ => RSet None
  | EventWait _ _ => RWait WINDOWS_HANDLE64_EVENT_WAIT_DENIED
  | MutantWait _ _ => RWait WINDOWS_HANDLE64_MUTANT_WAIT_DENIED
  | MutantRelease _ _ => RRelease (WINDOWS_ABI64_STATUS_INVALID_HANDLE, None, SCHEDULER64_INVALID_TASK)
  | _ => RDone false
  end.

(** A script of calls, each with the object its handle named. *)
Fixpoint spec_run (cs : list (sync_call * option nat)) (o : objects) : list sync_result * objects :=
  match cs with
  | [] => ([], o)
  | (c, Some k) :: cs' => let (r, o1) := spec_call c k o in let (rs, o2) := spec_run cs' o1 in (r :: rs, o2)
  | (c, None) :: cs' => let (rs, o2) := spec_run cs' o in (spec_denied c :: rs, o2)
  end.

(** ** The records of the code as locks and signals *)

Definition waiter_of (pid task : Z) : waiter := if task =? SCHEDULER64_INVALID_TASK then None else Some (pid, task).
Definition lock_of (m : mutant_object) : lock :=
  if (owner_pid m =? PROCESS64_INVALID_PID) || (recursion_count m =? 0) then Free
  else Held (owner_pid m) (recursion_count m) (waiter_of (m_waiting_pid m) (m_waiting_task_id m)).
Definition signal_of (e : event_object) : signal := mk_signal (nz (manual_reset e)) (nz (signaled e)) (waiter_of (e_waiting_pid e) (e_waiting_task_id e)).

(** Both fields of a waiter are set or none is. *)
Definition waiter_ok (pid task : Z) : Prop := pid = PROCESS64_INVALID_PID <-> task = SCHEDULER64_INVALID_TASK.

Record lock_ok (depth : Z) (m : mutant_object) : Prop := {
  lo_depth : 0 <= recursion_count m <= depth;
  lo_free : owner_pid m = PROCESS64_INVALID_PID <-> recursion_count m = 0;
  lo_idle : recursion_count m = 0 -> m_waiting_task_id m = SCHEDULER64_INVALID_TASK;
  lo_waiter : waiter_ok (m_waiting_pid m) (m_waiting_task_id m)
}.
Record signal_ok (e : event_object) : Prop := {
  so_flag : signaled e = 0 \/ signaled e = 1;
  so_waiter : waiter_ok (e_waiting_pid e) (e_waiting_task_id e)
}.

Lemma no_waiter_ok : waiter_ok PROCESS64_INVALID_PID SCHEDULER64_INVALID_TASK.
Proof. done. Qed.
Lemma armed_ok p task : p <> PROCESS64_INVALID_PID -> task <> SCHEDULER64_INVALID_TASK -> waiter_ok p task.
Proof. by intros; split. Qed.

Lemma wait_lock depth p m : lock_ok depth m -> depth < U32_MAX -> p <> PROCESS64_INVALID_PID ->
  let m1 := m <| m_wait_count := inc32 (m_wait_count m) |> in
  let m2 := if (owner_pid m1 =? PROCESS64_INVALID_PID) || (recursion_count m1 =? 0) then m1 <| owner_pid := p |> <| recursion_count := 1 |>
            else if owner_pid m1 =? p then m1 <| recursion_count := inc32 (recursion_count m1) |> else m1 in
  lock_ok (depth + 1) m2 /\ lock_of m2 = snd (lock_wait p (lock_of m)).
Proof.
  intros [H1 H2 H3 H4] Hd Hp m1 m2. unfold m2, m1, lock_of.
  change (owner_pid (m <| m_wait_count := inc32 (m_wait_count m) |>)) with (owner_pid m).
  change (recursion_count (m <| m_wait_count := inc32 (m_wait_count m) |>)) with (recursion_count m).
  destruct (Z.eqb_spec (owner_pid m) PROCESS64_INVALID_PID) as [E|E]; cbn [orb].
  - split.
    + constructor; cbn; [lia| |done|exact H4]. split; [done|lia].
    + cbn. rewrite (proj2 (Z.eqb_neq p _)) by done. cbn. unfold waiter_of. by rewrite (H3 (proj1 H2 E)).
  - assert (Hr : recursion_count m <> 0) by (intros ?; by apply E, H2). rewrite (proj2 (Z.eqb_neq (recursion_count m) 0)) by done. cbn [lock_wait].
    destruct (owner_pid m =? p) eqn:Ep; cbn.
    + rewrite inc32_small by (cbn in *; lia). split.
      * constructor; cbn; [lia| |lia|exact H4]. split; [by intros|lia].
      * cbn. rewrite (proj2 (Z.eqb_neq (owner_pid m) _)), (proj2 (Z.eqb_neq (recursion_count m + 1) 0)) by (done || lia). done.
    + rewrite (proj2 (Z.eqb_neq (owner_pid m) _)), (proj2 (Z.eqb_neq (recursion_count m) 0)) by done. split; [|done].
      constructor; cbn; [lia|done..].
Qed.

Lemma release_lock depth p m : lock_ok depth m -> depth <= U32_MAX -> owner_pid m = p -> recursion_count m <> 0 ->
  lock_ok depth (mutant_after_release m) /\ lock_of (mutant_after_release m) = snd (lock_release p (lock_of m))
  /\ (WINDOWS_ABI64_STATUS_SUCCESS, Some (recursion_count m), wakes m) = fst (lock_release p (lock_of m)).
Proof.
  intros [H1 H2 H3 H4] Hd Hp Hr. unfold lock_of, wakes, mutant_after_release.
  assert (Hown : owner_pid m <> PROCESS64_INVALID_PID) by (intros E; by apply Hr, H2). subst p.
  rewrite (proj2 (Z.eqb_neq (owner_pid m) _)), (proj2 (Z.eqb_neq (recursion_count m) 0)) by done. cbn [orb lock_release].
  rewrite Z.eqb_refl. cbn [negb]. assert (Hdec : dec32 (recursion_count m) = recursion_count m - 1).
  { unfold dec32, sub32. rewrite wrap32_small; [lia|]. unfold fits32, U32_MAX in *. lia. }
  cbn. rewrite Hdec. destruct (Z.ltb_spec 1 (recursion_count m)) as [Hlt|Hge].
  - rewrite (proj2 (Z.eqb_neq (recursion_count m - 1) 0)) by lia. cbn.
    rewrite (proj2 (Z.eqb_neq (owner_pid m) _)), (proj2 (Z.eqb_neq (recursion_count m - 1) 0)) by (done || lia). cbn.
    split_and!; [|done|done]. constructor; cbn; [lia| |lia|exact H4]. split; [done|lia].
  - assert (Hone : recursion_count m = 1) by lia. rewrite Hone in *. cbn. unfold waiter_of.
    destruct (Z.eqb_spec (m_waiting_task_id m) SCHEDULER64_INVALID_TASK) as [Et|Et]; cbn.
    + split_and!; [|done|by rewrite Et]. constructor; [change (0 <= 0 <= depth); lia|done|done|exact H4].
    + assert (m_waiting_pid m <> PROCESS64_INVALID_PID) by (intros E; by apply Et, H4).
      rewrite (proj2 (Z.eqb_neq (m_waiting_pid m) _)) by done. cbn. split_and!; [|done|done].
      constructor; [change (0 <= 1 <= depth); lia|cbn|done|done]. split; [done|by intros [=]].
Qed.

Lemma release_denied depth p m : lock_ok depth m -> negb (owner_pid m =? p) || (recursion_count m =? 0) = true ->
  lock_release p (lock_of m) = ((WINDOWS_ABI64_STATUS_MUTANT_NOT_OWNED, None, SCHEDULER64_INVALID_TASK), lock_of m).
Proof.
  intros [H1 H2 H3 H4] E. unfold lock_of. destruct ((owner_pid m =? PROCESS64_INVALID_PID) || (recursion_count m =? 0)) eqn:E0; [reflexivity|]. apply orb_false_iff in E0 as [_ E0]. rewrite E0, orb_false_r in E.
  unfold lock_release. by rewrite E.
Qed.

Lemma arm_lock depth p task m : lock_ok depth m -> p <> PROCESS64_INVALID_PID ->
  let refused := (task =? SCHEDULER64_INVALID_TASK) || (owner_pid m =? PROCESS64_INVALID_PID) || (owner_pid m =? p) || (recursion_count m =? 0)
         || negb (m_waiting_task_id m =? SCHEDULER64_INVALID_TASK) in
  let m2 := if refused then m else m <| m_waiting_pid := p |> <| m_waiting_task_id := task |> in
  lock_ok depth m2 /\ (negb refused, lock_of m2) = lock_arm p task (lock_of m).
Proof.
  intros [H1 H2 H3 H4] Hp refused m2. unfold m2, refused, lock_of, waiter_of. clear m2 refused.
  destruct (Z.eqb_spec (owner_pid m) PROCESS64_INVALID_PID) as [E|E]; cbn [orb].
  { rewrite orb_true_r. cbn [orb negb]. rewrite (proj2 (Z.eqb_eq _ _) E). done. }
  rewrite (proj2 (Z.eqb_neq (recursion_count m) 0)) by (intros ?; by apply E, H2). cbn [orb]. rewrite !orb_false_r. cbn [lock_arm].
  destruct (Z.eqb_spec task SCHEDULER64_INVALID_TASK) as [Et|Et]; cbn [orb negb].
  { rewrite (proj2 (Z.eqb_neq (owner_pid m) _)), (proj2 (Z.eqb_neq (recursion_count m) 0)) by (done || (intros ?; by apply E, H2)). split; [done|]. unfold lock_arm. rewrite ?Ep. by destruct (m_waiting_task_id m =? SCHEDULER64_INVALID_TASK), (owner_pid m =? p). }
  destruct (owner_pid m =? p) eqn:Ep; cbn [orb negb].
  { rewrite (proj2 (Z.eqb_neq (owner_pid m) _)), (proj2 (Z.eqb_neq (recursion_count m) 0)) by (done || (intros ?; by apply E, H2)). split; [done|]. unfold lock_arm. by destruct (m_waiting_task_id m =? SCHEDULER64_INVALID_TASK). }
  destruct (Z.eqb_spec (m_waiting_task_id m) SCHEDULER64_INVALID_TASK) as [Ew|Ew]; cbn [negb].
  - cbn. rewrite (proj2 (Z.eqb_neq (owner_pid m) _)), (proj2 (Z.eqb_neq (recursion_count m) 0)) by (done || (intros ?; by apply E, H2)).
    rewrite (proj2 (Z.eqb_neq task _)) by done. split; [|done]. constructor; cbn; [done|done| |by apply armed_ok].
    intros H0. exfalso. by apply E, H2.
  - rewrite (proj2 (Z.eqb_neq (owner_pid m) _)), (proj2 (Z.eqb_neq (recursion_count m) 0)) by (done || (intros ?; by apply E, H2)).
    by rewrite (proj2 (Z.eqb_neq (m_waiting_task_id m) _)).
Qed.

Lemma cancel_lock depth p task m : lock_ok depth m -> p <> PROCESS64_INVALID_PID ->
  let refused := negb (m_waiting_pid m =? p) || negb (m_waiting_task_id m =? task) in
  let m2 := if refused then m else no_waiter_m m in
  lock_ok depth m2 /\ (negb refused, lock_of m2) = lock_cancel p task (lock_of m).
Proof.
  intros [H1 H2 H3 H4] Hp refused m2. unfold m2, refused. clear m2 refused.
  destruct (Z.eqb_spec (m_waiting_pid m) p) as [E|E]; cbn [orb negb].
  - assert (Ht : m_waiting_task_id m <> SCHEDULER64_INVALID_TASK) by (intros Ht; apply Hp; rewrite <- E; by apply H4).
    assert (Hr : recursion_count m <> 0) by (intros ?; by apply Ht, H3).
    assert (Ho : owner_pid m <> PROCESS64_INVALID_PID) by (intros ?; by apply Hr, H2).
    unfold lock_of, no_waiter_m, lock_cancel, waiter_of.
    destruct (Z.eqb_spec (m_waiting_task_id m) task) as [Et|Et]; cbn.
    + rewrite (proj2 (Z.eqb_neq (owner_pid m) _)), (proj2 (Z.eqb_neq (recursion_count m) 0)), (proj2 (Z.eqb_neq (m_waiting_task_id m) SCHEDULER64_INVALID_TASK)) by done.
      cbn. rewrite E, Et, !Z.eqb_refl. split; [|done]. by constructor.
    + rewrite (proj2 (Z.eqb_neq (owner_pid m) _)), (proj2 (Z.eqb_neq (recursion_count m) 0)), (proj2 (Z.eqb_neq (m_waiting_task_id m) SCHEDULER64_INVALID_TASK)) by done.
      cbn. rewrite (proj2 (Z.eqb_neq (m_waiting_task_id m) task)) by done. rewrite andb_false_r. by split.
  - split; [done|]. unfold lock_of, lock_cancel, waiter_of. destruct (_ || _); [done|].
    destruct (m_waiting_task_id m =? SCHEDULER64_INVALID_TASK); [done|]. by rewrite (proj2 (Z.eqb_neq (m_waiting_pid m) p)).
Qed.

(** The same for signals. *)
Lemma set_signal e : signal_ok e ->
  signal_ok (event_after_set e) /\ ((signaled e, e_waiting_task_id e), signal_of (event_after_set e)) = signal_set (signal_of e).
Proof.
  intros [H1 H2]. unfold event_after_set, signal_of, signal_set, waiter_of. cbn.
  destruct (Z.eqb_spec (e_waiting_task_id e) SCHEDULER64_INVALID_TASK) as [Et|Et]; cbn.
  - rewrite (proj2 (Z.eqb_eq _ _) Et). split; [constructor; cbn; [by right|done]|]. rewrite Et. by destruct H1 as [-> | ->].
  - destruct (Z.eqb_spec (manual_reset e) 0) as [Em|Em]; cbn.
    + split; [constructor; cbn; [by left|done]|]. rewrite Em. by destruct H1 as [-> | ->].
    + split; [constructor; cbn; [by right|done]|]. unfold nz. rewrite (proj2 (Z.eqb_neq (manual_reset e) 0)) by done. by destruct H1 as [-> | ->].
Qed.

Lemma wait_signal e : signal_ok e ->
  let e1 := e <| e_wait_count := inc32 (e_wait_count e) |> in
  let e2 := if signaled e1 =? 0 then e1 else if manual_reset e1 =? 0 then e1 <| signaled := 0 |> else e1 in
  signal_ok e2 /\ (if signaled e1 =? 0 then WINDOWS_HANDLE64_EVENT_WAIT_TIMEOUT else WINDOWS_HANDLE64_EVENT_WAIT_SIGNALED, signal_of e2) = signal_wait (signal_of e).
Proof.
  intros [H1 H2] e1 e2. unfold e2, e1, signal_of, signal_wait. cbn.
  destruct H1 as [H1|H1]; rewrite H1; cbn; [split; [constructor; cbn; [by left|done]|by rewrite ?H1]|].
  destruct (Z.eqb_spec (manual_reset e) 0) as [Em|Em]; cbn.
  - rewrite Em. split; [constructor; cbn; [by left|done]|done].
  - rewrite ?H1. unfold nz. rewrite (proj2 (Z.eqb_neq (manual_reset e) 0)) by done. split; [constructor; cbn; [by right|done]|done].
Qed.

Lemma arm_signal p task e : signal_ok e -> p <> PROCESS64_INVALID_PID ->
  let refused := (task =? SCHEDULER64_INVALID_TASK) || negb (signaled e =? 0) || negb (e_waiting_task_id e =? SCHEDULER64_INVALID_TASK) in
  let e2 := if refused then e else e <| e_waiting_pid := p |> <| e_waiting_task_id := task |> in
  signal_ok e2 /\ (negb refused, signal_of e2) = signal_arm p task (signal_of e).
Proof.
  intros [H1 H2] Hp refused e2. unfold e2, refused, signal_of, signal_arm, waiter_of. clear e2 refused. cbn.
  destruct (Z.eqb_spec task SCHEDULER64_INVALID_TASK) as [Et|Et]; cbn [orb negb].
  { split; [done|]. by destruct (e_waiting_task_id e =? SCHEDULER64_INVALID_TASK). }
  unfold nz. destruct H1 as [H1|H1]; rewrite H1; cbn [Z.eqb negb orb].
  - destruct (Z.eqb_spec (e_waiting_task_id e) SCHEDULER64_INVALID_TASK) as [Ew|Ew]; cbn.
    + rewrite (proj2 (Z.eqb_neq task _)) by done. rewrite ?H1. split; [|done]. constructor; cbn; [by left|by apply armed_ok].
    + rewrite (proj2 (Z.eqb_neq (e_waiting_task_id e) _)) by done. rewrite ?H1. split; [|done]. constructor; [by left|done].
  - split; [constructor; [by right|done]|]. rewrite ?H1. by destruct (e_waiting_task_id e =? SCHEDULER64_INVALID_TASK).
Qed.

Lemma cancel_signal p task e : signal_ok e -> p <> PROCESS64_INVALID_PID ->
  let refused := negb (e_waiting_pid e =? p) || negb (e_waiting_task_id e =? task) in
  let e2 := if refused then e else no_waiter_e e in
  signal_ok e2 /\ (negb refused, signal_of e2) = signal_cancel p task (signal_of e).
Proof.
  intros [H1 H2] Hp refused e2. unfold e2, refused. clear e2 refused.
  destruct (Z.eqb_spec (e_waiting_pid e) p) as [E|E]; cbn [orb negb].
  - assert (Ht : e_waiting_task_id e <> SCHEDULER64_INVALID_TASK) by (intros Ht; apply Hp; rewrite <- E; by apply H2).
    unfold signal_of, no_waiter_e, signal_cancel, waiter_of.
    destruct (Z.eqb_spec (e_waiting_task_id e) task) as [Et|Et]; cbn; rewrite (proj2 (Z.eqb_neq (e_waiting_task_id e) SCHEDULER64_INVALID_TASK)) by done.
    + cbn. rewrite E, Et, !Z.eqb_refl. by split.
    + cbn. rewrite (proj2 (Z.eqb_neq (e_waiting_task_id e) task)) by done. rewrite andb_false_r. by split.
  - split; [done|]. unfold signal_of, signal_cancel, waiter_of. cbn.
    destruct (e_waiting_task_id e =? SCHEDULER64_INVALID_TASK); [done|]. by rewrite (proj2 (Z.eqb_neq (e_waiting_pid e) p)).
Qed.

End WindowsSync.

(** ** Scripts of calls on objects and on handles

    Calls on events and mutants through handles step the signals and locks of
    WindowsSync; every call of windows_handle.c keeps the invariant. *)

Import WindowsHandle WindowsTables WindowsInv WindowsCalls WindowsRelease WindowsObjects WindowsSync.
Local Open Scope Z_scope.
Local Open Scope kernel_scope.

Module WindowsScripts.

Section scripts.
Context {W : Type} {world : HandleWorld W}.
Implicit Types (s : handle_state W) (o : objects).

(** ** Calls through handles *)

Definition run_sync (c : sync_call) : ST (handle_state W) sync_result :=
  match c with
  | EventSet p h => r <- windows_handle64_event_set p h ;; ret (RSet r)
  | EventWait p h => r <- windows_handle64_event_wait p h ;; ret (RWait r)
  | EventArm p h task => r <- windows_handle64_event_arm_wait p h task ;; ret (RDone r)
  | EventCancel p h task => r <- windows_handle64_event_cancel_wait p h task ;; ret (RDone r)
  | MutantWait p h => r <- windows_handle64_mutant_wait p h ;; ret (RWait r)
  | MutantRelease p h => r <- windows_handle64_mutant_release p h ;; ret (RRelease r)
  | MutantArm p h task => r <- windows_handle64_mutant_arm_wait p h task ;; ret (RDone r)
  | MutantCancel p h task => r <- windows_handle64_mutant_cancel_wait p h task ;; ret (RDone r)
  end.

(** The object the handle of a call names. *)
Definition target (c : sync_call) s : option nat :=
  match c with
  | EventSet p h => fst (windows_handle64_event_for_handle p h CAPABILITY64_RIGHT_SEND s)
  | EventWait p h | EventArm p h _ | EventCancel p h _ => fst (windows_handle64_event_for_handle p h CAPABILITY64_RIGHT_QUERY s)
  | MutantRelease p h => fst (windows_handle64_mutant_for_handle p h CAPABILITY64_RIGHT_SEND s)
  | MutantWait p h | MutantArm p h _ | MutantCancel p h _ => fst (windows_handle64_mutant_for_handle p h CAPABILITY64_RIGHT_QUERY s)
  end.

(** The calls with their targets, and the results. *)
Fixpoint run_script (cs : list sync_call) : ST (handle_state W) (list (sync_call * option nat) * list sync_result) :=
  match cs with
  | [] => ret ([], [])
  | c :: cs' => k <- gets (target c) ;; r <- run_sync c ;; rest <- run_script cs' ;; ret ((c, k) :: fst rest, r :: snd rest)
  end.

(** ** Objects of a state *)

Record represents (depth : Z) s o : Prop := {
  rp_events k : signal_ok (event_at s k) /\ signals o k = signal_of (event_at s k);
  rp_mutants k : lock_ok depth (mutant_at s k) /\ locks o k = lock_of (mutant_at s k)
}.

Lemma lock_ok_mono d d' m : d <= d' -> lock_ok d m -> lock_ok d' m.
Proof. intros H [H1 H2 H3 H4]. constructor; [lia|done..]. Qed.

Lemma represents_kept d d' s s' o : d <= d' -> g_windows_handle64_events s' = g_windows_handle64_events s ->
  g_windows_handle64_mutants s' = g_windows_handle64_mutants s -> represents d s o -> represents d' s' o.
Proof.
  intros Hd He Hm [H1 H2]. constructor; intros k.
  - unfold event_at. rewrite He. apply H1.
  - unfold mutant_at. rewrite Hm. destruct (H2 k). split; [by eapply lock_ok_mono|done].
Qed.

Lemma represents_same d s s' o : same s s' -> represents d s o -> represents d s' o.
Proof. intros H. apply represents_kept; [lia|apply (sm_events _ _ H)|apply (sm_mutants _ _ H)]. Qed.

Lemma represents_event d d' s s' o k f g : d <= d' -> represents d s o -> g_windows_handle64_mutants s' = g_windows_handle64_mutants s ->
  g_windows_handle64_events s' = alter f k (g_windows_handle64_events s) -> (k < length (g_windows_handle64_events s))%nat ->
  signal_ok (f (event_at s k)) -> g = signal_of (f (event_at s k)) -> represents d' s' (mk_objects (put k g (signals o)) (locks o)).
Proof.
  intros Hd [H1 H2] Hm He Hk Hok ->. constructor; intros j.
  - unfold put. cbn [signals]. assert (Hj : event_at s' j = if decide (j = k) then f (event_at s k) else event_at s j).
    { unfold event_at. rewrite He. case_decide as Hd'; [subst j|by rewrite list_lookup_alter_ne].
      rewrite list_lookup_alter_eq. by destruct (lookup_lt_is_Some_2 _ _ Hk) as [e ->]. }
    rewrite Hj. case_decide; [done|apply H1].
  - unfold mutant_at. rewrite Hm. destruct (H2 j). split; [by eapply lock_ok_mono|done].
Qed.

Lemma represents_mutant d d' s s' o k f l : d <= d' -> represents d s o -> g_windows_handle64_events s' = g_windows_handle64_events s ->
  g_windows_handle64_mutants s' = alter f k (g_windows_handle64_mutants s) -> (k < length (g_windows_handle64_mutants s))%nat ->
  lock_ok d' (f (mutant_at s k)) -> l = lock_of (f (mutant_at s k)) -> represents d' s' (mk_objects (signals o) (put k l (locks o))).
Proof.
  intros Hd [H1 H2] He Hm Hk Hok ->. constructor; intros j.
  - unfold event_at. rewrite He. apply H1.
  - unfold put. cbn [locks]. assert (Hj : mutant_at s' j = if decide (j = k) then f (mutant_at s k) else mutant_at s j).
    { unfold mutant_at. rewrite Hm. case_decide as Hd'; [subst j|by rewrite list_lookup_alter_ne].
      rewrite list_lookup_alter_eq. by destruct (lookup_lt_is_Some_2 _ _ Hk) as [m ->]. }
    rewrite Hj. case_decide; [done|]. destruct (H2 j). split; [by eapply lock_ok_mono|done].
Qed.

(** ** Resolving handles *)

Lemma event_for_result p h required s k s1 : inv s -> windows_handle64_event_for_handle p h required s = (Some k, s1) ->
  p <> PROCESS64_INVALID_PID /\ (k < length (g_windows_handle64_events s1))%nat.
Proof.
  intros Hs. unfold windows_handle64_event_for_handle, bind at 1. rewrite table_for_run by done. cbn [fst snd].
  destruct (table_of p s) as [t|] eqn:Et; [|done]. destruct (table_of_attached _ _ _ Hs Et) as (_ & _ & _ & Hp).
  destruct (required =? 0); [done|]. unfold bind. destruct (routed_entry t h WINDOWS_HANDLE64_TYPE_EVENT required s) as [[e|] s2]; cbn [fst snd gets]; [|done].
  destruct (_ || _ || _) eqn:E; [done|]. boolify. intros [= <- <-]. split; [done|].
  change (g_windows_handle64_events (s2 <| g_windows_handle64_event_last_handle := h |>)) with (g_windows_handle64_events s2).
  assert (Hact : e_active (event_at s2 (token_index (reserved e))) <> 0) by done. unfold event_at in Hact.
  destruct (g_windows_handle64_events s2 !! token_index (reserved e)) eqn:El; [by eapply lookup_lt_Some|]. done.
Qed.

Lemma mutant_for_result p h required s k s1 : inv s -> windows_handle64_mutant_for_handle p h required s = (Some k, s1) ->
  p <> PROCESS64_INVALID_PID /\ (k < length (g_windows_handle64_mutants s1))%nat.
Proof.
  intros Hs. unfold windows_handle64_mutant_for_handle, bind at 1. rewrite table_for_run by done. cbn [fst snd].
  destruct (table_of p s) as [t|] eqn:Et; [|done]. destruct (table_of_attached _ _ _ Hs Et) as (_ & _ & _ & Hp).
  destruct (required =? 0); [done|]. unfold bind. destruct (routed_entry t h WINDOWS_HANDLE64_TYPE_MUTANT required s) as [[e|] s2]; cbn [fst snd gets]; [|done].
  destruct (_ || _ || _) eqn:E; [done|]. boolify. intros [= <- <-]. split; [done|].
  change (g_windows_handle64_mutants (s2 <| g_windows_handle64_mutant_last_handle := h |>)) with (g_windows_handle64_mutants s2).
  assert (Hact : m_active (mutant_at s2 (token_index (reserved e))) <> 0) by done. unfold mutant_at in Hact.
  destruct (g_windows_handle64_mutants s2 !! token_index (reserved e)) eqn:El; [by eapply lookup_lt_Some|]. done.
Qed.

(** Handles, tables and contexts are left alone. *)
Definition handles_kept s s' : Prop :=
  Forall2 table_same (g_windows_handle64_tables s) (g_windows_handle64_tables s')
  /\ g_windows_handle64_table_used s' = g_windows_handle64_table_used s /\ persona_contexts s' = persona_contexts s.

Lemma same_kept s s' : same s s' -> handles_kept s s'.
Proof. intros H. split_and!; apply H. Qed.

Lemma handle_kept_trans s1 s2 s3 : handles_kept s1 s2 -> handles_kept s2 s3 -> handles_kept s1 s3.
Proof. intros (H1 & H2 & H3) (H4 & H5 & H6). split_and!; [by eapply same_tables_trans|congruence..]. Qed.

Lemma tables_eq_kept s s' : g_windows_handle64_tables s' = g_windows_handle64_tables s -> g_windows_handle64_table_used s' = g_windows_handle64_table_used s ->
  persona_contexts s' = persona_contexts s -> handles_kept s s'.
Proof. intros H1 H2 H3. split_and!; [|done..]. rewrite H1. apply same_tables_refl. Qed.

(** A call refines its specification, from [s]. *)
Definition steps (c : sync_call) (d : Z) s o (r : sync_result) s' : Prop :=
  handles_kept s s' /\
  match target c s with
  | Some k => r = fst (spec_call c k o) /\ represents (d + 1) s' (snd (spec_call c k o))
  | None => r = spec_denied c /\ represents (d + 1) s' o
  end.

Lemma wp_event_call {A} p h required (K : option nat -> ST (handle_state W) A) (Q : A -> handle_state W -> Prop) s : inv s ->
  (forall (x : option nat) s1, windows_handle64_event_for_handle p h required s = (x, s1) -> same s s1 -> inv s1 ->
     (forall k, x = Some k -> p <> PROCESS64_INVALID_PID /\ (k < length (g_windows_handle64_events s1))%nat) -> wp (K x) Q s1) ->
  wp (bind (windows_handle64_event_for_handle p h required) K) Q s.
Proof.
  intros Hs H. apply wp_bind. destruct (windows_handle64_event_for_handle p h required s) as [x s1] eqn:E. unfold wp at 1. rewrite E. cbn [fst snd].
  assert (Hsame : same s s1) by exact (wp_run _ _ _ _ _ E (quiet_event_for p h required s Hs)).
  apply H; [done|done|by eapply inv_same|]. intros k ->. by eapply event_for_result.
Qed.

Lemma wp_mutant_call {A} p h required (K : option nat -> ST (handle_state W) A) (Q : A -> handle_state W -> Prop) s : inv s ->
  (forall (x : option nat) s1, windows_handle64_mutant_for_handle p h required s = (x, s1) -> same s s1 -> inv s1 ->
     (forall k, x = Some k -> p <> PROCESS64_INVALID_PID /\ (k < length (g_windows_handle64_mutants s1))%nat) -> wp (K x) Q s1) ->
  wp (bind (windows_handle64_mutant_for_handle p h required) K) Q s.
Proof.
  intros Hs H. apply wp_bind. destruct (windows_handle64_mutant_for_handle p h required s) as [x s1] eqn:E. unfold wp at 1. rewrite E. cbn [fst snd].
  assert (Hsame : same s s1) by exact (wp_run _ _ _ _ _ E (quiet_mutant_for p h required s Hs)).
  apply H; [done|done|by eapply inv_same|]. intros k ->. by eapply mutant_for_result.
Qed.

(** A call whose handle names nothing. *)
Lemma steps_denied c d s s1 s' o : same s s1 -> target c s = None -> handles_kept s1 s' -> g_windows_handle64_events s' = g_windows_handle64_events s1 ->
  g_windows_handle64_mutants s' = g_windows_handle64_mutants s1 -> represents d s o -> steps c d s o (spec_denied c) s'.
Proof.
  intros H Ht Hk He Hm Hr. split; [by eapply handle_kept_trans; [apply same_kept|]|]. rewrite Ht. split; [done|].
  eapply represents_kept; [|exact He|exact Hm|by eapply represents_same]. lia.
Qed.

(** A call that rewrites the event it names. *)
Lemma steps_event {A} c d s s1 s' o k f (g : A * signal) R r : same s s1 -> target c s = Some k -> represents d s o ->
  spec_call c k o = with_signal k o g R -> r = R (fst g) ->
  g_windows_handle64_events s' = alter f k (g_windows_handle64_events s1) -> g_windows_handle64_mutants s' = g_windows_handle64_mutants s1 ->
  handles_kept s1 s' -> (k < length (g_windows_handle64_events s1))%nat -> signal_ok (f (event_at s1 k)) -> snd g = signal_of (f (event_at s1 k)) ->
  steps c d s o r s'.
Proof.
  intros H Ht Hr Hc -> He Hm Hk Hlt Hok Hg. split; [by eapply handle_kept_trans; [apply same_kept|]|]. rewrite Ht, Hc. split; [done|]. cbn [snd with_signal].
  eapply (represents_event d); [lia|by eapply represents_same|done|exact He|done|done|done].
Qed.

Lemma steps_mutant {A} c d s s1 s' o k f (l : A * lock) R r : same s s1 -> target c s = Some k -> represents d s o ->
  spec_call c k o = with_lock k o l R -> r = R (fst l) ->
  g_windows_handle64_mutants s' = alter f k (g_windows_handle64_mutants s1) -> g_windows_handle64_events s' = g_windows_handle64_events s1 ->
  handles_kept s1 s' -> (k < length (g_windows_handle64_mutants s1))%nat -> lock_ok (d + 1) (f (mutant_at s1 k)) -> snd l = lock_of (f (mutant_at s1 k)) ->
  steps c d s o r s'.
Proof.
  intros H Ht Hr Hc -> Hm He Hk Hlt Hok Hg. split; [by eapply handle_kept_trans; [apply same_kept|]|]. rewrite Ht, Hc. split; [done|]. cbn [snd with_lock].
  eapply (represents_mutant d); [lia|by eapply represents_same|done|exact Hm|done|done|done].
Qed.

(** The object before the call. *)
Lemma rep_signal d s s1 o k : same s s1 -> represents d s o -> signal_ok (event_at s1 k) /\ signals o k = signal_of (event_at s1 k).
Proof. intros H [H1 _]. replace (event_at s1 k) with (event_at s k); [apply H1|]. unfold event_at. by rewrite (sm_events _ _ H). Qed.
Lemma rep_lock d s s1 o k : same s s1 -> represents d s o -> lock_ok d (mutant_at s1 k) /\ locks o k = lock_of (mutant_at s1 k).
Proof. intros H [_ H2]. replace (mutant_at s1 k) with (mutant_at s k); [apply H2|]. unfold mutant_at. by rewrite (sm_mutants _ _ H). Qed.

(** ** Events *)

Lemma event_set_steps d p h s o : inv s -> represents d s o -> wp (run_sync (EventSet p h)) (steps (EventSet p h) d s o) s.
Proof.
  intros Hs Hr. cbn [run_sync]. apply wp_bind. unfold windows_handle64_event_set.
  apply wp_event_call; [done|]. intros [k|] s1 E H Hs1 Hk.
  2: { apply wp_ret, wp_ret. apply (steps_denied (EventSet p h) d s s1); try done; [cbn; by rewrite E|by apply tables_eq_kept]. }
  destruct (Hk k eq_refl) as [Hp Hlt]. destruct (rep_signal d s s1 o k H Hr) as [Hok Hg]. destruct (set_signal _ Hok) as [Hok' Hset].
  apply wp_bind, wp_gets, wp_bind, wp_modify, wp_bind, wp_modify, wp_bind, wp_modify, wp_ret, wp_ret.
  apply (steps_event _ d s s1 _ o k event_after_set (signal_set (signals o k)) (fun r => RSet (Some r))); try done.
  - cbn. by rewrite E.
  - by rewrite Hg, <- Hset.
  - by apply tables_eq_kept.
  - by rewrite Hg, <- Hset.
Qed.

Lemma event_wait_steps d p h s o : inv s -> represents d s o -> wp (run_sync (EventWait p h)) (steps (EventWait p h) d s o) s.
Proof.
  intros Hs Hr. cbn [run_sync]. apply wp_bind. unfold windows_handle64_event_wait.
  apply wp_event_call; [done|]. intros [k|] s1 E H Hs1 Hk.
  2: { apply wp_ret, wp_ret. apply (steps_denied (EventWait p h) d s s1); try done; [cbn; by rewrite E|by apply tables_eq_kept]. }
  destruct (Hk k eq_refl) as [Hp Hlt]. destruct (rep_signal d s s1 o k H Hr) as [Hok Hg]. pose proof (wait_signal _ Hok) as Hw. cbv zeta in Hw.
  set (f1 := fun e => e <| e_wait_count := inc32 (e_wait_count e) |>) in *. change (_ <| e_wait_count := _ |>) with (f1 (event_at s1 k)) in Hw.
  apply wp_bind, wp_modify, wp_bind, wp_modify, wp_bind, wp_gets.
  set (s2 := _ <| g_windows_handle64_event_wait_count := _ |>).
  assert (He2 : event_at s2 k = f1 (event_at s1 k)).
  { unfold event_at. change (g_windows_handle64_events s2) with (alter f1 k (g_windows_handle64_events s1)).
    rewrite list_lookup_alter_eq. by destruct (lookup_lt_is_Some_2 _ _ Hlt) as [e ->]. }
  rewrite He2. destruct (signaled (f1 (event_at s1 k)) =? 0) eqn:Es.
  - apply wp_bind, wp_modify, wp_ret, wp_ret. destruct Hw as [Hok' Hw].
    apply (steps_event _ d s s1 _ o k f1 (signal_wait (signals o k)) RWait); try done; [cbn; by rewrite E|by rewrite Hg, <- Hw|by apply tables_eq_kept|by rewrite Hg, <- Hw].
  - apply wp_bind. destruct (manual_reset (f1 (event_at s1 k)) =? 0) eqn:Em; destruct Hw as [Hok' Hw].
    + apply wp_modify, wp_bind, wp_gets, wp_bind, wp_modify, wp_ret, wp_ret.
      apply (steps_event _ d s s1 _ o k (fun e => f1 e <| signaled := 0 |>) (signal_wait (signals o k)) RWait); try done;
        [cbn; by rewrite E|by rewrite Hg, <- Hw| |by apply tables_eq_kept|by rewrite Hg, <- Hw].
      exact (alter_twice (fun e => e <| signaled := 0 |>) f1 (g_windows_handle64_events s1) k).
    + apply wp_ret, wp_bind, wp_gets, wp_bind, wp_modify, wp_ret, wp_ret.
      apply (steps_event _ d s s1 _ o k f1 (signal_wait (signals o k)) RWait); try done; [cbn; by rewrite E|by rewrite Hg, <- Hw|by apply tables_eq_kept|by rewrite Hg, <- Hw].
Qed.

(** A call that leaves the event it names alone. *)
Lemma event_untouched {A} c d s s1 s' o k (g : A * signal) R r : same s s1 -> target c s = Some k -> represents d s o ->
  spec_call c k o = with_signal k o g R -> r = R (fst g) ->
  g_windows_handle64_events s' = g_windows_handle64_events s1 -> g_windows_handle64_mutants s' = g_windows_handle64_mutants s1 ->
  handles_kept s1 s' -> (k < length (g_windows_handle64_events s1))%nat -> snd g = signal_of (event_at s1 k) -> steps c d s o r s'.
Proof.
  intros H Ht Hr Hc -> He Hm Hk Hlt Hg. destruct (rep_signal d s s1 o k H Hr) as [Hok _].
  eapply (steps_event c d s s1 s' o k (fun e => e)); try done. rewrite He. symmetry. by apply alter_id_at.
Qed.

Lemma mutant_untouched {A} c d s s1 s' o k (l : A * lock) R r : same s s1 -> target c s = Some k -> represents d s o ->
  spec_call c k o = with_lock k o l R -> r = R (fst l) ->
  g_windows_handle64_mutants s' = g_windows_handle64_mutants s1 -> g_windows_handle64_events s' = g_windows_handle64_events s1 ->
  handles_kept s1 s' -> (k < length (g_windows_handle64_mutants s1))%nat -> snd l = lock_of (mutant_at s1 k) -> steps c d s o r s'.
Proof.
  intros H Ht Hr Hc -> Hm He Hk Hlt Hg. destruct (rep_lock d s s1 o k H Hr) as [Hok _].
  eapply (steps_mutant c d s s1 s' o k (fun m => m)); try done; [|eapply lock_ok_mono; [|done]; lia]. rewrite Hm. symmetry. by apply alter_id_at.
Qed.

Lemma event_arm_steps d p h task s o : inv s -> represents d s o -> wp (run_sync (EventArm p h task)) (steps (EventArm p h task) d s o) s.
Proof.
  intros Hs Hr. cbn [run_sync]. apply wp_bind. unfold windows_handle64_event_arm_wait.
  apply wp_event_call; [done|]. intros [k|] s1 E H Hs1 Hk.
  2: { apply wp_bind, wp_modify, wp_ret, wp_ret. apply (steps_denied (EventArm p h task) d s s1); try done; [cbn; by rewrite E|by apply tables_eq_kept]. }
  destruct (Hk k eq_refl) as [Hp Hlt]. destruct (rep_signal d s s1 o k H Hr) as [Hok Hg]. pose proof (arm_signal p task _ Hok Hp) as Hw. cbv zeta in Hw.
  apply wp_bind, wp_gets. destruct (_ || _) eqn:Ec; destruct Hw as [Hok' Hw]; cbn [negb] in Hw.
  - apply wp_bind, wp_modify, wp_ret, wp_ret.
    apply (event_untouched _ d s s1 _ o k (signal_arm p task (signals o k)) RDone); try done; [cbn; by rewrite E|by rewrite Hg, <- Hw|by apply tables_eq_kept|by rewrite Hg, <- Hw].
  - apply wp_bind, wp_modify, wp_ret, wp_ret.
    apply (steps_event _ d s s1 _ o k (fun e => e <| e_waiting_pid := p |> <| e_waiting_task_id := task |>) (signal_arm p task (signals o k)) RDone); try done;
      [cbn; by rewrite E|by rewrite Hg, <- Hw|by apply tables_eq_kept|by rewrite Hg, <- Hw].
Qed.

Lemma event_cancel_steps d p h task s o : inv s -> represents d s o -> wp (run_sync (EventCancel p h task)) (steps (EventCancel p h task) d s o) s.
Proof.
  intros Hs Hr. cbn [run_sync]. apply wp_bind. unfold windows_handle64_event_cancel_wait.
  apply wp_event_call; [done|]. intros [k|] s1 E H Hs1 Hk.
  2: { apply wp_ret, wp_ret. apply (steps_denied (EventCancel p h task) d s s1); try done; [cbn; by rewrite E|by apply tables_eq_kept]. }
  destruct (Hk k eq_refl) as [Hp Hlt]. destruct (rep_signal d s s1 o k H Hr) as [Hok Hg]. pose proof (cancel_signal p task _ Hok Hp) as Hw. cbv zeta in Hw.
  apply wp_bind, wp_gets. destruct (_ || _) eqn:Ec; destruct Hw as [Hok' Hw]; cbn [negb] in Hw.
  - apply wp_ret, wp_ret.
    apply (event_untouched _ d s s1 _ o k (signal_cancel p task (signals o k)) RDone); try done; [cbn; by rewrite E|by rewrite Hg, <- Hw|by apply tables_eq_kept|by rewrite Hg, <- Hw].
  - apply wp_bind, wp_modify, wp_ret, wp_ret.
    apply (steps_event _ d s s1 _ o k no_waiter_e (signal_cancel p task (signals o k)) RDone); try done;
      [cbn; by rewrite E|by rewrite Hg, <- Hw|by apply tables_eq_kept|by rewrite Hg, <- Hw].
Qed.

(** ** Mutants *)

Lemma mutant_wait_steps d p h s o : inv s -> represents d s o -> d < U32_MAX -> wp (run_sync (MutantWait p h)) (steps (MutantWait p h) d s o) s.
Proof.
  intros Hs Hr Hd. cbn [run_sync]. apply wp_bind. unfold windows_handle64_mutant_wait.
  apply wp_mutant_call; [done|]. intros [k|] s1 E H Hs1 Hk.
  2: { apply wp_ret, wp_ret. apply (steps_denied (MutantWait p h) d s s1); try done; [cbn; by rewrite E|by apply tables_eq_kept]. }
  destruct (Hk k eq_refl) as [Hp Hlt]. destruct (rep_lock d s s1 o k H Hr) as [Hok Hl]. pose proof (wait_lock d p _ Hok Hd Hp) as Hw. cbv zeta in Hw.
  set (f1 := fun m => m <| m_wait_count := inc32 (m_wait_count m) |>) in *. change (_ <| m_wait_count := _ |>) with (f1 (mutant_at s1 k)) in Hw.
  apply wp_bind, wp_modify, wp_bind, wp_modify, wp_bind, wp_gets.
  set (s2 := _ <| g_windows_handle64_mutant_wait_count := _ |>).
  assert (He2 : mutant_at s2 k = f1 (mutant_at s1 k)).
  { unfold mutant_at. change (g_windows_handle64_mutants s2) with (alter f1 k (g_windows_handle64_mutants s1)).
    rewrite list_lookup_alter_eq. by destruct (lookup_lt_is_Some_2 _ _ Hlt) as [m ->]. }
  rewrite He2. assert (Hres : fst (lock_wait p (locks o k)) =
    if (owner_pid (f1 (mutant_at s1 k)) =? PROCESS64_INVALID_PID) || (recursion_count (f1 (mutant_at s1 k)) =? 0) then WINDOWS_HANDLE64_MUTANT_WAIT_ACQUIRED
    else if owner_pid (f1 (mutant_at s1 k)) =? p then WINDOWS_HANDLE64_MUTANT_WAIT_ACQUIRED else WINDOWS_HANDLE64_MUTANT_WAIT_TIMEOUT).
  { rewrite Hl. unfold lock_of, lock_wait. change (owner_pid (f1 (mutant_at s1 k))) with (owner_pid (mutant_at s1 k)).
    change (recursion_count (f1 (mutant_at s1 k))) with (recursion_count (mutant_at s1 k)). by destruct (_ || _); [|destruct (_ =? p)]. }
  destruct ((owner_pid _ =? _) || _) eqn:E1; [|destruct (owner_pid _ =? p) eqn:E2]; destruct Hw as [Hok' Hw].
  - apply wp_bind, wp_modify, wp_bind, wp_modify, wp_ret, wp_ret.
    apply (steps_mutant _ d s s1 _ o k (fun m => f1 m <| owner_pid := p |> <| recursion_count := 1 |>) (lock_wait p (locks o k)) RWait); try done;
      [cbn; by rewrite E|by rewrite Hres| |by apply tables_eq_kept|by rewrite Hl, <- Hw].
    exact (alter_twice (fun m => m <| owner_pid := p |> <| recursion_count := 1 |>) f1 (g_windows_handle64_mutants s1) k).
  - apply wp_bind, wp_modify, wp_bind, wp_modify, wp_ret, wp_ret.
    apply (steps_mutant _ d s s1 _ o k (fun m => f1 m <| recursion_count := inc32 (recursion_count (f1 m)) |>) (lock_wait p (locks o k)) RWait); try done;
      [cbn; by rewrite E|by rewrite Hres| |by apply tables_eq_kept|by rewrite Hl, <- Hw].
    exact (alter_twice (fun m => m <| recursion_count := inc32 (recursion_count m) |>) f1 (g_windows_handle64_mutants s1) k).
  - apply wp_bind, wp_modify, wp_ret, wp_ret.
    apply (steps_mutant _ d s s1 _ o k f1 (lock_wait p (locks o k)) RWait); try done;
      [cbn; by rewrite E|by rewrite Hres|by apply tables_eq_kept|by rewrite Hl, <- Hw].
Qed.

Lemma mutant_release_steps d p h s o : inv s -> represents d s o -> d <= U32_MAX -> wp (run_sync (MutantRelease p h)) (steps (MutantRelease p h) d s o) s.
Proof.
  intros Hs Hr Hd. cbn [run_sync]. apply wp_bind. unfold windows_handle64_mutant_release.
  apply wp_mutant_call; [done|]. intros [k|] s1 E H Hs1 Hk.
  2: { apply wp_ret, wp_ret. apply (steps_denied (MutantRelease p h) d s s1); try done; [cbn; by rewrite E|by apply tables_eq_kept]. }
  destruct (Hk k eq_refl) as [Hp Hlt]. destruct (rep_lock d s s1 o k H Hr) as [Hok Hl].
  apply wp_bind, wp_gets. destruct (negb _ || _) eqn:Ec.
  - pose proof (release_denied d p _ Hok Ec) as Hw. apply wp_bind, wp_modify, wp_ret, wp_ret.
    apply (mutant_untouched _ d s s1 _ o k (lock_release p (locks o k)) RRelease); try done; [cbn; by rewrite E|by rewrite Hl, Hw|by apply tables_eq_kept|by rewrite Hl, Hw].
  - boolify. destruct (release_lock d p _ Hok Hd) as (Hok' & Hw & Hres); [done..|].
    apply wp_bind, wp_modify, wp_bind, wp_modify, wp_bind, wp_modify, wp_ret, wp_ret.
    apply (steps_mutant _ d s s1 _ o k mutant_after_release (lock_release p (locks o k)) RRelease); try done;
      [cbn; by rewrite E|by rewrite Hl, <- Hres|by apply tables_eq_kept|eapply lock_ok_mono; [|exact Hok']; lia|by rewrite Hl, <- Hw].
Qed.

Lemma mutant_arm_steps d p h task s o : inv s -> represents d s o -> wp (run_sync (MutantArm p h task)) (steps (MutantArm p h task) d s o) s.
Proof.
  intros Hs Hr. cbn [run_sync]. apply wp_bind. unfold windows_handle64_mutant_arm_wait.
  apply wp_mutant_call; [done|]. intros [k|] s1 E H Hs1 Hk.
  2: { apply wp_bind, wp_modify, wp_ret, wp_ret. apply (steps_denied (MutantArm p h task) d s s1); try done; [cbn; by rewrite E|by apply tables_eq_kept]. }
  destruct (Hk k eq_refl) as [Hp Hlt]. destruct (rep_lock d s s1 o k H Hr) as [Hok Hl]. pose proof (arm_lock d p task _ Hok Hp) as Hw. cbv zeta in Hw.
  apply wp_bind, wp_gets. destruct (_ || _ || _ || _ || _) eqn:Ec; destruct Hw as [Hok' Hw]; cbn [negb] in Hw.
  - apply wp_bind, wp_modify, wp_ret, wp_ret.
    apply (mutant_untouched _ d s s1 _ o k (lock_arm p task (locks o k)) RDone); try done; [cbn; by rewrite E|by rewrite Hl, <- Hw|by apply tables_eq_kept|by rewrite Hl, <- Hw].
  - apply wp_bind, wp_modify, wp_ret, wp_ret.
    apply (steps_mutant _ d s s1 _ o k (fun m => m <| m_waiting_pid := p |> <| m_waiting_task_id := task |>) (lock_arm p task (locks o k)) RDone); try done;
      [cbn; by rewrite E|by rewrite Hl, <- Hw|by apply tables_eq_kept|eapply lock_ok_mono; [|exact Hok']; lia|by rewrite Hl, <- Hw].
Qed.

Lemma mutant_cancel_steps d p h task s o : inv s -> represents d s o -> wp (run_sync (MutantCancel p h task)) (steps (MutantCancel p h task) d s o) s.
Proof.
  intros Hs Hr. cbn [run_sync]. apply wp_bind. unfold windows_handle64_mutant_cancel_wait.
  apply wp_mutant_call; [done|]. intros [k|] s1 E H Hs1 Hk.
  2: { apply wp_ret, wp_ret. apply (steps_denied (MutantCancel p h task) d s s1); try done; [cbn; by rewrite E|by apply tables_eq_kept]. }
  destruct (Hk k eq_refl) as [Hp Hlt]. destruct (rep_lock d s s1 o k H Hr) as [Hok Hl]. pose proof (cancel_lock d p task _ Hok Hp) as Hw. cbv zeta in Hw.
  apply wp_bind, wp_gets. destruct (_ || _) eqn:Ec; destruct Hw as [Hok' Hw]; cbn [negb] in Hw.
  - apply wp_ret, wp_ret.
    apply (mutant_untouched _ d s s1 _ o k (lock_cancel p task (locks o k)) RDone); try done; [cbn; by rewrite E|by rewrite Hl, <- Hw|by apply tables_eq_kept|by rewrite Hl, <- Hw].
  - apply wp_bind, wp_modify, wp_ret, wp_ret.
    apply (steps_mutant _ d s s1 _ o k no_waiter_m (lock_cancel p task (locks o k)) RDone); try done;
      [cbn; by rewrite E|by rewrite Hl, <- Hw|by apply tables_eq_kept|eapply lock_ok_mono; [|exact Hok']; lia|by rewrite Hl, <- Hw].
Qed.

Lemma sync_steps c d s o : inv s -> represents d s o -> d < U32_MAX -> wp (run_sync c) (steps c d s o) s.
Proof.
  intros Hs Hr Hd. destruct c.
  - by apply event_set_steps.
  - by apply event_wait_steps.
  - by apply event_arm_steps.
  - by apply event_cancel_steps.
  - by apply mutant_wait_steps.
  - apply mutant_release_steps; [done..|lia].
  - by apply mutant_arm_steps.
  - by apply mutant_cancel_steps.
Qed.

End scripts.

End WindowsScripts.
