(* ===== verification/WindowsRuns.v ===== *)
(** * Every call of windows_handle.c keeps the invariant, and scripts refine

    The calls as data, their runs, and the invariant of all reachable states;
    scripts of calls on objects run as scripts of the specification. *)

From S2P Require Import Prelude Principal Services64 Capability Process WindowsHandle WindowsInv WindowsCalls.
From S2P Require Import WindowsObjects WindowsSync.
Import WindowsHandle WindowsTables WindowsInv WindowsCalls WindowsRelease WindowsObjects WindowsSync WindowsScripts.
Local Open Scope Z_scope.
Local Open Scope kernel_scope.

Module WindowsRuns.

Section runs.
Context {W : Type} {world : HandleWorld W}.
Implicit Types (s : handle_state W) (o : objects).

(** ** Objects rewritten in place *)

Lemma inv_objects s s' : inv s -> g_windows_handle64_tables s' = g_windows_handle64_tables s -> g_windows_handle64_table_used s' = g_windows_handle64_table_used s ->
  g_windows_handle64_initialized s' = g_windows_handle64_initialized s -> persona_contexts s' = persona_contexts s ->
  events_of s' = events_of s -> mutants_of s' = mutants_of s ->
  g_windows_handle64_event_live_count s' = g_windows_handle64_event_live_count s ->
  g_windows_handle64_mutant_live_count s' = g_windows_handle64_mutant_live_count s -> inv s'.
Proof.
  intros [[I1 I2 I3 I4 I5 I6] I7 [O1 O2 O3 O4]] H1 H2 H3 H4 H5 H6 H7 H8.
  assert (Hc : forall P, count_entries P s' = count_entries P s) by (intros P; unfold count_entries; by rewrite H1, H2).
  assert (Hl : length (g_windows_handle64_events s') = length (g_windows_handle64_events s)) by (apply (f_equal length) in H5; unfold events_of in H5; by rewrite !length_fmap in H5).
  assert (Hl' : length (g_windows_handle64_mutants s') = length (g_windows_handle64_mutants s)) by (apply (f_equal length) in H6; unfold mutants_of in H6; by rewrite !length_fmap in H6).
  constructor.
  - constructor; try congruence. intros p c. rewrite H4. unfold context_ok. rewrite H1, H2. apply I6.
  - by rewrite H1.
  - constructor; try congruence; intros token Ht; rewrite Hc, ?H5, ?H6; [by apply O1|by apply O2].
Qed.

Lemma handle_fmap_alter_same {A} (f : A -> bool) (g : A -> A) (l : list A) k : (forall x, f (g x) = f x) -> f <$> alter g k l = f <$> l.
Proof.
  intros H. revert k. induction l as [|x l IH]; intros [|k]; [done..| |].
  - change (alter g 0%nat (x :: l)) with (g x :: l). by rewrite !fmap_cons, H.
  - change (alter g (S k) (x :: l)) with (x :: alter g k l). by rewrite !fmap_cons, IH.
Qed.

Lemma event_update_keeps k f : (forall e, e_active (f e) = e_active e) -> preserves inv (update_event k f : ST (handle_state W) unit).
Proof.
  intros Hf. apply preserves_modify. intros s Hs. eapply inv_objects; try done.
  apply handle_fmap_alter_same. intros e. unfold event_active. by rewrite Hf.
Qed.
Lemma mutant_update_keeps k f : (forall m, m_active (f m) = m_active m) -> preserves inv (update_mutant k f : ST (handle_state W) unit).
Proof.
  intros Hf. apply preserves_modify. intros s Hs. eapply inv_objects; try done.
  apply handle_fmap_alter_same. intros m. unfold mutant_active. by rewrite Hf.
Qed.

Lemma event_after_set_active e : e_active (event_after_set e) = e_active e.
Proof. unfold event_after_set. by repeat case_match. Qed.
Lemma mutant_after_release_active m : m_active (mutant_after_release m) = m_active m.
Proof. unfold mutant_after_release. by repeat case_match. Qed.

Ltac keeps_step :=
  match goal with
  | |- preserves _ (windows_handle64_note_denial _ _) => apply quiet_preserves, quiet_note_denial
  | |- preserves _ (windows_handle64_note_event_denial _) => apply quiet_preserves, quiet_note_event_denial
  | |- preserves _ (windows_handle64_note_mutant_denial _) => apply quiet_preserves, quiet_note_mutant_denial
  | |- preserves _ (note_success _ _) => apply quiet_preserves, quiet_note_success
  | |- preserves _ (windows_handle64_table_for_process _) => apply quiet_preserves, quiet_table_for
  | |- preserves _ (windows_handle64_event_for_handle _ _ _) => apply quiet_preserves, quiet_event_for
  | |- preserves _ (windows_handle64_mutant_for_handle _ _ _) => apply quiet_preserves, quiet_mutant_for
  | |- preserves _ (on_handle_world _) => apply quiet_preserves, quiet_world
  | |- preserves _ (update_event _ event_after_set) => apply event_update_keeps, event_after_set_active
  | |- preserves _ (update_mutant _ mutant_after_release) => apply mutant_update_keeps, mutant_after_release_active
  | |- preserves _ (update_event _ _) => apply event_update_keeps; intros ?; reflexivity
  | |- preserves _ (update_mutant _ _) => apply mutant_update_keeps; intros ?; reflexivity
  | |- preserves _ (modify _) => apply quiet_preserves, quiet_modify; intros ?; by apply same_counters
  | |- _ => preserves_step
  end.
Ltac keeps := repeat keeps_step.

Lemma sync_keeps c : preserves inv (run_sync (W := W) c).
Proof.
  destruct c; cbn [run_sync]; apply preserves_bind; try (intros; apply preserves_ret).
  - unfold windows_handle64_event_set, event_outcome. keeps.
  - unfold windows_handle64_event_wait, event_outcome. keeps.
  - unfold windows_handle64_event_arm_wait. keeps.
  - unfold windows_handle64_event_cancel_wait. keeps.
  - unfold windows_handle64_mutant_wait, mutant_outcome. keeps.
  - unfold windows_handle64_mutant_release, mutant_outcome. keeps.
  - unfold windows_handle64_mutant_arm_wait. keeps.
  - unfold windows_handle64_mutant_cancel_wait. keeps.
Qed.

(** ** All calls *)

Inductive handle_query :=
  | QLiveCount (p : Z) | QDenialCount (p : Z) | QHighWater (p : Z) | QFirst (p : Z)
  | QCapability (p h : Z) | QType (p h : Z) | QRights (p h : Z) | QFlags (p h : Z) | QRefCount (p h : Z)
  | QEventTask (p h : Z) | QEventPid (p h : Z) | QEventSignaled (p h : Z) | QEventManual (p h : Z)
  | QMutantOwner (p h : Z) | QMutantRecursion (p h : Z) | QMutantTask (p h : Z) | QMutantPid (p h : Z) | QKey (p h : Z).

Definition run_query (q : handle_query) : ST (handle_state W) Z :=
  match q with
  | QLiveCount p => windows_handle64_live_count p
  | QDenialCount p => windows_handle64_denial_count p
  | QHighWater p => windows_handle64_high_water_handle p
  | QFirst p => windows_handle64_first_handle p
  | QCapability p h => windows_handle64_entry_capability p h
  | QType p h => windows_handle64_entry_type p h
  | QRights p h => windows_handle64_entry_rights p h
  | QFlags p h => windows_handle64_entry_flags p h
  | QRefCount p h => windows_handle64_entry_ref_count p h
  | QEventTask p h => windows_handle64_event_waiter_task p h
  | QEventPid p h => windows_handle64_event_waiter_pid p h
  | QEventSignaled p h => windows_handle64_event_signaled p h
  | QEventManual p h => windows_handle64_event_manual_reset p h
  | QMutantOwner p h => windows_handle64_mutant_owner p h
  | QMutantRecursion p h => windows_handle64_mutant_recursion p h
  | QMutantTask p h => windows_handle64_mutant_waiter_task p h
  | QMutantPid p h => windows_handle64_mutant_waiter_pid p h
  | QKey p h => windows_handle64_key_id p h
  end.

(** The last call stands for persona.c: a context is made, cleared or given
    another persona, without a handle table. *)
Inductive handle_call :=
  | HInitProcess (p : Z) | HReleaseProcess (p : Z)
  | HInstall (p cap ty rt fl : Z) | HDuplicate (source_pid h target_pid fl : Z) | HInherit (source_pid target_pid : Z) | HClose (p h : Z)
  | HResolvePseudo (p h : Z) | HKeyCreate (p key_id rt fl : Z) | HEventCreate (p manual initial fl : Z) | HMutantCreate (p initial_owner fl : Z)
  | HSync (c : sync_call) | HQuery (q : handle_query) | HPersona (p ty : Z).

Definition run_call (c : handle_call) : ST (handle_state W) unit :=
  match c with
  | HInitProcess p => windows_handle64_init_process p ;;; ret tt
  | HReleaseProcess p => windows_handle64_release_process p ;;; ret tt
  | HInstall p cap ty rt fl => windows_handle64_install p cap ty rt fl ;;; ret tt
  | HDuplicate source_pid h target_pid fl => windows_handle64_duplicate source_pid h target_pid fl ;;; ret tt
  | HInherit source_pid target_pid => windows_handle64_inherit source_pid target_pid ;;; ret tt
  | HClose p h => windows_handle64_close p h ;;; ret tt
  | HResolvePseudo p h => windows_handle64_resolve_pseudo p h ;;; ret tt
  | HKeyCreate p key_id rt fl => windows_handle64_key_create p key_id rt fl ;;; ret tt
  | HEventCreate p manual initial fl => windows_handle64_event_create p manual initial fl ;;; ret tt
  | HMutantCreate p initial_owner fl => windows_handle64_mutant_create p initial_owner fl ;;; ret tt
  | HSync c => run_sync c ;;; ret tt
  | HQuery q => run_query q ;;; ret tt
  | HPersona p ty => modify (fun s => s <| persona_contexts := <[p := mk_persona ty None]> (persona_contexts s) |>)
  end.

Fixpoint run_calls (cs : list handle_call) : ST (handle_state W) unit :=
  match cs with [] => ret tt | c :: cs' => run_call c ;;; run_calls cs' end.

Lemma table_query_keeps none f p : preserves inv (table_query (W := W) none f p).
Proof. unfold table_query. keeps. Qed.
Lemma event_query_keeps none f p h : preserves inv (event_query (W := W) none f p h).
Proof. unfold event_query. keeps. Qed.
Lemma mutant_query_keeps none f p h : preserves inv (mutant_query (W := W) none f p h).
Proof. unfold mutant_query. keeps. Qed.
Lemma key_id_keeps p h : preserves inv (windows_handle64_key_id (W := W) p h).
Proof. unfold windows_handle64_key_id. keeps. Qed.

Lemma query_keeps q : preserves inv (run_query q).
Proof. destruct q. 1-9: apply table_query_keeps. 1-4: apply event_query_keeps. 1-4: apply mutant_query_keeps. apply key_id_keeps. Qed.

Lemma resolve_keeps p h : preserves inv (windows_handle64_resolve_pseudo p h).
Proof. unfold windows_handle64_resolve_pseudo. keeps. Qed.

Lemma persona_keeps p ty : preserves inv (modify (fun s : handle_state W => s <| persona_contexts := <[p := mk_persona ty None]> (persona_contexts s) |>)).
Proof.
  apply preserves_modify. intros s [[I1 I2 I3 I4 I5 I6] I7 [O1 O2 O3 O4]]. constructor; [|done|by constructor].
  constructor; try done. intros p' c' Hc'. change (<[p := mk_persona ty None]> (persona_contexts s) !! p' = Some c') in Hc'.
  destruct (decide (p = p')) as [<-|Hne]; [|rewrite lookup_insert_ne in Hc' by done; by apply I6].
  rewrite lookup_insert_eq in Hc'. injection Hc' as <-. by intros t.
Qed.

Lemma handle_call_keeps c : preserves inv (run_call c).
Proof.
  destruct c; cbn [run_call]; try (apply preserves_bind; [|intros; apply preserves_ret]).
  - apply handle_init_process_keeps.
  - apply release_process_keeps.
  - apply handle_install_keeps.
  - apply duplicate_keeps.
  - apply inherit_keeps.
  - apply close_keeps.
  - apply resolve_keeps.
  - apply key_create_keeps.
  - apply event_create_keeps.
  - apply mutant_create_keeps.
  - apply sync_keeps.
  - apply query_keeps.
  - apply persona_keeps.
Qed.

Lemma calls_keep cs : preserves inv (run_calls cs).
Proof.
  induction cs as [|c cs IH]; [apply preserves_ret|]. cbn [run_calls]. apply preserves_bind; [apply handle_call_keeps|]. by intros _.
Qed.

(** ** Scripts on objects *)

Lemma script_steps cs : forall d s o, inv s -> represents d s o -> d + Z.of_nat (length cs) <= U32_MAX ->
  wp (run_script cs) (fun r s' => inv s' /\ handles_kept s s' /\ (fst <$> fst r) = cs
    /\ snd r = fst (spec_run (fst r) o) /\ represents (d + Z.of_nat (length cs)) s' (snd (spec_run (fst r) o))) s.
Proof.
  induction cs as [|c cs IH]; intros d s o Hs Hr Hd; cbn [run_script].
  { apply wp_ret. cbn. rewrite Z.add_0_r. split_and!; try done. by apply tables_eq_kept. }
  cbn [length] in Hd. rewrite Nat2Z.inj_succ in Hd.
  apply wp_bind, wp_gets, wp_bind. destruct (run_sync c s) as [r s1] eqn:E. unfold wp at 1. rewrite E. cbn [fst snd].
  pose proof (wp_run _ _ _ _ _ E (sync_steps c d s o Hs Hr ltac:(lia))) as [Hk Hst].
  pose proof (wp_run _ _ _ _ _ E (sync_keeps c s Hs)) as Hs1. cbn beta in Hs1.
  replace (d + Z.of_nat (length (c :: cs))) with (d + 1 + Z.of_nat (length cs)) by (cbn [length]; lia).
  apply wp_bind. destruct (target c s) as [k|]; destruct Hst as [-> Hr1].
  - eapply wp_mono; [apply (IH _ _ _ Hs1 Hr1); lia|]. intros [l rs] s2 (Hs2 & Hk2 & Hl & Hrs & Hr2). cbn [fst snd] in *. apply wp_ret.
    cbn [fst snd]. split_and!; [done|by eapply handle_kept_trans|by rewrite fmap_cons, Hl| |]; cbn [spec_run];
      destruct (spec_call c k o) as [x o1]; cbn [fst snd] in *; destruct (spec_run l o1) as [y o2]; cbn [fst snd] in *; [by f_equal|done].
  - eapply wp_mono; [apply (IH _ _ _ Hs1 Hr1); lia|]. intros [l rs] s2 (Hs2 & Hk2 & Hl & Hrs & Hr2). cbn [fst snd] in *. apply wp_ret.
    cbn [fst snd]. split_and!; [done|by eapply handle_kept_trans|by rewrite fmap_cons, Hl| |]; cbn [spec_run];
      destruct (spec_run l o) as [y o2]; cbn [fst snd] in *; [by f_equal|done].
Qed.

End runs.

End WindowsRuns.

(** ** The states windows_handle.c reaches

    From zeroed tables, after any calls, the invariant holds and every event
    and mutant is the record of a signal or a lock. *)

Import WindowsHandle WindowsTables WindowsInv WindowsCalls WindowsRelease WindowsObjects WindowsSync WindowsScripts WindowsRuns.
Local Open Scope Z_scope.
Local Open Scope kernel_scope.

Module WindowsReach.

Section reach.
Context {W : Type} {world : HandleWorld W}.
Implicit Types (s : handle_state W) (o : objects).

(** ** Records that stand for signals and locks *)

Definition wf (d : Z) s : Prop := (forall k, signal_ok (event_at s k)) /\ forall k, lock_ok d (mutant_at s k).

Definition objects_of s : objects := mk_objects (fun k => signal_of (event_at s k)) (fun k => lock_of (mutant_at s k)).

Lemma wf_represents d s : wf d s -> represents d s (objects_of s).
Proof. intros [H1 H2]. constructor; intros k; (split; [|done]); [apply H1|apply H2]. Qed.

Lemma wf_mono d d' s : d <= d' -> wf d s -> wf d' s.
Proof. intros H [H1 H2]. split; [done|]. intros k. by eapply lock_ok_mono. Qed.

Lemma clear_event_ok : signal_ok windows_handle64_clear_event.
Proof. constructor; [by left|done]. Qed.
Lemma clear_mutant_ok d : 0 <= d -> lock_ok d windows_handle64_clear_mutant.
Proof. intros H. constructor; [|done..]. change (0 <= 0 <= d). lia. Qed.

Lemma new_event_ok p m i : signal_ok (mk_event 1 p m (b2z i) 0 0 PROCESS64_INVALID_PID SCHEDULER64_INVALID_TASK).
Proof. constructor; [|done]. destruct i; [by right|by left]. Qed.

Lemma new_mutant_ok d p (owned : bool) : 0 < d -> p <> PROCESS64_INVALID_PID ->
  lock_ok d (mk_mutant 1 p (if owned then p else PROCESS64_INVALID_PID) (b2z owned) 0 0 PROCESS64_INVALID_PID SCHEDULER64_INVALID_TASK).
Proof.
  intros Hd Hp. destruct owned.
  - constructor; [change (0 <= 1 <= d); lia| |done|done]. split; [done|by intros [=]].
  - constructor; [change (0 <= 0 <= d); lia|done..].
Qed.

Lemma event_alter_ok k ev s : signal_ok ev -> (forall j, signal_ok (event_at s j)) ->
  forall j, signal_ok (default windows_handle64_clear_event (alter (fun _ => ev) k (g_windows_handle64_events s) !! j)).
Proof.
  intros Hev H j. destruct (decide (k = j)) as [<-|Hne]; [|rewrite list_lookup_alter_ne by done; apply H].
  rewrite list_lookup_alter_eq. destruct (_ !! k); [done|apply clear_event_ok].
Qed.
Lemma mutant_alter_ok d k m s : 0 <= d -> lock_ok d m -> (forall j, lock_ok d (mutant_at s j)) ->
  forall j, lock_ok d (default windows_handle64_clear_mutant (alter (fun _ => m) k (g_windows_handle64_mutants s) !! j)).
Proof.
  intros Hd Hm H j. destruct (decide (k = j)) as [<-|Hne]; [|rewrite list_lookup_alter_ne by done; apply H].
  rewrite list_lookup_alter_eq. destruct (_ !! k); [done|by apply clear_mutant_ok].
Qed.

Context (d : Z) (d_pos : 0 < d).

Lemma update_event_wf k ev : signal_ok ev -> preserves (wf d) (update_event k (fun _ => ev)).
Proof. intros Hev. apply preserves_modify. intros s [H1 H2]. split; [by apply event_alter_ok|exact H2]. Qed.
Lemma update_mutant_wf k m : lock_ok d m -> preserves (wf d) (update_mutant k (fun _ => m)).
Proof. intros Hm. apply preserves_modify. intros s [H1 H2]. split; [exact H1|]. apply mutant_alter_ok; [lia|done..]. Qed.
Lemma world_wf {A} (m : ST W A) : preserves (wf d) (on_handle_world m).
Proof. intros s H. unfold wp, on_handle_world. by destruct (m (handle_world s)). Qed.
Lemma modify_wf (f : handle_state W -> handle_state W) : (forall s, g_windows_handle64_events (f s) = g_windows_handle64_events s) ->
  (forall s, g_windows_handle64_mutants (f s) = g_windows_handle64_mutants s) -> preserves (wf d) (modify f).
Proof.
  intros He Hm. apply preserves_modify. intros s [H1 H2]. split; intros k; [unfold event_at; rewrite He; apply H1|unfold mutant_at; rewrite Hm; apply H2].
Qed.
Lemma update_table_wf t f : preserves (wf d) (update_table t f : ST (handle_state W) unit).
Proof. by apply modify_wf. Qed.

Lemma init_wf : preserves (wf d) windows_handle64_init.
Proof.
  unfold windows_handle64_init. apply preserves_bind; [apply preserves_gets|]. intros b. apply preserves_if; [apply preserves_ret|].
  apply preserves_modify. intros s _. split; intros k.
  - change (signal_ok (default windows_handle64_clear_event (((fun _ => windows_handle64_clear_event) <$> g_windows_handle64_events s) !! k))).
    rewrite list_lookup_fmap. destruct (_ !! k); apply clear_event_ok.
  - change (lock_ok d (default windows_handle64_clear_mutant (((fun _ => windows_handle64_clear_mutant) <$> g_windows_handle64_mutants s) !! k))).
    rewrite list_lookup_fmap. destruct (_ !! k); apply clear_mutant_ok; lia.
Qed.

(** The lemmas of the calls below, tried in turn. *)
Create HintDb handle_wf.
Hint Resolve init_wf world_wf update_table_wf : handle_wf.

Ltac wf_step :=
  match goal with
  | |- preserves _ (match ?x with inl _ => _ | inr _ => _ end) => destruct x
  | |- preserves _ (match ?x with (_, _) => _ end) => destruct x
  | |- preserves _ (modify (fun s => if _ then _ else _)) => apply modify_wf; intros ?; by case_match
  | |- preserves _ (modify _) => apply modify_wf; intros ?; reflexivity
  | |- preserves _ (update_event _ (fun _ => windows_handle64_clear_event)) => apply update_event_wf, clear_event_ok
  | |- preserves _ (update_mutant _ (fun _ => windows_handle64_clear_mutant)) => apply update_mutant_wf, clear_mutant_ok; lia
  | |- preserves _ (update_table _ _) => apply update_table_wf
  | |- _ => preserves_step
  end.
Ltac wf_auto := repeat first [wf_step | solve [auto with handle_wf nocore]].

Lemma table_for_wf p : preserves (wf d) (windows_handle64_table_for_process p).
Proof. unfold windows_handle64_table_for_process. wf_auto. Qed.
Hint Resolve table_for_wf : handle_wf.
Lemma note_denial_wf p r : preserves (wf d) (windows_handle64_note_denial p r).
Proof. unfold windows_handle64_note_denial. wf_auto. Qed.
Lemma note_event_denial_wf r : preserves (wf d) (windows_handle64_note_event_denial r).
Proof. unfold windows_handle64_note_event_denial. wf_auto. Qed.
Lemma note_mutant_denial_wf r : preserves (wf d) (windows_handle64_note_mutant_denial r).
Proof. unfold windows_handle64_note_mutant_denial. wf_auto. Qed.
Lemma note_success_wf h cap : preserves (wf d) (note_success h cap).
Proof. unfold note_success. wf_auto. Qed.
Hint Resolve note_denial_wf note_event_denial_wf note_mutant_denial_wf note_success_wf : handle_wf.
Lemma release_event_wf token : preserves (wf d) (windows_handle64_release_event_if_unreferenced token).
Proof. unfold windows_handle64_release_event_if_unreferenced. wf_auto. Qed.
Lemma release_mutant_wf token : preserves (wf d) (windows_handle64_release_mutant_if_unreferenced token).
Proof. unfold windows_handle64_release_mutant_if_unreferenced. wf_auto. Qed.
Hint Resolve release_event_wf release_mutant_wf : handle_wf.
Lemma release_object_wf ty token : preserves (wf d) (release_object ty token).
Proof. unfold release_object. wf_auto. Qed.
Lemma file_node_wf cap owner ty : preserves (wf d) (is_file_node cap owner ty).
Proof. unfold is_file_node. wf_auto. Qed.
Hint Resolve release_object_wf file_node_wf : handle_wf.
Lemma backing_wf cap owner ty rt : preserves (wf d) (windows_handle64_backing_is_valid cap owner ty rt).
Proof. unfold windows_handle64_backing_is_valid. wf_auto. Qed.
Lemma revoke_wf cap owner ty : preserves (wf d) (windows_handle64_revoke_backing cap owner ty).
Proof. unfold windows_handle64_revoke_backing. wf_auto. Qed.
Lemma routed_wf t h ty required : preserves (wf d) (routed_entry t h ty required).
Proof. unfold routed_entry. wf_auto. Qed.
Hint Resolve backing_wf revoke_wf routed_wf : handle_wf.
Lemma event_for_wf p h required : preserves (wf d) (windows_handle64_event_for_handle p h required).
Proof. unfold windows_handle64_event_for_handle. wf_auto. Qed.
Lemma mutant_for_wf p h required : preserves (wf d) (windows_handle64_mutant_for_handle p h required).
Proof. unfold windows_handle64_mutant_for_handle. wf_auto. Qed.
Lemma install_in_table_wf t cap ty rt fl : preserves (wf d) (windows_handle64_install_in_table t cap ty rt fl).
Proof. unfold windows_handle64_install_in_table. wf_auto. Qed.
Lemma init_process_wf p : preserves (wf d) (windows_handle64_init_process p).
Proof. unfold windows_handle64_init_process, set_context_table. wf_auto. Qed.
Hint Resolve event_for_wf mutant_for_wf install_in_table_wf init_process_wf : handle_wf.
Lemma release_process_wf p : preserves (wf d) (windows_handle64_release_process p).
Proof. unfold windows_handle64_release_process, release_revoke_body, release_clear_body, set_context_table. wf_auto. Qed.
Lemma install_wf p cap ty rt fl : preserves (wf d) (windows_handle64_install p cap ty rt fl).
Proof. unfold windows_handle64_install. wf_auto. Qed.
Lemma duplicate_capability_wf source_pid a b e : preserves (wf d) (duplicate_capability source_pid a b e).
Proof. unfold duplicate_capability. wf_auto. Qed.
Lemma copy_token_wf t h e : preserves (wf d) (copy_token t h e : ST (handle_state W) unit).
Proof. unfold copy_token. wf_auto. Qed.
Hint Resolve duplicate_capability_wf copy_token_wf : handle_wf.
Lemma duplicate_wf source_pid h target_pid fl : preserves (wf d) (windows_handle64_duplicate source_pid h target_pid fl).
Proof. unfold windows_handle64_duplicate. wf_auto. Qed.
Hint Resolve duplicate_wf : handle_wf.
Lemma inherit_wf source_pid target_pid : preserves (wf d) (windows_handle64_inherit source_pid target_pid).
Proof. unfold windows_handle64_inherit, inherit_body. wf_auto. Qed.
Lemma close_wf p h : preserves (wf d) (windows_handle64_close p h).
Proof. unfold windows_handle64_close. wf_auto. Qed.
Hint Resolve close_wf : handle_wf.
Lemma resolve_wf p h : preserves (wf d) (windows_handle64_resolve_pseudo p h).
Proof. unfold windows_handle64_resolve_pseudo. wf_auto. Qed.
Lemma persona_type_wf p : preserves (wf d) (persona64_type (W := W) p).
Proof. unfold persona64_type. wf_auto. Qed.
Lemma table_for_creation_wf p : preserves (wf d) (table_for_creation p).
Proof. unfold table_for_creation. wf_auto. Qed.
Lemma grant_entry_wf t owner ty rt fl p : preserves (wf d) (grant_entry t owner ty rt fl p).
Proof. unfold grant_entry. wf_auto. Qed.
Hint Resolve persona_type_wf table_for_creation_wf grant_entry_wf : handle_wf.
Lemma key_create_wf p key_id rt fl : preserves (wf d) (windows_handle64_key_create p key_id rt fl).
Proof. unfold windows_handle64_key_create. wf_auto. Qed.

Lemma event_create_wf p manual initial fl : preserves (wf d) (windows_handle64_event_create p manual initial fl).
Proof.
  unfold windows_handle64_event_create.
  repeat first [ match goal with |- preserves _ (update_event _ _) => apply update_event_wf, new_event_ok end | wf_step | solve [auto with handle_wf nocore] ].
Qed.

Lemma mutant_create_wf p initial_owner fl : preserves (wf d) (windows_handle64_mutant_create p initial_owner fl).
Proof.
  destruct (Z.eqb_spec p PROCESS64_INVALID_PID) as [Hp|Hp]; unfold windows_handle64_mutant_create.
  - rewrite (proj2 (Z.eqb_eq _ _) Hp). do 3 (apply preserves_bind; [auto with handle_wf nocore; apply preserves_gets|intros ?]). cbn [orb].
    apply preserves_bind; [auto with handle_wf nocore|intros; apply preserves_ret].
  - repeat first [ match goal with |- preserves _ (update_mutant _ _) => by apply update_mutant_wf, new_mutant_ok end | wf_step | solve [auto with handle_wf nocore] ].
Qed.

Lemma key_id_wf p h : preserves (wf d) (windows_handle64_key_id p h).
Proof. unfold windows_handle64_key_id. wf_auto. Qed.
Lemma table_query_wf none f p : preserves (wf d) (table_query none f p).
Proof. unfold table_query. wf_auto. Qed.
Lemma event_query_wf none f p h : preserves (wf d) (event_query none f p h).
Proof. unfold event_query. wf_auto. Qed.
Lemma mutant_query_wf none f p h : preserves (wf d) (mutant_query none f p h).
Proof. unfold mutant_query. wf_auto. Qed.
Lemma query_wf q : preserves (wf d) (run_query q).
Proof. destruct q. 1-9: apply table_query_wf. 1-4: apply event_query_wf. 1-4: apply mutant_query_wf. apply key_id_wf. Qed.

(** Calls that are not on one object. *)
Definition is_sync (c : handle_call) : bool := match c with HSync _ => true | _ => false end.

Lemma call_wf c : is_sync c = false -> preserves (wf d) (run_call c).
Proof.
  destruct c; intros Hc; cbn [run_call]; try done; try (apply preserves_bind; [|intros; apply preserves_ret]).
  - apply init_process_wf.
  - apply release_process_wf.
  - apply install_wf.
  - apply duplicate_wf.
  - apply inherit_wf.
  - apply close_wf.
  - apply resolve_wf.
  - apply key_create_wf.
  - apply event_create_wf.
  - apply mutant_create_wf.
  - apply query_wf.
  - by apply modify_wf.
Qed.
End reach.

(** ** Reached states *)

Section reached.
Context {W : Type} {world : HandleWorld W}.
Implicit Types (s : handle_state W) (o : objects).

(** Zeroed tables; no process has one. *)
Record fresh s : Prop := {
  f_init : g_windows_handle64_initialized s = 0;
  f_tables : length (g_windows_handle64_tables s) = WINDOWS_HANDLE64_MAX_TABLES;
  f_used : length (g_windows_handle64_table_used s) = WINDOWS_HANDLE64_MAX_TABLES;
  f_events : length (g_windows_handle64_events s) = WINDOWS_HANDLE64_MAX_EVENTS;
  f_mutants : length (g_windows_handle64_mutants s) = WINDOWS_HANDLE64_MAX_MUTANTS;
  f_contexts p c : persona_contexts s !! p = Some c -> windows_handle_table c = None
}.

Lemma constant_list {A B} (a : A) (l : list B) n : length l = n -> (fun _ => a) <$> l = replicate n a.
Proof. intros <-. induction l as [|x l IH]; [done|]. cbn. by f_equal. Qed.

Lemma init_inv s : fresh s -> wp windows_handle64_init (fun _ s' => inv s' /\ wf 0 s') s.
Proof.
  intros [F1 F2 F3 F4 F5 F6]. unfold windows_handle64_init. apply wp_bind, wp_gets. rewrite F1. cbn [negb Z.eqb]. apply wp_modify.
  rewrite (constant_list _ _ _ F2), (constant_list _ _ _ F3), (constant_list _ _ _ F4), (constant_list _ _ _ F5).
  match goal with |- inv ?x /\ _ => set (s' := x) end.
  assert (Hc : forall P, count_entries P s' = 0%nat).
  { intros P. destruct (decide (0 < count_entries P s')%nat) as [H|H]; [|lia]. apply sum_zip_pos in H as (t & tb & u & _ & Hu & Hp).
    apply lookup_replicate in Hu as [-> _]. unfold count_used in Hp. cbn in Hp. lia. }
  assert (He : events_of s' = replicate WINDOWS_HANDLE64_MAX_EVENTS false) by reflexivity.
  assert (Hm : mutants_of s' = replicate WINDOWS_HANDLE64_MAX_MUTANTS false) by reflexivity.
  assert (Hn : forall n token, ~ active_at (replicate n false) token) by (intros n token [_ H]; by apply lookup_replicate in H as [? _]).
  split.
  - constructor.
    + constructor; try done. intros p c Hp t Ht. by rewrite (F6 p c Hp) in Ht.
    + apply Forall_replicate, handle_clear_table_ok.
    + constructor; [| |done|done]; intros token _; rewrite Hc, ?He, ?Hm; (split; [lia|by intros ?%Hn]).
  - split; intros k.
    + change (signal_ok (default windows_handle64_clear_event (replicate WINDOWS_HANDLE64_MAX_EVENTS windows_handle64_clear_event !! k))).
      destruct (_ !! k) as [e|] eqn:E; [apply lookup_replicate in E as [-> _]|]; apply clear_event_ok.
    + change (lock_ok 0 (default windows_handle64_clear_mutant (replicate WINDOWS_HANDLE64_MAX_MUTANTS windows_handle64_clear_mutant !! k))).
      destruct (_ !! k) as [e|] eqn:E; [apply lookup_replicate in E as [-> _]|]; apply clear_mutant_ok; done.
Qed.

(** After [n] calls. *)
Definition reached (n : nat) s : Prop := exists s0 cs, fresh s0 /\ length cs = n /\ s = snd ((windows_handle64_init ;;; run_calls cs) s0).

Lemma call_inv_wf c d s : inv s -> wf d s -> 0 <= d < U32_MAX -> wp (run_call c) (fun _ s' => inv s' /\ wf (d + 1) s') s.
Proof.
  intros Hs Hw Hd. destruct (is_sync c) eqn:Ec.
  - destruct c as [| | | | | | | | | |c| |]; try done. cbn [run_call]. apply wp_bind. destruct (run_sync c s) as [r s1] eqn:E.
    unfold wp at 1. rewrite E. cbn [fst snd]. apply wp_ret.
    pose proof (wp_run _ _ _ _ _ E (sync_keeps c s Hs)) as Hs1. split; [done|].
    pose proof (wp_run _ _ _ _ _ E (sync_steps c d s (objects_of s) Hs (wf_represents _ _ Hw) ltac:(lia))) as [_ Hst].
    destruct (target c s) as [k|]; destruct Hst as [_ [H1 H2]]; (split; intros j; [apply H1|apply H2]).
  - split; [by apply handle_call_keeps|]. apply call_wf; [lia|done|]. eapply wf_mono; [|done]. lia.
Qed.

Lemma calls_inv_wf cs : forall d s, inv s -> wf d s -> 0 <= d -> d + Z.of_nat (length cs) <= U32_MAX ->
  wp (run_calls cs) (fun _ s' => inv s' /\ wf (d + Z.of_nat (length cs)) s') s.
Proof.
  induction cs as [|c cs IH]; intros d s Hs Hw Hd Hb; cbn [run_calls]; [apply wp_ret; cbn; by rewrite Z.add_0_r|].
  cbn [length] in *. rewrite Nat2Z.inj_succ in *. apply wp_bind. eapply wp_mono; [apply (call_inv_wf c d s Hs Hw); lia|].
  intros x s1 [Hs1 Hw1]. replace (d + Z.succ (Z.of_nat (length cs))) with (d + 1 + Z.of_nat (length cs)) by lia. apply IH; [done..|lia|lia].
Qed.

Lemma reached_inv n s : reached n s -> inv s.
Proof.
  intros (s0 & cs & Hf & _ & ->). enough (H : wp (windows_handle64_init ;;; run_calls cs) (fun _ s' => inv s') s0) by exact H.
  apply wp_bind. eapply wp_mono; [by apply init_inv|]. intros x s1 [Hs1 _]. by apply calls_keep.
Qed.

Lemma reached_wf n s : reached n s -> Z.of_nat n <= U32_MAX -> wf (Z.of_nat n) s.
Proof.
  intros (s0 & cs & Hf & <- & ->) Hn. enough (H : wp (windows_handle64_init ;;; run_calls cs) (fun _ s' => wf (Z.of_nat (length cs)) s') s0) by exact H.
  apply wp_bind. eapply wp_mono; [by apply init_inv|]. intros x s1 [Hs1 Hw1]. eapply wp_mono; [apply (calls_inv_wf cs 0 s1 Hs1 Hw1); [done|lia]|].
  by intros y s2 [_ H].
Qed.

End reached.

End WindowsReach.
