(* ===== verification/WindowsTheorems.v ===== *)
(** * Windows handles: the theorems

    Tables stay consistent and objects live exactly while they are named;
    closing has the effect it should; events and mutants are signals and
    reentrant locks; an auto-reset event releases no more waits than it was
    set. *)

From S2P Require Import Prelude Principal Services64 Capability Process WindowsHandle WindowsInv WindowsCalls.
From S2P Require Import WindowsObjects WindowsSync WindowsRuns.
Import WindowsHandle WindowsTables WindowsInv WindowsCalls WindowsRelease WindowsObjects WindowsSync WindowsScripts WindowsRuns WindowsReach.
Local Open Scope Z_scope.
Local Open Scope kernel_scope.

Module WindowsTheorems.

(** ** A small kernel to run handles in *)

(** Capabilities with owner and rights, handed out in order. *)
Record caps := mk_caps { next_cap : Z; held : gmap Z (Z * Z) }.

Definition demo_issue (owner rt : Z) (w : caps) : Z * caps := (next_cap w, mk_caps (next_cap w + 1) (<[next_cap w := (owner, rt)]> (held w))).
Definition demo_rights (cap owner : Z) (w : caps) : Z := match held w !! cap with Some (o, rt) => if o =? owner then rt else 0 | None => 0 end.

#[export] Instance demo_handles : HandleWorld caps := {|
  process64_principal p w := if (0 <? p) && (p <? 100) then 1000 + p else 0;
  capability64_owner cap owner w := (match held w !! cap with Some (o, _) => o | None => 0 end, w);
  capability64_rights cap owner w := (demo_rights cap owner w, w);
  capability64_route cap rt owner w := (if (Z.land (demo_rights cap owner w) rt =? rt) then 1 else CAPABILITY64_INVALID_HANDLE, w);
  capability64_revoke cap owner w := (1, mk_caps (next_cap w) (delete cap (held w)));
  capability64_grant_service endpoint rt owner w := demo_issue owner rt w;
  capability64_delegate_persistent cap rt context w := demo_issue (Z.land context 0xFFFF) rt w;
  fs64_handle_is_node _ _ w := (0, w);
  fs64_revoke _ _ w := (1, w);
  persona_audit64_record _ _ _ _ _ w := (1, w)
|}.

(** Zeroed tables and two processes of the Windows persona. *)
Definition zero_entry : handle_entry := mk_entry 0 0 0 0 0 0 0.
Definition demo_fresh : handle_state caps :=
  mk_handles (replicate 16 (mk_table 0 0 0 0 0 (replicate 256 zero_entry))) (replicate 16 0) (replicate 32 (mk_event 0 0 0 0 0 0 0 0))
    (replicate 32 (mk_mutant 0 0 0 0 0 0 0 0)) 0 0 0 0 0 0 0 0 0 0 0 0 0 0 0 0 0 0 0 0 0 0 0 0 0
    (<[1 := mk_persona PERSONA64_TYPE_WINDOWS_PE None]> (<[2 := mk_persona PERSONA64_TYPE_WINDOWS_PE None]> ∅)) (mk_caps 0x100 ∅).

Lemma demo_fresh_fresh : fresh demo_fresh.
Proof.
  constructor; try reflexivity. intros p c H. change (persona_contexts demo_fresh) with
    (<[1 := mk_persona PERSONA64_TYPE_WINDOWS_PE None]> (<[2 := mk_persona PERSONA64_TYPE_WINDOWS_PE None]> (∅ : gmap Z persona_view))) in H.
  apply lookup_insert_Some in H as [[_ <-]|[_ H]]; [done|]. apply lookup_insert_Some in H as [[_ <-]|[_ H]]; [done|]. by rewrite lookup_empty in H.
Qed.

(** Process 1 makes a mutant it owns and an auto-reset event and gives
    process 2 duplicates of both; handles are 0x40 and 0x44 in both. *)
Definition demo_calls : list handle_call :=
  [HMutantCreate 1 1 0; HEventCreate 1 0 0 0; HInitProcess 2; HDuplicate 1 0x40 2 0; HDuplicate 1 0x44 2 0].
Definition demo_state : handle_state caps := snd ((windows_handle64_init ;;; run_calls demo_calls) demo_fresh).

Lemma demo_state_reached : reached 5 demo_state.
Proof. exists demo_fresh, demo_calls. split_and!; [apply demo_fresh_fresh|done|done]. Qed.

Example demo_live : fst (windows_handle64_live_count 1 demo_state) = 2 /\ fst (windows_handle64_live_count 2 demo_state) = 2.
Proof. by vm_compute. Qed.

(** ** Tables and objects *)

Section theorems.
Context {W : Type} {world : HandleWorld W}.
Implicit Types (s : handle_state W) (o : objects) (tb : handle_table).

(** Some entry in use names the object. *)
Definition is_named (ty token : Z) s : Prop :=
  exists t tb i e, attached t tb s /\ entries tb !! i = Some e /\ names ty token e = true.

Lemma named_count ty token s : is_named ty token s <-> (0 < count_entries (names ty token) s)%nat.
Proof.
  split.
  - intros (t & tb & i & e & Ht & Hi & He). pose proof (count_ge (names ty token) t tb s Ht). pose proof (count_if_pos _ _ _ _ Hi He). lia.
  - intros (t & tb & u & Ht & Hu & Hp)%sum_zip_pos. unfold count_used in Hp. destruct (Z.eqb_spec u 0) as [_|Hu0]; [lia|].
    unfold count_if in Hp. destruct (List.filter (names ty token) (entries tb)) as [|e l] eqn:Ef; [cbn in Hp; lia|].
    assert (Hin : List.In e (List.filter (names ty token) (entries tb))) by (rewrite Ef; by left). apply List.filter_In in Hin as [Hin He].
    apply list_elem_of_In, list_elem_of_lookup in Hin as [i Hi]. exists t, tb, i, e. split_and!; try done. split; [done|by exists u].
Qed.

Lemma named_event k s : inv s -> event_active (event_at s k) = true <-> is_named WINDOWS_HANDLE64_TYPE_EVENT (Z.of_nat k + 1) s.
Proof. intros Hs. rewrite named_count, <- event_at_active, <- active_at_token. symmetry. apply (i_events _ (i_objects _ Hs)). lia. Qed.
Lemma named_mutant k s : inv s -> mutant_active (mutant_at s k) = true <-> is_named WINDOWS_HANDLE64_TYPE_MUTANT (Z.of_nat k + 1) s.
Proof. intros Hs. rewrite named_count, <- mutant_at_active, <- active_at_token. symmetry. apply (i_mutants _ (i_objects _ Hs)). lia. Qed.

(** C13: After any sequence of calls of windows_handle.c from zeroed tables, persona changes included, every table
    is consistent: its live count is exact, an entry of slot [i] has the handle of that slot, the reference count of
    an entry is the number of its aliases in the table, and free entries are clear; a table belongs to one process;
    an event or mutant is active exactly when some entry names it, so that no handle dangles and no object leaks;
    and every object is the record of a signal or a lock with at most one waiter. *)
Theorem handle_calls_keep_tables s cs : fresh s -> Z.of_nat (length cs) <= U32_MAX ->
  wp (windows_handle64_init ;;; run_calls cs)
    (fun _ s' => inv s' /\ wf (Z.of_nat (length cs)) s'
       /\ (forall k, event_active (event_at s' k) = true <-> is_named WINDOWS_HANDLE64_TYPE_EVENT (Z.of_nat k + 1) s')
       /\ (forall k, mutant_active (mutant_at s' k) = true <-> is_named WINDOWS_HANDLE64_TYPE_MUTANT (Z.of_nat k + 1) s')) s.
Proof.
  intros Hf Hn. assert (Hr : reached (length cs) (snd ((windows_handle64_init ;;; run_calls cs) s))) by (by exists s, cs).
  pose proof (reached_inv _ _ Hr) as Hs. split_and!; [done|by apply reached_wf|intros k; by apply named_event|intros k; by apply named_mutant].
Qed.

(** ** Closing *)

(** The objects after an entry is gone: the one it was the last to name is
    destroyed. *)
Definition last_name (ty : Z) (k : nat) (e : handle_entry) s : bool :=
  names ty (Z.of_nat k + 1) e && (count_entries (names ty (Z.of_nat k + 1)) s =? 1)%nat.

Lemma closed_event t i tb e s s' k : inv s -> inv s' -> closed t i tb e s s' ->
  event_at s' k = if last_name WINDOWS_HANDLE64_TYPE_EVENT k e s then windows_handle64_clear_event else event_at s k.
Proof.
  intros Hs Hs' Hc. pose proof (c_counts _ _ _ _ _ _ Hc WINDOWS_HANDLE64_TYPE_EVENT (Z.of_nat k + 1)) as Hn.
  pose proof (named_event k s' Hs') as H'. pose proof (named_event k s Hs) as H. rewrite named_count in H, H'. unfold last_name.
  destruct (c_objects _ _ _ _ _ _ Hc) as [Hev _]. destruct (Hev k) as [Heq|[Heq Hact]].
  - rewrite Heq in *. destruct (names _ _ e) eqn:En; cbn [andb Nat.b2n] in *; [|done].
    destruct (Nat.eqb_spec (count_entries (names WINDOWS_HANDLE64_TYPE_EVENT (Z.of_nat k + 1)) s) 1) as [E1|E1]; [|done].
    exfalso. assert (event_active (event_at s k) = true) as Ha by (apply H; lia). apply H' in Ha. lia.
  - rewrite Heq in *. apply H in Hact. assert (Hz : ~ (0 < count_entries (names WINDOWS_HANDLE64_TYPE_EVENT (Z.of_nat k + 1)) s')%nat) by (by intros ?%H').
    destruct (names _ _ e) eqn:En; cbn [andb Nat.b2n] in *; [|lia]. by rewrite (proj2 (Nat.eqb_eq _ 1)) by lia.
Qed.

Lemma closed_mutant t i tb e s s' k : inv s -> inv s' -> closed t i tb e s s' ->
  mutant_at s' k = if last_name WINDOWS_HANDLE64_TYPE_MUTANT k e s then windows_handle64_clear_mutant else mutant_at s k.
Proof.
  intros Hs Hs' Hc. pose proof (c_counts _ _ _ _ _ _ Hc WINDOWS_HANDLE64_TYPE_MUTANT (Z.of_nat k + 1)) as Hn.
  pose proof (named_mutant k s' Hs') as H'. pose proof (named_mutant k s Hs) as H. rewrite named_count in H, H'. unfold last_name.
  destruct (c_objects _ _ _ _ _ _ Hc) as [_ Hmu]. destruct (Hmu k) as [Heq|[Heq Hact]].
  - rewrite Heq in *. destruct (names _ _ e) eqn:En; cbn [andb Nat.b2n] in *; [|done].
    destruct (Nat.eqb_spec (count_entries (names WINDOWS_HANDLE64_TYPE_MUTANT (Z.of_nat k + 1)) s) 1) as [E1|E1]; [|done].
    exfalso. assert (mutant_active (mutant_at s k) = true) as Ha by (apply H; lia). apply H' in Ha. lia.
  - rewrite Heq in *. apply H in Hact. assert (Hz : ~ (0 < count_entries (names WINDOWS_HANDLE64_TYPE_MUTANT (Z.of_nat k + 1)) s')%nat) by (by intros ?%H').
    destruct (names _ _ e) eqn:En; cbn [andb Nat.b2n] in *; [|lia]. by rewrite (proj2 (Nat.eqb_eq _ 1)) by lia.
Qed.

(** What a close leaves behind, all slots, objects, contexts and the rest of
    the kernel. *)
Record close_effect (t i : nat) tb (e : handle_entry) s s' : Prop := {
  ce_slots t' j : naming <$> slot s' t' j = if decide (t' = t /\ j = i) then Some (naming windows_handle64_clear_entry) else naming <$> slot s t' j;
  ce_events k : event_at s' k = if last_name WINDOWS_HANDLE64_TYPE_EVENT k e s then windows_handle64_clear_event else event_at s k;
  ce_mutants k : mutant_at s' k = if last_name WINDOWS_HANDLE64_TYPE_MUTANT k e s then windows_handle64_clear_mutant else mutant_at s k;
  ce_contexts : persona_contexts s' = persona_contexts s;
  ce_world : handle_world s' =
    (if 1 <? windows_handle64_global_shared_entry_count (capability_handle e) (object_type e) s then handle_world s
     else backing_revoked (capability_handle e) (owner_id tb) (object_type e) (handle_world s))
}.

(** C15: Closing succeeds exactly for a handle of the table of the process that is not protected and not a pseudo
    handle. Then its slot alone is cleared, up to reference counts; the event or mutant it named is destroyed exactly
    when it was its last name; and the capability behind it is revoked exactly when no entry of any table shares it.
    A refused close changes counters only. *)
Theorem handle_close_outcome n p h s : reached n s ->
  wp (windows_handle64_close p h)
    (fun r s' => inv s' /\ if r : bool then exists t i tb e, closable p h s t i tb e /\ close_effect t i tb e s s'
                           else same s s' /\ forall t i tb e, ~ closable p h s t i tb e) s.
Proof.
  intros Hr. pose proof (reached_inv _ _ Hr) as Hs. eapply wp_mono; [by apply wp_close|]. intros [] s' [Hs' H]; (split; [done|]); [|done].
  destruct H as (t & i & tb & e & Hcl & Hc). exists t, i, tb, e. split; [done|].
  constructor; [apply Hc| | |apply Hc|apply Hc]; intros k; [by eapply closed_event|by eapply closed_mutant].
Qed.

(** ** Signals and locks *)

(** C14: Over any script of set, wait, release, arm and cancel calls by any processes through any handles, fewer than
    2^32 calls since boot, events are signals and mutants are reentrant locks with one waiter: every result and the
    final objects are those of the specification, run on the objects the handles named. Tables, contexts and the
    other objects are left alone. *)
Theorem sync_calls_refine_objects n s cs : reached n s -> Z.of_nat n + Z.of_nat (length cs) <= U32_MAX ->
  wp (run_script cs) (fun r s' => (fst <$> fst r) = cs /\ snd r = fst (spec_run (fst r) (objects_of s))
    /\ represents (Z.of_nat n + Z.of_nat (length cs)) s' (snd (spec_run (fst r) (objects_of s))) /\ inv s' /\ handles_kept s s') s.
Proof.
  intros Hr Hn. eapply wp_mono; [apply (script_steps cs (Z.of_nat n) s (objects_of s)); [by eapply reached_inv| |done]|].
  - apply wf_represents, reached_wf; [done|lia].
  - by intros r s' (? & ? & ? & ? & ?).
Qed.

(** *** Counting releases *)

(** Waits the result of a call lets through event [k]. *)
Definition released_by (k : nat) (x : sync_call * option nat) (r : sync_result) : nat :=
  match x, r with
  | (EventWait _ _, Some j), RWait w => if decide (j = k) then Nat.b2n (w =? WINDOWS_HANDLE64_EVENT_WAIT_SIGNALED) else 0%nat
  | (EventSet _ _, Some j), RSet (Some (_, task)) => if decide (j = k) then Nat.b2n (negb (task =? SCHEDULER64_INVALID_TASK)) else 0%nat
  | _, _ => 0%nat
  end.
Definition releases (k : nat) (l : list (sync_call * option nat)) (rs : list sync_result) : nat := sum_list (zip_with (released_by k) l rs).
Definition sets_event (k : nat) (x : sync_call * option nat) : bool := match x with (EventSet _ _, Some j) => bool_decide (j = k) | _ => false end.

Lemma released_other k c j r : j <> k -> released_by k (c, Some j) r = 0%nat /\ sets_event k (c, Some j) = false.
Proof. intros H. split; [|destruct c; try done; by apply bool_decide_false]. destruct c, r; try done; cbn; [destruct r as [[]|]|]; by rewrite ?decide_False. Qed.

Lemma call_other k c j o : j <> k -> signals (snd (spec_call c j o)) k = signals o k.
Proof. intros H. destruct c; try done; cbn; unfold put; by rewrite decide_False. Qed.

Lemma call_counted k c j o : manual (signals o k) = false ->
  manual (signals (snd (spec_call c j o)) k) = false
  /\ (released_by k (c, Some j) (fst (spec_call c j o)) + Nat.b2n (is_set (signals (snd (spec_call c j o)) k))
      <= Nat.b2n (is_set (signals o k)) + Nat.b2n (sets_event k (c, Some j)))%nat.
Proof.
  intros Hm. destruct (decide (j = k)) as [->|Hne].
  2: { rewrite call_other by done. destruct (released_other k c j (fst (spec_call c j o)) Hne) as [-> ->]. split; [done|cbn; lia]. }
  destruct c; cbn [spec_call with_signal with_lock fst snd signals released_by sets_event]; try (split; [done|cbn; lia]);
    unfold put; rewrite ?decide_True, ?bool_decide_true by done.
  - unfold signal_set. destruct (awaited (signals o k)) as [[r task]|]; cbn [fst snd manual is_set].
    + rewrite Hm. split; [done|]. rewrite decide_True by done. destruct (negb _); cbn; lia.
    + split; [done|]. rewrite decide_True by done. rewrite Z.eqb_refl. cbn. lia.
  - unfold signal_wait. destruct (is_set (signals o k)) eqn:E; cbn [fst snd]; (split; [by cbn; rewrite ?Hm|]).
    + cbn. rewrite Hm. change (WINDOWS_HANDLE64_EVENT_WAIT_SIGNALED =? WINDOWS_HANDLE64_EVENT_WAIT_SIGNALED) with true. cbn. lia.
    + rewrite E. change (WINDOWS_HANDLE64_EVENT_WAIT_TIMEOUT =? WINDOWS_HANDLE64_EVENT_WAIT_SIGNALED) with false. cbn. lia.
  - unfold signal_arm. destruct (awaited (signals o k)); cbn; [rewrite Hm; split; [done|lia]|]. destruct (_ || _); cbn; rewrite Hm; (split; [done|lia]).
  - unfold signal_cancel. destruct (awaited (signals o k)) as [[r t]|]; cbn; [|rewrite Hm; split; [done|lia]].
    destruct (_ && _); cbn; rewrite Hm; (split; [done|lia]).
Qed.

Lemma count_if_cons {A} (P : A -> bool) x l : count_if P (x :: l) = (Nat.b2n (P x) + count_if P l)%nat.
Proof. unfold count_if. cbn. by destruct (P x). Qed.

Lemma run_counted k l : forall o, manual (signals o k) = false ->
  (releases k l (fst (spec_run l o)) + Nat.b2n (is_set (signals (snd (spec_run l o)) k))
   <= Nat.b2n (is_set (signals o k)) + count_if (sets_event k) l)%nat.
Proof.
  induction l as [|[c [j|]] l IH]; intros o Hm; [cbn; lia|..]; cbn [spec_run]; rewrite count_if_cons.
  - destruct (call_counted k c j o Hm) as [Hm1 Hc]. destruct (spec_call c j o) as [r o1]; cbn [fst snd] in *.
    specialize (IH o1 Hm1). destruct (spec_run l o1) as [rs o2]; cbn [fst snd] in *.
    change (releases k ((c, Some j) :: l) (r :: rs)) with (released_by k (c, Some j) r + releases k l rs)%nat. lia.
  - specialize (IH o Hm). destruct (spec_run l o) as [rs o2]; cbn [fst snd] in *.
    change (releases k ((c, None) :: l) (spec_denied c :: rs)) with (released_by k (c, None) (spec_denied c) + releases k l rs)%nat.
    replace (released_by k (c, None) (spec_denied c)) with 0%nat by (by destruct c). replace (sets_event k (c, None)) with false by (by destruct c).
    cbn [Nat.b2n]. lia.
Qed.

(** C16: However set, wait, arm and cancel calls by any processes interleave, an auto-reset event lets through at most
    one wait for each time it was set, waiters that a set wakes included, plus one when it was set to begin with and
    less one when it is left set. *)
Theorem event_releases_bounded n s cs k : reached n s -> Z.of_nat n + Z.of_nat (length cs) <= U32_MAX -> manual_reset (event_at s k) = 0 ->
  wp (run_script cs) (fun r s' => (releases k (fst r) (snd r) + Nat.b2n (nz (signaled (event_at s' k)))
    <= Nat.b2n (nz (signaled (event_at s k))) + count_if (sets_event k) (fst r))%nat) s.
Proof.
  intros Hr Hn Hm. eapply wp_mono; [apply (script_steps cs (Z.of_nat n) s (objects_of s)); [by eapply reached_inv| |done]|].
  - apply wf_represents, reached_wf; [done|lia].
  - intros [l rs] s' (_ & _ & _ & Hrs & [Hev _]). cbn [fst snd] in *. subst rs.
    assert (Hk : manual (signals (objects_of s) k) = false) by (cbn; by rewrite Hm).
    pose proof (run_counted k l (objects_of s) Hk) as H. destruct (Hev k) as [_ Hs]. by rewrite Hs in H.
Qed.

End theorems.

(** ** Witnesses *)

Lemma handle_calls_keep_tables_witness : fresh demo_fresh /\ Z.of_nat (length demo_calls) <= U32_MAX
  /\ inv (snd ((windows_handle64_init ;;; run_calls demo_calls) demo_fresh)).
Proof.
  assert (Hn : Z.of_nat (length demo_calls) <= U32_MAX) by (cbn; unfold U32_MAX; lia).
  pose proof (handle_calls_keep_tables demo_fresh demo_calls demo_fresh_fresh Hn) as H. unfold wp in H. destruct H as [H _].
  split_and!; [exact demo_fresh_fresh|exact Hn|exact H].
Defined.

(** Closing the creator's handle of the mutant leaves it to process 2; its
    own capability goes, as no entry shares it. *)
Lemma handle_close_outcome_witness :
  reached 5 demo_state /\ fst (windows_handle64_close 1 0x40 demo_state) = true
  /\ inv (snd (windows_handle64_close 1 0x40 demo_state)) /\ m_active (mutant_at (snd (windows_handle64_close 1 0x40 demo_state)) 0) = 1.
Proof.
  pose proof (handle_close_outcome 5 1 0x40 demo_state demo_state_reached) as H. unfold wp in H. destruct H as [H _].
  split_and!; [exact demo_state_reached|vm_compute; reflexivity|exact H|vm_compute; reflexivity].
Defined.

(** Process 2 waits for the mutant process 1 holds and gets it on release;
    process 1 then waits for the event, which process 2 sets. *)
Definition demo_script : list sync_call :=
  [MutantWait 2 0x40; MutantArm 2 0x40 7; MutantWait 1 0x40; MutantRelease 1 0x40; MutantRelease 1 0x40; MutantRelease 1 0x40;
   EventWait 1 0x44; EventArm 1 0x44 3; EventSet 2 0x44; EventSet 2 0x44; EventWait 1 0x44].

Lemma sync_calls_refine_objects_witness :
  reached 5 demo_state
  /\ snd (fst (run_script demo_script demo_state)) =
       [RWait 2; RDone true; RWait 1; RRelease (0, Some 2, SCHEDULER64_INVALID_TASK); RRelease (0, Some 1, 7);
        RRelease (WINDOWS_ABI64_STATUS_MUTANT_NOT_OWNED, None, SCHEDULER64_INVALID_TASK);
        RWait 2; RDone true; RSet (Some (0, 3)); RSet (Some (0, SCHEDULER64_INVALID_TASK)); RWait 1]
  /\ snd (fst (run_script demo_script demo_state)) = fst (spec_run (fst (fst (run_script demo_script demo_state))) (objects_of demo_state)).
Proof.
  assert (Hn : Z.of_nat 5 + Z.of_nat (length demo_script) <= U32_MAX) by (cbn; unfold U32_MAX; lia).
  pose proof (sync_calls_refine_objects 5 demo_state demo_script demo_state_reached Hn) as H. unfold wp in H. destruct H as (_ & H & _).
  split_and!; [exact demo_state_reached|vm_compute; reflexivity|exact H].
Defined.

Lemma event_releases_bounded_witness :
  reached 5 demo_state /\ manual_reset (event_at demo_state 0) = 0
  /\ (releases 0 (fst (fst (run_script demo_script demo_state))) (snd (fst (run_script demo_script demo_state)))
      + Nat.b2n (nz (signaled (event_at (snd (run_script demo_script demo_state)) 0)))
      <= Nat.b2n (nz (signaled (event_at demo_state 0))) + count_if (sets_event 0) (fst (fst (run_script demo_script demo_state))))%nat.
Proof.
  assert (Hn : Z.of_nat 5 + Z.of_nat (length demo_script) <= U32_MAX) by (cbn; unfold U32_MAX; lia).
  assert (Hm : manual_reset (event_at demo_state 0) = 0) by (vm_compute; reflexivity).
  pose proof (event_releases_bounded 5 demo_state demo_script 0 demo_state_reached Hn Hm) as H. unfold wp in H.
  split_and!; [exact demo_state_reached|exact Hm|exact H].
Defined.

Example demo_script_releases : releases 0 (fst (fst (run_script demo_script demo_state))) (snd (fst (run_script demo_script demo_state))) = 2%nat.
Proof. by vm_compute. Qed.

(** The mutant of a process whose table is released stays owned by it: the
    other process waits in vain. *)
Example released_owner_keeps_mutant :
  let s := snd (windows_handle64_release_process 1 demo_state) in
  fst (windows_handle64_mutant_wait 2 0x40 s) = WINDOWS_HANDLE64_MUTANT_WAIT_TIMEOUT /\ owner_pid (mutant_at s 0) = 1
  /\ persona_contexts s !! 1 = Some (mk_persona PERSONA64_TYPE_WINDOWS_PE None).
Proof. split_and!; vm_compute; reflexivity. Qed.

(** A waiter whose table is released still gets the mutant. *)
Example released_waiter_gets_mutant :
  let s := snd ((windows_handle64_mutant_arm_wait 2 0x40 7 ;;; windows_handle64_release_process 2 ;;; windows_handle64_mutant_release 1 0x40) demo_state) in
  owner_pid (mutant_at s 0) = 2 /\ fst (windows_handle64_mutant_wait 1 0x40 s) = WINDOWS_HANDLE64_MUTANT_WAIT_TIMEOUT.
Proof. split_and!; vm_compute; reflexivity. Qed.

End WindowsTheorems.
