(* ===== verification/WindowsRegistry.v ===== *)
(** * The Windows registry: kernel/arch/x86_64/windows_registry.c

    Three fixed keys, four keys programs can create, and five values; open
    and create give key handles of windows_handle.c, whose model this one
    contains.  Pointer arguments are not null, a path or name is the list of
    the bytes it points to. *)

From Stdlib Require Import String.
From S2P Require Import Prelude Principal Services64 Capability Process WindowsHandle.
Import WindowsHandle.
Local Open Scope Z_scope.
Local Open Scope kernel_scope.

Module WindowsRegistry.

Definition WINDOWS_REGISTRY64_MAX_PATH_BYTES : nat := 192.
Definition WINDOWS_REGISTRY64_MAX_VALUE_NAME_BYTES : nat := 64.
Definition WINDOWS_REGISTRY64_DYNAMIC_KEY_LIMIT : nat := 4.
Definition WINDOWS_REGISTRY64_KEY_NONE : Z := 0.
Definition WINDOWS_REGISTRY64_KEY_CODEPAGE : Z := 1.
Definition WINDOWS_REGISTRY64_KEY_CURRENT_VERSION : Z := 2.
Definition WINDOWS_REGISTRY64_KEY_ENVIRONMENT : Z := 3.
Definition WINDOWS_REGISTRY64_KEY_DYNAMIC_BASE : Z := 16.
Definition WINDOWS_REGISTRY64_VALUE_INFORMATION_PARTIAL : Z := 2.
Definition WINDOWS_REGISTRY64_REG_SZ : Z := 1.
Definition WINDOWS_REGISTRY64_DISPOSITION_OPENED : Z := 1.
Definition WINDOWS_REGISTRY64_DISPOSITION_CREATED : Z := 2.
Definition WINDOWS_ABI64_STATUS_INVALID_INFO_CLASS : Z := 0xC0000003.
Definition WINDOWS_ABI64_STATUS_OBJECT_NAME_NOT_FOUND : Z := 0xC0000034.

(** A C string is the list of its bytes before the zero. *)
Record registry_value := mk_value { v_key_id : Z; v_name : list Z; v_data : list Z }.

Record dynamic_key := mk_dynamic { k_active : Z; k_key_id : Z; k_path_bytes : Z; k_path : list Z }.
#[export] Instance eta_dynamic_key : Eta dynamic_key := {| eta k := mk_dynamic (k_active k) (k_key_id k) (k_path_bytes k) (k_path k) |}.

Definition g_windows_registry64_codepage_path : list Z := Process.bytes_of "\Registry\Machine\SYSTEM\CurrentControlSet\Control\Nls\CodePage".
Definition g_windows_registry64_current_version_path : list Z := Process.bytes_of "\Registry\Machine\SOFTWARE\Microsoft\Windows NT\CurrentVersion".
Definition g_windows_registry64_environment_path : list Z := Process.bytes_of "\Registry\Machine\SYSTEM\CurrentControlSet\Control\Session Manager\Environment".

Definition g_windows_registry64_values : list registry_value :=
  [mk_value WINDOWS_REGISTRY64_KEY_CODEPAGE (Process.bytes_of "ACP") (Process.bytes_of "1252");
   mk_value WINDOWS_REGISTRY64_KEY_CURRENT_VERSION (Process.bytes_of "CurrentVersion") (Process.bytes_of "10.0");
   mk_value WINDOWS_REGISTRY64_KEY_CURRENT_VERSION (Process.bytes_of "BuildLabEx") (Process.bytes_of "LimitlessOS-M21");
   mk_value WINDOWS_REGISTRY64_KEY_ENVIRONMENT (Process.bytes_of "SystemRoot") (Process.bytes_of "C:\Windows");
   mk_value WINDOWS_REGISTRY64_KEY_ENVIRONMENT (Process.bytes_of "Path") (Process.bytes_of "C:\Windows\System32;C:\Windows")].

Record open_result := mk_open { r_handle : Z; r_status : Z; r_key_id : Z; r_path_hash : Z; r_path_bytes : Z; r_created : Z; r_disposition : Z }.
Record value_result := mk_result {
  q_status : Z; q_key_id : Z; q_value_type : Z; q_data_bytes : Z; q_required_bytes : Z; q_value_hash : Z; q_data_hash : Z; q_data : option (list Z) }.

Record registry_state (W : Type) := mk_registry {
  g_windows_registry64_dynamic_keys : list dynamic_key;
  g_windows_registry64_open_count : Z;
  g_windows_registry64_create_count : Z;
  g_windows_registry64_query_count : Z;
  g_windows_registry64_denial_count : Z;
  g_windows_registry64_last_status : Z;
  g_windows_registry64_last_key_id : Z;
  g_windows_registry64_last_path_hash : Z;
  g_windows_registry64_last_value_hash : Z;
  g_windows_registry64_last_data_hash : Z;
  g_windows_registry64_last_required_bytes : Z;
  registry_handles : handle_state W }.
Arguments mk_registry {W}.
Arguments g_windows_registry64_dynamic_keys {W}.
Arguments g_windows_registry64_open_count {W}.
Arguments g_windows_registry64_create_count {W}.
Arguments g_windows_registry64_query_count {W}.
Arguments g_windows_registry64_denial_count {W}.
Arguments g_windows_registry64_last_status {W}.
Arguments g_windows_registry64_last_key_id {W}.
Arguments g_windows_registry64_last_path_hash {W}.
Arguments g_windows_registry64_last_value_hash {W}.
Arguments g_windows_registry64_last_data_hash {W}.
Arguments g_windows_registry64_last_required_bytes {W}.
Arguments registry_handles {W}.

#[export] Instance eta_registry_state W : Eta (registry_state W) := {| eta s :=
  mk_registry (g_windows_registry64_dynamic_keys s) (g_windows_registry64_open_count s) (g_windows_registry64_create_count s)
    (g_windows_registry64_query_count s) (g_windows_registry64_denial_count s) (g_windows_registry64_last_status s)
    (g_windows_registry64_last_key_id s) (g_windows_registry64_last_path_hash s) (g_windows_registry64_last_value_hash s)
    (g_windows_registry64_last_data_hash s) (g_windows_registry64_last_required_bytes s) (registry_handles s) |}.

(** ** Names *)

Definition windows_registry64_lower (value : Z) : Z := if (65 <=? value) && (value <=? 90) then value + 32 else value.

(** Case and the kind of slash do not count. *)
Definition folded (value : Z) : Z := let v := windows_registry64_lower value in if v =? 47 then 92 else v.

Definition windows_registry64_hash (data : list Z) : Z := foldl (fun hash b => mul32 (Z.lxor hash (folded b)) 16777619) 2166136261 data.

Fixpoint windows_registry64_equals (left right : list Z) : bool :=
  match left, right with
  | [], [] => true
  | a :: left', b :: right' => (folded a =? folded b) && windows_registry64_equals left' right'
  | _, _ => false
  end.

Definition windows_registry64_path_matches (path known_path : list Z) : bool := windows_registry64_equals path known_path.

Definition key_path (k : dynamic_key) : list Z := take (Z.to_nat (k_path_bytes k)) (k_path k).

Definition path_refused (path : list Z) : bool := (length path =? 0)%nat || (WINDOWS_REGISTRY64_MAX_PATH_BYTES <? length path)%nat.

Section registry.
Context {W : Type} {world : HandleWorld W}.

Abbreviation RM := (ST (registry_state W)).

Definition on_handles {A} (m : ST (handle_state W) A) : RM A :=
  fun s => let (a, h) := m (registry_handles s) in (a, s <| registry_handles := h |>).

Definition windows_registry64_find_key (path : list Z) (s : registry_state W) : Z :=
  if path_refused path then WINDOWS_REGISTRY64_KEY_NONE
  else if windows_registry64_path_matches path g_windows_registry64_codepage_path then WINDOWS_REGISTRY64_KEY_CODEPAGE
  else if windows_registry64_path_matches path g_windows_registry64_current_version_path then WINDOWS_REGISTRY64_KEY_CURRENT_VERSION
  else if windows_registry64_path_matches path g_windows_registry64_environment_path then WINDOWS_REGISTRY64_KEY_ENVIRONMENT
  else
    match find_index (fun k => nz (k_active k) && windows_registry64_equals path (key_path k)) (g_windows_registry64_dynamic_keys s) with
    | Some i => match g_windows_registry64_dynamic_keys s !! i with Some k => k_key_id k | None => WINDOWS_REGISTRY64_KEY_NONE end
    | None => WINDOWS_REGISTRY64_KEY_NONE
    end.

Definition windows_registry64_create_dynamic_key (path : list Z) : RM Z :=
  if path_refused path then ret WINDOWS_REGISTRY64_KEY_NONE
  else
    free <- gets (fun s => find_index (fun k => k_active k =? 0) (g_windows_registry64_dynamic_keys s)) ;;
    match free with
    | None => ret WINDOWS_REGISTRY64_KEY_NONE
    | Some i =>
        let key_id := WINDOWS_REGISTRY64_KEY_DYNAMIC_BASE + Z.of_nat i in
        modify (fun s => s <| g_windows_registry64_dynamic_keys :=
          alter (fun k => mk_dynamic 1 key_id (Z.of_nat (length path)) (path ++ drop (length path) (k_path k))) i (g_windows_registry64_dynamic_keys s) |>) ;;;
        ret key_id
    end.

Definition windows_registry64_clear_open_result : open_result := mk_open WINDOWS_HANDLE64_INVALID WINDOWS_ABI64_STATUS_SUCCESS WINDOWS_REGISTRY64_KEY_NONE 0 0 0 0.
Definition windows_registry64_clear_value_result : value_result := mk_result WINDOWS_ABI64_STATUS_SUCCESS WINDOWS_REGISTRY64_KEY_NONE 0 0 0 0 0 None.

Definition windows_registry64_record_denial (status : Z) : RM Z :=
  modify (fun s => s <| g_windows_registry64_denial_count := inc32 (g_windows_registry64_denial_count s) |> <| g_windows_registry64_last_status := status |>) ;;;
  ret status.

Definition windows_registry64_validate_process (p : Z) : RM bool :=
  owner <- gets (fun s => principal_of p (registry_handles s)) ;;
  ty <- on_handles (persona64_type p) ;;
  ret (negb (p =? PROCESS64_INVALID_PID) && negb (owner =? 0) && (ty =? PERSONA64_TYPE_WINDOWS_PE)).

Definition windows_registry64_init : RM unit :=
  modify (fun s => mk_registry
    (imap (fun i k => mk_dynamic 0 (WINDOWS_REGISTRY64_KEY_DYNAMIC_BASE + Z.of_nat i) 0 (replicate WINDOWS_REGISTRY64_MAX_PATH_BYTES 0)) (g_windows_registry64_dynamic_keys s))
    0 0 0 0 WINDOWS_ABI64_STATUS_SUCCESS WINDOWS_REGISTRY64_KEY_NONE 0 0 0 0 (registry_handles s)).

(** A refusal that says which path was asked for. *)
Definition open_denied (path : list Z) (status : Z) : RM (Z * open_result) :=
  hash <- gets g_windows_registry64_last_path_hash ;;
  windows_registry64_record_denial status ;;;
  ret (status, mk_open WINDOWS_HANDLE64_INVALID status WINDOWS_REGISTRY64_KEY_NONE hash (Z.of_nat (length path)) 0 0).

(** Both calls start alike; [None] when the arguments are refused. *)
Definition open_begin (p : Z) (path : list Z) : RM bool :=
  modify (fun s => s <| g_windows_registry64_last_path_hash := windows_registry64_hash path |> <| g_windows_registry64_last_key_id := WINDOWS_REGISTRY64_KEY_NONE |>) ;;;
  valid <- windows_registry64_validate_process p ;;
  ret (valid && negb (path_refused path)).

Definition windows_registry64_open_key (p : Z) (path : list Z) (desired_access : Z) : RM (Z * open_result) :=
  fine <- open_begin p path ;;
  if negb fine then
    windows_registry64_record_denial WINDOWS_ABI64_STATUS_INVALID_PARAMETER ;;;
    ret (WINDOWS_ABI64_STATUS_INVALID_PARAMETER, windows_registry64_clear_open_result)
  else
    key_id <- gets (windows_registry64_find_key path) ;;
    if key_id =? WINDOWS_REGISTRY64_KEY_NONE then open_denied path WINDOWS_ABI64_STATUS_OBJECT_NAME_NOT_FOUND
    else
      h <- on_handles (windows_handle64_key_create p key_id CAPABILITY64_RIGHT_QUERY 0) ;;
      if h =? WINDOWS_HANDLE64_INVALID then open_denied path WINDOWS_ABI64_STATUS_INVALID_HANDLE
      else
        modify (fun s => s <| g_windows_registry64_open_count := inc32 (g_windows_registry64_open_count s) |>
                           <| g_windows_registry64_last_status := WINDOWS_ABI64_STATUS_SUCCESS |> <| g_windows_registry64_last_key_id := key_id |>) ;;;
        hash <- gets g_windows_registry64_last_path_hash ;;
        ret (WINDOWS_ABI64_STATUS_SUCCESS,
             mk_open h WINDOWS_ABI64_STATUS_SUCCESS key_id hash (Z.of_nat (length path)) 0 WINDOWS_REGISTRY64_DISPOSITION_OPENED).

Definition windows_registry64_create_key (p : Z) (path : list Z) (desired_access : Z) : RM (Z * open_result) :=
  fine <- open_begin p path ;;
  if negb fine then
    windows_registry64_record_denial WINDOWS_ABI64_STATUS_INVALID_PARAMETER ;;;
    ret (WINDOWS_ABI64_STATUS_INVALID_PARAMETER, windows_registry64_clear_open_result)
  else
    found <- gets (windows_registry64_find_key path) ;;
    let created := found =? WINDOWS_REGISTRY64_KEY_NONE in
    key_id <- (if created then windows_registry64_create_dynamic_key path else ret found) ;;
    if key_id =? WINDOWS_REGISTRY64_KEY_NONE then open_denied path WINDOWS_ABI64_STATUS_NO_MEMORY
    else
      h <- on_handles (windows_handle64_key_create p key_id CAPABILITY64_RIGHT_QUERY 0) ;;
      if h =? WINDOWS_HANDLE64_INVALID then open_denied path WINDOWS_ABI64_STATUS_INVALID_HANDLE
      else
        modify (fun s => s <| g_windows_registry64_create_count := inc32 (g_windows_registry64_create_count s) |>
                           <| g_windows_registry64_last_status := WINDOWS_ABI64_STATUS_SUCCESS |> <| g_windows_registry64_last_key_id := key_id |>) ;;;
        hash <- gets g_windows_registry64_last_path_hash ;;
        ret (WINDOWS_ABI64_STATUS_SUCCESS,
             mk_open h WINDOWS_ABI64_STATUS_SUCCESS key_id hash (Z.of_nat (length path)) (b2z created)
               (if created then WINDOWS_REGISTRY64_DISPOSITION_CREATED else WINDOWS_REGISTRY64_DISPOSITION_OPENED)).

(** The value of a key with a name. *)
Definition find_value (key_id : Z) (name : list Z) : option registry_value :=
  List.find (fun v => (v_key_id v =? key_id) && windows_registry64_equals name (v_name v)) g_windows_registry64_values.

(** The size of a string value in UTF-16 with its zero. *)
Definition value_bytes (v : registry_value) : Z := add32 (mul32 (Z.of_nat (length (v_data v))) 2) 2.

Definition windows_registry64_query_value (p h : Z) (value_name : list Z) (information_class : Z) : RM (Z * value_result) :=
  let deny status r := windows_registry64_record_denial status ;;; ret (status, r) in
  modify (fun s => s <| g_windows_registry64_last_value_hash := windows_registry64_hash value_name |>
                     <| g_windows_registry64_last_data_hash := 0 |> <| g_windows_registry64_last_required_bytes := 0 |>) ;;;
  valid <- windows_registry64_validate_process p ;;
  if negb valid || (h =? WINDOWS_HANDLE64_INVALID) || (length value_name =? 0)%nat || (WINDOWS_REGISTRY64_MAX_VALUE_NAME_BYTES <? length value_name)%nat
  then deny WINDOWS_ABI64_STATUS_INVALID_PARAMETER windows_registry64_clear_value_result
  else if negb (information_class =? WINDOWS_REGISTRY64_VALUE_INFORMATION_PARTIAL)
  then deny WINDOWS_ABI64_STATUS_INVALID_INFO_CLASS windows_registry64_clear_value_result
  else
    key_id <- on_handles (windows_handle64_key_id p h) ;;
    if key_id =? WINDOWS_REGISTRY64_KEY_NONE then deny WINDOWS_ABI64_STATUS_INVALID_HANDLE windows_registry64_clear_value_result
    else
      match find_value key_id value_name with
      | None =>
          modify (fun s => s <| g_windows_registry64_last_key_id := key_id |>) ;;;
          deny WINDOWS_ABI64_STATUS_OBJECT_NAME_NOT_FOUND (mk_result WINDOWS_ABI64_STATUS_SUCCESS key_id 0 0 0 0 0 None)
      | Some v =>
          let data_bytes := value_bytes v in
          let data_hash := windows_registry64_hash (v_data v) in
          modify (fun s => s <| g_windows_registry64_query_count := inc32 (g_windows_registry64_query_count s) |>
                             <| g_windows_registry64_last_status := WINDOWS_ABI64_STATUS_SUCCESS |> <| g_windows_registry64_last_key_id := key_id |>
                             <| g_windows_registry64_last_data_hash := data_hash |> <| g_windows_registry64_last_required_bytes := add32 12 data_bytes |>) ;;;
          value_hash <- gets g_windows_registry64_last_value_hash ;;
          ret (WINDOWS_ABI64_STATUS_SUCCESS,
               mk_result WINDOWS_ABI64_STATUS_SUCCESS key_id WINDOWS_REGISTRY64_REG_SZ data_bytes (add32 12 data_bytes) value_hash data_hash (Some (v_data v)))
      end.

(** ** Counters *)

Definition windows_registry64_open_count (s : registry_state W) : Z := g_windows_registry64_open_count s.
Definition windows_registry64_create_count (s : registry_state W) : Z := g_windows_registry64_create_count s.
Definition windows_registry64_query_count (s : registry_state W) : Z := g_windows_registry64_query_count s.
Definition windows_registry64_denial_count (s : registry_state W) : Z := g_windows_registry64_denial_count s.
Definition windows_registry64_last_status (s : registry_state W) : Z := g_windows_registry64_last_status s.
Definition windows_registry64_last_key_id (s : registry_state W) : Z := g_windows_registry64_last_key_id s.
Definition windows_registry64_last_path_hash (s : registry_state W) : Z := g_windows_registry64_last_path_hash s.
Definition windows_registry64_last_value_hash (s : registry_state W) : Z := g_windows_registry64_last_value_hash s.
Definition windows_registry64_last_data_hash (s : registry_state W) : Z := g_windows_registry64_last_data_hash s.
Definition windows_registry64_last_required_bytes (s : registry_state W) : Z := g_windows_registry64_last_required_bytes s.
Definition windows_registry64_live_dynamic_count (s : registry_state W) : Z :=
  Z.of_nat (count_if (fun k => nz (k_active k)) (g_windows_registry64_dynamic_keys s)).

End registry.
End WindowsRegistry.
