(* ===== verification/RegistryTheorems.v ===== *)
(** * The Windows registry: the theorems

    The registry is a list of names, three of them fixed, that only grows;
    opening and creating answer from that list, and a handle they give leads
    back to its key. *)

From Stdlib Require Import String.
From S2P Require Import Prelude Principal Services64 Capability Process WindowsHandle WindowsInv WindowsCalls WindowsObjects WindowsSync WindowsRuns.
From S2P Require Import WindowsTheorems WindowsRegistry.
Import WindowsHandle WindowsTables WindowsInv WindowsCalls WindowsRelease WindowsObjects WindowsSync WindowsScripts WindowsRuns WindowsReach.
Import Services64 WindowsTheorems WindowsRegistry.
Local Open Scope Z_scope.
Local Open Scope kernel_scope.

Module RegistryTheorems.

(** ** The list of names *)

(** A name without its case and kind of slash. *)
Definition fold_name (path : list Z) : list Z := folded <$> path.

Definition same_name (path name : list Z) : bool := bool_decide (fold_name path = name).

Lemma equals_folded l r : windows_registry64_equals l r = same_name l (fold_name r).
Proof.
  unfold same_name.
  revert r. induction l as [|a l IH]; intros [|b r]; try done. cbn [windows_registry64_equals]. rewrite IH.
  destruct (Z.eqb_spec (folded a) (folded b)) as [E|E]; cbn [andb].
  - apply bool_decide_ext. unfold fold_name. rewrite !fmap_cons, E. split; [by intros ->|by intros [=]].
  - symmetry. apply bool_decide_false. by intros [=].
Qed.

Definition fixed_names : list (list Z) :=
  [fold_name g_windows_registry64_codepage_path; fold_name g_windows_registry64_current_version_path; fold_name g_windows_registry64_environment_path].

(** The place of a name in a list. *)
Definition place (path : list Z) (names : list (list Z)) : option nat := find_index (same_name path) names.

(** The specification, over the names created so far: looking up, and
    creating what is missing while there is room. *)
Definition spec_find (names : list (list Z)) (path : list Z) : Z :=
  match place path fixed_names with
  | Some i => Z.of_nat i + 1
  | None => match place path names with Some i => WINDOWS_REGISTRY64_KEY_DYNAMIC_BASE + Z.of_nat i | None => WINDOWS_REGISTRY64_KEY_NONE end
  end.
Definition spec_create (names : list (list Z)) (path : list Z) : Z * list (list Z) :=
  let k := spec_find names path in
  if negb (k =? WINDOWS_REGISTRY64_KEY_NONE) then (k, names)
  else if (length names <? WINDOWS_REGISTRY64_DYNAMIC_KEY_LIMIT)%nat
  then (WINDOWS_REGISTRY64_KEY_DYNAMIC_BASE + Z.of_nat (length names), names ++ [fold_name path])
  else (WINDOWS_REGISTRY64_KEY_NONE, names).

(** ** The keys of the code as names *)

Definition key_ok (i : nat) (k : dynamic_key) (name : list Z) : Prop :=
  k_active k <> 0 /\ k_key_id k = WINDOWS_REGISTRY64_KEY_DYNAMIC_BASE + Z.of_nat i /\ fold_name (key_path k) = name.

(** The keys in use come first. *)
Definition holds_names (names : list (list Z)) (keys : list dynamic_key) : Prop :=
  exists a b, keys = a ++ b /\ length keys = WINDOWS_REGISTRY64_DYNAMIC_KEY_LIMIT
    /\ length a = length names /\ (forall i k n, a !! i = Some k -> names !! i = Some n -> key_ok i k n)
    /\ Forall (fun k => k_active k = 0) b /\ Forall (fun k => length (k_path k) = WINDOWS_REGISTRY64_MAX_PATH_BYTES) keys.

Lemma find_active (P : list Z -> bool) (a : list dynamic_key) (names : list (list Z)) : length a = length names ->
  (forall i k n, a !! i = Some k -> names !! i = Some n -> k_active k <> 0 /\ fold_name (key_path k) = n) ->
  find_index (fun k => nz (k_active k) && P (fold_name (key_path k))) a = find_index P names.
Proof.
  revert names. induction a as [|k a IH]; intros [|n names] Hl H; try done. cbn [find_index].
  destruct (H 0%nat k n eq_refl eq_refl) as [Hk ->]. rewrite (proj2 (nz_true _) Hk). cbn [andb]. destruct (P n); [done|]. f_equal.
  apply IH; [by injection Hl|]. intros i. exact (H (S i)).
Qed.

Lemma find_index_app_none {A} (P : A -> bool) (a b : list A) : Forall (fun x => P x = false) b -> find_index P (a ++ b) = find_index P a.
Proof.
  intros Hb. induction a as [|x a IH]; cbn; [|destruct (P x); [done|by rewrite IH]].
  induction Hb as [|x b Hx _ IH]; [done|]. cbn. by rewrite Hx, IH.
Qed.

Lemma find_index_ext {A} (P Q : A -> bool) (l : list A) : (forall x, P x = Q x) -> find_index P l = find_index Q l.
Proof. intros H. induction l as [|x l IH]; [done|]. cbn. by rewrite H, IH. Qed.

Lemma alter_middle {A} (f : A -> A) (a b : list A) x : alter f (length a) (a ++ x :: b) = (a ++ [f x]) ++ b.
Proof. induction a as [|y a IH]; [done|]. cbn. f_equal. exact IH. Qed.

Section registry.
Context {W : Type} {world : HandleWorld W}.
Implicit Types (s : registry_state W) (names : list (list Z)).

Lemma find_key_spec names path s : holds_names names (g_windows_registry64_dynamic_keys s) -> path_refused path = false ->
  windows_registry64_find_key path s = spec_find names path.
Proof.
  intros (a & b & Hk & Hl & Hn & Ha & Hb & _) Hp. unfold windows_registry64_find_key. rewrite Hp.
  unfold windows_registry64_path_matches. rewrite !equals_folded. unfold spec_find, place, fixed_names. cbn [find_index].
  destruct (same_name _ _); [done|]. destruct (same_name _ _); [done|]. destruct (same_name _ _); [done|]. cbn [fmap option_fmap option_map].
  rewrite (find_index_ext _ (fun k => nz (k_active k) && same_name path (fold_name (key_path k)))) by (intros k; by rewrite equals_folded).
  rewrite Hk, find_index_app_none.
  2: { eapply Forall_impl; [exact Hb|]. intros k E. by rewrite (proj2 (nz_false _) E). }
  rewrite (find_active (same_name path) a names Hn).
  2: { intros i k n H1 H2. destruct (Ha i k n H1 H2) as (? & _ & ?). done. }
  destruct (find_index _ names) as [i|] eqn:Ei; [|done]. apply find_index_lookup in Ei as (n & Hni & _).
  assert (Hi : (i < length a)%nat) by (rewrite Hn; by eapply lookup_lt_Some). destruct (lookup_lt_is_Some_2 _ _ Hi) as [k Hki].
  rewrite lookup_app_l, Hki by done. by destruct (Ha i k n Hki Hni) as (_ & -> & _).
Qed.

(** A new key goes into the first free slot. *)
Lemma create_dynamic_spec names path s : holds_names names (g_windows_registry64_dynamic_keys s) -> path_refused path = false ->
  wp (windows_registry64_create_dynamic_key path) (fun k s' => registry_handles s' = registry_handles s
      /\ g_windows_registry64_last_path_hash s' = g_windows_registry64_last_path_hash s /\
      if (length names <? WINDOWS_REGISTRY64_DYNAMIC_KEY_LIMIT)%nat
      then k = WINDOWS_REGISTRY64_KEY_DYNAMIC_BASE + Z.of_nat (length names) /\ holds_names (names ++ [fold_name path]) (g_windows_registry64_dynamic_keys s')
      else k = WINDOWS_REGISTRY64_KEY_NONE /\ holds_names names (g_windows_registry64_dynamic_keys s')) s.
Proof.
  intros (a & b & Hk & Hl & Hn & Ha & Hb & Hp) Hpath. unfold windows_registry64_create_dynamic_key. rewrite Hpath.
  assert (Hfree : find_index (fun k => k_active k =? 0) (a ++ b) = if (length names <? WINDOWS_REGISTRY64_DYNAMIC_KEY_LIMIT)%nat then Some (length a) else None).
  { rewrite Hk, length_app in Hl. destruct b as [|k b].
    - rewrite app_nil_r in *. rewrite (proj2 (Nat.ltb_ge _ _)) by (cbn in Hl; lia). apply find_index_None. intros k [j Hj]%list_elem_of_lookup.
      assert (Hlt : (j < length names)%nat) by (rewrite <- Hn; by eapply lookup_lt_Some). destruct (lookup_lt_is_Some_2 _ _ Hlt) as [n Hnj].
      apply Z.eqb_neq. by destruct (Ha j k n Hj Hnj).
    - rewrite (proj2 (Nat.ltb_lt _ _)) by (cbn in Hl; lia). apply find_index_Some. exists k. split_and!.
      + by rewrite lookup_app_r, Nat.sub_diag by lia.
      + apply Forall_cons in Hb as [Hk0 _]. by apply Z.eqb_eq.
      + intros j x Hj Hx. rewrite lookup_app_l in Hx by done.
        assert (Hlt : (j < length names)%nat) by lia. destruct (lookup_lt_is_Some_2 _ _ Hlt) as [n Hnj].
        apply Z.eqb_neq. by destruct (Ha j x n Hx Hnj). }
  apply wp_bind, wp_gets. rewrite Hk, Hfree. destruct (Nat.ltb_spec (length names) WINDOWS_REGISTRY64_DYNAMIC_KEY_LIMIT) as [Hlt|Hge].
  2: { apply wp_ret. split_and!; try done. exists a, b. done. }
  apply wp_bind, wp_modify, wp_ret. split; [done|]. split; [done|]. split; [by rewrite Hn|].
  destruct b as [|k b]; [rewrite Hk, app_nil_r in Hl; lia|].
  set (k' := mk_dynamic 1 (WINDOWS_REGISTRY64_KEY_DYNAMIC_BASE + Z.of_nat (length a)) (Z.of_nat (length path)) (path ++ drop (length path) (k_path k))).
  assert (Halt : g_windows_registry64_dynamic_keys (s <| g_windows_registry64_dynamic_keys := alter (fun k => mk_dynamic 1 (WINDOWS_REGISTRY64_KEY_DYNAMIC_BASE + Z.of_nat (length a))
      (Z.of_nat (length path)) (path ++ drop (length path) (k_path k))) (length a) (g_windows_registry64_dynamic_keys s) |>) = (a ++ [k']) ++ b).
  { cbn. rewrite Hk. apply (alter_middle (fun k => mk_dynamic 1 _ _ (path ++ drop (length path) (k_path k)))). }
  rewrite Halt. exists (a ++ [k']), b. split_and!; [done| | | | |].
  - rewrite Hk in Hl. rewrite !length_app in *. cbn [length] in *. lia.
  - rewrite !length_app, Hn. done.
  - intros j x n Hx Hnj. destruct (decide (j < length a)%nat) as [Hj|Hj].
    + rewrite lookup_app_l in Hx by done. rewrite lookup_app_l in Hnj by lia. by apply Ha.
    + assert (j = length a) as -> by (apply lookup_lt_Some in Hx; rewrite length_app in Hx; cbn in Hx; lia).
      rewrite lookup_app_r, Nat.sub_diag in Hx by lia. injection Hx as <-. rewrite Hn, lookup_app_r, Nat.sub_diag in Hnj by lia. injection Hnj as <-.
      split_and!; [done|done|]. unfold key_path, k'. cbn [k_path_bytes k_path]. by rewrite Nat2Z.id, take_app_length.
  - by apply Forall_cons in Hb as [_ Hb].
  - rewrite Hk, Forall_app, Forall_cons in Hp. destruct Hp as (Hpa & Hpk & Hpb). rewrite !Forall_app, Forall_singleton. split_and!; try done.
    unfold k'. cbn [k_path]. rewrite length_app, length_drop, Hpk. unfold path_refused in Hpath. apply orb_false_iff in Hpath as [_ Hpath]. apply Nat.ltb_ge in Hpath. lia.
Qed.

(** ** Opening and creating *)

(** Who may ask for which path. *)
Definition admitted (p : Z) (path : list Z) (hs : handle_state W) : bool :=
  negb (p =? PROCESS64_INVALID_PID) && negb (principal_of p hs =? 0)
  && (match persona_contexts hs !! p with Some c => persona_type c | None => PERSONA64_TYPE_COUNT end =? PERSONA64_TYPE_WINDOWS_PE) && negb (path_refused path).

Lemma wp_open_begin p path s : wp (open_begin p path) (fun b s' => b = admitted p path (registry_handles s)
  /\ registry_handles s' = registry_handles s /\ g_windows_registry64_dynamic_keys s' = g_windows_registry64_dynamic_keys s) s.
Proof. done. Qed.

(** What a call leaves: a key and the handle made for it. *)
Definition key_outcome (p k missing : Z) (created : bool) s (r : Z * open_result) s' : Prop :=
  if k =? WINDOWS_REGISTRY64_KEY_NONE then fst r = missing /\ r_handle (snd r) = WINDOWS_HANDLE64_INVALID /\ registry_handles s' = registry_handles s
  else
    let (h, hs) := windows_handle64_key_create p k CAPABILITY64_RIGHT_QUERY 0 (registry_handles s) in
    registry_handles s' = hs /\ r_handle (snd r) = h /\
    if h =? WINDOWS_HANDLE64_INVALID then fst r = WINDOWS_ABI64_STATUS_INVALID_HANDLE
    else fst r = WINDOWS_ABI64_STATUS_SUCCESS /\ r_key_id (snd r) = k
         /\ r_disposition (snd r) = (if created then WINDOWS_REGISTRY64_DISPOSITION_CREATED else WINDOWS_REGISTRY64_DISPOSITION_OPENED).

Lemma wp_on_handles {A} (m : ST (handle_state W) A) s : wp (on_handles m) (fun a s' => m (registry_handles s) = (a, registry_handles s')
  /\ g_windows_registry64_dynamic_keys s' = g_windows_registry64_dynamic_keys s) s.
Proof. unfold wp, on_handles. by destruct (m (registry_handles s)). Qed.

Lemma open_outcome p path acc names s : holds_names names (g_windows_registry64_dynamic_keys s) ->
  wp (windows_registry64_open_key p path acc) (fun r s' => holds_names names (g_windows_registry64_dynamic_keys s') /\
    if admitted p path (registry_handles s) then key_outcome p (spec_find names path) WINDOWS_ABI64_STATUS_OBJECT_NAME_NOT_FOUND false s r s'
    else fst r = WINDOWS_ABI64_STATUS_INVALID_PARAMETER /\ registry_handles s' = registry_handles s) s.
Proof.
  intros Hn. unfold windows_registry64_open_key. apply wp_bind. eapply wp_mono; [apply wp_open_begin|]. intros b s1 (-> & Hh & Hk).
  destruct (admitted p path (registry_handles s)) eqn:Ea; cbn [negb].
  2: { apply wp_bind, wp_ret, wp_ret. cbn. by rewrite Hk, Hh. }
  apply andb_true_iff in Ea as [_ Ep]. apply negb_true_iff in Ep. rewrite <- Hk in Hn. apply wp_bind, wp_gets. rewrite (find_key_spec names path s1 Hn Ep).
  unfold key_outcome. destruct (spec_find names path =? WINDOWS_REGISTRY64_KEY_NONE); [by apply wp_bind, wp_gets, wp_bind, wp_ret, wp_ret|].
  apply wp_bind. eapply wp_mono; [apply wp_on_handles|]. intros h s2 [Hc Hk2]. rewrite <- Hh, Hc. rewrite <- Hk2 in Hn.
  destruct (h =? WINDOWS_HANDLE64_INVALID) eqn:Eh.
  - apply Z.eqb_eq in Eh. by apply wp_bind, wp_gets, wp_bind, wp_ret, wp_ret.
  - by apply wp_bind, wp_modify, wp_bind, wp_gets, wp_ret.
Qed.

Lemma create_outcome p path acc names s : holds_names names (g_windows_registry64_dynamic_keys s) ->
  wp (windows_registry64_create_key p path acc) (fun r s' =>
    if admitted p path (registry_handles s)
    then holds_names (snd (spec_create names path)) (g_windows_registry64_dynamic_keys s')
         /\ key_outcome p (fst (spec_create names path)) WINDOWS_ABI64_STATUS_NO_MEMORY (spec_find names path =? WINDOWS_REGISTRY64_KEY_NONE) s r s'
    else holds_names names (g_windows_registry64_dynamic_keys s') /\ fst r = WINDOWS_ABI64_STATUS_INVALID_PARAMETER /\ registry_handles s' = registry_handles s) s.
Proof.
  intros Hn. unfold windows_registry64_create_key. apply wp_bind. eapply wp_mono; [apply wp_open_begin|]. intros b s1 (-> & Hh & Hk).
  destruct (admitted p path (registry_handles s)) eqn:Ea; cbn [negb].
  2: { apply wp_bind, wp_ret, wp_ret. cbn. by rewrite Hk, Hh. }
  apply andb_true_iff in Ea as [_ Ep]. apply negb_true_iff in Ep. rewrite <- Hk in Hn. apply wp_bind, wp_gets. rewrite (find_key_spec names path s1 Hn Ep).
  apply wp_bind.
  assert (Hstep : wp (if spec_find names path =? WINDOWS_REGISTRY64_KEY_NONE then windows_registry64_create_dynamic_key path else ret (spec_find names path))
    (fun k s' => registry_handles s' = registry_handles s1 /\ k = fst (spec_create names path) /\ holds_names (snd (spec_create names path)) (g_windows_registry64_dynamic_keys s')) s1).
  { unfold spec_create. destruct (spec_find names path =? WINDOWS_REGISTRY64_KEY_NONE); [|by apply wp_ret]. cbn [negb].
    eapply wp_mono; [by apply create_dynamic_spec|]. intros k s' (H1 & _ & H2). by destruct (length names <? WINDOWS_REGISTRY64_DYNAMIC_KEY_LIMIT)%nat; destruct H2. }
  eapply wp_mono; [exact Hstep|]. intros k s2 (Hh2 & -> & Hn2). rewrite Hh in Hh2.
  unfold key_outcome. destruct (fst (spec_create names path) =? WINDOWS_REGISTRY64_KEY_NONE); [by apply wp_bind, wp_gets, wp_bind, wp_ret, wp_ret|].
  apply wp_bind. eapply wp_mono; [apply wp_on_handles|]. intros h s3 [Hc Hk3]. rewrite <- Hh2, Hc. rewrite <- Hk3 in Hn2.
  destruct (h =? WINDOWS_HANDLE64_INVALID) eqn:Eh.
  - apply Z.eqb_eq in Eh. by apply wp_bind, wp_gets, wp_bind, wp_ret, wp_ret.
  - by apply wp_bind, wp_modify, wp_bind, wp_gets, wp_ret.
Qed.

End registry.

(** ** From a handle back to its key *)

(** What the registry relies on: where the broker's table is well formed, a
    granted capability routes the rights it was granted, and a grant leaves
    the principals alone. *)
Class GrantLaws (W : Type) {world : HandleWorld W} := {
  broker_ok : W -> Prop;
  grant_routes endpoint rt owner w : broker_ok w ->
    fst (capability64_grant_service endpoint rt owner w) <> CAPABILITY64_INVALID_HANDLE ->
    fst (capability64_route (fst (capability64_grant_service endpoint rt owner w)) rt owner (snd (capability64_grant_service endpoint rt owner w)))
      <> CAPABILITY64_INVALID_HANDLE;
  grant_principal endpoint rt owner w p :
    process64_principal p (snd (capability64_grant_service endpoint rt owner w)) = process64_principal p w
}.

Section keys.
Context {W : Type} {world : HandleWorld W} {laws : GrantLaws W}.
Implicit Types (hs : handle_state W) (tb : handle_table).

(** The table of a process carries its principal. *)
Definition owns_table (p : Z) hs : Prop := forall t tb, table_of p hs = Some t -> g_windows_handle64_tables hs !! t = Some tb -> owner_id tb = principal_of p hs.

(** A table for the process of the state before, nothing else having moved. *)
Definition has_table (p : Z) hs hs' (t : nat) (tb : handle_table) : Prop :=
  table_of p hs' = Some t /\ attached t tb hs' /\ owner_id tb = principal_of p hs /\ handle_world hs' = handle_world hs.

Definition table_ready (p : Z) hs (o : option nat) hs' : Prop := inv hs' /\ forall t, o = Some t -> exists tb, has_table p hs hs' t tb.

Lemma same_table_of p hs hs' : same hs hs' -> table_of p hs' = table_of p hs.
Proof. intros H. unfold table_of. by rewrite (sm_contexts _ _ H). Qed.

Lemma wp_init_process p hs : inv hs -> table_of p hs = None ->
  wp (windows_handle64_init_process p) (fun _ hs' => inv hs' /\ (table_of p hs' = None
    \/ exists t tb, has_table p hs hs' t tb)) hs.
Proof.
  intros Hs Hn. unfold windows_handle64_init_process. apply wp_bind. unfold wp at 1. rewrite handle_init_done by apply (i_frame _ Hs). cbn [fst snd].
  apply wp_bind, wp_gets, wp_bind, wp_gets.
  assert (Hdeny : wp (windows_handle64_note_denial p WINDOWS_ABI64_STATUS_INVALID_PARAMETER ;;; ret false) (fun _ hs' => inv hs' /\ (table_of p hs' = None
    \/ exists t tb, has_table p hs hs' t tb)) hs).
  { apply wp_deny; [apply quiet_note_denial|done|]. intros hs' H Hs'. split; [done|]. left. by rewrite (same_table_of _ _ _ H). }
  destruct (persona_contexts hs !! p) as [c|] eqn:Hc; [|done]. destruct (_ || _) eqn:Eg; [done|]. apply orb_false_iff in Eg as [Eg Ety].
  apply orb_false_iff in Eg as [Ep _]. boolify.
  assert (Ht : windows_handle_table c = None) by (unfold table_of in Hn; rewrite Hc in Hn; by rewrite (proj2 (Z.eqb_eq _ _)) in Hn).
  rewrite Ht. apply wp_bind, wp_gets.
  destruct (find_index _ _) as [t|] eqn:Ei; [|done]. apply find_index_lookup in Ei as (u & Hu & Hu0). boolify. subst u.
  apply wp_bind, wp_modify, wp_bind, wp_modify, wp_bind, wp_modify, wp_ret.
  assert (Hinv : inv (with_table t p (principal_of p hs) hs)) by (by eapply with_table_inv). split; [exact Hinv|]. right.
  assert (Hto : table_of p (with_table t p (principal_of p hs) hs) = Some t).
  { unfold table_of. change (persona_contexts (with_table t p (principal_of p hs) hs)) with (alter (fun c => c <| windows_handle_table := Some t |>) p (persona_contexts hs)).
    rewrite lookup_alter_eq, Hc. cbn. by rewrite (proj2 (Z.eqb_eq _ _)). }
  destruct (table_of_attached _ _ _ Hinv Hto) as (tb & Hat & _). exists t, tb. split_and!; [exact Hto|exact Hat| |done].
  destruct Hat as [Hat _]. change (alter (fun _ => windows_handle64_clear_table <| pid := p |> <| owner_id := principal_of p hs |>) t (g_windows_handle64_tables hs) !! t = Some tb) in Hat.
  apply lookup_alter_Some in Hat as (x & _ & ->). by rewrite decide_True.
Qed.

Lemma wp_table_ready p hs : inv hs -> owns_table p hs -> wp (table_for_creation p) (table_ready p hs) hs.
Proof.
  intros Hs Ho. unfold table_for_creation. apply wp_bind. unfold wp at 1. rewrite table_for_run by done. cbn [fst snd].
  assert (Hlast : forall hs', inv hs' -> (table_of p hs' = None \/ exists t tb, has_table p hs hs' t tb) ->
    wp (windows_handle64_table_for_process p) (table_ready p hs) hs').
  { intros hs' Hs' Hor. unfold wp. rewrite table_for_run by done. cbn [fst snd]. split; [done|]. intros t Ht.
    destruct Hor as [Hn|(t' & tb & Htb)]; [congruence|]. assert (t' = t) as -> by (destruct Htb; congruence). by exists tb. }
  destruct (table_of p hs) as [t|] eqn:Et.
  - apply wp_bind, wp_ret, Hlast; [done|]. right. destruct (table_of_attached _ _ _ Hs Et) as (tb & Hat & _). exists t, tb. split_and!; [done|done| |done].
    apply (Ho t tb Et), Hat.
  - apply wp_bind, wp_bind. eapply wp_mono; [by apply wp_init_process|]. intros b hs' [Hs' Hor]. apply wp_ret. by apply Hlast.
Qed.

(** The entry the grant made, and the world after it. *)
Lemma wp_grant_key t owner ty rt p tb hs : inv hs -> attached t tb hs ->
  wp (grant_entry t owner ty rt 0 p) (fun r hs' => match r with
    | inr _ => True
    | inl (h, i, cap) => exists tb' e, attached t tb' hs' /\ owner_id tb' = owner_id tb /\ entries tb' !! i = Some e /\ active e = true /\ object_type e = ty
        /\ capability_handle e = cap /\ h = slot_handle i /\ persona_contexts hs' = persona_contexts hs
        /\ cap = fst (capability64_grant_service SERVICE_ENDPOINT_CLASS_INIT rt owner (handle_world hs)) /\ cap <> CAPABILITY64_INVALID_HANDLE
        /\ handle_world hs' = snd (capability64_grant_service SERVICE_ENDPOINT_CLASS_INIT rt owner (handle_world hs))
    end) hs.
Proof.
  intros Hs Ht. unfold grant_entry. apply wp_bind.
  destruct (capability64_grant_service SERVICE_ENDPOINT_CLASS_INIT rt owner (handle_world hs)) as [cap w] eqn:Eg.
  unfold wp at 1, on_handle_world. rewrite Eg. cbn [fst snd]. set (hs1 := hs <| handle_world := w |>).
  assert (Hs1 : inv hs1) by (eapply inv_same; [|exact Hs]; by apply same_counters).
  destruct (cap =? CAPABILITY64_INVALID_HANDLE) eqn:Ec; [by apply wp_ret|]. apply wp_bind.
  eapply wp_mono; [by eapply (wp_install t cap ty rt 0 tb hs1)|]. intros h hs2 [Hs2 Hr]. destruct (h =? WINDOWS_HANDLE64_INVALID) eqn:Eh; [by apply wp_bind|].
  apply Z.eqb_neq in Eh. destruct Hr as [[? _]|(i & e0 & Hi & H0 & Hh & Hc & Hty & ->)]; [done|]. subst h.
  pose proof (attached_upd t (entry_installed i cap ty rt 0) tb hs1 Ht) as Ht2.
  destruct (new_slot i cap ty rt 0 tb e0 (attached_ok _ _ _ Hs2 Ht2) Hi Hc Hty) as (e & He & Ha & Hn & Hf).
  apply wp_bind, wp_gets. rewrite (table_at_eq _ _ _ (proj1 Ht2)), Hf. apply wp_ret.
  eexists _, e. split_and!; [exact Ht2|apply installed_pid|exact He|exact Ha| | |done|done|done|done|done].
  - by apply (f_equal object_type) in Hn.
  - by apply (f_equal capability_handle) in Hn.
Qed.

Lemma key_handle_leads_back p k hs : inv hs -> owns_table p hs -> broker_ok (handle_world hs) -> k <> 0 ->
  let (h, hs') := windows_handle64_key_create p k CAPABILITY64_RIGHT_QUERY 0 hs in
  h <> WINDOWS_HANDLE64_INVALID -> fst (windows_handle64_key_id p h hs') = k /\ principal_of p hs' = principal_of p hs /\ is_Some (table_of p hs').
Proof.
  intros Hs Ho Hb Hk. destruct (windows_handle64_key_create p k CAPABILITY64_RIGHT_QUERY 0 hs) as [h hs'] eqn:Ecall.
  pose proof (wp_run _ _ _ _ _ Ecall (key_create_keeps p k CAPABILITY64_RIGHT_QUERY 0 hs Hs)) as Hs'. cbn beta in Hs'. revert Hs'.
  enough (H : wp (windows_handle64_key_create p k CAPABILITY64_RIGHT_QUERY 0)
    (fun h hs' => inv hs' -> h <> WINDOWS_HANDLE64_INVALID ->
    fst (windows_handle64_key_id p h hs') = k /\ principal_of p hs' = principal_of p hs /\ is_Some (table_of p hs')) hs) by exact (wp_run _ _ _ _ _ Ecall H).
  clear Ecall h hs'. unfold windows_handle64_key_create. apply wp_bind, wp_gets, wp_bind. unfold wp at 1.
  rewrite handle_init_done by apply (i_frame _ Hs). cbn [fst snd]. apply wp_bind, wp_gets.
  assert (Hdeny : forall result s1, wp (windows_handle64_note_denial p result ;;; ret WINDOWS_HANDLE64_INVALID)
    (fun h hs' => inv hs' -> h <> WINDOWS_HANDLE64_INVALID ->
      fst (windows_handle64_key_id p h hs') = k /\ principal_of p hs' = principal_of p hs /\ is_Some (table_of p hs')) s1) by (intros; apply wp_bind, wp_ret; done).
  destruct (_ || _); [apply Hdeny|]. apply wp_bind. eapply wp_mono; [by apply wp_table_ready|]. intros [t|] s1 [Hs1 Ht]; [|apply Hdeny].
  destruct (Ht t eq_refl) as (tb & Hto & Hat & Hown & Hpr). apply wp_bind.
  eapply wp_mono; [by eapply wp_grant_key|]. intros [[[h i] cap]|st] s2 Hg; [|apply Hdeny].
  destruct Hg as (tb2 & e & Hat2 & Hown2 & He & Ha & Hty & Hcap & Hh & Hctx & Hc & Hci & Hw).
  apply wp_bind, wp_modify, wp_bind, wp_modify, wp_ret. match goal with |- inv ?x -> _ => set (s3 := x) end. intros Hs3 _.
  assert (Hto3 : table_of p s3 = Some t) by (unfold table_of in *; change (persona_contexts s3) with (persona_contexts s2); by rewrite Hctx).
  assert (Htb3 : g_windows_handle64_tables s3 !! t = Some (set_token i k tb2)).
  { change (g_windows_handle64_tables s3) with (alter (set_token i k) t (g_windows_handle64_tables s2)). by rewrite list_lookup_alter_eq, (proj1 Hat2). }
  assert (He3 : entries (set_token i k tb2) !! i = Some (e <| reserved := k |>)).
  { unfold set_token. rewrite set_entry_lookup, decide_True by done. by rewrite He. }
  assert (Hok3 : table_ok (set_token i k tb2)) by (pose proof (i_tables _ Hs3) as Hall; rewrite Forall_lookup in Hall; by apply (Hall t)).
  split.
  2: { split; [|by exists t]. unfold principal_of. change (handle_world s3) with (handle_world s2). by rewrite Hw, grant_principal, Hpr. }
  unfold windows_handle64_key_id, bind. rewrite table_for_run, Hto3 by done. cbn [fst snd gets]. rewrite (table_at_eq _ _ _ Htb3), Hh.
  rewrite (find_entry_slot _ _ _ Hok3 He3 Ha). unfold entry_at. rewrite He3. cbn [default from_option id].
  change (object_type (e <| reserved := k |>)) with (object_type e). change (reserved (e <| reserved := k |>)) with k.
  change (capability_handle (e <| reserved := k |>)) with (capability_handle e). change (owner_id (set_token i k tb2)) with (owner_id tb2).
  rewrite Hty, (proj2 (Z.eqb_neq k 0)) by done. cbn [orb negb Z.eqb]. rewrite Z.eqb_refl. cbn [negb orb].
  unfold on_handle_world. change (handle_world s3) with (handle_world s2). subst cap. rewrite Hown2, Hown, Hw.
  pose proof (grant_routes SERVICE_ENDPOINT_CLASS_INIT CAPABILITY64_RIGHT_QUERY (principal_of p hs) (handle_world s1)) as Hroute.
  rewrite <- Hc in Hroute. rewrite <- Hpr in Hb. specialize (Hroute Hb Hci).
  destruct (capability64_route (capability_handle e) CAPABILITY64_RIGHT_QUERY (principal_of p hs) _) as [x w]. cbn [fst snd] in *.
  by rewrite (proj2 (Z.eqb_neq x _)) by done.
Qed.

(** ** The theorems *)

Implicit Types (s : registry_state W) (names : list (list Z)).

Lemma place_app path names more : is_Some (place path names) -> place path (names ++ more) = place path names.
Proof.
  unfold place. intros [i Hi]. rewrite Hi. apply find_index_Some in Hi as (n & Hn & Hp & Hmin). apply find_index_Some. exists n.
  pose proof (lookup_lt_Some _ _ _ Hn). split_and!; [by rewrite lookup_app_l|done|]. intros j y Hj Hy. rewrite lookup_app_l in Hy by lia. by eapply Hmin.
Qed.

(** What has an identifier keeps it. *)
Lemma spec_find_stable names path other : spec_find names other <> WINDOWS_REGISTRY64_KEY_NONE ->
  spec_find (snd (spec_create names path)) other = spec_find names other.
Proof.
  intros H. unfold spec_create. destruct (negb _); [done|]. destruct (_ <? _)%nat; [|done]. cbn [snd]. unfold spec_find in *.
  destruct (place other fixed_names); [done|]. destruct (place other names) eqn:E; [|done]. rewrite place_app by (rewrite E; by eexists). by rewrite E.
Qed.

(** What is created is found. *)
Lemma spec_find_created names path : spec_find (snd (spec_create names path)) path = fst (spec_create names path).
Proof.
  unfold spec_create. destruct (negb (spec_find names path =? WINDOWS_REGISTRY64_KEY_NONE)) eqn:E; [done|].
  apply negb_false_iff, Z.eqb_eq in E. destruct (_ <? _)%nat; [|done]. cbn [fst snd]. unfold spec_find in *.
  destruct (place path fixed_names) as [i|]; [unfold WINDOWS_REGISTRY64_KEY_NONE in E; lia|].
  destruct (place path names) as [i|] eqn:Ep; [unfold WINDOWS_REGISTRY64_KEY_NONE, WINDOWS_REGISTRY64_KEY_DYNAMIC_BASE in E; lia|].
  unfold place in *. assert (Hp : find_index (same_name path) (names ++ [fold_name path]) = Some (length names)).
  { apply find_index_Some. exists (fold_name path). split_and!; [by rewrite lookup_app_r, Nat.sub_diag|by apply bool_decide_true|].
    intros j y Hj Hy. rewrite lookup_app_l in Hy by done. eapply find_index_None in Ep; [exact Ep|]. by eapply list_elem_of_lookup_2. }
  by rewrite Hp.
Qed.

Definition registry_call (create : bool) (p : Z) (path : list Z) (acc : Z) : ST (registry_state W) (Z * open_result) :=
  if create then windows_registry64_create_key p path acc else windows_registry64_open_key p path acc.

(** The names and the key after a call, by the specification. *)
Definition spec_call (create : bool) names (path : list Z) : Z * list (list Z) :=
  if create then spec_create names path else (spec_find names path, names).

(** C17: The registry is a list of names without case or kind of slash, three fixed and at most four created. Opening
    and creating are refused exactly for improper processes and paths; otherwise the key is the place of the path in
    the list, a path that is missing is appended by a create while there is room, the handle is the one the handle
    table makes for that key, and no path that had an identifier gets another. *)
Theorem registry_calls_refine_names (create : bool) p path acc names s : holds_names names (g_windows_registry64_dynamic_keys s) ->
  wp (registry_call create p path acc) (fun r s' =>
    if admitted p path (registry_handles s)
    then holds_names (snd (spec_call create names path)) (g_windows_registry64_dynamic_keys s')
         /\ key_outcome p (fst (spec_call create names path)) (if create then WINDOWS_ABI64_STATUS_NO_MEMORY else WINDOWS_ABI64_STATUS_OBJECT_NAME_NOT_FOUND)
              (create && (spec_find names path =? WINDOWS_REGISTRY64_KEY_NONE)) s r s'
         /\ windows_registry64_find_key path s' = fst (spec_call create names path)
         /\ forall other, path_refused other = false -> windows_registry64_find_key other s <> WINDOWS_REGISTRY64_KEY_NONE ->
              windows_registry64_find_key other s' = windows_registry64_find_key other s
    else holds_names names (g_windows_registry64_dynamic_keys s') /\ fst r = WINDOWS_ABI64_STATUS_INVALID_PARAMETER /\ registry_handles s' = registry_handles s) s.
Proof.
  intros Hn. destruct create; cbn [registry_call spec_call andb fst snd].
  - eapply wp_mono; [by apply create_outcome|]. intros r s' H. destruct (admitted p path (registry_handles s)) eqn:Ea; [|done].
    apply andb_true_iff in Ea as [_ Ep]. apply negb_true_iff in Ep. destruct H as [Hn' Ho]. split_and!; [done|done| |].
    + rewrite (find_key_spec _ _ _ Hn' Ep). apply spec_find_created.
    + intros other Hop Hf. rewrite (find_key_spec _ _ _ Hn Hop) in Hf |- *. rewrite (find_key_spec _ _ _ Hn' Hop). by apply spec_find_stable.
  - eapply wp_mono; [by apply open_outcome|]. intros r s' [Hn' Ho]. destruct (admitted p path (registry_handles s)) eqn:Ea; [|done].
    apply andb_true_iff in Ea as [_ Ep]. apply negb_true_iff in Ep. split_and!; [done|done| |].
    + by apply find_key_spec.
    + intros other Hop _. by rewrite (find_key_spec _ _ _ Hn Hop), (find_key_spec _ _ _ Hn' Hop).
Qed.

(** The answer to a query of a value of a key. *)
Definition value_answer (k : Z) (name : list Z) : Z * value_result :=
  match find_value k name with
  | Some v => (WINDOWS_ABI64_STATUS_SUCCESS, mk_result WINDOWS_ABI64_STATUS_SUCCESS k WINDOWS_REGISTRY64_REG_SZ (value_bytes v) (add32 12 (value_bytes v))
                 (windows_registry64_hash name) (windows_registry64_hash (v_data v)) (Some (v_data v)))
  | None => (WINDOWS_ABI64_STATUS_OBJECT_NAME_NOT_FOUND, mk_result WINDOWS_ABI64_STATUS_SUCCESS k 0 0 0 0 0 None)
  end.

Lemma query_answer p h name k s : p <> PROCESS64_INVALID_PID -> principal_of p (registry_handles s) <> 0 -> is_Some (table_of p (registry_handles s)) ->
  h <> WINDOWS_HANDLE64_INVALID -> (0 < length name <= WINDOWS_REGISTRY64_MAX_VALUE_NAME_BYTES)%nat -> k <> WINDOWS_REGISTRY64_KEY_NONE ->
  fst (windows_handle64_key_id p h (registry_handles s)) = k ->
  wp (windows_registry64_query_value p h name WINDOWS_REGISTRY64_VALUE_INFORMATION_PARTIAL) (fun r _ => r = value_answer k name) s.
Proof.
  intros Hp Ho [t Ht] Hh [Hl1 Hl2] Hk Hid. unfold windows_registry64_query_value.
  assert (Hty : match persona_contexts (registry_handles s) !! p with Some c => persona_type c | None => PERSONA64_TYPE_COUNT end = PERSONA64_TYPE_WINDOWS_PE).
  { unfold table_of in Ht. destruct (persona_contexts (registry_handles s) !! p) as [c|]; [|done]. by destruct (Z.eqb_spec (persona_type c) PERSONA64_TYPE_WINDOWS_PE). }
  apply wp_bind, wp_modify, wp_bind. match goal with |- wp _ _ ?x => set (s1 := x) end.
  change (wp (windows_registry64_validate_process p) ?Q s1) with (wp (ret (negb (p =? PROCESS64_INVALID_PID) && negb (principal_of p (registry_handles s) =? 0)
    && (match persona_contexts (registry_handles s) !! p with Some c => persona_type c | None => PERSONA64_TYPE_COUNT end =? PERSONA64_TYPE_WINDOWS_PE))) Q s1).
  rewrite Hty, !(proj2 (Z.eqb_neq _ _)) by done. cbn [negb andb Z.eqb]. apply wp_ret. rewrite Z.eqb_refl. cbn [negb orb andb].
  rewrite (proj2 (Z.eqb_neq h _)), (proj2 (Nat.eqb_neq _ _)), (proj2 (Nat.ltb_ge _ _)) by (done || lia). cbn [orb].
  apply wp_bind. unfold wp at 1, on_handles. change (registry_handles s1) with (registry_handles s).
  destruct (windows_handle64_key_id p h (registry_handles s)) as [k' hs2]. cbn [fst snd] in *. subst k'.
  rewrite (proj2 (Z.eqb_neq k _)) by done. unfold value_answer. by destruct (find_value k name).
Qed.

(** C18: What an open or a create of a path succeeds with leads back: a query of a name on the handle it gave answers
    with the value of that name under the key the list of names gives the path, its type, its sizes in bytes with the
    header and its hash, or that there is no such value, whichever process holds what else. *)
Theorem registry_open_query_roundtrip (create : bool) p path acc names name s :
  holds_names names (g_windows_registry64_dynamic_keys s) -> inv (registry_handles s) -> owns_table p (registry_handles s) -> broker_ok (handle_world (registry_handles s)) ->
  (0 < length name <= WINDOWS_REGISTRY64_MAX_VALUE_NAME_BYTES)%nat ->
  wp (registry_call create p path acc) (fun r s' => fst r = WINDOWS_ABI64_STATUS_SUCCESS ->
    r_key_id (snd r) = fst (spec_call create names path) /\
    wp (windows_registry64_query_value p (r_handle (snd r)) name WINDOWS_REGISTRY64_VALUE_INFORMATION_PARTIAL)
      (fun q _ => q = value_answer (fst (spec_call create names path)) name) s') s.
Proof.
  intros Hn Hs Ho Hb Hl.
  assert (Hcall : wp (registry_call create p path acc) (fun r s' => fst r = WINDOWS_ABI64_STATUS_SUCCESS -> admitted p path (registry_handles s) = true /\
    exists missing made, missing <> WINDOWS_ABI64_STATUS_SUCCESS /\ key_outcome p (fst (spec_call create names path)) missing made s r s') s).
  { destruct create; cbn [registry_call spec_call fst].
    - eapply wp_mono; [apply (create_outcome p path acc names s Hn)|]. intros r s' H Hr. destruct (admitted p path (registry_handles s)).
      + split; [done|]. exists WINDOWS_ABI64_STATUS_NO_MEMORY. eexists. split; [discriminate|apply H].
      + destruct H as (_ & H & _). rewrite H in Hr. discriminate Hr.
    - eapply wp_mono; [apply (open_outcome p path acc names s Hn)|]. intros r s' [_ H] Hr. destruct (admitted p path (registry_handles s)).
      + split; [done|]. exists WINDOWS_ABI64_STATUS_OBJECT_NAME_NOT_FOUND, false. split; [discriminate|exact H].
      + destruct H as [H _]. rewrite H in Hr. discriminate Hr. }
  eapply wp_mono; [exact Hcall|]. intros r s' H Hr. destruct (H Hr) as (Ha & missing & made & Hmiss & Hk). clear H Hcall. unfold key_outcome in Hk.
  set (k := fst (spec_call create names path)) in *. destruct (Z.eqb_spec k WINDOWS_REGISTRY64_KEY_NONE) as [_|Hk0]; [destruct Hk; congruence|].
  pose proof (key_handle_leads_back p k (registry_handles s) Hs Ho Hb Hk0) as Hback.
  destruct (windows_handle64_key_create p k CAPABILITY64_RIGHT_QUERY 0 (registry_handles s)) as [h hs']. destruct Hk as (Hh & Hrh & Hk).
  destruct (Z.eqb_spec h WINDOWS_HANDLE64_INVALID) as [_|Hhn]; [rewrite Hk in Hr; discriminate Hr|]. destruct Hk as (_ & Hid & _). split; [done|].
  destruct (Hback Hhn) as (Hkey & Hpr & Htab). rewrite <- Hh in Hkey, Hpr, Htab. rewrite <- Hrh in Hkey, Hhn.
  unfold admitted in Ha. rewrite !andb_true_iff, !negb_true_iff, !Z.eqb_neq in Ha. destruct Ha as [[[Hp Hpo] _] _].
  apply query_answer; [done|by rewrite Hpr|done..].
Qed.

End keys.

(** ** A small kernel with a registry *)

Lemma demo_routes endpoint rt owner w : True -> fst (capability64_grant_service endpoint rt owner w) <> CAPABILITY64_INVALID_HANDLE ->
  fst (capability64_route (fst (capability64_grant_service endpoint rt owner w)) rt owner (snd (capability64_grant_service endpoint rt owner w))) <> CAPABILITY64_INVALID_HANDLE.
Proof. intros _ _. cbn. unfold demo_rights. cbn. by rewrite lookup_insert_eq, Z.eqb_refl, Z.land_diag, Z.eqb_refl. Qed.

#[export] Instance demo_laws : GrantLaws caps := {| broker_ok _ := True; grant_routes := demo_routes; grant_principal _ _ _ _ _ := eq_refl |}.

(** Zeroed keys, as the program is loaded. *)
Definition demo_loaded (hs : handle_state caps) : registry_state caps :=
  mk_registry (replicate 4 (mk_dynamic 0 0 0 (replicate 192 0))) 0 0 0 0 0 0 0 0 0 0 hs.
Definition demo_registry : registry_state caps := snd (windows_registry64_init (demo_loaded demo_state)).

(** After the start the registry has its fixed names only. *)
Lemma init_holds {W} `{HandleWorld W} (s : registry_state W) : length (g_windows_registry64_dynamic_keys s) = WINDOWS_REGISTRY64_DYNAMIC_KEY_LIMIT ->
  wp windows_registry64_init (fun _ s' => holds_names [] (g_windows_registry64_dynamic_keys s') /\ registry_handles s' = registry_handles s) s.
Proof.
  intros Hl. apply wp_modify. split; [|done]. eexists [], _. cbn [app]. split; [reflexivity|].
  split_and!; [cbn; by rewrite length_imap|done|done| |]; apply Forall_lookup; intros i k (k0 & _ & ->)%list_lookup_imap_Some; [done|].
  apply length_replicate.
Qed.

Lemma demo_loaded_holds hs : wp windows_registry64_init (fun _ s' => holds_names [] (g_windows_registry64_dynamic_keys s') /\ registry_handles s' = hs) (demo_loaded hs).
Proof. by apply init_holds. Qed.
Lemma demo_registry_holds : holds_names [] (g_windows_registry64_dynamic_keys demo_registry).
Proof. exact (proj1 (demo_loaded_holds demo_state)). Qed.
Lemma demo_registry_handles : registry_handles demo_registry = demo_state.
Proof. exact (proj2 (demo_loaded_holds demo_state)). Qed.

Definition demo_path : list Z := Process.bytes_of "\registry\machine\software\microsoft/windows nt/CurrentVersion".
Definition demo_new_path : list Z := Process.bytes_of "\Registry\Machine\Software\Demo".

(** Case and slashes do not count; what is missing is not opened, and is
    created once. *)
Example demo_open : fst (fst (windows_registry64_open_key 1 demo_path 0 demo_registry)) = WINDOWS_ABI64_STATUS_SUCCESS
  /\ r_key_id (snd (fst (windows_registry64_open_key 1 demo_path 0 demo_registry))) = WINDOWS_REGISTRY64_KEY_CURRENT_VERSION
  /\ fst (fst (windows_registry64_open_key 1 demo_new_path 0 demo_registry)) = WINDOWS_ABI64_STATUS_OBJECT_NAME_NOT_FOUND
  /\ fst (fst (windows_registry64_open_key 3 demo_path 0 demo_registry)) = WINDOWS_ABI64_STATUS_INVALID_PARAMETER.
Proof. vm_compute. auto. Qed.

Example demo_create : fst (spec_create [] demo_new_path) = 16
  /\ fst (spec_create (snd (spec_create [] demo_new_path)) demo_new_path) = 16 /\ length (snd (spec_create (snd (spec_create [] demo_new_path)) demo_new_path)) = 1%nat.
Proof. vm_compute. auto. Qed.

Lemma registry_calls_refine_names_witness : admitted 1 demo_new_path (registry_handles demo_registry) = true
  /\ holds_names [fold_name demo_new_path] (g_windows_registry64_dynamic_keys (snd (registry_call true 1 demo_new_path 0 demo_registry)))
  /\ windows_registry64_find_key demo_new_path (snd (registry_call true 1 demo_new_path 0 demo_registry)) = 16.
Proof.
  assert (Ha : admitted 1 demo_new_path (registry_handles demo_registry) = true) by (vm_compute; reflexivity).
  pose proof (wp_run _ _ _ _ _ (surjective_pairing _) (registry_calls_refine_names true 1 demo_new_path 0 [] demo_registry demo_registry_holds)) as H. cbv beta in H. rewrite Ha in H.
  destruct H as [H1 [_ [H2 _]]].
  assert (Hs : spec_call true [] demo_new_path = (16, [fold_name demo_new_path])) by (vm_compute; reflexivity).
  rewrite Hs in H1, H2. cbn [fst snd] in H1, H2. split; [exact Ha|]. split; [exact H1|exact H2].
Defined.

Lemma demo_owns_table : owns_table 1 demo_state.
Proof.
  intros t tb Ht Htb.
  assert (E : table_of 1 demo_state = Some 0%nat) by (vm_compute; reflexivity). rewrite E in Ht. injection Ht as <-.
  assert (E2 : owner_id <$> g_windows_handle64_tables demo_state !! 0%nat = Some (principal_of 1 demo_state)) by (vm_compute; reflexivity).
  rewrite Htb in E2. by injection E2.
Qed.

Definition demo_name : list Z := Process.bytes_of "currentversion".

Lemma registry_open_query_roundtrip_witness :
  fst (fst (registry_call false 1 demo_path 0 demo_registry)) = WINDOWS_ABI64_STATUS_SUCCESS
  /\ q_data (snd (value_answer WINDOWS_REGISTRY64_KEY_CURRENT_VERSION demo_name)) = Some (Process.bytes_of "10.0")
  /\ wp (windows_registry64_query_value 1 (r_handle (snd (fst (registry_call false 1 demo_path 0 demo_registry)))) demo_name WINDOWS_REGISTRY64_VALUE_INFORMATION_PARTIAL)
       (fun q _ => q = value_answer WINDOWS_REGISTRY64_KEY_CURRENT_VERSION demo_name) (snd (registry_call false 1 demo_path 0 demo_registry)).
Proof.
  assert (Hr : fst (fst (registry_call false 1 demo_path 0 demo_registry)) = WINDOWS_ABI64_STATUS_SUCCESS) by (vm_compute; reflexivity).
  pose proof (registry_open_query_roundtrip false 1 demo_path 0 [] demo_name demo_registry demo_registry_holds) as H.
  rewrite demo_registry_handles in H. assert (Hl : (0 < length demo_name <= WINDOWS_REGISTRY64_MAX_VALUE_NAME_BYTES)%nat) by (vm_compute; lia).
  specialize (H (reached_inv 5 demo_state demo_state_reached) demo_owns_table I Hl).
  assert (Hk : fst (spec_call false [] demo_path) = WINDOWS_REGISTRY64_KEY_CURRENT_VERSION) by (vm_compute; reflexivity). rewrite Hk in H.
  apply (wp_run _ _ _ _ _ (surjective_pairing _)) in H. cbv beta in H. destruct (H Hr) as [_ Hq].
  split; [exact Hr|]. split; [vm_compute; reflexivity|exact Hq].
Defined.

(** Findings: a create that fails for want of a handle keeps its new key,
    and there are four; a denied query leaves the status of success in the
    result. *)
Definition demo_crowded : registry_state caps :=
  Nat.iter 256 (fun s => snd (windows_registry64_open_key 1 demo_path 0 s)) demo_registry.

Example failed_create_keeps_key :
  fst (fst (windows_registry64_create_key 1 demo_new_path 0 demo_crowded)) = WINDOWS_ABI64_STATUS_INVALID_HANDLE
  /\ windows_registry64_live_dynamic_count demo_crowded = 0
  /\ windows_registry64_live_dynamic_count (snd (windows_registry64_create_key 1 demo_new_path 0 demo_crowded)) = 1.
Proof. vm_compute. auto. Qed.

Example denied_query_says_success :
  fst (fst (windows_registry64_query_value 1 0x48 demo_name 7 demo_registry)) = WINDOWS_ABI64_STATUS_INVALID_INFO_CLASS
  /\ q_status (snd (fst (windows_registry64_query_value 1 0x48 demo_name 7 demo_registry))) = WINDOWS_ABI64_STATUS_SUCCESS.
Proof. vm_compute. auto. Qed.

End RegistryTheorems.
